(* ===== verification/_CoqProject ===== *)
-Q . S2P
Prelude.v
Float.v
Comm.v
Config.v
Validate.v
Limits.v
TotalTorque.v
Params.v
Mit.v
Wire.v
Bus.v
Receive.v
Feedback.v
Reporting.v
Faults.v
Davout.v
Filter.v
Admission.v
Safety.v
Outbox.v
Authority.v
Physical.v
Lifecycle.v
Stop.v
Session.v
Grants.v
Send.v
Consume.v
Hazards.v
Enable.v
Activation.v
Position.v
Friction.v
Setpoint.v
Gains.v
LimitPatch.v
Journal.v
History.v
Reference.v
Acquire.v
Commit.v
Frames.v
Evidence.v
Owner.v
Grant.v
PosHold.v
HoldTick.v
HoldSafety.v
HoldRun.v
HoldFuse.v
Facets.v
Dynamics.v
Gravity.v
Loop.v
LossAdmission.v
LoopTick.v
Guard.v
WorkGuard.v
LoopSafety.v
RefQueue.v
Preflight.v
Exit.v
Gate.v
Persist.v
Overlay.v
Parse.v
Pi.v
PiStdin.v
PiSafety.v
PiResults.v
