(* ===== verification/Prelude.v ===== *)
(** * Marengo motor path: a verification library

    Marengo is the runtime of a robot arm.  An operator interface talks to a
    gateway, the gateway to the control process, and the control process runs
    [berthier] (control laws), which hands joint commands to [davout] (the
    safety supervisor, the only code that may write to a motor), which sends CAN
    frames through [robstride] (the actuator driver).  This library models the
    path from a validated configuration and a requested joint command to the
    bytes on the bus, from received bytes back to evidence and latched faults, and
    the process ([marengo-pi]) that turns operator commands into both.

    ** Files and what they model

    - [Prelude]: results with a [Panic] outcome, slices and loops, machine
      integers, byte packing, tactics ([bind_inv], [bsimp], [inv]).
    - [Float]: [f32] and [f64] as executable IEEE-754 values with the Rust
      operations on them ([min], [max], [clamp], [signum], casts), and
      [float_solve].
    - [Comm], [Params], [Mit], [Wire]: [crates/robstride/src/] [comm.rs],
      [lifecycle.rs], [identity.rs], [version.rs]; [command.rs], [params.rs];
      [motor_type.rs], [mit.rs]; [wire.rs].
    - [Bus], [Receive], [Feedback]: [bus.rs] (transmit filter, echo ledger, the
      [CanBus] trait as a type class, [MotorBus], [MemoryBus]), [receive.rs],
      [rx_time.rs], and the decoding half of [bus.rs] with [feedback.rs].
    - [Config], [Validate]: [crates/marengo-config/src/lib.rs] and
      [safety_validation.rs].
    - [Limits]: [crates/armee-kinematics/src/] [limits.rs], [lib.rs],
      [expand.rs].
    - [TotalTorque], [Faults], [Davout], [Filter]: [crates/davout/src/]
      [total_torque.rs], [faults.rs], and from [lib.rs] the shared vocabulary, the
      limit builder and the command filter.
    - [Reporting], [Admission]: [crates/davout/src/active_reporting.rs], and from
      [lib.rs] the admission of a MIT batch (pose gate, communication watchdog,
      [prepare_mit_batch], commit).
    - [Authority], [Physical]: [reference.rs] (who may be commanded, and the stamp
      of [reference_model.rs]) and [reference_physical.rs] (device epochs,
      identities, reply inboxes, silence).
    - [Lifecycle]: the supervisor's state [Sup], one record per group of fields of
      the Rust struct, with the stop path, runtime errors, estop and reporting
      synchronization of [lib.rs], [burst.rs], and the state of [drive_loss.rs].
      [Stop] proves what a stop does.
    - [Session]: reference checks, drive-loss shed, degraded episodes and
      [admit_and_send_mit_with]; [Grants] and [Send] hold their theorems.
    - [Consume]: [feedback_consumer.rs]; [Hazards] holds its theorems.
    - [Enable]: the enable path, [poll_feedback] and the identity re-read of
      [lib.rs]; [Activation] holds their theorems.
    - [Journal], [History]: the queue and worker thread of [reference_journal.rs],
      as interleaved steps, and what it appends and prunes, with the event checks of
      [reference_journal_event.rs].
    - [Reference], [Acquire], [Commit]: the pending reference work, the acquisition
      state machine of [reference_transaction.rs] on the physical backend, and the
      commits of [reference_commit.rs].  [Frames] and [Evidence] hold the shared
      lemmas, [Owner] the theorems on whole histories of requests and advances,
      [Grant] those on how permission is gained.
    - [Outbox]: [crates/chappe/src/ipc_outbox.rs] and [topics.rs].
    - [LimitPatch]: [crates/marengo-config/src/limit_patch.rs] and, on the
      supervisor, [crates/davout/src/limit_envelope.rs].
    - [Position], [Friction], [Setpoint], [Gains]: the control laws of
      [crates/berthier/src/]: planner and scaled-PD law ([position_trajectory.rs],
      [position_profile.rs], [position_law.rs]), friction and feed-forward
      ([friction.rs], [position_feedforward.rs], [mit_feedforward.rs],
      [torque_cmd.rs]), setpoint mapping ([position_setpoint.rs], with
      [marengo-config/src/speed_fraction.rs]) and gains ([gain_runtime.rs]).
    - [PosHold], [HoldTick]: [position_hold.rs] and [position_wave.rs] of
      [crates/berthier/src/]: targets, latches, fuses and retargets, and the tick
      (planner pass, composition, fuses).  [HoldSafety], [HoldRun] and [HoldFuse]
      hold its invariant and theorems.
    - [Facets]: [homing_facets.rs], [commissioning_scope.rs] and the accessors of
      the supervisor the control loop reads, up to the choice of Enable targets.
    - [Dynamics], [Gravity]: [crates/armee-dynamics/src/] [lib.rs] and
      [drive_loss.rs] (range sweep, drive-loss grid) over any gravity model, and the
      model itself ([urdf_gravity.rs], [lumped.rs]) over the interface [Geometry] of
      the linear algebra it calls.
    - [Loop], [LoopTick]: [crates/berthier/src/] [degraded.rs] and [loop.rs]: the
      control loop's state and commands, drive-loss episodes and their admission,
      the periodic cycle and construction.  [LossAdmission] holds what an admitted
      plan guarantees, [Guard] and [WorkGuard] the invariant of the supervisor
      under every operation the loop calls, [LoopSafety] the theorems on the loop.
    - [Exit]: from [crates/davout/src/lib.rs] the reporting operations the owner calls
      directly: leases, [solicit_status_feedback], [release_reporting_for_exit].
    - The robot process, [bins/marengo-pi/src/]: [RefQueue] ([reference_queue.rs]),
      [Preflight] ([gravity_preflight.rs]), [Gate] ([motion_owner.rs],
      [enable_gate.rs]), [Persist] ([limit_persist.rs]), [Overlay] ([overlay.rs], with
      [marengo-config/src/bench_joints.rs]), [Parse] (the stdin grammar of [main.rs])
      and [Pi] ([main.rs], [degraded.rs]: the handlers of both command sources, the
      control pass, the stop after a panic, the shutdown).  [PiStdin] proves that the
      stdin phase ends, [PiSafety] the invariants of a pass, [PiResults] what the
      process promises, with a bench process that runs.
    - [Safety]: what the parts guarantee together.

    ** How the code is modelled

    A [Result] is [result], whose third outcome [Panic] stands for a failed
    standard-library assertion, so that "never panics" is a theorem and not an
    assumption.  A mutable receiver ([&mut self]) is a state argument and a
    returned state.  Integers are [Z] with the wrap-around, saturation or
    truncation of the source written out; bytes are [Z] in [0, 255].  Floats are
    bit-exact except that all NaNs are one value.  Durations and instants are
    nanoseconds in [Z]; the host clock is an arbitrary stream of readings.
    Formatted messages are a template with its arguments.  A hash map is a
    [gmap], or a list of bindings in its iteration order where the code iterates;
    [Feedback.address_for_frame_order_irrelevant] shows that order does not
    matter.  Strings are ASCII: one character is one Rust [char], and trimming
    removes ASCII whitespace.  Log and trace output is left out.

    To the supervisor, reference work (acquisitions and durable commits) is a type
    class, [ReferenceWork], with the few laws it relies on, and observing that work
    the parameter [observed]; [Reference.OwnerWork] is the instance of the code,
    [Acquire.observed] what its two observations find.  Shared outcomes ([Rc]) are pointers into a
    heap of retained outcomes.  The rendering of an error is the parameter
    [display]; the bytes of the policy codec and of the database are parameters
    too.  A bus is any instance of [CanBus]; theorems about the
    wire use [Reporting.Spy], which records every attempted frame of a bus it
    wraps.

    Six loops need fuel.  The receive loop runs on one more than the attempt cap,
    at most 257, and [drain_returns_sound_report] proves that it always returns
    within it.  The identity re-read ([Enable.identity_rounds]) ends when every
    drive has answered or the host clock passes its deadline, so its number of
    rounds depends on the clock: its fuel is an argument, [Panic] marks fuel that
    ran out, and the theorems hold for every amount of fuel, the outcome without
    an answer included.  The walk from a link to the root ([Gravity.walk_up]) has
    the number of joints as fuel, and [gravity_model_total] proves it enough, as
    [LossAdmission.loss_admission_sound] does for the nested counters of the
    drive-loss grid.  The exit reporting has one round more than there are drives and
    the stdin phase of a pass fuel quadratic in the commands it can meet;
    [exit_reporting_complete] and [stdin_phase_ends] prove both enough.  A slice of the
    gravity sweep is bounded by its samples.  Every other loop runs over a list.

    ** What the theorems show

    - Configuration to command (Safety, Filter, Limits, TotalTorque, Config): a
      profile the validators accept yields one well-formed policy per joint, and
      under it the filter is total and never emits a command outside the hard
      bounds, velocity, gain or torque caps.
    - Command to wire (Mit, Params, Wire, Bus): encoders accept exactly the vendor
      envelope and round-trip through the decoders; a batch is all or nothing;
      calibration registers are never written; own echoes are recognised once.
    - Wire to evidence (Receive, Feedback): every poll returns within its bounds
      with exactly what the backend delivered; evidence is attributed to the right
      motor, in order, and none from a configured drive is lost; stamps never run
      backwards.
    - Faults: latches persist, records are unambiguous and bounded.
    - Admission and reporting: while Active nothing but a neutral frame within the
      enable window is admitted without a current pose of every active motor;
      only sent feedforward is remembered; type-24 writes keep their spacing, write
      only what is wanted, and the applied bits follow the accepted writes.
    - Supervisor (Stop, Grants, Send, Hazards, Activation): a stop reaches every
      installed drive and leaves nothing running; estop, runtime errors, drains
      and expired episodes fail closed; no delivered hazard is lost (a shed drive's mode counts after its
      reply grace); poses come
      from trusted frames; a valid reference rests on live evidence; a lost drive
      costs its planned subtree or stops the arm; batches are sent only to
      active, permitted joints; enabling is gated, paced and all or nothing.
    - References (Authority, Physical): permission comes only from a selection, the
      generation follows coverage, an unchanged epoch certifies the coordinate,
      and silence ends a grant.
    - Acquisition (Owner): over any history of calls one acquisition at most is live,
      each phase moves it on or ends it with every drive stopped, deadlines are
      enforced, evidence is staged only from the readback its own call drained, within
      the configured tolerance, and nothing is granted.
    - Commit and journal (Grant, Journal, History): a joint gains permission only
      from staged evidence that still holds when the journal's durable answer to
      its own job is taken; accepted jobs are never lost and a closed journal
      drains; the journal's answers are true and pruning keeps the newest rows.
    - Outbox: every interleaving of publishers and writer is a run of an abstract
      queue over the same clock; nothing is lost unaccounted; events are served.
    - Limit patches: a patch installs a checked envelope and revokes every
      permission, or changes nothing.
    - Position hold (HoldSafety, HoldFuse): a tick is total, sends one command per
      joint inside its limits or trips a fuse; retargets are atomic; a jammed joint
      trips within two seconds however it is retargeted.
    - Control laws: a planned reference never passes its target, feed-forward is
      bounded and bumpless, setpoints stay in the envelope, and the gains on the
      wire are override, ramp or configuration, never above the motor's ceilings.
    - Gravity and drive loss (Gravity, LossAdmission): an accepted model answers
      every pose without a panic, its subtrees are closed, and a drive-loss plan is
      admitted only when the joints that keep holding can carry what is lost.
    - Control loop (LoopSafety): over every sequence of ticks and commands the
      supervisor stays in order and only an Enable activates; a failed tick leaves
      nothing commanded; intent does not survive a stop; an episode takes no motion
      commands.
    - Process parts (RefQueue, Preflight, Persist, Exit, Parse): queues account for
      everything they take; a sweep that passes covered its whole grid; the exit
      report is complete; typed input always ends in Quit.
    - Process (PiStdin, PiSafety, PiResults): over any passes and any commands of both
      sources the supervisor stays in order, only the motion owner's Enable
      activates, and only after a sweep that passed; a Disable prevails (with the one
      gap [held_enable_outlives_disable] shows); a shutdown stops.

    ** What is not modelled

    The Linux SocketCAN backend (sockets, netlink, file locks), YAML and XML
    parsing, the SQLite file behind the reference journal (its calls may fail at any
    point and the file may hold other rows than a commit wrote), the policy codecs, the virtual (simulation) reference backend,
    the construction of the supervisor and of the process from files and arguments,
    the content of heartbeats, telemetry and the limit snapshot, the IPC sockets and
    gateway processes, the position trace of [berthier], offline calibration and log
    analysis, the bench tools, the IMU driver, storage, deployment and host metrics:
    input and output around the motor path, or offline tools.

    ** Plan

    Next: the IMU framing and the file formats of [marengo-config]. *)

From Stdlib Require Import ZArith Lia Bool.
From stdpp Require Import base gmap strings list.

#[global] Open Scope Z_scope.

(** ** Fallible computations

    [result E A] is Rust's [Result<A, E>] with one more outcome: [Panic], for a
    standard-library assertion ([f64::clamp] with [min > max] or a NaN bound).
    Code that cannot panic is proved never to return it. *)

Inductive result (E A : Type) : Type :=
| Ok (a : A)
| Err (e : E)
| Panic.

Arguments Ok {E A} _.
Arguments Err {E A} _.
Arguments Panic {E A}.

Definition rbind {E A B : Type} (r : result E A) (k : A -> result E B) : result E B :=
  match r with
  | Ok a => k a
  | Err e => Err e
  | Panic => Panic
  end.

(** Rust's [Option::ok_or]. *)
Definition ok_or {E A : Type} (o : option A) (e : E) : result E A :=
  match o with Some a => Ok a | None => Err e end.

(** Rust's [Result::map_err]. *)
Definition map_err {E F A : Type} (f : E -> F) (r : result E A) : result F A :=
  match r with
  | Ok a => Ok a
  | Err e => Err (f e)
  | Panic => Panic
  end.

(** [refuse_if b e] is [if b { return Err(e) }]. *)
Definition refuse_if {E : Type} (b : bool) (e : E) : result E unit :=
  if b then Err e else Ok tt.

Declare Scope rust_scope.
Delimit Scope rust_scope with rust.
Notation "'let!' x ':=' r 'in' k" := (rbind r (fun x => k))
  (at level 10, x pattern, r at level 100, k at level 200) : rust_scope.
Notation "r ';!' k" := (rbind r (fun _ => k))
  (at level 100, k at level 200, right associativity) : rust_scope.
#[global] Open Scope rust_scope.

(** Loop over a slice with early return: [for x in l { f(x)?; }]. *)
Fixpoint try_for_each {E A : Type} (f : A -> result E unit) (l : list A) : result E unit :=
  match l with
  | [] => Ok tt
  | x :: rest => f x ;! try_for_each f rest
  end.

(** [Iterator::find]. *)
Fixpoint find_first {A : Type} (p : A -> bool) (l : list A) : option A :=
  match l with
  | [] => None
  | x :: rest => if p x then Some x else find_first p rest
  end.

(** ** Machine integers *)

Definition U8_MAX : Z := 255.
Definition U16_MAX : Z := 65535.
Definition U32_MAX : Z := 4294967295.
Definition U64_MAX : Z := 18446744073709551615.

Definition is_u8 (z : Z) : Prop := 0 <= z <= U8_MAX.
Definition is_u16 (z : Z) : Prop := 0 <= z <= U16_MAX.
Definition is_u32 (z : Z) : Prop := 0 <= z <= U32_MAX.
Definition is_u64 (z : Z) : Prop := 0 <= z <= U64_MAX.

(** Truncating casts [as u8], [as u16]. *)
Definition as_u8 (z : Z) : Z := Z.land z 255.
Definition as_u16 (z : Z) : Z := Z.land z 65535.

(** [u64::saturating_add] and [u32::saturating_add]. *)
Definition sat_add_u64 (a b : Z) : Z := Z.min (a + b) U64_MAX.
Definition sat_add_u32 (a b : Z) : Z := Z.min (a + b) U32_MAX.

(** [u64::checked_add]. *)
Definition checked_add_u64 (a b : Z) : option Z :=
  if a + b <=? U64_MAX then Some (a + b) else None.

(** ** Proof automation *)

Create HintDb rust.

(** Split a [match]/[if] found in a hypothesis or in the goal. *)
Ltac case_on t := let E := fresh "E" in destruct t eqn:E.

Ltac split_match_in H :=
  match type of H with
  | context [match ?x with _ => _ end] => case_on x; simpl in H
  end.

(** Undo one monadic bind in a hypothesis [H : rbind r k = Ok _]. *)
Ltac bind_inv H :=
  match type of H with
  | rbind ?r _ = _ =>
      let x := fresh "x" in let E := fresh "E" in
      destruct r as [x| |] eqn:E; cbn [rbind] in H; try discriminate H
  end.

(** Boolean tests to propositions. *)
Ltac bsimp :=
  repeat match goal with
  | H : _ && _ = true |- _ => apply andb_prop in H; destruct H
  | H : _ || _ = false |- _ => apply orb_false_elim in H; destruct H
  | H : negb _ = true |- _ => apply negb_true_iff in H
  | H : negb _ = false |- _ => apply negb_false_iff in H
  | H : refuse_if ?b _ = Ok _ |- _ =>
      unfold refuse_if in H; destruct b eqn:?; [discriminate H|clear H]
  | H : (_ <=? _)%Z = true |- _ => apply Z.leb_le in H
  | H : (_ <=? _)%Z = false |- _ => apply Z.leb_gt in H
  | H : (_ <? _)%Z = true |- _ => apply Z.ltb_lt in H
  | H : (_ <? _)%Z = false |- _ => apply Z.ltb_ge in H
  | H : (_ =? _)%Z = true |- _ => apply Z.eqb_eq in H
  | H : (_ =? _)%Z = false |- _ => apply Z.eqb_neq in H
  end.

(** ** Generic lemmas *)

Lemma find_first_some {A : Type} (p : A -> bool) (l : list A) (x : A) :
  find_first p l = Some x -> In x l /\ p x = true.
Proof.
  induction l as [|y l IH]; simpl; [discriminate|].
  destruct (p y) eqn:E; intros H.
  - inv H. auto.
  - destruct (IH H). auto.
Qed.

Lemma find_first_none {A : Type} (p : A -> bool) (l : list A) :
  find_first p l = None <-> forall x, In x l -> p x = false.
Proof.
  induction l as [|y l IH]; simpl; [split; auto; contradiction|].
  destruct (p y) eqn:E; split; intros H.
  - discriminate.
  - specialize (H y (or_introl eq_refl)). congruence.
  - intros x [->|Hin]; [exact E|]. apply IH; auto.
  - apply IH. auto.
Qed.

Lemma try_for_each_ok {E A : Type} (f : A -> result E unit) (l : list A) :
  try_for_each f l = Ok tt <-> forall x, In x l -> f x = Ok tt.
Proof.
  induction l as [|y l IH]; simpl; [split; auto; contradiction|].
  destruct (f y) as [[]| |] eqn:E'; simpl; split; intros H; try discriminate.
  - intros x [->|Hin]; [exact E'|]. apply IH; auto.
  - apply IH. auto.
  - specialize (H y (or_introl eq_refl)). congruence.
  - specialize (H y (or_introl eq_refl)). congruence.
Qed.

Lemma rbind_not_panic {E A B : Type} (r : result E A) (k : A -> result E B) :
  r <> Panic -> (forall a, r = Ok a -> k a <> Panic) -> rbind r k <> Panic.
Proof. destruct r; simpl; intros H1 H2; auto; discriminate. Qed.

Lemma ok_or_ok {E A : Type} (o : option A) (e : E) (a : A) :
  ok_or o e = Ok a -> o = Some a.
Proof. destruct o; simpl; congruence. Qed.

Lemma sat_add_u64_range (a b : Z) : is_u64 a -> 0 <= b -> is_u64 (sat_add_u64 a b).
Proof. unfold is_u64, sat_add_u64, U64_MAX. lia. Qed.

Lemma sat_add_u64_mono (a b : Z) : a <= U64_MAX -> 0 <= b -> a <= sat_add_u64 a b.
Proof. unfold sat_add_u64, U64_MAX. lia. Qed.

(** ** Byte order and bit fields *)

Definition u16_from_be (hi lo : Z) : Z := hi * 256 + lo.
Definition u16_from_le (lo hi : Z) : Z := lo + hi * 256.
Definition u32_from_le (a b c d : Z) : Z := a + b * 256 + c * 65536 + d * 16777216.
Definition u16_to_be (v : Z) : list Z := [v / 256; v mod 256].
Definition u16_to_le (v : Z) : list Z := [v mod 256; v / 256].
Definition u32_to_le (v : Z) : list Z :=
  [v mod 256; (v / 256) mod 256; (v / 65536) mod 256; v / 16777216].

(** [data[i]] of a fixed array, whose index the compiler has checked. *)
Definition byte_at (data : list Z) (i : nat) : Z := nth i data 0.

(** A byte string: every element is a [u8]. *)
Definition bytes_ok (l : list Z) : Prop := Forall is_u8 l.

(** Linear arithmetic with division and remainder by constants. *)
Ltac dlia := Z.to_euclidean_division_equations; lia.

Lemma shiftr_div (a n : Z) : 0 <= n -> Z.shiftr a n = a / 2 ^ n.
Proof. apply Z.shiftr_div_pow2. Qed.

Lemma land_ones_mod (a n : Z) : 0 <= n -> Z.land a (2 ^ n - 1) = a mod 2 ^ n.
Proof. intros. rewrite <- Z.land_ones by lia. f_equal. rewrite Z.ones_equiv. lia. Qed.

Lemma land_255 (a : Z) : Z.land a 255 = a mod 256.
Proof. apply (land_ones_mod a 8). lia. Qed.
Lemma land_65535 (a : Z) : Z.land a 65535 = a mod 65536.
Proof. apply (land_ones_mod a 16). lia. Qed.
Lemma land_31 (a : Z) : Z.land a 31 = a mod 32.
Proof. apply (land_ones_mod a 5). lia. Qed.
Lemma land_63 (a : Z) : Z.land a 63 = a mod 64.
Proof. apply (land_ones_mod a 6). lia. Qed.
Lemma land_3 (a : Z) : Z.land a 3 = a mod 4.
Proof. apply (land_ones_mod a 2). lia. Qed.

(** Bit fields below and above a boundary do not overlap: [|] is [+]. *)
Lemma lor_shiftl_add (a b n : Z) : 0 <= n -> 0 <= b < 2 ^ n -> Z.lor (Z.shiftl a n) b = a * 2 ^ n + b.
Proof.
  intros Hn Hb. rewrite Z.shiftl_mul_pow2 by lia. symmetry.
  rewrite <- Z.lxor_lor.
  - apply Z.add_nocarry_lxor. apply Z.bits_inj'. intros i Hi.
    rewrite Z.land_spec, Z.bits_0.
    destruct (Z.ltb_spec i n).
    + rewrite Z.mul_pow2_bits_low by lia. reflexivity.
    + rewrite <- (Z.mod_small b (2 ^ n)), Z.mod_pow2_bits_high by lia. apply andb_false_r.
  - apply Z.bits_inj'. intros i Hi. rewrite Z.land_spec, Z.bits_0.
    destruct (Z.ltb_spec i n).
    + rewrite Z.mul_pow2_bits_low by lia. reflexivity.
    + rewrite <- (Z.mod_small b (2 ^ n)), Z.mod_pow2_bits_high by lia. apply andb_false_r.
Qed.

Create Rewrite HintDb bits.
#[export] Hint Rewrite land_255 land_65535 land_31 land_63 land_3 : bits.

Lemma u16_be_roundtrip (v : Z) : u16_from_be (v / 256) (v mod 256) = v.
Proof. unfold u16_from_be. pose proof (Z.div_mod v 256). lia. Qed.

Lemma u16_le_roundtrip (v : Z) : u16_from_le (v mod 256) (v / 256) = v.
Proof. unfold u16_from_le. pose proof (Z.div_mod v 256). lia. Qed.

Lemma u32_le_roundtrip (v : Z) :
  u32_from_le (v mod 256) ((v / 256) mod 256) ((v / 65536) mod 256) (v / 16777216) = v.
Proof.
  unfold u32_from_le.
  replace (v / 65536) with (v / 256 / 256) by (rewrite Z.div_div by lia; reflexivity).
  replace (v / 16777216) with (v / 256 / 256 / 256) by (rewrite !Z.div_div by lia; reflexivity).
  pose proof (Z.div_mod v 256). pose proof (Z.div_mod (v / 256) 256).
  pose proof (Z.div_mod (v / 256 / 256) 256). lia.
Qed.

Lemma u16_to_be_ok (v : Z) : is_u16 v -> bytes_ok (u16_to_be v).
Proof.
  unfold is_u16, U16_MAX, bytes_ok, u16_to_be, is_u8, U8_MAX. intros.
  apply Forall_cons. split; [dlia|]. apply Forall_cons. split; [dlia|constructor].
Qed.
