(* ===== verification/Float.v ===== *)
(** * IEEE-754 arithmetic as the Rust sources use it

    [f32] and [f64] are the standard library's executable specification of
    IEEE-754 ([SpecFloat]): signed zeros, infinities, one NaN, and finite numbers
    [(-1)^s * m * 2^e].  Every arithmetic operation rounds to nearest even, as the
    hardware does, so the model computes the very bits the program computes
    (NaN payloads apart, which the program never inspects).

    The order lemmas do not need canonical representations: IEEE comparison is
    a lexicographic comparison of three integers ([fcls], [fexpo], [fmant]), and
    [float_solve] decides goals about [<=], [<], [abs], negation, [min], [max]
    and [clamp] by handing those integers to [lia]. *)

From Stdlib Require Import ZArith Lia Bool SpecFloat.
From stdpp Require Import base strings list.
From S2P Require Import Prelude.

Abbreviation f32 := spec_float.
Abbreviation f64 := spec_float.

Definition prec32 : Z := 24.
Definition emax32 : Z := 128.
Definition prec64 : Z := 53.
Definition emax64 : Z := 1024.

(** ** Classification and comparison *)

Definition is_nan (x : spec_float) : bool :=
  match x with S754_nan => true | _ => false end.

Definition is_finite (x : spec_float) : bool :=
  match x with S754_zero _ | S754_finite _ _ _ => true | _ => false end.

Definition flt (x y : spec_float) : bool := SFltb x y.
Definition fle (x y : spec_float) : bool := SFleb x y.
Definition fgt (x y : spec_float) : bool := flt y x.
Definition fge (x y : spec_float) : bool := fle y x.
Definition feq (x y : spec_float) : bool := SFeqb x y.

Definition fzero : spec_float := S754_zero false.
Definition finfinity : spec_float := S754_infinity false.

Definition fneg (x : spec_float) : spec_float := SFopp x.
Definition fabs (x : spec_float) : spec_float := SFabs x.

(** [f64::max]/[f64::min]: a NaN operand is ignored.  The sign of a zero result
    for operands [0.0] and [-0.0] is unspecified in Rust; the model keeps [x]. *)
Definition fmax (x y : spec_float) : spec_float :=
  if is_nan x then y else if is_nan y then x else if flt x y then y else x.
Definition fmin (x y : spec_float) : spec_float :=
  if is_nan x then y else if is_nan y then x else if flt y x then y else x.

(** [f64::clamp]: [assert!(min <= max)], then two comparisons. *)
Definition fclamp {E : Type} (x lo hi : spec_float) : result E spec_float :=
  if fle lo hi
  then Ok (let x := if flt x lo then lo else x in if fgt x hi then hi else x)
  else Panic.

(** [RangeInclusive::contains]. *)
Definition in_range (lo hi x : spec_float) : bool := fle lo x && fle x hi.

(** ** Arithmetic *)

Definition add64 (x y : f64) : f64 := SFadd prec64 emax64 x y.
Definition sub64 (x y : f64) : f64 := SFsub prec64 emax64 x y.
Definition mul64 (x y : f64) : f64 := SFmul prec64 emax64 x y.
Definition div64 (x y : f64) : f64 := SFdiv prec64 emax64 x y.
Definition add32 (x y : f32) : f32 := SFadd prec32 emax32 x y.
Definition sub32 (x y : f32) : f32 := SFsub prec32 emax32 x y.
Definition mul32 (x y : f32) : f32 := SFmul prec32 emax32 x y.
Definition div32 (x y : f32) : f32 := SFdiv prec32 emax32 x y.

(** [x.powi(2)]: one rounded multiplication. *)
Definition sq64 (x : f64) : f64 := mul64 x x.

(** Conversions from integers ([as f64], [f32::from(u16)]). *)
Definition f64_of_Z (n : Z) : f64 := binary_normalize prec64 emax64 n 0 false.
Definition f32_of_Z (n : Z) : f32 := binary_normalize prec32 emax32 n 0 false.

(** A decimal literal [n / d] with [n], [d] exactly representable: the division
    is correctly rounded, as the compiler's literal is. *)
Definition lit64 (n d : Z) : f64 := div64 (f64_of_Z n) (f64_of_Z d).
Definition lit32 (n d : Z) : f32 := div32 (f32_of_Z n) (f32_of_Z d).

(** [f64::from(x : f32)], exact, and [x as f32], rounded to nearest even. *)
Definition f64_of_f32 (x : f32) : f64 :=
  match x with
  | S754_finite s m e => binary_round prec64 emax64 s m e
  | _ => x
  end.
Definition f32_of_f64 (x : f64) : f32 :=
  match x with
  | S754_finite s m e => binary_round prec32 emax32 s m e
  | _ => x
  end.

(** [f64::signum]: [1.0] or [-1.0] by the sign bit, zeros included; NaN for NaN. *)
Definition fsignum (x : f64) : f64 :=
  match x with
  | S754_nan => S754_nan
  | S754_zero s | S754_infinity s | S754_finite s _ _ =>
      if s then f64_of_Z (-1) else f64_of_Z 1
  end.

(** Integer part of [|x| + 1/2]: the magnitude [f32::round] returns (ties away
    from zero). *)
Definition round_half_up (m : positive) (e : Z) : Z :=
  if 0 <=? e then Z.shiftl (Zpos m) e
  else (Zpos m + 2 ^ (- e - 1)) / 2 ^ (- e).

Definition fround32 (x : f32) : f32 :=
  match x with
  | S754_finite s m e =>
      match round_half_up m e with
      | Zpos n => binary_round prec32 emax32 s n 0
      | _ => S754_zero s
      end
  | _ => x
  end.

(** [x as u16]: truncation, saturating at both ends, NaN to [0]. *)
Definition u16_of_float (x : spec_float) : Z :=
  match x with
  | S754_nan | S754_zero _ => 0
  | S754_infinity s => if s then 0 else U16_MAX
  | S754_finite true _ _ => 0
  | S754_finite false m e =>
      Z.min (if 0 <=? e then Z.shiftl (Zpos m) e else Zpos m / 2 ^ (- e)) U16_MAX
  end.

(** ** Bits ([f32::to_bits] / [f32::from_bits]) *)

Definition f32_to_bits (x : f32) : Z :=
  match x with
  | S754_zero s => if s then 2147483648 else 0
  | S754_infinity s => if s then 4286578688 else 2139095040
  | S754_nan => 2143289344
  | S754_finite s m e =>
      (if s then 2147483648 else 0) +
      (if Zpos m <? 8388608 then Zpos m else (e + 150) * 8388608 + (Zpos m - 8388608))
  end.

Definition f32_of_bits (b : Z) : f32 :=
  let s := 2147483648 <=? b in
  let r := b mod 2147483648 in
  let ex := r / 8388608 in
  let fr := r mod 8388608 in
  if ex =? 255 then (if fr =? 0 then S754_infinity s else S754_nan)
  else if ex =? 0 then
    match fr with Zpos p => S754_finite s p (-149) | _ => S754_zero s end
  else match fr + 8388608 with Zpos p => S754_finite s p (ex - 150) | _ => S754_nan end.

(** ** Formatted messages: a [format!] template and its interpolated values *)

Inductive fmt_arg : Type :=
| AF64 (x : f64)
| AStr (s : string)
| AInt (n : Z).

Record message : Type := Msg { msg_template : string; msg_args : list fmt_arg }.

Definition msg (s : string) : message := Msg s [].

(** ** The order key

    [x <= y] for non-NaN floats is the lexicographic order of these three. *)

Definition fcls (x : spec_float) : Z :=
  match x with
  | S754_infinity true => -2
  | S754_finite true _ _ => -1
  | S754_zero _ | S754_nan => 0
  | S754_finite false _ _ => 1
  | S754_infinity false => 2
  end.
Definition fexpo (x : spec_float) : Z :=
  match x with S754_finite s _ e => if s then - e else e | _ => 0 end.
Definition fmant (x : spec_float) : Z :=
  match x with S754_finite s m _ => if s then Zneg m else Zpos m | _ => 0 end.

Definition klt (x y : spec_float) : Prop :=
  fcls x < fcls y \/ fcls x = fcls y /\
  (fexpo x < fexpo y \/ fexpo x = fexpo y /\ fmant x < fmant y).
Definition kle (x y : spec_float) : Prop :=
  fcls x < fcls y \/ fcls x = fcls y /\
  (fexpo x < fexpo y \/ fexpo x = fexpo y /\ fmant x <= fmant y).

(** ** Comparison through the key *)

Lemma SFcompare_key (x y : spec_float) :
  is_nan x = false -> is_nan y = false ->
  exists c, SFcompare x y = Some c /\
    match c with
    | Lt => klt x y
    | Gt => klt y x
    | Eq => fcls x = fcls y /\ fexpo x = fexpo y /\ fmant x = fmant y
    end.
Proof.
  destruct x as [[]|[]| |[] m1 e1], y as [[]|[]| |[] m2 e2]; try discriminate;
    intros _ _; eexists; (split; [reflexivity|]);
    unfold klt; simpl; try lia.
  all: destruct (Z.compare_spec e1 e2); simpl; try lia.
  all: rewrite ?Pos.compare_cont_spec; simpl.
  all: destruct (Pos.compare_spec m1 m2); simpl; lia.
Qed.

Lemma flt_iff (x y : spec_float) :
  flt x y = true <-> is_nan x = false /\ is_nan y = false /\ klt x y.
Proof.
  unfold flt, SFltb. destruct (is_nan x) eqn:Hx; [destruct x; try discriminate; simpl; intuition discriminate|].
  destruct (is_nan y) eqn:Hy; [destruct x, y; try discriminate; simpl; intuition discriminate|].
  destruct (SFcompare_key x y Hx Hy) as ([] & -> & K); unfold klt in *; intuition (discriminate || lia).
Qed.

Lemma fle_iff (x y : spec_float) :
  fle x y = true <-> is_nan x = false /\ is_nan y = false /\ kle x y.
Proof.
  unfold fle, SFleb. destruct (is_nan x) eqn:Hx; [destruct x; try discriminate; simpl; intuition discriminate|].
  destruct (is_nan y) eqn:Hy; [destruct x, y; try discriminate; simpl; intuition discriminate|].
  destruct (SFcompare_key x y Hx Hy) as ([] & -> & K); unfold klt, kle in *; intuition (discriminate || lia).
Qed.

Lemma feq_iff (x y : spec_float) :
  feq x y = true <->
  is_nan x = false /\ is_nan y = false /\
  fcls x = fcls y /\ fexpo x = fexpo y /\ fmant x = fmant y.
Proof.
  unfold feq, SFeqb. destruct (is_nan x) eqn:Hx; [destruct x; try discriminate; simpl; intuition discriminate|].
  destruct (is_nan y) eqn:Hy; [destruct x, y; try discriminate; simpl; intuition discriminate|].
  destruct (SFcompare_key x y Hx Hy) as ([] & -> & K); unfold klt in *; intuition (discriminate || lia).
Qed.

Lemma flt_false (x y : spec_float) :
  is_nan x = false -> is_nan y = false -> flt x y = false <-> kle y x.
Proof.
  intros Hx Hy. unfold flt, SFltb.
  destruct (SFcompare_key x y Hx Hy) as ([] & -> & K); unfold klt, kle in *; intuition (discriminate || lia).
Qed.

Lemma fle_false (x y : spec_float) :
  is_nan x = false -> is_nan y = false -> fle x y = false <-> klt y x.
Proof.
  intros Hx Hy. unfold fle, SFleb.
  destruct (SFcompare_key x y Hx Hy) as ([] & -> & K); unfold klt, kle in *; intuition (discriminate || lia).
Qed.

Lemma flt_nan_l (x y : spec_float) : is_nan x = true -> flt x y = false.
Proof. destruct x; try discriminate. reflexivity. Qed.
Lemma flt_nan_r (x y : spec_float) : is_nan y = true -> flt x y = false.
Proof. destruct x, y; try discriminate; reflexivity. Qed.
Lemma fle_nan_l (x y : spec_float) : is_nan x = true -> fle x y = false.
Proof. destruct x; try discriminate. reflexivity. Qed.
Lemma fle_nan_r (x y : spec_float) : is_nan y = true -> fle x y = false.
Proof. destruct x, y; try discriminate; reflexivity. Qed.

(** ** Finiteness through the class *)

Lemma finite_iff (x : spec_float) :
  is_finite x = true <-> is_nan x = false /\ -1 <= fcls x <= 1.
Proof. destruct x as [[]|[]| |[]]; simpl; intuition (discriminate || lia). Qed.

Lemma fcls_range (x : spec_float) : -2 <= fcls x <= 2.
Proof. destruct x as [[]|[]| |[]]; simpl; lia. Qed.

(** Keys of the edge classes carry no exponent or mantissa. *)
Lemma key_edge (x : spec_float) :
  (fcls x = 2 \/ fcls x = -2 \/ fcls x = 0 -> fexpo x = 0 /\ fmant x = 0).
Proof. destruct x as [[]|[]| |[]]; simpl; lia. Qed.

Lemma fneg_key (x : spec_float) :
  fcls (fneg x) = - fcls x /\ fexpo (fneg x) = - fexpo x /\ fmant (fneg x) = - fmant x
  /\ is_nan (fneg x) = is_nan x.
Proof. destruct x as [[]|[]| |[]]; simpl; lia. Qed.

Lemma fabs_key (x : spec_float) :
  is_nan (fabs x) = is_nan x /\ 0 <= fcls (fabs x) /\
  ((0 <= fcls x /\ fcls (fabs x) = fcls x /\ fexpo (fabs x) = fexpo x /\ fmant (fabs x) = fmant x)
   \/ (fcls x < 0 /\ fcls (fabs x) = - fcls x /\ fexpo (fabs x) = - fexpo x /\ fmant (fabs x) = - fmant x)).
Proof. destruct x as [[]|[]| |[]]; simpl; lia. Qed.

Lemma fzero_key : fcls fzero = 0 /\ fexpo fzero = 0 /\ fmant fzero = 0 /\ is_nan fzero = false.
Proof. repeat split. Qed.

(** Translate every float comparison of the context to its key form. *)
Ltac float_hyps :=
  repeat match goal with
  | H : flt _ _ = true |- _ => apply flt_iff in H; destruct H as (? & ? & ?)
  | H : fle _ _ = true |- _ => apply fle_iff in H; destruct H as (? & ? & ?)
  | H : feq _ _ = true |- _ => apply feq_iff in H; destruct H as (? & ? & ? & ? & ?)
  | H : is_finite _ = true |- _ => apply finite_iff in H; destruct H as (? & ?)
  | H : flt ?x ?y = false, Hx : is_nan ?x = false, Hy : is_nan ?y = false |- _ =>
      apply (flt_false x y Hx Hy) in H
  | H : fle ?x ?y = false, Hx : is_nan ?x = false, Hy : is_nan ?y = false |- _ =>
      apply (fle_false x y Hx Hy) in H
  end.

Ltac float_keys :=
  repeat match goal with
  | |- context [fneg ?x] => lazymatch goal with
      | _ : fcls (fneg x) = _ |- _ => fail | _ => destruct (fneg_key x) as (? & ? & ? & ?) end
  | _ : context [fneg ?x] |- _ => lazymatch goal with
      | _ : fcls (fneg x) = _ |- _ => fail | _ => destruct (fneg_key x) as (? & ? & ? & ?) end
  | |- context [fabs ?x] => lazymatch goal with
      | _ : 0 <= fcls (fabs x) |- _ => fail | _ => destruct (fabs_key x) as (? & ? & ?) end
  | _ : context [fabs ?x] |- _ => lazymatch goal with
      | _ : 0 <= fcls (fabs x) |- _ => fail | _ => destruct (fabs_key x) as (? & ? & ?) end
  | |- context [fzero] => lazymatch goal with
      | _ : fcls fzero = 0 |- _ => fail | _ => destruct fzero_key as (? & ? & ? & ?) end
  | _ : context [klt fzero _] |- _ => lazymatch goal with
      | _ : fcls fzero = 0 |- _ => fail | _ => destruct fzero_key as (? & ? & ? & ?) end
  | _ : context [klt _ fzero] |- _ => lazymatch goal with
      | _ : fcls fzero = 0 |- _ => fail | _ => destruct fzero_key as (? & ? & ? & ?) end
  | _ : context [kle fzero _] |- _ => lazymatch goal with
      | _ : fcls fzero = 0 |- _ => fail | _ => destruct fzero_key as (? & ? & ? & ?) end
  | _ : context [kle _ fzero] |- _ => lazymatch goal with
      | _ : fcls fzero = 0 |- _ => fail | _ => destruct fzero_key as (? & ? & ? & ?) end
  end.

Ltac float_goal :=
  repeat match goal with
  | |- _ /\ _ => split
  | |- flt _ _ = true => apply flt_iff
  | |- fle _ _ = true => apply fle_iff
  | |- fgt _ _ = true => unfold fgt
  | |- fge _ _ = true => unfold fge
  | |- feq _ _ = true => apply feq_iff
  | |- is_finite _ = true => apply finite_iff
  end.

(** Zero and infinite operands have an empty exponent and mantissa key. *)
Ltac float_edges :=
  repeat match goal with
  | x : spec_float |- _ => lazymatch goal with
      | _ : -2 <= fcls x <= 2 |- _ => fail
      | _ => pose proof (fcls_range x); pose proof (key_edge x) end
  end.

Ltac float_solve :=
  unfold fgt, fge, in_range in *; bsimp; float_hyps; float_goal; float_keys;
  unfold klt, kle in *; try congruence; try lia;
  try (float_edges; lia).

Lemma fle_refl (x : spec_float) : is_nan x = false -> fle x x = true.
Proof. intros. float_solve. Qed.

Lemma fle_trans (x y z : spec_float) : fle x y = true -> fle y z = true -> fle x z = true.
Proof. intros. float_solve. Qed.

Lemma flt_le (x y : spec_float) : flt x y = true -> fle x y = true.
Proof. intros. float_solve. Qed.

Lemma fabs_le_iff (x c : spec_float) :
  fle (fabs x) c = true <-> fle (fneg c) x = true /\ fle x c = true.
Proof. split; [intros|intros (?&?)]; float_solve. Qed.

Lemma fabs_le_finite (x c : spec_float) :
  fle (fabs x) c = true -> is_finite c = true -> is_finite x = true.
Proof. intros. float_solve. Qed.

Lemma fle_between_finite (lo x hi : spec_float) :
  fle lo x = true -> fle x hi = true ->
  is_finite lo = true -> is_finite hi = true -> is_finite x = true.
Proof. intros. float_solve. Qed.

Lemma fneg_finite (x : spec_float) : is_finite (fneg x) = is_finite x.
Proof. destruct x; reflexivity. Qed.

Lemma fneg_nan (x : spec_float) : is_nan (fneg x) = is_nan x.
Proof. destruct x; reflexivity. Qed.

Lemma finite_not_nan (x : spec_float) : is_finite x = true -> is_nan x = false.
Proof. destruct x; simpl; congruence. Qed.

(** A symmetric interval [[-c, c]] is nonempty exactly for a nonnegative [c]. *)
Lemma fle_neg_self (c : spec_float) : fle (fneg c) c = true <-> fle fzero c = true.
Proof. split; intros; float_solve. Qed.

(** ** [min], [max], [clamp] *)

Lemma fmax_ub (x y : spec_float) :
  is_nan x = false -> is_nan y = false -> fle x (fmax x y) = true /\ fle y (fmax x y) = true.
Proof.
  intros Hx Hy. unfold fmax. rewrite Hx, Hy. destruct (flt x y) eqn:E; float_solve.
Qed.

Lemma fmin_lb (x y : spec_float) :
  is_nan x = false -> is_nan y = false -> fle (fmin x y) x = true /\ fle (fmin x y) y = true.
Proof.
  intros Hx Hy. unfold fmin. rewrite Hx, Hy. destruct (flt y x) eqn:E; float_solve.
Qed.

Lemma fmax_lub (x y z : spec_float) :
  fle x z = true -> fle y z = true -> fle (fmax x y) z = true.
Proof. unfold fmax. destruct (is_nan x), (is_nan y), (flt x y); auto. Qed.

Lemma fmin_glb (x y z : spec_float) :
  fle z x = true -> fle z y = true -> fle z (fmin x y) = true.
Proof. unfold fmin. destruct (is_nan x), (is_nan y), (flt y x); auto. Qed.

Lemma fmax_or (x y : spec_float) : fmax x y = x \/ fmax x y = y.
Proof. unfold fmax. destruct (is_nan x), (is_nan y), (flt x y); auto. Qed.

Lemma fmin_or (x y : spec_float) : fmin x y = x \/ fmin x y = y.
Proof. unfold fmin. destruct (is_nan x), (is_nan y), (flt y x); auto. Qed.

Lemma fmax_finite (x y : spec_float) :
  is_finite x = true -> is_finite y = true -> is_finite (fmax x y) = true.
Proof. intros. destruct (fmax_or x y) as [-> | ->]; assumption. Qed.

Lemma fmin_finite (x y : spec_float) :
  is_finite x = true -> is_finite y = true -> is_finite (fmin x y) = true.
Proof. intros. destruct (fmin_or x y) as [-> | ->]; assumption. Qed.

(** Clamping by [max] then [min] lands in the interval whatever the operand,
    NaN included. *)
Lemma fmax_fmin_between (x lo hi : spec_float) :
  fle lo hi = true ->
  fle lo (fmin (fmax x lo) hi) = true /\ fle (fmin (fmax x lo) hi) hi = true.
Proof.
  intros H. unfold fmin, fmax.
  destruct (is_nan x) eqn:Hx.
  - assert (is_nan lo = false /\ is_nan hi = false) as [-> ->] by float_solve.
    destruct (flt hi lo) eqn:E; float_solve.
  - assert (is_nan lo = false /\ is_nan hi = false) as [Hl Hh] by float_solve.
    rewrite Hl. destruct (flt x lo) eqn:E1.
    + rewrite Hl, Hh. destruct (flt hi lo) eqn:E; float_solve.
    + rewrite Hx, Hh. destruct (flt hi x) eqn:E; float_solve.
Qed.

Lemma fclamp_ok {E : Type} (x lo hi : spec_float) :
  fle lo hi = true -> exists y, @fclamp E x lo hi = Ok y.
Proof. intros H. unfold fclamp. rewrite H. eauto. Qed.

Lemma fclamp_panic {E : Type} (x lo hi : spec_float) :
  @fclamp E x lo hi = Panic <-> fle lo hi = false.
Proof. unfold fclamp. destruct (fle lo hi); split; congruence. Qed.

Lemma fclamp_between {E : Type} (x lo hi y : spec_float) :
  is_nan x = false -> @fclamp E x lo hi = Ok y -> fle lo y = true /\ fle y hi = true.
Proof.
  intros Hx H. unfold fclamp in H. destruct (fle lo hi) eqn:E0; [|discriminate].
  inv H. destruct (flt x lo) eqn:E1.
  - destruct (fgt lo hi) eqn:E2; float_solve.
  - unfold fgt. destruct (flt hi x) eqn:E2; float_solve.
Qed.

(** [clamp] keeps NaN and leaves an in-range operand alone, bit for bit. *)
Lemma fclamp_id {E : Type} (x lo hi : spec_float) :
  fle lo x = true -> fle x hi = true -> @fclamp E x lo hi = Ok x.
Proof.
  intros H1 H2. unfold fclamp. rewrite (fle_trans _ _ _ H1 H2).
  destruct (flt x lo) eqn:E1; [float_solve|].
  unfold fgt. destruct (flt hi x) eqn:E2; [float_solve|reflexivity].
Qed.

Lemma fclamp_not_nan {E : Type} (x lo hi y : spec_float) :
  is_nan x = false -> @fclamp E x lo hi = Ok y -> is_nan y = false.
Proof.
  intros Hx H. destruct (fclamp_between _ _ _ _ Hx H). float_solve.
Qed.

(** A non-NaN result of [clamp] is in range: the operand was not NaN. *)
Lemma fclamp_between_result {E : Type} (x lo hi y : spec_float) :
  is_nan y = false -> @fclamp E x lo hi = Ok y -> fle lo y = true /\ fle y hi = true.
Proof.
  intros Hy H. apply (@fclamp_between E x); [|exact H].
  destruct (is_nan x) eqn:Hx; [|reflexivity]. exfalso.
  unfold fclamp in H. destruct (fle lo hi); [|discriminate]. destruct x; try discriminate Hx.
  simpl in H. unfold fgt in H. rewrite flt_nan_r in H by reflexivity. congruence.
Qed.

Lemma fmin_le_l (x y : spec_float) : is_nan x = false -> fle (fmin x y) x = true.
Proof.
  intros Hx. unfold fmin. rewrite Hx. destruct (is_nan y) eqn:Hy; [now apply fle_refl|].
  destruct (flt y x) eqn:E; float_solve.
Qed.

Lemma fmin_not_nan_l (x y : spec_float) : is_nan x = false -> is_nan (fmin x y) = false.
Proof.
  intros Hx. unfold fmin. rewrite Hx. destruct (is_nan y) eqn:Hy; [exact Hx|].
  destruct (flt y x); assumption.
Qed.

(** ** Rounding never makes a NaN, and keeps the sign *)

Definition fsign (x : spec_float) : bool :=
  match x with
  | S754_zero s | S754_infinity s | S754_finite s _ _ => s
  | S754_nan => false
  end.

(** A nonnegative number: not NaN, sign bit clear. *)
Definition fpos (x : spec_float) : bool := negb (is_nan x) && negb (fsign x).

Lemma fpos_nonneg (x : spec_float) : fpos x = true -> fle fzero x = true.
Proof. destruct x as [[]|[]| |[]]; reflexivity || discriminate. Qed.

Lemma nonneg_fpos (x : spec_float) :
  fle fzero x = true -> fpos x = true \/ x = S754_zero true.
Proof. destruct x as [[]|[]| |[]]; try discriminate; auto. Qed.

Lemma shr_1_nonneg (r : shr_record) : 0 <= shr_m r -> 0 <= shr_m (shr_1 r).
Proof. destruct r as [[|[p|p|]|[p|p|]] b1 b2]; simpl; lia. Qed.

Lemma iter_shr_nonneg (n : positive) (r : shr_record) :
  0 <= shr_m r -> 0 <= shr_m (SpecFloat.iter_pos shr_1 n r).
Proof.
  revert r. induction n as [n IH|n IH|]; intros r H; simpl; auto using shr_1_nonneg.
Qed.

Lemma shr_fexp_nonneg (prec emax m e : Z) (l : location) :
  0 <= m -> 0 <= shr_m (fst (shr_fexp prec emax m e l)).
Proof.
  intros Hm. unfold shr_fexp, shr.
  assert (H : 0 <= shr_m (shr_record_of_loc m l)) by (destruct l as [|[]]; exact Hm).
  destruct (_ - e); simpl; auto using iter_shr_nonneg.
Qed.

Lemma round_even_nonneg (m : Z) (l : location) : 0 <= m -> 0 <= round_nearest_even m l.
Proof. intros H. destruct l as [|[]]; simpl; destruct (Z.even m); lia. Qed.

Lemma round_aux_sign (prec emax : Z) (s : bool) (m e : Z) (l : location) :
  0 <= m ->
  is_nan (binary_round_aux prec emax s m e l) = false /\
  fsign (binary_round_aux prec emax s m e l) = s.
Proof.
  intros Hm. unfold binary_round_aux.
  pose proof (shr_fexp_nonneg prec emax m e l Hm) as H1.
  destruct (shr_fexp prec emax m e l) as [r1 e1]. simpl in H1.
  pose proof (round_even_nonneg _ (loc_of_shr_record r1) H1) as H2.
  pose proof (shr_fexp_nonneg prec emax _ e1 loc_Exact H2) as H3.
  destruct (shr_fexp _ _ _ e1 loc_Exact) as [r2 e2]. simpl in H3.
  destruct (shr_m r2) as [|p|p]; [auto| |lia]. destruct (_ <=? _); auto.
Qed.

Lemma binary_round_sign (prec emax : Z) (s : bool) (m : positive) (e : Z) :
  is_nan (binary_round prec emax s m e) = false /\ fsign (binary_round prec emax s m e) = s.
Proof.
  unfold binary_round. destruct (shl_align m e _) as [m' e'].
  apply round_aux_sign. lia.
Qed.

Lemma f64_of_Z_pos (n : Z) : 0 <= n -> fpos (f64_of_Z n) = true.
Proof.
  intros H. unfold f64_of_Z, binary_normalize. destruct n as [|p|p]; [reflexivity| |lia].
  destruct (binary_round_sign prec64 emax64 false p 0) as [H1 H2]. unfold fpos. now rewrite H1, H2.
Qed.

Lemma mul64_pos (x y : f64) :
  fpos x = true -> fpos y = true -> is_finite y = true -> flt fzero y = true ->
  fpos (mul64 x y) = true.
Proof.
  unfold fpos, mul64, SFmul. intros Hx Hy Hf Hp.
  destruct x as [[]|[]| |[] mx ex], y as [[]|[]| |[] my ey]; try discriminate; try reflexivity.
  destruct (round_aux_sign prec64 emax64 (xorb false false) (Zpos (mx * my)) (ex + ey) loc_Exact) as [H1 H2];
    [lia|]. cbn [xorb] in H1, H2 |- *. now rewrite H1, H2.
Qed.

Lemma div64_pos (x : f64) (m : positive) (e : Z) :
  fpos x = true -> is_finite x = true -> fpos (div64 x (S754_finite false m e)) = true.
Proof.
  unfold fpos, div64, SFdiv. intros Hx Hf.
  destruct x as [[]|[]| |[] mx ex]; try discriminate; try reflexivity.
  unfold SFdiv_core_binary.
  set (e' := Z.min _ _). set (m' := match _ - e' with Zpos _ => _ | Z0 => _ | Zneg _ => _ end).
  assert (Hm : 0 <= m').
  { subst m'. destruct (_ - e'); try lia. apply Z.shiftl_nonneg. lia. }
  destruct (Z.div_eucl m' (Zpos m)) as [q r] eqn:E.
  assert (Hq : 0 <= q).
  { assert (q = m' / Zpos m) as -> by (unfold Z.div; now rewrite E). apply Z.div_pos; lia. }
  destruct (round_aux_sign prec64 emax64 (xorb false false) q e' (new_location (Zpos m) r)) as [H1 H2];
    [exact Hq|]. cbn [xorb] in H1, H2 |- *. now rewrite H1, H2.
Qed.

Lemma add64_pos (x y : f64) : fpos x = true -> fpos y = true -> fpos (add64 x y) = true.
Proof.
  unfold fpos, add64, SFadd. intros Hx Hy.
  destruct x as [[]|[]| |[] mx ex], y as [[]|[]| |[] my ey]; try discriminate; try reflexivity.
  unfold binary_normalize.
  set (z := cond_Zopp false _ + cond_Zopp false _). assert (Hz : 0 < z) by (subst z; simpl; lia).
  destruct z as [|p|p]; try lia.
  destruct (binary_round_sign prec64 emax64 false p (Z.min ex ey)) as [H1 H2]. now rewrite H1, H2.
Qed.

(** ** Bit representation round trip *)

Lemma digits2_pos_bound (m : positive) :
  2 ^ (Zpos (digits2_pos m) - 1) <= Zpos m < 2 ^ Zpos (digits2_pos m).
Proof.
  induction m as [m IH|m IH|]; cbn [digits2_pos]; [| |lia].
  all: rewrite Pos2Z.inj_succ, Z.pow_succ_r by lia.
  all: replace (Z.succ (Zpos (digits2_pos m)) - 1) with (Z.succ (Zpos (digits2_pos m) - 1)) by lia.
  all: rewrite Z.pow_succ_r by lia; lia.
Qed.

(** Canonical [f32] numbers are subnormal at the minimal exponent or have a
    24-bit mantissa. *)
Lemma valid_f32_cases (s : bool) (m : positive) (e : Z) :
  valid_binary prec32 emax32 (S754_finite s m e) = true ->
  (Zpos m < 8388608 /\ e = -149) \/
  (8388608 <= Zpos m < 16777216 /\ -149 <= e <= 104).
Proof.
  unfold valid_binary, bounded, canonical_mantissa, fexp, emin, prec32, emax32.
  intros H. bsimp. pose proof (digits2_pos_bound m) as [Hl Hu].
  set (d := Zpos (digits2_pos m)) in *.
  assert (d <= 24) by lia.
  assert (2 ^ d <= 2 ^ 24) by (apply Z.pow_le_mono_r; lia).
  destruct (Z.eq_dec d 24) as [->|]; [right|left].
  - change (2 ^ (24 - 1)) with 8388608 in Hl. change (2 ^ 24) with 16777216 in *. lia.
  - assert (2 ^ d <= 2 ^ 23) by (apply Z.pow_le_mono_r; lia).
    change (2 ^ 23) with 8388608 in *. lia.
Qed.

Lemma f32_to_bits_range (x : f32) :
  valid_binary prec32 emax32 x = true -> is_u32 (f32_to_bits x).
Proof.
  unfold is_u32, U32_MAX. destruct x as [[]|[]| |s m e]; intros H; simpl; try lia.
  apply valid_f32_cases in H. destruct s; destruct (Z.ltb_spec (Zpos m) 8388608); lia.
Qed.

Lemma f32_bits_roundtrip (x : f32) :
  valid_binary prec32 emax32 x = true -> f32_of_bits (f32_to_bits x) = x.
Proof.
  destruct x as [[]|[]| |s m e]; intros H; try reflexivity.
  apply valid_f32_cases in H. unfold f32_to_bits.
  set (sgn := if s then 2147483648 else 0).
  set (body := if Zpos m <? 8388608 then Zpos m else (e + 150) * 8388608 + (Zpos m - 8388608)).
  assert (Hb : 0 <= body < 2139095040)
    by (subst body; destruct (Z.ltb_spec (Zpos m) 8388608); lia).
  unfold f32_of_bits.
  replace (2147483648 <=? sgn + body) with s
    by (subst sgn; destruct s; symmetry; [apply Z.leb_le|apply Z.leb_gt]; lia).
  replace ((sgn + body) mod 2147483648) with body
    by (subst sgn; destruct s; [rewrite Z.add_comm; replace 2147483648 with (1 * 2147483648) at 1 by lia;
        rewrite Z_mod_plus_full|rewrite Z.add_0_l]; symmetry; apply Z.mod_small; lia).
  subst body. destruct (Z.ltb_spec (Zpos m) 8388608).
  - rewrite Z.div_small, Z.mod_small by lia. cbn -[Z.eqb]. simpl. f_equal; lia.
  - replace (Zpos m - 8388608) with (Zpos m - 8388608) by lia.
    rewrite (Z.add_comm ((e + 150) * _)), Z.div_add, Z.div_small, Z_mod_plus_full by lia.
    rewrite Z.mod_small by lia.
    replace (0 + (e + 150) =? 255) with false by (symmetry; apply Z.eqb_neq; lia).
    replace (0 + (e + 150) =? 0) with false by (symmetry; apply Z.eqb_neq; lia).
    replace (Zpos m - 8388608 + 8388608) with (Zpos m) by lia.
    f_equal; lia.
Qed.
