(* ===== verification/Comm.v ===== *)
(** * Robstride extended identifiers and fixed frames

    Models [crates/robstride/src/comm.rs] (29-bit identifiers), [lifecycle.rs]
    (enable, disable, fault clear, set-zero, active reporting), [identity.rs]
    (type-0 device identity), [version.rs] (type-4 version query) and the status
    header of [feedback.rs].  A frame is an identifier with a list of payload
    bytes; every integer is a [Z] kept in its Rust width by the code itself. *)

From Stdlib Require Import ZArith Lia Bool.
From stdpp Require Import base strings list.
From S2P Require Import Prelude.

Abbreviation frame := (Z * list Z)%type.

Module Comm.

Record ExtendedId : Type := mkExtendedId {
  comm_type : Z;
  extra_data : Z;
  device_id : Z;
}.

Inductive CommunicationType : Type :=
| GetDeviceId
| OperationControl
| OperationStatus
| Enable
| Disable
| SetZeroPosition
| ReadParameter
| WriteParameter
| FaultReport
| ActiveReporting.

Definition from_u8 (value : Z) : option CommunicationType :=
  match value with
  | 0 => Some GetDeviceId
  | 1 => Some OperationControl
  | 2 => Some OperationStatus
  | 3 => Some Enable
  | 4 => Some Disable
  | 6 => Some SetZeroPosition
  | 17 => Some ReadParameter
  | 18 => Some WriteParameter
  | 21 => Some FaultReport
  | 24 => Some ActiveReporting
  | _ => None
  end.

Definition ct_as_u8 (c : CommunicationType) : Z :=
  match c with
  | GetDeviceId => 0
  | OperationControl => 1
  | OperationStatus => 2
  | Enable => 3
  | Disable => 4
  | SetZeroPosition => 6
  | ReadParameter => 17
  | WriteParameter => 18
  | FaultReport => 21
  | ActiveReporting => 24
  end.

Definition name (c : CommunicationType) : string :=
  match c with
  | GetDeviceId => "get_device_id"
  | OperationControl => "operation_control"
  | OperationStatus => "operation_status"
  | Enable => "enable"
  | Disable => "disable"
  | SetZeroPosition => "set_zero_position"
  | ReadParameter => "read_parameter"
  | WriteParameter => "write_parameter"
  | FaultReport => "fault_report"
  | ActiveReporting => "active_reporting"
  end.

#[global] Instance CommunicationType_eq_dec : EqDecision CommunicationType.
Proof. solve_decision. Defined.

Definition inbound_motor_device_id (can_id : Z) (c : CommunicationType) : Z :=
  match c with
  | OperationStatus | FaultReport | ActiveReporting => Z.land (Z.shiftr can_id 8) 255
  | _ => Z.land can_id 255
  end.

Definition EXTENDED_ID_MASK : Z := 536870911. (* 0x1FFF_FFFF *)
Definition DEFAULT_HOST_ID : Z := 253. (* 0xFD *)

Definition pack_ext_id (comm_type extra_data device_id : Z) : Z :=
  Z.lor (Z.lor (Z.shiftl (Z.land comm_type 31) 24) (Z.shiftl extra_data 8)) device_id.

Definition pack_typed_ext_id (c : CommunicationType) (extra_data device_id : Z) : Z :=
  pack_ext_id (ct_as_u8 c) extra_data device_id.

Definition unpack_ext_id (ext_id : Z) : option ExtendedId :=
  if EXTENDED_ID_MASK <? ext_id then None
  else Some (mkExtendedId
    (as_u8 (Z.land (Z.shiftr ext_id 24) 31))
    (as_u16 (Z.land (Z.shiftr ext_id 8) 65535))
    (as_u8 (Z.land ext_id 255))).

(** ** Lifecycle frames *)

Definition zeros8 : list Z := [0; 0; 0; 0; 0; 0; 0; 0].
Definition SET_ZERO_DATA : list Z := [1; 0; 0; 0; 0; 0; 0; 0].

Definition empty_frame (c : CommunicationType) (host_id device_id : Z) : frame :=
  (pack_typed_ext_id c host_id device_id, zeros8).

Definition encode_enable (host_id device_id : Z) : frame := empty_frame Enable host_id device_id.
Definition encode_disable (host_id device_id : Z) : frame := empty_frame Disable host_id device_id.

Definition encode_fault_clear (host_id device_id : Z) : frame :=
  (pack_typed_ext_id Disable host_id device_id, <[0%nat := 1]> zeros8).

Definition encode_set_zero_position (host_id device_id : Z) : frame :=
  (pack_typed_ext_id SetZeroPosition host_id device_id, SET_ZERO_DATA).

Definition encode_default_enable (device_id : Z) : frame := encode_enable DEFAULT_HOST_ID device_id.
Definition encode_default_disable (device_id : Z) : frame := encode_disable DEFAULT_HOST_ID device_id.
Definition encode_default_set_zero_position (device_id : Z) : frame :=
  encode_set_zero_position DEFAULT_HOST_ID device_id.
Definition encode_default_fault_clear (device_id : Z) : frame :=
  encode_fault_clear DEFAULT_HOST_ID device_id.

Definition encode_active_reporting (host_id device_id : Z) (enable : bool) : frame :=
  let f_cmd := if enable then 1 else 0 in
  (pack_typed_ext_id ActiveReporting host_id device_id, [1; 2; 3; 4; 5; 6; f_cmd; 0]).

Definition encode_default_active_reporting (device_id : Z) (enable : bool) : frame :=
  encode_active_reporting DEFAULT_HOST_ID device_id enable.

(** ** Status header *)

Inductive DriveMode : Type := Reset | Calibration | Run | Reserved.

#[global] Instance DriveMode_eq_dec : EqDecision DriveMode.
Proof. solve_decision. Defined.

Definition from_can_id (can_id : Z) : DriveMode :=
  match Z.land (Z.shiftr can_id 22) 3 with
  | 0 => Reset
  | 1 => Calibration
  | 2 => Run
  | _ => Reserved
  end.

Definition as_str (m : DriveMode) : string :=
  match m with
  | Reset => "Reset"
  | Calibration => "Calibration"
  | Run => "Run"
  | Reserved => "Reserved"
  end.

Definition decode_status_header (can_id : Z) : DriveMode * Z :=
  (from_can_id can_id, as_u8 (Z.land (Z.shiftr can_id 16) 63)).

Definition is_reboot_transition (previous : option DriveMode) (current : DriveMode) : bool :=
  match previous with
  | Some Run => bool_decide (current = Reset)
  | _ => false
  end.

(** ** Device identity (type 0) *)

Definition DEVICE_ID_REPLY_MARKER : Z := 254. (* 0xFE *)

Record DeviceIdReply : Type := mkDeviceIdReply {
  reply_device_id : Z;
  reply_uid : list Z;
}.

Definition encode_get_device_id (host_id device_id : Z) : frame :=
  (pack_typed_ext_id GetDeviceId host_id device_id, zeros8).

Definition encode_default_get_device_id (device_id : Z) : frame :=
  encode_get_device_id DEFAULT_HOST_ID device_id.

(** [payload.try_into().ok()?] for an eight-byte array. *)
Definition try_into_8 (payload : list Z) : option (list Z) :=
  if (length payload =? 8)%nat then Some payload else None.

Definition decode_device_id_reply (can_id : Z) (payload : list Z) : option DeviceIdReply :=
  unpacked ← unpack_ext_id can_id;
  c ← from_u8 (comm_type unpacked);
  if negb (bool_decide (c = GetDeviceId))
     || negb (device_id unpacked =? DEVICE_ID_REPLY_MARKER)
     || (255 <? extra_data unpacked)
  then None
  else
    raw ← try_into_8 payload;
    Some (mkDeviceIdReply (as_u8 (Z.land (extra_data unpacked) 255)) raw).

(** ** Firmware version (type 4 query, type 2 reply) *)

Definition FIRMWARE_VERSION_QUERY : Z := 196. (* 0xC4 *)
Definition VERSION_REPLY_PREFIX : list Z := [0; FIRMWARE_VERSION_QUERY; 86].

Record FirmwareVersionFeedback : Type := mkFirmwareVersionFeedback {
  ver_raw : list Z;
  ver_version : list Z;
  ver_host_id : Z;
  ver_status_flags : Z;
  ver_drive_mode : DriveMode;
}.

Definition encode_get_firmware_version (host_id device_id : Z) : frame :=
  (pack_typed_ext_id Disable host_id device_id, <[1%nat := FIRMWARE_VERSION_QUERY]> zeros8).

Definition encode_default_get_firmware_version (device_id : Z) : frame :=
  encode_get_firmware_version DEFAULT_HOST_ID device_id.

Definition decode_firmware_version_reply (can_id : Z) (payload : list Z)
  : option FirmwareVersionFeedback :=
  unpacked ← unpack_ext_id can_id;
  c ← from_u8 (comm_type unpacked);
  if negb (bool_decide (c = OperationStatus)) then None
  else
    raw ← try_into_8 payload;
    if negb (bool_decide (firstn 3 raw = VERSION_REPLY_PREFIX)) then None
    else Some (mkFirmwareVersionFeedback raw
      [byte_at raw 3; byte_at raw 4; byte_at raw 5; byte_at raw 6]
      (as_u8 (Z.land can_id 255))
      (as_u8 (Z.land (Z.shiftr can_id 16) 63))
      (from_can_id can_id)).

(** ** Identifier lemmas *)

Lemma from_u8_as_u8 (c : CommunicationType) : from_u8 (ct_as_u8 c) = Some c.
Proof. destruct c; reflexivity. Qed.

Lemma ct_range (c : CommunicationType) : 0 <= ct_as_u8 c < 32.
Proof. destruct c; simpl; lia. Qed.

(** Packing is arithmetic: the three fields do not overlap. *)
Lemma pack_ext_id_arith (ct ex dev : Z) :
  is_u8 ct -> is_u16 ex -> is_u8 dev ->
  pack_ext_id ct ex dev = (ct mod 32) * 16777216 + ex * 256 + dev.
Proof.
  unfold is_u8, is_u16, U8_MAX, U16_MAX, pack_ext_id. intros.
  autorewrite with bits.
  rewrite <- Z.lor_assoc, (lor_shiftl_add ex dev 8), lor_shiftl_add by lia. lia.
Qed.

Lemma unpack_arith (id : Z) :
  0 <= id <= EXTENDED_ID_MASK ->
  unpack_ext_id id = Some (mkExtendedId (id / 16777216) ((id / 256) mod 65536) (id mod 256)).
Proof.
  unfold unpack_ext_id, EXTENDED_ID_MASK. intros H.
  destruct (Z.ltb_spec 536870911 id); [lia|].
  unfold as_u8, as_u16. rewrite !shiftr_div by lia. autorewrite with bits.
  f_equal. f_equal; simpl; dlia.
Qed.

(** The identifier of a typed frame lies in 29 bits and unpacks to its fields. *)
Lemma unpack_pack_typed (c : CommunicationType) (ex dev : Z) :
  is_u16 ex -> is_u8 dev ->
  unpack_ext_id (pack_typed_ext_id c ex dev) = Some (mkExtendedId (ct_as_u8 c) ex dev).
Proof.
  intros He Hd. pose proof (ct_range c). unfold pack_typed_ext_id.
  rewrite pack_ext_id_arith by (unfold is_u8, U8_MAX in *; auto; lia).
  unfold is_u8, is_u16, U8_MAX, U16_MAX in *.
  rewrite Z.mod_small by lia.
  rewrite unpack_arith by (unfold EXTENDED_ID_MASK; lia).
  f_equal. f_equal; dlia.
Qed.

Lemma try_into_8_some (p q : list Z) : try_into_8 p = Some q <-> length p = 8%nat /\ q = p.
Proof.
  unfold try_into_8. destruct (Nat.eqb_spec (length p) 8); split.
  - intros [= <-]. auto.
  - intros [_ ->]. auto.
  - discriminate.
  - intros [? _]. contradiction.
Qed.

#[export] Hint Rewrite from_u8_as_u8 : bits.

End Comm.
