(* ===== verification/Config.v ===== *)
(** * Declarative configuration ([crates/marengo-config/src/lib.rs])

    The parsed contents of [robot.yaml], [motors.yaml], [control.yaml] and
    [homing.yaml] as records with the source's fields, the resolution helpers
    (velocity cap, homing defaults, actuator groups) and the tuning overlay.
    The one-field file wrappers ([RobotConfigFile.robot] and the like) are
    erased.  A Rust hash map is a list of bindings in its iteration order; the
    lookup returns the first binding of the key. *)

From Stdlib Require Import ZArith Lia Bool SpecFloat.
From stdpp Require Import base strings list.
From S2P Require Import Prelude Float.

Abbreviation hmap V := (list (string * V)).

(** [HashMap::get] and [HashMap::contains_key]. *)
Fixpoint hget {V : Type} (m : hmap V) (k : string) : option V :=
  match m with
  | [] => None
  | (k', v) :: rest => if bool_decide (k' = k) then Some v else hget rest k
  end.

Definition hcontains {V : Type} (m : hmap V) (k : string) : bool :=
  match hget m k with Some _ => true | None => false end.

(** [HashMap::get_mut] followed by an assignment. *)
Fixpoint hset {V : Type} (m : hmap V) (k : string) (v : V) : hmap V :=
  match m with
  | [] => []
  | (k', w) :: rest => if bool_decide (k' = k) then (k', v) :: rest else (k', w) :: hset rest k v
  end.

Definition str_in (s : string) (l : list string) : bool :=
  existsb (fun t => bool_decide (t = s)) l.

Module Config.

Inductive ConfigError : Type :=
| Io (path : string) (m : message)
| Parse (path : string) (m : message)
| UrdfMissing (path : string)
| UnknownMotorJoint (joint : string)
| DuplicateMotorAddress (interface : string) (device_id : Z)
| InvalidSafetyConfig (field : message) (m : message)
| InvalidLimitMargin (joint : string) (m : message)
| InvalidActuatorGroup (group : string) (m : message)
| InvalidVelocity (joint : string) (m : message)
| InvalidGravityCompGains (joint : string) (m : message)
| MissingControlJoint (joint : string)
| UnknownJointSubset (joint : string)
| EmptyJointSubset.

Record RobotSection : Type := mkRobot {
  urdf : string;
  bench_max_joint_torque_nm : f64;
  robot_joints : list string;
  limbs : hmap (list string);
}.

Inductive MotorType : Type := Rs00 | Rs02 | Rs03 | Rs04.

#[global] Instance MotorType_eq_dec : EqDecision MotorType.
Proof. solve_decision. Defined.

Record MotorBenchLimits : Type := mkBench {
  position_lower_rad : f64;
  position_upper_rad : f64;
  velocity_limit_rad_s : f64;
  torque_limit_nm : f64;
}.

Record MotorEntry : Type := mkMotor {
  joint : string;
  driver : string;
  motor_type : MotorType;
  can_interface : string;
  device_id : Z;
  direction : Z;
  gear_ratio : f64;
  recv_can_id : Z;
  firmware_version : string;
  bench : MotorBenchLimits;
}.

Inductive OnDriveLoss : Type := DisableAll | ShedSubtree.
Inductive PositionLaw : Type := Legacy | ScaledPd.
Inductive PositionIntegralMode : Type := TargetBand | LeakyReference.

#[global] Instance OnDriveLoss_eq_dec : EqDecision OnDriveLoss.
Proof. solve_decision. Defined.
#[global] Instance PositionLaw_eq_dec : EqDecision PositionLaw.
Proof. solve_decision. Defined.

Record DriveLossConfig : Type := mkDriveLoss {
  hold_window_s : f64;
  lower_velocity_rad_s : f64;
  lower_settle_s : f64;
  lower_max_s : f64;
  tau_margin_nm : f64;
}.

Record WrongSignWatchdogConfig : Type := mkWrongSign {
  enabled : bool;
  expected_sign_at_positive_q : Z;
  min_velocity_rad_s : f64;
  min_opposition_ticks : Z;
  grace_period_ticks : Z;
}.

Definition default_wrong_sign_watchdog : WrongSignWatchdogConfig :=
  mkWrongSign true (-1) (lit64 5 100) 10 20.

Record ActuatorGroupEntry : Type := mkGroup {
  group_joints : list string;
  group_velocity_max_rad_s : f64;
}.

Record MotorTypeDefaults : Type := mkDefaults {
  kp_max : f64;
  kd_max : f64;
  tau_ff_max_nm : f64;
  type_velocity_max_rad_s : f64;
}.

Record ModeGains : Type := mkGains { kp : f64; kd : f64; ki : f64 }.

Record FrictionGains : Type := mkFriction {
  fc : f64;
  fv : f64;
  fo : f64;
  fk : f64;
  fs : option f64;
  v_b : option f64;
}.

Definition static_nm (g : FrictionGains) : f64 := default (fc g) (fs g).

Definition DEFAULT_FRICTION_STRIBECK_VELOCITY_RAD_S : f64 := lit64 5 100.
Definition stribeck_velocity_rad_s (g : FrictionGains) : f64 :=
  default DEFAULT_FRICTION_STRIBECK_VELOCITY_RAD_S (v_b g).

Record JointControlEntry : Type := mkJointControl {
  jc_motor_type : MotorType;
  gravity_comp : ModeGains;
  impedance : ModeGains;
  friction : FrictionGains;
  velocity_max_rad_s : option f64;
  position_slew_rad_s : f64;
  position_slew_max_lead_rad : f64;
  position_trajectory_threshold_rad : f64;
  position_trajectory_velocity_rad_s : f64;
  position_trajectory_accel_rad_s2 : f64;
  position_trajectory_velocity_deadband_rad : f64;
  position_hold_trim_rad : f64;
  on_drive_loss : OnDriveLoss;
  position_law : PositionLaw;
  position_time_scale_e0_rad : option f64;
  position_integral_band_rad : option f64;
  position_integral_leak_s : option f64;
  position_integral_mode : option PositionIntegralMode;
  position_integral_cap_nm : option f64;
  position_host_damping_nm_s_per_rad : option f64;
  position_host_damping_filter_s : option f64;
  position_ff_step_max_nm : option f64;
  position_limit_margin_min_rad : f64;
  position_limit_margin_k_v_s : f64;
  position_limit_margin_k_stop : f64;
  position_limit_measured_fault_slack_rad : f64;
  position_soft_lower_rad : option f64;
  position_soft_upper_rad : option f64;
}.

Record DangerZoneRule : Type := mkDangerZone {
  dz_name : string;
  dz_joint : string;
  position_above_rad : f64;
  velocity_below_rad_s : f64;
  action : string;
  max_velocity_rad_s : f64;
  max_torque_nm : option f64;
}.

Record ControlSection : Type := mkControl {
  loop_hz : Z;
  chappe_state_hz : Z;
  comm_watchdog_ms : Z;
  feedback_drain_quiet_us : Z;
  tau_ff_rate_limit_nm_per_s : f64;
  disable_on_exit : bool;
  active_reporting_diagnostics : bool;
  motor_type_defaults : hmap MotorTypeDefaults;
  actuator_groups : hmap ActuatorGroupEntry;
  control_joints : hmap JointControlEntry;
  danger_zones : list DangerZoneRule;
  wrong_sign_watchdog : WrongSignWatchdogConfig;
  drive_loss : option DriveLossConfig;
}.

Inductive HomingMethod : Type := HNone | ManualReference | HallThreeSensor.
Inductive SearchDirection : Type := Positive | Negative.

#[global] Instance HomingMethod_eq_dec : EqDecision HomingMethod.
Proof. solve_decision. Defined.

Record SensorInput : Type := mkSensor { gpio : Z; active_high : bool }.
Record HomingSensors : Type := mkSensors {
  sensor_home : SensorInput;
  sensor_min_limit : SensorInput;
  sensor_max_limit : SensorInput;
}.

Record HomingJointDefaults : Type := mkHomingDefaults {
  d_home_offset_rad : f64;
  d_search_direction : SearchDirection;
  d_search_velocity_rad_s : f64;
  d_search_torque_nm : f64;
  d_search_timeout_s : f64;
  d_backoff_rad : f64;
  d_sign_test_required : bool;
  d_allow_sensor_overlap : bool;
}.

Record HomingJointEntry : Type := mkHomingJoint {
  method : HomingMethod;
  o_home_offset_rad : option f64;
  o_search_direction : option SearchDirection;
  o_search_velocity_rad_s : option f64;
  o_search_torque_nm : option f64;
  o_search_timeout_s : option f64;
  o_backoff_rad : option f64;
  o_sign_test_required : option bool;
  o_allow_sensor_overlap : option bool;
  o_sensors : option HomingSensors;
}.

Record HomingSection : Type := mkHoming {
  zero_verify_tolerance_rad : f64;
  calibration_record_path : string;
  homing_defaults : HomingJointDefaults;
  homing_joints : hmap HomingJointEntry;
}.

Record EffectiveHomingJoint : Type := mkEffectiveHoming {
  e_joint : string;
  e_method : HomingMethod;
  e_home_offset_rad : f64;
  e_search_direction : SearchDirection;
  e_search_velocity_rad_s : f64;
  e_search_torque_nm : f64;
  e_search_timeout_s : f64;
  e_backoff_rad : f64;
  e_sign_test_required : bool;
  e_allow_sensor_overlap : bool;
  e_sensors : option HomingSensors;
}.

(** ** Resolution helpers *)

Definition effective_joint_ref (h : HomingSection) (j : string) : option EffectiveHomingJoint :=
  entry ← hget (homing_joints h) j;
  let d := homing_defaults h in
  Some (mkEffectiveHoming j (method entry)
    (default (d_home_offset_rad d) (o_home_offset_rad entry))
    (default (d_search_direction d) (o_search_direction entry))
    (default (d_search_velocity_rad_s d) (o_search_velocity_rad_s entry))
    (default (d_search_torque_nm d) (o_search_torque_nm entry))
    (default (d_search_timeout_s d) (o_search_timeout_s entry))
    (default (d_backoff_rad d) (o_backoff_rad entry))
    (default (d_sign_test_required d) (o_sign_test_required entry))
    (default (d_allow_sensor_overlap d) (o_allow_sensor_overlap entry))
    (o_sensors entry)).

Definition motor_type_key (t : MotorType) : string :=
  match t with Rs00 => "rs00" | Rs02 => "rs02" | Rs03 => "rs03" | Rs04 => "rs04" end.

Definition motor_for_joint (motors : list MotorEntry) (j : string) : option MotorEntry :=
  find_first (fun m => bool_decide (joint m = j)) motors.

Definition actuator_group_for_joint (j : string) (c : ControlSection)
  : option (string * ActuatorGroupEntry) :=
  find_first (fun g => str_in j (group_joints g.2)) (actuator_groups c).

(** [!v.is_finite() || v <= 0.0] *)
Definition not_positive (v : f64) : bool := negb (is_finite v) || fle v fzero.

Definition resolve_joint_velocity_cap (j : string) (t : MotorType) (c : ControlSection)
  : result ConfigError f64 :=
  match hget (control_joints c) j ≫= velocity_max_rad_s with
  | Some v =>
      refuse_if (not_positive v)
        (InvalidVelocity j (msg "velocity_max_rad_s must be finite and > 0")) ;!
      Ok v
  | None =>
      match actuator_group_for_joint j c with
      | Some (_, entry) =>
          refuse_if (not_positive (group_velocity_max_rad_s entry))
            (InvalidVelocity j (msg "actuator group velocity_max_rad_s must be finite and > 0")) ;!
          Ok (group_velocity_max_rad_s entry)
      | None =>
          let type_key := motor_type_key t in
          let! defaults := ok_or (hget (motor_type_defaults c) type_key)
            (InvalidVelocity j (Msg "missing motor_type_defaults.{}" [AStr type_key])) in
          refuse_if (not_positive (type_velocity_max_rad_s defaults))
            (InvalidVelocity j
              (Msg "motor_type_defaults.{}.velocity_max_rad_s must be finite and > 0" [AStr type_key])) ;!
          Ok (type_velocity_max_rad_s defaults)
      end
  end.

(** Window an operator position command may target. *)
Definition commanded_position_window (c : ControlSection) (motors : list MotorEntry) (j : string)
  : option (f64 * f64) :=
  soft ← hget (control_joints c) j;
  hard ← bench <$> motor_for_joint motors j;
  lo ← position_soft_lower_rad soft;
  let lower := fmax lo (position_lower_rad hard) in
  hi ← position_soft_upper_rad soft;
  let upper := fmin hi (position_upper_rad hard) in
  if fle lower upper then Some (lower, upper) else None.

(** ** Tuning overlay *)

Definition set_impedance (e : JointControlEntry) (g : ModeGains) : JointControlEntry :=
  let '(mkJointControl a b _ d f5 f6 f7 f8 f9 f10 f11 f12 f13 f14 f15 f16 f17 f18 f19 f20 f21 f22
          f23 f24 f25 f26 f27 f28) := e in
  mkJointControl a b g d f5 f6 f7 f8 f9 f10 f11 f12 f13 f14 f15 f16 f17 f18 f19 f20 f21 f22
          f23 f24 f25 f26 f27 f28.

Definition set_friction (e : JointControlEntry) (g : FrictionGains) : JointControlEntry :=
  let '(mkJointControl a b c _ f5 f6 f7 f8 f9 f10 f11 f12 f13 f14 f15 f16 f17 f18 f19 f20 f21 f22
          f23 f24 f25 f26 f27 f28) := e in
  mkJointControl a b c g f5 f6 f7 f8 f9 f10 f11 f12 f13 f14 f15 f16 f17 f18 f19 f20 f21 f22
          f23 f24 f25 f26 f27 f28.

Definition nonnegative_params : list string :=
  ["impedance.kp"; "impedance.kd"; "impedance.ki"; "friction.fc"; "friction.fv"; "friction.k"]%string.

(** The previous value and the updated entry; an error leaves the entry alone. *)
Definition apply_joint_config_param (e : JointControlEntry) (param : string) (value : f64)
  : result ConfigError (f64 * JointControlEntry) :=
  let g := impedance e in
  let f := friction e in
  refuse_if (negb (is_finite value))
    (Parse "control.yaml" (Msg "non-finite value for {}" [AStr param])) ;!
  refuse_if (flt value fzero && str_in param nonnegative_params)
    (Parse "control.yaml" (Msg "{} must be >= 0" [AStr param])) ;!
  if bool_decide (param = "impedance.kp"%string)
  then Ok (kp g, set_impedance e (mkGains value (kd g) (ki g)))
  else if bool_decide (param = "impedance.kd"%string)
  then Ok (kd g, set_impedance e (mkGains (kp g) value (ki g)))
  else if bool_decide (param = "impedance.ki"%string)
  then Ok (ki g, set_impedance e (mkGains (kp g) (kd g) value))
  else if bool_decide (param = "friction.fc"%string)
  then Ok (fc f, set_friction e (mkFriction value (fv f) (fo f) (fk f) (fs f) (v_b f)))
  else if bool_decide (param = "friction.fv"%string)
  then Ok (fv f, set_friction e (mkFriction (fc f) value (fo f) (fk f) (fs f) (v_b f)))
  else if bool_decide (param = "friction.fo"%string)
  then Ok (fo f, set_friction e (mkFriction (fc f) (fv f) value (fk f) (fs f) (v_b f)))
  else if bool_decide (param = "friction.k"%string)
  then Ok (fk f, set_friction e (mkFriction (fc f) (fv f) (fo f) value (fs f) (v_b f)))
  else if bool_decide (param = "velocity_max_rad_s"%string)
  then Err (Parse "control.yaml"
    (msg "velocity_max_rad_s is not a tuning overlay; send it in a limit patch (Set Limits)"))
  else Err (Parse "control.yaml" (Msg "unsupported config overlay param: {}" [AStr param])).

(** a tuning overlay is undone by the value it returned: when a parameter was
    set, setting it back to the reported previous value (a finite one, nonnegative
    as validation requires) succeeds, reports the overlaid value and restores the
    entry exactly; refused overlays are those with a non-finite value, a negative
    gain, or a parameter that is not a tuning overlay. *)
Theorem overlay_undo (e e' : JointControlEntry) (param : string) (value old : f64)
  (H : apply_joint_config_param e param value = Ok (old, e'))
  (Hf : is_finite old = true) (Hn : flt old fzero = false) :
  apply_joint_config_param e' param old = Ok (value, e) /\
  is_finite value = true /\ In param (nonnegative_params ++ ["friction.fo"%string]).
Proof.
  unfold apply_joint_config_param in H. bind_inv H. bind_inv H.
  unfold refuse_if in E. destruct (is_finite value) eqn:Hv; [|discriminate E].
  destruct e as [a b [kp0 kd0 ki0] [fc0 fv0 fo0 fk0 fs0 vb0]].
  repeat (match type of H with (if bool_decide ?P then _ else _) = _ =>
    destruct (decide P) as [->|?];
      [rewrite bool_decide_eq_true_2 in H by reflexivity|
       rewrite bool_decide_eq_false_2 in H by assumption] end;
    [inv H; split; [unfold apply_joint_config_param; rewrite Hf, Hn; reflexivity|
                    split; [reflexivity|simpl; tauto]]|]).
  all: try discriminate H.
  case_bool_decide; discriminate H.
Qed.

Definition overlay_entry : JointControlEntry :=
  mkJointControl Rs03 (mkGains fzero fzero fzero) (mkGains (f64_of_Z 20) (f64_of_Z 1) fzero)
    (mkFriction fzero fzero fzero fzero None None) None
    (lit64 5 10) (lit64 1 10) (lit64 1 10) (lit64 5 10) (f64_of_Z 1) (lit64 2 100) (lit64 1 100)
    DisableAll Legacy None None None None None None None None
    (lit64 1 100) (lit64 2 100) (lit64 5 10) (lit64 3 100) None None.

Definition overlaid_entry : JointControlEntry :=
  set_impedance overlay_entry (mkGains (f64_of_Z 35) (f64_of_Z 1) fzero).

Lemma overlay_undo_witness :
  apply_joint_config_param overlaid_entry "impedance.kp" (f64_of_Z 20) = Ok (f64_of_Z 35, overlay_entry) /\
  is_finite (f64_of_Z 35) = true /\ In "impedance.kp"%string (nonnegative_params ++ ["friction.fo"%string]).
Proof.
  apply (overlay_undo overlay_entry overlaid_entry "impedance.kp" (f64_of_Z 35)).
  - reflexivity.
  - reflexivity.
  - reflexivity.
Defined.

End Config.
