(* ===== verification/Validate.v ===== *)
(** * Configuration validation

    Models [crates/marengo-config/src/safety_validation.rs] and the validators of
    [lib.rs]: the checks every profile passes before the supervisor is built and
    before a live limit patch is installed.  Loops run in the source's order and
    stop at the first error. *)

From Stdlib Require Import ZArith Lia Bool SpecFloat.
From stdpp Require Import base strings list.
From S2P Require Import Prelude Float Config.
Import Config.

Module Validate.

Definition invalid (field m : message) : ConfigError := InvalidSafetyConfig field m.

Definition finite (field : message) (value : f64) : result ConfigError unit :=
  refuse_if (negb (is_finite value)) (invalid field (msg "must be finite")).

Definition nonnegative (field : message) (value : f64) : result ConfigError unit :=
  finite field value ;!
  refuse_if (flt value fzero) (invalid field (msg "must be >= 0")).

Definition positive (field : message) (value : f64) : result ConfigError unit :=
  finite field value ;!
  refuse_if (fle value fzero) (invalid field (msg "must be > 0")).

(** [char::is_whitespace] on the ASCII characters. *)
Definition is_ascii_whitespace (c : Ascii.ascii) : bool :=
  let n := Ascii.nat_of_ascii c in
  ((9 <=? n)%nat && (n <=? 13)%nat) || (n =? 32)%nat.

(** [value.trim().is_empty()] *)
Fixpoint trim_is_empty (s : string) : bool :=
  match s with
  | EmptyString => true
  | String c rest => is_ascii_whitespace c && trim_is_empty rest
  end.

Definition named (field : string) (value : string) : result ConfigError unit :=
  refuse_if (trim_is_empty value) (invalid (msg field) (msg "must not be empty")).

Fixpoint validate_robot_joints (seen rest : list string) : result ConfigError unit :=
  match rest with
  | [] => Ok tt
  | j :: rest =>
      named "robot.joints" j ;!
      refuse_if (str_in j seen)
        (invalid (msg "robot.joints") (Msg "duplicate joint {}" [AStr j])) ;!
      validate_robot_joints (seen ++ [j]) rest
  end.

Definition validate_robot_config (robot : RobotSection) : result ConfigError unit :=
  named "robot.urdf" (urdf robot) ;!
  nonnegative (msg "robot.bench.max_joint_torque_nm") (bench_max_joint_torque_nm robot) ;!
  validate_robot_joints [] (robot_joints robot).

(** [matches!(direction, -1 | 1)] *)
Definition direction_ok (d : Z) : bool := (d =? -1) || (d =? 1).

Definition same_address (a b : MotorEntry) : bool :=
  bool_decide (can_interface a = can_interface b) && (device_id a =? device_id b).

Definition validate_motor (seen : list MotorEntry) (m : MotorEntry) : result ConfigError unit :=
  let j := joint m in
  named "motors.joint" j ;!
  named "motors.can_interface" (can_interface m) ;!
  refuse_if (existsb (fun prior => bool_decide (joint prior = j)) seen)
    (invalid (msg "motors.joint") (Msg "duplicate joint {}" [AStr j])) ;!
  refuse_if (existsb (fun prior => same_address prior m) seen)
    (DuplicateMotorAddress (can_interface m) (device_id m)) ;!
  refuse_if (negb (direction_ok (direction m)))
    (invalid (Msg "motors.{}.direction" [AStr j]) (msg "must be -1 or +1")) ;!
  positive (Msg "motors.{}.gear_ratio" [AStr j]) (gear_ratio m) ;!
  finite (Msg "motors.{}.bench.position_lower_rad" [AStr j]) (position_lower_rad (bench m)) ;!
  finite (Msg "motors.{}.bench.position_upper_rad" [AStr j]) (position_upper_rad (bench m)) ;!
  refuse_if (fge (position_lower_rad (bench m)) (position_upper_rad (bench m)))
    (invalid (Msg "motors.{}.bench" [AStr j]) (msg "hard lower must be < hard upper")) ;!
  nonnegative (Msg "motors.{}.bench.velocity_limit_rad_s" [AStr j]) (velocity_limit_rad_s (bench m)) ;!
  nonnegative (Msg "motors.{}.bench.torque_limit_nm" [AStr j]) (torque_limit_nm (bench m)).

Fixpoint validate_motors_from (seen rest : list MotorEntry) : result ConfigError unit :=
  match rest with
  | [] => Ok tt
  | m :: rest => validate_motor seen m ;! validate_motors_from (seen ++ [m]) rest
  end.

Definition validate_motors_config (motors : list MotorEntry) : result ConfigError unit :=
  validate_motors_from [] motors.

(** ** Joint numbers *)

Definition joint_field (j f : string) : message := Msg "control.joints.{}.{}" [AStr j; AStr f].

(** [if let Some(v) = o { f(v)?; }] *)
Definition if_some {A : Type} (o : option A) (f : A -> result ConfigError unit)
  : result ConfigError unit :=
  match o with Some v => f v | None => Ok tt end.

Definition DEFAULT_POSITION_INTEGRAL_CAP_NM : f64 := lit64 5 10.

Definition validate_scaled_pd_numbers (j : string) (e : JointControlEntry)
  : result ConfigError unit :=
  if_some (position_time_scale_e0_rad e) (fun e0 =>
    nonnegative (joint_field j "position_time_scale_e0_rad") e0 ;!
    refuse_if (fge e0 (position_slew_max_lead_rad e))
      (invalid (joint_field j "position_time_scale_e0_rad")
        (msg "must be below position_slew_max_lead_rad (e1)"))) ;!
  if_some (position_integral_band_rad e)
    (positive (joint_field j "position_integral_band_rad")) ;!
  if_some (position_integral_cap_nm e) (fun cap =>
    positive (joint_field j "position_integral_cap_nm") cap ;!
    refuse_if (fgt cap DEFAULT_POSITION_INTEGRAL_CAP_NM)
      (invalid (joint_field j "position_integral_cap_nm") (msg "must be <= 0.5"))) ;!
  if_some (position_host_damping_nm_s_per_rad e) (fun damping =>
    finite (joint_field j "position_host_damping_nm_s_per_rad") damping ;!
    refuse_if (flt damping fzero)
      (invalid (joint_field j "position_host_damping_nm_s_per_rad") (msg "must be >= 0"))) ;!
  if_some (position_host_damping_filter_s e)
    (positive (joint_field j "position_host_damping_filter_s")) ;!
  if_some (position_ff_step_max_nm e) (positive (joint_field j "position_ff_step_max_nm")) ;!
  if_some (position_integral_leak_s e) (positive (joint_field j "position_integral_leak_s")) ;!
  if_some (fs (friction e)) (fun fs' =>
    finite (joint_field j "friction.fs") fs' ;!
    refuse_if (flt fs' (fc (friction e)))
      (invalid (joint_field j "friction.fs") (msg "must be >= friction.fc"))) ;!
  if_some (v_b (friction e)) (positive (joint_field j "friction.v_b")) ;!
  if bool_decide (position_law e = ScaledPd)
  then positive (joint_field j "position_slew_max_lead_rad") (position_slew_max_lead_rad e)
  else Ok tt.

Definition validate_joint_numbers (j : string) (e : JointControlEntry) : result ConfigError unit :=
  named "control.joints" j ;!
  try_for_each (fun nv => nonnegative (joint_field j nv.1) nv.2)
    [("position_slew_rad_s"%string, position_slew_rad_s e);
     ("position_slew_max_lead_rad"%string, position_slew_max_lead_rad e);
     ("position_trajectory_threshold_rad"%string, position_trajectory_threshold_rad e);
     ("position_trajectory_velocity_deadband_rad"%string,
       position_trajectory_velocity_deadband_rad e)] ;!
  positive (joint_field j "position_trajectory_velocity_rad_s")
    (position_trajectory_velocity_rad_s e) ;!
  positive (joint_field j "position_trajectory_accel_rad_s2")
    (position_trajectory_accel_rad_s2 e) ;!
  finite (joint_field j "position_hold_trim_rad") (position_hold_trim_rad e) ;!
  validate_scaled_pd_numbers j e.

(** [!v.is_finite() || v < 0.0] *)
Definition not_nonnegative (v : f64) : bool := negb (is_finite v) || flt v fzero.

Definition limit_margin_fields_valid (e : JointControlEntry) (j : string)
  : result ConfigError unit :=
  refuse_if (not_nonnegative (position_limit_margin_min_rad e))
    (InvalidLimitMargin j (msg "position_limit_margin_min_rad must be finite and >= 0")) ;!
  refuse_if (not_nonnegative (position_limit_margin_k_v_s e))
    (InvalidLimitMargin j (msg "position_limit_margin_k_v_s must be finite and >= 0")) ;!
  refuse_if (not_nonnegative (position_limit_margin_k_stop e))
    (InvalidLimitMargin j (msg "position_limit_margin_k_stop must be finite and >= 0")) ;!
  refuse_if (not_nonnegative (position_limit_measured_fault_slack_rad e))
    (InvalidLimitMargin j (msg "position_limit_measured_fault_slack_rad must be finite and >= 0")) ;!
  refuse_if (match position_soft_lower_rad e with Some v => negb (is_finite v) | None => false end
             || match position_soft_upper_rad e with Some v => negb (is_finite v) | None => false end)
    (InvalidLimitMargin j (msg "soft bounds must be finite")) ;!
  match position_soft_lower_rad e, position_soft_upper_rad e with
  | Some lo, Some hi =>
      refuse_if (fgt lo hi)
        (InvalidLimitMargin j
          (Msg "position_soft_lower_rad {} > position_soft_upper_rad {}" [AF64 lo; AF64 hi]))
  | _, _ => Ok tt
  end.

Definition validate_entry_gains_against_motor_type
    (c : ControlSection) (j : string) (e : JointControlEntry) : result ConfigError unit :=
  let type_key := motor_type_key (jc_motor_type e) in
  let! d := ok_or (hget (motor_type_defaults c) type_key)
    (Parse "control.yaml" (Msg "missing motor_type_defaults.{}" [AStr type_key])) in
  let g := impedance e in
  let f := friction e in
  refuse_if (existsb not_nonnegative
      [kp g; kd g; ki g; fc f; fv f; fk f; kp_max d; kd_max d; tau_ff_max_nm d]
      || negb (is_finite (fo f)))
    (Parse "control.yaml"
      (Msg "joint {} gains and type maxima must be finite and >= 0; friction.fo must be finite" [AStr j])) ;!
  refuse_if (fgt (kp g) (kp_max d))
    (Parse "control.yaml" (Msg "impedance.kp {} exceeds kp_max {} for {}"
      [AF64 (kp g); AF64 (kp_max d); AStr type_key])) ;!
  refuse_if (fgt (kd g) (kd_max d))
    (Parse "control.yaml" (Msg "impedance.kd {} exceeds kd_max {} for {}"
      [AF64 (kd g); AF64 (kd_max d); AStr type_key])) ;!
  refuse_if (fgt (ki g) (kp_max d))
    (Parse "control.yaml" (Msg "impedance.ki {} exceeds kp_max {} for {}"
      [AF64 (ki g); AF64 (kp_max d); AStr type_key])) ;!
  refuse_if (fgt (fc f) (tau_ff_max_nm d))
    (Parse "control.yaml" (Msg "friction.fc {} exceeds tau_ff_max_nm {} for {}"
      [AF64 (fc f); AF64 (tau_ff_max_nm d); AStr type_key])) ;!
  refuse_if (fgt (static_nm f) (tau_ff_max_nm d))
    (Parse "control.yaml" (Msg "friction.fs {} exceeds tau_ff_max_nm {} for {}"
      [AF64 (static_nm f); AF64 (tau_ff_max_nm d); AStr type_key])).

(** ** Control numbers *)

Definition supported_type_key (k : string) : bool := str_in k ["rs00"; "rs02"; "rs03"; "rs04"]%string.

Definition validate_type_defaults (kd' : string * MotorTypeDefaults) : result ConfigError unit :=
  let '(k, d) := kd' in
  refuse_if (negb (supported_type_key k))
    (invalid (msg "control.motor_type_defaults") (Msg "unsupported motor type {}" [AStr k])) ;!
  try_for_each (fun nv => nonnegative
      (Msg "control.motor_type_defaults.{}.{}" [AStr k; AStr nv.1]) nv.2)
    [("kp_max"%string, kp_max d); ("kd_max"%string, kd_max d);
     ("tau_ff_max_nm"%string, tau_ff_max_nm d)] ;!
  positive (Msg "control.motor_type_defaults.{}.velocity_max_rad_s" [AStr k])
    (type_velocity_max_rad_s d).

Definition zone_field (n f : string) : message := Msg "control.danger_zones.{}.{}" [AStr n; AStr f].

Definition validate_danger_zone (c : ControlSection) (seen : list DangerZoneRule)
    (r : DangerZoneRule) : result ConfigError unit :=
  let n := dz_name r in
  named "control.danger_zones.name" n ;!
  refuse_if (existsb (fun prior => bool_decide (dz_name prior = n)) seen)
    (invalid (msg "control.danger_zones.name") (Msg "duplicate rule {}" [AStr n])) ;!
  refuse_if (negb (hcontains (control_joints c) (dz_joint r)))
    (invalid (zone_field n "joint") (msg "must name a control joint")) ;!
  refuse_if (negb (str_in (action r) ["clamp_velocity"; "clamp_torque"]%string))
    (invalid (zone_field n "action") (msg "must be clamp_velocity or clamp_torque")) ;!
  refuse_if (bool_decide (action r = "clamp_torque"%string)
             && bool_decide (max_torque_nm r = None))
    (invalid (zone_field n "max_torque_nm") (msg "clamp_torque requires an explicit torque cap")) ;!
  finite (zone_field n "position_above_rad") (position_above_rad r) ;!
  finite (zone_field n "velocity_below_rad_s") (velocity_below_rad_s r) ;!
  nonnegative (zone_field n "max_velocity_rad_s") (max_velocity_rad_s r) ;!
  if_some (max_torque_nm r) (nonnegative (zone_field n "max_torque_nm")).

Fixpoint validate_danger_zones (c : ControlSection) (seen rest : list DangerZoneRule)
  : result ConfigError unit :=
  match rest with
  | [] => Ok tt
  | r :: rest => validate_danger_zone c seen r ;! validate_danger_zones c (seen ++ [r]) rest
  end.

Definition validate_drive_loss (c : ControlSection) : result ConfigError unit :=
  match drive_loss c with
  | None =>
      match find_first (fun je => bool_decide (on_drive_loss je.2 = ShedSubtree)) (control_joints c) with
      | Some (j, _) => Err (invalid (Msg "control.joints.{}.on_drive_loss" [AStr j])
                              (msg "shed_subtree requires a control.drive_loss block"))
      | None => Ok tt
      end
  | Some d =>
      try_for_each (fun nv => positive (Msg "control.drive_loss.{}" [AStr nv.1]) nv.2)
        [("hold_window_s"%string, hold_window_s d);
         ("lower_velocity_rad_s"%string, lower_velocity_rad_s d);
         ("lower_settle_s"%string, lower_settle_s d);
         ("lower_max_s"%string, lower_max_s d)] ;!
      nonnegative (msg "control.drive_loss.tau_margin_nm") (tau_margin_nm d)
  end.

Definition validate_control_numbers (c : ControlSection) : result ConfigError unit :=
  refuse_if ((loop_hz c =? 0) || (1000000 <? loop_hz c))
    (invalid (msg "control.loop_hz") (msg "must be between 1 and 1000000 Hz")) ;!
  refuse_if ((chappe_state_hz c =? 0) || (loop_hz c <? chappe_state_hz c))
    (invalid (msg "control.chappe_state_hz") (msg "must be positive and <= loop_hz")) ;!
  refuse_if (comm_watchdog_ms c =? 0)
    (invalid (msg "control.comm_watchdog_ms") (msg "must be > 0")) ;!
  refuse_if ((feedback_drain_quiet_us c =? 0)
             || (1000000 / loop_hz c <? feedback_drain_quiet_us c))
    (invalid (msg "control.feedback_drain_quiet_us")
      (msg "must be positive and fit within one control tick")) ;!
  nonnegative (msg "control.tau_ff_rate_limit_nm_per_s") (tau_ff_rate_limit_nm_per_s c) ;!
  try_for_each validate_type_defaults (motor_type_defaults c) ;!
  try_for_each (fun je =>
      validate_joint_numbers je.1 je.2 ;!
      validate_entry_gains_against_motor_type c je.1 je.2) (control_joints c) ;!
  validate_danger_zones c [] (danger_zones c) ;!
  let sign := wrong_sign_watchdog c in
  refuse_if (negb (direction_ok (expected_sign_at_positive_q sign)))
    (invalid (msg "control.wrong_sign_watchdog.expected_sign_at_positive_q")
      (msg "must be -1 or +1")) ;!
  nonnegative (msg "control.wrong_sign_watchdog.min_velocity_rad_s") (min_velocity_rad_s sign) ;!
  refuse_if (min_opposition_ticks sign =? 0)
    (invalid (msg "control.wrong_sign_watchdog.min_opposition_ticks") (msg "must be > 0")) ;!
  validate_drive_loss c.

(** ** Actuator groups *)

Fixpoint validate_group_joints (c : ControlSection) (prior : hmap ActuatorGroupEntry)
    (group : string) (seen rest : list string) : result ConfigError unit :=
  match rest with
  | [] => Ok tt
  | j :: rest =>
      refuse_if (negb (hcontains (control_joints c) j))
        (InvalidActuatorGroup group (Msg "joint {} not in control.joints" [AStr j])) ;!
      let other :=
        match find_first (fun g => str_in j (group_joints g.2)) prior with
        | Some (name, _) => Some name
        | None => if str_in j seen then Some group else None
        end in
      match other with
      | Some other =>
          Err (InvalidActuatorGroup group
            (Msg "joint {} already in group {}" [AStr j; AStr other]))
      | None => validate_group_joints c prior group (seen ++ [j]) rest
      end
  end.

Fixpoint validate_groups_from (c : ControlSection) (prior rest : hmap ActuatorGroupEntry)
  : result ConfigError unit :=
  match rest with
  | [] => Ok tt
  | (group, entry) :: rest =>
      refuse_if (not_positive (group_velocity_max_rad_s entry))
        (InvalidActuatorGroup group (msg "velocity_max_rad_s must be finite and > 0")) ;!
      refuse_if (match group_joints entry with [] => true | _ => false end)
        (InvalidActuatorGroup group (msg "joints must not be empty")) ;!
      validate_group_joints c prior group [] (group_joints entry) ;!
      validate_groups_from c (prior ++ [(group, entry)]) rest
  end.

Definition validate_actuator_groups (c : ControlSection) : result ConfigError unit :=
  validate_groups_from c [] (actuator_groups c).

(** ** The whole control file and its agreement with motors and robot *)

Definition GAIN_EPS : f64 := lit64 1 1000000000.

Definition validate_control_joint (je : string * JointControlEntry) : result ConfigError unit :=
  let '(j, e) := je in
  limit_margin_fields_valid e j ;!
  if_some (velocity_max_rad_s e) (fun v =>
    refuse_if (not_positive v)
      (InvalidVelocity j (msg "velocity_max_rad_s must be finite and > 0"))) ;!
  let g := gravity_comp e in
  refuse_if (negb (is_finite (kp g)) || negb (is_finite (kd g)) || negb (is_finite (ki g)))
    (InvalidGravityCompGains j (msg "gravity_comp kp/kd/ki must be finite")) ;!
  refuse_if (fgt (fabs (kp g)) GAIN_EPS || fgt (fabs (kd g)) GAIN_EPS || fgt (fabs (ki g)) GAIN_EPS)
    (InvalidGravityCompGains j (msg "gravity_comp kp/kd/ki must be 0.0 (ADR 0004)")).

Definition validate_control_config (c : ControlSection) : result ConfigError unit :=
  validate_actuator_groups c ;!
  try_for_each validate_control_joint (control_joints c) ;!
  validate_control_numbers c.

Definition validate_robot_control_joint_coverage (robot : RobotSection) (c : ControlSection)
  : result ConfigError unit :=
  try_for_each (fun j =>
    refuse_if (negb (hcontains (control_joints c) j)) (MissingControlJoint j))
    (robot_joints robot).

Definition validate_motors_against_robot (robot : RobotSection) (motors : list MotorEntry)
  : result ConfigError unit :=
  validate_robot_config robot ;!
  validate_motors_config motors ;!
  try_for_each (fun m =>
    refuse_if (negb (str_in (joint m) (robot_joints robot))) (UnknownMotorJoint (joint m))) motors.

(** The soft bounds that are set, lower first ([.into_iter().flatten()]). *)
Definition soft_bounds (e : JointControlEntry) : list f64 :=
  option_list (position_soft_lower_rad e) ++ option_list (position_soft_upper_rad e).

Definition validate_joint_against_motor (robot : RobotSection) (motors : list MotorEntry)
    (c : ControlSection) (j : string) : result ConfigError unit :=
  let! e := ok_or (hget (control_joints c) j) (MissingControlJoint j) in
  let! m := ok_or (motor_for_joint motors j)
    (InvalidSafetyConfig (msg "robot.joints")
      (Msg "joint {} has no matching motors.yaml entry" [AStr j])) in
  refuse_if (negb (bool_decide (jc_motor_type e = motor_type m)))
    (InvalidSafetyConfig (Msg "control.joints.{}.motor_type" [AStr j]) (msg "must match motors.yaml")) ;!
  try_for_each (fun bound =>
    refuse_if (flt bound (position_lower_rad (bench m)) || fgt bound (position_upper_rad (bench m)))
      (InvalidLimitMargin j (msg "soft bounds must lie within motor hard bounds"))) (soft_bounds e) ;!
  let! cap := resolve_joint_velocity_cap j (motor_type m) c in
  refuse_if (fgt (position_trajectory_velocity_rad_s e) (add64 cap (lit64 1 1000000000)))
    (InvalidVelocity j (Msg "position_trajectory_velocity_rad_s {} > velocity cap {}"
      [AF64 (position_trajectory_velocity_rad_s e); AF64 cap])).

Definition validate_control_against_limits (robot : RobotSection) (motors : list MotorEntry)
    (c : ControlSection) : result ConfigError unit :=
  validate_motors_against_robot robot motors ;!
  validate_control_config c ;!
  validate_robot_control_joint_coverage robot c ;!
  try_for_each (fun je =>
    refuse_if (negb (str_in je.1 (robot_joints robot)))
      (InvalidSafetyConfig (msg "control.joints") (Msg "joint {} not in robot.joints" [AStr je.1])))
    (control_joints c) ;!
  try_for_each (fun ge => try_for_each (fun j =>
    refuse_if (negb (str_in j (robot_joints robot)))
      (InvalidActuatorGroup ge.1 (Msg "joint {} not in robot.joints" [AStr j])))
    (group_joints ge.2)) (actuator_groups c) ;!
  try_for_each (validate_joint_against_motor robot motors c) (robot_joints robot).

(** ** Homing *)

(** [Duration::try_from_secs_f64(t).is_err()]: negative, not finite, or at
    least [2^64] seconds. *)
Definition duration_err (t : f64) : bool :=
  negb (is_finite t) || flt t fzero || fge t (f64_of_Z 18446744073709551616).

Definition sub_field (field : message) (f : string) : message :=
  Msg (msg_template field ++ "." ++ f) (msg_args field).

Definition validate_homing_numbers (field : message) (offset velocity torque timeout backoff : f64)
  : result ConfigError unit :=
  finite (sub_field field "home_offset_rad") offset ;!
  positive (sub_field field "search_velocity_rad_s") velocity ;!
  nonnegative (sub_field field "search_torque_nm") torque ;!
  positive (sub_field field "search_timeout_s") timeout ;!
  refuse_if (fgt timeout (f64_of_Z 300))
    (invalid (sub_field field "search_timeout_s") (msg "must be <= 300 seconds")) ;!
  refuse_if (duration_err timeout)
    (invalid (sub_field field "search_timeout_s") (msg "must fit in a Duration")) ;!
  nonnegative (sub_field field "backoff_rad") backoff.

Definition validate_homing_joint (h : HomingSection) (j : string) : result ConfigError unit :=
  named "homing.joints" j ;!
  let! e := ok_or (effective_joint_ref h j)
    (invalid (msg "homing.joints") (Msg "missing joint {}" [AStr j])) in
  validate_homing_numbers (Msg "homing.joints.{}" [AStr j])
    (e_home_offset_rad e) (e_search_velocity_rad_s e) (e_search_torque_nm e)
    (e_search_timeout_s e) (e_backoff_rad e) ;!
  refuse_if (bool_decide (e_method e = HallThreeSensor)
             && match e_sensors e with None => true | Some _ => false end)
    (invalid (Msg "homing.joints.{}.sensors" [AStr j])
      (msg "Hall homing requires home, min_limit, and max_limit sensors")) ;!
  if_some (e_sensors e) (fun s =>
    let p0 := gpio (sensor_home s) in
    let p1 := gpio (sensor_min_limit s) in
    let p2 := gpio (sensor_max_limit s) in
    refuse_if ((p0 =? p1) || (p0 =? p2) || (p1 =? p2))
      (invalid (Msg "homing.joints.{}.sensors" [AStr j])
        (msg "home, min_limit, and max_limit must use distinct GPIOs"))).

Definition validate_homing_config (h : HomingSection) : result ConfigError unit :=
  positive (msg "homing.zero_verify_tolerance_rad") (zero_verify_tolerance_rad h) ;!
  refuse_if (fgt (zero_verify_tolerance_rad h) (lit64 1 10))
    (invalid (msg "homing.zero_verify_tolerance_rad") (msg "must be <= 0.1 rad")) ;!
  let d := homing_defaults h in
  validate_homing_numbers (msg "homing.defaults")
    (d_home_offset_rad d) (d_search_velocity_rad_s d) (d_search_torque_nm d)
    (d_search_timeout_s d) (d_backoff_rad d) ;!
  try_for_each (fun je => validate_homing_joint h je.1) (homing_joints h).

Definition validate_homing_against_motor (robot : RobotSection) (motors : list MotorEntry)
    (c : ControlSection) (h : HomingSection) (j : string) : result ConfigError unit :=
  let! e := ok_or (effective_joint_ref h j)
    (invalid (msg "homing.joints") (Msg "active joint {} has no homing entry" [AStr j])) in
  if negb (bool_decide (e_method e = HallThreeSensor)) then Ok tt
  else
    let! m := ok_or (motor_for_joint motors j) (UnknownMotorJoint j) in
    let! cap := resolve_joint_velocity_cap j (motor_type m) c in
    refuse_if (fgt (e_search_velocity_rad_s e) cap)
      (invalid (Msg "homing.joints.{}.search_velocity_rad_s" [AStr j])
        (msg "exceeds command velocity cap")) ;!
    let! d := ok_or (hget (motor_type_defaults c) (motor_type_key (motor_type m)))
      (invalid (msg "control.motor_type_defaults") (Msg "missing defaults for {}" [AStr j])) in
    let cap := fmin (fmin (bench_max_joint_torque_nm robot) (torque_limit_nm (bench m)))
                 (tau_ff_max_nm d) in
    refuse_if (fgt (e_search_torque_nm e) cap)
      (invalid (Msg "homing.joints.{}.search_torque_nm" [AStr j])
        (msg "exceeds effective torque cap")).

Definition validate_safety_config (robot : RobotSection) (motors : list MotorEntry)
    (c : ControlSection) (h : HomingSection) : result ConfigError unit :=
  validate_control_against_limits robot motors c ;!
  validate_homing_config h ;!
  try_for_each (validate_homing_against_motor robot motors c h) (robot_joints robot).

End Validate.
