(* ===== verification/Limits.v ===== *)
(** * Velocity-scaled position envelope

    Models [crates/armee-kinematics/src/limits.rs] (ADR 0009 envelope),
    the URDF limit accessors of [lib.rs] and the expand-only widening of
    [expand.rs].  A URDF model ([urdf_rs::Robot]) is the list of joints with the
    fields this crate reads. *)

From Stdlib Require Import ZArith Lia Bool SpecFloat.
From stdpp Require Import base strings list.
From S2P Require Import Prelude Float.

Module Limits.

Inductive LimitBoundsError : Type :=
| NonFiniteHard (lower upper : f64)
| InvertedHard (lower upper : f64)
| NonFiniteSoft (lower upper : f64).

Record JointLimitBounds : Type := mkBounds {
  b_hard_lower : f64;
  b_hard_upper : f64;
  b_soft_lower : f64;
  b_soft_upper : f64;
}.

Definition from_hard_and_soft (hard_lower hard_upper : f64) (soft_lower soft_upper : option f64)
  : result LimitBoundsError JointLimitBounds :=
  refuse_if (negb (is_finite hard_lower) || negb (is_finite hard_upper))
    (NonFiniteHard hard_lower hard_upper) ;!
  refuse_if (fge hard_lower hard_upper) (InvertedHard hard_lower hard_upper) ;!
  let soft_lower := default hard_lower soft_lower in
  let soft_upper := default hard_upper soft_upper in
  refuse_if (negb (is_finite soft_lower) || negb (is_finite soft_upper))
    (NonFiniteSoft soft_lower soft_upper) ;!
  let! sl := fclamp soft_lower hard_lower hard_upper in
  let! su := fclamp soft_upper hard_lower hard_upper in
  Ok (mkBounds hard_lower hard_upper sl su).

Record LimitMarginConfig : Type := mkMargin {
  min_rad : f64;
  k_v_s : f64;
  k_stop : f64;
  velocity_deadband_rad_s : f64;
  measured_fault_slack_rad : f64;
  decel_rad_s2 : f64;
}.

Record JointLimitPolicy : Type := mkPolicy {
  bounds : JointLimitBounds;
  margin : LimitMarginConfig;
  velocity : f64;
  effort : f64;
  tau_ff_max : f64;
}.

Definition hard_lower (p : JointLimitPolicy) : f64 := b_hard_lower (bounds p).
Definition hard_upper (p : JointLimitPolicy) : f64 := b_hard_upper (bounds p).
Definition soft_lower (p : JointLimitPolicy) : f64 := b_soft_lower (bounds p).
Definition soft_upper (p : JointLimitPolicy) : f64 := b_soft_upper (bounds p).

Definition limit_margin_rad (dq_cmd : f64) (m : LimitMarginConfig) : f64 :=
  let v := if fle (fabs dq_cmd) (velocity_deadband_rad_s m) then fzero else fabs dq_cmd in
  let decel := fmax (decel_rad_s2 m) (lit64 1 1000000) in
  add64 (add64 (min_rad m) (mul64 (k_v_s m) v))
    (div64 (mul64 (mul64 (k_stop m) v) v) (mul64 (f64_of_Z 2) decel)).

Definition effective_command_bounds (p : JointLimitPolicy) (q dq_cmd : f64) : f64 * f64 :=
  let b := bounds p in
  let m := limit_margin_rad dq_cmd (margin p) in
  let lo := b_hard_lower b in
  let hi := b_hard_upper b in
  let lo := if flt dq_cmd (fneg (velocity_deadband_rad_s (margin p)))
            then fmin (add64 (b_hard_lower b) m) (b_hard_upper b) else lo in
  let hi := if fgt dq_cmd (velocity_deadband_rad_s (margin p))
            then fmax (sub64 (b_hard_upper b) m) (b_hard_lower b) else hi in
  let lo := fmax lo (b_soft_lower b) in
  let hi := fmin hi (b_soft_upper b) in
  if fle lo hi then (lo, hi)
  else
    let soft_lo := fmin (b_soft_lower b) (b_soft_upper b) in
    let soft_hi := fmax (b_soft_lower b) (b_soft_upper b) in
    let point := if is_finite q then fmin (fmax q soft_lo) soft_hi
                 else mul64 (lit64 5 10) (add64 soft_lo soft_hi) in
    (point, point).

Definition clamp_finite (position anchor lo hi : f64) : f64 :=
  let position := if is_finite position then position
                  else if is_finite anchor then anchor
                  else mul64 (lit64 5 10) (add64 lo hi) in
  fmin (fmax position lo) hi.

Definition clamp_position_in_envelope (p : JointLimitPolicy) (q dq_cmd position_rad : f64) : f64 :=
  let '(lo, hi) := effective_command_bounds p q dq_cmd in
  clamp_finite position_rad q lo hi.

Definition HOLD_TARGET_STOP_TOLERANCE_RAD : f64 := lit64 5 1000.

Definition clamp_hold_target (p : JointLimitPolicy) (q dq_cmd requested_rad : f64) : f64 :=
  let soft_clamped := clamp_finite requested_rad q (soft_lower p) (soft_upper p) in
  let at_lower_stop := fle soft_clamped (add64 (soft_lower p) HOLD_TARGET_STOP_TOLERANCE_RAD) in
  let at_home := fle (fabs soft_clamped) HOLD_TARGET_STOP_TOLERANCE_RAD in
  if (at_lower_stop || at_home) && fgt q soft_clamped then fmax soft_clamped (hard_lower p)
  else if fge soft_clamped (sub64 (hard_upper p) HOLD_TARGET_STOP_TOLERANCE_RAD)
          && flt q (hard_upper p)
  then fmin soft_clamped (hard_upper p)
  else clamp_position_in_envelope p q dq_cmd soft_clamped.

Definition measured_position_fault (q : f64) (p : JointLimitPolicy) : bool :=
  let slack := measured_fault_slack_rad (margin p) in
  let lo := sub64 (hard_lower p) slack in
  let hi := add64 (hard_upper p) slack in
  negb (is_finite q) || is_nan lo || is_nan hi || flt q lo || fgt q hi.

Definition approach_velocity_cap {E : Type} (p : JointLimitPolicy) (q dq_cmd v_max : f64)
  : result E f64 :=
  if fle v_max fzero then Ok fzero
  else
    let m := limit_margin_rad dq_cmd (margin p) in
    if fle m (lit64 1 1000000000) then Ok v_max
    else
      let scale := f64_of_Z 1 in
      let! scale :=
        if flt dq_cmd (fneg (velocity_deadband_rad_s (margin p))) then
          let dist := sub64 q (add64 (hard_lower p) m) in
          if flt dist m then
            let! c := fclamp (div64 dist m) fzero (f64_of_Z 1) in Ok (fmin scale c)
          else Ok scale
        else Ok scale in
      let! scale :=
        if fgt dq_cmd (velocity_deadband_rad_s (margin p)) then
          let dist := sub64 (sub64 (hard_upper p) m) q in
          if flt dist m then
            let! c := fclamp (div64 dist m) fzero (f64_of_Z 1) in Ok (fmin scale c)
          else Ok scale
        else Ok scale in
      Ok (mul64 v_max scale).

(** ** URDF accessors *)

Inductive JointType : Type :=
| Revolute | Continuous | Prismatic | Fixed | Floating | Planar | Spherical.

Record SafetyController : Type := mkSafety { soft_lower_limit : f64; soft_upper_limit : f64 }.

Record UrdfJoint : Type := mkUrdfJoint {
  uj_name : string;
  joint_type : JointType;
  limit_lower : f64;
  limit_upper : f64;
  limit_velocity : f64;
  limit_effort : f64;
  safety_controller : option SafetyController;
}.

Inductive UrdfError : Type :=
| Read (path : string) (m : message)
| InvalidLimits (joint : string) (source : LimitBoundsError).

Record JointLimits : Type := mkLimits {
  l_lower : f64;
  l_upper : f64;
  l_velocity : f64;
  l_effort : f64;
}.

Definition is_actuated (t : JointType) : bool :=
  match t with Revolute | Continuous | Prismatic => true | _ => false end.

Definition find_joint (robot : list UrdfJoint) (n : string) : option UrdfJoint :=
  find_first (fun j => bool_decide (uj_name j = n)) robot.

Definition joint_limits (robot : list UrdfJoint) (n : string) : result UrdfError JointLimits :=
  let! j := ok_or (find_joint robot n) (Read n (msg "joint not found")) in
  refuse_if (negb (is_actuated (joint_type j))) (Read n (msg "joint is not actuated")) ;!
  Ok (mkLimits (limit_lower j) (limit_upper j) (limit_velocity j) (limit_effort j)).

Definition joint_limit_bounds (robot : list UrdfJoint) (n : string)
  : result UrdfError JointLimitBounds :=
  let! hard := joint_limits robot n in
  let! j := ok_or (find_joint robot n) (Read n (msg "joint not found")) in
  let '(sl, su) := match safety_controller j with
                   | Some s => (Some (soft_lower_limit s), Some (soft_upper_limit s))
                   | None => (None, None)
                   end in
  map_err (InvalidLimits n) (from_hard_and_soft (l_lower hard) (l_upper hard) sl su).

Definition actuated_joint_names (robot : list UrdfJoint) : list string :=
  map uj_name (List.filter (fun j => is_actuated (joint_type j)) robot).

Definition actuated_joint_count (robot : list UrdfJoint) : nat :=
  length (List.filter (fun j => is_actuated (joint_type j)) robot).

(** Update the first joint named [n]. *)
Fixpoint update_joint (robot : list UrdfJoint) (n : string) (j : UrdfJoint) : list UrdfJoint :=
  match robot with
  | [] => []
  | x :: rest => if bool_decide (uj_name x = n) then j :: rest else x :: update_joint rest n j
  end.

(** [f64 != f64]. *)
Definition fne (x y : f64) : bool := negb (feq x y).

Definition expand_urdf_joint_hard (robot : list UrdfJoint) (n : string) (lower upper : f64)
  : result UrdfError (bool * list UrdfJoint) :=
  refuse_if (negb (is_finite lower) || negb (is_finite upper) || fge lower upper)
    (Read n (Msg "invalid hard envelope [{}, {}] for expand" [AF64 lower; AF64 upper])) ;!
  let! j := ok_or (find_joint robot n) (Read n (msg "joint not found")) in
  refuse_if (negb (is_actuated (joint_type j))) (Read n (msg "joint is not actuated")) ;!
  let new_lower := fmin lower (limit_lower j) in
  let new_upper := fmax upper (limit_upper j) in
  let soft := (fun s => (fmax (soft_lower_limit s) new_lower, fmin (soft_upper_limit s) new_upper))
              <$> safety_controller j in
  match safety_controller j, soft with
  | Some s, Some (sl, su) =>
      refuse_if (negb (is_finite (soft_lower_limit s)) || negb (is_finite (soft_upper_limit s))
                 || fgt sl su)
        (Read n (Msg "safety_controller soft [{}, {}] is inconsistent with hard [{}, {}]; fix the URDF soft bounds before expanding"
          [AF64 (soft_lower_limit s); AF64 (soft_upper_limit s); AF64 new_lower; AF64 new_upper]))
  | _, _ => Ok tt
  end ;!
  let lower_changed := flt new_lower (limit_lower j) in
  let upper_changed := fgt new_upper (limit_upper j) in
  let limit_lower' := if lower_changed then new_lower else limit_lower j in
  let limit_upper' := if upper_changed then new_upper else limit_upper j in
  let '(safety', soft_changed) :=
    match safety_controller j, soft with
    | Some s, Some (sl, su) =>
        let cl := fne (soft_lower_limit s) sl in
        let cu := fne (soft_upper_limit s) su in
        (Some (mkSafety (if cl then sl else soft_lower_limit s)
                        (if cu then su else soft_upper_limit s)), cl || cu)
    | s, _ => (s, false)
    end in
  Ok (lower_changed || upper_changed || soft_changed,
      update_joint robot n
        (mkUrdfJoint (uj_name j) (joint_type j) limit_lower' limit_upper'
           (limit_velocity j) (limit_effort j) safety')).

(** ** Well-formed bounds *)

(** What [from_hard_and_soft] establishes and [build_limits] keeps. *)
Record bounds_wf (b : JointLimitBounds) : Prop := {
  wf_hard_lower : is_finite (b_hard_lower b) = true;
  wf_hard_upper : is_finite (b_hard_upper b) = true;
  wf_hard : flt (b_hard_lower b) (b_hard_upper b) = true;
  wf_soft_lower : fle (b_hard_lower b) (b_soft_lower b) = true /\ fle (b_soft_lower b) (b_hard_upper b) = true;
  wf_soft_upper : fle (b_hard_lower b) (b_soft_upper b) = true /\ fle (b_soft_upper b) (b_hard_upper b) = true;
}.

Lemma from_hard_and_soft_wf (hl hu : f64) (sl su : option f64) (b : JointLimitBounds) :
  from_hard_and_soft hl hu sl su = Ok b ->
  bounds_wf b /\ b_hard_lower b = hl /\ b_hard_upper b = hu.
Proof.
  unfold from_hard_and_soft. intros H. repeat bind_inv H. inv H. simpl. bsimp.
  assert (Hn : is_nan hl = false /\ is_nan hu = false) by float_solve.
  destruct Hn as [Hl Hu]. unfold fge in *.
  split; [|auto]. split; simpl; auto.
  - float_solve.
  - eapply fclamp_between; [|eassumption]. apply finite_not_nan; assumption.
  - eapply fclamp_between; [|eassumption]. apply finite_not_nan; assumption.
Qed.

Lemma from_hard_and_soft_no_panic (hl hu : f64) (sl su : option f64) :
  from_hard_and_soft hl hu sl su <> Panic.
Proof.
  unfold from_hard_and_soft, refuse_if.
  destruct (negb (is_finite hl) || negb (is_finite hu)) eqn:E1; simpl; [discriminate|].
  destruct (fge hl hu) eqn:E2; simpl; [discriminate|].
  destruct (negb (is_finite (default hl sl)) || _) eqn:E3; simpl; [discriminate|].
  bsimp. unfold fge in *.
  assert (Hle : fle hl hu = true).
  { pose proof (finite_not_nan hl). pose proof (finite_not_nan hu). 
    assert (is_nan hl = false) by auto. assert (is_nan hu = false) by auto. float_solve. }
  unfold fclamp. rewrite Hle. simpl. discriminate.
Qed.

(** ** Envelope lemmas *)

Definition soft_lo (b : JointLimitBounds) : f64 := fmin (b_soft_lower b) (b_soft_upper b).
Definition soft_hi (b : JointLimitBounds) : f64 := fmax (b_soft_lower b) (b_soft_upper b).

Lemma bounds_wf_nan (b : JointLimitBounds) :
  bounds_wf b ->
  is_nan (b_hard_lower b) = false /\ is_nan (b_hard_upper b) = false /\
  is_nan (b_soft_lower b) = false /\ is_nan (b_soft_upper b) = false.
Proof. intros [H1 H2 _ [H3 _] [H4 _]]. float_solve. Qed.

Lemma soft_range (b : JointLimitBounds) :
  bounds_wf b ->
  fle (soft_lo b) (soft_hi b) = true /\
  fle (b_hard_lower b) (soft_lo b) = true /\ fle (soft_hi b) (b_hard_upper b) = true /\
  fle (soft_lo b) (b_soft_lower b) = true /\ fle (b_soft_upper b) (soft_hi b) = true.
Proof.
  intros W. destruct (bounds_wf_nan b W) as (_ & _ & N1 & N2).
  destruct W as [_ _ _ [H1 H2] [H3 H4]]. unfold soft_lo, soft_hi.
  destruct (fmin_lb _ _ N1 N2), (fmax_ub _ _ N1 N2).
  repeat split; auto using fmin_glb, fmax_lub. eauto using fle_trans.
Qed.

Lemma fmin_not_nan_r (x y : f64) : is_nan y = false -> is_nan (fmin x y) = false.
Proof.
  intros Hy. unfold fmin. destruct (is_nan x) eqn:Hx; [assumption|].
  rewrite Hy. destruct (flt y x); assumption.
Qed.

Lemma fmax_not_nan_r (x y : f64) : is_nan y = false -> is_nan (fmax x y) = false.
Proof.
  intros Hy. unfold fmax. destruct (is_nan x) eqn:Hx; [assumption|].
  rewrite Hy. destruct (flt x y); assumption.
Qed.

(** Clamping from below by [y] (from above) bounds the result even for a NaN operand. *)
Lemma fmax_ge_r (x y : f64) : is_nan y = false -> fle y (fmax x y) = true.
Proof.
  intros Hy. destruct (is_nan x) eqn:Hx; [unfold fmax; rewrite Hx; auto using fle_refl|].
  apply fmax_ub; auto.
Qed.

Lemma fmin_le_r (x y : f64) : is_nan y = false -> fle (fmin x y) y = true.
Proof.
  intros Hy. destruct (is_nan x) eqn:Hx; [unfold fmin; rewrite Hx; auto using fle_refl|].
  apply fmin_lb; auto.
Qed.

(** The envelope is a nonempty interval inside the soft range, whatever the
    margin arithmetic produced (NaN and infinities included). *)
Lemma effective_bounds_in_soft (p : JointLimitPolicy) (q dq lo hi : f64) :
  bounds_wf (bounds p) -> is_finite q = true ->
  effective_command_bounds p q dq = (lo, hi) ->
  fle lo hi = true /\ fle (soft_lo (bounds p)) lo = true /\ fle hi (soft_hi (bounds p)) = true.
Proof.
  intros W Q H. destruct (soft_range _ W) as (R & _ & _ & R1 & R2).
  destruct (bounds_wf_nan _ W) as (_ & _ & N1 & N2).
  unfold effective_command_bounds in H.
  set (lo0 := if flt dq _ then _ else _) in H.
  set (hi0 := if fgt dq _ then _ else _) in H.
  destruct (fle (fmax lo0 _) (fmin hi0 _)) eqn:E.
  - inv H. split; [exact E|].
    split; [eapply fle_trans; [exact R1|apply fmax_ge_r; auto]
           |eapply fle_trans; [apply fmin_le_r; auto|exact R2]].
  - rewrite Q in H. inv H. fold (soft_lo (bounds p)) (soft_hi (bounds p)).
    destruct (fmax_fmin_between q _ _ R) as [A B].
    split; [|auto]. apply fle_refl. float_solve.
Qed.

Lemma clamp_finite_between (x a lo hi : f64) :
  fle lo hi = true ->
  fle lo (clamp_finite x a lo hi) = true /\ fle (clamp_finite x a lo hi) hi = true.
Proof. intros. apply fmax_fmin_between. assumption. Qed.

Lemma clamp_position_bounds (p : JointLimitPolicy) (q dq x : f64) :
  bounds_wf (bounds p) -> is_finite q = true ->
  let y := clamp_position_in_envelope p q dq x in
  fle (soft_lo (bounds p)) y = true /\ fle y (soft_hi (bounds p)) = true /\
  fle (hard_lower p) y = true /\ fle y (hard_upper p) = true /\ is_finite y = true.
Proof.
  intros W Q y. subst y. unfold clamp_position_in_envelope.
  destruct (effective_command_bounds p q dq) as [lo hi] eqn:E.
  destruct (effective_bounds_in_soft _ _ _ _ _ W Q E) as (A & B & C).
  destruct (clamp_finite_between x q lo hi A) as [D F].
  destruct (soft_range _ W) as (_ & R1 & R2 & _).
  assert (fle (hard_lower p) (clamp_finite x q lo hi) = true) by eauto using fle_trans.
  assert (fle (clamp_finite x q lo hi) (hard_upper p) = true) by eauto using fle_trans.
  repeat split; eauto using fle_trans.
  destruct W as [W1 W2 _ _ _]. eapply fle_between_finite; eassumption.
Qed.

(** A commanded position already inside the envelope is not moved. *)
Lemma clamp_finite_id (x a lo hi : f64) :
  is_finite x = true -> fle lo x = true -> fle x hi = true -> clamp_finite x a lo hi = x.
Proof.
  intros F L H. unfold clamp_finite. rewrite F. unfold fmax, fmin.
  assert (is_nan x = false /\ is_nan lo = false /\ is_nan hi = false) as (-> & -> & ->) by float_solve.
  destruct (flt x lo) eqn:E1; [float_solve|].
  assert (is_nan x = false) as -> by float_solve.
  destruct (flt hi x) eqn:E2; [float_solve|reflexivity].
Qed.

Lemma clamp_finite_in_hull (x a lo hi hl hu : f64) :
  is_finite x = true -> fle hl lo = true -> fle lo hu = true -> fle hl hi = true -> fle hi hu = true ->
  fle hl (clamp_finite x a lo hi) = true /\ fle (clamp_finite x a lo hi) hu = true.
Proof.
  intros F A B C D. unfold clamp_finite. rewrite F.
  assert (is_nan x = false /\ is_nan lo = false /\ is_nan hi = false) as (Nx & Nl & Nh) by float_solve.
  split.
  - apply fmin_glb; [|assumption]. eapply fle_trans; [exact A|]. apply fmax_ge_r; assumption.
  - eapply fle_trans; [apply fmin_le_r|]; assumption.
Qed.

(** ** Claims *)

(** the envelope clamp. Whatever setpoint is requested (NaN and infinities included) and
    whatever the commanded velocity, the clamped position is finite and lies inside both the
    soft and the hard range of a well-formed policy. *)
Theorem clamp_position_in_envelope_safe (p : JointLimitPolicy) (q dq x : f64) :
  bounds_wf (bounds p) -> is_finite q = true ->
  let y := clamp_position_in_envelope p q dq x in
  is_finite y = true /\
  in_range (soft_lo (bounds p)) (soft_hi (bounds p)) y = true /\
  in_range (hard_lower p) (hard_upper p) y = true.
Proof.
  intros W Q y. destruct (clamp_position_bounds p q dq x W Q) as (A & B & C & D & F).
  unfold in_range. subst y. rewrite A, B, C, D. auto.
Qed.

Definition pitch_policy : JointLimitPolicy :=
  mkPolicy (mkBounds (lit64 (-9) 10) (f64_of_Z 2) (lit64 (-85) 100) (lit64 195 100))
    (mkMargin (lit64 1 100) (lit64 2 100) (lit64 5 10) (lit64 2 100) (lit64 3 100) (lit64 2 10))
    (f64_of_Z 2) (f64_of_Z 5) (f64_of_Z 5).

Lemma pitch_policy_wf : bounds_wf (bounds pitch_policy).
Proof. split; try split; vm_compute; reflexivity. Qed.

Lemma clamp_position_in_envelope_safe_witness :
  is_finite (clamp_position_in_envelope pitch_policy fzero (f64_of_Z 1) S754_nan) = true /\
  in_range (soft_lo (bounds pitch_policy)) (soft_hi (bounds pitch_policy))
    (clamp_position_in_envelope pitch_policy fzero (f64_of_Z 1) S754_nan) = true /\
  in_range (hard_lower pitch_policy) (hard_upper pitch_policy)
    (clamp_position_in_envelope pitch_policy fzero (f64_of_Z 1) S754_nan) = true.
Proof.
  exact (clamp_position_in_envelope_safe pitch_policy fzero (f64_of_Z 1) S754_nan
           pitch_policy_wf eq_refl).
Defined.

(** the operator hold target. For a finite request (or measured pose) the returned goal is
    finite and never leaves the hard range, on the stop and home exemptions too. *)
Theorem clamp_hold_target_in_hard (p : JointLimitPolicy) (q dq x : f64) :
  bounds_wf (bounds p) -> is_finite q = true ->
  let y := clamp_hold_target p q dq x in
  is_finite y = true /\ in_range (hard_lower p) (hard_upper p) y = true.
Proof.
  intros W Q y.
  assert (S : fle (hard_lower p) (clamp_finite x q (soft_lower p) (soft_upper p)) = true /\
              fle (clamp_finite x q (soft_lower p) (soft_upper p)) (hard_upper p) = true).
  { destruct (bounds_wf_nan _ W) as (_ & _ & N1 & N2).
    destruct W as [_ _ _ [H1 H2] [H3 H4]].
    destruct (is_finite x) eqn:F; [apply clamp_finite_in_hull; auto|].
    unfold clamp_finite. rewrite F, Q.
    replace (fmin (fmax q (soft_lower p)) (soft_upper p)) with
      (clamp_finite q q (soft_lower p) (soft_upper p)) by (unfold clamp_finite; now rewrite Q).
    apply clamp_finite_in_hull; auto. }
  destruct S as [SL SU].
  destruct (bounds_wf_nan _ W) as (NL & NU & _ & _).
  assert (B : fle (hard_lower p) y = true /\ fle y (hard_upper p) = true).
  { subst y. unfold clamp_hold_target.
    set (s := clamp_finite x q (soft_lower p) (soft_upper p)) in *.
    destruct ((_ || _) && _); [|destruct (fge _ _ && _)].
    - split; [apply fmax_ge_r; auto|apply fmax_lub; auto].
      destruct W as [_ _ W3 _ _]. apply flt_le; exact W3.
    - split; [apply fmin_glb; auto|apply fmin_le_r; auto].
      destruct W as [_ _ W3 _ _]. apply flt_le; exact W3.
    - destruct (clamp_position_bounds p q dq s W Q) as (_ & _ & C & D & _). auto. }
  destruct B as [B1 B2]. split.
  - destruct W as [W1 W2 _ _ _]. eapply fle_between_finite; eassumption.
  - unfold in_range. now rewrite B1, B2.
Qed.

Lemma clamp_hold_target_in_hard_witness :
  is_finite (clamp_hold_target pitch_policy fzero (f64_of_Z 1) (f64_of_Z 7)) = true /\
  in_range (hard_lower pitch_policy) (hard_upper pitch_policy)
    (clamp_hold_target pitch_policy fzero (f64_of_Z 1) (f64_of_Z 7)) = true.
Proof.
  exact (clamp_hold_target_in_hard pitch_policy fzero (f64_of_Z 1) (f64_of_Z 7)
           pitch_policy_wf eq_refl).
Defined.

(** ** Expand-only widening *)

(** [k] is [j] with its hard range possibly widened and its soft bounds moved. *)
Definition widened (j k : UrdfJoint) : Prop :=
  uj_name k = uj_name j /\ joint_type k = joint_type j /\
  limit_velocity k = limit_velocity j /\ limit_effort k = limit_effort j /\
  (is_nan (limit_lower j) = false -> fle (limit_lower k) (limit_lower j) = true) /\
  (is_nan (limit_upper j) = false -> fle (limit_upper j) (limit_upper k) = true).

Lemma update_joint_found (robot : list UrdfJoint) (n : string) (j k : UrdfJoint) :
  find_joint robot n = Some j -> uj_name k = uj_name j ->
  length (update_joint robot n k) = length robot /\ find_joint (update_joint robot n k) n = Some k /\
  (forall n', n' <> n -> find_joint (update_joint robot n k) n' = find_joint robot n').
Proof.
  unfold find_joint. induction robot as [|x robot IH]; simpl; intros H Hk; [discriminate|].
  destruct (bool_decide (uj_name x = n)) eqn:E.
  - inv H. apply bool_decide_eq_true in E. simpl. rewrite Hk, E, bool_decide_eq_true_2 by reflexivity.
    split; [reflexivity|]. split; [reflexivity|]. intros n' Hn.
    rewrite !bool_decide_eq_false_2 by congruence. reflexivity.
  - destruct (IH H Hk) as (I1 & I2 & I3). simpl. rewrite I1, E. split; [reflexivity|].
    split; [exact I2|]. intros n' Hn. destruct (bool_decide (uj_name x = n')); auto.
Qed.

(** expanding a joint's hard range never shrinks it: on success only the named
    joint changes; its new range contains the old one and the requested one, its
    velocity and effort limits are untouched, and every other joint of the model
    is exactly as before. *)
Theorem expand_only_widens (robot robot' : list UrdfJoint) (n : string) (lower upper : f64) (changed : bool)
  (H : expand_urdf_joint_hard robot n lower upper = Ok (changed, robot')) :
  length robot' = length robot /\
  (forall n', n' <> n -> find_joint robot' n' = find_joint robot n') /\
  exists j k, find_joint robot n = Some j /\ find_joint robot' n = Some k /\ widened j k /\
    (is_nan (limit_lower j) = false -> fle (limit_lower k) lower = true) /\
    (is_nan (limit_upper j) = false -> fle upper (limit_upper k) = true).
Proof.
  unfold expand_urdf_joint_hard in H. bind_inv H. bind_inv H. rename x0 into j, E0 into Hj.
  apply ok_or_ok in Hj. bind_inv H. bind_inv H.
  match type of H with (let '(_, _) := ?p in _) = _ => destruct p as [safety soft_changed] end.
  injection H as _ <-.
  set (k := mkUrdfJoint _ _ _ _ _ _ _).
  destruct (update_joint_found robot n j k Hj eq_refl) as (U1 & U2 & U3).
  split; [exact U1|]. split; [exact U3|]. exists j, k. split; [exact Hj|]. split; [exact U2|].
  bsimp.
  assert (Nl : is_nan lower = false) by (now apply finite_not_nan).
  assert (Nu : is_nan upper = false) by (now apply finite_not_nan).
  assert (Lo : is_nan (limit_lower j) = false ->
    fle (limit_lower k) (limit_lower j) = true /\ fle (limit_lower k) lower = true).
  { intros Hn. cbn [k limit_lower]. destruct (fmin_lb lower (limit_lower j) Nl Hn) as [L1 L2].
    destruct (flt (fmin lower (limit_lower j)) (limit_lower j)) eqn:E5; [auto|].
    split; [now apply fle_refl|]. unfold fmin in E5. rewrite Nl, Hn in E5.
    destruct (flt (limit_lower j) lower) eqn:E6; [now apply flt_le|].
    assert (fle (limit_lower j) lower = true) by float_solve. assumption. }
  assert (Up : is_nan (limit_upper j) = false ->
    fle (limit_upper j) (limit_upper k) = true /\ fle upper (limit_upper k) = true).
  { intros Hn. cbn [k limit_upper]. destruct (fmax_ub upper (limit_upper j) Nu Hn) as [L1 L2].
    unfold fgt. destruct (flt (limit_upper j) (fmax upper (limit_upper j))) eqn:E5; [auto|].
    split; [now apply fle_refl|]. unfold fmax in E5. rewrite Nu, Hn in E5.
    destruct (flt upper (limit_upper j)) eqn:E6; [now apply flt_le|].
    assert (fle upper (limit_upper j) = true) by float_solve. assumption. }
  unfold widened. simpl uj_name. repeat split; intros Hn; first [now apply Lo|now apply Up].
Qed.

Definition elbow_urdf : list UrdfJoint :=
  [mkUrdfJoint "elbow" Revolute fzero (f64_of_Z 1) (f64_of_Z 3) (f64_of_Z 10) None;
   mkUrdfJoint "wrist" Revolute fzero (f64_of_Z 2) (f64_of_Z 3) (f64_of_Z 10) None].

Definition elbow_wider : list UrdfJoint :=
  match expand_urdf_joint_hard elbow_urdf "elbow" (lit64 (-1) 2) (lit64 1 2) with
  | Ok (_, r) => r
  | _ => []
  end.

Lemma expand_only_widens_witness :
  length elbow_wider = length elbow_urdf /\
  (forall n', n' <> "elbow"%string -> find_joint elbow_wider n' = find_joint elbow_urdf n') /\
  exists j k, find_joint elbow_urdf "elbow" = Some j /\ find_joint elbow_wider "elbow" = Some k /\
    widened j k /\
    (is_nan (limit_lower j) = false -> fle (limit_lower k) (lit64 (-1) 2) = true) /\
    (is_nan (limit_upper j) = false -> fle (lit64 1 2) (limit_upper k) = true).
Proof.
  apply (expand_only_widens elbow_urdf elbow_wider "elbow" (lit64 (-1) 2) (lit64 1 2) true).
  vm_compute. reflexivity.
Defined.

End Limits.
