(* ===== verification/TotalTorque.v ===== *)
(** * Bound on the total MIT torque ([crates/davout/src/total_torque.rs])

    The drive computes [kp*(q_des - q) + kd*(dq_des - dq) + tau_ff]; Davout predicts
    the total and scales the setpoints toward feedback.  The clamp log is the
    per-joint counter with its rate-limited warning. *)

From Stdlib Require Import ZArith Lia Bool SpecFloat.
From stdpp Require Import base gmap strings list.
From S2P Require Import Prelude Float.

(** MIT command for one joint, joint space ([davout::MitJointCommand]). *)
Record MitJointCommand : Type := mkMitJoint {
  mj_joint : string;
  mj_kp : f64;
  mj_kd : f64;
  mj_position_rad : f64;
  mj_velocity_rad_s : f64;
  mj_torque_ff_nm : f64;
}.

Definition with_setpoint (c : MitJointCommand) (position velocity : f64) : MitJointCommand :=
  mkMitJoint (mj_joint c) (mj_kp c) (mj_kd c) position velocity (mj_torque_ff_nm c).

Module TotalTorque.

Definition TOTAL_TORQUE_VELOCITY_MARGIN_RAD_S : f64 := lit64 1 10.
Definition TOTAL_TORQUE_HORIZON_TICKS : f64 := f64_of_Z 2.
(** One second, in nanoseconds. *)
Definition TOTAL_TORQUE_CLAMP_LOG_INTERVAL : Z := 1000000000.

(** The errors this module returns, as [DavoutError] carries them. *)
Inductive TorqueError : Type :=
| TInvalidCommand (joint : string) (m : message)
| TInvalidFeedback (joint : string) (m : message)
| TLimit (joint : string) (m : message).

Record TotalTorqueClamp : Type := mkClamp {
  predicted_nm : f64;
  bounded_nm : f64;
  cap_nm : f64;
  scale : f64;
}.

Record TotalTorqueClampLog : Type := mkClampLog {
  counts : gmap string Z;
  last_warn : option Z;
  unlogged : Z;
}.

Definition clamp_log_default : TotalTorqueClampLog := mkClampLog ∅ None 0.

Definition clamp_count (l : TotalTorqueClampLog) (joint : string) : Z :=
  default 0 (counts l !! joint).

(** Count one sent clamp.  The second component is the number of clamps the
    emitted warning reports ([None] when the warning is suppressed). *)
Definition clamp_record (l : TotalTorqueClampLog) (joint : string) (now : Z)
  : TotalTorqueClampLog * option Z :=
  let count := sat_add_u64 (clamp_count l joint) 1 in
  let counts' := <[joint := count]> (counts l) in
  let unlogged' := sat_add_u64 (unlogged l) 1 in
  if match last_warn l with
     | Some last => Z.max 0 (now - last) <? TOTAL_TORQUE_CLAMP_LOG_INTERVAL
     | None => false
     end
  then (mkClampLog counts' (last_warn l) unlogged', None)
  else (mkClampLog counts' (Some now) 0, Some unlogged').

Definition margin_nm (c : MitJointCommand) (dq horizon_s : f64) : f64 :=
  let e_max := mul64 (fmax (fabs dq) (fabs (mj_velocity_rad_s c))) horizon_s in
  add64 (mul64 (mj_kp c) e_max) (mul64 (mj_kd c) TOTAL_TORQUE_VELOCITY_MARGIN_RAD_S).

Definition predicted_total_torque_nm (c : MitJointCommand) (q dq horizon_s : f64) : f64 :=
  let pd := add64 (mul64 (mj_kp c) (sub64 (mj_position_rad c) q))
                  (mul64 (mj_kd c) (sub64 (mj_velocity_rad_s c) dq)) in
  add64 (fabs (add64 pd (mj_torque_ff_nm c))) (margin_nm c dq horizon_s).

Definition invalid (c : MitJointCommand) (m : message) : TorqueError :=
  TInvalidCommand (mj_joint c) m.

(** The command's numeric fields in the order both validators walk them. *)
Definition command_fields (c : MitJointCommand) : list (string * f64) :=
  [("position"%string, mj_position_rad c); ("velocity"%string, mj_velocity_rad_s c);
   ("kp"%string, mj_kp c); ("kd"%string, mj_kd c); ("torque_ff"%string, mj_torque_ff_nm c)].

(** The clamped command and, when it was clamped, what happened. *)
Definition clamp_total_torque (c : MitJointCommand) (q dq cap horizon_s : f64)
  : result TorqueError (MitJointCommand * option TotalTorqueClamp) :=
  try_for_each (fun fv => refuse_if (negb (is_finite fv.2))
    (invalid c (Msg "{} must be finite" [AStr fv.1]))) (command_fields c) ;!
  refuse_if (negb (is_finite q) || negb (is_finite dq))
    (TInvalidFeedback (mj_joint c)
      (msg "total-torque bound needs finite position and velocity feedback")) ;!
  refuse_if (negb (is_finite cap) || flt cap fzero || negb (is_finite horizon_s)
             || fle horizon_s fzero)
    (TLimit (mj_joint c) (Msg "total-torque bound needs a finite cap ({}) and horizon" [AF64 cap])) ;!
  let e := sub64 (mj_position_rad c) q in
  let e_dot := sub64 (mj_velocity_rad_s c) dq in
  let pd := add64 (mul64 (mj_kp c) e) (mul64 (mj_kd c) e_dot) in
  let margin := margin_nm c dq horizon_s in
  refuse_if (negb (is_finite pd) || negb (is_finite margin))
    (invalid c (msg "predicted total torque overflows")) ;!
  let upper := sub64 (sub64 cap margin) (mj_torque_ff_nm c) in
  let lower := sub64 (add64 (fneg cap) margin) (mj_torque_ff_nm c) in
  let! target := if fle lower upper then fclamp pd lower upper else Ok (fneg (mj_torque_ff_nm c)) in
  let! reachable := fclamp target (fmin pd fzero) (fmax pd fzero) in
  if feq reachable pd then Ok (c, None)
  else
    let predicted := predicted_total_torque_nm c q dq horizon_s in
    let scale := div64 reachable pd in
    let position := add64 q (mul64 scale e) in
    let velocity := add64 dq (mul64 scale e_dot) in
    refuse_if (negb (is_finite position) || negb (is_finite velocity)
               || negb (in_range fzero (f64_of_Z 1) scale))
      (invalid c (msg "total-torque clamp produced a non-finite setpoint")) ;!
    Ok (with_setpoint c position velocity,
        Some (mkClamp predicted
                (add64 (fabs (add64 reachable (mj_torque_ff_nm c))) margin) cap scale)).

(** ** Lemmas *)

Lemma target_not_nan (c : MitJointCommand) (pd lower upper t : f64) :
  is_finite pd = true -> is_finite (mj_torque_ff_nm c) = true ->
  (if fle lower upper then fclamp (E:=TorqueError) pd lower upper else Ok (fneg (mj_torque_ff_nm c))) = Ok t ->
  is_nan t = false.
Proof.
  intros Hp Ht H. destruct (fle lower upper).
  - eapply fclamp_not_nan; [|exact H]. apply finite_not_nan; assumption.
  - inv H. rewrite fneg_nan. apply finite_not_nan; assumption.
Qed.

Lemma reachable_interval (pd : f64) :
  is_finite pd = true -> fle (fmin pd fzero) (fmax pd fzero) = true.
Proof.
  intros H. assert (is_nan pd = false) by (apply finite_not_nan; auto).
  eapply fle_trans; [apply fmin_lb|apply fmax_ub]; auto.
Qed.

(** No branch of the clamp reaches [f64::clamp]'s assertion. *)
Lemma clamp_total_torque_no_panic (c : MitJointCommand) (q dq cap h : f64) :
  clamp_total_torque c q dq cap h <> Panic.
Proof.
  unfold clamp_total_torque. apply rbind_not_panic.
  { generalize (command_fields c). induction l as [|x l IH]; simpl; [discriminate|].
    unfold refuse_if at 1. destruct (negb _); simpl; [discriminate|exact IH]. }
  intros _ _. unfold refuse_if at 1. destruct (_ || _); simpl; [discriminate|].
  unfold refuse_if at 1. destruct (_ || _); simpl; [discriminate|].
  unfold refuse_if at 1. destruct (_ || _) eqn:F; simpl; [discriminate|].
  bsimp. set (lower := sub64 (add64 (fneg cap) _) _). set (upper := sub64 (sub64 cap _) _).
  assert (T : exists t, (if fle lower upper then fclamp (E:=TorqueError)
     (add64 (mul64 (mj_kp c) (sub64 (mj_position_rad c) q)) (mul64 (mj_kd c) (sub64 (mj_velocity_rad_s c) dq)))
     lower upper else Ok (fneg (mj_torque_ff_nm c))) = Ok t).
  { destruct (fle lower upper) eqn:L; [apply fclamp_ok; assumption|eauto]. }
  destruct T as [t ->]. simpl.
  unfold fclamp at 1. rewrite reachable_interval by assumption. simpl.
  destruct (feq _ _); [discriminate|]. unfold refuse_if. destruct (_ || _); simpl; discriminate.
Qed.

(** What a successful clamp leaves: gains and feedforward untouched, setpoints
    either untouched or finite, the scale in [[0, 1]] and the reported cap finite
    and nonnegative. *)
Lemma clamp_total_torque_ok (c c' : MitJointCommand) (q dq cap h : f64) (o : option TotalTorqueClamp) :
  clamp_total_torque c q dq cap h = Ok (c', o) ->
  mj_joint c' = mj_joint c /\ mj_kp c' = mj_kp c /\ mj_kd c' = mj_kd c /\
  mj_torque_ff_nm c' = mj_torque_ff_nm c /\
  Forall (fun fv => is_finite fv.2 = true) (command_fields c) /\
  is_finite (mj_position_rad c') = true /\ is_finite (mj_velocity_rad_s c') = true /\
  is_finite cap = true /\ flt cap fzero = false /\
  match o with
  | None => c' = c
  | Some k => cap_nm k = cap /\ in_range fzero (f64_of_Z 1) (scale k) = true
  end.
Proof.
  unfold clamp_total_torque. intros H. bind_inv H. rename E into Hf.
  destruct x. rewrite try_for_each_ok in Hf.
  assert (Ff : Forall (fun fv => is_finite fv.2 = true) (command_fields c)).
  { apply Forall_forall. intros x Hx. apply list_elem_of_In in Hx. specialize (Hf x Hx). bsimp. auto. }
  bind_inv H. bind_inv H. bind_inv H. bsimp. bind_inv H. bind_inv H.
  assert (Fp : is_finite (mj_position_rad c) = true /\ is_finite (mj_velocity_rad_s c) = true).
  { unfold command_fields in Ff. repeat (apply Forall_cons in Ff as [? Ff]). auto. }
  destruct (feq _ _) in H.
  - inv H. simpl. repeat split; tauto.
  - bind_inv H. bsimp. inv H. simpl. repeat split; tauto.
Qed.

(** The inputs the bound accepts: finite command, feedback, cap and horizon, and a
    predicted PD torque and margin that do not overflow. *)
Definition inputs_ok (c : MitJointCommand) (q dq cap h : f64) : bool :=
  forallb (fun fv => is_finite fv.2) (command_fields c)
  && is_finite q && is_finite dq && is_finite cap && negb (flt cap fzero) && is_finite h
  && negb (fle h fzero)
  && is_finite (add64 (mul64 (mj_kp c) (sub64 (mj_position_rad c) q))
                  (mul64 (mj_kd c) (sub64 (mj_velocity_rad_s c) dq)))
  && is_finite (margin_nm c dq h).

(** The PD torque lies in the band the cap leaves beside margin and feedforward. *)
Definition within_cap (c : MitJointCommand) (q dq cap h : f64) : bool :=
  let pd := add64 (mul64 (mj_kp c) (sub64 (mj_position_rad c) q))
                  (mul64 (mj_kd c) (sub64 (mj_velocity_rad_s c) dq)) in
  let m := margin_nm c dq h in
  in_range (sub64 (add64 (fneg cap) m) (mj_torque_ff_nm c)) (sub64 (sub64 cap m) (mj_torque_ff_nm c)) pd.

Lemma reachable_self {E : Type} (pd : f64) :
  is_finite pd = true -> @fclamp E pd (fmin pd fzero) (fmax pd fzero) = Ok pd.
Proof.
  intros H. apply finite_not_nan in H. destruct (fmin_lb pd fzero H eq_refl), (fmax_ub pd fzero H eq_refl).
  now apply fclamp_id.
Qed.

Lemma within_cap_untouched (c : MitJointCommand) (q dq cap h : f64) :
  inputs_ok c q dq cap h = true -> within_cap c q dq cap h = true ->
  clamp_total_torque c q dq cap h = Ok (c, None).
Proof.
  unfold inputs_ok, within_cap, in_range. intros Hi Hw. bsimp. unfold clamp_total_torque.
  replace (try_for_each _ (command_fields c)) with (@Ok TorqueError unit tt).
  2:{ symmetry. apply try_for_each_ok. intros fv Hfv.
      match goal with H : forallb _ _ = true |- _ => rewrite forallb_forall in H; specialize (H fv Hfv) end.
      unfold refuse_if. match goal with H : is_finite fv.2 = true |- _ => now rewrite H end. }
  cbn [rbind].
  set (pd := add64 (mul64 (mj_kp c) _) _) in *. set (m := margin_nm c dq h) in *.
  repeat match goal with H : is_finite _ = true |- _ => rewrite H; revert H end. intros.
  repeat match goal with H : flt _ fzero = false |- _ => rewrite H; revert H
                       | H : fle _ fzero = false |- _ => rewrite H; revert H end. intros.
  cbn [negb orb refuse_if rbind].
  match goal with H1 : fle ?lo pd = true, H2 : fle pd ?hi = true |- _ =>
    rewrite (fle_trans _ _ _ H1 H2), (fclamp_id _ _ _ H1 H2) end.
  cbn [rbind]. rewrite reachable_self by assumption. cbn [rbind].
  replace (feq pd pd) with true; [reflexivity|]. symmetry. apply feq_iff.
  assert (is_nan pd = false) by (now apply finite_not_nan). auto.
Qed.

(** the total-torque bound moves setpoints only, only toward feedback, and only
    when needed: it never panics; a command whose predicted PD torque fits the cap
    is returned bit for bit; a clamped one keeps joint, gains and feedforward, has
    finite setpoints and a scale between 0 and 1; and nothing passes under a
    negative or non-finite cap. *)
Theorem total_torque_clamp_contract (c : MitJointCommand) (q dq cap h : f64) :
  clamp_total_torque c q dq cap h <> Panic /\
  (inputs_ok c q dq cap h && within_cap c q dq cap h = true ->
     clamp_total_torque c q dq cap h = Ok (c, None)) /\
  (forall c' o, clamp_total_torque c q dq cap h = Ok (c', o) ->
     mj_joint c' = mj_joint c /\ mj_kp c' = mj_kp c /\ mj_kd c' = mj_kd c /\
     mj_torque_ff_nm c' = mj_torque_ff_nm c /\
     is_finite (mj_position_rad c') = true /\ is_finite (mj_velocity_rad_s c') = true /\
     is_finite cap = true /\ flt cap fzero = false /\
     match o with
     | None => c' = c
     | Some k => cap_nm k = cap /\ in_range fzero (f64_of_Z 1) (scale k) = true
     end).
Proof.
  split; [apply clamp_total_torque_no_panic|]. split.
  - intros H. apply andb_prop in H as [Hi Hw]. now apply within_cap_untouched.
  - intros c' o H. apply clamp_total_torque_ok in H. tauto.
Qed.

Lemma total_torque_clamp_contract_witness :
  let c := mkMitJoint "elbow" (f64_of_Z 20) (f64_of_Z 1) (lit64 1 10) fzero fzero in
  clamp_total_torque c fzero fzero (f64_of_Z 5) (lit64 1 100) = Ok (c, None).
Proof.
  refine (proj1 (proj2 (total_torque_clamp_contract _ fzero fzero (f64_of_Z 5) (lit64 1 100))) _).
  vm_compute. reflexivity.
Defined.

(** sent clamps are all counted and none of their warnings is lost: each
    record adds one to the joint's count (saturating) and to no other, and the
    clamps a warning reports are those counted since the previous warning. *)
Theorem clamp_log_counts (l : TotalTorqueClampLog) (j : string) (now : Z) :
  clamp_count (clamp_record l j now).1 j = sat_add_u64 (clamp_count l j) 1 /\
  (forall k, k <> j -> clamp_count (clamp_record l j now).1 k = clamp_count l k) /\
  match (clamp_record l j now).2 with
  | Some n => n = sat_add_u64 (unlogged l) 1 /\ unlogged (clamp_record l j now).1 = 0
              /\ last_warn (clamp_record l j now).1 = Some now
  | None => unlogged (clamp_record l j now).1 = sat_add_u64 (unlogged l) 1
            /\ last_warn (clamp_record l j now).1 = last_warn l
  end.
Proof.
  unfold clamp_record, clamp_count. destruct (match last_warn l with Some _ => _ | None => _ end); simpl.
  all: split; [now rewrite lookup_insert_eq|]; split; [|auto].
  all: intros k Hk; rewrite lookup_insert_ne by auto; reflexivity.
Qed.

End TotalTorque.
