(* ===== verification/Params.v ===== *)
(** * Robstride command validation and firmware parameter frames

    Models [crates/robstride/src/command.rs] (typed refusals and the numeric
    checks every encoder shares) and [params.rs] (register table, type-17 read
    and type-18 write frames, type-17 replies). *)

From Stdlib Require Import ZArith Lia Bool SpecFloat.
From stdpp Require Import base strings list.
From S2P Require Import Prelude Float Comm.

Module Params.
Import Comm.

(** ** Register table *)

Inductive RunMode : Type := Mit | Position | Speed | Current.

Definition run_mode_as_u8 (m : RunMode) : Z :=
  match m with Mit => 0 | Position => 1 | Speed => 2 | Current => 3 end.

Inductive ParameterId : Type :=
| PRunMode
| CurrentTarget
| SpeedTarget
| PositionTarget
| LimitSpeed
| LimitTorque
| PositionKp
| SpeedKp
| SpeedKi
| EPScanTime
| CanTimeout
| MechPos
| MechVel
| ZeroSta
| AddOffset.

#[global] Instance ParameterId_eq_dec : EqDecision ParameterId.
Proof. solve_decision. Defined.

Definition param_as_u16 (p : ParameterId) : Z :=
  match p with
  | PRunMode => 28677 (* 0x7005 *)
  | CurrentTarget => 28678 (* 0x7006 *)
  | SpeedTarget => 28682 (* 0x700A *)
  | PositionTarget => 28694 (* 0x7016 *)
  | LimitSpeed => 28695 (* 0x7017 *)
  | LimitTorque => 28683 (* 0x700B *)
  | PositionKp => 28702 (* 0x701E *)
  | SpeedKp => 28703 (* 0x701F *)
  | SpeedKi => 28704 (* 0x7020 *)
  | EPScanTime => 28710 (* 0x7026 *)
  | CanTimeout => 28712 (* 0x7028 *)
  | MechPos => 28697 (* 0x7019 *)
  | MechVel => 28699 (* 0x701B *)
  | ZeroSta => 28713 (* 0x7029 *)
  | AddOffset => 28715 (* 0x702B *)
  end.

Definition known_parameters : list ParameterId :=
  [PRunMode; CurrentTarget; SpeedTarget; PositionTarget; LimitSpeed; LimitTorque;
   PositionKp; SpeedKp; SpeedKi; EPScanTime; CanTimeout; MechPos; MechVel; ZeroSta; AddOffset].

Definition from_u16 (index : Z) : option ParameterId :=
  find_first (fun p => param_as_u16 p =? index) known_parameters.

Inductive ParameterKind : Type := KU8 | KU16 | KU32 | KF32.

#[global] Instance ParameterKind_eq_dec : EqDecision ParameterKind.
Proof. solve_decision. Defined.

Definition value_kind (p : ParameterId) : ParameterKind :=
  match p with
  | PRunMode | ZeroSta => KU8
  | EPScanTime => KU16
  | CanTimeout => KU32
  | _ => KF32
  end.

Definition is_read_only (p : ParameterId) : bool :=
  match p with MechPos | MechVel => true | _ => false end.

Inductive ParameterValue : Type :=
| VU8 (v : Z)
| VU16 (v : Z)
| VU32 (v : Z)
| VF32 (v : f32).

Definition kind (v : ParameterValue) : ParameterKind :=
  match v with VU8 _ => KU8 | VU16 _ => KU16 | VU32 _ => KU32 | VF32 _ => KF32 end.

(** ** Typed refusals ([command.rs]) *)

Inductive CommandField : Type :=
| FPosition
| FVelocity
| FProportionalGain
| FDampingGain
| FTorqueFeedforward
| FirmwareParameter (p : ParameterId).

Inductive CommandError : Type :=
| NonFinite (device_id : Z) (field : CommandField)
| NegativeGain (device_id : Z) (field : CommandField)
| NegativeValue (device_id : Z) (field : CommandField)
| ParameterType (device_id : Z) (parameter : ParameterId) (expected actual : ParameterKind)
| UnsupportedRunMode (device_id value : Z)
| ReadOnlyParameter (device_id : Z) (parameter : ParameterId)
| OutOfRange (device_id : Z) (field : CommandField)
| ForbiddenParameterWrite (device_id : Z) (parameter : ParameterId)
| ForbiddenCommunicationType (comm_type : Z).

Definition finite (device_id : Z) (field : CommandField) (value : f32) : result CommandError unit :=
  refuse_if (negb (is_finite value)) (NonFinite device_id field).

Definition bounded (device_id : Z) (field : CommandField) (value minimum maximum : f32)
  : result CommandError unit :=
  finite device_id field value ;!
  refuse_if (negb (in_range minimum maximum value)) (OutOfRange device_id field).

Definition nonnegative_gain (device_id : Z) (field : CommandField) (value : f32)
  : result CommandError unit :=
  finite device_id field value ;!
  refuse_if (flt value fzero) (NegativeGain device_id field).

Definition nonnegative (device_id : Z) (field : CommandField) (value : f32)
  : result CommandError unit :=
  finite device_id field value ;!
  refuse_if (flt value fzero) (NegativeValue device_id field).

(** ** Parameter frames *)

Definition encode_read_parameter (host_id device_id : Z) (p : ParameterId) : frame :=
  (pack_typed_ext_id ReadParameter host_id device_id,
   u16_to_le (param_as_u16 p) ++ [0; 0; 0; 0; 0; 0]).

(** The four value bytes of a type-18 frame. *)
Definition value_bytes (v : ParameterValue) : list Z :=
  match v with
  | VU8 v => [v; 0; 0; 0]
  | VU16 v => u16_to_le v ++ [0; 0]
  | VU32 v => u32_to_le v
  | VF32 v => u32_to_le (f32_to_bits v)
  end.

Definition encode_parameter_bytes (host_id device_id : Z) (p : ParameterId) (v : ParameterValue)
  : frame :=
  (pack_typed_ext_id WriteParameter host_id device_id,
   u16_to_le (param_as_u16 p) ++ [0; 0] ++ value_bytes v).

Definition run_mode_check (device_id : Z) (p : ParameterId) (v : ParameterValue)
  : result CommandError unit :=
  match p, v with
  | PRunMode, VU8 value =>
      refuse_if
        (negb (existsb (fun m => run_mode_as_u8 m =? value) [Mit; Position; Speed; Current]))
        (UnsupportedRunMode device_id value)
  | _, _ => Ok tt
  end.

Definition float_check (device_id : Z) (p : ParameterId) (v : ParameterValue)
  : result CommandError unit :=
  match v with
  | VF32 value =>
      let field := FirmwareParameter p in
      match p with
      | PositionKp | SpeedKp | SpeedKi => nonnegative_gain device_id field value
      | LimitSpeed | LimitTorque => nonnegative device_id field value
      | _ => finite device_id field value
      end
  | _ => Ok tt
  end.

Definition encode_write_parameter (host_id device_id : Z) (p : ParameterId) (v : ParameterValue)
  : result CommandError frame :=
  refuse_if (match p with ZeroSta | AddOffset => true | _ => false end)
    (ForbiddenParameterWrite device_id p) ;!
  refuse_if (is_read_only p) (ReadOnlyParameter device_id p) ;!
  refuse_if (negb (bool_decide (kind v = value_kind p)))
    (ParameterType device_id p (value_kind p) (kind v)) ;!
  run_mode_check device_id p v ;!
  float_check device_id p v ;!
  Ok (encode_parameter_bytes host_id device_id p v).

Definition encode_set_run_mode (device_id : Z) (m : RunMode) : frame :=
  encode_parameter_bytes DEFAULT_HOST_ID device_id PRunMode (VU8 (run_mode_as_u8 m)).

Definition encode_speed_ref (device_id : Z) (velocity_rad_s : f32) : result CommandError frame :=
  encode_write_parameter DEFAULT_HOST_ID device_id SpeedTarget (VF32 velocity_rad_s).

Definition encode_position_ref (device_id : Z) (position_rad : f32) : result CommandError frame :=
  encode_write_parameter DEFAULT_HOST_ID device_id PositionTarget (VF32 position_rad).

Definition encode_current_ref (device_id : Z) (current_a : f32) : result CommandError frame :=
  encode_write_parameter DEFAULT_HOST_ID device_id CurrentTarget (VF32 current_a).

(** ** Type-17 replies *)

Record ParameterReadReply : Type := mkParameterReadReply {
  pr_device_id : Z;
  pr_host_id : Z;
  pr_status : Z;
  pr_index : Z;
  pr_value : list Z;
}.

Definition succeeded (r : ParameterReadReply) : bool := pr_status r =? 0.
Definition parameter (r : ParameterReadReply) : option ParameterId := from_u16 (pr_index r).

Definition value_u32 (value : list Z) : Z :=
  u32_from_le (byte_at value 0) (byte_at value 1) (byte_at value 2) (byte_at value 3).

Definition reply_as_f32 (r : ParameterReadReply) : f32 := f32_of_bits (value_u32 (pr_value r)).
Definition reply_as_u8 (r : ParameterReadReply) : Z := byte_at (pr_value r) 0.

Definition typed_value (r : ParameterReadReply) : option ParameterValue :=
  let value := pr_value r in
  p ← parameter r;
  Some (match value_kind p with
        | KU8 => VU8 (byte_at value 0)
        | KU16 => VU16 (u16_from_le (byte_at value 0) (byte_at value 1))
        | KU32 => VU32 (value_u32 value)
        | KF32 => VF32 (f32_of_bits (value_u32 value))
        end).

Definition decode_read_parameter_reply (host_id can_id : Z) (payload : list Z)
  : option ParameterReadReply :=
  unpacked ← unpack_ext_id can_id;
  c ← from_u8 (comm_type unpacked);
  if negb (bool_decide (c = ReadParameter)) || negb (device_id unpacked =? host_id) then None
  else
    data ← try_into_8 payload;
    Some (mkParameterReadReply
      (as_u8 (Z.land (extra_data unpacked) 255))
      (device_id unpacked)
      (as_u8 (Z.shiftr (extra_data unpacked) 8))
      (u16_from_le (byte_at data 0) (byte_at data 1))
      [byte_at data 4; byte_at data 5; byte_at data 6; byte_at data 7]).

(** ** Lemmas *)

(** A value of the width its constructor declares. *)
Definition value_ok (v : ParameterValue) : Prop :=
  match v with
  | VU8 v => is_u8 v
  | VU16 v => is_u16 v
  | VU32 v => is_u32 v
  | VF32 v => valid_binary prec32 emax32 v = true
  end.

Lemma from_u16_as_u16 (p : ParameterId) : from_u16 (param_as_u16 p) = Some p.
Proof. destruct p; reflexivity. Qed.

Lemma from_u16_some (i : Z) (p : ParameterId) : from_u16 i = Some p -> param_as_u16 p = i.
Proof. intros H. apply find_first_some in H as [_ H]. now apply Z.eqb_eq in H. Qed.

(** The reply a drive that stored exactly the bytes a type-18 frame carried
    sends when the same register is read back. *)
Definition reply_to_write (host_id device_id : Z) (p : ParameterId) (v : ParameterValue) : frame :=
  (pack_typed_ext_id ReadParameter device_id host_id, (encode_parameter_bytes host_id device_id p v).2).

Lemma value_bytes_typed (dev host st : Z) (p : ParameterId) (v : ParameterValue) :
  value_ok v -> kind v = value_kind p ->
  typed_value (mkParameterReadReply dev host st (param_as_u16 p) (value_bytes v)) = Some v.
Proof.
  intros Hv Hk. unfold typed_value, parameter. simpl pr_index. rewrite from_u16_as_u16.
  simpl. rewrite <- Hk. destruct v; simpl in *; f_equal; f_equal.
  - apply u16_le_roundtrip.
  - apply u32_le_roundtrip.
  - etransitivity; [|apply (f32_bits_roundtrip _ Hv)]. f_equal. apply u32_le_roundtrip.
Qed.

(** What a type-18 encoder accepts, on every branch. *)
Lemma encode_write_ok_iff (host dev : Z) (p : ParameterId) (v : ParameterValue) (f : frame) :
  encode_write_parameter host dev p v = Ok f <->
  p <> ZeroSta /\ p <> AddOffset /\ p <> MechPos /\ p <> MechVel /\ kind v = value_kind p /\
  run_mode_check dev p v = Ok tt /\ float_check dev p v = Ok tt /\
  f = encode_parameter_bytes host dev p v.
Proof.
  unfold encode_write_parameter. split.
  - intros H. do 5 bind_inv H. inv H. bsimp.
    match goal with H : bool_decide _ = true |- _ => apply bool_decide_eq_true in H end.
    repeat match goal with x : unit |- _ => destruct x end.
    repeat split; auto; intros ->; discriminate.
  - intros (H1 & H2 & H3 & H4 & Hk & Hr & Hf & ->).
    rewrite (bool_decide_eq_true_2 _ Hk), Hr, Hf. simpl.
    destruct p; simpl; congruence.
Qed.

(** A type-17 reply from [dev] to [host] with read status 0. *)
Lemma decode_reply_to_write (host dev : Z) (p : ParameterId) (v : ParameterValue) :
  is_u8 host -> is_u8 dev -> length (value_bytes v) = 4%nat ->
  decode_read_parameter_reply host (reply_to_write host dev p v).1 (reply_to_write host dev p v).2
  = Some (mkParameterReadReply dev host 0 (param_as_u16 p) (value_bytes v)).
Proof.
  intros Hh Hd Hl. unfold decode_read_parameter_reply, reply_to_write. simpl fst.
  rewrite unpack_pack_typed by (unfold is_u8, is_u16, U8_MAX, U16_MAX in *; lia).
  cbn [mbind option_bind comm_type device_id extra_data].
  rewrite from_u8_as_u8. cbn [mbind option_bind]. rewrite Z.eqb_refl.
  destruct (value_bytes v) as [|b0 [|b1 [|b2 [|b3 [|]]]]] eqn:Eb; try discriminate Hl.
  simpl snd. rewrite Eb. cbn. unfold is_u8, U8_MAX in *.
  do 2 f_equal.
  - unfold as_u8. rewrite !land_255. dlia.
  - unfold as_u8. rewrite land_255, shiftr_div by lia. change (2 ^ 8) with 256. dlia.
  - apply u16_le_roundtrip.
Qed.

Lemma value_bytes_length (v : ParameterValue) : length (value_bytes v) = 4%nat.
Proof. destruct v; reflexivity. Qed.

(** a register written with an accepted type-18 frame reads back as the very
    value written: the reply that echoes the frame's bytes decodes, for this
    host, to a successful read of that register, on that device, whose typed
    value is the one given to the encoder (floats bit for bit). *)
Theorem param_write_read_roundtrip (host dev : Z) (p : ParameterId) (v : ParameterValue) (f : frame)
  (Hh : is_u8 host) (Hd : is_u8 dev) (Hv : value_ok v)
  (He : encode_write_parameter host dev p v = Ok f) :
  exists r, decode_read_parameter_reply host (pack_typed_ext_id ReadParameter dev host) f.2 = Some r /\
    pr_device_id r = dev /\ succeeded r = true /\ parameter r = Some p /\ typed_value r = Some v.
Proof.
  apply encode_write_ok_iff in He as (_ & _ & _ & _ & Hk & _ & _ & ->).
  eexists. split; [exact (decode_reply_to_write host dev p v Hh Hd (value_bytes_length v))|].
  repeat split; [apply from_u16_as_u16|now apply value_bytes_typed].
Qed.

Lemma param_write_read_roundtrip_witness :
  exists r, decode_read_parameter_reply 253 (pack_typed_ext_id ReadParameter 7 253)
    (encode_parameter_bytes 253 7 LimitTorque (VF32 (lit32 12 1))).2 = Some r /\
    pr_device_id r = 7 /\ succeeded r = true /\ parameter r = Some LimitTorque /\
    typed_value r = Some (VF32 (lit32 12 1)).
Proof.
  apply (param_write_read_roundtrip 253 7 LimitTorque (VF32 (lit32 12 1))).
  - unfold is_u8, U8_MAX. lia.
  - unfold is_u8, U8_MAX. lia.
  - reflexivity.
  - reflexivity.
Defined.

(** What the drive may be told to store: no calibration or read-only register,
    a known run mode, a finite float, no negative gain or limit. *)
Definition write_admissible (p : ParameterId) (v : ParameterValue) : Prop :=
  ~ In p [ZeroSta; AddOffset; MechPos; MechVel] /\
  (p = PRunMode -> exists m, v = VU8 (run_mode_as_u8 m)) /\
  (forall x, v = VF32 x -> is_finite x = true) /\
  (forall x, v = VF32 x -> In p [PositionKp; SpeedKp; SpeedKi; LimitSpeed; LimitTorque] ->
     fle fzero x = true).

Lemma nonneg_of_not_lt (x : f32) : is_finite x = true -> flt x fzero = false -> fle fzero x = true.
Proof. intros. destruct fzero_key as (? & ? & ? & ?). float_solve. Qed.

Lemma float_check_ok (dev : Z) (p : ParameterId) (x : f32) :
  float_check dev p (VF32 x) = Ok tt ->
  is_finite x = true /\
  (In p [PositionKp; SpeedKp; SpeedKi; LimitSpeed; LimitTorque] -> fle fzero x = true).
Proof.
  unfold float_check, nonnegative_gain, nonnegative, finite, refuse_if.
  destruct (is_finite x) eqn:Ef; [|destruct p; discriminate].
  intros H. split; [reflexivity|]. intros Hin.
  apply nonneg_of_not_lt; [exact Ef|].
  destruct p; simpl in *; try (destruct (flt x fzero); congruence);
    intuition discriminate.
Qed.

Lemma run_mode_check_ok (dev : Z) (v : ParameterValue) :
  kind v = KU8 -> run_mode_check dev PRunMode v = Ok tt -> exists m, v = VU8 (run_mode_as_u8 m).
Proof.
  destruct v as [x| | |]; try discriminate. intros _. unfold run_mode_check, refuse_if.
  destruct (negb _) eqn:E; [discriminate|]. intros _. apply negb_false_iff in E.
  apply existsb_exists in E as (m & _ & Hm). apply Z.eqb_eq in Hm. subst. eauto.
Qed.

(** whatever the caller asks, a type-18 frame that leaves the encoder names a
    known register (read off the wire bytes) that is neither a calibration
    register (zero-state flag, zero offset) nor a read-only one, carries a
    supported run mode, finite floats, and nonnegative gains and limits. *)
Theorem encoded_write_is_admissible (host dev : Z) (p : ParameterId) (v : ParameterValue) (f : frame)
  (He : encode_write_parameter host dev p v = Ok f) :
  from_u16 (u16_from_le (byte_at f.2 0) (byte_at f.2 1)) = Some p /\ write_admissible p v.
Proof.
  apply encode_write_ok_iff in He as (H1 & H2 & H3 & H4 & Hk & Hr & Hf & ->).
  split; [etransitivity; [|apply from_u16_as_u16]; f_equal; apply u16_le_roundtrip|].
  split; [simpl; intuition congruence|].
  split; [intros ->; now apply (run_mode_check_ok dev)|].
  split; intros x ->; now apply (float_check_ok dev p).
Qed.

Lemma encoded_write_is_admissible_witness :
  from_u16 (u16_from_le
    (byte_at (encode_parameter_bytes 253 7 PRunMode (VU8 0)).2 0)
    (byte_at (encode_parameter_bytes 253 7 PRunMode (VU8 0)).2 1)) = Some PRunMode
  /\ write_admissible PRunMode (VU8 0).
Proof. apply (encoded_write_is_admissible 253 7 PRunMode (VU8 0)). reflexivity. Defined.

End Params.
