(* ===== verification/Mit.v ===== *)
(** * MIT Mode 0 frames

    Models [crates/robstride/src/motor_type.rs] (vendor scales per actuator
    model) and [mit.rs] (validation, quantization, packing and decoding of
    operation-control and status frames). *)

From Stdlib Require Import ZArith Lia Bool SpecFloat.
From stdpp Require Import base strings list.
From S2P Require Import Prelude Float Comm Config Params.

Module Mit.
Import Comm Params.

(** ** Vendor scales *)

Record MitRanges : Type := mkRanges {
  position_scale : f32;
  velocity_scale : f32;
  kp_scale : f32;
  kd_scale : f32;
  torque_scale : f32;
}.

(** [std::f32::consts::PI]: the [f32] nearest to pi. *)
Definition f32_PI : f32 := S754_finite false 13176795 (-22).
Definition four_pi : f32 := mul32 (f32_of_Z 4) f32_PI.

Definition for_motor_type (t : Config.MotorType) : MitRanges :=
  match t with
  | Config.Rs00 => mkRanges four_pi (f32_of_Z 50) (f32_of_Z 500) (f32_of_Z 5) (f32_of_Z 17)
  | Config.Rs02 => mkRanges four_pi (f32_of_Z 44) (f32_of_Z 500) (f32_of_Z 5) (f32_of_Z 17)
  | Config.Rs03 => mkRanges four_pi (f32_of_Z 20) (f32_of_Z 5000) (f32_of_Z 100) (f32_of_Z 60)
  | Config.Rs04 => mkRanges four_pi (f32_of_Z 15) (f32_of_Z 5000) (f32_of_Z 100) (f32_of_Z 120)
  end.

Definition SIGNED_FIELD_CENTER : f32 := f32_of_Z 32767. (* 0x7FFF *)

Definition feedback_position_step (r : MitRanges) : f64 :=
  div64 (f64_of_f32 (position_scale r)) (f64_of_f32 SIGNED_FIELD_CENTER).
Definition feedback_torque_step (r : MitRanges) : f64 :=
  div64 (f64_of_f32 (torque_scale r)) (f64_of_f32 SIGNED_FIELD_CENTER).

(** ** Commands *)

Record MitCommand : Type := mkMitCommand {
  mc_device_id : Z;
  mc_motor_type : Config.MotorType;
  mc_position_rad : f32;
  mc_velocity_rad_s : f32;
  mc_kp : f32;
  mc_kd : f32;
  mc_torque_ff_nm : f32;
}.

Definition mit_validate (c : MitCommand) : result CommandError unit :=
  let id := mc_device_id c in
  finite id FPosition (mc_position_rad c) ;!
  finite id FVelocity (mc_velocity_rad_s c) ;!
  nonnegative_gain id FProportionalGain (mc_kp c) ;!
  nonnegative_gain id FDampingGain (mc_kd c) ;!
  finite id FTorqueFeedforward (mc_torque_ff_nm c) ;!
  let ranges := for_motor_type (mc_motor_type c) in
  let signed := fun field value scale => bounded id field value (fneg scale) scale in
  signed FPosition (mc_position_rad c) (position_scale ranges) ;!
  signed FVelocity (mc_velocity_rad_s c) (velocity_scale ranges) ;!
  bounded id FProportionalGain (mc_kp c) fzero (kp_scale ranges) ;!
  bounded id FDampingGain (mc_kd c) fzero (kd_scale ranges) ;!
  signed FTorqueFeedforward (mc_torque_ff_nm c) (torque_scale ranges).

Record MitFeedback : Type := mkMitFeedback {
  fb_device_id : Z;
  fb_position_rad : f32;
  fb_velocity_rad_s : f32;
  fb_torque_nm : f32;
  fb_temperature_c : f32;
  fb_status_flags : Z;
  fb_drive_mode : DriveMode;
}.

(** ** Quantization *)

Definition f32_U16_MAX : f32 := f32_of_Z 65535.

Definition signed_to_vendor_u16 {E : Type} (value scale : f32) : result E Z :=
  if fle scale fzero then Ok 0
  else
    let! clamped := fclamp value (fneg scale) scale in
    let! code := fclamp
      (fround32 (mul32 (add32 (div32 clamped scale) (f32_of_Z 1)) SIGNED_FIELD_CENTER))
      fzero f32_U16_MAX in
    Ok (u16_of_float code).

Definition vendor_u16_to_signed (raw : Z) (scale : f32) : f32 :=
  mul32 (sub32 (div32 (f32_of_Z raw) SIGNED_FIELD_CENTER) (f32_of_Z 1)) scale.

Definition unsigned_to_vendor_u16 {E : Type} (value scale : f32) : result E Z :=
  if fle scale fzero then Ok 0
  else
    let! clamped := fclamp value fzero scale in
    let! code := fclamp (fround32 (mul32 (div32 clamped scale) f32_U16_MAX)) fzero f32_U16_MAX in
    Ok (u16_of_float code).

Definition read_be_u16 (data : list Z) (offset : nat) : Z :=
  u16_from_be (byte_at data offset) (byte_at data (S offset)).

(** [data[offset..offset + 2].copy_from_slice(&value.to_be_bytes())]. *)
Definition write_be_u16 (data : list Z) (offset : nat) (value : Z) : list Z :=
  <[S offset := value mod 256]> (<[offset := value / 256]> data).

Definition encode_mit (c : MitCommand) : result CommandError frame :=
  mit_validate c ;!
  let ranges := for_motor_type (mc_motor_type c) in
  let! p_int := signed_to_vendor_u16 (mc_position_rad c) (position_scale ranges) in
  let! v_int := signed_to_vendor_u16 (mc_velocity_rad_s c) (velocity_scale ranges) in
  let! kp_int := unsigned_to_vendor_u16 (mc_kp c) (kp_scale ranges) in
  let! kd_int := unsigned_to_vendor_u16 (mc_kd c) (kd_scale ranges) in
  let! t_int := signed_to_vendor_u16 (mc_torque_ff_nm c) (torque_scale ranges) in
  let data := zeros8 in
  let data := write_be_u16 data 0 p_int in
  let data := write_be_u16 data 2 v_int in
  let data := write_be_u16 data 4 kp_int in
  let data := write_be_u16 data 6 kd_int in
  Ok (pack_typed_ext_id OperationControl t_int (mc_device_id c), data).

(** Raw codes of a command frame ([wire.rs]). *)
Record MitCommandFields : Type := mkFields {
  cf_position : Z;
  cf_velocity : Z;
  cf_kp : Z;
  cf_kd : Z;
  cf_torque_ff : Z;
}.

Definition decode_mit_command_fields (can_id : Z) (data : list Z) : option MitCommandFields :=
  unpacked ← unpack_ext_id can_id;
  c ← from_u8 (comm_type unpacked);
  if negb (bool_decide (c = OperationControl)) || negb (length data =? 8)%nat then None
  else Some (mkFields (read_be_u16 data 0) (read_be_u16 data 2) (read_be_u16 data 4)
               (read_be_u16 data 6) (extra_data unpacked)).

Definition decode_status_payload (t : Config.MotorType) (comm : CommunicationType) (can_id : Z)
  (data : list Z) : MitFeedback :=
  let ranges := for_motor_type t in
  let p := vendor_u16_to_signed (read_be_u16 data 0) (position_scale ranges) in
  let v := vendor_u16_to_signed (read_be_u16 data 2) (velocity_scale ranges) in
  let tq := vendor_u16_to_signed (read_be_u16 data 4) (torque_scale ranges) in
  let temp := mul32 (f32_of_Z (read_be_u16 data 6)) (lit32 1 10) in
  let '(drive_mode, status_flags) := decode_status_header can_id in
  mkMitFeedback (inbound_motor_device_id can_id comm) p v tq temp status_flags drive_mode.

Definition NEUTRAL_TORQUE : Z := 32767. (* 0x7FFF *)

(** [u16::abs_diff]. *)
Definition abs_diff (a b : Z) : Z := Z.abs (a - b).

Definition is_neutral (f : MitCommandFields) : bool :=
  (cf_kp f =? 0) && (cf_kd f =? 0) && (abs_diff (cf_torque_ff f) NEUTRAL_TORQUE <=? 1).

(** ** Lemmas *)

Lemma u16_of_float_range (x : spec_float) : is_u16 (u16_of_float x).
Proof.
  unfold is_u16, U16_MAX. destruct x as [s|s| |s m e]; simpl; try lia.
  - destruct s; unfold U16_MAX; lia.
  - destruct s; [lia|]. unfold U16_MAX.
    enough (0 <= if 0 <=? e then Z.shiftl (Zpos m) e else Zpos m / 2 ^ (- e)) by lia.
    destruct (Z.leb_spec 0 e); [apply Z.shiftl_nonneg; lia|].
    apply Z.div_pos; [lia|]. apply Z.pow_pos_nonneg; lia.
Qed.

Lemma scales_symmetric (t : Config.MotorType) :
  let r := for_motor_type t in
  fle (fneg (position_scale r)) (position_scale r) = true /\
  fle (fneg (velocity_scale r)) (velocity_scale r) = true /\
  fle fzero (kp_scale r) = true /\ fle fzero (kd_scale r) = true /\
  fle (fneg (torque_scale r)) (torque_scale r) = true.
Proof. destruct t; vm_compute; auto. Qed.

(** Quantizing never panics on a symmetric scale and gives a [u16]. *)
Lemma signed_code {E : Type} (x s : f32) :
  fle (fneg s) s = true -> exists n, @signed_to_vendor_u16 E x s = Ok n /\ is_u16 n.
Proof.
  intros H. unfold signed_to_vendor_u16.
  destruct (fle s fzero); [exists 0; split; [reflexivity|unfold is_u16, U16_MAX; lia]|].
  destruct (@fclamp_ok E x _ _ H) as [y ->]. cbn [rbind].
  set (z := fround32 _).
  destruct (@fclamp_ok E z fzero f32_U16_MAX eq_refl) as [w ->]. cbn [rbind].
  eexists. split; [reflexivity|apply u16_of_float_range].
Qed.

Lemma unsigned_code {E : Type} (x s : f32) :
  fle fzero s = true -> exists n, @unsigned_to_vendor_u16 E x s = Ok n /\ is_u16 n.
Proof.
  intros H. unfold unsigned_to_vendor_u16.
  destruct (fle s fzero); [exists 0; split; [reflexivity|unfold is_u16, U16_MAX; lia]|].
  destruct (@fclamp_ok E x _ _ H) as [y ->]. cbn [rbind].
  set (z := fround32 _).
  destruct (@fclamp_ok E z fzero f32_U16_MAX eq_refl) as [w ->]. cbn [rbind].
  eexists. split; [reflexivity|apply u16_of_float_range].
Qed.

(** The codes the encoder computes, field by field. *)
Definition command_codes (c : MitCommand) : result CommandError MitCommandFields :=
  let ranges := for_motor_type (mc_motor_type c) in
  let! p := signed_to_vendor_u16 (mc_position_rad c) (position_scale ranges) in
  let! v := signed_to_vendor_u16 (mc_velocity_rad_s c) (velocity_scale ranges) in
  let! kp := unsigned_to_vendor_u16 (mc_kp c) (kp_scale ranges) in
  let! kd := unsigned_to_vendor_u16 (mc_kd c) (kd_scale ranges) in
  let! t := signed_to_vendor_u16 (mc_torque_ff_nm c) (torque_scale ranges) in
  Ok (mkFields p v kp kd t).

Definition fields_ok (f : MitCommandFields) : Prop :=
  is_u16 (cf_position f) /\ is_u16 (cf_velocity f) /\ is_u16 (cf_kp f) /\ is_u16 (cf_kd f)
  /\ is_u16 (cf_torque_ff f).

(** The frame that carries given codes. *)
Definition fields_frame (dev : Z) (f : MitCommandFields) : frame :=
  (pack_typed_ext_id OperationControl (cf_torque_ff f) dev,
   u16_to_be (cf_position f) ++ u16_to_be (cf_velocity f) ++ u16_to_be (cf_kp f) ++ u16_to_be (cf_kd f)).

Lemma command_codes_ok (c : MitCommand) : exists f, command_codes c = Ok f /\ fields_ok f.
Proof.
  destruct (scales_symmetric (mc_motor_type c)) as (Hp & Hv & Hkp & Hkd & Ht).
  unfold command_codes.
  destruct (@signed_code CommandError (mc_position_rad c) _ Hp) as (p & -> & ?).
  destruct (@signed_code CommandError (mc_velocity_rad_s c) _ Hv) as (v & -> & ?).
  destruct (@unsigned_code CommandError (mc_kp c) _ Hkp) as (kp & -> & ?).
  destruct (@unsigned_code CommandError (mc_kd c) _ Hkd) as (kd & -> & ?).
  destruct (@signed_code CommandError (mc_torque_ff_nm c) _ Ht) as (t & -> & ?).
  simpl. eexists. split; [reflexivity|]. repeat split; unfold is_u16 in *; simpl; lia.
Qed.

Lemma encode_mit_codes (c : MitCommand) :
  encode_mit c = (mit_validate c ;! let! f := command_codes c in Ok (fields_frame (mc_device_id c) f)).
Proof.
  unfold encode_mit, command_codes. destruct (mit_validate c) as [[]| |]; simpl; [|auto..].
  repeat (match goal with |- context [rbind ?r _] => destruct r end; simpl; [|auto..]).
  reflexivity.
Qed.

Lemma decode_fields_frame (dev : Z) (f : MitCommandFields) :
  is_u8 dev -> fields_ok f ->
  decode_mit_command_fields (fields_frame dev f).1 (fields_frame dev f).2 = Some f.
Proof.
  intros Hd (Hp & Hv & Hkp & Hkd & Ht). unfold decode_mit_command_fields. simpl fst.
  rewrite unpack_pack_typed by assumption. cbn [mbind option_bind comm_type extra_data].
  rewrite from_u8_as_u8. cbn.
  unfold read_be_u16. cbn [byte_at nth]. unfold byte_at; simpl nth. rewrite !u16_be_roundtrip.
  now destruct f.
Qed.

(** The vendor envelope of a command: finite, in range, gains nonnegative. *)
Definition in_vendor_range (c : MitCommand) : bool :=
  let r := for_motor_type (mc_motor_type c) in
  is_finite (mc_position_rad c) && is_finite (mc_velocity_rad_s c) &&
  is_finite (mc_kp c) && is_finite (mc_kd c) && is_finite (mc_torque_ff_nm c) &&
  fle (fabs (mc_position_rad c)) (position_scale r) &&
  fle (fabs (mc_velocity_rad_s c)) (velocity_scale r) &&
  (fle fzero (mc_kp c) && fle (mc_kp c) (kp_scale r)) &&
  (fle fzero (mc_kd c) && fle (mc_kd c) (kd_scale r)) &&
  fle (fabs (mc_torque_ff_nm c)) (torque_scale r).

Lemma in_range_abs (x s : f32) : in_range (fneg s) s x = fle (fabs x) s.
Proof.
  unfold in_range. apply eq_true_iff_eq. rewrite andb_true_iff. symmetry. apply fabs_le_iff.
Qed.

Lemma gain_check (x s : f32) :
  is_finite x = true -> in_range fzero s x = true -> flt x fzero = false.
Proof.
  intros Hf H. destruct (flt x fzero) eqn:E; [|reflexivity].
  unfold in_range in H. bsimp. float_solve.
Qed.

Lemma finite_ok (dev : Z) (fl : CommandField) (x : f32) :
  finite dev fl x = Ok tt <-> is_finite x = true.
Proof. unfold finite, refuse_if. destruct (is_finite x); simpl; split; congruence. Qed.

Lemma bounded_ok (dev : Z) (fl : CommandField) (x lo hi : f32) :
  bounded dev fl x lo hi = Ok tt <-> is_finite x = true /\ in_range lo hi x = true.
Proof.
  unfold bounded, finite, refuse_if. destruct (is_finite x), (in_range lo hi x);
    simpl; intuition congruence.
Qed.

Lemma nonnegative_gain_ok (dev : Z) (fl : CommandField) (x : f32) :
  nonnegative_gain dev fl x = Ok tt <-> is_finite x = true /\ flt x fzero = false.
Proof.
  unfold nonnegative_gain, finite, refuse_if. destruct (is_finite x), (flt x fzero);
    simpl; intuition congruence.
Qed.

Lemma then_ok {E : Type} (r k : result E unit) :
  (r ;! k) = Ok tt <-> r = Ok tt /\ k = Ok tt.
Proof. destruct r as [[]| |]; simpl; intuition congruence. Qed.

Lemma mit_validate_ok_iff (c : MitCommand) :
  mit_validate c = Ok tt <-> in_vendor_range c = true.
Proof.
  unfold mit_validate, in_vendor_range. cbv zeta.
  rewrite !then_ok, !finite_ok, !bounded_ok, !nonnegative_gain_ok, !in_range_abs, !andb_true_iff.
  split; [unfold in_range; rewrite !andb_true_iff; tauto|].
  intros H. assert (flt (mc_kp c) fzero = false /\ flt (mc_kd c) fzero = false) as [-> ->];
    [|unfold in_range; rewrite !andb_true_iff; tauto].
  repeat match goal with H : _ /\ _ |- _ => destruct H end.
  split; (eapply gain_check; [assumption|unfold in_range; apply andb_true_intro; split; eassumption]).
Qed.

(** C36: the encoder accepts exactly the commands inside the vendor envelope
    (every field finite, position, velocity and torque within plus or minus the
    model's scale, gains between zero and their scale), refuses the others with a
    typed error and never panics; an accepted command becomes one frame addressed
    to its device from which the decoder reads back the five quantized codes, each
    a 16-bit value. *)
Theorem encode_mit_roundtrip (c : MitCommand) (Hd : is_u8 (mc_device_id c)) :
  if in_vendor_range c
  then exists f codes, encode_mit c = Ok f /\ command_codes c = Ok codes /\ fields_ok codes /\
         decode_mit_command_fields f.1 f.2 = Some codes /\ length f.2 = 8%nat /\
         (device_id <$> unpack_ext_id f.1) = Some (mc_device_id c)
  else exists e, encode_mit c = Err e.
Proof.
  rewrite encode_mit_codes. destruct (command_codes_ok c) as (codes & Hc & Hf).
  destruct (in_vendor_range c) eqn:Hr.
  - apply mit_validate_ok_iff in Hr. rewrite Hr, Hc. cbn [rbind].
    eexists _, codes. split; [reflexivity|]. split; [reflexivity|]. split; [exact Hf|].
    split; [now apply decode_fields_frame|]. split; [reflexivity|].
    destruct Hf as (_ & _ & _ & _ & Ht). simpl fst. now rewrite unpack_pack_typed.
  - destruct (mit_validate c) as [[]|e|] eqn:Hv; cbn [rbind].
    + apply mit_validate_ok_iff in Hv. congruence.
    + eauto.
    + exfalso. revert Hv. unfold mit_validate, bounded, nonnegative_gain, finite, refuse_if.
      repeat (match goal with |- context [if ?b then _ else _] => destruct b end; try discriminate).
Qed.

Definition hold_command : MitCommand :=
  mkMitCommand 11 Config.Rs03 (lit32 1 2) fzero (f32_of_Z 40) (f32_of_Z 2) (lit32 3 2).

Lemma encode_mit_roundtrip_witness :
  exists f codes, encode_mit hold_command = Ok f /\ command_codes hold_command = Ok codes /\
    fields_ok codes /\ decode_mit_command_fields f.1 f.2 = Some codes /\ length f.2 = 8%nat /\
    (device_id <$> unpack_ext_id f.1) = Some 11.
Proof.
  assert (Hd : is_u8 (mc_device_id hold_command)) by (simpl; unfold is_u8, U8_MAX; lia).
  exact (encode_mit_roundtrip hold_command Hd).
Defined.

(** the vendor grid is anchored exactly: on every actuator model zero, plus and
    minus full scale of a signed field quantize to 0x7FFF, 0xFFFE and 0, zero and
    full-scale gains to 0 and 0xFFFF, and the decoder returns exactly zero, plus
    and minus full scale for those codes. *)
Theorem vendor_grid_anchored (t : Config.MotorType) :
  Forall (fun s =>
      @signed_to_vendor_u16 CommandError fzero s = Ok 32767 /\
      @signed_to_vendor_u16 CommandError s s = Ok 65534 /\
      @signed_to_vendor_u16 CommandError (fneg s) s = Ok 0 /\
      feq (vendor_u16_to_signed 32767 s) fzero = true /\
      vendor_u16_to_signed 65534 s = s /\
      vendor_u16_to_signed 0 s = fneg s)
    [position_scale (for_motor_type t); velocity_scale (for_motor_type t);
     torque_scale (for_motor_type t)] /\
  Forall (fun s =>
      @unsigned_to_vendor_u16 CommandError fzero s = Ok 0 /\
      @unsigned_to_vendor_u16 CommandError s s = Ok 65535)
    [kp_scale (for_motor_type t); kd_scale (for_motor_type t)].
Proof. destruct t; split; repeat constructor. Qed.

(** Both zeros quantize to the neutral codes on every model. *)
Lemma zero_codes (t : Config.MotorType) (x : f32) :
  feq x fzero = true ->
  let r := for_motor_type t in
  @unsigned_to_vendor_u16 CommandError x (kp_scale r) = Ok 0 /\
  @unsigned_to_vendor_u16 CommandError x (kd_scale r) = Ok 0 /\
  @signed_to_vendor_u16 CommandError x (torque_scale r) = Ok NEUTRAL_TORQUE.
Proof.
  intros H. destruct x as [[]|[]| |[]]; try discriminate H; destruct t; repeat split.
Qed.

(** a zero-gain, zero-torque command is neutral on the wire: whatever its
    position and velocity targets, the frame it encodes to decodes to fields that
    cannot make the drive produce torque. *)
Theorem zero_gain_command_is_neutral (c : MitCommand) (f : frame)
  (Hd : is_u8 (mc_device_id c)) (He : encode_mit c = Ok f)
  (Hkp : feq (mc_kp c) fzero = true) (Hkd : feq (mc_kd c) fzero = true)
  (Ht : feq (mc_torque_ff_nm c) fzero = true) :
  exists codes, decode_mit_command_fields f.1 f.2 = Some codes /\ is_neutral codes = true.
Proof.
  rewrite encode_mit_codes in He. bind_inv He. bind_inv He. inv He.
  destruct (command_codes_ok c) as (codes & Hc & Hf).
  assert (x0 = codes) by congruence. subst x0. exists codes.
  split; [now apply decode_fields_frame|].
  clear - Hc Hkp Hkd Ht. unfold command_codes in Hc.
  do 5 bind_inv Hc. inv Hc. unfold is_neutral. simpl.
  apply (zero_codes (mc_motor_type c)) in Hkp as (Hkp & _).
  apply (zero_codes (mc_motor_type c)) in Hkd as (_ & Hkd & _).
  apply (zero_codes (mc_motor_type c)) in Ht as (_ & _ & Ht).
  rewrite Hkp in E1. rewrite Hkd in E2. rewrite Ht in E3. simplify_eq. reflexivity.
Qed.

Lemma zero_gain_command_is_neutral_witness :
  exists codes,
    decode_mit_command_fields (fields_frame 11 (mkFields 34071 32767 0 0 32767)).1
      (fields_frame 11 (mkFields 34071 32767 0 0 32767)).2 = Some codes /\ is_neutral codes = true.
Proof.
  apply (zero_gain_command_is_neutral
           (mkMitCommand 11 Config.Rs03 (lit32 1 2) fzero fzero fzero fzero)).
  - simpl. unfold is_u8, U8_MAX. lia.
  - vm_compute. reflexivity.
  - reflexivity.
  - reflexivity.
  - reflexivity.
Defined.

End Mit.
