(* ===== verification/Wire.v ===== *)
(** * Direction-aware classification of captured frames

    Models [crates/robstride/src/wire.rs] and the lossless evidence types of
    [feedback.rs] that carry no transport: which side sent a frame follows from
    where the host id sits in the identifier. *)

From Stdlib Require Import ZArith Lia Bool SpecFloat.
From stdpp Require Import base strings list.
From S2P Require Import Prelude Float Comm Config Params Mit.

Module Wire.
Import Comm Params Mit.

Inductive HostCommand : Type :=
| HGetDeviceId
| HMit (f : MitCommandFields)
| HEnable
| HDisable
| HSetZero
| HReadParameter (index : Z)
| HWriteParameter (index : Z)
| HActiveReporting (on : bool).

Inductive DriveFrame : Type :=
| DStatus (mode : DriveMode) (flags : Z)
| DReport (mode : DriveMode) (flags : Z)
| DFaultReport
| DIdentity
| DParameterRead (index status : Z).

Definition drive_frame_mode (f : DriveFrame) : option DriveMode :=
  match f with DStatus mode _ | DReport mode _ => Some mode | _ => None end.

Inductive WireFrame : Type :=
| Host (device_id : Z) (command : HostCommand)
| Drive (device_id : Z) (frame : DriveFrame).

Definition payload_index (payload : list Z) : Z :=
  u16_from_le (byte_at payload 0) (byte_at payload 1).

Definition classify_frame (host_id can_id : Z) (data : list Z) : option WireFrame :=
  payload ← try_into_8 data;
  ext ← unpack_ext_id can_id;
  comm ← from_u8 (comm_type ext);
  let extra_high := as_u8 (Z.shiftr (extra_data ext) 8) in
  let extra_low := as_u8 (Z.land (extra_data ext) 255) in
  let status_header := (from_can_id can_id, Z.land extra_high 63) in
  let from_host := (extra_low =? host_id) && (extra_high =? 0) in
  let to_host := device_id ext =? host_id in
  let host := fun command => Some (Host (device_id ext) command) in
  match comm with
  | GetDeviceId =>
      match decode_device_id_reply can_id payload with
      | Some reply => Some (Drive (reply_device_id reply) DIdentity)
      | None => if from_host then host HGetDeviceId else None
      end
  | OperationControl =>
      fields ← decode_mit_command_fields can_id payload;
      host (HMit fields)
  | Enable => if from_host then host HEnable else None
  | Disable => if from_host then host HDisable else None
  | SetZeroPosition => if from_host then host HSetZero else None
  | WriteParameter => if from_host then host (HWriteParameter (payload_index payload)) else None
  | ReadParameter =>
      match decode_read_parameter_reply host_id can_id payload with
      | Some reply =>
          Some (Drive (pr_device_id reply) (DParameterRead (pr_index reply) (pr_status reply)))
      | None => if from_host then host (HReadParameter (payload_index payload)) else None
      end
  | ActiveReporting =>
      if from_host then host (HActiveReporting (byte_at payload 6 =? 1))
      else if to_host then
        Some (Drive extra_low (DReport status_header.1 status_header.2))
      else None
  | OperationStatus =>
      if to_host then Some (Drive extra_low (DStatus status_header.1 status_header.2)) else None
  | FaultReport => if to_host then Some (Drive extra_low DFaultReport) else None
  end.

(** ** Detailed faults ([feedback.rs]) *)

Record DetailedFaultFeedback : Type := mkDetailedFault { df_raw : list Z }.

Definition fault_bytes (d : DetailedFaultFeedback) : list Z :=
  [byte_at (df_raw d) 0; byte_at (df_raw d) 1; byte_at (df_raw d) 2; byte_at (df_raw d) 3].
Definition warning_bytes (d : DetailedFaultFeedback) : list Z :=
  [byte_at (df_raw d) 4; byte_at (df_raw d) 5; byte_at (df_raw d) 6; byte_at (df_raw d) 7].
Definition has_fault (d : DetailedFaultFeedback) : bool :=
  existsb (fun byte => negb (byte =? 0)) (fault_bytes d).
Definition has_warning (d : DetailedFaultFeedback) : bool :=
  existsb (fun byte => negb (byte =? 0)) (warning_bytes d).

(** ** Lemmas *)

(** The frames the host's encoders build, with what each one means. *)
Inductive host_frame (host dev : Z) : frame -> HostCommand -> Prop :=
| hf_enable : host_frame host dev (encode_enable host dev) HEnable
| hf_disable : host_frame host dev (encode_disable host dev) HDisable
| hf_fault_clear : host_frame host dev (encode_fault_clear host dev) HDisable
| hf_version : host_frame host dev (encode_get_firmware_version host dev) HDisable
| hf_set_zero : host_frame host dev (encode_set_zero_position host dev) HSetZero
| hf_reporting (on : bool) :
    host_frame host dev (encode_active_reporting host dev on) (HActiveReporting on)
| hf_get_device_id : dev <> DEVICE_ID_REPLY_MARKER ->
    host_frame host dev (encode_get_device_id host dev) HGetDeviceId
| hf_read (p : ParameterId) : dev <> host ->
    host_frame host dev (encode_read_parameter host dev p) (HReadParameter (param_as_u16 p))
| hf_write (p : ParameterId) (v : ParameterValue) (f : frame) :
    encode_write_parameter host dev p v = Ok f ->
    host_frame host dev f (HWriteParameter (param_as_u16 p))
| hf_mit (c : MitCommand) (f : frame) (codes : MitCommandFields) :
    mc_device_id c = dev -> encode_mit c = Ok f -> command_codes c = Ok codes ->
    host_frame host dev f (HMit codes).

(** A frame packed with the host id in bits 8..15 is recognised as the host's. *)
Lemma from_host_bits (host : Z) :
  is_u8 host ->
  as_u8 (Z.shiftr host 8) = 0 /\ as_u8 (Z.land host 255) = host.
Proof.
  unfold is_u8, U8_MAX, as_u8. intros. rewrite shiftr_div, !land_255 by lia.
  change (2 ^ 8) with 256. split; dlia.
Qed.

Lemma unpack_host_frame (c : CommunicationType) (host dev : Z) :
  is_u8 host -> is_u8 dev ->
  unpack_ext_id (pack_typed_ext_id c host dev) = Some (mkExtendedId (ct_as_u8 c) host dev).
Proof. intros. apply unpack_pack_typed; unfold is_u8, is_u16, U8_MAX, U16_MAX in *; lia. Qed.

(** Classification of a host frame once its type is known. *)
Lemma classify_typed (host dev : Z) (c : CommunicationType) (payload : list Z) :
  is_u8 host -> is_u8 dev -> length payload = 8%nat ->
  In c [Enable; Disable; SetZeroPosition; WriteParameter; ActiveReporting] ->
  classify_frame host (pack_typed_ext_id c host dev) payload =
  Some (Host dev (match c with
    | Enable => HEnable | Disable => HDisable | SetZeroPosition => HSetZero
    | WriteParameter => HWriteParameter (payload_index payload)
    | _ => HActiveReporting (byte_at payload 6 =? 1) end)).
Proof.
  intros Hh Hd Hl Hin. unfold classify_frame, try_into_8. rewrite Hl. cbn [Nat.eqb mbind option_bind].
  rewrite unpack_host_frame by assumption. cbn [mbind option_bind comm_type extra_data device_id].
  rewrite from_u8_as_u8. cbn [mbind option_bind].
  destruct (from_host_bits host Hh) as [-> ->]. rewrite !Z.eqb_refl. cbn [andb].
  simpl in Hin. intuition (subst; reflexivity).
Qed.

Lemma identity_request_is_no_reply (host dev : Z) (payload : list Z) :
  is_u8 host -> is_u8 dev -> dev <> DEVICE_ID_REPLY_MARKER ->
  decode_device_id_reply (pack_typed_ext_id GetDeviceId host dev) payload = None.
Proof.
  intros Hh Hd Hne. unfold decode_device_id_reply.
  rewrite unpack_host_frame by assumption. cbn [mbind option_bind comm_type extra_data device_id].
  rewrite from_u8_as_u8. cbn [mbind option_bind].
  rewrite (proj2 (Z.eqb_neq _ _) Hne). reflexivity.
Qed.

Lemma read_request_is_no_reply (host dev : Z) (payload : list Z) :
  is_u8 host -> is_u8 dev -> dev <> host ->
  decode_read_parameter_reply host (pack_typed_ext_id ReadParameter host dev) payload = None.
Proof.
  intros Hh Hd Hne. unfold decode_read_parameter_reply.
  rewrite unpack_host_frame by assumption. cbn [mbind option_bind comm_type extra_data device_id].
  rewrite from_u8_as_u8. cbn [mbind option_bind].
  rewrite (proj2 (Z.eqb_neq _ _) Hne). reflexivity.
Qed.

Lemma classify_request (host dev : Z) (c : CommunicationType) (payload : list Z) :
  is_u8 host -> is_u8 dev -> length payload = 8%nat ->
  (c = GetDeviceId /\ dev <> DEVICE_ID_REPLY_MARKER) \/ (c = ReadParameter /\ dev <> host) ->
  classify_frame host (pack_typed_ext_id c host dev) payload =
  Some (Host dev (match c with GetDeviceId => HGetDeviceId
    | _ => HReadParameter (payload_index payload) end)).
Proof.
  intros Hh Hd Hl Hc. unfold classify_frame.
  assert (try_into_8 payload = Some payload) as -> by (now apply try_into_8_some).
  cbn [mbind option_bind].
  rewrite unpack_host_frame by assumption. cbn [mbind option_bind comm_type extra_data device_id].
  rewrite from_u8_as_u8. cbn [mbind option_bind].
  destruct (from_host_bits host Hh) as [-> ->]. rewrite !Z.eqb_refl. cbn [andb].
  destruct Hc as [[-> Hne]|[-> Hne]].
  - now rewrite identity_request_is_no_reply.
  - now rewrite read_request_is_no_reply.
Qed.

Lemma classify_mit (host dev : Z) (codes : MitCommandFields) :
  is_u8 dev -> fields_ok codes ->
  classify_frame host (fields_frame dev codes).1 (fields_frame dev codes).2
  = Some (Host dev (HMit codes)).
Proof.
  intros Hd Hf. unfold classify_frame.
  assert (try_into_8 (fields_frame dev codes).2 = Some (fields_frame dev codes).2) as -> by reflexivity.
  cbn [mbind option_bind].
  rewrite decode_fields_frame by assumption.
  destruct Hf as (_ & _ & _ & _ & Ht). cbn [fields_frame fst].
  rewrite unpack_pack_typed by assumption. cbn [mbind option_bind comm_type extra_data device_id].
  reflexivity.
Qed.

(** capture analysis recovers every command: each frame one of the host's
    encoders builds (enable, disable, fault clear, version query, set zero, active
    reporting on or off, identity and parameter reads, accepted parameter writes
    and MIT commands) classifies as that command, sent by this host to that
    device.  An identity request to the marker address 0xFE and a read addressed
    to the host's own id are the only requests excluded. *)
Theorem host_frames_classify (host dev : Z) (f : frame) (cmd : HostCommand)
  (Hh : is_u8 host) (Hd : is_u8 dev) (Hf : host_frame host dev f cmd) :
  classify_frame host f.1 f.2 = Some (Host dev cmd).
Proof.
  destruct Hf as [| | | | |on|Hne|p Hne|p v f He|c f codes <- He Hc].
  1-5: refine (classify_typed host dev _ _ Hh Hd _ _); simpl; tauto.
  - etransitivity; [refine (classify_typed host dev _ _ Hh Hd _ _); simpl; tauto|].
    destruct on; reflexivity.
  - apply (classify_request host dev GetDeviceId zeros8 Hh Hd eq_refl). auto.
  - etransitivity; [apply (classify_request host dev ReadParameter (encode_read_parameter host dev p).2 Hh Hd eq_refl); auto|].
    cbn. do 3 f_equal. apply u16_le_roundtrip.
  - apply encode_write_ok_iff in He as (_ & _ & _ & _ & _ & _ & _ & ->).
    etransitivity; [refine (classify_typed host dev WriteParameter _ Hh Hd _ _)|].
    + destruct v; reflexivity.
    + simpl; tauto.
    + do 3 f_equal. apply u16_le_roundtrip.
  - rewrite encode_mit_codes, Hc in He. bind_inv He. inv He.
    destruct (command_codes_ok c) as (codes' & Hc' & Hok). simplify_eq.
    apply classify_mit; [assumption|congruence].
Qed.

Lemma host_frames_classify_witness :
  classify_frame 253 (encode_set_zero_position 253 11).1 (encode_set_zero_position 253 11).2
  = Some (Host 11 HSetZero).
Proof.
  apply (host_frames_classify 253 11).
  - unfold is_u8, U8_MAX. lia.
  - unfold is_u8, U8_MAX. lia.
  - constructor.
Defined.

(** A status header as a drive packs it: mode and flags above its own address,
    the host in the low byte. *)
Definition mode_bits (m : DriveMode) : Z :=
  match m with Reset => 0 | Calibration => 1 | Run => 2 | Reserved => 3 end.

Definition status_extra (m : DriveMode) (flags dev : Z) : Z :=
  (mode_bits m * 64 + flags) * 256 + dev.

Lemma status_extra_range (m : DriveMode) (flags dev : Z) :
  0 <= flags < 64 -> is_u8 dev -> is_u16 (status_extra m flags dev).
Proof. unfold is_u8, is_u16, U8_MAX, U16_MAX, status_extra. destruct m; simpl; lia. Qed.

Lemma status_header_decode (c : CommunicationType) (m : DriveMode) (flags dev host : Z) :
  0 <= flags < 64 -> is_u8 dev -> is_u8 host ->
  let id := pack_typed_ext_id c (status_extra m flags dev) host in
  decode_status_header id = (m, flags).
Proof.
  intros Hf Hd Hh id. pose proof (status_extra_range m flags dev Hf Hd) as He.
  pose proof (ct_range c) as Hc.
  assert (Hid : id = ct_as_u8 c * 16777216 + status_extra m flags dev * 256 + host).
  { unfold id, pack_typed_ext_id. rewrite pack_ext_id_arith; auto.
    - rewrite Z.mod_small by lia. reflexivity.
    - unfold is_u8, U8_MAX. lia. }
  unfold decode_status_header, from_can_id, as_u8. rewrite Hid, !shiftr_div by lia.
  autorewrite with bits. change (2 ^ 22) with 4194304. change (2 ^ 16) with 65536.
  unfold status_extra in *. unfold is_u8, U8_MAX in *.
  set (k := ct_as_u8 c) in *. clearbody k. clear - Hf Hd Hh Hc.
  assert (Hm : 0 <= mode_bits m < 4) by (destruct m; simpl; lia).
  replace (k * 16777216 + ((mode_bits m * 64 + flags) * 256 + dev) * 256 + host)
    with ((k * 4 + mode_bits m) * 4194304 + (flags * 65536 + dev * 256 + host)) by lia.
  f_equal.
  - rewrite Z.div_add_l, (Z.div_small (flags * _ + _ + _)) by lia.
    replace ((k * 4 + mode_bits m + 0) mod 4) with (mode_bits m) by dlia. now destruct m.
  - replace ((k * 4 + mode_bits m) * 4194304 + (flags * 65536 + dev * 256 + host))
      with (((k * 4 + mode_bits m) * 64 + flags) * 65536 + (dev * 256 + host)) by lia.
    rewrite Z.div_add_l, (Z.div_small (dev * _ + _)) by lia. dlia.
Qed.

Lemma status_extra_fields (m : DriveMode) (flags dev : Z) :
  0 <= flags < 64 -> is_u8 dev ->
  as_u8 (Z.land (status_extra m flags dev) 255) = dev /\
  as_u8 (Z.shiftr (status_extra m flags dev) 8) = mode_bits m * 64 + flags.
Proof.
  unfold is_u8, U8_MAX, as_u8, status_extra. intros.
  assert (0 <= mode_bits m < 4) by (destruct m; simpl; lia).
  rewrite shiftr_div, !land_255 by lia. change (2 ^ 8) with 256. split; dlia.
Qed.

Lemma inbound_status_device (c : CommunicationType) (m : DriveMode) (flags dev host : Z) :
  In c [OperationStatus; ActiveReporting; FaultReport] ->
  0 <= flags < 64 -> is_u8 dev -> is_u8 host ->
  inbound_motor_device_id (pack_typed_ext_id c (status_extra m flags dev) host) c = dev.
Proof.
  intros Hin Hf Hd Hh. pose proof (status_extra_range m flags dev Hf Hd) as He.
  pose proof (ct_range c) as Hc.
  replace (inbound_motor_device_id _ c)
    with (Z.land (Z.shiftr (pack_typed_ext_id c (status_extra m flags dev) host) 8) 255)
    by (simpl in Hin; intuition (subst; reflexivity)).
  unfold pack_typed_ext_id. rewrite pack_ext_id_arith by (auto; unfold is_u8, U8_MAX; lia).
  rewrite shiftr_div, land_255 by lia. change (2 ^ 8) with 256.
  unfold status_extra, is_u8, U8_MAX in *. clear He.
  set (k := ct_as_u8 c) in *. clearbody k.
  assert (0 <= mode_bits m < 4) by (destruct m; simpl; lia). clear Hin. dlia.
Qed.

(** status evidence survives the identifier: a type-2 reply, a type-24 report
    or a type-21 fault frame that a drive addresses to this host classifies as
    coming from that drive, with the drive mode and the six status flags it
    packed (a type-24 report is told from the host's own command because the
    drive's address differs from the host id). *)
Theorem drive_frames_classify (host dev flags : Z) (m : DriveMode) (payload : list Z)
  (Hh : is_u8 host) (Hd : is_u8 dev) (Hf : 0 <= flags < 64) (Hl : length payload = 8%nat)
  (Hne : dev <> host) :
  let id := fun c => pack_typed_ext_id c (status_extra m flags dev) host in
  classify_frame host (id OperationStatus) payload = Some (Drive dev (DStatus m flags)) /\
  classify_frame host (id ActiveReporting) payload = Some (Drive dev (DReport m flags)) /\
  classify_frame host (id FaultReport) payload = Some (Drive dev DFaultReport) /\
  Forall (fun c => decode_status_header (id c) = (m, flags) /\ inbound_motor_device_id (id c) c = dev)
    [OperationStatus; ActiveReporting; FaultReport].
Proof.
  intros id. pose proof (status_extra_range m flags dev Hf Hd) as He.
  assert (Hun : forall c, unpack_ext_id (id c) = Some (mkExtendedId (ct_as_u8 c) (status_extra m flags dev) host))
    by (intros c; exact (unpack_pack_typed c _ host He Hh)).
  assert (Hin : forall c, In c [OperationStatus; ActiveReporting; FaultReport] ->
      inbound_motor_device_id (id c) c = dev)
    by (intros c Hc; exact (inbound_status_device c m flags dev host Hc Hf Hd Hh)).
  assert (Hhd : forall c, decode_status_header (id c) = (m, flags))
    by (intros c; exact (status_header_decode c m flags dev host Hf Hd Hh)).
  clearbody id.
  destruct (status_extra_fields m flags dev Hf Hd) as (Hlow & Hhigh).
  unfold classify_frame.
  assert (try_into_8 payload = Some payload) as -> by (now apply try_into_8_some).
  cbn [mbind option_bind]. rewrite !Hun. cbn [mbind option_bind comm_type extra_data device_id].
  rewrite !from_u8_as_u8. cbn [mbind option_bind]. rewrite Hlow, Hhigh, Z.eqb_refl.
  rewrite (proj2 (Z.eqb_neq _ _) Hne). cbn [andb fst snd].
  assert (Hmode : forall c, from_can_id (id c) = m)
    by (intros c; specialize (Hhd c); unfold decode_status_header in Hhd; congruence).
  rewrite !Hmode. assert (Z.land (mode_bits m * 64 + flags) 63 = flags) as ->
    by (rewrite land_63; destruct m; simpl; dlia).
  split; [reflexivity|]. split; [reflexivity|]. split; [reflexivity|].
  apply Forall_forall. intros c Hc. apply list_elem_of_In in Hc.
  split; [apply Hhd|now apply Hin].
Qed.

Lemma drive_frames_classify_witness :
  classify_frame 253 (pack_typed_ext_id OperationStatus (status_extra Run 4 11) 253) zeros8
  = Some (Drive 11 (DStatus Run 4)).
Proof.
  refine (proj1 (drive_frames_classify 253 11 4 Run zeros8 _ _ _ _ _)).
  - unfold is_u8, U8_MAX. lia.
  - unfold is_u8, U8_MAX. lia.
  - lia.
  - reflexivity.
  - lia.
Defined.

End Wire.
