(* ===== verification/Bus.v ===== *)
(** * CAN bus abstraction

    Models the transport-independent part of [crates/robstride/src/bus.rs]: the
    transmit filter, the own-echo ledger, kernel drop accounting, frame
    envelopes, the [CanBus] trait (a type class whose instances are backends),
    the [MotorBus] operations built on it, and the in-memory backend.  Host time
    is an explicit stream of [Instant] readings. *)

From Stdlib Require Import ZArith Lia Bool SpecFloat.
From stdpp Require Import base countable strings list relations.
From S2P Require Import Prelude Float Comm Config Params Mit.

(** ** Host clock

    [Instant::now()] returns the next reading of a stream of nanosecond counts,
    plus the time slept so far: a [sleep] delays every later reading by at least
    its duration (what it oversleeps is in the stream). *)

Record clock : Type := mkClock { ticks : nat -> Z; cursor : nat; slept : Z }.

Definition now (c : clock) : Z * clock :=
  (ticks c (cursor c) + slept c, mkClock (ticks c) (S (cursor c)) (slept c)).

Definition sleep (d : Z) (c : clock) : clock := mkClock (ticks c) (cursor c) (slept c + d).

(** [n] readings whose values are not used here. *)
Definition skip (n : nat) (c : clock) : clock := mkClock (ticks c) (cursor c + n) (slept c).

(** [Instant::checked_add]: an [Instant] has signed 64-bit seconds. *)
Definition INSTANT_LIMIT : Z := 9223372036854775808 * 1000000000.
Definition instant_checked_add (t d : Z) : option Z :=
  if t + d <? INSTANT_LIMIT then Some (t + d) else None.

Module Bus.
Import Comm Params Mit.

(** ** Addresses, frames and receive reports *)

Record MotorAddress : Type := mkAddress { interface : string; device : Z }.

#[global] Instance MotorAddress_eq_dec : EqDecision MotorAddress.
Proof. solve_decision. Defined.

#[global] Instance MotorAddress_countable : Countable MotorAddress.
Proof.
  apply (inj_countable' (fun a => (interface a, device a)) (fun p => mkAddress p.1 p.2)).
  now intros [].
Defined.

Definition address_of_motor (m : Config.MotorEntry) : MotorAddress :=
  mkAddress (Config.can_interface m) (Config.device_id m).

Record CanFrame : Type := mkCanFrame { cf_id : Z; cf_data : list Z; cf_extended : bool }.

Inductive RxFrameKind : Type :=
| Data
| Remote (requested_len : Z)
| Error.

#[global] Instance RxFrameKind_eq_dec : EqDecision RxFrameKind.
Proof. solve_decision. Defined.

Record ReceivedCanFrame : Type := mkReceived {
  rx_interface : option string;
  rx_frame : CanFrame;
  rx_payload_len : Z;
  rx_kind : RxFrameKind;
}.

Record TimedCanFrame : Type := mkTimed {
  received_at : Z;
  received : ReceivedCanFrame;
}.

Inductive ReceiveCompletion : Type := Idle | Quiet | WorkLimit | Deadline | Failed.

Definition is_complete (c : ReceiveCompletion) : bool :=
  match c with Idle | Quiet => true | _ => false end.

Inductive MalformedReason : Type :=
| PayloadLength (received : Z)
| NonDataFrame
| InvalidEnvelope.

Inductive BusError : Type :=
| InvalidCommand (e : CommandError)
| Send (m : message) (transient : bool)
| InterfaceOwned (interface : string)
| UnknownJoint (joint : string)
| UnknownMotorAddress (interface : string) (device_id : Z)
| DuplicateMotorAddress (interface : string) (device_id : Z)
| DuplicateCommand (device_id : Z)
| CommandAddressMismatch (address : MotorAddress) (command_device_id : Z)
| Driver (m : message)
| RecvTimeout
| ReceiveIncomplete (completion : ReceiveCompletion)
| MalformedFeedbackError (address : MotorAddress) (reason : MalformedReason).

Inductive ReceiveAttempt : Type :=
| AFrame (f : TimedCanFrame)
| AIgnored
| AIdle
| AInterrupted.

(** ** Frame envelopes *)

Definition full_data (itf : option string) (f : CanFrame) : ReceivedCanFrame :=
  mkReceived itf f 8 Data.

Definition new_data (itf : option string) (id : Z) (extended : bool) (payload : list Z)
  : result BusError ReceivedCanFrame :=
  if (8 <? length payload)%nat then Err (Driver (msg "classic CAN payload exceeds eight bytes"))
  else
    let data := payload ++ replicate (8 - length payload) 0 in
    Ok (mkReceived itf (mkCanFrame id data extended) (Z.of_nat (length payload)) Data).

Definition new_remote (itf : option string) (id : Z) (extended : bool) (requested_len : Z)
  : result BusError ReceivedCanFrame :=
  if 8 <? requested_len then Err (Driver (msg "classic remote request exceeds eight bytes"))
  else Ok (mkReceived itf (mkCanFrame id zeros8 extended) 0 (Remote requested_len)).

Definition payload (r : ReceivedCanFrame) : option (list Z) :=
  if 8 <? rx_payload_len r then None
  else match rx_kind r with
  | Data | Error => Some (take (Z.to_nat (rx_payload_len r)) (cf_data (rx_frame r)))
  | Remote requested_len =>
      if (requested_len <=? 8) && (rx_payload_len r =? 0) then Some [] else None
  end.

(** ** Transmit filter *)

Definition TX_COMMUNICATION_TYPES : list Z := [0; 1; 3; 4; 6; 17; 18; 24].

Definition z_in (x : Z) (l : list Z) : bool := existsb (Z.eqb x) l.

Definition tx_comm_type (f : CanFrame) : Z := as_u8 (Z.land (Z.shiftr (cf_id f) 24) 31).

Definition validate_can_tx (f : CanFrame) : result BusError unit :=
  let comm_type := tx_comm_type f in
  if cf_extended f && negb (z_in comm_type TX_COMMUNICATION_TYPES)
  then Err (InvalidCommand (ForbiddenCommunicationType comm_type))
  else Ok tt.

Definition is_host_command (can_id : Z) : bool :=
  match unpack_ext_id can_id with
  | None => false
  | Some ext =>
      if z_in (comm_type ext) [1; 3; 4; 6; 7; 18; 22; 23; 25] then true
      else if z_in (comm_type ext) [0; 17; 24] then extra_data ext =? DEFAULT_HOST_ID
      else false
  end.

(** ** Own-echo ledger *)

Definition MAX_PENDING_ECHOES : nat := 1024.

(** [pending : VecDeque<(u32, [u8; 8])>], oldest first. *)
Record EchoLedger : Type := mkLedger { pending : list (Z * list Z) }.

Definition ledger_default : EchoLedger := mkLedger [].

Definition transmitted (l : EchoLedger) (f : CanFrame) : EchoLedger :=
  if negb (cf_extended f) then l
  else
    let queue := if (length (pending l) =? MAX_PENDING_ECHOES)%nat then tail (pending l) else pending l in
    mkLedger (queue ++ [(cf_id f, cf_data f)]).

(** [iter().position(..)] and [remove(index)] in one pass. *)
Fixpoint remove_first (key : Z * list Z) (q : list (Z * list Z)) : option (list (Z * list Z)) :=
  match q with
  | [] => None
  | p :: rest =>
      if bool_decide (p = key) then Some rest
      else (cons p) <$> remove_first key rest
  end.

Definition claim (l : EchoLedger) (r : ReceivedCanFrame) : bool * EchoLedger :=
  if negb (bool_decide (rx_kind r = Data)) || negb (cf_extended (rx_frame r))
     || negb (rx_payload_len r =? 8)
  then (false, l)
  else match remove_first (cf_id (rx_frame r), cf_data (rx_frame r)) (pending l) with
  | Some rest => (true, mkLedger rest)
  | None => (false, l)
  end.

Definition foreign_command_error (itf : string) (id : Z) : BusError :=
  Driver (Msg "SocketCAN {interface}: host command {:#010x} that this socket did not send; another CAN writer is active"
            [AStr itf; AInt id]).

Definition admit_echo (l : EchoLedger) (itf : string) (r : ReceivedCanFrame)
  : result BusError unit * EchoLedger :=
  let '(claimed, l) := claim l r in
  if claimed || bool_decide (rx_kind r = Error) || negb (cf_extended (rx_frame r))
     || negb (is_host_command (cf_id (rx_frame r)))
  then (Ok tt, l)
  else (Err (foreign_command_error itf (cf_id (rx_frame r))), l).

Definition settle_read (l : EchoLedger) (itf : string) (dropped : option Z)
  (r : option ReceivedCanFrame) : result BusError unit * EchoLedger :=
  match dropped with
  | Some n =>
      let l := match r with Some r => (claim l r).2 | None => l end in
      (Err (Driver (Msg "SocketCAN {interface}: kernel dropped {dropped} received frame(s) from a full receive queue"
                      [AStr itf; AInt n])), l)
  | None =>
      match r with Some r => admit_echo l itf r | None => (Ok tt, l) end
  end.

(** [u32::wrapping_sub]. *)
Definition wrapping_sub_u32 (a b : Z) : Z := (a - b) mod 4294967296.

Definition new_kernel_drops (reported : Z) (cumulative : option Z) : option Z * Z :=
  match cumulative with
  | None => (None, reported)
  | Some cumulative =>
      let new := wrapping_sub_u32 cumulative reported in
      if new =? 0 then (None, reported) else (Some new, cumulative)
  end.

(** ** Backends *)

Class CanBus (B : Type) : Type := {
  send_frame_to : B -> MotorAddress -> CanFrame -> result BusError unit * B;
  recv_one_nonblocking : B -> clock -> (BusError + ReceiveAttempt) * B * clock;
  receive_source_count : B -> nat;
  begin_receive : B -> B;
  echoes_transmissions : B -> bool;
  validate_address : B -> MotorAddress -> result BusError unit;
}.

Record AddressedMitCommand : Type := mkAddressed { address : MotorAddress; command : MitCommand }.

Section MotorBus.
Context {B : Type} `{CanBus B}.

Definition send_encoded_frame_to (bus : B) (a : MotorAddress) (f : frame)
  : result BusError unit * B :=
  send_frame_to bus a (mkCanFrame f.1 f.2 true).

(** The validation pass of [mit_control_all_at]; [seen] is [cmds[..index]]. *)
Fixpoint validate_batch (bus : B) (seen cmds : list AddressedMitCommand) : result BusError unit :=
  match cmds with
  | [] => Ok tt
  | cmd :: rest =>
      map_err InvalidCommand (mit_validate (command cmd)) ;!
      refuse_if (negb (mc_device_id (command cmd) =? device (address cmd)))
        (CommandAddressMismatch (address cmd) (mc_device_id (command cmd))) ;!
      refuse_if (existsb (fun prior => bool_decide (address prior = address cmd)) seen)
        (DuplicateMotorAddress (interface (address cmd)) (device (address cmd))) ;!
      validate_address bus (address cmd) ;!
      validate_batch bus (seen ++ [cmd]) rest
  end.

(** The transmit pass: stops at the first failure. *)
Fixpoint send_batch (bus : B) (cmds : list AddressedMitCommand) : result BusError unit * B :=
  match cmds with
  | [] => (Ok tt, bus)
  | cmd :: rest =>
      match map_err InvalidCommand (encode_mit (command cmd)) with
      | Ok f =>
          match send_encoded_frame_to bus (address cmd) f with
          | (Ok _, bus) => send_batch bus rest
          | (e, bus) => (e, bus)
          end
      | Err e => (Err e, bus)
      | Panic => (Panic, bus)
      end
  end.

Definition mit_control_all_at (bus : B) (cmds : list AddressedMitCommand)
  : result BusError unit * B :=
  match validate_batch bus [] cmds with
  | Ok _ => send_batch bus cmds
  | e => (e, bus)
  end.

Definition enable_drive_at (bus : B) (a : MotorAddress) : result BusError unit * B :=
  send_encoded_frame_to bus a (encode_default_enable (device a)).
Definition disable_drive_at (bus : B) (a : MotorAddress) : result BusError unit * B :=
  send_encoded_frame_to bus a (encode_default_disable (device a)).
Definition set_zero_position_at (bus : B) (a : MotorAddress) : result BusError unit * B :=
  send_encoded_frame_to bus a (encode_default_set_zero_position (device a)).
Definition read_parameter_at (bus : B) (a : MotorAddress) (p : ParameterId)
  : result BusError unit * B :=
  send_encoded_frame_to bus a (encode_read_parameter DEFAULT_HOST_ID (device a) p).
Definition get_device_id_at (bus : B) (a : MotorAddress) : result BusError unit * B :=
  send_encoded_frame_to bus a (encode_default_get_device_id (device a)).
Definition get_firmware_version_at (bus : B) (a : MotorAddress) : result BusError unit * B :=
  send_encoded_frame_to bus a (encode_default_get_firmware_version (device a)).

(** [let (id, data) = encoder?; send_encoded_frame_to(..)]. *)
Definition send_checked (bus : B) (a : MotorAddress) (r : result CommandError frame)
  : result BusError unit * B :=
  match map_err InvalidCommand r with
  | Ok f => send_encoded_frame_to bus a f
  | Err e => (Err e, bus)
  | Panic => (Panic, bus)
  end.

Definition write_parameter_at (bus : B) (a : MotorAddress) (p : ParameterId) (v : ParameterValue)
  : result BusError unit * B :=
  send_checked bus a (encode_write_parameter DEFAULT_HOST_ID (device a) p v).
Definition set_run_mode_at (bus : B) (a : MotorAddress) (m : RunMode) : result BusError unit * B :=
  send_encoded_frame_to bus a (encode_set_run_mode (device a) m).
Definition speed_control_at (bus : B) (a : MotorAddress) (velocity_rad_s : f32)
  : result BusError unit * B :=
  send_checked bus a (encode_speed_ref (device a) velocity_rad_s).
Definition enable_active_reporting_at (bus : B) (a : MotorAddress) : result BusError unit * B :=
  send_encoded_frame_to bus a (encode_default_active_reporting (device a) true).
Definition disable_active_reporting_at (bus : B) (a : MotorAddress) : result BusError unit * B :=
  send_encoded_frame_to bus a (encode_default_active_reporting (device a) false).

End MotorBus.

(** ** In-memory backend *)

Record MemoryBus : Type := mkMemoryBus { tx : list CanFrame; rx_queue : list CanFrame }.

Definition memory_send_frame (bus : MemoryBus) (f : CanFrame) : result BusError unit * MemoryBus :=
  match validate_can_tx f with
  | Ok _ => (Ok tt, mkMemoryBus (tx bus ++ [f]) (rx_queue bus))
  | e => (e, bus)
  end.

Definition memory_recv_one (bus : MemoryBus) (c : clock)
  : (BusError + ReceiveAttempt) * MemoryBus * clock :=
  match rx_queue bus with
  | f :: rest =>
      let '(t, c) := now c in
      (inr (AFrame (mkTimed t (full_data None f))), mkMemoryBus (tx bus) rest, c)
  | [] => (inr AIdle, bus, c)
  end.

#[global] Instance MemoryBus_CanBus : CanBus MemoryBus := {
  send_frame_to bus _ f := memory_send_frame bus f;
  recv_one_nonblocking := memory_recv_one;
  receive_source_count _ := 1%nat;
  begin_receive bus := bus;
  echoes_transmissions _ := false;
  validate_address _ _ := Ok tt;
}.

(** ** Transmit filter lemmas *)

Lemma tx_type_pack (c : CommunicationType) (ex dev : Z) (data : list Z) (ext : bool) :
  is_u16 ex -> is_u8 dev -> tx_comm_type (mkCanFrame (pack_typed_ext_id c ex dev) data ext) = ct_as_u8 c.
Proof.
  intros He Hd. pose proof (ct_range c). unfold tx_comm_type, as_u8, pack_typed_ext_id. simpl cf_id.
  rewrite pack_ext_id_arith by (auto; unfold is_u8, U8_MAX; lia).
  rewrite Z.mod_small by lia. rewrite shiftr_div by lia. autorewrite with bits.
  unfold is_u8, is_u16, U8_MAX, U16_MAX in *. change (2 ^ 24) with 16777216.
  set (k := ct_as_u8 c) in *. clearbody k. dlia.
Qed.

(** The types the host sends; drive-direction types are not among them. *)
Definition host_type (c : CommunicationType) : bool :=
  match c with OperationStatus | FaultReport => false | _ => true end.

Lemma validate_can_tx_typed (c : CommunicationType) (ex dev : Z) (data : list Z) :
  is_u16 ex -> is_u8 dev ->
  validate_can_tx (mkCanFrame (pack_typed_ext_id c ex dev) data true)
  = if host_type c then Ok tt
    else Err (InvalidCommand (ForbiddenCommunicationType (ct_as_u8 c))).
Proof.
  intros He Hd. unfold validate_can_tx. rewrite tx_type_pack by assumption.
  destruct c; reflexivity.
Qed.

(** ** Batches against the backend interface

    What a batch needs from a backend: a frame of an allowed type sent to a valid
    address is accepted and logged, and sending changes no route. *)
Class LoggedTx (B : Type) `{CanBus B} (tx_log : B -> list CanFrame) : Prop := {
  send_logged : forall bus a f,
    validate_address bus a = Ok tt -> validate_can_tx f = Ok tt ->
    exists bus', send_frame_to bus a f = (Ok tt, bus') /\ tx_log bus' = tx_log bus ++ [f] /\
      (forall a', validate_address bus' a' = validate_address bus a');
  route_no_panic : forall bus a, validate_address bus a <> Panic;
}.

#[global] Instance MemoryBus_LoggedTx : LoggedTx MemoryBus tx.
Proof.
  split; [|discriminate]. intros bus a f _ Hf. cbn [send_frame_to MemoryBus_CanBus].
  unfold memory_send_frame. rewrite Hf. eexists. repeat split.
Qed.

Section Batches.
Context {B : Type} `{CB : CanBus B} (tx_log : B -> list CanFrame) `{LT : !LoggedTx B tx_log}.

(** What the validation pass accepts. *)
Definition batch_valid (bus : B) (cmds : list AddressedMitCommand) : Prop :=
  Forall (fun c => in_vendor_range (command c) = true /\
                   mc_device_id (command c) = device (address c) /\
                   validate_address bus (address c) = Ok tt) cmds /\
  NoDup (address <$> cmds).

Lemma refuse_if_ok {E : Type} (b : bool) (e : E) : refuse_if b e = Ok tt <-> b = false.
Proof. destruct b; simpl; split; congruence. Qed.

Lemma map_err_ok {E F : Type} (f : E -> F) (r : result E unit) :
  map_err f r = Ok tt <-> r = Ok tt.
Proof. destruct r; simpl; split; congruence. Qed.

Lemma seen_false (a : MotorAddress) (seen : list AddressedMitCommand) :
  existsb (fun prior => bool_decide (address prior = a)) seen = false <-> a ∉ address <$> seen.
Proof.
  induction seen as [|x seen IH]; simpl.
  - split; [intros _; apply not_elem_of_nil|reflexivity].
  - rewrite orb_false_iff, IH, not_elem_of_cons, bool_decide_eq_false. intuition congruence.
Qed.

Lemma validate_batch_ok_iff (bus : B) (cmds seen : list AddressedMitCommand) :
  validate_batch bus seen cmds = Ok tt <->
  Forall (fun c => in_vendor_range (command c) = true /\
                   mc_device_id (command c) = device (address c) /\
                   validate_address bus (address c) = Ok tt) cmds /\
  NoDup (address <$> cmds) /\ (forall a, a ∈ address <$> cmds -> a ∉ address <$> seen).
Proof.
  revert seen. induction cmds as [|c cmds IH]; intros seen; cbn [validate_batch].
  - split; [intros _|reflexivity]. repeat split; [constructor|constructor|].
    intros a Ha. now apply elem_of_nil in Ha.
  - rewrite !then_ok, map_err_ok, mit_validate_ok_iff, !refuse_if_ok, negb_false_iff, Z.eqb_eq,
      seen_false, IH, Forall_cons, fmap_cons, NoDup_cons, fmap_app.
    setoid_rewrite elem_of_cons. setoid_rewrite elem_of_app. setoid_rewrite list_elem_of_singleton.
    naive_solver.
Qed.

(** The frames a batch puts on the wire, in order. *)
Definition batch_frames (cmds : list AddressedMitCommand) : list CanFrame :=
  omap (fun c => match encode_mit (command c) with
                 | Ok f => Some (mkCanFrame f.1 f.2 true)
                 | _ => None
                 end) cmds.

Lemma encode_mit_in_range (c : MitCommand) :
  in_vendor_range c = true ->
  exists codes, fields_ok codes /\ encode_mit c = Ok (fields_frame (mc_device_id c) codes).
Proof.
  intros Hr. apply mit_validate_ok_iff in Hr. destruct (command_codes_ok c) as (codes & Hc & Hf).
  exists codes. split; [exact Hf|]. now rewrite encode_mit_codes, Hr, Hc.
Qed.

Lemma send_batch_logged (cmds : list AddressedMitCommand) (bus : B) :
  Forall (fun c => is_u8 (mc_device_id (command c))) cmds ->
  Forall (fun c => in_vendor_range (command c) = true /\
                   mc_device_id (command c) = device (address c) /\
                   validate_address bus (address c) = Ok tt) cmds ->
  exists bus', send_batch bus cmds = (Ok tt, bus') /\ tx_log bus' = tx_log bus ++ batch_frames cmds.
Proof.
  revert bus. induction cmds as [|c cmds IH]; intros bus Hu Hv.
  - exists bus. rewrite app_nil_r. auto.
  - apply Forall_cons in Hu as [Hu Hus]. apply Forall_cons in Hv as [(Hr & Hd & Ha) Hvs].
    destruct (encode_mit_in_range _ Hr) as (codes & (_ & _ & _ & _ & Ht) & He).
    simpl. rewrite He. simpl. unfold send_encoded_frame_to.
    destruct (send_logged bus (address c) (mkCanFrame (fields_frame (mc_device_id (command c)) codes).1
                (fields_frame (mc_device_id (command c)) codes).2 true) Ha) as (bus1 & -> & Hlog & Hroute).
    { apply (validate_can_tx_typed OperationControl); assumption. }
    destruct (IH bus1 Hus) as (bus2 & -> & Hlog2).
    { eapply Forall_impl; [exact Hvs|]. simpl. intros x. now rewrite Hroute. }
    exists bus2. split; [reflexivity|]. rewrite Hlog2, Hlog, <- app_assoc. reflexivity.
Qed.

Lemma mit_validate_not_panic (c : MitCommand) : mit_validate c <> Panic.
Proof.
  unfold mit_validate, bounded, nonnegative_gain, finite, refuse_if.
  repeat (match goal with |- context [if ?b then _ else _] => destruct b end; try discriminate).
Qed.

Lemma validate_batch_not_panic (bus : B) (cmds seen : list AddressedMitCommand) :
  validate_batch bus seen cmds <> Panic.
Proof.
  revert seen. induction cmds as [|c cmds IH]; intros seen; cbn [validate_batch]; [discriminate|].
  apply rbind_not_panic.
  - pose proof (mit_validate_not_panic (command c)). destruct (mit_validate _); simpl; congruence.
  - intros _ _. apply rbind_not_panic; [unfold refuse_if; destruct (negb _); discriminate|].
    intros _ _. apply rbind_not_panic; [unfold refuse_if; destruct (existsb _ _); discriminate|].
    intros _ _. apply rbind_not_panic; [apply route_no_panic|auto].
Qed.

(** a command batch is all or nothing on any backend that logs what it sends:
    either every command is inside its motor's vendor envelope, addressed to the
    motor it names, on a valid route, with no address twice, and then exactly the
    encoded frames leave in order; or the batch is refused with a typed error and
    not one frame of it was sent. *)
Theorem mit_batch_all_or_nothing (bus : B) (cmds : list AddressedMitCommand)
  (Hu : Forall (fun c => is_u8 (mc_device_id (command c))) cmds) :
  (batch_valid bus cmds /\ length (batch_frames cmds) = length cmds /\
   exists bus', mit_control_all_at bus cmds = (Ok tt, bus') /\
     tx_log bus' = tx_log bus ++ batch_frames cmds)
  \/ (~ batch_valid bus cmds /\ exists e, mit_control_all_at bus cmds = (Err e, bus)).
Proof.
  unfold mit_control_all_at. destruct (validate_batch bus [] cmds) as [[]|e|] eqn:E.
  - apply validate_batch_ok_iff in E as (Hv & Hn & _). left.
    split; [split; assumption|]. split; [|now apply send_batch_logged].
    clear - Hv. unfold batch_frames. induction Hv as [|c cmds (Hr & _ & _) _ IH]; [reflexivity|].
    destruct (encode_mit_in_range _ Hr) as (codes & _ & He). cbn [omap list_omap]. rewrite He.
    cbn [length]. now rewrite IH.
  - right. split; [|eauto]. intros [Hv Hn].
    assert (validate_batch bus [] cmds = Ok tt); [|congruence].
    apply validate_batch_ok_iff. repeat split; auto. intros a _. apply not_elem_of_nil.
  - now apply validate_batch_not_panic in E.
Qed.

End Batches.

Definition right_pitch : MotorAddress := mkAddress "can0" 11.

Lemma mit_batch_all_or_nothing_witness :
  (batch_valid (mkMemoryBus [] []) [mkAddressed right_pitch hold_command] /\
   length (batch_frames [mkAddressed right_pitch hold_command]) = 1%nat /\
   exists bus', mit_control_all_at (mkMemoryBus [] []) [mkAddressed right_pitch hold_command] = (Ok tt, bus') /\
     tx bus' = [] ++ batch_frames [mkAddressed right_pitch hold_command])
  \/ (~ batch_valid (mkMemoryBus [] []) [mkAddressed right_pitch hold_command] /\
      exists e, mit_control_all_at (mkMemoryBus [] []) [mkAddressed right_pitch hold_command]
                = (Err e, mkMemoryBus [] [])).
Proof.
  apply (mit_batch_all_or_nothing tx (mkMemoryBus [] []) [mkAddressed right_pitch hold_command]).
  apply Forall_cons. split; [simpl; unfold is_u8, U8_MAX; lia|constructor].
Defined.

(** ** Echo ledger lemmas *)

Lemma remove_first_none (k : Z * list Z) (q : list (Z * list Z)) :
  remove_first k q = None <-> k ∉ q.
Proof.
  induction q as [|p q IH]; simpl; [split; [intros _; apply not_elem_of_nil|reflexivity]|].
  rewrite not_elem_of_cons. case_bool_decide as Hp; [intuition congruence|].
  rewrite fmap_None, IH. intuition congruence.
Qed.

Lemma remove_first_some (k : Z * list Z) (q rest : list (Z * list Z)) :
  remove_first k q = Some rest -> q ≡ₚ k :: rest.
Proof.
  revert rest. induction q as [|p q IH]; simpl; intros rest H; [discriminate|].
  case_bool_decide as Hp; [inv H; reflexivity|].
  apply fmap_Some in H as (r & Hr & ->). rewrite (IH _ Hr). apply Permutation_swap.
Qed.

Lemma remove_first_elem (k : Z * list Z) (q : list (Z * list Z)) :
  k ∈ q -> exists rest, remove_first k q = Some rest /\ q ≡ₚ k :: rest.
Proof.
  intros H. destruct (remove_first k q) as [rest|] eqn:E.
  - exists rest. auto using remove_first_some.
  - now apply remove_first_none in E.
Qed.

(** The echo of a transmission: the same extended frame, read back in full. *)
Definition echo_of (itf : option string) (f : CanFrame) : ReceivedCanFrame := full_data itf f.

Definition key_of (f : CanFrame) : Z * list Z := (cf_id f, cf_data f).

Lemma claim_echo (l : EchoLedger) (itf : option string) (f : CanFrame) :
  cf_extended f = true ->
  claim l (echo_of itf f) = match remove_first (key_of f) (pending l) with
                            | Some rest => (true, mkLedger rest) | None => (false, l) end.
Proof. intros He. unfold claim, echo_of, full_data. simpl. now rewrite He. Qed.

Lemma transmitted_pending (l : EchoLedger) (f : CanFrame) :
  cf_extended f = true -> (length (pending l) < MAX_PENDING_ECHOES)%nat ->
  pending (transmitted l f) = pending l ++ [key_of f].
Proof.
  intros He Hl. unfold transmitted. rewrite He. simpl.
  destruct (Nat.eqb_spec (length (pending l)) MAX_PENDING_ECHOES); [lia|reflexivity].
Qed.

Lemma transmit_all (fs : list CanFrame) (l : EchoLedger) :
  Forall (fun f => cf_extended f = true) fs ->
  (length (pending l) + length fs <= MAX_PENDING_ECHOES)%nat ->
  pending (foldl transmitted l fs) = pending l ++ map key_of fs.
Proof.
  revert l. induction fs as [|f fs IH]; intros l He Hl; [now rewrite app_nil_r|].
  apply Forall_cons in He as [He Hes]. cbn [foldl map length] in *.
  rewrite IH, transmitted_pending by
    (auto; rewrite ?transmitted_pending, ?length_app by (auto; lia); simpl; lia).
  now rewrite <- app_assoc.
Qed.

(** Reads settled one after the other. *)
Fixpoint settle_all (l : EchoLedger) (itf : string) (rs : list ReceivedCanFrame)
  : list (result BusError unit) * EchoLedger :=
  match rs with
  | [] => ([], l)
  | r :: rest =>
      let '(o, l) := settle_read l itf None (Some r) in
      let '(os, l) := settle_all l itf rest in
      (o :: os, l)
  end.

Lemma settle_echoes (itf : string) (gs : list CanFrame) (l : EchoLedger) :
  Forall (fun f => cf_extended f = true) gs -> pending l ≡ₚ map key_of gs ->
  exists l', settle_all l itf (map (echo_of (Some itf)) gs) = (map (fun _ => Ok tt) gs, l') /\
    pending l' = [].
Proof.
  revert l. induction gs as [|g gs IH]; intros l He Hp.
  - exists l. split; [reflexivity|]. symmetry in Hp. now apply Permutation_nil in Hp.
  - apply Forall_cons in He as [He Hes]. cbn [map settle_all settle_read]. unfold admit_echo.
    rewrite claim_echo by assumption.
    destruct (remove_first_elem (key_of g) (pending l)) as (rest & -> & Hrest).
    { rewrite Hp. simpl. left. }
    cbn [orb]. destruct (IH (mkLedger rest) Hes) as (l' & -> & Hl').
    { simpl. rewrite Hrest in Hp. simpl in Hp. now apply Permutation_cons_inv in Hp. }
    exists l'. auto.
Qed.

Lemma foreign_refused (l : EchoLedger) (itf : string) (g : CanFrame) :
  cf_extended g = true -> is_host_command (cf_id g) = true -> key_of g ∉ pending l ->
  settle_read l itf None (Some (echo_of (Some itf) g)) = (Err (foreign_command_error itf (cf_id g)), l).
Proof.
  intros He Hh Hn. cbn [settle_read]. unfold admit_echo. rewrite claim_echo by assumption.
  apply remove_first_none in Hn. rewrite Hn. simpl. now rewrite He, Hh.
Qed.

(** own echoes are recognised exactly once: after transmitting up to 1024
    extended frames, their echoes are all admitted, in whatever order they come
    back, and the ledger is empty again; any host command read after that, even a
    copy of one of them, is refused as another writer's. *)
Theorem own_echoes_admitted_once (itf : string) (fs gs : list CanFrame) (extra : CanFrame)
  (He : Forall (fun f => cf_extended f = true) fs) (Hl : (length fs <= MAX_PENDING_ECHOES)%nat)
  (Hp : gs ≡ₚ fs) (Hx : cf_extended extra = true) (Hc : is_host_command (cf_id extra) = true) :
  exists l, settle_all (foldl transmitted ledger_default fs) itf (map (echo_of (Some itf)) gs)
            = (map (fun _ => Ok tt) gs, l) /\
    settle_read l itf None (Some (echo_of (Some itf) extra))
    = (Err (foreign_command_error itf (cf_id extra)), l).
Proof.
  destruct (settle_echoes itf gs (foldl transmitted ledger_default fs)) as (l & Hs & Hn).
  - now rewrite Hp.
  - rewrite transmit_all by (auto; simpl; lia). simpl. now rewrite Hp.
  - exists l. split; [exact Hs|]. apply foreign_refused; auto. rewrite Hn. apply not_elem_of_nil.
Qed.

Definition enable_frame (dev : Z) : CanFrame :=
  mkCanFrame (encode_default_enable dev).1 (encode_default_enable dev).2 true.

Lemma own_echoes_admitted_once_witness :
  exists l, settle_all (foldl transmitted ledger_default [enable_frame 11; enable_frame 12]) "can0"
              (map (echo_of (Some "can0")) [enable_frame 12; enable_frame 11])
            = (map (fun _ => Ok tt) [enable_frame 12; enable_frame 11], l) /\
    settle_read l "can0" None (Some (echo_of (Some "can0") (enable_frame 11)))
    = (Err (foreign_command_error "can0" (cf_id (enable_frame 11))), l).
Proof.
  apply own_echoes_admitted_once.
  - repeat constructor.
  - unfold MAX_PENDING_ECHOES. simpl. lia.
  - apply Permutation_swap.
  - reflexivity.
  - reflexivity.
Defined.

(** One step of a socket: a transmission or a settled read. *)
Inductive ledger_step (itf : string) : EchoLedger -> EchoLedger -> Prop :=
| step_tx (l : EchoLedger) (f : CanFrame) : ledger_step itf l (transmitted l f)
| step_rx (l : EchoLedger) (dropped : option Z) (r : option ReceivedCanFrame) :
    ledger_step itf l (settle_read l itf dropped r).2.

Lemma claim_length (l : EchoLedger) (r : ReceivedCanFrame) :
  (length (pending (claim l r).2) <= length (pending l))%nat.
Proof.
  unfold claim. destruct (_ || _); [simpl; lia|].
  destruct (remove_first _ _) as [rest|] eqn:E; simpl; [|lia].
  apply remove_first_some, Permutation_length in E. simpl in E. lia.
Qed.

Lemma ledger_step_bounded (itf : string) (l l' : EchoLedger) :
  ledger_step itf l l' -> (length (pending l) <= MAX_PENDING_ECHOES)%nat ->
  (length (pending l') <= MAX_PENDING_ECHOES)%nat.
Proof.
  intros [l0 f|l0 dropped r] Hl.
  - unfold transmitted. destruct (cf_extended f); simpl; [|exact Hl].
    destruct (Nat.eqb_spec (length (pending l0)) MAX_PENDING_ECHOES) as [E|E];
      rewrite length_app; simpl; [|lia].
    destruct (pending l0); simpl in *; [unfold MAX_PENDING_ECHOES in *; lia|lia].
  - assert (H : forall r, (length (pending (claim l0 r).2) <= MAX_PENDING_ECHOES)%nat)
      by (intros r'; pose proof (claim_length l0 r'); lia).
    destruct dropped as [n|], r as [r|]; simpl; auto.
    unfold admit_echo. specialize (H r). destruct (claim l0 r) as [b l1]. simpl in H.
    destruct (_ || _); exact H.
Qed.

(** the ledger never grows past its bound: along any interleaving of
    transmissions, drops and reads it holds at most 1024 pending echoes. *)
Theorem ledger_bounded (itf : string) (l : EchoLedger)
  (Hr : rtc (ledger_step itf) ledger_default l) :
  (length (pending l) <= MAX_PENDING_ECHOES)%nat.
Proof.
  assert (H0 : (length (pending ledger_default) <= MAX_PENDING_ECHOES)%nat) by (simpl; lia).
  revert H0. induction Hr as [|x y z Hs _ IH]; intros H0; [exact H0|].
  apply IH. exact (ledger_step_bounded itf x y Hs H0).
Qed.

Lemma ledger_bounded_witness :
  (length (pending (transmitted ledger_default (enable_frame 11))) <= MAX_PENDING_ECHOES)%nat.
Proof. apply (ledger_bounded "can0"). apply rtc_once. constructor. Defined.

(** ** Kernel drop accounting *)

(** Every report of one socket, in order. *)
Fixpoint drop_reports (reported : Z) (counts : list (option Z)) : list Z * Z :=
  match counts with
  | [] => ([], reported)
  | c :: rest =>
      let '(new, reported) := new_kernel_drops reported c in
      let '(news, reported) := drop_reports reported rest in
      (match new with Some n => n :: news | None => news end, reported)
  end.

Definition last_count (reported : Z) (counts : list (option Z)) : Z :=
  foldl (fun r c => default r c) reported counts.

Lemma new_kernel_drops_reported (reported : Z) (c : option Z) :
  is_u32 reported -> (forall x, c = Some x -> is_u32 x) ->
  (new_kernel_drops reported c).2 = default reported c /\
  default 0 (new_kernel_drops reported c).1 = (default reported c - reported) mod 4294967296 /\
  is_u32 (default reported c).
Proof.
  unfold is_u32, U32_MAX. intros Hr Hc. destruct c as [x|]; simpl.
  - specialize (Hc x eq_refl). unfold wrapping_sub_u32.
    destruct (Z.eqb_spec ((x - reported) mod 4294967296) 0) as [E|E]; simpl; [|auto].
    rewrite E. split; [|lia]. dlia.
  - rewrite Z.sub_diag. auto.
Qed.

(** kernel drops are neither lost nor counted twice: whatever cumulative
    counts the frames carry (absent ones included), the drops reported add up,
    modulo the counter's 32 bits, to the difference between the last count and
    the first, and only nonzero reports are made. *)
Theorem kernel_drops_conserved (counts : list (option Z)) (reported : Z)
  (Hr : is_u32 reported) (Hc : Forall (fun c => forall x, c = Some x -> is_u32 x) counts) :
  foldr Z.add 0 (drop_reports reported counts).1 mod 4294967296
    = (last_count reported counts - reported) mod 4294967296 /\
  Forall (fun n => 0 < n) (drop_reports reported counts).1.
Proof.
  revert reported Hr. induction Hc as [|c counts Hx _ IH]; intros reported Hr;
    [simpl; rewrite Z.sub_diag; auto|].
  destruct (new_kernel_drops_reported reported c Hr Hx) as (H2 & H1 & H3).
  simpl drop_reports. destruct (new_kernel_drops reported c) as [new rep] eqn:E.
  simpl in H1, H2. subst rep. destruct (IH _ H3) as [IHs IHp].
  destruct (drop_reports (default reported c) counts) as [news rep]. simpl in IHs, IHp.
  assert (Hpos : forall n, new = Some n -> 0 < n).
  { intros n ->. unfold new_kernel_drops in E. destruct c as [x|]; [|discriminate].
    destruct (Z.eqb_spec (wrapping_sub_u32 x reported) 0); [discriminate|].
    inv E. unfold wrapping_sub_u32 in *. dlia. }
  change (last_count reported (c :: counts)) with (last_count (default reported c) counts).
  assert (Hsum : foldr Z.add 0 (match new with Some n => n :: news | None => news end)
                 = default 0 new + foldr Z.add 0 news) by (destruct new; reflexivity).
  split.
  - cbn [fst]. rewrite Hsum, Z.add_mod, IHs, H1, <- Z.add_mod, Z.add_mod_idemp_l by lia.
    f_equal. lia.
  - destruct new; [constructor|]; auto.
Qed.

Lemma kernel_drops_conserved_witness :
  foldr Z.add 0 (drop_reports 5 [None; Some 5; Some 9; Some 9; Some 12]).1 mod 4294967296
    = (last_count 5 [None; Some 5; Some 9; Some 9; Some 12] - 5) mod 4294967296 /\
  Forall (fun n => 0 < n) (drop_reports 5 [None; Some 5; Some 9; Some 9; Some 12]).1.
Proof.
  apply kernel_drops_conserved.
  - unfold is_u32, U32_MAX. lia.
  - repeat first [apply Forall_nil_2 | apply Forall_cons; split];
      intros x Hx; inv Hx; unfold is_u32, U32_MAX; lia.
Defined.

End Bus.
