(* ===== verification/Receive.v ===== *)
(** * Bounded receive engine and receive timestamps

    Models [crates/robstride/src/receive.rs] ([drain], the loop every poll runs)
    and [rx_time.rs] (kernel receive times mapped onto the host clock). *)

From Stdlib Require Import ZArith Lia Bool.
From stdpp Require Import base strings list.
From S2P Require Import Prelude Float Comm Params Mit Bus.

Module Receive.
Import Bus.

Definition MAX_RX_FRAMES_PER_POLL : nat := 64.
Definition MAX_RX_ATTEMPTS_PER_POLL : nat := 256.

Record ReceiveLimits : Type := mkLimits {
  max_frames : nat;
  max_attempts : nat;
  deadline : option Z;
}.

Definition limits_default : ReceiveLimits :=
  mkLimits MAX_RX_FRAMES_PER_POLL MAX_RX_ATTEMPTS_PER_POLL None.

Record RawReceiveReport : Type := mkReport {
  frames : list TimedCanFrame;
  ignored_frames : nat;
  completion : ReceiveCompletion;
  read_attempts : nat;
  terminal_error : option BusError;
  terminal_error_order : option nat;
}.

Definition report_default : RawReceiveReport := mkReport [] 0 Idle 0 None None.

Definition with_completion (r : RawReceiveReport) (c : ReceiveCompletion) : RawReceiveReport :=
  mkReport (frames r) (ignored_frames r) c (read_attempts r) (terminal_error r)
    (terminal_error_order r).

Definition failed_report (m : message) : RawReceiveReport :=
  mkReport [] 0 Failed 0 (Some (Driver m)) None.

Section Drain.
Context {B : Type} `{CanBus B}.

Variables (budget quiet : Z).

(** The loop's mutable variables. *)
Record drain_state : Type := mkDrain {
  d_report : RawReceiveReport;
  round_attempts : nat;
  round_idle : bool;
  last_round_idle : bool;
  last_frame_at : option Z;
  d_bus : B;
  d_clock : clock;
}.

(** [report.read_attempts += 1; round_attempts += 1; match recv_one_nonblocking() ..]. *)
Definition read_once (s : drain_state) : drain_state :=
  let r := d_report s in
  let attempts := S (read_attempts r) in
  let in_round := S (round_attempts s) in
  let '(outcome, bus, c) := recv_one_nonblocking (d_bus s) (d_clock s) in
  match outcome with
  | inr (AFrame f) =>
      let '(last, c) :=
        if budget =? 0 then (last_frame_at s, c)
        else let '(t, c) := now c in (Some t, c) in
      mkDrain (mkReport (frames r ++ [f]) (ignored_frames r) (completion r) attempts
                 (terminal_error r) (terminal_error_order r))
        in_round false (last_round_idle s) last bus c
  | inr AIgnored =>
      mkDrain (mkReport (frames r) (S (ignored_frames r)) (completion r) attempts
                 (terminal_error r) (terminal_error_order r))
        in_round false (last_round_idle s) (last_frame_at s) bus c
  | inr AIdle =>
      mkDrain (mkReport (frames r) (ignored_frames r) (completion r) attempts
                 (terminal_error r) (terminal_error_order r))
        in_round (round_idle s) (last_round_idle s) (last_frame_at s) bus c
  | inr AInterrupted =>
      mkDrain (mkReport (frames r) (ignored_frames r) (completion r) attempts
                 (terminal_error r) (terminal_error_order r))
        in_round false (last_round_idle s) (last_frame_at s) bus c
  | inl e =>
      let '(err, order) :=
        match terminal_error r with
        | None => (Some e, Some (length (frames r) + ignored_frames r)%nat)
        | Some _ => (terminal_error r, terminal_error_order r)
        end in
      mkDrain (mkReport (frames r) (ignored_frames r) (completion r) attempts err order)
        in_round false (last_round_idle s) (last_frame_at s) bus c
  end.

(** [deadline.is_some_and(|end| Instant::now() >= end)]: the clock is read only
    when there is a deadline. *)
Definition deadline_passed (dl : option Z) (c : clock) : bool * clock :=
  match dl with
  | None => (false, c)
  | Some e => let '(t, c) := now c in (e <=? t, c)
  end.

(** The pause after an idle round: paced over the remaining rounds, at least
    200 microseconds, never past the deadline. *)
Definition idle_wait (remaining : Z) (remaining_rounds : nat) : Z :=
  let paced := remaining / (Z.of_nat remaining_rounds + 1) in
  Z.min (Z.max 200000 paced) remaining.

(** An idle round: [inl] returns the report, [inr] goes on after the pause. *)
Definition after_idle_round (dl : option Z) (max_att sources : nat) (s : drain_state)
  : (RawReceiveReport * B * clock) + clock :=
  let r := d_report s in
  let done := fun c clk => inl (with_completion r c, d_bus s, clk) in
  if budget =? 0 then done Idle (d_clock s)
  else
    let '(t, c) := now (d_clock s) in
    if match last_frame_at s with Some last => quiet <=? Z.max 0 (t - last) | None => false end
    then done Quiet c
    else if match dl with Some e => e <=? t | None => false end then done Idle c
    else
      let remaining_rounds := ((max_att - read_attempts r) / sources)%nat in
      if (remaining_rounds =? 0)%nat then done Idle c
      else match dl with
      | None => inr c
      | Some e =>
          let remaining := Z.max 0 (e - t) in
          let wait := idle_wait remaining remaining_rounds in
          let c := if wait =? 0 then c else sleep wait c in
          let '(t, c) := now c in
          if e <=? t then done Idle c else inr c
      end.

(** One pass of the loop body: [inl] is a [return], [inr] the next state. *)
Definition drain_step (dl : option Z) (max_fr max_att sources : nat) (s : drain_state)
  : (RawReceiveReport * B * clock) + drain_state :=
  let r := d_report s in
  if (max_fr <=? length (frames r) + ignored_frames r)%nat || (max_att <=? read_attempts r)%nat
  then inl (with_completion r WorkLimit, d_bus s, d_clock s)
  else
    let '(expired, c) := deadline_passed dl (d_clock s) in
    if expired then
      let done := if (round_attempts s =? 0)%nat && last_round_idle s then Idle else Deadline in
      inl (with_completion r done, d_bus s, c)
    else
      let s := read_once (mkDrain r (round_attempts s) (round_idle s) (last_round_idle s)
                            (last_frame_at s) (d_bus s) c) in
      if negb (round_attempts s =? sources)%nat then inr s
      else
        let next := fun c => mkDrain (d_report s) 0 true (round_idle s) (last_frame_at s) (d_bus s) c in
        if bool_decide (is_Some (terminal_error (d_report s)))
        then inl (with_completion (d_report s) Failed, d_bus s, d_clock s)
        else if round_idle s then
          match after_idle_round dl max_att sources s with
          | inl out => inl out
          | inr c => inr (next c)
          end
        else inr (next (d_clock s)).

(** The loop, with fuel; [None] when the fuel runs out. *)
Fixpoint drain_loop (fuel : nat) (dl : option Z) (max_fr max_att sources : nat) (s : drain_state)
  : option (RawReceiveReport * B * clock) :=
  match fuel with
  | O => None
  | S fuel =>
      match drain_step dl max_fr max_att sources s with
      | inl out => Some out
      | inr s => drain_loop fuel dl max_fr max_att sources s
      end
  end.

Definition earliest (a b : option Z) : option Z :=
  match a, b with
  | Some x, Some y => Some (Z.min x y)
  | Some x, None => Some x
  | None, b => b
  end.

Definition drain_init (bus : B) (c : clock) : drain_state :=
  mkDrain report_default 0 true false None (begin_receive bus) c.

Definition drain_from (bus : B) (c : clock) (budget_deadline : option Z) (limits : ReceiveLimits)
  : option (RawReceiveReport * B * clock) :=
  let dl := earliest budget_deadline (deadline limits) in
  let max_fr := Nat.min (max_frames limits) MAX_RX_FRAMES_PER_POLL in
  let max_att := Nat.min (max_attempts limits) MAX_RX_ATTEMPTS_PER_POLL in
  let sources := receive_source_count bus in
  if (sources =? 0)%nat then Some (failed_report (msg "receive backend has no sources"), bus, c)
  else drain_loop (S max_att) dl max_fr max_att sources (drain_init bus c).

Definition drain (bus : B) (c : clock) (limits : ReceiveLimits)
  : option (RawReceiveReport * B * clock) :=
  if budget =? 0 then drain_from bus c None limits
  else
    let '(t, c) := now c in
    match instant_checked_add t budget with
    | Some e => drain_from bus c (Some e) limits
    | None => Some (failed_report (msg "receive budget overflows host clock"), bus, c)
    end.

(** ** What a report says about the reads *)

(** The backend's reads one after the other, at whatever times. *)
Inductive reads : B -> list (BusError + ReceiveAttempt) -> B -> Prop :=
| reads_nil (b : B) : reads b [] b
| reads_snoc (b b1 b2 : B) (os : list (BusError + ReceiveAttempt)) (o : BusError + ReceiveAttempt)
    (c c' : clock) :
    reads b os b1 -> recv_one_nonblocking b1 c = (o, b2, c') -> reads b (os ++ [o]) b2.

Definition frame_of (o : BusError + ReceiveAttempt) : option TimedCanFrame :=
  match o with inr (AFrame f) => Some f | _ => None end.
Definition is_ignored (o : BusError + ReceiveAttempt) : bool :=
  match o with inr AIgnored => true | _ => false end.
Definition error_of (o : BusError + ReceiveAttempt) : option BusError :=
  match o with inl e => Some e | _ => None end.
Definition is_idle (o : BusError + ReceiveAttempt) : bool :=
  match o with inr AIdle => true | _ => false end.


Definition delivered (os : list (BusError + ReceiveAttempt)) : nat :=
  length (omap frame_of os) + length (filter (fun o => is_ignored o = true) os).

(** Frames delivered before the first error. *)
Fixpoint error_order (n : nat) (os : list (BusError + ReceiveAttempt)) : option nat :=
  match os with
  | [] => None
  | o :: rest =>
      match error_of o with
      | Some _ => Some n
      | None => error_order (n + delivered [o]) rest
      end
  end.

(** A report projects the reads: every frame in order, ignored frames counted,
    the first error kept with its place, one attempt per read. *)
Definition projects (r : RawReceiveReport) (os : list (BusError + ReceiveAttempt)) : Prop :=
  frames r = omap frame_of os /\
  ignored_frames r = length (filter (fun o => is_ignored o = true) os) /\
  terminal_error r = head (omap error_of os) /\
  terminal_error_order r = error_order 0 os /\
  read_attempts r = length os.

(** The last [n] reads found their source empty. *)
Definition last_idle (n : nat) (os : list (BusError + ReceiveAttempt)) : bool :=
  forallb is_idle (take n (rev os)).

Lemma delivered_app (os1 os2 : list (BusError + ReceiveAttempt)) :
  delivered (os1 ++ os2) = (delivered os1 + delivered os2)%nat.
Proof. unfold delivered. rewrite omap_app, filter_app, !length_app. lia. Qed.

Lemma error_order_snoc (os : list (BusError + ReceiveAttempt)) (o : BusError + ReceiveAttempt) (n : nat) :
  error_order n (os ++ [o]) =
  match error_order n os with
  | Some k => Some k
  | None => match error_of o with Some _ => Some (n + delivered os)%nat | None => None end
  end.
Proof.
  revert n. induction os as [|x os IH]; intros n; simpl.
  - rewrite Nat.add_0_r. now destruct (error_of o).
  - destruct (error_of x); [reflexivity|]. rewrite IH.
    change (x :: os) with ([x] ++ os). rewrite delivered_app, Nat.add_assoc. reflexivity.
Qed.

Lemma error_order_none (os : list (BusError + ReceiveAttempt)) (n : nat) :
  error_order n os = None <-> omap error_of os = [].
Proof.
  revert n. induction os as [|x os IH]; intros n; simpl; [tauto|].
  destruct (error_of x); [split; discriminate|apply IH].
Qed.

Lemma head_snoc_option {A : Type} (l : list A) (x : option A) :
  head (l ++ option_list x) = match head l with Some y => Some y | None => x end.
Proof. destruct l, x; reflexivity. Qed.

(** One read: the report projects one more outcome. *)
Lemma read_once_projects (b0 : B) (s : drain_state) (os : list (BusError + ReceiveAttempt)) :
  reads b0 os (d_bus s) -> projects (d_report s) os ->
  exists o, reads b0 (os ++ [o]) (d_bus (read_once s)) /\
    projects (d_report (read_once s)) (os ++ [o]) /\
    round_attempts (read_once s) = S (round_attempts s) /\
    round_idle (read_once s) = is_idle o && round_idle s /\
    last_round_idle (read_once s) = last_round_idle s /\ (delivered [o] <= 1)%nat.
Proof.
  intros Hr (H1 & H2 & H3 & H4 & H5). unfold read_once.
  destruct (recv_one_nonblocking (d_bus s) (d_clock s)) as [[o b] c] eqn:E.
  pose proof (reads_snoc _ _ _ _ _ _ _ Hr E) as Hr'. exists o.
  unfold projects. rewrite omap_app, filter_app, length_app, error_order_snoc, omap_app, length_app, <- H4, <- H5.
  destruct o as [e|[f| | |]]; simpl.
  2: destruct (budget =? 0); simpl.
  2-6: split; [exact Hr'|]; rewrite ?app_nil_r, <- H1, <- H2, <- H3;
       destruct (terminal_error_order (d_report s)); repeat split; unfold delivered; simpl; lia.
  pose proof (error_order_none os 0) as Hn. rewrite <- H4 in Hn.
  destruct (terminal_error (d_report s)) eqn:Et; simpl; (split; [exact Hr'|]);
    rewrite ?app_nil_r, <- ?H1, <- ?H2; repeat split; try (unfold delivered; simpl; lia).
  all: destruct (omap error_of os) as [|e' es]; simplify_eq/=; auto.
  - destruct (terminal_error_order (d_report s)); [auto|]. destruct Hn as [Hn _].
    discriminate (Hn eq_refl).
  - rewrite (proj2 Hn eq_refl). f_equal. unfold delivered. now rewrite <- H1, <- H2.
Qed.

(** ** The loop invariant *)

Section Bounds.
Variables (dl : option Z) (max_fr max_att sources : nat) (b0 : B).
Hypothesis sources_pos : (0 < sources)%nat.

Record drain_inv (s : drain_state) (os : list (BusError + ReceiveAttempt)) : Prop := {
  inv_reads : reads b0 os (d_bus s);
  inv_projects : projects (d_report s) os;
  inv_frames : (delivered os <= max_fr)%nat;
  inv_attempts : (length os <= max_att)%nat;
  inv_round : (round_attempts s < sources)%nat;
  inv_round_reads : (round_attempts s <= length os)%nat;
  inv_round_idle : round_idle s = last_idle (round_attempts s) os;
  inv_round_start : round_attempts s = 0%nat ->
    terminal_error (d_report s) = None /\
    (last_round_idle s = true -> (sources <= length os)%nat /\ last_idle sources os = true);
}.

(** What a returned report guarantees. *)
Definition report_sound (out : RawReceiveReport * B * clock) : Prop :=
  exists os, reads b0 os out.1.2 /\ projects out.1.1 os /\
    (delivered os <= max_fr)%nat /\ (length os <= max_att)%nat /\
    (is_complete (completion out.1.1) = true ->
       (sources <= length os)%nat /\ last_idle sources os = true /\ terminal_error out.1.1 = None) /\
    (completion out.1.1 = Failed -> terminal_error out.1.1 <> None).

Lemma with_completion_projects (r : RawReceiveReport) (c : ReceiveCompletion)
  (os : list (BusError + ReceiveAttempt)) :
  projects r os -> projects (with_completion r c) os.
Proof. exact id. Qed.

Lemma last_idle_snoc (n : nat) (os : list (BusError + ReceiveAttempt)) (o : BusError + ReceiveAttempt) :
  last_idle (S n) (os ++ [o]) = is_idle o && last_idle n os.
Proof. unfold last_idle. rewrite rev_app_distr. reflexivity. Qed.

(** An idle round either returns a complete report or goes on. *)
Lemma after_idle_round_out (s : drain_state) (out : RawReceiveReport * B * clock) :
  after_idle_round dl max_att sources s = inl out ->
  exists c, out.1 = (with_completion (d_report s) c, d_bus s) /\ is_complete c = true.
Proof.
  unfold after_idle_round. destruct (budget =? 0); [intros [= <-]; exists Idle; auto|].
  destruct (now (d_clock s)) as [t c].
  destruct (match last_frame_at s with Some _ => _ | None => _ end); [intros [= <-]; exists Quiet; auto|].
  destruct (match dl with Some _ => _ | None => _ end); [intros [= <-]; exists Idle; auto|].
  destruct (_ =? 0)%nat; [intros [= <-]; exists Idle; auto|].
  destruct dl as [e|]; [|discriminate].
  destruct (now _) as [t' c']. destruct (e <=? t'); [intros [= <-]; exists Idle; auto|discriminate].
Qed.

Lemma step_sound (s : drain_state) (os : list (BusError + ReceiveAttempt)) :
  drain_inv s os ->
  match drain_step dl max_fr max_att sources s with
  | inl out => report_sound out
  | inr s' => exists o, drain_inv s' (os ++ [o])
  end.
Proof.
  intros [Hreads Hproj Hfr Hat Hround Hrl Hidle Hstart]. unfold drain_step.
  pose proof Hproj as (P1 & P2 & _ & _ & P5).
  destruct (_ || _) eqn:Ecap.
  - exists os. simpl. repeat split; auto; try apply Hproj; discriminate.
  - apply orb_false_iff in Ecap as [Ef Ea]. apply Nat.leb_gt in Ef, Ea.
    destruct (deadline_passed dl (d_clock s)) as [[] c].
    + exists os. simpl. do 2 (split; [assumption|]). do 2 (split; [assumption|]).
      destruct (round_attempts s =? 0)%nat eqn:E0; simpl; [|split; discriminate].
      apply Nat.eqb_eq in E0. destruct (Hstart E0) as [Hte Hlast].
      destruct (last_round_idle s); simpl; [|split; discriminate].
      split; [intros _; destruct (Hlast eq_refl); auto|discriminate].
    + set (s0 := mkDrain _ _ _ _ _ _ c).
      destruct (read_once_projects b0 s0 os) as (o & R1 & R2 & R3 & R4 & R5 & R6); [assumption..|].
      assert (Hd : (delivered (os ++ [o]) <= max_fr)%nat)
        by (rewrite delivered_app; unfold delivered at 1; rewrite <- P1, <- P2; lia).
      assert (Hl : (length (os ++ [o]) <= max_att)%nat) by (rewrite length_app; simpl; lia).
      assert (Hi : round_idle (read_once s0) = last_idle (round_attempts (read_once s0)) (os ++ [o]))
        by (rewrite R3, R4, last_idle_snoc; simpl; now rewrite Hidle).
      destruct (_ =? sources)%nat eqn:Es; simpl negb; cbv iota.
      2:{ apply Nat.eqb_neq in Es. exists o.
          split; [exact R1|exact R2|exact Hd|exact Hl| | |exact Hi|]; rewrite R3 in *; simpl in *.
          - lia.
          - rewrite length_app. simpl. lia.
          - discriminate. }
      apply Nat.eqb_eq in Es. rewrite Es in Hi.
      assert (Hsl : (sources <= length (os ++ [o]))%nat).
      { rewrite R3 in Es. simpl in Es. rewrite length_app. simpl. lia. }
      destruct (bool_decide _) eqn:Et.
      * apply bool_decide_eq_true in Et as [e Et]. exists (os ++ [o]). simpl.
        do 4 (split; [assumption|]). split; [discriminate|]. intros _. rewrite Et. discriminate.
      * apply bool_decide_eq_false, eq_None_not_Some in Et.
        assert (Hnext : forall c', drain_inv (mkDrain (d_report (read_once s0)) 0 true
            (round_idle (read_once s0)) (last_frame_at (read_once s0)) (d_bus (read_once s0)) c') (os ++ [o])).
        { intros c'. split; simpl; auto; try lia. intros _. split; [exact Et|].
          intros Hri. rewrite Hri in Hi. auto. }
        destruct (round_idle (read_once s0)) eqn:Eri; [|eauto].
        destruct (after_idle_round dl max_att sources (read_once s0)) as [out|c'] eqn:Eo; [|eauto].
        apply after_idle_round_out in Eo as (cc & Hout & Hcc). destruct out as [[r b] c'].
        simpl in Hout. inv Hout. exists (os ++ [o]). simpl. do 4 (split; [assumption|]).
        split; [auto|]. destruct cc; discriminate.
Qed.

Lemma loop_sound (fuel : nat) (s : drain_state) (os : list (BusError + ReceiveAttempt)) :
  drain_inv s os -> (max_att < length os + fuel)%nat ->
  exists out, drain_loop fuel dl max_fr max_att sources s = Some out /\ report_sound out.
Proof.
  revert s os. induction fuel as [|fuel IH]; intros s os Hinv Hf.
  - pose proof (inv_attempts _ _ Hinv). lia.
  - simpl. pose proof (step_sound s os Hinv) as Hs.
    destruct (drain_step dl max_fr max_att sources s) as [out|s']; [eauto|].
    destruct Hs as [o Hs]. apply (IH s' (os ++ [o]) Hs). rewrite length_app. simpl. lia.
Qed.

End Bounds.

Lemma init_inv (max_fr max_att sources : nat) (bus : B) (c : clock) :
  (0 < sources)%nat ->
  drain_inv max_fr max_att sources (begin_receive bus) (drain_init bus c) [].
Proof.
  intros Hs. split; simpl; try lia; auto using reads_nil.
  - repeat split.
  - unfold delivered. simpl. lia.
  - intros _. split; [reflexivity|discriminate].
Qed.

(** Every poll returns, on a backend without sources and past the end of the host
    clock, too. *)
Lemma drain_total (bus : B) (c : clock) (limits : ReceiveLimits) : exists out, drain bus c limits = Some out.
Proof.
  assert (Hfrom : forall c' e, exists out, drain_from bus c' e limits = Some out).
  { intros c' e. unfold drain_from. destruct (Nat.eqb_spec (receive_source_count bus) 0) as [|Hn]; [eauto|].
    assert (Hs : (0 < receive_source_count bus)%nat) by lia.
    edestruct (loop_sound (earliest e (deadline limits)) (Nat.min (max_frames limits) MAX_RX_FRAMES_PER_POLL)
      (Nat.min (max_attempts limits) MAX_RX_ATTEMPTS_PER_POLL) (receive_source_count bus) (begin_receive bus) Hs
      (S (Nat.min (max_attempts limits) MAX_RX_ATTEMPTS_PER_POLL)) (drain_init bus c') [] (init_inv _ _ _ bus c' Hs)) as (out & E & _); [|eauto]. simpl. lia. }
  unfold drain. destruct (budget =? 0); [apply Hfrom|].
  destruct (now c) as [t c']. destruct (instant_checked_add t budget); [apply Hfrom|eauto].
Qed.

(** C17: every poll returns, within its bounds, and its report is exactly what the
    backend delivered: at most 64 frames and 256 read attempts (or the caller's
    narrower limits), every frame of those reads in order, the ignored ones
    counted, the first error kept with the number of frames before it.  A report
    that claims completeness (Idle or Quiet) ends with one whole round in which
    every source was found empty and carries no error; a Failed report carries
    its error. *)
Theorem drain_returns_sound_report (bus : B) (c : clock) (limits : ReceiveLimits)
  (Hs : (0 < receive_source_count bus)%nat)
  (Hb : (now c).1 + budget < INSTANT_LIMIT) :
  exists out, drain bus c limits = Some out /\
    report_sound (Nat.min (max_frames limits) MAX_RX_FRAMES_PER_POLL)
      (Nat.min (max_attempts limits) MAX_RX_ATTEMPTS_PER_POLL)
      (receive_source_count bus) (begin_receive bus) out.
Proof.
  assert (Hfrom : forall c' e, exists out, drain_from bus c' e limits = Some out /\
    report_sound (Nat.min (max_frames limits) MAX_RX_FRAMES_PER_POLL)
      (Nat.min (max_attempts limits) MAX_RX_ATTEMPTS_PER_POLL)
      (receive_source_count bus) (begin_receive bus) out).
  { intros c' e. unfold drain_from.
    destruct (Nat.eqb_spec (receive_source_count bus) 0); [lia|].
    apply (loop_sound _ _ _ _ _ Hs _ _ [] (init_inv _ _ _ bus c' Hs)). simpl. lia. }
  unfold drain. destruct (budget =? 0); [apply Hfrom|].
  destruct (now c) as [t c'] eqn:En. unfold instant_checked_add.
  simpl in Hb. apply Z.ltb_lt in Hb. rewrite Hb. apply Hfrom.
Qed.

End Drain.

Definition idle_limits : ReceiveLimits := limits_default.
Definition steady : clock := mkClock (fun n => Z.of_nat n * 1000) 0 0.
Definition one_frame_bus : MemoryBus :=
  mkMemoryBus [] [mkCanFrame (Comm.encode_default_enable 11).1 (Comm.encode_default_enable 11).2 true].

Lemma drain_returns_sound_report_witness :
  exists out, drain 5000000 1000000 one_frame_bus steady idle_limits = Some out /\
    report_sound (Nat.min (max_frames idle_limits) MAX_RX_FRAMES_PER_POLL)
      (Nat.min (max_attempts idle_limits) MAX_RX_ATTEMPTS_PER_POLL)
      (receive_source_count one_frame_bus) (begin_receive one_frame_bus) out.
Proof.
  apply (drain_returns_sound_report 5000000 1000000 one_frame_bus steady idle_limits).
  - simpl. lia.
  - unfold INSTANT_LIMIT. simpl. lia.
Defined.

End Receive.

Module RxTime.

Definition MAX_KERNEL_RX_AGE : Z := 1000000000.

Record RxTimestampCounts : Type := mkCounts {
  kernel : Z;
  floored : Z;
  missing : Z;
  clock_backward : Z;
  stale : Z;
}.

Definition counts_default : RxTimestampCounts := mkCounts 0 0 0 0 0.

Definition anomalies (c : RxTimestampCounts) : Z := missing c + clock_backward c + stale c.

Inductive RxStampSource : Type := Kernel | Floored | Missing | ClockBackward | Stale.

(** [Instant::checked_sub]. *)
Definition instant_checked_sub (t d : Z) : option Z :=
  if - INSTANT_LIMIT <=? t - d then Some (t - d) else None.

Definition map_kernel_rx_time (kernel : option Z) (wall_at_read read_instant floor : Z)
  : Z * RxStampSource :=
  let floor := Z.min floor read_instant in
  match kernel with
  | None => (read_instant, Missing)
  | Some kernel =>
      if wall_at_read <? kernel then (read_instant, ClockBackward)
      else
        let age := wall_at_read - kernel in
        let stale := MAX_KERNEL_RX_AGE <? age in
        match instant_checked_sub read_instant age with
        | Some at_ =>
            if floor <=? at_ then (at_, if stale then Stale else Kernel)
            else (floor, if stale then Stale else Floored)
        | None => (floor, if stale then Stale else Floored)
        end
  end.

(** [SystemTime] as nanoseconds since the Unix epoch, seconds in 64 signed bits. *)
Definition wall_time_from_timespec (seconds nanoseconds : Z) : option Z :=
  if (1000000000 <=? nanoseconds) || ((seconds =? 0) && (nanoseconds =? 0)) then None
  else
    let t := seconds * 1000000000 + nanoseconds in
    if t <? INSTANT_LIMIT then Some t else None.

Record RxClock : Type := mkRxClock { floor : Z; counts : RxTimestampCounts }.

Definition rx_clock_new (opened : Z) : RxClock := mkRxClock opened counts_default.

Definition observe_empty (c : RxClock) (before_read : Z) : RxClock :=
  mkRxClock (Z.max (floor c) before_read) (counts c).

Definition bump (s : RxStampSource) (c : RxTimestampCounts) : RxTimestampCounts :=
  match s with
  | Kernel => mkCounts (kernel c + 1) (floored c) (missing c) (clock_backward c) (stale c)
  | Floored => mkCounts (kernel c) (floored c + 1) (missing c) (clock_backward c) (stale c)
  | Missing => mkCounts (kernel c) (floored c) (missing c + 1) (clock_backward c) (stale c)
  | ClockBackward => mkCounts (kernel c) (floored c) (missing c) (clock_backward c + 1) (stale c)
  | Stale => mkCounts (kernel c) (floored c) (missing c) (clock_backward c) (stale c + 1)
  end.

Definition stamp (c : RxClock) (kernel : option Z) (wall_at_read read_instant : Z) : Z * RxClock :=
  let '(at_, source) := map_kernel_rx_time kernel wall_at_read read_instant (floor c) in
  (at_, mkRxClock (Z.max (floor c) at_) (bump source (counts c))).

(** What happens on one socket: a read that found the queue empty, or a frame. *)
Inductive rx_event : Type :=
| Empty (before_read : Z)
| Stamped (kernel : option Z) (wall_at_read read_instant : Z).

Definition event_time (e : rx_event) : Z :=
  match e with Empty t => t | Stamped _ _ t => t end.

Definition rx_step (c : RxClock) (e : rx_event) : option Z * RxClock :=
  match e with
  | Empty t => (None, observe_empty c t)
  | Stamped k w t => let '(at_, c) := stamp c k w t in (Some at_, c)
  end.

(** The stamps given, each with the time of its read. *)
Fixpoint rx_run (c : RxClock) (es : list rx_event) : list (Z * Z) * RxClock :=
  match es with
  | [] => ([], c)
  | e :: rest =>
      let '(o, c) := rx_step c e in
      let '(os, c) := rx_run c rest in
      (match o with Some t => (t, event_time e) :: os | None => os end, c)
  end.

(** Host instants never go backwards. *)
Fixpoint times_from (t : Z) (es : list rx_event) : Prop :=
  match es with
  | [] => True
  | e :: rest => t <= event_time e /\ times_from (event_time e) rest
  end.

Fixpoint nondecreasing_from (t : Z) (l : list Z) : Prop :=
  match l with
  | [] => True
  | x :: rest => t <= x /\ nondecreasing_from x rest
  end.

Lemma map_kernel_rx_time_bounds (k : option Z) (w t f : Z) :
  Z.min f t <= (map_kernel_rx_time k w t f).1 <= t.
Proof.
  unfold map_kernel_rx_time, instant_checked_sub. destruct k as [k|]; simpl; [|lia].
  destruct (Z.ltb_spec w k); simpl; [lia|].
  destruct (_ <=? t - (w - k)); simpl; [|lia].
  destruct (Z.leb_spec (Z.min f t) (t - (w - k))); simpl; lia.
Qed.

Lemma rx_step_floor (c : RxClock) (e : rx_event) (t0 : Z) :
  floor c <= t0 -> t0 <= event_time e ->
  floor c <= floor (rx_step c e).2 <= event_time e /\
  (forall o, (rx_step c e).1 = Some o -> floor c <= o <= event_time e /\ floor (rx_step c e).2 = o).
Proof.
  intros Hf Ht. destruct e as [t|k w t]; simpl in *.
  - split; [lia|discriminate].
  - unfold stamp. pose proof (map_kernel_rx_time_bounds k w t (floor c)) as Hb.
    destruct (map_kernel_rx_time k w t (floor c)) as [o src]. simpl in *.
    split; [lia|]. intros o' [= <-]. lia.
Qed.

Lemma nondecreasing_weaken (t t' : Z) (l : list Z) :
  t <= t' -> nondecreasing_from t' l -> nondecreasing_from t l.
Proof. destruct l; simpl; intuition lia. Qed.

Lemma nondecreasing_all (t : Z) (l : list Z) :
  nondecreasing_from t l -> Forall (fun x => t <= x) l.
Proof.
  revert t. induction l as [|x l IH]; intros t; simpl; [constructor|]. intros [Hx Hl].
  constructor; [exact Hx|]. apply IH. now apply (nondecreasing_weaken _ x).
Qed.

(** The clock's floor only rises, and stays at or below the host's time. *)
Lemma rx_run_spec (es : list rx_event) (c : RxClock) (t0 : Z) :
  floor c <= t0 -> times_from t0 es ->
  nondecreasing_from (floor c) (map fst (rx_run c es).1) /\
  Forall (fun p => p.1 <= p.2) (rx_run c es).1 /\
  floor c <= floor (rx_run c es).2 /\
  (forall t, In (Empty t) es -> t <= floor (rx_run c es).2).
Proof.
  revert c t0. induction es as [|e es IH]; intros c t0 Hf Ht.
  { simpl. repeat split; try constructor; try lia; contradiction. }
  destruct Ht as [Ht Hts]. destruct (rx_step_floor c e t0 Hf Ht) as [Hfl Ho].
  cbn [rx_run]. destruct (rx_step c e) as [o c'] eqn:E. cbn [fst snd] in Hfl, Ho.
  destruct (IH c' (event_time e) ltac:(lia) Hts) as (IH1 & IH2 & IH3 & IH4).
  destruct (rx_run c' es) as [os c'']. cbn [fst snd] in *. repeat split.
  - destruct o as [o|]; [|apply (nondecreasing_weaken _ (floor c')); [lia|exact IH1]].
    destruct (Ho o eq_refl) as [? ?]. simpl. subst. split; [lia|exact IH1].
  - destruct o as [o|]; [|exact IH2]. destruct (Ho o eq_refl). constructor; [simpl; lia|exact IH2].
  - lia.
  - intros t [->|Hin]; [|now apply IH4]. inv E. simpl in *. lia.
Qed.

Lemma rx_run_end (es1 es2 : list rx_event) (c : RxClock) (t0 : Z) :
  floor c <= t0 -> times_from t0 (es1 ++ es2) ->
  exists t1, floor (rx_run c es1).2 <= t1 /\ times_from t1 es2.
Proof.
  revert c t0. induction es1 as [|e es1 IH]; intros c t0 Hf Ht; [simpl in *; eauto|].
  destruct Ht as [Ht Hts]. destruct (rx_step_floor c e t0 Hf Ht) as [Hfl _].
  cbn [rx_run]. destruct (rx_step c e) as [o c'] eqn:E. cbn [fst snd] in Hfl.
  destruct (IH c' (event_time e) ltac:(lia) Hts) as (t1 & ? & ?).
  destruct (rx_run c' es1). simpl in *. eauto.
Qed.

(** receive times never run backwards: on one socket, whatever the kernel's
    realtime stamps say (missing, stepped either way, stale), frames are stamped
    in nondecreasing order, never before the socket was opened nor before an
    instant at which its queue had been seen empty, and never after their read. *)
Theorem rx_stamps_ordered (es1 es2 : list rx_event) (opened : Z)
  (Ht : times_from opened (es1 ++ es2)) :
  let run := rx_run (rx_clock_new opened) (es1 ++ es2) in
  let later := rx_run (rx_run (rx_clock_new opened) es1).2 es2 in
  nondecreasing_from opened (map fst run.1) /\
  Forall (fun p => p.1 <= p.2) run.1 /\
  (forall t, In (Empty t) es1 -> Forall (fun x => t <= x) (map fst later.1)).
Proof.
  destruct (rx_run_spec (es1 ++ es2) (rx_clock_new opened) opened) as (H1 & H2 & _); [simpl; lia|exact Ht|].
  split; [exact H1|]. split; [exact H2|]. intros t Hin.
  destruct (rx_run_end es1 es2 (rx_clock_new opened) opened) as (t1 & Hf1 & Ht1); [simpl; lia|exact Ht|].
  destruct (rx_run_spec es2 _ t1 Hf1 Ht1) as (H3 & _).
  apply nondecreasing_all. eapply nondecreasing_weaken; [|exact H3].
  destruct (rx_run_spec es1 (rx_clock_new opened) opened) as (_ & _ & _ & H4); [simpl; lia| |now apply H4].
  clear - Ht. revert Ht. generalize opened. induction es1 as [|e es1 IH]; simpl; [auto|].
  intros t [? ?]. auto.
Qed.

Definition stall_events : list rx_event :=
  [Empty 1000; Stamped (Some 500) 2500 3000; Stamped None 2600 3100].

Lemma rx_stamps_ordered_witness :
  let run := rx_run (rx_clock_new 0) (stall_events ++ [Stamped (Some 9000) 2700 3200]) in
  let later := rx_run (rx_run (rx_clock_new 0) stall_events).2 [Stamped (Some 9000) 2700 3200] in
  nondecreasing_from 0 (map fst run.1) /\
  Forall (fun p => p.1 <= p.2) run.1 /\
  (forall t, In (Empty t) stall_events -> Forall (fun x => t <= x) (map fst later.1)).
Proof. apply (rx_stamps_ordered stall_events [Stamped (Some 9000) 2700 3200] 0). simpl. lia. Defined.

End RxTime.
