(* ===== verification/Feedback.v ===== *)
(** * Feedback ingestion

    Models the decoding half of [crates/robstride/src/bus.rs]
    ([feedback_from_raw], [ingest_feedback_frames], [ingest_host_echo],
    [ingest_reply_frame], [address_for_frame]) and the evidence types of
    [feedback.rs].  Raw frames become address-checked evidence: poses and status,
    version replies, detailed faults, malformed frames, identities, parameter
    reads, host echoes and kernel error frames. *)

From Stdlib Require Import ZArith Lia Bool SpecFloat Sorted.
From stdpp Require Import base strings list.
From S2P Require Import Prelude Float Comm Config Params Mit Wire Bus Receive.

Module Feedback.
Import Comm Params Mit Wire Bus Receive.

(** A [HashMap<MotorAddress, MotorType>] in its (unspecified) iteration order. *)
Abbreviation motor_map := (list (MotorAddress * Config.MotorType)).

Record MalformedFeedback : Type := mkMalformed {
  mf_raw : list Z;
  mf_payload_len : Z;
  mf_kind : RxFrameKind;
  mf_reason : MalformedReason;
  mf_status_flags : option Z;
  mf_drive_mode : option DriveMode;
}.

Inductive FeedbackEvent : Type :=
| EStatus (f : MitFeedback)
| EFirmwareVersion (v : FirmwareVersionFeedback)
| EDetailedFault (d : DetailedFaultFeedback)
| EMalformed (m : MalformedFeedback).

Record FeedbackObservation : Type := mkObservation {
  obs_order : nat;
  obs_address : MotorAddress;
  obs_received_at : Z;
  obs_can_id : Z;
  obs_event : FeedbackEvent;
}.

Record TransportObservation : Type := mkTransport { tr_order : nat; tr_frame : TimedCanFrame }.

Record IdentityObservation : Type := mkIdentity {
  id_order : nat;
  id_address : MotorAddress;
  id_received_at : Z;
  id_can_id : Z;
  id_uid : list Z;
}.

Record ParameterReadObservation : Type := mkParameterRead {
  prd_order : nat;
  prd_address : MotorAddress;
  prd_received_at : Z;
  prd_can_id : Z;
  prd_reply : ParameterReadReply;
}.

Inductive EchoedCommand : Type := EchoEnable | EchoReportingOff | EchoSetZero.

Record HostEchoObservation : Type := mkHostEcho {
  he_order : nat;
  he_address : MotorAddress;
  he_received_at : Z;
  he_can_id : Z;
  he_command : EchoedCommand;
}.

Record FeedbackReport : Type := mkFeedbackReport {
  observations : list FeedbackObservation;
  transport_frames : list TransportObservation;
  fr_completion : ReceiveCompletion;
  fr_ignored_frames : nat;
  raw_frames : nat;
  fr_read_attempts : nat;
  fr_terminal_error : option BusError;
  fr_terminal_error_order : option nat;
  identities : list IdentityObservation;
  parameter_reads : list ParameterReadObservation;
  host_echoes : list HostEchoObservation;
}.

(** One piece of evidence pushed on a report. *)
Inductive evidence : Type :=
| OnObservation (o : FeedbackObservation)
| OnTransport (t : TransportObservation)
| OnIdentity (i : IdentityObservation)
| OnParameterRead (p : ParameterReadObservation)
| OnHostEcho (h : HostEchoObservation).

Definition push (r : FeedbackReport) (e : evidence) : FeedbackReport :=
  let '(mkFeedbackReport obs tr c ig raw att err eo ids prs echoes) := r in
  match e with
  | OnObservation o => mkFeedbackReport (obs ++ [o]) tr c ig raw att err eo ids prs echoes
  | OnTransport t => mkFeedbackReport obs (tr ++ [t]) c ig raw att err eo ids prs echoes
  | OnIdentity i => mkFeedbackReport obs tr c ig raw att err eo (ids ++ [i]) prs echoes
  | OnParameterRead p => mkFeedbackReport obs tr c ig raw att err eo ids (prs ++ [p]) echoes
  | OnHostEcho h => mkFeedbackReport obs tr c ig raw att err eo ids prs (echoes ++ [h])
  end.

Definition address_for_frame (motor_types : motor_map) (itf : option string) (device_id : Z)
  : option (MotorAddress * Config.MotorType) :=
  let matches := filter (fun p => device p.1 = device_id) motor_types in
  match itf with
  | Some itf => find_first (fun p => String.eqb (interface p.1) itf) matches
  | None => match matches with [p] => Some p | _ => None end
  end.

Definition echoed_frame (c : EchoedCommand) (device_id : Z) : frame :=
  match c with
  | EchoEnable => encode_default_enable device_id
  | EchoReportingOff => encode_default_active_reporting device_id false
  | EchoSetZero => encode_default_set_zero_position device_id
  end.

Definition ingest_host_echo (motor_types : motor_map) (order : nat) (timed : TimedCanFrame)
  (command : EchoedCommand) : option evidence :=
  let received := received timed in
  let f := rx_frame received in
  let device_id := as_u8 (Z.land (cf_id f) 255) in
  let '(id, data) := echoed_frame command device_id in
  if bool_decide (rx_kind received = Data) && (cf_id f =? id)
     && bool_decide (payload received = Some data)
  then
    a ← address_for_frame motor_types (rx_interface received) device_id;
    Some (OnHostEcho (mkHostEcho order a.1 (received_at timed) (cf_id f) command))
  else None.

Definition ingest_reply_frame (motor_types : motor_map) (order : nat) (timed : TimedCanFrame)
  (c : CommunicationType) : option evidence :=
  let received := received timed in
  let f := rx_frame received in
  p ← payload received;
  if negb (bool_decide (rx_kind received = Data) && (length p =? 8)%nat) then None
  else
    match c with
    | GetDeviceId =>
        reply ← decode_device_id_reply (cf_id f) p;
        a ← address_for_frame motor_types (rx_interface received) (reply_device_id reply);
        Some (OnIdentity (mkIdentity order a.1 (received_at timed) (cf_id f) (reply_uid reply)))
    | _ =>
        reply ← decode_read_parameter_reply DEFAULT_HOST_ID (cf_id f) p;
        a ← address_for_frame motor_types (rx_interface received) (pr_device_id reply);
        Some (OnParameterRead (mkParameterRead order a.1 (received_at timed) (cf_id f) reply))
    end.

Definition status_type (c : CommunicationType) : bool :=
  match c with OperationStatus | ActiveReporting => true | _ => false end.

Definition malformed_reason (r : ReceivedCanFrame) : option MalformedReason :=
  match payload r with
  | None => Some InvalidEnvelope
  | Some _ =>
      if negb (bool_decide (rx_kind r = Data)) then Some NonDataFrame
      else if negb (rx_payload_len r =? 8) then Some (PayloadLength (rx_payload_len r))
      else None
  end.

(** The event of a status, report or fault frame. *)
Definition feedback_event (t : Config.MotorType) (c : CommunicationType) (r : ReceivedCanFrame)
  : option FeedbackEvent :=
  let f := rx_frame r in
  match malformed_reason r with
  | Some reason =>
      let status_header := bool_decide (rx_kind r = Data) && status_type c in
      let '(drive_mode, status_flags) := decode_status_header (cf_id f) in
      Some (EMalformed (mkMalformed (cf_data f) (rx_payload_len r) (rx_kind r) reason
        (if status_header then Some status_flags else None)
        (if status_header then Some drive_mode else None)))
  | None =>
      match c with
      | OperationStatus | ActiveReporting =>
          Some (match decode_firmware_version_reply (cf_id f) (cf_data f) with
                | Some version => EFirmwareVersion version
                | None => EStatus (decode_status_payload t c (cf_id f) (cf_data f))
                end)
      | FaultReport => Some (EDetailedFault (mkDetailedFault (cf_data f)))
      | _ => None
      end
  end.

(** The body of the loop of [ingest_feedback_frames]: the evidence a frame is. *)
Definition ingest_frame (motor_types : motor_map) (order : nat) (timed : TimedCanFrame)
  : option evidence :=
  let received := received timed in
  let f := rx_frame received in
  if bool_decide (rx_kind received = Error) then Some (OnTransport (mkTransport order timed))
  else if negb (cf_extended f) then None
  else
    ext ← unpack_ext_id (cf_id f);
    c ← from_u8 (comm_type ext);
    match c with
    | GetDeviceId | ReadParameter => ingest_reply_frame motor_types order timed c
    | Enable => ingest_host_echo motor_types order timed EchoEnable
    | SetZeroPosition => ingest_host_echo motor_types order timed EchoSetZero
    | _ =>
        let device_id := inbound_motor_device_id (cf_id f) c in
        if device_id =? DEFAULT_HOST_ID then
          match c with
          | ActiveReporting => ingest_host_echo motor_types order timed EchoReportingOff
          | _ => None
          end
        else
          a ← address_for_frame motor_types (rx_interface received) device_id;
          match c with
          | OperationStatus | ActiveReporting | FaultReport =>
              event ← feedback_event a.2 c received;
              Some (OnObservation (mkObservation order a.1 (received_at timed) (cf_id f) event))
          | _ => None
          end
    end.

Fixpoint ingest_from (motor_types : motor_map) (order : nat) (r : FeedbackReport)
  (fs : list TimedCanFrame) : FeedbackReport :=
  match fs with
  | [] => r
  | f :: rest =>
      let r := match ingest_frame motor_types order f with Some e => push r e | None => r end in
      ingest_from motor_types (S order) r rest
  end.

Definition ingest_feedback_frames (motor_types : motor_map) (r : FeedbackReport)
  (fs : list TimedCanFrame) : FeedbackReport := ingest_from motor_types 0 r fs.

Definition is_nil {A : Type} (l : list A) : bool := match l with [] => true | _ => false end.

Definition feedback_from_raw (motor_types : motor_map) (raw : RawReceiveReport) (budget : Z)
  : FeedbackReport :=
  let start := mkFeedbackReport [] [] (completion raw) (ignored_frames raw)
    (length (frames raw) + ignored_frames raw) (read_attempts raw) (terminal_error raw)
    (terminal_error_order raw) [] [] [] in
  let r := ingest_feedback_frames motor_types start (frames raw) in
  if negb (budget =? 0) && is_nil (observations r) && is_nil (host_echoes r)
     && is_nil (transport_frames r) && is_nil (identities r) && is_nil (parameter_reads r)
     && negb (bool_decide (is_Some (fr_terminal_error r)))
  then let '(mkFeedbackReport obs tr c ig n att _ eo ids prs echoes) := r in
       mkFeedbackReport obs tr c ig n att (Some RecvTimeout) eo ids prs echoes
  else r.

(** [recv_feedback_report_with_limits]: one drain, then the decoding. *)
Definition recv_feedback_report {B : Type} `{CanBus B} (motor_types : motor_map)
  (budget quiet : Z) (limits : ReceiveLimits) (bus : B) (c : clock)
  : option (FeedbackReport * B * clock) :=
  '(raw, bus, c) ← drain budget quiet bus c limits;
  Some (feedback_from_raw motor_types raw budget, bus, c).

(** ** Evidence in delivery order *)

Definition order_of (e : evidence) : nat :=
  match e with
  | OnObservation o => obs_order o
  | OnTransport t => tr_order t
  | OnIdentity i => id_order i
  | OnParameterRead p => prd_order p
  | OnHostEcho h => he_order h
  end.

Definition as_observation (e : evidence) : option FeedbackObservation :=
  match e with OnObservation o => Some o | _ => None end.

Fixpoint evidence_from (mt : motor_map) (order : nat) (fs : list TimedCanFrame) : list evidence :=
  match fs with
  | [] => []
  | f :: rest => option_list (ingest_frame mt order f) ++ evidence_from mt (S order) rest
  end.

Lemma ingest_from_push (mt : motor_map) (fs : list TimedCanFrame) (n : nat) (r : FeedbackReport) :
  ingest_from mt n r fs = foldl push r (evidence_from mt n fs).
Proof.
  revert n r. induction fs as [|f fs IH]; intros n r; [reflexivity|].
  cbn [ingest_from evidence_from]. rewrite IH.
  destruct (ingest_frame mt n f); reflexivity.
Qed.

Lemma push_observations (es : list evidence) (r : FeedbackReport) :
  observations (foldl push r es) = observations r ++ omap as_observation es.
Proof.
  revert r. induction es as [|e es IH]; intros r; [now rewrite app_nil_r|].
  cbn [foldl omap list_omap]. rewrite IH. destruct r, e; simpl; now rewrite <- ?app_assoc.
Qed.

Lemma report_observations (mt : motor_map) (raw : RawReceiveReport) (budget : Z) :
  observations (feedback_from_raw mt raw budget) = omap as_observation (evidence_from mt 0 (frames raw)).
Proof.
  unfold feedback_from_raw, ingest_feedback_frames. rewrite ingest_from_push.
  set (r0 := mkFeedbackReport _ _ _ _ _ _ _ _ _ _ _).
  assert (H : observations (foldl push r0 (evidence_from mt 0 (frames raw)))
              = omap as_observation (evidence_from mt 0 (frames raw)))
    by (now rewrite push_observations).
  destruct (_ && _); [|exact H]. destruct (foldl push r0 _). exact H.
Qed.

(** ** Addresses *)

Lemma address_for_frame_in (mt : motor_map) (itf : option string) (dev : Z)
  (a : MotorAddress) (t : Config.MotorType) :
  address_for_frame mt itf dev = Some (a, t) ->
  (a, t) ∈ mt /\ device a = dev /\ (forall i, itf = Some i -> interface a = i).
Proof.
  unfold address_for_frame.
  assert (Hf : forall p, p ∈ filter (fun p => device p.1 = dev) mt -> p ∈ mt /\ device p.1 = dev)
    by (intros p Hp; apply list_elem_of_filter in Hp; tauto).
  destruct itf as [i|].
  - intros H. apply find_first_some in H as [Hin Hi]. apply list_elem_of_In, Hf in Hin as [? ?].
    apply String.eqb_eq in Hi. repeat split; auto. intros i' [= <-]. exact Hi.
  - destruct (filter _ mt) as [|p [|q l]] eqn:E; try discriminate. intros [= ->].
    destruct (Hf (a, t)) as [? ?]; [rewrite ?E; left|]. repeat split; auto. discriminate.
Qed.

(** The configured entry of an interface-qualified address. *)
Lemma address_for_frame_found (mt : motor_map) (a : MotorAddress) (t : Config.MotorType) :
  NoDup mt.*1 -> (a, t) ∈ mt -> address_for_frame mt (Some (interface a)) (device a) = Some (a, t).
Proof.
  intros Hn Hin. destruct (address_for_frame mt (Some (interface a)) (device a)) as [[a' t']|] eqn:E.
  - apply address_for_frame_in in E as (Hin' & Hd & Hi). specialize (Hi _ eq_refl).
    assert (a' = a) as -> by (destruct a, a'; simpl in *; congruence).
    do 2 f_equal. apply list_elem_of_lookup in Hin as [i Hi1]. apply list_elem_of_lookup in Hin' as [j Hj1].
    assert (i = j) as ->; [|congruence].
    apply (NoDup_lookup mt.*1 i j a Hn); rewrite list_lookup_fmap; [rewrite Hi1|rewrite Hj1]; reflexivity.
  - exfalso. unfold address_for_frame in E. rewrite find_first_none in E.
    specialize (E (a, t)). simpl in E. rewrite String.eqb_refl in E. discriminate E.
    apply list_elem_of_In, list_elem_of_filter. auto.
Qed.

Lemma address_for_frame_none_qualified (mt : motor_map) (dev : Z) :
  (exists p, address_for_frame mt None dev = Some p) <->
  length (filter (fun p => device p.1 = dev) mt) = 1%nat.
Proof.
  unfold address_for_frame. destruct (filter _ mt) as [|p [|q l]]; simpl; split;
    intros H; try discriminate; try (destruct H; discriminate); eauto.
Qed.

(** routing does not depend on hash order: two iteration orders of the same
    configuration (addresses unique) attribute every received frame to the same
    motor, or both leave it unattributed. *)
Theorem address_for_frame_order_irrelevant (mt mt' : motor_map) (itf : option string) (dev : Z)
  (Hn : NoDup mt.*1) (Hp : mt ≡ₚ mt') :
  address_for_frame mt itf dev = address_for_frame mt' itf dev.
Proof.
  assert (Hn' : NoDup mt'.*1) by (now rewrite <- Hp).
  destruct itf as [i|].
  - destruct (address_for_frame mt (Some i) dev) as [[a t]|] eqn:E1.
    + apply address_for_frame_in in E1 as (Hin & <- & Hi). rewrite <- (Hi _ eq_refl).
      symmetry. apply (address_for_frame_found mt' a t); [assumption|now rewrite <- Hp].
    + destruct (address_for_frame mt' (Some i) dev) as [[a t]|] eqn:E2; [|reflexivity].
      apply address_for_frame_in in E2 as (Hin & <- & Hi). rewrite <- (Hi _ eq_refl) in E1.
      rewrite (address_for_frame_found mt a t) in E1; [discriminate|assumption|now rewrite Hp].
  - unfold address_for_frame.
    assert (H : filter (fun p : MotorAddress * Config.MotorType => device p.1 = dev) mt
                ≡ₚ filter (fun p : MotorAddress * Config.MotorType => device p.1 = dev) mt')
      by (now rewrite Hp).
    destruct (filter _ mt) as [|p [|q l]].
    + apply Permutation_nil in H. now rewrite H.
    + apply Permutation_singleton_l in H. now rewrite <- H.
    + apply Permutation_length in H. destruct (filter _ mt') as [|p' [|q' l']]; simpl in H; try lia.
      reflexivity.
Qed.

Definition two_arm_map : motor_map :=
  [(mkAddress "can0" 11, Config.Rs03); (mkAddress "can1" 11, Config.Rs04); (mkAddress "can1" 12, Config.Rs02)].

Lemma address_for_frame_order_irrelevant_witness :
  address_for_frame two_arm_map (Some "can1") 11
  = address_for_frame (reverse two_arm_map) (Some "can1") 11.
Proof.
  apply (address_for_frame_order_irrelevant two_arm_map (reverse two_arm_map)).
  - apply (bool_decide_unpack _). vm_compute. exact I.
  - symmetry. apply reverse_Permutation.
Defined.

(** ** Evidence soundness *)

(** What an observation owes to the frame it came from. *)
Definition observes (mt : motor_map) (timed : TimedCanFrame) (o : FeedbackObservation) : Prop :=
  obs_received_at o = received_at timed /\ obs_can_id o = cf_id (rx_frame (received timed)) /\
  cf_extended (rx_frame (received timed)) = true /\
  exists ext c t,
    unpack_ext_id (obs_can_id o) = Some ext /\ from_u8 (comm_type ext) = Some c /\
    In c [OperationStatus; ActiveReporting; FaultReport] /\
    (obs_address o, t) ∈ mt /\ device (obs_address o) = inbound_motor_device_id (obs_can_id o) c /\
    (forall i, rx_interface (received timed) = Some i -> interface (obs_address o) = i) /\
    feedback_event t c (received timed) = Some (obs_event o).

Lemma ingest_frame_order (mt : motor_map) (n : nat) (timed : TimedCanFrame) (e : evidence) :
  ingest_frame mt n timed = Some e -> order_of e = n.
Proof.
  unfold ingest_frame, ingest_reply_frame, ingest_host_echo.
  destruct (bool_decide _); [intros [= <-]; reflexivity|].
  destruct (negb _); [discriminate|]. intros H.
  apply bind_Some in H as (ext & _ & H). apply bind_Some in H as (c & _ & H).
  destruct c; cbv iota in H;
  repeat match type of H with
  | (_ ≫= _) = Some _ => apply bind_Some in H as (? & _ & H)
  | (let '(_, _) := ?p in _) = Some _ => destruct p
  | (if ?b then _ else _) = Some _ => destruct b; try discriminate H
  | None = Some _ => discriminate H
  | Some _ = Some _ => inv H; reflexivity
  end.
Qed.

Lemma ingest_frame_observes (mt : motor_map) (n : nat) (timed : TimedCanFrame) (o : FeedbackObservation) :
  ingest_frame mt n timed = Some (OnObservation o) -> observes mt timed o.
Proof.
  unfold ingest_frame, ingest_reply_frame, ingest_host_echo.
  destruct (bool_decide _); [discriminate|].
  destruct (cf_extended _) eqn:Ex; simpl negb; [|discriminate]. intros H.
  apply bind_Some in H as (ext & Hu & H). apply bind_Some in H as (c & Hc & H).
  assert (Hobs : In c [OperationStatus; ActiveReporting; FaultReport] ->
    (a ← address_for_frame mt (rx_interface (received timed))
           (inbound_motor_device_id (cf_id (rx_frame (received timed))) c);
     event ← feedback_event a.2 c (received timed);
     Some (OnObservation (mkObservation n a.1 (received_at timed)
             (cf_id (rx_frame (received timed))) event))) = Some (OnObservation o) ->
    observes mt timed o).
  { intros Hin Ho. apply bind_Some in Ho as ([a t] & Ha & Ho). apply bind_Some in Ho as (ev & He & Ho).
    apply address_for_frame_in in Ha as (Hm & Hd & Hi). inv Ho.
    split; [reflexivity|]. split; [reflexivity|]. split; [exact Ex|].
    exists ext, c, t. repeat split; auto. }
  destruct c; cbv iota in H; simpl inbound_motor_device_id in *;
  repeat match type of H with
  | (if _ =? _ then _ else _) = Some _ => destruct (_ =? _) eqn:?
  | (let '(_, _) := ?p in _) = Some _ => destruct p
  | (if ?b then _ else _) = Some _ => destruct b; try discriminate H
  end; try discriminate H;
  try (apply Hobs; [simpl; tauto|exact H]);
  repeat (apply bind_Some in H as (? & _ & H); cbv iota beta in H); try discriminate H.
  all: repeat (first [discriminate H | match type of H with
       | (if ?b then _ else _) = Some _ => destruct b end
       | apply bind_Some in H as (? & _ & H)]).
Qed.

Lemma evidence_from_elem (mt : motor_map) (fs : list TimedCanFrame) (n : nat) (e : evidence) :
  e ∈ evidence_from mt n fs <->
  exists k timed, fs !! k = Some timed /\ ingest_frame mt (n + k) timed = Some e.
Proof.
  revert n. induction fs as [|f fs IH]; intros n; cbn [evidence_from].
  - split; [intros H; now apply elem_of_nil in H|intros (k & t & H & _); discriminate].
  - assert (Ho : e ∈ option_list (ingest_frame mt n f) <-> ingest_frame mt n f = Some e).
    { destruct (ingest_frame mt n f); simpl; rewrite ?list_elem_of_singleton, ?elem_of_nil;
        intuition congruence. }
    rewrite elem_of_app, IH, Ho. split.
    + intros [H|(k & t & H1 & H2)]; [exists 0%nat, f; rewrite Nat.add_0_r; auto|].
      exists (S k), t. split; [exact H1|]. now rewrite Nat.add_succ_r.
    + intros ([|k] & t & H1 & H2); simpl in H1.
      * left. rewrite Nat.add_0_r in H2. congruence.
      * right. exists k, t. rewrite Nat.add_succ_r in H2. auto.
Qed.

Lemma evidence_sorted (mt : motor_map) (fs : list TimedCanFrame) (n : nat) :
  StronglySorted (fun a b => (order_of a < order_of b)%nat) (evidence_from mt n fs).
Proof.
  revert n. induction fs as [|f fs IH]; intros n; cbn [evidence_from]; [constructor|].
  destruct (ingest_frame mt n f) as [e|] eqn:E; simpl; [|apply IH].
  constructor; [apply IH|]. apply Forall_forall. intros e' He'.
  apply evidence_from_elem in He' as (k & t & _ & He').
  apply ingest_frame_order in E, He'. lia.
Qed.

Lemma sorted_observations (es : list evidence) :
  StronglySorted (fun a b => (order_of a < order_of b)%nat) es ->
  StronglySorted (fun a b => (obs_order a < obs_order b)%nat) (omap as_observation es).
Proof.
  induction 1 as [|e es Hs IH Hf]; [constructor|]. cbn [omap list_omap].
  destruct e as [o|t|i|p|h]; simpl; try exact IH. constructor; [exact IH|].
  apply Forall_forall. intros o' Ho'. apply list_elem_of_omap in Ho' as (e' & He' & Ho').
  rewrite Forall_forall in Hf. specialize (Hf e' He'). destruct e'; inv Ho'. exact Hf.
Qed.

(** feedback is what the drives sent: every observation of a report comes from
    the raw frame at its order, with that frame's time and identifier, is
    attributed to a configured motor whose device id the identifier carries (on
    the interface the frame came from, when known), decodes a status, report or
    fault frame, and observations keep strict delivery order. *)
Theorem observations_sound (mt : motor_map) (raw : RawReceiveReport) (budget : Z) :
  StronglySorted (fun a b => (obs_order a < obs_order b)%nat)
    (observations (feedback_from_raw mt raw budget)) /\
  Forall (fun o => exists timed, frames raw !! obs_order o = Some timed /\ observes mt timed o)
    (observations (feedback_from_raw mt raw budget)).
Proof.
  rewrite report_observations. split; [apply sorted_observations, evidence_sorted|].
  apply Forall_forall. intros o Ho. apply list_elem_of_omap in Ho as (e & He & Ho).
  apply evidence_from_elem in He as (k & timed & Hk & He). destruct e; inv Ho.
  pose proof (ingest_frame_order _ _ _ _ He) as Ho. simpl in Ho. subst.
  exists timed. split; [exact Hk|]. eapply ingest_frame_observes. exact He.
Qed.

(** A complete status, report or fault frame from a drive. *)
Definition drive_feedback (timed : TimedCanFrame) (a : MotorAddress) (c : CommunicationType)
  (m : DriveMode) (flags : Z) : Prop :=
  In c [OperationStatus; ActiveReporting; FaultReport] /\
  rx_interface (received timed) = Some (interface a) /\
  rx_kind (received timed) = Data /\ rx_payload_len (received timed) = 8 /\
  length (cf_data (rx_frame (received timed))) = 8%nat /\
  cf_extended (rx_frame (received timed)) = true /\
  cf_id (rx_frame (received timed)) = pack_typed_ext_id c (status_extra m flags (device a)) DEFAULT_HOST_ID /\
  is_u8 (device a) /\ 0 <= flags < 64.

Lemma default_host_u8 : is_u8 DEFAULT_HOST_ID.
Proof. unfold is_u8, U8_MAX, DEFAULT_HOST_ID. lia. Qed.

Lemma complete_payload (timed : TimedCanFrame) :
  rx_kind (received timed) = Data -> rx_payload_len (received timed) = 8 ->
  malformed_reason (received timed) = None.
Proof.
  intros Hk Hl. unfold malformed_reason, payload. rewrite Hk, Hl. reflexivity.
Qed.

Lemma complete_event (t : Config.MotorType) (c : CommunicationType) (timed : TimedCanFrame) :
  In c [OperationStatus; ActiveReporting; FaultReport] ->
  malformed_reason (received timed) = None ->
  exists ev, feedback_event t c (received timed) = Some ev.
Proof.
  intros Hin Hm. unfold feedback_event. rewrite Hm. simpl in Hin.
  intuition (subst; eauto).
Qed.

(** no configured drive's evidence is lost: a complete status, report or fault
    frame from a configured motor (other than one using the host's id) always
    becomes an observation of that motor at its place in the drain, whatever else
    is in the batch. *)
Theorem drive_feedback_not_lost (mt : motor_map) (raw : RawReceiveReport) (budget : Z) (k : nat)
  (timed : TimedCanFrame) (a : MotorAddress) (t : Config.MotorType) (c : CommunicationType)
  (m : DriveMode) (flags : Z)
  (Hn : NoDup mt.*1) (Ha : (a, t) ∈ mt) (Hk : frames raw !! k = Some timed)
  (Hd : drive_feedback timed a c m flags) (Hh : device a <> DEFAULT_HOST_ID) :
  exists ev, feedback_event t c (received timed) = Some ev /\
    mkObservation k a (received_at timed) (cf_id (rx_frame (received timed))) ev
      ∈ observations (feedback_from_raw mt raw budget).
Proof.
  destruct Hd as (Hin & Hi & Hkind & Hlen & _ & Hx & Hid & Hu & Hfl).
  destruct (complete_event t c timed Hin (complete_payload timed Hkind Hlen)) as [ev Hev].
  exists ev. split; [exact Hev|]. rewrite report_observations.
  apply list_elem_of_omap.
  exists (OnObservation (mkObservation k a (received_at timed) (cf_id (rx_frame (received timed))) ev)).
  split; [|reflexivity]. apply evidence_from_elem. exists k, timed. split; [exact Hk|]. rewrite Nat.add_0_l.
  unfold ingest_frame. rewrite Hkind, Hx, Hid, Hi, (unpack_pack_typed c)
    by first [exact default_host_u8 | now apply status_extra_range].
  cbn [negb bool_decide mbind option_bind comm_type]. rewrite from_u8_as_u8.
  cbn [mbind option_bind].
  rewrite (inbound_status_device c m flags (device a) DEFAULT_HOST_ID Hin Hfl Hu default_host_u8).
  rewrite (proj2 (Z.eqb_neq _ _) Hh), (address_for_frame_found mt a t Hn Ha).
  cbn [mbind option_bind fst snd]. rewrite Hev.
  destruct c; simpl in Hin; try (intuition discriminate); reflexivity.
Qed.

Definition status_timed : TimedCanFrame :=
  mkTimed 5000 (full_data (Some "can1")
    (mkCanFrame (pack_typed_ext_id OperationStatus (status_extra Run 0 12) DEFAULT_HOST_ID) zeros8 true)).

Lemma drive_feedback_not_lost_witness :
  exists ev, feedback_event Config.Rs02 OperationStatus (received status_timed) = Some ev /\
    mkObservation 0 (mkAddress "can1" 12) (received_at status_timed)
      (cf_id (rx_frame (received status_timed))) ev
      ∈ observations (feedback_from_raw two_arm_map (mkReport [status_timed] 0 Idle 2 None None) 0).
Proof.
  apply (drive_feedback_not_lost two_arm_map (mkReport [status_timed] 0 Idle 2 None None) 0 0
           status_timed (mkAddress "can1" 12) Config.Rs02 OperationStatus Run 0).
  - apply (bool_decide_unpack _). vm_compute. exact I.
  - right. right. left.
  - reflexivity.
  - repeat split; simpl; auto; unfold is_u8, U8_MAX; simpl; lia.
  - discriminate.
Defined.

End Feedback.
