(* ===== verification/Reporting.v ===== *)
(** * Active reporting (type-24): leases and paced writes

    Models [crates/davout/src/active_reporting.rs]: which drives should stream
    (leases, global diagnostics), which do as far as accepted writes tell, and
    [sync_holding], the pass that writes the difference at most one frame per
    interface and control period.  The operations are written against the
    [CanBus] interface; the theorems observe them through a backend that records
    every attempted write. *)

From Stdlib Require Import ZArith Lia Bool String Ascii.
From stdpp Require Import base gmap strings list sorting.
From S2P Require Import Prelude Float Comm Config Validate Params Mit Bus.

Module Reporting.
Import Bus.

(** Nanoseconds. *)
Definition DEFAULT_LEASE_TTL : Z := 30000000000.
Definition ACTIVE_REPORTING_HEARTBEAT : Z := 1000000000.
Definition ACTIVE_REPORTING_WRITE_SPACING : Z := 5000000.
Definition ACTIVE_REPORTING_FEEDBACK_STALE : Z := 200000000.

Definition MAX_LEASE_ID_LEN : nat := 64.
Definition MAX_CLIENT_ID_LEN : nat := 64.
Definition MAX_LEASES_PER_JOINT : nat := 8.

Record LeaseEntry : Type := mkLease { client_id : string; expires : Z }.

Record ActiveReportingState : Type := mkReporting {
  leases : gmap string (gmap string LeaseEntry);
  applied : gmap string bool;
  last_enable_tx : gmap string Z;
  heartbeat_cursor : nat;
  last_heartbeat_attempt : option Z;
  last_write_by_interface : gmap string Z;
  off_written_at : gmap string Z;
}.

Definition reporting_default : ActiveReportingState := mkReporting ∅ ∅ ∅ 0 None ∅ ∅.

Definition with_leases (s : ActiveReportingState) (l : gmap string (gmap string LeaseEntry)) :=
  mkReporting l (applied s) (last_enable_tx s) (heartbeat_cursor s) (last_heartbeat_attempt s)
    (last_write_by_interface s) (off_written_at s).

Inductive ActiveReportingLeaseError : Type :=
| LUnknownJoint (joint : string)
| LInvalidLeaseId
| LInvalidClientId
| LInvalidTtl
| LTooManyLeases (joint : string)
| LMissingLease (joint lease_id : string).

(** [Instant::saturating_duration_since]. *)
Definition since (last now : Z) : Z := Z.max 0 (now - last).

(** ** Leases *)

(** [str::trim] on ASCII strings. *)
Fixpoint trim_start (s : string) : string :=
  match s with
  | EmptyString => EmptyString
  | String c rest => if Validate.is_ascii_whitespace c then trim_start rest else s
  end.

Fixpoint trim_end (s : string) : string :=
  match s with
  | EmptyString => EmptyString
  | String c rest =>
      match trim_end rest with
      | EmptyString => if Validate.is_ascii_whitespace c then EmptyString else String c EmptyString
      | rest => String c rest
      end
  end.

Definition trim (s : string) : string := trim_end (trim_start s).

Definition bad_id (limit : nat) (s : string) : bool :=
  (String.length s =? 0)%nat || (limit <? String.length s)%nat.

Definition validate_ids (client_id lease_id : string) : result ActiveReportingLeaseError unit :=
  refuse_if (bad_id MAX_CLIENT_ID_LEN (trim client_id)) LInvalidClientId ;!
  refuse_if (bad_id MAX_LEASE_ID_LEN (trim lease_id)) LInvalidLeaseId.

Definition ensure_known_joint (joint : string) (known : list Config.MotorEntry)
  : result ActiveReportingLeaseError unit :=
  refuse_if (negb (existsb (fun m => bool_decide (Config.joint m = joint)) known))
    (LUnknownJoint joint).

(** [self.leases.get(joint)] with the missing joint read as no leases. *)
Definition joint_leases (s : ActiveReportingState) (joint : string) : gmap string LeaseEntry :=
  default ∅ (leases s !! joint).

Definition live (now : Z) (m : gmap string LeaseEntry) : gmap string LeaseEntry :=
  filter (fun p => now < expires p.2) m.

Definition has_live_lease (s : ActiveReportingState) (joint : string) (now : Z) : bool :=
  existsb (fun p => now <? expires p.2) (map_to_list (joint_leases s joint)).

Definition expire_stale (s : ActiveReportingState) (now : Z) : bool * ActiveReportingState :=
  let changed := existsb (fun p => negb (size (live now p.2) =? size p.2)%nat)
                   (map_to_list (leases s)) in
  (changed,
   with_leases s (omap (fun by_id => let kept := live now by_id in
                                     if bool_decide (kept = ∅) then None else Some kept) (leases s))).

(** The state is unchanged when an error is returned: a full joint already has
    its entry. *)
Definition acquire (s : ActiveReportingState) (joint cid lid : string) (ttl now : Z)
  (known : list Config.MotorEntry) : result ActiveReportingLeaseError ActiveReportingState :=
  validate_ids cid lid ;!
  let! expires := ok_or (instant_checked_add now ttl) LInvalidTtl in
  ensure_known_joint joint known ;!
  let by_id := joint_leases s joint in
  refuse_if (negb (bool_decide (is_Some (by_id !! trim lid)))
             && (MAX_LEASES_PER_JOINT <=? size by_id)%nat) (LTooManyLeases joint) ;!
  Ok (with_leases s (<[joint := <[trim lid := mkLease (trim cid) expires]> by_id]> (leases s))).

Definition renew (s : ActiveReportingState) (joint cid lid : string) (ttl now : Z)
  (known : list Config.MotorEntry) : result ActiveReportingLeaseError ActiveReportingState :=
  validate_ids cid lid ;!
  let! expires := ok_or (instant_checked_add now ttl) LInvalidTtl in
  ensure_known_joint joint known ;!
  let! by_id := ok_or (leases s !! joint) (LMissingLease joint (trim lid)) in
  let! _ := ok_or (by_id !! trim lid) (LMissingLease joint (trim lid)) in
  Ok (with_leases s (<[joint := <[trim lid := mkLease (trim cid) expires]> by_id]> (leases s))).

Definition release (s : ActiveReportingState) (joint lid : string)
  (known : list Config.MotorEntry) : result ActiveReportingLeaseError ActiveReportingState :=
  refuse_if (bad_id MAX_LEASE_ID_LEN (trim lid)) LInvalidLeaseId ;!
  ensure_known_joint joint known ;!
  match leases s !! joint with
  | None => Ok s
  | Some by_id =>
      let rest := delete (trim lid) by_id in
      Ok (with_leases s (if bool_decide (rest = ∅) then delete joint (leases s)
                         else <[joint := rest]> (leases s)))
  end.

Definition desired (s : ActiveReportingState) (joint : string) (mode_active global : bool) (now : Z)
  : bool := negb mode_active && (global || has_live_lease s joint now).

(** ** Applied streams *)

Definition applied_on (s : ActiveReportingState) (joint : string) : bool :=
  default false (applied s !! joint).

Definition record_off (s : ActiveReportingState) (joint : string) (now : Z) : ActiveReportingState :=
  mkReporting (leases s) (<[joint := false]> (applied s)) (delete joint (last_enable_tx s))
    (heartbeat_cursor s) (last_heartbeat_attempt s) (last_write_by_interface s)
    (<[joint := now]> (off_written_at s)).

Definition record_on (s : ActiveReportingState) (joint : string) (now : Z) : ActiveReportingState :=
  mkReporting (leases s) (<[joint := true]> (applied s)) (<[joint := now]> (last_enable_tx s))
    (heartbeat_cursor s) (last_heartbeat_attempt s) (last_write_by_interface s)
    (delete joint (off_written_at s)).

Definition slot_free (s : ActiveReportingState) (itf : string) (now : Z) : bool :=
  match last_write_by_interface s !! itf with
  | None => true
  | Some last => ACTIVE_REPORTING_WRITE_SPACING <=? since last now
  end.

Definition take_slot (s : ActiveReportingState) (itf : string) (now : Z) : ActiveReportingState :=
  mkReporting (leases s) (applied s) (last_enable_tx s) (heartbeat_cursor s)
    (last_heartbeat_attempt s) (<[itf := now]> (last_write_by_interface s)) (off_written_at s).

Definition take_refresh (s : ActiveReportingState) (index count : nat) (now : Z) : ActiveReportingState :=
  mkReporting (leases s) (applied s) (last_enable_tx s) (S index mod count)%nat (Some now)
    (last_write_by_interface s) (off_written_at s).

Section Writes.
Context {B : Type} `{CanBus B}.

(** [None] when the slot is taken. *)
Definition write_off (s : ActiveReportingState) (bus : B) (m : Config.MotorEntry) (now : Z)
  (force : bool) : option (result BusError unit) * ActiveReportingState * B :=
  if negb force && negb (slot_free s (Config.can_interface m) now) then (None, s, bus)
  else
    let s := take_slot s (Config.can_interface m) now in
    let '(r, bus) := disable_active_reporting_at bus (address_of_motor m) in
    (Some r, match r with Ok _ => record_off s (Config.joint m) now | _ => s end, bus).

Record ReportingSuspendAttempt : Type := mkSuspend {
  sa_joint : string;
  sa_address : MotorAddress;
  sa_result : result BusError unit;
}.

(** The pacer of [suspend] only delays: it is left out. *)
Fixpoint suspend (s : ActiveReportingState) (bus : B) (installed : list Config.MotorEntry)
  (unrecorded : option MotorAddress) (leave_on : MotorAddress -> bool) (now : Z)
  : list ReportingSuspendAttempt * ActiveReportingState * B :=
  match installed with
  | [] => ([], s, bus)
  | m :: rest =>
      let a := address_of_motor m in
      if negb (bool_decide (unrecorded = Some a))
         && (negb (applied_on s (Config.joint m)) || leave_on a)
      then suspend s bus rest unrecorded leave_on now
      else
        let '(r, bus) := disable_active_reporting_at bus a in
        let s := match r with Ok _ => record_off s (Config.joint m) now | _ => s end in
        let '(tail, s, bus) := suspend s bus rest unrecorded leave_on now in
        (mkSuspend (Config.joint m) a r :: tail, s, bus)
  end.

(** A refresh of a healthy stream: applied, heard recently, last On a second old. *)
Definition refresh_due (s : ActiveReportingState) (mode_active global : bool) (now : Z)
  (last_rx : gmap string Z) (held : list string) (m : Config.MotorEntry) : bool :=
  let j := Config.joint m in
  negb (str_in j held) && desired s j mode_active global now && applied_on s j
  && match last_rx !! j with
     | Some last => since last now <? ACTIVE_REPORTING_FEEDBACK_STALE
     | None => false
     end
  && match last_enable_tx s !! j with
     | Some last => ACTIVE_REPORTING_HEARTBEAT <=? since last now
     | None => true
     end.

Definition heartbeat_motor (s : ActiveReportingState) (motors : list Config.MotorEntry)
  (mode_active global : bool) (now : Z) (last_rx : gmap string Z) (held : list string) : option nat :=
  let spacing_elapsed := match last_heartbeat_attempt s with
                         | Some last => ACTIVE_REPORTING_WRITE_SPACING <=? since last now
                         | None => true
                         end in
  let count := length motors in
  if spacing_elapsed && negb (count =? 0)%nat then
    let start := (heartbeat_cursor s mod count)%nat in
    find_first (fun i => match motors !! i with
                         | Some m => refresh_due s mode_active global now last_rx held m
                         | None => false
                         end)
      ((fun offset => (start + offset) mod count)%nat <$> seq 0 count)
  else None.

Definition feedback_stale (s : ActiveReportingState) (j : string) (now : Z) (last_rx : gmap string Z)
  : bool :=
  if negb (applied_on s j) then false
  else match last_rx !! j with
  | Some t => ACTIVE_REPORTING_FEEDBACK_STALE <=? since t now
  | None =>
      match last_enable_tx s !! j with
      | Some t => ACTIVE_REPORTING_FEEDBACK_STALE <=? since t now
      | None => false
      end
  end.

(** What a motor is due: its index, the wanted state, whether the write is only a
    healthy refresh. *)
Definition due_write (s : ActiveReportingState) (mode_active global : bool) (now : Z)
  (last_rx : gmap string Z) (heartbeat : option nat) (index : nat) (m : Config.MotorEntry)
  : option (nat * bool * bool) :=
  let j := Config.joint m in
  let want := desired s j mode_active global now in
  let have := applied_on s j in
  let stale := feedback_stale s j now last_rx in
  let refresh := bool_decide (heartbeat = Some index) in
  if (want && (negb have || refresh || stale)) || (negb want && have)
  then Some (index, want, want && have && negb stale)
  else None.

Definition due_writes (s : ActiveReportingState) (motors : list Config.MotorEntry)
  (mode_active global : bool) (now : Z) (last_rx : gmap string Z) (heartbeat : option nat)
  : list (nat * bool * bool) :=
  omap id (imap (due_write s mode_active global now last_rx heartbeat) motors).

(** [sort_by_key] on a boolean key: a stable partition. *)
Definition sort_due (due : list (nat * bool * bool)) : list (nat * bool * bool) :=
  filter (fun d => d.2 = false) due ++ filter (fun d => d.2 = true) due.

(** One due write: the joint to report as deferred, if any, and the new state. *)
Definition sync_write (s : ActiveReportingState) (bus : B) (motors : list Config.MotorEntry)
  (held : list string) (now : Z) (d : nat * bool * bool) : list string * ActiveReportingState * B :=
  let '(index, want, refresh_only) := d in
  match motors !! index with
  | None => ([], s, bus)
  | Some m =>
      let j := Config.joint m in
      if str_in j held then
        (if want && negb (applied_on s j) then [j] else [], s, bus)
      else if negb (slot_free s (Config.can_interface m) now) then ([], s, bus)
      else
        let s := take_slot s (Config.can_interface m) now in
        let s := if refresh_only then take_refresh s index (length motors) now else s in
        let a := address_of_motor m in
        let '(r, bus) := if want then enable_active_reporting_at bus a
                         else disable_active_reporting_at bus a in
        ([], match r with
             | Ok _ => if want then record_on s j now else record_off s j now
             | _ => s
             end, bus)
  end.

Fixpoint sync_write_all (s : ActiveReportingState) (bus : B) (motors : list Config.MotorEntry)
  (held : list string) (now : Z) (due : list (nat * bool * bool))
  : list string * ActiveReportingState * B :=
  match due with
  | [] => ([], s, bus)
  | d :: rest =>
      let '(deferred, s, bus) := sync_write s bus motors held now d in
      let '(tail, s, bus) := sync_write_all s bus motors held now rest in
      (deferred ++ tail, s, bus)
  end.

Definition sync_holding (s : ActiveReportingState) (bus : B) (motors : list Config.MotorEntry)
  (mode_active global : bool) (now : Z) (last_rx : gmap string Z) (held : list string)
  : list string * ActiveReportingState * B :=
  let s := (expire_stale s now).2 in
  let heartbeat := heartbeat_motor s motors mode_active global now last_rx held in
  let due := sort_due (due_writes s motors mode_active global now last_rx heartbeat) in
  sync_write_all s bus motors held now due.

End Writes.

(** ** A backend that records attempted writes *)

#[global] Instance CanFrame_eq_dec : EqDecision CanFrame.
Proof. solve_decision. Defined.

Abbreviation attempt := (MotorAddress * CanFrame * bool)%type.

Record Spy (B : Type) : Type := mkSpy { spied : B; attempts : list attempt }.
Arguments mkSpy {B} _ _.
Arguments spied {B} _.
Arguments attempts {B} _.

Definition accepted {E A : Type} (r : result E A) : bool := match r with Ok _ => true | _ => false end.

#[global] Instance Spy_CanBus (B : Type) `{CanBus B} : CanBus (Spy B) := {
  send_frame_to s a f :=
    let '(r, bus) := send_frame_to (spied s) a f in
    (r, mkSpy bus (attempts s ++ [(a, f, accepted r)]));
  recv_one_nonblocking s c :=
    let '(r, bus, c) := recv_one_nonblocking (spied s) c in (r, mkSpy bus (attempts s), c);
  receive_source_count s := receive_source_count (spied s);
  begin_receive s := mkSpy (begin_receive (spied s)) (attempts s);
  echoes_transmissions s := echoes_transmissions (spied s);
  validate_address s a := validate_address (spied s) a;
}.

(** The owner's calls, each at an instant. *)
Inductive reporting_event : Type :=
| EvSync (mode_active global : bool) (last_rx : gmap string Z) (held : list string)
| EvWriteOff (index : nat) (force : bool)
| EvSuspend (unrecorded : option MotorAddress) (leave_on : MotorAddress -> bool)
| EvAcquire (joint cid lid : string) (ttl : Z)
| EvRenew (joint cid lid : string) (ttl : Z)
| EvRelease (joint lid : string).

Section Runs.
Context {B : Type} `{CanBus B}.
Variable motors : list Config.MotorEntry.

Definition keep {E : Type} (s : ActiveReportingState) (r : result E ActiveReportingState) :=
  match r with Ok s' => s' | _ => s end.

(** One call: the new state, the backend and the writes it attempted. *)
Definition report_step (s : ActiveReportingState) (bus : B) (now : Z) (e : reporting_event)
  : ActiveReportingState * B * list attempt :=
  let out := fun (s : ActiveReportingState) (b : Spy B) => (s, spied b, attempts b) in
  let spy := mkSpy bus [] in
  match e with
  | EvSync mode_active global last_rx held =>
      let '(_, s, b) := sync_holding s spy motors mode_active global now last_rx held in out s b
  | EvWriteOff index force =>
      match motors !! index with
      | Some m => let '(_, s, b) := write_off s spy m now force in out s b
      | None => (s, bus, [])
      end
  | EvSuspend unrecorded leave_on =>
      let '(_, s, b) := suspend s spy motors unrecorded leave_on now in out s b
  | EvAcquire j cid lid ttl => (keep s (acquire s j cid lid ttl now motors), bus, [])
  | EvRenew j cid lid ttl => (keep s (renew s j cid lid ttl now motors), bus, [])
  | EvRelease j lid => (keep s (release s j lid motors), bus, [])
  end.

Fixpoint report_run (s : ActiveReportingState) (bus : B) (es : list (Z * reporting_event))
  : ActiveReportingState * B * list (Z * attempt) :=
  match es with
  | [] => (s, bus, [])
  | (t, e) :: rest =>
      let '(s, bus, log) := report_step s bus t e in
      let '(s, bus, tail) := report_run s bus rest in
      (s, bus, (pair t <$> log) ++ tail)
  end.

(** ** What a call may write *)

Definition reporting_frame (m : Config.MotorEntry) (on : bool) : CanFrame :=
  let f := Comm.encode_default_active_reporting (Config.device_id m) on in mkCanFrame f.1 f.2 true.

(** A sequence of attempted writes between two states: each goes to a configured
    motor and changes its applied bit only when accepted; a paced one takes a free
    slot of its interface. *)
Inductive wsteps (paced : bool) (now : Z) :
  ActiveReportingState -> list attempt -> ActiveReportingState -> Prop :=
| ws_done s s' :
    applied s' = applied s -> last_write_by_interface s' = last_write_by_interface s ->
    wsteps paced now s [] s'
| ws_write s s1 s' m on ok l :
    In m motors ->
    (paced = true -> slot_free s (Config.can_interface m) now = true /\
       last_write_by_interface s1 = <[Config.can_interface m := now]> (last_write_by_interface s)) ->
    applied s1 = (if ok : bool then <[Config.joint m := on]> (applied s) else applied s) ->
    wsteps paced now s1 l s' ->
    wsteps paced now s ((address_of_motor m, reporting_frame m on, ok) :: l) s'.

Lemma slot_free_ext (s s' : ActiveReportingState) (itf : string) (t : Z) :
  last_write_by_interface s = last_write_by_interface s' -> slot_free s itf t = slot_free s' itf t.
Proof. unfold slot_free. now intros ->. Qed.

Lemma wsteps_ext (p : bool) (t : Z) (s0 s s' : ActiveReportingState) (l : list attempt) :
  applied s0 = applied s -> last_write_by_interface s0 = last_write_by_interface s ->
  wsteps p t s l s' -> wsteps p t s0 l s'.
Proof.
  intros Ha Hl Hs. destruct Hs as [s s' A L|s s1 s' m on ok l Hm Hp A Hs].
  - apply ws_done; congruence.
  - apply (ws_write p t s0 s1 s' m on ok l); [exact Hm| |now rewrite Ha|exact Hs].
    intros Hpt. rewrite (slot_free_ext s0 s), Hl by assumption. auto.
Qed.

Lemma wsteps_app (p : bool) (t : Z) (s s1 s2 : ActiveReportingState) (l1 l2 : list attempt) :
  wsteps p t s l1 s1 -> wsteps p t s1 l2 s2 -> wsteps p t s (l1 ++ l2) s2.
Proof.
  induction 1 as [s s' A L|s s0 s' m on ok l Hm Hp A Hs IH]; intros H2; simpl.
  - eapply wsteps_ext; [| |exact H2]; congruence.
  - eapply ws_write; eauto.
Qed.

Lemma wsteps_one (p : bool) (t : Z) (s s' : ActiveReportingState) (m : Config.MotorEntry) (on ok : bool) :
  In m motors ->
  (p = true -> slot_free s (Config.can_interface m) t = true /\
     last_write_by_interface s' = <[Config.can_interface m := t]> (last_write_by_interface s)) ->
  applied s' = (if ok then <[Config.joint m := on]> (applied s) else applied s) ->
  wsteps p t s [(address_of_motor m, reporting_frame m on, ok)] s'.
Proof. intros. eapply ws_write; eauto using ws_done. Qed.

(** The recorded write of a reporting command. *)
Lemma spy_write (bus : B) (l : list attempt) (m : Config.MotorEntry) (on : bool) :
  exists r bus',
    (if on then enable_active_reporting_at (mkSpy bus l) (address_of_motor m)
     else disable_active_reporting_at (mkSpy bus l) (address_of_motor m))
    = (r, mkSpy bus' (l ++ [(address_of_motor m, reporting_frame m on, accepted r)])).
Proof.
  unfold enable_active_reporting_at, disable_active_reporting_at, send_encoded_frame_to, reporting_frame.
  destruct on; cbn [send_frame_to Spy_CanBus spied attempts address_of_motor device];
    match goal with |- context [send_frame_to ?b ?a ?f] => destruct (send_frame_to b a f) as [r bus'] end;
    exists r, bus'; reflexivity.
Qed.

Lemma sync_write_steps (s : ActiveReportingState) (bus : B) (l : list attempt) (held : list string)
  (t : Z) (d : nat * bool * bool) :
  exists deferred s' bus' atts,
    sync_write s (mkSpy bus l) motors held t d = (deferred, s', mkSpy bus' (l ++ atts)) /\
    wsteps true t s atts s'.
Proof.
  destruct d as [[index want] refresh]. unfold sync_write.
  assert (Q : exists bus' atts, mkSpy bus l = mkSpy bus' (l ++ atts) /\ atts = []).
  { exists bus, []. now rewrite app_nil_r. }
  destruct Q as (b0 & a0 & -> & ->).
  destruct (motors !! index) as [m|] eqn:Hm; [|eauto 10 using ws_done].
  destruct (str_in _ held); [destruct (_ && _); eauto 10 using ws_done|].
  destruct (slot_free _ _ _) eqn:Hf; cbn [negb]; [|eauto 10 using ws_done].
  rewrite app_nil_r. destruct (spy_write b0 l m want) as (r & bus' & E). rewrite E.
  eexists _, _, bus', [_]. split; [reflexivity|].
  apply list_elem_of_lookup_2, list_elem_of_In in Hm.
  apply wsteps_one; [exact Hm|intros _; split; [exact Hf|]|];
    destruct r, want, refresh; reflexivity.
Qed.

Lemma sync_write_all_steps (held : list string) (t : Z) (due : list (nat * bool * bool)) :
  forall (s : ActiveReportingState) (bus : B) (l : list attempt),
  exists deferred s' bus' atts,
    sync_write_all s (mkSpy bus l) motors held t due = (deferred, s', mkSpy bus' (l ++ atts)) /\
    wsteps true t s atts s'.
Proof.
  induction due as [|d due IH]; intros s bus l; cbn [sync_write_all].
  - exists [], s, bus, []. rewrite app_nil_r. split; [reflexivity|now apply ws_done].
  - destruct (sync_write_steps s bus l held t d) as (df & s1 & b1 & a1 & E1 & W1). rewrite E1.
    destruct (IH s1 b1 (l ++ a1)) as (df2 & s2 & b2 & a2 & E2 & W2). rewrite E2.
    exists (df ++ df2), s2, b2, (a1 ++ a2). rewrite app_assoc. split; [reflexivity|].
    eapply wsteps_app; eassumption.
Qed.

Lemma suspend_steps (unrecorded : option MotorAddress) (leave_on : MotorAddress -> bool) (t : Z)
  (installed : list Config.MotorEntry) :
  (forall m, In m installed -> In m motors) ->
  forall (s : ActiveReportingState) (bus : B) (l : list attempt),
  exists tried s' bus' atts,
    suspend s (mkSpy bus l) installed unrecorded leave_on t = (tried, s', mkSpy bus' (l ++ atts)) /\
    wsteps false t s atts s'.
Proof.
  induction installed as [|m rest IH]; intros Hin s bus l; cbn [suspend].
  - exists [], s, bus, []. rewrite app_nil_r. split; [reflexivity|now apply ws_done].
  - destruct (_ && _); [apply IH; intros; apply Hin; now right|].
    destruct (spy_write bus l m false) as (r & b1 & E). rewrite E.
    match goal with |- context [suspend ?s1 (mkSpy b1 ?l1) _ _ _ _] =>
      destruct (IH (fun x Hx => Hin x (or_intror Hx)) s1 b1 l1) as (tr & s2 & b2 & a2 & E2 & W2) end.
    rewrite E2. eexists _, s2, b2, (_ :: a2). rewrite <- app_assoc. split; [reflexivity|].
    eapply ws_write; [apply Hin; now left|discriminate| |exact W2]. destruct r; reflexivity.
Qed.

Definition is_paced (e : reporting_event) : bool :=
  match e with EvWriteOff _ true | EvSuspend _ _ => false | _ => true end.

Lemma keep_lease_fields (E : Type) (s : ActiveReportingState) (l : result E ActiveReportingState) :
  (forall s', l = Ok s' -> applied s' = applied s /\
     last_write_by_interface s' = last_write_by_interface s) ->
  applied (keep s l) = applied s /\
  last_write_by_interface (keep s l) = last_write_by_interface s.
Proof. destruct l; simpl; auto. Qed.

Ltac lease_op H := repeat bind_inv H; inv H; auto.

Lemma acquire_fields s j cid lid ttl t s' : acquire s j cid lid ttl t motors = Ok s' ->
  applied s' = applied s /\ last_write_by_interface s' = last_write_by_interface s.
Proof. unfold acquire. intros H0. lease_op H0. Qed.

Lemma renew_fields s j cid lid ttl t s' : renew s j cid lid ttl t motors = Ok s' ->
  applied s' = applied s /\ last_write_by_interface s' = last_write_by_interface s.
Proof. unfold renew. intros H0. lease_op H0. Qed.

Lemma release_fields s j lid s' : release s j lid motors = Ok s' ->
  applied s' = applied s /\ last_write_by_interface s' = last_write_by_interface s.
Proof.
  unfold release. intros H0. bind_inv H0. bind_inv H0. destruct (leases s !! j); inv H0; auto.
Qed.

Lemma report_step_steps (s s' : ActiveReportingState) (bus bus' : B) (t : Z) (e : reporting_event)
  (log : list attempt) :
  report_step s bus t e = (s', bus', log) -> wsteps (is_paced e) t s log s'.
Proof.
  destruct e as [ma g rx held|index force|un lv|j c l ttl|j c l ttl|j l]; cbn [report_step is_paced].
  - destruct (sync_write_all_steps held t
      (sort_due (due_writes (expire_stale s t).2 motors ma g t rx
         (heartbeat_motor (expire_stale s t).2 motors ma g t rx held))) (expire_stale s t).2 bus [])
      as (df & s1 & b1 & atts & E & W).
    unfold sync_holding. rewrite E. simpl. intros [= <- <- <-].
    eapply wsteps_ext; [| |exact W]; reflexivity.
  - destruct (motors !! index) as [m|] eqn:Hm; [|intros [= <- <- <-]; now apply ws_done].
    apply list_elem_of_lookup_2, list_elem_of_In in Hm.
    unfold write_off. destruct (negb force && negb (slot_free s (Config.can_interface m) t)) eqn:Hf.
    + intros [= <- <- <-]. now apply ws_done.
    + destruct (spy_write bus [] m false) as (r & b1 & E). rewrite E. simpl. intros [= <- <- <-].
      apply wsteps_one; [exact Hm| |destruct r; reflexivity].
      intros Hp. destruct force; [discriminate Hp|]. simpl in Hf. apply negb_false_iff in Hf.
      split; [exact Hf|]. destruct r; reflexivity.
  - destruct (suspend_steps un lv t motors (fun m Hm => Hm) s bus []) as (tr & s1 & b1 & atts & E & W).
    rewrite E. simpl. now intros [= <- <- <-].
  - intros [= <- <- <-]. apply ws_done; eapply keep_lease_fields; eauto using acquire_fields.
  - intros [= <- <- <-]. apply ws_done; eapply keep_lease_fields; eauto using renew_fields.
  - intros [= <- <- <-]. apply ws_done; eapply keep_lease_fields; eauto using release_fields.
Qed.

(** ** Pacing *)

Abbreviation stamped := (Z * attempt)%type.
Definition on_interface (w : stamped) : string := interface w.2.1.1.

(** Two writes of a log: on one interface they are a spacing apart. *)
Definition spaced (u w : stamped) : Prop :=
  on_interface u = on_interface w -> ACTIVE_REPORTING_WRITE_SPACING <= w.1 - u.1.

(** Every logged write is accounted for by its interface's slot. *)
Definition slots_cover (s : ActiveReportingState) (log : list stamped) (t : Z) : Prop :=
  Forall (fun w => exists last, last_write_by_interface s !! on_interface w = Some last /\
                                w.1 <= last <= t) log.

Lemma slot_free_spaced (s : ActiveReportingState) (log : list stamped) (t u : Z) (w : stamped) :
  slots_cover s log u -> slot_free s (on_interface w) t = true -> w.1 = t ->
  Forall (fun v => spaced v w) log.
Proof.
  unfold slots_cover, slot_free, spaced. intros Hc Hf <-. eapply Forall_impl; [exact Hc|].
  intros v (last & Hl & Hv) Hi. rewrite <- Hi, Hl in Hf. bsimp.
  unfold since, ACTIVE_REPORTING_WRITE_SPACING in *. lia.
Qed.

Lemma wsteps_paced (t : Z) (s s' : ActiveReportingState) (l : list attempt) :
  wsteps true t s l s' -> forall (log : list stamped) (u : Z),
  u <= t -> slots_cover s log u -> StronglySorted spaced log ->
  slots_cover s' (log ++ (pair t <$> l)) t /\ StronglySorted spaced (log ++ (pair t <$> l)).
Proof.
  induction 1 as [s s' A L|s s1 s' m on ok l Hm Hp A Hs IH]; intros log u Hu Hc Hg; cbn [fmap list_fmap].
  - rewrite app_nil_r. split; [|exact Hg]. unfold slots_cover in *. rewrite L.
    eapply Forall_impl; [exact Hc|]. intros w (last & Hl & Hw). exists last. split; [exact Hl|lia].
  - destruct (Hp eq_refl) as [Hf Hl]. set (w := (t, (address_of_motor m, reporting_frame m on, ok))).
    pose proof (slot_free_spaced s log t u w Hc Hf eq_refl) as Hsp.
    destruct (IH (log ++ [w]) t) as [I1 I2]; [lia| | |rewrite <- app_assoc in I1, I2; auto].
    + unfold slots_cover in *. rewrite Hl. apply Forall_app. split.
      * eapply Forall_impl; [exact Hc|]. intros v (last & Hv & Hle).
        destruct (decide (Config.can_interface m = on_interface v)) as [E|E].
        -- exists t. rewrite E, lookup_insert_eq. split; [reflexivity|lia].
        -- exists last. rewrite lookup_insert_ne by exact E. split; [exact Hv|lia].
      * repeat constructor. exists t. unfold w, on_interface. simpl. rewrite lookup_insert_eq.
        split; [reflexivity|lia].
    + apply StronglySorted_app_2; [|exact Hg|repeat constructor].
      intros v x Hv Hx. apply list_elem_of_singleton in Hx as ->.
      rewrite Forall_forall in Hsp. now apply Hsp.
Qed.

Lemma report_run_paced (es : list (Z * reporting_event)) :
  forall (s : ActiveReportingState) (bus : B) (log : list stamped) (u : Z),
  Forall (fun e => is_paced e.2 = true) es -> StronglySorted Z.le (u :: (fst <$> es)) ->
  slots_cover s log u -> StronglySorted spaced log ->
  StronglySorted spaced (log ++ (report_run s bus es).2).
Proof.
  induction es as [|[t e] es IH]; intros s bus log u Hp Ht Hc Hg; cbn [report_run].
  - now rewrite app_nil_r.
  - inv Hp. destruct (report_step s bus t e) as [[s1 b1] l1] eqn:E1.
    apply report_step_steps in E1. simpl in H2. rewrite H2 in E1.
    apply StronglySorted_inv in Ht as [Ht Hu]. cbn [fmap list_fmap] in Ht, Hu. inv Hu.
    destruct (wsteps_paced t s s1 l1 E1 log u) as [C G]; [assumption..|].
    specialize (IH s1 b1 (log ++ (pair t <$> l1)) t H3 Ht C G).
    destruct (report_run s1 b1 es) as [[s2 b2] l2]. cbn [snd] in *. now rewrite app_assoc.
Qed.

(** type-24 writes are paced: over any sequence of syncs, gate Offs and lease
    calls at nondecreasing instants, on any backend and whether or not its writes
    are accepted, two writes on one interface are at least 5 ms apart (in
    particular one call never writes two frames to the same interface). *)
Theorem writes_paced (bus : B) (es : list (Z * reporting_event))
  (Hp : Forall (fun e => is_paced e.2 = true) es) (Ht : StronglySorted Z.le (fst <$> es)) :
  StronglySorted spaced (report_run reporting_default bus es).2.
Proof.
  destruct es as [|[t e] es]; [constructor|].
  apply (report_run_paced ((t, e) :: es) reporting_default bus [] t); auto; [|constructor..].
  constructor; [exact Ht|]. apply StronglySorted_inv in Ht as [_ Hu]. constructor; [simpl; lia|exact Hu].
Qed.

(** ** Applied bits against the wire *)

Definition on_frame (a : MotorAddress) : CanFrame :=
  let f := Comm.encode_default_active_reporting (device a) true in mkCanFrame f.1 f.2 true.

(** The stream state the accepted writes leave at an address. *)
Definition wire_on (log : list attempt) (a : MotorAddress) : bool :=
  fold_left (fun on w => if bool_decide (w.1.1 = a) && w.2
                         then bool_decide (w.1.2 = on_frame a) else on) log false.

Lemma wire_on_snoc (log : list attempt) (a b : MotorAddress) (f : CanFrame) (ok : bool) :
  wire_on (log ++ [(b, f, ok)]) a
  = if bool_decide (b = a) && ok then bool_decide (f = on_frame a) else wire_on log a.
Proof. unfold wire_on. now rewrite fold_left_app. Qed.

Lemma reporting_frame_on (m : Config.MotorEntry) (on : bool) :
  bool_decide (reporting_frame m on = on_frame (address_of_motor m)) = on.
Proof. destruct on; [now apply bool_decide_eq_true|]. apply bool_decide_eq_false. discriminate. Qed.

Definition tracks (s : ActiveReportingState) (log : list attempt) : Prop :=
  forall m, In m motors -> applied_on s (Config.joint m) = wire_on log (address_of_motor m).

Lemma wsteps_tracks (p : bool) (t : Z) (s s' : ActiveReportingState) (l : list attempt)
  (Hj : forall m m', In m motors -> In m' motors ->
        Config.joint m = Config.joint m' <-> address_of_motor m = address_of_motor m') :
  wsteps p t s l s' -> forall log, tracks s log -> tracks s' (log ++ l).
Proof.
  induction 1 as [s s' A L|s s1 s' m on ok l Hm Hp A Hs IH]; intros log Ht.
  - rewrite app_nil_r. intros m Hm. unfold applied_on. rewrite A. now apply Ht.
  - change (log ++ (address_of_motor m, reporting_frame m on, ok) :: l)
      with (log ++ [(address_of_motor m, reporting_frame m on, ok)] ++ l).
    rewrite app_assoc. apply IH. intros m' Hm'. rewrite wire_on_snoc.
    unfold applied_on. rewrite A. destruct ok; [|rewrite andb_false_r; now apply Ht].
    rewrite andb_true_r. case_bool_decide as E.
    + rewrite <- E, reporting_frame_on. apply (Hj m m' Hm Hm') in E. now rewrite <- E, lookup_insert_eq.
    + rewrite lookup_insert_ne by (intros F; apply E; now apply (Hj m m' Hm Hm')). now apply Ht.
Qed.

Lemma report_run_tracks (es : list (Z * reporting_event))
  (Hj : forall m m', In m motors -> In m' motors ->
        Config.joint m = Config.joint m' <-> address_of_motor m = address_of_motor m') :
  forall (s : ActiveReportingState) (bus : B) (log : list attempt), tracks s log ->
  tracks (report_run s bus es).1.1 (log ++ (snd <$> (report_run s bus es).2)).
Proof.
  induction es as [|[t e] es IH]; intros s bus log Ht; cbn [report_run].
  - now rewrite app_nil_r.
  - destruct (report_step s bus t e) as [[s1 b1] l1] eqn:E1. apply report_step_steps in E1.
    pose proof (wsteps_tracks _ _ _ _ _ Hj E1 log Ht) as Ht1. specialize (IH s1 b1 _ Ht1).
    destruct (report_run s1 b1 es) as [[s2 b2] l2]. cbn [fst snd] in *.
    rewrite fmap_app, <- list_fmap_compose.
    replace ((snd ∘ pair t) <$> l1) with l1 by (now rewrite list_fmap_id). now rewrite app_assoc.
Qed.

(** what the host believes about a stream is what it last got accepted: after
    any sequence of calls (syncs, gate Offs forced or not, suspensions, leases) on
    any backend, a motor's applied bit is On exactly when the last accepted type-24
    write to its address was the On frame.  Joints and addresses name the same
    motors, as validation ensures. *)
Theorem applied_tracks_wire (bus : B) (es : list (Z * reporting_event))
  (Hj : forall m m', In m motors -> In m' motors ->
        Config.joint m = Config.joint m' <-> address_of_motor m = address_of_motor m') :
  let out := report_run reporting_default bus es in
  forall m, In m motors ->
  applied_on out.1.1 (Config.joint m) = wire_on (snd <$> out.2) (address_of_motor m).
Proof. apply (report_run_tracks es Hj reporting_default bus []). now intros m Hm. Qed.

(** ** What one sync writes *)

Lemma has_live_lease_spec (s : ActiveReportingState) (j : string) (t : Z) :
  has_live_lease s j t = true <-> exists k e, joint_leases s j !! k = Some e /\ t < expires e.
Proof.
  unfold has_live_lease. rewrite existsb_exists. split.
  - intros ([k e] & Hin & Hl). apply list_elem_of_In, elem_of_map_to_list in Hin. bsimp. eauto.
  - intros (k & e & Hk & Hl). exists (k, e).
    split; [now apply list_elem_of_In, elem_of_map_to_list|now apply Z.ltb_lt].
Qed.

Lemma expire_joint_leases (s : ActiveReportingState) (j : string) (t : Z) :
  joint_leases (expire_stale s t).2 j = live t (joint_leases s j).
Proof.
  unfold joint_leases, expire_stale. simpl. rewrite lookup_omap.
  destruct (leases s !! j) as [m|]; simpl; [|reflexivity].
  case_bool_decide as E; simpl; [now rewrite E|reflexivity].
Qed.

(** Expiry changes no answer at the instant it runs. *)
Lemma expire_desired (s : ActiveReportingState) (j : string) (ma g : bool) (t : Z) :
  desired (expire_stale s t).2 j ma g t = desired s j ma g t.
Proof.
  unfold desired. f_equal. f_equal. apply eq_bool_prop_intro.
  rewrite !Is_true_true, !has_live_lease_spec, expire_joint_leases. unfold live.
  setoid_rewrite map_lookup_filter_Some. split; intros (k & e & Hk & Hl); exists k, e; tauto.
Qed.

(** A due entry belongs to a motor and asks for the state it should have. *)
Definition due_ok (s : ActiveReportingState) (ma g : bool) (t : Z) (d : nat * bool * bool) : Prop :=
  exists m, motors !! d.1.1 = Some m /\ d.1.2 = desired s (Config.joint m) ma g t /\
    (d.1.2 = false -> applied_on s (Config.joint m) = true).

Lemma due_writes_ok (s : ActiveReportingState) (ma g : bool) (t : Z) (rx : gmap string Z) (hb : option nat) :
  Forall (due_ok s ma g t) (sort_due (due_writes s motors ma g t rx hb)).
Proof.
  apply Forall_forall. intros d Hd. unfold sort_due in Hd.
  assert (Hin : d ∈ due_writes s motors ma g t rx hb).
  { apply elem_of_app in Hd as [Hd|Hd]; apply list_elem_of_filter in Hd; tauto. }
  unfold due_writes in Hin. apply list_elem_of_omap in Hin as (o & Ho & E). simpl in E. subst o.
  apply list_elem_of_lookup in Ho as [i Hi]. rewrite list_lookup_imap in Hi.
  destruct (motors !! i) as [m|] eqn:Hm; [|discriminate]. simpl in Hi. injection Hi as Hi.
  unfold due_write in Hi. destruct (_ || _) eqn:Ec; [|discriminate]. injection Hi as <-.
  exists m. simpl. split; [exact Hm|]. split; [reflexivity|]. intros Hw. rewrite Hw in Ec. exact Ec.
Qed.

(** Where an attempt may go. *)
Definition wanted_write (s : ActiveReportingState) (ma g : bool) (t : Z) (held : list string)
  (w : attempt) : Prop :=
  exists m, In m motors /\ str_in (Config.joint m) held = false /\ w.1.1 = address_of_motor m /\
    w.1.2 = reporting_frame m (desired s (Config.joint m) ma g t) /\
    (desired s (Config.joint m) ma g t = false -> applied_on s (Config.joint m) = true).

Lemma sync_write_wanted (s0 s s' : ActiveReportingState) (bus bus' : B) (l l' : list attempt)
  (ma g : bool) (held df : list string) (t : Z) (d : nat * bool * bool) :
  due_ok s0 ma g t d -> sync_write s (mkSpy bus l) motors held t d = (df, s', mkSpy bus' l') ->
  exists atts, l' = l ++ atts /\ Forall (wanted_write s0 ma g t held) atts /\
    (forall itf, slot_free s itf t = true ->
       slot_free s' itf t = true \/ exists w, In w atts /\ interface w.1.1 = itf) /\
    (forall m, motors !! d.1.1 = Some m -> str_in (Config.joint m) held = false ->
       slot_free s (Config.can_interface m) t = true ->
       exists w, In w atts /\ interface w.1.1 = Config.can_interface m).
Proof.
  destruct d as [[index want] refresh]. intros (m & Hm & Hw & Ha). simpl in Hm, Hw, Ha. unfold sync_write.
  rewrite Hm. destruct (str_in (Config.joint m) held) eqn:Hh.
  { intros [= _ <- _ <-]. exists []. rewrite app_nil_r. repeat split; auto. simpl. intros m' Hm' ? ?. congruence. }
  destruct (slot_free s (Config.can_interface m) t) eqn:Hf; cbn [negb].
  2:{ intros [= _ <- _ <-]. exists []. rewrite app_nil_r. repeat split; auto. simpl. intros m' Hm' ? ?. congruence. }
  destruct (spy_write bus l m want) as (r & b1 & E). rewrite E. intros [= _ Hs' _ <-].
  exists [(address_of_motor m, reporting_frame m want, accepted r)].
  assert (Hl : last_write_by_interface s' = <[Config.can_interface m := t]> (last_write_by_interface s)).
  { rewrite <- Hs'. destruct r, want, refresh; reflexivity. }
  split; [reflexivity|]. split; [|split].
  - apply list_elem_of_lookup_2, list_elem_of_In in Hm.
    repeat constructor. exists m. simpl. rewrite <- Hw. auto.
  - intros itf Hi. destruct (decide (Config.can_interface m = itf)) as [F|F].
    + right. eexists. split; [now left|exact F].
    + left. unfold slot_free in *. rewrite Hl, lookup_insert_ne by exact F. exact Hi.
  - simpl. intros m' Hm' _ _. replace m' with m by congruence. eexists. split; [now left|reflexivity].
Qed.

Lemma sync_write_all_wanted (s0 : ActiveReportingState) (ma g : bool) (held : list string) (t : Z)
  (due : list (nat * bool * bool)) :
  Forall (due_ok s0 ma g t) due ->
  forall (s s' : ActiveReportingState) (bus bus' : B) (l l' : list attempt) (df : list string),
  sync_write_all s (mkSpy bus l) motors held t due = (df, s', mkSpy bus' l') ->
  exists atts, l' = l ++ atts /\ Forall (wanted_write s0 ma g t held) atts /\
    (forall d m, In d due -> motors !! d.1.1 = Some m -> str_in (Config.joint m) held = false ->
       slot_free s (Config.can_interface m) t = true ->
       exists w, In w atts /\ interface w.1.1 = Config.can_interface m).
Proof.
  induction 1 as [|d due Hd Hdue IH]; intros s s' bus bus' l l' df; cbn [sync_write_all].
  - intros [= _ _ _ <-]. exists []. rewrite app_nil_r. repeat split; auto. contradiction.
  - destruct (sync_write s (mkSpy bus l) motors held t d) as [[df1 s1] [b1 l1]] eqn:E1.
    destruct (sync_write_wanted s0 _ _ _ _ _ _ _ _ _ _ _ _ Hd E1) as (a1 & -> & F1 & K1 & P1).
    destruct (sync_write_all s1 _ motors held t due) as [[df2 s2] [b2 l2]] eqn:E2.
    destruct (IH _ _ _ _ _ _ _ E2) as (a2 & -> & F2 & P2).
    intros [= _ _ _ <-]. exists (a1 ++ a2). rewrite app_assoc. split; [reflexivity|].
    split; [now apply Forall_app|]. intros d' m [<-|Hin] Hm Hh Hf.
    + destruct (P1 m Hm Hh Hf) as (w & Hw & Hi). exists w. rewrite in_app_iff. auto.
    + destruct (K1 _ Hf) as [Hf1|(w & Hw & Hi)].
      * destruct (P2 d' m Hin Hm Hh Hf1) as (w & Hw & Hi). exists w. rewrite in_app_iff. auto.
      * exists w. rewrite in_app_iff. auto.
Qed.

Lemma due_in_sorted (d : nat * bool * bool) (due : list (nat * bool * bool)) :
  In d due -> In d (sort_due due).
Proof.
  intros Hin. unfold sort_due. rewrite <- list_elem_of_In, elem_of_app, !list_elem_of_filter, list_elem_of_In.
  destruct d.2; auto.
Qed.

Lemma mismatch_due (s : ActiveReportingState) (ma g : bool) (t : Z) (rx : gmap string Z)
  (hb : option nat) (m : Config.MotorEntry) :
  In m motors -> desired s (Config.joint m) ma g t <> applied_on s (Config.joint m) ->
  exists d, In d (due_writes s motors ma g t rx hb) /\ motors !! d.1.1 = Some m.
Proof.
  intros Hin Hne. apply list_elem_of_In, list_elem_of_lookup in Hin as [i Hi].
  assert (E : exists d, due_write s ma g t rx hb i m = Some d /\ d.1.1 = i).
  { unfold due_write. destruct (desired _ _ _ _ _), (applied_on _ _); try congruence; simpl; eauto. }
  destruct E as (d & E & Hd). exists d. rewrite Hd. split; [|exact Hi].
  apply list_elem_of_In, list_elem_of_omap. exists (Some d). split; [|reflexivity].
  apply list_elem_of_lookup. exists i. rewrite list_lookup_imap, Hi. simpl. now rewrite E.
Qed.

(** one sync writes only what is wanted, and wastes no free slot: every
    attempted write goes to a configured motor that is not held, carries exactly
    the state the leases, the diagnostics switch and the mode ask for (so never an
    On while the supervisor is Active), and an Off only where a stream is applied;
    and when a motor's applied state differs from the wanted one and its
    interface's slot is free, that interface is written in this call. *)
Theorem sync_writes_wanted (s : ActiveReportingState) (bus : B) (mode_active global : bool)
  (now : Z) (last_rx : gmap string Z) (held : list string) :
  let log := (report_step s bus now (EvSync mode_active global last_rx held)).2 in
  Forall (wanted_write s mode_active global now held) log /\
  (forall m, In m motors -> str_in (Config.joint m) held = false ->
     desired s (Config.joint m) mode_active global now <> applied_on s (Config.joint m) ->
     slot_free s (Config.can_interface m) now = true ->
     exists w, In w log /\ interface w.1.1 = Config.can_interface m).
Proof.
  cbn [report_step]. unfold sync_holding. set (s1 := (expire_stale s now).2).
  set (hb := heartbeat_motor _ _ _ _ _ _ _).
  destruct (sync_write_all s1 _ motors held now _) as [[df s2] [b2 l2]] eqn:E.
  destruct (sync_write_all_wanted s1 mode_active global held now _ (due_writes_ok s1 mode_active global now last_rx hb)
              _ _ _ _ _ _ _ E) as (atts & -> & F & P). simpl. split.
  - eapply Forall_impl; [exact F|]. intros w (m & H1 & H2 & H3 & H4 & H5). exists m.
    unfold s1 in H4, H5. rewrite expire_desired in H4, H5. repeat split; auto.
  - intros m Hm Hh Hne Hf. rewrite <- (expire_desired s) in Hne.
    destruct (mismatch_due s1 mode_active global now last_rx hb m Hm Hne) as (d & Hd & Hi).
    apply (P d m); auto using due_in_sorted.
Qed.

(** ** Leases *)

Definition leases_ok (s : ActiveReportingState) : Prop :=
  map_Forall (fun _ m => m <> ∅ /\ (size m <= MAX_LEASES_PER_JOINT)%nat) (leases s).

Lemma joint_leases_size (s : ActiveReportingState) (j : string) :
  leases_ok s -> (size (joint_leases s j) <= MAX_LEASES_PER_JOINT)%nat.
Proof.
  intros Hs. unfold joint_leases. destruct (leases s !! j) as [m|] eqn:E; simpl.
  - exact (proj2 (Hs j m E)).
  - rewrite map_size_empty. unfold MAX_LEASES_PER_JOINT. lia.
Qed.

Lemma insert_lease_ok (s : ActiveReportingState) (j k : string) (e : LeaseEntry)
  (m : gmap string LeaseEntry) :
  leases_ok s -> (size m <= MAX_LEASES_PER_JOINT)%nat ->
  (m !! k = None -> (size m < MAX_LEASES_PER_JOINT)%nat) ->
  leases_ok (with_leases s (<[j := <[k := e]> m]> (leases s))).
Proof.
  intros Hs Hm Hk. unfold leases_ok. simpl. apply map_Forall_insert_2; [|exact Hs].
  split; [apply insert_non_empty|]. rewrite map_size_insert. destruct (m !! k); [exact Hm|].
  specialize (Hk eq_refl). lia.
Qed.

Lemma acquire_ok (s s' : ActiveReportingState) j cid lid ttl t :
  acquire s j cid lid ttl t motors = Ok s' -> leases_ok s -> leases_ok s'.
Proof.
  unfold acquire. intros H0 Hs. repeat bind_inv H0. inv H0. bsimp.
  apply insert_lease_ok; [exact Hs|now apply joint_leases_size|]. intros Hn.
  rewrite bool_decide_eq_false_2 in Heqb by (rewrite Hn; intros [? ?]; discriminate).
  now apply Nat.leb_gt in Heqb.
Qed.

Lemma renew_ok (s s' : ActiveReportingState) j cid lid ttl t :
  renew s j cid lid ttl t motors = Ok s' -> leases_ok s -> leases_ok s'.
Proof.
  unfold renew. intros H0 Hs. repeat bind_inv H0. inv H0.
  repeat match goal with E : ok_or _ _ = Ok _ |- _ => apply ok_or_ok in E end.
  apply insert_lease_ok; [exact Hs|eapply Hs; eassumption|]. intros Hn. congruence.
Qed.

Lemma release_ok (s s' : ActiveReportingState) j lid :
  release s j lid motors = Ok s' -> leases_ok s -> leases_ok s'.
Proof.
  unfold release. intros H0 Hs. bind_inv H0. bind_inv H0.
  destruct (leases s !! j) as [m|] eqn:Hm; inv H0; [|exact Hs]. unfold leases_ok. simpl.
  case_bool_decide as Hd; [now apply map_Forall_delete|]. apply map_Forall_insert_2; [|exact Hs].
  split; [exact Hd|]. rewrite map_size_delete. destruct (Hs j m Hm) as [_ Hsz]. destruct (m !! trim lid); unfold id; lia.
Qed.

Lemma expire_ok (s : ActiveReportingState) (t : Z) : leases_ok s -> leases_ok (expire_stale s t).2.
Proof.
  intros Hs j m Hm. unfold expire_stale in Hm. simpl in Hm. rewrite lookup_omap in Hm.
  destruct (leases s !! j) as [m0|] eqn:E; [|discriminate]. simpl in Hm.
  case_bool_decide as He; [discriminate|]. inv Hm. split; [exact He|].
  destruct (Hs j m0 E) as [_ Hsz]. etransitivity; [|exact Hsz].
  apply map_subseteq_size, map_filter_subseteq.
Qed.

Lemma sync_write_all_leases (held : list string) (t : Z) (due : list (nat * bool * bool)) :
  forall (s : ActiveReportingState) (bus : Spy B),
  leases (sync_write_all s bus motors held t due).1.2 = leases s.
Proof.
  induction due as [|[[i want] refresh] due IH]; intros s bus; cbn [sync_write_all]; [reflexivity|].
  destruct (sync_write s bus motors held t (i, want, refresh)) as [[d s1] b1] eqn:E.
  specialize (IH s1 b1). destruct (sync_write_all s1 b1 motors held t due) as [[d2 s2] b2].
  simpl in *. rewrite IH. unfold sync_write in E.
  destruct (motors !! i); [|now inv E]. destruct (str_in _ _); [now inv E|].
  destruct (negb _); [now inv E|]. destruct want;
  match type of E with (let '(_, _) := ?p in _) = _ => destruct p as [r b2'] end;
  inv E; destruct r, refresh; reflexivity.
Qed.

Lemma suspend_leases un lv (t : Z) (installed : list Config.MotorEntry) :
  forall (s : ActiveReportingState) (bus : Spy B), leases (suspend s bus installed un lv t).1.2 = leases s.
Proof.
  induction installed as [|m rest IH]; intros s bus; cbn [suspend]; [reflexivity|].
  destruct (_ && _); [apply IH|]. destruct (disable_active_reporting_at _ _) as [r b1].
  match goal with |- context [suspend ?s1 b1 rest un lv t] =>
    specialize (IH s1 b1); destruct (suspend s1 b1 rest un lv t) as [[tr s2] b2] end.
  simpl in *. rewrite IH. destruct r; reflexivity.
Qed.

Lemma report_step_ok (s : ActiveReportingState) (bus : B) (t : Z) (e : reporting_event) :
  leases_ok s -> leases_ok (report_step s bus t e).1.1.
Proof.
  intros Hs. destruct e as [ma g rx held|i force|un lv|j c l ttl|j c l ttl|j l]; cbn [report_step].
  - unfold sync_holding. match goal with |- context [sync_write_all ?s1 ?b1 motors held t ?due] =>
      pose proof (sync_write_all_leases held t due s1 b1) as E;
      destruct (sync_write_all s1 b1 motors held t due) as [[d2 s2] b2] end.
    simpl in *. unfold leases_ok. rewrite E. now apply expire_ok.
  - destruct (motors !! i) as [m|]; [|exact Hs]. unfold write_off. destruct (_ && _); [exact Hs|].
    destruct (disable_active_reporting_at _ _) as [r b1]. destruct r; exact Hs.
  - pose proof (suspend_leases un lv t motors s (mkSpy bus [])) as E.
    destruct (suspend _ _ _ _ _ _) as [[tr s2] b2]. simpl in *. unfold leases_ok. now rewrite E.
  - simpl. destruct (acquire _ _ _ _ _ _ _) eqn:E; simpl; eauto using acquire_ok.
  - simpl. destruct (renew _ _ _ _ _ _ _) eqn:E; simpl; eauto using renew_ok.
  - simpl. destruct (release _ _ _ _) eqn:E; simpl; eauto using release_ok.
Qed.

(** leases cannot pile up: after any sequence of calls every joint on the
    lease table has at least one lease and at most eight. *)
Theorem leases_bounded (bus : B) (es : list (Z * reporting_event)) :
  map_Forall (fun _ m => m <> ∅ /\ (size m <= MAX_LEASES_PER_JOINT)%nat)
    (leases (report_run reporting_default bus es).1.1).
Proof.
  enough (Hs : forall s b, leases_ok s -> leases_ok (report_run s b es).1.1).
  { apply Hs. intros j m Hm. simpl in Hm. now rewrite lookup_empty in Hm. }
  induction es as [|[t e] es IH]; intros s b Hs; cbn [report_run]; [exact Hs|].
  pose proof (report_step_ok s b t e Hs) as H1. destruct (report_step s b t e) as [[s1 b1] l1].
  specialize (IH s1 b1 H1). destruct (report_run s1 b1 es) as [[s2 b2] l2]. exact IH.
Qed.

End Runs.

(** a lease does what it says: once acquired it keeps its joint's stream
    desired (outside Active) at every instant before now + ttl, it touches no
    other joint's leases, and releasing it leaves exactly the joint's other
    leases. *)
Theorem lease_cycle (motors : list Config.MotorEntry) (s s1 s2 : ActiveReportingState)
  (j cid lid : string) (ttl now : Z)
  (Ha : acquire s j cid lid ttl now motors = Ok s1) (Hr : release s1 j lid motors = Ok s2) :
  (forall u global, u < now + ttl -> desired s1 j false global u = true) /\
  (forall j', j' <> j -> joint_leases s1 j' = joint_leases s j' /\ joint_leases s2 j' = joint_leases s j') /\
  joint_leases s2 j = delete (trim lid) (joint_leases s j).
Proof.
  unfold acquire in Ha. repeat bind_inv Ha. inv Ha. apply ok_or_ok in E0.
  clear E2. assert (Hx : x0 = now + ttl) by (unfold instant_checked_add in E0; destruct (_ <? _); congruence).
  unfold release in Hr. bind_inv Hr. bind_inv Hr. simpl in Hr. rewrite lookup_insert_eq in Hr. inv Hr.
  unfold joint_leases. simpl. split; [|split].
  - intros u g Hu. unfold desired. simpl. destruct g; [reflexivity|]. simpl. apply has_live_lease_spec.
    exists (trim lid). eexists. unfold joint_leases. simpl. rewrite lookup_insert_eq. simpl.
    rewrite lookup_insert_eq. split; [reflexivity|simpl; lia].
  - intros j' Hj. rewrite lookup_insert_ne by congruence. split; [reflexivity|].
    case_bool_decide; rewrite ?lookup_delete_ne, ?lookup_insert_ne by congruence; reflexivity.
  - case_bool_decide as Hd.
    + rewrite lookup_delete_eq. simpl. rewrite delete_insert_eq in Hd. now rewrite Hd.
    + rewrite lookup_insert_eq. simpl. now rewrite delete_insert_eq.
Qed.

(** ** A two-motor arm *)

Definition arm_motor (j : string) (dev : Z) : Config.MotorEntry :=
  Config.mkMotor j "robstride" Config.Rs02 "can0" dev 1 (f64_of_Z 1) 0 "0.3.1.42"
    (Config.mkBench (f64_of_Z (-1)) (f64_of_Z 1) (f64_of_Z 1) (f64_of_Z 1)).
Definition arm_pair : list Config.MotorEntry := [arm_motor "shoulder" 1; arm_motor "elbow" 2].
Definition quiet_bus : MemoryBus := mkMemoryBus [] [].

(** Both streams turned On, then Off again when the supervisor goes Active. *)
Definition arm_events : list (Z * reporting_event) :=
  [(0, EvSync false true ∅ []); (1000000, EvSync false true ∅ []); (5000000, EvSync false true ∅ []);
   (6000000, EvAcquire "elbow" "consul" "lease-1" DEFAULT_LEASE_TTL);
   (10000000, EvSync true true ∅ []); (15000000, EvWriteOff 1 false)].

Lemma writes_paced_witness :
  length (report_run arm_pair reporting_default quiet_bus arm_events).2 = 4%nat /\
  StronglySorted spaced (report_run arm_pair reporting_default quiet_bus arm_events).2.
Proof.
  split; [vm_compute; reflexivity|]. apply (writes_paced arm_pair quiet_bus arm_events).
  - repeat constructor.
  - repeat constructor; simpl; lia.
Defined.

Lemma applied_tracks_wire_witness :
  applied_on (report_run arm_pair reporting_default quiet_bus (take 5 arm_events)).1.1 "elbow"
  = wire_on (snd <$> (report_run arm_pair reporting_default quiet_bus (take 5 arm_events)).2) (mkAddress "can0" 2).
Proof.
  apply (applied_tracks_wire arm_pair quiet_bus (take 5 arm_events)) with (m := arm_motor "elbow" 2).
  - intros m m' [<-|[<-|[]]] [<-|[<-|[]]]; split; (reflexivity || discriminate).
  - right. now left.
Defined.

Definition leased : ActiveReportingState :=
  keep reporting_default (acquire reporting_default "elbow" " consul " "lease-1" DEFAULT_LEASE_TTL 0 arm_pair).

Lemma lease_cycle_witness :
  (forall u global, u < 0 + DEFAULT_LEASE_TTL -> desired leased "elbow" false global u = true) /\
  (forall j', j' <> "elbow"%string -> joint_leases leased j' = joint_leases reporting_default j' /\
     joint_leases reporting_default j' = joint_leases reporting_default j') /\
  joint_leases reporting_default "elbow" = delete (trim "lease-1") (joint_leases reporting_default "elbow").
Proof.
  apply (lease_cycle arm_pair reporting_default leased reporting_default "elbow" " consul " "lease-1"
           DEFAULT_LEASE_TTL 0); vm_compute; reflexivity.
Defined.

(** Diagnostics on; the shoulder was last heard at instant 0, the elbow never. *)
Definition shoulder_silent : reporting_event := EvSync false true {["shoulder"%string := 0]} [].

Fixpoint syncs_every (n : nat) (t : Z) : list (Z * reporting_event) :=
  match n with
  | O => []
  | S n => (t, shoulder_silent) :: syncs_every n (t + ACTIVE_REPORTING_WRITE_SPACING)
  end.

(** The elbow waits for its first On while the shoulder's stream is applied. *)
Definition elbow_waits (s : ActiveReportingState) (last : Z) : Prop :=
  applied_on s "shoulder" = true /\ applied_on s "elbow" = false /\
  last_write_by_interface s !! "can0"%string = Some last.

Lemma waiting_heartbeat (s : ActiveReportingState) (t : Z) :
  ACTIVE_REPORTING_FEEDBACK_STALE <= t -> applied_on s "elbow" = false ->
  heartbeat_motor s arm_pair false true t {["shoulder"%string := 0]} [] = None.
Proof.
  intros Ht He. unfold heartbeat_motor. destruct (_ && _); [|reflexivity].
  apply find_first_none. intros i _. destruct (arm_pair !! i) as [m|] eqn:Hm; [|reflexivity].
  apply list_elem_of_lookup_2 in Hm. unfold refresh_due.
  rewrite list_elem_of_In in Hm. destruct Hm as [<-|[<-|[]]]; cbv zeta; cbn [arm_motor Config.joint].
  - rewrite lookup_singleton_eq. unfold since, ACTIVE_REPORTING_FEEDBACK_STALE in *.
    replace (Z.max 0 (t - 0) <? 200000000) with false by (symmetry; apply Z.ltb_ge; lia).
    rewrite !andb_false_r. reflexivity.
  - rewrite He, !andb_false_r. reflexivity.
Qed.

Lemma waiting_due (s : ActiveReportingState) (t : Z) :
  ACTIVE_REPORTING_FEEDBACK_STALE <= t -> applied_on s "shoulder" = true -> applied_on s "elbow" = false ->
  due_writes s arm_pair false true t {["shoulder"%string := 0]} None = [(0%nat, true, false); (1%nat, true, false)].
Proof.
  intros Ht Hs He. set (rx := {["shoulder"%string := 0]} : gmap string Z).
  assert (D0 : due_write s false true t rx None 0 (arm_motor "shoulder" 1) = Some (0%nat, true, false)).
  { unfold due_write, feedback_stale, desired. cbv zeta. cbn [arm_motor Config.joint].
    rewrite Hs. unfold rx. rewrite lookup_singleton_eq. unfold since.
    replace (ACTIVE_REPORTING_FEEDBACK_STALE <=? Z.max 0 (t - 0)) with true; [reflexivity|].
    symmetry. apply Z.leb_le. lia. }
  assert (D1 : due_write s false true t rx None 1 (arm_motor "elbow" 2) = Some (1%nat, true, false)).
  { unfold due_write, feedback_stale, desired. cbv zeta. cbn [arm_motor Config.joint]. now rewrite He. }
  change (omap id [due_write s false true t rx None 0 (arm_motor "shoulder" 1);
                   due_write s false true t rx None 1 (arm_motor "elbow" 2)]
          = [(0%nat, true, false); (1%nat, true, false)]).
  now rewrite D0, D1.
Qed.

Lemma shoulder_retry (s : ActiveReportingState) (bus : MemoryBus) (t : Z) :
  slot_free s "can0" t = true ->
  sync_write s (mkSpy bus []) arm_pair [] t (0%nat, true, false)
  = ([], record_on (take_slot s "can0" t) "shoulder" t,
     mkSpy (memory_send_frame bus (reporting_frame (arm_motor "shoulder" 1) true)).2
       [(mkAddress "can0" 1, reporting_frame (arm_motor "shoulder" 1) true, true)]).
Proof.
  intros Hf. change (sync_write s (mkSpy bus []) arm_pair [] t (0%nat, true, false)) with
    (if negb (slot_free s "can0" t) then ([], s, mkSpy bus [])
     else ([] : list string, record_on (take_slot s "can0" t) "shoulder" t,
       mkSpy (memory_send_frame bus (reporting_frame (arm_motor "shoulder" 1) true)).2
         [(mkAddress "can0" 1, reporting_frame (arm_motor "shoulder" 1) true, true)])).
  now rewrite Hf.
Qed.

Lemma elbow_blocked (s : ActiveReportingState) (bus : Spy MemoryBus) (t : Z) :
  last_write_by_interface s !! "can0"%string = Some t ->
  sync_write s bus arm_pair [] t (1%nat, true, false) = ([], s, bus).
Proof.
  intros Hw. unfold sync_write. cbn [lookup list_lookup arm_pair]. cbn [str_in existsb].
  unfold slot_free. cbn [arm_motor Config.can_interface]. rewrite Hw. unfold since.
  rewrite Z.sub_diag. reflexivity.
Qed.

Lemma waiting_step (s : ActiveReportingState) (bus : MemoryBus) (t last : Z) :
  ACTIVE_REPORTING_FEEDBACK_STALE <= t -> last + ACTIVE_REPORTING_WRITE_SPACING <= t -> elbow_waits s last ->
  exists s' bus', elbow_waits s' t /\
    report_step arm_pair s bus t shoulder_silent
    = (s', bus', [(mkAddress "can0" 1, reporting_frame (arm_motor "shoulder" 1) true, true)]).
Proof.
  intros Ht Hl (Hs & He & Hw). unfold shoulder_silent. cbn [report_step]. unfold sync_holding.
  set (s1 := (expire_stale s t).2).
  assert (Hs1 : applied_on s1 "shoulder" = true) by exact Hs.
  assert (He1 : applied_on s1 "elbow" = false) by exact He.
  assert (Hw1 : last_write_by_interface s1 !! "can0"%string = Some last) by exact Hw.
  clearbody s1. rewrite (waiting_heartbeat s1 t Ht He1), (waiting_due s1 t Ht Hs1 He1).
  change (sort_due [(0%nat, true, false); (1%nat, true, false)])
    with [(0%nat, true, false); (1%nat, true, false)].
  cbn [sync_write_all]. rewrite shoulder_retry.
  2:{ unfold slot_free. rewrite Hw1. apply Z.leb_le. unfold since, ACTIVE_REPORTING_WRITE_SPACING in *. lia. }
  rewrite elbow_blocked by (simpl; now rewrite lookup_insert_eq).
  eexists _, _. split; [|reflexivity]. split; [|split].
  - unfold applied_on. simpl. now rewrite lookup_insert_eq.
  - unfold applied_on. simpl. rewrite lookup_insert_ne by discriminate. exact He1.
  - simpl. now rewrite lookup_insert_eq.
Qed.

Lemma waiting_run (n : nat) : forall (s : ActiveReportingState) (bus : MemoryBus) (t last : Z),
  ACTIVE_REPORTING_FEEDBACK_STALE <= t -> last + ACTIVE_REPORTING_WRITE_SPACING <= t -> elbow_waits s last ->
  let out := report_run arm_pair s bus (syncs_every n t) in
  applied_on out.1.1 "elbow" = false /\ length out.2 = n /\
  Forall (fun w => w.2.1.1 = mkAddress "can0" 1) out.2.
Proof.
  induction n as [|n IH]; intros s bus t last Ht Hl Hw; cbn [syncs_every report_run].
  - destruct Hw as (_ & He & _). auto.
  - destruct (waiting_step s bus t last Ht Hl Hw) as (s1 & b1 & Hw1 & E). rewrite E.
    specialize (IH s1 b1 (t + ACTIVE_REPORTING_WRITE_SPACING) t).
    destruct IH as (I1 & I2 & I3); [unfold ACTIVE_REPORTING_WRITE_SPACING; lia|lia|exact Hw1|].
    destruct (report_run arm_pair s1 b1 _) as [[s2 b2] l2]. simpl in *. auto.
Qed.

(** C38: a stream that went silent keeps its interface to itself: with diagnostics
    on and a first motor last heard 200 ms ago, every one of any number of
    syncs at the control period retries that motor, and the second motor's first
    On is never written. *)
Theorem stale_retry_starves_peer (n : nat) :
  let out := report_run arm_pair reporting_default quiet_bus
               ((0, shoulder_silent) :: syncs_every n 200000000) in
  applied_on out.1.1 "elbow" = false /\ length out.2 = S n /\
  Forall (fun w => w.2.1.1 = mkAddress "can0" 1) out.2.
Proof.
  cbn [report_run].
  destruct (report_step arm_pair reporting_default quiet_bus 0 shoulder_silent) as [[s1 b1] l1] eqn:E.
  vm_compute in E. injection E as <- <- <-.
  match goal with |- context [report_run arm_pair ?s ?b _] =>
    pose proof (waiting_run n s b 200000000 0) as W;
    destruct (report_run arm_pair s b (syncs_every n 200000000)) as [[s2 b2] l2] end.
  destruct W as (I1 & I2 & I3); [unfold ACTIVE_REPORTING_FEEDBACK_STALE; lia|
    unfold ACTIVE_REPORTING_WRITE_SPACING; lia|repeat split; vm_compute; reflexivity|].
  simpl in *. auto.
Qed.

End Reporting.
