(* ===== verification/Faults.v ===== *)
(** * Persistent safety authority ([crates/davout/src/faults.rs])

    The latch behind every stop: fault records deduplicated by class and address,
    warnings, stop generations and stop reports.  [Instant::now()] is an argument
    of the operations that read it.  A [String] is a Rocq [string]; one
    character of it is one Rust [char]. *)

From Stdlib Require Import ZArith Lia Bool String Ascii.
From stdpp Require Import base strings list relations.
From S2P Require Import Prelude Float Comm Bus.

Module Faults.
Import Bus.

Inductive FaultClass : Type :=
| FDevice
| FFeedback
| FDriveState
| FCommunication
| FTransport
| FController
| FHardwareEstop
| FStopDelivery
| FWrongSign
| FDangerZone.

#[global] Instance FaultClass_eq_dec : EqDecision FaultClass.
Proof. solve_decision. Defined.

Record DeviceFaultEvidence : Type := mkDevice {
  status_flags : Z;
  detailed_fault_bytes : list Z;
  warning_bytes : list Z;
  partial_fault_bytes : list Z;
  partial_fault_available : Z;
  partial_warning_bytes : list Z;
  partial_warning_available : Z;
  drive_mode : option Z;
  dev_received_at : option Z;
}.

Definition zeros4 : list Z := [0; 0; 0; 0].
Definition device_default : DeviceFaultEvidence :=
  mkDevice 0 zeros4 zeros4 zeros4 0 zeros4 0 None None.

(** [for (stored, observed) in a.iter_mut().zip(b) { *stored |= observed }]. *)
Fixpoint or_bytes (a b : list Z) : list Z :=
  match a, b with
  | x :: a, y :: b => Z.lor x y :: or_bytes a b
  | a, _ => a
  end.

(** [Option]'s derived order: [None] below every [Some]. *)
Definition option_gt (a b : option Z) : bool :=
  match a, b with
  | Some x, Some y => y <? x
  | Some _, None => true
  | None, _ => false
  end.

Definition device_merge (d o : DeviceFaultEvidence) : DeviceFaultEvidence :=
  mkDevice (Z.lor (status_flags d) (status_flags o))
    (or_bytes (detailed_fault_bytes d) (detailed_fault_bytes o))
    (or_bytes (warning_bytes d) (warning_bytes o))
    (or_bytes (partial_fault_bytes d) (partial_fault_bytes o))
    (Z.lor (partial_fault_available d) (partial_fault_available o))
    (or_bytes (partial_warning_bytes d) (partial_warning_bytes o))
    (Z.lor (partial_warning_available d) (partial_warning_available o))
    (match drive_mode o with Some m => Some m | None => drive_mode d end)
    (if option_gt (dev_received_at o) (dev_received_at d) then dev_received_at o
     else dev_received_at d).

Record ReceiveFrameEvidence : Type := mkFrameEvidence {
  fe_interface : option string;
  fe_can_id : Z;
  fe_extended : bool;
  fe_received_at : Z;
  fe_raw : list Z;
  fe_payload_len : Z;
  fe_kind : RxFrameKind;
  fe_reason : option MalformedReason;
}.

Record ReceiveDrainEvidence : Type := mkDrainEvidence {
  de_completion : ReceiveCompletion;
  de_raw_frames : nat;
  de_read_attempts : nat;
}.

Record ReceiveFaultEvidence : Type := mkReceiveEvidence {
  first_frame : option ReceiveFrameEvidence;
  latest_frame : option ReceiveFrameEvidence;
  frame_count : Z;
  first_incomplete : option ReceiveDrainEvidence;
  latest_incomplete : option ReceiveDrainEvidence;
  incomplete_count : Z;
}.

Definition receive_default : ReceiveFaultEvidence := mkReceiveEvidence None None 0 None None 0.
Definition receive_frame (f : ReceiveFrameEvidence) : ReceiveFaultEvidence :=
  mkReceiveEvidence (Some f) (Some f) 1 None None 0.
Definition receive_incomplete (d : ReceiveDrainEvidence) : ReceiveFaultEvidence :=
  mkReceiveEvidence None None 0 (Some d) (Some d) 1.

Definition or_else {A : Type} (a b : option A) : option A :=
  match a with Some _ => a | None => b end.

Definition receive_merge (r o : ReceiveFaultEvidence) : ReceiveFaultEvidence :=
  mkReceiveEvidence (or_else (first_frame r) (first_frame o))
    (or_else (latest_frame o) (latest_frame r))
    (sat_add_u64 (frame_count r) (frame_count o))
    (or_else (first_incomplete r) (first_incomplete o))
    (or_else (latest_incomplete o) (latest_incomplete r))
    (sat_add_u64 (incomplete_count r) (incomplete_count o)).

Record FaultRecord : Type := mkFault {
  fault_id : Z;
  fault_class : FaultClass;
  fault_joint : option string;
  fault_address : option MotorAddress;
  first_seen : Z;
  last_seen : Z;
  fault_message : string;
  fault_device : DeviceFaultEvidence;
  fault_receive : ReceiveFaultEvidence;
}.

Record DeviceWarning : Type := mkWarning {
  w_joint : string;
  w_address : MotorAddress;
  w_first_seen : Z;
  w_last_seen : Z;
  w_bytes : list Z;
}.

Inductive StopAction : Type := ZeroSpeed | NeutralMit | DisableDrive.

(** The source keeps the error as its rendered text. *)
Record StopAttempt : Type := mkAttempt {
  at_address : MotorAddress;
  at_action : StopAction;
  at_error : option BusError;
}.

Record StopReport : Type := mkStopReport { generation : Z; attempts : list StopAttempt }.

Definition failed_writes (r : StopReport) : nat :=
  length (filter (fun a => is_Some (at_error a)) (attempts r)).

Record FaultAuthority : Type := mkAuthority {
  faults : list FaultRecord;
  warnings : list DeviceWarning;
  stop_generation : Z;
  last_stop : option StopReport;
  first_failed_stop : option StopReport;
}.

Definition authority_default : FaultAuthority := mkAuthority [] [] 0 None None.

Record SafetySnapshot : Type := mkSnapshot {
  sn_faults : list FaultRecord;
  sn_observed_warnings : list DeviceWarning;
  sn_stop_generation : Z;
  hardware_estop_asserted : bool;
  sn_last_stop : option StopReport;
  sn_first_failed_stop : option StopReport;
  recovery_available : bool;
}.

Definition snapshot (a : FaultAuthority) (estop : bool) : SafetySnapshot :=
  mkSnapshot (faults a) (warnings a) (stop_generation a) estop (last_stop a)
    (first_failed_stop a) false.

(** ** Messages *)

Definition MAX_FAULT_MESSAGE_LEN : nat := 1024.

(** [chars().take(n).collect()]. *)
Definition take_chars (n : nat) (s : string) : string := substring 0 n s.

Definition bounded_message (s : string) : string := take_chars 512 s.

(** [str::contains]. *)
Fixpoint str_contains (s pat : string) : bool :=
  String.prefix pat s || match s with EmptyString => false | String _ rest => str_contains rest pat end.

Definition append_cause (existing incoming : string) : string :=
  if negb (String.eqb incoming "") && negb (str_contains existing incoming)
     && (String.length existing <? MAX_FAULT_MESSAGE_LEN)%nat
  then take_chars MAX_FAULT_MESSAGE_LEN (existing ++ "; " ++ incoming)
  else existing.

(** ** Operations *)

Definition is_latched (a : FaultAuthority) : bool :=
  match faults a with [] => false | _ => true end.

Definition first_fault (a : FaultAuthority) : option FaultRecord := head (faults a).

Definition joint_is_faulted (a : FaultAuthority) (j : string) : bool :=
  existsb (fun f => match fault_joint f with None => true | Some n => String.eqb n j end) (faults a).

(** Apply [f] to the first element [p] accepts: [iter_mut().find(..)]. *)
Fixpoint update_first {A : Type} (p : A -> bool) (f : A -> A) (l : list A) : option (list A) :=
  match l with
  | [] => None
  | x :: rest => if p x then Some (f x :: rest) else (cons x) <$> update_first p f rest
  end.

Definition record_warning (a : FaultAuthority) (j : string) (addr : MotorAddress) (bytes : list Z)
  (now : Z) : FaultAuthority :=
  if bool_decide (bytes = zeros4) then a
  else
    let ws := match update_first (fun w => bool_decide (w_address w = addr))
                      (fun w => mkWarning (w_joint w) (w_address w) (w_first_seen w) now
                                  (or_bytes (w_bytes w) bytes)) (warnings a) with
              | Some ws => ws
              | None => warnings a ++ [mkWarning j addr now now bytes]
              end in
    mkAuthority (faults a) ws (stop_generation a) (last_stop a) (first_failed_stop a).

Definition same_hazard (c : FaultClass) (addr : option MotorAddress) (f : FaultRecord) : bool :=
  bool_decide (fault_class f = c) && bool_decide (fault_address f = addr).

Definition accumulate (now : Z) (m : string) (d : DeviceFaultEvidence) (f : FaultRecord) : FaultRecord :=
  mkFault (fault_id f) (fault_class f) (fault_joint f) (fault_address f) (first_seen f) now
    (append_cause (fault_message f) (bounded_message m)) (device_merge (fault_device f) d)
    (fault_receive f).

(** Returns true only for the first transition into the latched state. *)
Definition record (a : FaultAuthority) (c : FaultClass) (j : option string)
  (addr : option MotorAddress) (m : string) (d : DeviceFaultEvidence) (now : Z)
  : bool * FaultAuthority :=
  match update_first (same_hazard c addr) (accumulate now m d) (faults a) with
  | Some fs =>
      (false, mkAuthority fs (warnings a) (stop_generation a) (last_stop a) (first_failed_stop a))
  | None =>
      let first := negb (is_latched a) in
      let f := mkFault (Z.of_nat (List.length (faults a)) + 1) c j addr now now (bounded_message m) d
                 receive_default in
      (first, mkAuthority (faults a ++ [f]) (warnings a) (stop_generation a) (last_stop a)
                (first_failed_stop a))
  end.

Definition with_receive (r : ReceiveFaultEvidence) (f : FaultRecord) : FaultRecord :=
  mkFault (fault_id f) (fault_class f) (fault_joint f) (fault_address f) (first_seen f) (last_seen f)
    (fault_message f) (fault_device f) (receive_merge (fault_receive f) r).

Definition record_receive (a : FaultAuthority) (c : FaultClass) (j : option string)
  (addr : option MotorAddress) (m : string) (d : DeviceFaultEvidence) (r : ReceiveFaultEvidence)
  (now : Z) : bool * FaultAuthority :=
  let '(first, a) := record a c j addr m d now in
  match update_first (same_hazard c addr) (with_receive r) (faults a) with
  | Some fs =>
      (first, mkAuthority fs (warnings a) (stop_generation a) (last_stop a) (first_failed_stop a))
  | None => (first, a)
  end.

Definition begin_stop (a : FaultAuthority) : Z * FaultAuthority :=
  let g := sat_add_u64 (stop_generation a) 1 in
  (g, mkAuthority (faults a) (warnings a) g (last_stop a) (first_failed_stop a)).

Definition set_stop_report (a : FaultAuthority) (r : StopReport) : FaultAuthority :=
  let failed := if (0 <? failed_writes r)%nat && negb (bool_decide (is_Some (first_failed_stop a)))
                then Some r else first_failed_stop a in
  mkAuthority (faults a) (warnings a) (stop_generation a) (Some r) failed.

(** ** One step of the authority: every operation Davout applies to it *)

Inductive fault_step : FaultAuthority -> FaultAuthority -> Prop :=
| step_warning (a : FaultAuthority) (j : string) (addr : MotorAddress) (bytes : list Z) (now : Z) :
    fault_step a (record_warning a j addr bytes now)
| step_record (a : FaultAuthority) (c : FaultClass) (j : option string) (addr : option MotorAddress)
    (m : string) (d : DeviceFaultEvidence) (now : Z) :
    fault_step a (record a c j addr m d now).2
| step_receive (a : FaultAuthority) (c : FaultClass) (j : option string) (addr : option MotorAddress)
    (m : string) (d : DeviceFaultEvidence) (r : ReceiveFaultEvidence) (now : Z) :
    fault_step a (record_receive a c j addr m d r now).2
| step_begin_stop (a : FaultAuthority) : fault_step a (begin_stop a).2
| step_report (a : FaultAuthority) (r : StopReport) : fault_step a (set_stop_report a r).

(** ** Invariant: numbered records, one per hazard, bounded messages *)

Record authority_inv (a : FaultAuthority) : Prop := {
  inv_ids : fault_id <$> faults a = (fun n => Z.of_nat n + 1) <$> seq 0 (List.length (faults a));
  inv_unique : NoDup ((fun f => (fault_class f, fault_address f)) <$> faults a);
  inv_messages : Forall (fun f => (String.length (fault_message f) <= MAX_FAULT_MESSAGE_LEN)%nat) (faults a);
  inv_generation : is_u64 (stop_generation a);
}.

(** A record keeps its identity and loses no status evidence. *)
Definition record_grows (f g : FaultRecord) : Prop :=
  fault_id g = fault_id f /\ fault_class g = fault_class f /\ fault_joint g = fault_joint f /\
  fault_address g = fault_address f /\ first_seen g = first_seen f /\
  Z.lor (status_flags (fault_device f)) (status_flags (fault_device g)) = status_flags (fault_device g).

#[global] Instance record_grows_refl : Reflexive record_grows.
Proof. intros f. repeat split. apply Z.lor_diag. Qed.

#[global] Instance record_grows_trans : Transitive record_grows.
Proof.
  intros f g h (? & ? & ? & ? & ? & Hfg) (? & ? & ? & ? & ? & Hgh).
  repeat split; try congruence. rewrite <- Hgh at 1.
  rewrite Z.lor_assoc, Hfg. exact Hgh.
Qed.

Lemma Forall2_same {A : Type} (R : A -> A -> Prop) `{!Reflexive R} (l : list A) : Forall2 R l l.
Proof. induction l; constructor; auto. Qed.

(** The records of [a] are still there in [b], in place. *)
Definition faults_grow (a b : FaultAuthority) : Prop :=
  exists kept new, faults b = kept ++ new /\ Forall2 record_grows (faults a) kept.

#[global] Instance faults_grow_refl : Reflexive faults_grow.
Proof. intros a. exists (faults a), []. split; [now rewrite app_nil_r|]. apply (Forall2_same _). Qed.

#[global] Instance faults_grow_trans : Transitive faults_grow.
Proof.
  intros a b c (k1 & n1 & E1 & F1) (k2 & n2 & E2 & F2). rewrite E1 in F2.
  apply Forall2_app_inv_l in F2 as (k3 & k4 & F3 & F4 & ->).
  exists k3, (k4 ++ n2). rewrite E2, app_assoc. split; [reflexivity|].
  etransitivity; [exact F1|exact F3].
Qed.

Lemma update_first_grows {A : Type} (R : A -> A -> Prop) `{!Reflexive R} (p : A -> bool) (f : A -> A)
  (l l' : list A) :
  (forall x, R x (f x)) -> update_first p f l = Some l' -> Forall2 R l l'.
Proof.
  intros Hf. revert l'. induction l as [|x l IH]; simpl; intros l' H; [discriminate|].
  destruct (p x).
  - inv H. constructor; [apply Hf|]. apply (Forall2_same _).
  - apply fmap_Some in H as (l1 & H1 & ->). constructor; [reflexivity|auto].
Qed.

Lemma update_first_none {A : Type} (p : A -> bool) (f : A -> A) (l : list A) :
  update_first p f l = None <-> Forall (fun x => p x = false) l.
Proof.
  induction l as [|x l IH]; simpl; [split; [constructor|reflexivity]|].
  rewrite Forall_cons. destruct (p x); [intuition discriminate|].
  rewrite fmap_None, IH. intuition.
Qed.

(** Updates preserve what the update function preserves. *)
Lemma update_first_fmap {A B : Type} (g : A -> B) (p : A -> bool) (f : A -> A) (l l' : list A) :
  (forall x, g (f x) = g x) -> update_first p f l = Some l' -> g <$> l' = g <$> l.
Proof.
  intros Hg. revert l'. induction l as [|x l IH]; simpl; intros l' H; [discriminate|].
  destruct (p x); [inv H; simpl; now rewrite Hg|].
  apply fmap_Some in H as (l1 & H1 & ->). simpl. f_equal. auto.
Qed.

Lemma update_first_Forall {A : Type} (P : A -> Prop) (p : A -> bool) (f : A -> A) (l l' : list A) :
  (forall x, P x -> P (f x)) -> Forall P l -> update_first p f l = Some l' -> Forall P l'.
Proof.
  intros Hf Hl. revert l'. induction Hl as [|x l Hx Hl IH]; simpl; intros l' H; [discriminate|].
  destruct (p x); [inv H; constructor; auto|].
  apply fmap_Some in H as (l1 & H1 & ->). constructor; auto.
Qed.

Lemma substring_length (n : nat) (s : string) : (String.length (substring 0 n s) <= n)%nat.
Proof. revert n. induction s as [|c s IH]; intros [|n]; simpl; [lia..|]. specialize (IH n). lia. Qed.

Lemma append_cause_length (e i : string) :
  (String.length e <= MAX_FAULT_MESSAGE_LEN)%nat ->
  (String.length (append_cause e i) <= MAX_FAULT_MESSAGE_LEN)%nat.
Proof. intros H. unfold append_cause. destruct (_ && _); [apply substring_length|exact H]. Qed.

Lemma accumulate_grows (now : Z) (m : string) (d : DeviceFaultEvidence) (f : FaultRecord) :
  record_grows f (accumulate now m d f).
Proof. repeat split. simpl. now rewrite Z.lor_assoc, Z.lor_diag. Qed.

Lemma with_receive_grows (r : ReceiveFaultEvidence) (f : FaultRecord) :
  record_grows f (with_receive r f).
Proof. repeat split. apply Z.lor_diag. Qed.

Lemma record_faults_grow (a : FaultAuthority) (c : FaultClass) (j : option string)
  (addr : option MotorAddress) (m : string) (d : DeviceFaultEvidence) (now : Z) :
  faults_grow a (record a c j addr m d now).2.
Proof.
  unfold record. destruct (update_first _ _ _) as [fs|] eqn:E; simpl.
  - exists fs, []. split; [now rewrite app_nil_r|].
    eapply update_first_grows; [exact record_grows_refl|apply accumulate_grows|exact E].
  - exists (faults a). eexists. split; [reflexivity|]. apply (Forall2_same _).
Qed.

Lemma update_receive_grow (a : FaultAuthority) (p : FaultRecord -> bool) (r : ReceiveFaultEvidence)
  (fs : list FaultRecord) :
  update_first p (with_receive r) (faults a) = Some fs ->
  faults_grow a (mkAuthority fs (warnings a) (stop_generation a) (last_stop a) (first_failed_stop a)).
Proof.
  intros E. exists fs, []. simpl. split; [now rewrite app_nil_r|].
  eapply update_first_grows; [exact record_grows_refl|apply with_receive_grows|exact E].
Qed.

Lemma step_faults_grow (a b : FaultAuthority) : fault_step a b -> faults_grow a b.
Proof.
  intros [a0 j addr bytes now|a0 c j addr m d now|a0 c j addr m d r now|a0|a0 r].
  - unfold record_warning. destruct (bool_decide _); [reflexivity|].
    exact (faults_grow_refl a0).
  - apply record_faults_grow.
  - unfold record_receive. pose proof (record_faults_grow a0 c j addr m d now) as Hg.
    destruct (record a0 c j addr m d now) as [fst1 a1]. simpl in Hg.
    destruct (update_first _ _ _) as [fs|] eqn:E; [|exact Hg].
    etransitivity; [exact Hg|]. exact (update_receive_grow a1 _ r fs E).
  - exact (faults_grow_refl a0).
  - exact (faults_grow_refl a0).
Qed.

Lemma record_inv (a : FaultAuthority) (c : FaultClass) (j : option string)
  (addr : option MotorAddress) (m : string) (d : DeviceFaultEvidence) (now : Z) :
  authority_inv a -> authority_inv (record a c j addr m d now).2.
Proof.
  intros [Hid Hu Hm Hg]. unfold record.
  destruct (update_first _ _ _) as [fs|] eqn:E; simpl.
  - assert (Hl : List.length fs = List.length (faults a)).
    { eapply update_first_grows in E; [symmetry; exact (Forall2_length _ _ _ E)| |].
      - exact record_grows_refl.
      - apply accumulate_grows. }
    split; simpl; [| | |exact Hg].
    + rewrite Hl, <- Hid. eapply update_first_fmap; [|exact E]. reflexivity.
    + erewrite update_first_fmap; [exact Hu| |exact E]. reflexivity.
    + eapply update_first_Forall; [|exact Hm|exact E]. intros x. apply append_cause_length.
  - apply update_first_none in E. split; simpl; [| | |exact Hg].
    + rewrite fmap_app, length_app, seq_app, fmap_app, Hid. simpl. reflexivity.
    + rewrite fmap_app. apply NoDup_app. split; [exact Hu|]. split; [|apply NoDup_singleton].
      intros x Hx Hs. apply list_elem_of_singleton in Hs as ->.
      apply list_elem_of_fmap in Hx as (f & Hf & Hin). rewrite Forall_forall in E.
      specialize (E f Hin). unfold same_hazard in E. injection Hf as -> ->.
      rewrite !bool_decide_eq_true_2 in E by reflexivity. discriminate.
    + apply Forall_app. split; [exact Hm|]. constructor; [|constructor]. simpl.
      pose proof (substring_length 512 m). unfold bounded_message, take_chars, MAX_FAULT_MESSAGE_LEN. lia.
Qed.

Lemma update_receive_inv (a : FaultAuthority) (p : FaultRecord -> bool) (r : ReceiveFaultEvidence)
  (fs : list FaultRecord) :
  authority_inv a -> update_first p (with_receive r) (faults a) = Some fs ->
  authority_inv (mkAuthority fs (warnings a) (stop_generation a) (last_stop a) (first_failed_stop a)).
Proof.
  intros [Hid Hu Hm Hg] E.
  assert (Hl : List.length fs = List.length (faults a)).
  { eapply update_first_grows in E; [symmetry; exact (Forall2_length _ _ _ E)| |].
    - exact record_grows_refl.
    - apply with_receive_grows. }
  split; simpl; [| | |exact Hg].
  - rewrite Hl, <- Hid. eapply update_first_fmap; [|exact E]. reflexivity.
  - erewrite update_first_fmap; [exact Hu| |exact E]. reflexivity.
  - eapply update_first_Forall; [|exact Hm|exact E]. auto.
Qed.

Lemma step_inv (a b : FaultAuthority) : fault_step a b -> authority_inv a -> authority_inv b.
Proof.
  intros [a0 j addr bytes now|a0 c j addr m d now|a0 c j addr m d r now|a0|a0 r] Hi.
  - unfold record_warning. destruct (bool_decide _); [exact Hi|].
    destruct Hi. split; assumption.
  - now apply record_inv.
  - unfold record_receive. pose proof (record_inv a0 c j addr m d now Hi) as Hg.
    destruct (record a0 c j addr m d now) as [fst1 a1]. simpl in Hg.
    destruct (update_first _ _ _) as [fs|] eqn:E; [|exact Hg].
    exact (update_receive_inv a1 _ r fs Hg E).
  - destruct Hi. split; try assumption. simpl. apply sat_add_u64_range; [assumption|lia].
  - destruct Hi. split; assumption.
Qed.

Lemma default_inv : authority_inv authority_default.
Proof. split; simpl; try constructor; unfold U64_MAX; lia. Qed.

(** C18: faults are never cleared: along any sequence of operations on the
    authority, every record stays where it was with its id, class, joint, address
    and first sighting, its status flags only gain bits, and once latched the
    authority stays latched. *)
Theorem faults_persist (a b : FaultAuthority) (Hr : rtc fault_step a b) :
  faults_grow a b /\ (is_latched a = true -> is_latched b = true) /\
  (forall j, joint_is_faulted a j = true -> joint_is_faulted b j = true).
Proof.
  assert (Hg : faults_grow a b).
  { induction Hr as [x|x y z Hs _ IH]; [reflexivity|].
    etransitivity; [exact (step_faults_grow x y Hs)|exact IH]. }
  split; [exact Hg|]. destruct Hg as (kept & new & Hb & Hf). unfold is_latched, joint_is_faulted.
  rewrite Hb. split.
  - destruct Hf; [discriminate|reflexivity].
  - intros j. rewrite existsb_app. intros Hj. apply orb_true_intro. left.
    clear Hb. induction Hf as [|f g fs gs Hg _ IH]; [discriminate|].
    simpl in *. destruct Hg as (_ & _ & -> & _). apply orb_true_iff in Hj as [->|Hj]; [reflexivity|].
    rewrite (IH Hj). apply orb_true_r.
Qed.

Definition latched_once : FaultAuthority :=
  (record authority_default FTransport None None "bus down" device_default 10).2.

Lemma faults_persist_witness :
  faults_grow latched_once (begin_stop latched_once).2 /\
  (is_latched latched_once = true -> is_latched (begin_stop latched_once).2 = true) /\
  (forall j, joint_is_faulted latched_once j = true ->
     joint_is_faulted (begin_stop latched_once).2 j = true).
Proof. apply faults_persist. apply rtc_once. constructor. Defined.

(** the fault log is bounded and unambiguous: in every reachable state records
    are numbered 1, 2, 3, ... in order, no two have the same class and address,
    each message holds at most 1024 characters, and the stop generation fits in
    64 bits. *)
Theorem authority_invariant (a : FaultAuthority) (Hr : rtc fault_step authority_default a) :
  authority_inv a.
Proof.
  assert (H0 : authority_inv authority_default) by exact default_inv.
  induction Hr as [x|x y z Hs _ IH]; [exact H0|]. apply IH. exact (step_inv x y Hs H0).
Qed.

Lemma authority_invariant_witness : authority_inv latched_once.
Proof. apply authority_invariant. apply rtc_once. unfold latched_once. constructor. Defined.

(** [record] reports the first transition into the latched state, and only it:
    it answers true exactly when nothing was latched before, and the fault it was
    given is on record afterwards. *)
Theorem record_latches (a : FaultAuthority) (c : FaultClass) (j : option string)
  (addr : option MotorAddress) (m : string) (d : DeviceFaultEvidence) (now : Z) :
  (record a c j addr m d now).1 = negb (is_latched a) /\
  is_latched (record a c j addr m d now).2 = true /\
  Exists (fun f => fault_class f = c /\ fault_address f = addr /\ last_seen f = now)
    (faults (record a c j addr m d now).2).
Proof.
  unfold record. destruct (update_first _ _ _) as [fs|] eqn:E; simpl.
  - assert (Hx : Exists (fun f => fault_class f = c /\ fault_address f = addr /\ last_seen f = now) fs).
    { clear -E. revert fs E. induction (faults a) as [|f l IH]; simpl; intros fs E; [discriminate|].
      destruct (same_hazard c addr f) eqn:Eh.
      - inv E. left. unfold same_hazard in Eh. apply andb_prop in Eh as [H1 H2].
        apply bool_decide_eq_true in H1, H2. simpl. auto.
      - apply fmap_Some in E as (l1 & H1 & ->). right. auto. }
    split; [|split; [destruct Hx; reflexivity|exact Hx]].
    unfold is_latched. destruct (faults a); [discriminate|reflexivity].
  - split; [reflexivity|]. split; [unfold is_latched; simpl; destruct (faults a); reflexivity|].
    apply Exists_app. right. left. auto.
Qed.

(** The first stop that failed is kept whatever later stops report. *)
Lemma first_failed_stop_kept (a b : FaultAuthority) (r : StopReport) :
  fault_step a b -> first_failed_stop a = Some r -> first_failed_stop b = Some r.
Proof.
  intros [a0 j addr bytes now|a0 c j addr m d now|a0 c j addr m d rc now|a0|a0 rp] H.
  - unfold record_warning. destruct (bool_decide _); exact H.
  - unfold record. destruct (update_first _ _ _); exact H.
  - unfold record_receive, record. destruct (update_first _ (accumulate now m d) _); simpl;
      destruct (update_first _ (with_receive rc) _); exact H.
  - exact H.
  - unfold set_stop_report. simpl. rewrite H.
    rewrite bool_decide_eq_true_2 by eauto. now rewrite andb_false_r.
Qed.

End Faults.
