(* ===== verification/Davout.v ===== *)
(** * Shared vocabulary of the safety supervisor

    The modes, errors and cached states of [crates/davout/src/lib.rs] and
    [crates/robstride/src/state.rs] that its parts exchange. *)

From Stdlib Require Import ZArith Lia Bool SpecFloat.
From stdpp Require Import base gmap strings list.
From S2P Require Import Prelude Float Config Limits TotalTorque Bus Faults.

Module Davout.
Import Bus Faults.

Inductive OperationalMode : Type := Disabled | Ready | Active.
Inductive ControlMode : Type := CDisabled | GravityComp | Impedance | CPosition | TorqueOnly.

#[global] Instance OperationalMode_eq_dec : EqDecision OperationalMode.
Proof. solve_decision. Defined.
#[global] Instance ControlMode_eq_dec : EqDecision ControlMode.
Proof. solve_decision. Defined.

Inductive DavoutError : Type :=
| EConfig (e : Config.ConfigError)
| EUrdf (e : Limits.UrdfError)
| EBus (e : BusError)
| ELimit (joint : string) (m : message)
| ENotActive (mode : OperationalMode)
| EEstop
| EUnknownJoint (joint : string)
| EInactiveJoint (joint : string)
| ECommWatchdog (ms : Z) (joint : string) (interface : string) (device_id : Z) (age_ms : option Z)
| EInvalidCommand (joint : string) (m : message)
| EInvalidFeedback (joint : string) (m : message)
| EDangerZone (name joint : string)
| EInvalidMotorConfig (joint : string) (m : message)
| EMotorFault (joint : string) (fault : Z)
| EFaultLatched (id : Z) (class : FaultClass) (joint : option string) (m : string)
| EStopDelivery (failed_writes : nat)
| EHoming (m : message)
| EHomingVerify (joint : string) (m : message)
| EReferenceUnsupported (operation : string)
| EReferenceBusy (operation : string)
| EInstalledGenerationExhausted
| EReferenceModel (m : message)
| EWrongSignWatchdog (joint : string) (ticks : Z)
| ELimitPatchActive
| EActiveSetChangeRefused
| EProtocolInspection (m : message)
| EDegradedEpisode (joint : string) (m : string)
| EDriveLossPlan (joint : string) (m : message).

(** The errors of [total_torque.rs] are [DavoutError]s. *)
Definition of_torque (e : TotalTorque.TorqueError) : DavoutError :=
  match e with
  | TotalTorque.TInvalidCommand j m => EInvalidCommand j m
  | TotalTorque.TInvalidFeedback j m => EInvalidFeedback j m
  | TotalTorque.TLimit j m => ELimit j m
  end.

(** Cached motor feedback ([MotorState]). *)
Record MotorState : Type := mkMotorState {
  ms_position_rad : f32;
  ms_velocity_rad_s : f32;
  ms_torque_nm : f32;
  ms_temperature_c : f32;
  ms_fault : Z;
  ms_updated : option Z;
}.

Definition motor_state_default : MotorState := mkMotorState fzero fzero fzero fzero 0 None.

(** [t.elapsed()]: [Instant] subtraction saturates at zero. *)
Definition elapsed (t now : Z) : Z := Z.max 0 (now - t).

Definition is_stale (s : MotorState) (max_age now : Z) : bool :=
  match ms_updated s with None => true | Some t => max_age <? elapsed t now end.

(** [Duration::as_secs_f64]. *)
Definition as_secs_f64 (ns : Z) : f64 :=
  add64 (f64_of_Z (ns / 1000000000))
    (div64 (f64_of_Z (ns mod 1000000000)) (f64_of_Z 1000000000)).

Record WrongSignState : Type := mkWrongSignState {
  opposition_ticks : Z;
  ticks_since_enable : Z;
}.

Definition wrong_sign_default : WrongSignState := mkWrongSignState 0 0.

End Davout.
