(* ===== verification/Filter.v ===== *)
(** * Command filter of the safety supervisor

    Models the per-command half of [crates/davout/src/lib.rs]: [build_limits]
    (what each joint may do), [filter_mit_core] (gain caps, position envelope,
    danger zones, velocity cap, slewed torque cap, total-torque bound),
    [wrong_sign_step], and the joint/motor space conversions.  The two gated
    feedback reads of the filter are arguments ([published_state] is modelled with
    the supervisor). *)

From Stdlib Require Import ZArith Lia Bool SpecFloat.
From stdpp Require Import base gmap strings list.
From S2P Require Import Prelude Float Comm Config Validate Limits TotalTorque Params Mit Bus Faults Davout.

Module Filter.
Import Davout Limits TotalTorque.

(** ** Command validation and motor space *)

Definition validate_finite (j field : string) (value : f64) : result DavoutError unit :=
  refuse_if (negb (is_finite value)) (EInvalidCommand j (Msg "{field} must be finite" [AStr field])).

Definition validate_mit_command (c : MitJointCommand) : result DavoutError unit :=
  try_for_each (fun fv => validate_finite (mj_joint c) fv.1 fv.2) (command_fields c) ;!
  refuse_if (flt (mj_kp c) fzero || flt (mj_kd c) fzero)
    (EInvalidCommand (mj_joint c) (msg "kp/kd must be nonnegative")).

Definition checked_wire_float (j field : string) (value : f64) : result DavoutError f32 :=
  validate_finite j field value ;!
  let wire := f32_of_f64 value in
  refuse_if (negb (is_finite wire))
    (EInvalidCommand j (Msg "{field} overflows motor-space f32" [AStr field])) ;!
  Ok wire.

Definition motor_position_scale (m : Config.MotorEntry) : result DavoutError f64 :=
  refuse_if (negb ((Config.direction m =? -1) || (Config.direction m =? 1)))
    (EInvalidMotorConfig (Config.joint m) (msg "direction must be -1 or 1")) ;!
  refuse_if (negb (is_finite (Config.gear_ratio m)) || fle (Config.gear_ratio m) fzero)
    (EInvalidMotorConfig (Config.joint m) (msg "gear_ratio must be finite and positive")) ;!
  let direction := if Config.direction m <? 0 then f64_of_Z (-1) else f64_of_Z 1 in
  Ok (mul64 direction (Config.gear_ratio m)).

Definition joint_to_motor_command (m : Config.MotorEntry) (c : MitJointCommand)
  : result DavoutError Mit.MitCommand :=
  let! scale := motor_position_scale m in
  let gain_scale := sq64 scale in
  refuse_if (negb (is_finite gain_scale) || fle gain_scale fzero)
    (EInvalidMotorConfig (Config.joint m) (msg "gear ratio squared must be finite and nonzero")) ;!
  let! p := checked_wire_float (mj_joint c) "position" (mul64 (mj_position_rad c) scale) in
  let! v := checked_wire_float (mj_joint c) "velocity" (mul64 (mj_velocity_rad_s c) scale) in
  let! kp := checked_wire_float (mj_joint c) "kp" (div64 (mj_kp c) gain_scale) in
  let! kd := checked_wire_float (mj_joint c) "kd" (div64 (mj_kd c) gain_scale) in
  let! t := checked_wire_float (mj_joint c) "torque_ff" (div64 (mj_torque_ff_nm c) scale) in
  Ok (Mit.mkMitCommand (Config.device_id m) (Config.motor_type m) p v kp kd t).

Definition validate_motor_feedback (j : string) (s : MotorState) : result DavoutError unit :=
  try_for_each (fun fv : string * f32 => refuse_if (negb (is_finite fv.2))
      (EInvalidFeedback j (Msg "{field} must be finite" [AStr fv.1])))
    [("position"%string, ms_position_rad s); ("velocity"%string, ms_velocity_rad_s s);
     ("torque"%string, ms_torque_nm s); ("temperature"%string, ms_temperature_c s)].

Definition motor_to_joint_state (m : Config.MotorEntry) (raw : MotorState)
  : result DavoutError MotorState :=
  let! scale := motor_position_scale m in
  Ok (mkMotorState
    (f32_of_f64 (div64 (f64_of_f32 (ms_position_rad raw)) scale))
    (f32_of_f64 (div64 (f64_of_f32 (ms_velocity_rad_s raw)) scale))
    (f32_of_f64 (mul64 (f64_of_f32 (ms_torque_nm raw)) scale))
    (ms_temperature_c raw) (ms_fault raw) (ms_updated raw)).

Definition is_motor_address (a : Bus.MotorAddress) (m : Config.MotorEntry) : bool :=
  (Bus.device a =? Config.device_id m) && String.eqb (Bus.interface a) (Config.can_interface m).

(** ** Torque feedforward slew and cap *)

Definition rate_limit_tau_ff (previous : option f64) (target rate_nm_s : f64)
  (since_last_tick : option Z) (torque_cap_nm : f64) : result DavoutError f64 :=
  let! prev := fclamp (default fzero previous) (fneg torque_cap_nm) torque_cap_nm in
  let! target := fclamp target (fneg torque_cap_nm) torque_cap_nm in
  let! dt := fclamp (match since_last_tick with Some ns => as_secs_f64 ns | None => lit64 1 100 end)
               (lit64 1 10000) (lit64 1 100) in
  let max_step := mul64 rate_nm_s dt in
  let! delta := fclamp (sub64 target prev) (fneg max_step) max_step in
  fclamp (add64 prev delta) (fneg torque_cap_nm) torque_cap_nm.

(** ** Per-joint limits from URDF, bench and control configuration *)

Definition limit_margin_from_config (c : Config.JointControlEntry) : LimitMarginConfig :=
  mkMargin (Config.position_limit_margin_min_rad c) (Config.position_limit_margin_k_v_s c)
    (Config.position_limit_margin_k_stop c) (Config.position_trajectory_velocity_deadband_rad c)
    (Config.position_limit_measured_fault_slack_rad c) (Config.position_trajectory_accel_rad_s2 c).

Definition build_joint_limits (robot : Config.RobotSection) (motors : list Config.MotorEntry)
  (control : Config.ControlSection) (urdf_robot : list UrdfJoint) (joint_name : string)
  : result DavoutError JointLimitPolicy :=
  let! urdf_lim := map_err EUrdf (joint_limits urdf_robot joint_name) in
  let! b0 := map_err EUrdf (joint_limit_bounds urdf_robot joint_name) in
  let! motor := ok_or (Config.motor_for_joint motors joint_name) (EUnknownJoint joint_name) in
  let bench := Config.bench motor in
  let hl := fmax (l_lower urdf_lim) (Config.position_lower_rad bench) in
  let hu := fmin (l_upper urdf_lim) (Config.position_upper_rad bench) in
  refuse_if (fge hl hu)
    (ELimit joint_name (Msg "URDF [{}, {}] and bench [{}, {}] hard bounds do not overlap"
       [AF64 (l_lower urdf_lim); AF64 (l_upper urdf_lim);
        AF64 (Config.position_lower_rad bench); AF64 (Config.position_upper_rad bench)])) ;!
  let! joint_cfg := ok_or (hget (Config.control_joints control) joint_name)
    (ELimit joint_name (Msg "missing control.joints.{joint_name}" [AStr joint_name])) in
  let! sl := match Config.position_soft_lower_rad joint_cfg with
             | Some lo => fclamp lo hl hu | None => Ok (b_soft_lower b0) end in
  let! su := match Config.position_soft_upper_rad joint_cfg with
             | Some hi => fclamp hi hl hu | None => Ok (b_soft_upper b0) end in
  let! sl := fclamp sl hl hu in
  let! su := fclamp su hl hu in
  refuse_if (flt sl hl || fgt su hu)
    (ELimit joint_name (Msg "soft [{}, {}] not within hard [{}, {}]"
       [AF64 sl; AF64 su; AF64 hl; AF64 hu])) ;!
  let type_key := Config.motor_type_key (Config.motor_type motor) in
  let! defaults := ok_or (hget (Config.motor_type_defaults control) type_key)
    (ELimit joint_name (Msg "missing motor_type_defaults.{type_key}" [AStr type_key])) in
  let! velocity := map_err EConfig
    (Config.resolve_joint_velocity_cap joint_name (Config.motor_type motor) control) in
  let effort := fmin (fmin (l_effort urdf_lim) (Config.torque_limit_nm bench))
                  (Config.bench_max_joint_torque_nm robot) in
  Ok (mkPolicy (mkBounds hl hu sl su) (limit_margin_from_config joint_cfg) velocity effort
        (fmin effort (Config.tau_ff_max_nm defaults))).

Fixpoint build_limits_from (robot : Config.RobotSection) (motors : list Config.MotorEntry)
  (control : Config.ControlSection) (urdf_robot : list UrdfJoint) (joints : list string)
  (m : gmap string JointLimitPolicy) : result DavoutError (gmap string JointLimitPolicy) :=
  match joints with
  | [] => Ok m
  | j :: rest =>
      let! p := build_joint_limits robot motors control urdf_robot j in
      build_limits_from robot motors control urdf_robot rest (<[j := p]> m)
  end.

Definition build_limits (robot : Config.RobotSection) (motors : list Config.MotorEntry)
  (control : Config.ControlSection) (urdf_robot : list UrdfJoint)
  : result DavoutError (gmap string JointLimitPolicy) :=
  build_limits_from robot motors control urdf_robot (Config.robot_joints robot) ∅.

(** ** The filter *)

(** The supervisor fields the filter reads. *)
Record FilterContext : Type := mkCtx {
  limits : gmap string JointLimitPolicy;
  control : Config.ControlSection;
  control_mode : ControlMode;
  last_tau_ff : gmap string f64;
  wrong_sign_state : gmap string WrongSignState;
}.

Record FilteredMit : Type := mkFiltered {
  f_out : MitJointCommand;
  q_meas : f64;
  dq_meas : f64;
  total_torque : option TotalTorqueClamp;
  envelope_clamped : bool;
}.

Definition with_velocity (c : MitJointCommand) (v : f64) : MitJointCommand :=
  mkMitJoint (mj_joint c) (mj_kp c) (mj_kd c) (mj_position_rad c) v (mj_torque_ff_nm c).
Definition with_torque (c : MitJointCommand) (t : f64) : MitJointCommand :=
  mkMitJoint (mj_joint c) (mj_kp c) (mj_kd c) (mj_position_rad c) (mj_velocity_rad_s c) t.
Definition with_position (c : MitJointCommand) (p : f64) : MitJointCommand :=
  mkMitJoint (mj_joint c) (mj_kp c) (mj_kd c) p (mj_velocity_rad_s c) (mj_torque_ff_nm c).

(** Whether a danger-zone rule applies to this measurement. *)
Definition zone_active (rule : Config.DangerZoneRule) (j : string) (q dq : f64) : bool :=
  String.eqb (Config.dz_joint rule) j
  && negb (fle q (Config.position_above_rad rule) || fge dq (Config.velocity_below_rad_s rule)).

Definition apply_zone (rule : Config.DangerZoneRule) (c : MitJointCommand) (torque_cap : f64)
  : result DavoutError (MitJointCommand * f64) :=
  if String.eqb (Config.action rule) "clamp_velocity" then
    let v := if flt (mj_velocity_rad_s c) fzero
             then fmax (mj_velocity_rad_s c) (fneg (Config.max_velocity_rad_s rule))
             else fmin (mj_velocity_rad_s c) (Config.max_velocity_rad_s rule) in
    Ok (with_velocity c v, torque_cap)
  else if String.eqb (Config.action rule) "clamp_torque" then
    let! cap := ok_or (Config.max_torque_nm rule)
      (EInvalidMotorConfig (mj_joint c)
         (Msg "danger zone {} has no max_torque_nm" [AStr (Config.dz_name rule)])) in
    let cap := fmax cap fzero in
    let! t := fclamp (mj_torque_ff_nm c) (fneg cap) cap in
    Ok (with_torque c t, fmin torque_cap cap)
  else Err (EInvalidMotorConfig (mj_joint c)
         (Msg "danger zone {} has unknown action {action}"
            [AStr (Config.dz_name rule); AStr (Config.action rule)])).

Fixpoint apply_zones (rules : list Config.DangerZoneRule) (c : MitJointCommand) (q dq torque_cap : f64)
  : result DavoutError (MitJointCommand * f64) :=
  match rules with
  | [] => Ok (c, torque_cap)
  | rule :: rest =>
      if negb (zone_active rule (mj_joint c) q dq) then apply_zones rest c q dq torque_cap
      else let! ct := apply_zone rule c torque_cap in apply_zones rest ct.1 q dq ct.2
  end.

Definition apply_danger_zone_clamps (ctx : FilterContext) (c : MitJointCommand) (q dq : f64)
  : result DavoutError (MitJointCommand * f64) :=
  apply_zones (Config.danger_zones (control ctx)) c q dq finfinity.

Definition EPS : f64 := lit64 1 1000000000. (* 1e-9 *)

(** The velocity the position envelope is scaled by. *)
Definition envelope_velocity (requested measured : f64) : f64 :=
  if fge (fabs requested) (fabs measured) then requested
  else if fgt (fabs measured) EPS then measured
  else requested.

Definition outside_hard (lim : JointLimitPolicy) (p : f64) : bool :=
  flt p (hard_lower lim) || fgt p (hard_upper lim).

Definition filter_mit_core (ctx : FilterContext) (cmd : MitJointCommand) (motor : Config.MotorEntry)
  (fb_q fb_dq : option MotorState) (since_previous_tick : option Z)
  : result DavoutError FilteredMit :=
  validate_mit_command cmd ;!
  let! lim := ok_or (limits ctx !! mj_joint cmd) (EUnknownJoint (mj_joint cmd)) in
  let type_key := Config.motor_type_key (Config.motor_type motor) in
  let! defaults := ok_or (hget (Config.motor_type_defaults (control ctx)) type_key)
    (ELimit (mj_joint cmd) (Msg "no defaults for motor type {type_key}" [AStr type_key])) in
  let! scale := motor_position_scale motor in
  let gain_scale := sq64 scale in
  refuse_if (negb (is_finite gain_scale) || fle gain_scale fzero
             || fgt (div64 (mj_kp cmd) gain_scale) (Config.kp_max defaults)
             || fgt (div64 (mj_kd cmd) gain_scale) (Config.kd_max defaults))
    (ELimit (mj_joint cmd) (msg "motor-space kp/kd exceed motor type max")) ;!
  let q_meas := match fb_q with
                | Some s => f64_of_f32 (ms_position_rad s) | None => mj_position_rad cmd end in
  let dq_meas := match fb_dq with
                 | Some s => f64_of_f32 (ms_velocity_rad_s s) | None => fzero end in
  let dq_envelope := envelope_velocity (mj_velocity_rad_s cmd) dq_meas in
  let keepalive := feq (mj_kp cmd) fzero && feq (mj_kd cmd) fzero && feq (mj_torque_ff_nm cmd) fzero in
  let! pc :=
    if negb keepalive then
      let clamped := clamp_position_in_envelope lim q_meas dq_envelope (mj_position_rad cmd) in
      refuse_if (outside_hard lim clamped)
        (ELimit (mj_joint cmd) (Msg "position {} outside hard [{}, {}] after envelope clamp"
           [AF64 clamped; AF64 (hard_lower lim); AF64 (hard_upper lim)])) ;!
      Ok (with_position cmd clamped, fgt (fabs (sub64 clamped (mj_position_rad cmd))) EPS)
    else
      refuse_if (outside_hard lim (mj_position_rad cmd))
        (ELimit (mj_joint cmd) (Msg "position {} outside [{}, {}]"
           [AF64 (mj_position_rad cmd); AF64 (hard_lower lim); AF64 (hard_upper lim)])) ;!
      Ok (cmd, false) in
  let out := pc.1 in
  let envelope_clamped := pc.2 in
  let vel_cap := velocity lim in
  let dq_requested := mj_velocity_rad_s out in
  let! zc := apply_danger_zone_clamps ctx out q_meas dq_meas in
  let out := zc.1 in
  let danger_zone_torque_cap := zc.2 in
  let envelope_clamped :=
    if fgt (fabs (sub64 (mj_velocity_rad_s out) dq_requested)) EPS then true else envelope_clamped in
  refuse_if (fgt (fabs (mj_velocity_rad_s out)) vel_cap)
    (ELimit (mj_joint out) (Msg "|velocity| {} > {}" [AF64 (mj_velocity_rad_s out); AF64 vel_cap])) ;!
  let torque_cap :=
    fmin (fmin (fmin (tau_ff_max lim) (Config.torque_limit_nm (Config.bench motor)))
            (Config.tau_ff_max_nm defaults)) danger_zone_torque_cap in
  let! tau := rate_limit_tau_ff (last_tau_ff ctx !! mj_joint out) (mj_torque_ff_nm out)
    (Config.tau_ff_rate_limit_nm_per_s (control ctx)) since_previous_tick torque_cap in
  let out := with_torque out tau in
  let horizon_s := div64 TOTAL_TORQUE_HORIZON_TICKS (f64_of_Z (Config.loop_hz (control ctx))) in
  let! dq_bounded := fclamp dq_meas (fneg vel_cap) vel_cap in
  let! bounded := map_err of_torque (clamp_total_torque out q_meas dq_bounded torque_cap horizon_s) in
  let out := bounded.1 in
  refuse_if (fgt (fabs (mj_velocity_rad_s out)) vel_cap)
    (ELimit (mj_joint out) (Msg "total-torque clamp moved |velocity| {} above {}"
       [AF64 (mj_velocity_rad_s out); AF64 vel_cap])) ;!
  refuse_if (bool_decide (is_Some bounded.2) && outside_hard lim (mj_position_rad out))
    (ELimit (mj_joint out) (Msg "total-torque clamp moved position {} outside hard [{}, {}]"
       [AF64 (mj_position_rad out); AF64 (hard_lower lim); AF64 (hard_upper lim)])) ;!
  Ok (mkFiltered out q_meas dq_meas bounded.2 envelope_clamped).

(** ** Wrong-sign watchdog *)

Definition wrong_sign_step (ctx : FilterContext) (out : MitJointCommand) (q dq : f64)
  : option (WrongSignState * result DavoutError unit) :=
  if negb (bool_decide (control_mode ctx = GravityComp)) then None
  else
    let cfg := Config.wrong_sign_watchdog (control ctx) in
    if negb (Config.enabled cfg) then None
    else
      let s := default wrong_sign_default (wrong_sign_state ctx !! mj_joint out) in
      let ticks := sat_add_u32 (ticks_since_enable s) 1 in
      let s := mkWrongSignState (opposition_ticks s) ticks in
      if ticks <=? Config.grace_period_ticks cfg then Some (s, Ok tt)
      else if fle (fabs dq) (Config.min_velocity_rad_s cfg) then Some (s, Ok tt)
      else
        let at_positive := f64_of_Z (Config.expected_sign_at_positive_q cfg) in
        let expected_sign := if fge q fzero then at_positive else fneg at_positive in
        let actual_sign := fsignum (mj_torque_ff_nm out) in
        if feq actual_sign fzero || feq actual_sign expected_sign
        then Some (mkWrongSignState 0 ticks, Ok tt)
        else
          let opposed := sat_add_u32 (opposition_ticks s) 1 in
          let s := mkWrongSignState opposed ticks in
          if Config.min_opposition_ticks cfg <=? opposed
          then Some (s, Err (EWrongSignWatchdog (mj_joint out) opposed))
          else Some (s, Ok tt).

(** [store_by_joint] and [count_by_joint]. *)
Definition store_by_joint {V : Type} (m : gmap string V) (j : string) (v : V) : gmap string V :=
  <[j := v]> m.
Definition count_by_joint (m : gmap string Z) (j : string) : gmap string Z :=
  store_by_joint m j (sat_add_u64 (default 0 (m !! j)) 1).

(** ** Danger zones touch only velocity and feedforward *)

Definition same_frame (c c' : MitJointCommand) : Prop :=
  mj_joint c' = mj_joint c /\ mj_kp c' = mj_kp c /\ mj_kd c' = mj_kd c /\
  mj_position_rad c' = mj_position_rad c.

#[global] Instance same_frame_refl : Reflexive same_frame.
Proof. intros c. repeat split. Qed.

#[global] Instance same_frame_trans : Transitive same_frame.
Proof. intros a b c (?&?&?&?) (?&?&?&?). repeat split; congruence. Qed.

Lemma apply_zone_frame (rule : Config.DangerZoneRule) (c : MitJointCommand) (cap : f64)
  (ct : MitJointCommand * f64) :
  apply_zone rule c cap = Ok ct -> same_frame c ct.1.
Proof.
  unfold apply_zone. destruct (String.eqb _ "clamp_velocity"); [intros [= <-]; repeat split|].
  destruct (String.eqb _ "clamp_torque"); [|discriminate].
  intros H. bind_inv H. bind_inv H. inv H. repeat split.
Qed.

Lemma apply_zones_frame (rules : list Config.DangerZoneRule) (c : MitJointCommand) (q dq cap : f64)
  (ct : MitJointCommand * f64) :
  apply_zones rules c q dq cap = Ok ct -> same_frame c ct.1.
Proof.
  revert c cap. induction rules as [|rule rules IH]; intros c cap H; simpl in H; [inv H; reflexivity|].
  destruct (negb _); [eauto|]. bind_inv H. etransitivity; [|eauto]. eapply apply_zone_frame; eassumption.
Qed.

(** ** What the filter lets through *)

Lemma in_hard_of_check (lim : JointLimitPolicy) (p : f64) :
  is_nan (hard_lower lim) = false -> is_nan (hard_upper lim) = false -> is_finite p = true ->
  outside_hard lim p = false -> in_range (hard_lower lim) (hard_upper lim) p = true.
Proof.
  unfold outside_hard, in_range. intros Hl Hu Hp H. apply orb_false_elim in H as [H1 H2].
  apply finite_not_nan in Hp. unfold fgt in H2. rewrite andb_true_iff. split; float_solve.
Qed.

Lemma cap_of_check (x cap : f64) :
  is_nan cap = false -> is_finite x = true -> fgt (fabs x) cap = false -> fle (fabs x) cap = true.
Proof.
  intros Hc Hx H. unfold fgt in H. apply finite_not_nan in Hx.
  assert (is_nan (fabs x) = false) by (destruct (fabs_key x) as [-> _]; exact Hx). float_solve.
Qed.

(** The slewed feedforward respects the cap. *)
Lemma rate_limit_within_cap (prev : option f64) (target rate : f64) (dt : option Z) (cap tau : f64) :
  rate_limit_tau_ff prev target rate dt cap = Ok tau -> is_nan tau = false ->
  fle (fabs tau) cap = true.
Proof.
  unfold rate_limit_tau_ff. intros H Hn. repeat bind_inv H.
  apply fabs_le_iff. eapply fclamp_between_result; eassumption.
Qed.

Lemma validate_mit_command_ok (c : MitJointCommand) :
  validate_mit_command c = Ok tt ->
  is_finite (mj_kp c) = true /\ is_finite (mj_kd c) = true /\
  fle fzero (mj_kp c) = true /\ fle fzero (mj_kd c) = true.
Proof.
  unfold validate_mit_command. intros H. bind_inv H. destruct x. rewrite try_for_each_ok in E.
  bsimp. assert (Hf : forall fv, In fv (command_fields c) -> is_finite fv.2 = true).
  { intros fv Hin. specialize (E fv Hin). unfold validate_finite in E. bsimp. assumption. }
  assert (K : is_finite (mj_kp c) = true) by (apply (Hf ("kp"%string, mj_kp c)); simpl; tauto).
  assert (D : is_finite (mj_kd c) = true) by (apply (Hf ("kd"%string, mj_kd c)); simpl; tauto).
  repeat split; auto using Params.nonneg_of_not_lt.
Qed.

(** Limits of one joint as the filter needs them: ordered hard bounds and a
    velocity cap, none of them NaN. *)
Definition policy_ok (lim : JointLimitPolicy) : Prop :=
  is_nan (hard_lower lim) = false /\ is_nan (hard_upper lim) = false /\
  is_nan (velocity lim) = false.

(** What a filtered command satisfies. *)
Record admissible (lim : JointLimitPolicy) (bench_torque : f64) (defaults : Config.MotorTypeDefaults)
  (scale : f64) (cmd out : MitJointCommand) : Prop := {
  ad_joint : mj_joint out = mj_joint cmd;
  ad_gains : mj_kp out = mj_kp cmd /\ mj_kd out = mj_kd cmd;
  ad_finite : Forall (fun fv => is_finite fv.2 = true) (command_fields out);
  ad_nonneg : fle fzero (mj_kp out) = true /\ fle fzero (mj_kd out) = true;
  ad_gain_caps : fgt (div64 (mj_kp out) (sq64 scale)) (Config.kp_max defaults) = false /\
                 fgt (div64 (mj_kd out) (sq64 scale)) (Config.kd_max defaults) = false;
  ad_position : in_range (hard_lower lim) (hard_upper lim) (mj_position_rad out) = true;
  ad_velocity : fle (fabs (mj_velocity_rad_s out)) (velocity lim) = true;
  ad_torque : Forall (fun cap => is_nan cap = false -> fle (fabs (mj_torque_ff_nm out)) cap = true)
    [tau_ff_max lim; bench_torque; Config.tau_ff_max_nm defaults];
}.

Lemma cap_chain (a b c z t : f64) :
  fle (fabs t) (fmin (fmin (fmin a b) c) z) = true ->
  Forall (fun cap => is_nan cap = false -> fle (fabs t) cap = true) [a; b; c].
Proof.
  intros H.
  assert (Hmin : forall x y, fle (fabs t) (fmin x y) = true ->
            (is_nan x = false -> fle (fabs t) x = true) /\ (is_nan y = false -> fle (fabs t) y = true)).
  { intros x y Hxy. split; intros Hn; eapply fle_trans; try exact Hxy;
      [now apply fmin_le_l|now apply fmin_le_r]. }
  assert (Hn1 : is_nan c = false -> is_nan (fmin (fmin a b) c) = false) by (intros; now apply fmin_not_nan_r).
  destruct (Hmin _ _ H) as [H1 _].
  repeat first [apply Forall_nil_2 | apply Forall_cons; split]; intros Hn.
  - assert (is_nan (fmin a b) = false) by (now apply fmin_not_nan_l).
    destruct (Hmin _ _ (H1 ltac:(now apply fmin_not_nan_l))) as [H2 _].
    destruct (Hmin _ _ (H2 ltac:(assumption))) as [H3 _]. auto.
  - assert (is_nan (fmin a b) = false) by (now apply fmin_not_nan_r).
    destruct (Hmin _ _ (H1 ltac:(now apply fmin_not_nan_l))) as [H2 _].
    destruct (Hmin _ _ (H2 ltac:(assumption))) as [_ H3]. auto.
  - destruct (Hmin _ _ (H1 (Hn1 Hn))) as [_ H2]. auto.
Qed.

Lemma map_err_inv {E F A : Type} (f : E -> F) (r : result E A) (a : A) :
  map_err f r = Ok a -> r = Ok a.
Proof. destruct r; simpl; congruence. Qed.

Section Admission.
Variables (ctx : FilterContext) (cmd : MitJointCommand) (motor : Config.MotorEntry).
Variables (fb_q fb_dq : option MotorState) (dt : option Z).
Variables (lim : JointLimitPolicy) (defaults : Config.MotorTypeDefaults).
Hypothesis Hlim : limits ctx !! mj_joint cmd = Some lim.
Hypothesis Hdef : hget (Config.motor_type_defaults (control ctx))
                    (Config.motor_type_key (Config.motor_type motor)) = Some defaults.

Lemma filter_admissible (f : FilteredMit)
  (Hok : policy_ok lim) (Hf : filter_mit_core ctx cmd motor fb_q fb_dq dt = Ok f) :
  exists scale, motor_position_scale motor = Ok scale /\
    admissible lim (Config.torque_limit_nm (Config.bench motor)) defaults scale cmd (f_out f).
Proof.
  destruct Hok as (Nl & Nu & Nv). unfold filter_mit_core in Hf.
  rewrite Hlim, Hdef in Hf. cbn [ok_or] in Hf.
  bind_inv Hf. rename E into Hval. destruct x. apply validate_mit_command_ok in Hval as (K & D & K0 & D0).
  cbn [rbind] in Hf. bind_inv Hf. rename x into scale, E into Hscale.
  bind_inv Hf. rename E into Hgain. bind_inv Hf. rename x0 into pc, E into Hpc.
  bind_inv Hf. rename x0 into zc, E into Hz. bind_inv Hf. rename E into Hv1.
  bind_inv Hf. rename x1 into tau, E into Htau. bind_inv Hf. bind_inv Hf. rename x2 into cl, E0 into Hcl.
  bind_inv Hf. rename E0 into Hv2. bind_inv Hf. rename E0 into Hp2. inv Hf. cbn [f_out].
  exists scale. split; [reflexivity|].
  assert (Hpos : mj_joint pc.1 = mj_joint cmd /\ mj_kp pc.1 = mj_kp cmd /\ mj_kd pc.1 = mj_kd cmd /\
                 outside_hard lim (mj_position_rad pc.1) = false).
  { destruct (negb _) in Hpc; bind_inv Hpc; inv Hpc; bsimp; auto. }
  destruct Hpos as (Pj & Pkp & Pkd & Pout).
  apply apply_zones_frame in Hz as (Zj & Zkp & Zkd & Zp).
  apply map_err_inv in Hcl. destruct cl as [out clamp]. cbn [fst snd] in *.
  apply clamp_total_torque_ok in Hcl as (Cj & Ckp & Ckd & Ct & Cfin & Cp & Cv & _ & _ & Cc).
  cbn [with_torque mj_joint mj_kp mj_kd mj_torque_ff_nm mj_position_rad] in *.
  assert (Ftau : is_finite tau = true).
  { unfold command_fields in Cfin. simpl in Cfin. rewrite !Forall_cons in Cfin. simpl in Cfin. tauto. }
  bsimp. split; try congruence.
  - split; congruence.
  - unfold command_fields. rewrite !Forall_cons. cbn [snd].
    rewrite Cp, Cv, Ct, Ckp, Ckd, Zkp, Zkd, Pkp, Pkd. auto 10.
  - rewrite Ckp, Ckd, Zkp, Zkd, Pkp, Pkd. auto.
  - rewrite Ckp, Ckd, Zkp, Zkd, Pkp, Pkd. auto.
  - apply in_hard_of_check; auto. destruct clamp as [k|].
    + match goal with H : bool_decide _ && ?b = false |- _ =>
        rewrite bool_decide_eq_true_2 in H by eauto; exact H end.
    + subst out. cbn [with_torque mj_position_rad]. rewrite Zp. exact Pout.
  - apply cap_of_check; auto.
  - rewrite Ct. eapply cap_chain. eapply rate_limit_within_cap; [exact Htau|].
    now apply finite_not_nan.
Qed.

(** nothing unsafe leaves the filter: whatever command berthier asks for and
    whatever the feedback says, an accepted command has finite fields, unchanged
    nonnegative gains within the motor type's caps, a position inside the joint's
    hard bounds, a speed within its cap, and a torque feedforward within the
    joint's, the bench's and the motor type's torque caps. *)
Theorem filter_output_admissible (f : FilteredMit)
  (Hok : policy_ok lim) (Hf : filter_mit_core ctx cmd motor fb_q fb_dq dt = Ok f) :
  exists scale, motor_position_scale motor = Ok scale /\
    admissible lim (Config.torque_limit_nm (Config.bench motor)) defaults scale cmd (f_out f).
Proof. exact (filter_admissible f Hok Hf). Qed.

End Admission.

(** ** No panic *)

Lemma as_secs_f64_pos (ns : Z) : 0 <= ns -> fpos (as_secs_f64 ns) = true.
Proof.
  intros H. unfold as_secs_f64. apply add64_pos.
  - apply f64_of_Z_pos. apply Z.div_pos; lia.
  - pose proof (Z.mod_pos_bound ns 1000000000) as Hm.
    assert (Hp : fpos (f64_of_Z (ns mod 1000000000)) = true) by (apply f64_of_Z_pos; lia).
    unfold f64_of_Z at 2. cbn [binary_normalize].
    set (d := binary_round prec64 emax64 false 1000000000 0).
    vm_compute in d. subst d. unfold div64. 
    destruct (f64_of_Z (ns mod 1000000000)) as [[]|[]| |[] m e] eqn:E; try discriminate Hp.
    + reflexivity.
    + reflexivity.
    + apply (div64_pos (S754_finite false m e)); [exact Hp|reflexivity].
Qed.

Lemma mul64_nonneg (x d : f64) :
  fle fzero x = true -> is_finite d = true -> flt fzero d = true -> fle fzero (mul64 x d) = true.
Proof.
  intros Hx Hd Hp. assert (fpos d = true) by (destruct d as [[]|[]| |[]]; try discriminate; reflexivity).
  apply nonneg_fpos in Hx as [Hx| ->].
  - apply fpos_nonneg, mul64_pos; assumption.
  - destruct d as [[]|[]| |[]]; try discriminate; reflexivity.
Qed.

Definition tick_ok (dt : option Z) : Prop := forall ns, dt = Some ns -> 0 <= ns.

Lemma tick_seconds (dt : option Z) :
  tick_ok dt ->
  exists d, @fclamp DavoutError (match dt with Some ns => as_secs_f64 ns | None => lit64 1 100 end)
              (lit64 1 10000) (lit64 1 100) = Ok d /\ is_finite d = true /\ flt fzero d = true.
Proof.
  intros Hdt. set (x := match dt with Some _ => _ | None => _ end).
  assert (Hx : is_nan x = false).
  { subst x. destruct dt as [ns|]; [|reflexivity].
    pose proof (as_secs_f64_pos ns (Hdt ns eq_refl)) as Hp. unfold fpos in Hp.
    destruct (is_nan (as_secs_f64 ns)); [discriminate|reflexivity]. }
  destruct (@fclamp_ok DavoutError x (lit64 1 10000) (lit64 1 100) eq_refl) as [d Hd].
  exists d. split; [exact Hd|]. apply (fclamp_between x) in Hd as [H1 H2]; [|exact Hx].
  split; [exact (fle_between_finite _ _ _ H1 H2 eq_refl eq_refl)|].
  assert (H0 : flt fzero (lit64 1 10000) = true) by reflexivity.
  clear - H0 H1. generalize dependent (lit64 1 10000). intros l H0 H1. float_solve.
Qed.

Lemma rate_limit_no_panic (prev : option f64) (target rate cap : f64) (dt : option Z) :
  fle fzero cap = true -> fle fzero rate = true -> tick_ok dt ->
  rate_limit_tau_ff prev target rate dt cap <> Panic.
Proof.
  intros Hc Hr Hdt. apply fle_neg_self in Hc. unfold rate_limit_tau_ff.
  destruct (@fclamp_ok DavoutError (default fzero prev) _ _ Hc) as [p ->]. cbn [rbind].
  destruct (@fclamp_ok DavoutError target _ _ Hc) as [t ->]. cbn [rbind].
  destruct (tick_seconds dt Hdt) as (d & -> & Fd & Pd). cbn [rbind].
  pose proof (mul64_nonneg rate d Hr Fd Pd) as Hm. apply fle_neg_self in Hm.
  destruct (@fclamp_ok DavoutError (sub64 t p) _ _ Hm) as [dl ->]. cbn [rbind].
  destruct (@fclamp_ok DavoutError (add64 p dl) _ _ Hc) as [o ->]. discriminate.
Qed.

Lemma apply_zone_no_panic (rule : Config.DangerZoneRule) (c : MitJointCommand) (cap : f64) :
  fle fzero cap = true ->
  apply_zone rule c cap <> Panic /\
  forall ct, apply_zone rule c cap = Ok ct -> fle fzero ct.2 = true.
Proof.
  intros Hc. unfold apply_zone. destruct (String.eqb _ "clamp_velocity").
  { split; [discriminate|]. intros ct [= <-]. exact Hc. }
  destruct (String.eqb _ "clamp_torque"); [|split; discriminate].
  destruct (Config.max_torque_nm rule) as [m|]; cbn [ok_or rbind]; [|split; discriminate].
  assert (Hm : fle fzero (fmax m fzero) = true) by (now apply fmax_ge_r).
  pose proof Hm as Hm'. apply fle_neg_self in Hm'.
  destruct (@fclamp_ok DavoutError (mj_torque_ff_nm c) _ _ Hm') as [t ->]. cbn [rbind].
  split; [discriminate|]. intros ct [= <-]. cbn [snd]. now apply fmin_glb.
Qed.

Lemma apply_zones_no_panic (rules : list Config.DangerZoneRule) (c : MitJointCommand) (q dq cap : f64) :
  fle fzero cap = true ->
  apply_zones rules c q dq cap <> Panic /\
  forall ct, apply_zones rules c q dq cap = Ok ct -> fle fzero ct.2 = true.
Proof.
  revert c cap. induction rules as [|rule rules IH]; intros c cap Hc; cbn [apply_zones].
  { split; [discriminate|]. intros ct [= <-]. exact Hc. }
  destruct (negb _); [now apply IH|]. destruct (apply_zone_no_panic rule c cap Hc) as [Hn Ho].
  destruct (apply_zone rule c cap) as [ct|e|]; cbn [rbind]; [|split; discriminate|congruence].
  apply IH. now apply Ho.
Qed.

Lemma refuse_no_panic {E A : Type} (b : bool) (e : E) (k : unit -> result E A) :
  (b = false -> k tt <> Panic) -> rbind (refuse_if b e) k <> Panic.
Proof. destruct b; simpl; [discriminate|auto]. Qed.

Lemma motor_position_scale_no_panic (m : Config.MotorEntry) : motor_position_scale m <> Panic.
Proof.
  unfold motor_position_scale. do 2 (apply refuse_no_panic; intros _). discriminate.
Qed.

Lemma validate_mit_command_no_panic (c : MitJointCommand) : validate_mit_command c <> Panic.
Proof.
  unfold validate_mit_command. apply rbind_not_panic.
  - generalize (command_fields c). induction l as [|fv l IH]; simpl; [discriminate|].
    unfold validate_finite. apply refuse_no_panic. auto.
  - intros _ _. unfold refuse_if. destruct (_ || _); discriminate.
Qed.

(** What validated configuration gives the filter: nonnegative torque caps, rate
    and velocity cap. *)
Record caps_ok (ctx : FilterContext) (motor : Config.MotorEntry) : Prop := {
  co_limits : map_Forall (fun _ p => fle fzero (tau_ff_max p) = true /\
                                     fle fzero (velocity p) = true) (limits ctx);
  co_bench : fle fzero (Config.torque_limit_nm (Config.bench motor)) = true;
  co_defaults : forall d, hget (Config.motor_type_defaults (control ctx))
                  (Config.motor_type_key (Config.motor_type motor)) = Some d ->
                fle fzero (Config.tau_ff_max_nm d) = true;
  co_rate : fle fzero (Config.tau_ff_rate_limit_nm_per_s (control ctx)) = true;
}.

Lemma filter_no_panic (ctx : FilterContext) (cmd : MitJointCommand) (motor : Config.MotorEntry)
  (fb_q fb_dq : option MotorState) (dt : option Z) (Hc : caps_ok ctx motor) (Hdt : tick_ok dt) :
  filter_mit_core ctx cmd motor fb_q fb_dq dt <> Panic.
Proof.
  destruct Hc as [Hl Hb Hd Hr]. unfold filter_mit_core.
  apply rbind_not_panic; [apply validate_mit_command_no_panic|]. intros _ _.
  destruct (limits ctx !! mj_joint cmd) as [lim|] eqn:El; cbn [ok_or rbind]; [|discriminate].
  destruct (Hl _ _ El) as [Ht Hv].
  destruct (hget _ _) as [d|] eqn:Ed; cbn [ok_or rbind]; [|discriminate]. specialize (Hd d eq_refl).
  apply rbind_not_panic; [apply motor_position_scale_no_panic|]. intros scale _.
  apply refuse_no_panic. intros _.
  apply rbind_not_panic.
  { destruct (negb _); apply refuse_no_panic; discriminate. }
  intros pc _. destruct (apply_zones_no_panic (Config.danger_zones (control ctx)) pc.1
    (match fb_q with Some s => f64_of_f32 (ms_position_rad s) | None => mj_position_rad cmd end)
    (match fb_dq with Some s => f64_of_f32 (ms_velocity_rad_s s) | None => fzero end)
    finfinity eq_refl) as [Zn Zo].
  apply rbind_not_panic; [exact Zn|]. intros zc Hz. specialize (Zo zc Hz).
  apply refuse_no_panic. intros _. apply rbind_not_panic.
  { apply rate_limit_no_panic; auto. repeat apply fmin_glb; assumption. }
  intros tau _. apply fle_neg_self in Hv.
  destruct (@fclamp_ok DavoutError
    (match fb_dq with Some s => f64_of_f32 (ms_velocity_rad_s s) | None => fzero end) _ _ Hv) as [dqb ->].
  cbn [rbind]. apply rbind_not_panic.
  { pose proof (clamp_total_torque_no_panic) as Hn.
    match goal with |- map_err of_torque ?r <> Panic =>
      assert (r <> Panic) by apply Hn; destruct r; simpl; congruence end. }
  intros bounded _. do 2 (apply refuse_no_panic; intros _). discriminate.
Qed.

(** the filter answers every command with a result: under nonnegative torque
    caps, slew rate and velocity cap (what the configuration is validated for) no
    command, feedback, danger zone or tick interval makes it panic. *)
Theorem filter_never_panics (ctx : FilterContext) (cmd : MitJointCommand) (motor : Config.MotorEntry)
  (fb_q fb_dq : option MotorState) (dt : option Z) (Hc : caps_ok ctx motor) (Hdt : tick_ok dt) :
  filter_mit_core ctx cmd motor fb_q fb_dq dt <> Panic.
Proof. exact (filter_no_panic ctx cmd motor fb_q fb_dq dt Hc Hdt). Qed.

Lemma filter_ok_lookups (ctx : FilterContext) (cmd : MitJointCommand) (motor : Config.MotorEntry)
  (fb_q fb_dq : option MotorState) (dt : option Z) (f : FilteredMit) :
  filter_mit_core ctx cmd motor fb_q fb_dq dt = Ok f ->
  exists lim d, limits ctx !! mj_joint cmd = Some lim /\
    hget (Config.motor_type_defaults (control ctx)) (Config.motor_type_key (Config.motor_type motor)) = Some d.
Proof.
  intros H. unfold filter_mit_core in H. bind_inv H. bind_inv H. apply ok_or_ok in E0.
  bind_inv H. apply ok_or_ok in E1. eauto.
Qed.

(** ** Limits built from configuration *)

(** Soft bounds of the control file are numbers (validation requires them finite). *)
Definition soft_config_ok (control : Config.ControlSection) : Prop :=
  forall j e, hget (Config.control_joints control) j = Some e ->
    (forall x, Config.position_soft_lower_rad e = Some x -> is_nan x = false) /\
    (forall x, Config.position_soft_upper_rad e = Some x -> is_nan x = false).

Lemma resolve_cap_positive (j : string) (t : Config.MotorType) (c : Config.ControlSection) (v : f64) :
  Config.resolve_joint_velocity_cap j t c = Ok v -> is_finite v = true /\ flt fzero v = true.
Proof.
  assert (Hnp : forall x, Config.not_positive x = false -> is_finite x = true /\ flt fzero x = true).
  { intros x H. unfold Config.not_positive in H. apply orb_false_elim in H as [Hf Hp].
    apply negb_false_iff in Hf. split; [exact Hf|].
    destruct fzero_key as (? & ? & ? & ?). apply finite_not_nan in Hf as Hn. float_solve. }
  unfold Config.resolve_joint_velocity_cap. intros H.
  destruct (hget _ j ≫= _) as [x|]; [bind_inv H; inv H; bsimp; auto|].
  destruct (Config.actuator_group_for_joint j c) as [[n g]|]; [bind_inv H; inv H; bsimp; auto|].
  bind_inv H. bind_inv H. inv H. bsimp. auto.
Qed.

Lemma hard_overlap_finite (ul uu bl bu : f64) :
  is_finite ul = true -> is_finite uu = true -> fge (fmax ul bl) (fmin uu bu) = false ->
  is_finite (fmax ul bl) = true /\ is_finite (fmin uu bu) = true /\
  flt (fmax ul bl) (fmin uu bu) = true.
Proof.
  intros Hl Hu H. unfold fge in H. apply finite_not_nan in Hl as Nl. apply finite_not_nan in Hu as Nu.
  assert (N1 : is_nan (fmax ul bl) = false).
  { unfold fmax. rewrite Nl. destruct (is_nan bl) eqn:E; [exact Nl|]. destruct (flt ul bl); assumption. }
  assert (N2 : is_nan (fmin uu bu) = false) by (now apply fmin_not_nan_l).
  assert (Lt : flt (fmax ul bl) (fmin uu bu) = true) by float_solve.
  assert (L1 : fle ul (fmax ul bl) = true).
  { unfold fmax. rewrite Nl. destruct (is_nan bl) eqn:E; [now apply fle_refl|].
    destruct (flt ul bl) eqn:E2; [now apply flt_le|now apply fle_refl]. }
  pose proof (fmin_le_l uu bu Nu) as L2.
  split; [|split; [|exact Lt]]; float_solve.
Qed.

Lemma joint_limits_bounds (urdf : list UrdfJoint) (n : string) (b : JointLimitBounds) (l : JointLimits) :
  joint_limits urdf n = Ok l -> joint_limit_bounds urdf n = Ok b ->
  is_finite (l_lower l) = true /\ is_finite (l_upper l) = true /\ bounds_wf b.
Proof.
  intros Hl Hb. unfold joint_limit_bounds in Hb. rewrite Hl in Hb. cbn [rbind] in Hb. bind_inv Hb.
  destruct (match safety_controller x with Some _ => _ | None => _ end) as [sl su].
  apply map_err_inv, from_hard_and_soft_wf in Hb as (W & <- & <-).
  split; [exact (wf_hard_lower _ W)|]. split; [exact (wf_hard_upper _ W)|exact W].
Qed.

(** What [build_limits] guarantees of one joint's policy. *)
Record built_policy (robot : Config.RobotSection) (motor : Config.MotorEntry) (urdf : JointLimits)
  (p : JointLimitPolicy) : Prop := {
  bp_bounds : bounds_wf (bounds p);
  bp_velocity : is_finite (velocity p) = true /\ flt fzero (velocity p) = true;
  bp_lower : fle (l_lower urdf) (hard_lower p) = true /\
    (is_nan (Config.position_lower_rad (Config.bench motor)) = false ->
     fle (Config.position_lower_rad (Config.bench motor)) (hard_lower p) = true);
  bp_upper : fle (hard_upper p) (l_upper urdf) = true /\
    (is_nan (Config.position_upper_rad (Config.bench motor)) = false ->
     fle (hard_upper p) (Config.position_upper_rad (Config.bench motor)) = true);
}.

Lemma fmax_ge_l (x y : f64) : is_nan x = false -> fle x (fmax x y) = true.
Proof.
  intros Hx. unfold fmax. rewrite Hx. destruct (is_nan y) eqn:E; [now apply fle_refl|].
  destruct (flt x y) eqn:E2; [now apply flt_le|now apply fle_refl].
Qed.

(** A configured or inherited soft bound, clamped twice, is inside the hard range. *)
Lemma soft_clamped (cfg : option f64) (inherited hl hu x y : f64) :
  is_nan inherited = false -> (forall v, cfg = Some v -> is_nan v = false) ->
  match cfg with Some v => @fclamp DavoutError v hl hu | None => Ok inherited end = Ok x ->
  @fclamp DavoutError x hl hu = Ok y -> fle hl y = true /\ fle y hu = true.
Proof.
  intros Hi Hc Hx Hy. apply (fclamp_between x) in Hy; [exact Hy|].
  destruct cfg as [v|]; [|congruence]. eapply fclamp_not_nan; [|exact Hx]. auto.
Qed.

Lemma build_joint_limits_ok (robot : Config.RobotSection) (motors : list Config.MotorEntry)
  (control : Config.ControlSection) (urdf : list UrdfJoint) (j : string) (p : JointLimitPolicy) :
  soft_config_ok control -> build_joint_limits robot motors control urdf j = Ok p ->
  exists motor ul, Config.motor_for_joint motors j = Some motor /\ joint_limits urdf j = Ok ul /\
    built_policy robot motor ul p.
Proof.
  intros Hs H. unfold build_joint_limits in H.
  bind_inv H. rename x into ul, E into Hul. apply map_err_inv in Hul.
  bind_inv H. rename x into b0, E into Hb0. apply map_err_inv in Hb0.
  destruct (joint_limits_bounds _ _ _ _ Hul Hb0) as (Fl & Fu & W0).
  bind_inv H. rename x into motor, E into Hm. apply ok_or_ok in Hm.
  bind_inv H. rename E into Hov. bind_inv H. rename x0 into cfg, E into Hcfg. apply ok_or_ok in Hcfg.
  bind_inv H. bind_inv H. bind_inv H. bind_inv H. bind_inv H. bind_inv H. bind_inv H.
  inv H. bsimp.
  match goal with H : fge _ _ = false |- _ => destruct (hard_overlap_finite _ _ _ _ Fl Fu H) as (F1 & F2 & Lt) end.
  match goal with H : map_err EConfig _ = Ok _ |- _ => apply map_err_inv, resolve_cap_positive in H as Hv end.
  destruct (Hs _ _ Hcfg) as [Hsl Hsu]. destruct (bounds_wf_nan _ W0) as (_ & _ & N3 & N4).
  exists motor, ul. split; [exact Hm|]. split; [exact Hul|].
  apply finite_not_nan in Fl as Nl. apply finite_not_nan in Fu as Nu.
  split; [split; auto; simpl|exact Hv|split; [now apply fmax_ge_l|intros; now apply fmax_ge_r]|
          split; [now apply fmin_le_l|intros; now apply fmin_le_r]].
  - exact (soft_clamped _ _ _ _ _ _ N3 Hsl E E1).
  - exact (soft_clamped _ _ _ _ _ _ N4 Hsu E0 E2).
Qed.

Lemma build_limits_from_ok (robot : Config.RobotSection) (motors : list Config.MotorEntry)
  (control : Config.ControlSection) (urdf : list UrdfJoint) (joints : list string)
  (m0 m : gmap string JointLimitPolicy) (P : string -> JointLimitPolicy -> Prop) :
  (forall j p, build_joint_limits robot motors control urdf j = Ok p -> P j p) ->
  map_Forall P m0 ->
  build_limits_from robot motors control urdf joints m0 = Ok m ->
  map_Forall P m /\ (forall j, In j joints \/ is_Some (m0 !! j) <-> is_Some (m !! j)).
Proof.
  intros HP. revert m0. induction joints as [|j joints IH]; intros m0 H0 H; simpl in H.
  - inv H. split; [exact H0|]. simpl. tauto.
  - bind_inv H. destruct (IH _ (map_Forall_insert_2 P m0 j x (HP j x E) H0) H) as [Hm Hd].
    split; [exact Hm|]. intros k. rewrite <- Hd, lookup_insert_is_Some. simpl.
    destruct (decide (j = k)); intuition congruence.
Qed.

(** C34: the limits the supervisor enforces are well formed and never wider than
    the robot: built from any URDF, bench and control configuration whose soft
    bounds are numbers, there is exactly one policy per configured joint; its hard
    range is finite, nonempty, inside both the URDF's and the bench's range and
    contains the soft bounds, and its velocity cap is finite and positive. *)
Theorem build_limits_well_formed (robot : Config.RobotSection) (motors : list Config.MotorEntry)
  (control : Config.ControlSection) (urdf : list UrdfJoint) (m : gmap string JointLimitPolicy)
  (Hs : soft_config_ok control) (Hb : build_limits robot motors control urdf = Ok m) :
  map_Forall (fun j p => exists motor ul, Config.motor_for_joint motors j = Some motor /\
                joint_limits urdf j = Ok ul /\ built_policy robot motor ul p) m /\
  (forall j, In j (Config.robot_joints robot) <-> is_Some (m !! j)).
Proof.
  destruct (build_limits_from_ok _ _ _ _ _ _ _ _
    (fun j p Hp => build_joint_limits_ok robot motors control urdf j p Hs Hp)
    (map_Forall_empty _) Hb) as [H1 H2].
  split; [exact H1|]. intros j. rewrite <- H2, lookup_empty. split; [auto|].
  intros [?|[? ?]]; [assumption|discriminate].
Qed.

(** ** Wrong-sign watchdog runs *)

(** The sample counts against the joint: it moves, and the feedforward's sign is
    not the expected one. *)
Definition opposes (cfg : Config.WrongSignWatchdogConfig) (out : MitJointCommand) (q dq : f64) : bool :=
  let at_positive := f64_of_Z (Config.expected_sign_at_positive_q cfg) in
  let expected_sign := if fge q fzero then at_positive else fneg at_positive in
  negb (fle (fabs dq) (Config.min_velocity_rad_s cfg))
  && negb (feq (fsignum (mj_torque_ff_nm out)) fzero || feq (fsignum (mj_torque_ff_nm out)) expected_sign).

Definition store_wrong_sign (ctx : FilterContext) (j : string) (s : WrongSignState) : FilterContext :=
  mkCtx (limits ctx) (control ctx) (control_mode ctx) (last_tau_ff ctx)
    (store_by_joint (wrong_sign_state ctx) j s).

(** Samples of one joint one after the other, each state stored as the caller does. *)
Fixpoint watch (ctx : FilterContext) (samples : list (MitJointCommand * f64 * f64))
  : list (result DavoutError unit) :=
  match samples with
  | [] => []
  | (out, q, dq) :: rest =>
      match wrong_sign_step ctx out q dq with
      | None => Ok tt :: watch ctx rest
      | Some (s, r) => r :: watch (store_wrong_sign ctx (mj_joint out) s) rest
      end
  end.

Section Watchdog.
Variable j : string.

Definition watching (ctx : FilterContext) : Prop :=
  control_mode ctx = GravityComp /\ Config.enabled (Config.wrong_sign_watchdog (control ctx)) = true.

Definition joint_watch (ctx : FilterContext) : WrongSignState :=
  default wrong_sign_default (wrong_sign_state ctx !! j).

Lemma wrong_sign_opposing (ctx : FilterContext) (out : MitJointCommand) (q dq : f64) :
  let cfg := Config.wrong_sign_watchdog (control ctx) in
  watching ctx -> mj_joint out = j -> opposes cfg out q dq = true ->
  Config.grace_period_ticks cfg < sat_add_u32 (ticks_since_enable (joint_watch ctx)) 1 ->
  let opposed := sat_add_u32 (opposition_ticks (joint_watch ctx)) 1 in
  wrong_sign_step ctx out q dq =
    Some (mkWrongSignState opposed (sat_add_u32 (ticks_since_enable (joint_watch ctx)) 1),
          if Config.min_opposition_ticks cfg <=? opposed then Err (EWrongSignWatchdog j opposed) else Ok tt).
Proof.
  intros cfg [Hm He] Hj Ho Hg opposed. unfold wrong_sign_step.
  rewrite (bool_decide_eq_true_2 _ Hm), He, Hj. cbn [negb]. fold cfg. fold (joint_watch ctx).
  rewrite (proj2 (Z.leb_gt _ _) Hg). unfold opposes in Ho. apply andb_prop in Ho as [H1 H2].
  apply negb_true_iff in H1, H2. rewrite H1, H2. cbn [opposition_ticks]. fold opposed.
  destruct (_ <=? opposed); reflexivity.
Qed.

Lemma joint_watch_store (ctx : FilterContext) (s : WrongSignState) :
  joint_watch (store_wrong_sign ctx j s) = s.
Proof. unfold joint_watch, store_wrong_sign, store_by_joint. simpl. now rewrite lookup_insert_eq. Qed.

Lemma sat_add_in_range (x : Z) (n : nat) :
  0 <= x + Z.of_nat (S n) <= U32_MAX ->
  sat_add_u32 x 1 = x + 1 /\ 0 <= x + 1 + Z.of_nat n <= U32_MAX.
Proof. unfold sat_add_u32. lia. Qed.

Lemma sat_add_grows (t : Z) :
  is_u32 t -> is_u32 (sat_add_u32 t 1) /\ sat_add_u32 t 1 <= sat_add_u32 (sat_add_u32 t 1) 1.
Proof. unfold is_u32, sat_add_u32. lia. Qed.

(** the watchdog trips on the opposing tick its configuration names and not
    before: once the grace period is over, the k-th consecutive moving sample whose
    feedforward has the wrong sign is accepted while fewer than the configured
    number have been seen and refused from that number on. *)
Theorem watchdog_trips_exactly (samples : list (MitJointCommand * f64 * f64)) (ctx : FilterContext)
  (Hw : watching ctx)
  (Hg : Config.grace_period_ticks (Config.wrong_sign_watchdog (control ctx))
        < sat_add_u32 (ticks_since_enable (joint_watch ctx)) 1)
  (Ht : is_u32 (ticks_since_enable (joint_watch ctx)))
  (Hn : 0 <= opposition_ticks (joint_watch ctx) + Z.of_nat (length samples) <= U32_MAX)
  (Hs : Forall (fun x => mj_joint x.1.1 = j /\
         opposes (Config.wrong_sign_watchdog (control ctx)) x.1.1 x.1.2 x.2 = true) samples) :
  forall k, (k < length samples)%nat ->
    let seen := opposition_ticks (joint_watch ctx) + Z.of_nat k + 1 in
    watch ctx samples !! k =
      Some (if Config.min_opposition_ticks (Config.wrong_sign_watchdog (control ctx)) <=? seen
            then Err (EWrongSignWatchdog j seen) else Ok tt).
Proof.
  revert ctx Hw Hg Ht Hn Hs. induction samples as [|[[out q] dq] samples IH];
    intros ctx Hw Hg Ht Hn Hs k Hk seen; [now apply Nat.nlt_0_r in Hk|].
  apply Forall_cons in Hs as [[Hj Ho] Hs]. simpl in Hj, Ho. cbn [watch].
  rewrite (wrong_sign_opposing ctx out q dq Hw Hj Ho Hg).
  destruct (sat_add_in_range (opposition_ticks (joint_watch ctx)) (length samples) Hn) as [Hadd Hn'].
  destruct k as [|k]; cbn [lookup list_lookup].
  - subst seen. rewrite Hadd, Z.add_0_r. reflexivity.
  - rewrite Hj. set (s1 := mkWrongSignState _ _).
    assert (H1 : opposition_ticks s1 = opposition_ticks (joint_watch ctx) + 1) by exact Hadd.
    assert (H2 : ticks_since_enable s1 = sat_add_u32 (ticks_since_enable (joint_watch ctx)) 1) by reflexivity.
    clearbody s1. destruct (sat_add_grows (ticks_since_enable (joint_watch ctx)) Ht) as [Hu Hmono].
    assert (Hseen : seen = opposition_ticks s1 + Z.of_nat k + 1) by (subst seen; lia).
    clearbody seen. subst seen.
    specialize (IH (store_wrong_sign ctx j s1)). rewrite joint_watch_store in IH.
    apply IH; rewrite ?H1, ?H2.
    + exact Hw.
    + eapply Z.lt_le_trans; [exact Hg|exact Hmono].
    + exact Hu.
    + exact Hn'.
    + exact Hs.
    + now apply Nat.succ_lt_mono.
Qed.

End Watchdog.

(** [f64::signum] is never zero, so the watchdog's zero test cannot succeed: a zero
    feedforward counts as positive or negative by its sign bit. *)
Lemma signum_never_zero (x : f64) : feq (fsignum x) fzero = false.
Proof. destruct x as [[]|[]| |[]]; reflexivity. Qed.

(** ** A bench configuration *)

Definition bench_motor : Config.MotorEntry :=
  Config.mkMotor "right_shoulder_pitch" "robstride" Config.Rs03 "can0" 11 (-1) (f64_of_Z 1) 0 "0.3.1.42"
    (Config.mkBench (lit64 (-9) 10) (f64_of_Z 2) (f64_of_Z 3) (f64_of_Z 5)).

Definition bench_joint : Config.JointControlEntry :=
  Config.mkJointControl Config.Rs03 (Config.mkGains fzero fzero fzero) (Config.mkGains (f64_of_Z 20) (f64_of_Z 1) fzero)
    (Config.mkFriction fzero fzero fzero fzero None None) None
    (lit64 5 10) (lit64 1 10) (lit64 1 10) (lit64 5 10) (f64_of_Z 1) (lit64 2 100) (lit64 1 100)
    Config.DisableAll Config.Legacy None None None None None None None None
    (lit64 1 100) (lit64 2 100) (lit64 5 10) (lit64 3 100) (Some (lit64 (-85) 100)) (Some (lit64 195 100)).

Definition bench_control : Config.ControlSection :=
  Config.mkControl 200 50 100 500 (f64_of_Z 40) true false
    [("rs03"%string, Config.mkDefaults (f64_of_Z 100) (f64_of_Z 5) (f64_of_Z 12) (f64_of_Z 2))]
    [] [("right_shoulder_pitch"%string, bench_joint)] []
    (Config.mkWrongSign true (-1) (lit64 5 100) 3 20) None.

Definition bench_robot : Config.RobotSection :=
  Config.mkRobot "armee.urdf" (f64_of_Z 5) ["right_shoulder_pitch"%string] [].

Definition bench_urdf (effort : f64) : list UrdfJoint :=
  [mkUrdfJoint "right_shoulder_pitch" Revolute (lit64 (-12) 10) (lit64 21 10) (f64_of_Z 3) effort None].

Definition bench_limits (effort : f64) : gmap string JointLimitPolicy :=
  match build_limits bench_robot [bench_motor] bench_control (bench_urdf effort) with
  | Ok m => m
  | _ => ∅
  end.

Definition bench_ctx (effort : f64) : FilterContext :=
  mkCtx (bench_limits effort) bench_control GravityComp ∅
    {["right_shoulder_pitch"%string := mkWrongSignState 0 50]}.

Definition bench_command : MitJointCommand :=
  mkMitJoint "right_shoulder_pitch" (f64_of_Z 20) (f64_of_Z 1) (f64_of_Z 3) (lit64 1 10) (f64_of_Z 1).

Lemma build_limits_well_formed_witness :
  map_Forall (fun j p => exists motor ul, Config.motor_for_joint [bench_motor] j = Some motor /\
                joint_limits (bench_urdf (f64_of_Z 10)) j = Ok ul /\ built_policy bench_robot motor ul p)
    (bench_limits (f64_of_Z 10)) /\
  (forall j, In j (Config.robot_joints bench_robot) <-> is_Some (bench_limits (f64_of_Z 10) !! j)).
Proof.
  apply (build_limits_well_formed bench_robot [bench_motor] bench_control (bench_urdf (f64_of_Z 10))).
  - intros j e He. cbn [Config.control_joints bench_control hget] in He.
    destruct (bool_decide _); [|discriminate]. injection He as <-.
    split; intros x Hx; injection Hx as <-; reflexivity.
  - vm_compute. reflexivity.
Defined.

Definition bench_feedback : option MotorState :=
  Some (mkMotorState (lit32 9 5) fzero fzero (f32_of_Z 25) 0 (Some 0)).

(** The command the bench example becomes: the position request of 3 rad is
    clamped, the feedforward slewed. *)
Definition bench_filtered : result DavoutError FilteredMit :=
  filter_mit_core (bench_ctx (f64_of_Z 10)) bench_command bench_motor bench_feedback bench_feedback (Some 5000000).

Definition bench_policy : JointLimitPolicy :=
  default pitch_policy (bench_limits (f64_of_Z 10) !! "right_shoulder_pitch"%string).

Lemma filter_output_admissible_witness :
  exists f scale, bench_filtered = Ok f /\ motor_position_scale bench_motor = Ok scale /\
    admissible bench_policy (f64_of_Z 5) (Config.mkDefaults (f64_of_Z 100) (f64_of_Z 5) (f64_of_Z 12) (f64_of_Z 2))
      scale bench_command (f_out f).
Proof.
  assert (E : exists f, bench_filtered = Ok f) by (vm_compute; eexists; reflexivity).
  destruct E as [f E]. exists f.
  destruct (filter_output_admissible (bench_ctx (f64_of_Z 10)) bench_command bench_motor
              bench_feedback bench_feedback (Some 5000000) bench_policy
              (Config.mkDefaults (f64_of_Z 100) (f64_of_Z 5) (f64_of_Z 12) (f64_of_Z 2))) with (f := f)
    as (scale & H1 & H2).
  - vm_compute. reflexivity.
  - vm_compute. reflexivity.
  - repeat split; vm_compute; reflexivity.
  - exact E.
  - exists scale. split; [exact E|]. split; [exact H1|exact H2].
Defined.

Lemma bench_caps_ok : caps_ok (bench_ctx (f64_of_Z 10)) bench_motor.
Proof.
  split.
  - apply map_Forall_to_list. vm_compute. repeat constructor.
  - reflexivity.
  - intros d [= <-]. reflexivity.
  - reflexivity.
Qed.

Lemma filter_never_panics_witness :
  filter_mit_core (bench_ctx (f64_of_Z 10)) bench_command bench_motor bench_feedback bench_feedback (Some 5000000) <> Panic.
Proof.
  apply (filter_never_panics (bench_ctx (f64_of_Z 10)) bench_command bench_motor bench_feedback bench_feedback (Some 5000000)).
  - exact bench_caps_ok.
  - intros ns [= <-]. lia.
Defined.

Definition pushing (tau : f64) : MitJointCommand * f64 * f64 :=
  (mkMitJoint "right_shoulder_pitch" fzero fzero (lit64 1 2) fzero tau, lit64 1 2, lit64 3 10).

Lemma watchdog_trips_exactly_witness :
  watch (bench_ctx (f64_of_Z 10)) (replicate 4 (pushing (f64_of_Z 1))) !! 2%nat
  = Some (Err (EWrongSignWatchdog "right_shoulder_pitch" 3)).
Proof.
  apply (watchdog_trips_exactly "right_shoulder_pitch" (replicate 4 (pushing (f64_of_Z 1)))
           (bench_ctx (f64_of_Z 10))) with (k := 2%nat).
  - split; reflexivity.
  - vm_compute. reflexivity.
  - vm_compute. split; discriminate.
  - vm_compute. split; discriminate.
  - repeat constructor.
  - simpl. lia.
Defined.

(** the watchdog counts a joint whose gravity compensation is exactly zero as
    pushing against its motion: three such ticks trip it. *)
Theorem zero_torque_trips_watchdog :
  watch (bench_ctx (f64_of_Z 10)) (replicate 3 (pushing fzero))
  = [Ok tt; Ok tt; Err (EWrongSignWatchdog "right_shoulder_pitch" 3)].
Proof. vm_compute. reflexivity. Qed.

(** the URDF effort is not checked for sign: a negative one is accepted by
    [build_limits] and makes every command of that joint panic in the torque
    clamp. *)
Theorem negative_urdf_effort_panics :
  exists m, build_limits bench_robot [bench_motor] bench_control (bench_urdf (f64_of_Z (-10))) = Ok m /\
    filter_mit_core (bench_ctx (f64_of_Z (-10))) bench_command bench_motor bench_feedback bench_feedback (Some 5000000) = Panic.
Proof. eexists. split; vm_compute; reflexivity. Qed.

End Filter.
