(* ===== verification/Admission.v ===== *)
(** * Command admission of the safety supervisor

    Models the read-only half of a MIT batch in [crates/davout/src/lib.rs]: the
    pose gate ([published_state], [pose_is_current]), the binding of commands to
    configured motors (the loop of [admit_and_send_mit_with]),
    [prepare_mit_batch], [check_comm_watchdog], and the commit of what a sent
    batch staged.  The supervisor is a record of the fields these read; every
    [Instant::now()] takes the next reading of the host clock. *)

From Stdlib Require Import ZArith Lia Bool SpecFloat.
From stdpp Require Import base gmap strings list.
From S2P Require Import Prelude Float Comm Config Validate Limits TotalTorque Params Mit Bus Faults Davout Filter.

Module Admission.
Import Bus Faults Davout TotalTorque Filter.

Definition FREE_DRIVE_FEEDBACK_TTL : Z := 5000000000.
Definition POST_SET_ZERO_QUIET : Z := 800000000.
Definition POST_SET_ZERO_BLACKOUT_FROM : Z := 450000000.

(** [Duration::from_millis]. *)
Definition from_millis (ms : Z) : Z := ms * 1000000.

Record SolicitedState : Type := mkSolicited { earliest : option Z; unanswered_writes : Z }.
Definition solicited_default : SolicitedState := mkSolicited None 0.

Definition note_asked (s : SolicitedState) (written_at : Z) : SolicitedState :=
  mkSolicited (Some (default written_at (earliest s))) (sat_add_u64 (unanswered_writes s) 1).

(** The fields of [Supervisor] that admission reads or commits.  The others (bus,
    reference owner, reporting, enable stagger, scratch buffers, telemetry of the
    feedback consumer) are not touched by the operations of this file; of the
    drive-loss state only the shed addresses are. *)
Record Supervisor : Type := mkSupervisor {
  mode : OperationalMode;
  sv_control_mode : ControlMode;
  fault_authority : FaultAuthority;
  sv_limits : gmap string Limits.JointLimitPolicy;
  motors : list Config.MotorEntry;
  motor_addresses : list MotorAddress;
  sv_control : Config.ControlSection;
  motor_states : gmap MotorAddress MotorState;
  active_since : option Z;
  set_zero_on_wire : gmap MotorAddress Z;
  invalid_feedback : gset MotorAddress;
  sv_last_tau_ff : gmap string f64;
  total_torque_clamps : TotalTorqueClampLog;
  envelope_clamps : gmap string Z;
  sv_wrong_sign_state : gmap string WrongSignState;
  last_tick : option Z;
  active_joints : gset string;
  unanswered_solicits : gmap MotorAddress SolicitedState;
  shed : list MotorAddress;
}.

Definition filter_context (sv : Supervisor) : FilterContext :=
  mkCtx (sv_limits sv) (sv_control sv) (sv_control_mode sv) (sv_last_tau_ff sv) (sv_wrong_sign_state sv).

(** ** Routing keys *)

Fixpoint motor_index_from (ms : list Config.MotorEntry) (j : string) (i : nat) : option nat :=
  match ms with
  | [] => None
  | m :: rest => if bool_decide (Config.joint m = j) then Some i else motor_index_from rest j (S i)
  end.

Definition motor_index (sv : Supervisor) (j : string) : option nat := motor_index_from (motors sv) j 0.

Definition address_for (sv : Supervisor) (index : nat) (m : Config.MotorEntry) : MotorAddress :=
  match motor_addresses sv !! index with
  | Some a => if is_motor_address a m then a else address_of_motor m
  | None => address_of_motor m
  end.

Definition configured_address (sv : Supervisor) (index : nat) : option MotorAddress :=
  m ← motors sv !! index; Some (address_for sv index m).

(** [sync_motor_addresses]: stale keys replaced, missing ones added, extra ones cut. *)
Fixpoint synced_addresses (cache : list MotorAddress) (ms : list Config.MotorEntry) : list MotorAddress :=
  match ms, cache with
  | [], _ => []
  | m :: ms, a :: cache =>
      (if is_motor_address a m then a else address_of_motor m) :: synced_addresses cache ms
  | m :: ms, [] => address_of_motor m :: synced_addresses [] ms
  end.

(** ** Pose gate *)

Definition is_shed (sv : Supervisor) (a : MotorAddress) : bool := bool_decide (a ∈ shed sv).

Definition unanswered_solicit (sv : Supervisor) (a : MotorAddress) : option Z :=
  s ← unanswered_solicits sv !! a; earliest s.

Definition pose_is_current (sv : Supervisor) (a : MotorAddress) (s : MotorState) (now : Z) : bool :=
  match ms_updated s, active_since sv with
  | Some received_at, Some since =>
      (since <? received_at) && (received_at <=? now)
      && match unanswered_solicit sv a with
         | None => true
         | Some solicited =>
             elapsed solicited now <=? from_millis (Config.comm_watchdog_ms (sv_control sv))
         end
  | _, _ => false
  end.

Definition published_state (sv : Supervisor) (index : nat) (c : clock) : option MotorState * clock :=
  match a ← configured_address sv index; s ← motor_states sv !! a; Some (a, s) with
  | None => (None, c)
  | Some (a, s) =>
      if bool_decide (ms_updated s = None) || bool_decide (a ∈ invalid_feedback sv) || is_shed sv a
      then (None, c)
      else
        let '(t, c) := now c in
        if bool_decide (mode sv = Active)
        then (if pose_is_current sv a s t then Some s else None, c)
        else (if is_stale s FREE_DRIVE_FEEDBACK_TTL t then None else Some s, c)
  end.

(** ** Enable bounds *)

Definition set_zero_quiet_until (sv : Supervisor) (a : MotorAddress) : option Z :=
  (fun at_ => at_ + POST_SET_ZERO_QUIET) <$> set_zero_on_wire sv !! a.

Definition set_zero_quiet_elapsed (sv : Supervisor) (a : MotorAddress) (now : Z) : bool :=
  match set_zero_quiet_until sv a with None => true | Some until => until <=? now end.

Definition set_zero_blackout_possible (sv : Supervisor) (a : MotorAddress) (now : Z) : bool :=
  match set_zero_on_wire sv !! a with
  | None => false
  | Some at_ => (POST_SET_ZERO_BLACKOUT_FROM <=? elapsed at_ now) && (elapsed at_ now <? POST_SET_ZERO_QUIET)
  end.

Definition enable_bounds_start (sv : Supervisor) (a : MotorAddress) : option Z :=
  since ← active_since sv;
  Some (match set_zero_quiet_until sv a with Some until => Z.max since until | None => since end).

(** ** Gates *)

Definition require_fault_clear (sv : Supervisor) : result DavoutError unit :=
  match first_fault (fault_authority sv) with
  | Some f => Err (EFaultLatched (fault_id f) (fault_class f) (fault_joint f) (fault_message f))
  | None => Ok tt
  end.

Definition require_active_joint (sv : Supervisor) (j : string) : result DavoutError unit :=
  require_fault_clear sv ;!
  refuse_if (negb (bool_decide (mode sv = Active))) (ENotActive (mode sv)) ;!
  refuse_if (negb (bool_decide (j ∈ active_joints sv))) (EInactiveJoint j).

(** First pass of the watchdog: a latched drive fault on an active joint. *)
Fixpoint check_motor_faults (sv : Supervisor) (index : nat) (ms : list Config.MotorEntry)
  : result DavoutError unit :=
  match ms with
  | [] => Ok tt
  | m :: rest =>
      (if negb (bool_decide (Config.joint m ∈ active_joints sv)) then Ok tt
       else match motor_states sv !! address_for sv index m with
       | None => Ok tt
       | Some s => refuse_if (negb (ms_fault s =? 0)) (EMotorFault (Config.joint m) (ms_fault s))
       end) ;!
      check_motor_faults sv (S index) rest
  end.

Definition age_millis (s : option MotorState) (now : Z) : option Z :=
  s ← s; received ← ms_updated s;
  if received <=? now then Some (Z.min ((now - received) / 1000000) U64_MAX) else None.

(** Second pass: an active joint without a current pose. *)
Fixpoint check_poses (sv : Supervisor) (neutral_bootstrap : bool) (now : Z) (index : nat)
  (ms : list Config.MotorEntry) : result DavoutError unit :=
  match ms with
  | [] => Ok tt
  | m :: rest =>
      (if negb (bool_decide (Config.joint m ∈ active_joints sv)) then Ok tt
       else
         let a := address_for sv index m in
         let s := motor_states sv !! a in
         let invalid := bool_decide (a ∈ invalid_feedback sv) in
         if negb invalid && match s with Some s => pose_is_current sv a s now | None => false end
         then Ok tt
         else
           let max_ms := Config.comm_watchdog_ms (sv_control sv) in
           if neutral_bootstrap && negb invalid
              && match enable_bounds_start sv a with
                 | Some start => elapsed start now <=? from_millis max_ms
                 | None => false
                 end
           then Ok tt
           else Err (ECommWatchdog max_ms (Config.joint m) (interface a) (device a) (age_millis s now))) ;!
      check_poses sv neutral_bootstrap now (S index) rest
  end.

Definition check_comm_watchdog (sv : Supervisor) (neutral_bootstrap : bool) (c : clock)
  : result DavoutError unit * clock :=
  match require_fault_clear sv with
  | Ok _ =>
      if negb (bool_decide (mode sv = Active)) then (Ok tt, c)
      else if Config.comm_watchdog_ms (sv_control sv) =? 0
      then (Err (EInvalidCommand "*" (msg "communication watchdog must be positive")), c)
      else match check_motor_faults sv 0 (motors sv) with
      | Ok _ => let '(t, c) := now c in (check_poses sv neutral_bootstrap t 0 (motors sv), c)
      | e => (e, c)
      end
  | e => (e, c)
  end.

(** ** Binding commands to configured motors *)

Definition motor_differs (a b : Config.MotorEntry) : bool :=
  negb (bool_decide (Config.can_interface a = Config.can_interface b))
  || negb (Config.device_id a =? Config.device_id b)
  || negb (bool_decide (Config.motor_type a = Config.motor_type b))
  || negb (Config.direction a =? Config.direction b)
  || negb (feq (Config.gear_ratio a) (Config.gear_ratio b)).

(** The loop of [admit_and_send_mit_with]; [seen] is [scratch.configured]. *)
Fixpoint bind_batch (sv : Supervisor) (supplied : option Config.MotorEntry) (seen : list nat)
  (cmds : list MitJointCommand) : result DavoutError (list nat) :=
  match cmds with
  | [] => Ok seen
  | cmd :: rest =>
      let j := mj_joint cmd in
      require_active_joint sv j ;!
      let! index := ok_or (motor_index sv j) (EUnknownJoint j) in
      match motors sv !! index with
      | None => Panic
      | Some configured =>
          let motor := default configured supplied in
          refuse_if (motor_differs motor configured)
            (EInvalidMotorConfig j (msg "command motor differs from configured joint mapping")) ;!
          refuse_if (negb (bool_decide (j = Config.joint motor)) || bool_decide (index ∈ seen))
            (EInvalidCommand j (msg "joint/address mismatch or repeated joint in batch")) ;!
          bind_batch sv supplied (seen ++ [index]) rest
      end
  end.

(** ** Filtering a batch *)

Record StagedMitState : Type := mkStaged {
  st_motor : nat;
  st_tau_ff_nm : f64;
  st_wrong_sign : option WrongSignState;
  st_total_torque : option TotalTorqueClamp;
  st_envelope_clamped : bool;
}.

(** [filter_mit_core] with its own clock readings: two gated feedback reads and
    the time since the last tick. *)
Definition filter_mit_at (sv : Supervisor) (cmd : MitJointCommand) (motor : Config.MotorEntry)
  (index : nat) (c : clock) : result DavoutError FilteredMit * clock :=
  let '(fb_q, c) := published_state sv index c in
  let '(fb_dq, c) := published_state sv index c in
  let '(dt, c) := match last_tick sv with
                  | None => (None, c)
                  | Some t => let '(n, c) := now c in (Some (elapsed t n), c)
                  end in
  (filter_mit_core (filter_context sv) cmd motor fb_q fb_dq dt, c).

Definition is_neutral_command (c : MitJointCommand) : bool :=
  feq (mj_kp c) fzero && feq (mj_kd c) fzero && feq (mj_torque_ff_nm c) fzero
  && feq (mj_velocity_rad_s c) fzero.

(** One filtered command: its wire, what it stages, whether it is neutral. *)
Definition stage_command (sv : Supervisor) (motor : Config.MotorEntry) (index : nat) (f : FilteredMit)
  : result DavoutError (AddressedMitCommand * StagedMitState * bool) :=
  let out := f_out f in
  let! wrong_sign := match wrong_sign_step (filter_context sv) out (q_meas f) (dq_meas f) with
                     | None => Ok None
                     | Some (state, admitted) => admitted ;! Ok (Some state)
                     end in
  validate_mit_command out ;!
  let! command := joint_to_motor_command motor out in
  Ok (mkAddressed (address_of_motor motor) command,
      mkStaged index (mj_torque_ff_nm out) wrong_sign (total_torque f) (envelope_clamped f),
      is_neutral_command out).

Fixpoint stage_batch (sv : Supervisor) (supplied : option Config.MotorEntry)
  (batch : list (MitJointCommand * nat)) (c : clock)
  : result DavoutError (list (AddressedMitCommand * StagedMitState * bool)) * clock :=
  match batch with
  | [] => (Ok [], c)
  | (cmd, index) :: rest =>
      match motors sv !! index with
      | None => (Panic, c)
      | Some configured =>
          let motor := default configured supplied in
          let '(filtered, c) := filter_mit_at sv cmd motor index c in
          match (let! f := filtered in stage_command sv motor index f) with
          | Ok entry =>
              let '(tail, c) := stage_batch sv supplied rest c in
              ((let! tail := tail in Ok (entry :: tail)), c)
          | Err e => (Err e, c)
          | Panic => (Panic, c)
          end
      end
  end.

Definition prepare_mit_batch (sv : Supervisor) (supplied : option Config.MotorEntry)
  (batch : list (MitJointCommand * nat)) (c : clock)
  : result DavoutError (list AddressedMitCommand * list StagedMitState) * clock :=
  match stage_batch sv supplied batch c with
  | (Ok entries, c) =>
      let neutral := forallb (fun e => e.2) entries in
      let '(admitted, c) := check_comm_watchdog sv neutral c in
      ((admitted ;! Ok ((fun e => e.1.1) <$> entries, (fun e => e.1.2) <$> entries)), c)
  | (Err e, c) => (Err e, c)
  | (Panic, c) => (Panic, c)
  end.

(** ** Commit of a sent batch *)

(** One staged entry.  Its motor index comes from [motor_index], so the lookup
    ([motors[stage.motor]] in the source) finds it. *)
Definition commit_stage (sv : Supervisor) (batch_tick : Z) (stage : StagedMitState) : Supervisor :=
  match motors sv !! st_motor stage with
  | None => sv
  | Some m =>
      let j := Config.joint m in
      mkSupervisor (mode sv) (sv_control_mode sv) (fault_authority sv) (sv_limits sv) (motors sv)
        (motor_addresses sv) (sv_control sv) (motor_states sv) (active_since sv) (set_zero_on_wire sv)
        (invalid_feedback sv)
        (store_by_joint (sv_last_tau_ff sv) j (st_tau_ff_nm stage))
        (match st_total_torque stage with
         | Some _ => (clamp_record (total_torque_clamps sv) j batch_tick).1
         | None => total_torque_clamps sv
         end)
        (if st_envelope_clamped stage then count_by_joint (envelope_clamps sv) j else envelope_clamps sv)
        (match st_wrong_sign stage with
         | Some s => store_by_joint (sv_wrong_sign_state sv) j s
         | None => sv_wrong_sign_state sv
         end)
        (last_tick sv) (active_joints sv) (unanswered_solicits sv) (shed sv)
  end.

Definition commit_batch (sv : Supervisor) (staged : list StagedMitState) (batch_tick written_at : Z)
  : Supervisor :=
  let sv := fold_left (fun sv stage => commit_stage sv batch_tick stage) staged sv in
  mkSupervisor (mode sv) (sv_control_mode sv) (fault_authority sv) (sv_limits sv) (motors sv)
    (motor_addresses sv) (sv_control sv) (motor_states sv) (active_since sv) (set_zero_on_wire sv)
    (invalid_feedback sv) (sv_last_tau_ff sv) (total_torque_clamps sv) (envelope_clamps sv)
    (sv_wrong_sign_state sv) (Some batch_tick) (active_joints sv)
    ((fun s => note_asked s written_at) <$> unanswered_solicits sv) (shed sv).

(** ** Routing keys are those of the configuration *)

Lemma is_motor_address_eq (a : MotorAddress) (m : Config.MotorEntry) :
  is_motor_address a m = true -> a = address_of_motor m.
Proof.
  unfold is_motor_address, address_of_motor. destruct a as [i d]. simpl. intros H.
  apply andb_prop in H as [Hd Hi]. apply String.eqb_eq in Hi. bsimp. now subst.
Qed.

Lemma address_for_eq (sv : Supervisor) (i : nat) (m : Config.MotorEntry) :
  address_for sv i m = address_of_motor m.
Proof.
  unfold address_for. destruct (motor_addresses sv !! i) as [a|]; [|reflexivity].
  destruct (is_motor_address a m) eqn:E; [now apply is_motor_address_eq|reflexivity].
Qed.

Lemma synced_addresses_eq (cache : list MotorAddress) (ms : list Config.MotorEntry) :
  synced_addresses cache ms = address_of_motor <$> ms.
Proof.
  revert cache. induction ms as [|m ms IH]; intros cache; [reflexivity|].
  destruct cache as [|a cache]; cbn [synced_addresses fmap list_fmap]; rewrite IH; [reflexivity|].
  destruct (is_motor_address a m) eqn:E; [now apply is_motor_address_eq in E as ->|reflexivity].
Qed.

(** ** Clock readings *)

(** [c'] is [c] some readings later. *)
Definition later (c c' : clock) : Prop :=
  ticks c' = ticks c /\ slept c' = slept c /\ (cursor c <= cursor c')%nat.

(** [t] is a reading of [c] or of a later instant of its stream. *)
Definition reading (c : clock) (t : Z) : Prop :=
  exists k, (cursor c <= k)%nat /\ t = ticks c k + slept c.

#[global] Instance later_preorder : PreOrder later.
Proof.
  split; [now intros c|]. intros c1 c2 c3 (A & B & C) (D & E & F).
  split; [congruence|split; [congruence|lia]].
Qed.

Lemma now_later (c c' : clock) (t : Z) : now c = (t, c') -> later c c' /\ reading c t.
Proof. intros [= <- <-]. split; [repeat split; simpl; lia|exists (cursor c); auto]. Qed.

Lemma reading_later (c c' : clock) (t : Z) : later c c' -> reading c' t -> reading c t.
Proof.
  intros (A & B & C) (k & Hk & ->). exists k. rewrite A, B. split; [lia|reflexivity].
Qed.

Lemma published_later (sv : Supervisor) (i : nat) (c c' : clock) (o : option MotorState) :
  published_state sv i c = (o, c') -> later c c'.
Proof.
  unfold published_state. destruct (_ ≫= _) as [[a s]|]; [|now intros [= _ <-]].
  destruct (_ || _); [now intros [= _ <-]|]. destruct (now c) as [t c1] eqn:E.
  apply now_later in E as [E _]. destruct (bool_decide _); intros [= _ <-]; exact E.
Qed.

Lemma filter_at_later (sv : Supervisor) cmd motor i (c c' : clock) (r : result DavoutError FilteredMit) :
  filter_mit_at sv cmd motor i c = (r, c') -> later c c'.
Proof.
  unfold filter_mit_at. destruct (published_state sv i c) as [q c1] eqn:E1.
  destruct (published_state sv i c1) as [dq c2] eqn:E2.
  apply published_later in E1, E2. intros H. etransitivity; [exact E1|]. etransitivity; [exact E2|].
  destruct (last_tick sv) as [t|]; [|now inv H]. destruct (now c2) as [n c3] eqn:E3.
  apply now_later in E3 as [E3 _]. now inv H.
Qed.

(** ** Staged batches *)

(** What an admitted command became: a wire to its own motor, computed from an
    admissible command of its own joint, with that command's feedforward staged. *)
Definition prepared (sv : Supervisor) (supplied : option Config.MotorEntry)
  (x : MitJointCommand * nat) (e : AddressedMitCommand * StagedMitState * bool) : Prop :=
  exists configured lim defaults scale out,
    motors sv !! x.2 = Some configured /\
    let motor := default configured supplied in
    sv_limits sv !! mj_joint x.1 = Some lim /\
    hget (Config.motor_type_defaults (sv_control sv)) (Config.motor_type_key (Config.motor_type motor))
      = Some defaults /\
    motor_position_scale motor = Ok scale /\
    admissible lim (Config.torque_limit_nm (Config.bench motor)) defaults scale x.1 out /\
    joint_to_motor_command motor out = Ok (command e.1.1) /\
    address e.1.1 = address_of_motor motor /\
    st_motor e.1.2 = x.2 /\ st_tau_ff_nm e.1.2 = mj_torque_ff_nm out /\
    e.2 = is_neutral_command out.

Lemma filter_found (ctx : FilterContext) cmd motor fb_q fb_dq dt f :
  filter_mit_core ctx cmd motor fb_q fb_dq dt = Ok f ->
  exists lim defaults, limits ctx !! mj_joint cmd = Some lim /\
    hget (Config.motor_type_defaults (control ctx)) (Config.motor_type_key (Config.motor_type motor))
      = Some defaults.
Proof.
  unfold filter_mit_core. intros H. bind_inv H. bind_inv H. bind_inv H.
  apply ok_or_ok in E0, E1. eauto.
Qed.

Lemma filter_at_core (sv : Supervisor) cmd motor i (c c' : clock) (r : result DavoutError FilteredMit) :
  filter_mit_at sv cmd motor i c = (r, c') ->
  exists fb_q fb_dq dt, filter_mit_core (filter_context sv) cmd motor fb_q fb_dq dt = r.
Proof.
  unfold filter_mit_at. destruct (published_state sv i c) as [q c1].
  destruct (published_state sv i c1) as [dq c2].
  destruct (match last_tick sv with None => _ | Some _ => _ end) as [dt c3].
  intros [= <- _]. eauto.
Qed.

Lemma stage_command_prepared (sv : Supervisor) (supplied : option Config.MotorEntry) cmd i configured
  (c c' : clock) (f : FilteredMit) (e : AddressedMitCommand * StagedMitState * bool) :
  map_Forall (fun _ => policy_ok) (sv_limits sv) ->
  motors sv !! i = Some configured ->
  filter_mit_at sv cmd (default configured supplied) i c = (Ok f, c') ->
  stage_command sv (default configured supplied) i f = Ok e -> prepared sv supplied (cmd, i) e.
Proof.
  intros Hpol Hm Hf He. apply filter_at_core in Hf as (q & dq & dt & Hf).
  destruct (filter_found _ _ _ _ _ _ _ Hf) as (lim & defaults & Hl & Hd).
  destruct (filter_admissible _ _ _ _ _ _ lim defaults Hl Hd f (Hpol _ _ Hl) Hf) as (scale & Hs & Ha).
  unfold stage_command in He. bind_inv He. bind_inv He. bind_inv He. inv He.
  exists configured, lim, defaults, scale, (f_out f). simpl. auto 10.
Qed.

Lemma stage_batch_prepared (sv : Supervisor) (supplied : option Config.MotorEntry)
  (Hpol : map_Forall (fun _ => policy_ok) (sv_limits sv)) (batch : list (MitJointCommand * nat)) :
  forall (c c' : clock) entries, stage_batch sv supplied batch c = (Ok entries, c') ->
  Forall2 (prepared sv supplied) batch entries /\ later c c'.
Proof.
  induction batch as [|[cmd i] batch IH]; intros c c' entries; cbn [stage_batch].
  - intros [= <- <-]. split; [constructor|reflexivity].
  - destruct (motors sv !! i) as [m|] eqn:Hm; [|discriminate].
    destruct (filter_mit_at sv cmd _ i c) as [r c1] eqn:Hf.
    destruct r as [f| |]; cbn [rbind]; try discriminate.
    destruct (stage_command sv _ i f) as [e| |] eqn:He; try discriminate.
    destruct (stage_batch sv supplied batch c1) as [tail c2] eqn:Ht.
    destruct tail as [tail| |]; cbn [rbind]; try discriminate. intros [= <- <-].
    destruct (IH c1 c2 tail Ht) as [I1 I2]. split.
    + constructor; [|exact I1]. eapply stage_command_prepared; eassumption.
    + etransitivity; [exact (filter_at_later _ _ _ _ _ _ _ Hf)|exact I2].
Qed.

(** ** The communication watchdog *)

(** An active motor's pose is good enough for this batch at instant [t]. *)
Definition pose_admitted (sv : Supervisor) (neutral : bool) (t : Z) (m : Config.MotorEntry) : Prop :=
  let a := address_of_motor m in
  (a ∉ invalid_feedback sv) /\
  ((exists s, motor_states sv !! a = Some s /\ pose_is_current sv a s t = true) \/
   (neutral = true /\ exists start, enable_bounds_start sv a = Some start /\
      elapsed start t <= from_millis (Config.comm_watchdog_ms (sv_control sv)))).

Lemma check_motor_faults_ok (sv : Supervisor) (ms : list Config.MotorEntry) : forall i,
  check_motor_faults sv i ms = Ok tt ->
  forall m, In m ms -> Config.joint m ∈ active_joints sv ->
  forall s, motor_states sv !! address_of_motor m = Some s -> ms_fault s = 0.
Proof.
  induction ms as [|x ms IH]; intros i H m Hin Hact s Hs; [contradiction|].
  cbn [check_motor_faults] in H. bind_inv H. destruct Hin as [->|Hin]; [|eauto].
  rewrite bool_decide_eq_true_2 in E by exact Hact. simpl in E.
  rewrite address_for_eq, Hs in E. bsimp. assumption.
Qed.

Lemma check_poses_ok (sv : Supervisor) (neutral : bool) (t : Z) (ms : list Config.MotorEntry) : forall i,
  check_poses sv neutral t i ms = Ok tt ->
  forall m, In m ms -> Config.joint m ∈ active_joints sv -> pose_admitted sv neutral t m.
Proof.
  induction ms as [|x ms IH]; intros i H m Hin Hact; [contradiction|].
  cbn [check_poses] in H. bind_inv H. destruct Hin as [->|Hin]; [|eauto].
  rewrite bool_decide_eq_true_2 in E by exact Hact. cbn [negb] in E. cbv zeta in E.
  rewrite address_for_eq in E. unfold pose_admitted. cbv zeta. set (a := address_of_motor m) in *.
  case_bool_decide as Hinv.
  - rewrite andb_false_r in E. discriminate.
  - split; [exact Hinv|]. cbn [negb andb] in E.
    destruct (match motor_states sv !! a with Some s => _ | None => _ end) eqn:Hp.
    + left. destruct (motor_states sv !! a) as [s|]; [eauto|discriminate].
    + right. rewrite andb_true_r in E. destruct neutral; [|discriminate]. split; [reflexivity|].
      destruct (enable_bounds_start sv a) as [start|]; [|discriminate]. exists start.
      split; [reflexivity|]. simpl in E. destruct (_ <=? _) eqn:Hle; [now bsimp|discriminate].
Qed.

Lemma watchdog_ok (sv : Supervisor) (neutral : bool) (c c' : clock) :
  mode sv = Active -> check_comm_watchdog sv neutral c = (Ok tt, c') ->
  exists t, reading c t /\ forall m, In m (motors sv) -> Config.joint m ∈ active_joints sv ->
    (forall s, motor_states sv !! address_of_motor m = Some s -> ms_fault s = 0) /\
    pose_admitted sv neutral t m.
Proof.
  intros Hm. unfold check_comm_watchdog. destruct (require_fault_clear sv); try discriminate.
  rewrite bool_decide_eq_true_2 by exact Hm. cbn [negb].
  destruct (_ =? 0); [discriminate|].
  destruct (check_motor_faults sv 0 (motors sv)) as [[]| |] eqn:Ef; try discriminate.
  destruct (now c) as [t c1] eqn:En. intros [= Hc _]. apply now_later in En as [_ Hr].
  exists t. split; [exact Hr|]. intros m Hin Hact.
  split; [eauto using check_motor_faults_ok|eauto using check_poses_ok].
Qed.

(** what reaches the bus while Active was admitted on current evidence: every
    command of an accepted batch became one frame to its own motor, computed from
    a command inside every limit of its joint; and at one instant read during the
    call every active motor had no drive fault and valid feedback, with a current
    pose, or else the whole batch is neutral and the motor is still within its
    enable window. *)
Theorem prepared_batch_safe (sv : Supervisor) (supplied : option Config.MotorEntry)
  (batch : list (MitJointCommand * nat)) (c c' : clock) (wires : list AddressedMitCommand)
  (staged : list StagedMitState)
  (Hmode : mode sv = Active) (Hpol : map_Forall (fun _ => policy_ok) (sv_limits sv))
  (Hp : prepare_mit_batch sv supplied batch c = (Ok (wires, staged), c')) :
  exists entries, Forall2 (prepared sv supplied) batch entries /\
    wires = (fun e => e.1.1) <$> entries /\ staged = (fun e => e.1.2) <$> entries /\
    exists t, reading c t /\ forall m, In m (motors sv) -> Config.joint m ∈ active_joints sv ->
      (forall s, motor_states sv !! address_of_motor m = Some s -> ms_fault s = 0) /\
      pose_admitted sv (forallb (fun e => e.2) entries) t m.
Proof.
  unfold prepare_mit_batch in Hp.
  destruct (stage_batch sv supplied batch c) as [[entries| |] c1] eqn:E; try discriminate.
  destruct (stage_batch_prepared sv supplied Hpol batch _ _ _ E) as [F L].
  destruct (check_comm_watchdog sv _ c1) as [[[]| |] c2] eqn:W; try discriminate.
  simpl in Hp. injection Hp as <- <- _. destruct (watchdog_ok _ _ _ _ Hmode W) as (t & Hr & Hw).
  exists entries. repeat split; auto. exists t. split; [now apply (reading_later c c1)|exact Hw].
Qed.

(** ** Commit *)

Definition stage_joint (sv : Supervisor) (st : StagedMitState) : option string :=
  Config.joint <$> motors sv !! st_motor st.

Definition commit_all (sv : Supervisor) (tick : Z) (staged : list StagedMitState) : Supervisor :=
  fold_left (fun sv st => commit_stage sv tick st) staged sv.

Lemma commit_stage_frame (sv : Supervisor) (tick : Z) (st : StagedMitState) :
  let sv' := commit_stage sv tick st in
  motors sv' = motors sv /\ unanswered_solicits sv' = unanswered_solicits sv /\
  (forall j, stage_joint sv st <> Some j ->
     sv_last_tau_ff sv' !! j = sv_last_tau_ff sv !! j /\
     sv_wrong_sign_state sv' !! j = sv_wrong_sign_state sv !! j) /\
  (forall j, stage_joint sv st = Some j -> sv_last_tau_ff sv' !! j = Some (st_tau_ff_nm st)).
Proof.
  unfold commit_stage, stage_joint. destruct (motors sv !! st_motor st) as [m|]; simpl.
  2:{ repeat split; auto. discriminate. }
  split; [reflexivity|]. split; [reflexivity|]. unfold store_by_joint. split.
  - intros j Hj. rewrite lookup_insert_ne by congruence. split; [reflexivity|].
    destruct (st_wrong_sign st); [|reflexivity]. now rewrite lookup_insert_ne by congruence.
  - intros j [= <-]. apply lookup_insert_eq.
Qed.

Lemma commit_all_spec (tick : Z) (staged : list StagedMitState) : forall sv,
  NoDup (stage_joint sv <$> staged) ->
  let sv' := commit_all sv tick staged in
  motors sv' = motors sv /\ unanswered_solicits sv' = unanswered_solicits sv /\
  (forall j, Some j ∉ (stage_joint sv <$> staged) ->
     sv_last_tau_ff sv' !! j = sv_last_tau_ff sv !! j /\
     sv_wrong_sign_state sv' !! j = sv_wrong_sign_state sv !! j) /\
  (forall st j, In st staged -> stage_joint sv st = Some j ->
     sv_last_tau_ff sv' !! j = Some (st_tau_ff_nm st)).
Proof.
  induction staged as [|st staged IH]; intros sv Hn; cbn [commit_all fold_left].
  { repeat split; auto. contradiction. }
  destruct (commit_stage_frame sv tick st) as (Fm & Fu & Fo & Ft). cbv zeta in Fm, Fu, Fo, Ft.
  set (sv1 := commit_stage sv tick st) in *.
  assert (Hs : forall x, stage_joint sv1 x = stage_joint sv x) by (intros x; unfold stage_joint; now rewrite Fm).
  assert (Hmap : stage_joint sv1 <$> staged = stage_joint sv <$> staged) by (apply list_fmap_ext; auto).
  cbn [fmap list_fmap] in *. apply NoDup_cons in Hn as [Hni Hn].
  destruct (IH sv1) as (I1 & I2 & I3 & I4); [now rewrite Hmap|]. fold (commit_all sv1 tick staged).
  cbv zeta. rewrite I1, I2. split; [exact Fm|]. split; [exact Fu|]. split.
  - intros j Hj. apply not_elem_of_cons in Hj as [Hj1 Hj2]. rewrite <- Hmap in Hj2.
    destruct (I3 j Hj2) as [-> ->]. apply Fo. congruence.
  - intros x j [->|Hin] Hx.
    + destruct (I3 j) as [-> _]; [rewrite Hmap, <- Hx; exact Hni|]. now apply Ft.
    + apply (I4 x j Hin). now rewrite Hs.
Qed.

(** only what was sent is remembered: after a sent batch (one command per
    joint) the slew limiter of every commanded joint starts from exactly the
    feedforward its frame carried, joints outside the batch keep their limiter and
    watchdog state, and every session target's silence counts from its earliest
    unanswered write, this one if there was none. *)
Theorem commit_records_sent (sv : Supervisor) (staged : list StagedMitState) (tick written : Z)
  (Hn : NoDup (stage_joint sv <$> staged)) :
  let sv' := commit_batch sv staged tick written in
  (forall st j, In st staged -> stage_joint sv st = Some j ->
     sv_last_tau_ff sv' !! j = Some (st_tau_ff_nm st)) /\
  (forall j, Some j ∉ (stage_joint sv <$> staged) ->
     sv_last_tau_ff sv' !! j = sv_last_tau_ff sv !! j /\
     sv_wrong_sign_state sv' !! j = sv_wrong_sign_state sv !! j) /\
  (forall a, is_Some (unanswered_solicits sv !! a) ->
     unanswered_solicit sv' a = Some (default written (unanswered_solicit sv a))).
Proof.
  destruct (commit_all_spec tick staged sv Hn) as (C1 & C2 & C3 & C4). unfold commit_batch.
  fold (commit_all sv tick staged). cbv zeta in *. cbn [sv_last_tau_ff sv_wrong_sign_state].
  split; [exact C4|]. split; [exact C3|]. intros a [s Hs]. unfold unanswered_solicit.
  cbn [unanswered_solicits]. rewrite C2, lookup_fmap, Hs. reflexivity.
Qed.

(** ** A bench session *)

Definition bench_address : MotorAddress := mkAddress "can0" 11.
Definition bench_pose : MotorState := mkMotorState (lit32 1 10) fzero fzero fzero 0 (Some 2000000000).

(** One joint Active since one second, heard at two seconds, nothing unanswered. *)
Definition bench_session : Supervisor :=
  mkSupervisor Active Impedance authority_default (bench_limits (f64_of_Z 10)) [bench_motor] []
    bench_control {[bench_address := bench_pose]} (Some 1000000000) ∅ ∅ ∅ clamp_log_default ∅ ∅ None
    {["right_shoulder_pitch"%string]} {[bench_address := solicited_default]} [].

Definition bench_clock : clock := mkClock (fun n => 2001000000 + Z.of_nat n * 1000) 0 0.

Definition bench_prepared := prepare_mit_batch bench_session None [(bench_command, 0%nat)] bench_clock.

Definition bench_wires : list AddressedMitCommand :=
  match bench_prepared.1 with Ok (w, _) => w | _ => [] end.
Definition bench_staged : list StagedMitState :=
  match bench_prepared.1 with Ok (_, st) => st | _ => [] end.

Lemma prepared_batch_safe_witness :
  length bench_wires = 1%nat /\
  exists entries, Forall2 (prepared bench_session None) [(bench_command, 0%nat)] entries /\
    bench_wires = (fun e => e.1.1) <$> entries /\ bench_staged = (fun e => e.1.2) <$> entries /\
    exists t, reading bench_clock t /\
      forall m, In m (motors bench_session) -> Config.joint m ∈ active_joints bench_session ->
      (forall s, motor_states bench_session !! address_of_motor m = Some s -> ms_fault s = 0) /\
      pose_admitted bench_session (forallb (fun e => e.2) entries) t m.
Proof.
  split; [vm_compute; reflexivity|].
  apply (prepared_batch_safe bench_session None [(bench_command, 0%nat)] bench_clock bench_prepared.2).
  - reflexivity.
  - apply map_Forall_to_list. vm_compute. repeat constructor.
  - transitivity (bench_prepared.1, bench_prepared.2); [apply surjective_pairing|].
    apply (f_equal (fun r => (r, bench_prepared.2))). vm_compute. reflexivity.
Defined.

Lemma commit_records_sent_witness :
  (forall st j, In st bench_staged -> stage_joint bench_session st = Some j ->
     sv_last_tau_ff (commit_batch bench_session bench_staged 1 2) !! j = Some (st_tau_ff_nm st)) /\
  (forall j, Some j ∉ (stage_joint bench_session <$> bench_staged) ->
     sv_last_tau_ff (commit_batch bench_session bench_staged 1 2) !! j = sv_last_tau_ff bench_session !! j /\
     sv_wrong_sign_state (commit_batch bench_session bench_staged 1 2) !! j
     = sv_wrong_sign_state bench_session !! j) /\
  (forall a, is_Some (unanswered_solicits bench_session !! a) ->
     unanswered_solicit (commit_batch bench_session bench_staged 1 2) a
     = Some (default 2 (unanswered_solicit bench_session a))).
Proof.
  apply (commit_records_sent bench_session bench_staged 1 2).
  vm_compute. repeat constructor; intros H; inversion H.
Defined.

End Admission.
