(* ===== verification/Safety.v ===== *)
(** * Validated configuration makes the command filter total and safe

    Composes the validators ([marengo-config]), the limit builder and the filter
    ([davout]): a profile the validators accept never makes the filter panic, and
    its motors can be told apart on the bus. *)

From Stdlib Require Import ZArith Lia Bool SpecFloat.
From stdpp Require Import base gmap strings list.
From S2P Require Import Prelude Float Comm Config Validate Limits TotalTorque Bus Davout Filter.

Module Safety.
Import Config Validate Limits Davout Filter.

(** ** Reading the validators back *)

Lemma hget_in {V : Type} (m : hmap V) (k : string) (v : V) : hget m k = Some v -> In (k, v) m.
Proof.
  induction m as [|[k' w] m IH]; simpl; [discriminate|].
  case_bool_decide; [intros [= ->]; subst; auto|auto].
Qed.

Lemma finite_inv (fl : message) (x : f64) : finite fl x = Ok tt -> is_finite x = true.
Proof. unfold finite. intros H. bsimp. assumption. Qed.

Lemma nonnegative_inv (fl : message) (x : f64) :
  nonnegative fl x = Ok tt -> is_finite x = true /\ fle fzero x = true.
Proof.
  unfold nonnegative. intros H. bind_inv H. destruct x0. apply finite_inv in E. bsimp.
  auto using Params.Params.nonneg_of_not_lt.
Qed.

Lemma positive_inv (fl : message) (x : f64) :
  positive fl x = Ok tt -> is_finite x = true /\ fle x fzero = false.
Proof.
  unfold positive. intros H. bind_inv H. destruct x0. apply finite_inv in E. bsimp. auto.
Qed.

Lemma then_inv {E : Type} (r k : result E unit) : (r ;! k) = Ok tt -> r = Ok tt /\ k = Ok tt.
Proof. destruct r as [[]| |]; simpl; try discriminate; auto. Qed.

(** What a validated motor entry is. *)
Record motor_valid (m : MotorEntry) : Prop := {
  mv_direction : direction_ok (direction m) = true;
  mv_gear : is_finite (gear_ratio m) = true /\ fle (gear_ratio m) fzero = false;
  mv_torque : is_finite (torque_limit_nm (bench m)) = true /\ fle fzero (torque_limit_nm (bench m)) = true;
  mv_range : fge (position_lower_rad (bench m)) (position_upper_rad (bench m)) = false;
}.

Lemma validate_motor_inv (seen : list MotorEntry) (m : MotorEntry) :
  validate_motor seen m = Ok tt ->
  motor_valid m /\
  existsb (fun prior => bool_decide (joint prior = joint m)) seen = false /\
  existsb (fun prior => same_address prior m) seen = false.
Proof.
  unfold validate_motor. intros H.
  do 10 (apply then_inv in H as [? H]). bsimp.
  repeat split; auto.
  1-2: match goal with H : positive _ _ = Ok tt |- _ => apply positive_inv in H as [? ?]; assumption end.
  all: apply nonnegative_inv in H as [? ?]; assumption.
Qed.

Lemma existsb_false {A : Type} (p : A -> bool) (l : list A) :
  existsb p l = false -> forall x, In x l -> p x = false.
Proof.
  intros H x Hx. destruct (p x) eqn:E; [|reflexivity].
  rewrite <- H. symmetry. apply existsb_exists. eauto.
Qed.

Lemma validate_motors_from_inv (rest seen : list MotorEntry) :
  validate_motors_from seen rest = Ok tt ->
  NoDup (map Bus.address_of_motor seen) -> NoDup (map joint seen) ->
  Forall motor_valid rest /\ NoDup (map Bus.address_of_motor (seen ++ rest)) /\
  NoDup (map joint (seen ++ rest)).
Proof.
  revert seen. induction rest as [|m rest IH]; intros seen H Ha Hj.
  { rewrite app_nil_r. auto. }
  cbn [validate_motors_from] in H. apply then_inv in H as [Hm H].
  apply validate_motor_inv in Hm as (Hv & Hsj & Hsa).
  assert (Ha' : NoDup (map Bus.address_of_motor (seen ++ [m]))).
  { rewrite map_app. apply NoDup_app. split; [exact Ha|]. split; [|apply NoDup_singleton].
    intros a Hin Hs. apply list_elem_of_singleton in Hs as ->. apply list_elem_of_In, in_map_iff in Hin as (p & Hp & Hin).
    apply (existsb_false _ _ Hsa) in Hin. unfold same_address in Hin.
    unfold Bus.address_of_motor in Hp. injection Hp as Hi Hd.
    rewrite (bool_decide_eq_true_2 _ Hi), Hd, Z.eqb_refl in Hin. discriminate. }
  assert (Hj' : NoDup (map joint (seen ++ [m]))).
  { rewrite map_app. apply NoDup_app. split; [exact Hj|]. split; [|apply NoDup_singleton].
    intros j Hin Hs. apply list_elem_of_singleton in Hs as ->. apply list_elem_of_In, in_map_iff in Hin as (p & Hp & Hin).
    apply (existsb_false _ _ Hsj) in Hin. rewrite (bool_decide_eq_true_2 _ Hp) in Hin. discriminate. }
  destruct (IH (seen ++ [m]) H Ha' Hj') as (Hf & Hna & Hnj).
  rewrite <- app_assoc in Hna, Hnj. auto.
Qed.

(** What the filter needs of a validated profile. *)
Record profile_valid (robot : RobotSection) (motors : list MotorEntry) (c : ControlSection) : Prop := {
  pv_motors : Forall motor_valid motors;
  pv_addresses : NoDup (map Bus.address_of_motor motors);
  pv_joints : NoDup (map joint motors);
  pv_robot_torque : fle fzero (bench_max_joint_torque_nm robot) = true;
  pv_rate : fle fzero (tau_ff_rate_limit_nm_per_s c) = true;
  pv_defaults : forall k d, hget (motor_type_defaults c) k = Some d -> fle fzero (tau_ff_max_nm d) = true;
  pv_soft : soft_config_ok c;
  pv_loop : 1 <= loop_hz c <= 1000000;
}.

Lemma validate_type_defaults_inv (k : string) (d : MotorTypeDefaults) :
  validate_type_defaults (k, d) = Ok tt -> fle fzero (tau_ff_max_nm d) = true.
Proof.
  unfold validate_type_defaults. intros H. apply then_inv in H as [_ H]. apply then_inv in H as [H _].
  rewrite try_for_each_ok in H.
  specialize (H ("tau_ff_max_nm"%string, tau_ff_max_nm d)). simpl in H.
  eapply nonnegative_inv, H. tauto.
Qed.

Lemma validate_control_joint_inv (j : string) (e : JointControlEntry) :
  validate_control_joint (j, e) = Ok tt ->
  (forall x, position_soft_lower_rad e = Some x -> is_nan x = false) /\
  (forall x, position_soft_upper_rad e = Some x -> is_nan x = false).
Proof.
  unfold validate_control_joint. intros H. apply then_inv in H as [H _].
  unfold limit_margin_fields_valid in H. do 5 (apply then_inv in H as [? H]). bsimp.
  split; intros x Hx; apply finite_not_nan;
    [match goal with H : match position_soft_lower_rad e with Some _ => _ | None => _ end = false |- _ =>
       rewrite Hx in H; now apply negb_false_iff in H end|
     match goal with H : match position_soft_upper_rad e with Some _ => _ | None => _ end = false |- _ =>
       rewrite Hx in H; now apply negb_false_iff in H end].
Qed.

Lemma validate_control_config_inv (c : ControlSection) :
  validate_control_config c = Ok tt -> 0 <= loop_hz c ->
  fle fzero (tau_ff_rate_limit_nm_per_s c) = true /\
  (forall k d, hget (motor_type_defaults c) k = Some d -> fle fzero (tau_ff_max_nm d) = true) /\
  soft_config_ok c /\ 1 <= loop_hz c <= 1000000.
Proof.
  unfold validate_control_config. intros H Hz. apply then_inv in H as [_ H]. apply then_inv in H as [Hj Hn].
  rewrite try_for_each_ok in Hj. unfold validate_control_numbers in Hn.
  do 5 (apply then_inv in Hn as [? Hn]). apply then_inv in Hn as [Hd _].
  rewrite try_for_each_ok in Hd. bsimp. repeat split; try lia.
  - match goal with H : nonnegative _ (tau_ff_rate_limit_nm_per_s c) = Ok tt |- _ =>
      now apply nonnegative_inv in H end.
  - intros k d Hk. apply (validate_type_defaults_inv k). apply Hd. now apply hget_in.
  - eapply (validate_control_joint_inv j). apply Hj. now apply hget_in.
  - eapply (validate_control_joint_inv j). apply Hj. now apply hget_in.
Qed.

Lemma validated_profile (robot : RobotSection) (motors : list MotorEntry) (c : ControlSection)
  (h : HomingSection) :
  validate_safety_config robot motors c h = Ok tt -> 0 <= loop_hz c -> profile_valid robot motors c.
Proof.
  unfold validate_safety_config, validate_control_against_limits, validate_motors_against_robot,
    validate_robot_config, validate_motors_config.
  intros H Hz. apply then_inv in H as [H _]. apply then_inv in H as [Hm H]. apply then_inv in H as [Hc _].
  apply then_inv in Hm as [Hr Hm]. apply then_inv in Hm as [Hm _].
  apply then_inv in Hr as [_ Hr]. apply then_inv in Hr as [Hr _].
  destruct (validate_motors_from_inv motors [] Hm) as (M1 & M2 & M3); [constructor..|].
  destruct (validate_control_config_inv c Hc Hz) as (C1 & C2 & C3 & C4).
  apply nonnegative_inv in Hr as [_ Hr]. split; auto.
Qed.

(** ** Torque caps of a built policy *)

Lemma build_joint_limits_torque (robot : RobotSection) (motors : list MotorEntry) (c : ControlSection)
  (urdf : list UrdfJoint) (j : string) (p : JointLimitPolicy) :
  build_joint_limits robot motors c urdf j = Ok p ->
  exists ul motor d, joint_limits urdf j = Ok ul /\ motor_for_joint motors j = Some motor /\
    hget (motor_type_defaults c) (motor_type_key (motor_type motor)) = Some d /\
    tau_ff_max p = fmin (fmin (fmin (l_effort ul) (torque_limit_nm (bench motor)))
                           (bench_max_joint_torque_nm robot)) (tau_ff_max_nm d).
Proof.
  intros H. unfold build_joint_limits in H.
  bind_inv H. rename x into ul, E into Hul. apply map_err_inv in Hul.
  bind_inv H. bind_inv H. rename x0 into motor, E0 into Hm. apply ok_or_ok in Hm.
  do 8 bind_inv H. apply ok_or_ok in E7. bind_inv H. inv H. exists ul, motor, x7. auto.
Qed.

Lemma motor_for_joint_in (motors : list MotorEntry) (j : string) (m : MotorEntry) :
  motor_for_joint motors j = Some m -> In m motors.
Proof. intros H. now apply find_first_some in H as [? _]. Qed.

(** The URDF's efforts are nonnegative numbers; nothing in the program checks it. *)
Definition efforts_ok (urdf : list UrdfJoint) : Prop :=
  forall j ul, joint_limits urdf j = Ok ul -> fle fzero (l_effort ul) = true.

Lemma built_caps_ok (robot : RobotSection) (motors : list MotorEntry) (c : ControlSection)
  (urdf : list UrdfJoint) (ctx : FilterContext) (motor : MotorEntry) :
  profile_valid robot motors c -> efforts_ok urdf ->
  build_limits robot motors c urdf = Ok (limits ctx) -> control ctx = c -> In motor motors ->
  caps_ok ctx motor.
Proof.
  intros [P1 P2 P3 P4 P5 P6 P7 P8] He Hb Hc Hin. rewrite Forall_forall in P1.
  assert (Hmv : forall m, In m motors -> motor_valid m) by (intros m Hm; apply P1, list_elem_of_In; exact Hm).
  split; rewrite ?Hc.
  - assert (Hall : map_Forall (fun _ p => fle fzero (tau_ff_max p) = true /\ fle fzero (velocity p) = true) (limits ctx)).
    { refine (proj1 (build_limits_from_ok _ _ _ _ _ _ _
        (fun _ p => fle fzero (tau_ff_max p) = true /\ fle fzero (velocity p) = true) _ (map_Forall_empty _) Hb)).
      intros j p Hp. split.
      - destruct (build_joint_limits_torque _ _ _ _ _ _ Hp) as (ul & m & d & H1 & H2 & H3 & ->).
        destruct (Hmv m (motor_for_joint_in _ _ _ H2)) as [_ _ [_ Ht] _].
        repeat apply fmin_glb; eauto.
      - destruct (build_joint_limits_ok _ _ _ _ _ _ P7 Hp) as (m & ul & _ & _ & [_ [_ Hv] _ _]).
        now apply flt_le. }
    exact Hall.
  - destruct (Hmv motor Hin) as [_ _ [_ Ht] _]. exact Ht.
  - intros d Hd. eauto.
  - exact P5.
Qed.

(** C1: the whole command path is total and safe: for a profile that passes
    [validate_safety_config] and a URDF with nonnegative efforts, every command
    for every configured motor, under any feedback, slew state and tick interval,
    is either refused with an error or filtered into an admissible command; the
    filter never panics. *)
Theorem validated_filter_total_and_safe (robot : RobotSection) (motors : list MotorEntry)
  (c : ControlSection) (h : HomingSection) (urdf : list UrdfJoint) (ctx : FilterContext)
  (motor : MotorEntry) (cmd : TotalTorque.MitJointCommand) (fb_q fb_dq : option MotorState) (dt : option Z)
  (Hv : validate_safety_config robot motors c h = Ok tt) (Hz : 0 <= loop_hz c)
  (He : efforts_ok urdf) (Hb : build_limits robot motors c urdf = Ok (limits ctx))
  (Hc : control ctx = c) (Hin : In motor motors) (Hdt : tick_ok dt) :
  (exists e, filter_mit_core ctx cmd motor fb_q fb_dq dt = Err e) \/
  (exists f lim d scale,
     filter_mit_core ctx cmd motor fb_q fb_dq dt = Ok f /\
     limits ctx !! TotalTorque.mj_joint cmd = Some lim /\ bounds_wf (bounds lim) /\
     hget (motor_type_defaults c) (motor_type_key (motor_type motor)) = Some d /\
     motor_position_scale motor = Ok scale /\
     admissible lim (torque_limit_nm (bench motor)) d scale cmd (f_out f)).
Proof.
  pose proof (validated_profile _ _ _ _ Hv Hz) as Hp.
  pose proof (built_caps_ok _ _ _ _ ctx motor Hp He Hb Hc Hin) as Hcaps.
  pose proof (filter_no_panic ctx cmd motor fb_q fb_dq dt Hcaps Hdt) as Hn.
  destruct (filter_mit_core ctx cmd motor fb_q fb_dq dt) as [f|e|] eqn:Ef; [right|left; eauto|congruence].
  destruct (filter_ok_lookups _ _ _ _ _ _ _ Ef) as (lim & d & Hl & Hd). rewrite Hc in Hd.
  destruct (build_limits_from_ok _ _ _ _ _ _ _
    (fun _ p => bounds_wf (bounds p) /\ is_finite (velocity p) = true)
    (fun j p Hj => match build_joint_limits_ok robot motors c urdf j p (pv_soft _ _ _ Hp) Hj with
       ex_intro _ m (ex_intro _ ul (conj _ (conj _ bp))) =>
         conj (bp_bounds _ _ _ _ bp) (proj1 (bp_velocity _ _ _ _ bp)) end)
    (map_Forall_empty _) Hb) as [Hall _].
  destruct (Hall _ _ Hl) as [Hw Hvel].
  assert (Hok : policy_ok lim).
  { destruct (bounds_wf_nan _ Hw) as (N1 & N2 & _). repeat split; auto. now apply finite_not_nan. }
  rewrite <- Hc in Hd.
  destruct (filter_admissible ctx cmd motor fb_q fb_dq dt lim d Hl Hd f Hok Ef) as (scale & Hs & Ha).
  exists f, lim, d, scale. rewrite <- Hc. auto 10.
Qed.

Definition bench_homing : HomingSection :=
  mkHoming (lit64 2 100) "calibration.json"
    (mkHomingDefaults fzero Negative (lit64 1 10) (f64_of_Z 1) (f64_of_Z 20) (lit64 5 100) true false)
    [("right_shoulder_pitch"%string, mkHomingJoint ManualReference None None None None None None None None None)].

Lemma bench_efforts_ok : efforts_ok (bench_urdf (f64_of_Z 10)).
Proof.
  intros j ul H. unfold joint_limits, find_joint in H. cbn [bench_urdf find_first uj_name] in H.
  destruct (bool_decide _); [|discriminate]. cbn in H. inv H. reflexivity.
Qed.

Lemma validated_filter_total_and_safe_witness :
  (exists e, bench_filtered = Err e) \/
  (exists f lim d scale,
     bench_filtered = Ok f /\
     limits (bench_ctx (f64_of_Z 10)) !! TotalTorque.mj_joint bench_command = Some lim /\
     bounds_wf (bounds lim) /\
     hget (motor_type_defaults bench_control) (motor_type_key (motor_type bench_motor)) = Some d /\
     motor_position_scale bench_motor = Ok scale /\
     admissible lim (torque_limit_nm (bench bench_motor)) d scale bench_command (f_out f)).
Proof.
  apply (validated_filter_total_and_safe bench_robot [bench_motor] bench_control bench_homing
           (bench_urdf (f64_of_Z 10)) (bench_ctx (f64_of_Z 10)) bench_motor bench_command
           bench_feedback bench_feedback (Some 5000000)).
  - vm_compute. reflexivity.
  - simpl. lia.
  - exact bench_efforts_ok.
  - vm_compute. reflexivity.
  - reflexivity.
  - left. reflexivity.
  - intros ns [= <-]. lia.
Defined.

(** a validated profile names every motor unambiguously: no two motors share a
    joint or a bus address, so the routing table built from it has one entry per
    address, each motor's direction is a sign and its gear ratio a positive
    number, and the joint/motor conversion is defined for it. *)
Theorem validated_motors_unambiguous (robot : RobotSection) (motors : list MotorEntry)
  (c : ControlSection) (h : HomingSection)
  (Hv : validate_safety_config robot motors c h = Ok tt) (Hz : 0 <= loop_hz c) :
  NoDup (map joint motors) /\
  NoDup (map (fun m => (Bus.address_of_motor m, motor_type m)) motors).*1 /\
  Forall (fun m => exists scale, motor_position_scale m = Ok scale) motors.
Proof.
  destruct (validated_profile _ _ _ _ Hv Hz) as [P1 P2 P3 _ _ _ _ _].
  split; [exact P3|]. split.
  - replace (map (fun m => (Bus.address_of_motor m, motor_type m)) motors).*1
      with (map Bus.address_of_motor motors); [exact P2|].
    clear. induction motors as [|m motors IH]; [reflexivity|]. simpl. now rewrite IH.
  - eapply Forall_impl; [exact P1|]. intros m [Hd [Hg1 Hg2] _ _].
    unfold motor_position_scale. unfold direction_ok in Hd. rewrite Hd, Hg1, Hg2. simpl. eauto.
Qed.

Lemma validated_motors_unambiguous_witness :
  NoDup (map joint [bench_motor]) /\
  NoDup (map (fun m => (Bus.address_of_motor m, motor_type m)) [bench_motor]).*1 /\
  Forall (fun m => exists scale, motor_position_scale m = Ok scale) [bench_motor].
Proof.
  apply (validated_motors_unambiguous bench_robot [bench_motor] bench_control bench_homing).
  - vm_compute. reflexivity.
  - simpl. lia.
Defined.

End Safety.
