(* ===== verification/Outbox.v ===== *)
(** * Outbox: bounded publication queue towards the gateway

    [src/crates/chappe/src/ipc_outbox.rs] with the topic tables of
    [src/crates/chappe/src/topics.rs].  Telemetry leaves the control process
    through one outbox: six coalescing slots, one per latest-value topic, and a
    bounded FIFO of events, served round robin by the writer thread.

    - [Outbox.admit_precheck] and [Outbox.admit_locked] are the two halves of
      [admit_before_lock], because other threads run between them; a failed
      [try_lock] is the [contended] argument.
    - [Outbox.next_pass] is one pass of the loop of [next] under the lock: it
      returns, or it waits on the condition variable while others run.
    - [Sys] is the outbox with the admissions that are between the two halves;
      [exec] runs one atomic region of any thread, and a list of [op] is an
      interleaving.
    - [Spec] is what the outbox promises: one slot per state topic, a FIFO of
      events; [exec_refines] and [reachable] relate the two.

    Counters are [AtomicU64]s whose [fetch_add] wraps, so conservation is stated
    modulo [2 ^ 64]. *)

From S2P Require Import Prelude.
From S2P Require Import Bus.
From Stdlib Require Import ZArith Lia Bool.
From stdpp Require Import base gmap strings list.

Module Outbox.

Open Scope string_scope.
Open Scope Z_scope.

(** ** Topics *)

Definition LATEST_TELEMETRY_TOPICS : list string :=
  ["robot/safety"; "robot/heartbeat"; "robot/state"; "sensors/imu/torso";
   "host/metrics/pi"; "robot/actuator/limits"].

Definition EVENT_TELEMETRY_TOPICS : list string :=
  ["logs/structured"; "robot/audit/action"; "robot/audit/tuning"].

Definition COMMAND_TOPICS : list string :=
  ["robot/enable"; "robot/set_zero"; "robot/active_reporting_lease";
   "robot/motor_status_poll"; "robot/testing/mit_command_batch"; "robot/actuator/command"].

(** ** Data *)

Definition MAX_PAYLOAD_BYTES : Z := 64 * 1024.
Definition EVENT_CAPACITY : Z := 128.
Definition EVENT_BYTE_CAPACITY : Z := 512 * 1024.
Definition LATEST_TOPICS : list string := LATEST_TELEMETRY_TOPICS.
Definition LATEST_LEN : nat := length LATEST_TOPICS.
Definition QUEUE_ITEM_CAPACITY : Z := Z.of_nat LATEST_LEN + EVENT_CAPACITY.
Definition QUEUE_BYTE_CAPACITY : Z := Z.of_nat LATEST_LEN * MAX_PAYLOAD_BYTES + EVENT_BYTE_CAPACITY.
Definition STATE_MAX_AGE : Z := 1000000000.

Inductive ForwardOutcome : Type := Accepted | Coalesced | Dropped.

#[export] Instance ForwardOutcome_eq_dec : EqDecision ForwardOutcome.
Proof. solve_decision. Defined.

Record Publication : Type := mkPublication {
  topic : string;
  payload : list Z;
  admitted : Z
}.

Record Queue : Type := mkQueue {
  latest : list (option Publication);
  events : list Publication;
  event_bytes : Z;
  next_class : nat
}.

Record Outbox : Type := mkOutbox {
  queue : Queue;
  connected : bool;
  closed : bool;
  accepted : Z;
  coalesced : Z;
  dropped : Z;
  expired : Z;
  rejected : Z;
  disconnected : Z;
  write_failures : Z;
  (* values sent on the connection broadcast, oldest first *)
  connection_changes : list bool
}.

(** [AtomicU64::fetch_add(1)]. *)
Definition fetch_add (c : Z) : Z := (c + 1) mod 2 ^ 64.

Definition plen (p : Publication) : Z := Z.of_nat (length (payload p)).

Definition new_queue : Queue := mkQueue (replicate LATEST_LEN None) [] 0 0.
Definition new_with_clock : Outbox := mkOutbox new_queue false false 0 0 0 0 0 0 0 [].

Definition with_queue (q : Queue) (b : Outbox) : Outbox :=
  mkOutbox q (connected b) (closed b) (accepted b) (coalesced b) (dropped b)
    (expired b) (rejected b) (disconnected b) (write_failures b) (connection_changes b).
Definition with_connection (c cl : bool) (log : list bool) (b : Outbox) : Outbox :=
  mkOutbox (queue b) c cl (accepted b) (coalesced b) (dropped b)
    (expired b) (rejected b) (disconnected b) (write_failures b) log.

(** ** Operations *)

Definition set_connected (c : bool) (b : Outbox) : Outbox :=
  let c' := c && negb (closed b) in
  with_connection c' (closed b)
    (if Bool.eqb (connected b) c' then connection_changes b else connection_changes b ++ [c']) b.

Definition close (b : Outbox) : Outbox :=
  with_connection false true
    (if connected b then connection_changes b ++ [false] else connection_changes b) b.

Definition record_write_failure (b : Outbox) : Outbox :=
  mkOutbox (queue b) (connected b) (closed b) (accepted b) (coalesced b) (dropped b)
    (expired b) (rejected b) (disconnected b) (fetch_add (write_failures b)) (connection_changes b).

Definition drop_publication (b : Outbox) : ForwardOutcome * Outbox :=
  (Dropped,
   mkOutbox (queue b) (connected b) (closed b) (accepted b) (coalesced b) (fetch_add (dropped b))
     (expired b) (rejected b) (disconnected b) (write_failures b) (connection_changes b)).

Definition reject_publication (b : Outbox) : ForwardOutcome * Outbox :=
  (Dropped,
   mkOutbox (queue b) (connected b) (closed b) (accepted b) (coalesced b) (dropped b)
     (expired b) (fetch_add (rejected b)) (disconnected b) (write_failures b) (connection_changes b)).

(** [iter().position(|candidate| *candidate == topic)]. *)
Fixpoint position (t : string) (l : list string) : option nat :=
  match l with
  | [] => None
  | c :: rest => if bool_decide (c = t) then Some 0%nat else S <$> position t rest
  end.

(** The tests [admit_before_lock] makes before it asks for the lock: true when
    the admission goes on to [try_lock]. *)
Definition admit_precheck (t : string) (data : list Z) (b : Outbox) : bool :=
  negb (closed b || (MAX_PAYLOAD_BYTES <? Z.of_nat (length data))
        || (bool_decide (position t LATEST_TOPICS = None)
            && bool_decide (position t EVENT_TELEMETRY_TOPICS = None))).

(** The counters of a completed admission. *)
Definition count_outcome (o : ForwardOutcome) (b : Outbox) : Outbox :=
  mkOutbox (queue b) (connected b) (closed b)
    (match o with Accepted => fetch_add (accepted b) | _ => accepted b end)
    (match o with Coalesced => fetch_add (coalesced b) | _ => coalesced b end)
    (match o with Dropped => fetch_add (dropped b) | _ => dropped b end)
    (expired b) (rejected b)
    (if connected b then disconnected b else fetch_add (disconnected b))
    (write_failures b) (connection_changes b).

(** From [try_lock] on.  [contended] is [TryLockError::WouldBlock]. *)
Definition admit_locked (contended : bool) (t : string) (data : list Z) (b : Outbox) (c : clock)
  : ForwardOutcome * Outbox * clock :=
  if contended then (drop_publication b, c)
  else if closed b then (reject_publication b, c)
  else
    let q := queue b in
    match position t LATEST_TOPICS with
    | Some index =>
        let replaced := match latest q !! index with Some (Some _) => true | _ => false end in
        let (at_, c) := now c in
        let p := mkPublication (nth index LATEST_TOPICS EmptyString) data at_ in
        let q' := mkQueue (<[index := Some p]> (latest q)) (events q) (event_bytes q) (next_class q) in
        let outcome := if replaced then Coalesced else Accepted in
        (outcome, count_outcome outcome (with_queue q' b), c)
    | None =>
        match position t EVENT_TELEMETRY_TOPICS with
        | Some index =>
            if (EVENT_CAPACITY <=? Z.of_nat (length (events q)))
               || (EVENT_BYTE_CAPACITY <? event_bytes q + Z.of_nat (length data))
            then (drop_publication b, c)
            else
              let (at_, c) := now c in
              let p := mkPublication (nth index EVENT_TELEMETRY_TOPICS EmptyString) data at_ in
              let q' := mkQueue (latest q) (events q ++ [p])
                          (event_bytes q + Z.of_nat (length data)) (next_class q) in
              (Accepted, count_outcome Accepted (with_queue q' b), c)
        | None => (drop_publication b, c)
        end
    end.

(** The public [admit] as one thread runs it when nothing interleaves. *)
Definition admit_publication (contended : bool) (t : string) (data : list Z) (b : Outbox) (c : clock)
  : ForwardOutcome * Outbox * clock :=
  if admit_precheck t data b then admit_locked contended t data b c
  else (reject_publication b, c).

Definition count_expired (b : Outbox) : Outbox :=
  mkOutbox (queue b) (connected b) (closed b) (accepted b) (coalesced b) (fetch_add (dropped b))
    (fetch_add (expired b)) (rejected b) (disconnected b) (write_failures b) (connection_changes b).

(** [a.saturating_duration_since(b)]. *)
Definition saturating_duration_since (a b : Z) : Z := Z.max 0 (a - b).

(** The body of [for _ in 0..=LATEST_TOPICS.len()]: [Some] is its [return]. *)
Definition try_class (b : Outbox) (c : clock) : option Publication * Outbox * clock :=
  let q := queue b in
  let class := next_class q in
  let next := ((class + 1) mod (LATEST_LEN + 1))%nat in
  if (class =? LATEST_LEN)%nat then
    match events q with
    | e :: rest =>
        (Some e, with_queue (mkQueue (latest q) rest (event_bytes q - plen e) next) b, c)
    | [] => (None, with_queue (mkQueue (latest q) [] (event_bytes q) next) b, c)
    end
  else
    match latest q !! class with
    | Some (Some state) =>
        let b' := with_queue (mkQueue (<[class := None]> (latest q)) (events q)
                                (event_bytes q) next) b in
        let (t, c) := now c in
        if saturating_duration_since t (admitted state) <=? STATE_MAX_AGE
        then (Some state, b', c)
        else (None, count_expired b', c)
    | _ => (None, with_queue (mkQueue (latest q) (events q) (event_bytes q) next) b, c)
    end.

Fixpoint scan_classes (n : nat) (b : Outbox) (c : clock) : option Publication * Outbox * clock :=
  match n with
  | O => (None, b, c)
  | S n =>
      match try_class b c with
      | (Some p, b, c) => (Some p, b, c)
      | (None, b, c) => scan_classes n b c
      end
  end.

(** One pass of the loop of [next]: it returns, or waits for [ready]. *)
Inductive pass : Type := ReturnNone | Deliver (p : Publication) | WaitReady.

Definition next_pass (b : Outbox) (c : clock) : pass * Outbox * clock :=
  if closed b || negb (connected b) then (ReturnNone, b, c)
  else
    match scan_classes (LATEST_LEN + 1) b c with
    | (Some p, b', c') => (Deliver p, b', c')
    | (None, b', c') => (WaitReady, b', c')
    end.

Record IpcQueueStats : Type := mkStats {
  s_connected : bool;
  queued_items : Z;
  queued_bytes : Z;
  oldest_age_ms : Z;
  s_accepted : Z;
  s_coalesced : Z;
  s_dropped : Z;
  s_expired : Z;
  s_rejected : Z;
  admitted_disconnected : Z;
  s_write_failures : Z
}.

(** [Iterator::flatten] over options. *)
Fixpoint flatten {A : Type} (l : list (option A)) : list A :=
  match l with
  | [] => []
  | Some x :: rest => x :: flatten rest
  | None :: rest => flatten rest
  end.

(** [latest.iter().flatten().chain(events.iter())]. *)
Definition publications (q : Queue) : list Publication := flatten (latest q) ++ events q.

Fixpoint stats_fold (ps : list Publication) (acc : Z * Z * Z) (c : clock) : Z * Z * Z :=
  match ps with
  | [] => acc
  | p :: rest =>
      let '(items, bytes, age) := acc in
      let (t, c) := now c in
      stats_fold rest
        (items + 1, bytes + plen p,
         Z.max age (saturating_duration_since t (admitted p) / 1000000)) c
  end.

Definition stats (b : Outbox) (c : clock) : IpcQueueStats :=
  let '(items, bytes, age) := stats_fold (publications (queue b)) (0, 0, 0) c in
  mkStats (connected b) items bytes age (accepted b) (coalesced b) (dropped b) (expired b)
    (rejected b) (disconnected b) (write_failures b).

(** ** Threads

    [pending] are the admissions that passed the first tests and have not
    reached the lock. *)

Record Sys : Type := mkSys {
  ob : Outbox;
  pending : list (string * list Z);
  hostclock : clock
}.

Inductive op : Type :=
| OpBegin (t : string) (data : list Z)
| OpLock (i : nat) (contended : bool)
| OpNext
| OpSetConnected (c : bool)
| OpClose
| OpWriteFailure.

Inductive obs : Type :=
| Silent
| Closed
| Link (c : bool)
| Finished (contended : bool) (t : string) (data : list Z) (o : ForwardOutcome)
| Delivered (p : Publication)
| NothingToSend.

Definition exec (s : Sys) (o : op) : obs * Sys :=
  match o with
  | OpBegin t data =>
      if admit_precheck t data (ob s)
      then (Silent, mkSys (ob s) (pending s ++ [(t, data)]) (hostclock s))
      else let '(r, b) := reject_publication (ob s) in
           (Finished false t data r, mkSys b (pending s) (hostclock s))
  | OpLock i contended =>
      match pending s !! i with
      | Some (t, data) =>
          let '(r, b, c) := admit_locked contended t data (ob s) (hostclock s) in
          (Finished contended t data r, mkSys b (delete i (pending s)) c)
      | None => (Silent, s)
      end
  | OpNext =>
      match next_pass (ob s) (hostclock s) with
      | (Deliver p, b, c) => (Delivered p, mkSys b (pending s) c)
      | (_, b, c) => (NothingToSend, mkSys b (pending s) c)
      end
  | OpSetConnected c => (Link c, mkSys (set_connected c (ob s)) (pending s) (hostclock s))
  | OpClose => (Closed, mkSys (close (ob s)) (pending s) (hostclock s))
  | OpWriteFailure => (Silent, mkSys (record_write_failure (ob s)) (pending s) (hostclock s))
  end.

Fixpoint run (s : Sys) (ops : list op) : list obs * Sys :=
  match ops with
  | [] => ([], s)
  | o :: rest =>
      let '(x, s1) := exec s o in
      let '(xs, s2) := run s1 rest in (x :: xs, s2)
  end.

Definition start (c : clock) : Sys := mkSys new_with_clock [] c.

(** ** Specification *)

Record Spec : Type := mkSpec {
  slots : gmap string (list Z * Z);
  fifo : list Publication;
  shut : bool;
  up : bool;
  (* the readings of the host clock still to come *)
  time : clock
}.

Definition bytes_of (l : list Publication) : Z := foldr (fun p n => plen p + n) 0 l.

(** The event FIFO has no room for [data]. *)
Definition fifo_full (a : Spec) (data : list Z) : Prop :=
  EVENT_CAPACITY <= Z.of_nat (length (fifo a))
  \/ EVENT_BYTE_CAPACITY < bytes_of (fifo a) + Z.of_nat (length data).

(** A publication may be refused for one of these reasons and no other. *)
Definition may_drop (a : Spec) (contended : bool) (t : string) (data : list Z) : Prop :=
  contended = true \/ shut a = true
  \/ MAX_PAYLOAD_BYTES < Z.of_nat (length data)
  \/ ((t ∉ LATEST_TOPICS) /\ (t ∉ EVENT_TELEMETRY_TOPICS))
  \/ (t ∈ EVENT_TELEMETRY_TOPICS /\ fifo_full a data).

(** The writer may find nothing to send for one of these reasons and no other. *)
Definition may_idle (a : Spec) : Prop :=
  shut a = true \/ up a = false
  \/ (fifo a = [] /\ forall t, t ∈ LATEST_TOPICS -> slots a !! t = None).

(** Every age is judged at the next reading of the clock, which the step
    consumes. *)
Inductive spec_step (a : Spec) : obs -> Spec -> Prop :=
| SpecSilent : spec_step a Silent a
| SpecNothing : may_idle a -> spec_step a NothingToSend a
| SpecLink f : spec_step a (Link f) (mkSpec (slots a) (fifo a) (shut a) (f && negb (shut a)) (time a))
| SpecClose : spec_step a Closed (mkSpec (slots a) (fifo a) true false (time a))
| SpecState t data :
    t ∈ LATEST_TOPICS -> Z.of_nat (length data) <= MAX_PAYLOAD_BYTES -> shut a = false ->
    spec_step a
      (Finished false t data (if slots a !! t is Some _ then Coalesced else Accepted))
      (mkSpec (<[t := (data, (now (time a)).1)]> (slots a)) (fifo a) (shut a) (up a) (now (time a)).2)
| SpecEvent t data :
    t ∈ EVENT_TELEMETRY_TOPICS -> Z.of_nat (length data) <= MAX_PAYLOAD_BYTES -> shut a = false ->
    ~ fifo_full a data ->
    spec_step a (Finished false t data Accepted)
      (mkSpec (slots a) (fifo a ++ [mkPublication t data (now (time a)).1]) (shut a) (up a) (now (time a)).2)
| SpecDrop contended t data :
    may_drop a contended t data -> spec_step a (Finished contended t data Dropped) a
| SpecDeliverState p :
    shut a = false -> up a = true ->
    slots a !! topic p = Some (payload p, admitted p) ->
    (now (time a)).1 - admitted p <= STATE_MAX_AGE ->
    spec_step a (Delivered p) (mkSpec (delete (topic p) (slots a)) (fifo a) (shut a) (up a) (now (time a)).2)
| SpecDeliverEvent p rest :
    shut a = false -> up a = true -> fifo a = p :: rest ->
    spec_step a (Delivered p) (mkSpec (slots a) rest (shut a) (up a) (time a)).

(** A state that the clock now shows to be older than the bound is dropped. *)
Inductive spec_expire (a : Spec) : Spec -> Prop :=
| SpecExpire t data at_ :
    slots a !! t = Some (data, at_) -> STATE_MAX_AGE < (now (time a)).1 - at_ ->
    spec_expire a (mkSpec (delete t (slots a)) (fifo a) (shut a) (up a) (now (time a)).2).

(** Only the writer drops expired states. *)
Definition spec_run (a : Spec) (x : obs) (a' : Spec) : Prop :=
  match x with
  | Delivered _ | NothingToSend => exists a1, rtc spec_expire a a1 /\ spec_step a1 x a'
  | _ => spec_step a x a'
  end.

Definition slot_at (q : Queue) (i : nat) : option (list Z * Z) :=
  match latest q !! i with Some (Some p) => Some (payload p, admitted p) | _ => None end.

(** The simulation relation. *)
Record represents (b : Outbox) (c : clock) (a : Spec) : Prop := {
  rep_slots : forall i t, LATEST_TOPICS !! i = Some t -> slots a !! t = slot_at (queue b) i;
  rep_fifo : fifo a = events (queue b);
  rep_shut : shut a = closed b;
  rep_up : up a = connected b;
  rep_time : time a = c
}.

(** ** Invariant *)

Record queue_ok (q : Queue) : Prop := {
  ok_latest_len : length (latest q) = LATEST_LEN;
  ok_latest : forall i p, latest q !! i = Some (Some p) ->
    LATEST_TOPICS !! i = Some (topic p) /\ plen p <= MAX_PAYLOAD_BYTES;
  ok_events : Forall (fun p => topic p ∈ EVENT_TELEMETRY_TOPICS) (events q);
  ok_event_bytes : event_bytes q = bytes_of (events q);
  ok_event_count : Z.of_nat (length (events q)) <= EVENT_CAPACITY;
  ok_event_cap : event_bytes q <= EVENT_BYTE_CAPACITY;
  ok_class : (next_class q <= LATEST_LEN)%nat
}.

(** The tests of [admit_precheck] that no other thread can undo. *)
Definition admissible (t : string) (data : list Z) : Prop :=
  Z.of_nat (length data) <= MAX_PAYLOAD_BYTES
  /\ (t ∈ LATEST_TOPICS \/ t ∈ EVENT_TELEMETRY_TOPICS).

Definition items (q : Queue) : Z := Z.of_nat (length (publications q)).

Record sys_ok (s : Sys) : Prop := {
  ok_queue : queue_ok (queue (ob s));
  ok_pending : Forall (fun e => admissible e.1 e.2) (pending s);
  ok_closed : closed (ob s) = true -> connected (ob s) = false
}.

(** ** Lemmas: topics and sums *)

Lemma position_some (t : string) (l : list string) (i : nat) :
  position t l = Some i -> l !! i = Some t.
Proof.
  revert i. induction l as [|c l IH]; intros i; simpl; [discriminate|].
  case_bool_decide as E; [intros [= <-]; simpl; congruence|].
  destruct (position t l) as [j|]; simpl; [intros [= <-]; simpl; auto|discriminate].
Qed.

Lemma position_none (t : string) (l : list string) : position t l = None -> t ∉ l.
Proof.
  induction l as [|c l IH]; simpl; [set_solver|].
  case_bool_decide; [discriminate|]. destruct (position t l); simpl; [discriminate|]. set_solver.
Qed.

Lemma position_elem (t : string) (l : list string) (i : nat) : position t l = Some i -> t ∈ l.
Proof. intros H. eapply list_elem_of_lookup_2, position_some, H. Qed.

Lemma position_nth (t : string) (l : list string) (i : nat) :
  position t l = Some i -> nth i l EmptyString = t.
Proof. intros H%position_some. apply nth_lookup_Some with (d := EmptyString) in H. exact H. Qed.

Lemma latest_topics_nodup : NoDup LATEST_TOPICS.
Proof. by apply (bool_decide_unpack _). Qed.

Lemma topics_disjoint (t : string) : t ∈ LATEST_TOPICS -> t ∉ EVENT_TELEMETRY_TOPICS.
Proof.
  revert t. apply (proj1 (Forall_forall (fun t => t ∉ EVENT_TELEMETRY_TOPICS) LATEST_TOPICS)).
  by apply (bool_decide_unpack _).
Qed.

Lemma bytes_of_app (l1 l2 : list Publication) : bytes_of (l1 ++ l2) = bytes_of l1 + bytes_of l2.
Proof. induction l1 as [|p l IH]; simpl; [reflexivity|]. unfold bytes_of in *. simpl. lia. Qed.

Lemma publications_insert_state (q : Queue) (i : nat) (o : option Publication) :
  (i < length (latest q))%nat ->
  Z.of_nat (length (flatten (<[i := o]> (latest q))))
  = Z.of_nat (length (flatten (latest q)))
    - (match latest q !! i with Some (Some _) => 1 | _ => 0 end)
    + (match o with Some _ => 1 | None => 0 end).
Proof.
  generalize (latest q) as l. intros l. revert i.
  induction l as [|x l IH]; intros i Hi; simpl in Hi; [lia|].
  destruct i as [|i]; simpl.
  - destruct o, x; simpl; lia.
  - specialize (IH i ltac:(lia)). destruct x; simpl; lia.
Qed.

(** ** Lemmas: the loop body of [next]

    The five ways through [try_class]. *)

Inductive class_case (b : Outbox) (c : clock) : option Publication -> Outbox -> clock -> Prop :=
| CaseEvent e rest :
    next_class (queue b) = LATEST_LEN -> events (queue b) = e :: rest ->
    class_case b c (Some e)
      (with_queue (mkQueue (latest (queue b)) rest (event_bytes (queue b) - plen e) 0) b) c
| CaseNoEvent :
    next_class (queue b) = LATEST_LEN -> events (queue b) = [] ->
    class_case b c None
      (with_queue (mkQueue (latest (queue b)) [] (event_bytes (queue b)) 0) b) c
| CaseState p :
    (next_class (queue b) < LATEST_LEN)%nat ->
    latest (queue b) !! next_class (queue b) = Some (Some p) ->
    (now c).1 - admitted p <= STATE_MAX_AGE ->
    class_case b c (Some p)
      (with_queue (mkQueue (<[next_class (queue b) := None]> (latest (queue b))) (events (queue b))
         (event_bytes (queue b)) (S (next_class (queue b)))) b) (now c).2
| CaseExpired p :
    (next_class (queue b) < LATEST_LEN)%nat ->
    latest (queue b) !! next_class (queue b) = Some (Some p) ->
    STATE_MAX_AGE < (now c).1 - admitted p ->
    class_case b c None
      (count_expired (with_queue (mkQueue (<[next_class (queue b) := None]> (latest (queue b)))
         (events (queue b)) (event_bytes (queue b)) (S (next_class (queue b)))) b)) (now c).2
| CaseNoState :
    (next_class (queue b) < LATEST_LEN)%nat ->
    slot_at (queue b) (next_class (queue b)) = None ->
    class_case b c None
      (with_queue (mkQueue (latest (queue b)) (events (queue b)) (event_bytes (queue b))
         (S (next_class (queue b)))) b) c.

Lemma try_class_cases (b : Outbox) (c : clock) r b' c' :
  (next_class (queue b) <= LATEST_LEN)%nat ->
  try_class b c = (r, b', c') -> class_case b c r b' c'.
Proof.
  intros Hc. unfold try_class.
  destruct (Nat.eqb_spec (next_class (queue b)) LATEST_LEN) as [He|Hne].
  - rewrite He. change ((LATEST_LEN + 1) mod (LATEST_LEN + 1))%nat with 0%nat.
    destruct (events (queue b)) as [|e rest] eqn:Ev; intros [= <- <- <-];
      [apply CaseNoEvent|eapply CaseEvent]; eauto.
  - assert (Hlt : (next_class (queue b) < LATEST_LEN)%nat) by lia.
    rewrite (Nat.mod_small _ (LATEST_LEN + 1)), Nat.add_1_r by lia.
    destruct (latest (queue b) !! next_class (queue b)) as [[p|]|] eqn:El.
    + rewrite (surjective_pairing (now c)).
      destruct (Z.leb_spec (saturating_duration_since (now c).1 (admitted p)) STATE_MAX_AGE) as [Ha|Ha];
        unfold saturating_duration_since, STATE_MAX_AGE in *; intros [= <- <- <-];
        [eapply CaseState|eapply CaseExpired]; eauto; unfold STATE_MAX_AGE; lia.
    + intros [= <- <- <-]. apply CaseNoState; [exact Hlt|]. unfold slot_at. rewrite El. reflexivity.
    + intros [= <- <- <-]. apply CaseNoState; [exact Hlt|]. unfold slot_at. rewrite El. reflexivity.
Qed.

(** What every try preserves holds of the whole scan. *)
Lemma scan_rule_at (I : Outbox -> clock -> Prop) (Q : option Publication -> Outbox -> clock -> Prop) :
  (forall b c, I b c -> (next_class (queue b) <= LATEST_LEN)%nat) ->
  (forall b c r b' c', I b c -> class_case b c r b' c' ->
     match r with Some p => Q (Some p) b' c' | None => I b' c' end) ->
  (forall b c, I b c -> Q None b c) ->
  forall n b c r b' c', I b c -> scan_classes n b c = (r, b', c') -> Q r b' c'.
Proof.
  intros Hc Hstep Hend n. induction n as [|n IH]; intros b c r b' c' HI; simpl.
  - intros [= <- <- <-]. auto.
  - destruct (try_class b c) as [[r1 b1] c1] eqn:E.
    specialize (Hstep b c r1 b1 c1 HI (try_class_cases _ _ _ _ _ (Hc b c HI) E)).
    destruct r1 as [p|]; [intros [= <- <- <-]; exact Hstep|apply IH; exact Hstep].
Qed.

Lemma scan_rule (I : Outbox -> Prop) (Q : option Publication -> Outbox -> Prop) :
  (forall b, I b -> (next_class (queue b) <= LATEST_LEN)%nat) ->
  (forall b c r b' c', I b -> class_case b c r b' c' ->
     match r with Some p => Q (Some p) b' | None => I b' end) ->
  (forall b, I b -> Q None b) ->
  forall n b c r b' c', I b -> scan_classes n b c = (r, b', c') -> Q r b'.
Proof. intros Hc Hstep Hend. apply (scan_rule_at (fun b _ => I b) (fun r b _ => Q r b)); eauto. Qed.

(** ** The invariant is preserved *)

Lemma new_queue_ok : queue_ok new_queue.
Proof.
  split; cbn; auto; try lia; try discriminate.
  intros i p H. do 6 (destruct i as [|i]; [discriminate H|]). discriminate H.
Qed.

Lemma bytes_of_nonneg (l : list Publication) : 0 <= bytes_of l.
Proof.
  induction l as [|p l IH]; [cbn; lia|].
  change (0 <= plen p + bytes_of l). unfold plen. lia.
Qed.

Lemma advance_ok (q : Queue) (k : nat) :
  queue_ok q -> (k <= LATEST_LEN)%nat ->
  queue_ok (mkQueue (latest q) (events q) (event_bytes q) k).
Proof. intros [] Hk. split; auto. Qed.

Lemma take_state_ok (q : Queue) (i k : nat) :
  queue_ok q -> (k <= LATEST_LEN)%nat ->
  queue_ok (mkQueue (<[i := None]> (latest q)) (events q) (event_bytes q) k).
Proof.
  intros [] Hk. split; cbn; auto.
  - by rewrite length_insert.
  - intros j p Hj. apply ok_latest0.
    apply list_lookup_insert_Some in Hj as [(_ & [=] & _)|[_ Hj]]. exact Hj.
Qed.

Lemma put_state_ok (q : Queue) (i : nat) (p : Publication) :
  queue_ok q -> LATEST_TOPICS !! i = Some (topic p) -> plen p <= MAX_PAYLOAD_BYTES ->
  queue_ok (mkQueue (<[i := Some p]> (latest q)) (events q) (event_bytes q) (next_class q)).
Proof.
  intros [] Ht Hp. split; cbn; auto.
  - by rewrite length_insert.
  - intros j p' Hj.
    apply list_lookup_insert_Some in Hj as [(-> & [= ->] & _)|[_ Hj]]; auto.
Qed.

Lemma pop_event_ok (q : Queue) (e : Publication) (rest : list Publication) (k : nat) :
  queue_ok q -> events q = e :: rest -> (k <= LATEST_LEN)%nat ->
  queue_ok (mkQueue (latest q) rest (event_bytes q - plen e) k).
Proof.
  intros [] He Hk. rewrite He in *. inversion ok_events0; subst. split; cbn in *; auto.
  - rewrite ok_event_bytes0. fold (bytes_of rest). lia.
  - lia.
  - unfold plen. lia.
Qed.

Lemma push_event_ok (q : Queue) (p : Publication) :
  queue_ok q -> topic p ∈ EVENT_TELEMETRY_TOPICS ->
  Z.of_nat (length (events q)) < EVENT_CAPACITY ->
  event_bytes q + plen p <= EVENT_BYTE_CAPACITY ->
  queue_ok (mkQueue (latest q) (events q ++ [p]) (event_bytes q + plen p) (next_class q)).
Proof.
  intros [] Ht Hn Hb. split; cbn; auto.
  - apply Forall_app. auto.
  - rewrite bytes_of_app, ok_event_bytes0. cbn. lia.
  - rewrite length_app. cbn. lia.
Qed.

#[local] Hint Resolve advance_ok take_state_ok put_state_ok pop_event_ok push_event_ok : rust.

Lemma class_case_ok (b : Outbox) (c : clock) r b' c' :
  queue_ok (queue b) -> class_case b c r b' c' -> queue_ok (queue b').
Proof.
  intros Hok Hcase. destruct Hcase; cbn [queue with_queue count_expired];
    eauto with rust; try (eapply pop_event_ok; eauto; lia).
  rewrite <- H0 at 1. apply advance_ok; auto. lia.
Qed.

Lemma scan_ok n b c r b' c' :
  queue_ok (queue b) -> scan_classes n b c = (r, b', c') -> queue_ok (queue b').
Proof.
  apply (scan_rule (fun b => queue_ok (queue b)) (fun _ b => queue_ok (queue b))).
  - intros x []. assumption.
  - intros x cx rx bx cx' Hx Hc. apply class_case_ok in Hc; [|exact Hx]. destruct rx; exact Hc.
  - auto.
Qed.

Lemma precheck_admissible (t : string) (data : list Z) (b : Outbox) :
  admit_precheck t data b = true -> admissible t data /\ closed b = false.
Proof.
  unfold admit_precheck, admissible. intros H. bsimp. split; [split; [lia|]|assumption].
  match goal with H : _ && _ = false |- _ => apply andb_false_iff in H as [H|H] end;
    [left; destruct (position t LATEST_TOPICS) eqn:E
    |right; destruct (position t EVENT_TELEMETRY_TOPICS) eqn:E];
    try discriminate; eapply position_elem; eauto.
Qed.

Lemma admit_locked_ok contended t data b c r b' c' :
  queue_ok (queue b) -> admissible t data ->
  admit_locked contended t data b c = (r, b', c') -> queue_ok (queue b').
Proof.
  intros Hok [Hlen _]. unfold admit_locked.
  destruct contended; [intros [= <- <- <-]; exact Hok|].
  destruct (closed b); [intros [= <- <- <-]; exact Hok|].
  rewrite (surjective_pairing (now c)).
  destruct (position t LATEST_TOPICS) as [i|] eqn:Ei.
  { rewrite (position_nth _ _ _ Ei). intros [= <- <- <-].
    cbn [queue with_queue count_outcome]. apply put_state_ok; auto. apply position_some. exact Ei. }
  destruct (position t EVENT_TELEMETRY_TOPICS) as [i|] eqn:Ej; [|intros [= <- <- <-]; exact Hok].
  rewrite (position_nth _ _ _ Ej).
  destruct (_ || _) eqn:Ef; intros [= <- <- <-]; [exact Hok|]. bsimp.
  cbn [queue with_queue count_outcome].
  refine (push_event_ok (queue b) (mkPublication _ data _) Hok _ _ _); auto.
  eapply position_elem; eauto.
Qed.

Lemma set_connected_queue c b : queue (set_connected c b) = queue b.
Proof. reflexivity. Qed.

Lemma scan_flags n b c r b' c' :
  (next_class (queue b) <= LATEST_LEN)%nat ->
  scan_classes n b c = (r, b', c') -> closed b' = closed b /\ connected b' = connected b.
Proof.
  revert b c. induction n as [|n IH]; intros b c Hc; cbn [scan_classes]; [intros [= <- <- <-]; auto|].
  destruct (try_class b c) as [[r1 b1] c1] eqn:E.
  apply try_class_cases in E; [|exact Hc].
  assert (Hf : closed b1 = closed b /\ connected b1 = connected b) by (destruct E; auto).
  assert ((next_class (queue b1) <= LATEST_LEN)%nat)
    by (destruct E; cbn [queue with_queue count_expired next_class]; lia).
  destruct r1 as [p|]; [intros [= <- <- <-]; exact Hf|].
  intros HE. apply IH in HE; [|assumption]. destruct Hf, HE. split; congruence.
Qed.

Lemma admit_locked_flags contended t data b c r b' c' :
  admit_locked contended t data b c = (r, b', c') ->
  closed b' = closed b /\ connected b' = connected b.
Proof.
  unfold admit_locked. destruct contended; [intros [= <- <- <-]; auto|].
  destruct (closed b) eqn:Ec; [intros [= <- <- <-]; auto|].
  rewrite (surjective_pairing (now c)).
  repeat case_match; intros [= <- <- <-]; auto.
Qed.

Lemma outbox_exec_ok (s : Sys) (o : op) (x : obs) (s' : Sys) :
  sys_ok s -> exec s o = (x, s') -> sys_ok s'.
Proof.
  intros [Hq Hp Hc]. destruct o as [t data|i contended| |f| |]; cbn [exec].
  - destruct (admit_precheck t data (ob s)) eqn:E; intros [= <- <-]; split; auto.
    cbn [pending]. apply Forall_app. split; [exact Hp|].
    apply Forall_singleton, (precheck_admissible _ _ _ E).
  - destruct (pending s !! i) as [[t data]|] eqn:Ei; [|intros [= <- <-]; split; auto].
    destruct (admit_locked _ _ _ _ _) as [[r b] c] eqn:E. intros [= <- <-].
    pose proof (proj1 (Forall_lookup _ _) Hp _ _ Ei) as Ha.
    destruct (admit_locked_flags _ _ _ _ _ _ _ _ E) as [Hcl Hco].
    split; cbn [ob pending]; [eapply admit_locked_ok; [exact Hq|exact Ha|exact E]|by apply Forall_delete|].
    rewrite Hcl, Hco. exact Hc.
  - unfold next_pass. destruct (closed (ob s) || negb (connected (ob s))) eqn:Er.
    { intros [= <- <-]. split; auto. }
    destruct (scan_classes _ _ _) as [[[p|] b] c] eqn:E; intros [= <- <-];
      destruct (scan_flags _ _ _ _ _ _ (ok_class _ Hq) E) as [Hcl Hco];
      (split; cbn [ob pending]; [eapply scan_ok; eauto|auto|rewrite Hcl, Hco; exact Hc]).
  - intros [= <- <-]. split; auto. cbn. intros ->. by rewrite andb_false_r.
  - intros [= <- <-]. split; auto.
  - intros [= <- <-]. split; auto.
Qed.

Lemma outbox_run_ok (ops : list op) : forall s xs s', sys_ok s -> run s ops = (xs, s') -> sys_ok s'.
Proof.
  induction ops as [|o ops IH]; intros s xs s' Hs; cbn [run]; [intros [= <- <-]; exact Hs|].
  destruct (exec s o) as [x s1] eqn:E. destruct (run s1 ops) as [xs1 s2] eqn:E2.
  intros [= <- <-]. eapply IH; [eapply outbox_exec_ok; eauto|exact E2].
Qed.

Lemma start_ok (c : clock) : sys_ok (start c).
Proof. split; cbn; auto using new_queue_ok. Qed.

(** ** Bounds *)

Lemma flatten_length {A : Type} (l : list (option A)) : (length (flatten l) <= length l)%nat.
Proof. induction l as [|[x|] l IH]; simpl; lia. Qed.

Lemma flatten_bytes (l : list (option Publication)) :
  (forall i p, l !! i = Some (Some p) -> plen p <= MAX_PAYLOAD_BYTES) ->
  bytes_of (flatten l) <= Z.of_nat (length l) * MAX_PAYLOAD_BYTES.
Proof.
  induction l as [|[p|] l IH]; intros H; cbn [flatten length]; [cbn; lia| |].
  - change (bytes_of (p :: flatten l)) with (plen p + bytes_of (flatten l)).
    pose proof (H 0%nat p eq_refl). pose proof (IH (fun i => H (S i))). lia.
  - pose proof (IH (fun i => H (S i))). unfold MAX_PAYLOAD_BYTES in *. lia.
Qed.

Lemma stats_fold_spec (ps : list Publication) : forall i n a c,
  exists age, stats_fold ps (i, n, a) c = (i + Z.of_nat (length ps), n + bytes_of ps, age).
Proof.
  induction ps as [|p ps IH]; intros i n a c; cbn [stats_fold].
  - exists a. cbn. f_equal. f_equal; lia.
  - rewrite (surjective_pairing (now c)).
    destruct (IH (i + 1) (n + plen p)
                (Z.max a (saturating_duration_since (now c).1 (admitted p) / 1000000)) (now c).2)
      as [age ->].
    exists age. change (bytes_of (p :: ps)) with (plen p + bytes_of ps). cbn [length].
    f_equal. f_equal; lia.
Qed.

Lemma queue_bounds (b : Outbox) (c : clock) :
  queue_ok (queue b) ->
  queued_items (stats b c) <= QUEUE_ITEM_CAPACITY /\ queued_bytes (stats b c) <= QUEUE_BYTE_CAPACITY.
Proof.
  intros []. unfold stats.
  destruct (stats_fold_spec (publications (queue b)) 0 0 0 c) as [age ->].
  cbn [queued_items queued_bytes].
  unfold publications. rewrite length_app, bytes_of_app.
  pose proof (flatten_length (latest (queue b))).
  pose proof (flatten_bytes (latest (queue b)) (fun i p Hi => proj2 (ok_latest0 i p Hi))).
  unfold QUEUE_ITEM_CAPACITY, QUEUE_BYTE_CAPACITY.
  rewrite ok_latest_len0 in *. lia.
Qed.

(** whatever the interleaving of publishers, writer, connection changes and
    shutdown, the outbox never holds more than [QUEUE_ITEM_CAPACITY]
    publications or [QUEUE_BYTE_CAPACITY] payload bytes, its byte counter is the
    sum of the queued events, every slot holds its own topic, and a closed
    outbox is not connected. *)
Theorem outbox_bounded (c : clock) (ops : list op) :
  let s := (run (start c) ops).2 in
  sys_ok s
  /\ forall c', queued_items (stats (ob s) c') <= QUEUE_ITEM_CAPACITY
           /\ queued_bytes (stats (ob s) c') <= QUEUE_BYTE_CAPACITY.
Proof.
  intros s. assert (Hs : sys_ok s).
  { eapply outbox_run_ok; [apply (start_ok c)|]. apply surjective_pairing. }
  split; [exact Hs|]. intros c'. apply queue_bounds, Hs.
Qed.

(** ** Refinement *)

Lemma latest_index_inj (i j : nat) (t : string) :
  LATEST_TOPICS !! i = Some t -> LATEST_TOPICS !! j = Some t -> i = j.
Proof. apply NoDup_lookup, latest_topics_nodup. Qed.

Lemma represents_take (b : Outbox) (c c' : clock) (a : Spec) (i k : nat) (p : Publication) (b' : Outbox) :
  queue_ok (queue b) -> represents b c a -> latest (queue b) !! i = Some (Some p) ->
  queue b' = mkQueue (<[i := None]> (latest (queue b))) (events (queue b)) (event_bytes (queue b)) k ->
  closed b' = closed b -> connected b' = connected b ->
  slots a !! topic p = Some (payload p, admitted p)
  /\ represents b' c' (mkSpec (delete (topic p) (slots a)) (fifo a) (shut a) (up a) c').
Proof.
  intros Hok [Hs Hf Hc Hu Hm] Hp Hq Hcl Hco. destruct (ok_latest _ Hok _ _ Hp) as [Ht _]. split.
  - rewrite (Hs _ _ Ht). unfold slot_at. by rewrite Hp.
  - split; cbn; [|by rewrite Hf, Hq|congruence..].
    intros j t Hj. rewrite Hq. unfold slot_at. cbn.
    destruct (decide (i = j)) as [->|Hne].
    + assert (t = topic p) as -> by congruence. rewrite lookup_delete_eq.
      rewrite list_lookup_insert_eq by (eapply lookup_lt_Some; eauto). reflexivity.
    + rewrite list_lookup_insert_ne by exact Hne.
      rewrite lookup_delete_ne; [apply (Hs _ _ Hj)|].
      intros <-. apply Hne. eapply latest_index_inj; eauto.
Qed.

Lemma represents_put (b : Outbox) (c c' : clock) (a : Spec) (i : nat) (p : Publication) (b' : Outbox) :
  represents b c a -> LATEST_TOPICS !! i = Some (topic p) -> (i < length (latest (queue b)))%nat ->
  queue b' = mkQueue (<[i := Some p]> (latest (queue b))) (events (queue b)) (event_bytes (queue b))
               (next_class (queue b)) ->
  closed b' = closed b -> connected b' = connected b ->
  represents b' c' (mkSpec (<[topic p := (payload p, admitted p)]> (slots a)) (fifo a) (shut a) (up a) c').
Proof.
  intros [Hs Hf Hc Hu Hm] Ht Hi Hq Hcl Hco. split; cbn; [|by rewrite Hf, Hq|congruence..].
  intros j t Hj. rewrite Hq. unfold slot_at. cbn.
  destruct (decide (i = j)) as [->|Hne].
  - assert (t = topic p) as -> by congruence. rewrite lookup_insert_eq.
    rewrite list_lookup_insert_eq by exact Hi. reflexivity.
  - rewrite list_lookup_insert_ne by exact Hne.
    rewrite lookup_insert_ne; [apply (Hs _ _ Hj)|].
    intros <-. apply Hne. eapply latest_index_inj; eauto.
Qed.

Lemma represents_queue (b b' : Outbox) (c : clock) (a : Spec) :
  represents b c a -> latest (queue b') = latest (queue b) -> events (queue b') = events (queue b) ->
  closed b' = closed b -> connected b' = connected b -> represents b' c a.
Proof.
  intros [Hs Hf Hc Hu Hm] Hl He Hcl Hco. split; try congruence.
  unfold slot_at in *. rewrite Hl. exact Hs.
Qed.

(** [a] has lost only expired states on the way to what [b] represents. *)
Record scanning (a : Spec) (b : Outbox) (c : clock) : Prop := {
  sg_ok : queue_ok (queue b);
  sg_open : closed b = false;
  sg_up : connected b = true;
  sg_spec : exists a1, rtc spec_expire a a1 /\ represents b c a1
}.

(** What a whole scan of the classes reached. *)
Definition scanned (a : Spec) (r : option Publication) (b : Outbox) (c : clock) : Prop :=
  match r with
  | Some p => exists a', spec_run a (Delivered p) a' /\ represents b c a'
  | None => scanning a b c
  end.

Lemma class_case_refines (a : Spec) (b : Outbox) (c : clock) r b' c' :
  scanning a b c -> class_case b c r b' c' -> scanned a r b' c'.
Proof.
  intros [Hok Hcl Hco (a1 & Hr & Hrep)] Hcase.
  pose proof (class_case_ok _ _ _ _ _ Hok Hcase) as Hok'.
  assert (Hsh : shut a1 = false) by (rewrite (rep_shut _ _ _ Hrep); exact Hcl).
  assert (Hup : up a1 = true) by (rewrite (rep_up _ _ _ Hrep); exact Hco).
  assert (Hm : time a1 = c) by apply Hrep.
  destruct Hcase as [e rest Hn He|Hn He|p Hn Hp Ht|p Hn Hp Ht|Hn Hp].
  - exists (mkSpec (slots a1) rest (shut a1) (up a1) (time a1)).
    split; [exists a1; split; [exact Hr|]; apply SpecDeliverEvent; try done; by rewrite (rep_fifo _ _ _ Hrep)|].
    split; cbn; try congruence. apply (rep_slots _ _ _ Hrep).
  - split; [exact Hok'|exact Hcl|exact Hco|]. exists a1. split; [exact Hr|]. eapply represents_queue; eauto.
  - match goal with |- scanned _ _ ?x ?y =>
      destruct (represents_take b c y a1 _ _ p x Hok Hrep Hp eq_refl eq_refl eq_refl) as [Hslot Hrep'] end.
    rewrite <- Hm in Ht, Hrep' |- *. eexists. split; [exists a1; split; [exact Hr|]|exact Hrep'].
    by apply SpecDeliverState.
  - match goal with |- scanned _ _ ?x ?y =>
      destruct (represents_take b c y a1 _ _ p x Hok Hrep Hp eq_refl eq_refl eq_refl) as [Hslot Hrep'] end.
    rewrite <- Hm in Ht, Hrep' |- *. split; [exact Hok'|exact Hcl|exact Hco|]. eexists. split; [|exact Hrep'].
    eapply rtc_r; [exact Hr|]. econstructor; eauto.
  - split; [exact Hok'|exact Hcl|exact Hco|]. exists a1. split; [exact Hr|]. eapply represents_queue; eauto.
Qed.

Lemma scan_refines (a : Spec) n b c r b' c' :
  scanning a b c -> scan_classes n b c = (r, b', c') -> scanned a r b' c'.
Proof.
  apply (scan_rule_at (scanning a) (scanned a)).
  - intros x cx [[] _ _ _]. assumption.
  - intros x cx r0 b0 c0 Hx Hcase. pose proof (class_case_refines _ _ _ _ _ _ Hx Hcase) as H. by destruct r0.
  - done.
Qed.

(** How many classes the scan visits before class [i]. *)
Definition ahead (i : nat) (q : Queue) : nat :=
  if (next_class q <=? i)%nat then i - next_class q else i + LATEST_LEN + 1 - next_class q.

(** A try that returns nothing leaves its own class empty, the others as they were. *)
Lemma class_case_none (b : Outbox) (c : clock) b' c' :
  class_case b c None b' c' ->
  (forall i, (i < LATEST_LEN)%nat -> slot_at (queue b) i = None \/ i = next_class (queue b) -> slot_at (queue b') i = None)
  /\ (events (queue b) = [] \/ next_class (queue b) = LATEST_LEN -> events (queue b') = [])
  /\ next_class (queue b') = (if (next_class (queue b) =? LATEST_LEN)%nat then 0 else S (next_class (queue b)))%nat.
Proof.
  inversion 1; subst; cbn [queue with_queue count_expired events next_class]; (split; [|split]).
  - intros i Hi [Hs|Hs]; [exact Hs|lia].
  - done.
  - by rewrite (proj2 (Nat.eqb_eq _ _)).
  - intros i Hi Hor. unfold slot_at in *. cbn [latest]. destruct (decide (i = next_class (queue b))) as [->|Hne].
    + by rewrite list_lookup_insert_eq by (eapply lookup_lt_Some; eauto).
    + rewrite list_lookup_insert_ne by done. by destruct Hor.
  - intros [He|He]; [exact He|lia].
  - by rewrite (proj2 (Nat.eqb_neq _ _)) by lia.
  - intros i Hi [Hs| ->]; done.
  - intros [He|He]; [exact He|lia].
  - by rewrite (proj2 (Nat.eqb_neq _ _)) by lia.
Qed.

(** A scan that returns nothing has emptied what it visited. *)
Lemma scan_none n : forall b c b' c',
  queue_ok (queue b) -> scan_classes n b c = (None, b', c') ->
  (forall i, (i < LATEST_LEN)%nat -> slot_at (queue b) i = None \/ (ahead i (queue b) < n)%nat ->
             slot_at (queue b') i = None)
  /\ (events (queue b) = [] \/ (ahead LATEST_LEN (queue b) < n)%nat -> events (queue b') = []).
Proof.
  induction n as [|n IH]; intros b c b' c' Hok; cbn [scan_classes].
  { intros [= <- <-]. split; [intros i _|]; intros [H|H]; (done || lia). }
  destruct (try_class b c) as [[[p|] b1] c1] eqn:E; [done|]. intros Es.
  pose proof (ok_class _ Hok) as Hk.
  apply try_class_cases in E; [|exact Hk].
  destruct (IH _ _ _ _ (class_case_ok _ _ _ _ _ Hok E) Es) as [IHs IHe].
  destruct (class_case_none _ _ _ _ E) as (Cs & Ce & Cn).
  assert (Ha : forall i, (i <= LATEST_LEN)%nat -> i <> next_class (queue b) -> (ahead i (queue b) = S (ahead i (queue b1)))%nat).
  { intros i Hi Hne. unfold ahead. rewrite Cn. change LATEST_LEN with 6%nat in *.
    destruct (Nat.eqb_spec (next_class (queue b)) 6); repeat match goal with |- context [(?x <=? ?y)%nat] => destruct (Nat.leb_spec x y) end; lia. }
  split.
  - intros i Hi Hor. apply IHs; [exact Hi|]. destruct (decide (i = next_class (queue b))) as [->|Hne]; [left; eauto|].
    destruct Hor as [H|H]; [left; eauto|right]. specialize (Ha i ltac:(lia) Hne). lia.
  - intros Hor. apply IHe. destruct (decide (LATEST_LEN = next_class (queue b))) as [He|Hne]; [left; eauto|].
    destruct Hor as [H|H]; [left; eauto|right]. specialize (Ha LATEST_LEN ltac:(lia) Hne). lia.
Qed.

Lemma scan_idle (a : Spec) b0 c0 b c :
  queue_ok (queue b0) -> scan_classes (LATEST_LEN + 1) b0 c0 = (None, b, c) -> scanning a b c ->
  exists a', spec_run a NothingToSend a' /\ represents b c a'.
Proof.
  intros Hok E [_ _ _ (a1 & Hr & Hrep)]. exists a1. split; [|exact Hrep]. exists a1. split; [exact Hr|].
  destruct (scan_none _ _ _ _ _ Hok E) as [Hs He]. pose proof (ok_class _ Hok) as Hk.
  assert (Ha : forall i, (i <= LATEST_LEN)%nat -> (ahead i (queue b0) < LATEST_LEN + 1)%nat)
    by (intros i Hi; unfold ahead; destruct (Nat.leb_spec (next_class (queue b0)) i); lia).
  apply SpecNothing. right. right. split; [rewrite (rep_fifo _ _ _ Hrep); auto|].
  intros t [i Hi]%list_elem_of_lookup. pose proof (lookup_lt_Some _ _ _ Hi) as Hlt. fold LATEST_LEN in Hlt.
  rewrite (rep_slots _ _ _ Hrep _ _ Hi). apply Hs; [exact Hlt|right]. apply Ha. lia.
Qed.

Lemma admit_locked_refines (a : Spec) contended t data b c r b' c' :
  queue_ok (queue b) -> represents b c a -> admissible t data ->
  admit_locked contended t data b c = (r, b', c') ->
  exists a', spec_run a (Finished contended t data r) a' /\ represents b' c' a'.
Proof.
  intros Hok Hrep [Hlen Htop]. unfold admit_locked. cbn [spec_run].
  assert (Hdrop : forall b1, queue b1 = queue b -> closed b1 = closed b -> connected b1 = connected b ->
            may_drop a contended t data ->
            exists a', spec_step a (Finished contended t data Dropped) a' /\ represents b1 c a').
  { intros b1 Hq Hcl Hco Hm. exists a. split; [apply SpecDrop, Hm|].
    eapply represents_queue; [exact Hrep|by rewrite Hq..|exact Hcl|exact Hco]. }
  destruct contended; [intros [= <- <- <-]; apply Hdrop; auto; by left|].
  destruct (closed b) eqn:Ec.
  { intros [= <- <- <-]. apply Hdrop; auto. right; left. by rewrite (rep_shut _ _ _ Hrep). }
  assert (Hsh : shut a = false) by (rewrite (rep_shut _ _ _ Hrep); exact Ec).
  pose proof (rep_time _ _ _ Hrep) as <-.
  rewrite (surjective_pairing (now (time a))).
  destruct (position t LATEST_TOPICS) as [i|] eqn:Ei.
  { pose proof (position_some _ _ _ Ei) as Hi. rewrite (position_nth _ _ _ Ei).
    assert (Hlt : (i < length (latest (queue b)))%nat).
    { rewrite (ok_latest_len _ Hok). eapply lookup_lt_Some, Hi. }
    destruct (lookup_lt_is_Some_2 _ _ Hlt) as [slot Hslot].
    pose proof (rep_slots _ _ _ Hrep _ _ Hi) as Hsl. unfold slot_at in Hsl.
    pose proof (SpecState a t data (position_elem _ _ _ Ei) Hlen Hsh) as Hstep.
    rewrite Hslot in *.
    destruct slot as [p|]; rewrite Hsl in Hstep; intros [= <- <- <-];
      (eexists; split; [apply Hstep|]);
      (eapply (represents_put b (time a) _ a i (mkPublication t data (now (time a)).1)); eauto). }
  destruct (position t EVENT_TELEMETRY_TOPICS) as [i|] eqn:Ej.
  2:{ destruct Htop as [Ht|Ht]; [apply position_none in Ei|apply position_none in Ej]; contradiction. }
  rewrite (position_nth _ _ _ Ej).
  pose proof (position_elem _ _ _ Ej) as Hel. pose proof (rep_fifo _ _ _ Hrep) as Hf.
  destruct (_ || _) eqn:Ef; intros [= <- <- <-].
  - apply Hdrop; auto. do 4 right. split; [exact Hel|].
    unfold fifo_full. rewrite Hf, <- (ok_event_bytes _ Hok).
    apply orb_true_iff in Ef as [Ef|Ef]; bsimp; auto.
  - bsimp. eexists. split; [apply SpecEvent; auto|].
    { unfold fifo_full. rewrite Hf, <- (ok_event_bytes _ Hok). lia. }
    split; cbn; [apply (rep_slots _ _ _ Hrep)|by rewrite Hf|congruence|apply Hrep|done].
Qed.

Lemma exec_refines (s : Sys) (o : op) (x : obs) (s' : Sys) (a : Spec) :
  sys_ok s -> represents (ob s) (hostclock s) a -> exec s o = (x, s') ->
  exists a', spec_run a x a' /\ represents (ob s') (hostclock s') a'.
Proof.
  intros [Hq Hp Hc] Hrep.
  assert (Hquiet : forall b', queue b' = queue (ob s) -> closed b' = closed (ob s) -> connected b' = connected (ob s) ->
            represents b' (hostclock s) a).
  { intros b' Hqb Hcb Hco. eapply represents_queue; [exact Hrep|by rewrite Hqb..|exact Hcb|exact Hco]. }
  destruct o as [t data|i contended| |f| |]; cbn [exec].
  - destruct (admit_precheck t data (ob s)) eqn:E; intros [= <- <-]; exists a; (split; [|by apply Hquiet]).
    + constructor.
    + apply SpecDrop. unfold admit_precheck in E. apply negb_false_iff in E.
      unfold may_drop. rewrite (rep_shut _ _ _ Hrep).
      apply orb_true_iff in E as [E|E]; [apply orb_true_iff in E as [E|E]|]; bsimp; auto.
      do 3 right. left. split; apply position_none; eapply bool_decide_eq_true_1; eassumption.
  - destruct (pending s !! i) as [[t data]|] eqn:Ei; [|intros [= <- <-]; exists a; split; [constructor|done]].
    destruct (admit_locked _ _ _ _ _) as [[r b] c] eqn:E. intros [= <- <-].
    eapply admit_locked_refines; eauto. exact (proj1 (Forall_lookup _ _) Hp _ _ Ei).
  - unfold next_pass. destruct (closed (ob s) || negb (connected (ob s))) eqn:Er.
    { intros [= <- <-]. exists a. split; [|by apply Hquiet]. exists a. split; [constructor|]. apply SpecNothing.
      unfold may_idle. rewrite (rep_shut _ _ _ Hrep), (rep_up _ _ _ Hrep).
      apply orb_true_iff in Er as [Er|Er]; [by left|right; left]. by apply negb_true_iff. }
    bsimp. assert (Hsc : scanning a (ob s) (hostclock s)) by (split; try done; by exists a; split; [constructor|]).
    destruct (scan_classes _ _ _) as [[[p|] b] c] eqn:E; intros [= <- <-]; pose proof (scan_refines _ _ _ _ _ _ _ Hsc E) as Hd;
      [exact Hd|by eapply scan_idle].
  - intros [= <- <-]. eexists. split; [apply SpecLink|]. destruct Hrep as [Hs Hf Hh Hu Hm].
    split; cbn; try done. by rewrite Hh.
  - intros [= <- <-]. eexists. split; [apply SpecClose|]. destruct Hrep as [Hs Hf Hh Hu Hm]. split; done.
  - intros [= <- <-]. exists a. split; [constructor|by apply Hquiet].
Qed.

(** Runs of the specification. *)
Inductive spec_trace : Spec -> list obs -> Spec -> Prop :=
| TraceNil a : spec_trace a [] a
| TraceCons a x a1 xs a2 : spec_run a x a1 -> spec_trace a1 xs a2 -> spec_trace a (x :: xs) a2.

Lemma run_refines (ops : list op) : forall s xs s' a,
  sys_ok s -> represents (ob s) (hostclock s) a -> run s ops = (xs, s') ->
  exists a', spec_trace a xs a' /\ represents (ob s') (hostclock s') a'.
Proof.
  induction ops as [|o ops IH]; intros s xs s' a Hs Hr; cbn [run].
  { intros [= <- <-]. exists a. split; [constructor|exact Hr]. }
  destruct (exec s o) as [x s1] eqn:E. destruct (run s1 ops) as [xs1 s2] eqn:E2.
  intros [= <- <-]. destruct (exec_refines _ _ _ _ _ Hs Hr E) as (a1 & Hrun & Hr1).
  destruct (IH _ _ _ _ (outbox_exec_ok _ _ _ _ Hs E) Hr1 E2) as (a2 & Htr & Hr2).
  exists a2. split; [econstructor; eauto|exact Hr2].
Qed.

Definition spec_start (c : clock) : Spec := mkSpec ∅ [] false false c.

Lemma start_represents (c : clock) : represents (ob (start c)) (hostclock (start c)) (spec_start c).
Proof.
  split; [|reflexivity..]. intros i t _. cbn [slots spec_start]. rewrite lookup_empty.
  unfold slot_at. cbn. do 6 (destruct i as [|i]; [reflexivity|]). reflexivity.
Qed.

(** C37: every interleaving of the outbox is a run of its specification over the
    same clock: one coalescing slot per state topic, a FIFO of at most
    [EVENT_CAPACITY] events and [EVENT_BYTE_CAPACITY] bytes, refusals only for a
    stated reason (contention, shutdown, oversize, unknown topic, full event
    queue), delivery only while the link is up and of a state no older than
    [STATE_MAX_AGE] at the reading made for it, loss of a queued state only by the
    writer and only when that reading shows it older, and a writer that finds
    nothing only when nothing is queued. *)
Theorem outbox_refines_spec (c : clock) (ops : list op) :
  exists a', spec_trace (spec_start c) (run (start c) ops).1 a'
             /\ represents (ob (run (start c) ops).2) (hostclock (run (start c) ops).2) a'.
Proof.
  eapply run_refines; [apply start_ok|apply start_represents|apply surjective_pairing].
Qed.

(** ** Conservation

    Congruence modulo [2 ^ 64], the arithmetic of the counters. *)

Definition eqm (a b : Z) : Prop := (2 ^ 64 | a - b).

#[local] Instance eqm_equiv : Equivalence eqm.
Proof.
  unfold eqm. split; red.
  - intros x. rewrite Z.sub_diag. apply Z.divide_0_r.
  - intros x y H. apply Z.divide_opp_r in H. replace (y - x) with (- (x - y)) by lia. exact H.
  - intros x y z H1 H2. replace (x - z) with ((x - y) + (y - z)) by lia.
    apply Z.divide_add_r; assumption.
Qed.

#[local] Instance eqm_add : Proper (eqm ==> eqm ==> eqm) Z.add.
Proof.
  unfold eqm. intros a a' Ha b b' Hb.
  replace (a + b - (a' + b')) with ((a - a') + (b - b')) by lia. by apply Z.divide_add_r.
Qed.

#[local] Instance eqm_sub : Proper (eqm ==> eqm ==> eqm) Z.sub.
Proof.
  unfold eqm. intros a a' Ha b b' Hb.
  replace (a - b - (a' - b')) with ((a - a') - (b - b')) by lia. by apply Z.divide_sub_r.
Qed.

Lemma fetch_add_eqm (c : Z) : eqm (fetch_add c) (c + 1).
Proof.
  unfold fetch_add, eqm. exists (- ((c + 1) / 2 ^ 64)).
  pose proof (Z.div_mod (c + 1) (2 ^ 64) ltac:(lia)). lia.
Qed.

Lemma eqm_eq (a b : Z) : a = b -> eqm a b.
Proof. intros ->. reflexivity. Qed.

(** What went in, less what came out or expired, less what is queued. *)
Definition balance (b : Outbox) : Z := accepted b - expired b - items (queue b).

Definition delivery (x : obs) : Z := match x with Delivered _ => 1 | _ => 0 end.

Lemma items_split (q : Queue) :
  items q = Z.of_nat (length (flatten (latest q))) + Z.of_nat (length (events q)).
Proof. unfold items, publications. rewrite length_app. lia. Qed.

Lemma items_take (q : Queue) (i k : nat) (p : Publication) :
  latest q !! i = Some (Some p) ->
  items (mkQueue (<[i := None]> (latest q)) (events q) (event_bytes q) k) = items q - 1.
Proof.
  intros H. rewrite !items_split. cbn [latest events].
  rewrite publications_insert_state by (eapply lookup_lt_Some, H). rewrite H. lia.
Qed.

Lemma class_case_balance (b : Outbox) (c : clock) r b' c' :
  class_case b c r b' c' ->
  eqm (balance b') (balance b + match r with Some _ => 1 | None => 0 end).
Proof.
  intros H. destruct H; unfold balance; cbn [queue with_queue count_expired accepted expired].
  - apply eqm_eq. rewrite !items_split. cbn [latest events]. rewrite H0. cbn [length]. lia.
  - apply eqm_eq. rewrite !items_split. cbn [latest events]. rewrite H0. lia.
  - apply eqm_eq. erewrite items_take by eauto. lia.
  - rewrite fetch_add_eqm. apply eqm_eq. erewrite items_take by eauto. lia.
  - apply eqm_eq. rewrite !items_split. cbn [latest events]. lia.
Qed.

Lemma scan_balance n b c r b' c' :
  (next_class (queue b) <= LATEST_LEN)%nat -> scan_classes n b c = (r, b', c') ->
  eqm (balance b') (balance b + match r with Some _ => 1 | None => 0 end).
Proof.
  intros Hc.
  apply (scan_rule (fun x => (next_class (queue x) <= LATEST_LEN)%nat /\ eqm (balance x) (balance b))
           (fun r x => eqm (balance x) (balance b + match r with Some _ => 1 | None => 0 end))).
  - intros x [Hx _]. exact Hx.
  - intros x cx rx bx cx' [Hn Hx] Hcase. pose proof (class_case_balance _ _ _ _ _ Hcase) as Hb.
    rewrite Hx in Hb. destruct rx as [p|]; [exact Hb|].
    rewrite Z.add_0_r in Hb. split; [|exact Hb].
    destruct Hcase; cbn [queue with_queue count_expired next_class]; lia.
  - intros x [_ Hx]. by rewrite Z.add_0_r.
  - split; [exact Hc|reflexivity].
Qed.

Lemma admit_locked_balance contended t data b c r b' c' :
  queue_ok (queue b) -> admit_locked contended t data b c = (r, b', c') ->
  eqm (balance b') (balance b).
Proof.
  intros Hok. unfold admit_locked, drop_publication, reject_publication.
  destruct contended; [intros [= <- <- <-]; reflexivity|].
  destruct (closed b); [intros [= <- <- <-]; reflexivity|].
  rewrite (surjective_pairing (now c)).
  destruct (position t LATEST_TOPICS) as [i|] eqn:Ei.
  - rewrite (position_nth _ _ _ Ei).
    assert (Hlt : (i < length (latest (queue b)))%nat).
    { rewrite (ok_latest_len _ Hok). eapply lookup_lt_Some, position_some, Ei. }
    destruct (latest (queue b) !! i) as [[p|]|] eqn:El; intros [= <- <- <-];
      unfold balance; cbn [queue with_queue count_outcome accepted expired];
      rewrite ?fetch_add_eqm, !items_split; cbn [latest events];
      rewrite publications_insert_state, El by exact Hlt; apply eqm_eq; lia.
  - destruct (position t EVENT_TELEMETRY_TOPICS) as [i|] eqn:Ej; [|intros [= <- <- <-]; reflexivity].
    destruct (_ || _); intros [= <- <- <-]; [reflexivity|].
    unfold balance; cbn [queue with_queue count_outcome accepted expired].
    rewrite fetch_add_eqm, !items_split; cbn [latest events]. rewrite length_app. cbn [length].
    apply eqm_eq. lia.
Qed.

Lemma exec_balance (s : Sys) (o : op) (x : obs) (s' : Sys) :
  sys_ok s -> exec s o = (x, s') -> eqm (balance (ob s')) (balance (ob s) + delivery x).
Proof.
  intros [Hq Hp Hc]. destruct o as [t data|i contended| |f| |]; cbn [exec].
  - destruct (admit_precheck t data (ob s)); intros [= <- <-]; cbn [delivery];
      rewrite Z.add_0_r; reflexivity.
  - destruct (pending s !! i) as [[t data]|]; [|intros [= <- <-]; cbn; by rewrite Z.add_0_r].
    destruct (admit_locked _ _ _ _ _) as [[r b] c] eqn:E. intros [= <- <-]. cbn [delivery ob].
    rewrite Z.add_0_r. eapply admit_locked_balance; eauto.
  - unfold next_pass. destruct (closed (ob s) || negb (connected (ob s))).
    { intros [= <- <-]. cbn. by rewrite Z.add_0_r. }
    destruct (scan_classes _ _ _) as [[[p|] b] c] eqn:E; intros [= <- <-]; cbn [delivery ob];
      apply (scan_balance _ _ _ _ _ _ (ok_class _ Hq)) in E; exact E.
  - intros [= <- <-]. cbn [delivery]. by rewrite Z.add_0_r.
  - intros [= <- <-]. cbn [delivery]. by rewrite Z.add_0_r.
  - intros [= <- <-]. cbn [delivery]. by rewrite Z.add_0_r.
Qed.

Definition deliveries (xs : list obs) : Z := foldr (fun x n => delivery x + n) 0 xs.

Lemma run_balance (ops : list op) : forall s xs s',
  sys_ok s -> run s ops = (xs, s') -> eqm (balance (ob s')) (balance (ob s) + deliveries xs).
Proof.
  induction ops as [|o ops IH]; intros s xs s' Hs; cbn [run].
  { intros [= <- <-]. cbn. by rewrite Z.add_0_r. }
  destruct (exec s o) as [x s1] eqn:E. destruct (run s1 ops) as [xs1 s2] eqn:E2.
  intros [= <- <-]. rewrite (IH _ _ _ (outbox_exec_ok _ _ _ _ Hs E) E2).
  rewrite (exec_balance _ _ _ _ Hs E). apply eqm_eq.
  change (deliveries (x :: xs1)) with (delivery x + deliveries xs1). lia.
Qed.

(** no publication is lost or duplicated unaccounted: in every interleaving,
    the accepted counter equals the deliveries plus the expired states plus what
    is still queued (modulo the width of the counters; a coalesced admission
    replaces a queued one and changes none of them). *)
Theorem outbox_conserves (c : clock) (ops : list op) :
  let '(xs, s) := run (start c) ops in
  eqm (accepted (ob s)) (deliveries xs + expired (ob s) + items (queue (ob s))).
Proof.
  destruct (run (start c) ops) as [xs s] eqn:E.
  pose proof (run_balance _ _ _ _ (start_ok c) E) as H.
  change (balance (ob (start c))) with 0 in H. unfold balance in H.
  replace (accepted (ob s))
    with ((accepted (ob s) - expired (ob s) - items (queue (ob s)))
          + (expired (ob s) + items (queue (ob s)))) by lia.
  rewrite H. apply eqm_eq. lia.
Qed.

(** ** Fairness

    An event at position [k] waits for at most [due k q] other deliveries. *)

Definition due (k : nat) (q : Queue) : Z :=
  7 * Z.of_nat k + (6 - Z.of_nat (next_class q)).

Definition queued_within (e : Publication) (n : Z) (q : Queue) : Prop :=
  (next_class q <= LATEST_LEN)%nat /\ exists k, events q !! k = Some e /\ due k q <= n.

Lemma class_case_due (e : Publication) (n : Z) (b : Outbox) (c : clock) r b' c' :
  queued_within e n (queue b) -> class_case b c r b' c' ->
  match r with
  | Some p => p = e \/ queued_within e (n - 1) (queue b')
  | None => queued_within e n (queue b')
  end.
Proof.
  intros (Hc & k & Hk & Hn) Hcase. unfold queued_within, due in *.
  change LATEST_LEN with 6%nat in *.
  destruct Hcase as [e' rest Hcl He|Hcl He|p Hcl Hp Ht|p Hcl Hp Ht|Hcl Hp];
    change LATEST_LEN with 6%nat in *; cbn [queue with_queue count_expired next_class events].
  - rewrite He in Hk. destruct k as [|k]; [left; by injection Hk|right].
    split; [lia|]. exists k. split; [exact Hk|lia].
  - rewrite He in Hk. discriminate Hk.
  - right. split; [lia|]. exists k. split; [exact Hk|lia].
  - split; [lia|]. exists k. split; [exact Hk|lia].
  - split; [lia|]. exists k. split; [exact Hk|lia].
Qed.

Lemma scan_due (e : Publication) (n : Z) m b c r b' c' :
  queued_within e n (queue b) -> scan_classes m b c = (r, b', c') ->
  match r with
  | Some p => p = e \/ queued_within e (n - 1) (queue b')
  | None => queued_within e n (queue b')
  end.
Proof.
  apply (scan_rule (fun x => queued_within e n (queue x))
           (fun r x => match r with
                       | Some p => p = e \/ queued_within e (n - 1) (queue x)
                       | None => queued_within e n (queue x) end)).
  - intros x [Hx _]. exact Hx.
  - intros x cx rx bx cx' Hx Hcase. pose proof (class_case_due _ _ _ _ _ _ _ Hx Hcase).
    destruct rx; assumption.
  - auto.
Qed.

Lemma admit_locked_due e n contended t data b c r b' c' :
  queued_within e n (queue b) -> admit_locked contended t data b c = (r, b', c') ->
  queued_within e n (queue b').
Proof.
  intros Hw. unfold admit_locked, drop_publication, reject_publication.
  destruct contended; [intros [= <- <- <-]; exact Hw|].
  destruct (closed b); [intros [= <- <- <-]; exact Hw|].
  rewrite (surjective_pairing (now c)).
  destruct (position t LATEST_TOPICS) as [i|]; [intros [= <- <- <-]; exact Hw|].
  destruct (position t EVENT_TELEMETRY_TOPICS) as [i|]; [|intros [= <- <- <-]; exact Hw].
  destruct (_ || _); intros [= <- <- <-]; [exact Hw|].
  destruct Hw as (Hc & k & Hk & Hn). split; [exact Hc|]. exists k. split; [|exact Hn].
  cbn [queue with_queue count_outcome events]. by apply lookup_app_l_Some.
Qed.

Lemma exec_due (e : Publication) (n : Z) (s : Sys) (o : op) (x : obs) (s' : Sys) :
  queued_within e n (queue (ob s)) -> exec s o = (x, s') ->
  x = Delivered e \/ queued_within e (n - delivery x) (queue (ob s')).
Proof.
  intros Hw. destruct o as [t data|i contended| |f| |]; cbn [exec].
  - destruct (admit_precheck t data (ob s)); intros [= <- <-]; right; cbn [delivery];
      rewrite Z.sub_0_r; exact Hw.
  - destruct (pending s !! i) as [[t data]|];
      [|intros [= <- <-]; right; cbn; rewrite Z.sub_0_r; exact Hw].
    destruct (admit_locked _ _ _ _ _) as [[r b] c] eqn:E. intros [= <- <-]. right.
    cbn [delivery ob]. rewrite Z.sub_0_r. eapply admit_locked_due; eauto.
  - unfold next_pass. destruct (closed (ob s) || negb (connected (ob s))).
    { intros [= <- <-]. right. cbn. rewrite Z.sub_0_r. exact Hw. }
    destruct (scan_classes _ _ _) as [[[p|] b] c] eqn:E; intros [= <- <-]; cbn [delivery ob];
      apply (scan_due e n) in E; auto.
    + destruct E as [->|E]; auto.
    + right. by rewrite Z.sub_0_r.
  - intros [= <- <-]. right. cbn [delivery]. rewrite Z.sub_0_r. exact Hw.
  - intros [= <- <-]. right. cbn [delivery]. rewrite Z.sub_0_r. exact Hw.
  - intros [= <- <-]. right. cbn [delivery]. rewrite Z.sub_0_r. exact Hw.
Qed.

Lemma run_due (e : Publication) (ops : list op) : forall n s xs s',
  queued_within e n (queue (ob s)) -> run s ops = (xs, s') -> n < deliveries xs ->
  Delivered e ∈ xs.
Proof.
  induction ops as [|o ops IH]; intros n s xs s' Hw; cbn [run].
  { intros [= <- <-]. cbn. destruct Hw as (Hc & k & _ & Hn). unfold due in Hn.
    change LATEST_LEN with 6%nat in Hc. lia. }
  destruct (exec s o) as [x s1] eqn:E. destruct (run s1 ops) as [xs1 s2] eqn:E2.
  intros [= <- <-]. change (deliveries (x :: xs1)) with (delivery x + deliveries xs1). intros Hd.
  destruct (exec_due _ _ _ _ _ _ Hw E) as [->|Hw1]; [left|right].
  eapply IH; [exact Hw1|exact E2|lia].
Qed.

Lemma scan_none_empty n : forall b c b' c',
  (next_class (queue b) <= LATEST_LEN)%nat -> (LATEST_LEN - next_class (queue b) < n)%nat ->
  scan_classes n b c = (None, b', c') -> events (queue b) = [].
Proof.
  induction n as [|n IH]; intros b c b' c' Hc Hn; cbn [scan_classes]; [lia|].
  destruct (try_class b c) as [[r1 b1] c1] eqn:E. apply try_class_cases in E; [|exact Hc].
  destruct r1 as [p|]; [discriminate|]. intros HE. inversion E; subst; auto;
    apply IH in HE; cbn [queue with_queue count_expired next_class events] in *; auto; lia.
Qed.

(** the writer is fair to events.  While an event is queued and the link is up,
    [next] returns a publication instead of waiting; and in every interleaving
    the event at position [k] is delivered among the next [7 * (k + 1)]
    deliveries, whatever is published meanwhile. *)
Theorem events_served (s : Sys) (k : nat) (e : Publication) :
  sys_ok s -> events (queue (ob s)) !! k = Some e ->
  (closed (ob s) = false -> connected (ob s) = true ->
   exists p s', exec s OpNext = (Delivered p, s'))
  /\ forall ops, 7 * (Z.of_nat k + 1) <= deliveries (run s ops).1 -> Delivered e ∈ (run s ops).1.
Proof.
  intros Hs Hk. pose proof (ok_class _ (ok_queue _ Hs)) as Hc. split.
  - intros Hcl Hco. cbn [exec]. unfold next_pass. rewrite Hcl, Hco. cbn [orb negb].
    destruct (scan_classes _ _ _) as [[[p|] b] c] eqn:E; [eauto|].
    apply scan_none_empty in E; [|exact Hc|lia]. rewrite E in Hk. discriminate Hk.
  - intros ops Hd. eapply (run_due e ops (due k (queue (ob s)))).
    + split; [exact Hc|]. exists k. split; [exact Hk|lia].
    + apply surjective_pairing.
    + unfold due. lia.
Qed.

(** Three admissions on a link that is up: the event at the head. *)
Definition demo_clock : clock := mkClock (fun n => Z.of_nat n) 0 0.
Definition demo : Sys :=
  (run (start demo_clock)
     [OpSetConnected true; OpBegin "robot/safety" [1]; OpLock 0 false;
      OpBegin "logs/structured" [2]; OpLock 0 false; OpBegin "robot/enable" [3]]).2.

Lemma events_served_witness :
  Delivered (mkPublication "logs/structured" [2] 1)
    ∈ (run demo (concat (replicate 7
         [OpNext; OpBegin "robot/safety" [9]; OpLock 0 false; OpBegin "robot/state" [9]; OpLock 0 false]))).1.
Proof.
  refine (proj2 (events_served demo 0 _ _ eq_refl) _ _).
  - exact (outbox_run_ok _ _ _ _ (start_ok demo_clock) (surjective_pairing _)).
  - vm_compute. discriminate.
Defined.

End Outbox.
