(* ===== verification/Authority.v ===== *)
(** * Authority: the private permission behind every admitted command

    [src/crates/davout/src/reference.rs], with the generation counter of
    [src/crates/davout/src/reference_model.rs].  A joint may be commanded only
    while [contains] holds of it.  Coverage is created by [initial_virtual] and
    [select_consumed] alone; everything else can only take it away.

    [Cell]s behind [&self] are fields of the record, and an operation on
    [&self] returns the new record.  A reference to an element of [consumed]
    is its index.  An [Arc<()>] is compared by pointer only: it is its address,
    a [Z].  [TypedPolicy] is the triple of configuration sections it holds. *)

From Stdlib Require Import ZArith Lia Bool.
From stdpp Require Import base gmap strings list.
From S2P Require Import Prelude Float Config Bus.

Module Authority.
Import Config Bus.

(** ** Installed model stamp *)

Record InstalledModelStamp : Type := mkStamp { stamp_generation : Z; descriptor : Z }.

Definition stamp_eqb (a b : InstalledModelStamp) : bool :=
  (stamp_generation a =? stamp_generation b) && (descriptor a =? descriptor b).

(** ** Data *)

Record ConsumedReferenceBinding : Type := mkBinding {
  job : Z;
  model : InstalledModelStamp;
  b_joint : string;
  address : MotorAddress;
  device_epoch : Z;
  uid : option (list Z);
  b_revoked : bool;
  b_revoked_silent : bool
}.

Definition new_binding (job : Z) (model : InstalledModelStamp) (joint : string)
  (address : MotorAddress) (device_epoch : Z) (uid : option (list Z)) : ConsumedReferenceBinding :=
  mkBinding job model joint address device_epoch uid false false.

Inductive SelectionScope : Type := Replace | Accumulate.

#[export] Instance SelectionScope_eq_dec : EqDecision SelectionScope.
Proof. solve_decision. Defined.

Record BoundMotor : Type := mkBound {
  bm_control : option JointControlEntry;
  bm_velocity_cap : option f64;
  bm_homing : option EffectiveHomingJoint
}.

(** [Result::ok]. *)
Definition result_ok {E A : Type} (r : result E A) : option A :=
  match r with Ok a => Some a | _ => None end.

Definition bind_motors (motors : list MotorEntry) (homing : HomingSection) (control : ControlSection)
  : list BoundMotor :=
  map (fun motor =>
         mkBound (hget (control_joints control) (joint motor))
           (result_ok (resolve_joint_velocity_cap (joint motor) (motor_type motor) control))
           (effective_joint_ref homing (joint motor))) motors.

Record ReferenceAuthority : Type := mkAuthority {
  joints : gset string;
  motors : list MotorEntry;
  bound : list BoundMotor;
  a_homing : option HomingSection;
  a_control : option ControlSection;
  realm : option Z;
  consumed : list ConsumedReferenceBinding;
  accumulates : bool;
  revoked : bool;
  generation : Z
}.

Record TypedPolicy : Type := mkPolicy {
  p_motors : list MotorEntry;
  p_homing : HomingSection;
  p_control : ControlSection
}.

Definition default_authority : ReferenceAuthority :=
  mkAuthority ∅ [] [] None None None [] false false 0.

Definition initial_virtual (realm : Z) (js : gset string) (p : TypedPolicy) : ReferenceAuthority :=
  mkAuthority js (p_motors p) (bind_motors (p_motors p) (p_homing p) (p_control p))
    (Some (p_homing p)) (Some (p_control p)) (Some realm) [] false false 1.

(** ** Field updates *)

Definition with_revoked (r : bool) (g : Z) (a : ReferenceAuthority) : ReferenceAuthority :=
  mkAuthority (joints a) (motors a) (bound a) (a_homing a) (a_control a) (realm a) (consumed a)
    (accumulates a) r g.
Definition with_consumed (l : list ConsumedReferenceBinding) (g : Z) (a : ReferenceAuthority)
  : ReferenceAuthority :=
  mkAuthority (joints a) (motors a) (bound a) (a_homing a) (a_control a) (realm a) l
    (accumulates a) (revoked a) g.
Definition set_binding_revoked (b : ConsumedReferenceBinding) : ConsumedReferenceBinding :=
  mkBinding (job b) (model b) (b_joint b) (address b) (device_epoch b) (uid b) true
    (b_revoked_silent b).
Definition set_binding_silent (b : ConsumedReferenceBinding) : ConsumedReferenceBinding :=
  mkBinding (job b) (model b) (b_joint b) (address b) (device_epoch b) (uid b) (b_revoked b) true.

(** ** Revocation *)

Definition bump (g : Z) : Z := sat_add_u64 g 1.

Definition revoke (a : ReferenceAuthority) : ReferenceAuthority :=
  if revoked a then a else with_revoked true (bump (generation a)) a.

(** The binding is the [i]th of [consumed]. *)
Definition revoke_binding (i : nat) (a : ReferenceAuthority) : ReferenceAuthority :=
  match consumed a !! i with
  | Some b =>
      if b_revoked b then a
      else with_consumed (<[i := set_binding_revoked b]> (consumed a)) (bump (generation a)) a
  | None => a
  end.

Definition revoke_binding_silent (i : nat) (a : ReferenceAuthority) : ReferenceAuthority :=
  match consumed a !! i with
  | Some b =>
      revoke_binding i
        (if b_revoked b then a
         else with_consumed (<[i := set_binding_silent b]> (consumed a)) (generation a) a)
  | None => a
  end.

Definition revoked_silent (j : string) (a : ReferenceAuthority) : bool :=
  existsb (fun b => bool_decide (b_joint b = j) && b_revoked_silent b) (consumed a).

(** Index of the first binding that satisfies [p]. *)
Fixpoint find_index (p : ConsumedReferenceBinding -> bool) (l : list ConsumedReferenceBinding)
  : option nat :=
  match l with
  | [] => None
  | b :: rest => if p b then Some 0%nat else S <$> find_index p rest
  end.

Definition for_joint (j : string) (b : ConsumedReferenceBinding) : bool := bool_decide (b_joint b = j).

Definition revoke_joint (j : string) (a : ReferenceAuthority) : ReferenceAuthority :=
  match find_index (for_joint j) (consumed a) with
  | Some i => revoke_binding i a
  | None => a
  end.

Definition revoke_selected (jb : Z) (a : ReferenceAuthority) : ReferenceAuthority :=
  match find_index (fun b => job b =? jb) (consumed a) with
  | Some i => if accumulates a then revoke_binding i a else revoke a
  | None => a
  end.

(** ** Acquisition *)

Definition invalidate_for_acquisition (a : ReferenceAuthority) : option Z * ReferenceAuthority :=
  match checked_add_u64 (generation a) 1 with
  | None => (None, a)
  | Some next => (Some next, with_revoked true next a)
  end.

Definition invalidate_joint_for_acquisition (j : string) (a : ReferenceAuthority)
  : option Z * ReferenceAuthority :=
  match checked_add_u64 (generation a) 1 with
  | None => (None, a)
  | Some next =>
      let l := match find_index (for_joint j) (consumed a) with
               | Some i => alter set_binding_revoked i (consumed a)
               | None => consumed a
               end in
      (Some next,
       mkAuthority (joints a) (motors a) (bound a) (a_homing a) (a_control a) (realm a) l
         (accumulates a) (revoked a || negb (accumulates a)) next)
  end.

(** ** Queries *)

Definition contains (j : string) (a : ReferenceAuthority) : bool :=
  negb (revoked a)
  && bool_decide (j ∈ joints a)
  && (match consumed a with [] => true | _ => false end
      || existsb (fun b => bool_decide (b_joint b = j) && negb (b_revoked b)) (consumed a)).

Definition selected_by (jb : Z) (a : ReferenceAuthority) : bool :=
  negb (revoked a) && existsb (fun b => negb (b_revoked b) && (job b =? jb)) (consumed a).

Definition binding_for (j : string) (a : ReferenceAuthority) : option ConsumedReferenceBinding :=
  find_first (fun b => bool_decide (b_joint b = j) && negb (b_revoked b)) (consumed a).

Definition validate_consumed_model (installed : InstalledModelStamp) (a : ReferenceAuthority) : bool :=
  forallb (fun b => stamp_eqb installed (model b)) (consumed a).

(** ** Policy comparison *)

(** [PartialEq] of [Option<f64>]. *)
Definition opt_feq (a b : option f64) : bool :=
  match a, b with
  | Some x, Some y => feq x y
  | None, None => true
  | _, _ => false
  end.

Definition motor_reference_matches (old new : MotorEntry) : bool :=
  bool_decide (joint old = joint new)
  && bool_decide (driver old = driver new)
  && bool_decide (motor_type old = motor_type new)
  && bool_decide (can_interface old = can_interface new)
  && (device_id old =? device_id new)
  && (direction old =? direction new)
  && feq (gear_ratio old) (gear_ratio new)
  && (recv_can_id old =? recv_can_id new)
  && bool_decide (firmware_version old = firmware_version new)
  && feq (position_lower_rad (bench old)) (position_lower_rad (bench new))
  && feq (position_upper_rad (bench old)) (position_upper_rad (bench new))
  && feq (velocity_limit_rad_s (bench old)) (velocity_limit_rad_s (bench new)).

Definition control_reference_matches (motor : MotorEntry) (b : BoundMotor) (old new : ControlSection)
  : bool :=
  match bm_control b, hget (control_joints new) (joint motor) with
  | Some old_joint, Some new_joint =>
      bool_decide (jc_motor_type old_joint = jc_motor_type new_joint)
      && feq (position_hold_trim_rad old_joint) (position_hold_trim_rad new_joint)
      && opt_feq (position_soft_lower_rad old_joint) (position_soft_lower_rad new_joint)
      && opt_feq (position_soft_upper_rad old_joint) (position_soft_upper_rad new_joint)
      && feq (position_limit_margin_min_rad old_joint) (position_limit_margin_min_rad new_joint)
      && feq (position_limit_margin_k_v_s old_joint) (position_limit_margin_k_v_s new_joint)
      && feq (position_limit_margin_k_stop old_joint) (position_limit_margin_k_stop new_joint)
      && feq (position_limit_measured_fault_slack_rad old_joint)
           (position_limit_measured_fault_slack_rad new_joint)
      && feq (position_trajectory_velocity_deadband_rad old_joint)
           (position_trajectory_velocity_deadband_rad new_joint)
      && feq (position_trajectory_accel_rad_s2 old_joint) (position_trajectory_accel_rad_s2 new_joint)
      && (expected_sign_at_positive_q (wrong_sign_watchdog old)
          =? expected_sign_at_positive_q (wrong_sign_watchdog new))
      && opt_feq (bm_velocity_cap b)
           (result_ok (resolve_joint_velocity_cap (joint motor) (motor_type motor) new))
  | _, _ => false
  end.

#[export] Instance SearchDirection_eq_dec : EqDecision SearchDirection.
Proof. solve_decision. Defined.
#[export] Instance SensorInput_eq_dec : EqDecision SensorInput.
Proof. solve_decision. Defined.
#[export] Instance HomingSensors_eq_dec : EqDecision HomingSensors.
Proof. solve_decision. Defined.

Definition homing_reference_matches (old new : EffectiveHomingJoint) : bool :=
  bool_decide (e_joint old = e_joint new)
  && bool_decide (e_method old = e_method new)
  && feq (e_home_offset_rad old) (e_home_offset_rad new)
  && bool_decide (e_search_direction old = e_search_direction new)
  && feq (e_search_velocity_rad_s old) (e_search_velocity_rad_s new)
  && feq (e_search_torque_nm old) (e_search_torque_nm new)
  && feq (e_search_timeout_s old) (e_search_timeout_s new)
  && feq (e_backoff_rad old) (e_backoff_rad new)
  && Bool.eqb (e_sign_test_required old) (e_sign_test_required new)
  && Bool.eqb (e_allow_sensor_overlap old) (e_allow_sensor_overlap new)
  && bool_decide (e_sensors old = e_sensors new).

(** [old.iter().zip(bound).zip(new).all(..)]. *)
Fixpoint motors_match (bc new_control : ControlSection) (homing : HomingSection)
  (old : list MotorEntry) (bs : list BoundMotor) (new : list MotorEntry) : bool :=
  match old, bs, new with
  | o :: old, b :: bs, n :: new =>
      motor_reference_matches o n
      && control_reference_matches o b bc new_control
      && match bm_homing b, effective_joint_ref homing (joint n) with
         | Some x, Some y => homing_reference_matches x y
         | _, _ => false
         end
      && motors_match bc new_control homing old bs new
  | _, _, _ => true
  end.

Definition policy_matches (p : TypedPolicy) (a : ReferenceAuthority) : bool :=
  match a_homing a, a_control a with
  | Some bound_homing, Some bound_control =>
      (length (motors a) =? length (p_motors p))%nat
      && (length (bound a) =? length (motors a))%nat
      && motors_match bound_control (p_control p) (p_homing p) (motors a) (bound a) (p_motors p)
      && feq (zero_verify_tolerance_rad bound_homing) (zero_verify_tolerance_rad (p_homing p))
      && bool_decide (calibration_record_path bound_homing = calibration_record_path (p_homing p))
  | _, _ => false
  end.

Definition validate_binding (p : TypedPolicy) (a : ReferenceAuthority) : bool * ReferenceAuthority :=
  if revoked a || bool_decide (realm a = None) then (false, a)
  else
    let matches := policy_matches p a in
    (matches, if matches then a else revoke a).

(** ** Selection *)

Definition select_consumed (r : Z) (b : ConsumedReferenceBinding) (p : TypedPolicy)
  (scope : SelectionScope) (a : ReferenceAuthority) : option unit * ReferenceAuthority :=
  match checked_add_u64 (generation a) 1 with
  | None => (None, a)
  | Some next =>
      let merge :=
        bool_decide (scope = Accumulate) && accumulates a && negb (revoked a)
        && bool_decide (realm a = Some r) && policy_matches p a in
      if merge then
        (Some tt,
         mkAuthority ({[b_joint b]} ∪ joints a) (motors a) (bound a) (a_homing a) (a_control a)
           (realm a)
           (List.filter (fun x => negb (for_joint (b_joint b) x)) (consumed a) ++ [b])
           (accumulates a) (revoked a) next)
      else
        (Some tt,
         mkAuthority {[b_joint b]} (p_motors p) (bind_motors (p_motors p) (p_homing p) (p_control p))
           (Some (p_homing p)) (Some (p_control p)) (Some r) [b]
           (bool_decide (scope = Accumulate)) false next)
  end.

(** ** Histories *)

Inductive op : Type :=
| ORevoke
| ORevokeBinding (i : nat)
| ORevokeBindingSilent (i : nat)
| ORevokeJoint (j : string)
| ORevokeSelected (jb : Z)
| OInvalidate
| OInvalidateJoint (j : string)
| OValidate (p : TypedPolicy)
| OSelect (r jb : Z) (m : InstalledModelStamp) (j : string) (ad : MotorAddress) (epoch : Z)
    (u : option (list Z)) (p : TypedPolicy) (scope : SelectionScope).

Definition exec (o : op) (a : ReferenceAuthority) : ReferenceAuthority :=
  match o with
  | ORevoke => revoke a
  | ORevokeBinding i => revoke_binding i a
  | ORevokeBindingSilent i => revoke_binding_silent i a
  | ORevokeJoint j => revoke_joint j a
  | ORevokeSelected jb => revoke_selected jb a
  | OInvalidate => (invalidate_for_acquisition a).2
  | OInvalidateJoint j => (invalidate_joint_for_acquisition j a).2
  | OValidate p => (validate_binding p a).2
  | OSelect r jb m j ad e u p scope => (select_consumed r (new_binding jb m j ad e u) p scope a).2
  end.

Definition run (ops : list op) (a : ReferenceAuthority) : ReferenceAuthority :=
  fold_left (fun a o => exec o a) ops a.

(** ** Coverage *)

Definition live (j : string) (l : list ConsumedReferenceBinding) : Prop :=
  exists b, b ∈ l /\ b_joint b = j /\ b_revoked b = false.

Lemma existsb_live (j : string) (l : list ConsumedReferenceBinding) :
  existsb (fun b => bool_decide (b_joint b = j) && negb (b_revoked b)) l = true <-> live j l.
Proof.
  rewrite existsb_exists. unfold live. split; intros (b & Hin & Hb); exists b.
  - apply list_elem_of_In in Hin. bsimp. apply bool_decide_eq_true in H. auto.
  - destruct Hb as [Hj Hr]. split; [by apply list_elem_of_In|].
    rewrite Hr, bool_decide_true by exact Hj. reflexivity.
Qed.

Lemma contains_iff (j : string) (a : ReferenceAuthority) :
  contains j a = true <->
  revoked a = false /\ j ∈ joints a /\ (consumed a = [] \/ live j (consumed a)).
Proof.
  unfold contains. rewrite !andb_true_iff, orb_true_iff, existsb_live, negb_true_iff,
    bool_decide_eq_true.
  destruct (consumed a); intuition congruence.
Qed.

Lemma contains_revoked (j : string) (a : ReferenceAuthority) : revoked a = true -> contains j a = false.
Proof. intros H. unfold contains. by rewrite H. Qed.

Lemma contains_ext (j : string) (a a' : ReferenceAuthority) :
  (contains j a = true <-> contains j a' = true) -> contains j a = contains j a'.
Proof. destruct (contains j a), (contains j a'); intuition congruence. Qed.

(** Replacing one binding by a revoked copy of itself. *)
Lemma live_insert (i : nat) (b b' : ConsumedReferenceBinding) (l : list ConsumedReferenceBinding)
  (j : string) :
  l !! i = Some b -> b_joint b' = b_joint b ->
  (b_revoked b' = false -> b_revoked b = false) ->
  live j (<[i := b']> l) -> live j l.
Proof.
  intros Hi Hj Hr (x & Hx & Hxj & Hxr). apply list_elem_of_lookup in Hx as [k Hk].
  apply list_lookup_insert_Some in Hk as [(-> & -> & _)|[_ Hk]].
  - exists b. split; [eapply list_elem_of_lookup_2, Hi|]. split; [congruence|auto].
  - exists x. split; [eapply list_elem_of_lookup_2, Hk|auto].
Qed.

Lemma live_insert_other (i : nat) (b b' : ConsumedReferenceBinding)
  (l : list ConsumedReferenceBinding) (j : string) :
  l !! i = Some b -> b_joint b <> j -> live j l -> live j (<[i := b']> l).
Proof.
  intros Hi Hj (x & Hx & Hxj & Hxr). apply list_elem_of_lookup in Hx as [k Hk].
  exists x. split; [|auto]. apply (list_elem_of_lookup_2 _ k).
  rewrite list_lookup_insert_ne; [exact Hk|]. intros <-. congruence.
Qed.

Lemma insert_nil_iff {A : Type} (i : nat) (x : A) (l : list A) : <[i := x]> l = [] <-> l = [].
Proof. split; [|by intros ->]. intros H%(f_equal length). rewrite length_insert in H. by destruct l. Qed.

(** ** Each operation only takes coverage away, selection excepted *)

Lemma revoke_shrinks (j : string) (a : ReferenceAuthority) :
  contains j (revoke a) = true -> contains j a = true.
Proof. unfold revoke. destruct (revoked a); [auto|]. by rewrite contains_revoked. Qed.

Lemma replace_binding_shrinks (i : nat) (b b' : ConsumedReferenceBinding) (g : Z)
  (a : ReferenceAuthority) (j : string) :
  consumed a !! i = Some b -> b_joint b' = b_joint b ->
  (b_revoked b' = false -> b_revoked b = false) ->
  contains j (with_consumed (<[i := b']> (consumed a)) g a) = true -> contains j a = true.
Proof.
  intros Hi Hj Hr. rewrite !contains_iff. cbn. rewrite insert_nil_iff.
  intros (H1 & H2 & [H3|H3]); auto. split; [exact H1|split; [exact H2|right]].
  eapply live_insert; eauto.
Qed.

Lemma revoke_binding_shrinks (i : nat) (j : string) (a : ReferenceAuthority) :
  contains j (revoke_binding i a) = true -> contains j a = true.
Proof.
  unfold revoke_binding. destruct (consumed a !! i) as [b|] eqn:E; [|auto].
  destruct (b_revoked b) eqn:Er; [auto|].
  eapply replace_binding_shrinks; [exact E|reflexivity|discriminate].
Qed.

Lemma revoke_binding_silent_shrinks (i : nat) (j : string) (a : ReferenceAuthority) :
  contains j (revoke_binding_silent i a) = true -> contains j a = true.
Proof.
  unfold revoke_binding_silent. destruct (consumed a !! i) as [b|] eqn:E; [|auto].
  intros H%revoke_binding_shrinks. destruct (b_revoked b) eqn:Er; [exact H|].
  revert H. eapply replace_binding_shrinks; [exact E|reflexivity|auto].
Qed.

Lemma find_index_spec (p : ConsumedReferenceBinding -> bool) (l : list ConsumedReferenceBinding) (i : nat) :
  find_index p l = Some i -> exists b, l !! i = Some b /\ p b = true.
Proof.
  revert i. induction l as [|x l IH]; intros i; simpl; [discriminate|].
  destruct (p x) eqn:E; [intros [= <-]; eauto|].
  destruct (find_index p l) as [k|]; simpl; [intros [= <-]; eauto|discriminate].
Qed.

Lemma find_index_none (p : ConsumedReferenceBinding -> bool) (l : list ConsumedReferenceBinding) b :
  find_index p l = None -> b ∈ l -> p b = false.
Proof.
  induction l as [|x l IH]; simpl; [intros _ H; by apply not_elem_of_nil in H|].
  destruct (p x) eqn:E; [discriminate|].
  destruct (find_index p l); simpl; [discriminate|].
  intros _ [->|H]%elem_of_cons; auto.
Qed.

Lemma for_joint_true (j : string) (b : ConsumedReferenceBinding) :
  for_joint j b = true <-> b_joint b = j.
Proof. unfold for_joint. apply bool_decide_eq_true. Qed.

Lemma alter_insert (i : nat) (b : ConsumedReferenceBinding) (l : list ConsumedReferenceBinding) :
  l !! i = Some b -> alter set_binding_revoked i l = <[i := set_binding_revoked b]> l.
Proof.
  intros H. apply list_eq. intros k. destruct (decide (i = k)) as [->|Hne].
  - rewrite list_lookup_alter_eq, H, list_lookup_insert_eq; [reflexivity|]. eapply lookup_lt_Some, H.
  - by rewrite list_lookup_alter_ne, list_lookup_insert_ne.
Qed.

Lemma invalidate_joint_shrinks (k j : string) (a : ReferenceAuthority) :
  contains j (invalidate_joint_for_acquisition k a).2 = true -> contains j a = true.
Proof.
  unfold invalidate_joint_for_acquisition.
  destruct (checked_add_u64 (generation a) 1) as [next|]; [|auto].
  destruct (find_index (for_joint k) (consumed a)) as [i|] eqn:E; cbn;
    rewrite !contains_iff; cbn; rewrite orb_false_iff.
  - destruct (find_index_spec _ _ _ E) as (b & Hb & _). rewrite (alter_insert _ _ _ Hb).
    rewrite insert_nil_iff. intros ([H1 _] & H2 & [H3|H3]); auto.
    split; [exact H1|split; [exact H2|right]]. revert H3. eapply live_insert; [exact Hb|reflexivity|discriminate].
  - intros ([H1 _] & H2 & H3). auto.
Qed.

Definition selects (j : string) (o : op) : Prop :=
  match o with OSelect _ _ _ k _ _ _ _ _ => k = j | _ => False end.

Lemma live_app (j : string) (l1 l2 : list ConsumedReferenceBinding) :
  live j (l1 ++ l2) <-> live j l1 \/ live j l2.
Proof. unfold live. set_solver. Qed.

Lemma live_singleton (j : string) (b : ConsumedReferenceBinding) :
  live j [b] <-> b_joint b = j /\ b_revoked b = false.
Proof. unfold live. set_solver. Qed.

Lemma live_filter_other (j k : string) (l : list ConsumedReferenceBinding) :
  live j (List.filter (fun x => negb (for_joint k x)) l) <-> live j l /\ j <> k.
Proof.
  unfold live. split.
  - intros (b & Hb & Hj & Hr). apply list_elem_of_In, filter_In in Hb as [Hb Hk].
    apply negb_true_iff, bool_decide_eq_false in Hk.
    split; [exists b; split; [by apply list_elem_of_In|auto]|congruence].
  - intros [(b & Hb & Hj & Hr) Hne]. exists b. split; [|auto].
    apply list_elem_of_In, filter_In. split; [by apply list_elem_of_In|].
    apply negb_true_iff, bool_decide_eq_false. congruence.
Qed.

Lemma select_shrinks (r : Z) (b : ConsumedReferenceBinding) (p : TypedPolicy) (scope : SelectionScope)
  (a : ReferenceAuthority) (j : string) :
  contains j (select_consumed r b p scope a).2 = true -> contains j a = true \/ b_joint b = j.
Proof.
  unfold select_consumed. destruct (checked_add_u64 (generation a) 1) as [next|]; [|auto].
  destruct (_ && policy_matches p a); cbn; rewrite !contains_iff; cbn.
  - intros (H1 & H2 & [H3|H3]); [by apply app_eq_nil in H3 as [_ [=]]|].
    apply live_app in H3 as [H3|H3]; [|apply live_singleton in H3 as [H3 _]; auto].
    apply live_filter_other in H3 as [H3 Hne]. left. split; [exact H1|]. split; [set_solver|auto].
  - intros (_ & H2 & _). right. set_solver.
Qed.

Lemma exec_shrinks (o : op) (a : ReferenceAuthority) (j : string) :
  contains j (exec o a) = true -> contains j a = true \/ selects j o.
Proof.
  destruct o as [|i|i|k|jb| |k|p|r jb m k ad e u p scope]; cbn [exec]; intros H.
  - left. by apply revoke_shrinks.
  - left. by eapply revoke_binding_shrinks.
  - left. by eapply revoke_binding_silent_shrinks.
  - left. unfold revoke_joint in H. destruct (find_index _ _); [|exact H].
    by eapply revoke_binding_shrinks.
  - left. unfold revoke_selected in H. destruct (find_index _ _); [|exact H].
    destruct (accumulates a); [by eapply revoke_binding_shrinks|by apply revoke_shrinks].
  - left. unfold invalidate_for_acquisition in H. destruct (checked_add_u64 _ _); [|exact H].
    by rewrite contains_revoked in H.
  - left. by eapply invalidate_joint_shrinks.
  - left. unfold validate_binding in H. destruct (_ || _); [exact H|].
    destruct (policy_matches p a); [exact H|by apply revoke_shrinks].
  - by apply select_shrinks in H.
Qed.

(** permission is never implicit: after any history of revocations,
    acquisitions, validations and selections, a joint is covered only if it was
    covered at the start or a consumed selection named that very joint. *)
Theorem coverage_only_from_selection (ops : list op) (a : ReferenceAuthority) (j : string) :
  contains j (run ops a) = true -> contains j a = true \/ Exists (selects j) ops.
Proof.
  revert a. induction ops as [|o ops IH]; intros a; cbn; [auto|].
  intros H. apply IH in H as [H|H]; [|right; by constructor].
  apply exec_shrinks in H as [H|H]; [auto|right; by constructor].
Qed.

(** ** The invariant *)

Record authority_ok (a : ReferenceAuthority) : Prop := {
  ok_nodup : NoDup (b_joint <$> consumed a);
  ok_covered : Forall (fun b => b_joint b ∈ joints a) (consumed a);
  ok_realm : realm a = None -> joints a = ∅;
  ok_generation : is_u64 (generation a);
  ok_accumulates : accumulates a = true -> consumed a <> []
}.

Lemma default_ok : authority_ok default_authority.
Proof. split; cbn; auto; try constructor; unfold is_u64, U64_MAX; try lia; discriminate. Qed.

Lemma initial_virtual_ok (r : Z) (js : gset string) (p : TypedPolicy) :
  authority_ok (initial_virtual r js p).
Proof. split; cbn; auto; try constructor; unfold is_u64, U64_MAX; try lia; discriminate. Qed.

Lemma bump_u64 (g : Z) : is_u64 g -> is_u64 (bump g).
Proof. intros. apply sat_add_u64_range; [assumption|lia]. Qed.

Lemma checked_next (g n : Z) : is_u64 g -> checked_add_u64 g 1 = Some n -> n = g + 1 /\ is_u64 n.
Proof.
  unfold checked_add_u64, is_u64, U64_MAX. intros Hg.
  destruct (Z.leb_spec (g + 1) 18446744073709551615); [|discriminate]. intros [= <-]. lia.
Qed.

Lemma fmap_insert_same {A B : Type} (f : A -> B) (l : list A) (i : nat) (x y : A) :
  l !! i = Some x -> f y = f x -> f <$> <[i := y]> l = f <$> l.
Proof.
  intros Hi Hf. rewrite list_fmap_insert, Hf. apply list_insert_id.
  by rewrite list_lookup_fmap, Hi.
Qed.

Lemma replace_binding_ok (i : nat) (b b' : ConsumedReferenceBinding) (g : Z) (a : ReferenceAuthority) :
  authority_ok a -> consumed a !! i = Some b -> b_joint b' = b_joint b -> is_u64 g ->
  authority_ok (with_consumed (<[i := b']> (consumed a)) g a).
Proof.
  intros [] Hi Hj Hg. split; cbn; auto.
  - by rewrite (fmap_insert_same b_joint _ _ _ _ Hi Hj).
  - apply Forall_insert; [exact ok_covered0|]. rewrite Hj.
    exact (proj1 (Forall_lookup _ _) ok_covered0 _ _ Hi).
  - intros H. rewrite insert_nil_iff. auto.
Qed.

Lemma with_revoked_ok (g : Z) (a : ReferenceAuthority) :
  authority_ok a -> is_u64 g -> authority_ok (with_revoked true g a).
Proof. intros [] Hg. split; auto. Qed.

Lemma revoke_ok (a : ReferenceAuthority) : authority_ok a -> authority_ok (revoke a).
Proof.
  intros H. unfold revoke. destruct (revoked a); [exact H|].
  apply with_revoked_ok; [exact H|]. apply bump_u64, H.
Qed.

Lemma revoke_binding_ok (i : nat) (a : ReferenceAuthority) :
  authority_ok a -> authority_ok (revoke_binding i a).
Proof.
  intros H. unfold revoke_binding. destruct (consumed a !! i) as [b|] eqn:E; [|exact H].
  destruct (b_revoked b); [exact H|].
  eapply replace_binding_ok; [exact H|exact E|reflexivity|apply bump_u64, H].
Qed.

#[local] Hint Resolve revoke_ok revoke_binding_ok : rust.

Lemma NoDup_fmap_filter {A B : Type} (f : A -> B) (p : A -> bool) (l : list A) :
  NoDup (f <$> l) -> NoDup (f <$> List.filter p l).
Proof.
  induction l as [|x l IH]; [constructor|]. cbn. intros [Hx Hl]%NoDup_cons.
  destruct (p x); cbn; [|by apply IH]. apply NoDup_cons. split; [|by apply IH].
  intros (y & Hy & Hin)%list_elem_of_fmap. apply Hx. rewrite Hy. apply list_elem_of_fmap_2.
  apply list_elem_of_In in Hin. apply filter_In in Hin as [Hin _]. by apply list_elem_of_In.
Qed.

Lemma select_ok (r : Z) (b : ConsumedReferenceBinding) (p : TypedPolicy) (scope : SelectionScope)
  (a : ReferenceAuthority) :
  authority_ok a -> authority_ok (select_consumed r b p scope a).2.
Proof.
  intros H. unfold select_consumed. destruct (checked_add_u64 _ 1) as [next|] eqn:E; [|exact H].
  destruct (checked_next _ _ (ok_generation _ H) E) as [_ Hn].
  destruct (_ && policy_matches p a) eqn:Em; cbn.
  - bsimp. apply bool_decide_eq_true in H2. destruct H. split; cbn; auto.
    + rewrite fmap_app. apply NoDup_app. split; [|split].
      * by apply NoDup_fmap_filter.
      * intros k Hk Hb. cbn in Hb. apply list_elem_of_singleton in Hb as ->.
        apply list_elem_of_fmap in Hk as (y & Hy & Hin).
        apply list_elem_of_In, filter_In in Hin as [_ Hin].
        apply negb_true_iff, bool_decide_eq_false in Hin. congruence.
      * apply NoDup_singleton.
    + apply Forall_app. split; [|apply Forall_singleton; set_solver].
      apply Forall_forall. intros x Hx. apply list_elem_of_In, filter_In in Hx as [Hx _].
      apply list_elem_of_In in Hx. rewrite Forall_forall in ok_covered0.
      specialize (ok_covered0 x Hx). set_solver.
    + congruence.
    + intros _ Hnil. by apply app_eq_nil in Hnil as [_ [=]].
  - split; cbn; auto; try discriminate.
    + apply NoDup_singleton.
    + apply Forall_singleton. set_solver.
Qed.

Lemma exec_ok (o : op) (a : ReferenceAuthority) : authority_ok a -> authority_ok (exec o a).
Proof.
  intros H. destruct o as [|i|i|k|jb| |k|p|r jb m k ad e u p scope]; cbn [exec]; auto with rust.
  - unfold revoke_binding_silent. destruct (consumed a !! i) as [b|] eqn:E; [|exact H].
    apply revoke_binding_ok. destruct (b_revoked b); [exact H|].
    eapply replace_binding_ok; [exact H|exact E|reflexivity|apply H].
  - unfold revoke_joint. destruct (find_index _ _); auto with rust.
  - unfold revoke_selected. destruct (find_index _ _); [|exact H].
    destruct (accumulates a); auto with rust.
  - unfold invalidate_for_acquisition. destruct (checked_add_u64 _ _) as [n|] eqn:E; [|exact H].
    apply with_revoked_ok; [exact H|]. eapply checked_next; [apply H|exact E].
  - unfold invalidate_joint_for_acquisition. destruct (checked_add_u64 _ _) as [n|] eqn:E; [|exact H].
    destruct (checked_next _ _ (ok_generation _ H) E) as [_ Hn]. cbn.
    destruct (find_index (for_joint k) (consumed a)) as [i|] eqn:Ei; [|destruct H; split; auto].
    destruct (find_index_spec _ _ _ Ei) as (b & Hb & _). rewrite (alter_insert _ _ _ Hb).
    destruct (replace_binding_ok i b (set_binding_revoked b) n a H Hb eq_refl Hn). split; auto.
  - unfold validate_binding. destruct (_ || _); [exact H|].
    destruct (policy_matches p a); cbn; auto with rust.
  - by apply select_ok.
Qed.

(** ** Generation *)

Lemma bump_strict (g : Z) : is_u64 g -> g <= bump g /\ (g < bump g \/ g = U64_MAX).
Proof. unfold is_u64, bump, sat_add_u64. lia. Qed.

(** Either the record is untouched, or its generation moved on. *)
Definition advances (a a' : ReferenceAuthority) : Prop :=
  a' = a \/ (generation a <= generation a' /\ (generation a < generation a' \/ generation a = U64_MAX)).

Lemma revoke_advances (a : ReferenceAuthority) : authority_ok a -> advances a (revoke a).
Proof.
  intros H. unfold revoke, advances. destruct (revoked a); [auto|right]. cbn. apply bump_strict, H.
Qed.

Lemma revoke_binding_advances (i : nat) (a : ReferenceAuthority) :
  authority_ok a -> advances a (revoke_binding i a).
Proof.
  intros H. unfold revoke_binding, advances. destruct (consumed a !! i) as [b|]; [|auto].
  destruct (b_revoked b); [auto|right]. cbn. apply bump_strict, H.
Qed.

#[local] Hint Resolve revoke_advances revoke_binding_advances : rust.

Lemma exec_advances (o : op) (a : ReferenceAuthority) : authority_ok a -> advances a (exec o a).
Proof.
  intros H.
  assert (Hnext : forall n, checked_add_u64 (generation a) 1 = Some n -> n = generation a + 1).
  { intros n Hn. by apply (checked_next _ _ (ok_generation _ H)) in Hn as [-> _]. }
  destruct o as [|i|i|k|jb| |k|p|r jb m k ad e u p scope]; cbn [exec]; auto with rust.
  - unfold revoke_binding_silent. destruct (consumed a !! i) as [b|] eqn:E; [|by left].
    destruct (b_revoked b) eqn:Er; [auto with rust|]. right. unfold revoke_binding. cbn.
    rewrite list_lookup_insert_eq by (eapply lookup_lt_Some, E). cbn. rewrite Er. cbn.
    apply bump_strict, H.
  - unfold revoke_joint. destruct (find_index _ _); [auto with rust|by left].
  - unfold revoke_selected. destruct (find_index _ _); [|by left].
    destruct (accumulates a); auto with rust.
  - unfold invalidate_for_acquisition. destruct (checked_add_u64 _ _) as [n|] eqn:E; [right|by left].
    cbn. rewrite (Hnext n) by reflexivity. lia.
  - unfold invalidate_joint_for_acquisition.
    destruct (checked_add_u64 _ _) as [n|] eqn:E; [right|by left].
    cbn. rewrite (Hnext n) by reflexivity. lia.
  - unfold validate_binding. destruct (_ || _); [by left|].
    destruct (policy_matches p a); [by left|]. cbn. auto with rust.
  - unfold select_consumed. destruct (checked_add_u64 _ _) as [n|] eqn:E; [right|by left].
    destruct (_ && policy_matches p a); cbn; rewrite (Hnext n) by reflexivity; lia.
Qed.

Lemma run_ok (ops : list op) (a : ReferenceAuthority) : authority_ok a -> authority_ok (run ops a).
Proof. revert a. induction ops as [|o ops IH]; intros a H; cbn; [exact H|]. apply IH, exec_ok, H. Qed.

(** the generation tells whether permission may have changed.  Along any history
    from a well-formed authority it never decreases, and a step that changes
    the coverage of some joint increases it strictly (unless the counter is
    already saturated at [u64::MAX]). *)
Theorem generation_tracks_coverage (ops : list op) (o : op) (a : ReferenceAuthority) :
  authority_ok a ->
  generation a <= generation (run ops a)
  /\ forall j, contains j (exec o (run ops a)) <> contains j (run ops a) ->
       generation (run ops a) < generation (exec o (run ops a)) \/ generation (run ops a) = U64_MAX.
Proof.
  intros H. split.
  - revert a H. induction ops as [|x ops IH]; intros a H; cbn; [lia|].
    etransitivity; [|apply IH, exec_ok, H].
    destruct (exec_advances x a H) as [->|[Hle _]]; [lia|exact Hle].
  - intros j Hd. destruct (exec_advances o _ (run_ok ops a H)) as [E|[_ Hlt]]; [|exact Hlt].
    by rewrite E in Hd.
Qed.

(** ** Revocation is effective and local *)

Lemma nodup_index (l : list ConsumedReferenceBinding) (i k : nat) b b' :
  NoDup (b_joint <$> l) -> l !! i = Some b -> l !! k = Some b' -> b_joint b = b_joint b' -> i = k.
Proof.
  intros Hn Hi Hk Hj. eapply (NoDup_lookup _ _ _ (b_joint b) Hn).
  - by rewrite list_lookup_fmap, Hi.
  - by rewrite list_lookup_fmap, Hk, Hj.
Qed.

Lemma not_live_revoked (l : list ConsumedReferenceBinding) (i : nat) b b' (j : string) :
  NoDup (b_joint <$> l) -> l !! i = Some b -> b_joint b = j -> b_revoked b' = true ->
  ~ live j (<[i := b']> l).
Proof.
  intros Hn Hi Hj Hr (x & Hx & Hxj & Hxr). apply list_elem_of_lookup in Hx as [k Hk].
  apply list_lookup_insert_Some in Hk as [(_ & -> & _)|[Hne Hk]]; [congruence|].
  apply Hne. eapply nodup_index; eauto. congruence.
Qed.

(** Setting the binding of [j] to revoked takes [j] out and nothing else. *)
Lemma drop_joint (a a' : ReferenceAuthority) (i : nat) b (j : string) :
  authority_ok a -> consumed a !! i = Some b -> b_joint b = j ->
  joints a' = joints a -> revoked a' = revoked a ->
  consumed a' = <[i := set_binding_revoked b]> (consumed a) ->
  contains j a' = false /\ forall j', j' <> j -> contains j' a' = contains j' a.
Proof.
  intros Hok Hi Hj Hjs Hr Hc. split.
  - apply not_true_iff_false. rewrite contains_iff, Hc, insert_nil_iff.
    intros (_ & _ & [Hnil|Hl]); [by rewrite Hnil in Hi|].
    eapply not_live_revoked in Hl; eauto. apply Hok.
  - intros j' Hne. apply contains_ext. rewrite !contains_iff, Hc, Hjs, Hr, insert_nil_iff.
    assert (live j' (<[i:=set_binding_revoked b]> (consumed a)) <-> live j' (consumed a)) as ->;
      [|tauto].
    split; [apply (live_insert i b); [exact Hi|reflexivity|discriminate]
           |apply (live_insert_other i b); congruence].
Qed.

Lemma already_dropped (a : ReferenceAuthority) (j : string) (i : nat) b :
  authority_ok a -> consumed a !! i = Some b -> b_joint b = j -> b_revoked b = true ->
  contains j a = false.
Proof.
  intros Hok Hi Hj Hr. apply not_true_iff_false. rewrite contains_iff.
  intros (_ & _ & [Hnil|(x & Hx & Hxj & Hxr)]); [by rewrite Hnil in Hi|].
  apply list_elem_of_lookup in Hx as [k Hk].
  assert (i = k) as -> by (eapply nodup_index; [apply Hok|exact Hi|exact Hk|congruence]). congruence.
Qed.

Lemma absent_joint (a : ReferenceAuthority) (j : string) :
  consumed a <> [] -> find_index (for_joint j) (consumed a) = None -> contains j a = false.
Proof.
  intros Hne E. apply not_true_iff_false. rewrite contains_iff.
  intros (_ & _ & [Hnil|(x & Hx & Hxj & _)]); [contradiction|].
  apply (find_index_none _ _ x) in E; [|exact Hx].
  by apply bool_decide_eq_false in E.
Qed.

Lemma revoke_joint_local (a : ReferenceAuthority) (j : string) :
  authority_ok a -> consumed a <> [] ->
  contains j (revoke_joint j a) = false
  /\ forall j', j' <> j -> contains j' (revoke_joint j a) = contains j' a.
Proof.
  intros Hok Hne. unfold revoke_joint. destruct (find_index (for_joint j) (consumed a)) as [i|] eqn:E.
  - destruct (find_index_spec _ _ _ E) as (b & Hb & Hj%for_joint_true).
    unfold revoke_binding. rewrite Hb. destruct (b_revoked b) eqn:Er.
    + split; [eapply already_dropped; eauto|auto].
    + eapply drop_joint; eauto.
  - split; [by apply absent_joint|auto].
Qed.

(** revoking a joint, or starting its physical acquisition, takes exactly that
    joint's permission away: in every authority of per-joint grants that a
    history can produce, the joint is no longer covered and every other joint
    is covered exactly as before. *)
Theorem revocation_is_local (a : ReferenceAuthority) (j : string) :
  authority_ok a -> accumulates a = true ->
  (contains j (revoke_joint j a) = false
   /\ forall j', j' <> j -> contains j' (revoke_joint j a) = contains j' a)
  /\ (forall n a', invalidate_joint_for_acquisition j a = (Some n, a') ->
       contains j a' = false /\ n = generation a + 1
       /\ forall j', j' <> j -> contains j' a' = contains j' a).
Proof.
  intros Hok Hacc. pose proof (ok_accumulates _ Hok Hacc) as Hne. split.
  - by apply revoke_joint_local.
  - intros n a'. unfold invalidate_joint_for_acquisition.
    destruct (checked_add_u64 _ 1) as [next|] eqn:En; [|discriminate]. intros [= <- <-].
    destruct (checked_next _ _ (ok_generation _ Hok) En) as [-> _].
    rewrite Hacc, orb_false_r.
    destruct (find_index (for_joint j) (consumed a)) as [i|] eqn:E.
    + destruct (find_index_spec _ _ _ E) as (b & Hb & Hj%for_joint_true).
      rewrite (alter_insert _ _ _ Hb).
      edestruct (drop_joint a) as [H1 H2]; [exact Hok|exact Hb|exact Hj|..|split; [exact H1|split; [reflexivity|exact H2]]];
        reflexivity.
    + assert (forall k, contains k (mkAuthority (joints a) (motors a) (bound a) (a_homing a)
          (a_control a) (realm a) (consumed a) true (revoked a) (generation a + 1)) = contains k a)
        as Heq by reflexivity.
      split; [rewrite Heq; by apply absent_joint|split; [reflexivity|auto]].
Qed.

(** ** Validation fails closed *)

(** When [validate_binding] answers false the authority it leaves behind covers
    no joint; when it answers true nothing changed and the policy matches. *)
Lemma validation_cases (p : TypedPolicy) (a : ReferenceAuthority) :
  authority_ok a ->
  let '(ok, a') := validate_binding p a in
  (ok = false -> forall j, contains j a' = false)
  /\ (ok = true -> a' = a /\ revoked a = false /\ policy_matches p a = true).
Proof.
  intros Hok. unfold validate_binding. destruct (revoked a) eqn:Er; cbn [orb].
  - split; [|discriminate]. intros _ j. by apply contains_revoked.
  - case_bool_decide as Hr.
    + split; [|discriminate]. intros _ j. apply not_true_iff_false. rewrite contains_iff.
      rewrite (ok_realm _ Hok Hr). set_solver.
    + destruct (policy_matches p a) eqn:Ep; split; auto; try discriminate.
      intros _ j. apply contains_revoked. unfold revoke. by rewrite Er.
Qed.

Lemma validate_binding_ok (p : TypedPolicy) (a : ReferenceAuthority) :
  authority_ok a -> authority_ok (validate_binding p a).2.
Proof.
  intros Hok. unfold validate_binding. destruct (_ || _); [exact Hok|].
  destruct (policy_matches p a); [exact Hok|by apply revoke_ok].
Qed.

(** ** Selection *)

Lemma binding_for_fresh (j : string) (l : list ConsumedReferenceBinding) (b : ConsumedReferenceBinding) :
  b_joint b = j -> b_revoked b = false ->
  find_first (fun x => bool_decide (b_joint x = j) && negb (b_revoked x))
    (List.filter (fun x => negb (for_joint j x)) l ++ [b]) = Some b.
Proof.
  intros Hj Hr. induction l as [|x l IH]; cbn.
  - by rewrite bool_decide_true, Hr by exact Hj.
  - destruct (for_joint j x) eqn:E; cbn; [exact IH|].
    unfold for_joint in E. by rewrite E.
Qed.

Lemma existsb_last {A : Type} (f : A -> bool) (l : list A) (x : A) :
  f x = true -> existsb f (l ++ [x]) = true.
Proof. intros H. rewrite existsb_app. cbn. by rewrite H, orb_true_r. Qed.

(** a selection grants the joint it names to the job that consumed the
    evidence; it keeps every other joint's coverage when it merges with grants
    of the same realm under the same policy, and otherwise it leaves the named
    joint as the only one covered.  Only an exhausted generation refuses. *)
Theorem selection_grants (r jb : Z) (m : InstalledModelStamp) (j : string) (ad : MotorAddress)
  (e : Z) (u : option (list Z)) (p : TypedPolicy) (scope : SelectionScope) (a : ReferenceAuthority) :
  authority_ok a ->
  let b := new_binding jb m j ad e u in
  let merge := bool_decide (scope = Accumulate) && accumulates a && negb (revoked a)
               && bool_decide (realm a = Some r) && policy_matches p a in
  match select_consumed r b p scope a with
  | (Some _, a') =>
      contains j a' = true /\ selected_by jb a' = true /\ binding_for j a' = Some b
      /\ generation a' = generation a + 1
      /\ forall j', j' <> j -> contains j' a' = merge && contains j' a
  | (None, a') => a' = a /\ generation a = U64_MAX
  end.
Proof.
  intros Hok b merge. unfold select_consumed. fold merge.
  destruct (checked_add_u64 (generation a) 1) as [next|] eqn:En.
  2:{ split; [reflexivity|]. revert En. unfold checked_add_u64.
      pose proof (ok_generation _ Hok) as Hg. unfold is_u64, U64_MAX in *.
      destruct (Z.leb_spec (generation a + 1) 18446744073709551615); [discriminate|]. lia. }
  destruct (checked_next _ _ (ok_generation _ Hok) En) as [-> _].
  assert (Hb : live j [b]) by (apply live_singleton; auto).
  destruct merge eqn:Em.
  - unfold merge in Em. bsimp. rename H2 into Hrev, H3 into Hacc.
    pose proof (ok_accumulates _ Hok Hacc) as Hne.
    split; [apply contains_iff; cbn; split; [exact Hrev|split; [set_solver|right; apply live_app; auto]]|].
    split; [unfold selected_by; cbn; rewrite Hrev; cbn; apply existsb_last; cbn; apply Z.eqb_refl|].
    split; [apply binding_for_fresh; reflexivity|split; [reflexivity|]].
    intros j' Hj'. cbn [andb]. apply contains_ext. rewrite !contains_iff. cbn.
    rewrite live_app, live_filter_other, live_singleton. cbn.
    split; intros (Hr & Hin & Hl); (split; [exact Hr|split; [set_solver|]]).
    + destruct Hl as [Hnil|[[Hl _]|[-> _]]]; [by apply app_eq_nil in Hnil as [_ [=]]|auto|contradiction].
    + destruct Hl as [Hnil|Hl]; [contradiction|auto].
  - split; [apply contains_iff; cbn; split; [reflexivity|split; [set_solver|auto]]|].
    split; [unfold selected_by; cbn; by rewrite Z.eqb_refl|].
    split; [unfold binding_for; cbn; by rewrite bool_decide_true|split; [reflexivity|]].
    intros j' Hj'. cbn [andb]. apply not_true_iff_false. rewrite contains_iff. cbn. set_solver.
Qed.

(** ** A two-joint example *)

Definition pitch : string := "right_shoulder_pitch".
Definition elbow : string := "right_elbow_pitch".

Definition demo_motor (j : string) (id : Z) : MotorEntry :=
  mkMotor j "robstride" Rs03 "can0" id (-1) (f64_of_Z 1) 0 "0.3.1.42"
    (mkBench (lit64 (-9) 10) (f64_of_Z 2) (f64_of_Z 3) (f64_of_Z 5)).

Definition demo_joint (kp : Z) : JointControlEntry :=
  mkJointControl Rs03 (mkGains fzero fzero fzero) (mkGains (f64_of_Z kp) (f64_of_Z 1) fzero)
    (mkFriction fzero fzero fzero fzero None None) None
    (lit64 5 10) (lit64 1 10) (lit64 1 10) (lit64 5 10) (f64_of_Z 1) (lit64 2 100) (lit64 1 100)
    DisableAll Legacy None None None None None None None None
    (lit64 1 100) (lit64 2 100) (lit64 5 10) (lit64 3 100) (Some (lit64 (-85) 100)) (Some (lit64 195 100)).

Definition demo_control (kp : Z) : ControlSection :=
  mkControl 200 50 100 500 (f64_of_Z 40) true false
    [("rs03"%string, mkDefaults (f64_of_Z 100) (f64_of_Z 5) (f64_of_Z 12) (f64_of_Z 2))]
    [] [(pitch, demo_joint kp); (elbow, demo_joint kp)] []
    default_wrong_sign_watchdog None.

Definition demo_homing (tol : f64) : HomingSection :=
  mkHoming tol "calibration.json"
    (mkHomingDefaults fzero Positive (lit64 1 10) (f64_of_Z 1) (f64_of_Z 10) (lit64 1 10) true false)
    [(pitch, mkHomingJoint ManualReference None None None None None None None None None);
     (elbow, mkHomingJoint ManualReference None None None None None None None None None)].

(** The position gain does not bind the reference; the verify tolerance does. *)
Definition demo_policy (kp : Z) (tol : f64) : TypedPolicy :=
  mkPolicy [demo_motor pitch 11; demo_motor elbow 12] (demo_homing tol) (demo_control kp).

Definition select_demo (jb : Z) (j : string) (id kp : Z) : op :=
  OSelect 7 jb (mkStamp 1 3) j (mkAddress "can0" id) 2 None (demo_policy kp (lit64 1 100)) Accumulate.

(** Both joints acquired one after the other. *)
Definition demo_grants : ReferenceAuthority :=
  run [select_demo 100 pitch 11 20; select_demo 101 elbow 12 25] default_authority.

Lemma demo_ok : authority_ok demo_grants.
Proof. apply run_ok, default_ok. Qed.

Lemma coverage_only_from_selection_witness :
  contains elbow default_authority = true
  \/ Exists (selects elbow) [select_demo 100 pitch 11 20; select_demo 101 elbow 12 25].
Proof.
  apply (coverage_only_from_selection
           [select_demo 100 pitch 11 20; select_demo 101 elbow 12 25] default_authority elbow).
  vm_compute. reflexivity.
Defined.

Lemma generation_tracks_coverage_witness :
  generation demo_grants = 2 /\ generation (exec (ORevokeJoint elbow) demo_grants) = 3
  /\ (2 < 3 \/ 2 = U64_MAX).
Proof.
  split; [vm_compute; reflexivity|split; [vm_compute; reflexivity|]].
  refine (proj2 (generation_tracks_coverage
    [select_demo 100 pitch 11 20; select_demo 101 elbow 12 25] (ORevokeJoint elbow)
    default_authority default_ok) elbow _).
  vm_compute. discriminate.
Defined.

Lemma revocation_is_local_witness :
  contains elbow (revoke_joint elbow demo_grants) = false
  /\ contains pitch (revoke_joint elbow demo_grants) = true.
Proof.
  destruct (revocation_is_local demo_grants elbow demo_ok eq_refl) as [[H1 H2] _].
  split; [exact H1|]. rewrite (H2 pitch) by discriminate. vm_compute. reflexivity.
Defined.

Definition demo_one : ReferenceAuthority := run [select_demo 100 pitch 11 20] default_authority.
Definition demo_two : option unit * ReferenceAuthority :=
  select_consumed 7 (new_binding 101 (mkStamp 1 3) elbow (mkAddress "can0" 12) 2 None)
    (demo_policy 25 (lit64 1 100)) Accumulate demo_one.

Lemma selection_grants_witness :
  demo_two.1 = Some tt /\ contains elbow demo_two.2 = true /\ contains pitch demo_two.2 = true.
Proof.
  assert (Hs : demo_two.1 = Some tt) by (vm_compute; reflexivity).
  split; [exact Hs|].
  pose proof (selection_grants 7 101 (mkStamp 1 3) elbow (mkAddress "can0" 12) 2 None
    (demo_policy 25 (lit64 1 100)) Accumulate demo_one (run_ok _ _ default_ok)) as H.
  cbv zeta in H. fold demo_two in H. destruct demo_two as [o a']. cbn [fst snd] in *. subst o.
  destruct H as (H1 & _ & _ & _ & H2). split; [exact H1|].
  rewrite (H2 pitch) by discriminate. vm_compute. reflexivity.
Defined.

End Authority.
