(* ===== verification/Physical.v ===== *)
(** * Physical: device identity, coordinate continuity and liveness

    [src/crates/davout/src/reference_physical.rs]: what the owner knows of each
    installed drive.  An [epoch] counts every reason the drive's coordinate may
    have changed; a grant is bound to one epoch and holds only while the drive's
    counted silence stays within the watchdog window.

    Instants are nanosecond counts.  The [fate] callback of
    [settle_owed_reporting_ons] is a pure function of the address (its caller's
    closure only reads), so the order in which a hash map is visited does not
    matter.  [PhysicalBackend] is a pointer and a clock origin and has no
    definition of its own. *)

From Stdlib Require Import ZArith Lia Bool.
From stdpp Require Import base gmap strings list.
From S2P Require Import Prelude Float Params Bus Feedback Davout.

Module Physical.
Import Bus Feedback Params.

Definition OWED_ON_WRITE_BOUND : Z := 200000000.
Definition INBOX_CAPACITY : nat := 32.

Record ContinuityBounds : Type := mkBounds { max_rate_rad_s : f64; quantization_rad : f64 }.

Record Device : Type := mkDev {
  bounds : ContinuityBounds;
  d_epoch : Z;
  d_uid : option (list Z);
  d_last_seen : option Z;
  last_position_rad : option f64;
  silence_counts_from : option Z;
  owed_on_from : option Z
}.

Inductive Lapse : Type := LapseSilent | OwedOnUnwritten.

Inductive SilenceFrom : Type :=
| LastFrame
| Withheld (since : Z)
| Solicited (at_ : option Z).

Inductive OwedOn : Type := Owed | Written (at_ : Z) | Released.

Record InboxIdentity : Type := mkInboxId { ii_serial : Z; ii_address : MotorAddress; ii_uid : list Z }.
Record InboxRead : Type := mkInboxRead { ir_serial : Z; ir_observation : ParameterReadObservation }.

Inductive ContinuityBreak : Type := IdentityChanged | Discontinuity | CalibrationMode.

Record PhysicalDevices : Type := mkPhysical {
  devices : gmap MotorAddress Device;
  serial : Z;
  identities : list InboxIdentity;
  reads : list InboxRead;
  last_owner_work : option Z
}.

Definition new_device (b : ContinuityBounds) : Device := mkDev b 1 None None None None None.

Definition new_devices (installed : list (MotorAddress * ContinuityBounds)) : PhysicalDevices :=
  mkPhysical (list_to_map (map (fun p => (p.1, new_device p.2)) installed)) 0 [] [] None.

Definition with_device (ad : MotorAddress) (d : Device) (s : PhysicalDevices) : PhysicalDevices :=
  mkPhysical (<[ad := d]> (devices s)) (serial s) (identities s) (reads s) (last_owner_work s).

(** [o.map_or(t, |s| s.max(t))]. *)
Definition latest_of (o : option Z) (t : Z) : Z := match o with Some s => Z.max s t | None => t end.

Definition watermark (s : PhysicalDevices) : Z := serial s.

Definition mark_owner_work (now : Z) (s : PhysicalDevices) : PhysicalDevices :=
  mkPhysical (devices s) (serial s) (identities s) (reads s) (Some (latest_of (last_owner_work s) now)).

Definition with_silence (d : Device) (at_ : Z) : Device :=
  mkDev (bounds d) (d_epoch d) (d_uid d) (d_last_seen d) (last_position_rad d)
    (Some (latest_of (silence_counts_from d) at_)) (owed_on_from d).

Definition count_silence_from (ad : MotorAddress) (at_ : Z) (s : PhysicalDevices) : PhysicalDevices :=
  match devices s !! ad with
  | Some d => with_device ad (with_silence d at_) s
  | None => s
  end.

Definition owe_reporting_on (ad : MotorAddress) (quiet_end : Z) (s : PhysicalDevices) : PhysicalDevices :=
  match devices s !! ad with
  | Some d =>
      with_device ad
        (mkDev (bounds d) (d_epoch d) (d_uid d) (d_last_seen d) (last_position_rad d)
           (silence_counts_from d) (Some (latest_of (owed_on_from d) quiet_end))) s
  | None => s
  end.

Definition settle_device (fate : OwedOn) (d : Device) : Device :=
  match owed_on_from d with
  | None => d
  | Some owed_from =>
      match (match fate with Owed => None | Written at_ => Some at_ | Released => Some owed_from end) with
      | None => d
      | Some counts_from =>
          with_silence
            (mkDev (bounds d) (d_epoch d) (d_uid d) (d_last_seen d) (last_position_rad d)
               (silence_counts_from d) None) counts_from
      end
  end.

Definition settle_owed_reporting_ons (fate : MotorAddress -> OwedOn) (s : PhysicalDevices)
  : PhysicalDevices :=
  mkPhysical (map_imap (fun ad d => Some (settle_device (fate ad) d)) (devices s))
    (serial s) (identities s) (reads s) (last_owner_work s).

Definition bump_epoch (d : Device) : Device :=
  mkDev (bounds d) (sat_add_u64 (d_epoch d) 1) (d_uid d) (d_last_seen d) (last_position_rad d)
    (silence_counts_from d) (owed_on_from d).

Definition set_uid (u : list Z) (d : Device) : Device :=
  mkDev (bounds d) (d_epoch d) (Some u) (d_last_seen d) (last_position_rad d)
    (silence_counts_from d) (owed_on_from d).

(** Pop the oldest of a full inbox, then push. *)
Definition inbox_push {A : Type} (l : list A) (x : A) : list A :=
  (if (length l =? INBOX_CAPACITY)%nat then tail l else l) ++ [x].

Definition record_identity (o : IdentityObservation) (s : PhysicalDevices)
  : option ContinuityBreak * PhysicalDevices :=
  let n := sat_add_u64 (serial s) 1 in
  let '(changed, devs) :=
    match devices s !! id_address o with
    | Some d =>
        match d_uid d with
        | Some u =>
            if bool_decide (u <> id_uid o)
            then (Some IdentityChanged, <[id_address o := set_uid (id_uid o) (bump_epoch d)]> (devices s))
            else (None, <[id_address o := set_uid (id_uid o) d]> (devices s))
        | None => (None, <[id_address o := set_uid (id_uid o) d]> (devices s))
        end
    | None => (None, devices s)
    end in
  (changed,
   mkPhysical devs n (inbox_push (identities s) (mkInboxId n (id_address o) (id_uid o)))
     (reads s) (last_owner_work s)).

Definition record_read (o : ParameterReadObservation) (s : PhysicalDevices) : PhysicalDevices :=
  let n := sat_add_u64 (serial s) 1 in
  mkPhysical (devices s) n (identities s) (inbox_push (reads s) (mkInboxRead n o)) (last_owner_work s).

Definition identity_after (ad : MotorAddress) (w : Z) (s : PhysicalDevices) : option (list Z) :=
  ii_uid <$> find_first (fun r => (w <? ii_serial r) && bool_decide (ii_address r = ad)) (identities s).

Definition read_after (ad : MotorAddress) (p : ParameterId) (w : Z) (s : PhysicalDevices)
  : option ParameterReadObservation :=
  ir_observation <$>
    find_first (fun r => (w <? ir_serial r)
                         && bool_decide (prd_address (ir_observation r) = ad)
                         && (pr_index (prd_reply (ir_observation r)) =? param_as_u16 p)) (reads s).

Definition uid_claimed_elsewhere (ad : MotorAddress) (u : list Z) (s : PhysicalDevices) : bool :=
  existsb (fun '(other, d) => bool_decide (other <> ad) && bool_decide (d_uid d = Some u))
    (map_to_list (devices s)).

Definition begin_new_coordinate (ad : MotorAddress) (s : PhysicalDevices) : option Z * PhysicalDevices :=
  match devices s !! ad with
  | None => (None, s)
  | Some d =>
      match checked_add_u64 (d_epoch d) 1 with
      | None => (None, s)
      | Some e =>
          (Some e, with_device ad (mkDev (bounds d) e (d_uid d) None None
                                     (silence_counts_from d) (owed_on_from d)) s)
      end
  end.

(** [a.saturating_duration_since(b)]. *)
Definition saturating_since (a b : Z) : Z := Z.max 0 (a - b).

(** How far the position may have moved since the last admitted one. *)
Definition continuity_bound (work : option Z) (d : Device) (seen received_at : Z) (at_rest : f64) : f64 :=
  if match work with Some w => seen <? w | None => false end then at_rest
  else add64 (mul64 (max_rate_rad_s (bounds d)) (Davout.as_secs_f64 (saturating_since received_at seen)))
         (quantization_rad (bounds d)).

Definition jumped (work : option Z) (d : Device) (pos : f64) (received_at : Z) (at_rest : f64) : bool :=
  match last_position_rad d, d_last_seen d with
  | Some previous, Some seen =>
      negb (is_finite pos)
      || fgt (fabs (sub64 pos previous)) (continuity_bound work d seen received_at at_rest)
  | _, _ => false
  end.

Definition observe_position (ad : MotorAddress) (pos : f64) (received_at : Z) (at_rest : f64)
  (s : PhysicalDevices) : option ContinuityBreak * PhysicalDevices :=
  match devices s !! ad with
  | None => (None, s)
  | Some d =>
      let broken := jumped (last_owner_work s) d pos received_at at_rest in
      let d1 := if broken then bump_epoch d else d in
      (if broken then Some Discontinuity else None,
       with_device ad
         (mkDev (bounds d1) (d_epoch d1) (d_uid d1) (Some (latest_of (d_last_seen d1) received_at))
            (Some pos) (silence_counts_from d1) (owed_on_from d1)) s)
  end.

Definition record_calibration_mode (ad : MotorAddress) (s : PhysicalDevices)
  : option ContinuityBreak * PhysicalDevices :=
  match devices s !! ad with
  | None => (None, s)
  | Some d => (Some CalibrationMode, with_device ad (bump_epoch d) s)
  end.

Definition epoch (ad : MotorAddress) (s : PhysicalDevices) : option Z := d_epoch <$> devices s !! ad.
Definition uid (ad : MotorAddress) (s : PhysicalDevices) : option (list Z) := devices s !! ad ≫= d_uid.
Definition last_seen (ad : MotorAddress) (s : PhysicalDevices) : option Z := devices s !! ad ≫= d_last_seen.

(** [flatten().max()]. *)
Definition max_instant (l : list (option Z)) : option Z :=
  fold_left (fun acc o => match o with Some t => Some (latest_of acc t) | None => acc end) l None.

Definition counted_silence (ad : MotorAddress) (now : Z) (from : SilenceFrom) (s : PhysicalDevices)
  : option Z :=
  d ← devices s !! ad;
  let counted (l : list (option Z)) :=
    reference ← max_instant (l ++ [last_owner_work s; silence_counts_from d]);
    Some (saturating_since now reference) in
  match from with
  | Solicited None => Some 0
  | Solicited (Some solicited) => counted [Some solicited; None]
  | Withheld since => counted [d_last_seen d; Some since]
  | LastFrame => counted [d_last_seen d; None]
  end.

Definition live_epoch (ad : MotorAddress) (now window : Z) (owner_busy : bool) (from : SilenceFrom)
  (s : PhysicalDevices) : result Lapse Z :=
  match devices s !! ad with
  | None => Err LapseSilent
  | Some d =>
      if owner_busy then Ok (d_epoch d)
      else
        match from, owed_on_from d with
        | LastFrame, Some owed_from =>
            let writable := match last_owner_work s with Some w => Z.max w owed_from | None => owed_from end in
            if saturating_since now writable <=? OWED_ON_WRITE_BOUND then Ok (d_epoch d)
            else Err OwedOnUnwritten
        | _, _ =>
            match counted_silence ad now from s with
            | Some silence => if silence <=? window then Ok (d_epoch d) else Err LapseSilent
            | None => Err LapseSilent
            end
        end
  end.

(** ** Histories *)

Inductive op : Type :=
| OWork (now : Z)
| OSilence (ad : MotorAddress) (at_ : Z)
| OOwe (ad : MotorAddress) (quiet_end : Z)
| OSettle (fate : MotorAddress -> OwedOn)
| OIdentity (o : IdentityObservation)
| ORead (o : ParameterReadObservation)
| ONewCoordinate (ad : MotorAddress)
| OPosition (ad : MotorAddress) (pos : f64) (received_at : Z) (at_rest : f64)
| OCalibration (ad : MotorAddress).

Definition exec (o : op) (s : PhysicalDevices) : PhysicalDevices :=
  match o with
  | OWork now => mark_owner_work now s
  | OSilence ad at_ => count_silence_from ad at_ s
  | OOwe ad q => owe_reporting_on ad q s
  | OSettle fate => settle_owed_reporting_ons fate s
  | OIdentity o => (record_identity o s).2
  | ORead o => record_read o s
  | ONewCoordinate ad => (begin_new_coordinate ad s).2
  | OPosition ad pos t tol => (observe_position ad pos t tol s).2
  | OCalibration ad => (record_calibration_mode ad s).2
  end.

Definition run (ops : list op) (s : PhysicalDevices) : PhysicalDevices :=
  fold_left (fun s o => exec o s) ops s.

(** ** Coordinate continuity *)

(** [o] gives a reason why the coordinate of [ad] may have changed. *)
Definition disturbs (ad : MotorAddress) (o : op) (s : PhysicalDevices) : Prop :=
  match o with
  | ONewCoordinate a | OCalibration a => a = ad
  | OIdentity i => id_address i = ad /\ exists u, uid ad s = Some u /\ u <> id_uid i
  | OPosition a pos t tol =>
      a = ad /\ exists d, devices s !! ad = Some d /\ jumped (last_owner_work s) d pos t tol = true
  | _ => False
  end.

Fixpoint undisturbed (ad : MotorAddress) (ops : list op) (s : PhysicalDevices) : Prop :=
  match ops with
  | [] => True
  | o :: ops => ~ disturbs ad o s /\ undisturbed ad ops (exec o s)
  end.

Lemma epoch_with_device (ad a : MotorAddress) (d d' : Device) (s : PhysicalDevices) :
  devices s !! a = Some d -> d_epoch d' = d_epoch d ->
  epoch ad (with_device a d' s) = epoch ad s.
Proof.
  intros Hd He. unfold epoch, with_device. cbn. destruct (decide (a = ad)) as [->|Hne].
  - rewrite lookup_insert_eq, Hd. cbn. by rewrite He.
  - by rewrite lookup_insert_ne.
Qed.

Lemma epoch_of (ad : MotorAddress) (s : PhysicalDevices) (e : Z) :
  epoch ad s = Some e -> exists d, devices s !! ad = Some d /\ d_epoch d = e.
Proof. unfold epoch. destruct (devices s !! ad); cbn; [intros [= <-]; eauto|discriminate]. Qed.

Lemma settle_epoch (f : OwedOn) (d : Device) : d_epoch (settle_device f d) = d_epoch d.
Proof. unfold settle_device. destruct (owed_on_from d), f; reflexivity. Qed.

(** From epoch [e] to [s'], through a step that is a disturbance when [D]. *)
Definition epoch_step (ad : MotorAddress) (e : Z) (D : Prop) (s' : PhysicalDevices) : Prop :=
  exists e', epoch ad s' = Some e' /\ e <= e' <= U64_MAX /\ (D -> e < U64_MAX -> e < e').

Lemma epoch_kept (ad : MotorAddress) (e : Z) (D : Prop) (s' : PhysicalDevices) :
  epoch ad s' = Some e -> e <= U64_MAX -> ~ D -> epoch_step ad e D s'.
Proof. intros He Hm Hn. exists e. split; [exact He|]. split; [lia|]. intros; contradiction. Qed.

Lemma epoch_bumped (ad : MotorAddress) (e : Z) (D : Prop) (s' : PhysicalDevices) :
  epoch ad s' = Some (sat_add_u64 e 1) -> e <= U64_MAX -> epoch_step ad e D s'.
Proof. intros He Hm. eexists. split; [exact He|]. unfold sat_add_u64. lia. Qed.

Lemma epoch_insert (ad : MotorAddress) (d : Device) (s : PhysicalDevices) n ids rs w :
  epoch ad (mkPhysical (<[ad := d]> (devices s)) n ids rs w) = Some (d_epoch d).
Proof. unfold epoch. cbn. by rewrite lookup_insert_eq. Qed.

Lemma epoch_insert_ne (ad a : MotorAddress) (d : Device) (s : PhysicalDevices) n ids rs w :
  a <> ad -> epoch ad (mkPhysical (<[a := d]> (devices s)) n ids rs w) = epoch ad s.
Proof. intros H. unfold epoch. cbn. by rewrite lookup_insert_ne. Qed.

Lemma identity_epoch (i : IdentityObservation) (ad : MotorAddress) (s : PhysicalDevices) (e : Z) :
  epoch ad s = Some e -> e <= U64_MAX ->
  epoch_step ad e (disturbs ad (OIdentity i) s) (record_identity i s).2.
Proof.
  intros He Hm. destruct (epoch_of _ _ _ He) as (d & Hd & Hde). unfold record_identity.
  destruct (decide (id_address i = ad)) as [Ha|Ha].
  - rewrite Ha, Hd. destruct (d_uid d) as [u|] eqn:Eu; [case_bool_decide as Hu|]; cbn [fst snd].
    + apply epoch_bumped; [|exact Hm]. rewrite epoch_insert. cbn. by rewrite Hde.
    + apply epoch_kept; [by rewrite epoch_insert, <- Hde|exact Hm|].
      intros [_ (u' & Hu' & Hne)]. unfold uid in Hu'. rewrite Hd in Hu'. cbn in Hu'. congruence.
    + apply epoch_kept; [by rewrite epoch_insert, <- Hde|exact Hm|].
      intros [_ (u' & Hu' & _)]. unfold uid in Hu'. rewrite Hd in Hu'. cbn in Hu'. congruence.
  - apply epoch_kept; [|exact Hm|intros [? _]; contradiction].
    repeat case_match; cbn in *; simplify_eq; rewrite ?epoch_insert_ne by exact Ha; exact He.
Qed.

(** One step keeps the epoch or advances it; a disturbance advances it. *)
Lemma exec_epoch (o : op) (ad : MotorAddress) (s : PhysicalDevices) (e : Z) :
  epoch ad s = Some e -> e <= U64_MAX -> epoch_step ad e (disturbs ad o s) (exec o s).
Proof.
  intros He Hm. destruct (epoch_of _ _ _ He) as (d & Hd & Hde).
  assert (Hother : forall a d' , a <> ad -> epoch ad (with_device a d' s) = Some e).
  { intros a d' Hne. unfold with_device. by rewrite epoch_insert_ne. }
  destruct o as [t|a t|a q|fate|i|r|a|a pos t tol|a]; cbn [exec].
  - by apply epoch_kept; auto.
  - unfold count_silence_from. destruct (devices s !! a) eqn:Ea; apply epoch_kept; auto.
    rewrite <- He. eapply epoch_with_device; eauto.
  - unfold owe_reporting_on. destruct (devices s !! a) eqn:Ea; apply epoch_kept; auto.
    rewrite <- He. eapply epoch_with_device; eauto.
  - apply epoch_kept; auto. unfold epoch. cbn. rewrite map_lookup_imap, Hd. cbn.
    by rewrite settle_epoch, Hde.
  - by apply identity_epoch.
  - by apply epoch_kept; auto.
  - unfold begin_new_coordinate. destruct (decide (a = ad)) as [->|Hne].
    + rewrite Hd, Hde. unfold checked_add_u64. destruct (Z.leb_spec (e + 1) U64_MAX); cbn [snd].
      * exists (e + 1). unfold with_device. rewrite epoch_insert. split; [reflexivity|lia].
      * exists e. split; [exact He|]. lia.
    + apply epoch_kept; [|exact Hm|exact Hne]. repeat case_match; cbn; auto.
  - unfold observe_position. destruct (decide (a = ad)) as [->|Hne].
    + rewrite Hd. destruct (jumped _ d pos t tol) eqn:Ej; cbn [snd].
      * apply epoch_bumped; [|exact Hm]. unfold with_device. rewrite epoch_insert. cbn. by rewrite Hde.
      * apply epoch_kept; [unfold with_device; by rewrite epoch_insert, <- Hde|exact Hm|].
        intros [_ (d' & Hd' & Hj)]. congruence.
    + apply epoch_kept; [|exact Hm|intros [? _]; contradiction]. case_match; cbn; auto.
  - unfold record_calibration_mode. destruct (decide (a = ad)) as [->|Hne].
    + rewrite Hd. apply epoch_bumped; [|exact Hm]. cbn [snd]. unfold with_device.
      rewrite epoch_insert. cbn. by rewrite Hde.
    + apply epoch_kept; [|exact Hm|exact Hne]. case_match; cbn; auto.
Qed.

(** an unchanged epoch certifies the coordinate.  Along any history the epoch
    of an installed drive never decreases, and if it is the same at the end as
    at the start (and not saturated) then nothing in between could have
    changed the drive's coordinate: no SetZero attempt, no calibration, no other
    identity, no jump beyond what the drive can report. *)
Theorem epoch_certifies_continuity (ops : list op) (ad : MotorAddress) (s : PhysicalDevices) (e : Z) :
  epoch ad s = Some e -> e <= U64_MAX ->
  exists e', epoch ad (run ops s) = Some e' /\ e <= e' <= U64_MAX
             /\ (e' = e -> e < U64_MAX -> undisturbed ad ops s).
Proof.
  revert s e. induction ops as [|o ops IH]; intros s e He Hm; cbn [run fold_left undisturbed].
  { exists e. split; [exact He|]. split; [lia|auto]. }
  destruct (exec_epoch o ad s e He Hm) as (e1 & He1 & Hle & Hd).
  destruct (IH _ _ He1 ltac:(lia)) as (e2 & He2 & Hle2 & Hq).
  exists e2. split; [exact He2|]. split; [lia|]. intros -> Hlt. split.
  - intros Hdis. specialize (Hd Hdis Hlt). lia.
  - apply Hq; lia.
Qed.

(** ** Liveness *)

(** Every instant the liveness rule may count from is at most [t]. *)
Definition seen_by (t : Z) (o : option Z) : Prop := match o with Some x => x <= t | None => True end.

Definition silent_since (t : Z) (d : Device) (from : SilenceFrom) (s : PhysicalDevices) : Prop :=
  seen_by t (d_last_seen d) /\ seen_by t (silence_counts_from d) /\ seen_by t (owed_on_from d)
  /\ seen_by t (last_owner_work s)
  /\ match from with
     | LastFrame => True
     | Withheld since => since <= t
     | Solicited o => match o with Some x => x <= t | None => False end
     end.

Lemma max_instant_le (t : Z) (l : list (option Z)) (m : Z) :
  Forall (seen_by t) l -> max_instant l = Some m -> m <= t.
Proof.
  unfold max_instant. intros Hl.
  assert (forall acc, seen_by t acc ->
    seen_by t (fold_left (fun acc o => match o with Some t => Some (latest_of acc t) | None => acc end) l acc)).
  { induction Hl as [|x l Hx Hl IH]; intros acc Ha; cbn; [exact Ha|]. apply IH.
    destruct x as [x|]; [|exact Ha]. unfold latest_of. destruct acc; cbn in *; lia. }
  intros Hm. specialize (H None I). rewrite Hm in H. exact H.
Qed.

Lemma max_instant_ge (l : list (option Z)) (x : Z) :
  Some x ∈ l -> exists m, max_instant l = Some m /\ x <= m.
Proof.
  unfold max_instant. intros Hin.
  assert (Hacc : forall l a, exists m,
    fold_left (fun acc o => match o with Some t => Some (latest_of acc t) | None => acc end) l (Some a)
      = Some m /\ a <= m).
  { clear. induction l as [|[y|] l IH]; intros a; cbn; [exists a; split; [done|lia]| |apply IH].
    destruct (IH (Z.max a y)) as (m & Hm & Hle). exists m. split; [exact Hm|lia]. }
  generalize (@None Z) as acc. induction l as [|y l IH]; [by apply not_elem_of_nil in Hin|].
  intros acc. apply elem_of_cons in Hin as [<-|Hin]; cbn; [|by apply IH].
  destruct (Hacc l (latest_of acc x)) as (m & Hm & Hle). exists m. split; [exact Hm|].
  unfold latest_of in Hle. destruct acc; lia.
Qed.

(** The instants [counted_silence] takes the latest of. *)
Definition counted_from (d : Device) (from : SilenceFrom) (s : PhysicalDevices) : list (option Z) :=
  (match from with
   | Solicited o => [o; None]
   | Withheld since => [d_last_seen d; Some since]
   | LastFrame => [d_last_seen d; None]
   end) ++ [last_owner_work s; silence_counts_from d].

Lemma counted_silence_eq (ad : MotorAddress) (now : Z) (from : SilenceFrom) (s : PhysicalDevices)
  (d : Device) :
  devices s !! ad = Some d -> from <> Solicited None ->
  counted_silence ad now from s = saturating_since now <$> max_instant (counted_from d from s).
Proof.
  intros Hd Hf. unfold counted_silence. rewrite Hd. cbn [mbind option_bind].
  destruct from as [|since|[x|]]; try contradiction; unfold counted_from;
    destruct (max_instant _); reflexivity.
Qed.

(** a silent drive loses its grant.  If every instant silence may be counted
    from (last frame, host-caused silence, owed reporting command, owner work,
    solicitation) is at most [t], then once [now] is past [t] by more than the
    watchdog window and the owed-command bound, [live_epoch] refuses the
    address, unless owner work is in progress. *)
Theorem silent_drive_lapses (ad : MotorAddress) (d : Device) (t now window : Z) (from : SilenceFrom)
  (s : PhysicalDevices) :
  devices s !! ad = Some d -> silent_since t d from s ->
  t + window < now -> t + OWED_ON_WRITE_BOUND < now ->
  exists l, live_epoch ad now window false from s = Err l.
Proof.
  intros Hd (Hseen & Hsil & Howed & Hwork & Hfrom) Hw Hb.
  assert (Hrest : exists l, match counted_silence ad now from s with
                       | Some silence => if silence <=? window then Ok (d_epoch d) else Err LapseSilent
                       | None => Err LapseSilent end = Err l).
  { rewrite (counted_silence_eq _ _ _ _ d Hd) by (intros ->; exact Hfrom).
    destruct (max_instant _) as [m|] eqn:Em; cbn [fmap option_fmap option_map]; [|eauto].
    assert (m <= t).
    { eapply max_instant_le; [|exact Em]. unfold counted_from.
      destruct from as [|since|[x|]]; try contradiction; repeat constructor; cbn; auto. }
    destruct (Z.leb_spec (saturating_since now m) window); [|eauto].
    unfold saturating_since in *. lia. }
  unfold live_epoch. rewrite Hd.
  destruct from as [|since|o]; try exact Hrest.
  destruct (owed_on_from d) as [ow|]; [|exact Hrest].
  assert (match last_owner_work s with Some w => Z.max w ow | None => ow end <= t)
    by (destruct (last_owner_work s); cbn in *; lia).
  destruct (Z.leb_spec (saturating_since now (match last_owner_work s with Some w => Z.max w ow | None => ow end))
              OWED_ON_WRITE_BOUND); [|eauto].
  unfold saturating_since in *. lia.
Qed.

(** a drive that speaks keeps its grant: after its pose is admitted at
    [t], the address is live at its current epoch at every later instant
    within the watchdog window, outside an Active session as well as while its
    traffic is withheld (as long as no reporting command is owed to it). *)
Theorem speaking_drive_is_live (ad : MotorAddress) (pos tol : f64) (t now window : Z) (from : SilenceFrom)
  (s : PhysicalDevices) (d : Device) :
  devices s !! ad = Some d -> owed_on_from d = None -> 0 <= window ->
  (from = LastFrame \/ exists since, from = Withheld since) -> now <= t + window ->
  exists e, live_epoch ad now window false from (observe_position ad pos t tol s).2 = Ok e
            /\ epoch ad (observe_position ad pos t tol s).2 = Some e.
Proof.
  intros Hd Ho Hwin Hfrom Hn. unfold observe_position. rewrite Hd. cbn [snd].
  set (d1 := if jumped _ _ _ _ _ then bump_epoch d else d).
  assert (Ho1 : owed_on_from d1 = None) by (unfold d1; case_match; exact Ho).
  set (d2 := mkDev _ _ _ _ _ _ _). set (s' := with_device ad d2 s).
  assert (Hd' : devices s' !! ad = Some d2) by apply lookup_insert_eq.
  exists (d_epoch d1). split; [|unfold epoch; by rewrite Hd'].
  unfold live_epoch. rewrite Hd'. cbn [owed_on_from d2]. rewrite Ho1.
  rewrite (counted_silence_eq ad now from s' d2 Hd')
    by (destruct Hfrom as [->|[? ->]]; discriminate).
  destruct (max_instant_ge (counted_from d2 from s') (latest_of (d_last_seen d1) t)) as (m & Hm & Hle).
  { unfold counted_from. destruct Hfrom as [->|[since ->]]; apply elem_of_app; left; constructor. }
  rewrite Hm. cbn [fmap option_fmap option_map].
  assert ((saturating_since now m <=? window) = true) as ->.
  { apply Z.leb_le. unfold saturating_since, latest_of in *. destruct (d_last_seen d1); lia. }
  destruct Hfrom as [->|[? ->]]; reflexivity.
Qed.

(** ** Reply inboxes *)

Record inbox_ok (s : PhysicalDevices) : Prop := {
  ids_bounded : (length (identities s) <= INBOX_CAPACITY)%nat;
  reads_bounded : (length (reads s) <= INBOX_CAPACITY)%nat;
  ids_past : Forall (fun r => ii_serial r <= serial s) (identities s);
  reads_past : Forall (fun r => ir_serial r <= serial s) (reads s);
  serial_range : is_u64 (serial s)
}.

Lemma inbox_push_bounded {A : Type} (l : list A) (x : A) :
  (length l <= INBOX_CAPACITY)%nat -> (length (inbox_push l x) <= INBOX_CAPACITY)%nat.
Proof.
  intros H. unfold inbox_push. rewrite length_app. cbn [length].
  destruct (Nat.eqb_spec (length l) INBOX_CAPACITY); [|lia].
  destruct l; cbn [tail length] in *; unfold INBOX_CAPACITY in *; lia.
Qed.

Lemma inbox_push_elem {A : Type} (l : list A) (x y : A) : y ∈ inbox_push l x -> y ∈ l \/ y = x.
Proof.
  unfold inbox_push. intros [H|H]%elem_of_app; [left|right; set_solver].
  destruct (_ =? _)%nat; [|exact H]. destruct l; [exact H|]. by right.
Qed.

Lemma inbox_push_Forall {A : Type} (P : A -> Prop) (l : list A) (x : A) :
  Forall P l -> P x -> Forall P (inbox_push l x).
Proof.
  rewrite !Forall_forall. intros Hl Hx y Hy. apply inbox_push_elem in Hy as [Hy| ->]; auto.
Qed.

Lemma new_devices_inbox (l : list (MotorAddress * ContinuityBounds)) : inbox_ok (new_devices l).
Proof. split; cbn; try constructor; unfold INBOX_CAPACITY, U64_MAX; lia. Qed.

(** Only the two [record_] operations touch the inboxes. *)
Lemma exec_inbox_same (o : op) (s : PhysicalDevices) :
  match o with
  | OIdentity i =>
      serial (exec o s) = sat_add_u64 (serial s) 1 /\ reads (exec o s) = reads s
      /\ identities (exec o s)
         = inbox_push (identities s) (mkInboxId (sat_add_u64 (serial s) 1) (id_address i) (id_uid i))
  | ORead r =>
      serial (exec o s) = sat_add_u64 (serial s) 1 /\ identities (exec o s) = identities s
      /\ reads (exec o s) = inbox_push (reads s) (mkInboxRead (sat_add_u64 (serial s) 1) r)
  | _ => serial (exec o s) = serial s /\ identities (exec o s) = identities s /\ reads (exec o s) = reads s
  end.
Proof.
  destruct o; cbn [exec]; auto;
    unfold count_silence_from, owe_reporting_on, record_identity, begin_new_coordinate,
      observe_position, record_calibration_mode; repeat case_match; cbn in *; simplify_eq; auto.
Qed.

Lemma exec_inbox (o : op) (s : PhysicalDevices) : inbox_ok s -> inbox_ok (exec o s).
Proof.
  intros []. pose proof (exec_inbox_same o s) as Hs.
  assert (serial s <= sat_add_u64 (serial s) 1) by (unfold sat_add_u64, is_u64 in *; lia).
  assert (is_u64 (sat_add_u64 (serial s) 1)) by (apply sat_add_u64_range; [assumption|lia]).
  destruct o; destruct Hs as (E1 & E2 & E3);
    (split; rewrite ?E1, ?E2, ?E3; auto using inbox_push_bounded);
    first [apply inbox_push_Forall; [|cbn; lia]|idtac];
    eapply Forall_impl; eauto; cbn; lia.
Qed.

Lemma run_inbox (ops : list op) (s : PhysicalDevices) : inbox_ok s -> inbox_ok (run ops s).
Proof. revert s. induction ops; intros s H; cbn; [exact H|]. apply IHops, exec_inbox, H. Qed.

(** Everything newer than [w] came from one of [ops]. *)
Definition fresh_from (w : Z) (ops : list op) (s : PhysicalDevices) : Prop :=
  (forall r, r ∈ identities s -> w < ii_serial r ->
     exists i, OIdentity i ∈ ops /\ id_address i = ii_address r /\ id_uid i = ii_uid r)
  /\ (forall r, r ∈ reads s -> w < ir_serial r -> ORead (ir_observation r) ∈ ops).

Lemma exec_fresh (w : Z) (o : op) (done : list op) (s : PhysicalDevices) :
  fresh_from w done s -> fresh_from w (o :: done) (exec o s).
Proof.
  intros [Hi Hr]. pose proof (exec_inbox_same o s) as Hs.
  assert (Hi' : forall r, r ∈ identities s -> w < ii_serial r ->
     exists i, OIdentity i ∈ o :: done /\ id_address i = ii_address r /\ id_uid i = ii_uid r).
  { intros r H1 H2. destruct (Hi r H1 H2) as (i & ? & ?). exists i. split; [by right|auto]. }
  assert (Hr' : forall r, r ∈ reads s -> w < ir_serial r -> ORead (ir_observation r) ∈ o :: done)
    by (intros; right; auto).
  split; intros r Hin Hlt; destruct o; destruct Hs as (E1 & E2 & E3);
    rewrite ?E2, ?E3 in Hin; auto;
    apply inbox_push_elem in Hin as [Hin| ->]; auto.
  - eexists. split; [left|auto].
  - left.
Qed.

Lemma run_fresh (w : Z) (ops : list op) : forall done s,
  fresh_from w done s -> fresh_from w (reverse ops ++ done) (run ops s).
Proof.
  induction ops as [|o ops IH]; intros done s H; cbn [run fold_left]; [exact H|].
  rewrite reverse_cons, <- app_assoc. apply IH, exec_fresh, H.
Qed.

(** a request only accepts replies that came after it.  Take the watermark
    before sending; whatever happens afterwards, an identity or parameter value
    found past that watermark was recorded by one of the later
    observations, from that very address and, for a read, for that very
    parameter; and neither inbox ever holds more than 32 replies. *)
Theorem replies_follow_request (ops : list op) (s : PhysicalDevices) (ad : MotorAddress) :
  inbox_ok s ->
  (forall u, identity_after ad (watermark s) (run ops s) = Some u ->
     exists i, OIdentity i ∈ ops /\ id_address i = ad /\ id_uid i = u)
  /\ (forall p r, read_after ad p (watermark s) (run ops s) = Some r ->
       ORead r ∈ ops /\ prd_address r = ad /\ pr_index (prd_reply r) = param_as_u16 p)
  /\ inbox_ok (run ops s).
Proof.
  intros Hok.
  assert (Hf : fresh_from (watermark s) (reverse ops ++ []) (run ops s)).
  { apply run_fresh. destruct Hok. rewrite Forall_forall in ids_past0. rewrite Forall_forall in reads_past0.
    split; intros r Hr Hlt; unfold watermark in Hlt;
      [specialize (ids_past0 r Hr)|specialize (reads_past0 r Hr)]; lia. }
  rewrite app_nil_r in Hf. destruct Hf as [Hi Hr]. split; [|split; [|by apply run_inbox]].
  - intros u. unfold identity_after. destruct (find_first _ _) as [r|] eqn:E; [|discriminate].
    intros [= <-]. apply find_first_some in E as [Hin Hc]. apply list_elem_of_In in Hin. bsimp.
    apply bool_decide_eq_true in H0 as <-. destruct (Hi r Hin H) as (i & H1 & H2 & H3).
    exists i. by rewrite elem_of_reverse in H1.
  - intros p r0. unfold read_after. destruct (find_first _ _) as [r|] eqn:E; [|discriminate].
    intros [= <-]. apply find_first_some in E as [Hin Hc]. apply list_elem_of_In in Hin. bsimp.
    apply bool_decide_eq_true in H1. pose proof (Hr r Hin H) as H2. by rewrite elem_of_reverse in H2.
Qed.

(** ** A one-drive example *)

Definition demo_ad : MotorAddress := mkAddress "can0" 11.
Definition demo_bounds : ContinuityBounds := mkBounds (f64_of_Z 20) (lit64 1 1000).
Definition demo_devices : PhysicalDevices :=
  run [OPosition demo_ad (lit64 1 10) 1000000000 (lit64 1 100)] (new_devices [(demo_ad, demo_bounds)]).
Definition demo_device : Device :=
  mkDev demo_bounds 1 None (Some 1000000000) (Some (lit64 1 10)) None None.

(** A pose 5 ms later, near the first, then one two radians away. *)
Definition near : op := OPosition demo_ad (lit64 11 100) 1005000000 (lit64 1 100).
Definition far : op := OPosition demo_ad (f64_of_Z 2) 1005000000 (lit64 1 100).

Example far_pose_breaks : epoch demo_ad (run [near; far] demo_devices) = Some 2.
Proof. vm_compute. reflexivity. Qed.

Lemma epoch_certifies_continuity_witness :
  undisturbed demo_ad [near; OWork 1006000000; OCalibration (mkAddress "can0" 12)] demo_devices.
Proof.
  destruct (epoch_certifies_continuity
    [near; OWork 1006000000; OCalibration (mkAddress "can0" 12)] demo_ad demo_devices 1
    eq_refl ltac:(unfold U64_MAX; lia)) as (e' & He & _ & H).
  apply H; [|unfold U64_MAX; lia]. vm_compute in He. congruence.
Defined.

Lemma silent_drive_lapses_witness :
  exists l, live_epoch demo_ad 1300000000 100000000 false LastFrame demo_devices = Err l.
Proof.
  apply (silent_drive_lapses demo_ad demo_device 1000000000 1300000000 100000000 LastFrame demo_devices).
  - vm_compute. reflexivity.
  - repeat split; cbn; lia.
  - lia.
  - unfold OWED_ON_WRITE_BOUND. lia.
Defined.

Lemma speaking_drive_is_live_witness :
  exists e, live_epoch demo_ad 1090000000 100000000 false LastFrame
              (observe_position demo_ad (lit64 11 100) 1005000000 (lit64 1 100) demo_devices).2 = Ok e
            /\ epoch demo_ad
                 (observe_position demo_ad (lit64 11 100) 1005000000 (lit64 1 100) demo_devices).2 = Some e.
Proof.
  apply (speaking_drive_is_live demo_ad (lit64 11 100) (lit64 1 100) 1005000000 1090000000 100000000
           LastFrame demo_devices demo_device).
  - vm_compute. reflexivity.
  - reflexivity.
  - lia.
  - by left.
  - lia.
Defined.

Definition demo_identity (u : Z) : IdentityObservation := mkIdentity 0 demo_ad 1010000000 0 [u].

Lemma replies_follow_request_witness :
  exists i, OIdentity i ∈ [near; OIdentity (demo_identity 5)] /\ id_address i = demo_ad /\ id_uid i = [5].
Proof.
  destruct (replies_follow_request [near; OIdentity (demo_identity 5)]
              (run [OIdentity (demo_identity 4)] demo_devices) demo_ad) as [H _].
  - apply run_inbox, run_inbox, new_devices_inbox.
  - apply H. vm_compute. reflexivity.
Defined.

End Physical.
