(* ===== verification/Lifecycle.v ===== *)
(** * Lifecycle: the state of the safety supervisor and how it stops

    The mutable half of [src/crates/davout/src/lib.rs] with
    [src/crates/davout/src/burst.rs] and the episode state of
    [src/crates/davout/src/drive_loss.rs]: the whole supervisor record, the
    reporting synchronization, the all-address stop, [disable_all], and the
    classification of runtime errors into latched faults.

    [Admission.Supervisor] holds the fields command admission works on; [Sup]
    adds the bus, the reference authority and devices, reporting, the enable
    session, feedback tracking and the drive-loss episode.  The pending
    reference acquisition and its commits are seen through the interface
    [ReferenceWork]; [observed] holds what [observe_reference_commits] and
    [observe_staged_reference] find, which may only be that pending commits or
    the retained stage have gone stale.  The reference backend is the physical one; the
    simulation's [end] hook is not part of this model.  [display] renders an error
    ([to_string]).  A backend call that panics counts as a failed write. *)

From Stdlib Require Import ZArith Lia Bool.
From stdpp Require Import base gmap strings list.
From S2P Require Import Prelude Float Comm Config Params Mit Bus Reporting Faults Davout Filter Admission Authority Physical.

Module Lifecycle.
Import Mit Bus Faults Davout Admission.

(** ** Burst pacing ([burst.rs]) *)

Definition BURST_GROUP_SPACING : Z := 2000000.

Abbreviation BurstPacer := (gmap string Z).

Definition record_group (itf : string) (p : BurstPacer) (c : clock) : BurstPacer * clock :=
  let '(t, c) := now c in (<[itf := t]> p, c).

Definition begin_group (itf : string) (p : BurstPacer) (c : clock) : BurstPacer * clock :=
  let c :=
    match p !! itf with
    | Some last =>
        let '(t, c) := now c in
        let wait := Z.max 0 (BURST_GROUP_SPACING - elapsed last t) in
        if wait =? 0 then c else sleep wait c
    | None => c
    end in
  record_group itf p c.

(** ** Pending reference work *)

(** Why the supervisor itself ends an acquisition: [disable_all], or a hazard
    with its message. *)
Inductive FinishCause : Type := FinishDisable | FinishHazard (message : string).

(** What the supervisor uses of [ReferenceOwner] and [CommitOwner]. *)
Class ReferenceWork (R : Type) : Type := {
  (* [reservation.is_some()] *)
  acquisition_busy : R -> bool;
  (* [reference_commits.busy()] *)
  commits_busy : R -> bool;
  (* [pending_commit.is_some()] *)
  pending_commit : R -> bool;
  (* [!reference_commits.pending.is_empty()] *)
  commits_waiting : R -> bool;
  (* [cancel_reference_commits(Disable)] *)
  cancel_commits : R -> R;
  (* [invalidate_reference_commits(SafetyHazard)] *)
  invalidate_commits : R -> R;
  (* [finish_reference] past its stop: the reservation is taken, its terminal retained *)
  retain_terminal : FinishCause -> R -> StopReport -> R;
  cancel_keeps_acquisition : forall r, acquisition_busy (cancel_commits r) = acquisition_busy r;
  cancel_ends_commits : forall r, commits_busy (cancel_commits r) = false;
  invalidate_keeps_acquisition : forall r, acquisition_busy (invalidate_commits r) = acquisition_busy r;
  terminal_ends_acquisition : forall c r rep, acquisition_busy (retain_terminal c r rep) = false
}.

(** An owner without an acquisition capability ([from_repo]): nothing is ever pending. *)
#[export] Instance NoReferenceWork : ReferenceWork unit := {
  acquisition_busy _ := false;
  commits_busy _ := false;
  pending_commit _ := false;
  commits_waiting _ := false;
  cancel_commits r := r;
  invalidate_commits r := r;
  retain_terminal _ r _ := r;
  cancel_keeps_acquisition _ := eq_refl;
  cancel_ends_commits _ := eq_refl;
  invalidate_keeps_acquisition _ := eq_refl;
  terminal_ends_acquisition _ _ _ := eq_refl
}.

(** ** State *)

(** Fields of the current enable session. *)
Record EnableSession : Type := mkSession {
  enable_echo_pending : gset MotorAddress;
  enable_writes_pending : list MotorAddress;
  enable_write_due : option Z;
  reporting_off_since : option Z;
  reporting_off_echoed : gmap MotorAddress Z
}.
Definition no_session : EnableSession := mkSession ∅ [] None None ∅.

Record FeedbackSample : Type := mkSample { s_position_rad : f64; s_received_at : Z }.
Record DriveFrameTrack : Type := mkTrack { dt_mode : Comm.DriveMode; dt_at : Z }.

(** What the feedback consumer remembers between frames. *)
Record Tracking : Type := mkTracking {
  feedback_velocity_trips : gmap string Z;
  last_feedback_samples : gmap string FeedbackSample;
  last_feedback_rx : gmap string Z;
  drive_frames : gmap MotorAddress DriveFrameTrack
}.
Definition no_tracking : Tracking := mkTracking ∅ ∅ ∅ ∅.

Record DriveRebootObservation : Type := mkReboot {
  rb_joint : string;
  rb_address : MotorAddress;
  rb_previous : Comm.DriveMode;
  rb_new : Comm.DriveMode;
  rb_silence : Z
}.

(** What outlives a session: the out-of-limits latches ([OutOfLimitsFlags]), the
    last reboot seen and the frames of the current tick. *)
Record Diagnostics : Type := mkDiag {
  out_of_limits : gset string;
  last_drive_reboot : option DriveRebootObservation;
  last_refresh_frames : Z
}.
Definition no_diagnostics : Diagnostics := mkDiag ∅ None 0.

(** Drive loss ([drive_loss.rs]); the shed addresses are [Admission.shed]. *)
Record DriveLossPlan : Type := mkPlan { plan_joint : string; plan_shed : list string }.

Record DegradedEpisode : Type := mkEpisode {
  lost_joint : string;
  shed_joints : list string;
  holding_joints : list string;
  frozen_positions : list (string * f64);
  ep_since : Z;
  ep_deadline : Z
}.

Inductive DegradedEnd : Type := LowerComplete | DeadlineEnd | StoppedEnd.

Definition end_as_str (e : DegradedEnd) : string :=
  match e with
  | LowerComplete => "lower complete"
  | DeadlineEnd => "deadline"
  | StoppedEnd => "stop"
  end.

Record DegradedOutcome : Type := mkOutcome { o_lost_joint : string; o_end : DegradedEnd; o_at : Z }.

Record DriveLossState : Type := mkLoss {
  plans : list DriveLossPlan;
  episode : option DegradedEpisode;
  outcome : option DegradedOutcome;
  pending_end : option DegradedEnd;
  lost_address : option MotorAddress;
  shed_at : option Z
}.

(** What construction installs and nothing here changes; the backend is the
    physical one, whose realm always matches its own bus. *)
Record Installed : Type := mkInstalled {
  robot : Config.RobotSection;
  homing_config : Config.HomingSection;
  installed_model : Authority.InstalledModelStamp;
  backend_realm : option Z
}.

Section Supervisor.
Context {B : Type} `{CanBus B} {R : Type} `{ReferenceWork R}.

Record Sup : Type := mkSup {
  adm : Admission.Supervisor;
  installed : Installed;
  hardware_estop : bool;
  stop_motors : list Config.MotorEntry;
  authority : Authority.ReferenceAuthority;
  physical : Physical.PhysicalDevices;
  rwork : R;
  reporting : Reporting.ActiveReportingState;
  session : EnableSession;
  session_pacer : BurstPacer;
  tracking : Tracking;
  loss : DriveLossState;
  exit_reporting_released : bool;
  diag : Diagnostics;
  bus : B;
  hostclock : clock
}.

Definition set_adm (x : Admission.Supervisor) (s : Sup) : Sup :=
  mkSup x (installed s) (hardware_estop s) (stop_motors s) (authority s) (physical s) (rwork s) (reporting s)
    (session s) (session_pacer s) (tracking s) (loss s) (exit_reporting_released s) (diag s) (bus s) (hostclock s).
Definition set_authority (x : Authority.ReferenceAuthority) (s : Sup) : Sup :=
  mkSup (adm s) (installed s) (hardware_estop s) (stop_motors s) x (physical s) (rwork s) (reporting s)
    (session s) (session_pacer s) (tracking s) (loss s) (exit_reporting_released s) (diag s) (bus s) (hostclock s).
Definition set_physical (x : Physical.PhysicalDevices) (s : Sup) : Sup :=
  mkSup (adm s) (installed s) (hardware_estop s) (stop_motors s) (authority s) x (rwork s) (reporting s)
    (session s) (session_pacer s) (tracking s) (loss s) (exit_reporting_released s) (diag s) (bus s) (hostclock s).
Definition set_rwork (x : R) (s : Sup) : Sup :=
  mkSup (adm s) (installed s) (hardware_estop s) (stop_motors s) (authority s) (physical s) x (reporting s)
    (session s) (session_pacer s) (tracking s) (loss s) (exit_reporting_released s) (diag s) (bus s) (hostclock s).
Definition set_session (x : EnableSession) (s : Sup) : Sup :=
  mkSup (adm s) (installed s) (hardware_estop s) (stop_motors s) (authority s) (physical s) (rwork s) (reporting s)
    x (session_pacer s) (tracking s) (loss s) (exit_reporting_released s) (diag s) (bus s) (hostclock s).
Definition set_tracking (x : Tracking) (s : Sup) : Sup :=
  mkSup (adm s) (installed s) (hardware_estop s) (stop_motors s) (authority s) (physical s) (rwork s) (reporting s)
    (session s) (session_pacer s) x (loss s) (exit_reporting_released s) (diag s) (bus s) (hostclock s).
Definition set_loss (x : DriveLossState) (s : Sup) : Sup :=
  mkSup (adm s) (installed s) (hardware_estop s) (stop_motors s) (authority s) (physical s) (rwork s) (reporting s)
    (session s) (session_pacer s) (tracking s) x (exit_reporting_released s) (diag s) (bus s) (hostclock s).
Definition set_estop (x : bool) (s : Sup) : Sup :=
  mkSup (adm s) (installed s) x (stop_motors s) (authority s) (physical s) (rwork s) (reporting s)
    (session s) (session_pacer s) (tracking s) (loss s) (exit_reporting_released s) (diag s) (bus s) (hostclock s).
Definition set_clock (x : clock) (s : Sup) : Sup :=
  mkSup (adm s) (installed s) (hardware_estop s) (stop_motors s) (authority s) (physical s) (rwork s) (reporting s)
    (session s) (session_pacer s) (tracking s) (loss s) (exit_reporting_released s) (diag s) (bus s) x.
Definition set_bus (x : B) (s : Sup) : Sup :=
  mkSup (adm s) (installed s) (hardware_estop s) (stop_motors s) (authority s) (physical s) (rwork s) (reporting s)
    (session s) (session_pacer s) (tracking s) (loss s) (exit_reporting_released s) (diag s) x (hostclock s).
Definition set_reporting (x : Reporting.ActiveReportingState) (s : Sup) : Sup :=
  mkSup (adm s) (installed s) (hardware_estop s) (stop_motors s) (authority s) (physical s) (rwork s) x
    (session s) (session_pacer s) (tracking s) (loss s) (exit_reporting_released s) (diag s) (bus s) (hostclock s).
Definition set_pacer (x : BurstPacer) (s : Sup) : Sup :=
  mkSup (adm s) (installed s) (hardware_estop s) (stop_motors s) (authority s) (physical s) (rwork s) (reporting s)
    (session s) x (tracking s) (loss s) (exit_reporting_released s) (diag s) (bus s) (hostclock s).
Definition set_diag (x : Diagnostics) (s : Sup) : Sup :=
  mkSup (adm s) (installed s) (hardware_estop s) (stop_motors s) (authority s) (physical s) (rwork s) (reporting s)
    (session s) (session_pacer s) (tracking s) (loss s) (exit_reporting_released s) x (bus s) (hostclock s).

(** [Instant::now()]. *)
Definition tick (s : Sup) : Z * Sup := let '(t, c) := now (hostclock s) in (t, set_clock c s).

(** Fields of [adm] that change here. *)
Definition with_faults (f : FaultAuthority) (a : Admission.Supervisor) : Admission.Supervisor :=
  mkSupervisor (mode a) (sv_control_mode a) f (sv_limits a) (motors a) (motor_addresses a)
    (sv_control a) (motor_states a) (active_since a) (set_zero_on_wire a) (invalid_feedback a)
    (sv_last_tau_ff a) (total_torque_clamps a) (envelope_clamps a) (sv_wrong_sign_state a)
    (last_tick a) (active_joints a) (unanswered_solicits a) (shed a).

(** The session fields a stop resets. *)
Definition stopped (a : Admission.Supervisor) : Admission.Supervisor :=
  mkSupervisor Disabled CDisabled (fault_authority a) (sv_limits a) (motors a) (motor_addresses a)
    (sv_control a) (motor_states a) None (set_zero_on_wire a) (invalid_feedback a)
    ∅ (total_torque_clamps a) (envelope_clamps a) ∅ None ∅ (unanswered_solicits a) (shed a).

Definition with_control_mode (m : ControlMode) (a : Admission.Supervisor) : Admission.Supervisor :=
  mkSupervisor (mode a) m (fault_authority a) (sv_limits a) (motors a) (motor_addresses a)
    (sv_control a) (motor_states a) (active_since a) (set_zero_on_wire a) (invalid_feedback a)
    (sv_last_tau_ff a) (total_torque_clamps a) (envelope_clamps a) (sv_wrong_sign_state a)
    (last_tick a) (active_joints a) (unanswered_solicits a) (shed a).

Definition has_latched_fault (s : Sup) : bool := is_latched (fault_authority (adm s)).

(** [self.fault_authority.record(..)], which reads the clock itself. *)
Definition record_fault (c : FaultClass) (j : option string) (a : option MotorAddress) (m : string)
  (d : DeviceFaultEvidence) (s : Sup) : bool * Sup :=
  let '(t, s) := tick s in
  let '(first, f) := record (fault_authority (adm s)) c j a m d t in
  (first, set_adm (with_faults f (adm s)) s).

(** ** Reference work seen by the supervisor *)

(** What [observe_reference_commits] and [observe_staged_reference] make of the
    work, and the number of clock readings they take. *)
Record Observer : Type := mkObserver {
  commits_observed :> Sup -> R * nat;
  stage_observed : Sup -> R * nat
}.

Variable observed : Observer.

Definition observe (s : Sup) : Sup :=
  set_clock (skip (observed s).2 (hostclock s)) (set_rwork (observed s).1 s).
Definition observe_stage (s : Sup) : Sup :=
  set_clock (skip (stage_observed observed s).2 (hostclock s)) (set_rwork (stage_observed observed s).1 s).

Definition reference_busy (s : Sup) : bool * Sup :=
  let s := observe s in
  (acquisition_busy (rwork s) || commits_busy (rwork s), s).

Definition reference_work_pending (s : Sup) : bool :=
  acquisition_busy (rwork s) || commits_waiting (rwork s) || pending_commit (rwork s).

(** When this gate window last wrote the type-24 Off of [j]. *)
Definition reporting_off_written (s : Sup) (j : string) : option Z :=
  since ← reporting_off_since (session s);
  written ← Reporting.off_written_at (reporting s) !! j;
  if since <=? written then Some written else None.

(** ** Silence *)

Definition silence_from (s : Sup) (j : string) (a : MotorAddress) : Physical.SilenceFrom :=
  if negb (bool_decide (mode (adm s) = Active)) || negb (bool_decide (j ∈ active_joints (adm s)))
  then Physical.LastFrame
  else
    match (if bool_decide (a ∈ enable_echo_pending (session s)) then enable_bounds_start (adm s) a
           else None) with
    | Some since => Physical.Withheld since
    | None => Physical.Solicited (unanswered_solicit (adm s) a)
    end.

Definition carry_one (s : Sup) (stop_at : Z) (m : Config.MotorEntry) (p : Physical.PhysicalDevices)
  : Physical.PhysicalDevices :=
  if negb (bool_decide (Config.joint m ∈ active_joints (adm s))) then p
  else
    let a := address_of_motor m in
    match silence_from s (Config.joint m) a with
    | Physical.LastFrame => p
    | Physical.Withheld since => Physical.count_silence_from a since p
    | Physical.Solicited o => Physical.count_silence_from a (default stop_at o) p
    end.

Definition carry_session_silence (stop_at : Z) (s : Sup) : Sup :=
  set_physical (fold_left (fun p m => carry_one s stop_at m p) (stop_motors s) (physical s)) s.

(** ** Reporting synchronization *)

(** Joints whose type-24 write is withheld. *)
Definition held_joints (s : Sup) (t : Z) : list string :=
  (Config.joint <$> filter (fun m => set_zero_blackout_possible (adm s) (address_of_motor m) t = true)
    (motors (adm s)))
  ++ (Config.joint <$> filter (fun m => is_shed (adm s) (address_of_motor m) = true) (motors (adm s))).

Definition owe_deferred (s : Sup) (deferred : list string) (p : Physical.PhysicalDevices)
  : Physical.PhysicalDevices :=
  fold_left (fun p j =>
    match find_first (fun m => bool_decide (Config.joint m = j)) (motors (adm s)) with
    | None => p
    | Some m =>
        let a := address_of_motor m in
        if is_shed (adm s) a then p
        else match set_zero_quiet_until (adm s) a with
             | Some until => Physical.owe_reporting_on a until p
             | None => p
             end
    end) deferred p.

Definition owed_fate (ms : list Config.MotorEntry) (r : Reporting.ActiveReportingState)
  (mode_active global : bool) (t : Z) (a : MotorAddress) : Physical.OwedOn :=
  match find_first (Filter.is_motor_address a) ms with
  | None => Physical.Released
  | Some m =>
      let j := Config.joint m in
      if Reporting.applied_on r j then Physical.Written (default t (Reporting.last_enable_tx r !! j))
      else if Reporting.desired r j mode_active global t then Physical.Owed
      else Physical.Released
  end.

Definition sync_active_reporting (s : Sup) : Sup :=
  let '(busy, s) := reference_busy s in
  if busy || exit_reporting_released s then s
  else
    let mode_active := bool_decide (mode (adm s) = Active) in
    let global := Config.active_reporting_diagnostics (sv_control (adm s)) in
    let '(t, s) := tick s in
    let '(deferred, r, bus') :=
      Reporting.sync_holding (reporting s) (bus s) (motors (adm s)) mode_active global t
        (last_feedback_rx (tracking s)) (held_joints s t) in
    let s := set_reporting r (set_bus bus' s) in
    let p := owe_deferred s deferred (physical s) in
    set_physical
      (Physical.settle_owed_reporting_ons (owed_fate (motors (adm s)) r mode_active global t) p) s.

(** ** The all-address stop *)

Definition error_of (r : result BusError unit) : option BusError :=
  match r with
  | Ok _ => None
  | Err e => Some e
  | Panic => Some (Driver (msg "backend panicked"))
  end.

Definition neutral_wire (m : Config.MotorEntry) : MitCommand :=
  mkMitCommand (Config.device_id m) (Config.motor_type m) fzero fzero fzero fzero fzero.

(** The frames of one installed drive. *)
Definition stop_drive (is_shed : bool) (m : Config.MotorEntry) (b : B) : list StopAttempt * B :=
  let a := address_of_motor m in
  if is_shed then
    let '(r, b) := disable_drive_at b a in ([mkAttempt a DisableDrive (error_of r)], b)
  else
    let '(r1, b) := speed_control_at b a fzero in
    let '(r2, b) := mit_control_all_at b [mkAddressed a (neutral_wire m)] in
    let '(r3, b) := disable_drive_at b a in
    ([mkAttempt a ZeroSpeed (error_of r1); mkAttempt a NeutralMit (error_of r2);
      mkAttempt a DisableDrive (error_of r3)], b).

Fixpoint stop_drives (sv : Admission.Supervisor) (ms : list Config.MotorEntry)
  (pacer : option BurstPacer) (b : B) (c : clock)
  : list StopAttempt * option BurstPacer * B * clock :=
  match ms with
  | [] => ([], pacer, b, c)
  | m :: rest =>
      let '(pacer, c) :=
        match pacer with
        | Some p => let '(p, c) := begin_group (Config.can_interface m) p c in (Some p, c)
        | None => (None, c)
        end in
      let '(done, b) := stop_drive (is_shed sv (address_of_motor m)) m b in
      let '(tail, pacer, b, c) := stop_drives sv rest pacer b c in
      (done ++ tail, pacer, b, c)
  end.

Definition end_degraded_episode_on_stop (s : Sup) : Sup :=
  let l := loss s in
  let ending := default StoppedEnd (pending_end l) in
  match episode l with
  | None => set_loss (mkLoss (plans l) None (outcome l) None (lost_address l) (shed_at l)) s
  | Some ep =>
      let s := set_loss (mkLoss (plans l) None (outcome l) None (lost_address l) (shed_at l)) s in
      let '(_, s) :=
        record_fault FCommunication (Some (lost_joint ep)) (lost_address l)
          ("drive lost; degraded episode ended (" +:+ end_as_str ending +:+ "); restart required")
          device_default s in
      let '(t, s) := tick s in
      set_loss (mkLoss (plans l) None (Some (mkOutcome (lost_joint ep) ending t)) None
                  (lost_address l) (shed_at l)) s
  end.

Definition perform_stop_paced (synchronize_reporting : bool) (pacer : option BurstPacer) (s : Sup)
  : StopReport * option BurstPacer * Sup :=
  let s := if has_latched_fault s then set_authority (Authority.revoke (authority s)) s else s in
  let s := if bool_decide (mode (adm s) = Active)
           then let '(t, s) := tick s in carry_session_silence t s else s in
  let '(gen, f) := begin_stop (fault_authority (adm s)) in
  let s := set_adm (with_faults f (adm s)) s in
  let '(done, pacer, b, c) := stop_drives (adm s) (stop_motors s) pacer (bus s) (hostclock s) in
  let s := set_bus b (set_clock c s) in
  let report := mkStopReport gen done in
  let s := set_tracking no_tracking (set_session no_session (set_adm (stopped (adm s)) s)) in
  let s := if synchronize_reporting then sync_active_reporting s else s in
  let s := if (0 <? failed_writes report)%nat then
             let s := set_authority (Authority.revoke (authority s)) s in
             (record_fault FStopDelivery None None
                "one or more stop writes failed; physical stop unconfirmed" device_default s).2
           else s in
  let s := end_degraded_episode_on_stop s in
  let s := set_adm (with_faults (set_stop_report (fault_authority (adm s)) report) (adm s)) s in
  (report, pacer, s).

Definition perform_stop (synchronize_reporting : bool) (s : Sup) : StopReport * Sup :=
  let '(report, _, s) := perform_stop_paced synchronize_reporting None s in (report, s).

(** [finish_reference] for a cancelled or failed acquisition: no evidence was
    accepted, so the stop is not paced. *)
Definition finish_cancelled (cause : FinishCause) (s : Sup) : StopReport * Sup :=
  let '(report, s) := perform_stop false s in
  let '(t, s) := tick s in
  let s := set_physical (Physical.mark_owner_work t (physical s)) s in
  (report, set_rwork (retain_terminal cause (rwork s) report) s).

Definition stop_result (report : StopReport) : result DavoutError unit :=
  if (0 <? failed_writes report)%nat then Err (EStopDelivery (failed_writes report)) else Ok tt.

Definition disable_all (s : Sup) : result DavoutError unit * Sup :=
  let s := set_rwork (cancel_commits (rwork s)) s in
  if acquisition_busy (rwork s)
  then let '(report, s) := finish_cancelled FinishDisable s in (stop_result report, s)
  else let '(report, s) := perform_stop true s in (stop_result report, s).

Definition abort_reference_for_hazard (message : string) (s : Sup) : Sup :=
  let s := set_rwork (invalidate_commits (rwork s)) s in
  if acquisition_busy (rwork s) then (finish_cancelled (FinishHazard message) s).2 else (perform_stop false s).2.

(** ** Runtime errors *)

Variable display : DavoutError -> string.

(** The fault class and joint of an error, or [None] when it latches nothing. *)
Definition classify_bus_error (ms : list Config.MotorEntry) (e : BusError)
  : option (FaultClass * option string) :=
  match e with
  | Send _ _ | Driver _ | InterfaceOwned _ | ReceiveIncomplete _ => Some (FTransport, None)
  | InvalidCommand _ | CommandAddressMismatch _ _ | DuplicateMotorAddress _ _ | DuplicateCommand _
  | UnknownMotorAddress _ _ | UnknownJoint _ => Some (FController, None)
  | MalformedFeedbackError a _ =>
      Some (FFeedback, Config.joint <$> find_first (fun m => bool_decide (address_of_motor m = a)) ms)
  | RecvTimeout => None
  end.

(** Within its enable bounds, a missing pose is refused but not latched. *)
Definition in_bootstrap (j : string) (s : Sup) : bool * Sup :=
  match m ← Config.motor_for_joint (motors (adm s)) j; enable_bounds_start (adm s) (address_of_motor m) with
  | Some start =>
      let '(t, s) := tick s in
      (elapsed start t <=? from_millis (Config.comm_watchdog_ms (sv_control (adm s))), s)
  | None => (false, s)
  end.

Definition classify_error (ms : list Config.MotorEntry) (e : DavoutError)
  : option (FaultClass * option string) :=
  match e with
  | EInvalidFeedback j _ | ELimit j _ => Some (FFeedback, Some j)
  | ECommWatchdog _ j _ _ _ => Some (FCommunication, Some j)
  | EMotorFault j _ => Some (FDevice, Some j)
  | EWrongSignWatchdog j _ => Some (FWrongSign, Some j)
  | EDangerZone _ j => Some (FDangerZone, Some j)
  | EBus b => classify_bus_error ms b
  | _ => None
  end.

Definition record_runtime_error (e : DavoutError) (s : Sup) : bool * Sup :=
  let '(excused, s) := match e with ECommWatchdog _ j _ _ _ => in_bootstrap j s | _ => (false, s) end in
  match (if excused then None else classify_error (motors (adm s)) e) with
  | None => (false, s)
  | Some (class, j) =>
      let a := address_of_motor <$> (j ≫= Config.motor_for_joint (motors (adm s))) in
      record_fault class j a (display e) device_default s
  end.

Definition stop_after_runtime_error (e : DavoutError) (s : Sup) : Sup :=
  let '(first, s) := record_runtime_error e s in
  if first then (disable_all s).2 else s.

Definition latch_control_fault (m : string) (j : option string) (s : Sup) : Sup :=
  let a := address_of_motor <$> (j ≫= Config.motor_for_joint (motors (adm s))) in
  let '(first, s) :=
    record_fault FController (if a is Some _ then j else None) a m device_default s in
  if first then
    let '(busy, s) := reference_busy s in
    if busy then abort_reference_for_hazard m s else (disable_all s).2
  else s.

Definition set_hardware_estop (asserted : bool) (s : Sup) : Sup :=
  let was := hardware_estop s in
  let s := set_estop asserted s in
  if asserted then
    let '(_, s) :=
      record_fault FHardwareEstop None None
        "hardware E-stop input asserted; releasing input is not qualified recovery" device_default s in
    if negb was then
      let '(busy, s) := reference_busy s in
      if busy then abort_reference_for_hazard "hardware E-stop input asserted" s else (disable_all s).2
    else s
  else s.

Definition set_control_mode (m : ControlMode) (s : Sup) : Sup :=
  let '(busy, s) := reference_busy s in
  if busy then s else set_adm (with_control_mode m (adm s)) s.

End Supervisor.
Arguments Sup : clear implicits.
Arguments Observer : clear implicits.
Arguments mkObserver {B R}.

(** Without pending commits there is nothing to observe. *)
Definition nothing_observed {B R : Type} : Observer B R :=
  mkObserver (fun s => (rwork s, 0%nat)) (fun s => (rwork s, 0%nat)).

End Lifecycle.
