(* ===== verification/Stop.v ===== *)
(** * Stop: every stop reaches every drive and leaves nothing running

    Theorems about the stop path of [Lifecycle]: what a stop writes on the bus,
    whatever the backend answers; the state it leaves; and that an emergency stop
    or a classified runtime error ends in that state with the fault latched and
    no joint permitted.

    [Reporting.Spy] is a backend that also records each attempted write with its
    outcome. *)

From Stdlib Require Import ZArith Lia Bool.
From stdpp Require Import base gmap strings list.
From S2P Require Import Prelude Float Comm Config Params Mit Bus Reporting Faults Davout Filter Admission Authority Physical Lifecycle.

Module Stop.
Import Mit Params Bus Faults Davout Admission Lifecycle.

(** ** The frames of a stop *)

Definition ext_frame (f : frame) : CanFrame := mkCanFrame f.1 f.2 true.
Definition zero_speed_frame (m : Config.MotorEntry) : CanFrame :=
  match encode_speed_ref (Config.device_id m) fzero with Ok f => ext_frame f | _ => mkCanFrame 0 [] false end.
Definition neutral_frame (m : Config.MotorEntry) : CanFrame :=
  match encode_mit (neutral_wire m) with Ok f => ext_frame f | _ => mkCanFrame 0 [] false end.
Definition disable_frame (m : Config.MotorEntry) : CanFrame :=
  ext_frame (Comm.encode_default_disable (Config.device_id m)).

Definition delivered (e : option BusError) : bool := bool_decide (e = None).

(** What a stop reports ([done]) and attempts on the wire ([l]) for one drive. *)
Definition drive_stopped (is_shed : bool) (m : Config.MotorEntry)
  (done : list StopAttempt) (l : list Reporting.attempt) : Prop :=
  let a := address_of_motor m in
  if is_shed then
    exists e, done = [mkAttempt a DisableDrive e] /\ l = [(a, disable_frame m, delivered e)]
  else
    exists e1 e2 e3 mid,
      done = [mkAttempt a ZeroSpeed e1; mkAttempt a NeutralMit e2; mkAttempt a DisableDrive e3]
      /\ l = (a, zero_speed_frame m, delivered e1) :: mid ++ [(a, disable_frame m, delivered e3)]
      /\ (mid = [(a, neutral_frame m, delivered e2)] \/ (mid = [] /\ e2 <> None)).

Fixpoint drives_stopped (sv : Admission.Supervisor) (ms : list Config.MotorEntry)
  (done : list StopAttempt) (l : list Reporting.attempt) : Prop :=
  match ms with
  | [] => done = [] /\ l = []
  | m :: rest =>
      exists d1 l1 d2 l2, done = d1 ++ d2 /\ l = l1 ++ l2
        /\ drive_stopped (is_shed sv (address_of_motor m)) m d1 l1 /\ drives_stopped sv rest d2 l2
  end.

Lemma drives_stopped_ext (sv sv' : Admission.Supervisor) (ms : list Config.MotorEntry) done l :
  shed sv = shed sv' -> drives_stopped sv ms done l -> drives_stopped sv' ms done l.
Proof.
  intros Hs. revert done l. induction ms as [|m ms IH]; intros done l; cbn [drives_stopped]; [auto|].
  intros (d1 & l1 & d2 & l2 & ? & ? & D1 & D2). exists d1, l1, d2, l2.
  unfold is_shed in *. rewrite <- Hs. auto.
Qed.

(** A type-24 command to a configured drive. *)
Definition reporting_write (ms : list Config.MotorEntry) (w : Reporting.attempt) : Prop :=
  exists m on ok, In m ms /\ w = (address_of_motor m, Reporting.reporting_frame m on, ok).

Lemma zero_speed_encodes (m : Config.MotorEntry) :
  exists f, encode_speed_ref (Config.device_id m) fzero = Ok f.
Proof. eexists. reflexivity. Qed.

Lemma neutral_encodes (m : Config.MotorEntry) :
  exists f, encode_mit (neutral_wire m) = Ok f /\ mit_validate (neutral_wire m) = Ok tt.
Proof.
  unfold neutral_wire. destruct (Config.motor_type m); eexists;
    (split; [lazy -[Comm.pack_typed_ext_id]; reflexivity|reflexivity]).
Qed.

Section Wire.
Context {B0 : Type} `{CanBus B0} {R : Type} `{ReferenceWork R}.
Abbreviation B := (Reporting.Spy B0).
Variable observed : Observer B R.

Lemma spy_send (b : B) (a : MotorAddress) (f : frame) :
  exists r b', send_encoded_frame_to b a f = (r, b')
    /\ Reporting.attempts b' = Reporting.attempts b ++ [(a, ext_frame f, delivered (error_of r))].
Proof.
  unfold send_encoded_frame_to. cbn [send_frame_to Reporting.Spy_CanBus].
  destruct (send_frame_to (Reporting.spied b) a _) as [r b']. exists r, (Reporting.mkSpy b' (Reporting.attempts b ++ [(a, ext_frame f, delivered (error_of r))])).
  split; [|reflexivity]. destruct r; reflexivity.
Qed.

Lemma neutral_send (b : B) (m : Config.MotorEntry) :
  exists r b' mid,
    mit_control_all_at b [mkAddressed (address_of_motor m) (neutral_wire m)] = (r, b')
    /\ Reporting.attempts b' = Reporting.attempts b ++ mid
    /\ (mid = [(address_of_motor m, neutral_frame m, delivered (error_of r))]
        \/ (mid = [] /\ error_of r <> None)).
Proof.
  destruct (neutral_encodes m) as (f & Hf & Hv).
  unfold mit_control_all_at. cbn [validate_batch send_batch existsb command Bus.address].
  rewrite Hv. cbn [map_err rbind].
  assert (Hid : (mc_device_id (neutral_wire m) =? device (address_of_motor m)) = true) by apply Z.eqb_refl.
  rewrite Hid. cbn [negb refuse_if rbind].
  destruct (validate_address b (address_of_motor m)) as [[]|e|] eqn:Ev; cbn [rbind].
  - rewrite Hf. cbn [map_err].
    destruct (spy_send b (address_of_motor m) f) as (r & b' & Es & Ha). rewrite Es.
    exists r, b', [(address_of_motor m, ext_frame f, delivered (error_of r))].
    split; [destruct r as [[]| |]; reflexivity|]. split; [exact Ha|].
    left. unfold neutral_frame. by rewrite Hf.
  - exists (Err e), b, []. split; [reflexivity|]. rewrite app_nil_r. split; [reflexivity|right; by split].
  - exists Panic, b, []. split; [reflexivity|]. rewrite app_nil_r. split; [reflexivity|right; by split].
Qed.

Lemma stop_drive_trace (shed : bool) (m : Config.MotorEntry) (b : B) :
  exists done b' l, stop_drive shed m b = (done, b')
    /\ Reporting.attempts b' = Reporting.attempts b ++ l /\ drive_stopped shed m done l.
Proof.
  unfold stop_drive, drive_stopped, disable_drive_at, disable_frame. destruct shed.
  - destruct (spy_send b (address_of_motor m) (Comm.encode_default_disable (device (address_of_motor m))))
      as (r & b' & Es & Ha). rewrite Es. eexists _, b', _. split; [reflexivity|]. split; [exact Ha|].
    exists (error_of r). auto.
  - unfold speed_control_at, send_checked, zero_speed_frame.
    destruct (zero_speed_encodes m) as (f & Hf). rewrite Hf.
    change (device (address_of_motor m)) with (Config.device_id m). rewrite Hf. cbn [map_err].
    destruct (spy_send b (address_of_motor m) f) as (r1 & b1 & E1 & A1). rewrite E1.
    destruct (neutral_send b1 m) as (r2 & b2 & mid & E2 & A2 & Hmid). rewrite E2.
    destruct (spy_send b2 (address_of_motor m) (Comm.encode_default_disable (Config.device_id m)))
      as (r3 & b3 & E3 & A3). rewrite E3.
    eexists _, b3, ((_, ext_frame f, delivered (error_of r1)) :: mid ++ [_]). split; [reflexivity|].
    split; [rewrite A3, A2, A1, <- !app_assoc; reflexivity|].
    exists (error_of r1), (error_of r2), (error_of r3), mid. auto.
Qed.

Lemma stop_drives_trace (sv : Admission.Supervisor) (ms : list Config.MotorEntry) :
  forall pacer (b : B) c, exists done pacer' b' c' l,
    stop_drives sv ms pacer b c = (done, pacer', b', c')
    /\ Reporting.attempts b' = Reporting.attempts b ++ l /\ drives_stopped sv ms done l.
Proof.
  induction ms as [|m ms IH]; intros pacer b c; cbn [stop_drives drives_stopped].
  - exists [], pacer, b, c, []. rewrite app_nil_r. auto.
  - destruct (match pacer with Some p => _ | None => _ end) as [pacer1 c1].
    destruct (stop_drive_trace (is_shed sv (address_of_motor m)) m b) as (d1 & b1 & l1 & E1 & A1 & D1).
    rewrite E1. destruct (IH pacer1 b1 c1) as (d2 & p2 & b2 & c2 & l2 & E2 & A2 & D2). rewrite E2.
    exists (d1 ++ d2), p2, b2, c2, (l1 ++ l2). split; [reflexivity|].
    split; [by rewrite A2, A1, app_assoc|]. exists d1, l1, d2, l2. auto.
Qed.

Lemma wsteps_reporting (ms : list Config.MotorEntry) (p : bool) (t : Z) s l s' :
  Reporting.wsteps ms p t s l s' -> Forall (reporting_write ms) l.
Proof.
  induction 1 as [|s s1 s' m on ok l Hm _ _ _ IH]; constructor; [|exact IH].
  by exists m, on, ok.
Qed.

Lemma sync_trace (s : Sup B R) :
  exists l, Reporting.attempts (bus (sync_active_reporting observed s)) = Reporting.attempts (bus s) ++ l
            /\ Forall (reporting_write (motors (adm s))) l.
Proof.
  unfold sync_active_reporting, reference_busy, observe.
  destruct (_ || exit_reporting_released _); [exists []; rewrite app_nil_r; auto|].
  unfold tick. cbn [hostclock set_clock set_rwork].
  destruct (now (skip (observed s).2 (hostclock s))) as [t c].
  unfold Reporting.sync_holding. cbn [bus set_clock set_rwork].
  destruct (bus s) as [b0 l0] eqn:Eb.
  match goal with |- context [Reporting.sync_write_all ?st (Reporting.mkSpy b0 l0) ?ms ?held t ?due] =>
    destruct (Reporting.sync_write_all_steps ms held t due st b0 l0) as (df & s' & b1 & atts & E & W) end.
  cbn [adm set_clock set_rwork reporting tracking] in *.
  rewrite E. cbn. exists atts. split; [reflexivity|].
  eapply wsteps_reporting, W.
Qed.

Lemma record_fault_bus c j a m d (s : Sup B R) : bus (record_fault c j a m d s).2 = bus s.
Proof.
  unfold record_fault, tick. destruct (now (hostclock s)) as [t k].
  destruct (record _ _ _ _ _ _ _). reflexivity.
Qed.

Lemma end_episode_bus (s : Sup B R) : bus (end_degraded_episode_on_stop s) = bus s.
Proof.
  unfold end_degraded_episode_on_stop. destruct (episode (loss s)) as [ep|]; [|reflexivity].
  destruct (record_fault _ _ _ _ _ _) as [b1 s1] eqn:E. unfold tick.
  destruct (now (hostclock s1)). cbn [bus set_loss set_clock].
  change s1 with (b1, s1).2. rewrite <- E, record_fault_bus. reflexivity.
Qed.

(** A stop whose report shows no failed write was accepted by every drive. *)
Lemma drives_stopped_accepted (sv : Admission.Supervisor) (ms : list Config.MotorEntry) done l :
  drives_stopped sv ms done l -> Forall (fun a => at_error a = None) done ->
  Forall (fun w => w.2 = true) l
  /\ forall m, In m ms -> (address_of_motor m, disable_frame m, true) ∈ l.
Proof.
  revert done l. induction ms as [|m ms IH]; cbn [drives_stopped]; intros done l.
  { intros [-> ->] _. split; [constructor|contradiction]. }
  intros (d1 & l1 & d2 & l2 & -> & -> & D1 & D2) [F1 F2]%Forall_app.
  destruct (IH _ _ D2 F2) as [IH1 IH2].
  assert (H1 : Forall (fun w => w.2 = true) l1 /\ (address_of_motor m, disable_frame m, true) ∈ l1).
  { unfold drive_stopped in D1. destruct (is_shed sv (address_of_motor m)).
    - destruct D1 as (e & -> & ->). rewrite list.Forall_singleton in F1. cbn [at_error] in F1.
      rewrite F1. split; [repeat constructor|left].
    - destruct D1 as (e1 & e2 & e3 & mid & -> & -> & Hmid).
      rewrite !Forall_cons in F1. cbn [at_error] in F1. destruct F1 as (-> & -> & -> & _).
      destruct Hmid as [->|[_ Hne]]; [|contradiction].
      split; [repeat constructor|]. right. right. left. }
  destruct H1 as [H1 H2]. split; [by apply Forall_app|].
  intros m' [<-|Hm']; apply elem_of_app; auto.
Qed.

Lemma no_failed_writes (r : StopReport) :
  failed_writes r = 0%nat -> Forall (fun a => at_error a = None) (Faults.attempts r).
Proof.
  unfold failed_writes. intros Hz%length_zero_iff_nil. apply Forall_forall. intros x Hx.
  destruct (at_error x) as [e|] eqn:E; [|reflexivity].
  assert (Hin : x ∈ filter (fun a => is_Some (at_error a)) (Faults.attempts r))
    by (apply list_elem_of_filter; split; [rewrite E; eauto|exact Hx]).
  rewrite Hz in Hin. by apply not_elem_of_nil in Hin.
Qed.

(** C4: every stop reaches every installed drive.  Whatever the backend answers,
    the stop attempts, for each installed motor in turn, zero speed, a neutral
    MIT command and Disable (a shed drive gets Disable only); no failed write
    cuts it short, the report lists each attempt with its outcome, and nothing
    else is written except, when reporting is synchronized, type-24
    commands to configured drives.  A report without failures means that every
    drive's Disable was accepted. *)
Theorem stop_reaches_every_drive (sync : bool) (pacer : option BurstPacer) (s : Sup B R) :
  let '(report, _, s') := perform_stop_paced observed sync pacer s in
  exists l rest,
    Reporting.attempts (bus s') = Reporting.attempts (bus s) ++ l ++ rest
    /\ drives_stopped (adm s) (stop_motors s) (Faults.attempts report) l
    /\ Forall (reporting_write (motors (adm s))) rest /\ (sync = false -> rest = [])
    /\ (failed_writes report = 0%nat ->
        forall m, In m (stop_motors s) -> (address_of_motor m, disable_frame m, true) ∈ l).
Proof.
  unfold perform_stop_paced.
  set (s1 := if has_latched_fault s then _ else s).
  set (s2 := if bool_decide (mode (adm s1) = Active) then _ else s1).
  assert (Hs : adm s2 = adm s /\ bus s2 = bus s /\ stop_motors s2 = stop_motors s).
  { unfold s2, s1, tick. destruct (has_latched_fault s); cbn [adm set_authority hostclock];
      destruct (bool_decide _); cbn; destruct (now (hostclock s)); auto. }
  destruct Hs as (Ha & Hb & Hm).
  destruct (begin_stop _) as [gen f]. cbn [adm set_adm bus stop_motors hostclock].
  destruct (stop_drives_trace (with_faults f (adm s2)) (stop_motors s2) pacer (bus s2) (hostclock s2))
    as (done & pacer' & b' & c' & l & E & A & D).
  rewrite E, Ha, Hm in *. rewrite Hb in A.
  assert (D' : drives_stopped (adm s) (stop_motors s) done l)
    by (revert D; by apply drives_stopped_ext).
  set (s3 := set_tracking _ _).
  set (s4 := if sync then _ else s3).
  assert (Hr : exists rest, Reporting.attempts (bus s4) = Reporting.attempts (bus s) ++ l ++ rest
            /\ Forall (reporting_write (motors (adm s))) rest /\ (sync = false -> rest = [])).
  { unfold s4. destruct sync.
    - destruct (sync_trace s3) as (rest & Hrest & Hf). exists rest.
      split; [rewrite Hrest; cbn [bus s3 set_tracking set_session set_adm set_bus]; by rewrite A, app_assoc|].
      split; [exact Hf|discriminate].
    - exists []. rewrite app_nil_r. split; [exact A|auto]. }
  destruct Hr as (rest & Hrest & Hf & Hn). cbn [set_adm bus]. rewrite end_episode_bus.
  exists l, rest. cbn [Faults.attempts]. split.
  { destruct (0 <? failed_writes _)%nat; [rewrite record_fault_bus|]; exact Hrest. }
  split; [exact D'|split; [exact Hf|split; [exact Hn|]]].
  intros Hz%no_failed_writes. exact (proj2 (drives_stopped_accepted _ _ _ _ D' Hz)).
Qed.

End Wire.

(** ** The state a stop leaves *)

(** Nothing of the session survives. *)
Record halted {B R : Type} (s : Sup B R) : Prop := {
  h_mode : mode (adm s) = Disabled;
  h_control : sv_control_mode (adm s) = CDisabled;
  h_since : active_since (adm s) = None;
  h_joints : active_joints (adm s) = ∅;
  h_limiter : sv_last_tau_ff (adm s) = ∅ /\ sv_wrong_sign_state (adm s) = ∅ /\ last_tick (adm s) = None;
  h_session : session s = no_session;
  h_tracking : tracking s = no_tracking;
  h_episode : episode (loss s) = None /\ pending_end (loss s) = None
}.

(** No joint may be commanded. *)
Definition no_permission {B R : Type} (s : Sup B R) : Prop :=
  forall j, Authority.contains j (authority s) = false.

(** What the end of an episode retains: the lost joint and why it ended. *)
Definition episode_retained {B R : Type} (s s' : Sup B R) : Prop :=
  forall ep, episode (loss s) = Some ep ->
  has_latched_fault s' = true
  /\ exists t, outcome (loss s')
       = Some (mkOutcome (lost_joint ep) (default StoppedEnd (pending_end (loss s))) t).

(** What every caller of the stop relies on. *)
Definition stops {B R : Type} (s s' : Sup B R) : Prop :=
  halted s' /\ (has_latched_fault s = true -> has_latched_fault s' = true /\ no_permission s')
  /\ episode_retained s s'.

Section State.
Context {B : Type} `{CanBus B} {R : Type} `{ReferenceWork R}.
Variable observed : Observer B R.
Variable display : DavoutError -> string.

Lemma record_latched (a : FaultAuthority) c j ad m d t : is_latched (record a c j ad m d t).2 = true.
Proof.
  unfold record, is_latched. destruct (update_first _ _ _) as [fs|] eqn:E; cbn.
  - destruct (faults a) as [|x l]; [discriminate|]. cbn in E.
    destruct (same_hazard c ad x); [injection E as <-; reflexivity|].
    destruct (update_first _ _ l); [injection E as <-; reflexivity|discriminate].
  - by destruct (faults a).
Qed.

Lemma record_first (a : FaultAuthority) c j ad m d t :
  (record a c j ad m d t).1 = negb (is_latched a).
Proof.
  unfold record. destruct (update_first _ _ _) as [fs|] eqn:E; cbn; [|reflexivity].
  unfold is_latched. by destruct (faults a).
Qed.

(** A fault record changes the fault authority and the clock, nothing else. *)
Lemma record_fault_spec c j ad m d (s : Sup B R) :
  exists f k, record_fault c j ad m d s
    = (negb (has_latched_fault s), set_adm (with_faults f (adm s)) (set_clock k s))
    /\ is_latched f = true.
Proof.
  unfold record_fault, tick. destruct (now (hostclock s)) as [t k]. cbn [adm set_clock].
  pose proof (record_first (fault_authority (adm s)) c j ad m d t) as H1.
  pose proof (record_latched (fault_authority (adm s)) c j ad m d t) as H2.
  destruct (record _ c j ad m d t) as [first f]. cbn in H1, H2. exists f, k. by subst.
Qed.

(** Reporting synchronization leaves these fields alone. *)
Lemma sync_frame (s : Sup B R) :
  let s' := sync_active_reporting observed s in
  adm s' = adm s /\ session s' = session s /\ tracking s' = tracking s /\ loss s' = loss s
  /\ authority s' = authority s /\ stop_motors s' = stop_motors s.
Proof.
  unfold sync_active_reporting, reference_busy, observe, tick.
  destruct (_ || exit_reporting_released _); [auto 10|]. cbn [hostclock set_clock set_rwork].
  destruct (now (skip _ _)). destruct (Reporting.sync_holding _ _ _ _ _ _ _ _) as [[df r] b].
  auto 10.
Qed.

Lemma end_episode_spec (s : Sup B R) :
  exists f k o, end_degraded_episode_on_stop s
    = set_loss (mkLoss (plans (loss s)) None o None (lost_address (loss s)) (shed_at (loss s)))
        (set_adm (with_faults f (adm s)) (set_clock k s))
    /\ (has_latched_fault s = true \/ episode (loss s) <> None -> is_latched f = true)
    /\ (forall ep, episode (loss s) = Some ep -> exists t,
          o = Some (mkOutcome (lost_joint ep) (default StoppedEnd (pending_end (loss s))) t)).
Proof.
  unfold end_degraded_episode_on_stop. destruct (episode (loss s)) as [ep|].
  - match goal with |- context [record_fault ?c ?j ?a ?m ?d ?x] =>
      destruct (record_fault_spec c j a m d x) as (f & k & E & Hl) end.
    rewrite E. unfold tick. cbn [hostclock set_adm set_clock].
    destruct (now k) as [t k']. exists f, k', (Some (mkOutcome (lost_joint ep) (default StoppedEnd (pending_end (loss s))) t)).
    split; [reflexivity|]. split; [auto|]. intros ep' [= <-]. eauto.
  - exists (fault_authority (adm s)), (hostclock s), (outcome (loss s)).
    split; [by destruct s as [[]]|]. split; [|discriminate]. intros [Hl|[]]; [exact Hl|reflexivity].
Qed.

Lemma revoke_revokes (a : Authority.ReferenceAuthority) : Authority.revoked (Authority.revoke a) = true.
Proof. unfold Authority.revoke. destruct (Authority.revoked a) eqn:E; [exact E|reflexivity]. Qed.

Lemma no_permission_revoked (s : Sup B R) : Authority.revoked (authority s) = true -> no_permission s.
Proof. intros Hr j. by apply Authority.contains_revoked. Qed.

(** Up to the reporting synchronization. *)
Lemma stop_first_half (pacer : option BurstPacer) (s : Sup B R) :
  exists done pacer' b c p f,
    let a := if has_latched_fault s then Authority.revoke (authority s) else authority s in
    is_latched f = has_latched_fault s
    /\ stop_generation f = sat_add_u64 (stop_generation (fault_authority (adm s))) 1
    /\ forall sync, exists s3,
    perform_stop_paced observed sync pacer s
    = (let report := mkStopReport (sat_add_u64 (stop_generation (fault_authority (adm s))) 1) done in
       let s4 := if sync then sync_active_reporting observed s3 else s3 in
       let s5 := if (0 <? failed_writes report)%nat then
             (record_fault FStopDelivery None None
                "one or more stop writes failed; physical stop unconfirmed" device_default
                (set_authority (Authority.revoke (authority s4)) s4)).2
           else s4 in
       let s6 := end_degraded_episode_on_stop s5 in
       (report, pacer', set_adm (with_faults (set_stop_report (fault_authority (adm s6)) report) (adm s6)) s6))
    /\ s3 = mkSup (stopped (with_faults f (adm s))) (installed s) (hardware_estop s) (stop_motors s) a p (rwork s)
              (reporting s) no_session (session_pacer s) no_tracking (loss s)
              (exit_reporting_released s) (diag s) b c.
Proof.
  unfold perform_stop_paced.
  set (s1 := if has_latched_fault s then _ else s).
  set (s2 := if bool_decide (mode (adm s1) = Active) then _ else s1).
  assert (Hs : exists p k, s2 = mkSup (adm s) (installed s) (hardware_estop s) (stop_motors s)
      (if has_latched_fault s then Authority.revoke (authority s) else authority s) p (rwork s)
      (reporting s) (session s) (session_pacer s) (tracking s) (loss s) (exit_reporting_released s) (diag s)
      (bus s) k).
  { unfold s2, s1, tick. destruct (has_latched_fault s); cbn [adm set_authority hostclock];
      destruct (bool_decide _); cbn; destruct (now (hostclock s)); try (eexists _, _; reflexivity);
      exists (physical s), (hostclock s); by destruct s. }
  destruct Hs as (p & k & ->). cbn [adm set_adm bus stop_motors hostclock begin_stop].
  destruct (stop_drives _ _ _ _ _) as [[[done pacer'] b] c].
  eexists done, pacer', b, c, p, _.
  split; [|split; [|intros sync; eexists; split; [reflexivity|reflexivity]]]; reflexivity.
Qed.

Lemma perform_stop_spec (sync : bool) (pacer : option BurstPacer) (s : Sup B R) :
  let '(report, _, s') := perform_stop_paced observed sync pacer s in
  halted s'
  /\ (has_latched_fault s = true \/ failed_writes report <> 0%nat ->
      has_latched_fault s' = true /\ no_permission s')
  /\ episode_retained s s'
  /\ last_stop (fault_authority (adm s')) = Some report
  /\ stop_motors s' = stop_motors s.
Proof.
  destruct (stop_first_half pacer s) as (done & pacer' & b & c & p & f & Hf & _ & Hrun).
  destruct (Hrun sync) as (s3 & -> & Hs3). cbn zeta.
  set (report := mkStopReport _ done).
  set (s4 := if sync then sync_active_reporting observed s3 else s3).
  assert (H4 : adm s4 = adm s3 /\ session s4 = session s3 /\ tracking s4 = tracking s3
               /\ loss s4 = loss s3 /\ authority s4 = authority s3 /\ stop_motors s4 = stop_motors s3).
  { unfold s4. destruct sync; [apply (sync_frame s3)|auto 10]. }
  destruct H4 as (Ha4 & Hs4 & Ht4 & Hl4 & Hau4 & Hm4).
  set (s5 := if (0 <? failed_writes report)%nat then _ else s4).
  assert (H5 : exists f5, adm s5 = with_faults f5 (adm s3) /\ session s5 = no_session
      /\ tracking s5 = no_tracking /\ loss s5 = loss s /\ stop_motors s5 = stop_motors s
      /\ (has_latched_fault s = true \/ failed_writes report <> 0%nat ->
          is_latched f5 = true /\ Authority.revoked (authority s5) = true)).
  { unfold s5. destruct (Nat.ltb_spec 0 (failed_writes report)) as [Hlt|Hge].
    - match goal with |- context [record_fault ?c ?j ?a ?m ?d ?x] =>
        destruct (record_fault_spec c j a m d x) as (f5 & k5 & E & Hl5) end.
      rewrite E. exists f5. cbn. rewrite Ha4, Hs4, Ht4, Hl4, Hm4, Hs3. cbn.
      repeat (split; [reflexivity|]). intros _. split; [exact Hl5|apply revoke_revokes].
    - assert (Hz : failed_writes report = 0%nat) by lia.
      exists (fault_authority (adm s3)). rewrite Ha4, Hs4, Ht4, Hl4, Hm4, Hau4, Hs3. cbn.
      repeat (split; [reflexivity|]). intros [Hl|Hn]; [|contradiction (Hn Hz)].
      rewrite Hf, Hl. split; [reflexivity|apply revoke_revokes]. }
  destruct H5 as (f5 & Ha5 & Hs5 & Ht5 & Hl5 & Hm5 & Hlat).
  destruct (end_episode_spec s5) as (f6 & k6 & o6 & -> & Hl6 & Ho6).
  rewrite Hl5 in Hl6, Ho6. assert (Hf5 : has_latched_fault s5 = is_latched f5)
    by (unfold has_latched_fault; rewrite Ha5; reflexivity).
  rewrite Hf5 in Hl6.
  split; [split; cbn; rewrite ?Ha5, ?Hl5, ?Hs5, ?Ht5, ?Hs3; auto|].
  split; [|split; [intros ep He; split; [cbn; apply Hl6; right; congruence|exact (Ho6 ep He)]|split; [reflexivity|exact Hm5]]].
  intros Hc. destruct (Hlat Hc) as [Hlt Hrev]. split; [cbn; apply Hl6; auto|].
  apply no_permission_revoked. exact Hrev.
Qed.

(** a stop leaves nothing running.  Whatever the bus answers, the supervisor
    ends Disabled with no active joint, no enable in flight, no limiter or
    watchdog history and no degraded episode; a fault latched before it, or a
    write that failed in it, leaves the fault latched and no joint
    permitted; an episode it cut short is latched. *)
Theorem stop_leaves_halted (sync : bool) (pacer : option BurstPacer) (s : Sup B R) :
  let '(report, _, s') := perform_stop_paced observed sync pacer s in
  halted s'
  /\ (has_latched_fault s = true \/ failed_writes report <> 0%nat ->
      has_latched_fault s' = true /\ no_permission s')
  /\ episode_retained s s'
  /\ last_stop (fault_authority (adm s')) = Some report.
Proof.
  pose proof (perform_stop_spec sync pacer s) as Hp.
  destruct (perform_stop_paced observed sync pacer s) as [[report pacer'] s']. tauto.
Qed.

(** ** Callers of the stop *)

Lemma perform_stop_halts (sync : bool) (s : Sup B R) :
  let s' := (perform_stop observed sync s).2 in
  stops s s'.
Proof.
  unfold perform_stop. pose proof (perform_stop_spec sync None s) as Hp.
  destruct (perform_stop_paced observed sync None s) as [[report pacer'] s'].
  unfold stops. cbn. tauto.
Qed.

Lemma finish_cancelled_halts (cause : FinishCause) (s : Sup B R) :
  let s' := (finish_cancelled observed cause s).2 in
  stops s s'.
Proof.
  unfold finish_cancelled. pose proof (perform_stop_halts false s) as [Hh Hl].
  destruct (perform_stop observed false s) as [report s1]. cbn in Hh, Hl. unfold tick.
  destruct (now (hostclock s1)). split; [destruct Hh; split; auto|exact Hl].
Qed.

Lemma disable_all_halts (s : Sup B R) :
  let s' := (disable_all observed s).2 in
  stops s s'.
Proof.
  unfold disable_all. cbn [rwork set_rwork]. destruct (acquisition_busy (cancel_commits (rwork s))).
  - pose proof (finish_cancelled_halts FinishDisable (set_rwork (cancel_commits (rwork s)) s)) as Hf.
    destruct (finish_cancelled _ _ _) as [r s']. exact Hf.
  - pose proof (perform_stop_halts true (set_rwork (cancel_commits (rwork s)) s)) as Hf.
    destruct (perform_stop _ _ _) as [r s']. exact Hf.
Qed.

Lemma abort_halts (message : string) (s : Sup B R) :
  let s' := abort_reference_for_hazard observed message s in
  stops s s'.
Proof.
  unfold abort_reference_for_hazard. cbn [rwork set_rwork].
  destruct (acquisition_busy (invalidate_commits (rwork s))).
  - exact (finish_cancelled_halts (FinishHazard message) (set_rwork (invalidate_commits (rwork s)) s)).
  - exact (perform_stop_halts false (set_rwork (invalidate_commits (rwork s)) s)).
Qed.

(** [disable_all], or the abort of reference work that is in progress. *)
Lemma hazard_stop_halts (message : string) (s : Sup B R) :
  let '(busy, s1) := reference_busy observed s in
  let s' := if busy then abort_reference_for_hazard observed message s1 else (disable_all observed s1).2 in
  stops s s'.
Proof.
  unfold reference_busy. destruct (_ || _);
    [exact (abort_halts message (observe observed s))|exact (disable_all_halts (observe observed s))].
Qed.

(** the emergency stop input always ends in a stop.  Asserting it from released
    leaves the supervisor halted, the fault latched and no joint permitted,
    whether or not reference work is in progress; releasing it recovers nothing. *)
Theorem estop_halts (s : Sup B R) :
  hardware_estop s = false ->
  let s1 := set_hardware_estop observed true s in
  let s2 := set_hardware_estop observed false s1 in
  halted s1 /\ has_latched_fault s1 = true /\ no_permission s1
  /\ halted s2 /\ has_latched_fault s2 = true /\ no_permission s2.
Proof.
  intros He. unfold set_hardware_estop at 1 2. rewrite He. cbn [negb].
  match goal with |- context [record_fault ?c ?j ?a ?m ?d ?x] =>
    destruct (record_fault_spec c j a m d x) as (f & k & E & Hl) end. rewrite E.
  set (s0 := set_adm _ _). pose proof (hazard_stop_halts "hardware E-stop input asserted" s0) as Hh.
  destruct (reference_busy observed s0) as [busy s1].
  set (s' := if busy then _ else _) in *. destruct Hh as (Hh & Hlat & _).
  destruct (Hlat Hl) as [H1 H2]. cbn. repeat (split; [assumption|]).
  split; [destruct Hh; split; auto|]. split; [exact H1|exact H2].
Qed.

Lemma in_bootstrap_adm (j : string) (s : Sup B R) : adm (in_bootstrap j s).2 = adm s.
Proof.
  unfold in_bootstrap. destruct (_ ≫= _) as [start|]; [|reflexivity].
  unfold tick. by destruct (now (hostclock s)).
Qed.

(** a runtime error that is classified as a fault fails closed: it is latched, and
    if it is the first one the supervisor is halted and no joint is permitted.
    Only a watchdog lapse inside the enable bootstrap is excused. *)
Theorem runtime_error_halts (e : DavoutError) (s : Sup B R) (c : FaultClass) (j : option string) :
  classify_error (motors (adm s)) e = Some (c, j) ->
  (forall ms jn itf id age, e = ECommWatchdog ms jn itf id age -> (in_bootstrap jn s).1 = false) ->
  let s' := stop_after_runtime_error observed display e s in
  has_latched_fault s' = true /\ (has_latched_fault s = false -> halted s' /\ no_permission s').
Proof.
  intros Hc Hb. unfold stop_after_runtime_error, record_runtime_error.
  set (g := match e with ECommWatchdog _ _ _ _ _ => _ | _ => _ end).
  assert (Hg : g.1 = false /\ adm g.2 = adm s).
  { unfold g. destruct e; auto. split; [exact (Hb _ _ _ _ _ eq_refl)|apply in_bootstrap_adm]. }
  destruct g as [excused s1]. cbn in Hg. destruct Hg as [-> Hg]. rewrite Hg, Hc.
  match goal with |- context [record_fault ?c ?j ?a ?m ?d ?x] =>
    destruct (record_fault_spec c j a m d x) as (f & k & E & Hl) end. rewrite E.
  unfold has_latched_fault in *. rewrite Hg. destruct (is_latched (fault_authority (adm s))).
  - cbn. split; [exact Hl|discriminate].
  - cbn [negb]. set (s0 := set_adm _ _).
    destruct (disable_all_halts s0) as (Hh & Hlat & _). destruct (Hlat Hl) as [H1 H2]. auto.
Qed.

(** The controller's own failures, too. *)
Lemma control_fault_halts (m : string) (j : option string) (s : Sup B R) :
  has_latched_fault s = false ->
  let s' := latch_control_fault observed m j s in
  halted s' /\ has_latched_fault s' = true /\ no_permission s'.
Proof.
  intros Hn. unfold latch_control_fault.
  match goal with |- context [record_fault ?c ?j ?a ?m ?d ?x] =>
    destruct (record_fault_spec c j a m d x) as (f & k & E & Hl) end. rewrite E, Hn. cbn [negb].
  set (s0 := set_adm _ _). pose proof (hazard_stop_halts m s0) as Hh.
  destruct (reference_busy observed s0) as [busy s1]. destruct Hh as (Hh & Hlat & _).
  destruct (Hlat Hl). auto.
Qed.

End State.

(** ** The bench session stopped *)

Definition bench_loss : DriveLossState := mkLoss [] None None None None None.

Definition bench_policy : Authority.TypedPolicy :=
  Authority.mkPolicy [Filter.bench_motor] (Authority.demo_homing (lit64 1 100)) Filter.bench_control.

Definition bench_installed : Installed :=
  mkInstalled Filter.bench_robot (Authority.demo_homing (lit64 1 100)) (Authority.mkStamp 1 3) (Some 7).

(** The admitted single-joint session of [Admission], on a recording in-memory bus. *)
Definition bench_sup : Sup (Reporting.Spy MemoryBus) unit :=
  mkSup Admission.bench_session bench_installed false [Filter.bench_motor]
    (Authority.initial_virtual 7 {["right_shoulder_pitch"%string]} bench_policy)
    (Physical.new_devices [(Admission.bench_address, Physical.demo_bounds)]) tt
    Reporting.reporting_default no_session ∅ no_tracking bench_loss false no_diagnostics
    (Reporting.mkSpy (mkMemoryBus [] []) []) Admission.bench_clock.

(** Its stop writes zero speed, neutral MIT, Disable. *)
Example bench_stop_frames :
  map (fun w => (w.1.1, w.2)) (Reporting.attempts (bus (perform_stop nothing_observed false bench_sup).2))
  = [(Admission.bench_address, true); (Admission.bench_address, true); (Admission.bench_address, true)].
Proof. vm_compute. reflexivity. Qed.

Lemma estop_halts_witness :
  halted (set_hardware_estop nothing_observed true bench_sup)
  /\ no_permission (set_hardware_estop nothing_observed true bench_sup).
Proof.
  destruct (estop_halts nothing_observed bench_sup eq_refl) as (H1 & _ & H2 & _).
  split; [exact H1|exact H2].
Defined.

Lemma runtime_error_halts_witness :
  let s' := stop_after_runtime_error nothing_observed (fun _ => "motor fault"%string)
              (EMotorFault "right_shoulder_pitch" 4) bench_sup in
  has_latched_fault bench_sup = false /\ halted s' /\ no_permission s'.
Proof.
  assert (Hn : has_latched_fault bench_sup = false) by reflexivity.
  destruct (runtime_error_halts nothing_observed (fun _ => "motor fault"%string)
              (EMotorFault "right_shoulder_pitch" 4) bench_sup FDevice (Some "right_shoulder_pitch"%string)
              eq_refl) as [_ Hs]; [discriminate|].
  split; [exact Hn|exact (Hs Hn)].
Defined.

End Stop.
