(* ===== verification/Session.v ===== *)
(** * Session: grants, drive loss and the sending of a batch

    The Active half of the supervisor: [reference_binding_valid_with] and the
    [ensure_reference_*] family, [write_mit_wires] and
    [admit_and_send_mit_with] of [src/crates/davout/src/lib.rs], and the subtree
    shed of [src/crates/davout/src/drive_loss.rs].

    A [HashSet] is visited in the order of [elements]; only the joint an error
    message names depends on it.  The diagnostic text of log lines is left out.
    The reference backend is the physical one. *)

From Stdlib Require Import ZArith Lia Bool SpecFloat.
From stdpp Require Import base gmap strings list.
From S2P Require Import Prelude Float Comm Config Validate Limits TotalTorque Params Mit Bus Reporting Faults Davout Filter Admission Authority Physical Lifecycle.

Module Session.
Import Mit Bus Faults Davout TotalTorque Filter Admission Lifecycle.

(** ** [Duration::try_from_secs_f64] *)

(** [n / d] rounded to nearest, ties to even; [d > 0]. *)
Definition div_half_even (n d : Z) : Z :=
  let q := n / d in
  let r := n mod d in
  if 2 * r <? d then q else if d <? 2 * r then q + 1 else if Z.even q then q else q + 1.

Definition try_from_secs_f64 (x : f64) : option Z :=
  match x with
  | S754_zero _ => Some 0
  | S754_infinity _ | S754_nan => None
  | S754_finite true _ _ => None
  | S754_finite false m e =>
      let n := Zpos m * 1000000000 in
      let ns := if 0 <=? e then n * 2 ^ e else div_half_even n (2 ^ (- e)) in
      if ns / 1000000000 <=? U64_MAX then Some ns else None
  end.

Definition DURATION_MAX : Z := U64_MAX * 1000000000 + 999999999.
Definition duration_checked_add (a b : Z) : option Z :=
  if a + b <=? DURATION_MAX then Some (a + b) else None.

Inductive Liveness : Type := Judge | Defer.

Section Session.
Context {B : Type} `{CanBus B} {R : Type} `{ReferenceWork R}.
Variable observed : Observer B R.
Variable display : DavoutError -> string.

Abbreviation M A := (A * Sup B R)%type.

(** ** Reference grants *)

Definition has_backend (s : Sup B R) : bool := bool_decide (is_Some (backend_realm (installed s))).

Definition owner_busy (s : Sup B R) : bool :=
  acquisition_busy (rwork s) || commits_busy (rwork s) || pending_commit (rwork s).

Definition revoke_all (s : Sup B R) : Sup B R := set_authority (Authority.revoke (authority s)) s.

Definition lapse_eqb (a b : result Physical.Lapse Z) : bool :=
  match a, b with
  | Ok x, Ok y => x =? y
  | Err Physical.LapseSilent, Err Physical.LapseSilent => true
  | Err Physical.OwedOnUnwritten, Err Physical.OwedOnUnwritten => true
  | _, _ => false
  end.

(** The epoch the device of a binding shows now, or why it lapsed. *)
Definition binding_epoch (liveness : Liveness) (busy : bool) (b : Authority.ConsumedReferenceBinding)
  (s : Sup B R) : M (result Physical.Lapse Z) :=
  let from := silence_from s (Authority.b_joint b) (Authority.address b) in
  let judge := match liveness, from with
               | Judge, _ => true
               | Defer, Physical.Withheld _ => true
               | Defer, _ => false
               end in
  if judge then
    let '(t, s) := tick s in
    (Physical.live_epoch (Authority.address b) t
       (from_millis (Config.comm_watchdog_ms (sv_control (adm s)))) busy from (physical s), s)
  else (ok_or (Physical.epoch (Authority.address b) (physical s)) Physical.LapseSilent, s).

(** One turn of the loop over [consumed_bindings], at index [i]. *)
Definition check_binding (liveness : Liveness) (busy : bool) (i : nat) (s : Sup B R) : Sup B R :=
  match Authority.consumed (authority s) !! i with
  | None => s
  | Some b =>
      if Authority.b_revoked b then s
      else
        let '(current, s) := binding_epoch liveness busy b s in
        let identity_holds :=
          bool_decide (is_Some (Authority.uid b))
          && bool_decide (Physical.uid (Authority.address b) (physical s) = Authority.uid b) in
        if negb (lapse_eqb current (Ok (Authority.device_epoch b))) || negb identity_holds then
          if identity_holds && lapse_eqb current (Err Physical.LapseSilent)
          then set_authority (Authority.revoke_binding_silent i (authority s)) s
          else set_authority (Authority.revoke_binding i (authority s)) s
        else s
  end.

Definition check_bindings (liveness : Liveness) (busy : bool) (s : Sup B R) : Sup B R :=
  fold_left (fun s i => check_binding liveness busy i s)
    (seq 0 (length (Authority.consumed (authority s)))) s.

Definition live_policy (s : Sup B R) : Authority.TypedPolicy :=
  Authority.mkPolicy (motors (adm s)) (homing_config (installed s)) (sv_control (adm s)).

(** What a reference check observes first, and the work that leaves. *)
Definition observe_all (s : Sup B R) : Sup B R := observe observed (observe_stage observed s).
Definition checked_work (s : Sup B R) : R := (observed (observe_stage observed s)).1.

Definition reference_binding_valid_with (liveness : Liveness) (s : Sup B R) : M bool :=
  let s := observe_all s in
  if has_latched_fault s || hardware_estop s then (false, revoke_all s)
  else
    match Validate.validate_safety_config (robot (installed s)) (motors (adm s)) (sv_control (adm s))
            (homing_config (installed s)) with
    | Ok _ =>
        match Authority.realm (authority s) with
        | None => (false, s)
        | Some r =>
            if negb (bool_decide (backend_realm (installed s) = Some r)) then (false, revoke_all s)
            else if negb (Authority.validate_consumed_model (installed_model (installed s)) (authority s))
            then (false, revoke_all s)
            else
              let s := check_bindings liveness (owner_busy s) s in
              let '(ok, a) := Authority.validate_binding (live_policy s) (authority s) in
              (ok, set_authority a s)
        end
    | _ => (false, revoke_all s)
    end.

Definition active_references_held (s : Sup B R) : bool :=
  forallb (fun j => Authority.contains j (authority s)) (elements (active_joints (adm s))).

Fixpoint require_reference_permission (js : list string) (s : Sup B R) : result DavoutError unit :=
  match js with
  | [] => Ok tt
  | j :: rest =>
      if Authority.contains j (authority s) then require_reference_permission rest s
      else Err (EHoming (Msg "joint {}: no private current-reference permission" [AStr j]))
  end.

Definition ensure_reference_binding (s : Sup B R) : M (result DavoutError unit) :=
  let '(busy, s) := reference_busy observed s in
  if busy then (Err (EReferenceBusy "ordinary reference admission"), s)
  else
    match require_fault_clear (adm s) with
    | Ok _ =>
        let '(valid, s) := reference_binding_valid_with Judge s in
        if valid then (Ok tt, s)
        else
          let s := if bool_decide (mode (adm s) = Active) then (disable_all observed s).2 else s in
          (Err (EHoming (msg (if has_backend s
             then "current reference is unavailable or permanently revoked; acquire a qualified reference for each joint first"
             else "current reference is unavailable or permanently revoked; this owner has no qualified acquisition capability"))), s)
    | e => (e, s)
    end.

Definition ensure_reference_for (js : list string) (s : Sup B R) : M (result DavoutError unit) :=
  match ensure_reference_binding s with
  | (Ok _, s) => (require_reference_permission js s, s)
  | r => r
  end.

(** ** Drive loss *)

Definition refuse_during_episode (m : string) (s : Sup B R) : result DavoutError unit :=
  match episode (loss s) with
  | Some ep => Err (EDegradedEpisode (lost_joint ep) m)
  | None => Ok tt
  end.

Definition stop_ending_episode (e : DegradedEnd) (s : Sup B R) : M (result DavoutError unit) :=
  let l := loss s in
  let s := match episode l with
           | Some _ => set_loss (mkLoss (plans l) (episode l) (outcome l) (Some e) (lost_address l) (shed_at l)) s
           | None => s
           end in
  disable_all observed s.

Definition complete_degraded_lower (s : Sup B R) : M (result DavoutError unit) :=
  stop_ending_episode LowerComplete s.

Definition enforce_degraded_deadline (s : Sup B R) : M (result DavoutError unit) :=
  match episode (loss s) with
  | None => (Ok tt, s)
  | Some ep =>
      let '(t, s) := tick s in
      if ep_deadline ep <=? t
      then let s := (stop_ending_episode DeadlineEnd s).2 in (require_fault_clear (adm s), s)
      else (Ok tt, s)
  end.

Definition plan_configured (c : Config.ControlSection) (j : string) : bool :=
  match Config.hget (Config.control_joints c) j with
  | Some entry => bool_decide (Config.on_drive_loss entry = Config.ShedSubtree)
  | None => false
  end.

Definition check_plan (s : Sup B R) (p : DriveLossPlan) : result DavoutError unit :=
  refuse_if (negb (plan_configured (sv_control (adm s)) (plan_joint p)))
    (EDriveLossPlan (plan_joint p) (msg "on_drive_loss is not shed_subtree")) ;!
  refuse_if (negb (bool_decide (head (plan_shed p) = Some (plan_joint p))))
    (EDriveLossPlan (plan_joint p) (msg "shed list must start with the lost joint")) ;!
  match find_first (fun j => bool_decide (Config.motor_for_joint (motors (adm s)) j = None)) (plan_shed p) with
  | Some unknown =>
      Err (EDriveLossPlan (plan_joint p) (Msg "shed joint {} has no configured motor" [AStr unknown]))
  | None => Ok tt
  end.

Definition install_drive_loss_plans (ps : list DriveLossPlan) (s : Sup B R) : M (result DavoutError unit) :=
  match try_for_each (check_plan s) ps with
  | Ok _ =>
      let l := loss s in
      (Ok tt, set_loss (mkLoss ps (episode l) (outcome l) (pending_end l) (lost_address l) (shed_at l)) s)
  | e => (e, s)
  end.

Record ShedDecision : Type := mkDecision {
  d_lost : string;
  d_shed : list (string * MotorAddress * f64);
  d_holding : list string;
  d_since : Z;
  d_deadline : Z
}.

(** The subtree with its addresses and last admitted positions. *)
Fixpoint shed_targets (sv : Admission.Supervisor) (js : list string)
  : option (list (string * MotorAddress * f64)) :=
  match js with
  | [] => Some []
  | j :: rest =>
      m ← Config.motor_for_joint (motors sv) j;
      let a := address_of_motor m in
      st ← motor_states sv !! a;
      tail ← shed_targets sv rest;
      Some ((j, a, f64_of_f32 (ms_position_rad st)) :: tail)
  end.

(** The joints that stay, each with a current pose, and the largest distance
    one of them is from its rest position. *)
Fixpoint holding_targets (sv : Admission.Supervisor) (au : Authority.ReferenceAuthority)
  (sheds : list string) (t : Z) (ms : list Config.MotorEntry) (distance : f64)
  : option (list string * f64) :=
  match ms with
  | [] => Some ([], distance)
  | m :: rest =>
      let j := Config.joint m in
      if negb (bool_decide (j ∈ active_joints sv)) || bool_decide (j ∈ sheds)
      then holding_targets sv au sheds t rest distance
      else
        let a := address_of_motor m in
        st ← motor_states sv !! a;
        if negb (Authority.contains j au) || bool_decide (a ∈ invalid_feedback sv)
           || negb (pose_is_current sv a st t)
        then None
        else
          let trim := match Config.hget (Config.control_joints (sv_control sv)) j with
                      | Some entry => Config.position_hold_trim_rad entry
                      | None => fzero
                      end in
          let distance := fmax distance (fabs (sub64 (f64_of_f32 (ms_position_rad st)) trim)) in
          r ← holding_targets sv au sheds t rest distance;
          Some (j :: r.1, r.2)
  end.

Definition lost_joints (s : Sup B R) : list string :=
  filter (fun j => Authority.contains j (authority s) = false) (elements (active_joints (adm s))).

Definition episode_duration (c : Config.DriveLossConfig) (distance : f64) : option Z :=
  hold ← try_from_secs_f64 (Config.hold_window_s c);
  lower ← try_from_secs_f64
    (add64 (div64 distance (Config.lower_velocity_rad_s c)) (Config.lower_settle_s c));
  cap ← try_from_secs_f64 (Config.lower_max_s c);
  duration_checked_add hold (Z.min lower cap).

(** The guards of [shed_decision]: those before [reference_busy()], those after it. *)
Definition shed_guards (s : Sup B R) : bool :=
  bool_decide (mode (adm s) = Active) && negb (has_latched_fault s) && negb (hardware_estop s)
  && negb (bool_decide (is_Some (episode (loss s)))) && bool_decide (shed (adm s) = []).

Definition shed_ready (s : Sup B R) : bool :=
  bool_decide (enable_writes_pending (session s) = [])
  && bool_decide (enable_echo_pending (session s) = ∅)
  && (bool_decide (sv_control_mode (adm s) = GravityComp) || bool_decide (sv_control_mode (adm s) = CPosition)).

Definition shed_plan (s : Sup B R) : option (string * Config.DriveLossConfig * DriveLossPlan) :=
  match lost_joints s with
  | [lost] =>
      if negb (Authority.revoked_silent lost (authority s)) then None
      else
        cfg ← Config.drive_loss (sv_control (adm s));
        plan ← find_first (fun p => bool_decide (plan_joint p = lost)) (plans (loss s));
        if plan_configured (sv_control (adm s)) lost then Some (lost, cfg, plan) else None
  | _ => None
  end.

Definition shed_decision (s : Sup B R) : M (option ShedDecision) :=
  if negb (shed_guards s) then (None, s)
  else
    let '(busy, s) := reference_busy observed s in
    if busy || negb (shed_ready s) then (None, s)
    else
      match shed_plan s with
      | None => (None, s)
      | Some (lost, cfg, plan) =>
          let '(t, s) := tick s in
          (targets ← shed_targets (adm s) (plan_shed plan);
           h ← holding_targets (adm s) (authority s) (plan_shed plan) t (motors (adm s)) fzero;
           if bool_decide (h.1 = []) then None
           else
             d ← episode_duration cfg h.2;
             deadline ← instant_checked_add t d;
             Some (mkDecision lost targets h.1 t deadline), s)
      end.

Definition with_shed (l : list MotorAddress) (a : Admission.Supervisor) : Admission.Supervisor :=
  mkSupervisor (mode a) (sv_control_mode a) (fault_authority a) (sv_limits a) (motors a)
    (motor_addresses a) (sv_control a) (motor_states a) (active_since a) (set_zero_on_wire a)
    (invalid_feedback a) (sv_last_tau_ff a) (total_torque_clamps a) (envelope_clamps a)
    (sv_wrong_sign_state a) (last_tick a) (active_joints a) (unanswered_solicits a) l.

(** One Disable per shed address, stopping at the first failure. *)
Fixpoint disable_each (l : list MotorAddress) (b : B) : result BusError unit * B :=
  match l with
  | [] => (Ok tt, b)
  | a :: rest =>
      match disable_drive_at b a with
      | (Ok _, b) => disable_each rest b
      | (Err e, b) => (Err e, b)
      | (Panic, b) => (Panic, b)
      end
  end.

(** What the session forgets about one shed joint. *)
Definition drop_joint (t : string * MotorAddress * f64) (s : Sup B R) : Sup B R :=
  let '(j, a, _) := t in
  let sv := adm s in
  let tr := tracking s in
  let s := set_authority (Authority.revoke_joint j (authority s)) s in
  let s := set_tracking (mkTracking (delete j (feedback_velocity_trips tr))
                           (delete j (last_feedback_samples tr)) (last_feedback_rx tr) (drive_frames tr)) s in
  set_adm (mkSupervisor (mode sv) (sv_control_mode sv) (fault_authority sv) (sv_limits sv) (motors sv)
             (motor_addresses sv) (sv_control sv) (motor_states sv) (active_since sv) (set_zero_on_wire sv)
             (invalid_feedback sv) (delete j (sv_last_tau_ff sv)) (total_torque_clamps sv)
             (envelope_clamps sv) (delete j (sv_wrong_sign_state sv)) (last_tick sv)
             (active_joints sv ∖ {[j]}) (delete a (unanswered_solicits sv)) (shed sv)) s.

Definition begin_episode (d : ShedDecision) (s : Sup B R) : Sup B R :=
  let s := fold_left (fun s t => drop_joint t s) (d_shed d) s in
  let l := loss s in
  let lost_addr := (fun t => t.1.2) <$> find_first (fun t => bool_decide (t.1.1 = d_lost d)) (d_shed d) in
  set_loss
    (mkLoss (plans l)
       (Some (mkEpisode (d_lost d) ((fun t => t.1.1) <$> d_shed d) (d_holding d)
                ((fun t => (t.1.1, t.2)) <$> d_shed d) (d_since d) (d_deadline d)))
       (outcome l) (pending_end l) lost_addr (shed_at l)) s.

Definition shed_for_drive_loss (s : Sup B R) : M (result DavoutError bool) :=
  let '(decision, s) := shed_decision s in
  match decision with
  | None => (Ok false, s)
  | Some d =>
      let addresses := (fun t => t.1.2) <$> d_shed d in
      let l := loss s in
      let s := set_adm (with_shed (shed (adm s) ++ addresses) (adm s)) s in
      let s := set_loss (mkLoss (plans l) (episode l) (outcome l) (pending_end l) (lost_address l)
                           (Some (d_since d))) s in
      let '(r, b) := disable_each addresses (bus s) in
      let s := set_bus b s in
      match error_of r with
      | Some e =>
          let error := EBus e in
          let s := (record_runtime_error display error s).2 in
          (Err error, (disable_all observed s).2)
      | None => (Ok true, begin_episode d s)
      end
  end.

Definition ensure_reference_for_active (s : Sup B R) : M (result DavoutError bool) :=
  match ensure_reference_binding s with
  | (Ok _, s) =>
      let '(shed_r, s) :=
        if bool_decide (mode (adm s) = Active) && negb (active_references_held s)
        then shed_for_drive_loss s else (Ok false, s) in
      match shed_r with
      | Ok shed =>
          match require_reference_permission (elements (active_joints (adm s))) s with
          | Ok _ => (Ok shed, s)
          | Err e =>
              (Err e, if bool_decide (mode (adm s) = Active) then (disable_all observed s).2 else s)
          | Panic => (Panic, s)
          end
      | e => (e, s)
      end
  | (Err e, s) => (Err e, s)
  | (Panic, s) => (Panic, s)
  end.

Definition check_active_references (s : Sup B R) : M (result DavoutError unit) :=
  if negb (bool_decide (mode (adm s) = Active)) then (Ok tt, s)
  else match ensure_reference_for_active s with
       | (Ok _, s) => (Ok tt, s)
       | (Err e, s) => (Err e, s)
       | (Panic, s) => (Panic, s)
       end.

(** ** Writing a batch *)

Definition loop_period (s : Sup B R) : Z := 1000000 / Z.max 1 (Config.loop_hz (sv_control (adm s))) * 1000.

Definition reporting_off_settled (s : Sup B R) (a : MotorAddress) (t : Z) : bool :=
  match (m ← find_first (Filter.is_motor_address a) (motors (adm s));
         written ← reporting_off_written s (Config.joint m);
         echoed ← reporting_off_echoed (session s) !! a;
         Some ((written <=? echoed) && (loop_period s <=? elapsed echoed t))) with
  | Some b => b
  | None => false
  end.

Definition reporting_may_stream (s : Sup B R) (itf : string) (t : Z) : bool :=
  existsb (fun a => bool_decide (interface a = itf) && negb (reporting_off_settled s a t))
    (enable_writes_pending (session s))
  || existsb (fun m => bool_decide (Config.can_interface m = itf)
                       && Reporting.applied_on (reporting s) (Config.joint m)) (motors (adm s)).

(** The wires of the bootstrap, one by one. *)
Fixpoint write_bootstrap (t : Z) (wires : list AddressedMitCommand) (s : Sup B R)
  : M (result BusError unit) :=
  match wires with
  | [] => (Ok tt, s)
  | w :: rest =>
      let a := Bus.address w in
      if bool_decide (a ∈ enable_writes_pending (session s)) then write_bootstrap t rest s
      else
        let s := if reporting_may_stream s (interface a) t
                 then let '(p, c) := begin_group (interface a) (session_pacer s) (hostclock s) in
                      set_pacer p (set_clock c s)
                 else s in
        match mit_control_all_at (bus s) [w] with
        | (Ok _, b) => write_bootstrap t rest (set_bus b s)
        | (e, b) => (e, set_bus b s)
        end
  end.

Definition write_mit_wires (wires : list AddressedMitCommand) (s : Sup B R) : M (result BusError unit) :=
  if negb (bool_decide (mode (adm s) = Active)) || bool_decide (enable_writes_pending (session s) = [])
  then let '(r, b) := mit_control_all_at (bus s) wires in (r, set_bus b s)
  else let '(t, s) := tick s in write_bootstrap t wires s.

(** ** Admission and delivery *)

Definition with_addresses (l : list MotorAddress) (a : Admission.Supervisor) : Admission.Supervisor :=
  mkSupervisor (mode a) (sv_control_mode a) (fault_authority a) (sv_limits a) (motors a)
    l (sv_control a) (motor_states a) (active_since a) (set_zero_on_wire a)
    (invalid_feedback a) (sv_last_tau_ff a) (total_torque_clamps a) (envelope_clamps a)
    (sv_wrong_sign_state a) (last_tick a) (active_joints a) (unanswered_solicits a) (shed a).

Definition is_comm_watchdog (e : DavoutError) : bool :=
  match e with ECommWatchdog _ _ _ _ _ => true | _ => false end.

Definition stops_session (e : DavoutError) : bool :=
  match e with
  | ECommWatchdog _ _ _ _ _ | EMotorFault _ _ | EWrongSignWatchdog _ _ | EDangerZone _ _ => true
  | _ => false
  end.

Abbreviation prepared_batch := (list AddressedMitCommand * list StagedMitState)%type.

(** [scratch] after [prepare_mit_batch] was refused by the watchdog: every
    command was staged, only the final check failed. *)
Definition staged_scratch (sv : Admission.Supervisor) (supplied : option Config.MotorEntry)
  (batch : list (MitJointCommand * nat)) (c : clock) : prepared_batch :=
  match stage_batch sv supplied batch c with
  | (Ok entries, _) => ((fun e => e.1.1) <$> entries, (fun e => e.1.2) <$> entries)
  | _ => ([], [])
  end.

(** Keep the wires whose drive is not shed, with what they staged. *)
Definition drop_shed (sv : Admission.Supervisor) (p : prepared_batch) : prepared_batch :=
  let kept := filter (fun e => is_shed sv (Bus.address e.1) = false) (zip p.1 p.2) in
  (fst <$> kept, snd <$> kept).

Definition shed_after_stale_pose (p : prepared_batch) (s : Sup B R)
  : M (result DavoutError (option prepared_batch)) :=
  if negb (bool_decide (mode (adm s) = Active)) then (Ok None, s)
  else
    let '(_, s) := reference_binding_valid_with Judge s in
    if active_references_held s then (Ok None, s)
    else
      match shed_for_drive_loss s with
      | (Ok true, s) =>
          let kept := drop_shed (adm s) p in
          let '(r, c) := check_comm_watchdog (adm s) false (hostclock s) in
          let s := set_clock c s in
          match r with
          | Ok _ => (Ok (Some kept), s)
          | Err e => (Err e, stop_after_runtime_error observed display e s)
          | Panic => (Panic, s)
          end
      | (Ok false, s) => (Ok None, s)
      | (Err e, s) => (Err e, s)
      | (Panic, s) => (Panic, s)
      end.

(** Write what was admitted, then commit what was sent. *)
Definition deliver (batch_tick : Z) (p : prepared_batch) (s : Sup B R) : M (result DavoutError unit) :=
  let '(written_at, s) := tick s in
  let '(r, s) := write_mit_wires p.1 s in
  match error_of r with
  | Some e => (Err (EBus e), stop_after_runtime_error observed display (EBus e) s)
  | None => (Ok tt, set_adm (commit_batch (adm s) p.2 batch_tick written_at) s)
  end.

(** From the batch tick on: the commands are bound, the permissions hold. *)
Definition prepare_and_deliver (supplied : option Config.MotorEntry) (batch : list (MitJointCommand * nat))
  (s : Sup B R) : M (result DavoutError unit) :=
  let '(batch_tick, s) := tick s in
  let '(prep, c) := prepare_mit_batch (adm s) supplied batch (hostclock s) in
  let scratch := staged_scratch (adm s) supplied batch (hostclock s) in
  let s := set_clock c s in
  match prep with
  | Ok p => deliver batch_tick p s
  | Err e =>
      match (if is_comm_watchdog e then shed_after_stale_pose scratch s else (Ok None, s)) with
      | (Ok (Some p), s) => deliver batch_tick p s
      | (Ok None, s) =>
          (Err e, if stops_session e then stop_after_runtime_error observed display e s else s)
      | (Err e', s) => (Err e', s)
      | (Panic, s) => (Panic, s)
      end
  | Panic => (Panic, s)
  end.

Definition admit_and_send_mit_with (cmds : list MitJointCommand) (supplied : option Config.MotorEntry)
  (s : Sup B R) : M (result DavoutError unit) :=
  match enforce_degraded_deadline s with
  | (Ok _, s) =>
      match (require_fault_clear (adm s) ;!
             refuse_if (hardware_estop s) EEstop ;!
             try_for_each validate_mit_command cmds) with
      | Ok _ =>
          match ensure_reference_for_active s with
          | (Ok shed, s) =>
              let cmds := match (if shed then episode (loss s) else None) with
                          | Some ep => filter (fun c => mj_joint c ∉ shed_joints ep) cmds
                          | None => cmds
                          end in
              let s := set_adm (with_addresses (synced_addresses (motor_addresses (adm s)) (motors (adm s))) (adm s)) s in
              match bind_batch (adm s) supplied [] cmds with
              | Ok configured => prepare_and_deliver supplied (zip cmds configured) s
              | Err e => (Err e, s)
              | Panic => (Panic, s)
              end
          | (Err e, s) => (Err e, s)
          | (Panic, s) => (Panic, s)
          end
      | e => (e, s)
      end
  | r => r
  end.

Definition send_mit_joint (cmd : MitJointCommand) (motor : Config.MotorEntry) (s : Sup B R)
  : M (result DavoutError unit) :=
  admit_and_send_mit_with [cmd] (Some motor) s.

Definition send_mit_batch (cmds : list MitJointCommand) (s : Sup B R) : M (result DavoutError unit) :=
  match find_first (fun cmd => bool_decide (motor_index (adm s) (mj_joint cmd) = None)) cmds with
  | Some cmd => (Err (EUnknownJoint (mj_joint cmd)), s)
  | None => admit_and_send_mit_with cmds None s
  end.

End Session.

End Session.
