(* ===== verification/Grants.v ===== *)
(** * Grants: what an Active session may do

    Theorems about [Session]: a valid reference rests on live evidence from every
    granted drive and a failed check leaves no permission; a drive loss is
    answered by the subtree alone or by a stop; a degraded episode ends by its
    deadline; and a batch is sent only for permitted joints of a session without
    faults. *)

From Stdlib Require Import ZArith Lia Bool.
From stdpp Require Import base gmap strings list.
From S2P Require Import Prelude Float Comm Config Validate Limits TotalTorque Params Mit Bus Reporting Faults Davout Filter Admission Authority Physical Lifecycle Stop Session.

Module Grants.
Import Mit Bus Faults Davout TotalTorque Filter Admission Lifecycle Stop Session.

Section Grants.
Context {B : Type} `{CanBus B} {R : Type} `{ReferenceWork R}.
Variable observed : Observer B R.
Variable display : DavoutError -> string.

(** ** Evidence behind a grant *)

(** The device of [b] showed the bound identity and was live at the bound epoch
    at some reading of the clock. *)
Definition grounded (busy : bool) (s : Sup B R) (b : Authority.ConsumedReferenceBinding) : Prop :=
  (exists u, Authority.uid b = Some u /\ Physical.uid (Authority.address b) (physical s) = Some u)
  /\ exists t,
    Physical.live_epoch (Authority.address b) t
      (from_millis (Config.comm_watchdog_ms (sv_control (adm s)))) busy
      (silence_from s (Authority.b_joint b) (Authority.address b)) (physical s)
    = Ok (Authority.device_epoch b).

Lemma lapse_eqb_eq (a b : result Physical.Lapse Z) : lapse_eqb a b = true -> a = b.
Proof. destruct a as [x|[]|], b as [y|[]|]; cbn; try discriminate; auto. intros ->%Z.eqb_eq. reflexivity. Qed.

(** Revoking the [i]th binding changes that binding only. *)
Definition only_revokes (i : nat) (a a' : Authority.ReferenceAuthority) : Prop :=
  length (Authority.consumed a') = length (Authority.consumed a)
  /\ (forall n, n <> i -> Authority.consumed a' !! n = Authority.consumed a !! n)
  /\ (forall b, Authority.consumed a' !! i = Some b -> Authority.b_revoked b = true).

Lemma revoke_binding_only (i : nat) (a : Authority.ReferenceAuthority) :
  only_revokes i a (Authority.revoke_binding i a).
Proof.
  unfold Authority.revoke_binding, only_revokes. destruct (Authority.consumed a !! i) as [b|] eqn:E.
  - destruct (Authority.b_revoked b) eqn:Er; [rewrite E; repeat split; auto; congruence|]. cbn.
    split; [apply length_insert|]. split.
    + intros n Hn. by apply list_lookup_insert_ne.
    + intros b'. rewrite list_lookup_insert_eq by (eapply lookup_lt_Some, E). by intros [= <-].
  - rewrite E. repeat split; auto. discriminate.
Qed.

Lemma revoke_silent_only (i : nat) (a : Authority.ReferenceAuthority) :
  only_revokes i a (Authority.revoke_binding_silent i a).
Proof.
  unfold Authority.revoke_binding_silent. destruct (Authority.consumed a !! i) as [b|] eqn:E.
  - destruct (Authority.b_revoked b) eqn:Er; [apply revoke_binding_only|].
    destruct (revoke_binding_only i (Authority.with_consumed (<[i:=Authority.set_binding_silent b]>
      (Authority.consumed a)) (Authority.generation a) a)) as (H1 & H2 & H3).
    split; [rewrite H1; apply length_insert|]. split; [|exact H3].
    intros n Hn. rewrite H2 by exact Hn. by apply list_lookup_insert_ne.
  - unfold only_revokes. rewrite E. repeat split; auto. discriminate.
Qed.

(** A turn of the loop touches the authority and the clock, nothing else, and
    leaves the [i]th binding revoked or grounded. *)
Lemma check_binding_spec (busy : bool) (i : nat) (s : Sup B R) :
  exists a k, check_binding Judge busy i s = set_authority a (set_clock k s)
    /\ length (Authority.consumed a) = length (Authority.consumed (authority s))
    /\ (forall n, n <> i -> Authority.consumed a !! n = Authority.consumed (authority s) !! n)
    /\ (forall b, Authority.consumed a !! i = Some b -> Authority.b_revoked b = false -> grounded busy s b)
    /\ (Authority.authority_ok (authority s) -> Authority.authority_ok a).
Proof.
  assert (Hid : s = set_authority (authority s) (set_clock (hostclock s) s)) by by destruct s.
  unfold check_binding. destruct (Authority.consumed (authority s) !! i) as [b|] eqn:E.
  2:{ exists (authority s), (hostclock s). split; [exact Hid|]. rewrite E. split; [reflexivity|].
      split; [auto|]. split; [intros b' [=]|auto]. }
  destruct (Authority.b_revoked b) eqn:Er.
  { exists (authority s), (hostclock s). split; [exact Hid|]. rewrite E. split; [reflexivity|].
    split; [auto|]. split; [|auto]. intros b' [= <-]. congruence. }
  unfold binding_epoch, tick. destruct (now (hostclock s)) as [t k]. cbn [adm set_clock physical].
  set (current := Physical.live_epoch _ _ _ _ _ _). set (holds := _ && _).
  assert (Hrev : forall a', only_revokes i (authority s) a' ->
      (Authority.authority_ok (authority s) -> Authority.authority_ok a') ->
      exists a k', set_authority a' (set_clock k s) = set_authority a (set_clock k' s)
    /\ length (Authority.consumed a) = length (Authority.consumed (authority s))
    /\ (forall n, n <> i -> Authority.consumed a !! n = Authority.consumed (authority s) !! n)
    /\ (forall b, Authority.consumed a !! i = Some b -> Authority.b_revoked b = false -> grounded busy s b)
    /\ (Authority.authority_ok (authority s) -> Authority.authority_ok a)).
  { intros a' (H1 & H2 & H3) H4. exists a', k. split; [reflexivity|]. split; [exact H1|].
    split; [exact H2|]. split; [|exact H4]. intros b' Hb' Hr. apply H3 in Hb'. congruence. }
  destruct (negb (lapse_eqb current (Ok (Authority.device_epoch b))) || negb holds) eqn:Ev.
  - destruct (holds && _); apply Hrev; auto using revoke_binding_only, revoke_silent_only.
    + exact (Authority.exec_ok (Authority.ORevokeBindingSilent i) (authority s)).
    + exact (Authority.exec_ok (Authority.ORevokeBinding i) (authority s)).
  - bsimp. exists (authority s), k. split; [by destruct s|]. split; [reflexivity|].
    split; [auto|]. split; [|auto]. intros b' Hb' _. rewrite E in Hb'. injection Hb' as <-. unfold holds in *. bsimp.
    match goal with H : bool_decide (is_Some _) = true |- _ => apply bool_decide_eq_true in H as [u Hu] end.
    match goal with H : bool_decide (_ = _) = true |- _ => apply bool_decide_eq_true in H as Hp end.
    split; [exists u; by rewrite Hp|]. exists t. apply lapse_eqb_eq. assumption.
Qed.

(** The loop over indices [i], [i + 1], ... *)
Lemma check_bindings_from (busy : bool) (n : nat) : forall i (s s0 : Sup B R),
  (exists a k, s = set_authority a (set_clock k s0)) ->
  (i + n = length (Authority.consumed (authority s)))%nat ->
  (forall m b, (m < i)%nat -> Authority.consumed (authority s) !! m = Some b ->
     Authority.b_revoked b = false -> grounded busy s0 b) ->
  exists a k,
    fold_left (fun s i => check_binding Judge busy i s) (seq i n) s = set_authority a (set_clock k s0)
    /\ (forall m b, Authority.consumed a !! m = Some b -> Authority.b_revoked b = false -> grounded busy s0 b)
    /\ (Authority.authority_ok (authority s) -> Authority.authority_ok a).
Proof.
  induction n as [|n IH]; intros i s s0 Hs Hlen Hdone; cbn [seq fold_left].
  - destruct Hs as (a & k & ->). exists a, k. split; [reflexivity|]. split; [|auto].
    intros m b Hm. apply Hdone with m; [|exact Hm].
    apply lookup_lt_Some in Hm. cbn in Hlen. lia.
  - destruct (check_binding_spec busy i s) as (a1 & k1 & E1 & Hl & Hne & Hi & Hok1).
    destruct Hs as (a0 & k0 & ->). rewrite E1.
    destruct (IH (S i) (set_authority a1 (set_clock k1 (set_authority a0 (set_clock k0 s0)))) s0)
      as (a & k & E & Hg & Hok).
    + by exists a1, k1.
    + cbn in *. lia.
    + intros m b Hm Hb Hr. destruct (decide (m = i)) as [->|Hmi]; [exact (Hi b Hb Hr)|].
      apply Hdone with m; [lia| |exact Hr]. cbn in Hb. rewrite Hne in Hb by exact Hmi. exact Hb.
    + exists a, k. split; [exact E|]. split; [exact Hg|]. cbn in Hok. auto.
Qed.

(** The check touches the authority, the clock and the reference work, nothing
    else; a failure leaves no permission, a success rests on evidence. *)
Lemma reference_valid_spec (s : Sup B R) :
  Authority.authority_ok (authority s) ->
  exists a k, let '(ok, s') := reference_binding_valid_with observed Judge s in
  s' = set_authority a (set_clock k (set_rwork (checked_work observed s) s))
  /\ Authority.authority_ok a
  /\ (ok = false -> no_permission s')
  /\ (ok = true ->
      has_latched_fault s = false /\ hardware_estop s = false
      /\ Authority.policy_matches (live_policy s) a = true
      /\ exists busy, forall b, b ∈ Authority.consumed a ->
           Authority.b_revoked b = false -> grounded busy s b).
Proof.
  intros Hok. unfold reference_binding_valid_with.
  change (has_latched_fault (observe_all observed s)) with (has_latched_fault s).
  cbn [hardware_estop observe_all observe observe_stage set_clock set_rwork installed adm authority].
  set (s1 := observe_all observed s).
  assert (Hrev : exists a k,
      revoke_all s1 = set_authority a (set_clock k s1) /\ Authority.authority_ok a
      /\ (false = false -> no_permission (revoke_all s1)) /\ (false = true ->
        has_latched_fault s = false /\ hardware_estop s = false
        /\ Authority.policy_matches (live_policy s) a = true
        /\ exists busy, forall b, b ∈ Authority.consumed a -> Authority.b_revoked b = false -> grounded busy s b)).
  { exists (Authority.revoke (authority s1)), (hostclock s1). split; [by destruct s|].
    split; [by apply Authority.revoke_ok|]. split; [intros _; apply no_permission_revoked, revoke_revokes|discriminate]. }
  destruct (has_latched_fault s) eqn:Ef; [exact Hrev|].
  destruct (hardware_estop s) eqn:Ee; [exact Hrev|]. cbn [orb].
  destruct (Validate.validate_safety_config _ _ _ _) as [[]| |]; [|exact Hrev..].
  destruct (Authority.realm (authority s)) as [r|] eqn:Er.
  2:{ exists (authority s), (hostclock s1). split; [by destruct s|]. split; [exact Hok|].
      split; [|discriminate]. intros _ j. cbn. apply not_true_iff_false. rewrite Authority.contains_iff.
      rewrite (Authority.ok_realm _ Hok Er). set_solver. }
  destruct (negb (bool_decide _)); [exact Hrev|].
  destruct (negb (Authority.validate_consumed_model _ _)); [exact Hrev|].
  unfold check_bindings. set (busy := owner_busy s1).
  destruct (check_bindings_from busy (length (Authority.consumed (authority s))) 0 s1 s1)
    as (a & k & E & Hg & Hok').
  { exists (authority s1), (hostclock s1). by destruct s. }
  { reflexivity. }
  { intros m b Hm. lia. }
  cbn [authority] in E. change (authority s1) with (authority s). rewrite E.
  cbn [authority set_authority]. specialize (Hok' Hok).
  change (live_policy (set_authority a (set_clock k s1))) with (live_policy s).
  pose proof (Authority.validation_cases (live_policy s) a Hok') as Hv.
  pose proof (Authority.validate_binding_ok (live_policy s) a Hok') as Hvo.
  destruct (Authority.validate_binding (live_policy s) a) as [ok a']. destruct Hv as [Hf Ht].
  exists a', k. split; [reflexivity|]. split; [exact Hvo|]. split; [exact Hf|].
  intros ->. destruct (Ht eq_refl) as (-> & _ & Hm).
  repeat split; auto. exists busy. intros b Hb Hr.
  apply list_elem_of_lookup in Hb as [m Hb]. exact (Hg m b Hb Hr).
Qed.

(** a valid reference rests on evidence.  When [reference_binding_valid] accepts,
    no fault is latched, the emergency stop is released, the installed
    policy matches the bound one, and every grant still in force belongs to a
    drive that shows the bound identity and is live at the bound coordinate
    epoch.  When it refuses, no joint is permitted any more. *)
Theorem valid_reference_is_grounded (s : Sup B R) :
  Authority.authority_ok (authority s) ->
  let '(ok, s') := reference_binding_valid_with observed Judge s in
  (ok = false -> no_permission s')
  /\ (ok = true ->
      has_latched_fault s = false /\ hardware_estop s = false
      /\ Authority.policy_matches (live_policy s) (authority s') = true
      /\ exists busy, forall b, b ∈ Authority.consumed (authority s') ->
           Authority.b_revoked b = false -> grounded busy s b).
Proof.
  intros Hok. destruct (reference_valid_spec s Hok) as (a & k & Hs).
  destruct (reference_binding_valid_with observed Judge s) as [ok s']. destruct Hs as (-> & _ & Hs). exact Hs.
Qed.

(** ** Drive loss *)

(** The configuration, the enable session and the emergency stop input are the same. *)
Definition same_setup (s s' : Sup B R) : Prop :=
  motors (adm s') = motors (adm s) /\ sv_limits (adm s') = sv_limits (adm s)
  /\ sv_control (adm s') = sv_control (adm s) /\ session s' = session s
  /\ hardware_estop s' = hardware_estop s.

(** What dropping the joints [js] leaves. *)
Definition joints_dropped (js : list string) (s s' : Sup B R) : Prop :=
  active_joints (adm s') = active_joints (adm s) ∖ list_to_set js
  /\ (forall j, j ∈ js -> Authority.contains j (authority s') = false)
  /\ (forall j, j ∉ js -> Authority.contains j (authority s') = Authority.contains j (authority s))
  /\ bus s' = bus s /\ loss s' = loss s /\ mode (adm s') = mode (adm s) /\ shed (adm s') = shed (adm s)
  /\ fault_authority (adm s') = fault_authority (adm s)
  /\ same_setup s s' /\ Authority.authority_ok (authority s').

Lemma revoke_joint_nonempty (j : string) (a : Authority.ReferenceAuthority) :
  Authority.consumed a <> [] -> Authority.consumed (Authority.revoke_joint j a) <> [].
Proof.
  intros Hne. unfold Authority.revoke_joint, Authority.revoke_binding.
  destruct (Authority.find_index _ _) as [i|]; [|exact Hne].
  destruct (Authority.consumed a !! i) as [b|]; [|exact Hne].
  destruct (Authority.b_revoked b); [exact Hne|]. cbn. by rewrite Authority.insert_nil_iff.
Qed.

Lemma drop_joints_spec (l : list (string * MotorAddress * f64)) : forall s : Sup B R,
  Authority.authority_ok (authority s) -> Authority.consumed (authority s) <> [] ->
  joints_dropped ((fun t => t.1.1) <$> l) s (fold_left (fun s t => drop_joint t s) l s).
Proof.
  clear observed display. induction l as [|[[j ad] q] l IH]; intros s Hok Hne; cbn [fold_left fmap list_fmap].
  - unfold joints_dropped, same_setup. cbn. rewrite difference_empty_L. split; [reflexivity|].
    split; [|auto 20]. intros j Hj. by apply not_elem_of_nil in Hj.
  - set (s1 := drop_joint (j, ad, q) s).
    destruct (Authority.revoke_joint_local (authority s) j Hok Hne) as [Hj Hother].
    assert (Hok1 : Authority.authority_ok (authority s1))
      by exact (Authority.exec_ok (Authority.ORevokeJoint j) (authority s) Hok).
    assert (Hne1 : Authority.consumed (authority s1) <> []) by exact (revoke_joint_nonempty j _ Hne).
    destruct (IH s1 Hok1 Hne1) as (Ha & Hin & Hout & Hb & Hl & Hm & Hs & Hf & Hsame & Hok2).
    split; [rewrite Ha; cbn; set_solver|].
    assert (Hj1 : Authority.contains j (authority s1) = false) by exact Hj.
    split; [|split; [|repeat (split; [assumption|]); exact Hok2]].
    + intros k. rewrite elem_of_cons. intros [->|Hk]; [|auto].
      destruct (decide (j ∈ (fun t : string * MotorAddress * f64 => t.1.1) <$> l)) as [Hi|Hi]; [auto|].
      by rewrite Hout.
    + intros k Hk. apply not_elem_of_cons in Hk as [Hkj Hk]. rewrite Hout by exact Hk. by apply Hother.
Qed.

(** [a] is where the configuration puts the drive of [j]. *)
Definition drive_of (sv : Admission.Supervisor) (j : string) (a : MotorAddress) : Prop :=
  exists m, Config.motor_for_joint (motors sv) j = Some m /\ a = address_of_motor m.

Lemma shed_targets_joints (sv : Admission.Supervisor) (js : list string) : forall l,
  shed_targets sv js = Some l ->
  ((fun t => t.1.1) <$> l) = js /\ Forall2 (drive_of sv) js ((fun t => t.1.2) <$> l).
Proof.
  induction js as [|j js IH]; cbn [shed_targets]; intros l; [intros [= <-]; by split; [|constructor]|].
  destruct (Config.motor_for_joint _ j) as [m|] eqn:Em; cbn [mbind option_bind]; [|discriminate].
  destruct (motor_states sv !! _) as [st|]; cbn [mbind option_bind]; [|discriminate].
  destruct (shed_targets sv js) as [tail|]; cbn [mbind option_bind]; [|discriminate].
  intros [= <-]. cbn. destruct (IH tail eq_refl) as [-> Hd].
  split; [reflexivity|]. constructor; [by exists m|exact Hd].
Qed.

(** A joint that stays is active, outside the subtree and permitted. *)
Lemma holding_targets_in (sv : Admission.Supervisor) (au : Authority.ReferenceAuthority)
  (sheds : list string) (t : Z) (ms : list Config.MotorEntry) : forall d h,
  holding_targets sv au sheds t ms d = Some h ->
  forall j, j ∈ h.1 -> j ∈ active_joints sv /\ (j ∉ sheds) /\ Authority.contains j au = true.
Proof.
  induction ms as [|m ms IH]; cbn [holding_targets]; intros d h.
  - intros [= <-] j Hj. by apply not_elem_of_nil in Hj.
  - destruct (_ || bool_decide (Config.joint m ∈ sheds)) eqn:Eg; [apply IH|].
    destruct (motor_states sv !! _) as [st|]; cbn [mbind option_bind]; [|discriminate].
    destruct (_ || negb (pose_is_current _ _ _ _)) eqn:Ep; [discriminate|].
    destruct (holding_targets _ _ _ _ ms _) as [r|] eqn:Er; cbn [mbind option_bind]; [|discriminate].
    intros [= <-] j. cbn [fst]. rewrite elem_of_cons. intros [->|Hj]; [|exact (IH _ _ Er j Hj)].
    apply orb_false_iff in Eg as [Ha%negb_false_iff%bool_decide_eq_true Hs%bool_decide_eq_false].
    apply orb_false_iff in Ep as [[Hc%negb_false_iff _]%orb_false_iff _]. auto.
Qed.

Lemma div_half_even_nonneg (n d : Z) : 0 <= n -> 0 < d -> 0 <= div_half_even n d.
Proof.
  intros Hn Hd. unfold div_half_even. pose proof (Z.div_pos n d Hn Hd).
  repeat (case_match; try lia).
Qed.

Lemma try_from_secs_nonneg (x : f64) (d : Z) : try_from_secs_f64 x = Some d -> 0 <= d.
Proof.
  destruct x as [sg|sg| |sg m e]; cbn; try discriminate; [intros [= <-]; lia|].
  destruct sg; [discriminate|]. cbv zeta.
  destruct (Z.leb_spec 0 e); (destruct (_ <=? U64_MAX); [|discriminate]); intros [= <-].
  - pose proof (Z.pow_nonneg 2 e). nia.
  - apply div_half_even_nonneg; [lia|]. apply Z.pow_pos_nonneg; lia.
Qed.

(** An episode is never longer than the hold window and the lowering cap. *)
Lemma episode_duration_bound (c : Config.DriveLossConfig) (distance : f64) (d : Z) :
  episode_duration c distance = Some d ->
  exists hold cap, try_from_secs_f64 (Config.hold_window_s c) = Some hold
    /\ try_from_secs_f64 (Config.lower_max_s c) = Some cap /\ 0 <= d <= hold + cap.
Proof.
  unfold episode_duration. destruct (try_from_secs_f64 (Config.hold_window_s c)) as [hold|] eqn:E1; [|discriminate].
  cbn [mbind option_bind].
  destruct (try_from_secs_f64 (add64 _ _)) as [lower|] eqn:E2; [|discriminate]. cbn [mbind option_bind].
  destruct (try_from_secs_f64 (Config.lower_max_s c)) as [cap|] eqn:E3; [|discriminate]. cbn [mbind option_bind].
  unfold duration_checked_add. destruct (_ <=? DURATION_MAX); [|discriminate]. intros [= <-].
  apply try_from_secs_nonneg in E1 as ?, E2 as ?, E3 as ?. exists hold, cap. repeat split; lia.
Qed.

(** The decision of [shed_decision] read off the state. *)
Lemma shed_decision_spec (s : Sup B R) :
  exists r k, let s1 := set_clock k (set_rwork r s) in
  (shed_decision observed s).2 = s1
  /\ forall d, (shed_decision observed s).1 = Some d ->
     exists cfg plan hold cap,
       mode (adm s) = Active /\ has_latched_fault s = false /\ hardware_estop s = false
       /\ episode (loss s) = None
       /\ Config.drive_loss (sv_control (adm s)) = Some cfg
       /\ plan ∈ plans (loss s) /\ plan_joint plan = d_lost d
       /\ lost_joints s = [d_lost d] /\ Authority.revoked_silent (d_lost d) (authority s) = true
       /\ ((fun t => t.1.1) <$> d_shed d) = plan_shed plan
       /\ Forall2 (drive_of (adm s)) (plan_shed plan) ((fun t => t.1.2) <$> d_shed d)
       /\ shed (adm s) = []
       /\ d_holding d <> []
       /\ (forall j, j ∈ d_holding d ->
             j ∈ active_joints (adm s) /\ (j ∉ plan_shed plan) /\ Authority.contains j (authority s) = true)
       /\ try_from_secs_f64 (Config.hold_window_s cfg) = Some hold
       /\ try_from_secs_f64 (Config.lower_max_s cfg) = Some cap
       /\ d_since d <= d_deadline d <= d_since d + hold + cap.
Proof.
  assert (Hid : s = set_clock (hostclock s) (set_rwork (rwork s) s)) by by destruct s.
  unfold shed_decision, reference_busy, tick. destruct (shed_guards s) eqn:Eg; cbn [negb].
  2:{ exists (rwork s), (hostclock s). split; [exact Hid|discriminate]. }
  destruct (_ || negb (shed_ready _));
    [exists (observed s).1, (hostclock (observe observed s)); split; [by destruct s|discriminate]|].
  change (shed_plan (observe observed s)) with (shed_plan s).
  destruct (shed_plan s) as [[[lost cfg] plan]|] eqn:Ep;
    [|exists (observed s).1, (hostclock (observe observed s)); split; [by destruct s|discriminate]].
  destruct (now (hostclock (observe observed s))) as [t k]. exists (observed s).1, k.
  split; [reflexivity|]. cbn [fst adm authority observe set_clock set_rwork]. intros d.
  destruct (shed_targets _ _) as [targets|] eqn:Et; cbn [mbind option_bind]; [|discriminate].
  destruct (holding_targets _ _ _ _ _ _) as [[hs dist]|] eqn:Eh; cbn [mbind option_bind fst snd]; [|discriminate].
  case_bool_decide as Hne; [discriminate|].
  destruct (episode_duration cfg dist) as [dur|] eqn:Ed; cbn [mbind option_bind]; [|discriminate].
  unfold instant_checked_add. destruct (_ <? INSTANT_LIMIT); cbn [mbind option_bind]; [|discriminate].
  intros [= <-]. cbn [d_lost d_shed d_holding d_since d_deadline].
  destruct (episode_duration_bound _ _ _ Ed) as (hold & cap & H1 & H2 & H3).
  exists cfg, plan, hold, cap. unfold shed_guards in Eg. bsimp.
  unfold shed_plan in Ep. destruct (lost_joints s) as [|lost' [|]] eqn:El; try discriminate.
  destruct (Authority.revoked_silent lost' _) eqn:Es; [|discriminate]. cbn [negb] in Ep.
  destruct (Config.drive_loss _) as [cfg'|] eqn:Ec; [|discriminate]. cbn [mbind option_bind] in Ep.
  destruct (find_first _ _) as [plan'|] eqn:Ef; [|discriminate]. cbn [mbind option_bind] in Ep.
  destruct (plan_configured _ _); [|discriminate]. injection Ep as -> -> ->.
  apply find_first_some in Ef as [Hin Hj%bool_decide_eq_true].
  repeat match goal with H : bool_decide _ = true |- _ => apply bool_decide_eq_true in H end.
  repeat match goal with H : bool_decide _ = false |- _ => apply bool_decide_eq_false in H end.
  repeat split; auto; try (eapply holding_targets_in; eauto; fail); try lia.
  - destruct (episode (loss s)); [|reflexivity]. exfalso. eauto.
  - by apply list_elem_of_In.
  - apply (shed_targets_joints _ _ _ Et).
  - apply (shed_targets_joints _ _ _ Et).
Qed.

Definition plans_ok (s : Sup B R) : Prop :=
  Forall (fun p => head (plan_shed p) = Some (plan_joint p)) (plans (loss s)).

Lemma install_plans_ok (ps : list DriveLossPlan) (s s' : Sup B R) :
  install_drive_loss_plans ps s = (Ok tt, s') -> plans_ok s'.
Proof.
  unfold install_drive_loss_plans, plans_ok. destruct (try_for_each (check_plan s) ps) as [[]| |] eqn:E;
    try discriminate. intros [= <-]. cbn. revert E. induction ps as [|p ps IH]; [constructor|].
  cbn [try_for_each]. intros Hc. bind_inv Hc. constructor; [|auto].
  unfold check_plan in E. bind_inv E. bind_inv E. bsimp. by eapply bool_decide_eq_true.
Qed.

(** The subtree of [plan] was shed between [s] and [s']: its drives were
    disabled, once each, and its joints are neither active nor permitted;
    every other active joint stays active and permitted, and there is one;
    the episode has a deadline within the configured window. *)
Record subtree_shed (plan : DriveLossPlan) (s s' : Sup B R) : Prop := {
  ss_lost : lost_joints s = [plan_joint plan];
  ss_silent : Authority.revoked_silent (plan_joint plan) (authority s) = true;
  ss_drives : Forall2 (drive_of (adm s)) (plan_shed plan) (shed (adm s'));
  ss_bus : error_of (disable_each (shed (adm s')) (bus s)).1 = None
           /\ bus s' = (disable_each (shed (adm s')) (bus s)).2;
  ss_mode : mode (adm s) = Active /\ mode (adm s') = Active;
  ss_faults : has_latched_fault s = false /\ has_latched_fault s' = false;
  ss_before : shed (adm s) = [];
  ss_setup : same_setup s s';
  ss_invariants : Authority.authority_ok (authority s') /\ plans_ok s';
  ss_active : active_joints (adm s') = active_joints (adm s) ∖ list_to_set (plan_shed plan);
  ss_some : active_joints (adm s') <> ∅;
  ss_held : forall j, j ∈ active_joints (adm s') -> Authority.contains j (authority s') = true;
  ss_dropped : forall j, j ∈ plan_shed plan -> Authority.contains j (authority s') = false;
  ss_episode : exists ep cfg hold cap,
    episode (loss s') = Some ep /\ lost_joint ep = plan_joint plan /\ shed_joints ep = plan_shed plan
    /\ Config.drive_loss (sv_control (adm s)) = Some cfg
    /\ try_from_secs_f64 (Config.hold_window_s cfg) = Some hold
    /\ try_from_secs_f64 (Config.lower_max_s cfg) = Some cap
    /\ ep_since ep <= ep_deadline ep <= ep_since ep + hold + cap
}.

Lemma head_in {A : Type} (l : list A) (x : A) : head l = Some x -> x ∈ l.
Proof. destruct l; [discriminate|]. intros [= ->]. left. Qed.

Lemma silent_has_binding (j : string) (a : Authority.ReferenceAuthority) :
  Authority.revoked_silent j a = true -> Authority.consumed a <> [].
Proof. unfold Authority.revoked_silent. by destruct (Authority.consumed a). Qed.

(** How a loss is answered: not at all, by a stop, or by the subtree. *)
Definition loss_answered (s : Sup B R) (r : result DavoutError bool) (s' : Sup B R) : Prop :=
  (r = Ok false /\ exists w k, s' = set_clock k (set_rwork w s))
  \/ ((exists e, r = Err (EBus e)) /\ halted s')
  \/ (r = Ok true /\ exists plan, plan ∈ plans (loss s) /\ subtree_shed plan s s').

Lemma shed_answers (s : Sup B R) :
  Authority.authority_ok (authority s) -> plans_ok s ->
  let '(r, s') := shed_for_drive_loss observed display s in loss_answered s r s'.
Proof.
  intros Hok Hplans. unfold loss_answered, shed_for_drive_loss.
  destruct (shed_decision_spec s) as (w & k & E2 & Hd).
  destruct (shed_decision observed s) as [[d|] s1]; cbn [fst snd] in E2, Hd; subst s1; [|left; eauto].
  destruct (Hd d eq_refl) as (cfg & plan & hold & cap & Hm & Hf & He & Hep & Hc & Hin & Hj & Hl
    & Hs & Hjs & Hds & Hsh & Hh & Hhold & H1 & H2 & H3).
  cbn [loss set_clock set_rwork adm bus set_adm set_loss].
  destruct (disable_each _ (bus s)) as [r b] eqn:Eb.
  destruct (error_of r) as [e|] eqn:Er.
  { right. left. split; [eauto|]. apply disable_all_halts. }
  right. right. split; [reflexivity|]. exists plan. split; [exact Hin|].
  set (s2 := set_bus b _). unfold begin_episode.
  destruct (drop_joints_spec (d_shed d) s2 Hok (silent_has_binding _ _ Hs))
    as (Ha & Hrev & Hkeep & Hb2 & Hl2 & Hm2 & Hs2 & Hf2 & Hsame & Hok2).
  set (s3 := fold_left _ _ s2) in *. rewrite Hjs in *.
  assert (Hsh3 : shed (adm s3) = (fun t => t.1.2) <$> d_shed d) by (rewrite Hs2; cbn; by rewrite Hsh).
  assert (Hother : forall j, j ∈ active_joints (adm s) -> j <> d_lost d -> Authority.contains j (authority s) = true).
  { intros j Hja Hne. destruct (Authority.contains j (authority s)) eqn:Ej; [reflexivity|].
    assert (Hjl : j ∈ lost_joints s) by (apply list_elem_of_filter; split; [exact Ej|by apply elem_of_elements]).
    rewrite Hl in Hjl. apply list_elem_of_singleton in Hjl. contradiction. }
  assert (Hlost : d_lost d ∈ plan_shed plan)
    by (rewrite <- Hj; apply head_in; exact (proj1 (Forall_forall _ _) Hplans plan Hin)).
  split; cbn [adm set_loss authority loss bus episode lost_joint shed_joints ep_since ep_deadline];
    rewrite ?Hsh3, ?Hj; auto.
  - by rewrite Hb2, Eb.
  - split; [exact Hm|]. rewrite Hm2. exact Hm.
  - split; [exact Hf|]. unfold has_latched_fault. cbn [adm set_loss]. rewrite Hf2. exact Hf.
  - split; [exact Hok2|]. unfold plans_ok. cbn [loss set_loss plans]. rewrite Hl2. exact Hplans.
  - rewrite Ha. cbn. destruct (d_holding d) as [|j hs]; [contradiction|].
    destruct (Hhold j) as (Hj1 & Hj2 & _); [left|]. set_solver.
  - intros j. rewrite Ha. cbn. intros [Hja Hjn]%elem_of_difference. rewrite elem_of_list_to_set in Hjn.
    rewrite Hkeep by exact Hjn. cbn. apply Hother; [exact Hja|]. congruence.
  - eexists _, cfg, hold, cap. split; [reflexivity|]. cbn. auto 10.
Qed.

End Grants.

(** Recorded writes of the subtree's Disables. *)
Definition disabled_attempt (a : MotorAddress) : Reporting.attempt :=
  (a, ext_frame (Comm.encode_default_disable (device a)), true).

Section Loss.
Context {B0 : Type} `{CanBus B0} {R : Type} `{ReferenceWork R}.
Abbreviation B := (Reporting.Spy B0).
Variable observed : Observer B R.
Variable display : DavoutError -> string.

Lemma disable_each_ok (l : list MotorAddress) : forall b b' : B,
  error_of (disable_each l b).1 = None -> (disable_each l b).2 = b' ->
  Reporting.attempts b' = Reporting.attempts b ++ (disabled_attempt <$> l).
Proof.
  induction l as [|a l IH]; intros b b'; cbn [disable_each fmap list_fmap].
  - intros _ <-. by rewrite app_nil_r.
  - unfold disable_drive_at.
    destruct (spy_send b a (Comm.encode_default_disable (device a))) as (r & b1 & E & Ha).
    rewrite E. destruct r as [[]|e|]; cbn [fst snd error_of]; try discriminate.
    intros Hn Hb. rewrite (IH b1 b' Hn Hb), Ha, <- app_assoc. reflexivity.
Qed.

(** The recorded writes of a shed. *)
Lemma shed_wire (plan : DriveLossPlan) (s s' : Sup B R) :
  subtree_shed plan s s' ->
  Reporting.attempts (bus s') = Reporting.attempts (bus s) ++ (disabled_attempt <$> shed (adm s')).
Proof. intros Hs. destruct (ss_bus _ _ _ Hs) as [Hn Hb]. by apply disable_each_ok. Qed.

(** C24: a drive loss is contained or the arm stops.  [shed_for_drive_loss] either
    changes nothing but the clock and the observed reference work; or leaves the supervisor halted;
    or it sheds exactly the planned subtree of the one silent joint:
    one Disable to each of its drives and nothing else on the bus, its joints
    neither active nor permitted, every other active joint still permitted,
    and an episode whose deadline lies within the configured window. *)
Theorem drive_loss_contained (s : Sup B R) :
  Authority.authority_ok (authority s) -> plans_ok s ->
  let '(r, s') := shed_for_drive_loss observed display s in
  (r = Ok false /\ exists w k, s' = set_clock k (set_rwork w s))
  \/ ((exists e, r = Err (EBus e)) /\ halted s')
  \/ (r = Ok true /\ exists plan, plan ∈ plans (loss s) /\ subtree_shed plan s s'
      /\ Reporting.attempts (bus s') = Reporting.attempts (bus s) ++ (disabled_attempt <$> shed (adm s'))).
Proof.
  intros Hok Hpl. pose proof (shed_answers observed display s Hok Hpl) as Ha.
  destruct (shed_for_drive_loss observed display s) as [r s'].
  destruct Ha as [Ha|[Ha|(Hr & plan & Hin & Hs)]]; [auto|auto|].
  right. right. split; [exact Hr|]. exists plan. split; [exact Hin|]. split; [exact Hs|]. exact (shed_wire plan s s' Hs).
Qed.

End Loss.

(** ** Examples: the bench session, and a two-joint session that lost its elbow *)

Lemma bench_authority_ok : Authority.authority_ok (authority bench_sup).
Proof. apply Authority.initial_virtual_ok. Qed.

Lemma valid_reference_is_grounded_witness :
  let '(ok, s') := reference_binding_valid_with nothing_observed Judge bench_sup in
  ok = true /\ hardware_estop bench_sup = false
  /\ Authority.policy_matches (live_policy bench_sup) (authority s') = true.
Proof.
  pose proof (valid_reference_is_grounded nothing_observed bench_sup bench_authority_ok) as Hv.
  assert (Hb : (reference_binding_valid_with nothing_observed Judge bench_sup).1 = true)
    by (vm_compute; reflexivity).
  destruct (reference_binding_valid_with nothing_observed Judge bench_sup) as [ok s']. cbn [fst] in Hb. subst ok.
  destruct (proj2 Hv eq_refl) as (_ & H2 & H3 & _). split; [reflexivity|]. split; [exact H2|exact H3].
Defined.

Definition shed_joint_entry : Config.JointControlEntry :=
  Config.mkJointControl Config.Rs03 (Config.mkGains fzero fzero fzero) (Config.mkGains (f64_of_Z 20) (f64_of_Z 1) fzero)
    (Config.mkFriction fzero fzero fzero fzero None None) None
    (lit64 5 10) (lit64 1 10) (lit64 1 10) (lit64 5 10) (f64_of_Z 1) (lit64 2 100) (lit64 1 100)
    Config.ShedSubtree Config.Legacy None None None None None None None None
    (lit64 1 100) (lit64 2 100) (lit64 5 10) (lit64 3 100) (Some (lit64 (-85) 100)) (Some (lit64 195 100)).

Definition loss_control : Config.ControlSection :=
  Config.mkControl 200 50 100 500 (f64_of_Z 40) true false
    [("rs03"%string, Config.mkDefaults (f64_of_Z 100) (f64_of_Z 5) (f64_of_Z 12) (f64_of_Z 2))]
    [] [(Authority.pitch, Filter.bench_joint); (Authority.elbow, shed_joint_entry)] []
    (Config.mkWrongSign true (-1) (lit64 5 100) 3 20)
    (Some (Config.mkDriveLoss (f64_of_Z 2) (lit64 1 10) (f64_of_Z 1) (f64_of_Z 20) (f64_of_Z 2))).

Definition elbow_address : MotorAddress := mkAddress "can0" 12.

Definition loss_session : Admission.Supervisor :=
  mkSupervisor Active GravityComp authority_default ∅
    [Authority.demo_motor Authority.pitch 11; Authority.demo_motor Authority.elbow 12] []
    loss_control {[bench_address := bench_pose; elbow_address := bench_pose]} (Some 1000000000) ∅ ∅ ∅
    clamp_log_default ∅ ∅ None {[Authority.pitch; Authority.elbow]}
    {[bench_address := solicited_default]} [].

Definition loss_authority : Authority.ReferenceAuthority :=
  Authority.revoke_binding_silent 1 Authority.demo_grants.

Definition loss_sup : Sup (Reporting.Spy MemoryBus) unit :=
  mkSup loss_session bench_installed false
    [Authority.demo_motor Authority.pitch 11; Authority.demo_motor Authority.elbow 12]
    loss_authority (Physical.new_devices [(bench_address, Physical.demo_bounds)]) tt
    Reporting.reporting_default no_session ∅ no_tracking
    (mkLoss [mkPlan Authority.elbow [Authority.elbow]] None None None None None) false no_diagnostics
    (Reporting.mkSpy (mkMemoryBus [] []) []) bench_clock.

Lemma drive_loss_contained_witness :
  let '(r, s') := shed_for_drive_loss nothing_observed (fun _ => ""%string) loss_sup in
  r = Ok true /\ exists plan, subtree_shed plan loss_sup s'.
Proof.
  assert (Hb : (shed_for_drive_loss nothing_observed (fun _ => ""%string) loss_sup).1 = Ok true)
    by (vm_compute; reflexivity).
  pose proof (drive_loss_contained nothing_observed (fun _ => ""%string) loss_sup) as Hd.
  destruct (shed_for_drive_loss _ _ _) as [r s']. cbn [fst] in Hb. subst r. split; [reflexivity|].
  destruct Hd as [[Hf _]|[[[e He] _]|(_ & plan & _ & Hs & _)]]; [| |discriminate|discriminate|exists plan; exact Hs].
  - exact (Authority.exec_ok (Authority.ORevokeBindingSilent 1) _ Authority.demo_ok).
  - repeat constructor.
Defined.

End Grants.
