(* ===== verification/Send.v ===== *)
(** * Send: what reaches the bus while Active

    Theorems about the end of an episode and the sending of a batch
    ([Session.admit_and_send_mit_with]): an expired episode ends in a stop, and
    a batch that is accepted put on the bus only admitted commands to
    enabled drives of active, permitted joints. *)

From Stdlib Require Import ZArith Lia Bool.
From stdpp Require Import base gmap strings list.
From S2P Require Import Prelude Float Comm Config Validate Limits TotalTorque Params Mit Bus Reporting Faults Davout Filter Admission Authority Physical Lifecycle Stop Session Grants.

Module Send.
Import Mit Bus Faults Davout TotalTorque Filter Admission Lifecycle Stop Session Grants.

(** ** The end of an episode *)

Section Episode.
Context {B : Type} `{CanBus B} {R : Type} `{ReferenceWork R}.
Variable observed : Observer B R.
Variable display : DavoutError -> string.

Definition episode_over (ep : DegradedEpisode) (e : DegradedEnd) (s' : Sup B R) : Prop :=
  halted s' /\ has_latched_fault s' = true
  /\ exists t, outcome (loss s') = Some (mkOutcome (lost_joint ep) e t).

Lemma stop_ending_spec (e : DegradedEnd) (s : Sup B R) (ep : DegradedEpisode) :
  episode (loss s) = Some ep -> episode_over ep e (stop_ending_episode observed e s).2.
Proof.
  intros He. unfold stop_ending_episode. rewrite He.
  match goal with |- context [disable_all observed ?x] =>
    destruct (disable_all_halts observed x) as (Hh & _ & Hr) end.
  destruct (Hr ep eq_refl) as [Hl Ho]. split; [exact Hh|]. split; [exact Hl|exact Ho].
Qed.

Lemma latched_refused (s : Sup B R) :
  has_latched_fault s = true -> exists e, require_fault_clear (adm s) = Err e.
Proof.
  unfold has_latched_fault, is_latched, require_fault_clear, first_fault.
  destruct (faults _); [discriminate|]. cbn. eauto.
Qed.

Lemma latched_clear (s : Sup B R) :
  require_fault_clear (adm s) = Ok tt -> has_latched_fault s = false.
Proof.
  intros E. destruct (has_latched_fault s) eqn:Hl; [|reflexivity].
  destruct (latched_refused s Hl) as [e He]. congruence.
Qed.

(** C33: a degraded episode ends in a stop.  Once its deadline has passed, the next
    batch is refused whatever it holds, and it and the completed lowering
    leave the supervisor halted with the loss latched and the reason kept;
    before the deadline the guard lets the batch through unchanged. *)
Theorem episode_ends_in_stop (s : Sup B R) (ep : DegradedEpisode) :
  episode (loss s) = Some ep ->
  (ep_deadline ep <= (now (hostclock s)).1 ->
     forall cmds supplied,
     let '(r, s') := admit_and_send_mit_with observed display cmds supplied s in
     (exists e, r = Err e) /\ episode_over ep DeadlineEnd s')
  /\ ((now (hostclock s)).1 < ep_deadline ep ->
      enforce_degraded_deadline observed s = (Ok tt, set_clock (now (hostclock s)).2 s))
  /\ episode_over ep LowerComplete (complete_degraded_lower observed s).2.
Proof.
  intros He. assert (Hen : ep_deadline ep <= (now (hostclock s)).1 ->
    exists e s', enforce_degraded_deadline observed s = (Err e, s') /\ episode_over ep DeadlineEnd s').
  { intros Hd. unfold enforce_degraded_deadline, tick. rewrite He.
    destruct (now (hostclock s)) as [t k]. cbn [fst] in Hd. rewrite (proj2 (Z.leb_le _ _) Hd).
    pose proof (stop_ending_spec DeadlineEnd (set_clock k s) ep He) as Hs.
    destruct (latched_refused _ (proj1 (proj2 Hs))) as [e Hr]. rewrite Hr. eauto. }
  split; [|split].
  - intros Hd cmds supplied. destruct (Hen Hd) as (e & s' & E & Hs).
    unfold admit_and_send_mit_with. rewrite E. eauto.
  - intros Hd. unfold enforce_degraded_deadline, tick. rewrite He.
    destruct (now (hostclock s)) as [t k]. cbn [fst snd] in *. by rewrite (proj2 (Z.leb_gt _ _) Hd).
  - exact (stop_ending_spec LowerComplete s ep He).
Qed.

Lemma require_permission_ok (s : Sup B R) (js : list string) :
  require_reference_permission js s = Ok tt ->
  forall j, j ∈ js -> Authority.contains j (authority s) = true.
Proof.
  induction js as [|k js IH]; cbn [require_reference_permission]; intros E j Hj.
  - by apply not_elem_of_nil in Hj.
  - destruct (Authority.contains k (authority s)) eqn:Ek; [|discriminate].
    apply elem_of_cons in Hj as [->|Hj]; auto.
Qed.

End Episode.

(** ** Writing the wires *)

Definition mit_attempt (c : AddressedMitCommand) : Reporting.attempt :=
  (Bus.address c, match encode_mit (command c) with Ok f => ext_frame f | _ => mkCanFrame 0 [] false end, true).

Section Wires.
Context {B0 : Type} `{CanBus B0} {R : Type} `{ReferenceWork R}.
Abbreviation B := (Reporting.Spy B0).
Variable observed : Observer B R.
Variable display : DavoutError -> string.

Lemma send_batch_attempts (l : list AddressedMitCommand) : forall b : B,
  error_of (send_batch b l).1 = None ->
  Reporting.attempts (send_batch b l).2 = Reporting.attempts b ++ (mit_attempt <$> l).
Proof.
  induction l as [|c l IH]; intros b; cbn [send_batch fmap list_fmap].
  - intros _. by rewrite app_nil_r.
  - destruct (encode_mit (command c)) as [f|e|] eqn:Ef; cbn [map_err]; [|discriminate..].
    destruct (spy_send b (Bus.address c) f) as (r & b1 & E & Ha). rewrite E.
    destruct r as [[]|e|]; [|discriminate..]. intros Hn. rewrite (IH b1 Hn), Ha, <- app_assoc.
    unfold mit_attempt at 2. by rewrite Ef.
Qed.

Lemma mit_control_attempts (b : B) (l : list AddressedMitCommand) :
  error_of (mit_control_all_at b l).1 = None ->
  Reporting.attempts (mit_control_all_at b l).2 = Reporting.attempts b ++ (mit_attempt <$> l).
Proof.
  unfold mit_control_all_at. destruct (validate_batch b [] l) as [[]|e|]; [|discriminate..].
  apply send_batch_attempts.
Qed.

(** Only the bus, the pacer and the clock change. *)
Definition wrote (s s' : Sup B R) (sent : list AddressedMitCommand) : Prop :=
  (exists b p k, s' = set_bus b (set_pacer p (set_clock k s)))
  /\ Reporting.attempts (bus s') = Reporting.attempts (bus s) ++ (mit_attempt <$> sent).

Lemma write_bootstrap_spec (t : Z) (l : list AddressedMitCommand) : forall s : Sup B R,
  error_of (write_bootstrap t l s).1 = None ->
  wrote s (write_bootstrap t l s).2
    (filter (fun c => Bus.address c ∉ enable_writes_pending (session s)) l).
Proof.
  induction l as [|c l IH]; intros s; cbn [write_bootstrap].
  - intros _. split; [exists (bus s), (session_pacer s), (hostclock s); by destruct s|by rewrite app_nil_r].
  - rewrite filter_cons. case_bool_decide as Hp.
    { rewrite decide_False by (intros Hn; exact (Hn Hp)). apply IH. }
    rewrite decide_True by exact Hp.
    set (s1 := if reporting_may_stream _ _ _ then _ else s).
    assert (H1 : exists p k, s1 = set_pacer p (set_clock k s)).
    { unfold s1. destruct (reporting_may_stream _ _ _); [|exists (session_pacer s), (hostclock s); by destruct s].
      destruct (begin_group _ _ _) as [p k]. by exists p, k. }
    destruct H1 as (p & k & H1).
    pose proof (mit_control_attempts (bus s1) [c]) as Hm.
    destruct (mit_control_all_at (bus s1) [c]) as [[[]|e|] b]; cbn [fst snd] in *; [|discriminate..].
    intros Hn. destruct (IH (set_bus b s1) Hn) as ((b2 & p2 & k2 & E2) & A2).
    specialize (Hm eq_refl). rewrite H1 in *. cbn [bus set_bus set_pacer set_clock session] in *.
    split; [exists b2, p2, k2; rewrite E2; reflexivity|].
    rewrite A2, Hm, <- app_assoc. reflexivity.
Qed.

Definition sendable (s : Sup B R) (c : AddressedMitCommand) : Prop :=
  mode (adm s) = Active -> Bus.address c ∉ enable_writes_pending (session s).

Lemma write_mit_wires_spec (l : list AddressedMitCommand) (s : Sup B R) :
  error_of (write_mit_wires l s).1 = None ->
  exists sent, sent `sublist_of` l /\ Forall (sendable s) sent
    /\ (enable_writes_pending (session s) = [] -> sent = l)
    /\ wrote s (write_mit_wires l s).2 sent.
Proof.
  unfold write_mit_wires. destruct (_ || _) eqn:Eg.
  - pose proof (mit_control_attempts (bus s) l) as Hm.
    destruct (mit_control_all_at (bus s) l) as [r b]. cbn [fst snd] in *. intros Hn.
    exists l. split; [reflexivity|]. split; [|split; [reflexivity|]].
    + apply Forall_forall. intros c _ Ha. rewrite Ha in Eg. rewrite bool_decide_true in Eg by reflexivity.
      cbn [negb orb] in Eg. apply bool_decide_eq_true in Eg. rewrite Eg. apply not_elem_of_nil.
    + split; [exists b, (session_pacer s), (hostclock s); by destruct s|exact (Hm Hn)].
  - unfold tick. destruct (now (hostclock s)) as [t k]. intros Hn.
    destruct (write_bootstrap_spec t l (set_clock k s) Hn) as ((b & p & k' & E) & A).
    cbn [session set_clock bus] in *. exists (filter (fun c => Bus.address c ∉ enable_writes_pending (session s)) l).
    split; [apply sublist_filter|]. split; [|split; [|split]].
    + apply Forall_forall. intros c [Hc _]%list_elem_of_filter _. exact Hc.
    + intros Hnil. apply orb_false_iff in Eg as [_ Hne]. by apply bool_decide_eq_false in Hne.
    + exists b, p, k'. rewrite E. reflexivity.
    + exact A.
Qed.

(** ** From the checks to the wire *)

(** The checks before a batch may shed a subtree; otherwise they leave the setup,
    the bus and the faults alone and only take permissions away. *)
(** The drives are distinct, as the validator requires, and no active joint's
    drive is shed.  So it is while nothing is shed; shedding keeps it; and a stop,
    which leaves no joint active, ends a degraded episode with a latched fault,
    after which nothing is enabled. *)
Record drives_apart (s : Sup B R) : Prop := {
  da_distinct : NoDup (address_of_motor <$> motors (adm s));
  da_live : forall j a, j ∈ active_joints (adm s) -> drive_of (adm s) j a -> a ∉ shed (adm s)
}.

Lemma idle_apart (s : Sup B R) :
  NoDup (address_of_motor <$> motors (adm s)) -> shed (adm s) = [] \/ active_joints (adm s) = ∅ -> drives_apart s.
Proof. intros Hn Hi. split; [exact Hn|]. intros j a Hj _. destruct Hi as [-> | E]; set_solver. Qed.

Record progressed (s s' : Sup B R) : Prop := {
  pg_setup : same_setup s s';
  pg_mode : mode (adm s') = mode (adm s);
  pg_faults : has_latched_fault s' = has_latched_fault s;
  pg_active : active_joints (adm s') ⊆ active_joints (adm s);
  pg_wire : exists sheds, shed (adm s') = shed (adm s) ++ sheds
    /\ Reporting.attempts (bus s') = Reporting.attempts (bus s) ++ (disabled_attempt <$> sheds);
  pg_ok : Authority.authority_ok (authority s) -> Authority.authority_ok (authority s');
  pg_plans : plans_ok s -> plans_ok s';
  pg_apart : drives_apart s -> drives_apart s'
}.

#[local] Instance progressed_preorder : PreOrder progressed.
Proof.
  split.
  - intros s. split; auto; [unfold same_setup; auto 10|]. exists []. by rewrite !app_nil_r.
  - intros s1 s2 s3 [] []. split; [|congruence|congruence|set_solver| |auto|auto|auto].
    + unfold same_setup in *. intuition congruence.
    + destruct pg_wire0 as (l1 & E1 & A1), pg_wire1 as (l2 & E2 & A2).
      exists (l1 ++ l2). by rewrite E2, E1, A2, A1, fmap_app, !app_assoc.
Qed.

(** Only the authority, the clock and the reference work differ. *)
Lemma progressed_frame (s : Sup B R) a k r :
  (Authority.authority_ok (authority s) -> Authority.authority_ok a) ->
  progressed s (set_authority a (set_clock k (set_rwork r s))).
Proof.
  intros Ha. split; cbn; auto; [by repeat split| |by intros []]. exists []. by rewrite !app_nil_r.
Qed.

Lemma drive_motor (sv : Admission.Supervisor) (j : string) (a : MotorAddress) :
  drive_of sv j a -> exists m, m ∈ motors sv /\ Config.joint m = j /\ a = address_of_motor m.
Proof.
  intros (m & Hm & ->). unfold Config.motor_for_joint in Hm. apply find_first_some in Hm as [Hin Hj%bool_decide_eq_true].
  exists m. split; [by apply list_elem_of_In|auto].
Qed.

(** Distinct drives: one joint per drive. *)
Lemma drive_joint (sv : Admission.Supervisor) (j j' : string) (a : MotorAddress) :
  NoDup (address_of_motor <$> motors sv) -> drive_of sv j a -> drive_of sv j' a -> j = j'.
Proof.
  intros Hn (m & Hin & <- & Ea)%drive_motor (m' & Hin' & <- & Ea')%drive_motor. f_equal.
  apply list_elem_of_lookup in Hin as [i Hi], Hin' as [i' Hi'].
  assert (i = i') as <-; [|congruence].
  eapply (NoDup_lookup _ i i' a Hn); rewrite list_lookup_fmap; [rewrite Hi|rewrite Hi']; cbn; congruence.
Qed.

Lemma shed_apart (plan : DriveLossPlan) (s s' : Sup B R) : subtree_shed plan s s' -> drives_apart s -> drives_apart s'.
Proof.
  intros Hs [Hn _]. pose proof (proj1 (ss_setup _ _ _ Hs)) as Em. split; [by rewrite Em|].
  unfold drive_of. rewrite Em. fold (drive_of (adm s)). intros j a Hj Hd Hin.
  apply list_elem_of_lookup in Hin as [i Hi].
  destruct (Forall2_lookup_r _ _ _ _ _ (ss_drives _ _ _ Hs) Hi) as (j' & Hj' & Hd').
  assert (j = j') as <- by (by eapply drive_joint). rewrite (ss_active _ _ _ Hs) in Hj.
  apply list_elem_of_lookup_2 in Hj'. set_solver.
Qed.

Lemma progressed_shed (plan : DriveLossPlan) (s s' : Sup B R) : subtree_shed plan s s' -> progressed s s'.
Proof.
  intros Hs. pose proof (shed_wire plan s s' Hs) as Hw. pose proof (shed_apart plan s s' Hs) as Ha. destruct Hs. destruct ss_mode0, ss_faults0, ss_invariants0.
  split; auto; [congruence|congruence|set_solver|]. exists (shed (adm s')). rewrite ss_before0. auto.
Qed.

Definition all_permitted (s : Sup B R) : Prop :=
  forall j, j ∈ active_joints (adm s) -> Authority.contains j (authority s) = true.

Lemma ensure_binding_ok (s s' : Sup B R) :
  Authority.authority_ok (authority s) ->
  ensure_reference_binding observed s = (Ok tt, s') -> progressed s s'.
Proof.
  intros Hok. unfold ensure_reference_binding, reference_busy.
  destruct (_ || _); [discriminate|]. cbn [adm observe set_clock set_rwork].
  destruct (require_fault_clear (adm s)) as [[]| |]; [|discriminate..].
  destruct (reference_valid_spec observed (observe observed s) Hok) as (a & k & Hs).
  destruct (reference_binding_valid_with observed Judge _) as [[] s1]; [|discriminate].
  destruct Hs as (-> & Ha & _). intros [= <-].
  exact (progressed_frame s a k (checked_work observed (observe observed s)) (fun _ => Ha)).
Qed.

Lemma shed_progress (s s' : Sup B R) (b : bool) :
  Authority.authority_ok (authority s) -> plans_ok s ->
  shed_for_drive_loss observed display s = (Ok b, s') -> progressed s s'.
Proof.
  intros Hok Hpl E. pose proof (shed_answers observed display s Hok Hpl) as Ha. rewrite E in Ha.
  destruct Ha as [(_ & w & k & ->)|[[[e He] _]|(_ & plan & _ & Hs)]]; [|discriminate|].
  - exact (progressed_frame s (authority s) k w (fun Ha => Ha)).
  - exact (progressed_shed plan s s' Hs).
Qed.

Lemma ensure_active_ok (s s' : Sup B R) (shed : bool) :
  Authority.authority_ok (authority s) -> plans_ok s ->
  ensure_reference_for_active observed display s = (Ok shed, s') ->
  progressed s s' /\ all_permitted s'.
Proof.
  intros Hok Hpl. unfold ensure_reference_for_active.
  destruct (ensure_reference_binding observed s) as [[[]| |] s1] eqn:E1; [|discriminate..].
  pose proof (ensure_binding_ok s s1 Hok E1) as P1.
  destruct (if bool_decide _ && _ then _ else _) as [[b| |] s2] eqn:E2; [|discriminate..].
  assert (P2 : progressed s1 s2).
  { destruct (_ && _); [|injection E2 as _ <-; reflexivity].
    exact (shed_progress s1 s2 b (pg_ok _ _ P1 Hok) (pg_plans _ _ P1 Hpl) E2). }
  destruct (require_reference_permission _ s2) as [[]| |] eqn:Er; [|discriminate..].
  intros [= _ <-]. split; [by transitivity s1|]. intros j Hj.
  eapply require_permission_ok; [exact Er|]. by apply elem_of_elements.
Qed.

(** ** The commands of a bound batch *)

Lemma motor_index_joint (sv : Admission.Supervisor) (j : string) (i : nat) (m : Config.MotorEntry) :
  motor_index sv j = Some i -> motors sv !! i = Some m -> Config.motor_for_joint (motors sv) j = Some m.
Proof.
  unfold motor_index, Config.motor_for_joint.
  assert (Hg : forall ms n, motor_index_from ms j n = Some i ->
    exists k, i = (n + k)%nat /\ find_first (fun m => bool_decide (Config.joint m = j)) ms = ms !! k).
  { induction ms as [|x ms IH]; intros n; cbn [motor_index_from]; [discriminate|].
    cbn [find_first]. case_bool_decide.
    - intros [= <-]. exists 0%nat. split; [lia|reflexivity].
    - intros [k [-> Hk]]%IH. exists (S k). split; [lia|exact Hk]. }
  intros [k [-> Hk]]%Hg Hm. cbn in Hm. by rewrite Hk.
Qed.

Lemma differs_address (a b : Config.MotorEntry) :
  motor_differs a b = false -> address_of_motor a = address_of_motor b.
Proof.
  unfold motor_differs, address_of_motor. rewrite !orb_false_iff, !negb_false_iff, bool_decide_eq_true.
  intros [[[[-> ->%Z.eqb_eq] _] _] _]. reflexivity.
Qed.

(** A bound command names an active joint and goes to that joint's drive. *)
Definition bound_to (sv : Admission.Supervisor) (supplied : option Config.MotorEntry)
  (cmd : MitJointCommand) (i : nat) : Prop :=
  mode sv = Active /\ mj_joint cmd ∈ active_joints sv
  /\ exists m, motors sv !! i = Some m
       /\ drive_of sv (mj_joint cmd) (address_of_motor (default m supplied)).

Lemma bind_batch_bound (sv : Admission.Supervisor) (supplied : option Config.MotorEntry)
  (cmds : list MitJointCommand) : forall seen out,
  bind_batch sv supplied seen cmds = Ok out ->
  exists l, out = seen ++ l /\ Forall2 (bound_to sv supplied) cmds l.
Proof.
  induction cmds as [|cmd cmds IH]; cbn [bind_batch]; intros seen out Hb.
  - injection Hb as <-. exists []. rewrite app_nil_r. by split; [|constructor].
  - bind_inv Hb. bind_inv Hb. apply ok_or_ok in E0.
    destruct (motors sv !! x0) as [m|] eqn:Em; [|discriminate].
    bind_inv Hb. bind_inv Hb. destruct (IH _ _ Hb) as (l & -> & Hl).
    exists (x0 :: l). rewrite <- app_assoc. split; [reflexivity|]. constructor; [|exact Hl].
    unfold require_active_joint in E. bind_inv E. bind_inv E. bsimp.
    split; [by eapply bool_decide_eq_true|]. split; [by eapply bool_decide_eq_true|].
    exists m. split; [exact Em|]. exists m. split; [exact (motor_index_joint _ _ _ _ E0 Em)|].
    by apply differs_address.
Qed.

(** A command that may be on the wire: admitted, for a joint of [act], to its drive. *)
Definition admitted_for (sv : Admission.Supervisor) (supplied : option Config.MotorEntry) (act : gset string)
  (c : AddressedMitCommand) : Prop :=
  mode sv = Active /\
  exists x e, prepared sv supplied x e /\ e.1.1 = c
    /\ mj_joint x.1 ∈ act /\ drive_of sv (mj_joint x.1) (Bus.address c).

Lemma staged_admitted (sv : Admission.Supervisor) (supplied : option Config.MotorEntry)
  (cmds : list MitJointCommand) (l : list nat) (entries : list (AddressedMitCommand * StagedMitState * bool)) :
  Forall2 (bound_to sv supplied) cmds l -> Forall2 (prepared sv supplied) (zip cmds l) entries ->
  Forall (admitted_for sv supplied (active_joints sv)) ((fun e => e.1.1) <$> entries).
Proof.
  intros Hb. revert entries. induction Hb as [|cmd i cmds l (Hm & Hact & m & Em & Hd) _ IH];
    intros entries Hp; cbn [zip zip_with] in Hp; inversion Hp as [|x e xs es Hpe Hps]; subst; cbn; constructor;
    [|exact (IH _ Hps)].
  split; [exact Hm|]. exists (cmd, i), e. repeat split; auto.
  destruct Hpe as (configured & lim & df & sc & out & Hc & _ & _ & _ & _ & _ & Ha & _). cbn [snd] in Hc.
  rewrite Ha. cbn [fst]. congruence.
Qed.

Lemma admitted_transfer (sv sv' : Admission.Supervisor) (supplied : option Config.MotorEntry)
  (act act' : gset string) (c : AddressedMitCommand) :
  mode sv' = mode sv -> motors sv' = motors sv -> sv_limits sv' = sv_limits sv ->
  sv_control sv' = sv_control sv ->
  (forall j, j ∈ act -> drive_of sv j (Bus.address c) -> j ∈ act') ->
  admitted_for sv supplied act c -> admitted_for sv' supplied act' c.
Proof.
  intros Hm Hmo Hl Hc Hact (Hmode & x & e & Hp & He & Hj & Hd).
  split; [congruence|]. exists x, e. unfold prepared, drive_of in *. rewrite Hmo, Hl, Hc. eauto 10.
Qed.

(** ** The last steps *)

Lemma commit_batch_frame (sv : Admission.Supervisor) (staged : list StagedMitState) (tick written : Z) :
  let sv' := commit_batch sv staged tick written in
  mode sv' = mode sv /\ motors sv' = motors sv /\ sv_limits sv' = sv_limits sv
  /\ sv_control sv' = sv_control sv /\ active_joints sv' = active_joints sv
  /\ fault_authority sv' = fault_authority sv /\ shed sv' = shed sv.
Proof.
  cbv zeta. unfold commit_batch. cbn.
  assert (Hf : forall l sv, let sv' := fold_left (fun sv stage => commit_stage sv tick stage) l sv in
    mode sv' = mode sv /\ motors sv' = motors sv /\ sv_limits sv' = sv_limits sv
    /\ sv_control sv' = sv_control sv /\ active_joints sv' = active_joints sv
    /\ fault_authority sv' = fault_authority sv /\ shed sv' = shed sv); [|apply Hf].
  induction l as [|st l IH]; cbn [fold_left]; [auto 10|]. intros sv0.
  destruct (IH (commit_stage sv0 tick st)) as (-> & -> & -> & -> & -> & -> & ->).
  unfold commit_stage. destruct (motors sv0 !! st_motor st); cbn; auto 10.
Qed.

Lemma deliver_ok (batch_tick : Z) (p : list AddressedMitCommand * list StagedMitState) (s s' : Sup B R) :
  deliver observed display batch_tick p s = (Ok tt, s') ->
  exists sent w, sent `sublist_of` p.1 /\ Forall (sendable s) sent
    /\ Reporting.attempts (bus s') = Reporting.attempts (bus s) ++ (mit_attempt <$> sent)
    /\ adm s' = commit_batch (adm s) p.2 batch_tick w /\ authority s' = authority s
    /\ session s' = session s /\ hardware_estop s' = hardware_estop s.
Proof.
  unfold deliver, tick. destruct (now (hostclock s)) as [w k].
  pose proof (write_mit_wires_spec p.1 (set_clock k s)) as Hw.
  destruct (write_mit_wires p.1 (set_clock k s)) as [r s1]. cbn [fst snd] in Hw.
  destruct (error_of r) as [e|]; [discriminate|]. intros [= <-].
  destruct (Hw eq_refl) as (sent & Hsub & Hs & _ & (b & pc & k' & ->) & A).
  exists sent, w. repeat split; auto.
Qed.

Lemma stale_pose_ok (p p' : list AddressedMitCommand * list StagedMitState) (s s' : Sup B R) :
  Authority.authority_ok (authority s) -> plans_ok s ->
  shed_after_stale_pose observed display p s = (Ok (Some p'), s') ->
  progressed s s' /\ all_permitted s' /\ p' = drop_shed (adm s') p
  /\ forall j a, j ∈ active_joints (adm s) -> drive_of (adm s) j a ->
       j ∈ active_joints (adm s') \/ a ∈ shed (adm s').
Proof.
  intros Hok Hpl. unfold shed_after_stale_pose. destruct (negb _); [discriminate|].
  destruct (reference_valid_spec observed s Hok) as (a0 & k0 & Hs).
  destruct (reference_binding_valid_with observed Judge s) as [ok s1]. destruct Hs as (E1 & Ha0 & _).
  assert (P1 : progressed s s1) by (rewrite E1; exact (progressed_frame s a0 k0 (checked_work observed s) (fun _ => Ha0))).
  destruct (active_references_held s1); [discriminate|].
  pose proof (shed_answers observed display s1 (pg_ok _ _ P1 Hok) (pg_plans _ _ P1 Hpl)) as Hsh.
  destruct (shed_for_drive_loss observed display s1) as [[[]| |] s2]; [|discriminate..].
  destruct Hsh as [(Hf & _)|[[[e He] _]|(_ & plan & _ & Hss)]]; [discriminate..|].
  pose proof (progressed_shed plan s1 s2 Hss) as P2.
  destruct (check_comm_watchdog (adm s2) false (hostclock s2)) as [[[]| |] c]; [|discriminate..].
  intros [= <- <-]. split; [|split; [|split; [reflexivity|]]].
  - transitivity s1; [exact P1|]. transitivity s2; [exact P2|].
    exact (progressed_frame s2 (authority s2) c (rwork s2) (fun Ha => Ha)).
  - exact (ss_held _ _ _ Hss).
  - intros j a Hj Hd. cbn [adm set_clock]. rewrite (ss_active _ _ _ Hss), E1. cbn [adm set_authority set_clock set_rwork].
    destruct (decide (j ∈ plan_shed plan)) as [Hin|Hn]; [right|left; set_solver].
    pose proof (ss_drives _ _ _ Hss) as Hdr. rewrite E1 in Hdr. cbn [adm set_authority set_clock set_rwork] in Hdr.
    apply list_elem_of_lookup in Hin as [n Hn].
    destruct (Forall2_lookup_l _ _ _ _ _ Hdr Hn) as (a' & Ha' & m' & Hm' & ->).
    destruct Hd as (m & Hm & ->). assert (m = m') as -> by congruence. by eapply list_elem_of_lookup_2.
Qed.

(** ** What an accepted batch did *)

(** The wire carries the Disables of the drives this call shed, in order, and then
    the frames [sent]; each is an admitted command for an active, permitted joint
    and goes to that joint's own drive, which is not shed, neither before this
    call nor by it, and whose Enable is written. *)
Record batch_sent (supplied : option Config.MotorEntry) (s s' : Sup B R)
  (sheds : list MotorAddress) (sent : list AddressedMitCommand) : Prop := {
  bs_wire : Reporting.attempts (bus s')
            = Reporting.attempts (bus s) ++ (disabled_attempt <$> sheds) ++ (mit_attempt <$> sent);
  bs_shed : shed (adm s') = shed (adm s) ++ sheds;
  bs_clear : has_latched_fault s' = false /\ hardware_estop s' = false;
  bs_permitted : all_permitted s';
  bs_admitted : forall c, c ∈ sent ->
    admitted_for (adm s') supplied (active_joints (adm s')) c
    /\ (Bus.address c ∉ shed (adm s')) /\ (Bus.address c ∉ enable_writes_pending (session s'));
  bs_apart : drives_apart s'
}.

Lemma drop_shed_in (sv : Admission.Supervisor) (p : list AddressedMitCommand * list StagedMitState) c :
  c ∈ (drop_shed sv p).1 -> c ∈ p.1 /\ (Bus.address c ∉ shed sv).
Proof.
  unfold drop_shed. cbn [fst]. intros ([c' st] & -> & [Hs Hin]%list_elem_of_filter)%list_elem_of_fmap.
  split; [exact (elem_of_zip_l _ _ _ _ Hin)|]. cbn [fst] in *. unfold is_shed in Hs.
  by apply bool_decide_eq_false in Hs.
Qed.

(** The delivery of commands that are admitted for the state they are sent in. *)
Lemma deliver_sent (tick : Z) p (supplied : option Config.MotorEntry) (s0 s s' : Sup B R) :
  progressed s0 s -> drives_apart s0 -> has_latched_fault s0 = false -> hardware_estop s0 = false -> all_permitted s ->
  (forall c, c ∈ p.1 -> admitted_for (adm s) supplied (active_joints (adm s)) c) ->
  deliver observed display tick p s = (Ok tt, s') ->
  exists sheds sent, batch_sent supplied s0 s' sheds sent.
Proof.
  intros Hpg Hap Hf He Hperm Hadm Hd. apply (pg_apart _ _ Hpg) in Hap.
  destruct (deliver_ok tick p s s' Hd) as (sent & w & Hsub & Hsend & A & Ea & Eau & Es & Eh).
  destruct (pg_wire _ _ Hpg) as (sheds & Esh & Ash). exists sheds, sent.
  destruct (commit_batch_frame (adm s) p.2 tick w) as (Fm & Fmo & Fl & Fc & Fa & Ff & Fs).
  rewrite <- Ea in *. split.
  - by rewrite A, Ash, app_assoc.
  - by rewrite Fs.
  - unfold has_latched_fault. rewrite Ff, Eh. split; [etransitivity; [exact (pg_faults _ _ Hpg)|exact Hf]|].
    destruct (pg_setup _ _ Hpg) as (_ & _ & _ & _ & ->). exact He.
  - intros j. rewrite Fa, Eau. apply Hperm.
  - intros c Hc. pose proof (Hadm c (elem_of_sublist _ _ _ Hc Hsub)) as Ha.
    split; [|split].
    + revert Ha. apply admitted_transfer; auto. intros j. by rewrite Fa.
    + rewrite Fs. destruct Ha as (_ & x & e & _ & _ & Hj & Hdr). by eapply da_live.
    + rewrite Es. exact (proj1 (Forall_forall _ _) Hsend c Hc (proj1 Ha)).
  - split; [rewrite Fmo; apply Hap|]. unfold drive_of. rewrite Fa, Fmo, Fs. apply Hap.
Qed.

Lemma progressed_clock (s : Sup B R) (k : clock) : progressed s (set_clock k s).
Proof. exact (progressed_frame s (authority s) k (rwork s) (fun Ha => Ha)). Qed.

Lemma enforce_ok (s s' : Sup B R) :
  enforce_degraded_deadline observed s = (Ok tt, s') -> progressed s s'.
Proof.
  unfold enforce_degraded_deadline, tick. destruct (episode (loss s)) as [ep|] eqn:He.
  2:{ intros [= <-]. reflexivity. }
  destruct (now (hostclock s)) as [t k]. destruct (_ <=? t); [|intros [= <-]; apply progressed_clock].
  pose proof (stop_ending_spec observed DeadlineEnd (set_clock k s) ep He) as (_ & Hl & _).
  intros [= Hr <-]. apply latched_clear in Hr. congruence.
Qed.

Lemma staged_scratch_in (sv : Admission.Supervisor) supplied batch (c : clock) w :
  w ∈ (staged_scratch sv supplied batch c).1 ->
  exists entries c', stage_batch sv supplied batch c = (Ok entries, c') /\ w ∈ (fun e => e.1.1) <$> entries.
Proof.
  unfold staged_scratch. destruct (stage_batch sv supplied batch c) as [[entries| |] c'];
    [eauto|intros Hw; by apply not_elem_of_nil in Hw..].
Qed.

Lemma prepare_wires (sv : Admission.Supervisor) supplied batch (c c' : clock) p :
  prepare_mit_batch sv supplied batch c = (Ok p, c') ->
  exists entries c1, stage_batch sv supplied batch c = (Ok entries, c1) /\ p.1 = (fun e => e.1.1) <$> entries.
Proof.
  unfold prepare_mit_batch. destruct (stage_batch sv supplied batch c) as [[entries| |] c1]; [|discriminate..].
  destruct (check_comm_watchdog _ _ c1) as [[[]| |] c2]; cbn [rbind]; [|discriminate..].
  intros [= <- _]. eauto.
Qed.

(** From the bound batch to the bus. *)
Lemma bound_batch_sent (cmds : list MitJointCommand) (l : list nat) (supplied : option Config.MotorEntry)
  (s0 s s' : Sup B R) :
  Authority.authority_ok (authority s0) -> plans_ok s0 -> drives_apart s0 ->
  map_Forall (fun _ => policy_ok) (sv_limits (adm s0)) ->
  has_latched_fault s0 = false -> hardware_estop s0 = false ->
  progressed s0 s -> all_permitted s -> Forall2 (bound_to (adm s) supplied) cmds l ->
  prepare_and_deliver observed display supplied (zip cmds l) s = (Ok tt, s') ->
  exists sheds sent, batch_sent supplied s0 s' sheds sent.
Proof.
  intros Hok Hpl Hap Hpol Hf He P Hperm Hbound. unfold prepare_and_deliver, tick.
  assert (Hstaged : forall c entries c', stage_batch (adm s) supplied (zip cmds l) c = (Ok entries, c') ->
    forall w, w ∈ (fun e => e.1.1) <$> entries -> admitted_for (adm s) supplied (active_joints (adm s)) w).
  { intros c entries c' Est. apply Forall_forall. eapply staged_admitted; [exact Hbound|].
    eapply stage_batch_prepared; [|exact Est]. destruct (pg_setup _ _ P) as (_ & -> & _). exact Hpol. }
  destruct (now (hostclock s)) as [bt k].
  destruct (prepare_mit_batch _ _ _ _) as [[p|e|] c] eqn:Ep; [| |discriminate];
    (assert (P4 : progressed s0 (set_clock c (set_clock k s)))
      by (etransitivity; [exact P|]; etransitivity; [exact (progressed_clock s k)|apply progressed_clock])).
  - destruct (prepare_wires _ _ _ _ _ _ Ep) as (entries & c1 & Est & Hp1).
    apply deliver_sent; auto. intros w. rewrite Hp1. exact (Hstaged _ _ _ Est w).
  - destruct (is_comm_watchdog e); [|discriminate].
    destruct (shed_after_stale_pose _ _ _ _) as [[[p|]| |] s4] eqn:Es; [|discriminate..].
    destruct (stale_pose_ok _ _ _ _ (pg_ok _ _ P4 Hok) (pg_plans _ _ P4 Hpl) Es) as (P5 & Hperm5 & -> & Hleft).
    apply deliver_sent; auto; [by etransitivity|].
    intros w [Hw Hns]%drop_shed_in. destruct (staged_scratch_in _ _ _ _ _ Hw) as (entries & c1 & Est & Hin).
    pose proof (Hstaged _ _ _ Est w Hin) as Ha. destruct (pg_setup _ _ P5) as (S1 & S2 & S3 & _).
    revert Ha. apply admitted_transfer; auto; [exact (pg_mode _ _ P5)|].
    intros j Hj Hd. destruct (Hleft j _ Hj Hd) as [Hl|Hl]; [exact Hl|contradiction].
Qed.

(** C2: a batch is sent only with permission.  When [admit_and_send_mit_with] accepts
    a batch, the writes on the bus are the Disables of the drives of a subtree it
    had to shed, in order and recorded as shed, and then MIT frames, all of them
    accepted; each MIT frame encodes a command inside every limit of its joint,
    goes to that joint's configured drive, which is not shed, and that joint is
    active, its reference is permitted and its Enable has been written; no fault
    is latched and the emergency stop is released.  That no active joint's drive
    is shed is kept. *)
Theorem sent_only_with_permission (cmds : list MitJointCommand) (supplied : option Config.MotorEntry)
  (s s' : Sup B R) :
  Authority.authority_ok (authority s) -> plans_ok s -> drives_apart s ->
  map_Forall (fun _ => policy_ok) (sv_limits (adm s)) ->
  admit_and_send_mit_with observed display cmds supplied s = (Ok tt, s') ->
  exists sheds sent, batch_sent supplied s s' sheds sent.
Proof.
  intros Hok Hpl Hap Hpol. unfold admit_and_send_mit_with.
  destruct (enforce_degraded_deadline observed s) as [[[]| |] s1] eqn:E1; [|discriminate..].
  pose proof (enforce_ok s s1 E1) as P1.
  destruct (require_fault_clear (adm s1)) as [[]| |] eqn:Ef; [|discriminate..].
  destruct (hardware_estop s1) eqn:Ee; [discriminate|]. cbn [refuse_if rbind].
  destruct (try_for_each _ _) as [[]| |]; [|discriminate..].
  destruct (ensure_reference_for_active observed display s1) as [[shd| |] s2] eqn:E2; [|discriminate..].
  destruct (ensure_active_ok s1 s2 shd (pg_ok _ _ P1 Hok) (pg_plans _ _ P1 Hpl) E2) as [P2 Hperm].
  set (cmds' := match _ with Some _ => _ | None => _ end). set (s3 := set_adm _ s2).
  assert (P3 : progressed s s3).
  { transitivity s1; [exact P1|]. transitivity s2; [exact P2|].
    split; cbn; auto; [by repeat split| |by intros []]. exists []. by rewrite !app_nil_r. }
  destruct (bind_batch (adm s3) supplied [] cmds') as [configured| |] eqn:Eb; [|discriminate..].
  destruct (bind_batch_bound _ _ _ _ _ Eb) as (l & El & Hbound). cbn [app] in El. subst l.
  apply bound_batch_sent; auto.
  - rewrite <- (pg_faults _ _ P1). by apply latched_clear.
  - destruct (pg_setup _ _ P1) as (_ & _ & _ & _ & <-). exact Ee.
Qed.

End Wires.

(** ** Examples *)

(** The bench session in an episode whose deadline passed a second ago. *)
Definition late_sup : Sup (Reporting.Spy MemoryBus) unit :=
  set_loss (mkLoss [] (Some (mkEpisode Authority.elbow [Authority.elbow] [Authority.pitch] [] 0 1000000000))
              None None None None) bench_sup.

Lemma episode_ends_in_stop_witness :
  let '(r, s') := admit_and_send_mit_with nothing_observed (fun _ => ""%string) [bench_command] None late_sup in
  (exists e, r = Err e) /\ halted s' /\ has_latched_fault s' = true.
Proof.
  pose proof (episode_ends_in_stop nothing_observed (fun _ => ""%string) late_sup _ eq_refl) as (Hd & _ & _).
  specialize (Hd ltac:(vm_compute; discriminate) [bench_command] None).
  destruct (admit_and_send_mit_with _ _ _ _ _) as [r s']. destruct Hd as (H1 & H2 & H3 & _). auto.
Defined.

Abbreviation bench_sent :=
  (admit_and_send_mit_with nothing_observed (fun _ => ""%string) [bench_command] None bench_sup).

Lemma sent_only_with_permission_witness :
  exists sheds sent, batch_sent None bench_sup bench_sent.2 sheds sent.
Proof.
  assert (E : bench_sent.1 = Ok tt) by (vm_compute; reflexivity). revert E.
  destruct bench_sent as [r s'] eqn:Es. cbn [fst snd]. intros ->.
  apply (sent_only_with_permission nothing_observed (fun _ => ""%string) [bench_command] None bench_sup s').
  - apply Authority.initial_virtual_ok.
  - constructor.
  - apply idle_apart; [vm_compute; repeat constructor; apply not_elem_of_nil|by left].
  - apply map_Forall_to_list. vm_compute. repeat constructor.
  - exact Es.
Defined.

End Send.
