(* ===== verification/Consume.v ===== *)
(** * Consume: what the supervisor makes of a receive report

    [src/crates/davout/src/feedback_consumer.rs], with [inspect_shed_frame] of
    [drive_loss.rs]: one ordered pass over everything a drain delivered, then one
    admission per drive of the latest pose.

    Three kinds of caller differ by [ReceiveContext].  [display] renders an error
    ([to_string]); log lines are left out.  The reference backend is the physical
    one. *)

From Stdlib Require Import ZArith Lia Bool.
From stdpp Require Import base gmap strings list pretty.
From S2P Require Import Prelude Float Comm Config Limits TotalTorque Params Mit Wire Bus Receive Feedback Reporting Faults Davout Filter Admission Authority Physical Lifecycle.

Module Consume.
Import Comm Mit Bus Receive Feedback Faults Davout Filter Admission Lifecycle.

Definition FEEDBACK_VELOCITY_LIMIT_TRIPS : Z := 3.
Definition FEEDBACK_VELOCITY_FAULT_MARGIN_RAD_S : f64 := lit64 50 100.
Definition SHED_REPLY_GRACE : Z := 20000000.

Inductive ReferenceReceivePhase : Type := BeforeEnable | EnabledBeforeZero | PhaseEnabled.

Inductive ReceiveContext : Type :=
| Operational
| Reference (target : MotorAddress) (phase : ReferenceReceivePhase)
| DisabledInspection.

Definition is_enabled (p : ReferenceReceivePhase) : bool :=
  match p with EnabledBeforeZero | PhaseEnabled => true | BeforeEnable => false end.

Definition coordinate_trusted (target : MotorAddress) (p : ReferenceReceivePhase) (a : MotorAddress)
  (peer_referenced : bool) : bool :=
  if bool_decide (a = target) then match p with PhaseEnabled => true | _ => false end else peer_referenced.

Definition reference_target (c : ReceiveContext) : option MotorAddress :=
  match c with Reference target _ => Some target | _ => None end.

Definition inspecting (c : ReceiveContext) : bool :=
  match c with DisabledInspection => true | _ => false end.

Record ReferencePoseObservation : Type := mkRefPose {
  rp_order : nat;
  rp_address : MotorAddress;
  rp_can_id : Z;
  rp_received_at : Z;
  rp_state : MotorState
}.

Record FeedbackConsumption : Type := mkConsumption {
  fc_error : option DavoutError;
  fc_transition : bool;
  fc_poses : list ReferencePoseObservation;
  fc_completion : ReceiveCompletion;
  fc_raw_frames : nat;
  fc_read_attempts : nat
}.

Record PoseCandidate : Type := mkCandidate {
  pc_order : nat;
  pc_motor : Config.MotorEntry;
  pc_address : MotorAddress;
  pc_state : MotorState
}.

Inductive OrderedReceive : Type :=
| OMotor (o : FeedbackObservation)
| OEcho (h : HostEchoObservation)
| OTransport (f : TimedCanFrame)
| OTerminal (e : BusError).

(** The locals of the pass: first error, first transition, collected reference
    poses, candidates and the last clock reading. *)
Record Acc : Type := mkAcc {
  acc_error : option DavoutError;
  acc_transition : bool;
  acc_poses : list ReferencePoseObservation;
  acc_candidates : list PoseCandidate;
  acc_floor : option Z
}.
Definition acc_start : Acc := mkAcc None false [] [] None.

(** [if first_error.is_none() { first_error = e }]. *)
Definition note_error (e : option DavoutError) (a : Acc) : Acc :=
  mkAcc (match acc_error a with Some x => Some x | None => e end) (acc_transition a) (acc_poses a)
    (acc_candidates a) (acc_floor a).
(** [first_transition |= t]. *)
Definition note_transition (t : bool) (a : Acc) : Acc :=
  mkAcc (acc_error a) (acc_transition a || t) (acc_poses a) (acc_candidates a) (acc_floor a).
Definition with_poses (ps : list ReferencePoseObservation) (a : Acc) : Acc :=
  mkAcc (acc_error a) (acc_transition a) ps (acc_candidates a) (acc_floor a).
Definition with_candidates (cs : list PoseCandidate) (a : Acc) : Acc :=
  mkAcc (acc_error a) (acc_transition a) (acc_poses a) cs (acc_floor a).
Definition with_floor (f : option Z) (a : Acc) : Acc :=
  mkAcc (acc_error a) (acc_transition a) (acc_poses a) (acc_candidates a) f.

(** ** The ordered stream *)

Definition ordered_item : Type := (nat * nat * OrderedReceive)%type.
Definition key_le (x y : ordered_item) : bool :=
  (x.1.1 <? y.1.1)%nat || ((x.1.1 =? y.1.1)%nat && (x.1.2 <=? y.1.2)%nat).

(** [sort_by_key]: stable. *)
Fixpoint insert_item (x : ordered_item) (l : list ordered_item) : list ordered_item :=
  match l with
  | [] => [x]
  | y :: rest => if key_le x y then x :: y :: rest else y :: insert_item x rest
  end.
Definition sort_items (l : list ordered_item) : list ordered_item := foldr insert_item [] l.

Definition delivered_items (r : FeedbackReport) : list ordered_item :=
  ((fun o => (obs_order o, 1%nat, OMotor o)) <$> observations r)
  ++ ((fun t => (tr_order t, 1%nat, OTransport (tr_frame t))) <$> transport_frames r)
  ++ ((fun h => (he_order h, 1%nat, OEcho h)) <$> host_echoes r).

Definition ordered_events (r : FeedbackReport) : list ordered_item :=
  let items := delivered_items r in
  sort_items
    (items ++
     match fr_terminal_error r with
     | None => []
     | Some e =>
         [(match fr_terminal_error_order r with
           | Some o => o
           | None => Nat.max (max_list ((fun x : ordered_item => S x.1.1) <$> items)) (raw_frames r)
           end, 0%nat, OTerminal e)]
     end).

(** ** Evidence *)

Definition mode_code (m : DriveMode) : Z :=
  match m with Reset => 0 | Calibration => 1 | Run => 2 | Reserved => 3 end.
Definition drive_mode_debug (m : DriveMode) : string :=
  match m with Reset => "Reset" | Calibration => "Calibration" | Run => "Run" | Reserved => "Reserved" end.
Definition mode_debug (m : OperationalMode) : string :=
  match m with Disabled => "Disabled" | Ready => "Ready" | Active => "Active" end.

Definition at_time (t : Z) : DeviceFaultEvidence := mkDevice 0 zeros4 zeros4 zeros4 0 zeros4 0 None (Some t).

Definition header_evidence (t flags : Z) (m : DriveMode) : DeviceFaultEvidence :=
  mkDevice flags zeros4 zeros4 zeros4 0 zeros4 0 (Some (mode_code m)) (Some t).

(** The first four received bytes of a truncated type-21 payload are faults, the
    others warnings; [n] of them arrived. *)
Definition pad4 (l : list Z) : list Z := take 4 (l ++ zeros4).
Definition malformed_evidence (received_at can_id : Z) (m : MalformedFeedback) : DeviceFaultEvidence :=
  if bool_decide (mf_kind m = Data) then
    let flags := default 0 (mf_status_flags m) in
    let mode := mode_code <$> mf_drive_mode m in
    if Z.shiftr can_id 24 =? 21 then
      let n := Nat.min (Z.to_nat (Z.min (mf_payload_len m) 8)) (length (mf_raw m)) in
      let bytes := take n (mf_raw m) in
      mkDevice flags zeros4 zeros4
        (pad4 (take 4 bytes)) (Z.ones (Z.of_nat (Nat.min n 4)))
        (pad4 (drop 4 bytes)) (Z.ones (Z.of_nat (n - 4))) mode (Some received_at)
    else mkDevice flags zeros4 zeros4 zeros4 0 zeros4 0 mode (Some received_at)
  else at_time received_at.

Section Consume.
Context {B : Type} `{CanBus B} {R : Type} `{ReferenceWork R}.
Variable display : DavoutError -> string.

Abbreviation S := (Sup B R).
Abbreviation M A := (A * S)%type.

(** The fields of [adm] that feedback changes. *)
Definition with_evidence (states : gmap MotorAddress MotorState) (invalid : gset MotorAddress)
  (zeros : gmap MotorAddress Z) (solicits : gmap MotorAddress SolicitedState) (s : S) : S :=
  let a := adm s in
  set_adm (mkSupervisor (mode a) (sv_control_mode a) (fault_authority a) (sv_limits a) (motors a)
    (motor_addresses a) (sv_control a) states (active_since a) zeros invalid
    (sv_last_tau_ff a) (total_torque_clamps a) (envelope_clamps a) (sv_wrong_sign_state a)
    (last_tick a) (active_joints a) solicits (shed a)) s.

Definition mark_invalid (ad : MotorAddress) (s : S) : S :=
  with_evidence (motor_states (adm s)) ({[ad]} ∪ invalid_feedback (adm s)) (set_zero_on_wire (adm s))
    (unanswered_solicits (adm s)) s.

Definition record_receive_fault (c : FaultClass) (j : option string) (ad : option MotorAddress) (m : string)
  (d : DeviceFaultEvidence) (r : ReceiveFaultEvidence) (s : S) : M bool :=
  let '(t, s) := tick s in
  let '(first, f) := record_receive (fault_authority (adm s)) c j ad m d r t in
  (first, set_adm (with_faults f (adm s)) s).

Definition record_device_warning (j : string) (ad : MotorAddress) (bytes : list Z) (s : S) : S :=
  if bool_decide (bytes = zeros4) then s
  else let '(t, s) := tick s in
       set_adm (with_faults (record_warning (fault_authority (adm s)) j ad bytes t) (adm s)) s.

(** [self.require_fault_clear().err()]. *)
Definition latched_error (s : S) : option DavoutError :=
  match require_fault_clear (adm s) with Err e => Some e | _ => None end.

(** ** Expectations *)

Definition feedback_run_expected (m : Config.MotorEntry) (ad : MotorAddress) (received_at : Z)
  (c : ReceiveContext) (s : S) : bool :=
  let on_wire := negb (bool_decide (ad ∈ enable_echo_pending (session s))) in
  match c with
  | Operational =>
      bool_decide (mode (adm s) = Active) && bool_decide (Config.joint m ∈ active_joints (adm s))
      && match active_since (adm s) with Some enabled => enabled <? received_at | None => false end
      && on_wire
  | Reference target p => is_enabled p && bool_decide (ad = target) && on_wire
  | DisabledInspection => false
  end.

Definition feedback_motion_guards_enabled (c : ReceiveContext) (s : S) : bool :=
  match c with
  | Operational => bool_decide (mode (adm s) = Active)
  | Reference _ p => is_enabled p
  | DisabledInspection => false
  end.

Definition track_drive_frame (m : Config.MotorEntry) (ad : MotorAddress) (dm : DriveMode)
  (received_at : Z) (run_expected : bool) (s : S) : S :=
  let tr := tracking s in
  let previous := drive_frames tr !! ad in
  let s := set_tracking (mkTracking (feedback_velocity_trips tr) (last_feedback_samples tr)
             (last_feedback_rx tr) (<[ad := mkTrack dm received_at]> (drive_frames tr))) s in
  match previous with
  | None => s
  | Some previous =>
      if negb (bool_decide (dm = Reset)) || negb run_expected then s
      else
        let silence := elapsed (dt_at previous) received_at in
        if negb (is_reboot_transition (Some (dt_mode previous)) dm)
           && (silence <=? from_millis (Config.comm_watchdog_ms (sv_control (adm s))))
        then s
        else
          set_diag (mkDiag (out_of_limits (diag s))
            (Some (mkReboot (Config.joint m) ad (dt_mode previous) dm silence))
            (last_refresh_frames (diag s))) s
  end.

(** [received_at > Instant::now()], reading the clock past the floor only. *)
Definition is_future (received_at : Z) (floor : option Z) (s : S) : bool * option Z * S :=
  if match floor with Some f => received_at <=? f | None => false end then (false, floor, s)
  else let '(t, s) := tick s in (t <? received_at, Some t, s).

(** ** Hazards of one frame *)

Definition check_feedback_position (m : Config.MotorEntry) (st : MotorState) (c : ReceiveContext) (s : S)
  : M (result DavoutError unit) :=
  if negb (feedback_motion_guards_enabled c s) then (Ok tt, s)
  else if match c with
          | Reference target p =>
              negb (coordinate_trusted target p (address_of_motor m)
                      (Authority.contains (Config.joint m) (authority s)))
          | _ => false
          end then (Ok tt, s)
  else
    match sv_limits (adm s) !! Config.joint m with
    | None => (Err (EUnknownJoint (Config.joint m)), s)
    | Some lim =>
        let position := f64_of_f32 (ms_position_rad st) in
        if Limits.measured_position_fault position lim then
          let d := diag s in
          (Err (ELimit (Config.joint m) (Msg "measured position {} outside [{}, {}] (+ slack {})"
             [AF64 position; AF64 (Limits.hard_lower lim); AF64 (Limits.hard_upper lim);
              AF64 (Limits.measured_fault_slack_rad (Limits.margin lim))])),
           set_diag (mkDiag ({[Config.joint m]} ∪ out_of_limits d) (last_drive_reboot d)
                       (last_refresh_frames d)) s)
        else (Ok tt, s)
    end.

Definition with_velocity (v : f32) (st : MotorState) : MotorState :=
  mkMotorState (ms_position_rad st) v (ms_torque_nm st) (ms_temperature_c st) (ms_fault st) (ms_updated st).

Definition with_trips (trips : gmap string Z) (samples : gmap string FeedbackSample) (s : S) : S :=
  let tr := tracking s in
  set_tracking (mkTracking trips samples (last_feedback_rx tr) (drive_frames tr)) s.

(** Saturating [u8] count of consecutive trips. *)
Definition next_trips (o : option Z) : Z := match o with Some n => Z.min (n + 1) 255 | None => 1 end.

(** The measured velocity of a new sample: from positions when time has passed. *)
Definition measured_velocity (previous : option FeedbackSample) (position raw : f64) (received_at : Z) : f64 :=
  match previous with
  | Some prev =>
      let dt := as_secs_f64 (elapsed (s_received_at prev) received_at) in
      if fgt dt fzero then div64 (sub64 position (s_position_rad prev)) dt else raw
  | None => raw
  end.

Definition check_feedback_velocity (m : Config.MotorEntry) (st : MotorState) (received_at : Z)
  (c : ReceiveContext) (s : S) : result DavoutError unit * MotorState * S :=
  let j := Config.joint m in
  let trips := feedback_velocity_trips (tracking s) in
  let samples := last_feedback_samples (tracking s) in
  if negb (feedback_motion_guards_enabled c s) then (Ok tt, st, with_trips (delete j trips) (delete j samples) s)
  else
    match sv_limits (adm s) !! j with
    | None => (Err (EUnknownJoint j), st, s)
    | Some lim =>
        let raw := f64_of_f32 (ms_velocity_rad_s st) in
        let position := f64_of_f32 (ms_position_rad st) in
        let measured := measured_velocity (samples !! j) position raw received_at in
        let st := with_velocity (f32_of_f64 measured) st in
        let threshold := add64 (Limits.velocity lim) FEEDBACK_VELOCITY_FAULT_MARGIN_RAD_S in
        let samples := store_by_joint samples j (mkSample position received_at) in
        if fgt (fabs raw) (Limits.velocity lim) && fle (fabs measured) threshold
        then (Ok tt, st, with_trips (delete j trips) samples s)
        else if fgt (fabs measured) threshold then
          let n := next_trips (trips !! j) in
          (if FEEDBACK_VELOCITY_LIMIT_TRIPS <=? n
           then Err (ELimit j (Msg "feedback |velocity| {} > {} (limit {} + margin {})"
                  [AF64 measured; AF64 threshold; AF64 (Limits.velocity lim);
                   AF64 FEEDBACK_VELOCITY_FAULT_MARGIN_RAD_S]))
           else Ok tt,
           st, with_trips (<[j := n]> trips) samples s)
        else (Ok tt, st, with_trips (delete j trips) samples s)
    end.

Definition record_malformed_feedback (m : Config.MotorEntry) (ad : MotorAddress) (received_at can_id : Z)
  (mf : MalformedFeedback) (c : ReceiveContext) (s : S) : M bool :=
  let j := Some (Config.joint m) in
  let device := malformed_evidence received_at can_id mf in
  let '(first1, s) :=
    if negb (status_flags device =? 0) || negb (bool_decide (partial_fault_bytes device = zeros4))
    then record_fault FDevice j (Some ad)
           "vendor fault evidence from malformed data; partial words remain unqualified" device s
    else (false, s) in
  let current_enable := feedback_run_expected m ad received_at c s in
  let '(first2, s) :=
    if bool_decide (drive_mode device = Some 3)
       || (current_enable && match drive_mode device with Some mode => negb (mode =? 2) | None => false end)
    then record_fault FDriveState j (Some ad) "unexpected drive mode in malformed Data status" device s
    else (false, s) in
  let s := mark_invalid ad s in
  let '(first3, s) :=
    record_receive_fault FFeedback j (Some ad) (display (EBus (MalformedFeedbackError ad (mf_reason mf)))) device
      (receive_frame (mkFrameEvidence (Some (interface ad)) can_id true received_at (mf_raw mf)
                        (mf_payload_len mf) (mf_kind mf) (Some (mf_reason mf)))) s in
  (first1 || first2 || first3, s).

(** [inspect_shed_frame] of [drive_loss.rs]. *)
Definition inspect_shed_frame (j : string) (ad : MotorAddress) (dm : DriveMode) (received_at : Z)
  (device : DeviceFaultEvidence) (s : S) : M (option (DavoutError * bool)) :=
  let grace := match shed_at (loss s) with
               | Some shed_at => received_at <=? shed_at + SHED_REPLY_GRACE
               | None => false
               end in
  if bool_decide (dm = Reset) || grace then (None, s)
  else
    let error := EInvalidFeedback j
      (Msg "shed drive reported {:?} after its Disable; it is never commanded again"
         [AStr (drive_mode_debug dm)]) in
    let '(transition, s) := record_fault FDriveState (Some j) (Some ad) (display error) device s in
    (Some (error, transition), s).

(** ** Echoes of the host's own commands *)

Definition observe_reporting_off_echo (ad : MotorAddress) (received_at : Z) (s : S) : S :=
  match m ← find_first (is_motor_address ad) (motors (adm s)); reporting_off_written s (Config.joint m) with
  | Some _ =>
      let e := session s in
      set_session (mkSession (enable_echo_pending e) (enable_writes_pending e) (enable_write_due e)
        (reporting_off_since e) (<[ad := received_at]> (reporting_off_echoed e))) s
  | None => s
  end.

Definition note_set_zero (ad : MotorAddress) (at_ : Z) (s : S) : S :=
  let zeros := set_zero_on_wire (adm s) in
  let at_ := match zeros !! ad with Some last => Z.max last at_ | None => at_ end in
  with_evidence (motor_states (adm s)) (invalid_feedback (adm s)) (<[ad := at_]> zeros)
    (unanswered_solicits (adm s)) s.

Definition consume_echo (h : HostEchoObservation) (s : S) : S :=
  let ad := he_address h in
  match he_command h with
  | EchoEnable =>
      let e := session s in
      if bool_decide (ad ∈ enable_writes_pending e) then s
      else
        let s := set_session (mkSession (enable_echo_pending e ∖ {[ad]}) (enable_writes_pending e)
                   (enable_write_due e) (reporting_off_since e) (reporting_off_echoed e)) s in
        set_physical (Physical.count_silence_from ad (he_received_at h) (physical s)) s
  | EchoReportingOff => observe_reporting_off_echo ad (he_received_at h) s
  | EchoSetZero => note_set_zero ad (he_received_at h) s
  end.

(** ** One status frame of an installed drive *)

(** [error] was found while a pose of [ad] was prepared or admitted. *)
Definition reject_pose (ad : MotorAddress) (error : DavoutError) (sa : S * Acc) : S * Acc :=
  let '(s, a) := sa in
  let s := mark_invalid ad s in
  let '(t, s) := record_runtime_error display error s in
  (s, note_error (Some error) (note_transition t a)).

(** The closure [prepared]: the joint-space state of an inspected raw pose. *)
Definition prepare_pose (m : Config.MotorEntry) (received_at : Z) (raw : MotorState) (c : ReceiveContext)
  (floor : option Z) (s : S) : result DavoutError MotorState * option Z * S :=
  match (validate_motor_feedback (Config.joint m) raw ;!
         let! st := motor_to_joint_state m raw in
         validate_motor_feedback (Config.joint m) st ;! Ok st) with
  | Ok st =>
      let '(future, floor, s) := is_future received_at floor s in
      if future then (Err (EInvalidFeedback (Config.joint m) (msg "receive timestamp is in the future")), floor, s)
      else
        let '(r, s) := check_feedback_position m st c s in
        ((r ;! Ok st), floor, s)
  | e => (e, floor, s)
  end.

Definition pose_slot (ad : MotorAddress) (cs : list PoseCandidate) : option PoseCandidate :=
  find_first (fun c => bool_decide (pc_address c = ad)) cs.

(** Replace the candidate of this address, or append. *)
Fixpoint put_candidate (x : PoseCandidate) (cs : list PoseCandidate) : list PoseCandidate :=
  match cs with
  | [] => [x]
  | c :: rest => if bool_decide (pc_address c = pc_address x) then x :: rest else c :: put_candidate x rest
  end.

(** [o] is at or after (strictly after, with [strict]) instant [t]. *)
Definition later_update (strict : bool) (o : option MotorState) (t : Z) : bool :=
  match o ≫= ms_updated with
  | Some previous => if strict then t <? previous else t <=? previous
  | None => false
  end.

(** From the prepared state to a candidate. *)
Definition offer_pose (order : nat) (o : FeedbackObservation) (m : Config.MotorEntry) (flags : Z) (c : ReceiveContext)
  (st : MotorState) (sa : S * Acc) : S * Acc :=
  let '(s, a) := sa in
  let ad := obs_address o in
  if match c with Operational => true | _ => false end && bool_decide (mode (adm s) = Active)
     && bool_decide (ad ∈ enable_echo_pending (session s)) then (s, a)
  else if later_update false (motor_states (adm s) !! ad) (obs_received_at o) then (s, a)
  else if later_update true (pc_state <$> pose_slot ad (acc_candidates a)) (obs_received_at o) then (s, a)
  else
    let a := if bool_decide (reference_target c = Some ad) && (flags =? 0)
             then with_poses (acc_poses a ++ [mkRefPose order ad (obs_can_id o) (obs_received_at o) st]) a
             else a in
    (s, with_candidates (put_candidate (mkCandidate order m ad st) (acc_candidates a)) a).

Definition consume_pose (order : nat) (o : FeedbackObservation) (m : Config.MotorEntry) (f : MitFeedback)
  (c : ReceiveContext) (sa : S * Acc) : S * Acc :=
  let '(s, a) := sa in
  let raw := mkMotorState (fb_position_rad f) (fb_velocity_rad_s f) (fb_torque_nm f) (fb_temperature_c f)
               (fb_status_flags f) (Some (obs_received_at o)) in
  let '(prepared, floor, s) := prepare_pose m (obs_received_at o) raw c (acc_floor a) s in
  let a := with_floor floor a in
  match prepared with
  | Ok st => offer_pose order o m (fb_status_flags f) c st (s, a)
  | Err e => reject_pose (obs_address o) e (s, a)
  | Panic => (s, a)
  end.

(** A status or version reply: its header first, then its pose. *)
Definition consume_header (order : nat) (o : FeedbackObservation) (m : Config.MotorEntry) (dm : DriveMode)
  (flags : Z) (status : option MitFeedback) (c : ReceiveContext) (sa : S * Acc) : S * Acc :=
  let '(s, a) := sa in
  let ad := obs_address o in
  let j := Config.joint m in
  let device := header_evidence (obs_received_at o) flags dm in
  let s := if bool_decide (dm = Calibration)
           then set_physical (Physical.record_calibration_mode ad (physical s)).2 s else s in
  let '(s, a) :=
    if negb (flags =? 0) then
      let '(t, s) := record_fault FDevice (Some j) (Some ad) "vendor status fault flags" device s in
      (s, note_error (latched_error s) (note_transition t a))
    else (s, a) in
  if is_shed (adm s) ad then
    let lost := bool_decide (lost_address (loss s) = Some ad) in
    let s := track_drive_frame m ad dm (obs_received_at o) lost s in
    let '(r, s) := inspect_shed_frame j ad dm (obs_received_at o) device s in
    match r with
    | Some (error, t) => (s, note_error (Some error) (note_transition t a))
    | None => (s, a)
    end
  else
    let current_enable := feedback_run_expected m ad (obs_received_at o) c s in
    let s := track_drive_frame m ad dm (obs_received_at o) current_enable s in
    if bool_decide (dm = Reserved) || (current_enable && negb (bool_decide (dm = Run)))
       || (inspecting c && negb (bool_decide (dm = Reset)))
    then
      let error := EInvalidFeedback j
        (Msg "unexpected drive mode {:?} for {:?}; no qualified factory-calibration context"
           [AStr (drive_mode_debug dm); AStr (mode_debug (mode (adm s)))]) in
      let s := mark_invalid ad s in
      let '(t, s) := record_fault FDriveState (Some j) (Some ad) (display error) device s in
      (s, note_error (Some error) (note_transition t a))
    else
      match status with
      | None =>
          if inspecting c then (s, a)
          else reject_pose ad (EInvalidFeedback j (msg "unsolicited firmware version reply")) (s, a)
      | Some f => consume_pose order o m f c (s, a)
      end.

Definition consume_motor (order : nat) (o : FeedbackObservation) (c : ReceiveContext) (sa : S * Acc) : S * Acc :=
  let '(s, a) := sa in
  match find_first (is_motor_address (obs_address o)) (stop_motors s) with
  | None => (s, a)
  | Some m =>
      match obs_event o with
      | EMalformed mf =>
          let '(t, s) := record_malformed_feedback m (obs_address o) (obs_received_at o) (obs_can_id o) mf c s in
          (s, note_error (latched_error s) (note_transition t a))
      | EDetailedFault d =>
          let device := mkDevice 0 (Wire.fault_bytes d) (Wire.warning_bytes d) zeros4 0 zeros4 0 None
                          (Some (obs_received_at o)) in
          let s := record_device_warning (Config.joint m) (obs_address o) (Wire.warning_bytes d) s in
          if Wire.has_fault d then
            let '(t, s) := record_fault FDevice (Some (Config.joint m)) (Some (obs_address o))
              "vendor detailed fault; word byte order and physical recovery unqualified" device s in
            (s, note_error (latched_error s) (note_transition t a))
          else (s, a)
      | EStatus f => consume_header order o m (fb_drive_mode f) (fb_status_flags f) (Some f) c (s, a)
      | EFirmwareVersion v => consume_header order o m (ver_drive_mode v) (ver_status_flags v) None c (s, a)
      end
  end.

(** ** The pass *)

Definition transport_evidence (f : TimedCanFrame) : ReceiveFrameEvidence :=
  let r := received f in
  mkFrameEvidence (rx_interface r) (cf_id (rx_frame r)) (cf_extended (rx_frame r)) (received_at f)
    (cf_data (rx_frame r)) (rx_payload_len r) (rx_kind r) None.

Definition consume_event (c : ReceiveContext) (sa : S * Acc) (x : ordered_item) : S * Acc :=
  let '(s, a) := sa in
  match x.2 with
  | OMotor o => consume_motor x.1.1 o c (s, a)
  | OEcho h => (consume_echo h s, a)
  | OTerminal RecvTimeout => (s, a)
  | OTerminal e =>
      let error := EBus e in
      let '(t, s) := record_runtime_error display error s in
      (s, note_error (Some error) (note_transition t a))
  | OTransport f =>
      let '(t, s) := record_receive_fault FTransport None None
        "received CAN error frame; physical bus state and error subscriptions unqualified"
        device_default (receive_frame (transport_evidence f)) s in
      (s, note_error (latched_error s) (note_transition t a))
  end.

(** One candidate becomes the session pose of its drive, or is rejected. *)
Definition admit_candidate (c : ReceiveContext) (at_rest : f64) (sa : S * Acc) (x : PoseCandidate) : S * Acc :=
  let '(s, a) := sa in
  match ms_updated (pc_state x) with
  | None => (s, a)
  | Some received_at =>
      let ad := pc_address x in
      let j := Config.joint (pc_motor x) in
      let '(r, st, s) := check_feedback_velocity (pc_motor x) (pc_state x) received_at c s in
      match (r ;! validate_motor_feedback j st) with
      | Err e =>
          reject_pose ad e
            (s, with_poses (filter (fun p => rp_address p <> ad) (acc_poses a)) a)
      | Panic => (s, a)
      | Ok _ =>
          let s := set_physical (Physical.observe_position ad (f64_of_f32 (ms_position_rad st)) received_at
                                   at_rest (physical s)).2 s in
          let sv := adm s in
          let solicits := match unanswered_solicits sv !! ad with
                          | Some _ => <[ad := solicited_default]> (unanswered_solicits sv)
                          | None => unanswered_solicits sv
                          end in
          let s := with_evidence (<[ad := st]> (motor_states sv)) (invalid_feedback sv ∖ {[ad]})
                     (set_zero_on_wire sv) solicits s in
          let tr := tracking s in
          (set_tracking (mkTracking (feedback_velocity_trips tr) (last_feedback_samples tr)
             (store_by_joint (last_feedback_rx tr) j received_at) (drive_frames tr)) s, a)
      end
  end.

Fixpoint insert_candidate (x : PoseCandidate) (l : list PoseCandidate) : list PoseCandidate :=
  match l with
  | [] => [x]
  | y :: rest => if (pc_order x <=? pc_order y)%nat then x :: y :: rest else y :: insert_candidate x rest
  end.

Definition record_replies (r : FeedbackReport) (s : S) : S :=
  let p := fold_left (fun p i => (Physical.record_identity i p).2) (Feedback.identities r) (physical s) in
  set_physical (fold_left (fun p o => Physical.record_read o p) (parameter_reads r) p) s.

Definition check_completion (r : FeedbackReport) (sa : S * Acc) : S * Acc :=
  let '(s, a) := sa in
  if is_complete (fr_completion r) then (s, a)
  else
    let error := EBus (ReceiveIncomplete (fr_completion r)) in
    let '(t, s) := record_receive_fault FTransport None None
      (display error +:+ "; raw frames=" +:+ pretty (raw_frames r) +:+ ", read attempts="
       +:+ pretty (fr_read_attempts r)) device_default
      (receive_incomplete (mkDrainEvidence (fr_completion r) (raw_frames r) (fr_read_attempts r))) s in
    (s, note_error (Some error) (note_transition t a)).

Definition consume_report_in_context (r : FeedbackReport) (c : ReceiveContext) (s : S)
  : FeedbackConsumption * S :=
  let s := record_replies r s in
  let at_rest := Config.zero_verify_tolerance_rad (homing_config (installed s)) in
  let '(s, a) := fold_left (consume_event c) (ordered_events r) (s, acc_start) in
  let '(s, a) := fold_left (admit_candidate c at_rest) (foldr insert_candidate [] (acc_candidates a)) (s, a) in
  let '(s, a) := check_completion r (s, a) in
  (mkConsumption (acc_error a) (acc_transition a) (acc_poses a) (fr_completion r) (raw_frames r)
     (fr_read_attempts r), s).

Definition consume_feedback_report (r : FeedbackReport) (s : S) : FeedbackConsumption * S :=
  consume_report_in_context r Operational s.

Definition invalidate_reference_target_pose_for_zero_attempt (m : Config.MotorEntry) (s : S) : S :=
  let ad := address_of_motor m in
  let j := Config.joint m in
  let tr := tracking s in
  let s := set_tracking (mkTracking (delete j (feedback_velocity_trips tr)) (delete j (last_feedback_samples tr))
             (delete j (last_feedback_rx tr)) (delete ad (drive_frames tr))) s in
  with_evidence (delete ad (motor_states (adm s))) (invalid_feedback (adm s)) (set_zero_on_wire (adm s))
    (unanswered_solicits (adm s)) s.

End Consume.

End Consume.
