(* ===== verification/Hazards.v ===== *)
(** * Hazards: no evidence of a hazard is lost, no doubtful pose is admitted

    Theorems about [Consume]: whatever a report holds and however it ends, every
    hazard in it is on the fault record afterwards, the consumer reports the
    first latch exactly once and touches nothing but evidence; and the session
    pose of a drive changes only by a later, valid status frame of that drive. *)

From Stdlib Require Import ZArith Lia Bool.
From stdpp Require Import base gmap strings list.
From S2P Require Import Prelude Float Comm Config Limits TotalTorque Params Mit Wire Bus Receive Feedback Reporting Faults Davout Filter Admission Authority Physical Lifecycle Stop Consume.

Module Hazards.
Import Comm Mit Bus Receive Feedback Faults Davout Filter Admission Lifecycle Consume.

(** ** Records of the authority *)

Definition recorded (c : FaultClass) (ad : option MotorAddress) (a : FaultAuthority) : Prop :=
  Exists (fun f => fault_class f = c /\ fault_address f = ad) (faults a).

Lemma recorded_grow (c : FaultClass) (ad : option MotorAddress) (a b : FaultAuthority) :
  faults_grow a b -> recorded c ad a -> recorded c ad b.
Proof.
  intros (kept & new & E & F). unfold recorded. rewrite E. intros Hx. apply Exists_app. left.
  clear E. induction F as [|f g fs gs Hg _ IH]; [exact Hx|].
  apply Exists_cons in Hx as [[<- <-]|Hx]; [left|right; auto].
  destruct Hg as (_ & -> & _ & -> & _). auto.
Qed.

Lemma latched_grow (a b : FaultAuthority) : faults_grow a b -> is_latched a = true -> is_latched b = true.
Proof.
  intros (kept & new & E & F). unfold is_latched. rewrite E. destruct F; [discriminate|reflexivity].
Qed.

Section Hazards.
Context {B : Type} `{CanBus B} {R : Type} `{ReferenceWork R}.
Variable display : DavoutError -> string.
Abbreviation S := (Sup B R).

(** With [u] false the cached poses are untouched, too. *)
Variable u : bool.

Abbreviation faults_of s := (fault_authority (adm s)).

(** ** What consumption may change *)

Record fed (s s' : S) : Prop := {
  fd_faults : faults_grow (faults_of s) (faults_of s');
  fd_owner : stop_motors s' = stop_motors s /\ authority s' = authority s /\ installed s' = installed s
    /\ hardware_estop s' = hardware_estop s /\ rwork s' = rwork s /\ reporting s' = reporting s
    /\ loss s' = loss s /\ bus s' = bus s;
  fd_session : enable_echo_pending (session s') ⊆ enable_echo_pending (session s)
    /\ enable_writes_pending (session s') = enable_writes_pending (session s);
  fd_adm : mode (adm s') = mode (adm s) /\ active_joints (adm s') = active_joints (adm s)
    /\ active_since (adm s') = active_since (adm s) /\ motors (adm s') = motors (adm s)
    /\ sv_limits (adm s') = sv_limits (adm s) /\ sv_control (adm s') = sv_control (adm s)
    /\ shed (adm s') = shed (adm s);
  fd_states : u = false -> motor_states (adm s') = motor_states (adm s)
}.

#[global] Instance fed_preorder : PreOrder fed.
Proof.
  split.
  - intros s. split; [reflexivity|auto 10|auto|auto 10|auto].
  - intros s1 s2 s3 [F1 O1 E1 A1 M1] [F2 O2 E2 A2 M2].
    split; [by etransitivity|intuition congruence| |intuition congruence|intros Hu; rewrite M2, M1; auto].
    destruct E1, E2. split; [set_solver|congruence].
Qed.

Lemma fed_latched (s s' : S) : fed s s' -> has_latched_fault s = true -> has_latched_fault s' = true.
Proof. intros F. exact (latched_grow _ _ (fd_faults _ _ F)). Qed.

(** One step of the pass: evidence only, the first latch reported once and never
    without an error. *)
Record passed (x y : S * Acc) : Prop := {
  ps_fed : fed x.1 y.1;
  ps_transition : acc_transition y.2
    = acc_transition x.2 || (negb (has_latched_fault x.1) && has_latched_fault y.1);
  ps_error : has_latched_fault x.1 = false -> has_latched_fault y.1 = true -> acc_error y.2 <> None;
  ps_kept : acc_error x.2 <> None -> acc_error y.2 = acc_error x.2
}.

#[global] Instance passed_preorder : PreOrder passed.
Proof.
  split.
  - intros x. split; [reflexivity| |congruence|auto].
    by rewrite andb_comm, andb_negb_r, orb_false_r.
  - intros x y z [F1 T1 E1 K1] [F2 T2 E2 K2].
    pose proof (fed_latched _ _ F1) as L1. pose proof (fed_latched _ _ F2) as L2. split.
    + by etransitivity.
    + rewrite T2, T1. destruct (has_latched_fault x.1), (has_latched_fault y.1), (has_latched_fault z.1), (acc_transition x.2);
        cbn in *; auto; try (discriminate L1; reflexivity); try (discriminate L2; reflexivity).
    + intros Hx Hz. destruct (has_latched_fault y.1) eqn:Hy.
      * rewrite K2; auto.
      * auto.
    + intros Hx. rewrite K2, K1; auto. rewrite K1; auto.
Qed.

(** A step that records nothing. *)
Lemma passed_quiet (s s' : S) (a a' : Acc) :
  fed s s' -> has_latched_fault s' = has_latched_fault s ->
  acc_transition a' = acc_transition a -> acc_error a' = acc_error a -> passed (s, a) (s', a').
Proof.
  intros F L T E. split; cbn; auto; [|congruence]. rewrite T, L.
  by rewrite andb_comm, andb_negb_r, orb_false_r.
Qed.

(** ** Records *)

Definition on_record (c : FaultClass) (ad : option MotorAddress) (s : S) : Prop :=
  recorded c ad (faults_of s).

Lemma on_record_fed (c : FaultClass) (ad : option MotorAddress) (s s' : S) :
  fed s s' -> on_record c ad s -> on_record c ad s'.
Proof. intros F. exact (recorded_grow c ad _ _ (fd_faults _ _ F)). Qed.

Lemma fed_faults_only (f : FaultAuthority) (k : clock) (s : S) :
  faults_grow (faults_of s) f -> fed s (set_adm (with_faults f (adm s)) (set_clock k s)).
Proof. intros Hg. split; cbn; [exact Hg|auto 10|auto|auto 10|auto]. Qed.

(** A record: the first latch is answered, the hazard is on record. *)
Definition records (c : FaultClass) (ad : option MotorAddress) (s : S) (t : bool) (s' : S) : Prop :=
  fed s s' /\ t = negb (has_latched_fault s) /\ has_latched_fault s' = true /\ on_record c ad s'.

Lemma record_fault_fed c j ad m d (s : S) :
  let '(t, s') := record_fault c j ad m d s in records c ad s t s'.
Proof.
  unfold record_fault, tick. destruct (now (hostclock s)) as [t k]. cbn [adm set_clock].
  destruct (record_latches (faults_of s) c j ad m d t) as (H1 & H2 & H3).
  pose proof (record_faults_grow (faults_of s) c j ad m d t) as Hg.
  destruct (record (faults_of s) c j ad m d t) as [first f]. cbn [fst snd] in *.
  split; [by apply fed_faults_only|]. split; [exact H1|]. split; [exact H2|].
  eapply Exists_impl; [exact H3|]. cbn. tauto.
Qed.

Lemma record_receive_fed c j ad m d r (s : S) :
  let '(t, s') := record_receive_fault c j ad m d r s in records c ad s t s'.
Proof.
  unfold record_receive_fault, tick. destruct (now (hostclock s)) as [t k]. cbn [adm set_clock].
  destruct (record_latches (faults_of s) c j ad m d t) as (H1 & H2 & H3).
  pose proof (record_faults_grow (faults_of s) c j ad m d t) as Hg.
  pose proof (update_receive_grow (record (faults_of s) c j ad m d t).2 (same_hazard c ad) r) as Hu.
  unfold record_receive. destruct (record (faults_of s) c j ad m d t) as [first f]. cbn [fst snd] in *.
  assert (Hor : recorded c ad f) by (eapply Exists_impl; [exact H3|cbn; tauto]).
  destruct (update_first _ _ _) as [fs|]; cbn [snd].
  - specialize (Hu _ eq_refl). split; [apply fed_faults_only; by etransitivity|]. split; [exact H1|].
    split; [exact (latched_grow _ _ Hu H2)|exact (recorded_grow _ _ _ _ Hu Hor)].
  - split; [by apply fed_faults_only|]. auto.
Qed.

(** A record followed by the noting of its transition and of an error. *)
Lemma passed_record c ad (s s' : S) (a : Acc) (t : bool) (e : option DavoutError) :
  records c ad s t s' -> e <> None -> passed (s, a) (s', note_error e (note_transition t a)).
Proof.
  intros (F & -> & L & _) He. split; cbn; [exact F| | |].
  - by rewrite L, andb_true_r.
  - intros _ _. by destruct (acc_error a).
  - destruct (acc_error a); [reflexivity|contradiction].
Qed.

Lemma latched_error_some (s : S) : has_latched_fault s = true -> latched_error s <> None.
Proof.
  unfold has_latched_fault, is_latched, latched_error, require_fault_clear, first_fault.
  by destruct (faults _).
Qed.

Lemma passed_latched c ad (s s' : S) (a : Acc) (t : bool) :
  records c ad s t s' -> passed (s, a) (s', note_error (latched_error s') (note_transition t a)).
Proof. intros Hr. eapply passed_record; [exact Hr|]. apply latched_error_some, Hr. Qed.

(** A classified runtime error is recorded, another one latches nothing. *)
Lemma runtime_error_fed (e : DavoutError) (s : S) :
  let '(t, s') := record_runtime_error display e s in
  (exists c ad, records c ad s t s') \/ (fed s s' /\ t = false /\ has_latched_fault s' = has_latched_fault s).
Proof.
  unfold record_runtime_error.
  assert (Hb : forall j, fed s (in_bootstrap j s).2 /\ adm (in_bootstrap j s).2 = adm s).
  { intros j. unfold in_bootstrap. destruct (_ ≫= _); [|split; reflexivity].
    unfold tick. destruct (now (hostclock s)). split; [split; cbn; [reflexivity|auto 10|auto|auto 10|auto]|reflexivity]. }
  set (g := match e with ECommWatchdog _ _ _ _ _ => _ | _ => _ end).
  assert (Hg : fed s g.2 /\ adm g.2 = adm s) by (unfold g; destruct e; try (split; reflexivity); apply Hb).
  destruct g as [excused s1]. destruct Hg as [Hf Ha]. cbn [snd] in *.
  destruct (if excused then None else _) as [[c j]|]; [|right; unfold has_latched_fault; rewrite Ha; auto].
  match goal with |- context [record_fault ?c ?j ?ad ?m ?d s1] => pose proof (record_fault_fed c j ad m d s1) as Hr;
    destruct (record_fault c j ad m d s1) as [t s'] end.
  left. eexists _, _. destruct Hr as (F & T & L & O). split; [by etransitivity|]. split; [|split; [exact L|exact O]].
  rewrite T. unfold has_latched_fault. by rewrite Ha.
Qed.

Lemma passed_runtime_error (e : DavoutError) (s : S) (a : Acc) :
  let '(t, s') := record_runtime_error display e s in
  passed (s, a) (s', note_error (Some e) (note_transition t a)).
Proof.
  pose proof (runtime_error_fed e s) as Hr. destruct (record_runtime_error display e s) as [t s'].
  destruct Hr as [(c & ad & Hr)|(F & -> & L)]; [by eapply passed_record|].
  split; cbn; [exact F| |congruence|].
  - rewrite L. by rewrite orb_false_r, andb_comm, andb_negb_r, orb_false_r.
  - destruct (acc_error a); [reflexivity|contradiction].
Qed.

(** ** Steps that record nothing *)

Definition quiet (s s' : S) : Prop := fed s s' /\ has_latched_fault s' = has_latched_fault s.

#[global] Instance quiet_preorder : PreOrder quiet.
Proof.
  split.
  - intros s. split; reflexivity.
  - intros s1 s2 s3 [F1 L1] [F2 L2]. split; [by etransitivity|congruence].
Qed.

Ltac quiet_frame := split; [split; cbn; [reflexivity|auto 10|auto|auto 10|auto]|reflexivity].

Lemma tick_quiet (s : S) : quiet s (tick s).2.
Proof. unfold tick. destruct (now (hostclock s)). quiet_frame. Qed.

Lemma mark_invalid_quiet (ad : MotorAddress) (s : S) : quiet s (mark_invalid ad s).
Proof. quiet_frame. Qed.

Lemma set_physical_quiet (p : Physical.PhysicalDevices) (s : S) : quiet s (set_physical p s).
Proof. quiet_frame. Qed.

Lemma track_quiet m ad dm t run (s : S) : quiet s (track_drive_frame m ad dm t run s).
Proof.
  unfold track_drive_frame. destruct (drive_frames _ !! ad); [|quiet_frame].
  destruct (_ || negb run); [quiet_frame|]. destruct (_ && _); quiet_frame.
Qed.

Lemma replies_quiet (r : FeedbackReport) (s : S) : quiet s (record_replies r s).
Proof. quiet_frame. Qed.

Lemma warning_quiet j ad bytes (s : S) : quiet s (record_device_warning j ad bytes s).
Proof.
  unfold record_device_warning. destruct (bool_decide _) eqn:Eb; [reflexivity|].
  unfold tick. destruct (now (hostclock s)) as [t k]. cbn [adm set_clock].
  split; [apply fed_faults_only, step_faults_grow, step_warning|].
  unfold record_warning. rewrite Eb. reflexivity.
Qed.

Lemma echo_quiet (h : HostEchoObservation) (s : S) : quiet s (consume_echo h s).
Proof.
  unfold consume_echo. destruct (he_command h).
  - destruct (bool_decide _); [reflexivity|].
    split; [split; cbn; [reflexivity|auto 10|split; [set_solver|reflexivity]|auto 10|auto]|reflexivity].
  - unfold observe_reporting_off_echo. destruct (_ ≫= _); [quiet_frame|reflexivity].
  - quiet_frame.
Qed.

Lemma position_quiet m st c (s : S) : quiet s (check_feedback_position m st c s).2.
Proof.
  unfold check_feedback_position. destruct (negb _); [reflexivity|].
  destruct (match c with Reference _ _ => _ | _ => false end); [reflexivity|].
  destruct (sv_limits _ !! _); [|reflexivity]. destruct (Limits.measured_position_fault _ _); [quiet_frame|reflexivity].
Qed.

Lemma future_quiet t f (s : S) : quiet s (is_future t f s).2.
Proof.
  unfold is_future. destruct (match f with Some _ => _ | None => false end); [reflexivity|].
  unfold tick. destruct (now (hostclock s)). quiet_frame.
Qed.

Lemma prepare_quiet m t raw c f (s : S) : quiet s (prepare_pose m t raw c f s).2.
Proof.
  unfold prepare_pose. destruct (_ ;! _)%rust as [st| |]; [|reflexivity..].
  pose proof (future_quiet t f s) as Hq. destruct (is_future t f s) as [[fut f'] s1]. cbn [snd] in Hq.
  destruct fut; [exact Hq|].
  pose proof (position_quiet m st c s1) as Hp. destruct (check_feedback_position m st c s1) as [r s2].
  by etransitivity.
Qed.

Lemma velocity_quiet m st t c (s : S) : quiet s (check_feedback_velocity m st t c s).2.
Proof.
  unfold check_feedback_velocity. destruct (negb _); [quiet_frame|].
  destruct (sv_limits _ !! _) as [lim|]; [|reflexivity]. cbv zeta.
  destruct (_ && _); [quiet_frame|]. destruct (fgt _ _); quiet_frame.
Qed.

Lemma quiet_passed (s s' : S) (a a' : Acc) :
  quiet s s' -> acc_transition a' = acc_transition a -> acc_error a' = acc_error a -> passed (s, a) (s', a').
Proof. intros [F L]. by apply passed_quiet. Qed.

(** ** Every handler passes *)

Lemma reject_passed ad e (s : S) (a : Acc) : passed (s, a) (reject_pose display ad e (s, a)).
Proof.
  unfold reject_pose. pose proof (passed_runtime_error e (mark_invalid ad s) a) as Hr.
  destruct (record_runtime_error display e (mark_invalid ad s)) as [t s'].
  etransitivity; [|exact Hr]. apply quiet_passed; auto using mark_invalid_quiet.
Qed.

Lemma offer_passed n o m fl c st (s : S) (a : Acc) : passed (s, a) (offer_pose n o m fl c st (s, a)).
Proof.
  unfold offer_pose. repeat (destruct (_ && _) || destruct (later_update _ _ _));
    try reflexivity; apply quiet_passed; reflexivity.
Qed.

Lemma pose_passed n o m f c (s : S) (a : Acc) : passed (s, a) (consume_pose display n o m f c (s, a)).
Proof.
  unfold consume_pose. match goal with |- context [prepare_pose ?m ?t ?raw ?c ?fl s] =>
    pose proof (prepare_quiet m t raw c fl s) as Hq; destruct (prepare_pose m t raw c fl s) as [[r f'] s1] end.
  cbn [snd] in Hq. assert (Hp : passed (s, a) (s1, with_floor f' a)) by by apply quiet_passed.
  destruct r as [st|e|]; [| |exact Hp]; (etransitivity; [exact Hp|]).
  - apply offer_passed.
  - apply reject_passed.
Qed.

Lemma flags_passed j ad fl d (s : S) (a : Acc) :
  let y := if negb (fl =? 0) then
      let '(t, s') := record_fault FDevice (Some j) (Some ad) "vendor status fault flags" d s in
      (s', note_error (latched_error s') (note_transition t a))
    else (s, a) in
  passed (s, a) y /\ (fl <> 0 -> on_record FDevice (Some ad) y.1).
Proof.
  destruct (Z.eqb_spec fl 0) as [->|Hne]; cbn [negb].
  - split; [reflexivity|congruence].
  - pose proof (record_fault_fed FDevice (Some j) (Some ad) "vendor status fault flags" d s) as Hr.
    destruct (record_fault _ _ _ _ _ s) as [t s']. split; [by eapply passed_latched|]. intros _. apply Hr.
Qed.

(** A drive mode that must not go unrecorded.  From a shed drive: anything but
    Reset, once the grace its last replies are given since [since] is over.  From
    any other drive: a reserved mode, and under a disabled inspection anything
    but Reset. *)
Definition mode_hazard (c : ReceiveContext) (sheds : list MotorAddress) (since : option Z) (ad : MotorAddress) (t : Z)
  (dm : DriveMode) : Prop :=
  if bool_decide (ad ∈ sheds)
  then dm <> Reset /\ forall t0, since = Some t0 -> t0 + SHED_REPLY_GRACE < t
  else dm = Reserved \/ (inspecting c = true /\ dm <> Reset).

Lemma shed_frame_passed j ad dm t d (s : S) (a : Acc) :
  let y := let '(r, s') := inspect_shed_frame display j ad dm t d s in
           match r with
           | Some (e, t) => (s', note_error (Some e) (note_transition t a))
           | None => (s', a)
           end in
  passed (s, a) y
  /\ (dm <> Reset -> (forall t0, shed_at (loss s) = Some t0 -> t0 + SHED_REPLY_GRACE < t) ->
      on_record FDriveState (Some ad) y.1).
Proof.
  cbv zeta. unfold inspect_shed_frame. destruct (_ || _) eqn:Eg.
  - split; [reflexivity|]. intros Hr Ht. rewrite bool_decide_false in Eg by exact Hr. cbn [orb] in Eg.
    destruct (shed_at (loss s)) as [t0|]; [|discriminate]. specialize (Ht t0 eq_refl). bsimp. lia.
  - match goal with |- context [record_fault ?c ?j ?ad ?m ?d s] =>
      pose proof (record_fault_fed c j ad m d s) as Hr; destruct (record_fault c j ad m d s) as [tr s'] end.
    split; [by eapply passed_record|]. intros _ _. apply Hr.
Qed.

(** The rest of [consume_header], past the fault flags. *)
Lemma header_rest_passed n o m dm st c d (s : S) (a : Acc) :
  let y := let ad := obs_address o in
    if is_shed (adm s) ad then
      let s1 := track_drive_frame m ad dm (obs_received_at o) (bool_decide (lost_address (loss s) = Some ad)) s in
      let '(r, s2) := inspect_shed_frame display (Config.joint m) ad dm (obs_received_at o) d s1 in
      match r with
      | Some (e, t) => (s2, note_error (Some e) (note_transition t a))
      | None => (s2, a)
      end
    else
      let current := feedback_run_expected m ad (obs_received_at o) c s in
      let s1 := track_drive_frame m ad dm (obs_received_at o) current s in
      if bool_decide (dm = Reserved) || (current && negb (bool_decide (dm = Run)))
         || (inspecting c && negb (bool_decide (dm = Reset)))
      then
        let error := EInvalidFeedback (Config.joint m)
          (Msg "unexpected drive mode {:?} for {:?}; no qualified factory-calibration context"
             [AStr (drive_mode_debug dm); AStr (mode_debug (mode (adm s1)))]) in
        let s2 := mark_invalid ad s1 in
        let '(t, s3) := record_fault FDriveState (Some (Config.joint m)) (Some ad) (display error) d s2 in
        (s3, note_error (Some error) (note_transition t a))
      else
        match st with
        | None =>
            if inspecting c then (s1, a)
            else reject_pose display ad (EInvalidFeedback (Config.joint m) (msg "unsolicited firmware version reply"))
                   (s1, a)
        | Some f => consume_pose display n o m f c (s1, a)
        end in
  passed (s, a) y
  /\ (mode_hazard c (shed (adm s)) (shed_at (loss s)) (obs_address o) (obs_received_at o) dm ->
      on_record FDriveState (Some (obs_address o)) y.1).
Proof.
  cbv zeta. unfold mode_hazard. set (ad := obs_address o). unfold is_shed. destruct (bool_decide (ad ∈ shed (adm s))).
  - set (s1 := track_drive_frame _ _ _ _ _ s).
    assert (Hp : passed (s, a) (s1, a)) by (apply quiet_passed; [apply track_quiet|reflexivity..]).
    destruct (shed_frame_passed (Config.joint m) ad dm (obs_received_at o) d s1 a) as [H1 H2].
    split; [by etransitivity|]. intros [Hm Ht]. apply H2; [exact Hm|].
    destruct (fd_owner _ _ (ps_fed _ _ Hp)) as (_ & _ & _ & _ & _ & _ & El & _). cbn [fst] in El. by rewrite El.
  - set (cur := feedback_run_expected _ _ _ _ _). set (s1 := track_drive_frame _ _ _ _ _ s).
    assert (Hp : passed (s, a) (s1, a)) by (apply quiet_passed; [apply track_quiet|reflexivity..]).
    destruct (bool_decide (dm = Reserved) || _ || _) eqn:Em.
    + match goal with |- context [record_fault ?cl ?j ?ad ?m ?d ?x] =>
        pose proof (record_fault_fed cl j ad m d x) as Hr; destruct (record_fault cl j ad m d x) as [t s3] end.
      split; [|intros _; apply Hr]. etransitivity; [exact Hp|].
      etransitivity; [apply (quiet_passed s1 (mark_invalid ad s1) a a); auto using mark_invalid_quiet|].
      by eapply passed_record.
    + split.
      * destruct st as [f|]; [etransitivity; [exact Hp|apply pose_passed]|].
        destruct (inspecting c); [exact Hp|]. etransitivity; [exact Hp|apply reject_passed].
      * apply orb_false_iff in Em as [Em1 Em2]. apply orb_false_iff in Em1 as [Em1 _].
        apply bool_decide_eq_false in Em1. intros [Hm|[Hi Hm]]; [done|].
        by rewrite Hi, bool_decide_false in Em2.
Qed.

Lemma header_passed n o m dm fl st c (s : S) (a : Acc) :
  let y := consume_header display n o m dm fl st c (s, a) in
  passed (s, a) y
  /\ (fl <> 0 -> on_record FDevice (Some (obs_address o)) y.1)
  /\ (mode_hazard c (shed (adm s)) (shed_at (loss s)) (obs_address o) (obs_received_at o) dm ->
      on_record FDriveState (Some (obs_address o)) y.1).
Proof.
  cbv zeta. unfold consume_header.
  set (s1 := if bool_decide (dm = Calibration) then _ else s).
  assert (Hq : quiet s s1 /\ adm s1 = adm s).
  { unfold s1. destruct (bool_decide _); (split; [|reflexivity]); [apply set_physical_quiet|reflexivity]. }
  destruct Hq as [Hq Ha]. set (d := header_evidence _ _ _).
  pose proof (flags_passed (Config.joint m) (obs_address o) fl d s1 a) as [Hf1 Hf2]. revert Hf1 Hf2.
  destruct (if negb (fl =? 0) then _ else (s1, a)) as [s2 a2]. intros Hf1 Hf2. cbn [fst] in Hf2.
  pose proof (header_rest_passed n o m dm st c d s2 a2) as [Hr1 Hr2]. cbv zeta in Hr1, Hr2.
  assert (Hs : shed (adm s2) = shed (adm s) /\ loss s2 = loss s).
  { split; [rewrite <- Ha; apply (fd_adm _ _ (ps_fed _ _ Hf1))|].
    destruct (fd_owner _ _ (ps_fed _ _ Hf1)) as (_ & _ & _ & _ & _ & _ & E1 & _).
    destruct Hq as [[_ (_ & _ & _ & _ & _ & _ & E0 & _) _ _ _] _]. cbn [fst] in E1. congruence. }
  split; [|split].
  - etransitivity; [apply quiet_passed; [exact Hq|reflexivity..]|]. etransitivity; [exact Hf1|exact Hr1].
  - intros Hfl. exact (on_record_fed _ _ _ _ (ps_fed _ _ Hr1) (Hf2 Hfl)).
  - destruct Hs as [Es El]. intros Hm. apply Hr2. by rewrite Es, El.
Qed.

(** Hazards of a frame of an installed drive. *)
Definition frame_hazard (x : ReceiveContext) (sheds : list MotorAddress) (since : option Z) (o : FeedbackObservation)
  (c : FaultClass) : Prop :=
  match obs_event o with
  | EStatus f => (c = FDevice /\ fb_status_flags f <> 0)
                 \/ (c = FDriveState /\ mode_hazard x sheds since (obs_address o) (obs_received_at o) (fb_drive_mode f))
  | EFirmwareVersion v => (c = FDevice /\ ver_status_flags v <> 0)
                 \/ (c = FDriveState /\ mode_hazard x sheds since (obs_address o) (obs_received_at o) (ver_drive_mode v))
  | EDetailedFault d => c = FDevice /\ Wire.has_fault d = true
  | EMalformed _ => c = FFeedback
  end.

Lemma malformed_passed m ad t id mf c (s : S) (a : Acc) :
  let '(tr, s') := record_malformed_feedback display m ad t id mf c s in
  passed (s, a) (s', note_error (latched_error s') (note_transition tr a))
  /\ on_record FFeedback (Some ad) s'.
Proof.
  unfold record_malformed_feedback.
  assert (Hopt : forall (b : bool) cl msg d (x : S),
    let '(t1, x') := if b then record_fault cl (Some (Config.joint m)) (Some ad) msg d x else (false, x) in
    fed x x' /\ t1 = negb (has_latched_fault x) && has_latched_fault x').
  { intros [] cl mg d x.
    - pose proof (record_fault_fed cl (Some (Config.joint m)) (Some ad) mg d x) as Hr.
      destruct (record_fault _ _ _ _ _ x) as [t1 x']. destruct Hr as (F & -> & -> & _). by rewrite andb_true_r.
    - split; [reflexivity|]. by rewrite andb_comm, andb_negb_r. }
  match goal with |- context [if ?b then record_fault ?cl _ _ ?mg ?d s else _] =>
    pose proof (Hopt b cl mg d s) as H1; destruct (if b then _ else (false, s)) as [t1 s1] end.
  match goal with |- context [if ?b then record_fault ?cl _ _ ?mg ?d s1 else _] =>
    pose proof (Hopt b cl mg d s1) as H2; destruct (if b then _ else (false, s1)) as [t2 s2] end.
  match goal with |- context [record_receive_fault ?cl ?j ?ad ?mg ?d ?r ?x] =>
    pose proof (record_receive_fed cl j ad mg d r x) as H3; destruct (record_receive_fault cl j ad mg d r x) as [t3 s3] end.
  destruct H1 as [F1 T1], H2 as [F2 T2], H3 as (F3 & T3 & L3 & O3). split; [|exact O3].
  change (has_latched_fault (mark_invalid ad s2)) with (has_latched_fault s2) in T3.
  assert (F : fed s s3) by (etransitivity; [exact F1|]; etransitivity; [exact F2|];
    etransitivity; [apply mark_invalid_quiet|exact F3]).
  apply (passed_latched FFeedback (Some ad)). split; [exact F|]. split; [|auto].
  pose proof (fed_latched _ _ F1) as M1. pose proof (fed_latched _ _ F2) as M2. subst.
  destruct (has_latched_fault s), (has_latched_fault s1), (has_latched_fault s2); cbn in *; auto;
    try (discriminate M1; reflexivity); try (discriminate M2; reflexivity).
Qed.

Lemma motor_passed n o c (s : S) (a : Acc) :
  let y := consume_motor display n o c (s, a) in
  passed (s, a) y
  /\ forall cl, is_Some (find_first (is_motor_address (obs_address o)) (stop_motors s)) ->
     frame_hazard c (shed (adm s)) (shed_at (loss s)) o cl -> on_record cl (Some (obs_address o)) y.1.
Proof.
  cbv zeta. unfold consume_motor, frame_hazard.
  destruct (find_first _ (stop_motors s)) as [m|]; [|split; [reflexivity|intros cl [x [=]]]].
  destruct (obs_event o) as [f|v|d|mf].
  - destruct (header_passed n o m (fb_drive_mode f) (fb_status_flags f) (Some f) c s a) as (H1 & H2 & H3).
    split; [exact H1|]. intros cl _ [[-> Hf]|[-> Hm]]; auto.
  - destruct (header_passed n o m (ver_drive_mode v) (ver_status_flags v) None c s a) as (H1 & H2 & H3).
    split; [exact H1|]. intros cl _ [[-> Hf]|[-> Hm]]; auto.
  - set (s1 := record_device_warning _ _ _ s).
    assert (Hp : passed (s, a) (s1, a)) by (apply quiet_passed; [apply warning_quiet|reflexivity..]).
    destruct (Wire.has_fault d); [|split; [exact Hp|intros cl _ [_ [=]]]].
    match goal with |- context [record_fault ?c ?j ?ad ?m ?d s1] =>
      pose proof (record_fault_fed c j ad m d s1) as Hr; destruct (record_fault c j ad m d s1) as [t s2] end.
    split; [etransitivity; [exact Hp|by eapply passed_latched]|]. intros cl _ [-> _]. apply Hr.
  - pose proof (malformed_passed m (obs_address o) (obs_received_at o) (obs_can_id o) mf c s a) as Hm.
    destruct (record_malformed_feedback _ _ _ _ _ _ _ s) as [t s1]. destruct Hm as [H1 H2].
    split; [exact H1|]. intros cl _ ->. exact H2.
Qed.

(** ** The whole report *)

(** Hazards of one delivered item: the class and address they are recorded under. *)
Definition item_hazard (ctx : ReceiveContext) (ms : list Config.MotorEntry) (sheds : list MotorAddress)
  (since : option Z) (x : OrderedReceive) (c : FaultClass) (ad : option MotorAddress) : Prop :=
  match x with
  | OMotor o => ad = Some (obs_address o) /\ is_Some (find_first (is_motor_address (obs_address o)) ms)
                /\ frame_hazard ctx sheds since o c
  | OTransport _ => c = FTransport /\ ad = None
  | OTerminal e => classify_bus_error [] e = Some (FTransport, None) /\ c = FTransport /\ ad = None
  | OEcho _ => False
  end.

Lemma event_passed (c : ReceiveContext) (s : S) (a : Acc) (x : ordered_item) :
  let y := consume_event display c (s, a) x in
  passed (s, a) y
  /\ forall cl ad, item_hazard c (stop_motors s) (shed (adm s)) (shed_at (loss s)) x.2 cl ad -> on_record cl ad y.1.
Proof.
  cbv zeta. unfold consume_event, item_hazard. destruct x as [[n rank] [o|h|f|e]]; cbn [fst snd].
  - destruct (motor_passed n o c s a) as [H1 H2]. split; [exact H1|]. intros cl ad (-> & Hi & Hh). auto.
  - split; [|contradiction]. apply quiet_passed; auto using echo_quiet.
  - match goal with |- context [record_receive_fault ?cl ?j ?ad ?m ?d ?r s] =>
      pose proof (record_receive_fed cl j ad m d r s) as Hr; destruct (record_receive_fault cl j ad m d r s) as [t s1] end.
    split; [by eapply passed_latched|]. intros cl ad [-> ->]. apply Hr.
  - pose proof (passed_runtime_error (EBus e) s a) as Hp.
    assert (Hh : classify_bus_error [] e = Some (FTransport, None) ->
      on_record FTransport None (record_runtime_error display (EBus e) s).2).
    { intros Hc. unfold record_runtime_error. cbn [classify_error].
      assert (classify_bus_error (motors (adm s)) e = Some (FTransport, None)) as -> by by destruct e.
      match goal with |- context [record_fault ?cl ?j ?ad ?m ?d s] =>
        pose proof (record_fault_fed cl j ad m d s) as Hr; destruct (record_fault cl j ad m d s) as [t s1] end.
      apply Hr. }
    destruct (record_runtime_error display (EBus e) s) as [t s1].
    destruct e; split; try exact Hp; try reflexivity; intros cl ad (Hc & -> & ->); auto; discriminate.
Qed.

Lemma events_passed (c : ReceiveContext) (l : list ordered_item) : forall (s : S) (a : Acc),
  let y := fold_left (consume_event display c) l (s, a) in
  passed (s, a) y
  /\ forall x cl ad, x ∈ l -> item_hazard c (stop_motors s) (shed (adm s)) (shed_at (loss s)) x.2 cl ad -> on_record cl ad y.1.
Proof.
  induction l as [|x l IH]; intros s a; cbn [fold_left].
  - split; [reflexivity|]. intros x cl ad Hx. by apply not_elem_of_nil in Hx.
  - destruct (event_passed c s a x) as [H1 H2]. destruct (consume_event display c (s, a) x) as [s1 a1].
    destruct (IH s1 a1) as [I1 I2]. split; [by etransitivity|].
    destruct (fd_owner _ _ (ps_fed _ _ H1)) as (Em & _ & _ & _ & _ & _ & El & _).
    destruct (fd_adm _ _ (ps_fed _ _ H1)) as (_ & _ & _ & _ & _ & _ & Es). cbn [fst] in Em, Es, El. intros z cl ad Hz. apply elem_of_cons in Hz as [->|Hz]; intros Hh.
    + exact (on_record_fed _ _ _ _ (ps_fed _ _ I1) (H2 cl ad Hh)).
    + apply (I2 z cl ad Hz). by rewrite Em, Es, El.
Qed.

Lemma candidate_passed c rest (s : S) (a : Acc) (x : PoseCandidate) :
  u = true -> passed (s, a) (admit_candidate display c rest (s, a) x).
Proof.
  intros Hu. unfold admit_candidate. destruct (ms_updated _) as [t|]; [|reflexivity].
  pose proof (velocity_quiet (pc_motor x) (pc_state x) t c s) as Hq.
  destruct (check_feedback_velocity _ _ _ _ s) as [[r st] s1]. cbn [snd] in Hq.
  destruct (_ ;! _)%rust as [[]|e|].
  - apply quiet_passed; [|reflexivity..]. etransitivity; [exact Hq|].
    split; [split; cbn; [reflexivity|auto 10|auto|auto 10|congruence]|reflexivity].
  - etransitivity; [|apply reject_passed]. apply quiet_passed; [exact Hq|reflexivity..].
  - by apply quiet_passed.
Qed.

Lemma candidates_passed c rest (l : list PoseCandidate) : u = true -> forall x : S * Acc,
  passed x (fold_left (admit_candidate display c rest) l x).
Proof.
  intros Hu. induction l as [|y l IH]; intros [s a]; cbn [fold_left]; [reflexivity|].
  etransitivity; [by apply candidate_passed|apply IH].
Qed.

Lemma insert_item_in (x y : ordered_item) (l : list ordered_item) : y ∈ insert_item x l <-> y = x \/ y ∈ l.
Proof.
  induction l as [|z l IH]; cbn [insert_item]; [set_solver|]. destruct (key_le x z); set_solver.
Qed.

Lemma sort_items_in (y : ordered_item) (l : list ordered_item) : y ∈ sort_items l <-> y ∈ l.
Proof. induction l as [|x l IH]; cbn; [reflexivity|]. rewrite insert_item_in, IH. set_solver. Qed.

(** Every hazard a report can hold. *)
Inductive hazard_in (x : ReceiveContext) (r : FeedbackReport) (s : S) : FaultClass -> option MotorAddress -> Prop :=
| hz_frame (o : FeedbackObservation) (c : FaultClass) :
    o ∈ observations r -> is_Some (find_first (is_motor_address (obs_address o)) (stop_motors s)) ->
    frame_hazard x (shed (adm s)) (shed_at (loss s)) o c -> hazard_in x r s c (Some (obs_address o))
| hz_transport (t : TransportObservation) : t ∈ transport_frames r -> hazard_in x r s FTransport None
| hz_terminal (e : BusError) :
    fr_terminal_error r = Some e -> classify_bus_error [] e = Some (FTransport, None) ->
    hazard_in x r s FTransport None
| hz_incomplete : is_complete (fr_completion r) = false -> hazard_in x r s FTransport None.

Lemma completion_passed (r : FeedbackReport) (s : S) (a : Acc) :
  let y := check_completion display r (s, a) in
  passed (s, a) y /\ (is_complete (fr_completion r) = false -> on_record FTransport None y.1).
Proof.
  cbv zeta. unfold check_completion. destruct (is_complete _); [split; [reflexivity|discriminate]|].
  match goal with |- context [record_receive_fault ?cl ?j ?ad ?m ?d ?r s] =>
    pose proof (record_receive_fed cl j ad m d r s) as Hr; destruct (record_receive_fault cl j ad m d r s) as [t s1] end.
  split; [by eapply passed_record|]. intros _. apply Hr.
Qed.

End Hazards.

Section Report.
Context {B : Type} `{CanBus B} {R : Type} `{ReferenceWork R}.
Variable display : DavoutError -> string.
Abbreviation S := (Sup B R).

Lemma consume_spec (r : FeedbackReport) (c : ReceiveContext) (s : S) :
  let '(out, s') := consume_report_in_context display r c s in
  (forall cl ad, hazard_in c r s cl ad -> on_record cl ad s')
  /\ fed true s s'
  /\ fc_transition out = negb (has_latched_fault s) && has_latched_fault s'
  /\ (has_latched_fault s = false -> has_latched_fault s' = true -> fc_error out <> None).
Proof.
  unfold consume_report_in_context. set (s0 := record_replies r s).
  assert (P0 : passed true (s, acc_start) (s0, acc_start)) by (apply quiet_passed; [apply replies_quiet|reflexivity..]).
  destruct (events_passed display true c (ordered_events r) s0 acc_start) as [H1 Hev].
  destruct (fold_left _ (ordered_events r) _) as [s1 a1].
  match goal with |- context [fold_left (admit_candidate display c ?q) ?l (s1, a1)] =>
    pose proof (candidates_passed display true c q l eq_refl (s1, a1)) as H2; destruct (fold_left (admit_candidate display c q) l (s1, a1)) as [s2 a2] end.
  destruct (completion_passed display true r s2 a2) as [H3 Hc]. destruct (check_completion display r (s2, a2)) as [s3 a3].
  cbn [fst] in Hc, Hev.
  assert (Hall : passed true (s, acc_start) (s3, a3))
    by (etransitivity; [exact P0|]; etransitivity; [exact H1|]; etransitivity; [exact H2|exact H3]).
  assert (Hlate : forall cl ad, on_record cl ad s1 -> on_record cl ad s3).
  { intros cl ad Ho. apply (on_record_fed true _ _ _ _ (ps_fed _ _ _ H3)). exact (on_record_fed true _ _ _ _ (ps_fed _ _ _ H2) Ho). }
  split; [|split; [exact (ps_fed _ _ _ Hall)|split; [exact (ps_transition _ _ _ Hall)|exact (ps_error _ _ _ Hall)]]].
  intros cl ad Hh.
  assert (Hitem : forall n k x, (n, k, x) ∈ delivered_items r -> item_hazard c (stop_motors s) (shed (adm s)) (shed_at (loss s)) x cl ad ->
    on_record cl ad s3).
  { intros n k x Hx Hi. apply Hlate, (Hev (n, k, x) cl ad); [|exact Hi].
    apply sort_items_in. apply elem_of_app. by left. }
  unfold delivered_items in Hitem. destruct Hh as [o cl Ho Hi Hf|t Ht|e He Hcl|Hcomp].
  - apply (Hitem (obs_order o) 1%nat (OMotor o)); [|by repeat split].
    apply elem_of_app. left. apply list_elem_of_fmap. eauto.
  - apply (Hitem (tr_order t) 1%nat (OTransport (tr_frame t))); [|done].
    apply elem_of_app. right. apply elem_of_app. left. apply list_elem_of_fmap. eauto.
  - apply Hlate. eapply (Hev (_, _, OTerminal e) FTransport None); [|done].
    apply sort_items_in. apply elem_of_app. right. rewrite He. apply list_elem_of_singleton. reflexivity.
  - exact (Hc Hcomp).
Qed.

(** C12: no hazard is lost.  Whatever a drain delivered, in whatever order and however
    it ended, every hazard in it is on the fault record afterwards: fault flags,
    a detailed fault and a malformed frame of any installed drive, shed or not; a
    reserved drive mode of a drive that is not shed, and under a disabled
    inspection any mode but Reset; any mode but Reset of a shed drive once the
    grace for its last replies is over (inside the grace the code drops the mode
    of a shed drive, a reserved one too); a CAN error frame, a transport failure,
    an incomplete drain.  Every earlier record is kept; the consumer answers the
    first latch exactly when the latch appeared in this report, and then also
    reports an error; and it sends nothing and changes no mode, permission,
    configuration or reporting state. *)
Theorem no_hazard_lost (r : FeedbackReport) (c : ReceiveContext) (s : S) :
  let '(out, s') := consume_report_in_context display r c s in
  (forall cl ad, hazard_in c r s cl ad -> on_record cl ad s')
  /\ fed true s s'
  /\ fc_transition out = negb (has_latched_fault s) && has_latched_fault s'
  /\ (has_latched_fault s = false -> has_latched_fault s' = true -> fc_error out <> None).
Proof. exact (consume_spec r c s). Qed.

(** ** Where a session pose comes from *)

(** [x] stands for a status frame of this report that is later than the cached
    pose of its installed, not shed drive; while the motion guards are on it lies
    inside the joint's hard limits, and while Active its drive's Enable has been
    read back. *)
Definition offered (r : FeedbackReport) (s : S) (x : PoseCandidate) : Prop :=
  exists o f, o ∈ observations r /\ obs_event o = EStatus f
    /\ pc_address x = obs_address o /\ ms_updated (pc_state x) = Some (obs_received_at o)
    /\ find_first (is_motor_address (obs_address o)) (stop_motors s) = Some (pc_motor x)
    /\ (obs_address o ∉ shed (adm s))
    /\ later_update false (motor_states (adm s) !! obs_address o) (obs_received_at o) = false
    /\ (mode (adm s) = Active ->
        (obs_address o ∉ enable_echo_pending (session s))
        /\ exists lim, sv_limits (adm s) !! Config.joint (pc_motor x) = Some lim
             /\ Limits.measured_position_fault (f64_of_f32 (ms_position_rad (pc_state x))) lim = false).

Lemma offered_fed (r : FeedbackReport) (s s' : S) (x : PoseCandidate) :
  fed false s s' -> offered r s x -> offered r s' x.
Proof.
  intros [_ (Em & _) [Ep _] (Ed & _ & _ & _ & El & _ & Es) Est] (o & f & H1 & H2 & H3 & H4 & H5 & H6 & H7 & H8).
  exists o, f. rewrite Em, Es, Est, Ed, El by reflexivity.
  do 7 (split; [assumption|]). intros Hm. destruct (H8 Hm) as [Hp Hl]. split; [set_solver|exact Hl].
Qed.

Definition offered_all (r : FeedbackReport) (x : S * Acc) : Prop :=
  Forall (offered r x.1) (acc_candidates x.2).

Lemma offered_passed (r : FeedbackReport) (x y : S * Acc) :
  passed false x y -> acc_candidates y.2 = acc_candidates x.2 -> offered_all r x -> offered_all r y.
Proof.
  intros P E. unfold offered_all. rewrite E. intros Ha. eapply List.Forall_impl; [|exact Ha].
  intros z. exact (offered_fed r _ _ z (ps_fed _ _ _ P)).
Qed.

Lemma put_candidate_all (P : PoseCandidate -> Prop) (x : PoseCandidate) (l : list PoseCandidate) :
  P x -> Forall P l -> Forall P (put_candidate x l).
Proof.
  intros Hx. induction 1 as [|y l Hy Hl IH]; cbn [put_candidate]; [by constructor|].
  destruct (bool_decide _); constructor; auto.
Qed.

Lemma validate_inv (j : string) (st : MotorState) (e : result DavoutError MotorState) (st' : MotorState) :
  (validate_motor_feedback j st ;! e)%rust = Ok st' -> e = Ok st'.
Proof. intros E. bind_inv E. exact E. Qed.

(** A prepared pose keeps the receive time and passed the position guard. *)
Lemma prepare_pose_ok m t raw floor floor' (s s' : S) (st : MotorState) :
  prepare_pose m t raw Operational floor s = (Ok st, floor', s') ->
  ms_updated st = ms_updated raw
  /\ (mode (adm s) = Active -> exists lim, sv_limits (adm s) !! Config.joint m = Some lim
       /\ Limits.measured_position_fault (f64_of_f32 (ms_position_rad st)) lim = false).
Proof.
  unfold prepare_pose. destruct (_ ;! _)%rust as [st1| |] eqn:E; [|discriminate..].
  apply validate_inv in E. bind_inv E. apply validate_inv in E. injection E as <-.
  assert (Hu : ms_updated x = ms_updated raw)
    by (unfold motor_to_joint_state in E0; bind_inv E0; injection E0 as <-; reflexivity).
  unfold is_future, tick.
  assert (Hgo : forall fl (s1 : S), adm s1 = adm s ->
    (let '(r, s2) := check_feedback_position m x Operational s1 in ((r ;! Ok x)%rust, fl, s2)) = (Ok st, floor', s') ->
    ms_updated st = ms_updated raw /\ (mode (adm s) = Active -> exists lim, sv_limits (adm s) !! Config.joint m = Some lim
       /\ Limits.measured_position_fault (f64_of_f32 (ms_position_rad st)) lim = false)).
  { intros fl s1 Ha. unfold check_feedback_position, feedback_motion_guards_enabled. rewrite Ha.
    case_bool_decide as Hm; cbn [negb].
    - destruct (sv_limits (adm s) !! Config.joint m) as [lim|]; [|discriminate].
      destruct (Limits.measured_position_fault _ _) eqn:Ef; [discriminate|]. intros [= -> _ _].
      split; [exact Hu|]. intros _. by exists lim.
    - intros [= -> _ _]. split; [exact Hu|contradiction]. }
  destruct (match floor with Some _ => _ | None => false end); [by apply Hgo|].
  destruct (now (hostclock s)) as [t1 k]. destruct (t1 <? t); [discriminate|]. by apply Hgo.
Qed.

Lemma pose_offered (r : FeedbackReport) n o m f (s : S) (a : Acc) :
  o ∈ observations r -> obs_event o = EStatus f ->
  find_first (is_motor_address (obs_address o)) (stop_motors s) = Some m ->
  is_shed (adm s) (obs_address o) = false ->
  offered_all r (s, a) -> offered_all r (consume_pose display n o m f Operational (s, a)).
Proof.
  intros Ho Hf Hm Hs Ha. unfold consume_pose.
  match goal with |- context [prepare_pose ?m ?t ?raw ?c ?fl s] =>
    pose proof (prepare_quiet false m t raw c fl s) as Hq; destruct (prepare_pose m t raw c fl s) as [[res fl'] s1] eqn:Ep end.
  cbn [snd] in Hq.
  assert (Hp : passed false (s, a) (s1, with_floor fl' a)) by (apply quiet_passed; [exact Hq|reflexivity..]).
  pose proof (offered_passed r _ _ Hp eq_refl Ha) as Ha1.
  destruct res as [st|e|]; [| |exact Ha1].
  - destruct (prepare_pose_ok _ _ _ _ _ _ _ _ Ep) as [Hu Hl]. cbn [ms_updated] in Hu.
    unfold offer_pose. cbn [andb reference_target]. destruct (bool_decide _ && _) eqn:Eb; [exact Ha1|].
    destruct (later_update false _ _) eqn:El; [exact Ha1|].
    destruct (later_update true _ _); [exact Ha1|]. rewrite bool_decide_false by discriminate. cbn [andb].
    unfold offered_all. cbn [fst snd acc_candidates with_candidates].
    apply put_candidate_all; [|exact Ha1].
    destruct Hq as [[_ (Em & _) _ (Ed & _ & _ & _ & Eli & _ & Es) _] _].
    exists o, f. cbn [pc_address pc_state pc_motor].
    split; [exact Ho|]. split; [exact Hf|]. split; [reflexivity|]. split; [exact Hu|].
    split; [by rewrite Em|]. split; [rewrite Es; by apply bool_decide_eq_false in Hs|]. split; [exact El|].
    rewrite Ed, Eli. intros Hact. split; [|exact (Hl Hact)].
    rewrite Ed, bool_decide_true in Eb by exact Hact. by apply bool_decide_eq_false in Eb.
  - refine (offered_passed r _ _ (reject_passed display false (obs_address o) e s1 (with_floor fl' a)) _ Ha1).
    unfold reject_pose. by destruct (record_runtime_error _ _ _).
Qed.

Lemma header_offered (r : FeedbackReport) n o m dm fl st (s : S) (a : Acc) :
  o ∈ observations r -> (forall f, st = Some f -> obs_event o = EStatus f) ->
  find_first (is_motor_address (obs_address o)) (stop_motors s) = Some m ->
  offered_all r (s, a) -> offered_all r (consume_header display n o m dm fl st Operational (s, a)).
Proof.
  intros Ho Hst Hm Ha. unfold consume_header.
  set (s1 := if bool_decide (dm = Calibration) then _ else s).
  assert (Hq : quiet false s s1)
    by (unfold s1; destruct (bool_decide _); [apply set_physical_quiet|reflexivity]).
  set (d := header_evidence _ _ _). set (ad := obs_address o).
  pose proof (flags_passed false (Config.joint m) ad fl d s1 a) as [Hf _].
  set (y := if negb (fl =? 0) then _ else (s1, a)) in *.
  assert (Hc : acc_candidates y.2 = acc_candidates a)
    by (unfold y; destruct (negb _); [destruct (record_fault _ _ _ _ _ _)|]; reflexivity).
  assert (Hp : passed false (s, a) y)
    by (etransitivity; [apply quiet_passed; [exact Hq|reflexivity..]|exact Hf]).
  pose proof (offered_passed r _ _ Hp Hc Ha) as Ha2. clearbody y. destruct y as [s2 a2].
  destruct (is_shed (adm s2) ad) eqn:Es.
  - set (s3 := track_drive_frame _ _ _ _ _ s2).
    assert (H3 : passed false (s2, a2) (s3, a2)) by (apply quiet_passed; [apply track_quiet|reflexivity..]).
    eapply (offered_passed r (s2, a2)); [|..|exact Ha2].
    + etransitivity; [exact H3|exact (proj1 (shed_frame_passed display false _ _ _ _ _ s3 a2))].
    + destruct (inspect_shed_frame _ _ _ _ _ _ s3) as [[[e t]|] s4]; reflexivity.
  - set (s3 := track_drive_frame _ _ _ _ _ s2).
    assert (H3 : passed false (s2, a2) (s3, a2)) by (apply quiet_passed; [apply track_quiet|reflexivity..]).
    pose proof (offered_passed r _ _ H3 eq_refl Ha2) as Ha3.
    destruct (_ || _ || _).
    + match goal with |- context [record_fault ?cl ?j ?ad ?m ?d ?x] =>
        pose proof (record_fault_fed false cl j ad m d x) as Hr; destruct (record_fault cl j ad m d x) as [t s4] end.
      refine (offered_passed r (s3, a2) _ _ _ Ha3); [|reflexivity].
      etransitivity; [apply (quiet_passed false s3 (mark_invalid ad s3) a2 a2); [apply mark_invalid_quiet|reflexivity..]|].
      by eapply passed_record.
    + destruct st as [f|]; cbn [inspecting].
      * assert (P13 : passed false (s, a) (s3, a2)) by (by etransitivity).
        destruct (ps_fed _ _ _ P13) as [_ (Em & _) _ _ _]. cbn [fst] in Em.
        apply pose_offered; [exact Ho|by apply Hst|by rewrite Em| |exact Ha3].
        unfold is_shed. destruct (ps_fed _ _ _ H3) as [_ _ _ (_ & _ & _ & _ & _ & _ & Esh) _]. cbn [fst] in Esh.
        rewrite Esh. exact Es.
      * refine (offered_passed r _ _ (reject_passed display false ad _ s3 a2) _ Ha3).
        unfold reject_pose. by destruct (record_runtime_error _ _ _).
Qed.

Lemma event_offered (r : FeedbackReport) (s : S) (a : Acc) (x : ordered_item) :
  (forall o, x.2 = OMotor o -> o ∈ observations r) ->
  offered_all r (s, a) -> offered_all r (consume_event display Operational (s, a) x).
Proof.
  intros Hx Ha. pose proof (event_passed display false Operational s a x) as [Hp _]. revert Hp.
  unfold consume_event. destruct x as [[n rank] [o|h|f|e]]; cbn [fst snd] in *.
  - specialize (Hx o eq_refl). unfold consume_motor.
    destruct (find_first _ (stop_motors s)) as [m|] eqn:Em; [|intros _; exact Ha].
    destruct (obs_event o) as [f|v|d|mf] eqn:Ee.
    + intros _. apply header_offered; auto. by intros f' [= <-].
    + intros _. apply header_offered; auto. discriminate.
    + intros Hp. refine (offered_passed r _ _ Hp _ Ha). destruct (Wire.has_fault d); [|reflexivity].
      by destruct (record_fault _ _ _ _ _ _).
    + intros Hp. refine (offered_passed r _ _ Hp _ Ha). by destruct (record_malformed_feedback _ _ _ _ _ _ _ _).
  - intros Hp. exact (offered_passed r _ _ Hp eq_refl Ha).
  - intros Hp. refine (offered_passed r _ _ Hp _ Ha). by destruct (record_receive_fault _ _ _ _ _ _ _).
  - intros Hp. refine (offered_passed r _ _ Hp _ Ha). destruct (record_runtime_error _ _ _); by destruct e.
Qed.

Lemma events_offered (r : FeedbackReport) (l : list ordered_item) :
  (forall x o, x ∈ l -> x.2 = OMotor o -> o ∈ observations r) ->
  forall y : S * Acc, offered_all r y -> offered_all r (fold_left (consume_event display Operational) l y).
Proof.
  induction l as [|x l IH]; intros Hl [s a] Ha; [exact Ha|]. cbn [fold_left]. apply IH.
  - intros z o Hz. apply Hl. by right.
  - apply event_offered; [|exact Ha]. intros o. apply Hl. left.
Qed.

Lemma ordered_motor_in (r : FeedbackReport) (x : ordered_item) (o : FeedbackObservation) :
  x ∈ ordered_events r -> x.2 = OMotor o -> o ∈ observations r.
Proof.
  unfold ordered_events, delivered_items. rewrite sort_items_in, !elem_of_app, !list_elem_of_fmap.
  intros [[(y & -> & Hy)|[(y & -> & Hy)|(y & -> & Hy)]]|Ht]; cbn [snd]; try discriminate.
  - by intros [= ->].
  - destruct (fr_terminal_error r); [|by apply not_elem_of_nil in Ht].
    apply list_elem_of_singleton in Ht as ->. discriminate.
Qed.

(** ** Admission of the candidates *)

(** [st] is candidate [x] with its velocity measured. *)
Definition admitted_as (x : PoseCandidate) (st : MotorState) : Prop :=
  ms_position_rad st = ms_position_rad (pc_state x) /\ ms_updated st = ms_updated (pc_state x)
  /\ validate_motor_feedback (Config.joint (pc_motor x)) st = Ok tt.

Definition poses_from (l : list PoseCandidate) (s s' : S) : Prop :=
  forall ad, motor_states (adm s') !! ad = motor_states (adm s) !! ad
    \/ exists x st, x ∈ l /\ pc_address x = ad /\ motor_states (adm s') !! ad = Some st /\ admitted_as x st.

Lemma velocity_state m st t c (s : S) :
  let st' := (check_feedback_velocity m st t c s).1.2 in
  ms_position_rad st' = ms_position_rad st /\ ms_updated st' = ms_updated st.
Proof.
  unfold check_feedback_velocity. destruct (negb _); [auto|].
  destruct (sv_limits _ !! _) as [lim|]; [|auto]. cbv zeta. destruct (_ && _); [auto|]. destruct (fgt _ _); auto.
Qed.

Lemma candidate_pose c rest (s : S) (a : Acc) (x : PoseCandidate) :
  poses_from [x] s (admit_candidate display c rest (s, a) x).1.
Proof.
  unfold admit_candidate. destruct (ms_updated _) as [t|]; [|by left].
  pose proof (velocity_quiet false (pc_motor x) (pc_state x) t c s) as [Hq _].
  pose proof (velocity_state (pc_motor x) (pc_state x) t c s) as Hst.
  destruct (check_feedback_velocity _ _ _ _ s) as [[res st] s1]. cbn [fst snd] in *.
  pose proof (fd_states _ _ _ Hq eq_refl) as Es.
  destruct (_ ;! _)%rust as [[]|e|] eqn:Ev.
  - intros ad. cbn. destruct (decide (pc_address x = ad)) as [<-|Hne].
    + right. exists x, st. rewrite lookup_insert_eq. split; [left|]. split; [reflexivity|]. split; [reflexivity|].
      destruct Hst as [Hs1 Hs2]. split; [exact Hs1|]. split; [exact Hs2|]. bind_inv Ev. exact Ev.
    + left. rewrite lookup_insert_ne by exact Hne. by rewrite Es.
  - intros ad. left. match goal with |- context [reject_pose display ?ad e (s1, ?a')] =>
      pose proof (reject_passed display false ad e s1 a') as Hr end.
    rewrite (fd_states _ _ _ (ps_fed _ _ _ Hr) eq_refl). cbn [fst]. by rewrite Es.
  - intros ad. left. cbn. by rewrite Es.
Qed.

Lemma candidates_pose c rest (l : list PoseCandidate) : forall (s : S) (a : Acc),
  poses_from l s (fold_left (admit_candidate display c rest) l (s, a)).1.
Proof.
  induction l as [|x l IH]; intros s a; cbn [fold_left]; [by left|].
  pose proof (candidate_pose c rest s a x) as H1.
  destruct (admit_candidate display c rest (s, a) x) as [s1 a1]. cbn [fst] in H1. intros ad.
  destruct (IH s1 a1 ad) as [->|(y & st & Hy & Had & Hs & Ho)]; [|right; exists y, st; split; [by right|auto]].
  destruct (H1 ad) as [->|(y & st & Hy & Had & Hs & Ho)]; [by left|].
  right. exists y, st. split; [|auto]. apply list_elem_of_singleton in Hy as ->. left.
Qed.

Lemma insert_candidate_in (x y : PoseCandidate) (l : list PoseCandidate) :
  y ∈ insert_candidate x l -> y = x \/ y ∈ l.
Proof.
  induction l as [|z l IH]; cbn [insert_candidate]; [set_solver|]. destruct (_ <=? _)%nat; set_solver.
Qed.

Lemma sorted_candidates_in (y : PoseCandidate) (l : list PoseCandidate) :
  y ∈ foldr insert_candidate [] l -> y ∈ l.
Proof.
  induction l as [|x l IH]; cbn [foldr]; [auto|]. intros [->|Hy]%insert_candidate_in; [left|right; auto].
Qed.

(** What a new pose [st] of the drive at [ad] rests on. *)
Definition trusted_pose (r : FeedbackReport) (s s' : S) (ad : MotorAddress) (st : MotorState) : Prop :=
  exists o f m,
    o ∈ observations r /\ obs_event o = EStatus f
    /\ obs_address o = ad /\ find_first (is_motor_address ad) (stop_motors s) = Some m
    /\ ms_updated st = Some (obs_received_at o)
    /\ later_update false (motor_states (adm s) !! ad) (obs_received_at o) = false
    /\ validate_motor_feedback (Config.joint m) st = Ok tt
    /\ (ad ∉ shed (adm s))
    /\ (mode (adm s) = Active ->
        (ad ∉ enable_echo_pending (session s'))
        /\ exists lim, sv_limits (adm s) !! Config.joint m = Some lim
             /\ Limits.measured_position_fault (f64_of_f32 (ms_position_rad st)) lim = false).

(** session poses come from trusted frames only.  When an operational drain changes
    the cached pose of a drive, the new pose is a status frame of this very
    report, from that installed drive, received after the pose it replaces,
    finite in every field and never from a shed drive; while Active its drive's
    Enable has been read back from the wire and the position lies inside the
    joint's hard limits. *)
Theorem poses_from_trusted_frames (r : FeedbackReport) (s : S) (ad : MotorAddress) :
  let '(_, s') := consume_feedback_report display r s in
  motor_states (adm s') !! ad = motor_states (adm s) !! ad
  \/ exists st, motor_states (adm s') !! ad = Some st /\ trusted_pose r s s' ad st.
Proof.
  unfold consume_feedback_report, consume_report_in_context. set (s0 := record_replies r s).
  destruct (replies_quiet false r s) as [F0 _].
  destruct (events_passed display false Operational (ordered_events r) s0 acc_start) as [P1 _].
  assert (Ho : offered_all r (fold_left (consume_event display Operational) (ordered_events r) (s0, acc_start)))
    by (apply events_offered; [apply ordered_motor_in|constructor]).
  destruct (fold_left _ (ordered_events r) _) as [s1 a1]. cbn [fst] in P1.
  match goal with |- context [fold_left (admit_candidate display ?c ?q) ?l (s1, a1)] =>
    pose proof (candidates_pose c q l s1 a1 ad) as Hp; pose proof (candidates_passed display true c q l eq_refl (s1, a1)) as P2;
    destruct (fold_left (admit_candidate display c q) l (s1, a1)) as [s2 a2] end. cbn [fst] in Hp.
  destruct (completion_passed display false r s2 a2) as [P3 _].
  destruct (check_completion display r (s2, a2)) as [s3 a3].
  assert (F1 : fed false s s1) by (etransitivity; [exact F0|exact (ps_fed _ _ _ P1)]).
  pose proof (fd_states _ _ _ (ps_fed _ _ _ P3) eq_refl) as E3. cbn [fst] in E3. rewrite E3.
  destruct Hp as [->|(x & st & Hx & <- & Hs & Hpos & Hupd & Hval)]; [left; exact (f_equal (.!! ad) (fd_states _ _ _ F1 eq_refl))|].
  right. pose proof (proj1 (List.Forall_forall _ _) Ho x (proj1 (list_elem_of_In _ _) (sorted_candidates_in _ _ Hx)))
    as (o & f & H1 & H2 & H3 & H4 & H5 & H6 & H7 & H8).
  destruct F1 as [_ (Em & _) _ (Ed & _ & _ & _ & El & _ & Es) Est]. specialize (Est eq_refl). cbn [fst] in *.
  rewrite Em, Est, Es, Ed, El in *. rewrite H3. exists st. split; [by rewrite <- H3|]. exists o, f, (pc_motor x).
  rewrite Hpos, Hupd. do 8 (split; [assumption || reflexivity|]). intros Hact. destruct (H8 Hact) as [Hpend Hl].
  split; [|exact Hl].
  destruct (ps_fed _ _ _ P2) as [_ _ [Hsub2 _] _ _], (ps_fed _ _ _ P3) as [_ _ [Hsub3 _] _ _].
  cbn [fst] in *. set_solver.
Qed.

End Report.

End Hazards.
