(* ===== verification/Enable.v ===== *)
(** * Enable: how a session begins and how feedback keeps it

    The enable path of [src/crates/davout/src/lib.rs]: the type-24 Off gate, the
    staggered Enables, [poll_feedback], the identity re-read and
    [enable_targets].

    [verify_physical_identities] polls until every target answered or its
    deadline passed; its loop runs on fuel, and [Panic] marks fuel that ran out.
    Log lines are left out; the reference backend is the physical one. *)

From Stdlib Require Import ZArith Lia Bool.
From stdpp Require Import base gmap strings list pretty.
From S2P Require Import Prelude Float Comm Config Limits TotalTorque Params Mit Bus Receive Feedback Reporting Faults Davout Filter Admission Authority Physical Lifecycle Session Consume.

Module Enable.
Import Mit Bus Receive Feedback Faults Davout Filter Admission Lifecycle Session Consume.

Definition IDENTITY_ADMISSION_TIMEOUT : Z := 100000000.
Definition IDENTITY_ADMISSION_RETRY : Z := 10000000.
Definition IDENTITY_ADMISSION_SPACING : Z := BURST_GROUP_SPACING.
Definition IDENTITY_ADMISSION_POLL : Z := 5000000.

Section Enable.
Context {B : Type} `{CanBus B} {R : Type} `{ReferenceWork R}.
Variable observed : Observer B R.
Variable display : DavoutError -> string.

Abbreviation S := (Sup B R).
Abbreviation M A := (A * S)%type.

(** ** The Off gate and the Enable wave *)

Definition begin_reporting_off_gate (t : Z) (s : S) : S :=
  let e := session s in
  set_session (mkSession (enable_echo_pending e) (enable_writes_pending e) (enable_write_due e) (Some t) ∅) s.

Definition enable_catch_up (s : S) (a : MotorAddress) (t : Z) : bool :=
  match enable_bounds_start (adm s) a with
  | Some start => from_millis (Config.comm_watchdog_ms (sv_control (adm s))) / 2 <=? elapsed start t
  | None => false
  end.

(** [retain]: the kept targets and the wave, both in order; [wave] so far. *)
Fixpoint split_wave (s : S) (t : Z) (stagger_due : bool) (pending wave : list MotorAddress)
  : list MotorAddress * list MotorAddress :=
  match pending with
  | [] => ([], wave)
  | a :: rest =>
      let keep :=
        negb (set_zero_quiet_elapsed (adm s) a t) || negb (reporting_off_settled s a t)
        || (negb (enable_catch_up s a t)
            && (negb stagger_due || existsb (fun w => bool_decide (interface w = interface a)) wave)) in
      if keep then let '(kept, wave) := split_wave s t stagger_due rest wave in (a :: kept, wave)
      else split_wave s t stagger_due rest (wave ++ [a])
  end.

Definition with_pending (l : list MotorAddress) (due : option Z) (s : S) : S :=
  let e := session s in
  set_session (mkSession (enable_echo_pending e) l due (reporting_off_since e) (reporting_off_echoed e)) s.

Definition take_enable_wave (t : Z) (s : S) : M (list MotorAddress) :=
  let due := enable_write_due (session s) in
  let stagger_due := match due with Some d => d <=? t | None => true end in
  let '(kept, wave) := split_wave s t stagger_due (enable_writes_pending (session s)) [] in
  (wave, with_pending kept due s).

Fixpoint issue_offs (t : Z) (targets : list MotorAddress) (s : S) : M (result DavoutError unit) :=
  match targets with
  | [] => (Ok tt, s)
  | a :: rest =>
      match find_first (is_motor_address a) (motors (adm s)) with
      | None => issue_offs t rest s
      | Some m =>
          if bool_decide (is_Some (reporting_off_written s (Config.joint m)))
             || negb (set_zero_quiet_elapsed (adm s) a t)
          then issue_offs t rest s
          else
            let '(o, r, b) := Reporting.write_off (reporting s) (bus s) m t (enable_catch_up s a t) in
            let s := set_reporting r (set_bus b s) in
            match o with
            | None => issue_offs t rest s
            | Some res =>
                let '(p, c) := record_group (Config.can_interface m) (session_pacer s) (hostclock s) in
                let s := set_pacer p (set_clock c s) in
                match res with
                | Ok _ => issue_offs t rest s
                | Err e => (Err (EBus e), s)
                | Panic => (Panic, s)
                end
            end
      end
  end.

Definition issue_target_reporting_offs (t : Z) (s : S) : M (result DavoutError unit) :=
  issue_offs t (enable_writes_pending (session s)) s.

Definition note_solicit (a : MotorAddress) (written_at : Z) (s : S) : S :=
  if negb (bool_decide (mode (adm s) = Active)) then s
  else
    let sv := adm s in
    with_evidence (motor_states sv) (invalid_feedback sv) (set_zero_on_wire sv)
      (<[a := note_asked (default solicited_default (unanswered_solicits sv !! a)) written_at]>
         (unanswered_solicits sv)) s.

Definition write_enable (a : MotorAddress) (s : S) : M (result DavoutError unit) :=
  let '(written_at, s) := tick s in
  match enable_drive_at (bus s) a with
  | (Ok _, b) =>
      match set_run_mode_at b a Params.Mit with
      | (Ok _, b) => (Ok tt, note_solicit a written_at (set_bus b s))
      | (Err e, b) => (Err (EBus e), set_bus b s)
      | (Panic, b) => (Panic, set_bus b s)
      end
  | (Err e, b) => (Err (EBus e), set_bus b s)
  | (Panic, b) => (Panic, set_bus b s)
  end.

Fixpoint write_wave (wave : list MotorAddress) (s : S) : M (result DavoutError unit) :=
  match wave with
  | [] => (Ok tt, s)
  | a :: rest =>
      match write_enable a s with
      | (Ok _, s) =>
          let '(p, c) := record_group (interface a) (session_pacer s) (hostclock s) in
          write_wave rest (set_pacer p (set_clock c s))
      | r => r
      end
  end.

Definition issue_due_enable_writes (t : Z) (s : S) : M (result DavoutError unit) :=
  if negb (bool_decide (mode (adm s) = Active)) || bool_decide (enable_writes_pending (session s) = [])
     || bool_decide (active_since (adm s) = None) then (Ok tt, s)
  else
    match issue_target_reporting_offs t s with
    | (Ok _, s) =>
        let '(wave, s) := take_enable_wave t s in
        if bool_decide (wave = []) then (Ok tt, s)
        else
          match write_wave wave s with
          | (Ok _, s) =>
              (Ok tt, with_pending (enable_writes_pending (session s)) (Some (t + loop_period s)) s)
          | r => r
          end
    | r => r
    end.

(** ** Missing echoes *)

(** The first installed drive whose Enable echo is overdue. *)
Definition overdue_motor (t : Z) (s : S) : option (Config.MotorEntry * MotorAddress) :=
  let bound := from_millis (Config.comm_watchdog_ms (sv_control (adm s))) in
  let late m a := is_motor_address a m
    && match enable_bounds_start (adm s) a with
       | Some start => (start <=? t) && (bound <? t - start)
       | None => false
       end in
  m ← find_first (fun m => existsb (late m) (elements (enable_echo_pending (session s)))) (stop_motors s);
  a ← find_first (late m) (elements (enable_echo_pending (session s)));
  Some (m, a).

Definition enable_echo_overdue (t : Z) (s : S) : M (option (DavoutError * bool)) :=
  if negb (bool_decide (mode (adm s) = Active)) || bool_decide (enable_echo_pending (session s) = ∅)
  then (None, s)
  else
    match overdue_motor t s with
    | None => (None, s)
    | Some (m, a) =>
        let bound_ms := [AStr (pretty.pretty (Config.comm_watchdog_ms (sv_control (adm s))))] in
        let error := EInvalidFeedback (Config.joint m)
          (if bool_decide (a ∈ enable_writes_pending (session s))
              && negb (bool_decide (is_Some (reporting_off_echoed (session s) !! a)))
           then Msg "type-24 Off not observed on the bus within {} ms; Enable withheld, drive state unconfirmed" bound_ms
           else Msg "Enable not observed on the bus within {} ms; drive state unconfirmed" bound_ms) in
        let '(t, s) := record_fault FDriveState (Some (Config.joint m)) (Some (address_of_motor m))
                         (display error) device_default s in
        (Some (error, t), s)
    end.

(** ** One drain *)

(** Built at construction from the installed motors. *)
Definition motor_types (s : S) : list (MotorAddress * Config.MotorType) :=
  (fun m => (address_of_motor m, Config.motor_type m)) <$> stop_motors s.

Definition feedback_drain_quiet (s : S) : Z := Config.feedback_drain_quiet_us (sv_control (adm s)) * 1000.

(** Record the error, and stop unless a fault had stopped everything before. *)
Definition record_and_stop (e : DavoutError) (s : S) : S :=
  let already_stopped := has_latched_fault s in
  let s := (record_runtime_error display e s).2 in
  if already_stopped then s else (disable_all observed s).2.

Definition references_lost (valid : bool) (s : S) : bool :=
  bool_decide (mode (adm s) = Active) && negb (valid && active_references_held s).

(** A lapse of this drain alone may be answered by a shed. *)
Definition answer_lapse (lapsed valid first_transition : bool) (first_error : option DavoutError) (s : S)
  : M (option (bool * option DavoutError)) :=
  if lapsed && valid && negb first_transition && bool_decide (first_error = None) then
    match shed_for_drive_loss observed display s with
    | (Ok shed, s) => (Some (negb shed, first_error), s)
    | (Err e, s) => (Some (lapsed, Some e), s)
    | (Panic, s) => (None, s)
    end
  else (Some (lapsed, first_error), s).

(** The end of a drain: shed, stop, answer. *)
Definition finish_drain (lost lapsed valid first_transition : bool) (first_error : option DavoutError)
  (count : nat) (s : S) : M (result DavoutError nat) :=
  match answer_lapse lapsed valid first_transition first_error s with
  | (None, s) => (Panic, s)
  | (Some (lapsed, first_error), s) =>
      let s := if first_transition then (disable_all observed s).2 else s in
      let s := if (lost || lapsed) && bool_decide (mode (adm s) = Active) then (disable_all observed s).2 else s in
      let first_error :=
        match first_error with
        | Some e => Some e
        | None =>
            if lost then Some (EHoming (msg "current reference was revoked before feedback projection"))
            else if lapsed then Some (EHoming (msg "current reference was revoked after feedback projection"))
            else None
        end in
      (match first_error with Some e => Err e | None => Ok count end, s)
  end.

(** The second half, from the report on. *)
Definition settle_report (lost : bool) (report : FeedbackReport) (s : S) : M (result DavoutError nat) :=
  let count := length (observations report) in
  let d := diag s in
  let s := set_diag (mkDiag (out_of_limits d) (last_drive_reboot d)
             (sat_add_u64 (last_refresh_frames d) (Z.of_nat count))) s in
  let '(consumption, s) := consume_feedback_report display report s in
  let '(valid, s) := reference_binding_valid_with observed Judge s in
  let lapsed := negb lost && references_lost valid s in
  let '(t, s) := tick s in
  let '(overdue, s) := enable_echo_overdue t s in
  let first_transition := fc_transition consumption || match overdue with Some (_, t) => t | None => false end in
  let first_error := match fc_error consumption with Some e => Some e | None => fst <$> overdue end in
  finish_drain lost lapsed valid first_transition first_error count s.

Definition poll_feedback (budget : Z) (s : S) : M (result DavoutError nat) :=
  match enforce_degraded_deadline observed s with
  | (Err e, s) => (Err e, s)
  | (Panic, s) => (Panic, s)
  | (Ok _, s) =>
      let '(valid, s) := reference_binding_valid_with observed Defer s in
      let lost := references_lost valid s in
      let '(shed_r, s) := if lost && valid then shed_for_drive_loss observed display s else (Ok false, s) in
      match shed_r with
      | Err e => (Err e, s)
      | Panic => (Panic, s)
      | Ok shed =>
          let lost := lost && negb shed in
          let '(issued, s) :=
            if lost then (Ok tt, s) else let '(t, s) := tick s in issue_due_enable_writes t s in
          match issued with
          | Err e => (Err e, record_and_stop e s)
          | Panic => (Panic, s)
          | Ok _ =>
              match recv_feedback_report (motor_types s) budget (feedback_drain_quiet s) limits_default
                      (bus s) (hostclock s) with
              | None => (Panic, s)
              | Some (report, b, c) => settle_report lost report (set_clock c (set_bus b s))
              end
          end
      end
  end.

Definition drain_feedback (s : S) : M (result DavoutError nat) :=
  let '(busy, s) := reference_busy observed s in
  if busy then (Err (EReferenceBusy "ordinary feedback drain"), s) else poll_feedback 0 s.

(** ** Identity re-read *)

Record IdentityTarget : Type := mkTarget { t_joint : string; t_address : MotorAddress; t_uid : list Z }.

Fixpoint identity_targets (s : S) (js : list string) : result DavoutError (list IdentityTarget) :=
  match js with
  | [] => Ok []
  | j :: rest =>
      let! b := ok_or (Authority.binding_for j (authority s))
                  (EHoming (Msg "joint {}: no private current-reference permission" [AStr j])) in
      let! u := ok_or (Authority.uid b)
                  (EHomingVerify j (msg "physical grant has no bound device identity")) in
      let! tail := identity_targets s rest in
      Ok (mkTarget j (Authority.address b) u :: tail)
  end.

(** [DeviceUid]'s [Display]: two lower-case hexadecimal digits per byte. *)
Definition hex_digit (n : Z) : string :=
  match n with
  | 0 => "0" | 1 => "1" | 2 => "2" | 3 => "3" | 4 => "4" | 5 => "5" | 6 => "6" | 7 => "7"
  | 8 => "8" | 9 => "9" | 10 => "a" | 11 => "b" | 12 => "c" | 13 => "d" | 14 => "e" | _ => "f"
  end.
Definition uid_display (u : list Z) : string :=
  String.concat "" ((fun b => hex_digit (b / 16) +:+ hex_digit (b mod 16)) <$> u).

Example uid_display_bench : uid_display [0x45; 0x7B; 0x30; 0x02; 0x0C; 0x32; 0x38; 0x17] = "457b30020c323817"%string.
Proof. reflexivity. Qed.

(** The targets still silent with their indices, or the first one with another
    identity and the identity it showed. *)
Fixpoint scan_identities (watermark : Z) (p : Physical.PhysicalDevices) (index : nat) (l : list IdentityTarget)
  : (IdentityTarget * list Z + list (nat * IdentityTarget)) :=
  match l with
  | [] => inr []
  | t :: rest =>
      match Physical.identity_after (t_address t) watermark p with
      | Some seen =>
          if bool_decide (seen = t_uid t) then scan_identities watermark p (1 + index) rest else inl (t, seen)
      | None =>
          match scan_identities watermark p (1 + index) rest with
          | inl bad => inl bad
          | inr missing => inr ((index, t) :: missing)
          end
      end
  end.

(** When target [index] may be asked (again). *)
Definition due_at (asked : list (option Z)) (next_request : Z) (index : nat) : Z :=
  match default None (asked !! index) with
  | None => next_request
  | Some at_ => Z.max (at_ + IDENTITY_ADMISSION_RETRY) next_request
  end.

(** [min_by_key]: the first of the least, [None] first. *)
Definition asked_before (asked : list (option Z)) (i j : nat) : bool :=
  match default None (asked !! i), default None (asked !! j) with
  | None, None => false
  | None, Some _ => true
  | Some _, None => false
  | Some a, Some b => a <? b
  end.
Fixpoint least_asked (asked : list (option Z)) (l : list (nat * IdentityTarget)) : option (nat * IdentityTarget) :=
  match l with
  | [] => None
  | x :: rest =>
      match least_asked asked rest with
      | None => Some x
      | Some y => Some (if asked_before asked y.1 x.1 then y else x)
      end
  end.

Definition revoke_each (js : list string) (s : S) : S :=
  set_authority (fold_left (fun a j => Authority.revoke_joint j a) js (authority s)) s.

Fixpoint identity_rounds (fuel : nat) (targets : list IdentityTarget) (watermark deadline : Z)
  (asked : list (option Z)) (next_request : Z) (s : S) : M (result DavoutError unit) :=
  match fuel with
  | O => (Panic, s)
  | Datatypes.S fuel =>
      match scan_identities watermark (physical s) 0 targets with
      | inl (bad, seen) =>
          (Err (EHomingVerify (t_joint bad)
             (Msg "device identity changed: bound {}, observed {}"
                [AStr (uid_display (t_uid bad)); AStr (uid_display seen)])),
           revoke_each [t_joint bad] s)
      | inr [] => (Ok tt, s)
      | inr missing =>
          let '(t, s) := tick s in
          if deadline <=? t then
            let js := (fun x => t_joint x.2) <$> missing in
            (Err (EHomingVerify (String.concat "," js) (msg "device identity reply missing at admission")),
             revoke_each js s)
          else
            match least_asked asked (filter (fun x => due_at asked next_request x.1 <= t) missing) with
            | Some (index, target) =>
                let '(r, b) := get_device_id_at (bus s) (t_address target) in
                let s := set_bus b s in
                match r with
                | Ok _ =>
                    identity_rounds fuel targets watermark deadline (<[index := Some t]> asked)
                      (t + IDENTITY_ADMISSION_SPACING) s
                | Err e => (Err (EBus e), s)
                | Panic => (Panic, s)
                end
            | None =>
                let next_due := foldr Z.min (match missing with x :: _ => due_at asked next_request x.1 | [] => deadline end)
                                  ((fun x => due_at asked next_request x.1) <$> missing) in
                let '(t2, s) := tick s in
                let wait := Z.max 0 (Z.min deadline next_due - t2) in
                let s := sync_active_reporting observed s in
                match poll_feedback (Z.min wait IDENTITY_ADMISSION_POLL) s with
                | (Ok _, s) => identity_rounds fuel targets watermark deadline asked next_request s
                | (Err e, s) => (Err e, s)
                | (Panic, s) => (Panic, s)
                end
            end
      end
  end.

Definition verify_physical_identities (fuel : nat) (js : list string) (s : S) : M (result DavoutError unit) :=
  match identity_targets s js with
  | Ok targets =>
      let watermark := Physical.watermark (physical s) in
      let '(start, s) := tick s in
      let deadline := start + IDENTITY_ADMISSION_TIMEOUT
        + IDENTITY_ADMISSION_SPACING * Z.min (2 * Z.of_nat (length targets - 1)) U32_MAX in
      identity_rounds fuel targets watermark deadline (replicate (length targets) None) start s
  | Err e => (Err e, s)
  | Panic => (Panic, s)
  end.

(** ** Enable *)

Fixpoint check_disabled_poses_at_enable (js : list string) (s : S) : M (result DavoutError unit) :=
  match js with
  | [] => (Ok tt, s)
  | j :: rest =>
      match motor_index (adm s) j with
      | None => check_disabled_poses_at_enable rest s
      | Some index =>
          let '(o, c) := published_state (adm s) index (hostclock s) in
          let s := set_clock c s in
          match o with
          | None => check_disabled_poses_at_enable rest s
          | Some st =>
              let '(t, s) := tick s in
              if is_stale st (from_millis (Config.comm_watchdog_ms (sv_control (adm s)))) t
              then check_disabled_poses_at_enable rest s
              else
                match sv_limits (adm s) !! j with
                | None => check_disabled_poses_at_enable rest s
                | Some lim =>
                    let position := f64_of_f32 (ms_position_rad st) in
                    if Limits.measured_position_fault position lim then
                      let d := diag s in
                      (Err (ELimit j (Msg "measured position {} outside [{}, {}] (+ slack {}) at Enable"
                         [AF64 position; AF64 (Limits.hard_lower lim); AF64 (Limits.hard_upper lim);
                          AF64 (Limits.measured_fault_slack_rad (Limits.margin lim))])),
                       set_diag (mkDiag ({[j]} ∪ out_of_limits d) (last_drive_reboot d) (last_refresh_frames d)) s)
                    else check_disabled_poses_at_enable rest s
                end
          end
      end
  end.

Fixpoint enable_addresses (s : S) (js : list string) : result DavoutError (list MotorAddress) :=
  match js with
  | [] => Ok []
  | j :: rest =>
      let! m := ok_or (Config.motor_for_joint (motors (adm s)) j) (EUnknownJoint j) in
      let! tail := enable_addresses s rest in
      Ok (address_of_motor m :: tail)
  end.

Fixpoint write_all_enables (l : list MotorAddress) (s : S) : M (result DavoutError unit) :=
  match l with
  | [] => (Ok tt, s)
  | a :: rest =>
      match write_enable a s with
      | (Ok _, s) => write_all_enables rest s
      | r => r
      end
  end.

Definition arm_targets (addresses : list MotorAddress) (s : S) : M (result DavoutError unit) :=
  if echoes_transmissions (bus s) then
    let '(t, s) := tick s in
    let s := begin_reporting_off_gate t s in
    let e := session s in
    let s := set_session (mkSession (enable_echo_pending e ∪ list_to_set addresses) addresses
               (enable_write_due e) (reporting_off_since e) (reporting_off_echoed e)) s in
    issue_target_reporting_offs t s
  else write_all_enables addresses s.

Definition activate (js : list string) (s : S) : S :=
  let sv := adm s in
  let act : gset string := list_to_set js in
  let solicits : gmap MotorAddress SolicitedState :=
    fold_left (fun m x => if bool_decide (Config.joint x ∈ act)
                          then <[address_of_motor x := solicited_default]> m else m) (motors sv) ∅ in
  let '(t, s) := tick s in
  let s := set_adm (mkSupervisor Active (sv_control_mode sv) (fault_authority sv) (sv_limits sv) (motors sv)
             (motor_addresses sv) (sv_control sv) (motor_states sv) (Some t) (set_zero_on_wire sv)
             (invalid_feedback sv) ∅ (total_torque_clamps sv) (envelope_clamps sv) ∅ None act solicits (shed sv)) s in
  let e := session s in
  sync_active_reporting observed
    (set_session (mkSession (enable_echo_pending e) (enable_writes_pending e) None (reporting_off_since e)
                    (reporting_off_echoed e)) s).

(** The closure of [enable_targets_inner]. *)
Definition start_session (js : list string) (s : S) : M (result DavoutError unit) :=
  match enable_addresses s js with
  | Ok addresses =>
      match arm_targets addresses s with
      | (Ok _, s) =>
          match poll_feedback 0 s with
          | (Ok _, s) =>
              match ensure_reference_for observed js s with
              | (Ok _, s) => (Ok tt, activate js s)
              | r => r
              end
          | (Err e, s) => (Err e, s)
          | (Panic, s) => (Panic, s)
          end
      | r => r
      end
  | Err e => (Err e, s)
  | Panic => (Panic, s)
  end.

(** What must hold before any Enable is written. *)
Definition admit_enable (fuel : nat) (js : list string) (s : S) : M (result DavoutError unit) :=
  match require_fault_clear (adm s) with
  | Ok _ =>
      match ensure_reference_for observed js s with
      | (Ok _, s) =>
          match verify_physical_identities fuel js s with
          | (Ok _, s) =>
              match poll_feedback 0 s with
              | (Ok _, s) =>
                  match ensure_reference_for observed js s with
                  | (Ok _, s) =>
                      match check_disabled_poses_at_enable js s with
                      | (Err e, s) => (Err e, stop_after_runtime_error observed display e s)
                      | r => r
                      end
                  | r => r
                  end
              | (Err e, s) => (Err e, s)
              | (Panic, s) => (Panic, s)
              end
          | (Err e, s) => (Err e, stop_after_runtime_error observed display e s)
          | r => r
          end
      | r => r
      end
  | e => (e, s)
  end.

Definition enable_targets_inner (fuel : nat) (js : list string) (s : S) : M (result DavoutError unit) :=
  match admit_enable fuel js s with
  | (Ok _, s) =>
      match start_session js s with
      | (Err e, s) => (Err e, record_and_stop e s)
      | r => r
      end
  | r => r
  end.

Definition enable_targets (fuel : nat) (js : list string) (s : S) : M (result DavoutError unit) :=
  match (require_fault_clear (adm s) ;! refuse_during_episode "enable refused" s ;!
         refuse_if (reference_work_pending s) (EReferenceBusy "enable") ;!
         refuse_if (hardware_estop s) EEstop) with
  | Ok _ =>
      let '(still, s) :=
        if bool_decide (mode (adm s) = Active) then
          match ensure_reference_for_active observed display s with
          | (Ok _, s) => (refuse_during_episode "enable refused" s, s)
          | (Err e, s) => (Err e, s)
          | (Panic, s) => (Panic, s)
          end
        else (Ok tt, s) in
      match (still ;! refuse_if (bool_decide (js = [])) (EHoming (msg "enable targets empty")) ;!
             try_for_each (fun j => refuse_if (bool_decide (Config.motor_for_joint (motors (adm s)) j = None))
                                      (EUnknownJoint j)) js) with
      | Ok _ =>
          match ensure_reference_for observed js s with
          | (Ok _, s) =>
              if bool_decide (mode (adm s) = Active) then
                (if bool_decide (list_to_set js = active_joints (adm s)) then Ok tt
                 else Err EActiveSetChangeRefused, s)
              else enable_targets_inner fuel js s
          | r => r
          end
      | e => (e, s)
      end
  | e => (e, s)
  end.

End Enable.

End Enable.
