(* ===== verification/Activation.v ===== *)
(** * Activation: sessions start whole and end when evidence is missing

    Theorems about [Enable]: no Enable leaves before its drive's reporting Off
    has settled and its post-SetZero quiet has passed, and none is delayed past
    its catch-up point; a drain that latches a fault ends halted; identities are
    re-read before anything is enabled; and an enable request either activates
    exactly the requested, permitted joints or leaves the supervisor out of
    Active. *)

From Stdlib Require Import ZArith Lia Bool.
From stdpp Require Import base gmap strings list.
From S2P Require Import Prelude Float Comm Config Validate Limits TotalTorque Params Mit Bus Receive Feedback Reporting Faults Davout Filter Admission Authority Physical Lifecycle Stop Session Grants Send Consume Hazards Enable.

Module Activation.
Import Mit Bus Receive Feedback Faults Davout Filter Admission Lifecycle Stop Session Grants Send Consume Hazards Enable.

Section Activation.
Context {B : Type} `{CanBus B} {R : Type} `{ReferenceWork R}.
Variable observed : Observer B R.
Variable display : DavoutError -> string.
Abbreviation S := (Sup B R).

(** ** The Enable wave *)

Definition eligible (s : S) (t : Z) (a : MotorAddress) : Prop :=
  set_zero_quiet_elapsed (adm s) a t = true /\ reporting_off_settled s a t = true.

(** Interfaces of the targets that were not forced by their catch-up point. *)
Definition paced_interfaces (s : S) (t : Z) (l : list MotorAddress) : list string :=
  interface <$> filter (fun a => enable_catch_up s a t = false) l.

Lemma paced_app (s : S) (t : Z) (l : list MotorAddress) (a : MotorAddress) :
  paced_interfaces s t (l ++ [a])
  = paced_interfaces s t l ++ (if enable_catch_up s a t then [] else [interface a]).
Proof.
  unfold paced_interfaces. rewrite filter_app, fmap_app. f_equal. rewrite filter_cons, filter_nil.
  destruct (enable_catch_up s a t); [rewrite decide_False by discriminate|rewrite decide_True by reflexivity]; reflexivity.
Qed.

Record wave_ok (s : S) (t : Z) (due : bool) (pending wave kept wave' : list MotorAddress) : Prop := {
  wo_new : exists new, wave' = wave ++ new /\ pending ≡ₚ new ++ kept /\ Forall (eligible s t) new
           /\ (due = false -> Forall (fun a => enable_catch_up s a t = true) new);
  wo_caught : forall a, a ∈ pending -> eligible s t a -> enable_catch_up s a t = true -> a ∈ wave';
  wo_served : due = true -> forall a, a ∈ pending -> eligible s t a ->
              exists w, w ∈ wave' /\ interface w = interface a;
  wo_paced : NoDup (paced_interfaces s t wave) -> NoDup (paced_interfaces s t wave')
}.

Lemma split_wave_ok (s : S) (t : Z) (due : bool) (pending : list MotorAddress) : forall wave,
  wave_ok s t due pending wave (split_wave s t due pending wave).1 (split_wave s t due pending wave).2.
Proof.
  induction pending as [|a pending IH]; intros wave; cbn [split_wave].
  - split; cbn; auto.
    + exists []. rewrite app_nil_r. repeat split; auto.
    + intros a Ha. by apply not_elem_of_nil in Ha.
    + intros _ a Ha. by apply not_elem_of_nil in Ha.
  - destruct (_ || _ || _) eqn:Ek.
    + destruct (IH wave) as [(new & E & P & F & C) W1 W2 W3].
      destruct (split_wave s t due pending wave) as [kept wave'] eqn:Es. cbn [fst snd] in *.
      assert (Hno : eligible s t a -> enable_catch_up s a t = false
        /\ (due = true -> exists w, w ∈ wave /\ interface w = interface a)).
      { intros [Hq Hr]. rewrite Hq, Hr in Ek. cbn [negb orb] in Ek.
        apply andb_prop in Ek as [Hc Hw]. apply negb_true_iff in Hc. split; [exact Hc|]. intros ->.
        cbn [negb orb] in Hw. apply existsb_exists in Hw as (w & Hw & Hi). apply list_elem_of_In in Hw.
        exists w. split; [exact Hw|]. by apply bool_decide_eq_true in Hi. }
      split.
      * exists new. repeat split; auto. rewrite P. by rewrite Permutation_middle.
      * intros b Hb He Hc. apply elem_of_cons in Hb as [->|Hb]; [|auto].
        destruct (Hno He) as [Hf _]. congruence.
      * intros Hdue b Hb He. apply elem_of_cons in Hb as [->|Hb]; [|auto].
        destruct (Hno He) as [_ Hw]. destruct (Hw Hdue) as (w & Hw1 & Hw2). exists w. split; [|exact Hw2].
        rewrite E. apply elem_of_app. by left.
      * exact W3.
    + apply orb_false_iff in Ek as [[Hq%negb_false_iff Hr%negb_false_iff]%orb_false_iff Hc].
      destruct (IH (wave ++ [a])) as [(new & E & P & F & C) W1 W2 W3].
      assert (Hin : a ∈ (split_wave s t due pending (wave ++ [a])).2)
        by (rewrite E; apply elem_of_app; left; apply elem_of_app; right; left).
      split.
      * exists (a :: new). rewrite E, <- app_assoc. split; [reflexivity|]. split; [exact (perm_skip a P)|].
        split; [constructor; [by split|exact F]|]. intros Hd. constructor; [|auto].
        rewrite Hd in Hc. cbn [negb orb] in Hc. rewrite andb_true_r in Hc. by apply negb_false_iff.
      * intros b Hb He Hcu. apply elem_of_cons in Hb as [->|Hb]; [exact Hin|auto].
      * intros Hd b Hb He. apply elem_of_cons in Hb as [->|Hb]; [by exists a|auto].
      * intros Hn. apply W3. rewrite paced_app. destruct (enable_catch_up s a t) eqn:Ec; [by rewrite app_nil_r|].
        cbn [negb andb] in Hc. apply orb_false_iff in Hc as [_ Hx]. apply NoDup_app. split; [exact Hn|].
        split; [|apply NoDup_singleton]. intros i Hi Hi2. apply list_elem_of_singleton in Hi2 as ->.
        unfold paced_interfaces in Hi. apply list_elem_of_fmap in Hi as (w & Hw & Hi).
        apply list_elem_of_filter in Hi as [_ Hi].
        assert (Hc : existsb (fun w => bool_decide (interface w = interface a)) wave = true); [|congruence].
        apply existsb_exists. exists w. split; [by apply list_elem_of_In|]. by apply bool_decide_eq_true.
Qed.

(** Enables are gated, paced and never starved.  A wave takes targets out of the
    pending list and loses none; each of them has its type-24 Off of this session
    settled on the wire and its post-SetZero quiet elapsed; at most one per
    interface leaves unless a target is past its catch-up point, and none at all
    before the stagger period unless so; a ready target past its catch-up point
    always leaves, and when the period is due every interface with a ready
    target is served. *)
Theorem enable_wave_gated (t : Z) (s : S) :
  let '(wave, s') := take_enable_wave t s in
  let due := match enable_write_due (session s) with Some d => d <=? t | None => true end in
  enable_writes_pending (session s) ≡ₚ wave ++ enable_writes_pending (session s')
  /\ Forall (eligible s t) wave
  /\ NoDup (paced_interfaces s t wave)
  /\ (due = false -> Forall (fun a => enable_catch_up s a t = true) wave)
  /\ (forall a, a ∈ enable_writes_pending (session s) -> eligible s t a ->
      (enable_catch_up s a t = true -> a ∈ wave)
      /\ (due = true -> exists w, w ∈ wave /\ interface w = interface a))
  /\ adm s' = adm s /\ bus s' = bus s.
Proof.
  unfold take_enable_wave. set (due := match enable_write_due _ with Some _ => _ | None => _ end).
  destruct (split_wave_ok s t due (enable_writes_pending (session s)) []) as [(new & E & P & F & C) W1 W2 W3].
  destruct (split_wave s t due _ []) as [kept wave]. cbn [fst snd] in *. cbn [app] in E. subst new.
  repeat split; auto. apply W3. constructor.
Qed.

(** ** Steps that keep the session *)

Record kept (s s' : S) : Prop := {
  kp_mode : mode (adm s') = mode (adm s);
  kp_active : active_joints (adm s') = active_joints (adm s);
  kp_latched : has_latched_fault s' = has_latched_fault s;
  kp_estop : hardware_estop s' = hardware_estop s;
  kp_auth : Authority.authority_ok (authority s) -> Authority.authority_ok (authority s');
  kp_plans : plans_ok s -> plans_ok s';
  kp_episode : episode (loss s') = episode (loss s)
}.

#[local] Instance kept_preorder : PreOrder kept.
Proof.
  split.
  - intros s. split; auto.
  - intros s1 s2 s3 [] []. split; auto; congruence.
Qed.

Ltac kept_frame := split; cbn; auto.

Lemma tick_kept (s : S) : kept s (tick s).2.
Proof. unfold tick. destruct (now (hostclock s)). kept_frame. Qed.

Lemma check_binding_kept (lv : Liveness) (busy : bool) (i : nat) (s : S) : kept s (check_binding lv busy i s).
Proof.
  unfold check_binding. destruct (Authority.consumed (authority s) !! i) as [b|]; [|reflexivity].
  destruct (Authority.b_revoked b); [reflexivity|].
  assert (Hb : exists k, (binding_epoch lv busy b s).2 = set_clock k s).
  { unfold binding_epoch. destruct (match lv with Judge => true | Defer => _ end).
    - unfold tick. destruct (now (hostclock s)) as [t k]. by exists k.
    - exists (hostclock s). by destruct s. }
  destruct (binding_epoch lv busy b s) as [current s1]. destruct Hb as [k Hk]. cbn [snd] in Hk. subst s1.
  destruct (_ || _); [|kept_frame]. destruct (_ && _); split; cbn; auto.
  - exact (Authority.exec_ok (Authority.ORevokeBindingSilent i) (authority s)).
  - exact (Authority.exec_ok (Authority.ORevokeBinding i) (authority s)).
Qed.

Lemma check_bindings_kept (lv : Liveness) (busy : bool) (s : S) : kept s (check_bindings lv busy s).
Proof.
  unfold check_bindings. generalize (seq 0 (length (Authority.consumed (authority s)))) as l. intros l.
  revert s. induction l as [|i l IH]; intros s; cbn [fold_left]; [reflexivity|].
  etransitivity; [apply check_binding_kept|apply IH].
Qed.

Lemma valid_kept (lv : Liveness) (s : S) : kept s (reference_binding_valid_with observed lv s).2.
Proof.
  unfold reference_binding_valid_with. set (s1 := observe_all observed s).
  assert (H1 : kept s s1) by kept_frame.
  assert (Hr : kept s (revoke_all s1)) by (split; cbn; auto using Authority.revoke_ok).
  destruct (_ || _); [exact Hr|]. destruct (Validate.validate_safety_config _ _ _ _) as [u| |]; [|exact Hr..].
  destruct (Authority.realm _); [|exact H1]. destruct (negb _); [exact Hr|]. destruct (negb _); [exact Hr|].
  set (s2 := check_bindings _ _ s1).
  assert (H2 : kept s s2) by (etransitivity; [exact H1|apply check_bindings_kept]).
  pose proof (Authority.validate_binding_ok (live_policy s2) (authority s2)) as Hv.
  destruct (Authority.validate_binding _ _) as [ok a]. etransitivity; [exact H2|]. split; cbn; auto.
Qed.

Lemma shed_kept (s s' : S) (b : bool) :
  Authority.authority_ok (authority s) -> plans_ok s ->
  shed_for_drive_loss observed display s = (Ok b, s') ->
  has_latched_fault s' = has_latched_fault s /\ hardware_estop s' = hardware_estop s
  /\ Authority.authority_ok (authority s') /\ plans_ok s'
  /\ (b = true -> mode (adm s') = Active /\ active_references_held s' = true)
  /\ (b = false -> kept s s').
Proof.
  intros Hok Hpl E. pose proof (shed_answers observed display s Hok Hpl) as Ha. rewrite E in Ha.
  destruct Ha as [([= ->] & w & k & ->)|[[[e He] _]|([= ->] & plan & _ & Hs)]]; [|discriminate|].
  - split; [reflexivity|]. split; [reflexivity|]. split; [exact Hok|]. split; [exact Hpl|].
    split; [discriminate|]. intros _. kept_frame.
  - destruct Hs. destruct ss_mode0, ss_faults0, ss_invariants0, ss_setup0 as (_ & _ & _ & _ & Hes).
    split; [congruence|]. split; [exact Hes|]. repeat (split; [assumption|]). split; [|discriminate].
    intros _. split; [assumption|]. unfold active_references_held. apply forallb_forall. intros j Hj.
    apply ss_held0. apply elem_of_elements. by apply list_elem_of_In.
Qed.

Lemma shed_error_halts (s s' : S) (e : DavoutError) :
  Authority.authority_ok (authority s) -> plans_ok s ->
  shed_for_drive_loss observed display s = (Err e, s') -> halted s'.
Proof.
  intros Hok Hpl E. pose proof (shed_answers observed display s Hok Hpl) as Ha. rewrite E in Ha.
  destruct Ha as [([=] & _)|[[_ Hh]|([=] & _)]]. exact Hh.
Qed.

(** ** The staggered writes *)

Lemma issue_offs_kept (t : Z) (l : list MotorAddress) : forall s : S, kept s (issue_offs t l s).2.
Proof.
  induction l as [|a l IH]; intros s; cbn [issue_offs]; [reflexivity|].
  destruct (find_first _ _) as [m|]; [|apply IH]. destruct (_ || _); [apply IH|].
  destruct (Reporting.write_off _ _ _ _ _) as [[o r] b].
  assert (H1 : kept s (set_reporting r (set_bus b s))) by kept_frame.
  destruct o as [res|]; [|etransitivity; [exact H1|apply IH]].
  destruct (record_group _ _ _) as [p c].
  destruct res as [u|e|]; [|kept_frame..]. etransitivity; [|apply IH]. kept_frame.
Qed.

Lemma write_enable_kept (a : MotorAddress) (s : S) : kept s (write_enable a s).2.
Proof.
  unfold write_enable, tick. destruct (now (hostclock s)) as [t k].
  destruct (enable_drive_at _ _) as [[u|e|] b]; [|kept_frame..].
  destruct (set_run_mode_at _ _ _) as [[u'|e|] b']; [|kept_frame..].
  unfold note_solicit. destruct (negb _); kept_frame.
Qed.

Lemma write_wave_kept (l : list MotorAddress) : forall s : S, kept s (write_wave l s).2.
Proof.
  induction l as [|a l IH]; intros s; cbn [write_wave]; [reflexivity|].
  pose proof (write_enable_kept a s) as H1. destruct (write_enable a s) as [[u|e|] s1]; [|exact H1..].
  cbn [snd] in H1. destruct (record_group _ _ _) as [p c]. etransitivity; [exact H1|].
  etransitivity; [|apply IH]. kept_frame.
Qed.

Lemma write_all_kept (l : list MotorAddress) : forall s : S, kept s (write_all_enables l s).2.
Proof.
  induction l as [|a l IH]; intros s; cbn [write_all_enables]; [reflexivity|].
  pose proof (write_enable_kept a s) as H1. destruct (write_enable a s) as [[u|e|] s1]; [|exact H1..].
  etransitivity; [exact H1|apply IH].
Qed.

Lemma issue_due_kept (t : Z) (s : S) : kept s (issue_due_enable_writes t s).2.
Proof.
  unfold issue_due_enable_writes. destruct (_ || _); [reflexivity|].
  pose proof (issue_offs_kept t (enable_writes_pending (session s)) s) as H1.
  unfold issue_target_reporting_offs. destruct (issue_offs _ _ s) as [[u|e|] s1]; [|exact H1..].
  unfold take_enable_wave. destruct (split_wave _ _ _ _ _) as [kp wave].
  set (s2 := with_pending kp _ s1). assert (H2 : kept s s2) by (etransitivity; [exact H1|kept_frame]).
  destruct (bool_decide _); [exact H2|].
  pose proof (write_wave_kept wave s2) as H3. destruct (write_wave wave s2) as [[u'|e|] s3];
    (etransitivity; [exact H2|]); [|exact H3..]. etransitivity; [exact H3|kept_frame].
Qed.

Lemma record_and_stop_halts (e : DavoutError) (s : S) :
  has_latched_fault s = false -> halted (record_and_stop observed display e s).
Proof. intros Hl. unfold record_and_stop. rewrite Hl. apply disable_all_halts. Qed.

(** ** One drain *)

Lemma consume_kept (r : FeedbackReport) (s : S) :
  let '(out, s') := consume_feedback_report display r s in
  mode (adm s') = mode (adm s) /\ active_joints (adm s') = active_joints (adm s)
  /\ authority s' = authority s /\ loss s' = loss s /\ hardware_estop s' = hardware_estop s
  /\ (has_latched_fault s = false -> fc_transition out = has_latched_fault s')
  /\ (has_latched_fault s = false -> has_latched_fault s' = true -> fc_error out <> None).
Proof.
  pose proof (consume_spec display r Operational s) as Hc. unfold consume_feedback_report.
  destruct (consume_report_in_context display r Operational s) as [out s'].
  destruct Hc as (_ & [_ (_ & Ha & _ & He & _ & _ & Hl & _) _ (Hm & Hj & _) _] & Ht & Hne).
  repeat (split; [assumption|]). split; [|exact Hne]. intros Hn. by rewrite Ht, Hn.
Qed.

Lemma overdue_cases (t : Z) (s : S) :
  let '(o, s') := enable_echo_overdue display t s in
  (o = None /\ s' = s)
  \/ (exists e, o = Some (e, negb (has_latched_fault s)) /\ has_latched_fault s' = true
      /\ mode (adm s') = mode (adm s) /\ active_joints (adm s') = active_joints (adm s)
      /\ authority s' = authority s /\ loss s' = loss s).
Proof.
  unfold enable_echo_overdue. destruct (_ || _); [auto|]. destruct (overdue_motor t s) as [[m a]|]; [|auto].
  match goal with |- context [record_fault ?c ?j ?a ?m ?d ?x] =>
    destruct (record_fault_spec c j a m d x) as (f & k & E & Hl) end.
  rewrite E. right. eexists. split; [reflexivity|]. split; [exact Hl|]. auto.
Qed.

Lemma halted_inactive (s : S) : halted s -> bool_decide (mode (adm s) = Active) = false.
Proof. intros Hh. rewrite (h_mode _ Hh). reflexivity. Qed.

(** A drain's end, when the transition it was told is exactly the latch. *)
Lemma finish_spec (lost lapsed valid : bool) (err : option DavoutError) (n : nat) (s : S) :
  Authority.authority_ok (authority s) -> plans_ok s ->
  (lost = false -> lapsed = false -> mode (adm s) = Active -> active_references_held s = true) ->
  let '(r, s') := finish_drain observed display lost lapsed valid (has_latched_fault s) err n s in
  (has_latched_fault s' = true -> halted s')
  /\ (forall m, r = Ok m -> mode (adm s') = Active -> active_references_held s' = true).
Proof.
  intros Hok Hpl Hheld. unfold finish_drain, answer_lapse. destruct (has_latched_fault s) eqn:Hl.
  - rewrite andb_false_r, andb_false_l. pose proof (disable_all_halts observed s) as (Hh & _).
    rewrite (halted_inactive _ Hh), andb_false_r. split; [auto|].
    intros m _ Hact. by rewrite (h_mode _ Hh) in Hact.
  - assert (Hend : forall lapsed (err : option DavoutError) (s1 : S),
      (has_latched_fault s1 = true -> halted s1) ->
      (lost = false -> lapsed = false -> err = None -> mode (adm s1) = Active -> active_references_held s1 = true) ->
      let s2 := if (lost || lapsed) && bool_decide (mode (adm s1) = Active) then (disable_all observed s1).2 else s1 in
      (has_latched_fault s2 = true -> halted s2)
      /\ (forall m, match (match err with Some e => Some e | None =>
            if lost then Some (EHoming (msg "current reference was revoked before feedback projection"))
            else if lapsed then Some (EHoming (msg "current reference was revoked after feedback projection"))
            else None end) with Some e => Err e | None => Ok n end = Ok m ->
          mode (adm s2) = Active -> active_references_held s2 = true)).
    { intros lp er s1 H1 H2. destruct (disable_all_halts observed s1) as (Hh & _).
      destruct (_ && _) eqn:Ea; cbv zeta; [split; [auto|intros m _ Hact; by rewrite (h_mode _ Hh) in Hact]|].
      split; [exact H1|]. intros m. destruct er; [discriminate|]. destruct lost; [discriminate|].
      destruct lp; [discriminate|]. auto. }
    cbn [negb]. rewrite andb_true_r. destruct (lapsed && valid && bool_decide (err = None)) eqn:Eg.
    + destruct (shed_for_drive_loss observed display s) as [[b|e|] s1] eqn:Es.
      * destruct (shed_kept s s1 b Hok Hpl Es) as (Hl1 & _ & _ & _ & Ht & Hf).
        apply Hend; [congruence|]. intros _ Hb%negb_false_iff _ _. apply (Ht Hb).
      * pose proof (shed_error_halts s s1 e Hok Hpl Es) as Hh. 
        exact (Hend lapsed (Some e) s1 (fun _ => Hh) (fun _ _ E => ltac:(discriminate E))).
      * pose proof (shed_answers observed display s Hok Hpl) as Ha. rewrite Es in Ha.
        destruct Ha as [([=] & _)|[[[e [=]] _]|([=] & _)]].
    + apply Hend; [congruence|]. intros H1 H2 _ Hact. auto.
Qed.

Lemma settle_spec (lost : bool) (report : FeedbackReport) (s : S) :
  Authority.authority_ok (authority s) -> plans_ok s -> has_latched_fault s = false ->
  let '(r, s') := settle_report observed display lost report s in
  (has_latched_fault s' = true -> halted s')
  /\ (forall n, r = Ok n -> mode (adm s') = Active -> active_references_held s' = true).
Proof.
  intros Hok Hpl Hl0. unfold settle_report. set (s0 := set_diag _ s).
  pose proof (consume_kept report s0) as Hc.
  destruct (consume_feedback_report display report s0) as [out s1].
  destruct Hc as (Hm1 & Hj1 & Ha1 & Hlo1 & _ & Ht1 & _). specialize (Ht1 Hl0).
  pose proof (valid_kept Judge s1) as K2.
  destruct (reference_binding_valid_with observed Judge s1) as [valid s2]. cbn [snd] in K2.
  assert (Hok2 : Authority.authority_ok (authority s2)) by (apply (kp_auth _ _ K2); rewrite Ha1; exact Hok).
  assert (Hpl2 : plans_ok s2) by (apply (kp_plans _ _ K2); unfold plans_ok; rewrite Hlo1; exact Hpl).
  unfold tick. destruct (now (hostclock s2)) as [t k].
  pose proof (overdue_cases t (set_clock k s2)) as Hov.
  destruct (enable_echo_overdue display t (set_clock k s2)) as [overdue s3].
  change (has_latched_fault (set_clock k s2)) with (has_latched_fault s2) in Hov.
  assert (H3 : (fc_transition out || match overdue with Some (_, t) => t | None => false end) = has_latched_fault s3
    /\ mode (adm s3) = mode (adm s2) /\ active_joints (adm s3) = active_joints (adm s2)
    /\ authority s3 = authority s2 /\ loss s3 = loss s2).
  { rewrite Ht1, <- (kp_latched _ _ K2). destruct Hov as [[-> ->]|(e & -> & Hl3 & Hm3 & Hj3 & Ha3 & Hlo3)].
    - rewrite orb_false_r. auto.
    - rewrite Hl3. split; [by destruct (has_latched_fault s2)|auto]. }
  destruct H3 as (-> & Hm3 & Hj3 & Ha3 & Hlo3).
  apply finish_spec; [by rewrite Ha3|unfold plans_ok; by rewrite Hlo3|].
  intros -> Hlapsed Hact. cbn [negb andb] in Hlapsed. unfold references_lost in Hlapsed.
  rewrite <- Hm3, bool_decide_true in Hlapsed by exact Hact. cbn [andb] in Hlapsed.
  apply negb_false_iff, andb_prop in Hlapsed as [_ Hh]. unfold active_references_held in *. by rewrite Hj3, Ha3.
Qed.

Lemma enforce_cases (s : S) :
  let '(r, s') := enforce_degraded_deadline observed s in
  (r = Ok tt /\ kept s s') \/ ((exists e, r = Err e) /\ halted s').
Proof.
  unfold enforce_degraded_deadline, tick. destruct (episode (loss s)) as [ep|] eqn:He; [|by left].
  destruct (now (hostclock s)) as [t k]. destruct (_ <=? t); [|left; split; [reflexivity|kept_frame]].
  right. destruct (stop_ending_spec observed DeadlineEnd (set_clock k s) ep He) as (Hh & Hl & _).
  split; [|exact Hh]. exact (latched_refused _ Hl).
Qed.

Lemma issue_then_spec (s : S) (lost : bool) :
  let '(r, s') := if lost then (Ok tt, s) else let '(t, s) := tick s in issue_due_enable_writes t s in
  kept s s'.
Proof.
  destruct lost; [reflexivity|]. unfold tick. destruct (now (hostclock s)) as [t k].
  pose proof (issue_due_kept t (set_clock k s)) as Hk.
  destruct (issue_due_enable_writes t (set_clock k s)) as [r s1]. etransitivity; [|exact Hk]. kept_frame.
Qed.

(** No fault stands and every active joint may still be commanded. *)
Definition in_order (s : S) : Prop := has_latched_fault s = false /\ active_references_held s = true.

Lemma poll_closed (budget : Z) (s : S) :
  Authority.authority_ok (authority s) -> plans_ok s -> has_latched_fault s = false ->
  let '(r, s') := poll_feedback observed display budget s in
  (has_latched_fault s' = true -> halted s')
  /\ (forall n, r = Ok n -> mode (adm s') = Active -> in_order s').
Proof.
  intros Hok Hpl Hl. unfold poll_feedback.
  pose proof (enforce_cases s) as Hen. destruct (enforce_degraded_deadline observed s) as [r0 s0].
  destruct Hen as [[-> K0]|[[e ->] Hh]]; [|split; [auto|discriminate]].
  pose proof (valid_kept Defer s0) as K1.
  destruct (reference_binding_valid_with observed Defer s0) as [valid s1]. cbn [snd] in K1.
  assert (K : kept s s1) by (etransitivity; eassumption). clear K0 K1.
  assert (H2 : let '(r, s2) := if references_lost valid s1 && valid then shed_for_drive_loss observed display s1
                               else (Ok false, s1) in
    match r with
    | Err _ => halted s2
    | _ => has_latched_fault s2 = false /\ Authority.authority_ok (authority s2) /\ plans_ok s2
    end).
  { pose proof (kp_auth _ _ K Hok) as Hok1. pose proof (kp_plans _ _ K Hpl) as Hpl1.
    destruct (_ && valid); [|rewrite (kp_latched _ _ K); auto].
    destruct (shed_for_drive_loss observed display s1) as [[b|e|] s2] eqn:Es.
    - destruct (shed_kept s1 s2 b Hok1 Hpl1 Es) as (E & _ & ? & ? & _). rewrite E, (kp_latched _ _ K). auto.
    - exact (shed_error_halts _ _ _ Hok1 Hpl1 Es).
    - pose proof (shed_answers observed display s1 Hok1 Hpl1) as Ha. rewrite Es in Ha.
      destruct Ha as [([=] & _)|[[[e [=]] _]|([=] & _)]]. }
  destruct (if references_lost valid s1 && valid then _ else _) as [[shed|e|] s2];
    [|split; [auto|discriminate]|destruct H2 as (E & _); split; [congruence|discriminate]].
  destruct H2 as (Hl2 & Hok2 & Hpl2).
  pose proof (issue_then_spec s2 (references_lost valid s1 && negb shed)) as K3.
  destruct (if references_lost valid s1 && negb shed then _ else _) as [[u|e|] s3];
    pose proof (kp_latched _ _ K3) as Hl3; rewrite Hl2 in Hl3.
  - destruct (recv_feedback_report _ _ _ _ _ _) as [[[report b] c]|]; [|split; [congruence|discriminate]].
    pose proof (settle_spec (references_lost valid s1 && negb shed) report (set_clock c (set_bus b s3))
      (kp_auth _ _ K3 Hok2) (kp_plans _ _ K3 Hpl2) Hl3) as Hs.
    destruct (settle_report _ _ _ _ _) as [r s4]. destruct Hs as [Hs1 Hs2]. split; [exact Hs1|].
    intros n Hr Hact. split; [|exact (Hs2 n Hr Hact)]. destruct (has_latched_fault s4); [|reflexivity].
    by rewrite (h_mode _ (Hs1 eq_refl)) in Hact.
  - split; [|discriminate]. intros _. by apply record_and_stop_halts.
  - split; [congruence|discriminate].
Qed.

(** C15: a drain fails closed.  If no fault was latched and the drain ends with one
    latched, whatever caused it (a delivered hazard, a missing echo, a failed
    write, an expired episode), the supervisor is halted; and a drain that
    returns normally in Active leaves every active joint with its reference
    permission. *)
Theorem poll_fails_closed (budget : Z) (s : S) :
  Authority.authority_ok (authority s) -> plans_ok s -> has_latched_fault s = false ->
  let '(r, s') := poll_feedback observed display budget s in
  (has_latched_fault s' = true -> halted s')
  /\ (forall n, r = Ok n -> mode (adm s') = Active -> in_order s').
Proof. exact (poll_closed budget s). Qed.

(** ** Outside Active *)

Definition inactive (s : S) : Prop := mode (adm s) <> Active.

Lemma kept_inactive (s s' : S) : kept s s' -> inactive s -> inactive s'.
Proof. unfold inactive. intros [->] Hs. exact Hs. Qed.

Lemma stopped_inactive (s : S) : inactive (disable_all observed s).2.
Proof. destruct (disable_all_halts observed s) as (Hh & _). unfold inactive. by rewrite (h_mode _ Hh). Qed.

Lemma not_lost (valid : bool) (s : S) : inactive s -> references_lost valid s = false.
Proof. intros Hs. unfold references_lost. by rewrite bool_decide_false. Qed.

Lemma record_error_mode (e : DavoutError) (s : S) :
  mode (adm (record_runtime_error display e s).2) = mode (adm s).
Proof.
  unfold record_runtime_error.
  set (p := match e with ECommWatchdog _ j _ _ _ => in_bootstrap j s | _ => (false, s) end).
  assert (Hp : adm p.2 = adm s) by (unfold p; destruct e; try reflexivity; apply in_bootstrap_adm).
  destruct p as [excused s1]. cbn [snd] in Hp. rewrite <- Hp.
  destruct (if excused then _ else _) as [[c j]|]; [|reflexivity].
  match goal with |- context [record_fault ?c ?j ?a ?m ?d ?x] =>
    destruct (record_fault_spec c j a m d x) as (f & k & E & Hl) end. by rewrite E.
Qed.

Lemma record_and_stop_inactive (e : DavoutError) (s : S) :
  inactive s -> inactive (record_and_stop observed display e s).
Proof.
  intros Hs. unfold record_and_stop. destruct (has_latched_fault s); [|apply stopped_inactive].
  unfold inactive. by rewrite record_error_mode.
Qed.

Lemma runtime_error_inactive (e : DavoutError) (s : S) :
  inactive s -> inactive (stop_after_runtime_error observed display e s).
Proof.
  intros Hs. unfold stop_after_runtime_error. pose proof (record_error_mode e s) as Hm.
  destruct (record_runtime_error display e s) as [[] s1]; [apply stopped_inactive|].
  unfold inactive. cbn [snd] in Hm. by rewrite Hm.
Qed.

Lemma settle_inactive (report : FeedbackReport) (s : S) :
  inactive s -> inactive (settle_report observed display false report s).2.
Proof.
  intros Hs. unfold settle_report. set (s0 := set_diag _ s).
  pose proof (consume_kept report s0) as Hc. destruct (consume_feedback_report display report s0) as [out s1].
  destruct Hc as (Hm1 & _). assert (H1 : inactive s1) by (unfold inactive; by rewrite Hm1).
  pose proof (kept_inactive _ _ (valid_kept Judge s1) H1) as H2.
  destruct (reference_binding_valid_with observed Judge s1) as [valid s2]. cbn [snd] in H2.
  rewrite (not_lost valid s2 H2). unfold tick. destruct (now (hostclock s2)) as [t k].
  pose proof (overdue_cases t (set_clock k s2)) as Hov.
  destruct (enable_echo_overdue display t (set_clock k s2)) as [overdue s3].
  assert (H3 : inactive s3).
  { destruct Hov as [[_ ->]|(e & _ & _ & Hm & _)]; [exact H2|]. unfold inactive. rewrite Hm. exact H2. }
  unfold finish_drain, answer_lapse. cbn [andb orb negb].
  destruct (fc_transition out || _); [apply stopped_inactive|exact H3].
Qed.

Lemma poll_inactive (budget : Z) (s : S) : inactive s -> inactive (poll_feedback observed display budget s).2.
Proof.
  intros Hs. unfold poll_feedback. pose proof (enforce_cases s) as Hen.
  destruct (enforce_degraded_deadline observed s) as [r0 s0].
  destruct Hen as [[-> K0]|[[e ->] Hh]]; [|cbn; unfold inactive; by rewrite (h_mode _ Hh)].
  pose proof (kept_inactive _ _ (valid_kept Defer s0) (kept_inactive _ _ K0 Hs)) as H1.
  destruct (reference_binding_valid_with observed Defer s0) as [valid s1]. cbn [snd] in H1.
  rewrite (not_lost valid s1 H1). cbn [andb].
  pose proof (issue_then_spec s1 false) as K2. cbv beta iota in K2.
  destruct (let '(t, s) := tick s1 in issue_due_enable_writes t s) as [[u|e|] s2].
  all: pose proof (kept_inactive _ _ K2 H1) as H2.
  - destruct (recv_feedback_report _ _ _ _ _ _) as [[[report b] c]|]; [|exact H2].
    apply settle_inactive. exact H2.
  - by apply record_and_stop_inactive.
  - exact H2.
Qed.

Lemma ensure_for_spec (js : list string) (s : S) :
  let '(r, s') := ensure_reference_for observed js s in
  (inactive s -> inactive s')
  /\ (r = Ok tt -> kept s s' /\ has_latched_fault s' = false /\ hardware_estop s' = false
      /\ forall j, j ∈ js -> Authority.contains j (authority s') = true).
Proof.
  unfold ensure_reference_for, ensure_reference_binding, reference_busy. set (s0 := observe observed s).
  destruct (acquisition_busy _ || _); [split; [auto|discriminate]|].
  destruct (require_fault_clear (adm s0)) as [u|e|]; [|split; [auto|discriminate]..].
  pose proof (valid_kept Judge s0) as K.
  destruct (reference_binding_valid_with observed Judge s0) as [valid s1] eqn:Ev. cbn [snd] in K.
  assert (K1 : kept s s1) by (etransitivity; [|exact K]; kept_frame).
  destruct valid; [|split; [|discriminate]; intros Hs;
    destruct (bool_decide _); [apply stopped_inactive|exact (kept_inactive _ _ K1 Hs)]].
  split; [exact (kept_inactive _ _ K1)|]. intros Er. split; [exact K1|].
  assert (Hv : has_latched_fault s0 = false /\ hardware_estop s0 = false).
  { unfold reference_binding_valid_with in Ev. apply orb_false_iff. cbn in Ev |- *.
    match type of Ev with (if ?b then _ else _) = _ => change b with (has_latched_fault s || hardware_estop s) in Ev end.
    destruct (has_latched_fault s || hardware_estop s) eqn:Eo; [discriminate|exact Eo]. }
  rewrite (kp_latched _ _ K), (kp_estop _ _ K). destruct Hv as [Hv1 Hv2].
  split; [exact Hv1|]. split; [exact Hv2|]. exact (require_permission_ok s1 js Er).
Qed.

(** ** Identities *)

Definition reread (watermark : Z) (s : S) (t : IdentityTarget) : Prop :=
  Physical.identity_after (t_address t) watermark (physical s) = Some (t_uid t).

Lemma scan_none_missing (w : Z) (p : Physical.PhysicalDevices) (l : list IdentityTarget) : forall i,
  scan_identities w p i l = inr [] ->
  Forall (fun t => Physical.identity_after (t_address t) w p = Some (t_uid t)) l.
Proof.
  induction l as [|t l IH]; intros i; cbn [scan_identities]; [constructor|].
  destruct (Physical.identity_after (t_address t) w p) as [seen|] eqn:Ei.
  - destruct (bool_decide_reflect (seen = t_uid t)) as [->|]; [|discriminate]. intros E. constructor; eauto.
  - destruct (scan_identities w p (1 + i) l); discriminate.
Qed.

Lemma rounds_spec (fuel : nat) (targets : list IdentityTarget) (w deadline : Z) : forall asked next (s : S),
  let '(r, s') := identity_rounds observed display fuel targets w deadline asked next s in
  (r = Ok tt -> Forall (reread w s') targets) /\ (inactive s -> inactive s').
Proof.
  induction fuel as [|fuel IH]; intros asked next s; cbn [identity_rounds]; [split; [discriminate|auto]|].
  destruct (scan_identities w (physical s) 0 targets) as [[bad seen]|missing] eqn:Es; [split; [discriminate|auto]|].
  destruct missing as [|x missing];
    [split; [intros _; exact (scan_none_missing _ _ _ _ Es)|auto]|].
  set (l := x :: missing) in *. unfold tick. destruct (now (hostclock s)) as [t k].
  destruct (deadline <=? t); [split; [discriminate|auto]|].
  destruct (least_asked asked _) as [[i target]|].
  - destruct (get_device_id_at _ _) as [[u|e|] b]; [|split; [discriminate|auto]..].
    specialize (IH (<[i := Some t]> asked) (t + IDENTITY_ADMISSION_SPACING) (set_bus b (set_clock k s))).
    destruct (identity_rounds _ _ _ _ _ _ _ _ _) as [r s']. exact IH.
  - cbn [hostclock set_clock]. destruct (now k) as [t2 k2].
    match goal with |- context [poll_feedback observed display ?b ?x] =>
      pose proof (poll_inactive b x) as Hp; destruct (poll_feedback observed display b x) as [[n|e|] s2] end;
      cbn [snd] in Hp; unfold inactive in Hp; rewrite (proj1 (sync_frame observed _)) in Hp;
      [|split; [discriminate|exact Hp]..].
    specialize (IH asked next s2). destruct (identity_rounds _ _ _ _ _ _ _ _ _) as [r s'].
    destruct IH as [I1 I2]. split; [exact I1|]. intros Hs. apply I2, Hp, Hs.
Qed.

Lemma identity_targets_cover (s : S) (js : list string) : forall l,
  identity_targets s js = Ok l -> forall j, j ∈ js ->
  exists b u, Authority.binding_for j (authority s) = Some b /\ Authority.uid b = Some u
    /\ mkTarget j (Authority.address b) u ∈ l.
Proof.
  induction js as [|j0 js IH]; intros l; cbn [identity_targets]; intros E j Hj; [by apply not_elem_of_nil in Hj|].
  destruct (Authority.binding_for j0 (authority s)) as [b|] eqn:Eb; [|discriminate]. cbn in E.
  destruct (Authority.uid b) as [u|] eqn:Eu; [|discriminate]. cbn in E.
  destruct (identity_targets s js) as [tl| |]; [|discriminate..]. injection E as <-.
  apply elem_of_cons in Hj as [->|Hj].
  - exists b, u. repeat split; auto. left.
  - destruct (IH tl eq_refl j Hj) as (b' & u' & ? & ? & ?). exists b', u'. repeat split; auto. by right.
Qed.

(** The drive of [j] showed the bound identity since the watermark of [s]. *)
Definition identity_confirmed (s s' : S) (j : string) : Prop :=
  exists b u, Authority.binding_for j (authority s) = Some b /\ Authority.uid b = Some u
    /\ Physical.identity_after (Authority.address b) (Physical.watermark (physical s)) (physical s') = Some u.

Lemma verify_spec (fuel : nat) (js : list string) (s : S) :
  let '(r, s') := verify_physical_identities observed display fuel js s in
  (r = Ok tt -> forall j, j ∈ js -> identity_confirmed s s' j)
  /\ (inactive s -> inactive s').
Proof.
  unfold verify_physical_identities. destruct (identity_targets s js) as [l|e|] eqn:El;
    [|split; [discriminate|auto]..].
  unfold tick. destruct (now (hostclock s)) as [t k].
  match goal with |- context [identity_rounds _ _ fuel l ?w ?d ?a ?n ?x] =>
    pose proof (rounds_spec fuel l w d a n x) as Hr; destruct (identity_rounds _ _ fuel l w d a n x) as [r s'] end.
  destruct Hr as [H1 H2]. split; [|exact H2]. intros Hok j Hj.
  destruct (identity_targets_cover s js l El j Hj) as (b & u & Eb & Eu & Hin). exists b, u.
  repeat split; auto. specialize (H1 Hok). rewrite Forall_forall in H1. exact (H1 _ Hin).
Qed.

(** ** The enable request *)

Lemma poses_inactive (js : list string) : forall s : S,
  inactive s -> inactive (check_disabled_poses_at_enable js s).2.
Proof.
  induction js as [|j js IH]; intros s Hs; cbn [check_disabled_poses_at_enable]; [exact Hs|].
  destruct (motor_index (adm s) j) as [i|]; [|auto].
  destruct (published_state _ i _) as [[st|] c]; [|by apply IH].
  unfold tick. destruct (now _) as [t k]. destruct (is_stale _ _ _); [by apply IH|].
  destruct (_ !! j) as [lim|]; [|by apply IH]. destruct (Limits.measured_position_fault _ _); [exact Hs|by apply IH].
Qed.

Lemma arm_kept (l : list MotorAddress) (s : S) : kept s (arm_targets l s).2.
Proof.
  unfold arm_targets. destruct (echoes_transmissions _); [|apply write_all_kept].
  unfold tick. destruct (now (hostclock s)) as [t k]. etransitivity; [|apply issue_offs_kept]. kept_frame.
Qed.

(** What a granted request leaves. *)
Record enabled (js : list string) (s : S) : Prop := {
  en_mode : mode (adm s) = Active;
  en_joints : active_joints (adm s) = list_to_set js;
  en_permitted : forall j, j ∈ js -> Authority.contains j (authority s) = true;
  en_faults : has_latched_fault s = false /\ hardware_estop s = false;
  en_fresh : sv_last_tau_ff (adm s) = ∅ /\ sv_wrong_sign_state (adm s) = ∅ /\ last_tick (adm s) = None
             /\ active_since (adm s) <> None
}.

Lemma activate_enabled (js : list string) (s : S) :
  has_latched_fault s = false -> hardware_estop s = false ->
  (forall j, j ∈ js -> Authority.contains j (authority s) = true) -> enabled js (activate observed js s).
Proof.
  intros Hl He Hc. unfold activate, tick. destruct (now (hostclock s)) as [t k].
  match goal with |- enabled js (sync_active_reporting observed ?x) =>
    destruct (sync_frame observed x) as (Ha & _ & _ & _ & Hau & _); set (y := x) in * end.
  assert (Hes : hardware_estop (sync_active_reporting observed y) = hardware_estop y).
  { unfold sync_active_reporting, reference_busy, tick. destruct (_ || exit_reporting_released _); [reflexivity|].
    destruct (now _). destruct (Reporting.sync_holding _ _ _ _ _ _ _ _) as [[df r] b]. reflexivity. }
  split; rewrite ?Hau; unfold has_latched_fault; rewrite ?Ha, ?Hes; try reflexivity; auto.
Qed.

Lemma start_spec (js : list string) (s : S) :
  inactive s ->
  let '(r, s') := start_session observed display js s in
  (r = Ok tt -> enabled js s') /\ (r <> Ok tt -> inactive s').
Proof.
  intros Hs. unfold start_session. destruct (enable_addresses s js) as [l|e|]; [|split; [discriminate|auto]..].
  pose proof (kept_inactive _ _ (arm_kept l s) Hs) as H1.
  destruct (arm_targets l s) as [[u|e|] s1]; [|split; [discriminate|auto]..]. cbn [snd] in H1.
  pose proof (poll_inactive 0 s1 H1) as H2.
  destruct (poll_feedback observed display 0 s1) as [[n|e|] s2]; [|split; [discriminate|auto]..].
  pose proof (ensure_for_spec js s2) as He. destruct (ensure_reference_for observed js s2) as [r s3].
  destruct He as [H3 H4]. specialize (H3 H2). destruct r as [[]|e|]; [|split; [discriminate|auto]..].
  destruct (H4 eq_refl) as (_ & Hl & Hes & Hc). split; [|congruence]. intros _. by apply activate_enabled.
Qed.

Lemma admit_enable_inactive (fuel : nat) (js : list string) (s : S) :
  inactive s -> inactive (admit_enable observed display fuel js s).2.
Proof.
  intros Hs. unfold admit_enable. destruct (require_fault_clear _) as [u|e|]; [|exact Hs..].
  pose proof (ensure_for_spec js s) as He. destruct (ensure_reference_for observed js s) as [[[]|e|] s1];
    destruct He as [He _]; specialize (He Hs); [|exact He..].
  pose proof (verify_spec fuel js s1) as Hv.
  destruct (verify_physical_identities _ _ fuel js s1) as [[[]|e|] s2]; destruct Hv as [_ Hv]; specialize (Hv He);
    [|by apply runtime_error_inactive|exact Hv].
  pose proof (poll_inactive 0 s2 Hv) as Hp.
  destruct (poll_feedback observed display 0 s2) as [[n|e|] s3]; [|exact Hp..]. cbn [snd] in Hp.
  pose proof (ensure_for_spec js s3) as He2. destruct (ensure_reference_for observed js s3) as [[[]|e|] s4];
    destruct He2 as [He2 _]; specialize (He2 Hp); [|exact He2..].
  pose proof (poses_inactive js s4 He2) as Hd.
  destruct (check_disabled_poses_at_enable js s4) as [[[]|e|] s5]; [exact Hd| |exact Hd].
  by apply runtime_error_inactive.
Qed.

(** C16: an enable request is all or nothing.  From outside Active, a granted
    request leaves the supervisor Active with exactly the requested joints, each
    holding its reference permission, no fault latched, the estop released, and
    the command-filter history of the previous session gone; a refused request,
    whichever check, write or drain refused it, leaves the supervisor out of
    Active. *)
Theorem enable_all_or_nothing (fuel : nat) (js : list string) (s : S) :
  mode (adm s) <> Active ->
  let '(r, s') := enable_targets observed display fuel js s in
  (r = Ok tt -> js <> [] /\ enabled js s') /\ (r <> Ok tt -> mode (adm s') <> Active).
Proof.
  intros Hs. unfold enable_targets. destruct (require_fault_clear (adm s) ;! _) as [[]|e|];
    [|split; [discriminate|auto]..].
  rewrite bool_decide_false by exact Hs. cbn [rbind].
  destruct (refuse_if (bool_decide (js = [])) _ ;! _) as [[]|e|] eqn:Eg; [|split; [discriminate|auto]..].
  assert (Hne : js <> []) by (intros ->; discriminate).
  pose proof (ensure_for_spec js s) as He. destruct (ensure_reference_for observed js s) as [[[]|e|] s1];
    destruct He as [He _]; specialize (He Hs); [|split; [discriminate|auto]..].
  rewrite bool_decide_false by exact He. unfold enable_targets_inner.
  pose proof (admit_enable_inactive fuel js s1 He) as Ha.
  destruct (admit_enable observed display fuel js s1) as [[[]|e|] s2]; [|split; [discriminate|auto]..].
  pose proof (start_spec js s2 Ha) as Hst. destruct (start_session observed display js s2) as [[[]|e|] s3];
    destruct Hst as [H1 H2].
  - split; [auto|congruence].
  - split; [discriminate|]. intros _. apply record_and_stop_inactive, H2. discriminate.
  - split; [discriminate|auto].
Qed.

(** nothing is enabled on a remembered identity.  When the admission re-read
    succeeds, every requested joint's drive answered after the request began with
    the device identity its reference is bound to; and the re-read, however it
    ends, never makes the supervisor Active. *)
Theorem identities_reread (fuel : nat) (js : list string) (s : S) :
  let '(r, s') := verify_physical_identities observed display fuel js s in
  (r = Ok tt -> forall j, j ∈ js -> identity_confirmed s s' j)
  /\ (mode (adm s) <> Active -> mode (adm s') <> Active).
Proof. exact (verify_spec fuel js s). Qed.

End Activation.
#[export] Existing Instance kept_preorder.

(** ** The bench session polled, and a drive at rest enabled *)

Lemma poll_fails_closed_witness :
  has_latched_fault bench_sup = false
  /\ let '(r, s') := poll_feedback nothing_observed (fun _ => ""%string) 0 bench_sup in
     has_latched_fault s' = true -> halted s'.
Proof.
  assert (Hn : has_latched_fault bench_sup = false) by reflexivity. split; [exact Hn|].
  pose proof (poll_fails_closed nothing_observed (fun _ => ""%string) 0 bench_sup bench_authority_ok
    (List.Forall_nil _) Hn) as Hp.
  destruct (poll_feedback _ _ 0 bench_sup) as [r s']. exact (proj1 Hp).
Defined.

Definition rest_session : Admission.Supervisor :=
  mkSupervisor Disabled CDisabled authority_default (bench_limits (f64_of_Z 10)) [bench_motor] []
    bench_control {[bench_address := bench_pose]} None ∅ ∅ ∅ TotalTorque.clamp_log_default ∅ ∅ None ∅ ∅ [].

Definition rest_uid : list Z := [1; 2; 3; 4; 5; 6; 7; 8].

Definition rest_authority : Authority.ReferenceAuthority :=
  (Authority.select_consumed 7
     (Authority.new_binding 100 (Authority.mkStamp 1 3) Authority.pitch bench_address 1 (Some rest_uid))
     bench_policy Authority.Accumulate Authority.default_authority).2.

Definition rest_devices : Physical.PhysicalDevices :=
  Physical.mkPhysical
    {[bench_address := Physical.mkDev Physical.demo_bounds 1 (Some rest_uid) (Some 2000990000) None None None]}
    4 [] [] None.

(** A disabled supervisor whose drive will answer with the bytes [uid]. *)
Definition rest_sup (uid : list Z) : Sup (Reporting.Spy MemoryBus) unit :=
  mkSup rest_session bench_installed false [bench_motor] rest_authority rest_devices tt
    Reporting.reporting_default no_session ∅ no_tracking bench_loss false no_diagnostics
    (Reporting.mkSpy (mkMemoryBus [] [mkCanFrame (11 * 256 + 254) uid true]) []) bench_clock.

Abbreviation enable_rest uid :=
  (enable_targets nothing_observed (fun _ => ""%string) 6 [Authority.pitch] (rest_sup uid)).

(** Another device answered: nothing is enabled and the reference is gone. *)
Example other_device_refused :
  (enable_rest [9; 2; 3; 4; 5; 6; 7; 8]).1 <> Ok tt
  /\ Authority.contains Authority.pitch (authority (enable_rest [9; 2; 3; 4; 5; 6; 7; 8]).2) = false.
Proof. split; [vm_compute; discriminate|vm_compute; reflexivity]. Qed.

Lemma enable_all_or_nothing_witness :
  mode (adm (rest_sup rest_uid)) <> Active
  /\ (enable_rest rest_uid).1 = Ok tt /\ enabled [Authority.pitch] (enable_rest rest_uid).2.
Proof.
  assert (Hm : mode (adm (rest_sup rest_uid)) <> Active) by discriminate.
  assert (Hr : (enable_rest rest_uid).1 = Ok tt) by (vm_compute; reflexivity).
  split; [exact Hm|]. split; [exact Hr|].
  pose proof (enable_all_or_nothing nothing_observed (fun _ => ""%string) 6 [Authority.pitch] (rest_sup rest_uid) Hm) as He.
  revert Hr He. generalize (enable_rest rest_uid). intros [r s'] Hr He. exact (proj2 (proj1 He Hr)).
Defined.

End Activation.
