(* ===== verification/Position.v ===== *)
(** * Position: reference trajectories and the scaled-PD position law

    [src/crates/berthier/src/] [position_trajectory.rs] (the trapezoidal planner
    and the damping feed-forward), [position_profile.rs] (cruise speed selection)
    and [position_law.rs] (the scaled-PD law: governor, reference step,
    integrals, composed feed-forward).

    The platform's [exp] and [tanh] have no specified precision, so they are
    arguments; the theorems hold for every such pair of functions. *)

From Stdlib Require Import ZArith Lia Bool SpecFloat.
From stdpp Require Import base strings list.
From S2P Require Import Prelude Float Config.

Module Position.

Definition sqrt64 (x : f64) : f64 := SFsqrt prec64 emax64 x.

Definition fone : f64 := f64_of_Z 1.
Definition ftwo : f64 := f64_of_Z 2.

(** Code without an error of its own can still panic in [f64::clamp]. *)
Abbreviation calc A := (result Empty_set A).

(** ** Trapezoidal planner *)

Definition POSITION_TOLERANCE_RAD : f64 := lit64 1 10000.

Inductive TrapezoidPhase : Type := Accelerate | Cruise | Decelerate | Hold.

#[export] Instance TrapezoidPhase_eq_dec : EqDecision TrapezoidPhase.
Proof. solve_decision. Defined.

Definition phase_as_str (p : TrapezoidPhase) : string :=
  match p with
  | Accelerate => "Accelerate"
  | Cruise => "Cruise"
  | Decelerate => "Decelerate"
  | Hold => "Hold"
  end.

Record JointPositionPlanner : Type := mkPlanner { q_traj : f64; dq_traj : f64; phase : TrapezoidPhase }.

Definition new_at (q : f64) : JointPositionPlanner := mkPlanner q fzero Hold.

Definition target_away (q target : f64) : bool := fgt (fabs (sub64 target q)) POSITION_TOLERANCE_RAD.

Definition new_for_target (q target : f64) : JointPositionPlanner :=
  mkPlanner q fzero (if target_away q target then Accelerate else Hold).

Definition reset_target (q target : f64) (p : JointPositionPlanner) : JointPositionPlanner :=
  mkPlanner q fzero (if target_away q target then Accelerate else Hold).

Definition latch_at_target (target : f64) (p : JointPositionPlanner) : JointPositionPlanner :=
  mkPlanner target fzero Hold.

Definition resume_cruise_toward (q dq : f64) (p : JointPositionPlanner) : JointPositionPlanner :=
  mkPlanner q dq Cruise.

Definition set_reference (q dq : f64) (ph : TrapezoidPhase) (p : JointPositionPlanner) : JointPositionPlanner :=
  mkPlanner q dq ph.

Definition is_gravity_assisted_return (q target : f64) : bool :=
  fgt (mul64 q target) fzero && flt (fabs target) (fabs q).

Definition is_descent_return (q target min_span_rad : f64) : bool :=
  if fle (fabs (sub64 target q)) POSITION_TOLERANCE_RAD then false
  else if fle (fabs q) min_span_rad then false
  else if fle (fabs target) POSITION_TOLERANCE_RAD
       then negb (feq (fsignum (sub64 target q)) (fsignum q))
       else is_gravity_assisted_return q target.

Definition seed_downward_return_if_needed (q target seed_threshold_rad v_seed : f64)
  (p : JointPositionPlanner) : JointPositionPlanner :=
  if negb (is_descent_return q target seed_threshold_rad) || fge target (sub64 q seed_threshold_rad)
     || fle v_seed POSITION_TOLERANCE_RAD
  then p
  else mkPlanner (q_traj p) (fneg v_seed) Accelerate.

(** Positive and finite, or no limit at all. *)
Definition usable (x : f64) : bool := is_finite x && fgt x fzero.
Definition cruise_limit (v_max : f64) : f64 := if usable v_max then v_max else fzero.

(** The new speed along the target direction, and the phase. *)
Definition trapezoid_speed (v_along v dist v_max a_max dt : f64) : f64 * TrapezoidPhase :=
  let v_mag := fabs v in
  let stop_dist := if fgt v_mag fzero then div64 (mul64 v_mag v_mag) (mul64 ftwo a_max) else fzero in
  if fge stop_dist dist then
    let v_cap := sqrt64 (mul64 (mul64 ftwo a_max) dist) in
    let decel := fmax (sub64 v_along (mul64 a_max dt)) fzero in
    (fmin decel v_cap, Decelerate)
  else if flt v_along v_max then
    let accel := fmin (add64 v_along (mul64 a_max dt)) v_max in
    (accel, if fge accel (sub64 v_max (lit64 1 1000000000)) then Cruise else Accelerate)
  else (fmax (sub64 v_along (mul64 a_max dt)) v_max, Cruise).

Definition trapezoid_step (q v q_target v_max a_max dt : f64) : f64 * f64 * TrapezoidPhase :=
  let v_max := cruise_limit v_max in
  let remaining := sub64 q_target q in
  let dir := fsignum remaining in
  let dist := fabs remaining in
  if fle dist POSITION_TOLERANCE_RAD then (q_target, fzero, Hold)
  else if negb (usable a_max) then (q, fzero, Accelerate)
  else
    let v_along := mul64 v dir in
    let '(v_along_new, ph) := trapezoid_speed v_along v dist v_max a_max dt in
    let v_new := mul64 dir v_along_new in
    let q_new := add64 q (mul64 v_new dt) in
    if fgt dir fzero && fge q_new q_target then (q_target, fzero, Hold)
    else if flt dir fzero && fle q_new q_target then (q_target, fzero, Hold)
    else (q_new, v_new, ph).

Definition planner_tick (target dt v_max a_max : f64) (p : JointPositionPlanner) : JointPositionPlanner :=
  let '(q, v, ph) := trapezoid_step (q_traj p) (dq_traj p) target v_max a_max dt in mkPlanner q v ph.

(** ** Damping feed-forward *)

Definition POSITION_DAMPING_DQ_FILTER_ALPHA : f64 := lit64 25 100.
Definition POSITION_DAMPING_SPIKE_OVERSPEED_RAD_S : f64 := lit64 4 100.
Definition POSITION_DAMPING_SPIKE_BRAKE_CAP_NM : f64 := lit64 4 100.

Definition filter_dq_ema (prev dq_raw alpha : f64) : f64 :=
  add64 (mul64 alpha dq_raw) (mul64 (sub64 fone alpha) prev).

Definition damping_overspeed_rad_s (dq dq_t : f64) : f64 :=
  if fge dq_t fzero then fmax (sub64 dq dq_t) fzero
  else if flt dq_t fzero then fmax (sub64 dq_t dq) fzero
  else fzero.

Definition position_hold_damping_torque (dq_filtered dq_t kd velocity_deadband : f64)
  (approaching_target : bool) : calc f64 :=
  let dq_for_d := if flt (fabs dq_filtered) velocity_deadband && fgt (fabs dq_t) velocity_deadband
                  then dq_t else dq_filtered in
  let tau_d := mul64 kd (sub64 dq_t dq_for_d) in
  if fge tau_d fzero || negb approaching_target then Ok tau_d
  else
    let overspeed := damping_overspeed_rad_s dq_filtered dq_t in
    let soft := mul64 velocity_deadband (lit64 5 10) in
    if fle overspeed soft then Ok tau_d
    else
      let span := fmax (sub64 POSITION_DAMPING_SPIKE_OVERSPEED_RAD_S soft) (lit64 1 1000000) in
      let! blend := fclamp (div64 (sub64 overspeed soft) span) fzero fone in
      let capped := fneg POSITION_DAMPING_SPIKE_BRAKE_CAP_NM in
      Ok (add64 (mul64 tau_d (sub64 fone blend)) (mul64 capped blend)).

(** ** Cruise speed *)

Definition position_profile_v_max (move_dist slew_rad_s trajectory_v_max trajectory_threshold_rad : f64) : f64 :=
  if fle move_dist trajectory_threshold_rad then slew_rad_s else trajectory_v_max.

Definition position_hold_v_max
  (move_dist slew_rad_s trajectory_v_max trajectory_threshold_rad planner_speed : f64) : f64 :=
  if fle move_dist trajectory_threshold_rad && fle planner_speed (add64 slew_rad_s (lit64 1 1000000000))
  then slew_rad_s else trajectory_v_max.

(** ** Scaled-PD law: data *)

Definition REFERENCE_TOLERANCE_RAD : f64 := lit64 1 10000.
Definition SCALED_PD_INTEGRAL_MAX_NM : f64 := lit64 5 10.
Definition SCALED_PD_DYNAMIC_FF_RATE_NM_S : f64 := f64_of_Z 6.

Record ReferenceFriction : Type := mkRefFriction {
  rf_fc : f64; rf_fs : f64; rf_fv : f64; rf_fo : f64; rf_k : f64; rf_v_b : f64
}.

Definition from_gains (g : Config.FrictionGains) (fc_override : option f64) : ReferenceFriction :=
  let fc := default (Config.fc g) fc_override in
  mkRefFriction fc (fmax (Config.static_nm g) fc) (Config.fv g) (Config.fo g) (Config.fk g)
    (Config.stribeck_velocity_rad_s g).

(** [IntegralMode] has the constructors of [Config.PositionIntegralMode], from
    which it is converted one to one. *)
Abbreviation IntegralMode := Config.PositionIntegralMode.

Record ScaledPdGains : Type := mkPdGains {
  g_kd : f64; e0 : f64; e1 : f64; integral_band : f64; integral_leak_s : f64;
  integral_mode : IntegralMode; integral_cap_nm : f64; inertia : f64; host_damping : f64;
  velocity_filter_s : f64; ff_step_max_nm : option f64; g_friction : option ReferenceFriction
}.

Record ScaledPdState : Type := mkPdState {
  s_scale : f64; v_c : f64; tau_i : f64; v_prev : f64; tau_dyn : f64;
  v_hat : option f64; ff_prev : option f64; reshaped_local : bool
}.

Definition pd_state_default : ScaledPdState := mkPdState fone fzero fzero fzero fzero None None false.

Record ScaledPdFeedforward : Type := mkPdFf { ff_tau_fric : f64; ff_tau_i : f64; ff_tau_ff : f64; ff_guarded : bool }.

Record FeedforwardInput : Type := mkFfInput {
  ki : f64; target_error : f64; reference_error : f64; dq_meas : f64;
  reshaped_downstream : bool; ff_last_sent : option f64; tau_g : f64; in_dt : f64
}.

(** ** Governor and reference step *)

Definition time_scale_target (error_abs e0 e1 : f64) : calc f64 :=
  if negb (is_finite error_abs) then Ok fzero
  else if fle e1 e0 then Ok (if fle error_abs e0 then fone else fzero)
  else fclamp (sub64 fone (div64 (sub64 error_abs e0) (sub64 e1 e0))) fzero fone.

Definition governor_scale (q_ref q target e0 e1 : f64) : calc f64 :=
  let lead := sub64 q_ref q in
  if fle (mul64 lead (sub64 target q_ref)) fzero then Ok fone
  else time_scale_target (fabs lead) e0 e1.

Definition braking_speed (dist dv a_max : f64) : f64 :=
  sub64 (sqrt64 (add64 (div64 (mul64 dv dv) (f64_of_Z 4)) (mul64 (mul64 ftwo a_max) dist))) (div64 dv ftwo).

(** The new speed along the chosen direction. *)
Definition governed_speed (v_along v_max dist dv a_max : f64) : f64 :=
  let desired := fmin v_max (braking_speed dist dv a_max) in
  fmin (fmax desired (sub64 v_along dv)) (add64 v_along dv).

Definition reference_step (q v target v_max a_max dt : f64) : f64 * f64 * TrapezoidPhase :=
  let v_max := cruise_limit v_max in
  let remaining := sub64 target q in
  let dist := fabs remaining in
  if negb (usable a_max) then
    if fle dist REFERENCE_TOLERANCE_RAD then (target, fzero, Hold) else (q, fzero, Accelerate)
  else
    let dv := mul64 a_max dt in
    if fle dist REFERENCE_TOLERANCE_RAD && fle (fabs v) dv then (target, fzero, Hold)
    else
      let dir := if fle dist REFERENCE_TOLERANCE_RAD then fneg (fsignum v) else fsignum remaining in
      let v_along := mul64 v dir in
      let v_along_new := governed_speed v_along v_max dist dv a_max in
      let ph := if flt v_along_new (sub64 v_along (lit64 1 1000000000000)) then Decelerate
                else if fgt v_max fzero && fge v_along_new (sub64 v_max (lit64 1 1000000000)) then Cruise
                else Accelerate in
      let v_new := mul64 dir v_along_new in
      let q_new := add64 q (mul64 v_new dt) in
      let arrived := fle (mul64 (sub64 target q_new) remaining) fzero
                     || fle (fabs (sub64 target q_new)) REFERENCE_TOLERANCE_RAD in
      if fgt dist REFERENCE_TOLERANCE_RAD && arrived && fle (fabs v) dv then (target, fzero, Hold)
      else (q_new, v_new, ph).

Definition with_advance (s_new v_new : f64) (st : ScaledPdState) : ScaledPdState :=
  mkPdState s_new v_new (tau_i st) (v_prev st) (tau_dyn st) (v_hat st) (ff_prev st) (reshaped_local st).

Definition advance_reference (st : ScaledPdState) (g : ScaledPdGains) (q_ref v_ref q target v_max a_max dt : f64)
  : calc ((f64 * f64 * TrapezoidPhase) * ScaledPdState) :=
  let! s := governor_scale q_ref q target (e0 g) (e1 g) in
  let '(q_next, v_next, ph) := reference_step q_ref v_ref target (mul64 s v_max) a_max dt in
  Ok ((q_next, v_next, ph), with_advance s v_next st).

(** ** Feed-forward *)

Section Math.
Variables exp tanh : f64 -> f64.

Definition rf_torque (f : ReferenceFriction) (v : f64) : f64 :=
  let shape := if fgt (rf_k f) fzero then tanh (mul64 (rf_k f) v) else fzero in
  let stribeck := if fgt (rf_v_b f) fzero
                  then mul64 (sub64 (rf_fs f) (rf_fc f)) (exp (div64 (fneg (fabs v)) (rf_v_b f))) else fzero in
  add64 (mul64 (add64 (rf_fc f) stribeck) shape) (mul64 (rf_fv f) v).

(** [if next.is_finite() { next.clamp(-cap, cap) } else { 0.0 }]. *)
Definition bounded_integral (next cap : f64) : calc f64 :=
  if is_finite next then fclamp next (fneg cap) cap else Ok fzero.

Definition leak (tau leak_s dt : f64) : f64 :=
  if fgt leak_s fzero then mul64 tau (exp (div64 (fneg dt) leak_s)) else tau.

Definition integral_step (tau error k band leak_s dt : f64) : calc f64 :=
  bounded_integral
    (if fgt k fzero && flt (fabs error) band then add64 tau (mul64 (mul64 k error) dt) else leak tau leak_s dt)
    SCALED_PD_INTEGRAL_MAX_NM.

Definition leaky_integral_step (tau error k band leak_s cap : f64) (frozen : bool) (dt : f64) : calc f64 :=
  let next := leak tau leak_s dt in
  let next := if fgt k fzero && negb frozen && flt (fabs error) band
              then add64 next (mul64 (mul64 k error) dt) else next in
  let! cap := fclamp cap fzero SCALED_PD_INTEGRAL_MAX_NM in
  bounded_integral next cap.

(** Host damping torque and the filtered velocity after it. *)
Definition host_damping_torque (st : ScaledPdState) (g : ScaledPdGains) (dq dt : f64) : f64 * option f64 :=
  if fgt (host_damping g) fzero && is_finite dq then
    let vh := match v_hat st with
              | Some vh =>
                  if fgt (velocity_filter_s g) fzero && fgt dt fzero
                  then add64 vh (mul64 (sub64 fone (exp (div64 (fneg dt) (velocity_filter_s g)))) (sub64 dq vh))
                  else dq
              | None => dq
              end in
    (mul64 (host_damping g) (sub64 (v_c st) vh), Some vh)
  else (fzero, v_hat st).

(** The slew-limited dynamic term. *)
Definition slew_dynamic (previous target dt : f64) : calc f64 :=
  let step := mul64 SCALED_PD_DYNAMIC_FF_RATE_NM_S (fmax dt fzero) in
  let! d := fclamp (sub64 target previous) (fneg step) step in
  let next := add64 previous d in
  Ok (if is_finite next then next else fzero).

Definition integrate (st : ScaledPdState) (g : ScaledPdGains) (i : FeedforwardInput) : calc f64 :=
  match integral_mode g with
  | Config.TargetBand =>
      integral_step (tau_i st) (target_error i) (ki i) (integral_band g) (integral_leak_s g) (in_dt i)
  | Config.LeakyReference =>
      leaky_integral_step (tau_i st) (reference_error i) (ki i) (integral_band g) (integral_leak_s g)
        (integral_cap_nm g) (reshaped_local st || reshaped_downstream i) (in_dt i)
  end.

(** The whole-feed-forward step guard. *)
Definition step_guard (g : ScaledPdGains) (previous : option f64) (wanted : f64) : calc (f64 * bool) :=
  match ff_step_max_nm g with
  | Some max_step =>
      if fgt max_step fzero && is_finite wanted then
        let previous := default wanted previous in
        let! d := fclamp (sub64 wanted previous) (fneg max_step) max_step in
        let sent := add64 previous d in
        Ok (sent, fgt (fabs (sub64 sent wanted)) (lit64 1 1000000000000))
      else Ok (wanted, false)
  | None => Ok (wanted, false)
  end.

(** The dynamic torque aimed at (friction, inertia, host damping), and the filtered
    velocity. *)
Definition dynamic_target (st : ScaledPdState) (g : ScaledPdGains) (i : FeedforwardInput) : f64 * option f64 :=
  let dt := in_dt i in
  let friction := match g_friction g with
                  | Some f => add64 (rf_torque f (v_c st)) (rf_fo f)
                  | None => fzero
                  end in
  let accel := if fgt dt fzero then div64 (sub64 (v_c st) (v_prev st)) dt else fzero in
  let '(damping, vh) := host_damping_torque st g (dq_meas i) dt in
  (add64 (add64 friction (mul64 (inertia g) accel)) damping, vh).

Definition compose_feedforward (st : ScaledPdState) (g : ScaledPdGains) (i : FeedforwardInput)
  : calc (ScaledPdFeedforward * ScaledPdState) :=
  let dt := in_dt i in
  let '(target, vh) := dynamic_target st g i in
  let! dyn := slew_dynamic (tau_dyn st) target dt in
  let! ti := integrate st g i in
  let wanted := add64 (add64 (tau_g i) dyn) ti in
  let! out := step_guard g (match ff_prev st with Some p => Some p | None => ff_last_sent i end) wanted in
  Ok (mkPdFf dyn ti out.1 out.2,
      mkPdState (s_scale st) (v_c st) ti (v_c st) dyn vh (Some out.1) (reshaped_local st)).

End Math.

(** ** Float facts *)

Lemma sub64_not_nan (x y : f64) : is_finite x = true -> is_finite y = true -> is_nan (sub64 x y) = false.
Proof.
  unfold sub64, SFsub. intros Hx Hy.
  destruct x as [sx|sx| |sx mx ex], y as [sy|sy| |sy my ey]; try discriminate; try reflexivity.
  - destruct sx, sy; reflexivity.
  - unfold binary_normalize. destruct (_ - _) as [|p|p]; [reflexivity| |];
      [exact (proj1 (binary_round_sign prec64 emax64 false p _))|exact (proj1 (binary_round_sign prec64 emax64 true p _))].
Qed.

Lemma add64_nan_r (x y : f64) : is_nan y = true -> is_nan (add64 x y) = true.
Proof. destruct y; try discriminate. by destruct x. Qed.

Lemma mul64_nan_l (x y : f64) : is_nan x = true -> is_nan (mul64 x y) = true.
Proof. destruct x; try discriminate. by destruct y. Qed.

Lemma cruise_limit_nonneg (v : f64) : fle fzero (cruise_limit v) = true.
Proof.
  unfold cruise_limit, usable. destruct (is_finite v && fgt v fzero) eqn:E; [|reflexivity].
  apply andb_prop in E as [_ E]. by apply flt_le.
Qed.

Lemma cruise_limit_nan (v : f64) : is_nan v = true -> cruise_limit v = fzero.
Proof. by destruct v. Qed.

Lemma fle_not_nan (x y : f64) : fle x y = true -> is_nan x = false /\ is_nan y = false.
Proof. intros Hx. split; float_solve. Qed.

(** [max] with a number on the left dominates both operands that are numbers. *)
Lemma fmax_ge (x y : f64) : is_nan x = false -> fle x (fmax x y) = true.
Proof.
  intros Hx. destruct (is_nan y) eqn:Hy; [|exact (proj1 (fmax_ub x y Hx Hy))].
  unfold fmax. rewrite Hx, Hy. by apply fle_refl.
Qed.

Lemma fmax_mono_l (x y z : f64) : fle x y = true -> fle (fmax x z) (fmax y z) = true.
Proof.
  intros Hxy. destruct (fle_not_nan _ _ Hxy) as [Hx Hy]. destruct (is_nan z) eqn:Hz.
  - unfold fmax. by rewrite Hx, Hy, Hz.
  - apply fmax_lub; [exact (fle_trans _ _ _ Hxy (fmax_ge y z Hy))|exact (proj2 (fmax_ub y z Hy Hz))].
Qed.

(** The symmetric clamp: its result is within the bound, or the operand was NaN. *)
Lemma clamp_symmetric (x c : f64) :
  fle fzero c = true ->
  exists y, @fclamp Empty_set x (fneg c) c = Ok y /\ (is_nan y = false -> fle (fabs y) c = true).
Proof.
  intros Hc. destruct (@fclamp_ok Empty_set x (fneg c) c (proj2 (fle_neg_self c) Hc)) as [y Hy].
  exists y. split; [exact Hy|]. intros Hn. apply fabs_le_iff. exact (fclamp_between_result _ _ _ _ Hn Hy).
Qed.

Lemma fclamp_nan {E : Type} (x lo hi y : f64) : is_nan x = true -> @fclamp E x lo hi = Ok y -> is_nan y = true.
Proof.
  intros Hn. unfold fclamp, fgt. rewrite (flt_nan_l x lo Hn), (flt_nan_r hi x Hn). destruct (fle lo hi); [|discriminate].
  by intros [= <-].
Qed.

(** ** Trajectories *)

Lemma trapezoid_speed_bounded (v_along v dist v_max a_max dt : f64) :
  fle fzero v_max = true ->
  fle (trapezoid_speed v_along v dist v_max a_max dt).1 (fmax (sub64 v_along (mul64 a_max dt)) v_max) = true.
Proof.
  intros Hv. destruct (fle_not_nan _ _ Hv) as [_ Hn]. unfold trapezoid_speed.
  set (x := sub64 v_along (mul64 a_max dt)).
  assert (Hge : fle v_max (fmax x v_max) = true).
  { destruct (is_nan x) eqn:Hx; [|exact (proj2 (fmax_ub x v_max Hx Hn))].
    unfold fmax. rewrite Hx. by apply fle_refl. }
  destruct (fge _ dist); [|destruct (flt v_along v_max)]; cbn [fst].
  - apply (fle_trans _ (fmax x fzero)).
    + apply fmin_le_l. unfold fmax. destruct (is_nan x) eqn:Hx; [reflexivity|]. by destruct (flt x fzero).
    + destruct (is_nan x) eqn:Hx; [unfold fmax at 1; rewrite Hx; exact (fle_trans _ _ _ Hv Hge)|].
      apply fmax_lub; [exact (fmax_ge x v_max Hx)|exact (fle_trans _ _ _ Hv Hge)].
  - refine (fle_trans _ v_max _ _ Hge). unfold fmin. rewrite Hn.
    destruct (is_nan (add64 _ _)) eqn:Ha; [by apply fle_refl|].
    destruct (flt v_max _) eqn:E; [by apply fle_refl|]. float_solve.
  - apply fle_refl. by destruct (fle_not_nan _ _ Hge).
Qed.

(** Beyond the target, seen along [dir]. *)
Definition past (dir target q : f64) : bool :=
  (fgt dir fzero && fgt q target) || (flt dir fzero && flt q target).

Lemma past_self (dir q : f64) : past dir q q = false.
Proof.
  assert (Hq : flt q q = false) by (destruct (flt q q) eqn:E; [float_solve|reflexivity]).
  unfold past, fgt. by rewrite Hq, !andb_false_r.
Qed.

(** The three outcomes of a planner step that asked for the direction [dir]: the
    target with the motion over, no motion at all, or one step whose speed along
    [dir] is at most [bound]. *)
Inductive moved (q target dt dir bound : f64) : f64 * f64 * TrapezoidPhase -> Prop :=
| Arrived : moved q target dt dir bound (target, fzero, Hold)
| Stayed : moved q target dt dir bound (q, fzero, Accelerate)
| Stepped (w : f64) (ph : TrapezoidPhase) :
    fle w bound = true -> ph <> Hold ->
    moved q target dt dir bound (add64 q (mul64 (mul64 dir w) dt), mul64 dir w, ph).

(** the planner approaches its target without passing it.  Whatever the numbers,
    one step lands on the target at rest, stays where it was at rest (only when
    the acceleration limit is unusable), or moves with a speed along the target
    direction that is at most the cruise limit or the previous speed less one tick
    of deceleration; and a step never ends beyond the target. *)
Theorem trapezoid_bounded (q v target v_max a_max dt : f64) :
  let dir := fsignum (sub64 target q) in
  let out := trapezoid_step q v target v_max a_max dt in
  moved q target dt dir (fmax (sub64 (mul64 v dir) (mul64 a_max dt)) (cruise_limit v_max)) out
  /\ (usable a_max = true -> past dir target out.1.1 = false)
  /\ (usable a_max = false -> out.1.2 = fzero).
Proof.
  intros dir out. unfold out, trapezoid_step. fold dir. clear out.
  destruct (fle (fabs _) POSITION_TOLERANCE_RAD).
  { split; [constructor|]. split; [intros _; apply past_self|reflexivity]. }
  destruct (usable a_max); cbn [negb]; [|split; [constructor|split; [discriminate|reflexivity]]].
  pose proof (trapezoid_speed_bounded (mul64 v dir) v (fabs (sub64 target q)) (cruise_limit v_max) a_max dt
    (cruise_limit_nonneg v_max)) as Hw.
  assert (Hp : (trapezoid_speed (mul64 v dir) v (fabs (sub64 target q)) (cruise_limit v_max) a_max dt).2 <> Hold).
  { unfold trapezoid_speed. destruct (fge _ _); [discriminate|]. destruct (flt _ _); [|discriminate].
    cbn [snd]. destruct (fge _ _); discriminate. }
  destruct (trapezoid_speed _ _ _ _ _ _) as [w ph]. cbn [fst snd] in Hw, Hp.
  set (q' := add64 q _).
  destruct (fgt dir fzero && fge q' target) eqn:E1;
    [split; [constructor|split; [intros _; apply past_self|discriminate]]|].
  destruct (flt dir fzero && fle q' target) eqn:E2;
    [split; [constructor|split; [intros _; apply past_self|discriminate]]|].
  split; [by constructor|]. split; [intros _|discriminate]. cbn [fst]. unfold past.
  destruct (fgt dir fzero) eqn:Ed; cbn [andb orb] in *.
  - assert (Hd : flt dir fzero = false) by (destruct (flt dir fzero) eqn:E; [float_solve|reflexivity]).
    rewrite Hd, orb_false_r. destruct (fgt q' target) eqn:Eg; [|reflexivity].
    unfold fge in E1. unfold fgt in Eg. by rewrite (flt_le _ _ Eg) in E1.
  - destruct (flt dir fzero); [|reflexivity]. cbn [andb] in *.
    destruct (flt q' target) eqn:El; [|reflexivity]. by rewrite (flt_le _ _ El) in E2.
Qed.

(** ** The governed reference *)

Lemma time_scale_cases (error a b : f64) :
  exists s, time_scale_target error a b = Ok s /\ (is_nan s = false -> fle fzero s = true /\ fle s fone = true).
Proof.
  unfold time_scale_target. destruct (negb (is_finite error)); [by exists fzero|].
  destruct (fle b a); [exists (if fle error a then fone else fzero); by destruct (fle error a)|].
  destruct (@fclamp_ok Empty_set (sub64 fone (div64 (sub64 error a) (sub64 b a))) fzero fone eq_refl) as [s Hs].
  exists s. split; [exact Hs|]. intros Hn. exact (fclamp_between_result _ _ _ _ Hn Hs).
Qed.

Lemma governed_speed_bounded (v_along v_max dist dv a_max : f64) :
  is_nan v_max = false ->
  let w := governed_speed v_along v_max dist dv a_max in
  fle w (fmax v_max (sub64 v_along dv)) = true
  /\ (fle (sub64 v_along dv) (add64 v_along dv) = true ->
      fle (sub64 v_along dv) w = true /\ fle w (add64 v_along dv) = true).
Proof.
  intros Hv w. unfold w, governed_speed. split; [|apply fmax_fmin_between].
  pose proof (fmin_le_l v_max (braking_speed dist dv a_max) Hv) as Hd.
  refine (fle_trans _ _ _ _ (fmax_mono_l _ _ _ Hd)). apply fmin_le_l.
  exact (proj2 (fle_not_nan _ _ (fmax_ge _ _ (proj1 (fle_not_nan _ _ Hd))))).
Qed.

(** One step of the reference from [(q, v)] toward [target] under the speed limit
    [limit]: arrival only from a speed within one tick of rest, no motion without
    a usable acceleration limit, else a step whose speed along its direction is
    at most [limit] or braking, and within one tick of acceleration of [v]. *)
Inductive reference_moved (q v target limit a_max dt : f64) : f64 * f64 * TrapezoidPhase -> Prop :=
| RefArrived :
    (usable a_max = true -> fle (fabs v) (mul64 a_max dt) = true) ->
    reference_moved q v target limit a_max dt (target, fzero, Hold)
| RefStayed : usable a_max = false -> reference_moved q v target limit a_max dt (q, fzero, Accelerate)
| RefStepped (dir w : f64) (ph : TrapezoidPhase) :
    usable a_max = true -> ph <> Hold ->
    (dir = fsignum (sub64 target q)
     \/ dir = fneg (fsignum v) /\ fle (fabs (sub64 target q)) REFERENCE_TOLERANCE_RAD = true) ->
    fle w (fmax limit (sub64 (mul64 v dir) (mul64 a_max dt))) = true ->
    (fle (sub64 (mul64 v dir) (mul64 a_max dt)) (add64 (mul64 v dir) (mul64 a_max dt)) = true ->
     fle (sub64 (mul64 v dir) (mul64 a_max dt)) w = true
     /\ fle w (add64 (mul64 v dir) (mul64 a_max dt)) = true) ->
    reference_moved q v target limit a_max dt (add64 q (mul64 (mul64 dir w) dt), mul64 dir w, ph).

Lemma reference_step_moved (q v target v_max a_max dt : f64) :
  reference_moved q v target (cruise_limit v_max) a_max dt (reference_step q v target v_max a_max dt).
Proof.
  unfold reference_step. destruct (usable a_max) eqn:Ha; cbn [negb].
  2:{ destruct (fle _ _); constructor; congruence. }
  destruct (fle (fabs v) (mul64 a_max dt)) eqn:Hv; rewrite ?andb_true_r, ?andb_false_r.
  - destruct (fle (fabs (sub64 target q)) REFERENCE_TOLERANCE_RAD) eqn:Et; [by constructor|].
    destruct (_ && _); [by constructor|]. apply RefStepped; [exact Ha| |by left| |].
    + destruct (flt _ _); [discriminate|]. destruct (_ && _); discriminate.
    + apply governed_speed_bounded. exact (proj2 (fle_not_nan _ _ (cruise_limit_nonneg v_max))).
    + apply governed_speed_bounded. exact (proj2 (fle_not_nan _ _ (cruise_limit_nonneg v_max))).
  - apply RefStepped; [exact Ha| | | |].
    + destruct (flt _ _); [discriminate|]. destruct (_ && _); discriminate.
    + destruct (fle (fabs (sub64 target q)) REFERENCE_TOLERANCE_RAD); auto.
    + apply governed_speed_bounded. exact (proj2 (fle_not_nan _ _ (cruise_limit_nonneg v_max))).
    + apply governed_speed_bounded. exact (proj2 (fle_not_nan _ _ (cruise_limit_nonneg v_max))).
Qed.

(** how the governed reference moves.  For any inputs the advance returns (no
    clamp panics); its time scale is in [0, 1], or NaN, which means no cruise speed;
    and the reference arrives from a speed within one tick of rest, stands still or
    arrives when the acceleration limit is unusable, or moves with a speed along its
    direction that is at most the scaled limit, or, when it was above it, at most the
    previous speed less one tick of braking. *)
Theorem governed_reference_bounded (st : ScaledPdState) (g : ScaledPdGains)
  (q_ref v_ref q target v_max a_max dt : f64) :
  exists out st', advance_reference st g q_ref v_ref q target v_max a_max dt = Ok (out, st')
    /\ v_c st' = out.1.2
    /\ (if is_nan (s_scale st') then cruise_limit (mul64 (s_scale st') v_max) = fzero
        else fle fzero (s_scale st') = true /\ fle (s_scale st') fone = true)
    /\ reference_moved q_ref v_ref target (cruise_limit (mul64 (s_scale st') v_max)) a_max dt out.
Proof.
  unfold advance_reference.
  assert (Hg : exists s, governor_scale q_ref q target (e0 g) (e1 g) = Ok s
    /\ (is_nan s = false -> fle fzero s = true /\ fle s fone = true)).
  { unfold governor_scale. destruct (fle _ fzero); [by exists fone|apply time_scale_cases]. }
  destruct Hg as (s & -> & Hs). cbn [rbind].
  pose proof (reference_step_moved q_ref v_ref target (mul64 s v_max) a_max dt) as Hm.
  destruct (reference_step _ _ _ _ _ _) as [[q' v'] ph]. eexists _, _. split; [reflexivity|].
  split; [reflexivity|]. cbn [s_scale with_advance]. split; [|exact Hm].
  destruct (is_nan s) eqn:Hn; [by apply cruise_limit_nan, mul64_nan_l|auto].
Qed.

(** ** Bounded feed-forward *)

Lemma bounded_integral_ok (next cap : f64) :
  fle fzero cap = true ->
  exists y, bounded_integral next cap = Ok y /\ fle (fabs y) cap = true.
Proof.
  intros Hc. unfold bounded_integral. destruct (is_finite next) eqn:Hf; [|by exists fzero].
  destruct (clamp_symmetric next cap Hc) as (y & Hy & Hb). exists y. split; [exact Hy|]. apply Hb.
  exact (fclamp_not_nan _ _ _ _ (finite_not_nan _ Hf) Hy).
Qed.

Lemma fmax_zero_nonneg (x : f64) : fle fzero (fmax x fzero) = true.
Proof.
  unfold fmax. destruct (is_nan x) eqn:Hn; [reflexivity|]. cbn [is_nan fzero].
  destruct (flt x fzero) eqn:E; [reflexivity|]. assert (is_nan fzero = false) by reflexivity. float_solve.
Qed.

Lemma slew_step_nonneg (dt : f64) : fle fzero (mul64 SCALED_PD_DYNAMIC_FF_RATE_NM_S (fmax dt fzero)) = true.
Proof.
  pose proof (fmax_zero_nonneg dt) as Hm.
  destruct (fmax dt fzero) as [[]|[]| |[] m e]; try discriminate Hm; try reflexivity.
  apply fpos_nonneg, mul64_pos; reflexivity.
Qed.

Abbreviation slew_step dt := (mul64 SCALED_PD_DYNAMIC_FF_RATE_NM_S (fmax dt fzero)).

(** One slew step [d] from [previous] toward [target]: at most [slew_step], the
    whole way when the target is nearer, and no step at all only when the sum would
    not be finite. *)
Record slewed (previous target dt next d : f64) : Prop := {
  sw_finite : is_finite next = true;
  sw_next : next = if is_finite (add64 previous d) then add64 previous d else fzero;
  sw_bound : is_nan d = false -> fle (fabs d) (slew_step dt) = true;
  sw_nan : is_nan d = is_nan (sub64 target previous);
  sw_whole : fle (fabs (sub64 target previous)) (slew_step dt) = true -> d = sub64 target previous
}.

Lemma slew_dynamic_ok (previous target dt : f64) :
  exists next d, slew_dynamic previous target dt = Ok next /\ slewed previous target dt next d.
Proof.
  unfold slew_dynamic. destruct (clamp_symmetric (sub64 target previous) _ (slew_step_nonneg dt)) as (d & Ed & Hd).
  rewrite Ed. cbn [rbind]. eexists _, d. split; [reflexivity|]. split; [|reflexivity|exact Hd| |].
  - by destruct (is_finite (add64 previous d)) eqn:Hf.
  - destruct (is_nan (sub64 target previous)) eqn:Hn; [|by eapply fclamp_not_nan].
    exact (fclamp_nan _ _ _ _ Hn Ed).
  - intros Hle. apply fabs_le_iff in Hle as [H1 H2].
    pose proof (@fclamp_id Empty_set _ _ _ H1 H2) as Hi. rewrite Hi in Ed. by injection Ed as <-.
Qed.

Section FeedforwardBounds.
Variables exp tanh : f64 -> f64.

Lemma integrate_ok (st : ScaledPdState) (g : ScaledPdGains) (i : FeedforwardInput) :
  (integral_mode g = Config.LeakyReference -> is_nan (integral_cap_nm g) = false) ->
  exists y, integrate exp st g i = Ok y /\ fle (fabs y) SCALED_PD_INTEGRAL_MAX_NM = true
    /\ (integral_mode g = Config.LeakyReference -> fle fzero (integral_cap_nm g) = true ->
        fle (fabs y) (integral_cap_nm g) = true).
Proof.
  intros Hc. unfold integrate. destruct (integral_mode g).
  - unfold integral_step.
    match goal with |- context [bounded_integral ?n _] =>
      destruct (bounded_integral_ok n SCALED_PD_INTEGRAL_MAX_NM eq_refl) as (y & -> & Hy) end.
    exists y. split; [reflexivity|]. split; [exact Hy|discriminate].
  - specialize (Hc eq_refl). unfold leaky_integral_step.
    destruct (@fclamp_ok Empty_set (integral_cap_nm g) fzero SCALED_PD_INTEGRAL_MAX_NM eq_refl) as [c Hcl].
    destruct (fclamp_between _ _ _ _ Hc Hcl) as [Hc1 Hc2]. rewrite Hcl. cbn [rbind].
    match goal with |- context [bounded_integral ?n _] => destruct (bounded_integral_ok n c Hc1) as (y & -> & Hy) end.
    exists y. split; [reflexivity|]. split; [exact (fle_trans _ _ _ Hy Hc2)|]. intros _ Hnn.
    refine (fle_trans _ _ _ Hy _). unfold fclamp in Hcl. change (fle fzero SCALED_PD_INTEGRAL_MAX_NM) with true in Hcl.
    injection Hcl as <-. destruct (flt (integral_cap_nm g) fzero) eqn:E1; [float_solve|].
    destruct (fgt (integral_cap_nm g) SCALED_PD_INTEGRAL_MAX_NM) eqn:E2; [by apply flt_le|by apply fle_refl].
Qed.

Lemma step_guard_ok (g : ScaledPdGains) (previous : option f64) (wanted : f64) :
  exists out, step_guard g previous wanted = Ok out
    /\ (forall m, ff_step_max_nm g = Some m -> fgt m fzero = true -> is_finite wanted = true ->
        is_finite (default wanted previous) = true ->
        exists d, out.1 = add64 (default wanted previous) d /\ fle (fabs d) m = true)
    /\ (ff_step_max_nm g = None -> out = (wanted, false)).
Proof.
  unfold step_guard. destruct (ff_step_max_nm g) as [m|];
    [|exists (wanted, false); split; [reflexivity|]; split; [discriminate|reflexivity]].
  destruct (fgt m fzero && is_finite wanted) eqn:E.
  - apply andb_prop in E as [Em Ew].
    destruct (clamp_symmetric (sub64 wanted (default wanted previous)) m (flt_le _ _ Em)) as (d & Ed & Hd).
    rewrite Ed. cbn [rbind]. eexists. split; [reflexivity|]. split; [|discriminate].
    intros m' [= <-] _ _ Hp. exists d. split; [reflexivity|]. apply Hd.
    exact (fclamp_not_nan _ _ _ _ (sub64_not_nan _ _ Ew Hp) Ed).
  - eexists. split; [reflexivity|]. split; [|discriminate]. intros m' [= <-] Hm Hw. by rewrite Hm, Hw in E.
Qed.

Lemma feedforward_total (st : ScaledPdState) (g : ScaledPdGains) (i : FeedforwardInput) :
  (integral_mode g = Config.LeakyReference -> is_nan (integral_cap_nm g) = false) ->
  exists out st', compose_feedforward exp tanh st g i = Ok (out, st').
Proof.
  intros Hc. unfold compose_feedforward. destruct (dynamic_target exp tanh st g i) as [target vh].
  destruct (slew_dynamic_ok (tau_dyn st) target (in_dt i)) as (dyn & d & -> & _). cbn [rbind].
  destruct (integrate_ok st g i Hc) as (ti & -> & _). cbn [rbind].
  match goal with |- context [step_guard g ?p ?w] => destruct (step_guard_ok g p w) as (out & -> & _) end. cbn [rbind]. eauto.
Qed.


End FeedforwardBounds.

(** ** A bench move and a bench tick *)

(** From rest, 0.1 rad at 0.3 rad/s and 0.2 rad/s^2: moving after half the ticks,
    at the target and at rest after all of them. *)
Definition bench_move (n : nat) : JointPositionPlanner :=
  Nat.iter n (planner_tick (lit64 1 10) (lit64 5 1000) (lit64 3 10) (lit64 2 10))
    (new_for_target fzero (lit64 1 10)).

Example bench_move_arrives :
  phase (bench_move 150) <> Hold /\ bench_move 320 = mkPlanner (lit64 1 10) fzero Hold.
Proof. split; [vm_compute; discriminate|vm_compute; reflexivity]. Qed.

Definition bench_gains : ScaledPdGains :=
  mkPdGains fone (lit64 2 100) (lit64 1 10) (lit64 5 100) fone Config.LeakyReference (lit64 3 10)
    (lit64 1 100) fzero fzero (Some (lit64 5 100)) None.

Definition bench_input : FeedforwardInput :=
  mkFfInput fone (lit64 4 100) (lit64 4 100) fzero false (Some fone) (f64_of_Z 2) (lit64 5 1000).


End Position.
