(* ===== verification/Friction.v ===== *)
(** * Friction: the friction feed-forward of position hold and the MIT packing

    [src/crates/berthier/src/] [friction.rs] (the two-rule position-hold friction
    and the settle assist), [position_feedforward.rs] (gravity, friction and
    damping summed), [mit_feedforward.rs] (the batch of the modes without a
    position law) and [torque_cmd.rs] (the latched torque commands).

    [tanh] is an argument, as in [Position]. *)

From Stdlib Require Import ZArith Lia Bool SpecFloat.
From stdpp Require Import base gmap strings list.
From S2P Require Import Prelude Float Config TotalTorque Davout Position.

Module Friction.
Import Position Davout.

(** ** [friction.rs] *)

Definition POSITION_HOLD_ERROR_DEADBAND_RAD : f64 := lit64 1 10000.
Definition POSITION_HOLD_FRICTION_FADE_RAD : f64 := lit64 2 100.
Definition POSITION_HOLD_ONSET_MS : Z := 300.
Definition POSITION_STUCK_EXIT_VELOCITY_RATIO : f64 := lit64 125 100.

Inductive PositionFrictionMode : Type := TrajectoryVelocity | SettleFade.

Definition trajectory_overspeed_rad_s (dq dq_t : f64) : f64 :=
  if fgt dq_t POSITION_HOLD_ERROR_DEADBAND_RAD then fmax (sub64 dq dq_t) fzero
  else if flt dq_t (fneg POSITION_HOLD_ERROR_DEADBAND_RAD) then fmax (sub64 dq_t dq) fzero
  else fzero.

Definition trajectory_overspeed_fade (overspeed velocity_deadband : f64) : f64 :=
  let deadband := fmax velocity_deadband POSITION_HOLD_ERROR_DEADBAND_RAD in
  let fade_zone := mul64 ftwo deadband in
  if fle overspeed deadband then fone
  else if fle overspeed (add64 deadband fade_zone)
       then sub64 fone (div64 (sub64 overspeed deadband) fade_zone)
       else fzero.

Definition overspeed_scale (dq dq_t velocity_deadband : f64) : f64 :=
  trajectory_overspeed_fade (trajectory_overspeed_rad_s dq dq_t) velocity_deadband.

(** [gains.fc * dq_traj.signum() * scale + gains.fv * dq + gains.fo]. *)
Definition scaled_friction (g : Config.FrictionGains) (dq dq_t scale : f64) : f64 :=
  add64 (add64 (mul64 (mul64 (Config.fc g) (fsignum dq_t)) scale) (mul64 (Config.fv g) dq)) (Config.fo g).

Definition stuck_at (dq velocity_deadband : f64) : bool :=
  fle (fabs dq) (mul64 velocity_deadband POSITION_STUCK_EXIT_VELOCITY_RATIO).

Definition trajectory_velocity_friction (dq dq_t settle_error velocity_deadband : f64) (retarget_age_ms : Z)
  (g : Config.FrictionGains) (sustained_low_angle_breakaway : bool) : calc (PositionFrictionMode * f64) :=
  let stuck := stuck_at dq velocity_deadband in
  let in_onset := retarget_age_ms <=? POSITION_HOLD_ONSET_MS in
  let gravity_descent := flt settle_error (fneg POSITION_HOLD_FRICTION_FADE_RAD)
                         && flt dq_t (fneg POSITION_HOLD_ERROR_DEADBAND_RAD) in
  let opposing_motion := fgt (fabs dq) (mul64 velocity_deadband (lit64 5 10))
                         && negb (feq (fsignum dq) (fsignum dq_t))
                         && fgt (fabs dq_t) POSITION_HOLD_ERROR_DEADBAND_RAD in
  let! scale :=
    if negb stuck || (in_onset && opposing_motion) || (in_onset && negb gravity_descent)
       || (sustained_low_angle_breakaway && negb gravity_descent)
    then Ok fone
    else if in_onset && gravity_descent then
      let! vel_scale := fclamp (div64 (fabs dq_t) velocity_deadband) fzero fone in
      let! time_ramp := fclamp (div64 (f64_of_Z retarget_age_ms) (f64_of_Z POSITION_HOLD_ONSET_MS))
                          (lit64 25 100) fone in
      Ok (mul64 vel_scale time_ramp)
    else fclamp (div64 (fabs dq_t) velocity_deadband) fzero fone in
  Ok (TrajectoryVelocity,
      scaled_friction g dq dq_t (mul64 scale (overspeed_scale dq dq_t velocity_deadband))).

Definition cross_target_trajectory_friction (dq dq_t settle_error velocity_deadband fade_rad : f64)
  (retarget_age_ms : Z) (g : Config.FrictionGains) (sustained_low_angle_breakaway : bool)
  : calc (PositionFrictionMode * f64) :=
  let fade := fmax POSITION_HOLD_FRICTION_FADE_RAD fade_rad in
  let! taper := fclamp (div64 (fabs settle_error) fade) fzero fone in
  let stuck := stuck_at dq velocity_deadband in
  let in_onset := retarget_age_ms <=? POSITION_HOLD_ONSET_MS in
  let! scale :=
    if stuck && negb in_onset && negb sustained_low_angle_breakaway then
      let! c := fclamp (div64 (fabs dq_t) velocity_deadband) fzero fone in
      Ok (mul64 taper c)
    else Ok taper in
  Ok (TrajectoryVelocity,
      scaled_friction g dq dq_t (mul64 scale (overspeed_scale dq dq_t velocity_deadband))).

Section Math.
Variable tanh : f64 -> f64.

Definition friction_torque (dq fc fv fo k : f64) : f64 :=
  add64 (add64 (mul64 fc (tanh (mul64 k dq))) (mul64 fv dq)) fo.

Definition position_settle_friction_torque (dq settle_error fade_rad fc fv fo k : f64) : calc f64 :=
  let fade := fmax fade_rad POSITION_HOLD_FRICTION_FADE_RAD in
  let! coulomb :=
    if fgt (fabs settle_error) POSITION_HOLD_ERROR_DEADBAND_RAD
    then let! c := fclamp (div64 settle_error fade) (f64_of_Z (-1)) fone in Ok (mul64 fc c)
    else Ok (mul64 fc (tanh (mul64 k dq))) in
  Ok (add64 (add64 coulomb (mul64 fv dq)) fo).

Definition settle_fade (dq settle_error fade_rad : f64) (g : Config.FrictionGains)
  : calc (PositionFrictionMode * f64) :=
  let fade := if fgt (fabs settle_error) POSITION_HOLD_FRICTION_FADE_RAD
              then POSITION_HOLD_FRICTION_FADE_RAD
              else fmax fade_rad POSITION_HOLD_FRICTION_FADE_RAD in
  let! tau := position_settle_friction_torque dq settle_error fade
                (Config.fc g) (Config.fv g) (Config.fo g) (Config.fk g) in
  Ok (SettleFade, tau).

Definition position_hold_friction (dq dq_t settle_error velocity_deadband fade_rad : f64)
  (retarget_age_ms : Z) (traj_phase : TrapezoidPhase) (g : Config.FrictionGains)
  (sustained_low_angle_breakaway : bool) : calc (PositionFrictionMode * f64) :=
  let toward_target := fgt (mul64 dq_t settle_error) POSITION_HOLD_ERROR_DEADBAND_RAD in
  if fgt (fabs dq_t) POSITION_HOLD_ERROR_DEADBAND_RAD then
    if toward_target then
      trajectory_velocity_friction dq dq_t settle_error velocity_deadband retarget_age_ms g
        sustained_low_angle_breakaway
    else if bool_decide (traj_phase = Hold) || fge (fabs settle_error) POSITION_HOLD_FRICTION_FADE_RAD
    then settle_fade dq settle_error fade_rad g
    else cross_target_trajectory_friction dq dq_t settle_error velocity_deadband fade_rad
           retarget_age_ms g sustained_low_angle_breakaway
  else settle_fade dq settle_error fade_rad g.

(** ** [position_feedforward.rs] *)

Record PositionHoldFeedforward : Type := mkHoldFf {
  friction_mode : PositionFrictionMode; hf_tau_f : f64; hf_tau_d : f64; tau_ff_cmd : f64
}.

Definition hold_damping (kd dq_filtered dq_t vel_deadband : f64) (traj_phase : TrapezoidPhase)
  (approaching_target : bool) : calc f64 :=
  if fgt (fabs dq_t) POSITION_HOLD_ERROR_DEADBAND_RAD
  then position_hold_damping_torque dq_filtered dq_t kd vel_deadband approaching_target
  else if bool_decide (traj_phase = Hold) && fgt (fabs dq_filtered) vel_deadband
  then Ok (mul64 (fneg kd) dq_filtered)
  else Ok fzero.

Definition compose_position_hold_feedforward
  (tau_g kd dq_filtered dq_t settle_error vel_deadband effective_max_lead : f64)
  (retarget_age_ms : Z) (traj_phase : TrapezoidPhase) (friction : option Config.FrictionGains)
  (approaching_target sustained_low_angle_breakaway : bool) : calc PositionHoldFeedforward :=
  let! (fm, tau_f) := match friction with
              | Some f => position_hold_friction dq_filtered dq_t settle_error vel_deadband effective_max_lead
                            retarget_age_ms traj_phase f sustained_low_angle_breakaway
              | None => Ok (SettleFade, fzero)
              end in
  let! tau_d := hold_damping kd dq_filtered dq_t vel_deadband traj_phase approaching_target in
  Ok (mkHoldFf fm tau_f tau_d (add64 (add64 tau_g tau_f) tau_d)).

(** ** [mit_feedforward.rs] *)

Record MitFfJointIn : Type := mkMitFfIn {
  in_name : string; in_q : f64; in_dq : f64; in_tau_g : f64; tau_cmd : f64;
  in_friction : option Config.FrictionGains; wire_kp : f64; wire_kd : f64; in_fc : option f64
}.

Definition impedance_friction (j : MitFfJointIn) : f64 :=
  match in_friction j with
  | Some f => friction_torque (in_dq j) (default (Config.fc f) (in_fc j)) (Config.fv f) (Config.fo f) (Config.fk f)
  | None => fzero
  end.

Definition compose_joint (mode : ControlMode) (j : MitFfJointIn) : option MitJointCommand :=
  match mode with
  | GravityComp => Some (mkMitJoint (in_name j) (wire_kp j) (wire_kd j) (in_q j) fzero (in_tau_g j))
  | TorqueOnly => Some (mkMitJoint (in_name j) fzero fzero (in_q j) fzero (tau_cmd j))
  | Impedance =>
      Some (mkMitJoint (in_name j) (wire_kp j) (wire_kd j) (in_q j) fzero
              (add64 (in_tau_g j) (impedance_friction j)))
  | CPosition | CDisabled => None
  end.

Definition compose (mode : ControlMode) (joints : list MitFfJointIn) : list MitJointCommand :=
  omap (compose_joint mode) joints.

End Math.

(** ** [torque_cmd.rs] *)

Definition TorqueCmdLatch : Type := gmap string f64.
Definition latch_get (joint : string) (l : TorqueCmdLatch) : f64 := default fzero (l !! joint).
Definition latch_set (joint : string) (tau_nm : f64) (l : TorqueCmdLatch) : TorqueCmdLatch := <[joint := tau_nm]> l.
Definition on_leave_torque_only (l : TorqueCmdLatch) : TorqueCmdLatch := ∅.

(** ** Totality *)

Lemma clamp01 (x : f64) : exists y, @fclamp Empty_set x fzero fone = Ok y.
Proof. apply fclamp_ok. reflexivity. Qed.

Ltac clamp_step :=
  match goal with
  | |- context [@fclamp Empty_set ?x ?lo ?hi] =>
      let y := fresh "y" in let H := fresh "H" in
      destruct (@fclamp_ok Empty_set x lo hi eq_refl) as [y H]; rewrite H; cbn [rbind]
  end.

Lemma damping_total (dqf dqt kd db : f64) (ap : bool) :
  exists y, position_hold_damping_torque dqf dqt kd db ap = Ok y.
Proof.
  unfold position_hold_damping_torque. destruct (_ || _); [eauto|]. destruct (fle _ _); [eauto|]. clamp_step. eauto.
Qed.

Section Totality.
Variable tanh : f64 -> f64.

Lemma settle_total (dq se fade : f64) (g : Config.FrictionGains) :
  exists tau, settle_fade tanh dq se fade g = Ok (SettleFade, tau).
Proof.
  unfold settle_fade, position_settle_friction_torque. destruct (fgt (fabs se) POSITION_HOLD_ERROR_DEADBAND_RAD);
    [clamp_step|]; cbn [rbind]; eauto.
Qed.

Lemma trajectory_total (dq dqt se db : f64) (age : Z) (g : Config.FrictionGains) (b : bool) :
  exists scale, trajectory_velocity_friction dq dqt se db age g b
    = Ok (TrajectoryVelocity, scaled_friction g dq dqt (mul64 scale (overspeed_scale dq dqt db))).
Proof.
  unfold trajectory_velocity_friction. repeat (destruct (_ || _) || destruct (_ && _)); cbn [rbind]; eauto;
    clamp_step; try clamp_step; eauto.
Qed.

Lemma cross_total (dq dqt se db fade : f64) (age : Z) (g : Config.FrictionGains) (b : bool) :
  exists scale, cross_target_trajectory_friction dq dqt se db fade age g b
    = Ok (TrajectoryVelocity, scaled_friction g dq dqt (mul64 scale (overspeed_scale dq dqt db))).
Proof.
  unfold cross_target_trajectory_friction. clamp_step. destruct (_ && _); cbn [rbind]; [clamp_step|]; eauto.
Qed.

(** The two rules: friction follows the reference's direction exactly when the
    reference moves toward the target or crosses it by less than the fade while
    still moving; otherwise it is the settle assist. *)
Lemma friction_rule (dq dqt se db fade : f64) (age : Z) (ph : TrapezoidPhase) (g : Config.FrictionGains) (b : bool) :
  exists m tau, position_hold_friction tanh dq dqt se db fade age ph g b = Ok (m, tau)
    /\ (m = TrajectoryVelocity <->
        fgt (fabs dqt) POSITION_HOLD_ERROR_DEADBAND_RAD = true
        /\ (fgt (mul64 dqt se) POSITION_HOLD_ERROR_DEADBAND_RAD = true
            \/ ph <> Hold /\ fge (fabs se) POSITION_HOLD_FRICTION_FADE_RAD = false))
    /\ (m = TrajectoryVelocity -> exists scale, tau = scaled_friction g dq dqt scale).
Proof.
  unfold position_hold_friction.
  destruct (settle_total dq se fade g) as [ts Hs].
  destruct (fgt (fabs dqt) _); [|rewrite Hs; eexists _, _; split; [reflexivity|]; split; [split; [discriminate|naive_solver]|discriminate]].
  destruct (fgt (mul64 dqt se) _).
  { destruct (trajectory_total dq dqt se db age g b) as [sc ->]. eexists _, _. split; [reflexivity|]. split; [naive_solver|eauto]. }
  case_bool_decide as Hp; cbn [orb];
    [rewrite Hs; eexists _, _; split; [reflexivity|]; split; [split; [discriminate|naive_solver]|discriminate]|].
  destruct (fge (fabs se) _);
    [rewrite Hs; eexists _, _; split; [reflexivity|]; split; [split; [discriminate|naive_solver]|discriminate]|].
  destruct (cross_total dq dqt se db fade age g b) as [sc ->]. eexists _, _. split; [reflexivity|]. split; [naive_solver|eauto].
Qed.

(** position-hold feed-forward is total and isolated from the gravity model.
    For any numbers the composition returns (no clamp panics); its friction and
    damping parts are the same for every gravity torque, which is only added; and
    with the reference at rest outside Hold, or the measured speed inside the
    deadband, nothing damps. *)
Theorem hold_feedforward_isolated (kd dq dqt se db lead : f64) (age : Z) (ph : TrapezoidPhase)
  (fr : option Config.FrictionGains) (ap sus : bool) :
  exists m tf td,
    (forall tau_g, compose_position_hold_feedforward tanh tau_g kd dq dqt se db lead age ph fr ap sus
       = Ok (mkHoldFf m tf td (add64 (add64 tau_g tf) td)))
    /\ (fr = None -> tf = fzero)
    /\ (fgt (fabs dqt) POSITION_HOLD_ERROR_DEADBAND_RAD = false -> ph <> Hold \/ fgt (fabs dq) db = false -> td = fzero).
Proof.
  assert (Hd : exists td, hold_damping kd dq dqt db ph ap = Ok td
    /\ (fgt (fabs dqt) POSITION_HOLD_ERROR_DEADBAND_RAD = false -> ph <> Hold \/ fgt (fabs dq) db = false -> td = fzero)).
  { unfold hold_damping. destruct (fgt (fabs dqt) _).
    - destruct (damping_total dq dqt kd db ap) as [y ->]. exists y. split; [reflexivity|discriminate].
    - case_bool_decide; cbn [andb]; [|eauto]. destruct (fgt (fabs dq) db); [|eauto].
      eexists. split; [reflexivity|]. naive_solver. }
  destruct Hd as (td & Hd & Hz). unfold compose_position_hold_feedforward. rewrite Hd. destruct fr as [f|].
  - destruct (friction_rule dq dqt se db lead age ph f sus) as (m & tf & -> & _). exists m, tf, td.
    split; [reflexivity|]. split; [discriminate|exact Hz].
  - exists SettleFade, fzero, td. split; [reflexivity|]. split; [reflexivity|exact Hz].
Qed.

(** outside Position and Disabled the packed batch has one command per joint, in
    order, each at the measured position with no velocity; torque-only commands
    carry the latched torque and zero gains, and never gravity or friction. *)
Theorem mit_batch_at_rest (mode : ControlMode) (joints : list MitFfJointIn) :
  let batch := compose tanh mode joints in
  (mode = CPosition \/ mode = CDisabled -> batch = [])
  /\ (mode <> CPosition /\ mode <> CDisabled ->
      map mj_joint batch = map in_name joints /\ map mj_position_rad batch = map in_q joints
      /\ Forall (fun c => mj_velocity_rad_s c = fzero) batch)
  /\ (mode = TorqueOnly ->
      map mj_torque_ff_nm batch = map tau_cmd joints
      /\ Forall (fun c => mj_kp c = fzero /\ mj_kd c = fzero) batch).
Proof.
  cbv zeta. unfold compose. split; [|split].
  - intros [-> | ->]; induction joints; auto.
  - intros [Hp Hd]. induction joints as [|j js IH]; [repeat split; constructor|].
    destruct IH as (I1 & I2 & I3). destruct mode; try congruence; cbn; rewrite ?I1, ?I2; repeat split; auto.
  - intros ->. induction joints as [|j js IH]; [split; constructor|].
    destruct IH as [I1 I2]. cbn. rewrite I1. split; [reflexivity|auto].
Qed.

End Totality.

End Friction.
