(* ===== verification/Setpoint.v ===== *)
(** * Setpoint: from planner reference to MIT position

    [src/crates/berthier/src/position_setpoint.rs] in full (bands, stall
    directions, planner predicates, the lead-bounded setpoint clamp) and
    [src/crates/marengo-config/src/speed_fraction.rs]. *)

From Stdlib Require Import ZArith Lia Bool SpecFloat.
From stdpp Require Import base strings list.
From S2P Require Import Prelude Float Limits Position Friction.

Module Setpoint.
Import Limits Position Friction.

(** ** Speed fraction *)

Record SpeedFraction : Type := mkSpeed { speed_get : f64 }.
Record InvalidSpeedFraction : Type := mkInvalidSpeed { invalid_value : f64 }.

Definition FULL : SpeedFraction := mkSpeed fone.

Definition speed_new (value : f64) : result InvalidSpeedFraction SpeedFraction :=
  if is_finite value && fgt value fzero && fle value fone then Ok (mkSpeed value)
  else Err (mkInvalidSpeed value).

Definition from_optional (value : option f64) : result InvalidSpeedFraction SpeedFraction :=
  match value with None => Ok FULL | Some v => speed_new v end.

(** ** Bands *)

Definition POSITION_SETTLE_TOLERANCE_RAD : f64 := lit64 1 10000.
Definition POSITION_HOME_SETTLE_RAD : f64 := lit64 5 1000.
Definition POSITION_RETURN_DESCENT_SEED_RAD : f64 := lit64 5 100.
Definition POSITION_RETURN_RESYNC_RAD : f64 := lit64 3 100.
Definition POSITION_HOME_TARGET_FEEDBACK_COUNTS : f64 := f64_of_Z 2.
Definition POSITION_RETURN_FREEZE_Q_MAX_RAD : f64 := lit64 12 100.
Definition POSITION_DESCENT_STUCK_LEAD_RAD : f64 := lit64 3 100.
Definition POSITION_HOME_FINAL_PULL_THROUGH_RAD : f64 := lit64 2 100.
Definition POSITION_HOLD_ONSET_MAX_LEAD_RAD : f64 := lit64 15 100.
Definition POSITION_HOME_BREAKAWAY_Q_MAX_RAD : f64 := lit64 15 100.
Definition LOW_ANGLE_SPAN_MAX_RAD : f64 := lit64 30 100.

Definition home_target_tolerance (progress_threshold : f64) : f64 :=
  let feedback_count := mul64 ftwo progress_threshold in
  fmax POSITION_SETTLE_TOLERANCE_RAD (mul64 POSITION_HOME_TARGET_FEEDBACK_COUNTS feedback_count).

Definition return_settle_band (target : f64) : f64 :=
  if fle (fabs target) POSITION_SETTLE_TOLERANCE_RAD
  then POSITION_HOME_SETTLE_RAD else POSITION_RETURN_RESYNC_RAD.

(** ** Stall fuse directions *)

Inductive StallSide : Type := Outbound | Return.

Definition outbound_stall_direction (target to_target : f64) : option f64 :=
  if fle (fabs target) POSITION_SETTLE_TOLERANCE_RAD then None
  else
    let direction := fsignum target in
    if fgt (mul64 to_target direction) (return_settle_band target) then Some direction else None.

Definition travel_stall_direction (target to_target : f64) : option (f64 * StallSide) :=
  match outbound_stall_direction target to_target with
  | Some direction => Some (direction, Outbound)
  | None =>
      if negb (is_finite target) || negb (is_finite to_target) then None
      else if fgt (fabs to_target) POSITION_RETURN_RESYNC_RAD then Some (fsignum to_target, Return) else None
  end.

(** ** Breakaway *)

Definition home_final_approach_stuck (q target : f64) : bool :=
  fle (fabs target) POSITION_SETTLE_TOLERANCE_RAD && fgt q POSITION_HOME_SETTLE_RAD
  && fle q POSITION_HOME_BREAKAWAY_Q_MAX_RAD.

Definition low_angle_breakaway_active (q target settle_error : f64) (approaching_target : bool) : bool :=
  if negb (fle fzero q && fle q LOW_ANGLE_SPAN_MAX_RAD) then false
  else if home_final_approach_stuck q target then true
  else if approaching_target then false
  else if fgt target LOW_ANGLE_SPAN_MAX_RAD then false
  else flt settle_error (fneg POSITION_HOME_SETTLE_RAD).

Definition position_hold_effective_max_lead (max_lead : f64) (retarget_age_ms : Z)
  (approaching_target : bool) (settle_error q : f64) : f64 :=
  let target := add64 q settle_error in
  let in_low_angle_band := fle (fabs q) POSITION_HOME_BREAKAWAY_Q_MAX_RAD in
  let outbound_breakaway := in_low_angle_band && approaching_target
                            && fgt settle_error POSITION_RETURN_DESCENT_SEED_RAD in
  let return_breakaway := is_gravity_assisted_return q target
                          && flt settle_error (fneg POSITION_RETURN_DESCENT_SEED_RAD) in
  if low_angle_breakaway_active q target settle_error approaching_target
  then fmax max_lead POSITION_HOLD_ONSET_MAX_LEAD_RAD
  else if (retarget_age_ms <=? POSITION_HOLD_ONSET_MS)
          && fgt (fabs settle_error) POSITION_RETURN_DESCENT_SEED_RAD
          && (outbound_breakaway || return_breakaway)
  then fmax max_lead POSITION_HOLD_ONSET_MAX_LEAD_RAD
  else max_lead.

Definition high_angle_descent_stuck (q target : f64) : bool :=
  is_gravity_assisted_return q target && fgt (sub64 q target) POSITION_RETURN_DESCENT_SEED_RAD.

Definition descent_stuck_mit_pull (to_target q target dq_filtered velocity_deadband : f64)
  (breakaway_confirmed : bool) : bool :=
  negb breakaway_confirmed && flt to_target (fneg POSITION_HOLD_ERROR_DEADBAND_RAD)
  && flt (fabs dq_filtered) velocity_deadband
  && (high_angle_descent_stuck q target || home_final_approach_stuck q target).

Definition home_final_approach_stuck_pull_rad (q target : f64) : calc f64 :=
  if negb (home_final_approach_stuck q target) then Ok POSITION_DESCENT_STUCK_LEAD_RAD
  else fclamp (add64 (sub64 q target) POSITION_HOME_FINAL_PULL_THROUGH_RAD)
         POSITION_DESCENT_STUCK_LEAD_RAD POSITION_HOLD_ONSET_MAX_LEAD_RAD.

Definition descent_breakaway_confirmed (to_target dq_filtered velocity_deadband : f64) : bool :=
  flt to_target (fneg POSITION_HOLD_ERROR_DEADBAND_RAD)
  && fle dq_filtered (mul64 (fneg velocity_deadband) POSITION_STUCK_EXIT_VELOCITY_RATIO).

(** ** Velocities and gains around the setpoint *)

Definition envelope_dq_cmd_for_hold_clamp (policy : option JointLimitPolicy)
  (q requested_rad dq_cmd slew_rad_s : f64) : f64 :=
  match policy with
  | None => dq_cmd
  | Some p =>
      let home_band := POSITION_HOME_SETTLE_RAD in
      let lower_home_gate := fmax (add64 (hard_lower p) home_band) home_band in
      if fle requested_rad lower_home_gate && fgt q (add64 requested_rad home_band) && flt dq_cmd fzero
      then fneg (fmin (fabs dq_cmd) slew_rad_s)
      else if fge requested_rad (sub64 (hard_upper p) home_band)
              && flt q (sub64 requested_rad home_band) && fgt dq_cmd fzero
      then fmin (fabs dq_cmd) slew_rad_s
      else dq_cmd
  end.

Definition downward_return_seed_velocity (slew_rad_s v_max q target : f64) : f64 :=
  let base := fmin slew_rad_s v_max in
  if negb (is_descent_return q target POSITION_RETURN_DESCENT_SEED_RAD) then base
  else if fle (fabs (sub64 q target)) (mul64 POSITION_RETURN_DESCENT_SEED_RAD (f64_of_Z 4)) then base
  else fmin v_max (fmax base (mul64 v_max (lit64 35 100))).

Definition position_hold_mit_velocity (dq_raw dq_t velocity_deadband : f64) (retarget_age_ms : Z)
  (approaching_target : bool) : f64 :=
  if fge (fabs dq_raw) velocity_deadband then dq_t
  else if approaching_target && (retarget_age_ms <=? POSITION_HOLD_ONSET_MS)
          && fgt (fabs dq_t) POSITION_HOLD_ERROR_DEADBAND_RAD
  then dq_t else fzero.

Definition position_hold_mit_kd (kd dq_filtered velocity_deadband : f64) : f64 :=
  if flt (fabs dq_filtered) velocity_deadband then fzero else kd.

(** ** Planner predicates *)

Definition in_hold (p : JointPositionPlanner) : bool := bool_decide (phase p = Hold).

Definition planner_should_resync_stuck_lead (p : JointPositionPlanner)
  (q target dq_filtered max_lead velocity_deadband : f64) : bool :=
  if fle (fabs (sub64 target q)) POSITION_SETTLE_TOLERANCE_RAD then false
  else if fge (fabs dq_filtered) velocity_deadband then false
  else if is_descent_return q target POSITION_RETURN_DESCENT_SEED_RAD && flt target q
          && fgt q (q_traj p) && negb (in_hold p) then false
  else fgt (fabs (sub64 q (q_traj p))) (sub64 max_lead (lit64 1 1000000)).

(** Beyond the target, on its own side of home. *)
Definition overshot (q target : f64) : bool :=
  if fge target fzero then fgt q (add64 target POSITION_RETURN_RESYNC_RAD)
  else flt q (sub64 target POSITION_RETURN_RESYNC_RAD).

Definition planner_should_latch_on_overshoot_hold (q q_tr target dq_filtered velocity_deadband : f64) : bool :=
  let planner_at_target := fle (fabs (sub64 q_tr target)) POSITION_SETTLE_TOLERANCE_RAD in
  fgt (fabs target) POSITION_RETURN_FREEZE_Q_MAX_RAD && planner_at_target && overshot q target
  && flt (fabs dq_filtered) velocity_deadband.

Definition planner_should_freeze_on_descent (was_frozen : bool)
  (target q to_target lag dq_tr dq_filtered velocity_deadband max_lead : f64) : bool :=
  if fgt (fabs target) POSITION_SETTLE_TOLERANCE_RAD then false
  else if home_final_approach_stuck q target then false
  else if fgt q POSITION_RETURN_FREEZE_Q_MAX_RAD then false
  else if fgt (fabs (sub64 q target)) POSITION_RETURN_DESCENT_SEED_RAD then false
  else
    let settle_band := return_settle_band target in
    if was_frozen
       && (flt (fabs lag) POSITION_RETURN_RESYNC_RAD
           || (home_final_approach_stuck q target && flt (fabs dq_filtered) velocity_deadband)) then false
    else if fle (fabs (sub64 q target)) settle_band then false
    else
      let lagging := flt to_target (fneg POSITION_HOLD_ERROR_DEADBAND_RAD)
                     && fgt lag POSITION_RETURN_RESYNC_RAD && flt lag max_lead
                     && flt dq_tr (fneg POSITION_HOLD_ERROR_DEADBAND_RAD) in
      if negb lagging then false
      else
        let exit_v := mul64 velocity_deadband POSITION_STUCK_EXIT_VELOCITY_RATIO in
        if was_frozen then fgt dq_filtered (fneg exit_v)
        else flt (fabs dq_filtered) velocity_deadband.

Definition planner_should_recover_ascent_stall (was_recovering : bool)
  (target q q_tr to_target dq_filtered velocity_deadband : f64) : bool :=
  if fle (fabs target) POSITION_SETTLE_TOLERANCE_RAD then false
  else if fle (fabs (sub64 q target)) (return_settle_band target) then false
  else
    let exit_v := mul64 velocity_deadband POSITION_STUCK_EXIT_VELOCITY_RATIO in
    if fgt to_target fzero && fge dq_filtered exit_v then false
    else if was_recovering then true
    else
      let lead := sub64 q_tr q in
      let planner_ahead := fgt to_target POSITION_HOLD_ERROR_DEADBAND_RAD
                           && fgt lead POSITION_RETURN_RESYNC_RAD in
      planner_ahead && flt (fabs dq_filtered) velocity_deadband.

Definition lead_follow_stuck_residual (lead_follow : bool)
  (q target dq_filtered velocity_deadband : f64) : bool :=
  lead_follow && fgt target POSITION_SETTLE_TOLERANCE_RAD
  && fgt (sub64 target q) POSITION_RETURN_RESYNC_RAD
  && flt (fabs dq_filtered) velocity_deadband.

Definition planner_premature_hold (p : JointPositionPlanner) (q target : f64) : bool :=
  if negb (in_hold p) then false
  else if fle (fabs (sub64 q target)) (return_settle_band target) then false
  else fle (fabs (sub64 (q_traj p) target)) POSITION_SETTLE_TOLERANCE_RAD.

Definition planner_overshot_at_hold (p : JointPositionPlanner) (q target : f64) : bool :=
  if negb (in_hold p) then false
  else if fgt (fabs (sub64 (q_traj p) target)) POSITION_SETTLE_TOLERANCE_RAD then false
  else overshot q target.

Definition planner_overshoot_hold_while_moving (p : JointPositionPlanner)
  (q target dq_filtered velocity_deadband : f64) : bool :=
  if flt (fabs dq_filtered) velocity_deadband then false
  else if negb (planner_overshot_at_hold p q target) then false
  else if fge target fzero then fgt dq_filtered velocity_deadband
  else flt dq_filtered (fneg velocity_deadband).

Definition planner_should_reopen_premature_hold (p : JointPositionPlanner)
  (q target dq_filtered velocity_deadband : f64) : bool :=
  if planner_overshoot_hold_while_moving p q target dq_filtered velocity_deadband then true
  else if negb (planner_premature_hold p q target) then false
  else fge (fabs dq_filtered) velocity_deadband.

Definition planner_should_lead_follow_hold_short (p : JointPositionPlanner) (q target : f64) : bool :=
  let home := fle (fabs target) POSITION_SETTLE_TOLERANCE_RAD in
  let short := if home then fgt q POSITION_HOME_SETTLE_RAD
               else if fgt target fzero then flt q (sub64 target POSITION_HOME_SETTLE_RAD)
               else fgt q (add64 target POSITION_HOME_SETTLE_RAD) in
  if negb short then false
  else
    let not_overshot := if home then true
                        else if fgt target fzero then fle q (add64 target POSITION_RETURN_RESYNC_RAD)
                        else fge q (sub64 target POSITION_RETURN_RESYNC_RAD) in
    if negb not_overshot then false
    else match phase p with
         | Hold => fle (fabs (sub64 (q_traj p) target)) POSITION_RETURN_RESYNC_RAD
         | Cruise => fle (fabs (sub64 (q_traj p) target)) POSITION_SETTLE_TOLERANCE_RAD
                     && fgt (fabs (dq_traj p)) POSITION_SETTLE_TOLERANCE_RAD
         | Accelerate | Decelerate => false
         end.

Definition apply_lead_follow_hold_short (q target max_lead slew_rad_s : f64) (speed : SpeedFraction)
  (p : JointPositionPlanner) : JointPositionPlanner :=
  let dir := fsignum (sub64 target q) in
  if feq dir fzero then latch_at_target target p
  else
    let remaining := fabs (sub64 target q) in
    if fle remaining POSITION_HOME_SETTLE_RAD then latch_at_target target p
    else
      let lead := fmin remaining max_lead in
      let q_ref := add64 q (mul64 dir lead) in
      let v := fmax slew_rad_s (mul64 POSITION_HOME_SETTLE_RAD (speed_get speed)) in
      resume_cruise_toward q_ref (mul64 dir v) p.

Definition reopen_planner_from_premature_hold (q target v_max : f64) (p : JointPositionPlanner)
  : JointPositionPlanner :=
  let dir := fsignum (sub64 target q) in
  let q_tr := if fgt dir fzero then fmax (q_traj p) q
              else if flt dir fzero then fmin (q_traj p) q else q_traj p in
  resume_cruise_toward q_tr (mul64 dir v_max) p.

Definition planner_drifted_from_measurement (p : JointPositionPlanner) (q target max_lead : f64) : bool :=
  if planner_premature_hold p q target then false
  else if planner_overshot_at_hold p q target then false
  else
    let to_target := sub64 target q in
    let away := fgt (fabs to_target) POSITION_SETTLE_TOLERANCE_RAD in
    if away && fgt to_target fzero && fgt q (add64 (q_traj p) max_lead) then false
    else if away && flt to_target fzero && flt q (sub64 (q_traj p) max_lead) then false
    else if away && is_descent_return q target POSITION_RETURN_DESCENT_SEED_RAD
            && fgt q (add64 (q_traj p) max_lead) && negb (in_hold p) then false
    else if fgt (fabs (sub64 q (q_traj p))) max_lead
            && fgt (fabs (sub64 target q)) POSITION_SETTLE_TOLERANCE_RAD then true
    else in_hold p && fgt (fabs (sub64 q target)) (return_settle_band target)
         && fgt (fabs (sub64 q (q_traj p))) POSITION_SETTLE_TOLERANCE_RAD.

(** ** The setpoint clamp *)

Definition TOL : f64 := lit64 1 10000.

(** Brake when the arm outruns the reference, follow when it lags. *)
Definition brake_or_follow (q_tr q target : f64) (policy : option JointLimitPolicy) (dq_tr q_des : f64) : f64 :=
  let to_target := sub64 target q in
  if fgt (fabs to_target) TOL then
    if fgt to_target fzero && fgt q q_tr && flt (sub64 q q_tr) POSITION_RETURN_RESYNC_RAD then fmax q_des q
    else if flt to_target fzero && flt q q_tr
            && (flt (sub64 q_tr q) POSITION_RETURN_RESYNC_RAD
                || (fle (fabs target) TOL && flt (fabs q) POSITION_RETURN_FREEZE_Q_MAX_RAD))
    then match policy with
         | Some p => let '(lo, _) := effective_command_bounds p q dq_tr in fmin q_des (fmax q lo)
         | None => fmin q_des q
         end
    else q_des
  else q_des.

(** The planner has arrived but the arm is beyond the target. *)
Definition snaps_to_target (q_tr q target : f64) : bool :=
  fle (fabs (sub64 q_tr target)) TOL && overshot q target
  && fgt (fabs target) POSITION_RETURN_FREEZE_Q_MAX_RAD.

Definition settle (q_tr q target : f64) (policy : option JointLimitPolicy) (dq_tr q_des : f64) : calc f64 :=
  let settle_error := sub64 target q in
  if snaps_to_target q_tr q target then
    match policy with
    | Some p => let '(lo, hi) := effective_command_bounds p q dq_tr in fclamp target lo hi
    | None => Ok target
    end
  else if flt settle_error (fneg TOL) && fle q_tr (add64 target TOL) then
    let q_des := fmax q_des target in
    Ok match policy with
       | Some p => let '(lo, _) := effective_command_bounds p q dq_tr in fmax (fmin q_des q) lo
       | None => fmin q_des q
       end
  else if fgt settle_error TOL && fge q_tr (sub64 target TOL) then
    Ok match policy with
       | Some p => let '(_, hi) := effective_command_bounds p q dq_tr in fmin (fmax (fmin q_des target) q) hi
       | None => fmax (fmin q_des target) q
       end
  else Ok q_des.

Definition clamp_trajectory_setpoint (q_tr q target max_lead : f64) (policy : option JointLimitPolicy)
  (dq_tr : f64) : calc f64 :=
  let! q_des := fclamp q_tr (sub64 q max_lead) (add64 q max_lead) in
  let! q_des := settle q_tr q target policy dq_tr (brake_or_follow q_tr q target policy dq_tr q_des) in
  Ok match policy with
     | Some p => clamp_position_in_envelope p q dq_tr q_des
     | None => q_des
     end.

(** ** Setpoint theorems *)

Lemma setpoint_settle_total (q_tr q target dq x : f64) (policy : option JointLimitPolicy) :
  (forall p, policy = Some p -> bounds_wf (bounds p)) -> is_finite q = true ->
  exists y, settle q_tr q target policy dq x = Ok y.
Proof.
  intros W Q. unfold settle. destruct policy as [p|].
  - destruct (effective_command_bounds p q dq) as [lo hi] eqn:E.
    destruct (effective_bounds_in_soft _ _ _ _ _ (W p eq_refl) Q E) as (A & _).
    destruct (snaps_to_target _ _ _); [exact (fclamp_ok _ _ _ A)|].
    destruct (_ && _); [eauto|]. destruct (_ && _); eauto.
  - repeat destruct (snaps_to_target _ _ _); eauto. repeat destruct (_ && _); eauto.
Qed.

(** the setpoint handed to the drive.  With a well-formed limit policy, a finite
    measured position and a lead that leaves an interval around it, the clamp
    returns (its inner clamps never panic) a finite position inside the soft and
    the hard range, whatever the reference, the target and the speed are, NaN
    included. *)
Theorem setpoint_in_envelope (p : JointLimitPolicy) (q_tr q target max_lead dq : f64) :
  bounds_wf (bounds p) -> is_finite q = true -> fle (sub64 q max_lead) (add64 q max_lead) = true ->
  exists y, clamp_trajectory_setpoint q_tr q target max_lead (Some p) dq = Ok y
    /\ is_finite y = true
    /\ in_range (soft_lo (bounds p)) (soft_hi (bounds p)) y = true
    /\ in_range (hard_lower p) (hard_upper p) y = true.
Proof.
  intros W Q L. unfold clamp_trajectory_setpoint.
  destruct (@fclamp_ok Empty_set q_tr _ _ L) as [x ->]. cbn [rbind].
  match goal with |- context [settle _ _ _ _ _ ?z] => destruct (setpoint_settle_total q_tr q target dq z (Some p)) as [y ->] end;
    [intros ? [= <-]; exact W|exact Q|]. cbn [rbind].
  eexists. split; [reflexivity|]. destruct (clamp_position_bounds p q dq y W Q) as (A & B & C & D & F).
  unfold in_range. rewrite A, B, C, D. auto.
Qed.

Lemma brake_or_follow_in (q_tr q target dq lo hi x : f64) :
  is_nan q = false -> fle lo q = true -> fle q hi = true -> fle lo x = true -> fle x hi = true ->
  fle lo (brake_or_follow q_tr q target None dq x) = true /\ fle (brake_or_follow q_tr q target None dq x) hi = true.
Proof.
  intros Q L H A B. unfold brake_or_follow. destruct (fgt _ TOL); [|auto].
  destruct (_ && _ && _); [destruct (fmax_or x q) as [-> | ->]; auto|].
  destruct (_ && _ && _); [destruct (fmin_or x q) as [-> | ->]; auto|auto].
Qed.

(** without a limit policy the setpoint keeps within the lead of the measured
    position, unless the planner has arrived and the arm is beyond the target, in
    which case it is the target itself. *)
Theorem setpoint_lead_bounded (q_tr q target max_lead dq : f64) :
  let lo := sub64 q max_lead in let hi := add64 q max_lead in
  is_nan q_tr = false -> fle lo q = true -> fle q hi = true ->
  exists y, clamp_trajectory_setpoint q_tr q target max_lead None dq = Ok y
    /\ if snaps_to_target q_tr q target then y = target else in_range lo hi y = true.
Proof.
  intros lo hi N L H. unfold clamp_trajectory_setpoint. fold lo hi.
  destruct (@fclamp_ok Empty_set q_tr lo hi (fle_trans _ _ _ L H)) as [x Hx]. rewrite Hx. cbn [rbind].
  destruct (fclamp_between _ _ _ _ N Hx) as [A B].
  destruct (brake_or_follow_in q_tr q target dq lo hi x (proj2 (fle_not_nan _ _ L)) L H A B) as [C D].
  revert C D. generalize (brake_or_follow q_tr q target None dq x). intros z C D. unfold settle, in_range.
  destruct (snaps_to_target q_tr q target); cbn [rbind]; [eauto|].
  destruct (_ && _); cbn [rbind].
  - eexists. split; [reflexivity|]. apply andb_true_intro. split.
    + apply fmin_glb; [|exact L]. eapply fle_trans; [exact C|]. apply fmax_ge. exact (proj2 (fle_not_nan _ _ C)).
    + eapply fle_trans; [|exact H]. apply Limits.fmin_le_r. exact (proj2 (fle_not_nan _ _ L)).
  - destruct (_ && _); cbn [rbind]; [|eexists; split; [reflexivity|]; by rewrite C, D].
    eexists. split; [reflexivity|]. apply andb_true_intro. split.
    + eapply fle_trans; [exact L|]. apply Limits.fmax_ge_r. exact (proj2 (fle_not_nan _ _ L)).
    + apply fmax_lub; [|exact H]. eapply fle_trans; [|exact D]. apply fmin_le_l. exact (proj2 (fle_not_nan _ _ C)).
Qed.

(** an arm 0.5 rad beyond a target its planner has reached is commanded to the
    target in one step, five times the lead of 0.1 rad. *)
Theorem overshoot_exceeds_lead :
  let q := f64_of_Z 1 in let target := lit64 5 10 in let lead := lit64 1 10 in
  clamp_trajectory_setpoint target q target lead None fzero = Ok target
  /\ fgt (fabs (sub64 target q)) (mul64 (lit64 49 10) lead) = true.
Proof. vm_compute. auto. Qed.

(** ** Stall fuse *)

Lemma mul64_gt_zero_sign (x y : f64) :
  fgt (mul64 x y) fzero = true -> is_nan x = false /\ is_nan y = false /\ fsign x = fsign y.
Proof.
  unfold fgt, mul64, SFmul. destruct x as [[]|[]| |[] mx ex], y as [[]|[]| |[] my ey]; try discriminate; auto; intros H.
  - destruct (round_aux_sign prec64 emax64 (xorb true false) (Zpos (mx * my)) (ex + ey) loc_Exact) as [_ Hs]; [lia|].
    destruct (binary_round_aux _ _ _ _ _ _) as [[]|[]| |[]]; discriminate.
  - destruct (round_aux_sign prec64 emax64 (xorb false true) (Zpos (mx * my)) (ex + ey) loc_Exact) as [_ Hs]; [lia|].
    destruct (binary_round_aux _ _ _ _ _ _) as [[]|[]| |[]]; discriminate.
Qed.

Lemma fsignum_by_sign (x y : f64) :
  is_nan x = false -> is_nan y = false -> fsign x = fsign y -> fsignum x = fsignum y.
Proof. destruct x as [[]|[]| |[]], y as [[]|[]| |[]]; cbn; congruence. Qed.

Lemma fsignum_sign (x : f64) : is_nan x = false -> fsign (fsignum x) = fsign x /\ is_nan (fsignum x) = false.
Proof. destruct x as [[]|[]| |[]]; try discriminate; split; reflexivity. Qed.

Lemma outbound_direction (target to_target d : f64) :
  outbound_stall_direction target to_target = Some d ->
  d = fsignum target /\ d = fsignum to_target /\ fgt (fabs target) POSITION_SETTLE_TOLERANCE_RAD = true.
Proof.
  unfold outbound_stall_direction. destruct (fle (fabs target) _) eqn:Eh; [discriminate|].
  destruct (fgt (mul64 _ _) _) eqn:E; [|discriminate]. intros [= <-].
  assert (Hp : fgt (mul64 to_target (fsignum target)) fzero = true).
  { assert (flt fzero (return_settle_band target) = true) by (unfold return_settle_band; by destruct (fle _ _)).
    unfold fgt in *. float_solve. }
  apply mul64_gt_zero_sign in Hp as (N1 & N2 & Hs).
  assert (N : is_nan target = false) by (destruct target; [reflexivity|reflexivity|discriminate N2|reflexivity]).
  split; [reflexivity|]. split.
  - apply fsignum_by_sign; [exact N|exact N1|]. rewrite Hs. symmetry. apply fsignum_sign, N.
  - assert (is_nan (fabs target) = false) by (by destruct target).
    assert (is_nan POSITION_SETTLE_TOLERANCE_RAD = false) by reflexivity. unfold fgt. float_solve.
Qed.

(** the travel stall fuse watches every commanded move.  A finite target more than
    0.03 rad from the arm always gives a direction; a direction is always the sign
    of the remaining travel; and an outbound one is the side of home the target
    lies on, never home itself. *)
Theorem stall_fuse_watches_moves (target to_target : f64) :
  (is_finite target && is_finite to_target && fgt (fabs to_target) POSITION_RETURN_RESYNC_RAD = true ->
   exists side, travel_stall_direction target to_target = Some (fsignum to_target, side))
  /\ forall d side, travel_stall_direction target to_target = Some (d, side) ->
       d = fsignum to_target
       /\ (side = Outbound -> d = fsignum target /\ fgt (fabs target) POSITION_SETTLE_TOLERANCE_RAD = true).
Proof.
  unfold travel_stall_direction. destruct (outbound_stall_direction target to_target) as [o|] eqn:Eo.
  - destruct (outbound_direction _ _ _ Eo) as (H1 & H2 & H3). split; [rewrite <- H2; eauto|].
    intros d side [= <- <-]. auto.
  - split.
    + intros H. bsimp. rewrite H, H1, H0. cbn. eauto.
    + intros d side. destruct (_ || _); [discriminate|]. destruct (fgt _ _); [|discriminate].
      intros [= <- <-]. split; [reflexivity|discriminate].
Qed.

(** Latching on an overshoot and following a short hold exclude each other. *)
Lemma latch_excludes_lead_follow (p : JointPositionPlanner) (q target dq db : f64) :
  planner_should_latch_on_overshoot_hold q (q_traj p) target dq db = true ->
  planner_should_lead_follow_hold_short p q target = false.
Proof.
  unfold planner_should_latch_on_overshoot_hold, planner_should_lead_follow_hold_short, overshot. intros H. bsimp.
  assert (Ht : fle (fabs target) POSITION_SETTLE_TOLERANCE_RAD = false).
  { destruct (fle (fabs target) _) eqn:E; [|reflexivity].
    assert (fle POSITION_SETTLE_TOLERANCE_RAD POSITION_RETURN_FREEZE_Q_MAX_RAD = true) by reflexivity.
    unfold fgt in *. float_solve. }
  rewrite Ht.
  destruct (if fgt target fzero then flt q _ else _); cbn [negb]; [|reflexivity].
  assert (Hn : (if fgt target fzero then fle q (add64 target POSITION_RETURN_RESYNC_RAD)
                else fge q (sub64 target POSITION_RETURN_RESYNC_RAD)) = false).
  { unfold fgt, fge in *. destruct (flt fzero target) eqn:Ep.
    - rewrite (flt_le _ _ Ep) in H1. destruct (fle q _) eqn:E; [float_solve|reflexivity].
    - destruct (fle fzero target) eqn:E0.
      + assert (fle fzero POSITION_RETURN_FREEZE_Q_MAX_RAD = true) by reflexivity.
        assert (is_nan fzero = false) by reflexivity. float_solve.
      + destruct (fle _ q) eqn:E; [float_solve|reflexivity]. }
  by rewrite Hn.
Qed.

(** ** Speed fraction *)

Lemma speed_new_iff (v : f64) (s : SpeedFraction) :
  speed_new v = Ok s <-> s = mkSpeed v /\ fgt v fzero = true /\ fle v fone = true.
Proof.
  unfold speed_new. destruct (is_finite v && fgt v fzero && fle v fone) eqn:E.
  - bsimp. split; [intros [= <-]; auto|intros (-> & _); reflexivity].
  - split; [discriminate|]. intros (_ & H1 & H2). rewrite H1, H2, !andb_true_r in E.
    destruct v as [[]|[]| |[]]; discriminate.
Qed.

(** ** Witnesses *)

Lemma setpoint_in_envelope_witness :
  exists y, clamp_trajectory_setpoint S754_nan (f64_of_Z 1) (lit64 5 10) (lit64 1 10) (Some pitch_policy) fzero = Ok y
    /\ is_finite y = true
    /\ in_range (soft_lo (bounds pitch_policy)) (soft_hi (bounds pitch_policy)) y = true
    /\ in_range (hard_lower pitch_policy) (hard_upper pitch_policy) y = true.
Proof.
  exact (setpoint_in_envelope pitch_policy S754_nan (f64_of_Z 1) (lit64 5 10) (lit64 1 10) fzero
           pitch_policy_wf eq_refl eq_refl).
Defined.

Lemma setpoint_lead_bounded_witness :
  exists y, clamp_trajectory_setpoint fzero (f64_of_Z 1) (lit64 5 10) (lit64 1 10) None fzero = Ok y
    /\ in_range (sub64 (f64_of_Z 1) (lit64 1 10)) (add64 (f64_of_Z 1) (lit64 1 10)) y = true.
Proof.
  exact (setpoint_lead_bounded fzero (f64_of_Z 1) (lit64 5 10) (lit64 1 10) fzero eq_refl eq_refl eq_refl).
Defined.

Lemma stall_fuse_watches_moves_witness :
  exists side, travel_stall_direction (lit64 5 10) (lit64 (-2) 10) = Some (fsignum (lit64 (-2) 10), side).
Proof. apply (proj1 (stall_fuse_watches_moves (lit64 5 10) (lit64 (-2) 10))). vm_compute. reflexivity. Defined.

End Setpoint.
