(* ===== verification/Gains.v ===== *)
(** * Gains: Testing overrides, mode-transition ramp and per-tick resolution

    [src/crates/berthier/src/gain_runtime.rs] in full, as the state [GainRuntime]
    and its operations; a run of the runtime is a sequence of [GainOp]s. *)

From Stdlib Require Import ZArith Lia Bool SpecFloat.
From stdpp Require Import base gmap strings list.
From S2P Require Import Prelude Float Config Davout.

Module Gains.
Import Davout.

(** ** Data *)

Definition GAIN_RAMP_SECONDS : f64 := lit64 1 10.

Record GainShapeError : Type := mkShapeError { se_what : string; se_expected : nat; se_actual : nat }.

Record GainOverride : Type := mkOverride { ov_kp : f64; ov_kd : f64; ov_ki : f64; ov_fc : f64 }.

Record GainClampLimits : Type := mkClampLimits { gl_kp_max : f64; gl_kd_max : f64; gl_tau_ff_max : f64 }.

Record JointModeGains : Type := mkModeGains { y_gravity_comp : Config.ModeGains; y_impedance : Config.ModeGains }.

Record ResolvedGains : Type := mkResolved {
  law_kd : f64; law_ki : f64; law_fc : option f64; r_wire_kp : f64; r_wire_kd : f64
}.

Record GainRamp : Type := mkRamp {
  ramp_joints : list (f64 * f64 * f64 * f64); ticks_remaining : Z; total_ticks : Z
}.

Record GainRuntime : Type := mkRuntime {
  overrides : gmap string GainOverride; ramp : option GainRamp; ramp_ticks : Z
}.

(** ** Mode policy *)

Definition mode_allows_gain_override (mode : ControlMode) : bool :=
  match mode with Impedance | CPosition => true | _ => false end.

Definition mode_clears_gain_overrides_on_enter (mode : ControlMode) : bool :=
  match mode with GravityComp | TorqueOnly | CDisabled => true | _ => false end.

Definition target_gains_from_yaml (mode : ControlMode) (gravity_comp impedance : Config.ModeGains) : f64 * f64 :=
  match mode with
  | GravityComp | TorqueOnly | CDisabled => (Config.kp gravity_comp, Config.kd gravity_comp)
  | Impedance | CPosition => (Config.kp impedance, Config.kd impedance)
  end.

Definition effective_wire_gains (mode : ControlMode) (target_kp target_kd : f64)
  (override_kp_kd : option (f64 * f64)) (ramp_kp ramp_kd : option f64) : f64 * f64 :=
  match (if mode_allows_gain_override mode then override_kp_kd else None) with
  | Some o => o
  | None =>
      match ramp_kp, ramp_kd with
      | Some kp, Some kd => (kp, kd)
      | _, _ => (target_kp, target_kd)
      end
  end.

Definition require_parallel (what : string) (actual expected : nat) : result GainShapeError unit :=
  if Nat.eqb actual expected then Ok tt else Err (mkShapeError what expected actual).

(** ** Construction *)

(** [x.round() as u32] of a nonnegative number: ties away from zero, saturating. *)
Definition round_as_u32 (x : f64) : Z :=
  match x with
  | S754_nan | S754_zero _ => 0
  | S754_infinity s => if s then 0 else U32_MAX
  | S754_finite true _ _ => 0
  | S754_finite false m e => Z.min (round_half_up m e) U32_MAX
  end.

Definition ramp_ticks_for_loop_hz (loop_hz : Z) : Z :=
  Z.max (round_as_u32 (mul64 (f64_of_Z loop_hz) GAIN_RAMP_SECONDS)) 1.

Definition for_loop_hz (loop_hz : Z) : GainRuntime := mkRuntime ∅ None (ramp_ticks_for_loop_hz loop_hz).

(** ** Overrides *)

Definition override_get (joint : string) (r : GainRuntime) : option GainOverride := overrides r !! joint.

(** [if x > max { x = max }]. *)
Definition cap (x max : f64) : f64 := if fgt x max then max else x.

Definition clamp_override (ov : GainOverride) (l : GainClampLimits) : GainOverride :=
  mkOverride (cap (ov_kp ov) (gl_kp_max l)) (cap (ov_kd ov) (gl_kd_max l))
    (cap (ov_ki ov) (gl_kp_max l)) (cap (ov_fc ov) (gl_tau_ff_max l)).

Definition apply (mode : ControlMode) (joint : string) (ov : GainOverride) (l : GainClampLimits)
  (r : GainRuntime) : GainRuntime :=
  if negb (mode_allows_gain_override mode) then r
  else mkRuntime (<[joint := clamp_override ov l]> (overrides r)) (ramp r) (ramp_ticks r).

Definition clear (joint : string) (r : GainRuntime) : GainRuntime :=
  mkRuntime (delete joint (overrides r)) (ramp r) (ramp_ticks r).

(** ** Ramp *)

Definition on_mode_enter (previous next : ControlMode) (from_gains to_gains : list (f64 * f64))
  (r : GainRuntime) : GainRuntime :=
  let ovs := if mode_clears_gain_overrides_on_enter next then ∅ else overrides r in
  if bool_decide (next = CDisabled) then mkRuntime ovs None (ramp_ticks r)
  else if negb (bool_decide (previous = CDisabled)) then
    mkRuntime ovs
      (Some (mkRamp (zip_with (fun f t => (f.1, f.2, t.1, t.2)) from_gains to_gains)
               (ramp_ticks r) (ramp_ticks r)))
      (ramp_ticks r)
  else mkRuntime ovs (ramp r) (ramp_ticks r).

Definition ramp_progress (rp : GainRamp) : f64 :=
  sub64 (f64_of_Z 1) (div64 (f64_of_Z (ticks_remaining rp)) (f64_of_Z (total_ticks rp))).

Definition ramp_joint (progress : f64) (j : f64 * f64 * f64 * f64) : f64 * f64 :=
  let '(from_kp, from_kd, to_kp, to_kd) := j in
  (add64 from_kp (mul64 (sub64 to_kp from_kp) progress), add64 from_kd (mul64 (sub64 to_kd from_kd) progress)).

Definition ramp_gains (r : GainRuntime) : option (list (f64 * f64)) :=
  match ramp r with
  | Some rp => Some (map (ramp_joint (ramp_progress rp)) (ramp_joints rp))
  | None => None
  end.

Definition advance_tick (r : GainRuntime) : GainRuntime :=
  match ramp r with
  | Some rp =>
      let left := Z.max (ticks_remaining rp - 1) 0 in
      mkRuntime (overrides r)
        (if left =? 0 then None else Some (mkRamp (ramp_joints rp) left (total_ticks rp))) (ramp_ticks r)
  | None => r
  end.

(** ** Resolution *)

(** The override a mode lets through, and the ramp gains of joint [i]. *)
Definition live_override (mode : ControlMode) (name : string) (r : GainRuntime) : option GainOverride :=
  if mode_allows_gain_override mode then overrides r !! name else None.

Definition ramp_at (i : nat) (r : GainRuntime) : option f64 * option f64 :=
  match mbind (fun l => l !! i) (ramp_gains r) with
  | Some (kp, kd) => (Some kp, Some kd)
  | None => (None, None)
  end.

Definition wire_joint (mode : ControlMode) (r : GainRuntime) (i : nat) (name : string) (target : f64 * f64) : f64 * f64 :=
  let '(ramp_kp, ramp_kd) := ramp_at i r in
  effective_wire_gains mode target.1 target.2
    (option_map (fun o => (ov_kp o, ov_kd o)) (live_override mode name r)) ramp_kp ramp_kd.

Definition wire_gains_now (mode : ControlMode) (joint_names : list string) (targets : list (f64 * f64))
  (r : GainRuntime) : result GainShapeError (list (f64 * f64)) :=
  require_parallel "targets" (length targets) (length joint_names) ;!
  Ok (imap (fun i nt => wire_joint mode r i nt.1 nt.2) (zip joint_names targets)).

Definition resolve_joint (mode : ControlMode) (r : GainRuntime) (i : nat) (name : string) (y : JointModeGains)
  : ResolvedGains :=
  let '(wire_kp, wire_kd) :=
    wire_joint mode r i name (target_gains_from_yaml mode (y_gravity_comp y) (y_impedance y)) in
  match live_override mode name r with
  | Some o => mkResolved (ov_kd o) (ov_ki o) (Some (ov_fc o)) wire_kp wire_kd
  | None => mkResolved (Config.kd (y_impedance y)) (Config.ki (y_impedance y)) None wire_kp wire_kd
  end.

Definition resolve_all (mode : ControlMode) (joint_names : list string) (yaml : list JointModeGains)
  (r : GainRuntime) : result GainShapeError (list ResolvedGains) :=
  require_parallel "yaml gains" (length yaml) (length joint_names) ;!
  Ok (imap (fun i ny => resolve_joint mode r i ny.1 ny.2) (zip joint_names yaml)).

(** ** Runs

    The state of a run is the current mode and the runtime: overrides are applied
    in the current mode, and entering a mode goes from it. *)

Inductive GainOp : Type :=
| OpApply (joint : string) (ov : GainOverride)
| OpClear (joint : string)
| OpEnter (next : ControlMode) (from_gains to_gains : list (f64 * f64))
| OpTick.

Definition run_op (limits : string -> GainClampLimits) (st : ControlMode * GainRuntime) (op : GainOp)
  : ControlMode * GainRuntime :=
  let '(mode, r) := st in
  match op with
  | OpApply joint ov => (mode, apply mode joint ov (limits joint) r)
  | OpClear joint => (mode, clear joint r)
  | OpEnter next from_gains to_gains => (next, on_mode_enter mode next from_gains to_gains r)
  | OpTick => (mode, advance_tick r)
  end.

Definition run (limits : string -> GainClampLimits) (loop_hz : Z) (ops : list GainOp) : ControlMode * GainRuntime :=
  fold_left (run_op limits) ops (CDisabled, for_loop_hz loop_hz).

(** ** Invariant *)

Definition within (l : GainClampLimits) (o : GainOverride) : Prop :=
  fgt (ov_kp o) (gl_kp_max l) = false /\ fgt (ov_kd o) (gl_kd_max l) = false
  /\ fgt (ov_ki o) (gl_kp_max l) = false /\ fgt (ov_fc o) (gl_tau_ff_max l) = false.

Record gains_ok (limits : string -> GainClampLimits) (loop_hz : Z) (st : ControlMode * GainRuntime) : Prop := {
  ok_ticks : ramp_ticks st.2 = ramp_ticks_for_loop_hz loop_hz;
  ok_within : forall j o, overrides st.2 !! j = Some o -> within (limits j) o;
  ok_mode : mode_allows_gain_override st.1 = false -> overrides st.2 = ∅;
  ok_ramp : forall rp, ramp st.2 = Some rp ->
    1 <= ticks_remaining rp <= total_ticks rp /\ total_ticks rp = ramp_ticks_for_loop_hz loop_hz;
  ok_disabled : st.1 = CDisabled -> ramp st.2 = None
}.

Lemma ramp_ticks_pos (hz : Z) : 1 <= ramp_ticks_for_loop_hz hz.
Proof. unfold ramp_ticks_for_loop_hz. lia. Qed.

Lemma cap_bound (x m : f64) : fgt (cap x m) m = false.
Proof. unfold cap. destruct (fgt x m) eqn:E; [|exact E]. unfold fgt. destruct (flt m m) eqn:F; [float_solve|reflexivity]. Qed.

Lemma clamp_override_within (ov : GainOverride) (l : GainClampLimits) : within l (clamp_override ov l).
Proof. repeat split; apply cap_bound. Qed.

Lemma mode_clears (m : ControlMode) : mode_clears_gain_overrides_on_enter m = negb (mode_allows_gain_override m).
Proof. by destruct m. Qed.

Section Invariant.
Context (limits : string -> GainClampLimits) (loop_hz : Z).
Abbreviation ok := (gains_ok limits loop_hz).

Lemma init_ok : ok (CDisabled, for_loop_hz loop_hz).
Proof. split; cbn; try done. Qed.

Lemma enter_ok (m next : ControlMode) (r : GainRuntime) (f t : list (f64 * f64)) :
  ok (m, r) -> ok (next, on_mode_enter m next f t r).
Proof.
  intros [T W M R D]. cbn in *. unfold on_mode_enter. rewrite mode_clears.
  assert (Hw : forall j o, (if negb (mode_allows_gain_override next) then ∅ else overrides r) !! j = Some o ->
    within (limits j) o) by (destruct (mode_allows_gain_override next); cbn; naive_solver).
  assert (Hm : mode_allows_gain_override next = false ->
    (if negb (mode_allows_gain_override next) then ∅ else overrides r) = ∅) by (intros ->; done).
  case_bool_decide as E1; [subst next; split; cbn; try done|].
  case_bool_decide as E2; cbn [negb].
  - split; cbn; try done.
  - split; cbn; try done. intros rp [= <-]. cbn. rewrite T. pose proof (ramp_ticks_pos loop_hz). lia.
Qed.

Lemma tick_ok (m : ControlMode) (r : GainRuntime) : ok (m, r) -> ok (m, advance_tick r).
Proof.
  intros [T W M R D]. cbn in *. unfold advance_tick. destruct (ramp r) as [rp|] eqn:E; [|split; cbn; congruence || auto].
  destruct (R rp eq_refl) as [R1 R2]. split; cbn; auto.
  - intros rp'. destruct (_ =? 0) eqn:Z0; [discriminate|]. intros [= <-]. cbn. bsimp. lia.
  - intros H. specialize (D H). congruence.
Qed.

Lemma step_ok (st : ControlMode * GainRuntime) (op : GainOp) : ok st -> ok (run_op limits st op).
Proof.
  destruct st as [m r]. intros K. destruct op; cbn [run_op]; auto using enter_ok, tick_ok.
  - unfold apply. destruct (mode_allows_gain_override m) eqn:Em; cbn [negb]; [|exact K].
    destruct K as [T W M R D]. split; cbn in *; auto; [|congruence].
    intros j o. destruct (decide (j = joint)) as [->|Hj].
    + rewrite lookup_insert_eq. intros [= <-]. apply clamp_override_within.
    + rewrite lookup_insert_ne by congruence. apply W.
  - destruct K as [T W M R D]. split; cbn in *; auto.
    + intros j o. rewrite lookup_delete_Some. naive_solver.
    + intros H. rewrite (M H). apply delete_empty.
Qed.

Lemma gains_run_ok (ops : list GainOp) : ok (run limits loop_hz ops).
Proof.
  unfold run. generalize init_ok. generalize (CDisabled, for_loop_hz loop_hz).
  induction ops as [|op ops IH]; intros st K; cbn; auto using step_ok.
Qed.

(** gains on the wire.  After any sequence of overrides, mode changes and ticks,
    resolving parallel inputs succeeds with one entry per joint; the gains of joint
    [i] are its clamped override (never above its motor's ceilings) when the mode
    admits overrides and one is set, else the ramp's value while one runs, else the
    configured gains; and outside Impedance and Position there is no override left. *)
Theorem wire_gains_precedence (ops : list GainOp) (names : list string) (yaml : list JointModeGains) (i : nat)
  (name : string) (y : JointModeGains) :
  let '(mode, r) := run limits loop_hz ops in
  length yaml = length names -> names !! i = Some name -> yaml !! i = Some y ->
  exists out g, resolve_all mode names yaml r = Ok out /\ length out = length names /\ out !! i = Some g
    /\ match overrides r !! name with
       | Some o => mode_allows_gain_override mode = true /\ within (limits name) o
           /\ g = mkResolved (ov_kd o) (ov_ki o) (Some (ov_fc o)) (ov_kp o) (ov_kd o)
       | None => law_kd g = Config.kd (y_impedance y) /\ law_ki g = Config.ki (y_impedance y) /\ law_fc g = None
           /\ (r_wire_kp g, r_wire_kd g)
              = match mbind (fun l => l !! i) (ramp_gains r) with
                | Some k => k
                | None => target_gains_from_yaml mode (y_gravity_comp y) (y_impedance y)
                end
       end.
Proof.
  pose proof (gains_run_ok ops) as K. destruct (run limits loop_hz ops) as [mode r]. intros Hl Hn Hy.
  destruct K as [T W M R D]. cbn in *. unfold resolve_all, require_parallel.
  rewrite Hl, Nat.eqb_refl. cbn [rbind]. eexists _, (resolve_joint mode r i name y). split; [reflexivity|].
  split; [rewrite length_imap, length_zip_with; lia|].
  split. { rewrite list_lookup_imap, lookup_zip_with, Hn, Hy. reflexivity. }
  unfold resolve_joint, wire_joint, effective_wire_gains, live_override, ramp_at.
  destruct (mode_allows_gain_override mode) eqn:Em.
  - destruct (overrides r !! name) as [o|] eqn:Eo.
    + cbn. destruct (match _ with Some _ => _ | None => _ end) as [a b]. cbn. eauto.
    + destruct (mbind _ _) as [[kp kd]|]; cbn; [auto|]. by destruct (target_gains_from_yaml _ _ _).
  - rewrite (M eq_refl), lookup_empty. destruct (mbind _ _) as [[kp kd]|]; cbn; [auto|].
    by destruct (target_gains_from_yaml _ _ _).
Qed.

Lemma tick_bound (n : nat) (r : GainRuntime) :
  (forall rp, ramp r = Some rp -> 1 <= ticks_remaining rp <= Z.of_nat n) ->
  ramp (Nat.iter n advance_tick r) = None /\ overrides (Nat.iter n advance_tick r) = overrides r.
Proof.
  revert r. induction n as [|n IH]; intros r H.
  - destruct (ramp r) as [rp|] eqn:E; [specialize (H rp eq_refl); lia|auto].
  - rewrite Nat.iter_succ_r. unfold advance_tick at 2 4. destruct (ramp r) as [rp|] eqn:E.
    + destruct (IH (mkRuntime (overrides r)
        (if Z.max (ticks_remaining rp - 1) 0 =? 0 then None
         else Some (mkRamp (ramp_joints rp) (Z.max (ticks_remaining rp - 1) 0) (total_ticks rp))) (ramp_ticks r)))
        as [I1 I2]; [|split; [exact I1|exact I2]].
      intros rp'. cbn. specialize (H rp eq_refl). destruct (_ =? 0) eqn:Z0; [discriminate|]. intros [= <-]. cbn. bsimp. lia.
    + destruct (IH r) as [I1 I2]; [congruence|auto].
Qed.

(** every mode-transition ramp ends.  From any reachable state, once as many ticks
    as the ramp lasts have passed without a mode change, no ramp is left and the
    wire gains are the override's or the configured ones exactly. *)
Theorem ramp_finishes (ops : list GainOp) (n : nat) :
  ramp_ticks_for_loop_hz loop_hz <= Z.of_nat n ->
  let '(mode, r) := run limits loop_hz ops in
  let r' := Nat.iter n advance_tick r in
  ramp r' = None /\ forall i name target,
    wire_joint mode r' i name target
    = match overrides r !! name with Some o => (ov_kp o, ov_kd o) | None => target end.
Proof.
  intros Hn. pose proof (gains_run_ok ops) as K. destruct (run limits loop_hz ops) as [mode r].
  destruct K as [T W M R D]. cbn in *. destruct (tick_bound n r) as [H1 H2].
  { intros rp E. destruct (R rp E). lia. }
  split; [exact H1|]. intros i name target. unfold wire_joint, ramp_at, ramp_gains, live_override. rewrite H1, H2.
  cbn. unfold effective_wire_gains. destruct (mode_allows_gain_override mode) eqn:Em.
  - destruct (overrides r !! name); cbn; [reflexivity|]. by destruct target.
  - rewrite (M eq_refl), lookup_empty. by destruct target.
Qed.

End Invariant.

(** ** Witnesses *)

Definition demo_limits (_ : string) : GainClampLimits := mkClampLimits (f64_of_Z 100) (f64_of_Z 20) (f64_of_Z 10).
Definition demo_override : GainOverride := mkOverride (f64_of_Z 400) (f64_of_Z 3) fzero fzero.
Definition demo_yaml : JointModeGains :=
  mkModeGains (Config.mkGains fzero fzero fzero) (Config.mkGains (f64_of_Z 18) (f64_of_Z 3) fzero).
Definition demo_ops : list GainOp :=
  [OpEnter GravityComp [] []; OpEnter Impedance [(fzero, fzero)] [(f64_of_Z 18, f64_of_Z 3)];
   OpApply "elbow" demo_override; OpTick].

Lemma wire_gains_precedence_witness :
  exists out g, resolve_all Impedance ["elbow"] [demo_yaml] (run demo_limits 200 demo_ops).2 = Ok out
    /\ out !! 0%nat = Some g /\ r_wire_kp g = f64_of_Z 100.
Proof.
  destruct (wire_gains_precedence demo_limits 200 demo_ops ["elbow"] [demo_yaml] 0 "elbow" demo_yaml
              eq_refl eq_refl eq_refl) as (out & g & H1 & _ & H2 & H3).
  exists out, g. split; [exact H1|]. split; [exact H2|].
  destruct H3 as (_ & _ & ->). vm_compute. reflexivity.
Defined.

Lemma ramp_finishes_witness :
  ramp (Nat.iter 20 advance_tick (run demo_limits 200 demo_ops).2) = None.
Proof. apply (ramp_finishes demo_limits 200 demo_ops 20). vm_compute. discriminate. Defined.

(** At 200 Hz a transition takes 20 ticks and starts from the previous gains. *)
Example ramp_starts_bumpless :
  ramp_ticks_for_loop_hz 200 = 20
  /\ wire_joint Impedance (run demo_limits 200 (firstn 2 demo_ops)).2 0 "elbow" (f64_of_Z 18, f64_of_Z 3) = (fzero, fzero)
  /\ wire_joint Impedance (Nat.iter 10 advance_tick (run demo_limits 200 (firstn 2 demo_ops)).2) 0 "elbow"
       (f64_of_Z 18, f64_of_Z 3) = (f64_of_Z 9, lit64 15 10).
Proof. vm_compute. auto. Qed.

End Gains.
