(* ===== verification/LimitPatch.v ===== *)
(** * LimitPatch: live limit patches

    [Patch] is [src/crates/marengo-config/src/limit_patch.rs] (validation, soft
    inset, application to the motor and control entries); [Envelope] is
    [src/crates/davout/src/limit_envelope.rs] on the supervisor of [Lifecycle],
    with the in-memory URDF beside it, and the [replacement] of
    [reference_model.rs].

    The serializers behind the model size check are third-party code: [fits]
    stands for their verdict.  A new model descriptor is a fresh allocation, whose
    identity is the argument [fresh]. *)

From Stdlib Require Import ZArith Lia Bool SpecFloat.
From stdpp Require Import base gmap strings list.
From S2P Require Import Prelude Float Config Validate Limits Params Bus Faults Davout Filter Admission Safety Reporting Authority Physical Lifecycle Stop Session Grants.

Module Patch.
Import Config.

Definition DEFAULT_SOFT_INSET_RAD : f64 := lit64 27 1000.

Record LimitPatch : Type := mkPatch {
  pt_joint : string;
  pt_lower : f64;
  pt_upper : f64;
  pt_torque : option f64;
  pt_soft_lower : option f64;
  pt_soft_upper : option f64;
  pt_velocity : option f64
}.

Definition soft_limits_with_inset {E : Type} (hard_lower hard_upper inset : f64) : result E (f64 * f64) :=
  let span := sub64 hard_upper hard_lower in
  if negb (is_finite span) || fle span fzero then Ok (hard_lower, hard_upper)
  else
    let! inset := fclamp inset fzero (mul64 span (lit64 25 100)) in
    Ok (add64 hard_lower inset, sub64 hard_upper inset).

Definition ensure_soft_inset {E : Type} (p : LimitPatch) : result E LimitPatch :=
  let! (lo, hi) := soft_limits_with_inset (pt_lower p) (pt_upper p) DEFAULT_SOFT_INSET_RAD in
  Ok (mkPatch (pt_joint p) (pt_lower p) (pt_upper p) (pt_torque p)
        (Some (default lo (pt_soft_lower p))) (Some (default hi (pt_soft_upper p))) (pt_velocity p)).

Definition invalid_patch (m : message) : ConfigError := Parse "limit patch" m.

Definition validate_finite_optional (name : string) (v : option f64) : result ConfigError unit :=
  refuse_if (match v with Some x => negb (is_finite x) | None => false end)
    (invalid_patch (Msg "{name} must be finite" [AStr name])).

Definition validate_positive_optional (name : string) (v : option f64) : result ConfigError unit :=
  validate_finite_optional name v ;!
  refuse_if (match v with Some x => fle x fzero | None => false end)
    (invalid_patch (Msg "{name} must be greater than zero" [AStr name])).

Definition validate_limit_patch (p : LimitPatch) : result ConfigError unit :=
  refuse_if (Validate.trim_is_empty (pt_joint p)) (invalid_patch (msg "joint must not be empty")) ;!
  refuse_if (negb (is_finite (pt_lower p)) || negb (is_finite (pt_upper p)))
    (invalid_patch (msg "hard position limits must be finite")) ;!
  refuse_if (fge (pt_lower p) (pt_upper p))
    (invalid_patch (Msg "position_lower_rad {} must be less than position_upper_rad {}"
       [AF64 (pt_lower p); AF64 (pt_upper p)])) ;!
  validate_positive_optional "torque_limit_nm" (pt_torque p) ;!
  validate_finite_optional "position_soft_lower_rad" (pt_soft_lower p) ;!
  validate_finite_optional "position_soft_upper_rad" (pt_soft_upper p) ;!
  validate_positive_optional "velocity_max_rad_s" (pt_velocity p) ;!
  match pt_soft_lower p, pt_soft_upper p with
  | Some lower, Some upper =>
      refuse_if (fgt lower upper)
        (invalid_patch (Msg "position_soft_lower_rad {lower} must not exceed position_soft_upper_rad {upper}"
           [AF64 lower; AF64 upper]))
  | _, _ => Ok tt
  end.

Definition apply_limit_patch_to_motor (m : MotorEntry) (p : LimitPatch) : result ConfigError MotorEntry :=
  validate_limit_patch p ;!
  refuse_if (negb (bool_decide (joint m = pt_joint p)))
    (invalid_patch (Msg "patch for joint {} cannot update motor for {}" [AStr (pt_joint p); AStr (joint m)])) ;!
  let b := bench m in
  Ok (mkMotor (joint m) (driver m) (motor_type m) (can_interface m) (device_id m) (direction m) (gear_ratio m)
        (recv_can_id m) (firmware_version m)
        (mkBench (pt_lower p) (pt_upper p) (velocity_limit_rad_s b) (default (torque_limit_nm b) (pt_torque p)))).

Definition set_limits (e : JointControlEntry) (soft_lower soft_upper velocity : option f64) : JointControlEntry :=
  mkJointControl (jc_motor_type e) (gravity_comp e) (impedance e) (friction e) velocity
    (position_slew_rad_s e) (position_slew_max_lead_rad e) (position_trajectory_threshold_rad e)
    (position_trajectory_velocity_rad_s e) (position_trajectory_accel_rad_s2 e)
    (position_trajectory_velocity_deadband_rad e) (position_hold_trim_rad e) (on_drive_loss e)
    (position_law e) (position_time_scale_e0_rad e) (position_integral_band_rad e)
    (position_integral_leak_s e) (position_integral_mode e) (position_integral_cap_nm e)
    (position_host_damping_nm_s_per_rad e) (position_host_damping_filter_s e) (position_ff_step_max_nm e)
    (position_limit_margin_min_rad e) (position_limit_margin_k_v_s e) (position_limit_margin_k_stop e)
    (position_limit_measured_fault_slack_rad e) soft_lower soft_upper.

(** [.or(configured).map(|x| x.clamp(hard))]. *)
Definition clamp_soft (patched configured : option f64) (lower upper : f64) : result ConfigError (option f64) :=
  match (match patched with Some x => Some x | None => configured end) with
  | Some x => let! y := fclamp x lower upper in Ok (Some y)
  | None => Ok None
  end.

Definition apply_limit_patch_to_control (e : JointControlEntry) (p : LimitPatch)
  : result ConfigError JointControlEntry :=
  validate_limit_patch p ;!
  let! soft_lower := clamp_soft (pt_soft_lower p) (position_soft_lower_rad e) (pt_lower p) (pt_upper p) in
  let! soft_upper := clamp_soft (pt_soft_upper p) (position_soft_upper_rad e) (pt_lower p) (pt_upper p) in
  match soft_lower, soft_upper with
  | Some lower, Some upper =>
      refuse_if (fgt lower upper)
        (invalid_patch (Msg "effective soft lower {lower} must not exceed effective soft upper {upper}"
           [AF64 lower; AF64 upper]))
  | _, _ => Ok tt
  end ;!
  Ok (set_limits e soft_lower soft_upper
        (match pt_velocity p with Some v => Some v | None => velocity_max_rad_s e end)).

(** ** Patch lemmas *)

Lemma validate_patch_range (p : LimitPatch) :
  validate_limit_patch p = Ok tt ->
  is_finite (pt_lower p) = true /\ is_finite (pt_upper p) = true /\ flt (pt_lower p) (pt_upper p) = true.
Proof.
  unfold validate_limit_patch. intros H. do 3 (apply Safety.then_inv in H as [? H]). bsimp.
  split; [assumption|]. split; [assumption|].
  match goal with H : fge _ _ = false |- _ => unfold fge in H end.
  assert (is_nan (pt_lower p) = false) by (by apply finite_not_nan).
  assert (is_nan (pt_upper p) = false) by (by apply finite_not_nan). float_solve.
Qed.

Lemma ensure_soft_inset_kept {E : Type} (p p' : LimitPatch) :
  @ensure_soft_inset E p = Ok p' ->
  pt_joint p' = pt_joint p /\ pt_lower p' = pt_lower p /\ pt_upper p' = pt_upper p /\ pt_torque p' = pt_torque p
  /\ pt_velocity p' = pt_velocity p.
Proof.
  unfold ensure_soft_inset. destruct (soft_limits_with_inset _ _ _) as [[lo hi]| |]; cbn; try discriminate.
  intros [= <-]. auto.
Qed.

Lemma quarter_nonneg (x : f64) : is_finite x = true -> fle x fzero = false ->
  fle fzero (mul64 x (lit64 25 100)) = true.
Proof.
  intros Hf Hp. apply fpos_nonneg, mul64_pos; [|reflexivity..].
  destruct x as [[]|[]| |[]]; try discriminate; reflexivity.
Qed.

Lemma ensure_soft_inset_total {E : Type} (p : LimitPatch) : exists p', @ensure_soft_inset E p = Ok p'.
Proof.
  unfold ensure_soft_inset, soft_limits_with_inset.
  destruct (negb (is_finite _) || _) eqn:Hs; cbn; [eauto|]. bsimp.
  match goal with |- context [fclamp ?x ?lo ?hi] => destruct (@fclamp_ok E x lo hi) as [y ->] end;
    [by apply quarter_nonneg|]. cbn. eauto.
Qed.

Lemma patch_motor_ok (m m' : MotorEntry) (p : LimitPatch) :
  apply_limit_patch_to_motor m p = Ok m' ->
  joint m' = pt_joint p /\ joint m = pt_joint p /\ Bus.address_of_motor m' = Bus.address_of_motor m
  /\ position_lower_rad (bench m') = pt_lower p /\ position_upper_rad (bench m') = pt_upper p
  /\ torque_limit_nm (bench m') = default (torque_limit_nm (bench m)) (pt_torque p).
Proof.
  unfold apply_limit_patch_to_motor. intros H. bind_inv H. bind_inv H. bsimp.
  match goal with H : bool_decide _ = true |- _ => apply bool_decide_eq_true in H as Hj end.
  injection H as <-. cbn. auto 6.
Qed.

End Patch.

Module Envelope.
Import Config Patch Bus Davout Filter Admission Limits Lifecycle Stop Session Grants.

Definition urdf_display (e : UrdfError) : message :=
  match e with
  | Read path m => Msg ("failed to read URDF at {}: " ++ msg_template m) (AStr path :: msg_args m)
  | InvalidLimits j _ => Msg "joint {}: unusable limits: {source}" [AStr j]
  end.

(** The first motor of a joint, replaced ([iter_mut().find(..)]). *)
Fixpoint replace_motor (ms : list MotorEntry) (j : string) (m : MotorEntry) : list MotorEntry :=
  match ms with
  | [] => []
  | x :: rest => if bool_decide (joint x = j) then m :: rest else x :: replace_motor rest j m
  end.

Definition with_joints (js : hmap JointControlEntry) (c : ControlSection) : ControlSection :=
  mkControl (loop_hz c) (chappe_state_hz c) (comm_watchdog_ms c) (feedback_drain_quiet_us c)
    (tau_ff_rate_limit_nm_per_s c) (disable_on_exit c) (active_reporting_diagnostics c)
    (motor_type_defaults c) (actuator_groups c) js (danger_zones c) (wrong_sign_watchdog c) (drive_loss c).

Definition with_profile (ms : list MotorEntry) (c : ControlSection) (l : gmap string JointLimitPolicy)
  (a : Admission.Supervisor) : Admission.Supervisor :=
  mkSupervisor (mode a) (sv_control_mode a) (fault_authority a) l ms (motor_addresses a)
    c (motor_states a) (active_since a) (set_zero_on_wire a) (invalid_feedback a)
    (sv_last_tau_ff a) (total_torque_clamps a) (envelope_clamps a) (sv_wrong_sign_state a)
    (last_tick a) (active_joints a) (unanswered_solicits a) (shed a).

Section Envelope.
Context {B : Type} `{CanBus B} {R : Type} `{ReferenceWork R}.
Variable observed : Observer B R.
Variable fits : RobotSection -> list UrdfJoint -> result message unit.

(** The supervisor and its in-memory URDF model. *)
Abbreviation W := (Sup B R * list UrdfJoint)%type.

Definition with_model (m : Authority.InstalledModelStamp) (i : Installed) : Installed :=
  mkInstalled (robot i) (homing_config i) m (backend_realm i).
Definition set_installed (x : Installed) (s : Sup B R) : Sup B R :=
  mkSup (adm s) x (hardware_estop s) (stop_motors s) (authority s) (physical s) (rwork s) (reporting s)
    (session s) (session_pacer s) (tracking s) (loss s) (exit_reporting_released s) (diag s) (bus s) (hostclock s).

(** [InstalledReferenceModel::replacement]. *)
Definition replacement (fresh : Z) (old : Authority.InstalledModelStamp) (r : RobotSection) (u : list UrdfJoint)
  : result DavoutError Authority.InstalledModelStamp :=
  let! next := ok_or (checked_add_u64 (Authority.stamp_generation old) 1) EInstalledGenerationExhausted in
  map_err EReferenceModel (fits r u) ;!
  Ok (Authority.mkStamp next fresh).

(** The assignments that end both operations. *)
Definition install (model : Authority.InstalledModelStamp) (ms : list MotorEntry) (c : ControlSection)
  (l : gmap string JointLimitPolicy) (s : Sup B R) : Sup B R :=
  let s := set_authority (Authority.revoke (authority s)) s in
  let s := set_installed (with_model model (installed s)) s in
  set_adm (with_profile ms c l (adm s)) s.

(** The candidate configuration of a patch: nothing installed yet. *)
Definition patch_candidate (p : LimitPatch) (s : Sup B R) (u : list UrdfJoint)
  : result DavoutError (LimitPatch * list UrdfJoint * list MotorEntry * ControlSection
                        * gmap string JointLimitPolicy * JointLimitPolicy) :=
  map_err EConfig (validate_limit_patch p) ;!
  let! p := ensure_soft_inset p in
  let! (_, u) := map_err (fun e => ELimit (pt_joint p) (urdf_display e))
                   (expand_urdf_joint_hard u (pt_joint p) (pt_lower p) (pt_upper p)) in
  let! m := ok_or (find_first (fun m => bool_decide (joint m = pt_joint p)) (motors (adm s)))
              (EUnknownJoint (pt_joint p)) in
  let! m := map_err EConfig (apply_limit_patch_to_motor m p) in
  let ms := replace_motor (motors (adm s)) (pt_joint p) m in
  let! e := ok_or (hget (control_joints (sv_control (adm s))) (pt_joint p)) (EUnknownJoint (pt_joint p)) in
  let! e := map_err EConfig (apply_limit_patch_to_control e p) in
  let c := with_joints (hset (control_joints (sv_control (adm s))) (pt_joint p) e) (sv_control (adm s)) in
  map_err EConfig (Validate.validate_control_against_limits (robot (installed s)) ms c) ;!
  let! l := build_limits (robot (installed s)) ms c u in
  let! policy := ok_or (l !! pt_joint p) (EUnknownJoint (pt_joint p)) in
  Ok (p, u, ms, c, l, policy).

(** The measured pose the candidate must contain. *)
Definition measured_position (j : string) (s : Sup B R) : option f64 * Sup B R :=
  match motor_index (adm s) j with
  | None => (None, s)
  | Some i =>
      let '(o, c) := published_state (adm s) i (hostclock s) in
      ((fun st => f64_of_f32 (ms_position_rad st)) <$> o, set_clock c s)
  end.

Definition check_measured (p : LimitPatch) (policy : JointLimitPolicy) (measured : option f64)
  : result DavoutError unit :=
  let! q := ok_or measured (ELimit (pt_joint p)
    (msg "no fresh measured position to check against the proposed limits; poll the drive's status and retry")) in
  refuse_if (flt q (hard_lower policy) || fgt q (hard_upper policy))
    (ELimit (pt_joint p) (Msg "measured position {measured_position} outside proposed hard [{}, {}]"
       [AF64 q; AF64 (hard_lower policy); AF64 (hard_upper policy)])).

Definition apply_limit_patch (fresh : Z) (patch : LimitPatch) (w : W) : result DavoutError unit * W :=
  let '(s, u) := w in
  let '(busy, s) := reference_busy observed s in
  if busy then (Err (EReferenceBusy "apply_limit_patch"), (s, u))
  else if bool_decide (mode (adm s) = Active) then (Err ELimitPatchActive, (s, u))
  else
    let '(_, s) := reference_binding_valid_with observed Judge s in
    match patch_candidate patch s u with
    | Err e => (Err e, (s, u))
    | Panic => (Panic, (s, u))
    | Ok (p, u', ms, c, l, policy) =>
        let '(measured, s) := measured_position (pt_joint p) s in
        match check_measured p policy measured ;! replacement fresh (installed_model (installed s)) (robot (installed s)) u' with
        | Err e => (Err e, (s, u))
        | Panic => (Panic, (s, u))
        | Ok model => (Ok tt, (install model ms c l s, u'))
        end
    end.

Definition restore_limit_snapshot (fresh : Z) (ms : list MotorEntry) (c : ControlSection) (u' : list UrdfJoint)
  (w : W) : result DavoutError unit * W :=
  let '(s, u) := w in
  let '(busy, s) := reference_busy observed s in
  if busy then (Err (EReferenceBusy "model restore"), (s, u))
  else if bool_decide (mode (adm s) = Active) then (Err ELimitPatchActive, (s, u))
  else
    let '(_, s) := reference_binding_valid_with observed Judge s in
    match (map_err EConfig (Validate.validate_safety_config (robot (installed s)) ms c (homing_config (installed s))) ;!
           let! l := build_limits (robot (installed s)) ms c u' in
           let! model := replacement fresh (installed_model (installed s)) (robot (installed s)) u' in
           Ok (l, model)) with
    | Err e => (Err e, (s, u))
    | Panic => (Panic, (s, u))
    | Ok (l, model) => (Ok tt, (install model ms c l s, u'))
    end.


(** ** What an operation leaves alone *)

Record same_config (s s' : Sup B R) : Prop := {
  sc_adm : adm s' = adm s;
  sc_installed : installed s' = installed s;
  sc_bus : bus s' = bus s;
  sc_stop : stop_motors s' = stop_motors s
}.

#[local] Instance same_config_preorder : PreOrder same_config.
Proof. split; [by split|]. intros x y z [] []. split; congruence. Qed.

Lemma busy_same (s : Sup B R) : same_config s (reference_busy observed s).2.
Proof. by split. Qed.

Lemma valid_same (s : Sup B R) :
  Authority.authority_ok (authority s) -> same_config s (reference_binding_valid_with observed Judge s).2.
Proof.
  intros Hok. destruct (reference_valid_spec observed s Hok) as (a & k & Hs).
  destruct (reference_binding_valid_with observed Judge s) as [ok s']. destruct Hs as [-> _]. by split.
Qed.

Lemma measured_same (j : string) (s : Sup B R) : same_config s (measured_position j s).2.
Proof. unfold measured_position. destruct (motor_index _ _); [|done]. destruct (published_state _ _ _). by split. Qed.

(** The pose of a joint's motor in the cache. *)
Definition cached_position (j : string) (s : Sup B R) (q : f64) : Prop :=
  exists i a st, motor_index (adm s) j = Some i /\ configured_address (adm s) i = Some a
    /\ motor_states (adm s) !! a = Some st /\ q = f64_of_f32 (ms_position_rad st).

Lemma measured_cached (j : string) (s : Sup B R) (q : f64) :
  (measured_position j s).1 = Some q -> cached_position j s q.
Proof.
  unfold measured_position, cached_position. destruct (motor_index (adm s) j) as [i|]; [|discriminate].
  unfold published_state. destruct (configured_address (adm s) i) as [a|] eqn:Ea; [|discriminate]. cbn.
  destruct (motor_states (adm s) !! a) as [st|] eqn:Es; [|discriminate]. cbn.
  destruct (_ || _ || _); [discriminate|]. destruct (now (hostclock s)) as [t c].
  intros Hq. exists i, a, st. repeat split; auto.
  destruct (bool_decide (mode (adm s) = Active));
    [destruct (pose_is_current _ _ _ _)|destruct (is_stale _ _ _)]; cbn in Hq; congruence.
Qed.

(** A reference check under a profile that fails [validate_safety_config] answers
    false and leaves no permission. *)
Lemma invalid_profile_refused (lv : Liveness) (s : Sup B R) :
  Validate.validate_safety_config (robot (installed s)) (motors (adm s)) (sv_control (adm s))
    (homing_config (installed s)) <> Ok tt ->
  let '(ok, s') := reference_binding_valid_with observed lv s in ok = false /\ no_permission s'.
Proof.
  intros Hv. unfold reference_binding_valid_with.
  assert (Hr : false = false /\ no_permission (revoke_all (observe_all observed s)))
    by (split; [done|apply no_permission_revoked, revoke_revokes]).
  destruct (_ || _); [exact Hr|].
  cbn [installed adm set_rwork]. destruct (Validate.validate_safety_config _ _ _ _) as [[]| |]; [congruence|exact Hr..].
Qed.

(** ** Candidates *)

Lemma replace_motor_other (ms : list MotorEntry) (j j' : string) (m : MotorEntry) :
  joint m = j -> j' <> j -> motor_for_joint (replace_motor ms j m) j' = motor_for_joint ms j'.
Proof.
  intros Hm Hj. unfold motor_for_joint. induction ms as [|x ms IH]; [reflexivity|]. cbn.
  case_bool_decide as E1; cbn; [|by rewrite IH].
  rewrite !bool_decide_eq_false_2 by congruence. reflexivity.
Qed.

Lemma replace_motor_same (ms : list MotorEntry) (j : string) (m0 m : MotorEntry) :
  find_first (fun m => bool_decide (joint m = j)) ms = Some m0 -> joint m = j ->
  address_of_motor m = address_of_motor m0 ->
  motor_for_joint (replace_motor ms j m) j = Some m
  /\ map address_of_motor (replace_motor ms j m) = map address_of_motor ms.
Proof.
  intros Hf Hm Ha. unfold motor_for_joint. induction ms as [|x ms IH]; [discriminate|]. cbn in *.
  case_bool_decide as E1; cbn.
  - injection Hf as ->. rewrite bool_decide_eq_true_2 by exact Hm. by rewrite Ha.
  - rewrite bool_decide_eq_false_2 by exact E1. destruct (IH Hf) as [-> ->]. done.
Qed.

Lemma hset_other {V : Type} (m : hmap V) (k k' : string) (v : V) : k' <> k -> hget (hset m k v) k' = hget m k'.
Proof.
  intros Hk. induction m as [|[x w] m IH]; [reflexivity|]. cbn. case_bool_decide; cbn; [|by rewrite IH].
  subst. by rewrite !bool_decide_eq_false_2 by congruence.
Qed.

Lemma validated_soft (r : RobotSection) (ms : list MotorEntry) (c : ControlSection) :
  Validate.validate_control_against_limits r ms c = Ok tt -> soft_config_ok c.
Proof.
  unfold Validate.validate_control_against_limits, Validate.validate_control_config. intros Hv.
  apply Safety.then_inv in Hv as [_ Hv]. apply Safety.then_inv in Hv as [Hc _].
  apply Safety.then_inv in Hc as [_ Hc]. apply Safety.then_inv in Hc as [Hc _]. rewrite try_for_each_ok in Hc.
  intros j e He. exact (Safety.validate_control_joint_inv j e (Hc _ (Safety.hget_in _ _ _ He))).
Qed.

(** What a candidate is: validated, its limits built from it, its joint within the
    requested range, every other joint untouched. *)
Record candidate_ok (p : LimitPatch) (s : Sup B R) (u u' : list UrdfJoint) (ms : list MotorEntry)
  (c : ControlSection) (l : gmap string JointLimitPolicy) (policy : JointLimitPolicy) : Prop := {
  co_valid : Validate.validate_control_against_limits (robot (installed s)) ms c = Ok tt;
  co_built : build_limits (robot (installed s)) ms c u' = Ok l;
  co_policy : l !! pt_joint p = Some policy;
  co_wf : map_Forall (fun _ q => bounds_wf (bounds q)) l;
  co_range : fle (pt_lower p) (hard_lower policy) = true /\ fle (hard_upper policy) (pt_upper p) = true;
  co_torque : forall t, pt_torque p = Some t ->
    exists m, motor_for_joint ms (pt_joint p) = Some m /\ torque_limit_nm (bench m) = t;
  co_drives : map address_of_motor ms = map address_of_motor (motors (adm s));
  co_others : forall j, j <> pt_joint p ->
    motor_for_joint ms j = motor_for_joint (motors (adm s)) j
    /\ hget (control_joints c) j = hget (control_joints (sv_control (adm s))) j
    /\ find_joint u' j = find_joint u j
}.

Lemma candidate_spec (p p' : LimitPatch) (s : Sup B R) (u u' : list UrdfJoint) ms c l policy :
  patch_candidate p s u = Ok (p', u', ms, c, l, policy) ->
  pt_joint p' = pt_joint p /\ candidate_ok p s u u' ms c l policy.
Proof.
  unfold patch_candidate. intros Hc. bind_inv Hc. destruct x. apply map_err_inv in E.
  destruct (validate_patch_range p E) as (F1 & F2 & Hlt).
  bind_inv Hc. destruct (ensure_soft_inset_kept _ _ E0) as (J & L & U & T & _).
  bind_inv Hc. destruct x0 as [ch u1]. apply map_err_inv in E1. cbv zeta in Hc.
  bind_inv Hc. rename x0 into m0, E2 into Hm0. apply ok_or_ok in Hm0.
  bind_inv Hc. rename x0 into m1, E2 into Hm1. apply map_err_inv in Hm1.
  bind_inv Hc. bind_inv Hc. bind_inv Hc. destruct x2. apply map_err_inv in E4.
  bind_inv Hc. bind_inv Hc. apply ok_or_ok in E6. injection Hc as <- <- <- <- <- <-.
  split; [exact J|].
  destruct (patch_motor_ok _ _ _ Hm1) as (A1 & A2 & A3 & A4 & A5 & A6).
  destruct (replace_motor_same _ _ _ _ Hm0 A1 A3) as [R1 R2].
  rewrite J in *. destruct (expand_only_widens _ _ _ _ _ _ E1) as (_ & Hou & _).
  pose proof (validated_soft _ _ _ E4) as Hs.
  assert (Hall : map_Forall (fun j q => bounds_wf (bounds q) /\ (j = pt_joint p ->
      fle (pt_lower p) (hard_lower q) = true /\ fle (hard_upper q) (pt_upper p) = true)) x2).
  { refine (proj1 (build_limits_from_ok _ _ _ _ _ _ _ _ _ (map_Forall_empty _) E5)).
    intros j q Hq. destruct (build_joint_limits_ok _ _ _ _ _ _ Hs Hq) as (m & ul & Hm & _ & Bp).
    split; [exact (bp_bounds _ _ _ _ Bp)|]. intros ->. rewrite R1 in Hm. injection Hm as <-.
    pose proof (proj2 (bp_lower _ _ _ _ Bp)) as Bl. pose proof (proj2 (bp_upper _ _ _ _ Bp)) as Bu.
    rewrite A4, L in Bl. rewrite A5, U in Bu. split; [apply Bl|apply Bu]; by apply finite_not_nan. }
  split; auto.
  - intros j q Hq. exact (proj1 (Hall j q Hq)).
  - exact (proj2 (Hall _ _ E6) eq_refl).
  - intros t Ht. exists m1. split; [exact R1|]. by rewrite A6, T, Ht.
  - intros j Hj. split; [by apply replace_motor_other|]. split; [|by apply Hou]. cbn. by apply hset_other.
Qed.

Lemma replacement_next (fresh : Z) (old m : Authority.InstalledModelStamp) (r : RobotSection) (u : list UrdfJoint) :
  replacement fresh old r u = Ok m ->
  Authority.stamp_generation m = Authority.stamp_generation old + 1 /\ Authority.descriptor m = fresh.
Proof.
  unfold replacement. intros Hr. bind_inv Hr. bind_inv Hr. injection Hr as <-. apply ok_or_ok in E.
  unfold checked_add_u64 in E. destruct (_ <=? _); [|discriminate]. injection E as <-. auto.
Qed.

Lemma install_spec (m : Authority.InstalledModelStamp) ms c l (s : Sup B R) :
  let s' := install m ms c l s in
  no_permission s' /\ adm s' = with_profile ms c l (adm s) /\ installed s' = with_model m (installed s)
  /\ bus s' = bus s /\ stop_motors s' = stop_motors s.
Proof. cbv zeta. split; [|done]. apply no_permission_revoked. cbn. apply revoke_revokes. Qed.

(** A new profile in force: not from Active, every permission gone, the model one
    generation on, nothing written to the bus. *)
Record installed_profile (fresh : Z) (s s' : Sup B R) : Prop := {
  ip_mode : mode (adm s) <> Active;
  ip_permission : no_permission s';
  ip_generation : Authority.stamp_generation (installed_model (installed s'))
                  = Authority.stamp_generation (installed_model (installed s)) + 1;
  ip_stamp : Authority.descriptor (installed_model (installed s')) = fresh;
  ip_adm : adm s' = with_profile (motors (adm s')) (sv_control (adm s')) (sv_limits (adm s')) (adm s);
  ip_bus : bus s' = bus s;
  ip_stop : stop_motors s' = stop_motors s
}.

Lemma install_profile (fresh : Z) (m : Authority.InstalledModelStamp) ms c l (u : list UrdfJoint) (s s0 : Sup B R) :
  same_config s s0 -> mode (adm s) <> Active ->
  replacement fresh (installed_model (installed s0)) (robot (installed s0)) u = Ok m ->
  installed_profile fresh s (install m ms c l s0).
Proof.
  intros [A I Bu St] Hm Hr. destruct (replacement_next _ _ _ _ _ Hr) as [G1 G2].
  destruct (install_spec m ms c l s0) as (I1 & _). rewrite I in G1.
  split; [exact Hm|exact I1|exact G1|exact G2| |exact Bu|exact St]. cbn. by rewrite A.
Qed.

Lemma limit_patch_spec (fresh : Z) (p : LimitPatch) (s : Sup B R) (u : list UrdfJoint) :
  Authority.authority_ok (authority s) ->
  let '(r, (s', u')) := apply_limit_patch fresh p (s, u) in
  match r with
  | Ok _ =>
      installed_profile fresh s s'
      /\ robot (installed s') = robot (installed s) /\ homing_config (installed s') = homing_config (installed s)
      /\ exists policy q,
           candidate_ok p s u u' (motors (adm s')) (sv_control (adm s')) (sv_limits (adm s')) policy
           /\ cached_position (pt_joint p) s q
           /\ flt q (hard_lower policy) = false /\ fgt q (hard_upper policy) = false
  | _ => same_config s s' /\ u' = u
  end.
Proof.
  intros Hok. unfold apply_limit_patch.
  pose proof (busy_same s) as H1.
  assert (Ha1 : authority (reference_busy observed s).2 = authority s) by reflexivity.
  destruct (reference_busy observed s) as [busy s1]. cbn [snd] in H1, Ha1. destruct busy; [auto|].
  case_bool_decide as Hm; [auto|]. rewrite (sc_adm _ _ H1) in Hm.
  rewrite <- Ha1 in Hok. pose proof (valid_same s1 Hok) as H2.
  destruct (reference_binding_valid_with observed Judge s1) as [v s2]. cbn [snd] in H2.
  assert (H12 : same_config s s2) by (etrans; eassumption).
  destruct (patch_candidate p s2 u) as [[[[[[p' u'] ms] c] l] policy]|e|] eqn:Ec; [|auto|auto].
  destruct (candidate_spec _ _ _ _ _ _ _ _ _ Ec) as [Hj Co].
  pose proof (measured_same (pt_joint p') s2) as H3. pose proof (measured_cached (pt_joint p') s2) as Hc.
  destruct (measured_position (pt_joint p') s2) as [measured s3]. cbn [fst snd] in H3, Hc.
  assert (H13 : same_config s s3) by (etrans; eassumption).
  destruct (check_measured p' policy measured ;! _) as [model|e|] eqn:Er; [|auto|auto].
  bind_inv Er. unfold check_measured in E. bind_inv E. apply ok_or_ok in E0. subst measured. bsimp.
  split; [by eapply install_profile|]. cbn. rewrite (sc_installed _ _ H13). do 2 (split; [done|]).
  exists policy, x0. cbn. split; [|split; [|auto]].
  - destruct Co. rewrite (sc_adm _ _ H12), (sc_installed _ _ H12) in *. by split.
  - rewrite <- Hj. specialize (Hc x0 eq_refl). unfold cached_position in *. by rewrite (sc_adm _ _ H12) in Hc.
Qed.

(** C23: a limit patch installs a checked envelope or nothing.  When it succeeds the
    supervisor was not Active and no joint is permitted any more; the installed
    limits are the ones built from a validated configuration, all well formed; the
    patched joint's hard range lies inside the requested one and contains the cached
    measured pose; every other joint keeps its motor, control and URDF entries, and
    the drives are the same.  Otherwise configuration, limits, model and URDF are
    as before.  In no case is anything written to the bus. *)
Theorem limit_patch_contract (fresh : Z) (p : LimitPatch) (s : Sup B R) (u : list UrdfJoint) :
  Authority.authority_ok (authority s) ->
  let '(r, (s', u')) := apply_limit_patch fresh p (s, u) in
  match r with
  | Ok _ =>
      installed_profile fresh s s'
      /\ exists policy q,
           candidate_ok p s u u' (motors (adm s')) (sv_control (adm s')) (sv_limits (adm s')) policy
           /\ cached_position (pt_joint p) s q
           /\ flt q (hard_lower policy) = false /\ fgt q (hard_upper policy) = false
  | _ => same_config s s' /\ u' = u
  end.
Proof.
  intros Hok. pose proof (limit_patch_spec fresh p s u Hok) as Hc.
  destruct (apply_limit_patch fresh p (s, u)) as [[[]|x|] [s' u']]; [|exact Hc..]. by destruct Hc as (Hi & _ & _ & Hx).
Qed.

Lemma patched_config (fresh : Z) (p : LimitPatch) (s s' : Sup B R) (u u' : list UrdfJoint) :
  Authority.authority_ok (authority s) -> apply_limit_patch fresh p (s, u) = (Ok tt, (s', u')) ->
  robot (installed s') = robot (installed s) /\ homing_config (installed s') = homing_config (installed s)
  /\ exists policy, candidate_ok p s u u' (motors (adm s')) (sv_control (adm s')) (sv_limits (adm s')) policy.
Proof.
  intros Hok Hp. pose proof (limit_patch_spec fresh p s u Hok) as Hc. rewrite Hp in Hc.
  destruct Hc as (_ & H1 & H2 & policy & q & Hx & _). eauto.
Qed.

(** A torque limit below the search torque of a Hall-homed joint fails validation. *)
Lemma search_torque_checked (r : RobotSection) ms c (h : HomingSection) j m e :
  j ∈ robot_joints r -> motor_for_joint ms j = Some m -> effective_joint_ref h j = Some e ->
  e_method e = HallThreeSensor -> fgt (e_search_torque_nm e) (torque_limit_nm (bench m)) = true ->
  Validate.validate_safety_config r ms c h <> Ok tt.
Proof.
  intros Hj Hm He Hall Ht Hv. unfold Validate.validate_safety_config in Hv.
  apply Safety.then_inv in Hv as [_ Hv]. apply Safety.then_inv in Hv as [_ Hv]. rewrite try_for_each_ok in Hv.
  specialize (Hv j ltac:(by apply list_elem_of_In)). unfold Validate.validate_homing_against_motor in Hv.
  rewrite He, Hm in Hv. cbn [ok_or rbind] in Hv. rewrite bool_decide_eq_true_2 in Hv by exact Hall. cbn [negb] in Hv.
  bind_inv Hv. apply Safety.then_inv in Hv as [_ Hv]. bind_inv Hv. cbv zeta in Hv. bsimp.
  set (t := torque_limit_nm (bench m)) in *.
  assert (Hn : is_nan t = false) by (unfold fgt in Ht; float_solve).
  assert (Hle : fle (fmin (fmin (bench_max_joint_torque_nm r) t) (tau_ff_max_nm x0)) t = true).
  { apply (fle_trans _ (fmin (bench_max_joint_torque_nm r) t)).
    - apply fmin_le_l. destruct (fmin_or (bench_max_joint_torque_nm r) t) as [E1|E1]; [|by rewrite E1].
      unfold fmin in *. destruct (is_nan (bench_max_joint_torque_nm r)) eqn:Eb; [done|]. rewrite Hn in *. by destruct (flt _ _).
    - unfold fmin. destruct (is_nan (bench_max_joint_torque_nm r)) eqn:Eb; [by apply fle_refl|]. rewrite Hn.
      destruct (flt t (bench_max_joint_torque_nm r)) eqn:El; [by apply fle_refl|float_solve]. }
  match goal with Hx : fgt _ _ = false |- _ => revert Hx end.
  generalize dependent (fmin (fmin (bench_max_joint_torque_nm r) t) (tau_ff_max_nm x0)). unfold fgt in *. intros cap Hle Hx. float_solve.
Qed.

(** Where [s] has the configuration of [s']. *)
Definition same_profile (s s' : Sup B R) : Prop :=
  robot (installed s) = robot (installed s') /\ homing_config (installed s) = homing_config (installed s')
  /\ motors (adm s) = motors (adm s') /\ sv_control (adm s) = sv_control (adm s').

(** C40: a patch is not checked against homing.  Whenever a limit patch that gives a
    Hall-homed joint a torque limit below its homing search torque is accepted, the
    profile it installs fails [validate_safety_config], which every reference check
    requires: under that profile each later check, whatever the rest of the
    supervisor's state, answers false and leaves no joint permitted.  (The witness
    shows a valid profile on which such a patch is accepted.) *)
Theorem patch_skips_homing_check (fresh : Z) (p : LimitPatch) (t : f64) (e : EffectiveHomingJoint)
  (s s' : Sup B R) (u u' : list UrdfJoint) :
  Authority.authority_ok (authority s) ->
  apply_limit_patch fresh p (s, u) = (Ok tt, (s', u')) ->
  pt_torque p = Some t -> pt_joint p ∈ robot_joints (robot (installed s)) ->
  effective_joint_ref (homing_config (installed s)) (pt_joint p) = Some e ->
  e_method e = HallThreeSensor -> fgt (e_search_torque_nm e) t = true ->
  Validate.validate_safety_config (robot (installed s')) (motors (adm s')) (sv_control (adm s'))
    (homing_config (installed s')) <> Ok tt
  /\ forall lv s2, same_profile s2 s' ->
       let '(ok, s3) := reference_binding_valid_with observed lv s2 in ok = false /\ no_permission s3.
Proof.
  intros Hok Hp Ht Hj He Hall Hgt.
  assert (Hv : Validate.validate_safety_config (robot (installed s')) (motors (adm s')) (sv_control (adm s'))
    (homing_config (installed s')) <> Ok tt).
  { destruct (patched_config fresh p s s' u u' Hok Hp) as (-> & -> & policy & Co).
    destruct (co_torque _ _ _ _ _ _ _ _ Co t Ht) as (m & Hm & Hmt). subst t.
    by eapply search_torque_checked. }
  split; [exact Hv|]. intros lv s2 (E1 & E2 & E3 & E4). apply invalid_profile_refused. by rewrite E1, E2, E3, E4.
Qed.

(** restoring a snapshot installs exactly the given, fully validated profile, with
    limits built from it and no permission left, or changes nothing. *)
Theorem restore_contract (fresh : Z) ms c (u u1 : list UrdfJoint) (s : Sup B R) :
  Authority.authority_ok (authority s) ->
  let '(r, (s', u')) := restore_limit_snapshot fresh ms c u1 (s, u) in
  match r with
  | Ok _ =>
      installed_profile fresh s s' /\ u' = u1 /\ motors (adm s') = ms /\ sv_control (adm s') = c
      /\ Validate.validate_safety_config (robot (installed s)) ms c (homing_config (installed s)) = Ok tt
      /\ build_limits (robot (installed s)) ms c u1 = Ok (sv_limits (adm s'))
  | _ => same_config s s' /\ u' = u
  end.
Proof.
  intros Hok. unfold restore_limit_snapshot.
  pose proof (busy_same s) as H1.
  assert (Ha1 : authority (reference_busy observed s).2 = authority s) by reflexivity.
  destruct (reference_busy observed s) as [busy s1]. cbn [snd] in H1, Ha1. destruct busy; [auto|].
  case_bool_decide as Hm; [auto|]. rewrite (sc_adm _ _ H1) in Hm.
  rewrite <- Ha1 in Hok. pose proof (valid_same s1 Hok) as H2.
  destruct (reference_binding_valid_with observed Judge s1) as [v s2]. cbn [snd] in H2.
  assert (H12 : same_config s s2) by (etrans; eassumption).
  match goal with |- context [match ?r with Ok _ => _ | Err _ => _ | Panic => _ end] =>
    destruct r as [[l model]|e|] eqn:Er end; [|auto|auto].
  bind_inv Er. bind_inv Er. bind_inv Er. injection Er as -> ->. apply map_err_inv in E. destruct x.
  split; [by eapply install_profile|]. rewrite (sc_installed _ _ H12) in *. cbn. auto.
Qed.

End Envelope.

(** ** The disabled bench session, patched *)

Definition idle_sup (h : HomingSection) : Sup (Reporting.Spy MemoryBus) unit :=
  set_installed (mkInstalled bench_robot h (Authority.mkStamp 1 3) (Some 7))
    (set_adm (stopped (adm bench_sup)) bench_sup).

Definition any_size (_ : RobotSection) (_ : list UrdfJoint) : result message unit := Ok tt.

(** Widen the upper limit beyond the URDF's, and cap the torque at half a newton metre. *)
Definition wide_patch : LimitPatch :=
  mkPatch "right_shoulder_pitch" (lit64 (-8) 10) (lit64 22 10) (Some (lit64 5 10)) None None None.

Abbreviation patched h :=
  (apply_limit_patch nothing_observed any_size 9 wide_patch (idle_sup h, bench_urdf (f64_of_Z 10))).

Definition manual_homing : HomingSection := Authority.demo_homing (lit64 1 100).

Lemma idle_authority_ok (h : HomingSection) : Authority.authority_ok (authority (idle_sup h)).
Proof. apply Authority.initial_virtual_ok. Qed.

Lemma limit_patch_contract_witness :
  (patched manual_homing).1 = Ok tt
  /\ installed_profile 9 (idle_sup manual_homing) (patched manual_homing).2.1.
Proof.
  assert (Hr : (patched manual_homing).1 = Ok tt) by (vm_compute; reflexivity). split; [exact Hr|].
  pose proof (limit_patch_contract nothing_observed any_size 9 wide_patch (idle_sup manual_homing)
    (bench_urdf (f64_of_Z 10)) (idle_authority_ok manual_homing)) as Hc.
  revert Hr Hc. generalize (patched manual_homing). intros [r [s' u']] Hr Hc. cbn [fst snd] in *. subst r.
  exact (proj1 Hc).
Defined.

Abbreviation restored :=
  (restore_limit_snapshot nothing_observed any_size 9 [bench_motor] bench_control (bench_urdf (f64_of_Z 8))
    (idle_sup manual_homing, bench_urdf (f64_of_Z 10))).

Lemma restore_contract_witness :
  restored.1 = Ok tt /\ restored.2.2 = bench_urdf (f64_of_Z 8) /\ no_permission restored.2.1.
Proof.
  assert (Hr : restored.1 = Ok tt) by (vm_compute; reflexivity). split; [exact Hr|].
  pose proof (restore_contract nothing_observed any_size 9 [bench_motor] bench_control (bench_urdf (f64_of_Z 10))
    (bench_urdf (f64_of_Z 8)) (idle_sup manual_homing) (idle_authority_ok manual_homing)) as Hc.
  revert Hr Hc. generalize restored. intros [r [s' u']] Hr Hc. cbn [fst snd] in *. subst r.
  destruct Hc as (Hp & -> & _). split; [reflexivity|exact (ip_permission _ _ _ Hp)].
Defined.

(** The same joint homed on Hall sensors with a search torque of one newton metre. *)
Definition hall_homing : HomingSection :=
  mkHoming (lit64 1 100) "calibration.json"
    (mkHomingDefaults fzero Positive (lit64 1 10) (f64_of_Z 1) (f64_of_Z 10) (lit64 1 10) true false)
    [("right_shoulder_pitch"%string,
      mkHomingJoint HallThreeSensor None None None None None None None None
        (Some (mkSensors (mkSensor 4 true) (mkSensor 5 true) (mkSensor 6 true))))].

Lemma patch_skips_homing_check_witness :
  Validate.validate_safety_config bench_robot [bench_motor] bench_control hall_homing = Ok tt
  /\ (patched hall_homing).1 = Ok tt
  /\ let s' := (patched hall_homing).2.1 in
     Validate.validate_safety_config (robot (installed s')) (motors (adm s')) (sv_control (adm s'))
       (homing_config (installed s')) <> Ok tt
     /\ forall a, (reference_binding_valid_with nothing_observed Judge (set_authority a s')).1 = false.
Proof.
  split; [vm_compute; reflexivity|].
  assert (Hr : (patched hall_homing).1 = Ok tt) by (vm_compute; reflexivity). split; [exact Hr|].
  destruct (effective_joint_ref hall_homing "right_shoulder_pitch") as [e|] eqn:Ee; [|vm_compute in Ee; discriminate].
  destruct (patched hall_homing) as [r [s' u']] eqn:Ep. cbn [fst snd] in *. subst r.
  destruct (patch_skips_homing_check nothing_observed any_size 9 wide_patch (lit64 5 10) e (idle_sup hall_homing) s' (bench_urdf (f64_of_Z 10)) u' (idle_authority_ok hall_homing) Ep eq_refl) as [Hv Hf].
  - left.
  - exact Ee.
  - vm_compute in Ee. by injection Ee as <-.
  - vm_compute in Ee. injection Ee as <-. vm_compute. reflexivity.
  - split; [exact Hv|]. intros a. specialize (Hf Judge (set_authority a s') (conj eq_refl (conj eq_refl (conj eq_refl eq_refl)))).
    clear Ep. destruct (reference_binding_valid_with _ _ _) as [ok s3]. apply Hf.
Defined.

End Envelope.
