(* ===== verification/Journal.v ===== *)
(** * Journal: the bounded queue between the reference owner and its writer

    The queue half of [src/crates/davout/src/reference_journal.rs].  The owner
    submits jobs and takes their answers; one worker thread writes them.  Both
    sides touch one [State] behind a mutex, so every operation below is one
    critical section and the two sides interleave freely between them.

    [Pc] is where the worker thread stands, with the job it holds; a panic of
    the worker ([catch_unwind]) sends it down the unwinding path.  What the
    database did is the answer of [w_complete], bounded by how far the job got.
    The lock is never poisoned: no critical section panics. *)

From Stdlib Require Import ZArith Lia Bool.
From stdpp Require Import base gmap strings list relations.
From S2P Require Import Prelude Faults.

Module Journal.
Import Faults.

Definition CREDIT_CAPACITY : nat := 8.

Inductive ReferenceJournalResult : Type :=
| JPending
| DurableHistory (diagnostic_session job_sequence : Z) (checksum : list Z)
| JFailed (message : string)
| Uncertain (message : string).

Record JobIdentity : Type := mkJobId { nonce : Z; j_sequence : Z }.

#[export] Instance JobIdentity_eq_dec : EqDecision JobIdentity.
Proof. solve_decision. Defined.

(** [sequence == other.sequence && Arc::ptr_eq]. *)
Definition matches (a b : JobIdentity) : bool :=
  (j_sequence a =? j_sequence b) && (nonce a =? nonce b).

Inductive Progress : Type := Opening | Encoding | Writing | CommitAttempted | Committed.

Definition rank (p : Progress) : nat :=
  match p with Opening => 0 | Encoding => 1 | Writing => 2 | CommitAttempted => 3 | Committed => 4 end.

(** [progress >= Progress::Writing] *)
Definition at_least (p q : Progress) : bool := (rank q <=? rank p)%nat.

Section Journal.
Context {I : Type}.

Record Job : Type := mkJob { identity : JobIdentity; input : I }.
Record Completed : Type := mkCompleted { c_identity : JobIdentity; c_result : ReferenceJournalResult }.
Record Flight : Type := mkFlight { f_identity : JobIdentity; progress : Progress }.

Record State : Type := mkState {
  closed : bool;
  queued : list Job;
  flight : option Flight;
  completed : list Completed;
  credits : nat;
  durable : Z;
  failed : Z;
  uncertain : Z;
  finished : bool;
  worker_error : option string
}.

Definition state_default : State := mkState false [] None [] 0 0 0 0 false None.

(** ** The owner's side *)

Definition admission_closed (st : State) : bool :=
  closed st || finished st || bool_decide (is_Some (worker_error st)).

Definition submit (id : JobIdentity) (x : I) (st : State) : result string unit * State :=
  if admission_closed st then (Err (bounded_message "journal admission closed"), st)
  else if (credits st =? CREDIT_CAPACITY)%nat then
    (Err (bounded_message "journal completion credits full"), st)
  else
    (Ok tt, mkState (closed st) (queued st ++ [mkJob id x]) (flight st) (completed st) (S (credits st))
              (durable st) (failed st) (uncertain st) (finished st) (worker_error st)).

Definition has_credit (st : State) : result string bool :=
  if admission_closed st then Err (bounded_message "journal admission closed")
  else Ok (credits st <? CREDIT_CAPACITY)%nat.

(** [position] then [remove]: the first match and what is left. *)
Fixpoint remove_matching (id : JobIdentity) (l : list Completed) : option (Completed * list Completed) :=
  match l with
  | [] => None
  | x :: rest =>
      if matches (c_identity x) id then Some (x, rest)
      else '(y, rest) ← remove_matching id rest; Some (y, x :: rest)
  end.

Definition take_matching (id : JobIdentity) (st : State) : option Completed * State :=
  match remove_matching id (completed st) with
  | None => (None, st)
  | Some (x, rest) =>
      (Some x, mkState (closed st) (queued st) (flight st) rest (credits st - 1)
                 (durable st) (failed st) (uncertain st) (finished st) (worker_error st))
  end.

Definition close (st : State) : State :=
  mkState true (queued st) (flight st) (completed st) (credits st) (durable st) (failed st)
    (uncertain st) (finished st) (worker_error st).

(** ** What both sides share *)

Definition set_progress (p : Progress) (st : State) : State :=
  mkState (closed st) (queued st) ((fun f => mkFlight (f_identity f) p) <$> flight st) (completed st)
    (credits st) (durable st) (failed st) (uncertain st) (finished st) (worker_error st).

Definition complete (id : JobIdentity) (r : ReferenceJournalResult) (st : State) : State :=
  mkState (closed st) (queued st) None (completed st ++ [mkCompleted id r]) (credits st)
    (match r with DurableHistory _ _ _ => sat_add_u64 (durable st) 1 | _ => durable st end)
    (match r with JFailed _ => sat_add_u64 (failed st) 1 | _ => failed st end)
    (match r with Uncertain _ => sat_add_u64 (uncertain st) 1 | _ => uncertain st end)
    (finished st) (worker_error st).

(** What [wait_until] reports when it gives up waiting, or the worker has been joined. *)
Record ReferenceJournalDrain : Type := mkDrain {
  dr_admission_closed : bool;
  dr_queued : nat;
  dr_in_flight : bool;
  dr_completed_unconsumed : nat;
  dr_accepted_credits : nat;
  dr_durable_writes : Z;
  dr_failed_writes : Z;
  dr_uncertain_writes : Z;
  dr_worker_terminated : bool;
  dr_worker_error : option string
}.

Definition absent : ReferenceJournalDrain := mkDrain true 0 false 0 0 0 0 0 true None.

Definition drain_report (terminated : bool) (st : State) : ReferenceJournalDrain :=
  mkDrain (closed st) (length (queued st)) (bool_decide (is_Some (flight st))) (length (completed st))
    (credits st) (durable st) (failed st) (uncertain st) terminated (worker_error st).

Definition drain_complete (d : ReferenceJournalDrain) : bool :=
  dr_worker_terminated d && (dr_queued d =? 0)%nat && negb (dr_in_flight d)
  && (dr_completed_unconsumed d =? 0)%nat && (dr_accepted_credits d =? 0)%nat.

(** ** The worker thread *)

Inductive Pc : Type :=
| Waiting
| Processing (j : Job)
| UnwindFlight (id : JobIdentity) (p : Progress)
| UnwindQueue
| UnwindJob (id : JobIdentity)
| Exiting
| Gone.

(** [queued.pop_front()] and [flight = Some(..)] under one lock. *)
Definition worker_pop (j : Job) (rest : list Job) (st : State) : State :=
  mkState (closed st) rest (Some (mkFlight (identity j) Opening)) (completed st) (credits st)
    (durable st) (failed st) (uncertain st) (finished st) (worker_error st).

Definition worker_unwind (st : State) : State :=
  mkState true (queued st) None (completed st) (credits st) (durable st) (failed st) (uncertain st)
    (finished st) (Some "reference journal worker unwound"%string).

Definition unwind_pop (rest : list Job) (st : State) : State :=
  mkState (closed st) rest (flight st) (completed st) (credits st) (durable st) (failed st)
    (uncertain st) (finished st) (worker_error st).

Definition worker_finish (st : State) : State :=
  mkState (closed st) (queued st) (flight st) (completed st) (credits st) (durable st) (failed st)
    (uncertain st) true (worker_error st).

Definition unwind_flight_result (p : Progress) : ReferenceJournalResult :=
  if at_least p Writing then Uncertain "worker unwound during/after transaction"
  else JFailed "worker unwound before event transaction".

Definition unwind_queue_result : ReferenceJournalResult := JFailed "worker terminated before queued event".

(** The answers a job may get once it has got as far as [p] ([append]). *)
Definition answers_at (p : Progress) (r : ReferenceJournalResult) : Prop :=
  match r with
  | JPending => False
  | DurableHistory _ _ _ => p = Committed
  | JFailed _ => (rank p <= rank Writing)%nat
  | Uncertain _ => (rank Writing <= rank p)%nat
  end.

Record System : Type := mkSystem { st : State; pc : Pc }.

(** One critical section of the worker. *)
Inductive worker_step : System -> System -> Prop :=
| w_take (s : State) (j : Job) (rest : list Job) :
    queued s = j :: rest ->
    worker_step (mkSystem s Waiting) (mkSystem (worker_pop j rest s) (Processing j))
| w_exit (s : State) :
    queued s = [] -> closed s = true -> worker_step (mkSystem s Waiting) (mkSystem s Exiting)
| w_progress (s : State) (j : Job) (f : Flight) (p : Progress) :
    flight s = Some f -> (rank (progress f) < rank p)%nat ->
    worker_step (mkSystem s (Processing j)) (mkSystem (set_progress p s) (Processing j))
| w_complete (s : State) (j : Job) (f : Flight) (r : ReferenceJournalResult) :
    flight s = Some f -> answers_at (progress f) r ->
    worker_step (mkSystem s (Processing j)) (mkSystem (complete (identity j) r s) Waiting)
| w_unwind (s : State) (j : Job) (f : Flight) :
    flight s = Some f ->
    worker_step (mkSystem s (Processing j))
      (mkSystem (worker_unwind s) (UnwindFlight (f_identity f) (progress f)))
| w_unwind_idle (s : State) :
    flight s = None -> worker_step (mkSystem s Waiting) (mkSystem (worker_unwind s) UnwindQueue)
| w_unwind_answer (s : State) (id : JobIdentity) (p : Progress) :
    worker_step (mkSystem s (UnwindFlight id p))
      (mkSystem (complete id (unwind_flight_result p) s) UnwindQueue)
| w_unwind_pop (s : State) (j : Job) (rest : list Job) :
    queued s = j :: rest ->
    worker_step (mkSystem s UnwindQueue) (mkSystem (unwind_pop rest s) (UnwindJob (identity j)))
| w_unwind_job (s : State) (id : JobIdentity) :
    worker_step (mkSystem s (UnwindJob id)) (mkSystem (complete id unwind_queue_result s) UnwindQueue)
| w_unwind_done (s : State) :
    queued s = [] -> worker_step (mkSystem s UnwindQueue) (mkSystem s Exiting)
| w_finish (s : State) : worker_step (mkSystem s Exiting) (mkSystem (worker_finish s) Gone).

(** What the owner saw, in order. *)
Inductive Event : Type :=
| Accepted (id : JobIdentity)
| Refused (id : JobIdentity)
| Taken (c : Completed)
| Closed.

(** One critical section of the owner. *)
Inductive owner_step : System -> Event -> System -> Prop :=
| o_submit (s s' : State) (q : Pc) (id : JobIdentity) (x : I) :
    submit id x s = (Ok tt, s') -> owner_step (mkSystem s q) (Accepted id) (mkSystem s' q)
| o_refused (s s' : State) (q : Pc) (id : JobIdentity) (x : I) (e : string) :
    submit id x s = (Err e, s') -> owner_step (mkSystem s q) (Refused id) (mkSystem s' q)
| o_take (s s' : State) (q : Pc) (id : JobIdentity) (c : Completed) :
    take_matching id s = (Some c, s') -> owner_step (mkSystem s q) (Taken c) (mkSystem s' q)
| o_close (s : State) (q : Pc) : owner_step (mkSystem s q) Closed (mkSystem (close s) q).

(** Any interleaving, with the owner's trace. *)
Inductive runs : list Event -> System -> Prop :=
| runs_spawn : runs [] (mkSystem state_default Waiting)
| runs_worker (tr : list Event) (s s' : System) : runs tr s -> worker_step s s' -> runs tr s'
| runs_owner (tr : list Event) (s s' : System) (e : Event) :
    runs tr s -> owner_step s e s' -> runs (tr ++ [e]) s'.

(** The job the worker holds outside the queues. *)
Definition held (q : Pc) : list JobIdentity :=
  match q with
  | Processing j => [identity j]
  | UnwindFlight id _ | UnwindJob id => [id]
  | _ => []
  end.

(** Every job accepted and not yet answered to the owner. *)
Definition outstanding (s : System) : list JobIdentity :=
  (identity <$> queued (st s)) ++ held (pc s) ++ (c_identity <$> completed (st s)).

Definition accepted (tr : list Event) : list JobIdentity :=
  omap (fun e => match e with Accepted id => Some id | _ => None end) tr.
Definition answered (tr : list Event) : list JobIdentity :=
  omap (fun e => match e with Taken c => Some (c_identity c) | _ => None end) tr.

End Journal.
Arguments Job : clear implicits.
Arguments State : clear implicits.
Arguments Pc : clear implicits.
Arguments System : clear implicits.

(** ** Invariant *)

Section Proofs.
Context {I : Type}.

(** Where the worker stands agrees with the shared state. *)
Definition pc_ok (s : System I) : Prop :=
  match pc s with
  | Waiting => flight (st s) = None /\ finished (st s) = false
  | Processing j => finished (st s) = false /\ exists p, flight (st s) = Some (mkFlight (identity j) p)
  | UnwindFlight _ _ | UnwindQueue | UnwindJob _ =>
      flight (st s) = None /\ finished (st s) = false /\ closed (st s) = true
  | Exiting => flight (st s) = None /\ finished (st s) = false /\ closed (st s) = true /\ queued (st s) = []
  | Gone => flight (st s) = None /\ finished (st s) = true /\ closed (st s) = true /\ queued (st s) = []
  end.

Record system_ok (s : System I) : Prop := {
  so_credits : credits (st s) = length (outstanding s);
  so_bound : (credits (st s) <= CREDIT_CAPACITY)%nat;
  so_pc : pc_ok s
}.

Lemma remove_matching_spec (id : JobIdentity) (l rest : list Completed) (x : Completed) :
  remove_matching id l = Some (x, rest) ->
  matches (c_identity x) id = true /\ l ≡ₚ x :: rest.
Proof.
  revert rest. induction l as [|y l IH]; intros rest; cbn [remove_matching]; [discriminate|].
  destruct (matches (c_identity y) id) eqn:E; [intros [= <- <-]; auto|].
  destruct (remove_matching id l) as [[z r]|]; [|discriminate]. cbn. intros [= <- <-].
  destruct (IH r eq_refl) as [H1 H2]. split; [exact H1|]. rewrite H2. apply perm_swap.
Qed.

Ltac sys := unfold outstanding; cbn [st pc held queued flight completed credits closed finished fmap list_fmap
  complete worker_pop worker_unwind unwind_pop worker_finish set_progress close length app].

(** The worker moves jobs between the queues; it drops and invents none. *)
Lemma worker_step_moves (s s' : System I) :
  worker_step s s' -> pc_ok s ->
  outstanding s' ≡ₚ outstanding s /\ credits (st s') = credits (st s) /\ pc_ok s'.
Proof.
  assert (Hsnoc : forall (l : list JobIdentity) id cs r,
    l ++ (c_identity <$> cs ++ [mkCompleted id r]) ≡ₚ l ++ id :: (c_identity <$> cs)).
  { intros. rewrite fmap_app. cbn. by rewrite (Permutation_cons_append (c_identity <$> cs)). }
  intros Hw. destruct Hw as [s j rest E|s E Ec|s j f p Ef Hp|s j f r Ef Hr|s j f Ef|s Ef|s id p|s j rest E|s id|s E|s];
    unfold pc_ok; sys; cbn [pc st flight finished closed queued]; intros Hpc; rewrite ?Hsnoc;
    (split; [|split; [reflexivity|]]); try reflexivity; try tauto.
  - rewrite E, fmap_cons. cbn [app]. by rewrite Permutation_middle.
  - split; [tauto|]. eauto.
  - destruct Hpc as (Hf & q & Eq). rewrite Eq. cbn. eauto.
  - destruct Hpc as (Hf & q & Eq). rewrite Ef in Eq. injection Eq as ->. reflexivity.
  - rewrite E, fmap_cons. cbn [app]. by rewrite Permutation_middle.
Qed.

Lemma owner_step_moves (s s' : System I) (e : Event) :
  owner_step s e s' -> system_ok s ->
  system_ok s' /\ accepted [e] ++ outstanding s ≡ₚ answered [e] ++ outstanding s'.
Proof.
  intros Ho [Hc Hb Hpc]. destruct Ho as [s s' q id x E|s s' q id x e E|s s' q id c E|s q].
  - unfold submit in E. destruct (admission_closed s) eqn:Ea; [discriminate|].
    destruct (Nat.eqb_spec (credits s) CREDIT_CAPACITY); [discriminate|]. injection E as <-.
    unfold admission_closed in Ea. bsimp.
    assert (P : id :: outstanding (mkSystem s q)
      ≡ₚ outstanding (mkSystem (mkState (closed s) (queued s ++ [mkJob id x]) (flight s) (completed s)
           (S (credits s)) (durable s) (failed s) (uncertain s) (finished s) (worker_error s)) q)).
    { sys. rewrite fmap_app. cbn. rewrite <- app_assoc. cbn. by rewrite Permutation_middle. }
    split; [|exact P]. split; [cbn in *; rewrite <- P; cbn; by rewrite Hc|cbn in *; lia|].
    unfold pc_ok in *. cbn [pc st] in *. destruct q; cbn in *; auto; destruct Hpc as (? & ? & ? & ?); congruence.
  - assert (s' = s) as ->.
    { unfold submit in E. destruct (admission_closed s); [by injection E|].
      destruct (credits s =? CREDIT_CAPACITY)%nat; [by injection E|discriminate]. }
    split; [by split|reflexivity].
  - unfold take_matching in E. destruct (remove_matching id (completed s)) as [[x rest]|] eqn:Er; [|discriminate].
    injection E as <- <-. destruct (remove_matching_spec _ _ _ _ Er) as [_ Hp].
    assert (P : outstanding (mkSystem s q)
      ≡ₚ c_identity x :: outstanding (mkSystem (mkState (closed s) (queued s) (flight s) rest (credits s - 1)
           (durable s) (failed s) (uncertain s) (finished s) (worker_error s)) q)).
    { sys. rewrite Hp. rewrite !app_assoc. symmetry. apply Permutation_middle. }
    split; [|exact P]. rewrite P in Hc. cbn in Hc, Hb. split; cbn in *; [lia|lia|exact Hpc].
  - split; [|reflexivity]. split; [exact Hc|exact Hb|].
    unfold pc_ok in *. cbn in *. destruct q; cbn in *; tauto.
Qed.

Lemma runs_ok (tr : list Event) (s : System I) :
  runs tr s -> system_ok s /\ accepted tr ≡ₚ answered tr ++ outstanding s.
Proof.
  induction 1 as [|tr s s' _ [IH1 IH2] Hw|tr s s' e _ [IH1 IH2] Ho].
  - split; [|reflexivity]. split; cbn; [reflexivity|unfold CREDIT_CAPACITY; lia|auto].
  - destruct IH1 as [Hc Hb Hp]. destruct (worker_step_moves _ _ Hw Hp) as (P & Ec & Hp').
    split; [|by rewrite P]. split; [by rewrite Ec, P|by rewrite Ec|exact Hp'].
  - destruct (owner_step_moves _ _ _ Ho IH1) as [Hok P]. split; [exact Hok|].
    unfold accepted, answered in *. rewrite !omap_app, IH2.
    rewrite <- !app_assoc. apply Permutation_app_head. rewrite (Permutation_app_comm (outstanding s)). exact P.
Qed.

(** C20: no reference job is lost, answered twice or invented.  Under every
    interleaving of owner and worker, a panicking worker included, the jobs
    accepted so far are exactly those whose answer the owner has taken and
    those still queued, held by the worker or answered and not yet taken; the
    credits count the latter and never exceed the capacity. *)
Theorem journal_conserves (tr : list Event) (s : System I) :
  runs tr s ->
  accepted tr ≡ₚ answered tr ++ outstanding s
  /\ credits (st s) = length (outstanding s) /\ (length (outstanding s) <= CREDIT_CAPACITY)%nat.
Proof. intros Hr. destruct (runs_ok _ _ Hr) as [[Hc Hb _] P]. split; [exact P|]. split; [exact Hc|lia]. Qed.

(** ** Draining *)

Definition pc_weight (s : System I) : nat :=
  match pc s with
  | Waiting => 5
  | Processing _ => match flight (st s) with Some f => 11 - rank (progress f) | None => 11 end
  | UnwindFlight _ _ => 6
  | UnwindQueue => 4
  | UnwindJob _ => 5
  | Exiting => 2
  | Gone => 0
  end.

Definition weight (s : System I) : nat := 8 * length (queued (st s)) + pc_weight s.

Lemma rank_bound (p : Progress) : (rank p <= 4)%nat.
Proof. destruct p; cbn; lia. Qed.

Lemma worker_step_weight (s s' : System I) : worker_step s s' -> (weight s' < weight s)%nat.
Proof.
  intros Hw. destruct Hw as [s j rest E|s E Ec|s j f p Ef Hp|s j f r Ef Hr|s j f Ef|s Ef|s id p|s j rest E|s id|s E|s];
    unfold weight, pc_weight; cbn; rewrite ?E, ?Ef; cbn; try pose proof (rank_bound (progress f));
    try pose proof (rank_bound p); lia.
Qed.

(** A closed journal whose worker cannot move has answered everything. *)
Lemma worker_stuck (s : System I) :
  pc_ok s -> closed (st s) = true -> (forall s', ~ worker_step s s') ->
  pc s = Gone /\ finished (st s) = true /\ outstanding s = c_identity <$> completed (st s).
Proof.
  destruct s as [s q]. unfold pc_ok. cbn [st pc]. intros Hpc Hcl Hno. unfold outstanding. cbn [st pc].
  destruct q as [|j|id p| |id| |]; cbn [held].
  - destruct (queued s) as [|j rest] eqn:E; [destruct (Hno _ (w_exit s E Hcl))|destruct (Hno _ (w_take s j rest E))].
  - destruct Hpc as (_ & p & Ef). destruct (Hno _ (w_unwind s j _ Ef)).
  - destruct (Hno _ (w_unwind_answer s id p)).
  - destruct (queued s) as [|j rest] eqn:E; [destruct (Hno _ (w_unwind_done s E))|destruct (Hno _ (w_unwind_pop s j rest E))].
  - destruct (Hno _ (w_unwind_job s id)).
  - destruct (Hno _ (w_finish s)).
  - destruct Hpc as (_ & Hf & _ & ->). auto.
Qed.

Lemma worker_keeps_closed (s s' : System I) : worker_step s s' -> closed (st s) = true -> closed (st s') = true.
Proof. intros Hw. destruct Hw; cbn; auto. Qed.

(** C32: a closed journal is always drained.  Whatever the owner did before, once
    admission is closed the worker runs only finitely long, whatever the
    database does and even if it panics, and it can only stop with its thread
    finished and an answer waiting for every outstanding job. *)
Theorem journal_drains (tr : list Event) (s : System I) :
  runs tr s -> closed (st s) = true ->
  Acc (fun b a => worker_step a b) s
  /\ forall s', rtc worker_step s s' ->
     (exists s'', worker_step s' s'')
     \/ (finished (st s') = true /\ (c_identity <$> completed (st s')) ≡ₚ outstanding s).
Proof.
  intros Hr Hcl. destruct (runs_ok _ _ Hr) as [[_ _ Hp] _]. clear Hr. split.
  - induction s as [s IH] using (well_founded_induction (Wf_nat.well_founded_ltof _ weight)).
    constructor. intros s' Hw. apply IH; [by apply worker_step_weight|by eapply worker_keeps_closed|].
    by destruct (worker_step_moves _ _ Hw Hp) as (_ & _ & ?).
  - intros s' Hs. induction Hs as [s|s s1 s' Hw _ IH].
    + destruct (pc s) eqn:Epc.
      all: try (right; destruct (worker_stuck s Hp Hcl) as (_ & ? & ->); [|by auto];
        intros s'' Hw; inversion Hw; subst; discriminate).
      all: left; revert Hp; unfold pc_ok; rewrite Epc; destruct s as [s q]; cbn [st pc] in *; subst q; intros Hp.
      * destruct (queued s) as [|j rest] eqn:E; eexists; [by apply w_exit|by eapply w_take].
      * destruct Hp as (_ & p & Ef). eexists. by eapply w_unwind.
      * eexists. apply w_unwind_answer.
      * destruct (queued s) as [|j rest] eqn:E; eexists; [by apply w_unwind_done|by eapply w_unwind_pop].
      * eexists. apply w_unwind_job.
      * eexists. apply w_finish.
    + destruct (worker_step_moves _ _ Hw Hp) as (P & _ & Hp').
      destruct (IH (worker_keeps_closed _ _ Hw Hcl) Hp') as [?|[? Q]]; [by left|right].
      split; [assumption|]. by rewrite Q.
Qed.

End Proofs.

(** ** One job, written and taken *)

Definition job_a : JobIdentity := mkJobId 100 1.
Definition sum_a : list Z := repeat 7 32.

Definition submitted_a : State nat :=
  mkState false [mkJob job_a 5%nat] None [] 1 0 0 0 false None.
Definition closed_a : State nat := close submitted_a.

Lemma one_job_runs : runs [Accepted job_a; Closed] (mkSystem closed_a Waiting).
Proof.
  apply (runs_owner [Accepted job_a] (mkSystem submitted_a Waiting)); [|constructor].
  apply (runs_owner [] (mkSystem state_default Waiting)); [constructor|].
  by apply (o_submit state_default submitted_a Waiting job_a 5%nat).
Qed.

Lemma journal_conserves_witness :
  accepted [Accepted job_a; Closed] ≡ₚ answered [Accepted job_a; Closed] ++ outstanding (mkSystem closed_a Waiting).
Proof. exact (proj1 (journal_conserves _ _ one_job_runs)). Defined.

Lemma journal_drains_witness :
  Acc (fun b a => worker_step a b) (mkSystem closed_a Waiting).
Proof. exact (proj1 (journal_drains _ _ one_job_runs eq_refl)). Defined.

End Journal.
