(* ===== verification/History.v ===== *)
(** * History: what a reference commit writes, and the transaction that writes it

    [src/crates/davout/src/reference_journal_event.rs] with the audit label of
    [src/crates/davout/src/reference_commit.rs] and the transactions of
    [src/crates/davout/src/reference_journal.rs] ([append], [checked_body],
    [prune_oldest_sessions], the session allocation of [open]).

    SQLite is not part of the model beyond what its calls promise: [Table] is
    the rows of the file, each call may fail ([Calls]), queries read what is there
    and a rollback that succeeds leaves it.  A commit, also one that reports
    success, or a failed rollback may leave anything.  SHA-256 and the codec ([reference_codec.rs]) are parameters.  The
    eight big-endian bytes of a job key stand for the number they encode; what
    an [Arc] of the installed model points to is [Descriptor]. *)

From Stdlib Require Import ZArith Lia Bool.
From stdpp Require Import base gmap strings list.
From S2P Require Import Prelude Float Config Bus Faults Receive Authority Journal.

Module History.
Import Config Bus Faults Journal.

(** ** Audit labels *)

Record ReferenceAudit : Type := mkAudit { operator : string; audit_session : string }.

#[export] Instance ReferenceAudit_eq_dec : EqDecision ReferenceAudit.
Proof. solve_decision. Defined.

(** [char::is_control] on ASCII. *)
Definition is_control (c : Ascii.ascii) : bool :=
  let n := Ascii.nat_of_ascii c in (n <? 32)%nat || (n =? 127)%nat.

Fixpoint has_control (s : string) : bool :=
  match s with
  | EmptyString => false
  | String c rest => is_control c || has_control rest
  end.

Definition label_ok (l : string) : bool :=
  negb (String.length l =? 0)%nat && (String.length l <=? 128)%nat && negb (has_control l).

Definition audit_validate (a : ReferenceAudit) : bool := label_ok (operator a) && label_ok (audit_session a).

(** ** The recorded body *)

Record ReferenceReportingAttempt : Type := mkReportingAttempt {
  ra_joint : string;
  ra_address : MotorAddress;
  ra_error : option string
}.

Record ReferenceReceiveSummary : Type := mkSummary {
  rv_completion : ReceiveCompletion;
  rv_raw_frames : nat;
  rv_read_attempts : nat
}.

Record PhysicalCapture : Type := mkPhysicalCapture {
  device_uid : list Z;
  ack_pop_order : Z;
  ack_can_id : Z;
  ack_position_rad : f32
}.

(** [Cleanup], [Reporting] and [Receive] repeat the fields of what they are made from. *)
Record Capture : Type := mkCapture {
  acquisition_sequence : Z;
  cap_joint : string;
  cap_address : MotorAddress;
  confirmed : bool;
  sign_verified : bool;
  position_rad : f32;
  raw_pop_order : Z;
  cap_can_id : Z;
  device_epoch : Z;
  original_deadline_secs : Z;
  original_deadline_nanos : Z;
  stamp_reference_generation : Z;
  stamp_stop_generation : Z;
  accepted_reference_generation : Z;
  cleanup : StopReport;
  cap_reporting : list ReferenceReportingAttempt;
  cap_receive : ReferenceReceiveSummary;
  cap_audit : ReferenceAudit;
  cap_physical : option PhysicalCapture
}.

Record Input : Type := mkInput {
  in_model : Authority.InstalledModelStamp;
  in_policy : Authority.TypedPolicy;
  in_capture : Capture
}.

Definition VIRTUAL_EVIDENCE : string := "closed_virtual".
Definition PHYSICAL_EVIDENCE : string := "physical_robstride".

Section History.
Context {Descriptor : Type}.
Variable descriptor_of : Z -> Descriptor.

Record Body : Type := mkBody {
  version : Z;
  evidence_class : string;
  diagnostic_session : Z;
  job_sequence : Z;
  installed_model_generation : Z;
  capture : Capture;
  policy : Authority.TypedPolicy;
  descriptor : Descriptor
}.

(** The body [Input::encode] serializes. *)
Definition body_of (x : Input) (session job : Z) : Body :=
  mkBody 1 (if bool_decide (is_Some (cap_physical (in_capture x))) then PHYSICAL_EVIDENCE else VIRTUAL_EVIDENCE)
    session job (Authority.stamp_generation (in_model x)) (in_capture x) (in_policy x)
    (descriptor_of (Authority.descriptor (in_model x))).

(** The stop of every configured drive: three frames each, in this order. *)
Definition expected_stop (ms : list MotorEntry) : list (MotorAddress * StopAction) :=
  ms ≫= fun m => (fun a => (address_of_motor m, a)) <$> [ZeroSpeed; NeutralMit; DisableDrive].

#[local] Instance StopAction_eq_dec : EqDecision StopAction.
Proof. solve_decision. Defined.

Definition attempt_matches (a : StopAttempt) (e : MotorAddress * StopAction) : bool :=
  bool_decide (at_address a = e.1) && bool_decide (at_action a = e.2) && negb (bool_decide (is_Some (at_error a))).

Definition cleanup_matches (ms : list MotorEntry) (r : StopReport) : bool :=
  (length (attempts r) =? length ms * 3)%nat
  && forallb (fun p => attempt_matches p.1 p.2) (zip (attempts r) (expected_stop ms)).

Definition within (tolerance : f64) (q : f32) : bool := fle (fabs (f64_of_f32 q)) tolerance.

Definition class_matches (tolerance : f64) (b : Body) : bool :=
  match cap_physical (capture b) with
  | None => bool_decide (evidence_class b = VIRTUAL_EVIDENCE)
  | Some p =>
      bool_decide (evidence_class b = PHYSICAL_EVIDENCE)
      && is_finite (ack_position_rad p) && within tolerance (ack_position_rad p)
      && (ack_pop_order p <? 64) && (Z.shiftr (ack_can_id p) 24 =? 2)
      && (Z.shiftr (cap_can_id (capture b)) 24 =? 17)
  end.

Definition reporting_matches (ms : list MotorEntry) (a : ReferenceReportingAttempt) : bool :=
  negb (bool_decide (is_Some (ra_error a)))
  && existsb (fun m => bool_decide (joint m = ra_joint a) && bool_decide (address_of_motor m = ra_address a)) ms.

Definition validate (b : Body) : bool :=
  let c := capture b in
  let ms := Authority.p_motors (policy b) in
  let tolerance := zero_verify_tolerance_rad (Authority.p_homing (policy b)) in
  match motor_for_joint ms (cap_joint c), effective_joint_ref (Authority.p_homing (policy b)) (cap_joint c) with
  | Some target, Some homing =>
      (version b =? 1) && class_matches tolerance b
      && (0 <? diagnostic_session b) && (0 <? job_sequence b) && (0 <? installed_model_generation b)
      && (0 <? acquisition_sequence c) && confirmed c && is_finite (position_rad c)
      && audit_validate (cap_audit c)
      && (negb (e_sign_test_required homing) || sign_verified c)
      && bool_decide (interface (cap_address c) = can_interface target)
      && (device (cap_address c) =? device_id target)
      && within tolerance (position_rad c)
      && (stamp_reference_generation c <? accepted_reference_generation c)
      && (accepted_reference_generation c <? U64_MAX)
      && (0 <? device_epoch c)
      && (stamp_stop_generation c <? generation (cleanup c))
      && cleanup_matches ms (cleanup c)
      && (original_deadline_nanos c <? 1000000000)
      && (generation (cleanup c) <? U64_MAX)
      && forallb (fun a => negb (bool_decide (is_Some (at_error a)))) (attempts (cleanup c))
      && (length (cap_reporting c) <=? length ms)%nat
      && forallb (reporting_matches ms) (cap_reporting c)
      && is_complete (rv_completion (cap_receive c))
      && (rv_raw_frames (cap_receive c) <=? 64)%nat
      && (rv_read_attempts (cap_receive c) <=? 256)%nat
      && (raw_pop_order c <? Z.of_nat (rv_raw_frames (cap_receive c)))
  | _, _ => false
  end.

(** ** The event transaction *)

Definition EVENT_CAPACITY : Z := 4096.
Definition PAGE_CAPACITY : Z := 16384.

(** Committed rows: (session, job) to body and checksum. *)
Abbreviation Table := (gmap (Z * Z) (list Z * list Z)).

(** How the calls of one [append] fare: [None] is success.  [q_file before after]
    is what the file of rows [before] holds once a transaction with the rows
    [after] has ended in a commit or a failed rollback. *)
Record Calls : Type := mkCalls {
  q_begin : option string;
  q_select : option string;
  q_count : option string;
  q_insert : option string;
  q_rollback : option string;
  q_commit : option string;
  q_file : Table -> Table -> Table;
  q_readback : option string
}.

Variable sha256 : list Z -> list Z.
Variable decode : list Z -> result string Body.

(** [error(..)] and then [to_string()]. *)
Definition journal_error (m : string) : string := "reference journal: " +:+ bounded_message m.

Definition checked_body (session job : Z) (body checksum : list Z) : result string unit :=
  if negb (length checksum =? 32)%nat then Err (journal_error "checksum width")
  else if negb (bool_decide (sha256 body = checksum)) then Err (journal_error "body checksum mismatch")
  else
    let! parsed := map_err journal_error (decode body) in
    refuse_if (negb (validate parsed) || negb (diagnostic_session parsed =? session)
               || negb (job_sequence parsed =? job)) (journal_error "event identity/body mismatch").

(** What the closure [insertion] leaves in the open transaction. *)
Definition insertion (q : Calls) (key : Z * Z) (body checksum : list Z) (t : Table) : result string Table :=
  match q_select q with
  | Some e => Err (journal_error e)
  | None =>
      match t !! key with
      | Some (prior, prior_checksum) =>
          if negb (bool_decide (prior = body)) || negb (bool_decide (prior_checksum = checksum))
          then Err (journal_error "journal key/body conflict")
          else Ok t
      | None =>
          match q_count q with
          | Some e => Err (journal_error e)
          | None =>
              if EVENT_CAPACITY <=? Z.of_nat (size t) then Err (journal_error "journal event capacity reached")
              else match q_insert q with
                   | Some e => Err (journal_error e)
                   | None => Ok (<[key := (body, checksum)]> t)
                   end
          end
      end
  end.

(** The query after the commit. *)
Definition readback (q : Calls) (key : Z * Z) (t : Table) : result string (list Z * list Z) :=
  match q_readback q with
  | Some e => Err e
  | None => ok_or (t !! key) "Query returned no rows"%string
  end.

(** The answer, whether the database is kept, the rows left and how far the job got. *)
Definition append (session sequence : Z) (body : list Z) (q : Calls) (t : Table)
  : result ReferenceJournalResult ReferenceJournalResult * Table * Progress :=
  let checksum := sha256 body in
  let key := (session, sequence) in
  match checked_body session sequence body checksum with
  | Err e => (Err (JFailed e), t, Encoding)
  | Panic => (Panic, t, Encoding)
  | Ok _ =>
      match q_begin q with
      | Some e => (Err (JFailed e), t, Writing)
      | None =>
          match insertion q key body checksum t with
          | Panic => (Panic, t, Writing)
          | Err cause =>
              match q_rollback q with
              | None => (Err (JFailed cause), t, Writing)
              | Some e => (Err (Uncertain (cause +:+ "; rollback: " +:+ e)), q_file q t t, Writing)
              end
          | Ok t' =>
              let stored := q_file q t t' in
              match q_commit q with
              | Some e => (Err (Uncertain e), stored, CommitAttempted)
              | None =>
                  match readback q key stored with
                  | Err e => (Err (Uncertain e), stored, Committed)
                  | Panic => (Panic, stored, Committed)
                  | Ok (rb, rc) =>
                      if negb (bool_decide (rb = body)) || negb (bool_decide (rc = checksum))
                      then (Err (Uncertain "committed event readback mismatch"), stored, Committed)
                      else match checked_body session sequence rb rc with
                           | Ok _ => (Ok (DurableHistory session sequence checksum), stored, Committed)
                           | Err e => (Err (Uncertain e), stored, Committed)
                           | Panic => (Panic, stored, Committed)
                           end
                  end
              end
          end
      end
  end.

(** ** Sessions *)

(** [next_session] is a positive 64-bit integer. *)
Definition I64_MAX : Z := 9223372036854775807.
Definition allocate_session (current : Z) : result string Z :=
  if (current + 1 <=? I64_MAX) && (0 <? current + 1) then Ok (current + 1)
  else Err "diagnostic session exhausted"%string.

Definition row_session (r : (Z * Z) * (list Z * list Z)) : Z := r.1.1.

(** [SELECT min(session) ... WHERE session<current]. *)
Definition oldest_before (current : Z) (t : Table) : option Z :=
  match filter (fun n => n < current) (row_session <$> map_to_list t) with
  | [] => None
  | n :: l => Some (foldr Z.min n l)
  end.

Definition delete_session (n : Z) (t : Table) : Table := filter (fun r => row_session r <> n) t.

(** [page_count - freelist_count] of a transaction's rows. *)
Variable used_pages : Table -> Z.

Definition fits (max_rows max_pages : Z) (t : Table) : bool :=
  (Z.of_nat (size t) <=? max_rows) && (used_pages t <=? max_pages).

(** The loop: sessions dropped and rows left; [fuel] bounds its turns. *)
Fixpoint prune_loop (fuel : nat) (current max_rows max_pages : Z) (t : Table) (dropped : nat)
  : option (nat * Table) :=
  match fuel with
  | O => None
  | S fuel =>
      if fits max_rows max_pages t then Some (dropped, t)
      else match oldest_before current t with
           | None => Some (dropped, t)
           | Some n => prune_loop fuel current max_rows max_pages (delete_session n t) (S dropped)
           end
  end.

(** Every turn deletes at least one row. *)
Definition prune_oldest_sessions (current max_rows max_pages : Z) (t : Table) : option (nat * Table) :=
  prune_loop (S (size t)) current max_rows max_pages t 0.

(** ** What [append] answers for *)

Lemma checked_body_ok (session job : Z) (body checksum : list Z) :
  checked_body session job body checksum = Ok tt ->
  sha256 body = checksum /\ exists b, decode body = Ok b /\ validate b = true
    /\ diagnostic_session b = session /\ job_sequence b = job.
Proof.
  unfold checked_body. destruct (negb (length checksum =? 32)%nat); [discriminate|].
  case_bool_decide as Hs; [|discriminate]. cbn [negb]. intros Hc. bind_inv Hc. destruct (decode body) as [b| |]; try discriminate. injection E as ->. bsimp. eauto 10.
Qed.

Lemma insertion_ok (q : Calls) (key : Z * Z) (body checksum : list Z) (t t' : Table) :
  insertion q key body checksum t = Ok t' -> t' = <[key := (body, checksum)]> t.
Proof.
  unfold insertion. destruct (q_select q); [discriminate|].
  destruct (t !! key) as [[pb pc]|] eqn:E.
  - do 2 (case_bool_decide; [|discriminate]). subst. intros [= <-]. by rewrite insert_id.
  - destruct (q_count q); [discriminate|]. destruct (_ <=? _); [discriminate|].
    destruct (q_insert q); [discriminate|]. by intros [= <-].
Qed.

(** The answer, whichever way it was returned. *)
Definition answer_of (r : result ReferenceJournalResult ReferenceJournalResult) : option ReferenceJournalResult :=
  match r with Ok x | Err x => Some x | Panic => None end.

(** What a journal file does with a transaction that leaves most rows alone. *)
Definition keeps_rows (q : Calls) : Prop :=
  forall t t' k, t' !! k = t !! k -> q_file q t t' !! k = t !! k.

(** C19: the journal's answers mean what they say.  Whatever the database's calls
    do, also when a commit reports success but stores something else,
    [DurableHistory] is answered only when the rows of the file hold exactly this
    body under this session and job with its checksum, and the body decodes to a
    valid event of that identity; [Failed] only when nothing was written.  The
    transaction changes no other row, so a file that keeps the rows a transaction
    leaves alone keeps all others.  The answer also fits how far the job got, as
    the worker's unwinding assumes. *)
Theorem append_answers_true (session sequence : Z) (body : list Z) (q : Calls) (t : Table) :
  let '(r, t', p) := append session sequence body q t in
  (keeps_rows q -> forall k, k <> (session, sequence) -> t' !! k = t !! k)
  /\ forall x, answer_of r = Some x -> answers_at p x
     /\ match x with
        | DurableHistory n j c =>
            n = session /\ j = sequence /\ c = sha256 body
            /\ t' !! (session, sequence) = Some (body, c)
            /\ exists b, decode body = Ok b /\ validate b = true
               /\ diagnostic_session b = session /\ job_sequence b = sequence
        | JFailed _ => t' = t
        | _ => True
        end.
Proof.
  unfold append. destruct (checked_body _ _ body _) as [[]|e|] eqn:Ec.
  2,3: split; [done|]; intros x [= <-]; cbn; auto with lia.
  destruct (q_begin q); [split; [done|]; intros x [= <-]; cbn; auto with lia|].
  destruct (insertion _ _ _ _ _) as [t1|cause|] eqn:Ei.
  3: split; [done|discriminate].
  2:{ destruct (q_rollback q) as [e|]; (split; [by intros Hq k _; rewrite ?Hq|]); intros x [= <-]; cbn; auto with lia. }
  apply insertion_ok in Ei as ->. set (stored := q_file q t _).
  assert (Hk : keeps_rows q -> forall k, k <> (session, sequence) -> stored !! k = t !! k)
    by (intros Hq k Hk; apply Hq; by rewrite lookup_insert_ne).
  destruct (q_commit q); [split; [exact Hk|]; intros x [= <-]; cbn; auto with lia|].
  unfold readback. destruct (q_readback q); [split; [exact Hk|]; intros x [= <-]; cbn; auto with lia|].
  destruct (stored !! (session, sequence)) as [[rb rc]|] eqn:Es; cbn [ok_or].
  2: split; [exact Hk|]; intros x [= <-]; cbn; auto with lia.
  do 2 (case_bool_decide; [|split; [exact Hk|]; intros x [= <-]; cbn; auto with lia]). subst rb rc. cbn [negb orb].
  rewrite Ec. split; [exact Hk|]. intros x [= <-]. cbn. apply checked_body_ok in Ec as (_ & Hb). auto 10.
Qed.

(** ** Retention *)

Lemma row_in_table (t : Table) (n : Z) :
  n ∈ row_session <$> map_to_list t <-> exists k, is_Some (t !! k) /\ k.1 = n.
Proof.
  rewrite list_elem_of_fmap. split.
  - intros ([k v] & -> & Hk%elem_of_map_to_list). exists k. eauto.
  - intros (k & [v Hv] & <-). exists (k, v). by rewrite elem_of_map_to_list.
Qed.

Lemma foldr_min_spec (n : Z) (l : list Z) :
  foldr Z.min n l ∈ n :: l /\ forall x, x ∈ n :: l -> foldr Z.min n l <= x.
Proof.
  induction l as [|y l [IH1 IH2]]; cbn [foldr].
  - split; [left|]. intros x [->|H]%elem_of_cons; [lia|by apply elem_of_nil in H].
  - split.
    + destruct (Z.min_spec y (foldr Z.min n l)) as [[_ ->]|[_ ->]]; set_solver.
    + intros x Hx. destruct (decide (x = y)) as [->|]; [lia|]. specialize (IH2 x ltac:(set_solver)). lia.
Qed.

Lemma oldest_before_spec (current : Z) (t : Table) :
  match oldest_before current t with
  | Some n => n < current /\ (exists k, is_Some (t !! k) /\ k.1 = n)
              /\ forall k, is_Some (t !! k) -> n <= k.1
  | None => forall k, is_Some (t !! k) -> current <= k.1
  end.
Proof.
  unfold oldest_before. destruct (filter _ _) as [|n l] eqn:E.
  - intros k Hk. destruct (Z.lt_ge_cases k.1 current) as [Hlt|]; [|lia].
    assert (k.1 ∈ filter (fun n => n < current) (row_session <$> map_to_list t)) as Hin.
    { apply list_elem_of_filter. split; [exact Hlt|]. apply row_in_table. eauto. }
    rewrite E in Hin. by apply elem_of_nil in Hin.
  - destruct (foldr_min_spec n l) as [H1 H2]. rewrite <- E in H1, H2.
    apply list_elem_of_filter in H1 as [Hlt Hin]. apply row_in_table in Hin as (k & Hk & Ek).
    split; [exact Hlt|]. split; [eauto|]. intros k' Hk'.
    destruct (Z.lt_ge_cases k'.1 current) as [?|]; [|lia].
    apply H2, list_elem_of_filter. split; [done|]. apply row_in_table. eauto.
Qed.

Lemma delete_session_lookup (n : Z) (t : Table) (k : Z * Z) :
  is_Some (delete_session n t !! k) <-> is_Some (t !! k) /\ k.1 <> n.
Proof.
  unfold delete_session. split.
  - intros [v Hv]. apply map_lookup_filter_Some in Hv as [Hv Hn]. eauto.
  - intros [[v Hv] Hn]. exists v. by apply map_lookup_filter_Some.
Qed.

Lemma delete_session_smaller (n : Z) (t : Table) (k : Z * Z) :
  is_Some (t !! k) -> k.1 = n -> (size (delete_session n t) < size t)%nat.
Proof.
  intros Hk E. rewrite <- !size_dom. apply subset_size. split.
  - apply dom_filter_subseteq.
  - intros Hs. assert (k ∈ dom (delete_session n t)) as Hd by (apply Hs, elem_of_dom, Hk).
    apply elem_of_dom in Hd. by apply delete_session_lookup in Hd as [_ ?].
Qed.

Record retained (current : Z) (t t' : Table) : Prop := {
  rt_subset : t' ⊆ t;
  rt_oldest : forall k k', is_Some (t !! k) -> t' !! k = None -> is_Some (t' !! k') -> k.1 < k'.1;
  rt_current : forall k, is_Some (t !! k) -> t' !! k = None -> k.1 < current
}.

Lemma retained_refl (current : Z) (t : Table) : retained current t t.
Proof. split; [done|..]; intros k; intros; destruct (t !! k) eqn:E; eauto; exfalso; by apply (is_Some_None (A := list Z * list Z)). Qed.

Lemma prune_loop_spec (fuel : nat) (current max_rows max_pages : Z) :
  forall (t : Table) (d : nat), (size t < fuel)%nat ->
  exists n t', prune_loop fuel current max_rows max_pages t d = Some (n, t')
    /\ retained current t t'
    /\ (fits max_rows max_pages t' = true \/ forall k, is_Some (t' !! k) -> current <= k.1).
Proof.
  induction fuel as [|fuel IH]; intros t d Hf; [lia|]. cbn [prune_loop].
  destruct (fits max_rows max_pages t) eqn:E.
  { exists d, t. split; [done|]. split; [apply retained_refl|by left]. }
  pose proof (oldest_before_spec current t) as Ho. destruct (oldest_before current t) as [n|].
  2:{ exists d, t. split; [done|]. split; [apply retained_refl|by right]. }
  destruct Ho as (Hlt & (k0 & Hk0 & E0) & Hmin).
  pose proof (delete_session_smaller n t k0 Hk0 E0) as Hsz.
  destruct (IH (delete_session n t) (S d) ltac:(lia)) as (m & t' & Ep & [Hsub Hold Hcur] & Hfit).
  exists m, t'. split; [exact Ep|]. split; [|exact Hfit].
  assert (Hdel : forall k, is_Some (t !! k) -> t' !! k = None ->
    k.1 = n \/ is_Some (delete_session n t !! k)).
  { intros k Hk _. destruct (decide (k.1 = n)); [by left|right]. by apply delete_session_lookup. }
  split.
  - etrans; [exact Hsub|]. apply map_filter_subseteq.
  - intros k k' Hk Hd Hk'. destruct (Hdel k Hk Hd) as [->|Hk2]; [|eauto].
    assert (is_Some (delete_session n t !! k')) as Hk2 by (destruct Hk' as [v Hv]; exists v; by eapply lookup_weaken).
    apply delete_session_lookup in Hk2 as [Hk3 Hne]. specialize (Hmin k' Hk3). lia.
  - intros k Hk Hd. destruct (Hdel k Hk Hd) as [->|Hk2]; [exact Hlt|eauto].
Qed.

(** pruning the journal is bounded and never touches the present.  It ends
    after at most as many turns as there are rows; what it drops are whole
    sessions, each older than everything kept and than the current one; it
    stops within the row and page limits, or with no older session left; and a
    journal within its limits is left alone. *)
Theorem prune_keeps_newest (current max_rows max_pages : Z) (t : Table) :
  exists n t', prune_oldest_sessions current max_rows max_pages t = Some (n, t')
    /\ retained current t t'
    /\ (fits max_rows max_pages t' = true \/ forall k, is_Some (t' !! k) -> current <= k.1)
    /\ (fits max_rows max_pages t = true -> t' = t /\ n = 0%nat).
Proof.
  destruct (prune_loop_spec (S (size t)) current max_rows max_pages t 0 ltac:(lia)) as (n & t' & E & Hr & Hf).
  exists n, t'. split; [exact E|]. split; [exact Hr|]. split; [exact Hf|].
  intros Hfit. cbn [prune_loop] in E. rewrite Hfit in E. by injection E as <- <-.
Qed.

End History.
End History.
