(* ===== verification/Reference.v ===== *)
(** * Reference: the state of a reference acquisition and its commits

    The data of [src/crates/davout/src/reference_transaction.rs] and
    [src/crates/davout/src/reference_commit.rs], and what is done to it without
    looking at the rest of the supervisor.

    A retained outcome is shared ([Rc]) between the owner's cache and the commit
    made from it, and its [invalidated] cell is written through either: outcomes
    live in [heap], a pointer is an index into it and [Rc::new] appends.  Commit
    entries are owned by the queue they stand in, so their [Cell] is a field.
    An [Arc<()>] is its address.  The installed policy as a JSON value is a
    parameter [V]. *)

From Stdlib Require Import ZArith Lia Bool.
From stdpp Require Import base gmap strings list.
From S2P Require Import Prelude Float Config Bus Faults Davout Authority Lifecycle Journal History.

Module Reference.
Import Bus Faults Davout Lifecycle Journal History.

Definition TERMINAL_CAPACITY : nat := 8.
Definition REQUEST_FAILURE_CAPACITY : nat := 8.
Definition OUTCOME_CAPACITY : nat := 8.
Definition POLICY_CAPACITY : Z := 262144.
Definition PHASE_TIMEOUT : Z := 2000000000.

(** [VecDeque] used as a bounded cache. *)
Definition push_bounded {A : Type} (capacity : nat) (x : A) (l : list A) : list A :=
  (if (length l =? capacity)%nat then tail l else l) ++ [x].

Definition is_empty {A : Type} (l : list A) : bool := match l with [] => true | _ => false end.

(** ** Identities and requests *)

Record ReferenceHandle : Type := mkHandle { h_owner : Z; h_sequence : Z }.

#[export] Instance ReferenceHandle_eq_dec : EqDecision ReferenceHandle.
Proof. solve_decision. Defined.

Section Data.
Context {V : Type} `{EqDecision V}.

Record ReferenceStamp : Type := mkRefStamp {
  rs_owner : Z;
  rs_sequence : Z;
  rs_stop_generation : Z;
  rs_reference_generation : Z;
  rs_installed_model : Authority.InstalledModelStamp;
  rs_policy : V
}.

Record ReferenceRequest : Type := mkRequest {
  rq_stamp : ReferenceStamp;
  rq_joint : string;
  rq_confirmed : bool;
  rq_sign_verified : bool
}.

Definition same_request (old new : ReferenceRequest) : bool :=
  bool_decide (rq_joint old = rq_joint new)
  && Bool.eqb (rq_confirmed old) (rq_confirmed new)
  && Bool.eqb (rq_sign_verified old) (rq_sign_verified new)
  && (rs_owner (rq_stamp old) =? rs_owner (rq_stamp new))
  && (rs_sequence (rq_stamp old) =? rs_sequence (rq_stamp new))
  && (rs_stop_generation (rq_stamp old) =? rs_stop_generation (rq_stamp new))
  && (rs_reference_generation (rq_stamp old) =? rs_reference_generation (rq_stamp new))
  && Authority.stamp_eqb (rs_installed_model (rq_stamp old)) (rs_installed_model (rq_stamp new))
  && bool_decide (rs_policy (rq_stamp old) = rs_policy (rq_stamp new)).

End Data.
Arguments ReferenceStamp : clear implicits.
Arguments ReferenceRequest : clear implicits.

Inductive ReferencePhase : Type :=
| PIdle | BaselineStop | DrainOld | RequestIdentity | AwaitIdentity | AwaitReportingOff | ArmTarget
| DrainPostArm | SetZero | AwaitEvidence | AwaitAck | RequestReadback | AwaitReadback | Terminal.

#[export] Instance ReferencePhase_eq_dec : EqDecision ReferencePhase.
Proof. solve_decision. Defined.

Inductive ReferenceCancelReason : Type := CancelOperator | CancelDisable | CancelShutdown.

#[export] Instance ReferenceCancelReason_eq_dec : EqDecision ReferenceCancelReason.
Proof. solve_decision. Defined.

Inductive ReferenceFailureKind : Type :=
| KDelivery | KReporting | KHazard | KBindingChanged | KIncompleteReceive | KBackend | KIdentity | KReadback.

#[export] Instance ReferenceFailureKind_eq_dec : EqDecision ReferenceFailureKind.
Proof. solve_decision. Defined.

Inductive ReferenceCause : Type :=
| EvidenceStaged
| CCancelled (reason : ReferenceCancelReason)
| TimedOut
| CFailed (kind : ReferenceFailureKind) (message : string).

#[export] Instance ReferenceCause_eq_dec : EqDecision ReferenceCause.
Proof. solve_decision. Defined.

Definition failure (kind : ReferenceFailureKind) (message : string) : ReferenceCause :=
  CFailed kind (bounded_message message).

Inductive ReferenceStageInvalidation : Type :=
| BindingChanged | StopChanged | DeadlineExpired | SafetyHazard | StopUncertain | Superseded | Shutdown
| CounterExhausted | CommitRetired | Consumed.

#[export] Instance ReferenceStageInvalidation_eq_dec : EqDecision ReferenceStageInvalidation.
Proof. solve_decision. Defined.

Inductive ReferenceStageStatus : Type :=
| NoEvidence
| CurrentEvidence
| Invalidated (reason : ReferenceStageInvalidation).

#[export] Instance ReferenceStageStatus_eq_dec : EqDecision ReferenceStageStatus.
Proof. solve_decision. Defined.

Inductive ReferenceError : Type :=
| RUnsupported
| RInvalidRequest (message : string)
| RBusy
| RForeignIdentity
| RStaleStamp
| RConflictingRetry
| ROutcomeExpired
| RCounterExhausted
| RAdmission (e : DavoutError).

(** [commit] is always [Unavailable] and [usable_reference] always false. *)
Record ReferenceTerminal : Type := mkTerminal {
  t_handle : ReferenceHandle;
  t_joint : string;
  t_cause : ReferenceCause;
  t_stop : StopReport;
  t_reporting : list ReferenceReportingAttempt;
  t_receive : option ReferenceReceiveSummary
}.

Record ReferenceCorrelation : Type := mkCorrelation {
  cr_owner : Z;
  cr_realm : Z;
  cr_transaction : Z;
  cr_device_epoch : Z;
  cr_address : MotorAddress;
  cr_order : nat;
  cr_can_id : Z;
  cr_received_at : Z
}.

Record PhysicalAck : Type := mkAck { ak_order : nat; ak_can_id : Z; ak_position_rad : f32 }.

Record AcceptedReferenceEvidence : Type := mkEvidence {
  ev_proof : ReferenceCorrelation;
  ev_address : MotorAddress;
  ev_order : nat;
  ev_can_id : Z;
  ev_received_at : Z;
  ev_position_rad : f32
}.

Record PhysicalEvidence : Type := mkPhysEvidence {
  pe_uid : list Z;
  pe_ack_order : nat;
  pe_ack_can_id : Z;
  pe_ack_position_rad : f32
}.

Record RetainedStage : Type := mkStage {
  sg_evidence : AcceptedReferenceEvidence;
  sg_physical : option PhysicalEvidence;
  sg_installed_model : Authority.InstalledModelStamp;
  sg_overall_deadline : Z;
  sg_reference_generation : Z;
  sg_invalidated : option ReferenceStageInvalidation;
  sg_typed_policy : Authority.TypedPolicy
}.

Definition set_invalidated (reason : ReferenceStageInvalidation) (g : RetainedStage) : RetainedStage :=
  mkStage (sg_evidence g) (sg_physical g) (sg_installed_model g) (sg_overall_deadline g)
    (sg_reference_generation g) (Some reason) (sg_typed_policy g).

Inductive ReferenceCommitPhase : Type :=
| CommitPending
| CommitComplete
| CommitCancelled (reason : ReferenceCancelReason)
| CommitInvalidated (reason : ReferenceStageInvalidation).

#[export] Instance ReferenceCommitPhase_eq_dec : EqDecision ReferenceCommitPhase.
Proof. solve_decision. Defined.

Record ReferenceCommitHandle : Type := mkCommitHandle { ch_owner : Z; ch_sequence : Z }.

#[export] Instance ReferenceCommitHandle_eq_dec : EqDecision ReferenceCommitHandle.
Proof. solve_decision. Defined.

Record Entry : Type := mkEntry {
  e_handle : ReferenceCommitHandle;
  e_job : JobIdentity;
  e_stage : nat;
  e_audit : ReferenceAudit;
  e_phase : ReferenceCommitPhase;
  e_result : ReferenceJournalResult;
  e_receive : option ReferenceReceiveSummary
}.

Definition set_phase (p : ReferenceCommitPhase) (e : Entry) : Entry :=
  mkEntry (e_handle e) (e_job e) (e_stage e) (e_audit e) p (e_result e) (e_receive e).

Inductive CommitSelection : Type := HistoryOnly | CurrentVirtual | CurrentPhysical.

#[export] Instance CommitSelection_eq_dec : EqDecision CommitSelection.
Proof. solve_decision. Defined.

Record PendingCommit : Type := mkPendingCommit { pd_acquisition : ReferenceHandle; pd_audit : ReferenceAudit }.

Section Work.
Context {V : Type} `{EqDecision V}.

Record Reservation : Type := mkReservation {
  r_request : ReferenceRequest V;
  r_handle : ReferenceHandle;
  r_address : MotorAddress;
  r_policy : V;
  r_typed_policy : Authority.TypedPolicy;
  r_installed_model : Authority.InstalledModelStamp;
  r_reference_generation : Z;
  r_stop_generation : Z;
  r_binding_invalidated : bool;
  r_phase : ReferencePhase;
  r_overall_deadline : Z;
  r_phase_deadline : Z;
  r_armed : bool;
  r_device_epoch : option Z;
  r_reporting : list ReferenceReportingAttempt;
  r_receive : option ReferenceReceiveSummary;
  r_request_watermark : Z;
  r_identity_requested_at : option (Z * Z);
  r_uid : option (list Z);
  r_ack : option PhysicalAck
}.

Record RetainedOutcome : Type := mkRetained {
  o_request : ReferenceRequest V;
  o_terminal : ReferenceTerminal;
  o_stage : option RetainedStage
}.

Definition o_handle (o : RetainedOutcome) : ReferenceHandle := t_handle (o_terminal o).
Definition o_joint (o : RetainedOutcome) : string := t_joint (o_terminal o).

(** [RetainedOutcome::retire] *)
Definition retire (reason : ReferenceStageInvalidation) (o : RetainedOutcome) : RetainedOutcome :=
  match o_stage o with
  | Some g =>
      match sg_invalidated g with
      | None => mkRetained (o_request o) (o_terminal o) (Some (set_invalidated reason g))
      | Some _ => o
      end
  | None => o
  end.

Record CommitOwner : Type := mkCommits {
  c_identity : Z;
  c_next_sequence : Z;
  c_journal : option (State Input);
  c_pending : list Entry;
  c_outcomes : list Entry;
  c_selection : CommitSelection
}.

Definition commits_default (identity : Z) : CommitOwner := mkCommits identity 1 None [] [] HistoryOnly.

Definition entries (c : CommitOwner) : list Entry := c_pending c ++ c_outcomes c.

Definition is_pending (e : Entry) : bool := bool_decide (e_phase e = CommitPending).

Definition c_busy (c : CommitOwner) : bool := existsb is_pending (c_pending c).

Definition selects_current (c : CommitOwner) : bool :=
  bool_decide (is_Some (c_journal c)) && negb (bool_decide (c_selection c = HistoryOnly)).

Definition map_entries (f : Entry -> Entry) (c : CommitOwner) : CommitOwner :=
  mkCommits (c_identity c) (c_next_sequence c) (c_journal c) (f <$> c_pending c) (f <$> c_outcomes c)
    (c_selection c).

(** [ReferenceOwner] and [CommitOwner]; [w_origin] is the physical backend's
    clock origin and [w_next_arc] names the next [Arc::new(())]. *)
Record Work : Type := mkWork {
  w_identity : Z;
  w_next_sequence : Z;
  w_origin : Z;
  w_reservation : option Reservation;
  w_heap : list RetainedOutcome;
  w_outcomes : list nat;
  w_pending_commit : option PendingCommit;
  w_request_failures : list (ReferenceHandle * string);
  w_commits : CommitOwner;
  w_next_arc : Z
}.

Definition set_reservation (x : option Reservation) (w : Work) : Work :=
  mkWork (w_identity w) (w_next_sequence w) (w_origin w) x (w_heap w) (w_outcomes w) (w_pending_commit w)
    (w_request_failures w) (w_commits w) (w_next_arc w).
Definition set_heap (x : list RetainedOutcome) (w : Work) : Work :=
  mkWork (w_identity w) (w_next_sequence w) (w_origin w) (w_reservation w) x (w_outcomes w)
    (w_pending_commit w) (w_request_failures w) (w_commits w) (w_next_arc w).
Definition set_commits (x : CommitOwner) (w : Work) : Work :=
  mkWork (w_identity w) (w_next_sequence w) (w_origin w) (w_reservation w) (w_heap w) (w_outcomes w)
    (w_pending_commit w) (w_request_failures w) x (w_next_arc w).
Definition set_pending_commit (x : option PendingCommit) (w : Work) : Work :=
  mkWork (w_identity w) (w_next_sequence w) (w_origin w) (w_reservation w) (w_heap w) (w_outcomes w) x
    (w_request_failures w) (w_commits w) (w_next_arc w).

(** Write through a pointer. *)
Definition alter_stage (f : RetainedOutcome -> RetainedOutcome) (p : nat) (w : Work) : Work :=
  set_heap (alter f p (w_heap w)) w.

Definition retire_at (reason : ReferenceStageInvalidation) (p : nat) (w : Work) : Work :=
  alter_stage (retire reason) p w.

Definition record_request_failure (h : ReferenceHandle) (m : string) (w : Work) : Work :=
  mkWork (w_identity w) (w_next_sequence w) (w_origin w) (w_reservation w) (w_heap w) (w_outcomes w)
    (w_pending_commit w) (push_bounded REQUEST_FAILURE_CAPACITY (h, m) (w_request_failures w))
    (w_commits w) (w_next_arc w).

Definition request_failure (h : ReferenceHandle) (w : Work) : option string :=
  snd <$> find_first (fun p : ReferenceHandle * string => bool_decide (p.1 = h)) (reverse (w_request_failures w)).

(** [invalidate_retained_stages] *)
Definition invalidate_retained_stages (reason : ReferenceStageInvalidation) (w : Work) : Work :=
  fold_left (fun w p => retire_at reason p w) (w_outcomes w) w.

(** Retire the stage of every commit and end the pending ones. *)
Definition end_commits (reason : ReferenceStageInvalidation) (p : ReferenceCommitPhase) (w : Work) : Work :=
  let w := fold_left (fun w e => retire_at reason (e_stage e) w) (entries (w_commits w)) w in
  set_commits (map_entries (fun e => if is_pending e then set_phase p e else e) (w_commits w)) w.

Definition invalidate_reference_commits (reason : ReferenceStageInvalidation) (w : Work) : Work :=
  end_commits reason (CommitInvalidated reason) w.

(** [cancel_reference_commits] up to its revocation, which belongs to the authority. *)
Definition cancel_reference_commits (reason : ReferenceCancelReason) (w : Work) : Work :=
  end_commits (if bool_decide (reason = CancelShutdown) then Shutdown else CommitRetired)
    (CommitCancelled reason) w.

(** The terminal of a reservation, retained with the stage it accepted. *)
Definition retain (cause : ReferenceCause) (r : Reservation) (stage : option RetainedStage) (report : StopReport)
  (w : Work) : ReferenceTerminal * Work :=
  let terminal := mkTerminal (r_handle r) (rq_joint (r_request r)) cause report (r_reporting r) (r_receive r) in
  let p := length (w_heap w) in
  (terminal,
   mkWork (w_identity w) (w_next_sequence w) (w_origin w) None
     (w_heap w ++ [mkRetained (r_request r) terminal stage])
     (push_bounded TERMINAL_CAPACITY p (w_outcomes w)) (w_pending_commit w) (w_request_failures w)
     (w_commits w) (w_next_arc w)).

Definition cause_of (c : FinishCause) : ReferenceCause :=
  match c with
  | FinishDisable => CCancelled CancelDisable
  | FinishHazard m => failure KHazard m
  end.

(** An outcome without a stage has nothing to observe. *)
Definition finish_without_evidence (c : FinishCause) (w : Work) (report : StopReport) : Work :=
  match w_reservation w with
  | Some r => (retain (cause_of c) r None report w).2
  | None => w
  end.

Lemma fold_retire_frame {A : Type} (reason : ReferenceStageInvalidation) (f : A -> nat) (l : list A) :
  forall w : Work,
  let w' := fold_left (fun w x => retire_at reason (f x) w) l w in
  w_reservation w' = w_reservation w /\ w_commits w' = w_commits w /\ w_outcomes w' = w_outcomes w.
Proof. induction l as [|x l IH]; intros w; [auto|]. exact (IH (retire_at reason (f x) w)). Qed.

Lemma end_commits_frame (reason : ReferenceStageInvalidation) (p : ReferenceCommitPhase) (w : Work) :
  w_reservation (end_commits reason p w) = w_reservation w.
Proof. unfold end_commits. cbn. apply fold_retire_frame. Qed.

(** Ending the commits leaves none pending. *)
Lemma end_commits_idle (reason : ReferenceStageInvalidation) (p : ReferenceCommitPhase) (w : Work) :
  p <> CommitPending -> c_busy (w_commits (end_commits reason p w)) = false.
Proof.
  intros Hp. unfold end_commits, c_busy. cbn [w_commits set_commits map_entries c_pending].
  apply not_true_iff_false. rewrite existsb_exists. intros (e & He & Hpe).
  apply list_elem_of_In, list_elem_of_fmap in He as (e0 & -> & _).
  destruct (is_pending e0) eqn:Ed; [|congruence].
  unfold is_pending in Hpe. cbn in Hpe. by apply bool_decide_eq_true in Hpe.
Qed.

End Work.
Arguments Reservation : clear implicits.
Arguments RetainedOutcome : clear implicits.
Arguments Work : clear implicits.

Section Interface.
Context {V : Type}.

Definition reserved (w : Work V) : bool := bool_decide (is_Some (w_reservation w)).

Lemma cancel_keeps_reserved (w : Work V) : reserved (cancel_reference_commits CancelDisable w) = reserved w.
Proof. unfold reserved, cancel_reference_commits. by rewrite end_commits_frame. Qed.

Lemma cancel_ends_pending (w : Work V) : c_busy (w_commits (cancel_reference_commits CancelDisable w)) = false.
Proof. by apply end_commits_idle. Qed.

Lemma invalidate_keeps_reserved (w : Work V) : reserved (invalidate_reference_commits SafetyHazard w) = reserved w.
Proof. unfold reserved, invalidate_reference_commits. by rewrite end_commits_frame. Qed.

Lemma finish_ends_reservation (c : FinishCause) (w : Work V) (rep : StopReport) :
  reserved (finish_without_evidence c w rep) = false.
Proof. unfold reserved, finish_without_evidence. destruct (w_reservation w) eqn:E; [done|]. by rewrite E. Qed.

(** The supervisor's interface to pending reference work, implemented. *)
#[export] Instance OwnerWork : ReferenceWork (Work V) := {
  acquisition_busy := reserved;
  commits_busy w := c_busy (w_commits w);
  pending_commit w := bool_decide (is_Some (w_pending_commit w));
  commits_waiting w := negb (is_empty (c_pending (w_commits w)));
  cancel_commits := cancel_reference_commits CancelDisable;
  invalidate_commits := invalidate_reference_commits SafetyHazard;
  retain_terminal := finish_without_evidence;
  cancel_keeps_acquisition := cancel_keeps_reserved;
  cancel_ends_commits := cancel_ends_pending;
  invalidate_keeps_acquisition := invalidate_keeps_reserved;
  terminal_ends_acquisition := finish_ends_reservation
}.

End Interface.

End Reference.
