(* ===== verification/Acquire.v ===== *)
(** * Acquire: the reference acquisition state machine

    [src/crates/davout/src/reference_transaction.rs] on the physical backend:
    reserve, then one phase per [advance_reference] (stop, drain, identity,
    arm, zero, acknowledge, read back), each exit ending in an all-address
    stop; the retained outcomes and the staged evidence a commit may use; and
    [reference_request_preflight] of [src/crates/davout/src/lib.rs].

    An operation on [&self] that writes cells returns the new state.  The
    sealed virtual backend is left out, so [AwaitEvidence] finds no proof.
    Log lines and the clock readings inside them are left out.  Rendered errors
    ([display], [display_bus], [display_reference]) and numbers, the JSON value of the
    installed policy and its length, and the codec's bytes of a policy are
    parameters.  A backend call that panics counts as a failed write. *)

From Stdlib Require Import ZArith Lia Bool.
From stdpp Require Import base gmap strings list pretty.
From S2P Require Import Prelude Float Comm Config Validate Params Bus Receive Feedback Reporting Faults Davout Filter Admission Authority Physical Lifecycle Session Consume Enable Journal History Reference.

Module Acquire.
Import Params Bus Receive Feedback Faults Davout Filter Admission Lifecycle Session Consume Enable Journal History Reference.

Section Acquire.
Context {B : Type} `{CanBus B} {V : Type} `{EqDecision V}.
Variable display : DavoutError -> string.
Variable display_bus : BusError -> string.
Variable display_reference : ReferenceError -> string.
Variable display_f64 : f64 -> string.
(** [serde_json::to_value] of (motors, control, homing), and [to_vec(..).len()]. *)
Variable to_value : list Config.MotorEntry -> Config.ControlSection -> Config.HomingSection -> result string V.
Variable value_len : V -> result string Z.
(** [reference_codec::encode]. *)
Variable encode_policy : Authority.TypedPolicy -> result string (list Z).

Abbreviation S := (Sup B (Work V)).
Abbreviation M A := (A * S)%type.

(** ** Small accessors *)

Definition stop_generation_of (s : S) : Z := stop_generation (fault_authority (adm s)).
Definition reference_generation (s : S) : Z := Authority.generation (authority s).
Definition model_matches (m : Authority.InstalledModelStamp) (s : S) : bool :=
  Authority.stamp_eqb (installed_model (installed s)) m.

(** [backend.now()] *)
Definition backend_now (s : S) : M Z :=
  let '(t, s) := tick s in (elapsed (w_origin (rwork s)) t, s).

(** [reference_owner.mark_owner_work()] *)
Definition mark_owner_work (s : S) : S :=
  if has_backend s then let '(t, s) := tick s in set_physical (Physical.mark_owner_work t (physical s)) s else s.

Definition update_reservation (f : Reservation V -> Reservation V) (s : S) : S :=
  set_rwork (set_reservation (f <$> w_reservation (rwork s)) (rwork s)) s.

(** [TypedPolicy::matches] *)
Definition policy_encodes (p q : Authority.TypedPolicy) : bool :=
  match encode_policy p, encode_policy q with
  | Ok a, Ok b => bool_decide (a = b)
  | _, _ => false
  end.

(** ** The installed policy *)

Definition same_drive (old current : Config.MotorEntry) : bool :=
  bool_decide (Config.joint old = Config.joint current)
  && bool_decide (Config.driver old = Config.driver current)
  && bool_decide (Config.motor_type old = Config.motor_type current)
  && bool_decide (Config.can_interface old = Config.can_interface current)
  && (Config.device_id old =? Config.device_id current)
  && (Config.direction old =? Config.direction current)
  && feq (Config.gear_ratio old) (Config.gear_ratio current)
  && (Config.recv_can_id old =? Config.recv_can_id current)
  && bool_decide (Config.firmware_version old = Config.firmware_version current).

Definition reference_policy (s : S) : result ReferenceError V :=
  map_err (fun e => RAdmission (EConfig e))
    (Validate.validate_safety_config (robot (installed s)) (motors (adm s)) (sv_control (adm s))
       (homing_config (installed s))) ;!
  refuse_if (negb (length (stop_motors s) =? length (motors (adm s)))%nat
             || negb (forallb (fun p => same_drive p.1 p.2) (zip (stop_motors s) (motors (adm s)))))
    (RInvalidRequest "public mapping differs from the installed drive/frame policy") ;!
  let! value := map_err (fun m => RInvalidRequest (bounded_message m))
                  (to_value (motors (adm s)) (sv_control (adm s)) (homing_config (installed s))) in
  let! len := map_err (fun m => RInvalidRequest (bounded_message m)) (value_len value) in
  refuse_if (POLICY_CAPACITY <? len)
    (RInvalidRequest "installed reference policy exceeds the bounded transaction capacity") ;!
  Ok value.

Definition policy_is (v : V) (s : S) : bool :=
  match reference_policy s with Ok p => bool_decide (p = v) | _ => false end.

(** ** Staged evidence *)

Definition latest_handle (w : Work V) : option ReferenceHandle :=
  p ← last (w_outcomes w); o_handle <$> w_heap w !! p.

Definition identity_matches (o : RetainedOutcome V) (g : RetainedStage) (s : S) : bool :=
  let proof := ev_proof (sg_evidence g) in
  (cr_owner proof =? w_identity (rwork s)) && (cr_owner proof =? h_owner (o_handle o))
  && bool_decide (backend_realm (installed s) = Some (cr_realm proof))
  && (cr_transaction proof =? h_sequence (o_handle o)).

Definition pop_matches (e : AcceptedReferenceEvidence) : bool :=
  let proof := ev_proof e in
  bool_decide (cr_address proof = ev_address e) && (cr_order proof =? ev_order e)%nat
  && (cr_can_id proof =? ev_can_id e) && (cr_received_at proof =? ev_received_at e).

Definition target_matches (j : string) (a : MotorAddress) (s : S) : bool :=
  existsb (fun m => bool_decide (Config.joint m = j) && bool_decide (address_of_motor m = a)) (stop_motors s).

Definition receive_matches (order : nat) (r : option ReferenceReceiveSummary) : bool :=
  match r with
  | Some r =>
      is_complete (rv_completion r) && (rv_raw_frames r <=? MAX_RX_FRAMES_PER_POLL)%nat
      && (rv_read_attempts r <=? MAX_RX_ATTEMPTS_PER_POLL)%nat && (order <? rv_raw_frames r)%nat
  | None => false
  end.

Definition sign_ok (j : string) (verified : bool) (s : S) : bool :=
  match Config.effective_joint_ref (homing_config (installed s)) j with
  | Some p => negb (Config.e_sign_test_required p && negb verified)
  | None => false
  end.

Definition tolerance (s : S) : f64 := Config.zero_verify_tolerance_rad (homing_config (installed s)).

Definition uid_holds (g : RetainedStage) (s : S) : bool :=
  match sg_physical g with
  | Some p => bool_decide (Physical.uid (ev_address (sg_evidence g)) (physical s) = Some (pe_uid p))
  | None => true
  end.

(** Every binding of the stage still holds. *)
Definition stage_bound (o : RetainedOutcome V) (g : RetainedStage) (s : S) : bool :=
  let e := sg_evidence g in
  let q := o_request o in
  bool_decide (t_cause (o_terminal o) = EvidenceStaged)
  && identity_matches o g s && pop_matches e && target_matches (rq_joint q) (ev_address e) s
  && receive_matches (ev_order e) (t_receive (o_terminal o)) && is_finite (ev_position_rad e)
  && bool_decide (Physical.epoch (ev_address e) (physical s) = Some (cr_device_epoch (ev_proof e)))
  && uid_holds g s && (reference_generation s =? sg_reference_generation g)
  && model_matches (sg_installed_model g) s && policy_is (rs_policy (rq_stamp q)) s
  && policy_encodes (sg_typed_policy g) (live_policy s)
  && bool_decide (mode (adm s) = Disabled) && bool_decide (sv_control_mode (adm s) = CDisabled)
  && rq_confirmed q && sign_ok (rq_joint q) (rq_sign_verified q) s
  && negb (fgt (fabs (f64_of_f32 (ev_position_rad e))) (tolerance s)).

Definition staged_reference_invalidation (o : RetainedOutcome V) (g : RetainedStage) (s : S)
  : M (option ReferenceStageInvalidation) :=
  let stop := t_stop (o_terminal o) in
  let w := rwork s in
  if (0 <? failed_writes stop)%nat then (Some StopUncertain, s)
  else if (stop_generation_of s =? U64_MAX) || (generation stop =? U64_MAX) then (Some CounterExhausted, s)
  else if reserved w || negb (bool_decide (latest_handle w = Some (o_handle o)))
          || negb (bool_decide (checked_add_u64 (h_sequence (o_handle o)) 1 = Some (w_next_sequence w)))
  then (Some Superseded, s)
  else if negb (has_backend s) then (Some BindingChanged, s)
  else
    let '(now, s) := backend_now s in
    if sg_overall_deadline g <=? now then (Some DeadlineExpired, s)
    else if has_latched_fault s || hardware_estop s then (Some SafetyHazard, s)
    else if negb (stop_generation_of s =? generation stop) then (Some StopChanged, s)
    else if negb (stage_bound o g s) then (Some BindingChanged, s)
    else (None, s).

(** [retained_stage_status], through the pointer. *)
Definition retained_stage_status (p : nat) (s : S) : M ReferenceStageStatus :=
  match w_heap (rwork s) !! p with
  | None => (NoEvidence, s)
  | Some o =>
      match o_stage o with
      | None => (NoEvidence, s)
      | Some g =>
          match sg_invalidated g with
          | Some reason => (Invalidated reason, s)
          | None =>
              let '(found, s) := staged_reference_invalidation o g s in
              match found with
              | Some reason => (Invalidated reason, set_rwork (retire_at reason p (rwork s)) s)
              | None => (CurrentEvidence, s)
              end
          end
      end
  end.

(** The pointer of the cached outcome of [h]. *)
Definition find_outcome (h : ReferenceHandle) (w : Work V) : option nat :=
  find_first (fun p => bool_decide (o_handle <$> w_heap w !! p = Some h)) (w_outcomes w).

Definition reference_stage_status_for (h : ReferenceHandle) (s : S) : M ReferenceStageStatus :=
  match find_outcome h (rwork s) with
  | None => (NoEvidence, s)
  | Some p => retained_stage_status p s
  end.

Definition observe_staged_reference (s : S) : M ReferenceStageStatus :=
  match latest_handle (rwork s) with
  | None => (NoEvidence, s)
  | Some h => reference_stage_status_for h s
  end.

(** ** Observing the commits ([reference_commit.rs]) *)

Fixpoint observe_entries (es : list Entry) (s : S) : list Entry * S :=
  match es with
  | [] => ([], s)
  | e :: rest =>
      let '(e, s) :=
        if is_pending e then
          let '(status, s) := retained_stage_status (e_stage e) s in
          (match status with Invalidated reason => set_phase (CommitInvalidated reason) e | _ => e end, s)
        else (e, s) in
      let '(rest, s) := observe_entries rest s in (e :: rest, s)
  end.

Definition observe_reference_commits (s : S) : S :=
  let c := w_commits (rwork s) in
  let '(ps, s) := observe_entries (c_pending c) s in
  let '(os, s) := observe_entries (c_outcomes c) s in
  set_rwork (set_commits (mkCommits (c_identity c) (c_next_sequence c) (c_journal c) ps os (c_selection c))
               (rwork s)) s.

(** The observations as the supervisor's interface sees them: the work left and
    the clock readings taken. *)
Definition seen_by (f : S -> S) (s : S) : Work V * nat :=
  (rwork (f s), (cursor (hostclock (f s)) - cursor (hostclock s))%nat).

Definition observed : Observer B (Work V) :=
  mkObserver (seen_by observe_reference_commits) (seen_by (fun s => (observe_staged_reference s).2)).

Definition reference_binding_valid (s : S) : M bool := reference_binding_valid_with observed Judge s.

(** ** Snapshots *)

(** [usable_reference] is always false. *)
Record ReferenceSnapshot : Type := mkRefSnapshot {
  sn_phase : ReferencePhase;
  sn_joint : option string;
  sn_handle : option ReferenceHandle;
  sn_next_stamp : option (ReferenceStamp V);
  sn_remaining : option Z;
  sn_reference_armed : bool;
  sn_terminal : option ReferenceTerminal;
  sn_receive : option ReferenceReceiveSummary;
  sn_staged_evidence : ReferenceStageStatus
}.

Definition mark_binding_invalidated (r : Reservation V) : Reservation V :=
  mkReservation (r_request r) (r_handle r) (r_address r) (r_policy r) (r_typed_policy r)
    (r_installed_model r) (r_reference_generation r) (r_stop_generation r) true (r_phase r)
    (r_overall_deadline r) (r_phase_deadline r) (r_armed r) (r_device_epoch r) (r_reporting r)
    (r_receive r) (r_request_watermark r) (r_identity_requested_at r) (r_uid r) (r_ack r).

Definition next_stamp (policy : option V) (s : S) : option (ReferenceStamp V) :=
  let w := rwork s in
  match checked_add_u64 (w_next_sequence w) 1 with
  | Some _ =>
      (fun v => mkRefStamp (w_identity w) (w_next_sequence w) (stop_generation_of s) (reference_generation s)
                  (installed_model (installed s)) v) <$> policy
  | None => None
  end.

(** A live reservation whose binding no longer holds is marked for good. *)
Definition note_binding (policy : option V) (s : S) : S :=
  match w_reservation (rwork s) with
  | Some r =>
      if negb (bool_decide (policy = Some (r_policy r))) || negb (model_matches (r_installed_model r) s)
      then update_reservation mark_binding_invalidated s
      else s
  | None => s
  end.

Definition reference_snapshot (s : S) : M ReferenceSnapshot :=
  let '(_, s) := reference_binding_valid s in
  let policy := Authority.result_ok (reference_policy s) in
  let s := note_binding policy s in
  let stamp := next_stamp policy s in
  match w_reservation (rwork s) with
  | Some r =>
      let '(now, s) := if has_backend s then backend_now s else (0, s) in
      (mkRefSnapshot (r_phase r) (Some (rq_joint (r_request r))) (Some (r_handle r)) stamp
         (Some (Z.max 0 (Z.min (r_overall_deadline r) (r_phase_deadline r) - now))) (r_armed r) None
         (r_receive r) NoEvidence, s)
  | None =>
      let terminal := p ← last (w_outcomes (rwork s)); o_terminal <$> w_heap (rwork s) !! p in
      let '(status, s) := observe_staged_reference s in
      (mkRefSnapshot (if terminal is Some _ then Terminal else PIdle) (t_joint <$> terminal)
         (t_handle <$> terminal) stamp None false terminal (terminal ≫= t_receive) status, s)
  end.

Definition snapshot_for_terminal (t : ReferenceTerminal) (s : S) : M ReferenceSnapshot :=
  let '(n, s) := reference_snapshot s in
  let '(status, s) := reference_stage_status_for (t_handle t) s in
  (mkRefSnapshot Terminal (Some (t_joint t)) (Some (t_handle t)) (sn_next_stamp n) None false (Some t)
     (t_receive t) status, s).

(** ** Finishing *)

Definition finish_stop (existing : option StopReport) (accepted : bool) (s : S) : StopReport * S :=
  match existing with
  | Some stop => (stop, s)
  | None =>
      let pacer := if accepted && has_backend s && echoes_transmissions (bus s) then Some ∅ else None in
      let '(report, _, s) := perform_stop_paced observed false pacer s in (report, s)
  end.

Definition finish_reference (cause : ReferenceCause) (existing : option StopReport)
  (accepted : option (AcceptedReferenceEvidence * option PhysicalEvidence)) (s : S)
  : M (result ReferenceError ReferenceTerminal) :=
  match w_reservation (rwork s) with
  | None => (Err ROutcomeExpired, s)
  | Some r =>
      let s := set_rwork (set_reservation None (rwork s)) s in
      let '(stop, s) := finish_stop existing (bool_decide (is_Some accepted)) s in
      let s := mark_owner_work s in
      let stage :=
        (fun a => mkStage a.1 a.2 (r_installed_model r) (r_overall_deadline r) (reference_generation s) None
                    (r_typed_policy r)) <$> accepted in
      let '(terminal, w) := retain cause r stage stop (rwork s) in
      let '(_, s) := observe_staged_reference (set_rwork w s) in
      (Ok terminal, s)
  end.

(** [finish_reference(..)?] and the terminal's snapshot. *)
Definition finish_with (cause : ReferenceCause) (existing : option StopReport)
  (accepted : option (AcceptedReferenceEvidence * option PhysicalEvidence)) (s : S)
  : M (result ReferenceError ReferenceSnapshot) :=
  match finish_reference cause existing accepted s with
  | (Ok terminal, s) => let '(n, s) := snapshot_for_terminal terminal s in (Ok n, s)
  | (Err e, s) => (Err e, s)
  | (Panic, s) => (Panic, s)
  end.

Definition fail_reference (kind : ReferenceFailureKind) (message : string) (s : S)
  : M (result ReferenceError ReferenceSnapshot) :=
  let s := match kind with
           | KDelivery | KBackend => (record_fault FTransport None None message device_default s).2
           | _ => s
           end in
  finish_with (failure kind message) None None s.

Definition retained_reference (h : ReferenceHandle) (s : S) : result ReferenceError (option ReferenceTerminal) :=
  if negb (h_owner h =? w_identity (rwork s)) then Err RForeignIdentity
  else Ok (p ← find_outcome h (rwork s); o_terminal <$> w_heap (rwork s) !! p).

Definition live_reference (h : ReferenceHandle) (s : S) : result ReferenceError (Reservation V) :=
  match w_reservation (rwork s) with
  | Some r => if bool_decide (r_handle r = h) then Ok r else Err ROutcomeExpired
  | None => Err ROutcomeExpired
  end.

(** ** Reserving ([begin_reference]) *)

Definition reference_request_preflight (j : string) (sign_test : option bool) (s : S)
  : M (result DavoutError unit) :=
  let '(_, s) := reference_binding_valid s in
  (require_fault_clear (adm s) ;!
   refuse_if (hardware_estop s) EEstop ;!
   ok_or (Config.motor_for_joint (motors (adm s)) j) (EUnknownJoint j) ;!
   map_err EConfig (Validate.validate_safety_config (robot (installed s)) (motors (adm s)) (sv_control (adm s))
                      (homing_config (installed s))) ;!
   let! policy := ok_or (Config.effective_joint_ref (homing_config (installed s)) j)
                    (EHoming (Msg "joint {} missing homing policy" [AStr j])) in
   refuse_if (negb (bool_decide (Config.e_method policy = Config.ManualReference)))
     (EReferenceUnsupported "configured reference method") ;!
   refuse_if (Config.e_sign_test_required policy && bool_decide (sign_test = Some false))
     (EHomingVerify j (msg "sign test required before reference request")), s).

Definition phase_deadline (now overall : Z) (p : ReferencePhase) : result ReferenceError Z :=
  if bool_decide (p = AwaitEvidence) then Ok overall
  else ok_or (duration_checked_add now (Z.min PHASE_TIMEOUT (Z.max 0 (overall - now)))) RCounterExhausted.

(** The time a reservation may take, its homing policy checked. *)
Definition homing_timeout (j : string) (s : S) : result ReferenceError Z :=
  let! homing := ok_or (Config.effective_joint_ref (homing_config (installed s)) j)
                   (RInvalidRequest "selected homing policy is absent") in
  refuse_if (negb (feq (Config.e_home_offset_rad homing) fzero) || bool_decide (is_Some (Config.e_sensors homing)))
    RUnsupported ;!
  let! timeout := ok_or (try_from_secs_f64 (Config.e_search_timeout_s homing))
                    (RInvalidRequest "reference timeout is not representable") in
  refuse_if (timeout =? 0) (RInvalidRequest "reference timeout rounds to zero") ;!
  Ok timeout.

(** The overall and the first phase's deadline. *)
Definition reservation_deadlines (now timeout : Z) : result ReferenceError (Z * Z) :=
  let! overall := ok_or (duration_checked_add now timeout) RCounterExhausted in
  let! first := phase_deadline now overall BaselineStop in
  Ok (overall, first).

(** The stamp still describes this owner. *)
Definition stamp_current (q : ReferenceStamp V) (policy : V) (s : S) : bool :=
  (rs_sequence q =? w_next_sequence (rwork s)) && (rs_stop_generation q =? stop_generation_of s)
  && (rs_reference_generation q =? reference_generation s) && model_matches (rs_installed_model q) s
  && bool_decide (rs_policy q = policy).

Definition with_modes (m : OperationalMode) (c : ControlMode) (a : Admission.Supervisor) : Admission.Supervisor :=
  mkSupervisor m c (fault_authority a) (sv_limits a) (motors a) (motor_addresses a) (sv_control a)
    (motor_states a) (active_since a) (set_zero_on_wire a) (invalid_feedback a) (sv_last_tau_ff a)
    (total_torque_clamps a) (envelope_clamps a) (sv_wrong_sign_state a) (last_tick a) (active_joints a)
    (unanswered_solicits a) (shed a).

Definition with_next_sequence (n : Z) (w : Work V) : Work V :=
  mkWork (w_identity w) n (w_origin w) (w_reservation w) (w_heap w) (w_outcomes w) (w_pending_commit w)
    (w_request_failures w) (w_commits w) (w_next_arc w).

(** The reservation itself: the target's permission goes, the owner is busy. *)
Definition reserve (q : ReferenceRequest V) (policy : V) (next : Z) (address : MotorAddress)
  (overall first : Z) (s : S) : M (result ReferenceError ReferenceHandle) :=
  let '(generation, a) := Authority.invalidate_joint_for_acquisition (rq_joint q) (authority s) in
  match generation with
  | None => (Err RCounterExhausted, s)
  | Some generation =>
      let s := mark_owner_work (set_authority a s) in
      let handle := mkHandle (w_identity (rwork s)) (rs_sequence (rq_stamp q)) in
      let typed := live_policy s in
      let w := with_next_sequence next (invalidate_retained_stages Superseded (rwork s)) in
      let s := set_adm (with_modes Disabled CDisabled (adm s)) s in
      let e := session s in
      let s := set_session (mkSession (enable_echo_pending e) [] None (reporting_off_since e)
                 (reporting_off_echoed e)) s in
      let r := mkReservation q handle address policy typed (rs_installed_model (rq_stamp q)) generation
                 (stop_generation_of s) false BaselineStop overall first false None [] None 0 None None None in
      (Ok handle, set_rwork (set_reservation (Some r) w) s)
  end.

(** [begin_reference] for a request nobody holds yet. *)
Definition begin_fresh (q : ReferenceRequest V) (s : S) : M (result ReferenceError ReferenceHandle) :=
  let s := observe_reference_commits s in
  let w := rwork s in
  if c_busy (w_commits w) || bool_decide (is_Some (w_pending_commit w)) then (Err RBusy, s)
  else if rs_sequence (rq_stamp q) <? w_next_sequence w then (Err ROutcomeExpired, s)
  else
    let '(_, s) := reference_binding_valid s in
    match (let! next := ok_or (checked_add_u64 (w_next_sequence (rwork s)) 1) RCounterExhausted in
           let! policy := reference_policy s in
           refuse_if (negb (stamp_current (rq_stamp q) policy s)) RStaleStamp ;!
           refuse_if (negb (rq_confirmed q)) (RInvalidRequest "operator confirmation is required") ;!
           Ok (next, policy)) with
    | Err e => (Err e, s)
    | Panic => (Panic, s)
    | Ok (next, policy) =>
        match reference_request_preflight (rq_joint q) (Some (rq_sign_verified q)) s with
        | (Err e, s) => (Err (RAdmission e), s)
        | (Panic, s) => (Panic, s)
        | (Ok _, s) =>
            if bool_decide (mode (adm s) = Active)
            then (Err (RInvalidRequest "disable ordinary motion before acquisition"), s)
            else
              match homing_timeout (rq_joint q) s with
              | Err e => (Err e, s)
              | Panic => (Panic, s)
              | Ok timeout =>
                  let '(now, s) := backend_now s in
                  match (let! d := reservation_deadlines now timeout in
                         let! m := ok_or (find_first (fun m => bool_decide (Config.joint m = rq_joint q)) (stop_motors s))
                                     (RInvalidRequest "target is outside installed routes") in
                         map_err (fun m => RInvalidRequest (bounded_message m)) (encode_policy (live_policy s)) ;!
                         Ok (d, address_of_motor m)) with
                  | Err e => (Err e, s)
                  | Panic => (Panic, s)
                  | Ok ((overall, first), address) => reserve q policy next address overall first s
                  end
              end
        end
    end.

Definition begin_reference (q : ReferenceRequest V) (s : S) : M (result ReferenceError ReferenceHandle) :=
  if negb (has_backend s) then (Err RUnsupported, s)
  else if negb (rs_owner (rq_stamp q) =? w_identity (rwork s)) then (Err RForeignIdentity, s)
  else
    match find_first (fun o => rs_sequence (rq_stamp (o_request o)) =? rs_sequence (rq_stamp q))
            (omap (fun p => w_heap (rwork s) !! p) (w_outcomes (rwork s))) with
    | Some o => (if same_request (o_request o) q then Ok (o_handle o) else Err RConflictingRetry, s)
    | None =>
        match w_reservation (rwork s) with
        | Some r =>
            (if rs_sequence (rq_stamp (r_request r)) =? rs_sequence (rq_stamp q) then
               if same_request (r_request r) q then Ok (r_handle r) else Err RConflictingRetry
             else Err RBusy, s)
        | None => begin_fresh q s
        end
    end.

(** ** Field updates of the live reservation *)

Definition r_set_stop_generation (g : Z) (r : Reservation V) : Reservation V :=
  mkReservation (r_request r) (r_handle r) (r_address r) (r_policy r) (r_typed_policy r)
    (r_installed_model r) (r_reference_generation r) g (r_binding_invalidated r) (r_phase r)
    (r_overall_deadline r) (r_phase_deadline r) (r_armed r) (r_device_epoch r) (r_reporting r)
    (r_receive r) (r_request_watermark r) (r_identity_requested_at r) (r_uid r) (r_ack r).
Definition r_set_reporting (l : list ReferenceReportingAttempt) (r : Reservation V) : Reservation V :=
  mkReservation (r_request r) (r_handle r) (r_address r) (r_policy r) (r_typed_policy r)
    (r_installed_model r) (r_reference_generation r) (r_stop_generation r) (r_binding_invalidated r) (r_phase r)
    (r_overall_deadline r) (r_phase_deadline r) (r_armed r) (r_device_epoch r) l
    (r_receive r) (r_request_watermark r) (r_identity_requested_at r) (r_uid r) (r_ack r).
Definition r_set_request (watermark : Z) (asked : option (Z * Z)) (r : Reservation V) : Reservation V :=
  mkReservation (r_request r) (r_handle r) (r_address r) (r_policy r) (r_typed_policy r)
    (r_installed_model r) (r_reference_generation r) (r_stop_generation r) (r_binding_invalidated r) (r_phase r)
    (r_overall_deadline r) (r_phase_deadline r) (r_armed r) (r_device_epoch r) (r_reporting r)
    (r_receive r) watermark asked (r_uid r) (r_ack r).
Definition r_set_armed (r : Reservation V) : Reservation V :=
  mkReservation (r_request r) (r_handle r) (r_address r) (r_policy r) (r_typed_policy r)
    (r_installed_model r) (r_reference_generation r) (r_stop_generation r) (r_binding_invalidated r) (r_phase r)
    (r_overall_deadline r) (r_phase_deadline r) true (r_device_epoch r) (r_reporting r)
    (r_receive r) (r_request_watermark r) (r_identity_requested_at r) (r_uid r) (r_ack r).
Definition r_set_epoch (e : option Z) (r : Reservation V) : Reservation V :=
  mkReservation (r_request r) (r_handle r) (r_address r) (r_policy r) (r_typed_policy r)
    (r_installed_model r) (r_reference_generation r) (r_stop_generation r) (r_binding_invalidated r) (r_phase r)
    (r_overall_deadline r) (r_phase_deadline r) (r_armed r) e (r_reporting r)
    (r_receive r) (r_request_watermark r) (r_identity_requested_at r) (r_uid r) (r_ack r).
Definition r_set_receive (v : ReferenceReceiveSummary) (r : Reservation V) : Reservation V :=
  mkReservation (r_request r) (r_handle r) (r_address r) (r_policy r) (r_typed_policy r)
    (r_installed_model r) (r_reference_generation r) (r_stop_generation r) (r_binding_invalidated r) (r_phase r)
    (r_overall_deadline r) (r_phase_deadline r) (r_armed r) (r_device_epoch r) (r_reporting r)
    (Some v) (r_request_watermark r) (r_identity_requested_at r) (r_uid r) (r_ack r).
Definition r_set_uid (u : list Z) (r : Reservation V) : Reservation V :=
  mkReservation (r_request r) (r_handle r) (r_address r) (r_policy r) (r_typed_policy r)
    (r_installed_model r) (r_reference_generation r) (r_stop_generation r) (r_binding_invalidated r) (r_phase r)
    (r_overall_deadline r) (r_phase_deadline r) (r_armed r) (r_device_epoch r) (r_reporting r)
    (r_receive r) (r_request_watermark r) (r_identity_requested_at r) (Some u) (r_ack r).
Definition r_set_ack (k : PhysicalAck) (r : Reservation V) : Reservation V :=
  mkReservation (r_request r) (r_handle r) (r_address r) (r_policy r) (r_typed_policy r)
    (r_installed_model r) (r_reference_generation r) (r_stop_generation r) (r_binding_invalidated r) (r_phase r)
    (r_overall_deadline r) (r_phase_deadline r) (r_armed r) (r_device_epoch r) (r_reporting r)
    (r_receive r) (r_request_watermark r) (r_identity_requested_at r) (r_uid r) (Some k).
Definition r_set_phase (p : ReferencePhase) (deadline : Z) (r : Reservation V) : Reservation V :=
  mkReservation (r_request r) (r_handle r) (r_address r) (r_policy r) (r_typed_policy r)
    (r_installed_model r) (r_reference_generation r) (r_stop_generation r) (r_binding_invalidated r) p
    (r_overall_deadline r) deadline (r_armed r) (r_device_epoch r) (r_reporting r)
    (r_receive r) (r_request_watermark r) (r_identity_requested_at r) (r_uid r) (r_ack r).

(** ** The phases *)

(** What a phase does: move on, or leave [advance_reference] with this answer. *)
Inductive flow : Type :=
| Next (p : ReferencePhase)
| Leave (r : result ReferenceError ReferenceSnapshot).

(** [return self.fail_reference(..)] *)
Definition leave_failing (kind : ReferenceFailureKind) (message : string) (s : S) : M flow :=
  let '(r, s) := fail_reference kind message s in (Leave r, s).

Definition target_motor (a : MotorAddress) (s : S) : option Config.MotorEntry :=
  find_first (fun m => bool_decide (address_of_motor m = a)) (stop_motors s).

Definition disappeared : flow := Leave (Err (RInvalidRequest "installed target disappeared")).

(** [ActiveReportingState::suspend] with its pacer. *)
Fixpoint suspend_paced (rp : Reporting.ActiveReportingState) (b : B) (ms : list Config.MotorEntry)
  (unrecorded : option MotorAddress) (leave_on : MotorAddress -> bool) (pacer : option BurstPacer)
  (c : clock) (now : Z)
  : list Reporting.ReportingSuspendAttempt * Reporting.ActiveReportingState * B * clock :=
  match ms with
  | [] => ([], rp, b, c)
  | m :: rest =>
      let a := address_of_motor m in
      if negb (bool_decide (unrecorded = Some a))
         && (negb (Reporting.applied_on rp (Config.joint m)) || leave_on a)
      then suspend_paced rp b rest unrecorded leave_on pacer c now
      else
        let '(pacer, c) :=
          match pacer with
          | Some p => let '(p, c) := begin_group (Config.can_interface m) p c in (Some p, c)
          | None => (None, c)
          end in
        let '(r, b) := disable_active_reporting_at b a in
        let rp := match r with Ok _ => Reporting.record_off rp (Config.joint m) now | _ => rp end in
        let '(tail, rp, b, c) := suspend_paced rp b rest unrecorded leave_on pacer c now in
        (Reporting.mkSuspend (Config.joint m) a r :: tail, rp, b, c)
  end.

Definition reporting_attempt (a : Reporting.ReportingSuspendAttempt) : ReferenceReportingAttempt :=
  mkReportingAttempt (Reporting.sa_joint a) (Reporting.sa_address a)
    ((fun e => bounded_message (display_bus e)) <$> error_of (Reporting.sa_result a)).

(** Turn the target's stream Off, and every recorded one but those in their blackout. *)
Definition suspend_reporting (r : Reservation V) (pacer : option BurstPacer) (s : S) : M bool :=
  let '(now, s) := tick s in
  let s := if echoes_transmissions (bus s) then begin_reporting_off_gate now s else s in
  let '(tried, rp, b, c) :=
    suspend_paced (reporting s) (bus s) (stop_motors s) (Some (r_address r))
      (fun a => set_zero_blackout_possible (adm s) a now) pacer (hostclock s) now in
  let s := set_clock c (set_bus b (set_reporting rp s)) in
  let attempts := reporting_attempt <$> tried in
  (existsb (fun a => bool_decide (is_Some (ra_error a))) attempts,
   update_reservation (r_set_reporting attempts) s).

Definition phase_baseline_stop (r : Reservation V) (s : S) : M flow :=
  let pacer := if echoes_transmissions (bus s) then Some ∅ else None in
  let '(stop, pacer, s) := perform_stop_paced observed false pacer s in
  if (0 <? failed_writes stop)%nat then
    let '(r, s) := finish_with (failure KDelivery "baseline stop was uncertain") (Some stop) None s in
    (Leave r, s)
  else
    let s := update_reservation (r_set_stop_generation (generation stop)) s in
    let '(failed, s) := suspend_reporting r pacer s in
    if failed then
      let s := (record_fault FTransport None None "reference reporting suspension failed" device_default s).2 in
      leave_failing KReporting "reporting Off write failed" s
    else (Next DrainOld, s).

(** A bus write whose failure ends the acquisition. *)
Definition written_or_fail (r : result BusError unit) (next : ReferencePhase) (s : S) : M flow :=
  match error_of r with
  | Some e => leave_failing KDelivery (display_bus e) s
  | None => (Next next, s)
  end.

Definition phase_request (identity : bool) (r : Reservation V) (s : S) : M flow :=
  let watermark := Physical.watermark (physical s) in
  let '(asked, s) := if identity then let '(t, s) := tick s in (Some (t, t), s) else (None, s) in
  let s := update_reservation (r_set_request watermark asked) s in
  let '(result, b) := if identity then get_device_id_at (bus s) (r_address r)
                      else read_parameter_at (bus s) (r_address r) MechPos in
  written_or_fail result (if identity then AwaitIdentity else AwaitReadback) (set_bus b s).

Definition phase_arm (r : Reservation V) (s : S) : M flow :=
  let '(refused, s) :=
    if echoes_transmissions (bus s) then
      let '(now, s) := tick s in
      (if negb (reporting_off_settled s (r_address r) now)
       then Some "target reporting Off not settled on the wire before Enable"%string
       else if negb (set_zero_quiet_elapsed (adm s) (r_address r) now)
       then Some "target post-SetZero quiet not elapsed before Enable"%string
       else None, s)
    else (None, s) in
  match refused with
  | Some m => leave_failing KBackend m s
  | None =>
      let s := update_reservation r_set_armed s in
      let '(result, b) := enable_drive_at (bus s) (r_address r) in
      let s := set_bus b s in
      match error_of result with
      | Some e => leave_failing KDelivery (display_bus e) s
      | None =>
          let e := session s in
          let s := if echoes_transmissions (bus s) then
                     set_session (mkSession ({[r_address r]} ∪ enable_echo_pending e) (enable_writes_pending e)
                       (enable_write_due e) (reporting_off_since e) (reporting_off_echoed e)) s
                   else s in
          (Next DrainPostArm, s)
      end
  end.

Definition phase_set_zero (r : Reservation V) (s : S) : M flow :=
  match target_motor (r_address r) s with
  | None => (disappeared, s)
  | Some m =>
      let s := invalidate_reference_target_pose_for_zero_attempt m s in
      let s := if echoes_transmissions (bus s)
               then let '(t, s) := tick s in note_set_zero (r_address r) t s else s in
      let '(result, b) := set_zero_position_at (bus s) (r_address r) in
      let s := set_bus b s in
      let '(epoch, p) := Physical.begin_new_coordinate (r_address r) (physical s) in
      let s := update_reservation (r_set_epoch epoch) (set_physical p s) in
      match error_of result with
      | Some e => leave_failing KDelivery (display_bus e) s
      | None =>
          if bool_decide (epoch = None)
          then leave_failing KBackend "addressed SetZero did not advance a device epoch" s
          else (Next AwaitAck, s)
      end
  end.

(** *** The receiving phases *)

Definition receive_phase (r : Reservation V) : ReferenceReceivePhase :=
  match r_armed r, r_device_epoch r with
  | false, _ => BeforeEnable
  | true, None => EnabledBeforeZero
  | true, Some _ => PhaseEnabled
  end.

(** Nothing answered yet: ask again when due. *)
Definition retry_identity (r : Reservation V) (s : S) : M flow :=
  let '(now, s) := tick s in
  match r_identity_requested_at r with
  | Some (first, last) =>
      if (IDENTITY_ADMISSION_RETRY <=? elapsed last now) && (elapsed first now <? IDENTITY_ADMISSION_TIMEOUT)
      then
        let s := update_reservation (r_set_request (r_request_watermark r) (Some (first, now))) s in
        let '(result, b) := get_device_id_at (bus s) (r_address r) in
        written_or_fail result AwaitIdentity (set_bus b s)
      else (Next AwaitIdentity, s)
  | None => (Next AwaitIdentity, s)
  end.

Definition await_identity (r : Reservation V) (s : S) : M flow :=
  match Physical.identity_after (r_address r) (r_request_watermark r) (physical s) with
  | None => retry_identity r s
  | Some u =>
      if Physical.uid_claimed_elsewhere (r_address r) u (physical s)
      then leave_failing KIdentity
             ("device identifier " +:+ uid_display u +:+ " also answers at another installed address") s
      else
        let s := update_reservation (r_set_uid u) s in
        if echoes_transmissions (bus s) then
          let s := if set_zero_quiet_until (adm s) (r_address r) is Some _ then (tick s).2 else s in
          (Next AwaitReportingOff, s)
        else (Next ArmTarget, s)
  end.

Definition await_reporting_off (r : Reservation V) (s : S) : M flow :=
  let '(now, s) := tick s in
  (Next (if reporting_off_settled s (r_address r) now && set_zero_quiet_elapsed (adm s) (r_address r) now
         then ArmTarget else AwaitReportingOff), s).

Definition OPERATION_STATUS : Z := 2.

Definition acknowledges (r : Reservation V) (tol : f64) (p : ReferencePoseObservation) : bool :=
  bool_decide (rp_address p = r_address r) && (Z.shiftr (rp_can_id p) 24 =? OPERATION_STATUS)
  && is_finite (ms_position_rad (rp_state p)) && fle (fabs (f64_of_f32 (ms_position_rad (rp_state p)))) tol.

Definition await_ack (r : Reservation V) (poses : list ReferencePoseObservation) (s : S) : M flow :=
  match find_first (acknowledges r (tolerance s)) poses with
  | Some p =>
      (Next RequestReadback,
       update_reservation (r_set_ack (mkAck (rp_order p) (rp_can_id p) (ms_position_rad (rp_state p)))) s)
  | None => (Next AwaitAck, s)
  end.

(** [return Ok(self.reference_snapshot())] *)
Definition leave_waiting (s : S) : M flow := let '(n, s) := reference_snapshot s in (Leave (Ok n), s).

Definition readback_evidence (r : Reservation V) (realm epoch : Z) (read : ParameterReadObservation) (q : f64)
  (s : S) : AcceptedReferenceEvidence :=
  mkEvidence
    (mkCorrelation (w_identity (rwork s)) realm (h_sequence (r_handle r)) epoch (r_address r) (prd_order read)
       (prd_can_id read) (prd_received_at read))
    (prd_address read) (prd_order read) (prd_can_id read) (prd_received_at read) (f32_of_f64 q).

Definition accept_physical_readback (r : Reservation V) (realm : Z) (m : Config.MotorEntry) (s : S) : M flow :=
  match Physical.read_after (r_address r) MechPos (r_request_watermark r) (physical s) with
  | None => leave_waiting s
  | Some read =>
      if negb (succeeded (prd_reply read))
      then leave_failing KReadback
             ("drive refused mechPos read (status " +:+ pretty (pr_status (prd_reply read)) +:+ ")") s
      else
        match motor_position_scale m with
        | Err e => (Leave (Err (RAdmission e)), s)
        | Panic => (Leave Panic, s)
        | Ok scale =>
            let q := div64 (f64_of_f32 (reply_as_f32 (prd_reply read))) scale in
            if negb (is_finite q) || fgt (fabs q) (tolerance s)
            then leave_failing KReadback
                   ("mechPos readback " +:+ display_f64 q +:+ " rad is outside tolerance "
                    +:+ display_f64 (tolerance s) +:+ " rad") s
            else
              match r_uid r, r_ack r, r_device_epoch r with
              | Some u, Some k, Some epoch =>
                  let '(continuity, p) :=
                    Physical.observe_position (r_address r) q (prd_received_at read) (tolerance s) (physical s) in
                  let s := set_physical p s in
                  if bool_decide (is_Some continuity)
                     || negb (bool_decide (Physical.uid (r_address r) (physical s) = Some u))
                     || negb (bool_decide (Physical.epoch (r_address r) (physical s) = Some epoch))
                  then leave_failing KIdentity
                         "device identity or coordinate continuity changed during acquisition" s
                  else
                    let '(x, s) :=
                      finish_with EvidenceStaged None
                        (Some (readback_evidence r realm epoch read q s,
                               Some (mkPhysEvidence u (ak_order k) (ak_can_id k) (ak_position_rad k)))) s in
                    (Leave x, s)
              | _, _, _ =>
                  leave_failing KBackend "physical readback without identity, ack and coordinate epoch" s
              end
        end
  end.

(** What a drained report means for the phase. *)
Definition after_receive (r : Reservation V) (realm : Z) (m : Config.MotorEntry)
  (poses : list ReferencePoseObservation) (s : S) : M flow :=
  match r_phase r with
  | AwaitEvidence => (Next AwaitEvidence, s)
  | DrainOld => (Next RequestIdentity, s)
  | DrainPostArm =>
      (Next (if bool_decide (r_address r ∈ enable_echo_pending (session s)) then DrainPostArm else SetZero), s)
  | AwaitIdentity => await_identity r s
  | AwaitReportingOff => await_reporting_off r s
  | AwaitAck => await_ack r poses s
  | AwaitReadback => accept_physical_readback r realm m s
  | _ => (Leave (Err (RInvalidRequest "invalid receive phase")), s)
  end.

Definition phase_receive (r : Reservation V) (realm : Z) (s : S) : M flow :=
  match recv_feedback_report (motor_types s) 0 0 limits_default (bus s) (hostclock s) with
  | None => (Leave Panic, s)
  | Some (report, b, c) =>
      let s := set_clock c (set_bus b s) in
      match target_motor (r_address r) s with
      | None => (disappeared, s)
      | Some m =>
          let '(consumed, s) :=
            consume_report_in_context display report (Reference (address_of_motor m) (receive_phase r)) s in
          let s := update_reservation
                     (r_set_receive (mkSummary (fc_completion consumed) (fc_raw_frames consumed)
                        (fc_read_attempts consumed))) s in
          match fc_error consumed with
          | Some e =>
              leave_failing (match e with EBus (ReceiveIncomplete _) => KIncompleteReceive | _ => KHazard end)
                (display e) s
          | None =>
              if fc_transition consumed || has_latched_fault s
              then leave_failing KHazard "ordered feedback hazard" s
              else if negb (is_complete (fc_completion consumed))
              then leave_failing KIncompleteReceive "reference drain is incomplete" s
              else after_receive r realm m (fc_poses consumed) s
          end
      end
  end.

Definition run_phase (r : Reservation V) (realm : Z) (s : S) : M flow :=
  match r_phase r with
  | BaselineStop => phase_baseline_stop r s
  | RequestIdentity => phase_request true r s
  | RequestReadback => phase_request false r s
  | ArmTarget => phase_arm r s
  | SetZero => phase_set_zero r s
  | DrainOld | DrainPostArm | AwaitEvidence | AwaitIdentity | AwaitReportingOff | AwaitAck | AwaitReadback =>
      phase_receive r realm s
  | PIdle | Terminal => (Leave (Err (RInvalidRequest "invalid reserved phase")), s)
  end.

(** ** Advancing *)

(** Every continuity check of a live reservation. *)
Definition still_bound (r : Reservation V) (s : S) : bool :=
  negb (r_binding_invalidated r) && model_matches (r_installed_model r) s
  && (reference_generation s =? r_reference_generation r) && (stop_generation_of s =? r_stop_generation r)
  && policy_is (r_policy r) s && bool_decide (mode (adm s) = Disabled)
  && bool_decide (sv_control_mode (adm s) = CDisabled).

(** The tail of [advance_reference_phase]: a new phase gets its own deadline. *)
Definition enter_phase (r : Reservation V) (now : Z) (p : ReferencePhase) (s : S)
  : M (result ReferenceError ReferenceSnapshot) :=
  let entered :=
    if bool_decide (p = r_phase r) then Ok s
    else let! d := phase_deadline now (r_overall_deadline r) p in Ok (update_reservation (r_set_phase p d) s) in
  match entered with
  | Ok s => let '(n, s) := reference_snapshot s in (Ok n, s)
  | Err e => (Err e, s)
  | Panic => (Panic, s)
  end.

Definition advance_live (r : Reservation V) (s : S) : M (result ReferenceError ReferenceSnapshot) :=
  match backend_realm (installed s) with
  | None => (Err RUnsupported, s)
  | Some realm =>
      let s := mark_owner_work s in
      let '(now, s) := backend_now s in
      if (r_overall_deadline r <=? now) || (r_phase_deadline r <=? now) then finish_with TimedOut None None s
      else if has_latched_fault s || hardware_estop s
      then fail_reference KHazard "persistent safety hazard" s
      else if negb (still_bound r s)
      then fail_reference KBindingChanged "installed policy or owner continuity changed" s
      else
        match run_phase r realm s with
        | (Leave x, s) => (x, s)
        | (Next p, s) => enter_phase r now p s
        end
  end.

Definition advance_reference_phase (h : ReferenceHandle) (s : S)
  : M (result ReferenceError ReferenceSnapshot) :=
  match retained_reference h s with
  | Err e => (Err e, s)
  | Panic => (Panic, s)
  | Ok (Some terminal) => let '(n, s) := snapshot_for_terminal terminal s in (Ok n, s)
  | Ok None =>
      match live_reference h s with
      | Err e => (Err e, s)
      | Panic => (Panic, s)
      | Ok r => advance_live r s
      end
  end.

Definition advance_reference (h : ReferenceHandle) (s : S) : M (result ReferenceError ReferenceSnapshot) :=
  let '(result, s) := advance_reference_phase h s in
  match result with
  | Err e =>
      let live := match w_reservation (rwork s) with
                  | Some r => bool_decide (r_handle r = h)
                  | None => false
                  end in
      (result,
       if live then (finish_reference (failure KBackend (display_reference e)) None None s).2 else s)
  | _ => (result, s)
  end.

(** ** Cancelling *)

Definition cancel_reference (h : ReferenceHandle) (reason : ReferenceCancelReason) (s : S)
  : M (result ReferenceError ReferenceTerminal) :=
  match retained_reference h s with
  | Err e => (Err e, s)
  | Panic => (Panic, s)
  | Ok (Some terminal) => (Ok terminal, s)
  | Ok None =>
      match live_reference h s with
      | Ok _ => finish_reference (CCancelled reason) None None s
      | Err e => (Err e, s)
      | Panic => (Panic, s)
      end
  end.

Definition cancel_reference_for_shutdown (s : S) : M (option ReferenceTerminal) :=
  let s := if is_empty (Authority.consumed (authority s)) then s else revoke_all s in
  let w := invalidate_retained_stages Shutdown (set_pending_commit None (rwork s)) in
  let s := set_rwork w s in
  let s := if bool_decide (is_Some (c_journal (w_commits w))) then revoke_all s else s in
  let s := set_rwork (cancel_reference_commits CancelShutdown (rwork s)) s in
  if negb (reserved (rwork s)) then (None, s)
  else let '(r, s) := finish_reference (CCancelled CancelShutdown) None None s in (Authority.result_ok r, s).

End Acquire.
Arguments ReferenceSnapshot : clear implicits.
Arguments flow : clear implicits.

End Acquire.
