(* ===== verification/Commit.v ===== *)
(** * Commit: from staged evidence to a granted reference

    [src/crates/davout/src/reference_commit.rs]: a staged acquisition is handed
    to the journal, and only when its durable answer is taken while the evidence
    still holds does the supervisor select it, which is the one place a physical
    owner's permission is created.  [request_reference] and
    [advance_reference_work] drive the whole from a request to that selection.

    The journal's worker runs on its own thread: here it is whatever state of
    [Journal.State] the owner finds.  [Arc::new(())] takes the next unused
    address ([w_next_arc]).  Waiting for the worker at shutdown
    ([Journal::wait_until]) only passes time and is left to [drain_report]. *)

From Stdlib Require Import ZArith Lia Bool.
From stdpp Require Import base gmap strings list pretty.
From S2P Require Import Prelude Float Config Bus Receive Feedback Reporting Faults Davout Admission Authority Physical Lifecycle Session Consume Enable Journal History Reference Acquire.

Module Commit.
Import Bus Receive Feedback Faults Davout Admission Lifecycle Session Consume Enable Journal History Reference Acquire.

Inductive ReferenceCommitError : Type :=
| MUnsupported
| MBusy
| MQueueFull
| MForeignIdentity
| MOutcomeExpired
| MConflictingRetry
| MAudit
| MCounterExhausted
| MIneligible (status : ReferenceStageStatus)
| MAcquisition (e : ReferenceError)
| MJournal (message : string).

Inductive ReferenceOutcome : Type :=
| InProgress
| Current (position_rad : f32)
| OutcomeFailed (message : string).

Record ReferenceCommitSnapshot : Type := mkCommitSnapshot {
  cs_handle : ReferenceCommitHandle;
  cs_acquisition : ReferenceHandle;
  cs_joint : string;
  cs_phase : ReferenceCommitPhase;
  cs_eligibility : ReferenceStageStatus;
  cs_journal : ReferenceJournalResult;
  cs_receive : option ReferenceReceiveSummary;
  cs_usable_reference : bool
}.

Section Commit.
Context {B : Type} `{CanBus B} {V : Type} `{EqDecision V}.
Variable display : DavoutError -> string.
Variable display_bus : BusError -> string.
Variable display_reference : ReferenceError -> string.
Variable display_commit : ReferenceCommitError -> string.
Variable display_f64 : f64 -> string.
(** [format!("{:?}")] of a cause, and of a commit's phase, journal answer and eligibility. *)
Variable debug_cause : ReferenceCause -> string.
Variable debug_commit : ReferenceCommitPhase -> ReferenceJournalResult -> ReferenceStageStatus -> string.
Variable to_value : list Config.MotorEntry -> Config.ControlSection -> Config.HomingSection -> result string V.
Variable value_len : V -> result string Z.
Variable encode_policy : Authority.TypedPolicy -> result string (list Z).

Abbreviation S := (Sup B (Work V)).
Abbreviation M A := (A * S)%type.
Abbreviation observe_commits := (observe_reference_commits to_value value_len encode_policy).
Abbreviation stage_status := (retained_stage_status to_value value_len encode_policy).
Abbreviation seen := (observed to_value value_len encode_policy).

(** ** Entries *)

Definition stage_of (e : Entry) (w : Work V) : option (RetainedOutcome V) := w_heap w !! e_stage e.

Definition entry_for_acquisition (h : ReferenceHandle) (w : Work V) : option Entry :=
  find_first (fun e => bool_decide (o_handle <$> stage_of e w = Some h)) (entries (w_commits w)).

Definition get (h : ReferenceCommitHandle) (w : Work V) : result ReferenceCommitError Entry :=
  if negb (ch_owner h =? c_identity (w_commits w)) then Err MForeignIdentity
  else ok_or (find_first (fun e => bool_decide (e_handle e = h)) (entries (w_commits w))) MOutcomeExpired.

Definition is_waiting (h : ReferenceCommitHandle) (w : Work V) : bool :=
  existsb (fun e => bool_decide (e_handle e = h)) (c_pending (w_commits w)).

(** [position] then [remove]. *)
Fixpoint remove_entry (h : ReferenceCommitHandle) (l : list Entry) : option (Entry * list Entry) :=
  match l with
  | [] => None
  | e :: rest =>
      if bool_decide (e_handle e = h) then Some (e, rest)
      else '(x, rest) ← remove_entry h rest; Some (x, e :: rest)
  end.

Definition with_queues (j : option (State Input)) (pending outcomes : list Entry) (c : CommitOwner) : CommitOwner :=
  mkCommits (c_identity c) (c_next_sequence c) j pending outcomes (c_selection c).

Definition is_durable (r : ReferenceJournalResult) : bool :=
  match r with DurableHistory _ _ _ => true | _ => false end.

(** [CommitOwner::collect]: the entry leaves the queue with its answer. *)
Definition collect (h : ReferenceCommitHandle) (w : Work V) : option Entry * Work V :=
  let c := w_commits w in
  match remove_entry h (c_pending c), c_journal c with
  | Some (e, rest), Some j =>
      match take_matching (e_job e) j with
      | (None, _) => (None, w)
      | (Some done, j) =>
          let e := mkEntry (e_handle e) (e_job e) (e_stage e) (e_audit e)
                     (if is_pending e then CommitComplete else e_phase e) (c_result done) (e_receive e) in
          let w := set_commits (with_queues (Some j) rest (c_outcomes c) c) w in
          (Some e, if is_durable (e_result e) then w else retire_at CommitRetired (e_stage e) w)
      end
  | _, _ => (None, w)
  end.

(** [CommitOwner::retain] *)
Definition retain_entry (e : Entry) (w : Work V) : Work V :=
  let c := w_commits w in
  set_commits (with_queues (c_journal c) (c_pending c) (push_bounded OUTCOME_CAPACITY e (c_outcomes c)) c) w.

(** ** Submitting *)

Definition checked_u32 (n : nat) : option Z := if Z.of_nat n <=? 4294967295 then Some (Z.of_nat n) else None.

Definition physical_capture (p : PhysicalEvidence) : PhysicalCapture :=
  mkPhysicalCapture (pe_uid p) (default 4294967295 (checked_u32 (pe_ack_order p))) (pe_ack_can_id p)
    (pe_ack_position_rad p).

Definition journal_input (o : RetainedOutcome V) (audit : ReferenceAudit) : result ReferenceError Input :=
  let! g := ok_or (o_stage o) ROutcomeExpired in
  let! receive := ok_or (t_receive (o_terminal o)) ROutcomeExpired in
  let e := sg_evidence g in
  let q := o_request o in
  let! order := ok_or (checked_u32 (ev_order e)) RCounterExhausted in
  refuse_if (negb (bool_decide (is_Some (checked_u32 (rv_raw_frames receive)))))
    (RInvalidRequest "raw frame count overflow") ;!
  refuse_if (negb (bool_decide (is_Some (checked_u32 (rv_read_attempts receive)))))
    (RInvalidRequest "read attempt count overflow") ;!
  Ok (mkInput (sg_installed_model g) (sg_typed_policy g)
        (mkCapture (h_sequence (o_handle o)) (rq_joint q) (ev_address e) (rq_confirmed q) (rq_sign_verified q)
           (ev_position_rad e) order (ev_can_id e) (cr_device_epoch (ev_proof e))
           (sg_overall_deadline g / 1000000000) (sg_overall_deadline g mod 1000000000)
           (rs_reference_generation (rq_stamp q)) (rs_stop_generation (rq_stamp q)) (sg_reference_generation g)
           (t_stop (o_terminal o)) (t_reporting (o_terminal o)) receive audit
           (physical_capture <$> sg_physical g))).

(** The checks that need the journal, and the job's input. *)
Definition submission (o : RetainedOutcome V) (j : State Input) (audit : ReferenceAudit) (s : S)
  : result ReferenceCommitError (Z * Input) :=
  let c := w_commits (rwork s) in
  refuse_if (negb (bool_decide (c_selection c = HistoryOnly))
             && negb (bool_decide (is_Some (checked_add_u64 (reference_generation s) 1)))) MCounterExhausted ;!
  let! credit := map_err MJournal (has_credit j) in
  refuse_if (negb credit) MQueueFull ;!
  let! next := ok_or (checked_add_u64 (c_next_sequence c) 1) MCounterExhausted in
  let! input := map_err MAcquisition (journal_input o audit) in
  Ok (next, input).

(** [journal.submit(..)?] and the new entry. *)
Definition submit_entry (p : nat) (audit : ReferenceAudit) (next : Z) (x : Input) (j : State Input) (s : S)
  : M (result ReferenceCommitError ReferenceCommitHandle) :=
  let w := rwork s in
  let c := w_commits w in
  let handle := mkCommitHandle (c_identity c) (c_next_sequence c) in
  let job := mkJobId (w_next_arc w) (c_next_sequence c) in
  let '(r, j) := submit job x j in
  match r with
  | Ok _ =>
      let e := mkEntry handle job p audit CommitPending JPending None in
      let c := mkCommits (c_identity c) next (Some j) (c_pending c ++ [e]) (c_outcomes c) (c_selection c) in
      (Ok handle,
       set_rwork (mkWork (w_identity w) (w_next_sequence w) (w_origin w) (w_reservation w) (w_heap w)
                    (w_outcomes w) (w_pending_commit w) (w_request_failures w) c (w_next_arc w + 1)) s)
  | Err m => (Err (MJournal m), s)
  | Panic => (Panic, s)
  end.

Definition begin_reference_commit (h : ReferenceHandle) (audit : ReferenceAudit) (s : S)
  : M (result ReferenceCommitError ReferenceCommitHandle) :=
  match c_journal (w_commits (rwork s)) with
  | None => (Err MUnsupported, s)
  | Some _ =>
      if negb (audit_validate audit) then (Err MAudit, s)
      else
        match entry_for_acquisition h (rwork s) with
        | Some e => (if bool_decide (e_audit e = audit) then Ok (e_handle e) else Err MConflictingRetry, s)
        | None =>
            let s := observe_commits s in
            if reserved (rwork s) || c_busy (w_commits (rwork s)) then (Err MBusy, s)
            else if negb (h_owner h =? w_identity (rwork s)) then (Err (MAcquisition RForeignIdentity), s)
            else
              match find_outcome h (rwork s) with
              | None => (Err (MAcquisition ROutcomeExpired), s)
              | Some p =>
                  let '(status, s) := stage_status p s in
                  if negb (bool_decide (status = CurrentEvidence)) then (Err (MIneligible status), s)
                  else
                    match c_journal (w_commits (rwork s)), w_heap (rwork s) !! p with
                    | Some j, Some o =>
                        match submission o j audit s with
                        | Ok (next, x) => submit_entry p audit next x j s
                        | Err e => (Err e, s)
                        | Panic => (Panic, s)
                        end
                    | _, _ => (Err MUnsupported, s)
                    end
              end
        end
  end.

(** ** Inspecting *)

Definition reference_commit_snapshot (h : ReferenceCommitHandle) (s : S)
  : M (result ReferenceCommitError ReferenceCommitSnapshot) :=
  let s := observe_commits s in
  match get h (rwork s) with
  | Err e => (Err e, s)
  | Panic => (Panic, s)
  | Ok e =>
      match stage_of e (rwork s) with
      | None => (Panic, s)
      | Some o =>
          let '(status, s) := stage_status (e_stage e) s in
          let '(valid, s) := reference_binding_valid to_value value_len encode_policy s in
          (Ok (mkCommitSnapshot (e_handle e) (o_handle o) (o_joint o) (e_phase e) status (e_result e)
                 (e_receive e)
                 (valid && Authority.selected_by (nonce (e_job e)) (authority s)
                  && Authority.contains (o_joint o) (authority s))), s)
      end
  end.

(** ** Consuming the journal's answer *)

(** [RetainedOutcome::select_current] *)
Definition select_current (o : RetainedOutcome V) (job : Z) (a : Authority.ReferenceAuthority)
  : option unit * Authority.ReferenceAuthority :=
  match o_stage o with
  | None => (None, a)
  | Some g =>
      let proof := ev_proof (sg_evidence g) in
      Authority.select_consumed (cr_realm proof)
        (Authority.new_binding job (sg_installed_model g) (o_joint o) (ev_address (sg_evidence g))
           (cr_device_epoch proof) (pe_uid <$> sg_physical g))
        (sg_typed_policy g)
        (if sg_physical g is Some _ then Authority.Accumulate else Authority.Replace) a
  end.

Definition update_waiting (h : ReferenceCommitHandle) (f : Entry -> Entry) (w : Work V) : Work V :=
  let c := w_commits w in
  set_commits
    (with_queues (c_journal c)
       (default (c_pending c) (update_first (fun e => bool_decide (e_handle e = h)) f (c_pending c)))
       (c_outcomes c) c) w.

Definition set_receive (v : ReferenceReceiveSummary) (e : Entry) : Entry :=
  mkEntry (e_handle e) (e_job e) (e_stage e) (e_audit e) (e_phase e) (e_result e) (Some v).

(** Whether the answered entry selects: the authority and the stage it leaves. *)
Definition select_entry (e : Entry) (s : S) : M (bool * Entry) :=
  if negb (bool_decide (c_selection (w_commits (rwork s)) = HistoryOnly))
     && bool_decide (e_phase e = CommitComplete) && is_durable (e_result e)
  then
    let '(status, s) := stage_status (e_stage e) s in
    match (if bool_decide (status = CurrentEvidence) then stage_of e (rwork s) else None) with
    | Some o =>
        match select_current o (nonce (e_job e)) (authority s) with
        | (Some _, a) =>
            let s := set_authority a s in
            ((true, e), set_rwork (retire_at Consumed (e_stage e) (rwork s)) s)
        | (None, a) =>
            let s := set_authority a s in
            ((false, set_phase (CommitInvalidated CounterExhausted) e),
             set_rwork (retire_at CounterExhausted (e_stage e) (rwork s)) s)
        end
    | None => ((false, e), s)
    end
  else ((false, e), s).

Definition outcome_physical (o : option (RetainedOutcome V)) : bool :=
  match o with
  | Some o => match o_stage o with Some g => bool_decide (is_Some (sg_physical g)) | None => false end
  | None => false
  end.

(** The collected entry: select, retain, resume the reporting a grant relies on. *)
Definition settle_entry (h : ReferenceCommitHandle) (s : S) : S :=
  let '(found, w) := collect h (rwork s) in
  let s := set_rwork w s in
  match found with
  | None => s
  | Some e =>
      let '((selected, e), s) := select_entry e s in
      let physical := outcome_physical (stage_of e (rwork s)) in
      let s := set_rwork (retain_entry e (rwork s)) s in
      if physical then
        let s := mark_owner_work s in
        if selected then sync_active_reporting seen s else s
      else s
  end.

(** Up to the collection of the answer: drain, mark hazards, mark what lapsed. *)
Definition waiting_observed (h : ReferenceCommitHandle) (m : Config.MotorEntry) (s : S) : option S :=
  '(report, b, c) ← recv_feedback_report (motor_types s) 0 0 limits_default (bus s) (hostclock s);
  let s := set_clock c (set_bus b s) in
  let '(consumed, s) :=
    consume_report_in_context display report (Reference (address_of_motor m) BeforeEnable) s in
  let summary := mkSummary (fc_completion consumed) (fc_raw_frames consumed) (fc_read_attempts consumed) in
  let s := set_rwork (update_waiting h (set_receive summary) (rwork s)) s in
  let s := if fc_transition consumed then (perform_stop seen false s).2 else s in
  let s := if bool_decide (is_Some (fc_error consumed)) || negb (is_complete (fc_completion consumed))
              || has_latched_fault s || hardware_estop s
           then set_rwork (invalidate_reference_commits SafetyHazard (rwork s)) s else s in
  Some (observe_commits s).

Definition advance_waiting (h : ReferenceCommitHandle) (m : Config.MotorEntry) (s : S)
  : M (result ReferenceCommitError ReferenceCommitSnapshot) :=
  match waiting_observed h m s with
  | None => (Panic, s)
  | Some s => reference_commit_snapshot h (settle_entry h s)
  end.

Definition advance_reference_commit (h : ReferenceCommitHandle) (s : S)
  : M (result ReferenceCommitError ReferenceCommitSnapshot) :=
  match get h (rwork s) with
  | Err e => (Err e, s)
  | Panic => (Panic, s)
  | Ok e =>
      if reserved (rwork s) then (Err MBusy, s)
      else if negb (is_waiting h (rwork s)) then reference_commit_snapshot h s
      else
        match (o ← stage_of e (rwork s);
               find_first (fun m => bool_decide (Config.joint m = o_joint o)) (stop_motors s)) with
        | None => (Err (MAcquisition ROutcomeExpired), s)
        | Some m => advance_waiting h m s
        end
  end.

Definition cancel_reference_commit (h : ReferenceCommitHandle) (reason : ReferenceCancelReason) (s : S)
  : M (result ReferenceCommitError ReferenceCommitSnapshot) :=
  match get h (rwork s) with
  | Err e => (Err e, s)
  | Panic => (Panic, s)
  | Ok e =>
      let s := if bool_decide (reason = CancelDisable) then s
               else set_authority (Authority.revoke_selected (nonce (e_job e)) (authority s)) s in
      let w := retire_at (if bool_decide (reason = CancelShutdown) then Shutdown else CommitRetired)
                 (e_stage e) (rwork s) in
      let cancel x := if bool_decide (e_handle x = h) && is_pending x then set_phase (CommitCancelled reason) x else x in
      reference_commit_snapshot h (set_rwork (set_commits (map_entries cancel (w_commits w)) w) s)
  end.

(** ** Driving a request *)

Abbreviation snapshot := (reference_snapshot to_value value_len encode_policy).

Definition staged_terminal (h : ReferenceHandle) (t : option ReferenceTerminal) : bool :=
  match t with
  | Some t => bool_decide (t_handle t = h) && bool_decide (t_cause t = EvidenceStaged)
  | None => false
  end.

(** The staged acquisition goes on into its commit. *)
Definition continue_pending (p : PendingCommit) (s : S) : S :=
  let s := set_rwork (set_pending_commit None (rwork s)) s in
  let '(n, s) := snapshot s in
  if staged_terminal (pd_acquisition p) (sn_terminal n) then
    match begin_reference_commit (pd_acquisition p) (pd_audit p) s with
    | (Err e, s) => set_rwork (record_request_failure (pd_acquisition p) (display_commit e) (rwork s)) s
    | (_, s) => s
    end
  else s.

Definition advance_reference_work (s : S) : M (result ReferenceCommitError unit) :=
  let '(n, s) := snapshot s in
  match (if reserved (rwork s) then sn_handle n else None) with
  | Some h =>
      match advance_reference display display_bus display_reference display_f64 to_value value_len encode_policy h s with
      | (Ok _, s) => (Ok tt, s)
      | (Err e, s) => (Err (MAcquisition e), s)
      | (Panic, s) => (Panic, s)
      end
  | None =>
      match w_pending_commit (rwork s) with
      | Some p => (Ok tt, continue_pending p s)
      | None =>
          match c_pending (w_commits (rwork s)) with
          | e :: _ =>
              match advance_reference_commit (e_handle e) s with
              | (Ok _, s) => (Ok tt, s)
              | (Err x, s) => (Err x, s)
              | (Panic, s) => (Panic, s)
              end
          | [] => (Ok tt, s)
          end
      end
  end.

Definition request_reference (j : string) (sign_verified : bool) (audit : ReferenceAudit) (s : S)
  : M (result ReferenceError ReferenceHandle) :=
  if negb (selects_current (w_commits (rwork s))) || negb (has_backend s) then (Err RUnsupported, s)
  else if negb (audit_validate audit) then (Err (RInvalidRequest (display_commit MAudit)), s)
  else if bool_decide (is_Some (w_pending_commit (rwork s))) then (Err RBusy, s)
  else
    let '(n, s) := snapshot s in
    match sn_next_stamp n with
    | None => (Err RCounterExhausted, s)
    | Some stamp =>
        match begin_reference to_value value_len encode_policy (mkRequest stamp (Reporting.trim j) true sign_verified) s with
        | (Ok handle, s) =>
            (Ok handle, set_rwork (set_pending_commit (Some (mkPendingCommit handle audit)) (rwork s)) s)
        | e => e
        end
    end.

(** The receipt of a commit: its own snapshot, read. *)
Definition receipt (o : RetainedOutcome V) (n : ReferenceCommitSnapshot) : ReferenceOutcome :=
  if bool_decide (cs_phase n = CommitPending) then InProgress
  else if cs_usable_reference n then
    match ev_position_rad ∘ sg_evidence <$> o_stage o with
    | Some q => if is_finite q then Current q else OutcomeFailed "usable reference without finite evidence position"
    | None => OutcomeFailed "usable reference without finite evidence position"
    end
  else OutcomeFailed (debug_commit (cs_phase n) (cs_journal n) (cs_eligibility n)).

Definition reference_outcome (h : ReferenceHandle) (s : S) : M (result ReferenceError ReferenceOutcome) :=
  let '(n, s) := snapshot s in
  if (bool_decide (sn_handle n = Some h) && reserved (rwork s))
     || bool_decide (pd_acquisition <$> w_pending_commit (rwork s) = Some h)
  then (Ok InProgress, s)
  else
    match request_failure h (rwork s) with
    | Some m => (Ok (OutcomeFailed m), s)
    | None =>
        if negb (h_owner h =? w_identity (rwork s)) then (Err RForeignIdentity, s)
        else
          match p ← find_outcome h (rwork s); w_heap (rwork s) !! p with
          | None => (Err ROutcomeExpired, s)
          | Some o =>
              if negb (bool_decide (t_cause (o_terminal o) = EvidenceStaged))
              then (Ok (OutcomeFailed ("acquisition ended " +:+ debug_cause (t_cause (o_terminal o)))), s)
              else
                match entry_for_acquisition h (rwork s) with
                | None => (Ok (OutcomeFailed "staged evidence was not committed"), s)
                | Some e =>
                    match reference_commit_snapshot (e_handle e) s with
                    | (Ok n, s) => (Ok (receipt o n), s)
                    | (Err _, s) => (Err ROutcomeExpired, s)
                    | (Panic, s) => (Panic, s)
                    end
                end
          end
    end.

(** ** Shutdown *)

Definition close_reference_journal_admission (w : Work V) : Work V :=
  let c := w_commits w in
  set_commits (with_queues (close <$> c_journal c) (c_pending c) (c_outcomes c) c) w.

(** Collect whatever the worker answered by [wait_until]'s deadline. *)
Definition collect_all (w : Work V) : Work V :=
  fold_left (fun w h => match collect h w with (Some e, w) => retain_entry e w | (None, w) => w end)
    (e_handle <$> c_pending (w_commits w)) w.

(** [worker_done] is the journal the worker leaves at the deadline. *)
Definition drain_reference_journal_until (worker_done : State Input -> State Input * bool) (s : S)
  : ReferenceJournalDrain * S :=
  let s := if bool_decide (is_Some (c_journal (w_commits (rwork s)))) then revoke_all s else s in
  let s := set_rwork (cancel_reference_commits CancelShutdown (rwork s)) s in
  let w := rwork s in
  let c := w_commits w in
  match c_journal c with
  | None => (absent, s)
  | Some j =>
      let '(j, terminated) := worker_done (close j) in
      let w := collect_all (set_commits (with_queues (Some j) (c_pending c) (c_outcomes c) c) w) in
      (match c_journal (w_commits w) with Some j => drain_report terminated j | None => absent end,
       set_rwork w s)
  end.

End Commit.
End Commit.
