(* ===== verification/Frames.v ===== *)
(** * Frames: what inspecting and stopping leave alone

    Shared lemmas of the acquisition and the commit: which fields a reference
    check, a stop, an observation of the commits or a snapshot may change.  The
    authority only ever loses permission ([drops]); the pending work is only
    marked, never advanced ([seen]). *)

From Stdlib Require Import ZArith Lia Bool.
From stdpp Require Import base gmap strings list.
From S2P Require Import Prelude Float Config Validate Bus Reporting Faults Davout Filter Admission Authority Physical Lifecycle Stop Session Journal History Reference Acquire.

Module Frames.
Import Bus Faults Davout Admission Lifecycle Stop Session Journal History Reference Acquire.

(** ** Losing permission *)

(** [a'] is [a] after operations none of which selects a joint. *)
Definition drops (a a' : Authority.ReferenceAuthority) : Prop :=
  exists ops, a' = Authority.run ops a /\ Forall (fun o => forall j, ~ Authority.selects j o) ops.

#[export] Instance drops_preorder : PreOrder drops.
Proof.
  split.
  - intros a. by exists [].
  - intros a1 a2 a3 (o1 & -> & F1) (o2 & -> & F2). exists (o1 ++ o2).
    split; [unfold Authority.run; by rewrite fold_left_app|by apply Forall_app].
Qed.

Lemma drops_one (o : Authority.op) (a : Authority.ReferenceAuthority) :
  (forall j, ~ Authority.selects j o) -> drops a (Authority.exec o a).
Proof. intros Ho. exists [o]. split; [reflexivity|]. by constructor. Qed.

Lemma drops_revoke (a : Authority.ReferenceAuthority) : drops a (Authority.revoke a).
Proof. apply (drops_one Authority.ORevoke). by intros j []. Qed.

Lemma drops_contains (a a' : Authority.ReferenceAuthority) (j : string) :
  drops a a' -> Authority.contains j a' = true -> Authority.contains j a = true.
Proof.
  intros (ops & -> & F). revert a F. induction ops as [|o ops IH]; intros a F; [auto|].
  inversion F as [|? ? Ho F']. subst. intros Hc. apply IH in Hc; [|exact F'].
  apply Authority.exec_shrinks in Hc as [?|Hs]; [assumption|by destruct (Ho j)].
Qed.

Lemma drops_ok (a a' : Authority.ReferenceAuthority) :
  drops a a' -> Authority.authority_ok a -> Authority.authority_ok a'.
Proof. intros (ops & -> & _). apply Authority.run_ok. Qed.

Lemma drops_generation (a a' : Authority.ReferenceAuthority) :
  drops a a' -> Authority.authority_ok a -> Authority.generation a <= Authority.generation a'.
Proof.
  intros (ops & -> & _). revert a. induction ops as [|o ops IH]; intros a Ha; [cbn; lia|].
  pose proof (Authority.exec_advances o a Ha) as Hs. pose proof (IH _ (Authority.exec_ok o a Ha)) as Ht.
  change (Authority.run (o :: ops) a) with (Authority.run ops (Authority.exec o a)).
  destruct Hs as [E|[? _]]; [rewrite E in *; exact Ht|lia].
Qed.

#[export] Hint Resolve drops_revoke : rust.

(** ** Reference checks *)

Section Any.
Context {B : Type} `{CanBus B} {R : Type} `{ReferenceWork R}.
Variable observed : Observer B R.

Lemma check_binding_drops (lv : Liveness) (busy : bool) (i : nat) (s : Sup B R) :
  exists a k, check_binding lv busy i s = set_authority a (set_clock k s) /\ drops (authority s) a.
Proof.
  assert (Hid : exists a k, s = set_authority a (set_clock k s) /\ drops (authority s) a)
    by (exists (authority s), (hostclock s); by destruct s).
  unfold check_binding. destruct (Authority.consumed (authority s) !! i) as [b|]; [|exact Hid].
  destruct (Authority.b_revoked b); [exact Hid|].
  assert (Hb : exists k, (binding_epoch lv busy b s).2 = set_clock k s).
  { unfold binding_epoch. destruct (match lv with Judge => true | Defer => _ end).
    - unfold tick. destruct (now (hostclock s)) as [t k]. by exists k.
    - exists (hostclock s). by destruct s. }
  destruct (binding_epoch lv busy b s) as [current s1]. destruct Hb as [k Hk]. cbn [snd] in Hk. subst s1.
  destruct (_ || _); [destruct (_ && _)|].
  - eexists _, k. split; [reflexivity|]. apply (drops_one (Authority.ORevokeBindingSilent i)). by intros j [].
  - eexists _, k. split; [reflexivity|]. apply (drops_one (Authority.ORevokeBinding i)). by intros j [].
  - exists (authority s), k. by destruct s.
Qed.

Lemma check_bindings_drops (lv : Liveness) (busy : bool) (s : Sup B R) :
  exists a k, check_bindings lv busy s = set_authority a (set_clock k s) /\ drops (authority s) a.
Proof.
  unfold check_bindings. generalize (seq 0 (length (Authority.consumed (authority s)))) as l. intros l.
  revert s. induction l as [|i l IH]; intros s; cbn [fold_left].
  - exists (authority s), (hostclock s). by destruct s.
  - destruct (check_binding_drops lv busy i s) as (a & k & -> & D).
    destruct (IH (set_authority a (set_clock k s))) as (a' & k' & -> & D'). exists a', k'.
    split; [reflexivity|]. by etransitivity.
Qed.

(** A reference check changes the authority, the clock and what it observes of the work. *)
Lemma valid_frame (lv : Liveness) (s : Sup B R) :
  exists a k, (reference_binding_valid_with observed lv s).2
    = set_authority a (set_clock k (set_rwork (checked_work observed s) s)) /\ drops (authority s) a.
Proof.
  unfold reference_binding_valid_with. set (s1 := observe_all observed s).
  assert (Hr : exists a k, revoke_all s1 = set_authority a (set_clock k (set_rwork (checked_work observed s) s))
    /\ drops (authority s) a) by (eexists _, _; split; [reflexivity|apply drops_revoke]).
  destruct (_ || _); [exact Hr|]. destruct (Validate.validate_safety_config _ _ _ _) as [[]| |]; [|exact Hr..].
  destruct (Authority.realm _).
  2:{ exists (authority s), (hostclock s1). split; [by destruct s|reflexivity]. }
  destruct (negb _); [exact Hr|]. destruct (negb _); [exact Hr|].
  destruct (check_bindings_drops lv (owner_busy s1) s1) as (a & k & -> & D). cbn [authority set_authority] in D.
  cbn [authority set_authority].
  pose proof (drops_one (Authority.OValidate (live_policy (set_authority a (set_clock k s1)))) a) as Dv.
  cbn [Authority.exec] in Dv. destruct (Authority.validate_binding _ a) as [ok a'].
  exists a', k. split; [reflexivity|]. etransitivity; [exact D|]. apply Dv. by intros j [].
Qed.

(** ** Stops *)

Lemma record_keeps_stop (f : FaultAuthority) c j ad m d t :
  stop_generation (record f c j ad m d t).2 = stop_generation f.
Proof. unfold record. by destruct (update_first _ _ _). Qed.

Lemma record_fault_generation c j ad m d (s : Sup B R) :
  stop_generation (fault_authority (adm (record_fault c j ad m d s).2)) = stop_generation (fault_authority (adm s)).
Proof.
  unfold record_fault, tick. destruct (now (hostclock s)) as [t k]. cbn [adm set_clock].
  pose proof (record_keeps_stop (fault_authority (adm s)) c j ad m d t) as E.
  destruct (record _ c j ad m d t) as [b f]. exact E.
Qed.

(** What a stop without reporting synchronization leaves of the rest. *)
Record stop_kept (s : Sup B R) (report : StopReport) (s' : Sup B R) : Prop := {
  sk_rwork : rwork s' = rwork s;
  sk_installed : installed s' = installed s;
  sk_estop : hardware_estop s' = hardware_estop s;
  sk_motors : stop_motors s' = stop_motors s;
  sk_authority : drops (authority s) (authority s');
  sk_reporting : reporting s' = reporting s;
  sk_adm : exists f, adm s' = stopped (with_faults f (adm s)) /\ stop_generation f = generation report;
  sk_generation : generation report = sat_add_u64 (stop_generation (fault_authority (adm s))) 1
}.

Lemma end_episode_generation (s : Sup B R) :
  exists f k o, end_degraded_episode_on_stop s
    = set_loss o (set_adm (with_faults f (adm s)) (set_clock k s))
    /\ stop_generation f = stop_generation (fault_authority (adm s)).
Proof.
  unfold end_degraded_episode_on_stop. destruct (episode (loss s)) as [ep|].
  - set (s0 := set_loss _ s). match goal with |- context [record_fault ?c ?j ?a ?m ?d s0] =>
      pose proof (record_fault_generation c j a m d s0) as G;
      destruct (record_fault_spec c j a m d s0) as (f & k & E & _) end.
    rewrite E in *. unfold tick. cbn [hostclock set_adm set_clock]. destruct (now k) as [t k'].
    eexists f, k', _. split; [reflexivity|exact G].
  - eexists (fault_authority (adm s)), (hostclock s), _. split; [|reflexivity].
    destruct s as [[] ? ? ? ? ? ? ? ? ? ? ? ? ? ? ?]. reflexivity.
Qed.

Lemma stop_frame (pacer : option BurstPacer) (s : Sup B R) :
  let '(report, _, s') := perform_stop_paced observed false pacer s in stop_kept s report s'.
Proof.
  destruct (stop_first_half observed pacer s) as (done & pacer' & b & c & p & f & _ & Hg & Hrun).
  destruct (Hrun false) as (s3 & -> & Hs3). cbn zeta iota.
  set (report := mkStopReport _ done).
  set (s5 := if (0 <? failed_writes report)%nat then _ else s3).
  assert (H5 : rwork s5 = rwork s /\ installed s5 = installed s /\ hardware_estop s5 = hardware_estop s
    /\ stop_motors s5 = stop_motors s /\ drops (authority s) (authority s5) /\ reporting s5 = reporting s
    /\ exists f5, adm s5 = stopped (with_faults f5 (adm s)) /\ stop_generation f5 = generation report).
  { assert (D3 : drops (authority s) (authority s3))
      by (subst s3; cbn; destruct (has_latched_fault s); [apply drops_revoke|reflexivity]).
    unfold s5. destruct (0 <? failed_writes report)%nat.
    - match goal with |- context [record_fault ?c ?j ?a ?m ?d ?x] =>
        pose proof (record_fault_generation c j a m d x) as G;
        destruct (record_fault_spec c j a m d x) as (f5 & k5 & E & _) end.
      rewrite E in *. cbn in G |- *. rewrite Hs3 in G |- *. cbn in G |- *.
      rewrite Hs3 in D3. cbn in D3. repeat (split; [reflexivity|]).
      split; [etransitivity; [exact D3|apply drops_revoke]|]. split; [reflexivity|].
      exists f5. split; [reflexivity|]. by rewrite G, Hg.
    - rewrite Hs3 in *. cbn in *. repeat (split; [reflexivity|]). split; [exact D3|]. split; [reflexivity|].
      exists f. auto. }
  destruct H5 as (E1 & E2 & E3 & E4 & D5 & E5 & f5 & Ef & Eg).
  destruct (end_episode_generation s5) as (f6 & k6 & o6 & -> & G6).
  split; cbn; auto. exists (set_stop_report f6 report). rewrite Ef in *. cbn in G6. split; [reflexivity|]. exact (eq_trans G6 Eg).
Qed.

(** Synchronizing the reporting only observes the work. *)
Lemma sync_work (s : Sup B R) : rwork (sync_active_reporting observed s) = (observed s).1.
Proof.
  unfold sync_active_reporting, reference_busy, observe, tick.
  destruct (_ || exit_reporting_released _); [reflexivity|]. cbn [hostclock set_clock set_rwork].
  destruct (now (skip _ _)). by destruct (Reporting.sync_holding _ _ _ _ _ _ _ _) as [[df r] b].
Qed.

(** Any stop drops permission at most and observes the work at most. *)
Lemma stop_work (sync : bool) (pacer : option BurstPacer) (s : Sup B R) :
  let '(_, _, s') := perform_stop_paced observed sync pacer s in
  drops (authority s) (authority s')
  /\ (rwork s' = rwork s \/ exists s3, rwork s3 = rwork s /\ rwork s' = (observed s3).1).
Proof.
  destruct (stop_first_half observed pacer s) as (done & pacer' & b & c & p & f & _ & _ & Hrun).
  destruct (Hrun sync) as (s3 & -> & Hs3). cbn zeta iota.
  set (s4 := if sync then sync_active_reporting observed s3 else s3).
  assert (H4 : drops (authority s) (authority s4) /\ (rwork s4 = rwork s \/ exists s3, rwork s3 = rwork s /\ rwork s4 = (observed s3).1)).
  { assert (D3 : drops (authority s) (authority s3))
      by (subst s3; cbn; destruct (has_latched_fault s); [apply drops_revoke|reflexivity]).
    assert (W3 : rwork s3 = rwork s) by (by subst s3). unfold s4. destruct sync; [|auto].
    destruct (sync_frame observed s3) as (_ & _ & _ & _ & -> & _). rewrite sync_work. eauto. }
  set (s5 := if (0 <? _)%nat then _ else s4).
  assert (H5 : drops (authority s4) (authority s5) /\ rwork s5 = rwork s4).
  { unfold s5. destruct (0 <? _)%nat; [|split; reflexivity].
    match goal with |- context [record_fault ?c ?j ?a ?m ?d ?x] =>
      destruct (record_fault_spec c j a m d x) as (f5 & k5 & -> & _) end.
    split; [apply drops_revoke|reflexivity]. }
  destruct (end_episode_generation s5) as (f6 & k6 & o6 & -> & _). cbn. destruct H4 as [D4 W4], H5 as [D5 ->].
  split; [by etransitivity|exact W4].
Qed.

End Any.

(** ** Marks on the pending work *)

Section Seen.
Context {V : Type}.

(** Only the stage's invalidation may have been set. *)
Definition outcome_seen (o o' : RetainedOutcome V) : Prop := o' = o \/ exists reason, o' = retire reason o.

Definition entry_seen (e e' : Entry) : Prop :=
  e' = e \/ (is_pending e = true /\ exists reason, e' = set_phase (CommitInvalidated reason) e).

Definition reservation_seen (r r' : option (Reservation V)) : Prop :=
  r' = r \/ r' = mark_binding_invalidated <$> r.

Record seen (w w' : Work V) : Prop := {
  sn_identity : w_identity w' = w_identity w;
  sn_sequence : w_next_sequence w' = w_next_sequence w;
  sn_origin : w_origin w' = w_origin w;
  sn_reservation : reservation_seen (w_reservation w) (w_reservation w');
  sn_heap : Forall2 outcome_seen (w_heap w) (w_heap w');
  sn_outcomes : w_outcomes w' = w_outcomes w;
  sn_pending : w_pending_commit w' = w_pending_commit w;
  sn_failures : w_request_failures w' = w_request_failures w;
  sn_arc : w_next_arc w' = w_next_arc w;
  sn_commit_frame : c_identity (w_commits w') = c_identity (w_commits w)
    /\ c_next_sequence (w_commits w') = c_next_sequence (w_commits w)
    /\ c_journal (w_commits w') = c_journal (w_commits w)
    /\ c_selection (w_commits w') = c_selection (w_commits w);
  sn_waiting : Forall2 entry_seen (c_pending (w_commits w)) (c_pending (w_commits w'));
  sn_done : Forall2 entry_seen (c_outcomes (w_commits w)) (c_outcomes (w_commits w'))
}.

Lemma retire_retire (r1 r2 : ReferenceStageInvalidation) (o : RetainedOutcome V) :
  retire r2 (retire r1 o) = retire r1 o.
Proof.
  unfold retire. destruct (o_stage o) as [g|] eqn:E; [|by rewrite E].
  destruct (sg_invalidated g) eqn:Ei; [by rewrite E, Ei|reflexivity].
Qed.

#[export] Instance outcome_seen_preorder : PreOrder outcome_seen.
Proof.
  split; [by left|]. intros o1 o2 o3 [->|[r1 ->]] [->|[r2 ->]]; unfold outcome_seen; eauto.
  rewrite retire_retire. eauto.
Qed.

#[export] Instance entry_seen_preorder : PreOrder entry_seen.
Proof.
  split; [by left|]. intros e1 e2 e3 [->|[P1 [r1 ->]]] [->|[P2 [r2 ->]]]; unfold entry_seen; eauto.
Qed.

#[export] Instance reservation_seen_preorder : PreOrder reservation_seen.
Proof.
  split; [by left|]. intros r1 r2 r3 [->| ->] [->| ->]; unfold reservation_seen; auto.
  right. by destruct r1.
Qed.

#[export] Instance seen_preorder : PreOrder seen.
Proof.
  split.
  - intros w. split; auto; reflexivity.
  - intros w1 w2 w3 [] []. split; try congruence; try (etransitivity; eassumption).
    destruct sn_commit_frame0 as (? & ? & ? & ?), sn_commit_frame1 as (? & ? & ? & ?).
    repeat split; congruence.
Qed.

Lemma reservation_seen_some (r r' : option (Reservation V)) (x : Reservation V) :
  reservation_seen r r' -> r = Some x -> r' = Some x \/ r' = Some (mark_binding_invalidated x).
Proof. intros [->| ->] ->; auto. Qed.

Lemma seen_reserved (w w' : Work V) : seen w w' -> reserved w' = reserved w.
Proof. intros Hs. unfold reserved. destruct (sn_reservation _ _ Hs) as [->| ->]; [done|]. by destruct (w_reservation w). Qed.

Lemma seen_handles (w w' : Work V) (p : nat) :
  seen w w' -> o_handle <$> w_heap w' !! p = o_handle <$> w_heap w !! p.
Proof.
  intros Hs. pose proof (sn_heap _ _ Hs) as Hh. destruct (w_heap w !! p) as [o|] eqn:E.
  - destruct (Forall2_lookup_l _ _ _ _ _ Hh E) as (o' & -> & [->|[r ->]]); [done|].
    cbn. unfold retire. by destruct (o_stage o) as [g|]; [destruct (sg_invalidated g)|].
  - apply lookup_ge_None in E. rewrite (Forall2_length _ _ _ Hh) in E. by rewrite (lookup_ge_None_2 _ _ E).
Qed.

Lemma alter_seen (r : ReferenceStageInvalidation) (p : nat) (w : Work V) : seen w (retire_at r p w).
Proof.
  split; cbn; auto; try reflexivity. apply Forall2_same_length_lookup. split; [by rewrite length_alter|].
  intros i x y Hx Hy. rewrite list_lookup_alter in Hy. destruct (decide (p = i)) as [->|]; rewrite Hx in Hy.
  - injection Hy as <-. right. eauto.
  - injection Hy as <-. by left.
Qed.

Lemma fold_retire_seen {A : Type} (r : ReferenceStageInvalidation) (f : A -> nat) (l : list A) :
  forall w : Work V, seen w (fold_left (fun w x => retire_at r (f x) w) l w).
Proof.
  induction l as [|x l IH]; intros w; [reflexivity|]. etransitivity; [apply alter_seen|apply IH].
Qed.

Lemma set_entries_seen (w : Work V) (ps os : list Entry) :
  Forall2 entry_seen (c_pending (w_commits w)) ps -> Forall2 entry_seen (c_outcomes (w_commits w)) os ->
  seen w (set_commits (mkCommits (c_identity (w_commits w)) (c_next_sequence (w_commits w))
            (c_journal (w_commits w)) ps os (c_selection (w_commits w))) w).
Proof. intros. split; cbn; auto; reflexivity. Qed.

End Seen.

(** ** Inspecting *)

Section Inspecting.
Context {B : Type} `{CanBus B} {V : Type} `{EqDecision V}.
Variable to_value : list Config.MotorEntry -> Config.ControlSection -> Config.HomingSection -> result string V.
Variable value_len : V -> result string Z.
Variable encode_policy : Authority.TypedPolicy -> result string (list Z).
Abbreviation S := (Sup B (Work V)).

(** [s'] is [s] inspected: later, marked, with no more permission. *)
Record inspected (s s' : S) : Prop := {
  is_rest : exists a w k, s' = set_authority a (set_rwork w (set_clock k s));
  is_authority : drops (authority s) (authority s');
  is_work : seen (rwork s) (rwork s')
}.

#[export] Instance inspected_preorder : PreOrder inspected.
Proof.
  split.
  - intros s. split; [|reflexivity..]. exists (authority s), (rwork s), (hostclock s). by destruct s.
  - intros s1 s2 s3 [(a & w & k & ->) D1 W1] [(a' & w' & k' & ->) D2 W2].
    split; [by exists a', w', k'|by etransitivity|by etransitivity].
Qed.

Lemma inspected_clock (k : clock) (s : S) : inspected s (set_clock k s).
Proof. split; [|reflexivity..]. exists (authority s), (rwork s), k. by destruct s. Qed.

Lemma inspected_work (w : Work V) (s : S) : seen (rwork s) w -> inspected s (set_rwork w s).
Proof. intros Hw. split; [|reflexivity|exact Hw]. exists (authority s), w, (hostclock s). by destruct s. Qed.

Lemma inspected_authority (a : Authority.ReferenceAuthority) (s : S) :
  drops (authority s) a -> inspected s (set_authority a s).
Proof. intros D. split; [|exact D|reflexivity]. exists a, (rwork s), (hostclock s). by destruct s. Qed.

Lemma tick_inspected (s : S) : inspected s (tick s).2.
Proof. unfold tick. destruct (now (hostclock s)). apply inspected_clock. Qed.

Lemma backend_now_inspected (s : S) : inspected s (backend_now s).2.
Proof.
  unfold backend_now. pose proof (tick_inspected s) as Ht. destruct (tick s) as [t s1]. exact Ht.
Qed.

Lemma invalidation_inspected (o : RetainedOutcome V) (g : RetainedStage) (s : S) :
  exists k, (staged_reference_invalidation to_value value_len encode_policy o g s).2 = set_clock k s.
Proof.
  assert (Hid : exists k, s = set_clock k s) by (exists (hostclock s); by destruct s).
  unfold staged_reference_invalidation, backend_now, tick.
  repeat match goal with
  | |- context [if ?b then (Some _, s) else _] => destruct b; [exact Hid|]
  end.
  destruct (now (hostclock s)) as [t k]. exists k.
  repeat match goal with |- context [if ?b then _ else _] => destruct b; [reflexivity|] end. reflexivity.
Qed.

Lemma stage_status_inspected (p : nat) (s : S) :
  inspected s (retained_stage_status to_value value_len encode_policy p s).2.
Proof.
  unfold retained_stage_status. destruct (w_heap (rwork s) !! p) as [o|]; [|reflexivity].
  destruct (o_stage o) as [g|]; [|reflexivity]. destruct (sg_invalidated g); [reflexivity|].
  destruct (invalidation_inspected o g s) as [k Ek].
  destruct (staged_reference_invalidation _ _ _ o g s) as [found s1]. cbn [snd] in Ek. subst s1.
  destruct found as [r|]; cbn [snd]; [|apply inspected_clock].
  etransitivity; [apply inspected_clock|]. apply inspected_work. apply (alter_seen r p).
Qed.

Lemma observe_entries_seen (es : list Entry) : forall s : S,
  let '(es', s') := observe_entries to_value value_len encode_policy es s in
  inspected s s' /\ Forall2 entry_seen es es'
  /\ c_pending (w_commits (rwork s')) = c_pending (w_commits (rwork s))
  /\ c_outcomes (w_commits (rwork s')) = c_outcomes (w_commits (rwork s))
  /\ w_commits (rwork s') = w_commits (rwork s).
Proof.
  assert (Hc : forall p (s : S), w_commits (rwork (retained_stage_status to_value value_len encode_policy p s).2)
    = w_commits (rwork s)).
  { intros p s. unfold retained_stage_status. destruct (w_heap (rwork s) !! p) as [o|]; [|reflexivity].
    destruct (o_stage o) as [g|]; [|reflexivity]. destruct (sg_invalidated g); [reflexivity|].
    destruct (invalidation_inspected o g s) as [k Ek].
    destruct (staged_reference_invalidation _ _ _ o g s) as [[r|] s1]; cbn [snd] in Ek |- *; by subst s1. }
  induction es as [|e es IH]; intros s; cbn [observe_entries]; [split; [reflexivity|auto]|].
  assert (H1 : let '(e', s1) :=
    (if is_pending e then
       let '(status, s) := retained_stage_status to_value value_len encode_policy (e_stage e) s in
       (match status with Invalidated reason => set_phase (CommitInvalidated reason) e | _ => e end, s)
     else (e, s)) in
    inspected s s1 /\ entry_seen e e' /\ w_commits (rwork s1) = w_commits (rwork s)).
  { destruct (is_pending e) eqn:Ep; [|split; [reflexivity|split; reflexivity]].
    pose proof (stage_status_inspected (e_stage e) s) as Hi. specialize (Hc (e_stage e) s).
    destruct (retained_stage_status _ _ _ _ _) as [status s1]. cbn [snd] in Hi, Hc. split; [exact Hi|].
    split; [|exact Hc]. destruct status; [by left..|right; eauto]. }
  destruct (if is_pending e then _ else _) as [e' s1]. destruct H1 as (I1 & E1 & C1).
  specialize (IH s1). destruct (observe_entries _ _ _ es s1) as [es' s2]. destruct IH as (I2 & E2 & _ & _ & C2).
  rewrite C2, C1. split; [by etransitivity|]. split; [by constructor|auto].
Qed.

Lemma observe_inspected (s : S) :
  inspected s (observe_reference_commits to_value value_len encode_policy s).
Proof.
  unfold observe_reference_commits.
  pose proof (observe_entries_seen (c_pending (w_commits (rwork s))) s) as H1.
  destruct (observe_entries _ _ _ _ s) as [ps s1]. destruct H1 as (I1 & E1 & _ & _ & C1).
  pose proof (observe_entries_seen (c_outcomes (w_commits (rwork s))) s1) as H2.
  destruct (observe_entries _ _ _ _ s1) as [os s2]. destruct H2 as (I2 & E2 & _ & _ & C2).
  etransitivity; [etransitivity; [exact I1|exact I2]|]. apply inspected_work.
  rewrite <- C1, <- C2 in *. by apply set_entries_seen.
Qed.

Lemma note_binding_inspected (v : option V) (s : S) : inspected s (note_binding v s).
Proof.
  unfold note_binding. destruct (w_reservation (rwork s)) as [r|] eqn:E; [|reflexivity].
  destruct (_ || _); [|reflexivity]. unfold update_reservation. apply inspected_work.
  split; cbn; auto; try reflexivity. right. by rewrite E.
Qed.

Lemma status_for_inspected (h : ReferenceHandle) (s : S) :
  inspected s (reference_stage_status_for to_value value_len encode_policy h s).2.
Proof.
  unfold reference_stage_status_for. destruct (find_outcome h (rwork s)); [apply stage_status_inspected|reflexivity].
Qed.

Lemma staged_inspected (s : S) : inspected s (observe_staged_reference to_value value_len encode_policy s).2.
Proof. unfold observe_staged_reference. destruct (latest_handle _); [apply status_for_inspected|reflexivity]. Qed.

Lemma valid_inspected (s : S) :
  inspected s (reference_binding_valid to_value value_len encode_policy s).2.
Proof.
  unfold reference_binding_valid.
  destruct (valid_frame (observed to_value value_len encode_policy) Judge s) as (a & k & -> & D).
  split; [|exact D|].
  - exists a, (checked_work (observed to_value value_len encode_policy) s), k. reflexivity.
  - etransitivity; [apply (is_work _ _ (staged_inspected s))|].
    apply (is_work _ _ (observe_inspected (observe_stage (observed to_value value_len encode_policy) s))).
Qed.

Lemma snapshot_inspected (s : S) : inspected s (reference_snapshot to_value value_len encode_policy s).2.
Proof.
  unfold reference_snapshot. pose proof (valid_inspected s) as H1.
  destruct (reference_binding_valid _ _ _ s) as [v s1]. cbn [snd] in H1.
  set (policy := Authority.result_ok _). pose proof (note_binding_inspected policy s1) as H2.
  set (s2 := note_binding policy s1) in *. etransitivity; [exact H1|]. etransitivity; [exact H2|].
  destruct (w_reservation (rwork s2)) as [r|].
  - destruct (has_backend s2); [|reflexivity]. pose proof (backend_now_inspected s2) as H3.
    destruct (backend_now s2) as [n s3]. exact H3.
  - pose proof (staged_inspected s2) as H3. destruct (observe_staged_reference _ _ _ s2) as [st s3]. exact H3.
Qed.

Lemma terminal_snapshot_inspected (t : ReferenceTerminal) (s : S) :
  inspected s (snapshot_for_terminal to_value value_len encode_policy t s).2.
Proof.
  unfold snapshot_for_terminal. pose proof (snapshot_inspected s) as H1.
  destruct (reference_snapshot _ _ _ s) as [n s1]. cbn [snd] in H1.
  pose proof (status_for_inspected (t_handle t) s1) as H2.
  destruct (reference_stage_status_for _ _ _ _ s1) as [st s2]. cbn [snd] in *. by etransitivity.
Qed.

End Inspecting.
End Frames.
