(* ===== verification/Evidence.v ===== *)
(** * Evidence: how a reference acquisition can end, and on what evidence

    Theorems about the state machine of [Acquire].  Each phase either moves the
    live reservation on or ends it through [finish_reference]; whatever ends it
    has stopped every installed drive and retained a terminal.  The fields of a
    live reservation follow its phase ([facts]), so evidence is staged only from
    an identified, armed, zeroed and acknowledged target. *)

From Stdlib Require Import ZArith Lia Bool.
From stdpp Require Import base gmap strings list.
From S2P Require Import Prelude Float Config Validate Params Bus Receive Feedback Reporting Faults Davout Filter Admission Authority Physical Lifecycle Stop Session Consume Hazards Enable Journal History Reference Acquire Frames.

Module Evidence.
Import Params Bus Receive Feedback Faults Davout Filter Admission Lifecycle Stop Session Consume Hazards Enable Journal History Reference Acquire Frames.

Section Evidence.
Context {B : Type} `{CanBus B} {V : Type} `{EqDecision V}.
Variable display : DavoutError -> string.
Variable display_bus : BusError -> string.
Variable display_reference : ReferenceError -> string.
Variable display_f64 : f64 -> string.
Variable to_value : list Config.MotorEntry -> Config.ControlSection -> Config.HomingSection -> result string V.
Variable value_len : V -> result string Z.
Variable encode_policy : Authority.TypedPolicy -> result string (list Z).
Abbreviation S := (Sup B (Work V)).
Abbreviation inspected := (@inspected B V).

(** ** Ending *)

(** What is retained of an acquisition that accepted [accepted]. *)
Definition stage_retained (r : Reservation V)
  (accepted : option (AcceptedReferenceEvidence * option PhysicalEvidence)) (stage : option RetainedStage) : Prop :=
  match accepted with
  | None => stage = None
  | Some a => exists g, stage = Some g /\ sg_evidence g = a.1 /\ sg_physical g = a.2
      /\ sg_installed_model g = r_installed_model r /\ sg_overall_deadline g = r_overall_deadline r
      /\ sg_typed_policy g = r_typed_policy r
  end.

(** The acquisition [r] is over: the owner is free, every drive was stopped in
    the stop its terminal reports, and the terminal is the latest outcome of the
    work [w] it started from. *)
Record ended (r : Reservation V) (cause : ReferenceCause)
  (accepted : option (AcceptedReferenceEvidence * option PhysicalEvidence)) (w : Work V) (s : S) : Prop := {
  en_halted : halted s;
  en_outcome : exists stop stage,
    last_stop (fault_authority (adm s)) = Some stop /\ stage_retained r accepted stage
    /\ seen (retain cause r stage stop w).2 (rwork s)
}.

Lemma inspected_frame (s s' : S) :
  inspected s s' -> adm s' = adm s /\ session s' = session s /\ tracking s' = tracking s /\ loss s' = loss s
    /\ installed s' = installed s /\ stop_motors s' = stop_motors s /\ hardware_estop s' = hardware_estop s
    /\ bus s' = bus s /\ physical s' = physical s.
Proof. intros Hi. destruct (is_rest _ _ Hi) as (a & w & k & ->). auto 20. Qed.

Lemma inspected_halted (s s' : S) : inspected s s' -> halted s -> halted s'.
Proof.
  intros Hi []. destruct (inspected_frame s s' Hi) as (Ea & Es & Et & El & _).
  split; rewrite ?Ea, ?Es, ?Et, ?El; auto.
Qed.

Lemma ended_inspected r cause accepted w (s s' : S) :
  inspected s s' -> ended r cause accepted w s -> ended r cause accepted w s'.
Proof.
  intros Hi [Hh (stop & stage & E1 & E2 & E3)]. split; [by eapply inspected_halted|].
  destruct (inspected_frame _ _ Hi) as (Ea & _). exists stop, stage. rewrite Ea.
  split; [exact E1|]. split; [exact E2|]. etransitivity; [exact E3|exact (is_work _ _ Hi)].
Qed.

Lemma ended_free r cause accepted w (s : S) : ended r cause accepted w s -> w_reservation (rwork s) = None.
Proof. intros [_ (stop & stage & _ & _ & E)]. by destruct (sn_reservation _ _ E) as [->| ->]. Qed.

Lemma mark_owner_work_frame (s : S) :
  exists p k, mark_owner_work s = set_physical p (set_clock k s).
Proof.
  unfold mark_owner_work, tick. destruct (has_backend s).
  - destruct (now (hostclock s)) as [t k]. eexists _, k. reflexivity.
  - exists (physical s), (hostclock s). by destruct s.
Qed.

Lemma finish_stop_spec (existing : option StopReport) (accepted : bool) (s : S) :
  (forall stop, existing = Some stop -> halted s /\ last_stop (fault_authority (adm s)) = Some stop) ->
  let '(stop, s') := finish_stop to_value value_len encode_policy existing accepted s in
  halted s' /\ last_stop (fault_authority (adm s')) = Some stop /\ rwork s' = rwork s
  /\ drops (authority s) (authority s').
Proof.
  intros He. unfold finish_stop. destruct existing as [stop|].
  { destruct (He stop eq_refl). split; [assumption|]. split; [assumption|]. split; reflexivity. }
  match goal with |- context [perform_stop_paced _ false ?p s] => set (pacer := p) end.
  pose proof (stop_frame (observed to_value value_len encode_policy) pacer s) as Hf.
  pose proof (perform_stop_spec (observed to_value value_len encode_policy) false pacer s) as Hs.
  destruct (perform_stop_paced _ false pacer s) as [[report p'] s']. destruct Hs as (Hh & _ & _ & Hl & _), Hf. auto.
Qed.

Lemma finish_reference_spec cause existing accepted (s : S) (r : Reservation V) :
  w_reservation (rwork s) = Some r ->
  (forall stop, existing = Some stop -> halted s /\ last_stop (fault_authority (adm s)) = Some stop) ->
  exists t s', finish_reference to_value value_len encode_policy cause existing accepted s = (Ok t, s')
    /\ ended r cause accepted (rwork s) s' /\ drops (authority s) (authority s')
    /\ t_cause t = cause /\ t_handle t = r_handle r.
Proof.
  intros Hr He. unfold finish_reference. rewrite Hr.
  set (s1 := set_rwork (set_reservation None (rwork s)) s).
  assert (He1 : forall stop, existing = Some stop -> halted s1 /\ last_stop (fault_authority (adm s1)) = Some stop).
  { intros stop E. destruct (He stop E) as [[] Hl]. split; [by split|exact Hl]. }
  pose proof (finish_stop_spec existing (bool_decide (is_Some accepted)) s1 He1) as Hs.
  destruct (finish_stop _ _ _ existing _ s1) as [stop s2]. destruct Hs as (Hh & Hl & Hw & D).
  destruct (mark_owner_work_frame s2) as (p & k & ->). set (s3 := set_physical p (set_clock k s2)).
  set (stage := _ <$> accepted). unfold retain. cbn [w_outcomes w_heap].
  set (t := mkTerminal _ _ cause stop _ _). set (w := mkWork _ _ _ None _ _ _ _ _ _).
  pose proof (staged_inspected to_value value_len encode_policy (set_rwork w s3)) as Hi.
  destruct (observe_staged_reference _ _ _ _) as [st s4]. cbn [snd] in Hi.
  exists t, s4. split; [reflexivity|]. split; [|split; [|auto]].
  - eapply ended_inspected; [exact Hi|]. split; [destruct Hh; by split|].
    exists stop, stage. split; [exact Hl|]. split.
    + unfold stage, stage_retained. destruct accepted as [a|]; cbn; [|reflexivity]. eexists. repeat split; reflexivity.
    + cbn [rwork set_rwork]. unfold w, s3. cbn [rwork set_physical set_clock]. by rewrite Hw.
  - etransitivity; [exact D|]. exact (is_authority _ _ Hi).
Qed.

(** [finish_reference] through the terminal's snapshot. *)
Lemma finish_with_spec cause existing accepted (s : S) (r : Reservation V) :
  w_reservation (rwork s) = Some r ->
  (forall stop, existing = Some stop -> halted s /\ last_stop (fault_authority (adm s)) = Some stop) ->
  exists n s', finish_with to_value value_len encode_policy cause existing accepted s = (Ok n, s')
    /\ ended r cause accepted (rwork s) s' /\ drops (authority s) (authority s').
Proof.
  intros Hr He. destruct (finish_reference_spec cause existing accepted s r Hr He) as (t & s1 & E & En & D & _).
  unfold finish_with. rewrite E. pose proof (terminal_snapshot_inspected to_value value_len encode_policy t s1) as Hi.
  destruct (snapshot_for_terminal _ _ _ t s1) as [n s2]. cbn [snd] in Hi.
  exists n, s2. split; [reflexivity|]. split; [by eapply ended_inspected|].
  etransitivity; [exact D|exact (is_authority _ _ Hi)].
Qed.

Lemma record_fault_rest c j a m d (s : S) :
  let s' := (record_fault c j a m d s).2 in
  rwork s' = rwork s /\ authority s' = authority s /\ installed s' = installed s /\ stop_motors s' = stop_motors s.
Proof. destruct (record_fault_spec c j a m d s) as (f & k & -> & _). auto. Qed.

Lemma fail_spec kind m (s : S) (r : Reservation V) :
  w_reservation (rwork s) = Some r ->
  exists n s', fail_reference to_value value_len encode_policy kind m s = (Ok n, s')
    /\ ended r (failure kind m) None (rwork s) s' /\ drops (authority s) (authority s').
Proof.
  intros Hr. unfold fail_reference. set (s1 := match kind with KDelivery | KBackend => _ | _ => s end).
  assert (H1 : rwork s1 = rwork s /\ authority s1 = authority s).
  { unfold s1. destruct kind; auto; edestruct record_fault_rest as (? & ? & _); split; eassumption. }
  destruct H1 as [Ew Ea]. rewrite <- Ea, <- Ew.
  apply finish_with_spec; [by rewrite Ew|discriminate].
Qed.

(** ** The fields of a reservation follow its phase *)

Definition armed_in (p : ReferencePhase) : bool :=
  match p with DrainPostArm | SetZero | AwaitAck | RequestReadback | AwaitReadback => true | _ => false end.
Definition identified (p : ReferencePhase) : bool :=
  match p with AwaitReportingOff | ArmTarget => true | _ => armed_in p end.
Definition zeroed (p : ReferencePhase) : bool :=
  match p with AwaitAck | RequestReadback | AwaitReadback => true | _ => false end.
Definition acked (p : ReferencePhase) : bool :=
  match p with RequestReadback | AwaitReadback => true | _ => false end.
(** The phases a physical reservation can be in. *)
Definition reserved_phase (p : ReferencePhase) : bool :=
  match p with PIdle | Terminal | AwaitEvidence => false | _ => true end.

(** The order of the phases; a receiving phase may also wait. *)
Definition follows (p q : ReferencePhase) : bool :=
  match p, q with
  | BaselineStop, DrainOld | DrainOld, RequestIdentity | RequestIdentity, AwaitIdentity
  | AwaitIdentity, AwaitIdentity | AwaitIdentity, AwaitReportingOff | AwaitIdentity, ArmTarget
  | AwaitReportingOff, AwaitReportingOff | AwaitReportingOff, ArmTarget
  | ArmTarget, DrainPostArm | DrainPostArm, DrainPostArm | DrainPostArm, SetZero | SetZero, AwaitAck
  | AwaitAck, AwaitAck | AwaitAck, RequestReadback | RequestReadback, AwaitReadback
  | AwaitReadback, AwaitReadback => true
  | _, _ => false
  end.

Record facts (p : ReferencePhase) (r : Reservation V) : Prop := {
  fa_phase : reserved_phase p = true;
  fa_armed : r_armed r = armed_in p;
  fa_uid : identified p = true -> is_Some (r_uid r);
  fa_epoch : is_Some (r_device_epoch r) <-> zeroed p = true;
  fa_ack : is_Some (r_ack r) <-> acked p = true
}.

(** Fields no phase changes. *)
Record same_core (r r' : Reservation V) : Prop := {
  co_request : r_request r' = r_request r;
  co_handle : r_handle r' = r_handle r;
  co_address : r_address r' = r_address r;
  co_model : r_installed_model r' = r_installed_model r;
  co_policy : r_policy r' = r_policy r /\ r_typed_policy r' = r_typed_policy r;
  co_overall : r_overall_deadline r' = r_overall_deadline r;
  co_phase : r_phase r' = r_phase r /\ r_phase_deadline r' = r_phase_deadline r
}.

#[local] Instance same_core_preorder : PreOrder same_core.
Proof.
  split.
  - intros r. split; auto.
  - intros r1 r2 r3 [] []. split; intuition congruence.
Qed.

(** What the readback [a] of [r] rests on, judged in the state [s] of its drain
    against the target's configuration [m]: a successful mechPos read newer than
    the request, within [s]'s tolerance of zero, continuous with the positions
    seen before it, from the device that was identified and zeroed. *)
Record readback_grounded (m : Config.MotorEntry) (s : S) (r : Reservation V)
  (a : AcceptedReferenceEvidence * option PhysicalEvidence) : Prop := {
  rg_identified : exists u k, r_uid r = Some u /\ r_ack r = Some k
    /\ a.2 = Some (mkPhysEvidence u (ak_order k) (ak_can_id k) (ak_position_rad k));
  rg_epoch : r_device_epoch r = Some (cr_device_epoch (ev_proof a.1));
  rg_target : ev_address a.1 = r_address r /\ pop_matches a.1 = true
    /\ cr_transaction (ev_proof a.1) = h_sequence (r_handle r);
  rg_read : exists read q,
    Physical.read_after (r_address r) MechPos (r_request_watermark r) (physical s) = Some read
    /\ prd_order read = ev_order a.1 /\ prd_received_at read = ev_received_at a.1
    /\ succeeded (prd_reply read) = true
    /\ motor_position_scale m = Ok q
    /\ let x := div64 (f64_of_f32 (reply_as_f32 (prd_reply read))) q in
       is_finite x = true /\ fgt (fabs x) (tolerance s) = false /\ ev_position_rad a.1 = f32_of_f64 x
       /\ exists p, Physical.observe_position (r_address r) x (prd_received_at read) (tolerance s) (physical s) = (None, p)
          /\ Physical.uid (r_address r) p = r_uid r /\ Physical.epoch (r_address r) p = r_device_epoch r
}.

Definition summary_of (out : FeedbackConsumption) : ReferenceReceiveSummary :=
  mkSummary (fc_completion out) (fc_raw_frames out) (fc_read_attempts out).

(** The drain a receiving phase of [r] starts with in [s]: what it consumed, the
    target's configuration and the state it leaves. *)
Definition drained (r : Reservation V) (s : S) : option (FeedbackConsumption * Config.MotorEntry * S) :=
  '(report, b, c) ← recv_feedback_report (motor_types s) 0 0 limits_default (bus s) (hostclock s);
  let s := set_clock c (set_bus b s) in
  m ← target_motor (r_address r) s;
  let '(out, s) :=
    consume_report_in_context display report (Reference (address_of_motor m) (receive_phase r)) s in
  Some (out, m, update_reservation (r_set_receive (summary_of out)) s).

(** [a] is what the readback phase of [r] accepted from its drain in [s], as [r']. *)
Record accepted_from (r : Reservation V) (s : S) (r' : Reservation V)
  (a : AcceptedReferenceEvidence * option PhysicalEvidence) : Prop := {
  af_phase : r_phase r = AwaitReadback;
  af_drain : exists out m s',
    drained r s = Some (out, m, s')
    /\ fc_error out = None /\ fc_transition out = false /\ is_complete (fc_completion out) = true
    /\ has_latched_fault s' = false
    /\ r' = r_set_receive (summary_of out) r /\ readback_grounded m s' r' a
}.

Section Phases.
(** What a phase must have found to accept evidence. *)
Variable G : Reservation V -> AcceptedReferenceEvidence * option PhysicalEvidence -> Prop.

(** How a phase may leave the acquisition [r] of the work [w]. *)
Inductive phase_done (r : Reservation V) (a0 : Authority.ReferenceAuthority) (w : Work V) (s' : S) : flow V -> Prop :=
| pd_next (p : ReferencePhase) (r' : Reservation V) :
    follows (r_phase r) p = true -> same_core r r' -> facts p r' -> drops a0 (authority s') -> rwork s' = set_reservation (Some r') w ->
    phase_done r a0 w s' (Next p)
| pd_wait (n : ReferenceSnapshot V) (r' : Reservation V) :
    same_core r r' -> facts (r_phase r) r' -> drops a0 (authority s') ->
    seen (set_reservation (Some r') w) (rwork s') ->
    phase_done r a0 w s' (Leave (Ok n))
| pd_ended (n : ReferenceSnapshot V) (r' : Reservation V) cause accepted :
    same_core r r' -> drops a0 (authority s') -> ended r' cause accepted w s' ->
    (forall a, accepted = Some a -> cause = EvidenceStaged /\ G r' a) ->
    (cause = EvidenceStaged -> accepted <> None) ->
    phase_done r a0 w s' (Leave (Ok n))
| pd_error (e : ReferenceError) (r' : Reservation V) :
    same_core r r' -> drops a0 (authority s') -> rwork s' = set_reservation (Some r') w ->
    phase_done r a0 w s' (Leave (Err e)).

Definition phase_ok (r : Reservation V) (a0 : Authority.ReferenceAuthority) (w : Work V) (x : flow V * S) : Prop :=
  phase_done r a0 w x.2 x.1.

(** [r'] is live in [s], which descends from the work [w]. *)
Record live_in (r : Reservation V) (a0 : Authority.ReferenceAuthority) (w : Work V) (r' : Reservation V) (s : S) : Prop := {
  li_core : same_core r r';
  li_drops : drops a0 (authority s);
  li_work : rwork s = set_reservation (Some r') w
}.

Lemma ended_set r cause accepted (x : option (Reservation V)) (w : Work V) (s : S) :
  ended r cause accepted (set_reservation x w) s -> ended r cause accepted w s.
Proof. by intros [? ?]. Qed.

Lemma leave_failing_ok r a0 w r' kind m (s : S) :
  live_in r a0 w r' s ->
  phase_ok r a0 w (leave_failing to_value value_len encode_policy kind m s).
Proof.
  intros [Hc Hd Hw]. unfold leave_failing, phase_ok.
  destruct (fail_spec kind m s r') as (n & s' & E & En & D); [by rewrite Hw|].
  rewrite E. cbn [fst snd]. rewrite Hw in En.
  eapply pd_ended; [exact Hc|by etransitivity|by eapply ended_set|discriminate|discriminate].
Qed.

Lemma update_live r a0 w r' (f : Reservation V -> Reservation V) (s : S) :
  live_in r a0 w r' s -> same_core r' (f r') -> live_in r a0 w (f r') (update_reservation f s).
Proof.
  intros [Hc Hd Hw] Hf. split; [by etransitivity|exact Hd|].
  unfold update_reservation. cbn. by rewrite Hw.
Qed.

(** A step that keeps the work and the authority. *)
Lemma frame_live r a0 w r' (s s' : S) :
  rwork s' = rwork s -> drops (authority s) (authority s') -> live_in r a0 w r' s -> live_in r a0 w r' s'.
Proof. intros Ew D [Hc Hd Hw]. split; [exact Hc|by etransitivity|congruence]. Qed.

Lemma tick_live r a0 w r' (s : S) : live_in r a0 w r' s -> live_in r a0 w r' (tick s).2.
Proof. unfold tick. destruct (now (hostclock s)). by apply frame_live. Qed.

Lemma next_ok r a0 w r' p (s : S) :
  live_in r a0 w r' s -> facts p r' -> follows (r_phase r) p = true -> phase_ok r a0 w (Next p, s).
Proof. intros [Hc Hd Hw] Hf Ho. by eapply pd_next. Qed.

Lemma written_or_fail_ok r a0 w r' x p (s : S) :
  live_in r a0 w r' s -> facts p r' -> follows (r_phase r) p = true ->
  phase_ok r a0 w (written_or_fail display_bus to_value value_len encode_policy x p s).
Proof.
  intros Hl Hf Ho. unfold written_or_fail. destruct (error_of x) as [e|].
  - by eapply leave_failing_ok.
  - by eapply next_ok.
Qed.

(** ** Each phase *)

(** [frame_live] where the work and the authority are those of [Hl]'s state. *)
Ltac framed Hl := eapply frame_live; [| |exact Hl]; reflexivity.

(** Settle the [facts] of a phase from those of the one before. *)
Ltac facts_solve :=
  match goal with
  | Ep : r_phase ?r = _, Hf : facts (r_phase ?r) ?r |- _ =>
      rewrite Ep in Hf; destruct Hf as [? ? ? ? ?]; cbn in *; split; cbn; auto; intuition (eauto; congruence)
  | Hf : facts ?p ?r |- _ =>
      destruct Hf as [? ? ? ? ?]; cbn in *; split; cbn; auto; intuition (eauto; congruence)
  end.

Lemma suspend_reporting_live r a0 w r' pacer (s : S) :
  live_in r a0 w r' s ->
  exists l, live_in r a0 w (r_set_reporting l r') (suspend_reporting display_bus r pacer s).2.
Proof.
  intros Hl. unfold suspend_reporting. apply tick_live in Hl. destruct (tick s) as [t s1]. cbn [snd] in Hl.
  set (s2 := if echoes_transmissions (bus s1) then _ else s1).
  assert (H2 : live_in r a0 w r' s2) by (unfold s2; destruct (echoes_transmissions _); [framed Hl|exact Hl]).
  destruct (suspend_paced _ _ _ _ _ _ _ _) as [[[tried rp] b] c]. cbn [snd]. eexists.
  apply (update_live r a0 w r' (r_set_reporting _)); [|by split; auto]. framed H2.
Qed.

Lemma baseline_ok r a0 w (s : S) :
  live_in r a0 w r s -> facts (r_phase r) r -> r_phase r = BaselineStop ->
  phase_ok r a0 w (phase_baseline_stop display_bus to_value value_len encode_policy r s).
Proof.
  intros Hl Hf Ep. unfold phase_baseline_stop.
  match goal with |- context [perform_stop_paced _ false ?p s] => set (pacer := p) end.
  pose proof (stop_frame (observed to_value value_len encode_policy) pacer s) as Hk.
  pose proof (perform_stop_spec (observed to_value value_len encode_policy) false pacer s) as Hs.
  destruct (perform_stop_paced _ false pacer s) as [[stop p'] s1]. destruct Hs as (Hh & _ & _ & Hlast & _).
  assert (H1 : live_in r a0 w r s1) by (eapply frame_live; [apply Hk|apply Hk|exact Hl]).
  destruct (0 <? failed_writes stop)%nat.
  { destruct H1 as [Hc Hd Hw].
    destruct (finish_with_spec (failure KDelivery "baseline stop was uncertain") (Some stop) None s1 r)
      as (n & s' & E & En & D); [by rewrite Hw|intros ? [= <-]; auto|].
    rewrite E. rewrite Hw in En. eapply pd_ended; [exact Hc|by etransitivity|by eapply ended_set|discriminate..]. }
  apply (update_live r a0 w r (r_set_stop_generation (generation stop))) in H1; [|by split; auto].
  destruct (suspend_reporting_live _ _ _ _ p' _ H1) as [l H2].
  destruct (suspend_reporting _ _ _ _) as [failed s2]. cbn [snd] in H2. destruct failed.
  - eapply leave_failing_ok. eapply frame_live; [apply record_fault_rest| |exact H2].
    edestruct record_fault_rest as (_ & -> & _). reflexivity.
  - eapply next_ok; [exact H2|facts_solve|by rewrite Ep].
Qed.

Lemma request_ok (identity : bool) r a0 w (s : S) :
  live_in r a0 w r s -> facts (r_phase r) r -> r_phase r = (if identity then RequestIdentity else RequestReadback) ->
  phase_ok r a0 w (phase_request display_bus to_value value_len encode_policy identity r s).
Proof.
  intros Hl Hf Ep. unfold phase_request. set (watermark := Physical.watermark _).
  assert (H1 : live_in r a0 w r (if identity then let '(t, s) := tick s in (Some (t, t), s) else (None, s)).2).
  { destruct identity; [|exact Hl]. apply tick_live in Hl. by destruct (tick s). }
  match type of H1 with live_in _ _ _ _ (?x).2 => destruct x as [asked s1] end. cbn [snd] in H1.
  apply (update_live r a0 w r (r_set_request watermark asked)) in H1; [|by split; auto].
  destruct (if identity then get_device_id_at _ _ else _) as [x b].
  eapply written_or_fail_ok; [framed H1| |by rewrite Ep; destruct identity]. destruct identity; facts_solve.
Qed.

Lemma arm_ok r a0 w (s : S) :
  live_in r a0 w r s -> facts (r_phase r) r -> r_phase r = ArmTarget ->
  phase_ok r a0 w (phase_arm display_bus to_value value_len encode_policy r s).
Proof.
  intros Hl Hf Ep. unfold phase_arm.
  match goal with |- context [if echoes_transmissions (bus s) then ?x else ?y] =>
    assert (H1 : live_in r a0 w r (if echoes_transmissions (bus s) then x else y).2);
    [|destruct (if echoes_transmissions (bus s) then x else y) as [refused s1]; cbn [snd] in H1] end.
  { destruct (echoes_transmissions (bus s)); [|exact Hl]. apply tick_live in Hl. by destruct (tick s). }
  destruct refused as [m|]; [by eapply leave_failing_ok|].
  apply (update_live r a0 w r r_set_armed) in H1; [|by split; auto].
  destruct (enable_drive_at _ _) as [x b].
  assert (H2 : live_in r a0 w (r_set_armed r) (set_bus b (update_reservation r_set_armed s1)))
    by (framed H1).
  destruct (error_of x) as [e|]; [by eapply leave_failing_ok|].
  apply (next_ok _ _ _ (r_set_armed r)); [|facts_solve|by rewrite Ep].
  destruct (echoes_transmissions _); [framed H2|exact H2].
Qed.

Lemma set_zero_ok r a0 w (s : S) :
  live_in r a0 w r s -> facts (r_phase r) r -> r_phase r = SetZero ->
  phase_ok r a0 w (phase_set_zero display_bus to_value value_len encode_policy r s).
Proof.
  intros Hl Hf Ep. unfold phase_set_zero. destruct (target_motor _ _) as [m|].
  2:{ destruct Hl. by eapply pd_error. }
  set (s1 := invalidate_reference_target_pose_for_zero_attempt m s).
  assert (H1 : live_in r a0 w r s1) by (framed Hl).
  set (s2 := if echoes_transmissions (bus s1) then _ else s1).
  assert (H2 : live_in r a0 w r s2).
  { unfold s2. destruct (echoes_transmissions _); [|exact H1]. apply tick_live in H1.
    destruct (tick s1) as [t s1']. framed H1. }
  destruct (set_zero_position_at _ _) as [x b]. destruct (Physical.begin_new_coordinate _ _) as [epoch p].
  assert (H3 : live_in r a0 w (r_set_epoch epoch r) (update_reservation (r_set_epoch epoch) (set_physical p (set_bus b s2)))).
  { apply (update_live r a0 w r (r_set_epoch epoch)); [framed H2|by split; auto]. }
  destruct (error_of x) as [e|]; [by eapply leave_failing_ok|].
  case_bool_decide as He; [by eapply leave_failing_ok|].
  eapply next_ok; [exact H3| |by rewrite Ep]. destruct epoch as [e|]; [|congruence]. facts_solve.
Qed.

(** ** Receiving *)

Lemma identity_ok r a0 w r' (s : S) :
  live_in r a0 w r' s -> facts AwaitIdentity r' -> r_phase r = AwaitIdentity ->
  phase_ok r a0 w (await_identity display_bus to_value value_len encode_policy r' s).
Proof.
  intros Hl Hf Ep. unfold await_identity. destruct (Physical.identity_after _ _ _) as [u|].
  - destruct (Physical.uid_claimed_elsewhere _ _ _); [by eapply leave_failing_ok|].
    apply (update_live r a0 w r' (r_set_uid u)) in Hl; [|by split; auto].
    destruct (echoes_transmissions _).
    + apply (next_ok _ _ _ (r_set_uid u r')); [|facts_solve|by rewrite Ep]. destruct (set_zero_quiet_until _ _); [by apply tick_live|exact Hl].
    + eapply next_ok; [exact Hl|facts_solve|by rewrite Ep].
  - unfold retry_identity. apply tick_live in Hl. destruct (tick s) as [t s1]. cbn [snd] in Hl.
    destruct (r_identity_requested_at r') as [[first last]|]; [|eapply next_ok; eauto; by rewrite Ep].
    destruct (_ && _); [|eapply next_ok; eauto; by rewrite Ep].
    apply (update_live r a0 w r' (r_set_request (r_request_watermark r') (Some (first, t)))) in Hl; [|by split; auto].
    destruct (get_device_id_at _ _) as [x b].
    eapply written_or_fail_ok; [framed Hl|facts_solve|by rewrite Ep].
Qed.

Lemma ack_ok r a0 w r' poses (s : S) :
  live_in r a0 w r' s -> facts AwaitAck r' -> r_phase r = AwaitAck ->
  phase_ok r a0 w (await_ack r' poses s).
Proof.
  intros Hl Hf Ep. unfold await_ack. destruct (find_first _ _) as [p|]; [|eapply next_ok; eauto; by rewrite Ep].
  eapply next_ok; [apply (update_live r a0 w r' (r_set_ack _)); [exact Hl|by split; auto]|facts_solve|by rewrite Ep].
Qed.

Lemma scale_no_panic (m : Config.MotorEntry) : motor_position_scale m <> Panic.
Proof. unfold motor_position_scale. destruct (negb _); [discriminate|]. by destruct (_ || _). Qed.

Lemma readback_ok r a0 w r' realm m (s : S) :
  live_in r a0 w r' s -> facts AwaitReadback r' -> r_phase r = AwaitReadback ->
  (forall a, readback_grounded m s r' a -> G r' a) ->
  phase_ok r a0 w (accept_physical_readback display_f64 to_value value_len encode_policy r' realm m s).
Proof.
  intros Hl Hf Ep Hg. unfold accept_physical_readback.
  destruct (Physical.read_after _ _ _ _) as [read|] eqn:Er.
  2:{ unfold leave_waiting. pose proof (snapshot_inspected to_value value_len encode_policy s) as Hi.
      destruct (reference_snapshot _ _ _ s) as [n s1]. cbn [snd] in Hi. destruct Hl as [Hc Hd Hw].
      eapply pd_wait; [exact Hc|by rewrite Ep|etransitivity; [exact Hd|apply Hi]|]. rewrite <- Hw. apply Hi. }
  destruct (succeeded (prd_reply read)) eqn:Es; cbn [negb]; [|by eapply leave_failing_ok].
  destruct (motor_position_scale m) as [scale|e|] eqn:Em; [|destruct Hl; by eapply pd_error|by destruct (scale_no_panic m)].
  set (q := div64 _ scale). destruct (negb (is_finite q) || _) eqn:Eq; [by eapply leave_failing_ok|]. bsimp.
  destruct Hf as [_ _ Hu He Ha].
  destruct (Hu eq_refl) as [u Eu], (proj2 He eq_refl) as [ep Ee], (proj2 Ha eq_refl) as [k Ek].
  rewrite Eu, Ee, Ek. destruct (Physical.observe_position _ _ _ _ _) as [cont p] eqn:Eo.
  assert (Hp1 : live_in r a0 w r' (set_physical p s)) by (framed Hl).
  destruct (_ || _) eqn:Ec; [by eapply leave_failing_ok|].
  destruct Hp1 as [Hc Hd Hw].
  match goal with |- context [finish_with _ _ _ EvidenceStaged None ?acc ?x] =>
    destruct (finish_with_spec EvidenceStaged None acc x r') as (n & s' & E & En & D); [by rewrite Hw|discriminate|] end.
  rewrite E. rewrite Hw in En. eapply pd_ended; [exact Hc|by etransitivity|by eapply ended_set| |discriminate].
  intros a [= <-]. split; [reflexivity|]. apply Hg. bsimp.
  unfold Physical.read_after in Er. destruct (find_first _ _) as [ir|] eqn:Ef; [|discriminate]. injection Er as Er.
  pose proof (find_first_some _ _ _ Ef) as [_ Hp]. bsimp.
  repeat match goal with H : bool_decide (_ = _) = true |- _ => apply bool_decide_eq_true in H end.
  split; cbn.
  - eauto.
  - exact Ee.
  - subst read. split; [assumption|]. split; [|reflexivity]. unfold pop_matches. cbn.
    rewrite bool_decide_eq_true_2 by done. by rewrite Nat.eqb_refl, !Z.eqb_refl.
  - exists read, scale. unfold Physical.read_after. rewrite Ef. cbn. rewrite Er.
    repeat split; auto. destruct cont; [done|]. exists p. rewrite Eu, Ee. split; [exact Eo|auto].
Qed.

Lemma after_receive_ok r a0 w v realm m poses (s : S) :
  live_in r a0 w (r_set_receive v r) s -> facts (r_phase r) r ->
  (r_phase r = AwaitReadback -> forall a, readback_grounded m s (r_set_receive v r) a -> G (r_set_receive v r) a) ->
  phase_ok r a0 w (after_receive display_bus display_f64 to_value value_len encode_policy r realm m poses s).
Proof.
  intros Hl Hf Hg. set (r' := r_set_receive v r) in *.
  change (phase_ok r a0 w
    (after_receive display_bus display_f64 to_value value_len encode_policy r' realm m poses s)).
  assert (Hf' : facts (r_phase r) r') by (by destruct Hf).
  assert (He : forall m0, phase_ok r a0 w (Leave (Err (RInvalidRequest m0)), s))
    by (intros m0; destruct Hl; by eapply pd_error).
  unfold after_receive. change (r_phase r') with (r_phase r). destruct (r_phase r) eqn:Ep.
  all: try exact (He _).
  - eapply next_ok; [exact Hl|facts_solve|by rewrite Ep].
  - by apply identity_ok.
  - unfold await_reporting_off. apply tick_live in Hl. destruct (tick s) as [t s1]. cbn [snd] in Hl.
    eapply next_ok; [exact Hl| |rewrite Ep; by destruct (_ && _)]. destruct (_ && _); [facts_solve|exact Hf'].
  - eapply next_ok; [exact Hl| |rewrite Ep; by case_bool_decide]. case_bool_decide; [exact Hf'|facts_solve].
  - destruct Hf. discriminate.
  - by apply ack_ok.
  - apply readback_ok; auto.
Qed.

Lemma receive_ok r a0 w realm (s : S) :
  live_in r a0 w r s -> facts (r_phase r) r -> (forall r' a, accepted_from r s r' a -> G r' a) ->
  phase_ok r a0 w (phase_receive display display_bus display_f64 to_value value_len encode_policy r realm s).
Proof.
  intros Hl Hf Hg. pose proof (eq_refl (drained r s)) as Hd. revert Hd. unfold drained at 2.
  unfold phase_receive, recv_feedback_report.
  destruct (drain_total 0 0 (bus s) (hostclock s) limits_default) as [[[batch b] c] Ed]. rewrite Ed. cbn [mbind option_bind].
  match goal with |- context [target_motor _ ?x] => set (s1 := x) end.
  assert (H1 : live_in r a0 w r s1) by framed Hl.
  destruct (target_motor _ s1) as [m|]; [|intros _; destruct H1; by eapply pd_error]. cbn [mbind option_bind].
  match goal with |- context [consume_report_in_context display ?rep ?ctx s1] =>
    pose proof (consume_spec display rep ctx s1) as Hc;
    destruct (consume_report_in_context display rep ctx s1) as [out s2] end.
  destruct Hc as (_ & Hfed & _ & _). intros Hd.
  assert (H2 : live_in r a0 w r s2).
  { destruct (fd_owner _ _ _ Hfed) as (_ & Ea & _ & _ & Ew & _).
    eapply frame_live; [exact Ew|rewrite Ea; reflexivity|exact H1]. }
  fold (summary_of out).
  apply (update_live r a0 w r (r_set_receive (summary_of out))) in H2; [|by split; auto].
  destruct (fc_error out) as [e|] eqn:Ee; [by eapply leave_failing_ok|].
  destruct (_ || _) eqn:Eh; [by eapply leave_failing_ok|]. apply orb_false_iff in Eh as [Et Eh].
  destruct (is_complete _) eqn:Ec; cbn [negb]; [|by eapply leave_failing_ok].
  eapply after_receive_ok; [exact H2|exact Hf|]. intros Ep a Ha. apply Hg. split; [exact Ep|].
  exists out, m, (update_reservation (r_set_receive (summary_of out)) s2). auto 10.
Qed.

(** Every phase moves the reservation on, keeps it waiting, ends it, or reports
    an error with the reservation still there. *)
Lemma run_phase_ok r a0 w realm (s : S) :
  live_in r a0 w r s -> facts (r_phase r) r -> (forall r' a, accepted_from r s r' a -> G r' a) ->
  phase_ok r a0 w (run_phase display display_bus display_f64 to_value value_len encode_policy r realm s).
Proof.
  intros Hl Hf Hg. unfold run_phase. destruct (r_phase r) eqn:Ep; rewrite <- Ep in Hf.
  all: try (by apply receive_ok).
  - destruct Hl. by eapply pd_error.
  - by apply baseline_ok.
  - by apply (request_ok true).
  - by apply arm_ok.
  - by apply set_zero_ok.
  - by apply (request_ok false).
  - destruct Hl. by eapply pd_error.
Qed.

(** ** Advancing *)

(** The invariant of a live reservation. *)
Record reservation_ok (r : Reservation V) : Prop := {
  ro_facts : facts (r_phase r) r;
  ro_deadline : r_phase_deadline r <= r_overall_deadline r
}.

(** [r'] is the acquisition [r] one call later. *)
Record continues (r r' : Reservation V) : Prop := {
  ct_request : r_request r' = r_request r /\ r_handle r' = r_handle r /\ r_address r' = r_address r;
  ct_overall : r_overall_deadline r' = r_overall_deadline r;
  ct_phase : r_phase r' = r_phase r \/ follows (r_phase r) (r_phase r') = true
}.

(** How a call of [advance_reference] may leave the acquisition [r] of [w]. *)
Inductive advanced (r : Reservation V) (w : Work V) (s' : S) : result ReferenceError (ReferenceSnapshot V) -> Prop :=
| ad_live n r' :
    seen (set_reservation (Some r') w) (rwork s') -> reservation_ok r' -> continues r r' -> advanced r w s' (Ok n)
| ad_ended n r' cause accepted :
    same_core r r' -> ended r' cause accepted w s' ->
    (forall a, accepted = Some a -> cause = EvidenceStaged /\ G r' a) ->
    (cause = EvidenceStaged -> accepted <> None) ->
    advanced r w s' (Ok n)
| ad_error e r' :
    same_core r r' -> ended r' (failure KBackend (display_reference e)) None w s' -> advanced r w s' (Err e).

(** The same before the failed call is wound up. *)
Inductive advancing (r : Reservation V) (w : Work V) (s' : S) : result ReferenceError (ReferenceSnapshot V) -> Prop :=
| ag_done n : advanced r w s' (Ok n) -> advancing r w s' (Ok n)
| ag_error e r' : same_core r r' -> rwork s' = set_reservation (Some r') w -> advancing r w s' (Err e).

Lemma mark_ok (r : Reservation V) : reservation_ok r -> reservation_ok (mark_binding_invalidated r).
Proof. intros [[] ?]. by split; [split|]. Qed.

Lemma same_core_continues (r r' : Reservation V) : same_core r r' -> continues r r'.
Proof. intros []. split; [auto|auto|left; tauto]. Qed.

Lemma phase_deadline_bounded now overall p d :
  now < overall -> phase_deadline now overall p = Ok d -> d <= overall.
Proof.
  intros Hn. unfold phase_deadline. case_bool_decide; [intros [= <-]; lia|].
  unfold duration_checked_add, ok_or. destruct (_ <=? _); [|discriminate]. intros [= <-]. lia.
Qed.

Lemma follows_phase (p q : ReferencePhase) : follows p q = true -> reserved_phase q = true.
Proof. by destruct p, q. Qed.

Lemma enter_phase_ok (r r' : Reservation V) w now p (s : S) :
  now < r_overall_deadline r -> same_core r r' -> facts p r' -> r_phase_deadline r <= r_overall_deadline r ->
  follows (r_phase r) p = true -> rwork s = set_reservation (Some r') w ->
  let '(x, s') := enter_phase to_value value_len encode_policy r now p s in
  advancing r w s' x /\ drops (authority s) (authority s').
Proof.
  intros Hn Hc Hf Hd Ho Hw. unfold enter_phase.
  assert (Hsnap : forall r2 (s2 : S), rwork s2 = set_reservation (Some r2) w -> reservation_ok r2 ->
    continues r r2 -> let '(n, s3) := reference_snapshot to_value value_len encode_policy s2 in
    advancing r w s3 (Ok n) /\ drops (authority s2) (authority s3)).
  { intros r2 s2 E2 O2 C2. pose proof (snapshot_inspected to_value value_len encode_policy s2) as Hi.
    destruct (reference_snapshot _ _ _ s2) as [n s3]. cbn [snd] in Hi. split; [|apply Hi].
    apply ag_done. eapply ad_live; [|exact O2|exact C2]. rewrite <- E2. apply Hi. }
  case_bool_decide as Ep.
  - specialize (Hsnap r' s Hw). destruct (reference_snapshot _ _ _ s). apply Hsnap; [|by apply same_core_continues].
    destruct (co_phase _ _ Hc) as [E1 E2]. split; [by rewrite E1, <- Ep|by rewrite E2, (co_overall _ _ Hc)].
  - destruct (phase_deadline now (r_overall_deadline r) p) as [d|e|] eqn:Ed; cbn [rbind].
    + set (r2 := r_set_phase p d r'). set (s2 := update_reservation (r_set_phase p d) s).
      assert (E2 : rwork s2 = set_reservation (Some r2) w) by (unfold s2, update_reservation; cbn; by rewrite Hw).
      specialize (Hsnap r2 s2 E2). destruct (reference_snapshot _ _ _ s2). apply Hsnap.
      * split; [|]; cbn; [by destruct Hf|].
        rewrite (co_overall _ _ Hc). by eapply phase_deadline_bounded.
      * destruct Hc. split; cbn; auto.
    + split; [by eapply ag_error|reflexivity].
    + unfold phase_deadline, ok_or in Ed. case_bool_decide; [discriminate|]. by destruct (duration_checked_add _ _).
Qed.

Lemma mark_owner_live r a0 w r' (s : S) : live_in r a0 w r' s -> live_in r a0 w r' (mark_owner_work s).
Proof. intros Hl. destruct (mark_owner_work_frame s) as (p & k & ->). framed Hl. Qed.

Lemma ended_advanced r w cause x (s' : S) n :
  cause <> EvidenceStaged -> ended r cause None (set_reservation x w) s' -> advancing r w s' (Ok n).
Proof. intros Hn He. apply ag_done. eapply ad_ended; [reflexivity|by eapply ended_set|discriminate|congruence]. Qed.

End Phases.

(** The evidence [a] that a call of [advance_reference] on [r] accepts in [s]: the
    call had time left, found no hazard and every binding intact, and its
    readback phase accepted [a]. *)
Definition accepted_in (r : Reservation V) (s : S) (r' : Reservation V)
  (a : AcceptedReferenceEvidence * option PhysicalEvidence) : Prop :=
  let '(now, s) := backend_now (mark_owner_work s) in
  now < r_overall_deadline r /\ now < r_phase_deadline r
  /\ has_latched_fault s = false /\ hardware_estop s = false
  /\ still_bound to_value value_len r s = true
  /\ accepted_from r s r' a.

Lemma advance_live_ok (r : Reservation V) (s : S) :
  w_reservation (rwork s) = Some r -> reservation_ok r ->
  let '(x, s') := advance_live display display_bus display_f64 to_value value_len encode_policy r s in
  advancing (accepted_in r s) r (rwork s) s' x /\ drops (authority s) (authority s').
Proof.
  intros Hr [Hf Hd]. assert (Hl : live_in r (authority s) (rwork s) r s).
  { split; [reflexivity..|]. rewrite <- Hr. by destruct (rwork s). }
  unfold advance_live. destruct (backend_realm (installed s)) as [realm|].
  2:{ split; [|reflexivity]. eapply ag_error; [reflexivity|apply Hl]. }
  apply mark_owner_live in Hl. set (s1 := mark_owner_work s) in *.
  pose proof (eq_refl (accepted_in r s)) as HG. revert HG. unfold accepted_in at 2. fold s1.
  unfold backend_now. apply tick_live in Hl. destruct (tick s1) as [t s2]. cbn [snd] in Hl.
  set (now := elapsed _ t). generalize (accepted_in r s). intros G HG.
  generalize (rwork s), (authority s), Hl. clear Hl Hr. intros w a0 [Hc Ha Hw].
  assert (Hr : w_reservation (rwork s2) = Some r) by (by rewrite Hw).
  destruct ((r_overall_deadline r <=? now) || (r_phase_deadline r <=? now)) eqn:Et.
  { destruct (finish_with_spec TimedOut None None s2 r Hr) as (n & s' & -> & En & D); [discriminate|].
    rewrite Hw in En. split; [|by etransitivity]. eapply ended_advanced; [|exact En]; discriminate. }
  apply orb_false_iff in Et as [Et%Z.leb_gt Et'%Z.leb_gt].
  assert (Hfail : forall kind m, let '(x, s') := fail_reference to_value value_len encode_policy kind m s2 in
    advancing G r w s' x /\ drops a0 (authority s')).
  { intros kind m. destruct (fail_spec kind m s2 r Hr) as (n & s' & -> & En & D). rewrite Hw in En.
    split; [|by etransitivity]. eapply ended_advanced; [|exact En]; discriminate. }
  destruct (_ || _) eqn:Eh; [apply Hfail|]. apply orb_false_iff in Eh as [Eh Ee].
  destruct (still_bound _ _ _ _) eqn:Eb; cbn [negb]; [|apply Hfail].
  pose proof (run_phase_ok G r a0 w realm s2) as Hp. unfold phase_ok in Hp.
  destruct (run_phase _ _ _ _ _ _ r realm s2) as [f s3]. cbn [fst snd] in Hp.
  destruct (Hp ltac:(by split) Hf ltac:(intros r' a Ha'; rewrite HG; auto 10)) as [p r' Ho C1 F1 D1 W1|n r' C1 F1 D1 W1|n r' cause acc C1 D1 E1 G1 G2|e r' C1 D1 W1].
  - pose proof (enter_phase_ok G r r' w now p s3 Et C1 F1 Hd Ho W1) as He.
    destruct (enter_phase _ _ _ r now p s3) as [x s4]. destruct He as [He D2]. split; [exact He|by etransitivity].
  - split; [|exact D1]. apply ag_done. eapply ad_live; [exact W1| |by apply same_core_continues].
    destruct (co_phase _ _ C1) as [P1 P2]. split; [by rewrite P1|by rewrite P2, (co_overall _ _ C1)].
  - split; [|exact D1]. apply ag_done. by eapply ad_ended.
  - split; [by eapply ag_error|exact D1].
Qed.

End Evidence.
End Evidence.
