(* ===== verification/Owner.v ===== *)
(** * Owner: the reference owner over whole histories of calls

    [Evidence] follows one call; here the owner's record ([work_ok]) is carried
    through any sequence of requests, advances, cancellations and snapshots:
    one live acquisition at most, every receipt under its own handle, staged
    evidence only from a grounded readback, and never a new permission. *)

From Stdlib Require Import ZArith Lia Bool.
From stdpp Require Import base gmap strings list.
From S2P Require Import Prelude Float Comm Wire Config Validate Params Bus Receive Feedback Reporting Faults Davout Filter Admission Authority Physical Lifecycle Stop Session Send Consume Hazards Enable Activation Journal History Reference Acquire Frames Evidence.

Module Owner.
Import Params Bus Receive Feedback Faults Davout Filter Admission Lifecycle Stop Session Send Consume Hazards Enable Journal History Reference Acquire Frames Evidence.

Section Owner.
Context {B : Type} `{CanBus B} {V : Type} `{EqDecision V}.
Variable display : DavoutError -> string.
Variable display_bus : BusError -> string.
Variable display_reference : ReferenceError -> string.
Variable display_f64 : f64 -> string.
Variable to_value : list Config.MotorEntry -> Config.ControlSection -> Config.HomingSection -> result string V.
Variable value_len : V -> result string Z.
Variable encode_policy : Authority.TypedPolicy -> result string (list Z).
Abbreviation S := (Sup B (Work V)).
Abbreviation inspected := (@inspected B V).
Abbreviation begin_reference := (begin_reference to_value value_len encode_policy).
Abbreviation advance_reference :=
  (advance_reference display display_bus display_reference display_f64 to_value value_len encode_policy).
Abbreviation cancel_reference := (cancel_reference to_value value_len encode_policy).
Abbreviation reference_snapshot := (reference_snapshot to_value value_len encode_policy).
Abbreviation cancel_for_shutdown := (cancel_reference_for_shutdown to_value value_len encode_policy).

(** ** The owner's record *)

Abbreviation accepted_in := (accepted_in display to_value value_len).
Abbreviation advanced := (advanced display_reference).

Section Kept.
(** The states in which [advance_reference] was called. *)
Variable P : S -> Prop.

(** A call in one of these states accepted [a] for the acquisition live there, now [r]. *)
Definition vouched (r : Reservation V) (a : AcceptedReferenceEvidence * option PhysicalEvidence) : Prop :=
  exists s r0, P s /\ w_reservation (rwork s) = Some r0 /\ accepted_in r0 s r a.

(** The stage [g] of [o] is what such a call accepted for the acquisition of [o]. *)
Definition staged_from (o : RetainedOutcome V) (g : RetainedStage) : Prop :=
  t_cause (o_terminal o) = EvidenceStaged /\ o_joint o = rq_joint (o_request o)
  /\ exists r, r_handle r = o_handle o /\ r_request r = o_request o /\ vouched r (sg_evidence g, sg_physical g).

Definition issued (w : Work V) (h : ReferenceHandle) : Prop :=
  h_owner h = w_identity w /\ h_sequence h < w_next_sequence w.

Definition handles (w : Work V) : list ReferenceHandle := o_handle <$> w_heap w.

Record work_ok (w : Work V) : Prop := {
  wk_unique : NoDup (handles w);
  wk_retained : Forall (issued w) (handles w);
  wk_staged : Forall (fun o => forall g, o_stage o = Some g -> staged_from o g) (w_heap w);
  wk_live : forall r, w_reservation w = Some r ->
    reservation_ok r /\ issued w (r_handle r) /\ r_handle r ∉ handles w
}.

Lemma retire_fields (reason : ReferenceStageInvalidation) (o : RetainedOutcome V) :
  o_handle (retire reason o) = o_handle o /\ o_request (retire reason o) = o_request o
  /\ o_terminal (retire reason o) = o_terminal o.
Proof. unfold retire. destruct (o_stage o) as [g|]; [destruct (sg_invalidated g)|]; auto. Qed.

Lemma seen_keys (w w' : Work V) : Forall2 outcome_seen (w_heap w) (w_heap w') -> handles w' = handles w.
Proof.
  unfold handles. induction 1 as [|o o' l l' Ho _ IH]; cbn; [done|]. f_equal; [|exact IH].
  destruct Ho as [->|[reason ->]]; [done|apply retire_fields].
Qed.

Lemma retire_staged (o o' : RetainedOutcome V) :
  outcome_seen o o' -> (forall g, o_stage o = Some g -> staged_from o g) ->
  forall g, o_stage o' = Some g -> staged_from o' g.
Proof.
  intros [->|[reason ->]] Hs g; [auto|]. unfold retire.
  destruct (o_stage o) as [g0|] eqn:E; [|by rewrite E]. destruct (sg_invalidated g0); [rewrite E; auto|].
  intros [= <-]. exact (Hs g0 eq_refl).
Qed.

Lemma staged_seen (w w' : Work V) :
  Forall2 outcome_seen (w_heap w) (w_heap w') ->
  Forall (fun o => forall g, o_stage o = Some g -> staged_from o g) (w_heap w) ->
  Forall (fun o => forall g, o_stage o = Some g -> staged_from o g) (w_heap w').
Proof.
  induction 1 as [|o o' l l' Ho _ IH]; inversion 1 as [|? ? H1 H2]; subst; constructor; auto.
  by eapply retire_staged.
Qed.

(** Marking the record keeps it. *)
Lemma marked_ok (w w' : Work V) :
  Forall2 outcome_seen (w_heap w) (w_heap w') -> w_identity w' = w_identity w ->
  w_next_sequence w' = w_next_sequence w -> reservation_seen (w_reservation w) (w_reservation w') ->
  work_ok w -> work_ok w'.
Proof.
  intros Hh Ei En Hr [U R G L]. pose proof (seen_keys _ _ Hh) as Ek.
  split; rewrite ?Ek; [exact U| |by eapply staged_seen|].
  - unfold issued. by rewrite Ei, En.
  - unfold issued. rewrite Ei, En. intros r' E'. destruct Hr as [Er|Er]; rewrite Er in E'.
    + by apply L.
    + destruct (w_reservation w) as [r|]; [|discriminate]. injection E' as <-.
      destruct (L r eq_refl) as (O & I & N). split; [by apply mark_ok|auto].
Qed.

Lemma seen_ok (w w' : Work V) : seen w w' -> work_ok w -> work_ok w'.
Proof. intros []. by apply marked_ok. Qed.

Lemma inspected_ok (s s' : S) : inspected s s' -> work_ok (rwork s) -> work_ok (rwork s').
Proof. intros Hi. apply seen_ok, Hi. Qed.

(** A terminal takes the reservation's place. *)
Lemma retain_ok cause (r r' : Reservation V) stage report (w : Work V) :
  w_reservation w = Some r -> r_handle r' = r_handle r ->
  (forall g, stage = Some g -> cause = EvidenceStaged /\ vouched r' (sg_evidence g, sg_physical g)) ->
  work_ok w -> work_ok (retain cause r' stage report w).2.
Proof.
  intros Hr Eh Hg [U R G L]. destruct (L r Hr) as (_ & I & N). unfold retain. cbn [snd].
  assert (Ek : forall id n og res pc rf c arc l x,
    handles (mkWork id n og res (w_heap w ++ [x]) l pc rf c arc) = handles w ++ [o_handle x])
    by (intros; unfold handles; cbn; by rewrite fmap_app).
  split; rewrite ?Ek; cbn.
  - apply NoDup_app. split; [exact U|]. split; [|apply NoDup_singleton].
    intros h Hh1 Hh2%list_elem_of_singleton. subst h. cbn in Hh1. by rewrite Eh in Hh1.
  - apply Forall_app. split; [exact R|]. repeat constructor; cbn; rewrite Eh; apply I.
  - apply Forall_app. split; [exact G|]. constructor; [|constructor]. cbn. intros g ->.
    destruct (Hg g eq_refl) as [-> Hgr]. split; [done|]. split; [done|]. by exists r'.
  - discriminate.
Qed.

Lemma ended_ok (r r' : Reservation V) cause accepted (w : Work V) (s : S) :
  w_reservation w = Some r -> r_handle r' = r_handle r -> ended r' cause accepted w s ->
  (forall a, accepted = Some a -> cause = EvidenceStaged /\ vouched r' a) ->
  work_ok w -> work_ok (rwork s).
Proof.
  intros Hr Eh [_ (stop & stage & _ & Hst & Hs)] Ha Hok. eapply seen_ok; [exact Hs|].
  eapply retain_ok; [exact Hr|exact Eh| |exact Hok]. intros g ->.
  unfold stage_retained in Hst. destruct accepted as [[ev ph]|]; [|discriminate].
  destruct Hst as (g' & [= <-] & E1 & E2 & _). cbn in E1, E2. rewrite E1, E2. by apply Ha.
Qed.

Lemma reserve_ok (r : Reservation V) (w : Work V) :
  reservation_ok r -> issued w (r_handle r) -> r_handle r ∉ handles w -> work_ok w ->
  work_ok (set_reservation (Some r) w).
Proof. intros Ho Hi Hn [U R G L]. split; auto. by intros ? [= <-]. Qed.

Lemma advanced_ok (r : Reservation V) (s s' : S) x :
  P s -> w_reservation (rwork s) = Some r -> work_ok (rwork s) ->
  advanced (accepted_in r s) r (rwork s) s' x -> work_ok (rwork s').
Proof.
  intros HP Hr Hok Ha. destruct (wk_live _ Hok r Hr) as (_ & Hi & Hn).
  destruct Ha as [n r' Hs Ho Hc|n r' cause accepted Hc He Hg _|e r' Hc He].
  - eapply seen_ok; [exact Hs|]. apply reserve_ok; auto; destruct (ct_request _ _ Hc) as (_ & -> & _); auto.
  - eapply ended_ok; [exact Hr|apply Hc|exact He| |exact Hok].
    intros a Ea. destruct (Hg a Ea) as [E Hga]. split; [exact E|]. by exists s, r.
  - eapply ended_ok; [exact Hr|apply Hc|exact He|discriminate|exact Hok].
Qed.

(** ** Each call *)

Lemma find_outcome_handle (h : ReferenceHandle) (w : Work V) (p : nat) :
  find_outcome h w = Some p -> h ∈ handles w.
Proof.
  unfold find_outcome. intros Hf. apply find_first_some in Hf as [_ Hp%bool_decide_eq_true].
  destruct (w_heap w !! p) as [o|] eqn:E; [|discriminate]. injection Hp as <-.
  apply list_elem_of_fmap. exists o. split; [done|]. by eapply list_elem_of_lookup_2.
Qed.

Lemma live_not_retained (r : Reservation V) (s : S) :
  work_ok (rwork s) -> w_reservation (rwork s) = Some r -> retained_reference (r_handle r) s = Ok None.
Proof.
  intros Hok Hr. destruct (wk_live _ Hok r Hr) as (_ & [Ei _] & Hn). unfold retained_reference.
  rewrite Ei, Z.eqb_refl. cbn [negb]. destruct (find_outcome _ _) as [p|] eqn:E; [|done].
  by destruct (Hn (find_outcome_handle _ _ _ E)).
Qed.

Lemma live_found (r : Reservation V) (s : S) :
  w_reservation (rwork s) = Some r -> live_reference (r_handle r) s = Ok r.
Proof. intros Hr. unfold live_reference. rewrite Hr. by rewrite bool_decide_eq_true_2. Qed.

Lemma advance_live_call (r : Reservation V) (s : S) :
  work_ok (rwork s) -> w_reservation (rwork s) = Some r ->
  let '(x, s') := advance_reference (r_handle r) s in
  advanced (accepted_in r s) r (rwork s) s' x /\ drops (authority s) (authority s').
Proof.
  intros Hok Hr. destruct (wk_live _ Hok r Hr) as (Ho & _). unfold advance_reference, advance_reference_phase.
  rewrite (live_not_retained r s Hok Hr), (live_found r s Hr).
  pose proof (advance_live_ok display display_bus display_reference display_f64 to_value value_len encode_policy r s Hr Ho) as Ha.
  destruct (advance_live _ _ _ _ _ _ r s) as [x s1]. destruct Ha as [Ha D].
  destruct Ha as [n Ha|e r' Hc Hw]; [auto|]. rewrite Hw. cbn [w_reservation set_reservation].
  rewrite bool_decide_eq_true_2 by apply Hc.
  destruct (finish_reference_spec to_value value_len encode_policy (failure KBackend (display_reference e)) None None s1 r')
    as (t & s' & -> & En & D' & _); [by rewrite Hw|discriminate|]. rewrite Hw in En. cbn [snd].
  split; [|by etransitivity]. eapply ad_error; [exact Hc|by eapply ended_set].
Qed.

(** A handle that is not live only reads. *)
Lemma advance_other (h : ReferenceHandle) (s : S) :
  (forall r, w_reservation (rwork s) = Some r -> r_handle r <> h) ->
  let '(x, s') := advance_reference h s in inspected s s' /\ x <> Panic.
Proof.
  intros Hn. unfold advance_reference, advance_reference_phase.
  assert (Hdead : live_reference h s = Err ROutcomeExpired).
  { unfold live_reference. destruct (w_reservation (rwork s)) as [r|]; [|done].
    rewrite bool_decide_eq_false_2; [done|]. by apply Hn. }
  assert (Hl : match w_reservation (rwork s) with Some r => bool_decide (r_handle r = h) | None => false end = false).
  { destruct (w_reservation (rwork s)) as [r|]; [|done]. apply bool_decide_eq_false_2. by apply Hn. }
  unfold retained_reference. destruct (negb _); [rewrite Hl; split; [reflexivity|done]|].
  destruct (_ ≫= _) as [t|].
  - pose proof (terminal_snapshot_inspected to_value value_len encode_policy t s) as Hi.
    destruct (snapshot_for_terminal _ _ _ t s) as [n s']. split; [exact Hi|done].
  - rewrite Hdead, Hl. split; [reflexivity|done].
Qed.

Lemma preflight_inspected j sign (s : S) :
  let '(x, s') := reference_request_preflight to_value value_len encode_policy j sign s in
  inspected s s' /\ (forall u, x = Ok u -> has_latched_fault s' = false /\ hardware_estop s' = false).
Proof.
  unfold reference_request_preflight. pose proof (valid_inspected to_value value_len encode_policy s) as Hi.
  destruct (reference_binding_valid _ _ _ s) as [v s1]. cbn [snd] in Hi. split; [exact Hi|].
  intros u Hx. destruct (require_fault_clear (adm s1)) as [[]| |] eqn:Ef; [|discriminate..].
  cbn [rbind] in Hx. destruct (hardware_estop s1); [discriminate|]. split; [|done].
  by apply latched_clear.
Qed.

(** A reservation the request [q] was given in [s], leaving [s']. *)
Record reserves (q : ReferenceRequest V) (s s' : S) (r : Reservation V) : Prop := {
  rs_live : w_reservation (rwork s') = Some r /\ w_reservation (rwork s) = None;
  rs_request : r_request r = q /\ rq_confirmed q = true;
  rs_fresh : r_handle r ∉ handles (rwork s);
  rs_start : r_phase r = BaselineStop /\ r_armed r = false /\ r_uid r = None
    /\ r_device_epoch r = None /\ r_ack r = None;
  rs_quiet : mode (adm s') = Disabled /\ sv_control_mode (adm s') = CDisabled
    /\ enable_writes_pending (session s') = [];
  rs_clear : has_latched_fault s' = false /\ hardware_estop s' = false;
  rs_permission : Authority.authority_ok (authority s) -> Authority.contains (rq_joint q) (authority s') = false
}.

(** How a request may be answered. *)
Inductive answered (q : ReferenceRequest V) (s s' : S) : result ReferenceError ReferenceHandle -> Prop :=
| an_refused x : (forall h, x <> Ok h) -> inspected s s' -> answered q s s' x
| an_again h old : s' = s -> same_request old q = true ->
    (exists o, o ∈ w_heap (rwork s) /\ o_handle o = h /\ o_request o = old)
    \/ (exists r, w_reservation (rwork s) = Some r /\ r_handle r = h /\ r_request r = old) ->
    answered q s s' (Ok h)
| an_reserved r : reserves q s s' r -> answered q s s' (Ok (r_handle r)).

Lemma invalidated_joint (j : string) n a a' :
  Authority.invalidate_joint_for_acquisition j a = (Some n, a') -> Authority.authority_ok a ->
  Authority.contains j a' = false.
Proof.
  intros E Hok. destruct (Authority.accumulates a) eqn:Ea.
  - by eapply (Authority.revocation_is_local a j Hok Ea).
  - revert E. unfold Authority.invalidate_joint_for_acquisition.
    destruct (checked_add_u64 _ _); [|discriminate]. intros [= <- <-].
    unfold Authority.contains. cbn. by rewrite Ea, orb_true_r.
Qed.

Lemma retained_seen (reason : ReferenceStageInvalidation) (w : Work V) :
  seen w (invalidate_retained_stages reason w).
Proof. apply (fold_retire_seen reason (fun p : nat => p)). Qed.

Lemma superseded_ok (w : Work V) (n : Z) :
  w_next_sequence w <= n -> work_ok w ->
  work_ok (with_next_sequence n (invalidate_retained_stages Superseded w)).
Proof.
  intros Hn Hok. pose proof (retained_seen Superseded w) as Hs. pose proof (seen_ok _ _ Hs Hok) as [U R G L].
  split; auto.
  - eapply Forall_impl; [exact R|]. intros h [E1 E2]. split; [exact E1|]. cbn.
    rewrite (sn_sequence _ _ Hs) in E2. lia.
  - intros r E. destruct (L r E) as (O & [I1 I2] & N). split; [exact O|]. split; [|exact N].
    split; [exact I1|]. cbn. rewrite (sn_sequence _ _ Hs) in I2. lia.
Qed.

Lemma first_deadline now timeout overall first :
  reservation_deadlines now timeout = Ok (overall, first) -> 0 <= timeout -> first <= overall.
Proof.
  unfold reservation_deadlines, duration_checked_add, ok_or. intros Hd Ht.
  destruct (_ <=? _); [|discriminate]. cbn [rbind] in Hd.
  destruct (phase_deadline now (now + timeout) BaselineStop) as [d|e|] eqn:Ep; [|discriminate..].
  cbn in Hd. injection Hd as <- <-. revert Ep. unfold phase_deadline, duration_checked_add, ok_or.
  rewrite bool_decide_eq_false_2 by done. destruct (_ <=? _); [|discriminate]. intros [= <-]. lia.
Qed.

Lemma timeout_nonneg x t : try_from_secs_f64 x = Some t -> 0 <= t.
Proof.
  assert (Hd : forall n d, 0 <= n -> 0 < d -> 0 <= div_half_even n d).
  { intros n d Hn Hp. unfold div_half_even. pose proof (Z.div_pos n d Hn Hp).
    repeat match goal with |- context [if ?b then _ else _] => destruct b end; lia. }
  destruct x as [b|b| |[] m e]; cbn; try discriminate; [by intros [= <-]|].
  destruct (_ <=? U64_MAX); [|discriminate]. intros [= <-]. destruct (Z.leb_spec 0 e).
  - apply Z.mul_nonneg_nonneg; [lia|]. by apply Z.pow_nonneg.
  - apply Hd; [lia|]. apply Z.pow_pos_nonneg; lia.
Qed.

Lemma homing_timeout_nonneg j (s : S) t : homing_timeout j s = Ok t -> 0 <= t.
Proof.
  unfold homing_timeout. intros Ht. bind_inv Ht. bind_inv Ht. bind_inv Ht. bind_inv Ht. injection Ht as <-.
  revert E1. unfold ok_or. destruct (try_from_secs_f64 _) eqn:Et; [|discriminate]. intros [= <-].
  by eapply timeout_nonneg.
Qed.

Lemma reserve_spec q policy next address overall first (s : S) :
  w_reservation (rwork s) = None -> work_ok (rwork s) -> first <= overall ->
  rs_sequence (rq_stamp q) = w_next_sequence (rwork s) -> next = w_next_sequence (rwork s) + 1 ->
  rq_confirmed q = true -> has_latched_fault s = false -> hardware_estop s = false ->
  let '(x, s') := reserve q policy next address overall first s in
  work_ok (rwork s') /\ drops (authority s) (authority s')
  /\ ((exists r, x = Ok (r_handle r) /\ reserves q s s' r) \/ (x = Err RCounterExhausted /\ s' = s)).
Proof.
  intros Hr Hok Hd Es En Hq Hf He. unfold reserve.
  destruct (Authority.invalidate_joint_for_acquisition _ _) as [gen a] eqn:Ea.
  destruct gen as [gen|]; [|split; [exact Hok|split; [reflexivity|by right]]].
  destruct (mark_owner_work_frame (set_authority a s)) as (p & k & ->).
  match goal with |- context [mkReservation q ?h _ _ _ _ _ _ _ _ _ _ _ _ _ _ _ _ _ _] => set (handle := h) end.
  set (w := with_next_sequence next (invalidate_retained_stages Superseded (rwork s))).
  pose proof (retained_seen Superseded (rwork s)) as Hs.
  assert (Hfresh : handle ∉ handles (rwork s)).
  { intros Hin. pose proof (wk_retained _ Hok) as R. rewrite Forall_forall in R.
    destruct (R _ Hin) as [_ Hlt]. cbn in Hlt. lia. }
  assert (Hw : work_ok w) by (apply superseded_ok; [lia|exact Hok]).
  match goal with |- context [set_reservation (Some ?x) _] => set (r := x) end.
  split; [|split].
  - apply reserve_ok; [| | |exact Hw].
    + split; [split|exact Hd]; cbn; try done; (split; [intros [? ?]|]); done.
    + split; cbn; [by rewrite (sn_identity _ _ Hs)|lia].
    + intros Hin. apply Hfresh. rewrite <- (seen_keys _ _ (sn_heap _ _ Hs)). exact Hin.
  - cbn. pose proof (drops_one (Authority.OInvalidateJoint (rq_joint q)) (authority s)) as Ho.
    cbn in Ho. rewrite Ea in Ho. apply Ho. by intros j [].
  - left. exists r. split; [reflexivity|].
    split; cbn; [by split|by split|exact Hfresh|by repeat split|by repeat split|by split|].
    intros Hau. by eapply invalidated_joint.
Qed.

Lemma inspected_free (s s' : S) :
  inspected s s' -> w_reservation (rwork s) = None -> w_reservation (rwork s') = None.
Proof. intros Hi E. destruct (sn_reservation _ _ (is_work _ _ Hi)) as [->| ->]; by rewrite E. Qed.

Lemma reserves_inspected q (s s1 s' : S) r :
  inspected s s1 -> w_reservation (rwork s) = None -> reserves q s1 s' r -> reserves q s s' r.
Proof.
  intros Hi Hn [[? ?] ? Hf ? ? ? Hp]. split; auto.
  - by rewrite <- (seen_keys _ _ (sn_heap _ _ (is_work _ _ Hi))).
  - intros Hau. apply Hp. by apply (drops_ok _ _ (is_authority _ _ Hi)).
Qed.

Definition begin_ok (q : ReferenceRequest V) (s : S) (out : result ReferenceError ReferenceHandle * S) : Prop :=
  answered q s out.2 out.1 /\ work_ok (rwork out.2) /\ drops (authority s) (authority out.2).

Lemma refused_ok q (s s' : S) x :
  work_ok (rwork s) -> inspected s s' -> (forall h, x <> Ok h) -> begin_ok q s (x, s').
Proof.
  intros Hok Hi Hx. split; [by apply an_refused|]. split; [by eapply inspected_ok|apply Hi].
Qed.

Lemma checked_add_eq n m : checked_add_u64 n 1 = Some m -> m = n + 1.
Proof. unfold checked_add_u64. destruct (_ <=? _); congruence. Qed.

Lemma reserve_after q policy next address overall first (s s1 : S) :
  inspected s s1 -> w_reservation (rwork s) = None -> work_ok (rwork s) -> first <= overall ->
  rs_sequence (rq_stamp q) = w_next_sequence (rwork s) -> next = w_next_sequence (rwork s) + 1 ->
  rq_confirmed q = true -> has_latched_fault s1 = false -> hardware_estop s1 = false ->
  begin_ok q s (reserve q policy next address overall first s1).
Proof.
  intros Hi Hn Hok Hd Es En Hq Hf He. pose proof (inspected_ok _ _ Hi Hok) as Hok1.
  pose proof (sn_sequence _ _ (is_work _ _ Hi)) as Esq.
  pose proof (reserve_spec q policy next address overall first s1 (inspected_free _ _ Hi Hn) Hok1 Hd
    ltac:(congruence) ltac:(congruence) Hq Hf He) as Hs.
  destruct (reserve _ _ _ _ _ _ s1) as [x s']. destruct Hs as (W & D & [(r & -> & Hr)|[-> ->]]).
  - split; [|split; [exact W|etransitivity; [apply Hi|exact D]]].
    apply an_reserved. by eapply reserves_inspected.
  - by apply refused_ok.
Qed.

Lemma begin_fresh_ok (q : ReferenceRequest V) (s : S) :
  w_reservation (rwork s) = None -> work_ok (rwork s) ->
  begin_ok q s (begin_fresh to_value value_len encode_policy q s).
Proof.
  intros Hn Hok. unfold begin_fresh. pose proof (observe_inspected to_value value_len encode_policy s) as I1.
  set (s1 := observe_reference_commits _ _ _ s) in *.
  destruct (_ || _); [by apply refused_ok|]. destruct (_ <? _); [by apply refused_ok|].
  pose proof (valid_inspected to_value value_len encode_policy s1) as I2.
  destruct (reference_binding_valid _ _ _ s1) as [v s2]. cbn [snd] in I2.
  assert (I : inspected s s2) by (by etransitivity). clear I1 I2.
  match goal with |- context [match ?x with Ok _ => _ | Err _ => _ | Panic => _ end] => destruct x as [[next policy]| |] eqn:Ec end;
    [|by apply refused_ok..].
  bind_inv Ec. bind_inv Ec. bind_inv Ec. bind_inv Ec. injection Ec as -> ->. bsimp.
  assert (Hseq : rs_sequence (rq_stamp q) = w_next_sequence (rwork s)).
  { rewrite <- (sn_sequence _ _ (is_work _ _ I)). unfold stamp_current in *. bsimp. assumption. }
  assert (Hnext : next = w_next_sequence (rwork s) + 1).
  { rewrite <- (sn_sequence _ _ (is_work _ _ I)). apply checked_add_eq.
    revert E. unfold ok_or. destruct (checked_add_u64 _ _); congruence. }
  pose proof (preflight_inspected (rq_joint q) (Some (rq_sign_verified q)) s2) as Hp.
  destruct (reference_request_preflight _ _ _ _ _ s2) as [x s3]. destruct Hp as [I3 Hclear].
  assert (I' : inspected s s3) by (by etransitivity). clear I I3.
  destruct x as [u| |]; [|by apply refused_ok..]. destruct (Hclear u eq_refl) as [Hlat Hest].
  case_bool_decide; [by apply refused_ok|].
  destruct (homing_timeout _ s3) as [timeout| |] eqn:Et; [|by apply refused_ok..].
  unfold backend_now, tick. destruct (now (hostclock s3)) as [t k]. set (s4 := set_clock k s3).
  assert (I4 : inspected s s4) by (etransitivity; [exact I'|apply inspected_clock]).
  match goal with |- context [match ?x with Ok _ => _ | Err _ => _ | Panic => _ end] => destruct x as [[[overall first] address]| |] eqn:Ed end;
    [|by apply refused_ok..].
  bind_inv Ed. bind_inv Ed. bind_inv Ed. injection Ed as -> _.
  apply reserve_after; auto. eapply first_deadline; [eassumption|]. by eapply homing_timeout_nonneg.
Qed.

Lemma begin_reference_ok (q : ReferenceRequest V) (s : S) :
  work_ok (rwork s) -> begin_ok q s (begin_reference q s).
Proof.
  intros Hok. unfold begin_reference. assert (I : inspected s s) by reflexivity.
  destruct (negb _); [by apply refused_ok|]. destruct (negb _); [by apply refused_ok|].
  destruct (find_first _ _) as [o|] eqn:Eo.
  { destruct (same_request (o_request o) q) eqn:Es; [|by apply refused_ok].
    split; [|split; [exact Hok|reflexivity]]. eapply an_again; [done|exact Es|]. left. exists o.
    split; [|done]. apply find_first_some in Eo as [Hin _].
    apply list_elem_of_In, list_elem_of_omap in Hin as (p & _ & Hp). by eapply list_elem_of_lookup_2. }
  destruct (w_reservation (rwork s)) as [r|] eqn:Er; [|by apply begin_fresh_ok].
  destruct (_ =? _); [|by apply refused_ok].
  destruct (same_request (r_request r) q) eqn:Es; [|by apply refused_ok].
  split; [|split; [exact Hok|reflexivity]]. eapply an_again; [done|exact Es|]. right. by exists r.
Qed.

Lemma finish_ok cause (s : S) (r : Reservation V) :
  w_reservation (rwork s) = Some r -> work_ok (rwork s) ->
  let '(x, s') := finish_reference to_value value_len encode_policy cause None None s in
  ended r cause None (rwork s) s' /\ (exists t, x = Ok t /\ t_cause t = cause /\ t_handle t = r_handle r)
  /\ work_ok (rwork s') /\ drops (authority s) (authority s').
Proof.
  intros Hr Hok. destruct (finish_reference_spec to_value value_len encode_policy cause None None s r Hr)
    as (t & s' & -> & En & D & E1 & E2); [discriminate|].
  split; [exact En|]. split; [eauto|]. split; [|exact D].
  eapply ended_ok; [exact Hr|reflexivity|exact En|discriminate|exact Hok].
Qed.

Lemma end_commits_ok reason p (w : Work V) : work_ok w -> work_ok (end_commits reason p w).
Proof.
  intros Hok. pose proof (fold_retire_seen reason e_stage (entries (w_commits w)) w) as Hs.
  pose proof (seen_ok _ _ Hs Hok) as [U R G L]. by split.
Qed.

(** A stop marks the record at most. *)
Lemma stop_ok (sync : bool) (s : S) :
  let s' := (perform_stop (observed to_value value_len encode_policy) sync s).2 in
  work_ok (rwork s) -> work_ok (rwork s') /\ drops (authority s) (authority s').
Proof.
  unfold perform_stop. pose proof (stop_work (observed to_value value_len encode_policy) sync None s) as Hs.
  destruct (perform_stop_paced _ sync None s) as [[report p] s']. destruct Hs as [D Hw]. cbn. intros Hok.
  split; [|exact D]. destruct Hw as [->|(s3 & E & ->)]; [exact Hok|].
  eapply (inspected_ok s3); [apply observe_inspected|by rewrite E].
Qed.

(** The supervisor's own way of ending an acquisition. *)
Lemma finish_cancelled_ok (cause : FinishCause) (s : S) :
  let s' := (finish_cancelled (observed to_value value_len encode_policy) cause s).2 in
  work_ok (rwork s) -> work_ok (rwork s') /\ drops (authority s) (authority s').
Proof.
  intros s' Hok. subst s'. unfold finish_cancelled.
  pose proof (stop_ok false s Hok) as [W D]. destruct (perform_stop _ false s) as [report s1]. cbn [snd] in W, D.
  unfold tick. destruct (now (hostclock s1)) as [t k]. cbn. split; [|exact D].
  unfold finish_without_evidence. destruct (w_reservation (rwork s1)) as [r|] eqn:E; [|exact W].
  eapply retain_ok; [exact E|reflexivity|discriminate|exact W].
Qed.

(** ** Histories *)

(** The calls that touch reference work, short of a commit. *)
Inductive call : Type :=
| CBegin (q : ReferenceRequest V)
| CAdvance (h : ReferenceHandle)
| CCancel (h : ReferenceHandle) (reason : ReferenceCancelReason)
| CSnapshot
| CDisable
| CHazard (message : string)
| CShutdown.

Definition call_step (c : call) (s : S) : S :=
  let seen := observed to_value value_len encode_policy in
  match c with
  | CBegin q => (begin_reference q s).2
  | CAdvance h => (advance_reference h s).2
  | CCancel h reason => (cancel_reference h reason s).2
  | CSnapshot => (reference_snapshot s).2
  | CDisable => (disable_all seen s).2
  | CHazard m => abort_reference_for_hazard seen m s
  | CShutdown => (cancel_for_shutdown s).2
  end.

Lemma cancel_ok (h : ReferenceHandle) reason (s : S) :
  work_ok (rwork s) ->
  let s' := (cancel_reference h reason s).2 in work_ok (rwork s') /\ drops (authority s) (authority s').
Proof.
  intros Hok. unfold cancel_reference. assert (Hid : work_ok (rwork s) /\ drops (authority s) (authority s)) by (split; [exact Hok|reflexivity]).
  destruct (retained_reference h s) as [[t|]| |]; [exact Hid| |exact Hid..].
  unfold live_reference. destruct (w_reservation (rwork s)) as [r|] eqn:Hr; [|exact Hid].
  case_bool_decide; [|exact Hid]. pose proof (finish_ok (CCancelled reason) s r Hr Hok) as Hf.
  destruct (finish_reference _ _ _ _ _ _ s) as [x s']. tauto.
Qed.

Lemma shutdown_ok (s : S) :
  work_ok (rwork s) ->
  let s' := (cancel_for_shutdown s).2 in work_ok (rwork s') /\ drops (authority s) (authority s').
Proof.
  intros Hok. unfold cancel_reference_for_shutdown.
  set (s1 := if is_empty _ then s else revoke_all s).
  assert (H1 : rwork s1 = rwork s /\ drops (authority s) (authority s1))
    by (unfold s1; destruct (is_empty _); split; try reflexivity; apply drops_revoke).
  set (w := invalidate_retained_stages Shutdown _).
  assert (Hw : work_ok w).
  { eapply seen_ok; [apply retained_seen|]. destruct H1 as [-> _]. destruct Hok. by split. }
  set (s2 := if bool_decide _ then revoke_all (set_rwork w s1) else set_rwork w s1).
  assert (H2 : rwork s2 = w /\ drops (authority s) (authority s2)).
  { unfold s2. destruct H1 as [_ D1]. case_bool_decide; split; try reflexivity; [|exact D1].
    etransitivity; [exact D1|apply drops_revoke]. }
  destruct H2 as [-> D2]. set (s3 := set_rwork _ s2).
  assert (H3 : work_ok (rwork s3)) by (by apply end_commits_ok).
  destruct (reserved (rwork s3)) eqn:Er; cbn [negb]; [|split; [exact H3|exact D2]].
  apply bool_decide_eq_true in Er as [r Er]. pose proof (finish_ok (CCancelled CancelShutdown) s3 r Er H3) as Hf.
  destruct (finish_reference _ _ _ _ _ _ s3) as [x s']. destruct Hf as (_ & _ & W & D).
  split; [exact W|by etransitivity].
Qed.

Lemma disable_ok (s : S) :
  work_ok (rwork s) ->
  let s' := (disable_all (observed to_value value_len encode_policy) s).2 in
  work_ok (rwork s') /\ drops (authority s) (authority s').
Proof.
  intros Hok. unfold disable_all. set (s1 := set_rwork (cancel_commits (rwork s)) s).
  assert (H1 : work_ok (rwork s1)) by (by apply end_commits_ok).
  destruct (acquisition_busy _).
  - pose proof (finish_cancelled_ok FinishDisable s1 H1) as Hf. by destruct (finish_cancelled _ _ s1).
  - pose proof (stop_ok true s1 H1) as Hf. by destruct (perform_stop _ true s1).
Qed.

Lemma hazard_ok m (s : S) :
  work_ok (rwork s) ->
  let s' := abort_reference_for_hazard (observed to_value value_len encode_policy) m s in
  work_ok (rwork s') /\ drops (authority s) (authority s').
Proof.
  intros Hok. unfold abort_reference_for_hazard. set (s1 := set_rwork (invalidate_commits (rwork s)) s).
  assert (H1 : work_ok (rwork s1)) by (by apply end_commits_ok).
  destruct (acquisition_busy _); [exact (finish_cancelled_ok _ s1 H1)|exact (stop_ok false s1 H1)].
Qed.

Lemma advance_call_ok (h : ReferenceHandle) (s : S) :
  P s -> work_ok (rwork s) ->
  let s' := (advance_reference h s).2 in work_ok (rwork s') /\ drops (authority s) (authority s').
Proof.
  intros HP Hok. destruct (decide (r_handle <$> w_reservation (rwork s) = Some h)) as [(r & Hr & ->)%fmap_Some|Hn].
  - pose proof (advance_live_call r s Hok Hr) as Ha. destruct (advance_reference _ s) as [x s']. destruct Ha as [Ha D].
    split; [by eapply advanced_ok|exact D].
  - pose proof (advance_other h s) as Ha. destruct (advance_reference h s) as [x s'].
    destruct Ha as [Ha _]; [intros r Hr <-; by rewrite Hr in Hn|]. split; [by eapply inspected_ok|apply Ha].
Qed.

Lemma call_ok (c : call) (s : S) :
  P s -> work_ok (rwork s) -> work_ok (rwork (call_step c s)) /\ drops (authority s) (authority (call_step c s)).
Proof.
  intros HP Hok. destruct c as [q|h|h reason| | |m|]; cbn [call_step].
  - destruct (begin_reference_ok q s Hok) as (_ & W & D). auto.
  - by apply advance_call_ok.
  - by apply cancel_ok.
  - pose proof (snapshot_inspected to_value value_len encode_policy s) as Hi.
    split; [by eapply inspected_ok|apply Hi].
  - by apply disable_ok.
  - by apply hazard_ok.
  - by apply shutdown_ok.
Qed.

Definition history (cs : list call) (s : S) : S := fold_left (fun s c => call_step c s) cs s.

(** The states in which the calls of [cs] are made. *)
Definition visited (cs : list call) (s x : S) : Prop := exists cs1 c cs2, cs = cs1 ++ c :: cs2 /\ x = history cs1 s.

Lemma history_ok (cs : list call) : forall s : S,
  (forall x, visited cs s x -> P x) ->
  work_ok (rwork s) -> work_ok (rwork (history cs s)) /\ drops (authority s) (authority (history cs s)).
Proof.
  induction cs as [|c cs IH]; intros s HP Hok; [split; [exact Hok|reflexivity]|].
  destruct (call_ok c s) as [W1 D1]; [apply HP; by exists [], c, cs|exact Hok|].
  destruct (IH (call_step c s)) as [W2 D2]; [|exact W1|split; [exact W2|by etransitivity]].
  intros x (cs1 & c' & cs2 & -> & ->). apply HP. by exists (c :: cs1), c', cs2.
Qed.

(** C13: advancing an acquisition never leaves it between states.  The call does
    not panic; afterwards the acquisition is either live (same request, handle,
    target and overall deadline, its phase the same or the next) or over: every
    drive was stopped, nothing is running, and its terminal is the latest
    retained outcome.  An error always ends it.  Evidence is retained exactly
    when the cause is [EvidenceStaged], and then it is the readback this call
    drained, within the tolerance configured in that state; no permission is
    gained. *)
Theorem advance_contract (r : Reservation V) (s : S) :
  work_ok (rwork s) -> w_reservation (rwork s) = Some r ->
  let '(x, s') := advance_reference (r_handle r) s in
  advanced (accepted_in r s) r (rwork s) s' x /\ x <> Panic
  /\ (w_reservation (rwork s') = None -> halted s')
  /\ forall j, Authority.contains j (authority s') = true -> Authority.contains j (authority s) = true.
Proof.
  intros Hok Hr. pose proof (advance_live_call r s Hok Hr) as Ha.
  destruct (advance_reference (r_handle r) s) as [x s']. destruct Ha as [Ha D]. split; [exact Ha|].
  split; [by destruct Ha|]. split; [|intros j; by apply drops_contains].
  intros Hn. destruct Ha as [n r' Hs _ _|n r' cause acc _ He _ _|e r' _ He]; [|by destruct He..].
  by destruct (sn_reservation _ _ Hs) as [E|E]; rewrite E in Hn.
Qed.

Lemma advance_timed_out (r : Reservation V) (s : S) :
  work_ok (rwork s) -> w_reservation (rwork s) = Some r -> backend_realm (installed s) <> None ->
  r_phase_deadline r <= (backend_now (mark_owner_work s)).1 ->
  let '(x, s') := advance_reference (r_handle r) s in
  (exists n, x = Ok n) /\ ended r TimedOut None (rwork s) s'.
Proof.
  intros Hok Hr Hb Ht. unfold advance_reference, advance_reference_phase.
  rewrite (live_not_retained r s Hok Hr), (live_found r s Hr). unfold advance_live.
  destruct (backend_realm (installed s)) as [realm|]; [|done].
  destruct (mark_owner_work_frame s) as (p & k & Em). rewrite Em in *. unfold backend_now, tick in *.
  cbn [hostclock set_physical set_clock] in *. destruct (now k) as [t k']. cbn [fst] in Ht.
  rewrite (proj2 (Z.leb_le _ _) Ht), orb_true_r.
  match goal with |- context [finish_with _ _ _ TimedOut None None ?x] =>
    destruct (finish_with_spec to_value value_len encode_policy TimedOut None None x r Hr) as (n & s' & -> & En & _);
    [discriminate|] end.
  split; [eauto|exact En].
Qed.

(** no acquisition outlives its deadlines.  Every phase's deadline lies within
    the overall one, fixed when the request was accepted; the first call that
    reads the clock at or past either ends the acquisition as [TimedOut],
    whatever the bus does, with every drive stopped. *)
Theorem acquisition_times_out (r : Reservation V) (s : S) :
  work_ok (rwork s) -> w_reservation (rwork s) = Some r -> backend_realm (installed s) <> None ->
  r_phase_deadline r <= r_overall_deadline r
  /\ (r_phase_deadline r <= (backend_now (mark_owner_work s)).1 ->
      let '(x, s') := advance_reference (r_handle r) s in
      (exists n, x = Ok n) /\ ended r TimedOut None (rwork s) s' /\ halted s'
      /\ w_reservation (rwork s') = None).
Proof.
  intros Hok Hr Hb. split; [by apply (wk_live _ Hok r Hr)|]. intros Ht.
  pose proof (advance_timed_out r s Hok Hr Hb Ht) as Ha. destruct (advance_reference _ s) as [x s'].
  destruct Ha as [Hx He]. split; [exact Hx|]. split; [exact He|]. split; [apply He|by eapply ended_free].
Qed.

(** a request reserves or changes nothing.  A refused request only inspects;
    a repeated one gives the handle of the identical earlier request; a new one
    reserves under a fresh handle, only when confirmed, with no fault latched
    and no emergency stop, with the target's permission gone, the supervisor
    disabled and no enable in flight.  In no case does a joint gain permission. *)
Theorem request_contract (q : ReferenceRequest V) (s : S) :
  work_ok (rwork s) ->
  let '(x, s') := begin_reference q s in
  answered q s s' x /\ work_ok (rwork s')
  /\ forall j, Authority.contains j (authority s') = true -> Authority.contains j (authority s) = true.
Proof.
  intros Hok. destruct (begin_reference_ok q s Hok) as (Ha & W & D).
  destruct (begin_reference q s) as [x s']. split; [exact Ha|]. split; [exact W|].
  intros j. by apply drops_contains.
Qed.

End Kept.

Lemma work_ok_mono (P Q : S -> Prop) (w : Work V) : (forall s, P s -> Q s) -> work_ok P w -> work_ok Q w.
Proof.
  intros HPQ [U R G L]. split; auto. eapply Forall_impl; [exact G|]. intros o Ho g Hg.
  destruct (Ho g Hg) as (E & Ej & r & E1 & E2 & s & r0 & HP & Ha). split; [exact E|]. split; [exact Ej|]. exists r.
  split; [exact E1|]. split; [exact E2|]. exists s, r0. auto.
Qed.

(** C14: reference work never grants by itself and its receipts can be trusted.
    Over any sequence of requests, advances, cancellations, snapshots, stops and
    hazards, no joint gains permission; every terminal is retained under a
    handle of its own that this owner issued; every outcome staged since [s] was
    accepted by a call made in one of the states of the sequence, on the
    acquisition live there, with time left, no hazard and every binding intact,
    from the drain of that very state: an identified, zeroed and acknowledged
    target whose position, read back after the request, lay within the
    configured tolerance of zero and was continuous with those before it; and
    the fields of a live reservation are those of its phase, within its overall
    deadline. *)
Theorem acquisition_history (P : S -> Prop) (cs : list call) (s : S) :
  work_ok P (rwork s) ->
  let s' := history cs s in
  work_ok (fun x => P x \/ visited cs s x) (rwork s')
  /\ forall j, Authority.contains j (authority s') = true -> Authority.contains j (authority s) = true.
Proof.
  intros Hok. destruct (history_ok (fun x => P x \/ visited cs s x) cs s) as [W D]; [auto| |].
  - eapply work_ok_mono; [|exact Hok]. auto.
  - split; [exact W|]. intros j. by apply drops_contains.
Qed.

End Owner.

(** ** A bench joint acquired on the in-memory bus *)

Abbreviation BenchSup := (Sup (Reporting.Spy MemoryBus) (Work unit)).

Definition bench_value (_ : list Config.MotorEntry) (_ : Config.ControlSection) (_ : Config.HomingSection)
  : result string unit := Ok tt.
Definition bench_len (_ : unit) : result string Z := Ok 1.
Definition bench_encode (_ : Authority.TypedPolicy) : result string (list Z) := Ok [].
Definition no_text {A : Type} (_ : A) : string := "".

Definition bench_work : Work unit :=
  mkWork 1 1 0 None [] [] None [] (mkCommits 5 1 (Some state_default) [] [] CurrentPhysical) 100.

(** Disabled, nothing permitted, a physical backend, the journal running. *)
Definition bench_owner : BenchSup :=
  mkSup Activation.rest_session bench_installed false [bench_motor] Authority.default_authority
    Activation.rest_devices bench_work Reporting.reporting_default no_session ∅ no_tracking bench_loss false
    no_diagnostics (Reporting.mkSpy (mkMemoryBus [] []) []) bench_clock.

(** The frames the next drain will find. *)
Definition feed (fs : list CanFrame) (s : BenchSup) : BenchSup :=
  set_bus (Reporting.mkSpy (mkMemoryBus [] fs) (Reporting.attempts (bus s))) s.

Definition bench_request : ReferenceRequest unit :=
  mkRequest (mkRefStamp 1 1 0 0 (Authority.mkStamp 1 3) tt) Authority.pitch true true.

Abbreviation bench_begin := (begin_reference bench_value bench_len bench_encode bench_request bench_owner).
Abbreviation bench_advance h s :=
  (advance_reference no_text no_text no_text no_text bench_value bench_len bench_encode h s).
Definition bench_handle : ReferenceHandle := mkHandle 1 1.

Abbreviation bench_ok := (work_ok no_text bench_value bench_len).

Lemma bench_work_ok (P : BenchSup -> Prop) : bench_ok P (rwork bench_owner).
Proof. split; [apply NoDup_nil_2|constructor|constructor|discriminate]. Qed.

Lemma bench_live : exists r, w_reservation (rwork bench_begin.2) = Some r /\ r_handle r = bench_handle
  /\ r_phase_deadline r <= 3600000000000.
Proof.
  assert (Hc : match w_reservation (rwork bench_begin.2) with
    | Some r => bool_decide (r_handle r = bench_handle) && (r_phase_deadline r <=? 3600000000000)
    | None => false end = true) by (vm_compute; reflexivity).
  destruct (w_reservation (rwork bench_begin.2)) as [r|]; [|discriminate].
  apply andb_prop in Hc as [Hh%bool_decide_eq_true Hd%Z.leb_le]. eauto.
Qed.

Lemma bench_begun_ok (P : BenchSup -> Prop) : bench_ok P (rwork bench_begin.2).
Proof. apply (begin_reference_ok no_text bench_value bench_len bench_encode P bench_request bench_owner (bench_work_ok P)). Qed.

(** Nothing was staged before. *)
Definition nowhere (_ : BenchSup) : Prop := False.

Lemma request_contract_witness :
  bench_begin.1 = Ok bench_handle /\ answered bench_request bench_owner bench_begin.2 bench_begin.1.
Proof.
  split; [vm_compute; reflexivity|].
  pose proof (request_contract no_text bench_value bench_len bench_encode nowhere bench_request bench_owner (bench_work_ok nowhere)) as Hr.
  revert Hr. generalize bench_begin. intros [x s'] [Hr _]. exact Hr.
Defined.

Definition bench_calls : list (call (V := unit)) :=
  [CSnapshot; CBegin bench_request; CAdvance bench_handle; CAdvance bench_handle].
Abbreviation bench_history cs s := (history no_text no_text no_text no_text bench_value bench_len bench_encode cs s).

Lemma acquisition_history_witness :
  let s' := bench_history bench_calls bench_owner in
  (r_phase <$> w_reservation (rwork s')) = Some RequestIdentity
  /\ bench_ok (fun x => nowhere x \/ visited no_text no_text no_text no_text bench_value bench_len bench_encode
                                        bench_calls bench_owner x) (rwork s').
Proof.
  split; [vm_compute; reflexivity|].
  exact (proj1 (acquisition_history no_text no_text no_text no_text bench_value bench_len bench_encode
    nowhere bench_calls bench_owner (bench_work_ok nowhere))).
Defined.

Lemma advance_contract_witness :
  exists r, w_reservation (rwork bench_begin.2) = Some r
  /\ advanced no_text (accepted_in no_text bench_value bench_len r bench_begin.2) r (rwork bench_begin.2)
       (bench_advance bench_handle bench_begin.2).2 (bench_advance bench_handle bench_begin.2).1.
Proof.
  destruct bench_live as (r & Hr & Eh & _). exists r. split; [exact Hr|].
  pose proof (advance_contract no_text no_text no_text no_text bench_value bench_len bench_encode nowhere r bench_begin.2
    (bench_begun_ok nowhere) Hr) as Ha.
  rewrite Eh in Ha. revert Ha. generalize (bench_advance bench_handle bench_begin.2). intros [x s'] [Ha _]. exact Ha.
Defined.

(** The same supervisor found again an hour later. *)
Definition an_hour_later (s : BenchSup) : BenchSup :=
  set_clock (mkClock (fun n => 3600000000000 + Z.of_nat n * 1000) 0 0) s.

Lemma acquisition_times_out_witness :
  exists r, w_reservation (rwork bench_begin.2) = Some r
  /\ ended r TimedOut None (rwork bench_begin.2) (bench_advance bench_handle (an_hour_later bench_begin.2)).2.
Proof.
  destruct bench_live as (r & Hr & Eh & Hd). exists r. split; [exact Hr|].
  assert (Hb : backend_realm (installed bench_begin.2) <> None) by (vm_compute; discriminate).
  assert (Ht : r_phase_deadline r <= (backend_now (mark_owner_work (an_hour_later bench_begin.2))).1).
  { etransitivity; [exact Hd|]. vm_compute. discriminate. }
  revert Hr Hb Ht. generalize (bench_begun_ok nowhere). generalize bench_begin.2. intros s Hok Hr Hb Ht.
  destruct (acquisition_times_out no_text no_text no_text no_text bench_value bench_len bench_encode nowhere r
    (an_hour_later s) Hok Hr Hb) as [_ Hto].
  specialize (Hto Ht). rewrite Eh in Hto. revert Hto. generalize (bench_advance bench_handle (an_hour_later s)).
  intros [x s'] (_ & He & _). exact He.
Defined.

End Owner.
