(* ===== verification/Grant.v ===== *)
(** * Grant: the one way a joint gains permission

    Theorems about [Commit]: an owner with a physical backend gains permission
    only in [advance_reference_commit], only for the joint of a staged
    acquisition, and only while every binding of that stage still holds and the
    journal has answered its own job durably. *)

From Stdlib Require Import ZArith Lia Bool.
From stdpp Require Import base gmap strings list.
From S2P Require Import Prelude Float Comm Wire Config Params Bus Receive Feedback Reporting Faults Davout Admission Authority Physical Lifecycle Stop Session Consume Hazards Enable Activation Journal History Reference Acquire Commit Frames Evidence Owner.

Module Grant.
Import Bus Receive Feedback Faults Davout Admission Lifecycle Stop Session Consume Hazards Enable Journal History Reference Acquire Commit Frames Evidence Owner.

Section Grant.
Context {B : Type} `{CanBus B} {V : Type} `{EqDecision V}.
Variable display : DavoutError -> string.
Variable display_bus : BusError -> string.
Variable display_reference : ReferenceError -> string.
Variable display_commit : ReferenceCommitError -> string.
Variable display_f64 : f64 -> string.
Variable to_value : list Config.MotorEntry -> Config.ControlSection -> Config.HomingSection -> result string V.
Variable value_len : V -> result string Z.
Variable encode_policy : Authority.TypedPolicy -> result string (list Z).
Abbreviation S := (Sup B (Work V)).
Abbreviation inspected := (@inspected B V).
Abbreviation stage_status := (retained_stage_status to_value value_len encode_policy).
Abbreviation stage_bound := (stage_bound to_value value_len encode_policy).
Abbreviation observe_commits := (observe_reference_commits to_value value_len encode_policy).

(** ** Current evidence *)

(** The bindings of the stage [g] of [o], as [s] finds them: the owner, its realm
    and the transaction; the device and its coordinate; the drive of the joint;
    the complete drain the evidence came from; model and policy unchanged; all
    disabled; confirmed, and the accepted position finite and in tolerance. *)
Record bound (o : RetainedOutcome V) (g : RetainedStage) (s : S) : Prop := {
  bo_confirmed : t_cause (o_terminal o) = EvidenceStaged /\ rq_confirmed (o_request o) = true
    /\ sign_ok (rq_joint (o_request o)) (rq_sign_verified (o_request o)) s = true;
  bo_identity : cr_owner (ev_proof (sg_evidence g)) = w_identity (rwork s)
    /\ o_handle o = mkHandle (cr_owner (ev_proof (sg_evidence g))) (cr_transaction (ev_proof (sg_evidence g)))
    /\ backend_realm (installed s) = Some (cr_realm (ev_proof (sg_evidence g)));
  bo_device : Physical.epoch (ev_address (sg_evidence g)) (physical s) = Some (cr_device_epoch (ev_proof (sg_evidence g)))
    /\ forall p, sg_physical g = Some p ->
       Physical.uid (ev_address (sg_evidence g)) (physical s) = Some (pe_uid p);
  bo_drive : exists m, m ∈ stop_motors s /\ Config.joint m = rq_joint (o_request o)
    /\ address_of_motor m = ev_address (sg_evidence g);
  bo_drain : pop_matches (sg_evidence g) = true
    /\ receive_matches (ev_order (sg_evidence g)) (t_receive (o_terminal o)) = true;
  bo_policy : reference_generation s = sg_reference_generation g
    /\ model_matches (sg_installed_model g) s = true
    /\ reference_policy to_value value_len s = Ok (rs_policy (rq_stamp (o_request o)))
    /\ policy_encodes encode_policy (sg_typed_policy g) (live_policy s) = true;
  bo_disabled : mode (adm s) = Disabled /\ sv_control_mode (adm s) = CDisabled;
  bo_position : is_finite (ev_position_rad (sg_evidence g)) = true
    /\ fgt (fabs (f64_of_f32 (ev_position_rad (sg_evidence g)))) (tolerance s) = false
}.

Lemma stage_bound_spec (o : RetainedOutcome V) (g : RetainedStage) (s : S) : stage_bound o g s = true -> bound o g s.
Proof.
  unfold Acquire.stage_bound, identity_matches, target_matches. intros Hb. bsimp.
  repeat match goal with H : bool_decide _ = true |- _ => apply bool_decide_eq_true in H end.
  split; auto.
  - split; [assumption|]. split; [|assumption]. destruct (o_handle o). cbn in *. congruence.
  - split; [assumption|]. unfold uid_holds in *. intros p Ep. rewrite Ep in *. by eapply bool_decide_eq_true.
  - match goal with H : existsb _ _ = true |- _ => apply existsb_exists in H as (m & Hin & Hm) end. bsimp.
    repeat match goal with H : bool_decide _ = true |- _ => apply bool_decide_eq_true in H end.
    exists m. split; [by apply list_elem_of_In|auto].
  - split; [assumption|]. split; [assumption|]. split; [|assumption]. unfold policy_is in *.
    destruct (reference_policy _ _ s); [|discriminate..]. f_equal. by eapply bool_decide_eq_true.
Qed.

(** Everything that holds of [o] and its stage [g] when it is reported current in [s]. *)
Record current (p : nat) (o : RetainedOutcome V) (g : RetainedStage) (s : S) : Prop := {
  cu_retained : w_heap (rwork s) !! p = Some o /\ o_stage o = Some g /\ sg_invalidated g = None;
  cu_latest : w_reservation (rwork s) = None /\ latest_handle (rwork s) = Some (o_handle o);
  cu_stop : failed_writes (t_stop (o_terminal o)) = 0%nat
    /\ stop_generation_of s = generation (t_stop (o_terminal o));
  cu_time : (backend_now s).1 < sg_overall_deadline g;
  cu_clear : has_latched_fault s = false /\ hardware_estop s = false;
  cu_bound : bound o g s
}.

Lemma status_current (p : nat) (s : S) :
  let '(status, s') := stage_status p s in
  (exists w k, s' = set_rwork w (set_clock k s)) /\ (status = CurrentEvidence -> exists o g, current p o g s /\ rwork s' = rwork s).
Proof.
  assert (Hid : exists w k, s = set_rwork w (set_clock k s)) by (exists (rwork s), (hostclock s); by destruct s).
  unfold retained_stage_status. destruct (w_heap (rwork s) !! p) as [o|] eqn:Ep; [|by split].
  destruct (o_stage o) as [g|] eqn:Eg; [|by split]. destruct (sg_invalidated g) eqn:Ei; [by split|].
  destruct (invalidation_inspected to_value value_len encode_policy o g s) as [k Ek].
  destruct (staged_reference_invalidation _ _ _ o g s) as [[reason|] s1] eqn:Es; cbn [snd] in Ek; subst s1.
  { split; [|done]. by eexists _, k. }
  split; [by exists (rwork s), k; destruct s|]. intros _. exists o, g. split; [|by destruct s].
  revert Es. unfold staged_reference_invalidation.
  destruct (0 <? failed_writes _)%nat eqn:E1; [done|]. destruct (_ || _) eqn:E2; [done|].
  destruct (_ || _) eqn:E3 in |- *; [done|]. destruct (negb (has_backend s)); [done|].
  destruct (backend_now s) as [t s2] eqn:En. destruct (sg_overall_deadline g <=? t) eqn:E4; [done|].
  assert (E2s : exists k2, s2 = set_clock k2 s).
  { revert En. unfold backend_now, tick. destruct (now (hostclock s)) as [t2 k2]. intros [= _ <-]. by exists k2. }
  destruct E2s as [k2 ->]. change (has_latched_fault (set_clock k2 s)) with (has_latched_fault s).
  change (hardware_estop (set_clock k2 s)) with (hardware_estop s).
  destruct (has_latched_fault s || hardware_estop s) eqn:E5; [done|].
  destruct (negb (stop_generation_of _ =? _)) eqn:E6; [done|].
  destruct (negb (Acquire.stage_bound _ _ _ o g _)) eqn:E7; [done|]. intros _. bsimp.
  apply Nat.ltb_ge in E1. split; auto.
  - split; [|]. 
    + destruct (w_reservation (rwork s)) eqn:Er; [|done]. unfold reserved in *. rewrite Er in *. done.
    + match goal with H : bool_decide (latest_handle _ = _) = true |- _ => by apply bool_decide_eq_true in H end.
  - split; [lia|assumption].
  - rewrite En. cbn. lia.
  - by apply stage_bound_spec.
Qed.

Section Kept.
(** The states in which [advance_reference] was called. *)
Variable P : S -> Prop.
Abbreviation work_ok := (work_ok display to_value value_len P).
Abbreviation staged_from := (staged_from display to_value value_len P).
Abbreviation inspected_ok := (inspected_ok display to_value value_len P).

(** ** The entries a call starts from *)

Definition same_ids (e e' : Entry) : Prop :=
  e_handle e' = e_handle e /\ e_job e' = e_job e /\ e_stage e' = e_stage e.

(** The waiting entries and the journal are those of [w], marks aside. *)
Definition tracked (w w' : Work V) : Prop :=
  Forall2 same_ids (c_pending (w_commits w)) (c_pending (w_commits w'))
  /\ c_journal (w_commits w') = c_journal (w_commits w).

#[local] Instance same_ids_preorder : PreOrder same_ids.
Proof. split; [done|]. intros e1 e2 e3 (? & ? & ?) (? & ? & ?). repeat split; congruence. Qed.

#[local] Instance tracked_preorder : PreOrder tracked.
Proof.
  split; [intros w; split; reflexivity|]. intros w1 w2 w3 [F1 E1] [F2 E2]. split; [by etransitivity|congruence].
Qed.

Lemma seen_tracked (w w' : Work V) : Frames.seen w w' -> tracked w w'.
Proof.
  intros Hs. split; [|apply Hs]. eapply Forall2_impl; [apply (sn_waiting _ _ Hs)|].
  intros e e' [->|[_ [reason ->]]]; [reflexivity|done].
Qed.

Lemma ended_tracked reason p (w : Work V) : tracked w (end_commits reason p w).
Proof.
  unfold end_commits. set (w1 := fold_left _ _ w).
  assert (H1 : tracked w w1) by apply seen_tracked, fold_retire_seen.
  etransitivity; [exact H1|]. split; [|done]. cbn. apply Forall2_fmap_r, Forall_Forall2_diag, Forall_true.
  intros e. unfold compose. destruct (is_pending e); [split; [|split]|]; reflexivity.
Qed.

Lemma update_first_ids (p : Entry -> bool) (f : Entry -> Entry) (l : list Entry) :
  (forall e, same_ids e (f e)) -> Forall2 same_ids l (default l (update_first p f l)).
Proof.
  intros Hf. induction l as [|e l IH]; cbn; [done|]. destruct (p e); cbn; [constructor; [apply Hf|reflexivity]|].
  destruct (update_first p f l); cbn in *; constructor; auto; reflexivity.
Qed.

Lemma update_waiting_tracked (h : ReferenceCommitHandle) (f : Entry -> Entry) (w : Work V) :
  (forall e, same_ids e (f e)) -> tracked w (update_waiting h f w).
Proof. intros Hf. split; [|done]. cbn. by apply update_first_ids. Qed.

Lemma commits_ok (c : CommitOwner) (w : Work V) : work_ok w -> work_ok (set_commits c w).
Proof. intros [U R G L]. by split. Qed.

Lemma retire_ok reason p (w : Work V) : work_ok w -> work_ok (retire_at reason p w).
Proof. apply seen_ok, alter_seen. Qed.

(** What [s'] keeps of [s] up to the selection. *)
Record prepared (s s' : S) : Prop := {
  pr_drops : drops (authority s) (authority s');
  pr_tracked : tracked (rwork s) (rwork s');
  pr_work : work_ok (rwork s) -> work_ok (rwork s')
}.

#[local] Instance prepared_preorder : PreOrder prepared.
Proof. split; [intros s; split; [reflexivity..|done]|]. intros s1 s2 s3 [] []. split; [by etransitivity..|auto]. Qed.

Lemma inspected_prepared (s s' : S) : inspected s s' -> prepared s s'.
Proof. intros Hi. split; [apply Hi|apply seen_tracked, Hi|by apply inspected_ok]. Qed.

Lemma work_prepared (w : Work V) (s : S) :
  tracked (rwork s) w -> (work_ok (rwork s) -> work_ok w) -> prepared s (set_rwork w s).
Proof. intros Ht Hw. split; [reflexivity|exact Ht|exact Hw]. Qed.

Lemma stop_prepared (s : S) :
  prepared s (perform_stop (observed to_value value_len encode_policy) false s).2.
Proof.
  unfold perform_stop. pose proof (stop_frame (observed to_value value_len encode_policy) None s) as Hk.
  destruct (perform_stop_paced _ false None s) as [[report p] s']. destruct Hk as [Ew _ _ _ D _ _ _].
  split; cbn; [exact D|rewrite Ew; reflexivity|by rewrite Ew].
Qed.

(** Up to the collection of the answer, which is always reached. *)
Lemma waiting_prepared (h : ReferenceCommitHandle) m (s : S) :
  exists s', waiting_observed display to_value value_len encode_policy h m s = Some s' /\ prepared s s'.
Proof.
  unfold waiting_observed, recv_feedback_report.
  destruct (drain_total 0 0 (bus s) (hostclock s) limits_default) as [[[batch b] c] Ed]. rewrite Ed.
  cbn [mbind option_bind].
  match goal with |- context [consume_report_in_context display ?r ?x ?y] =>
    pose proof (consume_spec display r x y) as Hc; destruct (consume_report_in_context display r x y) as [consumed s1] end.
  destruct Hc as (_ & Hfed & _ & _). destruct (fd_owner _ _ _ Hfed) as (_ & Ea & _ & _ & Ew & _). cbn in Ea, Ew.
  assert (P1 : prepared s s1) by (split; [rewrite Ea; reflexivity|rewrite Ew; reflexivity|by rewrite Ew]).
  cbv zeta. eexists. split; [reflexivity|]. etransitivity; [exact P1|].
  set (s2 := set_rwork _ s1).
  assert (P2 : prepared s1 s2) by (apply work_prepared; [apply update_waiting_tracked; by intros e|apply commits_ok]).
  etransitivity; [exact P2|]. set (s3 := if fc_transition consumed then _ else s2).
  assert (P3 : prepared s2 s3) by (unfold s3; destruct (fc_transition _); [apply stop_prepared|reflexivity]).
  etransitivity; [exact P3|]. etransitivity; [|apply inspected_prepared, observe_inspected].
  destruct (_ || _); [|reflexivity]. apply work_prepared; [apply ended_tracked|apply end_commits_ok].
Qed.

(** ** Selecting *)

(** The journal holds a durable answer to the job of [e]. *)
Definition durably_answered (e : Entry) (w : Work V) : Prop :=
  exists (jr : State Input) (c : Completed), c_journal (w_commits w) = Some jr /\ c ∈ completed jr
    /\ matches (Journal.c_identity c) (e_job e) = true /\ is_durable (c_result c) = true.

(** Collecting the commit [h] in [s] selects the joint [j]: the entry [e] that is
    collected is complete and durably answered, and the stage it names is current
    in the very state the selection is made in. *)
Definition selects (h : ReferenceCommitHandle) (j : string) (s : S) (e : Entry) : Prop :=
  exists w, collect h (rwork s) = (Some e, w)
  /\ e_phase e = CommitComplete /\ is_durable (e_result e) = true /\ c_selection (w_commits w) <> HistoryOnly
  /\ exists o g, current (e_stage e) o g (set_rwork w s) /\ o_joint o = j /\ staged_from o g.

(** The motor of the joint the commit [h] is about. *)
Definition commit_motor (h : ReferenceCommitHandle) (s : S) : option Config.MotorEntry :=
  match get h (rwork s) with
  | Ok e => o ← stage_of e (rwork s); find_first (fun m => bool_decide (Config.joint m = o_joint o)) (stop_motors s)
  | _ => None
  end.

(** Advancing the commit [h] in [s] covers the joint [j]: [h] is waiting in [s] and
    no acquisition runs, the journal has answered its own job durably, and after
    the drain of this very call it selects [j]. *)
Record commit_grants (h : ReferenceCommitHandle) (j : string) (s : S) : Prop := {
  cg_idle : w_reservation (rwork s) = None;
  cg_answer : exists e, e ∈ c_pending (w_commits (rwork s)) /\ e_handle e = h /\ durably_answered e (rwork s)
    /\ exists m s1 e', commit_motor h s = Some m
       /\ waiting_observed display to_value value_len encode_policy h m s = Some s1
       /\ e_stage e' = e_stage e /\ e_job e' = e_job e /\ selects h j s1 e'
}.

(** Permission in [s'] that [s] did not have is what [Q] allows. *)
Definition gains_only (Q : string -> Prop) (s s' : S) : Prop :=
  forall j, Authority.contains j (authority s') = true -> Authority.contains j (authority s) = true \/ Q j.

Lemma remove_entry_spec (h : ReferenceCommitHandle) (l : list Entry) (e : Entry) (rest : list Entry) :
  remove_entry h l = Some (e, rest) -> e ∈ l /\ e_handle e = h.
Proof.
  revert rest. induction l as [|x l IH]; intros rest; cbn; [discriminate|].
  case_bool_decide as E; [intros [= <- _]; split; [by constructor|done]|].
  destruct (remove_entry h l) as [[y r]|]; [|discriminate]. cbn. intros [= <- _].
  destruct (IH _ eq_refl) as [Hin He]. split; [by constructor|exact He].
Qed.

Lemma collect_spec (h : ReferenceCommitHandle) (w : Work V) (e : Entry) (w' : Work V) :
  collect h w = (Some e, w') ->
  exists e0, e0 ∈ c_pending (w_commits w) /\ e_handle e0 = h /\ e_stage e = e_stage e0 /\ e_job e = e_job e0
    /\ (is_durable (e_result e) = true -> durably_answered e0 w).
Proof.
  unfold collect. destruct (remove_entry h _) as [[e0 rest]|] eqn:Er; [|discriminate].
  destruct (c_journal (w_commits w)) as [jr|] eqn:Ej; [|discriminate].
  unfold take_matching. destruct (remove_matching (e_job e0) (completed jr)) as [[c l]|] eqn:Em; [|discriminate].
  intros [= <- _]. destruct (remove_entry_spec _ _ _ _ Er) as [Hin Hh]. exists e0.
  split; [exact Hin|]. split; [exact Hh|]. split; [done|]. split; [done|]. cbn. intros Hd.
  destruct (remove_matching_spec _ _ _ _ Em) as [Hm Hp]. exists jr, c.
  split; [exact Ej|]. split; [rewrite Hp; by constructor|]. split; [exact Hm|exact Hd].
Qed.

Lemma select_contains (o : RetainedOutcome V) (job : Z) (a : Authority.ReferenceAuthority) j :
  Authority.contains j (select_current o job a).2 = true -> Authority.contains j a = true \/ o_joint o = j.
Proof.
  unfold select_current. destruct (o_stage o) as [g|]; [|auto].
  match goal with |- context [Authority.select_consumed ?r (Authority.new_binding ?jb ?m ?k ?ad ?ep ?u) ?p ?sc a] =>
    intros Hc; apply (Authority.exec_shrinks (Authority.OSelect r jb m k ad ep u p sc)) in Hc end.
  destruct Hc as [?|Hs]; [by left|right; exact Hs].
Qed.

Lemma select_entry_spec (e : Entry) (s : S) :
  let '(_, s') := select_entry to_value value_len encode_policy e s in
  forall j, Authority.contains j (authority s') = true ->
  Authority.contains j (authority s) = true
  \/ e_phase e = CommitComplete /\ is_durable (e_result e) = true /\ c_selection (w_commits (rwork s)) <> HistoryOnly
     /\ exists o g, current (e_stage e) o g s /\ o_joint o = j.
Proof.
  unfold select_entry. destruct (_ && is_durable (e_result e)) eqn:Ed; [|auto]. bsimp.
  match goal with H : bool_decide (e_phase e = _) = true, H' : bool_decide (_ = HistoryOnly) = false |- _ =>
    apply bool_decide_eq_true in H; apply bool_decide_eq_false in H' end.
  pose proof (status_current (e_stage e) s) as Hs. destruct (stage_status (e_stage e) s) as [status s1].
  destruct Hs as [(w & k & E1) Hcur]. assert (Ea : authority s1 = authority s) by (by rewrite E1).
  destruct (bool_decide (status = CurrentEvidence)) eqn:Est; [|rewrite Ea; auto].
  apply bool_decide_eq_true in Est. destruct (Hcur Est) as (o & g & Hc & Ew).
  unfold stage_of. rewrite Ew, (proj1 (cu_retained _ _ _ _ Hc)).
  pose proof (select_contains o (nonce (e_job e)) (authority s1)) as Hsel.
  destruct (select_current o _ (authority s1)) as [[u|] a]; cbn; cbn [snd] in Hsel; rewrite Ea in Hsel;
    intros j Hj; (destruct (Hsel j Hj) as [?|Hjo]; [by left|right; split; [done|]; split; [done|]; split; [done|by exists o, g]]).
Qed.

Lemma collect_ok (h : ReferenceCommitHandle) (w : Work V) : work_ok w -> work_ok (collect h w).2.
Proof.
  intros Hok. unfold collect. destruct (remove_entry h _) as [[e rest]|]; [|exact Hok].
  destruct (c_journal _) as [jr|]; [|exact Hok]. destruct (take_matching _ jr) as [[c|] jr']; [|exact Hok]. cbn [snd].
  destruct (is_durable _); [|apply retire_ok]; by apply commits_ok.
Qed.

Lemma select_entry_ok (e : Entry) (s : S) :
  work_ok (rwork s) -> work_ok (rwork (select_entry to_value value_len encode_policy e s).2).
Proof.
  intros Hok. unfold select_entry. destruct (_ && _); [|exact Hok].
  pose proof (stage_status_inspected to_value value_len encode_policy (e_stage e) s) as Hi.
  destruct (stage_status (e_stage e) s) as [status s1]. cbn [snd] in Hi. apply (inspected_ok _ _ Hi) in Hok.
  destruct (if bool_decide _ then _ else None) as [o|]; [|exact Hok].
  destruct (select_current o _ _) as [[u|] a]; by apply retire_ok.
Qed.

Lemma settle_ok (h : ReferenceCommitHandle) (s : S) :
  work_ok (rwork s) -> work_ok (rwork (settle_entry to_value value_len encode_policy h s)).
Proof.
  intros Hok. unfold settle_entry. pose proof (collect_ok h (rwork s) Hok) as Hc.
  destruct (collect h (rwork s)) as [[e|] w]; [|exact Hc]. cbn [snd] in Hc.
  pose proof (select_entry_ok e (set_rwork w s) Hc) as Hs.
  destruct (select_entry _ _ _ e _) as [[selected e'] s2]. cbn [snd] in Hs.
  destruct (outcome_physical _); [|by apply commits_ok]. set (s3 := set_rwork _ s2).
  assert (H3 : work_ok (rwork s3)) by (by apply commits_ok).
  destruct (mark_owner_work_frame s3) as (p & k & ->). destruct selected; [|exact H3].
  rewrite sync_work. set (s4 := set_physical p _).
  eapply (inspected_ok s4); [apply observe_inspected|exact H3].
Qed.

Lemma drops_gains Q (s s' : S) : drops (authority s) (authority s') -> gains_only Q s s'.
Proof. intros D j Hj. left. by eapply drops_contains. Qed.

Lemma gains_drops Q (s s1 s' : S) :
  gains_only Q s s1 -> drops (authority s1) (authority s') -> gains_only Q s s'.
Proof. intros Hg D j Hj. apply Hg. by eapply drops_contains. Qed.

Lemma settle_gains (h : ReferenceCommitHandle) (s : S) :
  work_ok (rwork s) ->
  gains_only (fun j => exists e, selects h j s e) s (settle_entry to_value value_len encode_policy h s).
Proof.
  intros Hok. unfold settle_entry. pose proof (collect_ok h (rwork s) Hok) as Hok1.
  destruct (collect h (rwork s)) as [[e|] w] eqn:Ec; [|apply drops_gains; reflexivity].
  set (s1 := set_rwork w s). pose proof (select_entry_spec e s1) as Hs.
  destruct (select_entry _ _ _ e s1) as [[selected e'] s2].
  assert (Hg : gains_only (fun j => exists e, selects h j s e) s s2).
  { intros j Hj. destruct (Hs j Hj) as [Hj1|(Hp & Hd & Hsel & o & g & Hc & Hjo)]; [by left|right].
    exists e, w. split; [exact Ec|]. split; [exact Hp|]. split; [exact Hd|]. split; [exact Hsel|].
    exists o, g. split; [exact Hc|]. split; [exact Hjo|].
    destruct (cu_retained _ _ _ _ Hc) as (Ho & Hg & _). pose proof (wk_staged _ _ _ _ _ Hok1) as Hw.
    rewrite Forall_forall in Hw. apply Hw; [|exact Hg]. by eapply list_elem_of_lookup_2. }
  destruct (outcome_physical _); [|exact Hg]. set (s3 := set_rwork _ s2).
  destruct (mark_owner_work_frame s3) as (p & k & ->). destruct selected; [|exact Hg].
  intros j. destruct (sync_frame (observed to_value value_len encode_policy) (set_physical p (set_clock k s3)))
    as (_ & _ & _ & _ & -> & _). apply Hg.
Qed.

(** The entry collected after the drain is the one that was waiting before it. *)
Lemma selects_waiting h j m (s s1 : S) (e' : Entry) :
  w_reservation (rwork s) = None -> commit_motor h s = Some m -> prepared s s1 ->
  waiting_observed display to_value value_len encode_policy h m s = Some s1 -> selects h j s1 e' ->
  commit_grants h j s.
Proof.
  intros Hr Hm [_ [F Ej] _] Hw Hs. split; [exact Hr|].
  pose proof Hs as (w & Hc & _ & Hd & _). destruct (collect_spec _ _ _ _ Hc) as (e1 & Hin & Hh & Hst & Hjb & Hdur).
  apply list_elem_of_lookup in Hin as [i Hi]. destruct (Forall2_lookup_r _ _ _ _ _ F Hi) as (e & He & E1 & E2 & E3).
  exists e. split; [by eapply list_elem_of_lookup_2|]. split; [congruence|].
  split; [destruct (Hdur Hd) as (jr & c & Ejr & Hjr); exists jr, c; rewrite <- Ej, <- E2; auto|].
  exists m, s1, e'. split; [exact Hm|]. split; [exact Hw|]. split; [congruence|]. split; [congruence|exact Hs].
Qed.

Lemma commit_snapshot_inspected (h : ReferenceCommitHandle) (s : S) :
  inspected s (reference_commit_snapshot to_value value_len encode_policy h s).2.
Proof.
  unfold reference_commit_snapshot. pose proof (observe_inspected to_value value_len encode_policy s) as I1.
  set (s1 := observe_commits s) in *. destruct (get h (rwork s1)) as [e| |]; [|exact I1..].
  destruct (stage_of e (rwork s1)) as [o|]; [|exact I1].
  pose proof (stage_status_inspected to_value value_len encode_policy (e_stage e) s1) as I2.
  destruct (stage_status (e_stage e) s1) as [status s2]. cbn [snd] in I2.
  pose proof (valid_inspected to_value value_len encode_policy s2) as I3.
  destruct (reference_binding_valid _ _ _ s2) as [v s3]. cbn in I3 |- *.
  etransitivity; [exact I1|]. by etransitivity.
Qed.

Abbreviation advance_commit := (advance_reference_commit display to_value value_len encode_policy).

Lemma advance_commit_gains (h : ReferenceCommitHandle) (s : S) :
  work_ok (rwork s) ->
  work_ok (rwork (advance_commit h s).2) /\ gains_only (fun j => commit_grants h j s) s (advance_commit h s).2.
Proof.
  intros Hok. unfold advance_reference_commit.
  assert (Hid : forall s', inspected s s' -> work_ok (rwork s') /\ gains_only (fun j => commit_grants h j s) s s')
    by (intros s' Hi; split; [by eapply inspected_ok|apply drops_gains, Hi]).
  assert (Hs : inspected s s) by reflexivity.
  destruct (get h (rwork s)) as [e| |] eqn:Eg; [|by apply Hid..].
  destruct (reserved (rwork s)) eqn:Er; [by apply Hid|].
  destruct (negb _); [apply Hid, commit_snapshot_inspected|].
  destruct (_ ≫= _) as [m|] eqn:Em; [|by apply Hid]. unfold advance_waiting.
  destruct (waiting_prepared h m s) as (s1 & Ew & Hp). rewrite Ew.
  pose proof (pr_work _ _ Hp Hok) as Hok1. set (s2 := settle_entry _ _ _ h s1).
  pose proof (commit_snapshot_inspected h s2) as Hi.
  split; [eapply inspected_ok; [exact Hi|by apply settle_ok]|].
  eapply gains_drops; [|apply Hi]. intros j Hj. destruct (settle_gains h s1 Hok1 j Hj) as [Hj1|[e' Hsel]].
  - left. eapply drops_contains; [apply Hp|exact Hj1].
  - right. eapply selects_waiting; [|unfold commit_motor; by rewrite Eg|exact Hp|exact Ew|exact Hsel].
    unfold reserved in Er. apply bool_decide_eq_false in Er. by apply eq_None_not_Some.
Qed.

Lemma begin_commit_ok (h : ReferenceHandle) (audit : ReferenceAudit) (s : S) :
  let s' := (begin_reference_commit to_value value_len encode_policy h audit s).2 in
  work_ok (rwork s) -> work_ok (rwork s') /\ drops (authority s) (authority s').
Proof.
  intros s' Hok. subst s'. assert (Hid : work_ok (rwork s) /\ drops (authority s) (authority s)) by (split; [exact Hok|reflexivity]).
  unfold begin_reference_commit. destruct (c_journal _); [|exact Hid]. destruct (negb _); [exact Hid|].
  destruct (entry_for_acquisition _ _); [exact Hid|].
  assert (Hi : forall s1, inspected s s1 -> work_ok (rwork s1) /\ drops (authority s) (authority s1))
    by (intros s1 I1; split; [by eapply inspected_ok|apply I1]).
  pose proof (observe_inspected to_value value_len encode_policy s) as I1. set (s1 := observe_commits s) in *.
  destruct (_ || _); [by apply Hi|]. destruct (negb _); [by apply Hi|].
  destruct (find_outcome h (rwork s1)) as [p|]; [|by apply Hi].
  pose proof (stage_status_inspected to_value value_len encode_policy p s1) as I2.
  destruct (stage_status p s1) as [status s2]. cbn [snd] in I2. assert (I : inspected s s2) by (by etransitivity).
  destruct (negb _); [by apply Hi|]. destruct (c_journal _) as [jr|]; [|by apply Hi].
  destruct (w_heap (rwork s2) !! p) as [o|]; [|by apply Hi].
  destruct (submission _ _ _ _) as [[next x]| |]; [|by apply Hi..].
  unfold submit_entry. destruct (submit _ x jr) as [[u| |] jr']; [|by apply Hi..].
  destruct (Hi s2 I) as [[U R G L] D]. split; [by split|exact D].
Qed.

Lemma cancel_commit_ok (h : ReferenceCommitHandle) reason (s : S) :
  let s' := (cancel_reference_commit to_value value_len encode_policy h reason s).2 in
  work_ok (rwork s) -> work_ok (rwork s') /\ drops (authority s) (authority s').
Proof.
  intros s' Hok. subst s'. unfold cancel_reference_commit.
  destruct (get h (rwork s)) as [e| |]; [|split; [exact Hok|reflexivity]..].
  match goal with |- context [reference_commit_snapshot _ _ _ h (set_rwork ?w ?x)] =>
    pose proof (commit_snapshot_inspected h (set_rwork w x)) as Hi; assert (H1 : work_ok w); [|assert (D : drops (authority s) (authority x))] end.
  - apply commits_ok, retire_ok. destruct (bool_decide (reason = CancelDisable)); exact Hok.
  - destruct (bool_decide (reason = CancelDisable)); [reflexivity|]. apply (drops_one (Authority.ORevokeSelected (nonce (e_job e)))). by intros j [].
  - split; [eapply inspected_ok; [exact Hi|exact H1]|]. etransitivity; [exact D|apply Hi].
Qed.

(** ** Every call *)

Abbreviation advance_work :=
  (advance_reference_work display display_bus display_reference display_commit display_f64 to_value value_len encode_policy).
Abbreviation request := (request_reference display_commit to_value value_len encode_policy).

(** The record is kept and permission only gained where [Q] allows. *)
Definition call_kept (Q : string -> Prop) (s s' : S) : Prop := work_ok (rwork s') /\ gains_only Q s s'.

Lemma drops_kept Q (s s' : S) : work_ok (rwork s') /\ drops (authority s) (authority s') -> call_kept Q s s'.
Proof. intros [W D]. split; [exact W|by apply drops_gains]. Qed.

Lemma inspected_kept Q (s s' : S) : work_ok (rwork s) -> inspected s s' -> call_kept Q s s'.
Proof. intros Hok Hi. apply drops_kept. split; [by eapply inspected_ok|apply Hi]. Qed.

Lemma kept_after Q (s s0 s' : S) : prepared s s0 -> call_kept Q s0 s' -> call_kept Q s s'.
Proof.
  intros Hp [W Hg]. split; [exact W|]. intros j Hj. destruct (Hg j Hj) as [Hj0|HQ]; [|by right].
  left. eapply drops_contains; [apply Hp|exact Hj0].
Qed.

Lemma pending_ok x (w : Work V) : work_ok w -> work_ok (set_pending_commit x w).
Proof. intros [U R G L]. by split. Qed.

Lemma failure_ok h m (w : Work V) : work_ok w -> work_ok (record_request_failure h m w).
Proof. intros [U R G L]. by split. Qed.

Lemma continue_kept Q (p : PendingCommit) (s : S) :
  work_ok (rwork s) -> call_kept Q s (continue_pending display_commit to_value value_len encode_policy p s).
Proof.
  intros Hok. apply drops_kept. unfold continue_pending. set (s0 := set_rwork _ s).
  assert (H0 : work_ok (rwork s0)) by (by apply pending_ok).
  pose proof (snapshot_inspected to_value value_len encode_policy s0) as Hi.
  destruct (reference_snapshot _ _ _ s0) as [n s1]. cbn [snd] in Hi.
  assert (H1 : work_ok (rwork s1) /\ drops (authority s) (authority s1)) by (split; [by eapply inspected_ok|apply Hi]).
  destruct (staged_terminal _ _); [|exact H1]. destruct H1 as [W1 D1].
  pose proof (begin_commit_ok (pd_acquisition p) (pd_audit p) s1 W1) as [W2 D2].
  destruct (begin_reference_commit _ _ _ _ _ s1) as [[u|e|] s2]; cbn [snd] in W2, D2;
    (split; [|by etransitivity]); [exact W2|by apply failure_ok|exact W2].
Qed.

(** The commit [advance_reference_work] goes on with, and the state it finds it in. *)
Definition next_commit (s : S) : option (ReferenceCommitHandle * S) :=
  let '(n, s) := reference_snapshot to_value value_len encode_policy s in
  match (if reserved (rwork s) then sn_handle n else None), w_pending_commit (rwork s), c_pending (w_commits (rwork s)) with
  | None, None, e :: _ => Some (e_handle e, s)
  | _, _, _ => None
  end.

Lemma advance_work_kept (s : S) :
  P (reference_snapshot to_value value_len encode_policy s).2 -> work_ok (rwork s) ->
  call_kept (fun j => exists h s0, next_commit s = Some (h, s0) /\ commit_grants h j s0) s (advance_work s).2.
Proof.
  intros HP Hok. unfold advance_reference_work, next_commit.
  pose proof (snapshot_inspected to_value value_len encode_policy s) as Hi.
  destruct (reference_snapshot _ _ _ s) as [n s0]. cbn [snd] in Hi, HP.
  assert (H0 : work_ok (rwork s0)) by (by eapply inspected_ok).
  apply (kept_after _ s s0); [by apply inspected_prepared|].
  destruct (if reserved _ then _ else None) as [h|].
  - apply drops_kept.
    pose proof (advance_call_ok display display_bus display_reference display_f64 to_value value_len encode_policy P h s0 HP H0) as Ha.
    by destruct (advance_reference _ _ _ _ _ _ _ h s0) as [[u|e|] s1].
  - destruct (w_pending_commit _) as [p|]; [by apply continue_kept|].
    destruct (c_pending _) as [|e es]; [apply inspected_kept; [exact H0|reflexivity]|].
    pose proof (advance_commit_gains (e_handle e) s0 H0) as [W Hg].
    assert (Hk : call_kept (fun j => exists h s1, Some (e_handle e, s0) = Some (h, s1) /\ commit_grants h j s1) s0
      (advance_commit (e_handle e) s0).2)
      by (split; [exact W|]; intros j Hj; destruct (Hg j Hj); eauto).
    by destruct (advance_commit (e_handle e) s0) as [[u|x|] s1].
Qed.

Lemma request_kept Q j sign audit (s : S) : work_ok (rwork s) -> call_kept Q s (request j sign audit s).2.
Proof.
  intros Hok. unfold request_reference.
  assert (Hid : call_kept Q s s) by (apply inspected_kept; [exact Hok|reflexivity]).
  destruct (_ || _); [exact Hid|]. destruct (negb _); [exact Hid|]. destruct (bool_decide _); [exact Hid|].
  pose proof (snapshot_inspected to_value value_len encode_policy s) as Hi.
  destruct (reference_snapshot _ _ _ s) as [n s0]. cbn [snd] in Hi.
  assert (H0 : work_ok (rwork s0)) by (by eapply inspected_ok).
  apply (kept_after Q s s0); [by apply inspected_prepared|]. apply drops_kept.
  destruct (sn_next_stamp n) as [stamp|]; [|split; [exact H0|reflexivity]].
  match goal with |- context [begin_reference _ _ _ ?q s0] =>
    destruct (begin_reference_ok display to_value value_len encode_policy P q s0 H0) as (_ & W & D);
    destruct (begin_reference _ _ _ q s0) as [[u|e|] s1] end; cbn [fst snd] in W, D; (split; [|exact D]);
    [by apply pending_ok|exact W..].
Qed.

Lemma collect_all_ok (w : Work V) : work_ok w -> work_ok (collect_all w).
Proof.
  unfold collect_all. generalize (e_handle <$> c_pending (w_commits w)) as l. intros l. revert w.
  induction l as [|h l IH]; intros w Hok; cbn [fold_left]; [exact Hok|]. apply IH.
  pose proof (collect_ok h w Hok) as Hc. destruct (collect h w) as [[e|] w']; [by apply commits_ok|exact Hc].
Qed.

Lemma drain_kept Q f (s : S) : work_ok (rwork s) -> call_kept Q s (drain_reference_journal_until f s).2.
Proof.
  intros Hok. apply drops_kept. unfold drain_reference_journal_until.
  set (s1 := if bool_decide _ then revoke_all s else s).
  assert (H1 : rwork s1 = rwork s /\ drops (authority s) (authority s1))
    by (unfold s1; case_bool_decide; split; try reflexivity; apply drops_revoke).
  destruct H1 as [E1 D1]. set (s2 := set_rwork _ s1).
  assert (H2 : work_ok (rwork s2)) by (apply end_commits_ok; by rewrite E1).
  destruct (c_journal (w_commits (rwork s2))) as [jr|]; [|split; [exact H2|exact D1]]. destruct (f (close jr)) as [jr' terminated].
  split; [|exact D1]. cbn [snd rwork set_rwork]. by apply collect_all_ok, commits_ok.
Qed.

(** Everything the owner of the reference work is asked to do. *)
Inductive reference_call : Type :=
| RAcquisition (c : call (V := V))
| RRequest (j : string) (sign_verified : bool) (audit : ReferenceAudit)
| RAdvanceWork
| RBeginCommit (h : ReferenceHandle) (audit : ReferenceAudit)
| RCommitSnapshot (h : ReferenceCommitHandle)
| RAdvanceCommit (h : ReferenceCommitHandle)
| RCancelCommit (h : ReferenceCommitHandle) (reason : ReferenceCancelReason)
| RCloseJournal
| RDrainJournal (worker_done : State Input -> State Input * bool).

Definition reference_step (c : reference_call) (s : S) : S :=
  match c with
  | RAcquisition c => call_step display display_bus display_reference display_f64 to_value value_len encode_policy c s
  | RRequest j sign audit => (request j sign audit s).2
  | RAdvanceWork => (advance_work s).2
  | RBeginCommit h audit => (begin_reference_commit to_value value_len encode_policy h audit s).2
  | RCommitSnapshot h => (reference_commit_snapshot to_value value_len encode_policy h s).2
  | RAdvanceCommit h => (advance_commit h s).2
  | RCancelCommit h reason => (cancel_reference_commit to_value value_len encode_policy h reason s).2
  | RCloseJournal => set_rwork (close_reference_journal_admission (rwork s)) s
  | RDrainJournal f => (drain_reference_journal_until f s).2
  end.

(** The state in which a call turns to the acquisition: [advance_reference_work]
    inspects first. *)
Definition turned (c : reference_call) (s : S) : S :=
  match c with RAdvanceWork => (reference_snapshot to_value value_len encode_policy s).2 | _ => s end.

(** The commit a call advances, and the state it finds it in. *)
Definition handed (c : reference_call) (s : S) : option (ReferenceCommitHandle * S) :=
  match c with
  | RAdvanceCommit h => Some (h, s)
  | RAdvanceWork => next_commit s
  | _ => None
  end.

(** The call [c] in [s] may cover the joint [j]. *)
Definition grants (c : reference_call) (j : string) (s : S) : Prop :=
  exists h s0, handed c s = Some (h, s0) /\ commit_grants h j s0.

Lemma reference_step_kept (c : reference_call) (s : S) :
  P (turned c s) -> work_ok (rwork s) -> call_kept (fun j => grants c j s) s (reference_step c s).
Proof.
  intros HP Hok. destruct c as [c|j sign audit| |h audit|h|h|h reason| |f]; cbn [reference_step].
  - by apply drops_kept, call_ok.
  - by apply request_kept.
  - by apply advance_work_kept.
  - by apply drops_kept, begin_commit_ok.
  - apply inspected_kept; [exact Hok|apply commit_snapshot_inspected].
  - destruct (advance_commit_gains h s Hok) as [W Hg]. split; [exact W|]. intros j Hj.
    destruct (Hg j Hj); [by left|right]. by exists h, s.
  - by apply drops_kept, cancel_commit_ok.
  - apply drops_kept. split; [by apply commits_ok|reflexivity].
  - by apply drain_kept.
Qed.

(** The states of a history of reference calls. *)
Inductive reaches (s : S) : S -> Prop :=
| reaches_start : reaches s s
| reaches_call s' c : reaches s s' -> reaches s (reference_step c s').

(** The states in which the calls of such a history turn to the acquisition. *)
Definition met (s x : S) : Prop := exists s' c, reaches s s' /\ x = turned c s'.

Lemma reaches_ok (s s' : S) :
  (forall x, met s x -> P x) -> work_ok (rwork s) -> reaches s s' -> work_ok (rwork s').
Proof.
  intros HP Hok. induction 1 as [|s' c Hr IH]; [exact Hok|]. apply reference_step_kept; [|exact IH].
  apply HP. by exists s', c.
Qed.

End Kept.

(** C3: a joint gains permission in one way only.  Along any history of reference
    calls, when a call covers a joint that was not covered before it, that call
    advances a commit that was waiting with no acquisition running and whose own
    job the journal has answered durably; and in the state that call's own drain
    and observation leave, where it selects, the staged evidence is the owner's
    latest outcome, not invalidated and before its deadline, its closing stop
    clean and still the last, no fault latched and no emergency stop, and every
    binding intact: owner, realm, device identifier and coordinate epoch,
    installed model and policy, drives disabled, position within tolerance.
    That stage was itself accepted by an earlier call, from the readback drained
    there. *)
Theorem permission_only_by_commit (P : S -> Prop) (s s' : S) (c : reference_call) (j : string) :
  work_ok display to_value value_len P (rwork s) -> reaches s s' ->
  Authority.contains j (authority s') = false -> Authority.contains j (authority (reference_step c s')) = true ->
  grants (fun x => P x \/ met s x) c j s'.
Proof.
  intros Hok Hr Hn Hy. set (Q := fun x => P x \/ met s x).
  assert (HQ : work_ok display to_value value_len Q (rwork s')).
  { eapply reaches_ok; [|eapply work_ok_mono; [|exact Hok]|exact Hr]; unfold Q; auto. }
  destruct (reference_step_kept Q c s') as [_ Hg]; [right; by exists s', c|exact HQ|].
  destruct (Hg j Hy) as [?|?]; [congruence|assumption].
Qed.

End Grant.

(** ** The bench joint from request to permission *)

Abbreviation bench_step c s :=
  (reference_step no_text no_text no_text no_text no_text bench_value bench_len bench_encode c s).

(** One call of [advance_reference_work] per batch of received frames. *)
Definition rehearse (fs : list (list CanFrame)) (s : BenchSup) : BenchSup :=
  fold_left (fun s f => bench_step RAdvanceWork (feed f s)) fs s.

Definition identity_frame : CanFrame := mkCanFrame (11 * 256 + 254) Activation.rest_uid true.
Definition ack_frame : CanFrame :=
  mkCanFrame (Comm.pack_typed_ext_id Comm.OperationStatus (Wire.status_extra Comm.Run 0 11) Comm.DEFAULT_HOST_ID)
    [128; 0; 128; 0; 128; 0; 1; 0] true.
Definition readback_frame : CanFrame :=
  ext_frame (Params.reply_to_write Comm.DEFAULT_HOST_ID 11 Params.MechPos (Params.VF32 fzero)).

(** Requested, stopped, drained, identified, armed, zeroed, acknowledged, read
    back, and handed to the journal. *)
Definition bench_requested : BenchSup :=
  bench_step (RRequest Authority.pitch true (mkAudit "operator" "session")) bench_owner.
Definition bench_submitted : BenchSup :=
  rehearse [[]; []; []; [identity_frame]; []; []; []; [ack_frame]; []; [readback_frame]; []] bench_requested.

(** The worker appends the oldest job. *)
Definition worker_appends (jr : State Input) : State Input :=
  match queued jr with
  | x :: rest => complete (identity x) (DurableHistory 1 1 []) (worker_pop x rest jr)
  | [] => jr
  end.

Definition appended (s : BenchSup) : BenchSup :=
  let c := w_commits (rwork s) in
  set_rwork (set_commits (with_queues (worker_appends <$> c_journal c) (c_pending c) (c_outcomes c) c) (rwork s)) s.

(** The states the rehearsal calls in. *)
Definition rehearsed (x : BenchSup) : Prop :=
  x = bench_owner
  \/ exists fs f, x = turned bench_value bench_len bench_encode RAdvanceWork (feed f (rehearse fs bench_requested)).

Lemma rehearse_ok (fs : list (list CanFrame)) : bench_ok rehearsed (rwork (rehearse fs bench_requested)).
Proof.
  induction fs as [|f fs IH] using rev_ind.
  - apply reference_step_kept; [by left|apply bench_work_ok].
  - unfold rehearse. rewrite fold_left_app. apply reference_step_kept; [right; by exists fs, f|exact IH].
Qed.

Lemma bench_submitted_ok : bench_ok rehearsed (rwork (appended bench_submitted)).
Proof. apply commits_ok, rehearse_ok. Qed.

(** Without the journal's answer the same call grants nothing. *)
Example unanswered_grants_nothing :
  Authority.contains Authority.pitch (authority (bench_step RAdvanceWork (feed [] bench_submitted))) = false.
Proof. vm_compute. reflexivity. Qed.

Abbreviation bench_met := (met no_text no_text no_text no_text no_text bench_value bench_len bench_encode).

Lemma permission_only_by_commit_witness :
  Authority.contains Authority.pitch (authority (bench_step RAdvanceWork (appended bench_submitted))) = true
  /\ grants no_text bench_value bench_len bench_encode
       (fun x => rehearsed x \/ bench_met (appended bench_submitted) x)
       RAdvanceWork Authority.pitch (appended bench_submitted).
Proof.
  assert (Hn : Authority.contains Authority.pitch (authority (appended bench_submitted)) = false)
    by (vm_compute; reflexivity).
  assert (Hy : Authority.contains Authority.pitch (authority (bench_step RAdvanceWork (appended bench_submitted))) = true)
    by (vm_compute; reflexivity).
  split; [exact Hy|].
  exact (permission_only_by_commit no_text no_text no_text no_text no_text bench_value bench_len bench_encode
    rehearsed (appended bench_submitted) (appended bench_submitted) RAdvanceWork Authority.pitch bench_submitted_ok
    (reaches_start _ _ _ _ _ _ _ _ _) Hn Hy).
Defined.

End Grant.
