(* ===== verification/PosHold.v ===== *)
(** * PosHold: the position-hold controller

    [src/crates/berthier/src/] [position_hold.rs] (targets, planners, latches,
    fuses, arming and retargeting; [HoldTick] has the tick) and [position_wave.rs] (the cosine wave that
    can own one joint), with the event tags of [position_profile.rs].

    The vectors of [PositionHold] are lists; indexing past the end panics where
    the code indexes and does nothing where it uses [get_mut].  [exp], [tanh], [cos] and [sin] are
    arguments, as in [Position]; durations are nanoseconds.  Log lines and the
    buffer reused for slowed parameters are left out. *)

From Stdlib Require Import ZArith Lia Bool SpecFloat.
From stdpp Require Import base strings list.
From S2P Require Import Prelude Float Config Limits TotalTorque Davout Session Position Friction Setpoint.

Module PosHold.
Import Limits Position Friction Setpoint.

(** ** Vectors *)

Definition vec_get {E A : Type} (l : list A) (i : nat) : result E A :=
  match l !! i with Some x => Ok x | None => Panic end.

Definition vec_set {E A : Type} (i : nat) (x : A) (l : list A) : result E (list A) :=
  match l !! i with Some _ => Ok (<[i := x]> l) | None => Panic end.

(** [slice.fill(x)]. *)
Definition fill {A : Type} (x : A) (l : list A) : list A := map (fun _ => x) l.

(** [slot.as_ref().and_then(|v| v.get(i).copied())]. *)
Definition get_at {A : Type} (slot : option (list A)) (i : nat) : option A :=
  match slot with Some v => v !! i | None => None end.

(** [if let Some(v) = slot.as_mut() { if let Some(cell) = v.get_mut(i) { *cell = x } }]. *)
Definition put_at {A : Type} (i : nat) (x : A) (slot : option (list A)) : option (list A) :=
  match slot with Some v => Some (<[i := x]> v) | None => None end.

(** [if slot.is_none() { *slot = Some(vec![x; n]) }]. *)
Definition ensure_vec {A : Type} (n : nat) (x : A) (slot : option (list A)) : option (list A) :=
  match slot with Some v => Some v | None => Some (replicate n x) end.

Definition fill_opt {A : Type} (x : A) (slot : option (list A)) : option (list A) :=
  match slot with Some v => Some (fill x v) | None => None end.

Definition bool_at (slot : option (list bool)) (i : nat) : bool := default false (get_at slot i).
Definition set_bool_at (i : nat) (x : bool) (slot : option (list bool)) : option (list bool) := put_at i x slot.

(** ** [position_wave.rs] *)

Definition TAU : f64 := lit64 6283185307179586 1000000000000000.

Record PositionWave : Type := mkWave {
  joint_index : nat; min_rad : f64; max_rad : f64; start_tick : Z; half_period_ticks : Z; cycles : Z; finished : bool
}.

Definition wave_new (j : nat) (lo hi : f64) (start half cyc : Z) : PositionWave :=
  mkWave j lo hi start (Z.max half 1) cyc false.

Definition sat_sub_u64 (a b : Z) : Z := Z.max (a - b) 0.
Definition sat_mul_u64 (a b : Z) : Z := Z.min (a * b) U64_MAX.

Definition full_period (w : PositionWave) : Z := sat_mul_u64 (half_period_ticks w) 2.
Definition total_ticks (w : PositionWave) : Z := sat_mul_u64 (full_period w) (cycles w).

Section WaveMath.
Variables cos sin : f64 -> f64.

Definition target_and_velocity_at_tick (tick loop_hz : Z) (w : PositionWave) : option (f64 * f64) * PositionWave :=
  let full := full_period w in
  let elapsed := sat_sub_u64 tick (start_tick w) in
  if total_ticks w <=? elapsed then
    (None, mkWave (joint_index w) (min_rad w) (max_rad w) (start_tick w) (half_period_ticks w) (cycles w) true)
  else
    let phase := div64 (f64_of_Z (elapsed mod full)) (f64_of_Z full) in
    let mid := mul64 (lit64 5 10) (add64 (min_rad w) (max_rad w)) in
    let amp := mul64 (lit64 5 10) (sub64 (max_rad w) (min_rad w)) in
    let angle := mul64 TAU phase in
    let target := sub64 mid (mul64 amp (cos angle)) in
    let period_sec := div64 (f64_of_Z full) (f64_of_Z (Z.max loop_hz 1)) in
    let omega := div64 TAU (fmax period_sec (lit64 1 1000000000)) in
    let velocity := mul64 (mul64 amp omega) (sin angle) in
    (Some (target, velocity), w).

End WaveMath.

Definition end_position_rad (w : PositionWave) : f64 := min_rad w.
Definition is_finished (w : PositionWave) : bool := finished w.

Definition duration_sec (loop_hz : Z) (w : PositionWave) : f64 :=
  div64 (f64_of_Z (total_ticks w)) (f64_of_Z (Z.max loop_hz 1)).

(** ** Fuses *)

Definition POSITION_ASCENT_STALL_FAULT_MS : Z := 2000.
Definition POSITION_HOLD_TRACKING_BAND_RAD : f64 := POSITION_RETURN_RESYNC_RAD.
Definition MAX_INTEGRAL_NM : f64 := lit64 5 10.
Definition EPSILON64 : f64 := lit64 1 4503599627370496.

Definition duration_saturating_add (a b : Z) : Z := Z.min (a + b) Session.DURATION_MAX.

(** [u64::try_from(d.as_millis()).unwrap_or(u64::MAX)]. *)
Definition as_millis_u64 (d : Z) : Z := Z.min (d / 1000000) U64_MAX.

Record ProgressBudget : Type := mkBudget { credited : f64; stalled : Z }.

Definition budget_stalled_ms (slot : option ProgressBudget) : Z :=
  match slot with None => 0 | Some b => as_millis_u64 (stalled b) end.

Definition progress_floor (measure credit progress_threshold : f64) : f64 :=
  if feq progress_threshold fzero
  then mul64 (mul64 (f64_of_Z 8) EPSILON64) (fmax (fmax (fabs measure) (fabs credit)) fone)
  else progress_threshold.

Definition renews (measure credit progress_threshold : f64) : bool :=
  fgt (sub64 measure credit) (progress_floor measure credit progress_threshold).

Definition observe (slot : option ProgressBudget) (measure progress_threshold : f64) (period : Z) : ProgressBudget :=
  match slot with
  | Some b =>
      if renews measure (credited b) progress_threshold then mkBudget measure 0
      else mkBudget (credited b) (duration_saturating_add (stalled b) period)
  | None => mkBudget measure period
  end.

Record AscentRecovery : Type := mkRecovery {
  planner_active : bool; direction : f64; side : StallSide; progress : option ProgressBudget
}.

Definition recovery_default : AscentRecovery := mkRecovery false fzero Outbound None.

Definition recovery_stalled_ms (r : AscentRecovery) : Z := budget_stalled_ms (progress r).

(** [AscentRecovery::update]; the stalled time it returns is [recovery_stalled_ms]. *)
Definition recovery_update (active : bool) (travel : option (f64 * StallSide)) (q progress_threshold : f64)
  (period : Z) (r : AscentRecovery) : AscentRecovery :=
  match travel with
  | None => mkRecovery active fzero (side r) None
  | Some (dir, sd) =>
      let slot := if fne (direction r) dir then None else progress r in
      let dir' := if fne (direction r) dir then dir else direction r in
      mkRecovery active dir' sd (Some (observe slot (mul64 dir q) progress_threshold period))
  end.

Definition POSITION_WAVE_STALL_MIN_COMMANDED_SPEED_RAD_S : f64 := lit64 5 100.
Definition POSITION_WAVE_STALL_PROGRESS_RAD : f64 := lit64 2 100.

Record WaveMotionWatch : Type := mkWatch { anchor : option f64; w_stalled : Z }.
Definition watch_default : WaveMotionWatch := mkWatch None 0.

Definition watch_stalled_ms (w : WaveMotionWatch) : Z := as_millis_u64 (w_stalled w).

Definition watch_update (q commanded_speed progress_threshold : f64) (period : Z) (w : WaveMotionWatch)
  : WaveMotionWatch :=
  let a := default q (anchor w) in
  let renew := fmax POSITION_WAVE_STALL_PROGRESS_RAD progress_threshold in
  if fgt (fabs (sub64 q a)) renew then mkWatch (Some q) 0
  else if fge (fabs commanded_speed) POSITION_WAVE_STALL_MIN_COMMANDED_SPEED_RAD_S
  then mkWatch (Some a) (duration_saturating_add (w_stalled w) period)
  else mkWatch (Some a) (w_stalled w).

Record HoldTracking : Type := mkTracking { t_progress : option ProgressBudget }.
Definition tracking_default : HoldTracking := mkTracking None.

Definition tracking_stalled_ms (t : HoldTracking) : Z := budget_stalled_ms (t_progress t).

(** [HoldTracking::update]; the stalled time it returns is [tracking_stalled_ms]. *)
Definition tracking_update (armed : bool) (q target progress_threshold : f64) (period : Z) (t : HoldTracking)
  : HoldTracking :=
  if negb armed then mkTracking None
  else mkTracking (Some (observe (t_progress t) (fneg (fabs (sub64 q target))) progress_threshold period)).

Definition hold_tracking_opposed (q target net_commanded_torque : f64) : bool :=
  let to_target := sub64 target q in
  fgt (fabs to_target) POSITION_HOLD_TRACKING_BAND_RAD && flt (mul64 net_commanded_torque to_target) fzero.

Record HoldFuseTrip : Type := mkTrip { t_q : f64; t_target : f64; t_tau_p : f64; t_tau_ff : f64; t_tau_g : f64 }.

Inductive HoldError : Type :=
| AscentStall (joint : string) (ms : Z) (trip : HoldFuseTrip)
| ReturnStall (joint : string) (ms : Z) (trip : HoldFuseTrip)
| EHoldTracking (joint : string) (ms : Z) (trip : HoldFuseTrip)
| WaveStall (joint : string) (ms : Z) (trip : HoldFuseTrip)
| MissingSetpoint (joint : string)
| LenMismatch
| InvalidPeriod (seconds : f64).

(** ** Joint parameters *)

Inductive HoldLaw : Type := LegacyLaw | ScaledPdLaw (gains : ScaledPdGains).

Definition law_kind (l : HoldLaw) : Config.PositionLaw :=
  match l with LegacyLaw => Config.Legacy | ScaledPdLaw _ => Config.ScaledPd end.

Record DescentCap : Type := mkCap { above_rad : f64; cap_velocity_rad_s : f64 }.

Definition from_zones (zones : list Config.DangerZoneRule) (joint : string) : option DescentCap :=
  fold_left (fun acc z =>
      Some match acc with
           | None => mkCap (Config.position_above_rad z) (Config.max_velocity_rad_s z)
           | Some c => mkCap (fmin (above_rad c) (Config.position_above_rad z))
                             (fmin (cap_velocity_rad_s c) (Config.max_velocity_rad_s z))
           end)
    (base.filter (fun z => Config.dz_joint z = joint /\ Config.action z = "clamp_velocity"%string) zones) None.

Definition cap_limit (v_max q_ref q target : f64) (c : DescentCap) : f64 :=
  if flt target q_ref && fgt (fmax q_ref q) (above_rad c) then fmin v_max (cap_velocity_rad_s c) else v_max.

Definition wave_descent_speed (lo hi peak : f64) (c : DescentCap) : calc f64 :=
  if fle hi (above_rad c) then Ok fzero
  else
    let center := mul64 (lit64 5 10) (add64 lo hi) in
    let amplitude := mul64 (lit64 5 10) (sub64 hi lo) in
    let! u := fclamp (div64 (sub64 (fmax (above_rad c) center) center) amplitude) fzero fone in
    Ok (mul64 peak (sqrt64 (sub64 fone (mul64 u u)))).

Record HoldJointParams : Type := mkParams {
  p_kp : f64; p_kd : f64; p_ki : f64; max_lead : f64; vel_deadband : f64;
  advance_max_lead : f64; advance_vel_deadband : f64; slew_rad_s : f64; trajectory_v_max : f64;
  trajectory_threshold_rad : f64; a_max : f64; velocity_cap : option f64;
  p_friction : option Config.FrictionGains; limit_policy : option JointLimitPolicy; tau_meas : f64;
  law : HoldLaw; descent_cap : option DescentCap
}.

Definition at_speed_fraction (speed : SpeedFraction) (p : HoldJointParams) : HoldJointParams :=
  let f := speed_get speed in
  mkParams (p_kp p) (p_kd p) (p_ki p) (max_lead p) (vel_deadband p) (advance_max_lead p)
    (advance_vel_deadband p) (mul64 (slew_rad_s p) f) (mul64 (trajectory_v_max p) f)
    (trajectory_threshold_rad p) (a_max p) (option_map (fun cap => mul64 cap f) (velocity_cap p))
    (p_friction p) (limit_policy p) (tau_meas p) (law p) (descent_cap p).

Record HoldRetarget : Type := mkRetarget {
  r_joint_idx : nat; r_clamped : f64; r_requested : f64; r_q : f64; r_tick : Z;
  r_dq_seed : option f64; r_downward_seed : option f64; r_speed : SpeedFraction
}.

(** The wave slot, which a tick may clear, is returned with the state. *)
Record HoldWorld : Type := mkWorld {
  w_q : list f64; w_dq_meas : list f64; w_tau_g : list f64; w_joints : list HoldJointParams;
  w_joint_names : list string; w_dt : f64; w_hz : Z; w_tick_count : Z;
  w_reshaped : list bool; w_ff_last_sent : list (option f64); w_wave : option PositionWave
}.

(** ** [PlannerEvent] and the diagnostics *)

Inductive PlannerEvent : Type :=
| EvTick | EvReset | EvLatch | EvFreezeEnter | EvFreezeExit | EvResyncStuckLead | EvEnvelopeClamp | EvAscentBreakaway.

#[export] Instance PlannerEvent_eq_dec : EqDecision PlannerEvent.
Proof. solve_decision. Defined.

Definition friction_mode_str (m : PositionFrictionMode) : string :=
  match m with TrajectoryVelocity => "traj_vel" | SettleFade => "settle" end.

Record HoldJointDiag : Type := mkDiag {
  d_move_dist : f64; d_v_max_eff : f64; d_planner_event : PlannerEvent; d_q : f64; d_dq_raw : f64;
  d_dq_filt : f64; d_q_traj : f64; d_dq_traj : f64; d_q_des : f64; d_target : f64; d_target_raw : f64;
  d_lead : f64; d_lead_sat : bool; d_settle_error : f64; d_settling : bool;
  d_friction_mode : string; d_retarget_age_ms : Z; d_joint_stuck : bool;
  d_planner_frozen : bool; d_phase : string; d_kp : f64; d_kd : f64; d_tau_g : f64; d_tau_f : f64;
  d_tau_d : f64; d_tau_ff_cmd : f64; d_tau_meas : f64; d_tau_p : f64; d_mit_velocity : f64; d_mit_kd : f64;
  d_q_env_lo : f64; d_q_env_hi : f64; d_retarget_tick : option Z; d_ascent_stall_ms : Z;
  d_hold_tracking_ms : Z; d_law : Config.PositionLaw; d_q_ref : f64; d_dq_ref : f64; d_time_scale : f64; d_tau_i : f64
}.

Record HoldTickOut : Type := mkOut { mit : list MitJointCommand; diag : list HoldJointDiag }.

(** ** State *)

(** What was asked for: the latched targets, the requests behind them, the speed
    fraction of each move and the law each joint runs. *)
Record Goals : Type := mkGoals {
  setpoints : option (list f64); setpoints_raw : option (list f64);
  speeds : list SpeedFraction; laws : list Config.PositionLaw
}.

(** How the reference moves there. *)
Record Plans : Type := mkPlans {
  planners : option (list JointPositionPlanner); retarget_tick : option (list Z);
  dq_filtered : option (list f64); scaled : list ScaledPdState;
  planner_events : option (list PlannerEvent); tick_effective_max_lead : list f64; tick_stuck_residual : list bool
}.

(** Recovery and breakaway latches, and the legacy integral. *)
Record Latches : Type := mkLatches {
  planner_frozen : option (list bool); ascent_recovery : option (list AscentRecovery);
  descent_breakaway : option (list bool); descent_was_stuck : option (list bool);
  integral_error : option (list f64)
}.

(** The remaining fuses, the installed feedback grid and the joints they watch. *)
Record Fuses : Type := mkFuses {
  hold_tracking : list HoldTracking; wave_motion : list WaveMotionWatch;
  progress_thresholds : list f64; commanded_joints : list bool
}.

Record PositionHold : Type := mkHold {
  n_joints : nat; goals : Goals; plans : Plans; latches : Latches; fuses : Fuses
}.

Definition hold_new (n : nat) : PositionHold :=
  mkHold n
    (mkGoals None None (replicate n FULL) (replicate n Config.Legacy))
    (mkPlans None None None (replicate n pd_state_default) None (replicate n fzero) (replicate n false))
    (mkLatches None None None None None)
    (mkFuses (replicate n tracking_default) (replicate n watch_default) (replicate n fzero) (replicate n true)).

Definition set_goals (g : Goals) (h : PositionHold) : PositionHold := mkHold (n_joints h) g (plans h) (latches h) (fuses h).
Definition set_plans (p : Plans) (h : PositionHold) : PositionHold := mkHold (n_joints h) (goals h) p (latches h) (fuses h).
Definition set_latches (l : Latches) (h : PositionHold) : PositionHold := mkHold (n_joints h) (goals h) (plans h) l (fuses h).
Definition set_fuses (f : Fuses) (h : PositionHold) : PositionHold := mkHold (n_joints h) (goals h) (plans h) (latches h) f.

Definition set_planners (ps : option (list JointPositionPlanner)) (p : Plans) : Plans :=
  mkPlans ps (retarget_tick p) (dq_filtered p) (scaled p) (planner_events p) (tick_effective_max_lead p) (tick_stuck_residual p).
Definition set_dq_filtered (d : option (list f64)) (p : Plans) : Plans :=
  mkPlans (planners p) (retarget_tick p) d (scaled p) (planner_events p) (tick_effective_max_lead p) (tick_stuck_residual p).
Definition set_scaled (s : list ScaledPdState) (p : Plans) : Plans :=
  mkPlans (planners p) (retarget_tick p) (dq_filtered p) s (planner_events p) (tick_effective_max_lead p) (tick_stuck_residual p).

Definition with_progress_thresholds (thresholds : list f64) : PositionHold :=
  let h := hold_new (length thresholds) in
  set_fuses (mkFuses (hold_tracking (fuses h)) (wave_motion (fuses h)) thresholds (commanded_joints (fuses h))) h.

Definition set_commanded_joint (joint : nat) (commanded : bool) (h : PositionHold) : PositionHold :=
  let f := fuses h in
  set_fuses (mkFuses (hold_tracking f) (wave_motion f) (progress_thresholds f) (<[joint := commanded]> (commanded_joints f))) h.

(** [self.scaled[joint]] panics when there is no such state. *)
Definition set_joint_law (joint : nat) (l : Config.PositionLaw) (h : PositionHold) : calc PositionHold :=
  let g := goals h in
  match laws g !! joint with
  | None => Ok h
  | Some old =>
      if bool_decide (old = l) then Ok h
      else
        let! sc := vec_set joint pd_state_default (scaled (plans h)) in
        Ok (set_plans (set_scaled sc (plans h))
             (set_goals (mkGoals (setpoints g) (setpoints_raw g) (speeds g) (<[joint := l]> (laws g))) h))
  end.

Definition is_armed (h : PositionHold) : bool := bool_decide (is_Some (setpoints (goals h))).
Definition targets (h : PositionHold) : option (list f64) := setpoints (goals h).
Definition speed_fraction (joint_idx : nat) (h : PositionHold) : SpeedFraction :=
  default FULL (speeds (goals h) !! joint_idx).
Definition q_trajs (h : PositionHold) : option (list f64) := option_map (map q_traj) (planners (plans h)).

Definition home_classified (joint_idx : nat) (target : f64) (h : PositionHold) : f64 :=
  let threshold := default fzero (progress_thresholds (fuses h) !! joint_idx) in
  if fle (fabs target) (home_target_tolerance threshold) then fzero else target.

(** ** Arming and clearing *)

Definition init_latch_state (h : PositionHold) : PositionHold :=
  let n := n_joints h in let l := latches h in
  set_latches (mkLatches (ensure_vec n false (planner_frozen l)) (ensure_vec n recovery_default (ascent_recovery l))
      (ensure_vec n false (descent_breakaway l)) (ensure_vec n false (descent_was_stuck l))
      (ensure_vec n fzero (integral_error l))) h.

Definition init_planner_at (q targets : list f64) (i : nat) : JointPositionPlanner :=
  let qi := default fzero (q !! i) in
  new_for_target qi (default qi (targets !! i)).

Definition init_planners (q : list f64) (tick : Z) (h : PositionHold) : PositionHold :=
  let n := n_joints h in
  let targets := default q (setpoints (goals h)) in
  let p := plans h in
  let h := init_latch_state
             (set_plans (mkPlans (Some (map (init_planner_at q targets) (seq 0 n))) (Some (replicate n tick))
                (Some (replicate n fzero)) (scaled p) (planner_events p) (tick_effective_max_lead p)
                (tick_stuck_residual p)) h) in
  let l := latches h in let f := fuses h in
  set_plans (set_scaled (fill pd_state_default (scaled (plans h))) (plans h))
    (set_fuses (mkFuses (fill tracking_default (hold_tracking f)) (fill watch_default (wave_motion f))
       (progress_thresholds f) (commanded_joints f))
    (set_latches (mkLatches (fill_opt false (planner_frozen l)) (fill_opt recovery_default (ascent_recovery l))
       (fill_opt false (descent_breakaway l)) (fill_opt false (descent_was_stuck l)) (integral_error l)) h)).

Definition arm (q targets : list f64) (tick : Z) (h : PositionHold) : PositionHold :=
  let raw := resize (n_joints h) fzero targets in
  let sp := imap (fun i target => home_classified i target h) raw in
  let g := goals h in
  init_planners q tick (set_goals (mkGoals (Some sp) (Some raw) (fill FULL (speeds g)) (laws g)) h).

Definition clear (h : PositionHold) : PositionHold :=
  let h' := with_progress_thresholds (progress_thresholds (fuses h)) in
  let g := goals h' in
  set_goals (mkGoals (setpoints g) (setpoints_raw g) (speeds g) (laws (goals h))) h'.

(** ** Retargeting *)

Definition seed_dq_filter (joint_idx : nat) (dq : f64) (h : PositionHold) : calc PositionHold :=
  if (n_joints h <=? joint_idx)%nat then Ok h
  else
    let p := plans h in
    let! d := vec_set joint_idx dq (default (replicate (n_joints h) fzero) (dq_filtered p)) in
    Ok (set_plans (set_dq_filtered (Some d) p) h).

(** Vectors present: the indexed write panics when too short. *)
Definition set_opt {A : Type} (i : nat) (x : A) (slot : option (list A)) : calc (option (list A)) :=
  match slot with
  | None => Ok None
  | Some v => let! v := vec_set i x v in Ok (Some v)
  end.

Definition end_recovery (joint_idx : nat) (slot : option (list AscentRecovery)) : calc (option (list AscentRecovery)) :=
  match slot with
  | None => Ok None
  | Some v =>
      let! r := vec_get v joint_idx in
      Ok (Some (<[joint_idx := mkRecovery false (direction r) (side r) (progress r)]> v))
  end.

Definition mark_retarget (joint_idx : nat) (tick : Z) (h : PositionHold) : calc PositionHold :=
  let h := init_latch_state h in
  let p := plans h in let l := latches h in
  let! rt := vec_set joint_idx tick (default (replicate (n_joints h) 0) (retarget_tick p)) in
  let! recovery := end_recovery joint_idx (ascent_recovery l) in
  let! integral := set_opt joint_idx fzero (integral_error l) in
  Ok (set_latches (mkLatches (set_bool_at joint_idx false (planner_frozen l)) recovery
         (set_bool_at joint_idx false (descent_breakaway l)) (set_bool_at joint_idx false (descent_was_stuck l)) integral)
       (set_plans (mkPlans (planners p) (Some rt) (dq_filtered p) (scaled p) (planner_events p)
          (tick_effective_max_lead p) (tick_stuck_residual p)) h)).

Definition RETARGET_EPSILON : f64 := lit64 1 1000000.

Definition set_clamped_target (joint_idx : nat) (target : f64) (tick : Z) (h : PositionHold)
  : calc (bool * PositionHold) :=
  let g := goals h in
  let old := get_at (setpoints g) joint_idx in
  let! sp := set_opt joint_idx target (setpoints g) in
  let h := set_goals (mkGoals sp (setpoints_raw g) (speeds g) (laws g)) h in
  let changed := match old with Some o => fgt (fabs (sub64 o target)) RETARGET_EPSILON | None => true end in
  if changed then let! h := mark_retarget joint_idx tick h in Ok (true, h) else Ok (false, h).

Definition sync_retarget_planner (joint_idx : nat) (q target : f64) (downward_seed : option f64) (h : PositionHold)
  : PositionHold :=
  match get_at (planners (plans h)) joint_idx with
  | None => h
  | Some p =>
      let p := reset_target q target p in
      let p := match downward_seed with
               | Some seed => seed_downward_return_if_needed q target POSITION_RETURN_DESCENT_SEED_RAD seed p
               | None => p
               end in
      set_plans (set_planners (put_at joint_idx p (planners (plans h))) (plans h)) h
  end.

Definition retarget_refused (cmd : HoldRetarget) (h : PositionHold) : bool :=
  (n_joints h <=? r_joint_idx cmd)%nat || negb (is_finite (r_clamped cmd))
  || negb (is_finite (r_requested cmd)) || negb (is_finite (r_q cmd)).

(** What a changed target does beyond latching it. *)
Definition follow_retarget (cmd : HoldRetarget) (clamped : f64) (h : PositionHold) : calc PositionHold :=
  let i := r_joint_idx cmd in
  let g := goals h in
  let! sp := vec_set i (r_speed cmd) (speeds g) in
  let h := set_goals (mkGoals (setpoints g) (setpoints_raw g) sp (laws g)) h in
  let! l := vec_get (laws g) i in
  let h := if bool_decide (l = Config.Legacy) then sync_retarget_planner i (r_q cmd) clamped (r_downward_seed cmd) h
           else h in
  match r_dq_seed cmd with Some dq => seed_dq_filter i dq h | None => Ok h end.

Definition apply_retarget (cmd : HoldRetarget) (h : PositionHold) : calc (bool * PositionHold) :=
  if retarget_refused cmd h then Ok (false, h)
  else
    let i := r_joint_idx cmd in
    let n := n_joints h in
    let clamped := home_classified i (r_clamped cmd) h in
    let was_unarmed := negb (is_armed h) in
    let h := if was_unarmed
             then arm (replicate n (r_q cmd)) (<[i := clamped]> (replicate n (r_q cmd))) (r_tick cmd) h else h in
    let g := goals h in
    let! raw := vec_set i (r_requested cmd) (default (replicate n fzero) (setpoints_raw g)) in
    let h := set_goals (mkGoals (setpoints g) (Some raw) (speeds g) (laws g)) h in
    let! (changed, h) := set_clamped_target i clamped (r_tick cmd) h in
    if was_unarmed || changed then let! h := follow_retarget cmd clamped h in Ok (true, h)
    else Ok (false, h).

End PosHold.
