(* ===== verification/HoldTick.v ===== *)
(** * HoldTick: one tick of the position hold

    [PositionHold::tick] of [src/crates/berthier/src/position_hold.rs]: the planner
    pass ([advance], with the wave, scaled-PD and legacy branches), the composition
    of the MIT commands with the fuses, and the tick around them.

    A pass works joint by joint: it loads the joint's entries of the vectors, runs
    the branch of the joint's law and stores the entries back.  An error carries
    the state the tick leaves behind. *)

From Stdlib Require Import ZArith Lia Bool SpecFloat.
From stdpp Require Import base strings list.
From S2P Require Import Prelude Float Config Limits TotalTorque Session Position Friction Setpoint PosHold.

Module HoldTick.
Import Limits Position Friction Setpoint PosHold.

(** ** Advancing the planners *)

(** [Ok] or a panic, under any error type. *)
Definition lift {E A : Type} (r : calc A) : result E A :=
  match r with Ok a => Ok a | Err e => match e with end | Panic => Panic end.

Definition retarget_age_ms (joint_idx : nat) (tick_count hz : Z) (h : PositionHold) : Z :=
  match retarget_tick (plans h) with
  | None => U64_MAX
  | Some ticks =>
      sat_mul_u64 (sat_sub_u64 tick_count (default 0 (ticks !! joint_idx))) 1000 / Z.max hz 1
  end.

Definition filtered_dq (joint_idx : nat) (dq_raw : f64) (h : PositionHold) : calc (f64 * PositionHold) :=
  match dq_filtered (plans h) with
  | None => Ok (dq_raw, set_plans (set_dq_filtered (Some (replicate (n_joints h) dq_raw)) (plans h)) h)
  | Some filtered =>
      let! prev := vec_get filtered joint_idx in
      let next := filter_dq_ema prev dq_raw POSITION_DAMPING_DQ_FILTER_ALPHA in
      Ok (next, set_plans (set_dq_filtered (Some (<[joint_idx := next]> filtered)) (plans h)) h)
  end.

Definition clamp_v_max (cap : option f64) (v_requested : f64) : f64 :=
  match cap with None => v_requested | Some c => fmin v_requested c end.

Definition cruise_v_max (jp : HoldJointParams) (move_dist planner_speed : f64) : f64 :=
  clamp_v_max (velocity_cap jp)
    (position_hold_v_max move_dist (slew_rad_s jp) (trajectory_v_max jp) (trajectory_threshold_rad jp) planner_speed).

Definition scaled_v_max (jp : HoldJointParams) (p : JointPositionPlanner) (target : f64) : f64 :=
  cruise_v_max jp (fabs (sub64 target (q_traj p))) (fabs (dq_traj p)).

Definition reset_planner_with_downward_seed (q target slew v_max : f64) (p : JointPositionPlanner)
  : JointPositionPlanner :=
  seed_downward_return_if_needed q target POSITION_RETURN_DESCENT_SEED_RAD
    (downward_return_seed_velocity slew v_max q target) (reset_target q target p).

(** What the planner pass reads for one joint, *)
Record AdvanceIn : Type := mkAdvanceIn {
  a_params : HoldJointParams; a_q : f64; a_target : f64; a_dq : f64; a_v_max : f64; a_age : Z;
  a_commanded : bool; a_threshold : f64; a_speed : SpeedFraction; a_dt : f64; a_period : Z
}.

(** and what it writes. *)
Record Motion : Type := mkMotion {
  m_planner : JointPositionPlanner; m_frozen : bool; m_recovery : AscentRecovery; m_wave : WaveMotionWatch;
  m_scaled : ScaledPdState; m_event : PlannerEvent; m_lead : f64; m_residual : bool
}.

(** The lead the composition will use, from the planner after this pass. *)
Definition tick_lead (a : AdvanceIn) (p : JointPositionPlanner) : f64 :=
  let settle := sub64 (a_target a) (a_q a) in
  let approaching := fgt (mul64 (dq_traj p) settle) POSITION_HOLD_ERROR_DEADBAND_RAD in
  position_hold_effective_max_lead (max_lead (a_params a)) (a_age a) approaching settle (a_q a).

Definition watched_travel (a : AdvanceIn) : option (f64 * StallSide) :=
  if a_commanded a then travel_stall_direction (a_target a) (sub64 (a_target a) (a_q a)) else None.

(** A joint the wave owns. *)
Definition advance_wave (a : AdvanceIn) (dq_raw : f64) (m : Motion) : calc Motion :=
  let jp := a_params a in
  let cap := clamp_v_max (velocity_cap jp) (trajectory_v_max jp) in
  let! dq := fclamp dq_raw (fneg cap) cap in
  let p := resume_cruise_toward (a_target a) dq (m_planner m) in
  let watch := if a_commanded a then watch_update (a_q a) dq_raw (a_threshold a) (a_period a) (m_wave m)
               else watch_default in
  let s := m_scaled m in
  Ok (mkMotion p false recovery_default watch
        (mkPdState fone (dq_traj p) (tau_i s) (v_prev s) (tau_dyn s) (v_hat s) (ff_prev s) (reshaped_local s))
        EvTick (tick_lead a p) (m_residual m)).

(** A joint under the scaled-PD law. *)
Definition advance_scaled (a : AdvanceIn) (gains : ScaledPdGains) (m : Motion) : calc Motion :=
  let jp := a_params a in
  let recovery := recovery_update false (watched_travel a) (a_q a) (a_threshold a) (a_period a) (m_recovery m) in
  let p := m_planner m in
  let v_max := scaled_v_max jp p (a_target a) in
  let v_max := match descent_cap jp with
               | Some cap => cap_limit v_max (q_traj p) (a_q a) (a_target a) cap
               | None => v_max
               end in
  let! v_tick := match limit_policy jp with
                 | Some policy => approach_velocity_cap policy (a_q a) (dq_traj p) v_max
                 | None => Ok v_max
                 end in
  let! (out, s) := advance_reference (m_scaled m) gains (q_traj p) (dq_traj p) (a_q a) (a_target a) v_tick
                     (a_max jp) (a_dt a) in
  let '(q_ref, v_ref, ph) := out in
  Ok (mkMotion (set_reference q_ref v_ref ph p) false recovery watch_default s EvTick (e1 gains) (m_residual m)).

(** Resync, reopen, lead-follow or reset before the step. *)
Definition realign (a : AdvanceIn) (p : JointPositionPlanner) : JointPositionPlanner * PlannerEvent :=
  let jp := a_params a in
  let q := a_q a in let target := a_target a in let dq_f := a_dq a in let v_max := a_v_max a in
  let settle := sub64 target q in
  let approaching := fgt (mul64 (dq_traj p) settle) POSITION_HOLD_ERROR_DEADBAND_RAD in
  let lead := position_hold_effective_max_lead (advance_max_lead jp) (a_age a) approaching settle q in
  if planner_should_resync_stuck_lead p q target dq_f lead (advance_vel_deadband jp) then
    (reset_planner_with_downward_seed q target (slew_rad_s jp) v_max p, EvResyncStuckLead)
  else if planner_should_reopen_premature_hold p q target dq_f (advance_vel_deadband jp) then
    (reopen_planner_from_premature_hold q target v_max p, EvReset)
  else if planner_should_lead_follow_hold_short p q target then
    (apply_lead_follow_hold_short q target lead (slew_rad_s jp) (a_speed a) p, EvTick)
  else if planner_drifted_from_measurement p q target lead then
    (reset_planner_with_downward_seed q target (slew_rad_s jp) v_max p, EvReset)
  else (p, EvTick).

(** The planner step of an unfrozen joint, clamped into the envelope. *)
Definition step_planner (a : AdvanceIn) (p : JointPositionPlanner) (ev : PlannerEvent)
  : calc (JointPositionPlanner * PlannerEvent) :=
  let jp := a_params a in
  let! v_tick := match limit_policy jp with
                 | Some policy => approach_velocity_cap policy (a_q a) (dq_traj p) (a_v_max a)
                 | None => Ok (a_v_max a)
                 end in
  let p := planner_tick (a_target a) (a_dt a) v_tick (a_max jp) p in
  Ok match limit_policy jp with
     | Some policy =>
         let clamped := clamp_position_in_envelope policy (a_q a) (dq_traj p) (q_traj p) in
         (mkPlanner clamped (dq_traj p) (phase p),
          if fgt (fabs (sub64 clamped (q_traj p))) (lit64 1 1000000000) then EvEnvelopeClamp else ev)
     | None => (p, ev)
     end.

(** A joint under the legacy law. *)
Definition advance_legacy (a : AdvanceIn) (m : Motion) : calc Motion :=
  let jp := a_params a in
  let q := a_q a in let target := a_target a in let dq_f := a_dq a in
  let '(p, ev) := realign a (m_planner m) in
  let lag := sub64 q (q_traj p) in
  let to_target := sub64 target q in
  let was_frozen := m_frozen m in
  let freeze_descent := planner_should_freeze_on_descent was_frozen target q to_target lag (dq_traj p) dq_f
                          (advance_vel_deadband jp) (advance_max_lead jp) in
  let lead_follow := planner_should_lead_follow_hold_short p q target in
  let stuck_residual := lead_follow_stuck_residual lead_follow q target dq_f (advance_vel_deadband jp) in
  let recovering := (negb lead_follow || stuck_residual)
                    && planner_should_recover_ascent_stall (planner_active (m_recovery m)) target q (q_traj p)
                         to_target dq_f (advance_vel_deadband jp) in
  let freeze := freeze_descent || (lead_follow && negb stuck_residual) in
  let ev := if freeze && negb was_frozen then EvFreezeEnter
            else if was_frozen && negb freeze then EvFreezeExit else ev in
  let recovery := recovery_update recovering (watched_travel a) q (a_threshold a) (a_period a) (m_recovery m) in
  let latch := planner_should_latch_on_overshoot_hold q (q_traj p) target dq_f (advance_vel_deadband jp) in
  let p := if latch then latch_at_target target p else p in
  let ev := if latch then EvLatch else ev in
  let! (p, ev) := if freeze then Ok (p, ev) else step_planner a p ev in
  let ev := if recovering && bool_decide (ev = EvTick) then EvAscentBreakaway else ev in
  Ok (mkMotion p freeze recovery watch_default (m_scaled m) ev (tick_lead a p) stuck_residual).

Definition advance_motion (wave_owned : bool) (dq_wave : f64) (a : AdvanceIn) (m : Motion) : calc Motion :=
  if wave_owned then advance_wave a dq_wave m
  else match law (a_params a) with
       | ScaledPdLaw gains => advance_scaled a gains m
       | LegacyLaw => advance_legacy a m
       end.

(** One joint's entries of the vectors, and their replacement. *)
Definition load_motion (i : nat) (h : PositionHold) : calc Motion :=
  let p := plans h in
  let! pl := vec_get (default [] (planners p)) i in
  let! wm := vec_get (wave_motion (fuses h)) i in
  let! s := vec_get (scaled p) i in
  let! lead := vec_get (tick_effective_max_lead p) i in
  let! residual := vec_get (tick_stuck_residual p) i in
  Ok (mkMotion pl (bool_at (planner_frozen (latches h)) i)
        (default recovery_default (get_at (ascent_recovery (latches h)) i)) wm s EvTick lead residual).

Definition store_motion (i : nat) (m : Motion) (h : PositionHold) : PositionHold :=
  let p := plans h in let l := latches h in let f := fuses h in
  mkHold (n_joints h) (goals h)
    (mkPlans (put_at i (m_planner m) (planners p)) (retarget_tick p) (dq_filtered p)
       (<[i := m_scaled m]> (scaled p)) (put_at i (m_event m) (planner_events p))
       (<[i := m_lead m]> (tick_effective_max_lead p)) (<[i := m_residual m]> (tick_stuck_residual p)))
    (mkLatches (set_bool_at i (m_frozen m) (planner_frozen l)) (put_at i (m_recovery m) (ascent_recovery l))
       (descent_breakaway l) (descent_was_stuck l) (integral_error l))
    (mkFuses (hold_tracking f) (<[i := m_wave m]> (wave_motion f)) (progress_thresholds f) (commanded_joints f)).

Definition load_advance (w : HoldWorld) (tgts dqs : list f64) (period : Z) (i : nat) (p : JointPositionPlanner)
  (h : PositionHold) : calc AdvanceIn :=
  let! jp := vec_get (w_joints w) i in
  let! q := vec_get (w_q w) i in
  let! target := vec_get tgts i in
  let! dq := vec_get dqs i in
  let! commanded := vec_get (commanded_joints (fuses h)) i in
  let! threshold := vec_get (progress_thresholds (fuses h)) i in
  let! speed := vec_get (speeds (goals h)) i in
  Ok (mkAdvanceIn jp q target dq (cruise_v_max jp (fabs (sub64 target q)) (fabs (dq_traj p)))
        (retarget_age_ms i (w_tick_count w) (w_hz w) h) commanded threshold speed (w_dt w) period).

Definition owns (wave : option PositionWave) (i : nat) : bool :=
  match wave with Some w => bool_decide (joint_index w = i) | None => false end.

Definition wave_dq (cmd : option (nat * f64)) (i : nat) : f64 :=
  match cmd with Some (j, d) => if bool_decide (j = i) then d else fzero | None => fzero end.

Definition advance_joint (w : HoldWorld) (tgts dqs : list f64) (cmd : option (nat * f64)) (period : Z) (i : nat)
  (h : PositionHold) : calc PositionHold :=
  let! m := load_motion i h in
  let! a := load_advance w tgts dqs period i (m_planner m) h in
  let! m := advance_motion (owns (w_wave w) i) (wave_dq cmd i) a m in
  Ok (store_motion i m h).

(** [for i in ix { s = f(i, s)? }]. *)
Fixpoint for_each {E S : Type} (f : nat -> S -> result E S) (ix : list nat) (s : S) : result E S :=
  match ix with
  | [] => Ok s
  | i :: rest => let! s := f i s in for_each f rest s
  end.

(** [ix.map(|i| f(i))] where [f] also updates the state. *)
Fixpoint map_each {E S A : Type} (f : nat -> S -> result E (A * S)) (ix : list nat) (s : S)
  : result E (list A * S) :=
  match ix with
  | [] => Ok ([], s)
  | i :: rest =>
      let! (x, s) := f i s in
      let! (xs, s) := map_each f rest s in
      Ok (x :: xs, s)
  end.

(** First planner init: the filter starts at the measured velocities. *)
Definition first_planners (w : HoldWorld) (h : PositionHold) : calc PositionHold :=
  match planners (plans h) with
  | Some _ => Ok h
  | None =>
      let h := init_planners (w_q w) (w_tick_count w) h in
      for_each (fun i h =>
          let! dq := vec_get (w_dq_meas w) i in
          let! d := set_opt i dq (dq_filtered (plans h)) in
          Ok (set_plans (set_dq_filtered d (plans h)) h))
        (seq 0 (length (w_dq_meas w))) h
  end.

Definition adopt_law (w : HoldWorld) (i : nat) (h : PositionHold) : calc PositionHold :=
  let! jp := vec_get (w_joints w) i in set_joint_law i (law_kind (law jp)) h.

Definition filter_joint (w : HoldWorld) (i : nat) (h : PositionHold) : calc (f64 * PositionHold) :=
  let! dq := vec_get (w_dq_meas w) i in filtered_dq i dq h.

(** Events allocated, last tick's residual flags dropped. *)
Definition open_pass (h : PositionHold) : PositionHold :=
  let p := plans h in
  set_plans (mkPlans (planners p) (retarget_tick p) (dq_filtered p) (scaled p)
    (ensure_vec (n_joints h) EvTick (planner_events p)) (tick_effective_max_lead p) (fill false (tick_stuck_residual p))) h.

Definition advance_planners (w : HoldWorld) (cmd : option (nat * f64)) (period : Z) (h : PositionHold)
  : calc PositionHold :=
  match setpoints (goals h) with
  | None => Ok h
  | Some tgts =>
      let! h := first_planners w h in
      let h := init_latch_state h in
      let! h := for_each (adopt_law w) (seq 0 (length (w_joints w))) h in
      let! (dqs, h) := map_each (filter_joint w) (seq 0 (n_joints h)) h in
      for_each (advance_joint w tgts dqs cmd period) (seq 0 (n_joints h)) (open_pass h)
  end.

Definition latch_joint_target (idx : nat) (target : f64) (h : PositionHold) : calc PositionHold :=
  let clamped := home_classified idx target h in
  let g := goals h in
  match setpoints g, setpoints_raw g with
  | Some sp, Some raw =>
      let! sp := vec_set idx clamped sp in
      let! raw := vec_set idx target raw in
      Ok (set_goals (mkGoals (Some sp) (Some raw) (speeds g) (laws g)) h)
  | _, _ => Ok h
  end.

Definition with_wave (wave : option PositionWave) (w : HoldWorld) : HoldWorld :=
  mkWorld (w_q w) (w_dq_meas w) (w_tau_g w) (w_joints w) (w_joint_names w) (w_dt w) (w_hz w) (w_tick_count w)
    (w_reshaped w) (w_ff_last_sent w) wave.

Definition with_joints (js : list HoldJointParams) (w : HoldWorld) : HoldWorld :=
  mkWorld (w_q w) (w_dq_meas w) (w_tau_g w) js (w_joint_names w) (w_dt w) (w_hz w) (w_tick_count w)
    (w_reshaped w) (w_ff_last_sent w) (w_wave w).

Section Tick.
Variables exp tanh cos sin : f64 -> f64.

(** The pass, and the wave slot after it. *)
Definition advance (w : HoldWorld) (period : Z) (h : PositionHold) : calc (PositionHold * option PositionWave) :=
  match w_wave w with
  | None => let! h := advance_planners w None period h in Ok (h, None)
  | Some wave =>
      let idx := joint_index wave in
      vec_get (w_joint_names w) idx ;!
      match target_and_velocity_at_tick cos sin (w_tick_count w) (w_hz w) wave with
      | (Some (target, dq_wave), wave') =>
          let! h := latch_joint_target idx target h in
          let! h := advance_planners (with_wave (Some wave') w) (Some (idx, dq_wave)) period h in
          Ok (h, Some wave')
      | (None, wave') =>
          let! h := latch_joint_target idx (end_position_rad wave') h in
          let! h := advance_planners (with_wave (Some wave') w) None period h in
          Ok (h, None)
      end
  end.

(** ** Composing the commands *)

(** What composition reads for one joint, *)
Record ComposeIn : Type := mkComposeIn {
  c_name : string; c_params : HoldJointParams; c_q : f64; c_dq_raw : f64; c_dq : f64; c_in_tau_g : f64;
  c_reshaped : bool; c_ff_last : option f64; c_planner : JointPositionPlanner; c_target : f64; c_target_raw : f64;
  c_age : Z; c_lead : f64; c_residual : bool; c_frozen : bool; c_recovery : AscentRecovery;
  c_wave_motion : WaveMotionWatch; c_commanded : bool; c_wave_owned : bool; c_threshold : f64;
  c_event : option PlannerEvent; c_retarget_tick : option Z; c_dt : f64; c_period : Z
}.

(** and what it writes, also when a fuse trips. *)
Record Latch : Type := mkLatch {
  l_breakaway : bool; l_was_stuck : bool; l_integral : option f64; l_tracking : HoldTracking; l_scaled : ScaledPdState
}.

Abbreviation composed A := (result (HoldError * Latch) (A * Latch)).

(** A fuse reports with the latches as they are. *)
Definition blow {A : Type} (l : Latch) (r : result HoldError A) : result (HoldError * Latch) A :=
  map_err (fun e => (e, l)) r.

Definition check_travel_stall (r : AscentRecovery) (sd : StallSide) (name : string) (trip : HoldFuseTrip)
  (tracking_armed : bool) : result HoldError Z :=
  let ms := recovery_stalled_ms r in
  if (ms <? POSITION_ASCENT_STALL_FAULT_MS) || negb (match side r, sd with
       | Outbound, Outbound | Return, Return => true | _, _ => false end) then Ok ms
  else Err match sd with
           | Outbound => AscentStall name ms trip
           | Return => if tracking_armed then EHoldTracking name ms trip else ReturnStall name ms trip
           end.

(** The fuses of a composed joint, in the order of the code: outbound travel, wave,
    hold tracking, return travel. *)
Definition run_fuses (c : ComposeIn) (trip : HoldFuseTrip) (net : f64) (l : Latch) : composed (Z * Z) :=
  let! ascent_ms := blow l (check_travel_stall (c_recovery c) Outbound (c_name c) trip false) in
  let wave_ms := watch_stalled_ms (c_wave_motion c) in
  refuse_if (POSITION_ASCENT_STALL_FAULT_MS <=? wave_ms) (WaveStall (c_name c) wave_ms trip, l) ;!
  let armed := c_commanded c && negb (c_wave_owned c) && hold_tracking_opposed (c_q c) (c_target c) net in
  let tracking := tracking_update armed (c_q c) (c_target c) (c_threshold c) (c_period c) (l_tracking l) in
  let l := mkLatch (l_breakaway l) (l_was_stuck l) (l_integral l) tracking (l_scaled l) in
  let ms := tracking_stalled_ms tracking in
  refuse_if (POSITION_ASCENT_STALL_FAULT_MS <=? ms) (EHoldTracking (c_name c) ms trip, l) ;!
  blow l (check_travel_stall (c_recovery c) Return (c_name c) trip armed) ;!
  Ok ((ascent_ms, ms), l).

Definition settling_at (ph : TrapezoidPhase) (settle_error : f64) : bool :=
  bool_decide (ph = Hold) && fle (fabs settle_error) POSITION_SETTLE_TOLERANCE_RAD.

Definition env_bounds (policy : option JointLimitPolicy) (q dq : f64) : f64 * f64 :=
  match policy with Some p => effective_command_bounds p q dq | None => (S754_nan, S754_nan) end.

(** The position of a legacy command: the lead-bounded reference, pulled through
    static friction, inside the envelope; and whether the joint is stuck. *)
Definition legacy_position (c : ComposeIn) (l : Latch) : calc (f64 * bool * Latch) :=
  let jp := c_params c in let p := c_planner c in
  let q := c_q c in let target := c_target c in
  let! q_des := clamp_trajectory_setpoint (q_traj p) q target (c_lead c) (limit_policy jp) (dq_traj p) in
  let to_target := sub64 target q in
  let stuck_now := descent_stuck_mit_pull to_target q target (c_dq c) (vel_deadband jp) false in
  let was_stuck := l_was_stuck l || stuck_now in
  let breakaway := l_breakaway l
    || (was_stuck && descent_breakaway_confirmed to_target (c_dq c) (vel_deadband jp)) in
  let l := mkLatch breakaway was_stuck (l_integral l) (l_tracking l) (l_scaled l) in
  let joint_stuck := stuck_now && negb breakaway in
  let! q_des := if joint_stuck
                then let! pull := home_final_approach_stuck_pull_rad q target in Ok (fmin q_des (sub64 q pull))
                else Ok q_des in
  let q_des := if c_residual c
               then fmax q_des (fmin (add64 target POSITION_HOME_FINAL_PULL_THROUGH_RAD) (add64 q (c_lead c)))
               else q_des in
  Ok (match limit_policy jp with
      | Some policy => clamp_position_in_envelope policy q (dq_traj p) q_des
      | None => q_des
      end, joint_stuck, l).

(** The legacy integral: wound up near the target long after a retarget, else reset. *)
Definition legacy_integral (c : ComposeIn) (settle_error tau : f64) (l : Latch) : calc (f64 * Latch) :=
  let ki := p_ki (c_params c) in
  let put i := mkLatch (l_breakaway l) (l_was_stuck l) i (l_tracking l) (l_scaled l) in
  if fgt ki fzero && flt (fabs settle_error) (lit64 1 10) && (1000 <? c_age c) then
    match l_integral l with
    | Some i =>
        let! i := fclamp (add64 i (mul64 settle_error (c_dt c))) (div64 (fneg MAX_INTEGRAL_NM) ki) (div64 MAX_INTEGRAL_NM ki) in
        Ok (add64 tau (mul64 ki i), put (Some i))
    | None => Ok (tau, l)
    end
  else Ok (tau, match l_integral l with Some _ => put (Some fzero) | None => l end).

Definition compose_legacy_joint (c : ComposeIn) (l : Latch) : composed (MitJointCommand * HoldJointDiag) :=
  let jp := c_params c in let p := c_planner c in
  let q := c_q c in let target := c_target c in let dq := c_dq c in
  let settle_error := sub64 target q in
  let approaching := fgt (mul64 (dq_traj p) settle_error) POSITION_HOLD_ERROR_DEADBAND_RAD in
  let move_dist := fabs (sub64 target q) in
  let! (q_des, joint_stuck, l) := lift (legacy_position c l) in
  let lead := sub64 q_des q in
  let sustained := approaching && low_angle_breakaway_active q target settle_error approaching
                   && flt (fabs dq) (vel_deadband jp) in
  let! ff := lift (compose_position_hold_feedforward tanh (c_in_tau_g c) (p_kd jp) dq (dq_traj p) settle_error
                     (vel_deadband jp) (c_lead c) (c_age c) (phase p) (p_friction jp) approaching sustained) in
  let! (tau_ff, l) := lift (legacy_integral c settle_error (tau_ff_cmd ff) l) in
  let lead_sat := fge (fabs lead) (sub64 (c_lead c) (lit64 1 1000000)) in
  let tau_p := mul64 (p_kp jp) lead in
  let trip := mkTrip q target tau_p tau_ff (c_in_tau_g c) in
  let! (stall, l) := run_fuses c trip (add64 tau_p tau_ff) l in
  let mit_velocity := position_hold_mit_velocity dq (dq_traj p) (vel_deadband jp) (c_age c) approaching in
  let mit_kd := if flt (fabs settle_error) (lit64 1 10) then position_hold_mit_kd (p_kd jp) dq (vel_deadband jp) else fzero in
  let '(lo, hi) := env_bounds (limit_policy jp) q (dq_traj p) in
  Ok ((mkMitJoint (c_name c) (p_kp jp) mit_kd q_des mit_velocity tau_ff,
       mkDiag move_dist (cruise_v_max jp move_dist (fabs (dq_traj p))) (default EvTick (c_event c)) q (c_dq_raw c) dq
         (q_traj p) (dq_traj p) q_des target (c_target_raw c) lead lead_sat settle_error
         (settling_at (phase p) settle_error) (friction_mode_str (friction_mode ff)) (c_age c) joint_stuck (c_frozen c)
         (phase_as_str (phase p)) (p_kp jp) (p_kd jp) (c_in_tau_g c) (hf_tau_f ff) (hf_tau_d ff) tau_ff (tau_meas jp)
         tau_p mit_velocity mit_kd lo hi (c_retarget_tick c) stall.1 stall.2 Config.Legacy (q_traj p) (dq_traj p)
         (if c_frozen c then fzero else fone) (sub64 tau_ff (tau_ff_cmd ff))), l).

(** [HoldJointDiag.v_max_eff] reads the planner, which is the one composed from. *)
Definition compose_scaled_joint (gains : ScaledPdGains) (c : ComposeIn) (l : Latch)
  : composed (MitJointCommand * HoldJointDiag) :=
  let jp := c_params c in let p := c_planner c in
  let q := c_q c in let target := c_target c in
  let settle_error := sub64 target q in
  let! (ff, s) := lift (compose_feedforward exp tanh (l_scaled l) gains
     (mkFfInput (p_ki jp) settle_error (sub64 (q_traj p) q) (c_dq_raw c) (c_reshaped c) (c_ff_last c)
        (c_in_tau_g c) (c_dt c))) in
  let vc := v_c s in
  let q_des := match limit_policy jp with
               | Some policy => clamp_position_in_envelope policy q vc (q_traj p)
               | None => q_traj p
               end in
  let clamped := match limit_policy jp with
                 | Some _ => fgt (fabs (sub64 q_des (q_traj p))) (lit64 1 1000000000)
                 | None => false
                 end in
  let lead := sub64 q_des q in
  let tau_p := mul64 (p_kp jp) lead in
  let kd := g_kd gains in
  let s := mkPdState (s_scale s) (v_c s) (tau_i s) (v_prev s) (tau_dyn s) (v_hat s) (ff_prev s)
             (ff_guarded ff || clamped) in
  let l := mkLatch (l_breakaway l) (l_was_stuck l) (l_integral l) (l_tracking l) s in
  let trip := mkTrip q target tau_p (ff_tau_ff ff) (c_in_tau_g c) in
  let net := add64 (add64 tau_p (mul64 kd (sub64 vc (c_dq_raw c)))) (ff_tau_ff ff) in
  let! (stall, l) := run_fuses c trip net l in
  let '(lo, hi) := env_bounds (limit_policy jp) q vc in
  let ev := match c_event c with
            | Some e => if bool_decide (e = EvTick) then (if clamped then EvEnvelopeClamp else EvTick) else e
            | None => if clamped then EvEnvelopeClamp else EvTick
            end in
  Ok ((mkMitJoint (c_name c) (p_kp jp) kd q_des vc (ff_tau_ff ff),
       mkDiag (fabs (sub64 target q)) (scaled_v_max jp p target) ev q (c_dq_raw c) (c_dq_raw c) (q_traj p) vc q_des
         target (c_target_raw c) lead (fge (fabs lead) (sub64 (e1 gains) (lit64 1 1000000))) settle_error
         (settling_at (phase p) settle_error) "reference" (c_age c) false false (phase_as_str (phase p)) (p_kp jp) kd
         (c_in_tau_g c) (ff_tau_fric ff) fzero (ff_tau_ff ff) (tau_meas jp) tau_p vc kd lo hi (c_retarget_tick c)
         stall.1 stall.2 Config.ScaledPd (q_traj p) vc (s_scale s) (ff_tau_i ff)), l).

Definition compose_joint_law (c : ComposeIn) (l : Latch) : composed (MitJointCommand * HoldJointDiag) :=
  match law (c_params c) with
  | ScaledPdLaw gains => compose_scaled_joint gains c l
  | LegacyLaw => compose_legacy_joint c l
  end.

Definition load_compose (w : HoldWorld) (period : Z) (i : nat) (h : PositionHold) : result HoldError ComposeIn :=
  let g := goals h in let p := plans h in let f := fuses h in
  let! name := vec_get (w_joint_names w) i in
  let! jp := vec_get (w_joints w) i in
  let! pl := ok_or (get_at (planners p) i) (MissingSetpoint name) in
  let! dq_raw := vec_get (w_dq_meas w) i in
  let! q := vec_get (w_q w) i in
  let! tau_g := vec_get (w_tau_g w) i in
  let target := default (q_traj pl) (get_at (setpoints g) i) in
  let! lead := vec_get (tick_effective_max_lead p) i in
  let! wm := vec_get (wave_motion f) i in
  let! commanded := vec_get (commanded_joints f) i in
  let! threshold := vec_get (progress_thresholds f) i in
  Ok (mkComposeIn name jp q dq_raw (default dq_raw (get_at (dq_filtered p) i)) tau_g
        (default false (w_reshaped w !! i)) (default None (w_ff_last_sent w !! i)) pl target
        (default target (get_at (setpoints_raw g) i)) (retarget_age_ms i (w_tick_count w) (w_hz w) h) lead
        (default false (tick_stuck_residual p !! i)) (bool_at (planner_frozen (latches h)) i)
        (default recovery_default (get_at (ascent_recovery (latches h)) i)) wm commanded (owns (w_wave w) i) threshold
        (get_at (planner_events p) i) (get_at (retarget_tick p) i) (w_dt w) period).

Definition load_latch (i : nat) (h : PositionHold) : result HoldError Latch :=
  let l := latches h in
  let! tr := vec_get (hold_tracking (fuses h)) i in
  let! s := vec_get (scaled (plans h)) i in
  Ok (mkLatch (bool_at (descent_breakaway l) i) (bool_at (descent_was_stuck l) i) (get_at (integral_error l) i) tr s).

Definition store_latch (i : nat) (x : Latch) (h : PositionHold) : PositionHold :=
  let l := latches h in let f := fuses h in
  mkHold (n_joints h) (goals h) (set_scaled (<[i := l_scaled x]> (scaled (plans h))) (plans h))
    (mkLatches (planner_frozen l) (ascent_recovery l) (set_bool_at i (l_breakaway x) (descent_breakaway l))
       (set_bool_at i (l_was_stuck x) (descent_was_stuck l))
       (match l_integral x with Some v => put_at i v (integral_error l) | None => integral_error l end))
    (mkFuses (<[i := l_tracking x]> (hold_tracking f)) (wave_motion f) (progress_thresholds f) (commanded_joints f)).

Definition compose_joint_at (w : HoldWorld) (period : Z) (i : nat) (h : PositionHold)
  : result (HoldError * PositionHold) ((MitJointCommand * HoldJointDiag) * PositionHold) :=
  let! c := map_err (fun e => (e, h)) (load_compose w period i h) in
  let! l := map_err (fun e => (e, h)) (load_latch i h) in
  let! (out, l) := map_err (fun x => (x.1, store_latch i x.2 h)) (compose_joint_law c l) in
  Ok (out, store_latch i l h).

Definition compose (w : HoldWorld) (period : Z) (h : PositionHold)
  : result (HoldError * PositionHold) (HoldTickOut * PositionHold) :=
  let h := init_latch_state h in
  let! (out, h) := map_each (compose_joint_at w period) (seq 0 (n_joints h)) h in
  Ok (mkOut (map fst out) (map snd out), h).

(** ** The tick *)

Definition lens_match (n : nat) (w : HoldWorld) : bool :=
  (length (w_q w) =? n)%nat && (length (w_dq_meas w) =? n)%nat && (length (w_tau_g w) =? n)%nat
  && (length (w_joints w) =? n)%nat && (length (w_joint_names w) =? n)%nat.

(** The wave's joint moves at its own admitted speed. *)
Definition release_wave_speed (wave : option PositionWave) (h : PositionHold) : PositionHold :=
  match wave with
  | None => h
  | Some w =>
      let g := goals h in
      set_goals (mkGoals (setpoints g) (setpoints_raw g) (<[joint_index w := FULL]> (speeds g)) (laws g)) h
  end.

Definition full_speed (s : SpeedFraction) : bool := feq (speed_get s) fone.

(** Parameters as given when every joint is at full speed, else slowed one by one. *)
Definition slowed (w : HoldWorld) (h : PositionHold) : HoldWorld :=
  if forallb full_speed (speeds (goals h)) then w
  else with_joints (zip_with (fun jp s => at_speed_fraction s jp) (w_joints w) (speeds (goals h))) w.

Definition hold_tick (w : HoldWorld) (h : PositionHold)
  : result (HoldError * (PositionHold * option PositionWave)) (HoldTickOut * (PositionHold * option PositionWave)) :=
  let wave := w_wave w in
  if negb (lens_match (n_joints h) w) then Err (LenMismatch, (h, wave))
  else if negb (is_armed h)
  then Err (MissingSetpoint (default "unknown"%string (head (w_joint_names w))), (h, wave))
  else match Session.try_from_secs_f64 (w_dt w) with
       | None => Err (InvalidPeriod (w_dt w), (h, wave))
       | Some period =>
           if fgt (w_dt w) fzero && (period =? 0) then Err (InvalidPeriod (w_dt w), (h, wave))
           else
             let h := release_wave_speed wave h in
             let w := slowed w h in
             let! (h, wave) := lift (advance w period h) in
             let! (out, h) := map_err (fun x => (x.1, (x.2, wave))) (compose (with_wave wave w) period h) in
             Ok (out, (h, wave))
       end.

End Tick.

End HoldTick.
