(* ===== verification/HoldSafety.v ===== *)
(** * HoldSafety: what the position hold guarantees

    The well-formedness of the state of [PosHold] and its preservation by arming,
    clearing, law changes and retargets; lemmas on the loops of a tick; what a
    retarget does and leaves alone.  [HoldRun] has the tick. *)

From Stdlib Require Import ZArith Lia Bool SpecFloat.
From stdpp Require Import base strings list.
From S2P Require Import Prelude Float Config Limits TotalTorque Session Position Friction Setpoint PosHold HoldTick.

Module HoldSafety.
Import Limits Position Friction Setpoint PosHold HoldTick.

(** ** Vectors and loops *)

Definition opt_len {A : Type} (n : nat) (slot : option (list A)) : Prop :=
  match slot with Some v => length v = n | None => True end.

Lemma vec_get_lt {E A : Type} (l : list A) (i n : nat) :
  length l = n -> (i < n)%nat -> exists x, l !! i = Some x /\ @vec_get E A l i = Ok x.
Proof.
  intros <- Hi. destruct (lookup_lt_is_Some_2 l i Hi) as [x Hx]. exists x. unfold vec_get. by rewrite Hx.
Qed.

Lemma vec_get_some {E A : Type} (l : list A) (i : nat) (x : A) : @vec_get E A l i = Ok x <-> l !! i = Some x.
Proof. unfold vec_get. destruct (l !! i); split; congruence. Qed.

Lemma vec_set_lt {E A : Type} (l : list A) (i n : nat) (x : A) :
  length l = n -> (i < n)%nat -> @vec_set E A i x l = Ok (<[i := x]> l).
Proof. intros <- Hi. unfold vec_set. by destruct (lookup_lt_is_Some_2 l i Hi) as [y ->]. Qed.

Lemma set_opt_lt {A : Type} (slot : option (list A)) (i n : nat) (x : A) :
  opt_len n slot -> (i < n)%nat -> set_opt i x slot = Ok (put_at i x slot).
Proof. intros Hl Hi. destruct slot as [v|]; [|reflexivity]. cbn. by rewrite (vec_set_lt v i n). Qed.

Lemma opt_len_put {A : Type} (n i : nat) (x : A) (slot : option (list A)) : opt_len n slot -> opt_len n (put_at i x slot).
Proof. destruct slot; cbn; [|auto]. by rewrite length_insert. Qed.

Lemma opt_len_ensure {A : Type} (n : nat) (x : A) (slot : option (list A)) : opt_len n slot -> opt_len n (ensure_vec n x slot).
Proof. destruct slot; cbn; [auto|]. by rewrite length_replicate. Qed.

Lemma opt_len_fill {A : Type} (n : nat) (x : A) (slot : option (list A)) : opt_len n slot -> opt_len n (fill_opt x slot).
Proof. destruct slot; cbn; [|auto]. unfold fill. by rewrite length_map. Qed.

Lemma length_fill {A : Type} (x : A) (l : list A) : length (fill x l) = length l.
Proof. apply length_map. Qed.

Lemma get_put_ne {A : Type} (i j : nat) (x : A) (slot : option (list A)) :
  i <> j -> get_at (put_at i x slot) j = get_at slot j.
Proof. intros Hn. destruct slot; cbn; [|auto]. by rewrite list_lookup_insert_ne. Qed.

Lemma get_put_eq {A : Type} (i n : nat) (x : A) (slot : option (list A)) :
  opt_len n slot -> is_Some slot -> (i < n)%nat -> get_at (put_at i x slot) i = Some x.
Proof.
  intros Hl [v ->] Hi. cbn in *. apply list_lookup_insert_eq. by rewrite Hl.
Qed.

Create HintDb hold.
#[export] Hint Resolve opt_len_put opt_len_ensure opt_len_fill : hold.

Section Loops.
Context {E S : Type}.

Lemma for_each_total (f : nat -> S -> result E S) (P : S -> Prop) (ix : list nat) (s : S) :
  P s -> (forall i s, i ∈ ix -> P s -> exists s', f i s = Ok s' /\ P s') ->
  exists s', for_each f ix s = Ok s' /\ P s'.
Proof.
  revert s. induction ix as [|i ix IH]; intros s Hs Hf; [by exists s|].
  destruct (Hf i s) as (s' & E1 & Hs'); [left|exact Hs|]. cbn [for_each]. rewrite E1. cbn [rbind].
  apply IH; [exact Hs'|]. intros j t Hj. apply Hf. by right.
Qed.

(** A loop that touches one entry per index: what it did to an entry. *)
Lemma for_each_pointwise {V : Type} (f : nat -> S -> result E S) (view : nat -> S -> V) (P : S -> Prop)
  (R : nat -> V -> V -> Prop) (ix : list nat) (s s' : S) :
  NoDup ix -> P s -> for_each f ix s = Ok s' ->
  (forall i s s', f i s = Ok s' -> P s ->
     P s' /\ R i (view i s) (view i s') /\ forall j, j <> i -> view j s' = view j s) ->
  P s' /\ (forall i, i ∈ ix -> R i (view i s) (view i s')) /\ (forall j, j ∉ ix -> view j s' = view j s).
Proof.
  intros Hd Hs Hr Hf. revert s Hs Hr. induction Hd as [|i ix Hi Hd IH]; intros s Hs Hr; cbn [for_each] in Hr.
  - injection Hr as <-. split; [exact Hs|]. split; [|auto]. intros i Hi. by apply elem_of_nil in Hi.
  - bind_inv Hr. destruct (Hf i s x E0 Hs) as (Hx & HR & Hfr). destruct (IH x Hx Hr) as (HP & HR' & Hout).
    split; [exact HP|]. split.
    + intros j Hj. apply elem_of_cons in Hj as [->|Hj]; [by rewrite (Hout i Hi)|].
      rewrite <- (Hfr j) by congruence. by apply HR'.
    + intros j Hj. apply not_elem_of_cons in Hj as [Hn Hj]. rewrite (Hout j Hj). by apply Hfr.
Qed.

Lemma map_each_total {A : Type} (f : nat -> S -> result E (A * S)) (P : S -> Prop) (Q : nat -> A -> Prop)
  (F : E -> Prop) (n k : nat) (s : S) :
  P s ->
  (forall i s, (i < k + n)%nat -> P s ->
     match f i s with Ok (o, s') => P s' /\ Q i o | Err e => F e | Panic => False end) ->
  match map_each f (seq k n) s with
  | Ok (os, s') => P s' /\ length os = n /\ forall i o, os !! i = Some o -> Q (k + i)%nat o
  | Err e => F e
  | Panic => False
  end.
Proof.
  revert k s. induction n as [|n IH]; intros k s Hs Hf; cbn [seq map_each]; [by split|].
  pose proof (Hf k s ltac:(lia) Hs) as H1. destruct (f k s) as [[o s']| |]; cbn [rbind]; [|exact H1|exact H1].
  destruct H1 as [Hs' Ho].
  pose proof (IH (Datatypes.S k) s' Hs') as H2. specialize (H2 ltac:(intros i t Hi; apply Hf; lia)).
  destruct (map_each f (seq (Datatypes.S k) n) s') as [[os t]| |]; cbn [rbind]; [|exact H2|exact H2].
  destruct H2 as (Ht & Hl & Hq). split; [exact Ht|]. split; [cbn; by rewrite Hl|].
  intros [|i] x Hx; cbn in Hx.
  - injection Hx as <-. by rewrite Nat.add_0_r.
  - rewrite <- plus_n_Sm. exact (Hq i x Hx).
Qed.

End Loops.

(** ** Well-formed holds *)

(** Every vector that exists has an entry per joint. *)
Record hold_wf (h : PositionHold) : Prop := mkWf {
  wf_setpoints : opt_len (n_joints h) (setpoints (goals h));
  wf_raw : opt_len (n_joints h) (setpoints_raw (goals h));
  wf_speeds : length (speeds (goals h)) = n_joints h;
  wf_laws : length (laws (goals h)) = n_joints h;
  wf_planners : opt_len (n_joints h) (planners (plans h));
  wf_retarget : opt_len (n_joints h) (retarget_tick (plans h));
  wf_dq : opt_len (n_joints h) (dq_filtered (plans h));
  wf_scaled : length (scaled (plans h)) = n_joints h;
  wf_events : opt_len (n_joints h) (planner_events (plans h));
  wf_lead : length (tick_effective_max_lead (plans h)) = n_joints h;
  wf_residual : length (tick_stuck_residual (plans h)) = n_joints h;
  wf_frozen : opt_len (n_joints h) (planner_frozen (latches h));
  wf_recovery : opt_len (n_joints h) (ascent_recovery (latches h));
  wf_breakaway : opt_len (n_joints h) (descent_breakaway (latches h));
  wf_stuck : opt_len (n_joints h) (descent_was_stuck (latches h));
  wf_integral : opt_len (n_joints h) (integral_error (latches h));
  wf_tracking : length (hold_tracking (fuses h)) = n_joints h;
  wf_wave : length (wave_motion (fuses h)) = n_joints h;
  wf_thresholds : length (progress_thresholds (fuses h)) = n_joints h;
  wf_commanded : length (commanded_joints (fuses h)) = n_joints h
}.

(** Close the obligations of a state whose vectors come from those of a
    well-formed one. *)
Ltac wf_done :=
  unfold set_bool_at in *;
  cbn -[resize imap fill replicate];
  rewrite ?length_insert, ?length_fill, ?length_replicate, ?length_map, ?length_seq, ?length_imap, ?length_resize;
  auto with hold.

Ltac wf_solve H := destruct H; split; wf_done.

Lemma hold_new_wf (n : nat) : hold_wf (hold_new n).
Proof. split; wf_done. Qed.

Lemma with_progress_thresholds_wf (l : list f64) : hold_wf (with_progress_thresholds l).
Proof. split; wf_done. Qed.

Lemma set_commanded_joint_wf (j : nat) (b : bool) (h : PositionHold) : hold_wf h -> hold_wf (set_commanded_joint j b h).
Proof. intros H. wf_solve H. Qed.

Lemma init_latch_state_wf (h : PositionHold) : hold_wf h -> hold_wf (init_latch_state h).
Proof. intros H. wf_solve H. Qed.

Lemma init_planners_wf (q : list f64) (t : Z) (h : PositionHold) : hold_wf h -> hold_wf (init_planners q t h).
Proof. intros H. wf_solve H. Qed.

Lemma arm_wf (q targets : list f64) (t : Z) (h : PositionHold) : hold_wf h -> hold_wf (arm q targets t h).
Proof. intros H. unfold arm. apply init_planners_wf. wf_solve H. Qed.

Lemma clear_wf (h : PositionHold) : hold_wf h -> hold_wf (clear h).
Proof. intros H. split; wf_done; by destruct H; congruence. Qed.

Lemma set_joint_law_wf (j : nat) (l : Config.PositionLaw) (h : PositionHold) :
  hold_wf h -> exists h', set_joint_law j l h = Ok h' /\ hold_wf h' /\ n_joints h' = n_joints h.
Proof.
  intros H. unfold set_joint_law. destruct (laws (goals h) !! j) as [old|] eqn:El; [|eauto].
  destruct (bool_decide (old = l)); [eauto|].
  assert (Hj : (j < n_joints h)%nat) by (rewrite <- (wf_laws _ H); by eapply lookup_lt_Some).
  rewrite (vec_set_lt _ j (n_joints h)) by (auto; apply H). cbn [rbind]. eexists. split; [reflexivity|].
  split; [wf_solve H|reflexivity].
Qed.

(** ** Retargets *)

(** The part of a travel fuse a retarget may not touch. *)
Definition episode (r : AscentRecovery) : f64 * StallSide * option ProgressBudget := (direction r, side r, progress r).

Definition recovery_at (h : PositionHold) (i : nat) : option AscentRecovery := get_at (ascent_recovery (latches h)) i.

(** No fuse of [h'] has more time left than in [h]: same hold-tracking and wave
    budgets, same travel budgets. *)
Definition budgets_kept (h h' : PositionHold) : Prop :=
  fuses h' = fuses h
  /\ forall j r, recovery_at h j = Some r -> exists r', recovery_at h' j = Some r' /\ episode r' = episode r.

#[export] Instance budgets_kept_preorder : PreOrder budgets_kept.
Proof.
  split; [by intros h; split; eauto|]. intros a b c [F1 R1] [F2 R2]. split; [by rewrite F2|].
  intros j r Hr. destruct (R1 j r Hr) as (r1 & H1 & E1). destruct (R2 j r1 H1) as (r2 & H2 & E2).
  exists r2. split; [exact H2|]. by rewrite E2.
Qed.

Lemma init_latch_budgets (h : PositionHold) : budgets_kept h (init_latch_state h).
Proof.
  split; [reflexivity|]. intros j r Hr. exists r. split; [|reflexivity]. revert Hr. unfold recovery_at. cbn.
  by destruct (ascent_recovery (latches h)).
Qed.

Lemma end_recovery_lt (i n : nat) (slot : option (list AscentRecovery)) :
  opt_len n slot -> (i < n)%nat ->
  exists slot', end_recovery i slot = Ok slot' /\ opt_len n slot'
    /\ forall j r, get_at slot j = Some r -> exists r', get_at slot' j = Some r' /\ episode r' = episode r.
Proof.
  intros Hl Hi. destruct slot as [v|]; cbn; [|by exists None].
  destruct (@vec_get_lt Empty_set _ v i n Hl Hi) as (x & Hx & ->). cbn [rbind]. eexists. split; [reflexivity|]. split.
  - cbn. by rewrite length_insert.
  - cbn. intros j r Hr. destruct (decide (i = j)) as [<-|Hn].
    + rewrite list_lookup_insert_eq by (by rewrite Hl). eexists. split; [reflexivity|].
      assert (x = r) as <- by congruence. reflexivity.
    + rewrite list_lookup_insert_ne by exact Hn. eauto.
Qed.

Lemma mark_retarget_ok (i : nat) (t : Z) (h : PositionHold) :
  hold_wf h -> (i < n_joints h)%nat ->
  exists h', mark_retarget i t h = Ok h' /\ hold_wf h' /\ n_joints h' = n_joints h /\ goals h' = goals h
    /\ planners (plans h') = planners (plans h) /\ dq_filtered (plans h') = dq_filtered (plans h)
    /\ budgets_kept h h'.
Proof.
  intros H Hi. pose proof (init_latch_state_wf h H) as H1. unfold mark_retarget.
  pose proof (init_latch_budgets h) as Hb.
  assert (Hn : n_joints (init_latch_state h) = n_joints h) by reflexivity.
  assert (Hg : goals (init_latch_state h) = goals h) by reflexivity.
  assert (Hp : plans (init_latch_state h) = plans h) by reflexivity.
  revert H1 Hb Hn Hg Hp. generalize (init_latch_state h). intros k H1 Hb Hn Hg Hp. rewrite Hn.
  assert (Hlen : length (default (replicate (n_joints h) 0) (retarget_tick (plans k))) = n_joints h).
  { pose proof (wf_retarget _ H1) as Hr. rewrite Hn in Hr. destruct (retarget_tick (plans k)); cbn in *; [exact Hr|].
    by rewrite length_replicate. }
  rewrite (vec_set_lt _ i (n_joints h) t Hlen Hi). cbn [rbind].
  destruct (end_recovery_lt i (n_joints k) (ascent_recovery (latches k)) (wf_recovery _ H1)) as (slot & -> & Hs & Hr);
    [by rewrite Hn|]. cbn [rbind].
  rewrite (set_opt_lt _ i (n_joints k) _ (wf_integral _ H1)) by (by rewrite Hn). cbn [rbind].
  eexists. split; [reflexivity|]. split; [|split; [exact Hn|split; [exact Hg|]]].
  - destruct H1; split; wf_done. by rewrite Hn.
  - cbn. rewrite Hp. split; [reflexivity|]. split; [reflexivity|].
    transitivity k; [exact Hb|]. split; [reflexivity|]. exact Hr.
Qed.

Lemma set_clamped_target_ok (i : nat) (x : f64) (t : Z) (h : PositionHold) :
  hold_wf h -> (i < n_joints h)%nat ->
  let changed := match get_at (setpoints (goals h)) i with
                 | Some o => fgt (fabs (sub64 o x)) RETARGET_EPSILON | None => true end in
  exists h', set_clamped_target i x t h = Ok (changed, h') /\ hold_wf h' /\ n_joints h' = n_joints h
    /\ goals h' = mkGoals (put_at i x (setpoints (goals h))) (setpoints_raw (goals h)) (speeds (goals h)) (laws (goals h))
    /\ planners (plans h') = planners (plans h) /\ dq_filtered (plans h') = dq_filtered (plans h)
    /\ budgets_kept h h'
    /\ (changed = false -> plans h' = plans h /\ latches h' = latches h).
Proof.
  intros H Hi changed. unfold set_clamped_target. fold changed.
  rewrite (set_opt_lt _ i (n_joints h) x (wf_setpoints _ H) Hi). cbn [rbind]. set (k := set_goals _ h).
  assert (Hk : hold_wf k) by wf_solve H.
  destruct changed.
  - destruct (mark_retarget_ok i t k Hk Hi) as (h' & -> & W & N & G & P & D & B). cbn [rbind].
    exists h'. do 6 (split; [assumption || reflexivity|]). split; [exact B|discriminate].
  - exists k. do 6 (split; [assumption || reflexivity|]). split; [split; [reflexivity|eauto]|by split].
Qed.

(** The effects of [follow_retarget]. *)
Lemma seed_dq_ok (i : nat) (dq : f64) (h : PositionHold) :
  hold_wf h -> exists h', seed_dq_filter i dq h = Ok h' /\ hold_wf h' /\ n_joints h' = n_joints h
    /\ goals h' = goals h /\ latches h' = latches h /\ fuses h' = fuses h /\ planners (plans h') = planners (plans h).
Proof.
  intros H. unfold seed_dq_filter. destruct (Nat.leb_spec (n_joints h) i); [by exists h|].
  assert (Hl : length (default (replicate (n_joints h) fzero) (dq_filtered (plans h))) = n_joints h).
  { pose proof (wf_dq _ H) as Hd. destruct (dq_filtered (plans h)); cbn in *; [exact Hd|]. by rewrite length_replicate. }
  rewrite (vec_set_lt _ i (n_joints h)) by (auto; lia). cbn [rbind]. eexists. split; [reflexivity|].
  split; [wf_solve H|repeat split].
Qed.

Lemma sync_planner_ok (i : nat) (q x : f64) (seed : option f64) (h : PositionHold) :
  hold_wf h -> let h' := sync_retarget_planner i q x seed h in
  hold_wf h' /\ n_joints h' = n_joints h /\ goals h' = goals h /\ latches h' = latches h /\ fuses h' = fuses h
  /\ (is_Some (planners (plans h)) -> is_Some (planners (plans h'))).
Proof.
  intros H. cbv zeta. unfold sync_retarget_planner. destruct (get_at _ _); [|by repeat split; try apply H].
  split; [wf_solve H|]. do 4 (split; [reflexivity|]). cbn. by intros [ps ->].
Qed.

Lemma follow_retarget_ok (cmd : HoldRetarget) (x : f64) (h : PositionHold) :
  hold_wf h -> (r_joint_idx cmd < n_joints h)%nat ->
  exists h', follow_retarget cmd x h = Ok h' /\ hold_wf h' /\ n_joints h' = n_joints h
    /\ goals h' = mkGoals (setpoints (goals h)) (setpoints_raw (goals h))
                    (<[r_joint_idx cmd := r_speed cmd]> (speeds (goals h))) (laws (goals h))
    /\ latches h' = latches h /\ fuses h' = fuses h
    /\ (is_Some (planners (plans h)) -> is_Some (planners (plans h'))).
Proof.
  intros H Hi. unfold follow_retarget. rewrite (vec_set_lt _ _ (n_joints h)) by (auto; apply H). cbn [rbind].
  destruct (@vec_get_lt Empty_set _ (laws (goals h)) _ _ (wf_laws _ H) Hi) as (l & _ & ->). cbn [rbind].
  set (k := set_goals _ h). assert (Hk : hold_wf k) by wf_solve H.
  set (k' := if bool_decide _ then _ else k).
  assert (Hk' : hold_wf k' /\ n_joints k' = n_joints k /\ goals k' = goals k /\ latches k' = latches k /\ fuses k' = fuses k
    /\ (is_Some (planners (plans k)) -> is_Some (planners (plans k')))).
  { subst k'. destruct (bool_decide _); [by apply sync_planner_ok|by repeat split; try apply Hk]. }
  destruct Hk' as (W & N & G & L & F & P). destruct (r_dq_seed cmd) as [dq|]; [|by exists k'].
  destruct (seed_dq_ok (r_joint_idx cmd) dq k' W) as (h' & -> & W' & N' & G' & L' & F' & P'). exists h'.
  split; [reflexivity|]. split; [exact W'|]. rewrite N', N, G', G, L', L, F', F, P'. by repeat split.
Qed.

(** The state a retarget latches its target into: itself, or freshly armed. *)
Definition armed_for (cmd : HoldRetarget) (h : PositionHold) : PositionHold :=
  if is_armed h then h
  else arm (replicate (n_joints h) (r_q cmd))
         (<[r_joint_idx cmd := home_classified (r_joint_idx cmd) (r_clamped cmd) h]> (replicate (n_joints h) (r_q cmd)))
         (r_tick cmd) h.

Lemma armed_for_ok (cmd : HoldRetarget) (h : PositionHold) :
  hold_wf h -> hold_wf (armed_for cmd h) /\ n_joints (armed_for cmd h) = n_joints h
    /\ is_Some (setpoints (goals (armed_for cmd h))).
Proof.
  intros H. unfold armed_for, is_armed. case_bool_decide as Ha; [auto|].
  split; [by apply arm_wf|]. by split; [reflexivity|].
Qed.

(** [apply_retarget] past its refusals: latch, then follow. *)
Lemma apply_retarget_latches (cmd : HoldRetarget) (h : PositionHold) :
  let i := r_joint_idx cmd in let k := armed_for cmd h in
  let x := home_classified i (r_clamped cmd) h in
  hold_wf h -> retarget_refused cmd h = false ->
  let changed := match get_at (setpoints (goals k)) i with
                 | Some o => fgt (fabs (sub64 o x)) RETARGET_EPSILON | None => true end in
  exists h', apply_retarget cmd h = Ok (negb (is_armed h) || changed, h') /\ hold_wf h'
    /\ get_at (setpoints (goals h')) i = Some x
    /\ get_at (setpoints_raw (goals h')) i = Some (r_requested cmd)
    /\ (forall j, j <> i -> get_at (setpoints (goals h')) j = get_at (setpoints (goals k)) j)
    /\ laws (goals h') = laws (goals k)
    /\ speeds (goals h') = (if negb (is_armed h) || changed then <[i := r_speed cmd]> (speeds (goals k)) else speeds (goals k))
    /\ budgets_kept k h' /\ (is_Some (planners (plans k)) -> is_Some (planners (plans h')))
    /\ (negb (is_armed h) || changed = false -> plans h' = plans k /\ latches h' = latches k).
Proof.
  intros i k x H Hr changed. destruct (armed_for_ok cmd h H) as (Hk & Nk & Sk). fold k in Hk, Nk, Sk.
  assert (Hi : (i < n_joints h)%nat).
  { unfold retarget_refused in Hr. bsimp. by apply Nat.leb_gt. }
  assert (Hka : (if negb (is_armed h) then arm (replicate (n_joints h) (r_q cmd)) (<[i := x]> (replicate (n_joints h) (r_q cmd)))
                  (r_tick cmd) h else h) = k) by (subst k i x; unfold armed_for; by destruct (is_armed h)).
  unfold apply_retarget. rewrite Hr. fold i x. cbv zeta. rewrite Hka.
  assert (Hraw : length (default (replicate (n_joints h) fzero) (setpoints_raw (goals k))) = n_joints h).
  { pose proof (wf_raw _ Hk) as Hw. rewrite Nk in Hw. destruct (setpoints_raw (goals k)); cbn in *; [exact Hw|].
    by rewrite length_replicate. }
  rewrite (vec_set_lt _ i (n_joints h) _ Hraw Hi). cbn [rbind]. set (m := set_goals _ k).
  assert (Hm : hold_wf m) by (destruct Hk; split; wf_done; by rewrite Hraw).
  destruct (set_clamped_target_ok i x (r_tick cmd) m Hm) as (h1 & E & W & N & G & P & D & B & U); [by cbn; rewrite Nk|].
  cbn [goals m set_goals setpoints setpoints_raw speeds laws] in E, G, U. change (n_joints m) with (n_joints k) in N.
  fold changed in E, U. rewrite E. cbn [rbind].
  assert (Hsp : get_at (put_at i x (setpoints (goals k))) i = Some x)
    by (apply (get_put_eq i (n_joints k)); [apply Hk|exact Sk|by rewrite Nk]).
  assert (Hrw : get_at (Some (<[i := r_requested cmd]> (default (replicate (n_joints h) fzero) (setpoints_raw (goals k))))) i
                = Some (r_requested cmd)) by (cbn; apply list_lookup_insert_eq; by rewrite Hraw).
  assert (Bm : budgets_kept k m) by (split; [reflexivity|eauto]).
  destruct (negb (is_armed h) || changed) eqn:Eb.
  - destruct (follow_retarget_ok cmd x h1 W) as (h' & -> & W' & N' & G' & L' & F' & P'); [by rewrite N, Nk|]. cbn [rbind].
    exists h'. split; [reflexivity|]. split; [exact W'|]. rewrite G', G. cbn [setpoints setpoints_raw speeds laws].
    split; [exact Hsp|]. split; [exact Hrw|]. split; [intros j Hj; by apply get_put_ne|].
    split; [reflexivity|]. split; [reflexivity|]. split; [|split; [intros Hp; apply P'; by rewrite P|discriminate]].
    transitivity m; [exact Bm|]. transitivity h1; [exact B|]. split; [exact F'|]. unfold recovery_at. rewrite L'. eauto.
  - apply orb_false_elim in Eb as [_ Ec]. destruct (U Ec) as [U1 U2].
    exists h1. split; [reflexivity|]. split; [exact W|]. rewrite G. cbn [setpoints setpoints_raw speeds laws].
    split; [exact Hsp|]. split; [exact Hrw|]. split; [intros j Hj; by apply get_put_ne|].
    split; [reflexivity|]. split; [reflexivity|]. split; [by transitivity m|]. by rewrite U1, U2.
Qed.

(** a retarget is atomic and never buys time.  On a well-formed hold it always
    returns a well-formed hold.  A joint out of range or a non-finite target, request or
    measured position is refused with nothing touched.  Otherwise the target (as
    home when within the home tolerance) and the request are latched, the other
    joints' targets stay, and on an armed hold every fuse keeps its budget; it
    reports a change exactly when the target moved by more than 1e-6 rad, and
    without one the planners, latches and speeds are untouched. *)
Theorem retarget_contract (cmd : HoldRetarget) (h : PositionHold) :
  hold_wf h ->
  let i := r_joint_idx cmd in
  exists b h', apply_retarget cmd h = Ok (b, h') /\ hold_wf h'
    /\ if retarget_refused cmd h then b = false /\ h' = h
       else
         let x := home_classified i (r_clamped cmd) h in
         get_at (setpoints (goals h')) i = Some x /\ get_at (setpoints_raw (goals h')) i = Some (r_requested cmd)
         /\ (is_armed h = false -> b = true)
         /\ (forall o, get_at (setpoints (goals h)) i = Some o ->
               b = fgt (fabs (sub64 o x)) RETARGET_EPSILON /\ budgets_kept h h'
               /\ (forall j, j <> i -> get_at (setpoints (goals h')) j = get_at (setpoints (goals h)) j)
               /\ if b then speed_fraction i h' = r_speed cmd
                  else plans h' = plans h /\ latches h' = latches h /\ speeds (goals h') = speeds (goals h)).
Proof.
  intros H i. destruct (retarget_refused cmd h) eqn:Er.
  { exists false, h. unfold apply_retarget. by rewrite Er. }
  destruct (apply_retarget_latches cmd h H Er) as (h' & E & W & S & Rw & O & L & Sp & B & _ & U).
  fold i in E, S, Rw, O, L, Sp, B, U. eexists _, h'. split; [exact E|]. split; [exact W|]. cbv zeta.
  split; [exact S|]. split; [exact Rw|]. split; [by intros ->|]. intros o Ho.
  assert (Ha : is_armed h = true).
  { unfold is_armed. apply bool_decide_eq_true_2. destruct (setpoints (goals h)); [eauto|discriminate Ho]. }
  assert (Hk : armed_for cmd h = h) by (unfold armed_for; by rewrite Ha).
  rewrite Hk, Ha in *. rewrite Ho in *. cbn [negb orb] in *. split; [reflexivity|]. split; [exact B|]. split; [exact O|].
  destruct (fgt _ RETARGET_EPSILON).
  - unfold speed_fraction. rewrite Sp, list_lookup_insert_eq; [reflexivity|].
    rewrite (wf_speeds _ H). unfold retarget_refused in Er. bsimp. by apply Nat.leb_gt.
  - destruct (U eq_refl). auto.
Qed.

(** A new target for a joint that is holding. *)
Definition bench_hold : PositionHold := arm [fzero; fzero] [lit64 5 10; fzero] 0 (hold_new 2).
Definition bench_cmd : HoldRetarget := mkRetarget 0 (lit64 8 10) (lit64 9 10) fzero 7 None None FULL.

Lemma retarget_contract_witness :
  hold_wf bench_hold
  /\ exists h', apply_retarget bench_cmd bench_hold = Ok (true, h') /\ budgets_kept bench_hold h'
     /\ get_at (setpoints (goals h')) 0 = Some (lit64 8 10).
Proof.
  assert (W : hold_wf bench_hold) by apply arm_wf, hold_new_wf. split; [exact W|].
  destruct (retarget_contract bench_cmd bench_hold W) as (b & h' & E & _ & HC).
  assert (Hr : retarget_refused bench_cmd bench_hold = false) by (vm_compute; reflexivity). rewrite Hr in HC.
  assert (Hx : home_classified (r_joint_idx bench_cmd) (r_clamped bench_cmd) bench_hold = lit64 8 10) by (vm_compute; reflexivity).
  rewrite Hx in HC. destruct HC as (H1 & _ & _ & H2).
  destruct (H2 (lit64 5 10)) as (Hb & B & _); [vm_compute; reflexivity|].
  assert (b = true) as -> by (rewrite Hb; vm_compute; reflexivity). eauto.
Defined.

End HoldSafety.
