(* ===== verification/HoldRun.v ===== *)
(** * HoldRun: the position hold tick by tick

    Totality of [HoldTick.hold_tick] and the envelope of its commands, and the
    travel stall fuse over histories of ticks and retargets. *)

From Stdlib Require Import ZArith Lia Bool SpecFloat.
From stdpp Require Import base strings list.
From S2P Require Import Prelude Float Config Limits TotalTorque Session Position Friction Setpoint PosHold HoldTick HoldSafety.

Module HoldRun.
Import Limits Position Friction Setpoint PosHold HoldTick HoldSafety.

(** ** What a tick needs of a joint *)

Definition lead_ok (q lead : f64) : Prop := fle (sub64 q lead) (add64 q lead) = true.

(** Measured and configured values the validated configuration gives a joint. *)
Record joint_ok (q : f64) (jp : HoldJointParams) : Prop := mkJointOk {
  ok_q : is_finite q = true;
  ok_policy : forall p, limit_policy jp = Some p -> bounds_wf (bounds p);
  ok_lead : lead_ok q (max_lead jp);
  ok_onset : lead_ok q (fmax (max_lead jp) POSITION_HOLD_ONSET_MAX_LEAD_RAD);
  ok_gains : forall g, law jp = ScaledPdLaw g -> integral_mode g = Config.LeakyReference -> is_nan (integral_cap_nm g) = false
}.

(** Speeds a wave can be clamped to. *)
Definition speeds_ok (jp : HoldJointParams) : Prop :=
  fle fzero (trajectory_v_max jp) = true /\ forall cap, velocity_cap jp = Some cap -> fle fzero cap = true.

Lemma joint_ok_slowed (q : f64) (jp : HoldJointParams) (s : SpeedFraction) : joint_ok q jp -> joint_ok q (at_speed_fraction s jp).
Proof. intros []. by constructor. Qed.

Lemma mul_one_nonneg (x : f64) : fle fzero x = true -> fle fzero (mul64 x fone) = true.
Proof.
  intros H. destruct (nonneg_fpos x H) as [Hp | ->]; [|reflexivity]. apply fpos_nonneg, mul64_pos; [exact Hp|reflexivity..].
Qed.

Lemma wave_cap_nonneg (jp : HoldJointParams) : speeds_ok jp -> fle fzero (clamp_v_max (velocity_cap jp) (trajectory_v_max jp)) = true.
Proof.
  intros [H1 H2]. unfold clamp_v_max. destruct (velocity_cap jp) as [c|]; [|exact H1].
  destruct (fmin_or (trajectory_v_max jp) c) as [-> | ->]; [exact H1|by apply H2].
Qed.

Lemma speeds_ok_full (jp : HoldJointParams) : speeds_ok jp -> speeds_ok (at_speed_fraction FULL jp).
Proof.
  intros [H1 H2]. split; [exact (mul_one_nonneg _ H1)|]. cbn. intros cap. destruct (velocity_cap jp) as [c|]; [|discriminate].
  cbn. intros [= <-]. exact (mul_one_nonneg _ (H2 c eq_refl)).
Qed.

Lemma approach_velocity_total {E : Type} (p : JointLimitPolicy) (q dq v : f64) :
  exists x, @approach_velocity_cap E p q dq v = Ok x.
Proof.
  unfold approach_velocity_cap. destruct (fle v fzero); [eauto|]. destruct (fle _ _); [eauto|].
  repeat match goal with
  | |- context [rbind (if ?b then _ else _) _] => destruct b; cbn [rbind]
  | |- context [fclamp ?x ?lo ?hi] => let y := fresh in destruct (@fclamp_ok E x lo hi eq_refl) as [y ->]; cbn [rbind]
  end; eauto.
Qed.

Lemma policy_speed_total {E : Type} (policy : option JointLimitPolicy) (q dq v : f64) :
  exists x, match policy with Some p => @approach_velocity_cap E p q dq v | None => Ok v end = Ok x.
Proof. destruct policy as [p|]; [apply approach_velocity_total|eauto]. Qed.

(** ** The planner pass on one joint *)

Lemma tick_lead_ok (a : AdvanceIn) (p : JointPositionPlanner) : joint_ok (a_q a) (a_params a) -> lead_ok (a_q a) (tick_lead a p).
Proof.
  intros []. unfold tick_lead, position_hold_effective_max_lead.
  destruct (low_angle_breakaway_active _ _ _ _); [assumption|]. by destruct (_ && _ && _).
Qed.

Lemma advance_scaled_ok (a : AdvanceIn) (g : ScaledPdGains) (m : Motion) :
  exists m', advance_scaled a g m = Ok m'
    /\ m_recovery m' = recovery_update false (watched_travel a) (a_q a) (a_threshold a) (a_period a) (m_recovery m).
Proof.
  unfold advance_scaled.
  match goal with |- context [match limit_policy _ with Some _ => approach_velocity_cap _ ?q ?dq ?v | None => _ end] =>
    destruct (@policy_speed_total Empty_set (limit_policy (a_params a)) q dq v) as [vt ->] end. cbn [rbind].
  unfold advance_reference.
  match goal with |- context [governor_scale ?a ?b ?c ?d ?e] =>
    assert (Hg : exists s, governor_scale a b c d e = Ok s) end.
  { unfold governor_scale. destruct (fle _ _); [eauto|]. destruct (time_scale_cases (fabs (sub64 (q_traj (m_planner m)) (a_q a))) (e0 g) (e1 g)) as (s & Hs & _). eauto. }
  destruct Hg as [s ->]. cbn [rbind]. destruct (reference_step _ _ _ _ _ _) as [[x v] ph]. cbn [rbind]. eauto.
Qed.

Lemma advance_legacy_ok (a : AdvanceIn) (m : Motion) :
  joint_ok (a_q a) (a_params a) ->
  exists m', advance_legacy a m = Ok m' /\ lead_ok (a_q a) (m_lead m')
    /\ exists active, m_recovery m' = recovery_update active (watched_travel a) (a_q a) (a_threshold a) (a_period a) (m_recovery m).
Proof.
  intros J. unfold advance_legacy. destruct (realign a (m_planner m)) as [p ev].
  match goal with |- context [if ?f then Ok ?x else step_planner a ?p ?ev] =>
    assert (Hs : exists y, (if f then Ok x else step_planner a p ev) = Ok y) end.
  { destruct (_ || _); [eauto|]. unfold step_planner.
    match goal with |- context [match limit_policy _ with Some _ => approach_velocity_cap _ ?q ?dq ?v | None => _ end] =>
      destruct (@policy_speed_total Empty_set (limit_policy (a_params a)) q dq v) as [vt ->] end. cbn [rbind]. eauto. }
  destruct Hs as [[p' ev'] ->]. cbn [rbind]. eexists. split; [reflexivity|]. split; [by apply tick_lead_ok|]. eauto.
Qed.

Lemma advance_wave_ok (a : AdvanceIn) (dq : f64) (m : Motion) :
  joint_ok (a_q a) (a_params a) -> speeds_ok (a_params a) ->
  exists m', advance_wave a dq m = Ok m' /\ lead_ok (a_q a) (m_lead m').
Proof.
  intros J Hs. unfold advance_wave.
  destruct (clamp_symmetric dq _ (wave_cap_nonneg _ Hs)) as (y & -> & _). cbn [rbind].
  eexists. split; [reflexivity|]. by apply tick_lead_ok.
Qed.

(** Every branch returns; a joint of the legacy law gets a usable lead. *)
Lemma advance_motion_ok (owned : bool) (dq : f64) (a : AdvanceIn) (m : Motion) :
  joint_ok (a_q a) (a_params a) -> (owned = true -> speeds_ok (a_params a)) ->
  exists m', advance_motion owned dq a m = Ok m' /\ (law (a_params a) = LegacyLaw -> lead_ok (a_q a) (m_lead m')).
Proof.
  intros J Hs. unfold advance_motion. destruct owned.
  - destruct (advance_wave_ok a dq m J (Hs eq_refl)) as (m' & H & L). eauto.
  - destruct (law (a_params a)) as [|g].
    + destruct (advance_legacy_ok a m J) as (m' & H & L & _). eauto.
    + destruct (advance_scaled_ok a g m) as (m' & H & _). exists m'. split; [exact H|discriminate].
Qed.

(** Unless a wave owns the joint, its travel fuse observes the tick. *)
Lemma advance_motion_recovery (dq : f64) (a : AdvanceIn) (m m' : Motion) :
  advance_motion false dq a m = Ok m' ->
  exists active, m_recovery m' = recovery_update active (watched_travel a) (a_q a) (a_threshold a) (a_period a) (m_recovery m).
Proof.
  unfold advance_motion. destruct (law (a_params a)) as [|g]; intros H.
  - unfold advance_legacy in H. destruct (realign a (m_planner m)) as [p ev]. bind_inv H. destruct x as [p' ev'].
    injection H as <-. eauto.
  - destruct (advance_scaled_ok a g m) as (k & Hk & Hr). rewrite H in Hk. injection Hk as <-. eauto.
Qed.

(** ** The planner pass *)

(** What the planner pass leaves alone. *)
Record pass_frame (h0 h : PositionHold) : Prop := mkPassFrame {
  pf_n : n_joints h = n_joints h0;
  pf_goals : goals h = goals h0;
  pf_retarget : retarget_tick (plans h) = retarget_tick (plans h0);
  pf_thresholds : progress_thresholds (fuses h) = progress_thresholds (fuses h0);
  pf_commanded : commanded_joints (fuses h) = commanded_joints (fuses h0);
  pf_planners : is_Some (planners (plans h))
}.

(** A joint's travel fuse and its lead. *)
Definition entry (i : nat) (h : PositionHold) : option AscentRecovery * option f64 :=
  (recovery_at h i, tick_effective_max_lead (plans h) !! i).

(** What the pass does to them. *)
Definition entry_advanced (w : HoldWorld) (tgts : list f64) (h0 : PositionHold) (period : Z) (i : nat)
  (v v' : option AscentRecovery * option f64) : Prop :=
  exists (jp : HoldJointParams) (q t : f64) (c : bool) (thr : f64),
    w_joints w !! i = Some jp /\ w_q w !! i = Some q /\ tgts !! i = Some t
    /\ commanded_joints (fuses h0) !! i = Some c /\ progress_thresholds (fuses h0) !! i = Some thr
    /\ (owns (w_wave w) i = false -> forall r : AscentRecovery, v.1 = Some r ->
          exists active : bool, v'.1 = Some (recovery_update active (if c then travel_stall_direction t (sub64 t q) else None)
                                        q thr period r))
    /\ (joint_ok q jp -> (owns (w_wave w) i = true -> speeds_ok jp) -> law jp = LegacyLaw ->
          exists L : f64, v'.2 = Some L /\ lead_ok q L).

Lemma load_motion_ok (i : nat) (h : PositionHold) :
  hold_wf h -> is_Some (planners (plans h)) -> (i < n_joints h)%nat -> exists m, load_motion i h = Ok m.
Proof.
  intros H [ps Hp] Hi. unfold load_motion. rewrite Hp. change (default [] (Some ps)) with ps.
  assert (Hl : length ps = n_joints h) by (pose proof (wf_planners _ H) as X; by rewrite Hp in X).
  destruct (@vec_get_lt Empty_set _ ps i _ Hl Hi) as (? & _ & ->). cbn [rbind].
  destruct (@vec_get_lt Empty_set _ _ i _ (wf_wave _ H) Hi) as (? & _ & ->). cbn [rbind].
  destruct (@vec_get_lt Empty_set _ _ i _ (wf_scaled _ H) Hi) as (? & _ & ->). cbn [rbind].
  destruct (@vec_get_lt Empty_set _ _ i _ (wf_lead _ H) Hi) as (? & _ & ->). cbn [rbind].
  destruct (@vec_get_lt Empty_set _ _ i _ (wf_residual _ H) Hi) as (? & _ & ->). cbn [rbind]. eauto.
Qed.

(** The vectors a pass indexes besides those of the hold. *)
Definition sized (n : nat) (w : HoldWorld) (tgts dqs : list f64) : Prop :=
  length (w_joints w) = n /\ length (w_q w) = n /\ length tgts = n /\ length dqs = n.

Lemma load_advance_ok (w : HoldWorld) (tgts dqs : list f64) (period : Z) (i : nat) (p : JointPositionPlanner)
  (h : PositionHold) :
  hold_wf h -> sized (n_joints h) w tgts dqs -> (i < n_joints h)%nat ->
  exists a, load_advance w tgts dqs period i p h = Ok a.
Proof.
  intros H (S1 & S2 & S3 & S4) Hi. unfold load_advance.
  destruct (@vec_get_lt Empty_set _ _ i _ S1 Hi) as (? & _ & ->). cbn [rbind].
  destruct (@vec_get_lt Empty_set _ _ i _ S2 Hi) as (? & _ & ->). cbn [rbind].
  destruct (@vec_get_lt Empty_set _ _ i _ S3 Hi) as (? & _ & ->). cbn [rbind].
  destruct (@vec_get_lt Empty_set _ _ i _ S4 Hi) as (? & _ & ->). cbn [rbind].
  destruct (@vec_get_lt Empty_set _ _ i _ (wf_commanded _ H) Hi) as (? & _ & ->). cbn [rbind].
  destruct (@vec_get_lt Empty_set _ _ i _ (wf_thresholds _ H) Hi) as (? & _ & ->). cbn [rbind].
  destruct (@vec_get_lt Empty_set _ _ i _ (wf_speeds _ H) Hi) as (? & _ & ->). cbn [rbind]. eauto.
Qed.

Lemma load_advance_inv (w : HoldWorld) (tgts dqs : list f64) (period : Z) (i : nat) (p : JointPositionPlanner)
  (h : PositionHold) (a : AdvanceIn) :
  load_advance w tgts dqs period i p h = Ok a ->
  w_joints w !! i = Some (a_params a) /\ w_q w !! i = Some (a_q a) /\ tgts !! i = Some (a_target a)
  /\ commanded_joints (fuses h) !! i = Some (a_commanded a) /\ progress_thresholds (fuses h) !! i = Some (a_threshold a)
  /\ a_period a = period.
Proof.
  unfold load_advance. intros H. repeat bind_inv H. injection H as <-. cbn.
  repeat match goal with E : vec_get _ _ = Ok _ |- _ => apply vec_get_some in E end. by repeat split.
Qed.

Lemma store_motion_wf (i : nat) (m : Motion) (h : PositionHold) : hold_wf h -> hold_wf (store_motion i m h).
Proof. intros H. wf_solve H. Qed.

Lemma store_motion_frame (i : nat) (m : Motion) (h0 h : PositionHold) : pass_frame h0 h -> pass_frame h0 (store_motion i m h).
Proof. intros []. split; try assumption. cbn. destruct (planners (plans h)); [by cbn|assumption]. Qed.

Lemma store_motion_entry_ne (i j : nat) (m : Motion) (h : PositionHold) : j <> i -> entry j (store_motion i m h) = entry j h.
Proof.
  intros Hn. unfold entry, recovery_at. cbn. rewrite get_put_ne by congruence. by rewrite list_lookup_insert_ne by congruence.
Qed.

Lemma store_motion_recovery (i : nat) (m : Motion) (h : PositionHold) (r : AscentRecovery) :
  recovery_at h i = Some r -> recovery_at (store_motion i m h) i = Some (m_recovery m).
Proof.
  unfold recovery_at. cbn. destruct (ascent_recovery (latches h)) as [v|]; [|discriminate]. cbn. intros Hr.
  apply list_lookup_insert_eq. by eapply lookup_lt_Some.
Qed.

Lemma advance_joint_step (w : HoldWorld) (tgts dqs : list f64) (cmd : option (nat * f64)) (period : Z) (h0 : PositionHold)
  (i : nat) (h h' : PositionHold) :
  advance_joint w tgts dqs cmd period i h = Ok h' -> hold_wf h /\ pass_frame h0 h ->
  (hold_wf h' /\ pass_frame h0 h')
  /\ entry_advanced w tgts h0 period i (entry i h) (entry i h')
  /\ forall j, j <> i -> entry j h' = entry j h.
Proof.
  unfold advance_joint. intros H [W F]. bind_inv H. bind_inv H. bind_inv H. injection H as <-.
  split; [split; [by apply store_motion_wf|by apply store_motion_frame]|].
  split; [|intros j Hj; by apply store_motion_entry_ne].
  destruct (load_advance_inv _ _ _ _ _ _ _ _ E0) as (L1 & L2 & L3 & L4 & L5 & L6).
  rewrite (pf_commanded _ _ F) in L4. rewrite (pf_thresholds _ _ F) in L5.
  eexists _, _, _, _, _. do 5 (split; [eassumption|]). split.
  - intros Ho r Hr. rewrite Ho in E1. destruct (advance_motion_recovery _ _ _ _ E1) as [act Ha]. exists act.
    cbn [fst entry] in *. rewrite (store_motion_recovery _ _ _ _ Hr), Ha, L6.
    unfold load_motion in E. repeat bind_inv E. injection E as <-. cbn [m_recovery]. fold (recovery_at h i). rewrite Hr. reflexivity.
  - intros J Hs Hl. destruct (advance_motion_ok (owns (w_wave w) i) (wave_dq cmd i) x0 x J Hs) as (m' & Hm & Hlead).
    rewrite E1 in Hm. injection Hm as <-. exists (m_lead x1). split; [|by apply Hlead]. cbn [snd entry].
    cbn. apply list_lookup_insert_eq. unfold load_motion in E. repeat bind_inv E.
    repeat match goal with X : vec_get _ _ = Ok _ |- _ => apply vec_get_some in X end. by eapply lookup_lt_Some.
Qed.

Lemma advance_joint_total (w : HoldWorld) (tgts dqs : list f64) (cmd : option (nat * f64)) (period : Z) (h0 : PositionHold)
  (i : nat) (h : PositionHold) :
  sized (n_joints h0) w tgts dqs ->
  (forall q jp, w_q w !! i = Some q -> w_joints w !! i = Some jp -> joint_ok q jp /\ (owns (w_wave w) i = true -> speeds_ok jp)) ->
  (i < n_joints h0)%nat -> hold_wf h /\ pass_frame h0 h ->
  exists h', advance_joint w tgts dqs cmd period i h = Ok h' /\ (hold_wf h' /\ pass_frame h0 h').
Proof.
  intros Hsz Hok Hi [W F]. unfold advance_joint.
  rewrite <- (pf_n _ _ F) in Hi, Hsz.
  destruct (load_motion_ok i h W (pf_planners _ _ F) Hi) as [m ->]. cbn [rbind].
  destruct (load_advance_ok w tgts dqs period i (m_planner m) h W Hsz Hi) as [a Ha]. rewrite Ha. cbn [rbind].
  destruct (load_advance_inv _ _ _ _ _ _ _ _ Ha) as (L1 & L2 & _). destruct (Hok _ _ L2 L1) as [J Hs].
  destruct (advance_motion_ok (owns (w_wave w) i) (wave_dq cmd i) a m J Hs) as (m' & -> & _). cbn [rbind].
  eexists. split; [reflexivity|]. split; [by apply store_motion_wf|by apply store_motion_frame].
Qed.

(** ** Before the pass *)

(** Law changes, velocity filtering and opening the pass. *)
Record settled (h k : PositionHold) : Prop := mkSettled {
  st_wf : hold_wf k;
  st_n : n_joints k = n_joints h;
  st_setpoints : setpoints (goals k) = setpoints (goals h);
  st_speeds : speeds (goals k) = speeds (goals h);
  st_planners : planners (plans k) = planners (plans h);
  st_latches : latches k = latches h;
  st_fuses : fuses k = fuses h
}.

Lemma settled_refl (h : PositionHold) : hold_wf h -> settled h h.
Proof. by split. Qed.

Lemma settled_trans (a b c : PositionHold) : settled a b -> settled b c -> settled a c.
Proof. intros [] []. split; congruence. Qed.

Lemma set_dq_settled (h : PositionHold) (d : option (list f64)) :
  hold_wf h -> opt_len (n_joints h) d -> settled h (set_plans (set_dq_filtered d (plans h)) h).
Proof. intros H Hd. split; try reflexivity. destruct H; split; wf_done. Qed.

Lemma adopt_law_settled (w : HoldWorld) (i : nat) (h : PositionHold) :
  hold_wf h -> (i < length (w_joints w))%nat -> exists h', adopt_law w i h = Ok h' /\ settled h h'.
Proof.
  intros H Hi. unfold adopt_law. destruct (@vec_get_lt Empty_set _ (w_joints w) i _ eq_refl Hi) as (jp & _ & ->). cbn [rbind].
  destruct (set_joint_law_wf i (law_kind (law jp)) h H) as (h' & E & W & N). exists h'. split; [exact E|].
  unfold set_joint_law in E. destruct (laws (goals h) !! i); [|injection E as <-; by split].
  destruct (bool_decide _); [injection E as <-; by split|]. bind_inv E. injection E as <-. by split.
Qed.

Lemma filter_joint_settled (w : HoldWorld) (i : nat) (h : PositionHold) :
  hold_wf h -> (i < n_joints h)%nat -> length (w_dq_meas w) = n_joints h ->
  exists dq h', filter_joint w i h = Ok (dq, h') /\ settled h h'.
Proof.
  intros H Hi Hl. unfold filter_joint. destruct (@vec_get_lt Empty_set _ (w_dq_meas w) i _ Hl Hi) as (dq & _ & ->). cbn [rbind].
  unfold filtered_dq. pose proof (wf_dq _ H) as Hd. destruct (dq_filtered (plans h)) as [f|]; cbn in Hd.
  - destruct (@vec_get_lt Empty_set _ f i _ Hd Hi) as (prev & _ & ->). cbn [rbind]. eexists _, _. split; [reflexivity|].
    apply set_dq_settled; [exact H|]. cbn. by rewrite length_insert.
  - eexists _, _. split; [reflexivity|]. apply set_dq_settled; [exact H|]. cbn. by rewrite length_replicate.
Qed.

Lemma open_pass_settled (h : PositionHold) : hold_wf h -> settled h (open_pass h).
Proof. intros H. split; try reflexivity. wf_solve H. Qed.

(** The state the pass starts from. *)
Record ready (h k : PositionHold) : Prop := mkReady {
  rd_wf : hold_wf k;
  rd_n : n_joints k = n_joints h;
  rd_setpoints : setpoints (goals k) = setpoints (goals h);
  rd_speeds : speeds (goals k) = speeds (goals h);
  rd_planners : is_Some (planners (plans k));
  rd_recovery : is_Some (ascent_recovery (latches k));
  rd_thresholds : progress_thresholds (fuses k) = progress_thresholds (fuses h);
  rd_commanded : commanded_joints (fuses k) = commanded_joints (fuses h);
  rd_episodes : is_Some (planners (plans h)) -> forall i r, recovery_at h i = Some r -> recovery_at k i = Some r
}.

Lemma ready_settled (h k k' : PositionHold) : ready h k -> settled k k' -> ready h k'.
Proof.
  intros [] []. split; try congruence.
  intros Hp i r Hr. unfold recovery_at. rewrite st_latches0. by apply rd_episodes0.
Qed.

Lemma first_planners_ok (w : HoldWorld) (h : PositionHold) :
  hold_wf h -> length (w_dq_meas w) = n_joints h ->
  exists k, first_planners w h = Ok k /\ ready h (init_latch_state k).
Proof.
  intros H Hl. unfold first_planners. destruct (planners (plans h)) as [ps|] eqn:Hp.
  - exists h. split; [reflexivity|]. split; try reflexivity; try (by apply init_latch_state_wf).
    + cbn. by rewrite Hp.
    + cbn. by destruct (ascent_recovery (latches h)).
    + intros _ i r Hr. revert Hr. unfold recovery_at. cbn. by destruct (ascent_recovery (latches h)).
  - set (k0 := init_planners _ _ h). assert (W0 : hold_wf k0) by (by apply init_planners_wf).
    assert (N0 : n_joints k0 = n_joints h) by reflexivity.
    destruct (for_each_total (E := Empty_set) (fun i h =>
          let! dq := vec_get (w_dq_meas w) i in
          let! d := set_opt i dq (dq_filtered (plans h)) in
          Ok (set_plans (set_dq_filtered d (plans h)) h)) (settled k0) (seq 0 (length (w_dq_meas w))) k0)
      as (k & Ek & Hk); [by apply settled_refl| |].
    { intros i s Hi Hs. apply elem_of_seq in Hi as [_ Hi]. cbn in Hi.
      destruct (@vec_get_lt Empty_set _ (w_dq_meas w) i _ eq_refl Hi) as (dq & _ & ->). cbn [rbind].
      assert (Hn : (i < n_joints s)%nat) by (rewrite (st_n _ _ Hs), N0, <- Hl; exact Hi).
      rewrite (set_opt_lt _ i _ dq (wf_dq _ (st_wf _ _ Hs)) Hn). cbn [rbind]. eexists. split; [reflexivity|].
      apply (settled_trans _ _ _ Hs), set_dq_settled; [apply Hs|]. apply opt_len_put, wf_dq, Hs. }
    exists k. split; [exact Ek|]. destruct Hk. split.
    + by apply init_latch_state_wf.
    + exact st_n0.
    + exact st_setpoints0.
    + exact st_speeds0.
    + change (is_Some (planners (plans k))). rewrite st_planners0. by eexists.
    + cbn. by destruct (ascent_recovery (latches k)).
    + cbn. by rewrite st_fuses0.
    + cbn. by rewrite st_fuses0.
    + intros [ps Hs]. by rewrite Hp in Hs.
Qed.

(** [advance_planners] is the loop over a ready state. *)
Lemma advance_planners_pass (w : HoldWorld) (cmd : option (nat * f64)) (period : Z) (h : PositionHold) (tgts : list f64) :
  hold_wf h -> length (w_dq_meas w) = n_joints h -> length (w_joints w) = n_joints h ->
  setpoints (goals h) = Some tgts ->
  exists k dqs, ready h k /\ length dqs = n_joints h
    /\ advance_planners w cmd period h = for_each (advance_joint w tgts dqs cmd period) (seq 0 (n_joints h)) k.
Proof.
  intros H Hd Hj Ht. unfold advance_planners. rewrite Ht.
  destruct (first_planners_ok w h H Hd) as (k0 & -> & R0). cbn [rbind].
  revert R0. generalize (init_latch_state k0). clear k0. intros k0 R0.
  destruct (for_each_total (adopt_law w) (settled k0) (seq 0 (length (w_joints w))) k0) as (k1 & -> & S1);
    [apply settled_refl, R0| |].
  { intros i s Hi Hs. apply elem_of_seq in Hi as [_ Hi]. destruct (adopt_law_settled w i s (st_wf _ _ Hs) Hi) as (s' & E & S').
    exists s'. split; [exact E|]. by apply (settled_trans _ s). }
  cbn [rbind]. pose proof (ready_settled _ _ _ R0 S1) as R1.
  assert (Hf : forall i s, (i < 0 + n_joints k1)%nat -> settled k1 s ->
     match filter_joint w i s with Ok (_, s') => settled k1 s' /\ True | Err _ => False | Panic => False end).
  { intros i s Hi Hs. destruct (filter_joint_settled w i s (st_wf _ _ Hs)) as (dq & s' & -> & S');
      [rewrite (st_n _ _ Hs); exact Hi|rewrite (st_n _ _ Hs), (rd_n _ _ R1); exact Hd|].
    split; [by apply (settled_trans _ s)|exact I]. }
  pose proof (map_each_total (filter_joint w) (settled k1) (fun _ _ => True) (fun _ => False) (n_joints k1) 0 k1
    (settled_refl _ (rd_wf _ _ R1)) Hf) as Hm.
  destruct (map_each (filter_joint w) (seq 0 (n_joints k1)) k1) as [[dqs k2]| |]; cbn [rbind]; [|contradiction..].
  destruct Hm as (S2 & Hlen & _).
  pose proof (ready_settled _ _ _ R1 S2) as R2. pose proof (open_pass_settled k2 (rd_wf _ _ R2)) as S3.
  exists (open_pass k2), dqs. split; [by apply (ready_settled _ k2)|]. split; [by rewrite Hlen, (rd_n _ _ R1)|].
  by rewrite (rd_n _ _ R2).
Qed.

(** ** The planner pass with its wave *)

(** The sizes [hold_tick] checks, and a wave on a joint the arm has. *)
Record fits (n : nat) (w : HoldWorld) : Prop := mkFits {
  ft_q : length (w_q w) = n;
  ft_dq : length (w_dq_meas w) = n;
  ft_tau : length (w_tau_g w) = n;
  ft_joints : length (w_joints w) = n;
  ft_names : length (w_joint_names w) = n;
  ft_wave : forall wave, w_wave w = Some wave -> (joint_index wave < n)%nat
}.

Definition joints_ok (w : HoldWorld) : Prop :=
  forall i q jp, w_q w !! i = Some q -> w_joints w !! i = Some jp ->
    joint_ok q jp /\ (owns (w_wave w) i = true -> speeds_ok jp).

Record advanced (w : HoldWorld) (period : Z) (h h' : PositionHold) : Prop := mkAdvanced {
  av_wf : hold_wf h';
  av_n : n_joints h' = n_joints h;
  av_setpoints : is_Some (setpoints (goals h'));
  av_planners : is_Some (planners (plans h'));
  av_recovery : is_Some (ascent_recovery (latches h'));
  av_thresholds : progress_thresholds (fuses h') = progress_thresholds (fuses h);
  av_commanded : commanded_joints (fuses h') = commanded_joints (fuses h);
  av_entries : forall i, (i < n_joints h)%nat ->
    exists (jp : HoldJointParams) (q : f64) (c : bool) (thr : f64),
      w_joints w !! i = Some jp /\ w_q w !! i = Some q
      /\ commanded_joints (fuses h) !! i = Some c /\ progress_thresholds (fuses h) !! i = Some thr
      /\ (owns (w_wave w) i = false -> is_Some (planners (plans h)) ->
          forall (t : f64) (r : AscentRecovery), get_at (setpoints (goals h)) i = Some t -> recovery_at h i = Some r ->
          exists active : bool, recovery_at h' i = Some (recovery_update active
            (if c then travel_stall_direction t (sub64 t q) else None) q thr period r))
      /\ (joint_ok q jp -> (owns (w_wave w) i = true -> speeds_ok jp) -> law jp = LegacyLaw ->
          exists L : f64, tick_effective_max_lead (plans h') !! i = Some L /\ lead_ok q L)
}.

Lemma advance_planners_total (w : HoldWorld) (cmd : option (nat * f64)) (period : Z) (h : PositionHold) :
  hold_wf h -> is_Some (setpoints (goals h)) -> fits (n_joints h) w -> joints_ok w ->
  exists h', advance_planners w cmd period h = Ok h'.
Proof.
  intros H [sp Hs] F J. destruct (advance_planners_pass w cmd period h sp H (ft_dq _ _ F) (ft_joints _ _ F) Hs)
    as (k & dqs & R & Hl & ->).
  destruct (for_each_total (advance_joint w sp dqs cmd period) (fun s => hold_wf s /\ pass_frame k s) (seq 0 (n_joints h)) k)
    as (h' & E & _); [split; [apply R|]; split; try reflexivity; apply R| |eauto].
  intros i s Hi HP. apply elem_of_seq in Hi as [_ Hi]. cbn in Hi. rewrite <- (rd_n _ _ R) in Hi.
  apply (advance_joint_total w sp dqs cmd period k i s); [|by intros q jp Hq Hj; apply (J i)|exact Hi|exact HP].
  rewrite (rd_n _ _ R). destruct F. repeat split; try assumption.
  pose proof (wf_setpoints _ H) as Hw. by rewrite Hs in Hw.
Qed.

Lemma advance_planners_advanced (w : HoldWorld) (cmd : option (nat * f64)) (period : Z) (h h' : PositionHold) :
  hold_wf h -> is_Some (setpoints (goals h)) -> fits (n_joints h) w ->
  advance_planners w cmd period h = Ok h' -> advanced w period h h'.
Proof.
  intros H [sp Hs] F E. destruct (advance_planners_pass w cmd period h sp H (ft_dq _ _ F) (ft_joints _ _ F) Hs)
    as (k & dqs & R & Hl & E2). rewrite E2 in E. clear E2.
  destruct (for_each_pointwise (advance_joint w sp dqs cmd period) entry (fun s => hold_wf s /\ pass_frame k s)
    (entry_advanced w sp k period) (seq 0 (n_joints h)) k h') as ([W P] & HR & _);
    [apply NoDup_seq|split; [apply R|]; split; try reflexivity; apply R|exact E
    |intros i s s' Hs'; exact (advance_joint_step w sp dqs cmd period k i s s' Hs')|].
  assert (Hrec : is_Some (ascent_recovery (latches h'))).
  { destruct (for_each_pointwise (advance_joint w sp dqs cmd period) (fun _ s => bool_decide (is_Some (ascent_recovery (latches s))))
      (fun _ => True) (fun _ _ _ => True) (seq 0 (n_joints h)) k h') as (_ & _ & Hout);
      [apply NoDup_seq|exact I|exact E| |].
    - intros i s s' Hs'. split; [exact I|]. split; [exact I|]. intros j _. unfold advance_joint in Hs'. repeat bind_inv Hs'.
      injection Hs' as <-. cbn. apply bool_decide_ext. by destruct (ascent_recovery (latches s)).
    - specialize (Hout (n_joints h)). rewrite elem_of_seq in Hout. specialize (Hout ltac:(lia)).
      rewrite (bool_decide_eq_true_2 _ (rd_recovery _ _ R)) in Hout. by apply bool_decide_eq_true in Hout. }
  split; [exact W|by rewrite (pf_n _ _ P), (rd_n _ _ R)| |apply P|exact Hrec| | |].
  - rewrite (pf_goals _ _ P), (rd_setpoints _ _ R), Hs. eauto.
  - by rewrite (pf_thresholds _ _ P), (rd_thresholds _ _ R).
  - by rewrite (pf_commanded _ _ P), (rd_commanded _ _ R).
  - intros i Hi. destruct (HR i) as (jp & q & t & c & thr & A1 & A2 & A3 & A4 & A5 & A6 & A7); [apply elem_of_seq; lia|].
    rewrite (rd_commanded _ _ R) in A4. rewrite (rd_thresholds _ _ R) in A5.
    exists jp, q, c, thr. do 4 (split; [assumption|]). split; [|exact A7].
    intros Ho Hp t' r Ht Hr. rewrite Hs in Ht. cbn in Ht. assert (t' = t) as -> by congruence.
    destruct (A6 Ho r (rd_episodes _ _ R Hp i r Hr)) as [act Ha]. by exists act.
Qed.

Lemma latch_joint_target_ok (i : nat) (x : f64) (h : PositionHold) :
  hold_wf h -> (i < n_joints h)%nat ->
  exists h', latch_joint_target i x h = Ok h' /\ hold_wf h' /\ n_joints h' = n_joints h
    /\ (is_Some (setpoints (goals h)) -> is_Some (setpoints (goals h')))
    /\ (forall j, j <> i -> get_at (setpoints (goals h')) j = get_at (setpoints (goals h)) j)
    /\ plans h' = plans h /\ latches h' = latches h /\ fuses h' = fuses h.
Proof.
  intros H Hi. unfold latch_joint_target.
  destruct (setpoints (goals h)) as [sp|] eqn:Es; [|by exists h; rewrite Es].
  destruct (setpoints_raw (goals h)) as [raw|] eqn:Er; [|exists h; rewrite Es; by repeat split; apply H || eauto].
  pose proof (wf_setpoints _ H) as Hs. rewrite Es in Hs. pose proof (wf_raw _ H) as Hr. rewrite Er in Hr. cbn in Hs, Hr.
  rewrite (vec_set_lt sp i _ _ Hs Hi). cbn [rbind]. rewrite (vec_set_lt raw i _ _ Hr Hi). cbn [rbind].
  eexists. split; [reflexivity|]. split; [destruct H; split; wf_done|]. split; [reflexivity|]. split; [cbn; eauto|].
  split; [|by split]. intros j Hj. cbn. by rewrite list_lookup_insert_ne by congruence.
Qed.

Lemma sampled_wave_index (cos sin : f64 -> f64) (t hz : Z) (wave : PositionWave) :
  joint_index (target_and_velocity_at_tick cos sin t hz wave).2 = joint_index wave.
Proof. unfold target_and_velocity_at_tick. by destruct (_ <=? _). Qed.

Lemma owns_with_wave (w : HoldWorld) (wave wave' : PositionWave) (i : nat) :
  w_wave w = Some wave -> joint_index wave' = joint_index wave ->
  owns (w_wave (with_wave (Some wave') w)) i = owns (w_wave w) i.
Proof. intros Hw Hj. unfold owns. rewrite Hw. cbn. by rewrite Hj. Qed.

(** Latching the wave's sample first changes nothing for the other joints. *)
Lemma advanced_latched (w : HoldWorld) (wave wave' : PositionWave) (x : f64) (cmd : option (nat * f64)) (period : Z)
  (h h1 h' : PositionHold) :
  hold_wf h -> is_Some (setpoints (goals h)) -> fits (n_joints h) w -> w_wave w = Some wave ->
  joint_index wave' = joint_index wave ->
  latch_joint_target (joint_index wave) x h = Ok h1 ->
  advance_planners (with_wave (Some wave') w) cmd period h1 = Ok h' -> advanced w period h h'.
Proof.
  intros H Hs F Hw Hj E1 E2.
  destruct (latch_joint_target_ok (joint_index wave) x h H (ft_wave _ _ F _ Hw))
    as (k & Ek & W & N & S & O & P & L & Fu).
  rewrite E1 in Ek. injection Ek as <-.
  assert (Ho := fun i => owns_with_wave w wave wave' i Hw Hj).
  destruct (advance_planners_advanced (with_wave (Some wave') w) cmd period h1 h' W (S Hs)) as [];
    [rewrite N; destruct F; split; try assumption; cbn; intros ? [= <-]; rewrite Hj; eauto|exact E2|].
  split; try assumption.
  - by rewrite av_n0, N.
  - by rewrite av_thresholds0, Fu.
  - by rewrite av_commanded0, Fu.
  - intros i Hi. destruct (av_entries0 i) as (jp & q & c & thr & A1 & A2 & A3 & A4 & A5 & A6); [by rewrite N|].
    rewrite Ho in A5, A6. rewrite Fu in A3, A4. exists jp, q, c, thr. do 4 (split; [assumption|]). split; [|exact A6].
    intros Hn Hp t r Ht Hr. apply A5; [exact Hn|by rewrite P| |unfold recovery_at; by rewrite L].
    rewrite O; [exact Ht|]. unfold owns in Hn. rewrite Hw in Hn. apply bool_decide_eq_false in Hn. congruence.
Qed.

Section Tick.
Variables exp tanh cos sin : f64 -> f64.

Lemma advance_advanced (w : HoldWorld) (period : Z) (h h' : PositionHold) (wave' : option PositionWave) :
  hold_wf h -> is_Some (setpoints (goals h)) -> fits (n_joints h) w ->
  advance cos sin w period h = Ok (h', wave') ->
  advanced w period h h' /\ forall i, owns (w_wave w) i = false -> owns wave' i = false.
Proof.
  intros H Hs F E. unfold advance in E. destruct (w_wave w) as [wave|] eqn:Hw.
  - bind_inv E. pose proof (sampled_wave_index cos sin (w_tick_count w) (w_hz w) wave) as Hj.
    destruct (target_and_velocity_at_tick cos sin (w_tick_count w) (w_hz w) wave) as [[[t dq]|] wv]; cbn [snd] in Hj.
    + bind_inv E. bind_inv E. injection E as <- <-. split; [exact (advanced_latched w wave wv _ _ _ _ _ _ H Hs F Hw Hj E1 E2)|].
      intros i. cbn. by rewrite Hj.
    + bind_inv E. bind_inv E. injection E as <- <-. split; [exact (advanced_latched w wave wv _ _ _ _ _ _ H Hs F Hw Hj E1 E2)|].
      by intros i _.
  - bind_inv E. injection E as <- <-. split; [exact (advance_planners_advanced w None period h _ H Hs F E0)|auto].
Qed.

Lemma advance_total (w : HoldWorld) (period : Z) (h : PositionHold) :
  hold_wf h -> is_Some (setpoints (goals h)) -> fits (n_joints h) w -> joints_ok w ->
  exists h' wave', advance cos sin w period h = Ok (h', wave').
Proof.
  intros H Hs F J. unfold advance. destruct (w_wave w) as [wave|] eqn:Hw.
  - pose proof (ft_wave _ _ F _ Hw) as Hi.
    destruct (@vec_get_lt Empty_set _ _ _ _ (ft_names _ _ F) Hi) as (nm & _ & ->). cbn [rbind].
    pose proof (sampled_wave_index cos sin (w_tick_count w) (w_hz w) wave) as Hj.
    destruct (target_and_velocity_at_tick cos sin (w_tick_count w) (w_hz w) wave) as [o wv]. cbn [snd] in Hj.
    assert (Hgo : forall x cmd, exists h1 h', latch_joint_target (joint_index wave) x h = Ok h1
      /\ advance_planners (with_wave (Some wv) w) cmd period h1 = Ok h').
    { intros x cmd. destruct (latch_joint_target_ok (joint_index wave) x h H Hi) as (h1 & E1 & W & N & S & _). exists h1.
      destruct (advance_planners_total (with_wave (Some wv) w) cmd period h1 W (S Hs)) as [h' E2]; [| |eauto].
      - rewrite N. destruct F. split; try assumption. cbn. intros ? [= <-]. by rewrite Hj.
      - intros i q jp Hq Hp. rewrite (owns_with_wave w wave wv i Hw Hj). by apply (J i). }
    destruct o as [[t dq]|].
    + destruct (Hgo t (Some (joint_index wave, dq))) as (h1 & h' & -> & E2). cbn [rbind]. rewrite E2. cbn [rbind]. eauto.
    + destruct (Hgo (end_position_rad wv) None) as (h1 & h' & -> & E2). cbn [rbind]. rewrite E2. cbn [rbind]. eauto.
  - destruct (advance_planners_total w None period h H Hs F J) as [h' ->]. cbn [rbind]. eauto.
Qed.

End Tick.

End HoldRun.
