(* ===== verification/HoldFuse.v ===== *)
(** * HoldFuse: commands and fuses of a position-hold tick

    Composition of the MIT batch is total and inside the envelope, the tick as a
    whole, and the travel stall fuse over histories of ticks and retargets. *)

From Stdlib Require Import ZArith Lia Bool SpecFloat.
From stdpp Require Import base strings list.
From S2P Require Import Prelude Float Config Limits TotalTorque Session Grants Position Friction Setpoint PosHold HoldTick HoldSafety HoldRun.

Module HoldFuse.
Import Limits Position Friction Setpoint PosHold HoldTick HoldSafety HoldRun.

(** ** Arithmetic of the legacy integral *)

Lemma round_aux_opp (s : bool) (m e : Z) (l : location) :
  binary_round_aux prec64 emax64 (negb s) m e l = fneg (binary_round_aux prec64 emax64 s m e l).
Proof.
  unfold binary_round_aux. destruct (shr_fexp prec64 emax64 m e l) as [r1 e1].
  destruct (shr_fexp prec64 emax64 _ e1 loc_Exact) as [r2 e2].
  destruct (shr_m r2); [reflexivity| |reflexivity]. by destruct (_ <=? _).
Qed.

Lemma div64_opp (x y : f64) : div64 (fneg x) y = fneg (div64 x y).
Proof.
  unfold div64, SFdiv, fneg. destruct x as [s|s| |s m e], y as [t|t| |t n f]; try reflexivity; cbn;
    rewrite <- ?negb_xorb_l; try reflexivity.
  destruct (SFdiv_core_binary _ _ _ _ _ _) as [[q e'] l]. apply round_aux_opp.
Qed.

Lemma integral_bounds (ki : f64) :
  fgt ki fzero = true -> fle (div64 (fneg MAX_INTEGRAL_NM) ki) (div64 MAX_INTEGRAL_NM ki) = true.
Proof.
  intros H. rewrite div64_opp. apply fle_neg_self.
  destruct ki as [[]|[]| |[] m e]; try discriminate H; [reflexivity|]. apply fpos_nonneg, div64_pos; reflexivity.
Qed.

(** ** One joint *)

(** A finite position inside the soft and the hard range of the policy, if any. *)
Definition in_envelope (policy : option JointLimitPolicy) (x : f64) : Prop :=
  forall p, policy = Some p ->
    is_finite x = true /\ in_range (soft_lo (bounds p)) (soft_hi (bounds p)) x = true
    /\ in_range (hard_lower p) (hard_upper p) x = true.

Lemma clamped_in_envelope (policy : option JointLimitPolicy) (q dq x : f64) :
  (forall p, policy = Some p -> bounds_wf (bounds p)) -> is_finite q = true ->
  in_envelope policy (match policy with Some p => clamp_position_in_envelope p q dq x | None => x end).
Proof.
  intros W Q p ->. destruct (clamp_position_bounds p q dq x (W p eq_refl) Q) as (A & B & C & D & F).
  unfold in_range. by rewrite A, B, C, D.
Qed.

Lemma clamp_setpoint_total (q_tr q target lead dq : f64) (policy : option JointLimitPolicy) :
  (forall p, policy = Some p -> bounds_wf (bounds p)) -> is_finite q = true -> lead_ok q lead ->
  exists y, clamp_trajectory_setpoint q_tr q target lead policy dq = Ok y.
Proof.
  intros W Q L. unfold clamp_trajectory_setpoint. destruct (@fclamp_ok Empty_set q_tr _ _ L) as [x ->]. cbn [rbind].
  match goal with |- context [settle _ _ _ _ _ ?z] => destruct (setpoint_settle_total q_tr q target dq z policy W Q) as [y ->] end.
  cbn [rbind]. eauto.
Qed.

Lemma stuck_pull_total (q target : f64) : exists y, home_final_approach_stuck_pull_rad q target = Ok y.
Proof. unfold home_final_approach_stuck_pull_rad. destruct (negb _); [eauto|]. by apply fclamp_ok. Qed.

Lemma legacy_position_ok (c : ComposeIn) (l : Latch) :
  joint_ok (c_q c) (c_params c) -> lead_ok (c_q c) (c_lead c) ->
  exists x stuck l', legacy_position c l = Ok (x, stuck, l') /\ in_envelope (limit_policy (c_params c)) x.
Proof.
  intros J L. unfold legacy_position.
  match goal with |- context [clamp_trajectory_setpoint ?a ?b ?t ?d ?p ?e] =>
    destruct (clamp_setpoint_total a b t d e p (ok_policy _ _ J) (ok_q _ _ J) L) as [y ->] end. cbn [rbind].
  match goal with |- context [if ?b then rbind ?r ?k else Ok y] =>
    assert (Hz : exists z, (if b then rbind r k else Ok y) = Ok z) end.
  { destruct (_ && _); [|eauto]. destruct (stuck_pull_total (c_q c) (c_target c)) as [z ->]. cbn [rbind]. eauto. }
  destruct Hz as [z ->]. cbn [rbind]. eexists _, _, _. split; [reflexivity|].
  apply clamped_in_envelope; apply J.
Qed.

Lemma legacy_integral_ok (c : ComposeIn) (se tau : f64) (l : Latch) : exists x l', legacy_integral c se tau l = Ok (x, l').
Proof.
  unfold legacy_integral. destruct (_ && _ && _) eqn:E; [|eauto]. destruct (l_integral l) as [i|]; [|eauto].
  bsimp. match goal with H : fgt (p_ki _) fzero = true |- context [@fclamp _ ?x _ _] =>
    destruct (@fclamp_ok Empty_set x _ _ (integral_bounds _ H)) as [y ->] end. cbn [rbind]. eauto.
Qed.

(** [e] is a tripped fuse of [joint]. *)
Definition fuse_of (joint : string) (e : HoldError) : Prop :=
  match e with
  | AscentStall j _ _ | ReturnStall j _ _ | EHoldTracking j _ _ | WaveStall j _ _ => j = joint
  | MissingSetpoint _ | LenMismatch | InvalidPeriod _ => False
  end.

Lemma check_travel_cases (r : AscentRecovery) (sd : StallSide) (name : string) (trip : HoldFuseTrip) (b : bool) :
  match check_travel_stall r sd name trip b with
  | Ok ms => ms = recovery_stalled_ms r /\ (side r = sd -> recovery_stalled_ms r < POSITION_ASCENT_STALL_FAULT_MS)
  | Err e => fuse_of name e
  | Panic => False
  end.
Proof.
  unfold check_travel_stall. destruct (recovery_stalled_ms r <? POSITION_ASCENT_STALL_FAULT_MS) eqn:El; cbn [orb].
  - bsimp. by split.
  - destruct (side r), sd; cbn [negb]; try (by split). by destruct b.
Qed.

(** Past the fuses, no budget is spent. *)
Lemma run_fuses_cases (c : ComposeIn) (trip : HoldFuseTrip) (net : f64) (l : Latch) :
  match run_fuses c trip net l with
  | Ok (_, l') =>
      recovery_stalled_ms (c_recovery c) < POSITION_ASCENT_STALL_FAULT_MS
      /\ watch_stalled_ms (c_wave_motion c) < POSITION_ASCENT_STALL_FAULT_MS
      /\ tracking_stalled_ms (l_tracking l') < POSITION_ASCENT_STALL_FAULT_MS
  | Err (e, _) => fuse_of (c_name c) e
  | Panic => False
  end.
Proof.
  unfold run_fuses, blow.
  pose proof (check_travel_cases (c_recovery c) Outbound (c_name c) trip false) as H1.
  destruct (check_travel_stall (c_recovery c) Outbound _ _ _) as [ms| |]; cbn [map_err rbind]; [|exact H1|exact H1].
  destruct (_ <=? watch_stalled_ms _) eqn:Ew; cbn [refuse_if rbind]; [reflexivity|].
  match goal with |- context [_ <=? tracking_stalled_ms ?t] => destruct (_ <=? tracking_stalled_ms t) eqn:Et end;
    cbn [refuse_if rbind]; [reflexivity|].
  match goal with |- context [check_travel_stall _ Return _ _ ?b] =>
    pose proof (check_travel_cases (c_recovery c) Return (c_name c) trip b) as H2;
    destruct (check_travel_stall (c_recovery c) Return _ _ b) as [ms'| |] end; cbn [map_err rbind]; [|exact H2|exact H2].
  bsimp. cbn [l_tracking]. destruct H1 as [_ H1], H2 as [_ H2]. split; [|auto].
  destruct (side (c_recovery c)); auto.
Qed.

Section Compose.
Variables exp tanh cos sin : f64 -> f64.

(** What a composed joint sends. *)
Definition sent_ok (name : string) (jp : HoldJointParams) (r : AscentRecovery) (o : MitJointCommand * HoldJointDiag) : Prop :=
  mj_joint o.1 = name /\ mj_kp o.1 = p_kp jp /\ in_envelope (limit_policy jp) (mj_position_rad o.1)
  /\ mj_position_rad o.1 = d_q_des o.2
  /\ recovery_stalled_ms r < POSITION_ASCENT_STALL_FAULT_MS.

Lemma compose_legacy_cases (c : ComposeIn) (l : Latch) :
  joint_ok (c_q c) (c_params c) -> lead_ok (c_q c) (c_lead c) ->
  match compose_legacy_joint tanh c l with
  | Ok (o, _) => sent_ok (c_name c) (c_params c) (c_recovery c) o
  | Err (e, _) => fuse_of (c_name c) e
  | Panic => False
  end.
Proof.
  intros J L. unfold compose_legacy_joint.
  destruct (legacy_position_ok c l J L) as (x & stuck & l1 & -> & Hx). cbn [lift rbind].
  match goal with |- context [compose_position_hold_feedforward tanh ?g ?a ?b ?d ?e ?f ?h ?i ?j ?k ?m ?n] =>
    destruct (hold_feedforward_isolated tanh a b d e f h i j k m n) as (fm & tf & td & Hff & _); rewrite Hff end.
  cbn [lift rbind tau_ff_cmd friction_mode hf_tau_f hf_tau_d].
  match goal with |- context [legacy_integral c ?se ?t l1] =>
    destruct (legacy_integral_ok c se t l1) as (tau & l2 & ->) end. cbn [lift rbind].
  match goal with |- context [run_fuses c ?t ?n l2] => pose proof (run_fuses_cases c t n l2) as Hf;
    destruct (run_fuses c t n l2) as [[st l3]|[e l3]|] end; cbn [rbind]; [|exact Hf|exact Hf].
  destruct (env_bounds _ _ _) as [lo hi]. destruct Hf as (H1 & _). by repeat split; try apply (Hx p); try exact H1.
Qed.

Lemma compose_scaled_cases (g : ScaledPdGains) (c : ComposeIn) (l : Latch) :
  joint_ok (c_q c) (c_params c) -> law (c_params c) = ScaledPdLaw g ->
  match compose_scaled_joint exp tanh g c l with
  | Ok (o, _) => sent_ok (c_name c) (c_params c) (c_recovery c) o
  | Err (e, _) => fuse_of (c_name c) e
  | Panic => False
  end.
Proof.
  intros J Hl. unfold compose_scaled_joint.
  match goal with |- context [compose_feedforward exp tanh ?s g ?i] =>
    destruct (feedforward_total exp tanh s g i (ok_gains _ _ J g Hl)) as (ff & s' & ->) end. cbn [lift rbind].
  match goal with |- context [run_fuses c ?t ?n ?k] => pose proof (run_fuses_cases c t n k) as Hf;
    destruct (run_fuses c t n k) as [[st l3]|[e l3]|] end; cbn [rbind]; [|exact Hf|exact Hf].
  destruct (env_bounds _ _ _) as [lo hi]. destruct Hf as (H1 & _).
  split; [reflexivity|]. split; [reflexivity|]. split; [apply clamped_in_envelope; apply J|]. by split.
Qed.

End Compose.

(** ** The batch *)

(** What composition leaves alone. *)
Record batch_frame (h0 h : PositionHold) : Prop := mkBatchFrame {
  bf_wf : hold_wf h;
  bf_n : n_joints h = n_joints h0;
  bf_goals : goals h = goals h0;
  bf_planners : planners (plans h) = planners (plans h0);
  bf_lead : tick_effective_max_lead (plans h) = tick_effective_max_lead (plans h0);
  bf_recovery : ascent_recovery (latches h) = ascent_recovery (latches h0);
  bf_wave : wave_motion (fuses h) = wave_motion (fuses h0);
  bf_thresholds : progress_thresholds (fuses h) = progress_thresholds (fuses h0);
  bf_commanded : commanded_joints (fuses h) = commanded_joints (fuses h0)
}.

Lemma batch_frame_refl (h : PositionHold) : hold_wf h -> batch_frame h h.
Proof. by split. Qed.

Lemma store_latch_frame (h0 h : PositionHold) (i : nat) (l : Latch) : batch_frame h0 h -> batch_frame h0 (store_latch i l h).
Proof.
  intros []. split; try assumption. destruct bf_wf0; split; wf_done. destruct (l_integral l); auto with hold.
Qed.

Lemma load_compose_ok (w : HoldWorld) (period : Z) (i : nat) (h : PositionHold) :
  hold_wf h -> fits (n_joints h) w -> is_Some (planners (plans h)) -> (i < n_joints h)%nat ->
  exists c, load_compose w period i h = Ok c
    /\ w_joint_names w !! i = Some (c_name c) /\ w_joints w !! i = Some (c_params c) /\ w_q w !! i = Some (c_q c)
    /\ tick_effective_max_lead (plans h) !! i = Some (c_lead c)
    /\ c_recovery c = default recovery_default (recovery_at h i).
Proof.
  intros H F [ps Hp] Hi. unfold load_compose.
  destruct (@vec_get_lt HoldError _ _ i _ (ft_names _ _ F) Hi) as (? & ? & ->). cbn [rbind].
  destruct (@vec_get_lt HoldError _ _ i _ (ft_joints _ _ F) Hi) as (? & ? & ->). cbn [rbind].
  assert (Hl : length ps = n_joints h) by (pose proof (wf_planners _ H) as X; by rewrite Hp in X).
  rewrite Hp. destruct (@vec_get_lt HoldError _ ps i _ Hl Hi) as (pl & Hpl & _). cbn [get_at]. rewrite Hpl. cbn [ok_or rbind].
  destruct (@vec_get_lt HoldError _ _ i _ (ft_dq _ _ F) Hi) as (? & ? & ->). cbn [rbind].
  destruct (@vec_get_lt HoldError _ _ i _ (ft_q _ _ F) Hi) as (? & ? & ->). cbn [rbind].
  destruct (@vec_get_lt HoldError _ _ i _ (ft_tau _ _ F) Hi) as (? & ? & ->). cbn [rbind].
  destruct (@vec_get_lt HoldError _ _ i _ (wf_lead _ H) Hi) as (? & ? & ->). cbn [rbind].
  destruct (@vec_get_lt HoldError _ _ i _ (wf_wave _ H) Hi) as (? & ? & ->). cbn [rbind].
  destruct (@vec_get_lt HoldError _ _ i _ (wf_commanded _ H) Hi) as (? & ? & ->). cbn [rbind].
  destruct (@vec_get_lt HoldError _ _ i _ (wf_thresholds _ H) Hi) as (? & ? & ->). cbn [rbind].
  eexists. split; [reflexivity|]. cbn. by repeat split.
Qed.

Lemma load_latch_ok (i : nat) (h : PositionHold) : hold_wf h -> (i < n_joints h)%nat -> exists l, load_latch i h = Ok l.
Proof.
  intros H Hi. unfold load_latch.
  destruct (@vec_get_lt HoldError _ _ i _ (wf_tracking _ H) Hi) as (? & ? & ->). cbn [rbind].
  destruct (@vec_get_lt HoldError _ _ i _ (wf_scaled _ H) Hi) as (? & ? & ->). cbn [rbind]. eauto.
Qed.

(** Leads a composition can clamp with. *)
Definition leads_ok (w : HoldWorld) (h : PositionHold) : Prop :=
  forall i q jp L, w_q w !! i = Some q -> w_joints w !! i = Some jp -> law jp = LegacyLaw ->
    tick_effective_max_lead (plans h) !! i = Some L -> lead_ok q L.

(** The command sent for joint [i] of the batch composed from [h]. *)
Definition sent_at (w : HoldWorld) (h : PositionHold) (i : nat) (o : MitJointCommand * HoldJointDiag) : Prop :=
  exists (name : string) (jp : HoldJointParams), w_joint_names w !! i = Some name /\ w_joints w !! i = Some jp
    /\ sent_ok name jp (default recovery_default (recovery_at h i)) o.

Definition tripped (w : HoldWorld) (e : HoldError) : Prop := exists name, name ∈ w_joint_names w /\ fuse_of name e.

Section Batch.
Variables exp tanh cos sin : f64 -> f64.

Lemma compose_joint_at_cases (w : HoldWorld) (period : Z) (h0 : PositionHold) (i : nat) (h : PositionHold) :
  fits (n_joints h0) w -> is_Some (planners (plans h0)) -> leads_ok w h0 ->
  (forall q jp, w_q w !! i = Some q -> w_joints w !! i = Some jp -> joint_ok q jp) ->
  (i < n_joints h0)%nat -> batch_frame h0 h ->
  match compose_joint_at exp tanh w period i h with
  | Ok (o, h') => batch_frame h0 h' /\ sent_at w h0 i o
  | Err (e, h') => hold_wf h' /\ tripped w e
  | Panic => False
  end.
Proof.
  intros F Hp HL J Hi B. unfold compose_joint_at.
  destruct (load_compose_ok w period i h (bf_wf _ _ B)) as (c & -> & Ln & Lj & Lq & LL & Lr);
    [by rewrite (bf_n _ _ B)|by rewrite (bf_planners _ _ B)|by rewrite (bf_n _ _ B)|]. cbn [map_err rbind].
  destruct (load_latch_ok i h (bf_wf _ _ B)) as [l ->]; [by rewrite (bf_n _ _ B)|]. cbn [map_err rbind].
  rewrite (bf_lead _ _ B) in LL. assert (Hr : recovery_at h i = recovery_at h0 i) by (unfold recovery_at; by rewrite (bf_recovery _ _ B)).
  rewrite Hr in Lr. pose proof (J _ _ Lq Lj) as Jc. unfold compose_joint_law.
  assert (HC : match match law (c_params c) with ScaledPdLaw gains => compose_scaled_joint exp tanh gains c l
                     | LegacyLaw => compose_legacy_joint tanh c l end with
    | Ok (o, _) => sent_ok (c_name c) (c_params c) (c_recovery c) o | Err (e, _) => fuse_of (c_name c) e | Panic => False end).
  { destruct (law (c_params c)) as [|g] eqn:El; [|by apply compose_scaled_cases].
    apply compose_legacy_cases; [exact Jc|]. by apply (HL i _ (c_params c)). }
  destruct (match law (c_params c) with ScaledPdLaw _ => _ | LegacyLaw => _ end) as [[o l']|[e l']|];
    cbn [map_err rbind]; [| |exact HC].
  - split; [by apply store_latch_frame|]. rewrite Lr in HC. eexists _, _. eauto.
  - split; [eapply bf_wf, store_latch_frame, B|]. exists (c_name c). split; [|exact HC]. by eapply list_elem_of_lookup_2.
Qed.

Lemma init_latch_batch (h : PositionHold) :
  hold_wf h -> is_Some (ascent_recovery (latches h)) -> batch_frame h (init_latch_state h).
Proof.
  intros H [v Hv]. split; try reflexivity; [by apply init_latch_state_wf|]. cbn. by rewrite Hv.
Qed.

Lemma compose_cases (w : HoldWorld) (period : Z) (h : PositionHold) :
  hold_wf h -> is_Some (ascent_recovery (latches h)) -> fits (n_joints h) w -> is_Some (planners (plans h)) -> leads_ok w h ->
  (forall i q jp, w_q w !! i = Some q -> w_joints w !! i = Some jp -> joint_ok q jp) ->
  match compose exp tanh w period h with
  | Ok (out, h') => batch_frame h h' /\ length (mit out) = n_joints h /\ length (diag out) = n_joints h
      /\ forall i c d, mit out !! i = Some c -> diag out !! i = Some d -> sent_at w h i (c, d)
  | Err (e, h') => hold_wf h' /\ tripped w e
  | Panic => False
  end.
Proof.
  intros H Hr F Hp HL J. unfold compose.
  pose proof (map_each_total (compose_joint_at exp tanh w period) (batch_frame h) (sent_at w h)
    (fun x => hold_wf x.2 /\ tripped w x.1) (n_joints h) 0 (init_latch_state h) (init_latch_batch h H Hr)) as Hm.
  specialize (Hm ltac:(intros i s Hi B; pose proof (compose_joint_at_cases w period h i s F Hp HL (J i) Hi B) as Hc;
    destruct (compose_joint_at exp tanh w period i s) as [[o s']|[e s']|]; exact Hc)).
  change (n_joints (init_latch_state h)) with (n_joints h).
  destruct (map_each (compose_joint_at exp tanh w period) (seq 0 (n_joints h)) (init_latch_state h)) as [[os h']|[e h']|];
    cbn [rbind]; [|exact Hm|exact Hm].
  destruct Hm as (B & Hl & Hs). split; [exact B|]. cbn. rewrite !length_map. split; [exact Hl|]. split; [exact Hl|].
  intros i c d Hc Hd. change ((fst <$> os) !! i = Some c) in Hc. change ((snd <$> os) !! i = Some d) in Hd.
  rewrite list_lookup_fmap in Hc. rewrite list_lookup_fmap in Hd. destruct (os !! i) as [[c' d']|] eqn:Eo; [|discriminate].
  injection Hc as <-. injection Hd as <-. exact (Hs i _ Eo).
Qed.

End Batch.

(** ** The tick *)

(** The period of a tick that is carried out. *)
Definition tick_period (w : HoldWorld) (h : PositionHold) : option Z :=
  if lens_match (n_joints h) w && is_armed h then
    match Session.try_from_secs_f64 (w_dt w) with
    | Some period => if fgt (w_dt w) fzero && (period =? 0) then None else Some period
    | None => None
    end
  else None.

(** A world the loop builds from a validated configuration. *)
Record world_ok (n : nat) (w : HoldWorld) : Prop := mkWorldOk {
  wo_joints : joints_ok w;
  wo_wave : forall wave, w_wave w = Some wave -> (joint_index wave < n)%nat
}.

Lemma lens_match_fits (n : nat) (w : HoldWorld) : world_ok n w -> lens_match n w = true -> fits n w.
Proof. intros [_ Hw] H. unfold lens_match in H. bsimp. split; try (by apply Nat.eqb_eq); exact Hw. Qed.

Lemma release_speed_ok (wave : option PositionWave) (h : PositionHold) :
  hold_wf h -> let k := release_wave_speed wave h in
  hold_wf k /\ n_joints k = n_joints h /\ setpoints (goals k) = setpoints (goals h) /\ plans k = plans h
  /\ latches k = latches h /\ fuses k = fuses h
  /\ forall i s, owns wave i = true -> speeds (goals k) !! i = Some s -> s = FULL.
Proof.
  intros H. cbv zeta. destruct wave as [w|]; cbn; [|by repeat split; try apply H].
  split; [wf_solve H|]. do 5 (split; [reflexivity|]). intros i s Ho Hs. apply bool_decide_eq_true in Ho as <-.
  destruct (decide (joint_index w < length (speeds (goals h)))%nat) as [Hl|Hl].
  - rewrite list_lookup_insert_eq in Hs by exact Hl. congruence.
  - rewrite list_insert_ge in Hs by lia. rewrite lookup_ge_None_2 in Hs by lia. discriminate.
Qed.

(** A slowed world: the same joints, at their fractions. *)
Lemma slowed_lookup (w : HoldWorld) (h : PositionHold) (i : nat) (jp : HoldJointParams) :
  w_joints (slowed w h) !! i = Some jp ->
  exists jp0, w_joints w !! i = Some jp0 /\ (jp = jp0 \/ exists s, speeds (goals h) !! i = Some s /\ jp = at_speed_fraction s jp0).
Proof.
  unfold slowed. destruct (forallb _ _); [eauto|]. cbn. rewrite lookup_zip_with_Some. naive_solver.
Qed.

Lemma slowed_rest (w : HoldWorld) (h : PositionHold) :
  w_q (slowed w h) = w_q w /\ w_dq_meas (slowed w h) = w_dq_meas w /\ w_tau_g (slowed w h) = w_tau_g w
  /\ w_joint_names (slowed w h) = w_joint_names w /\ w_wave (slowed w h) = w_wave w /\ w_dt (slowed w h) = w_dt w.
Proof. unfold slowed. by destruct (forallb _ _). Qed.

Lemma slowed_fits (w : HoldWorld) (h : PositionHold) : hold_wf h -> fits (n_joints h) w -> fits (n_joints h) (slowed w h).
Proof.
  intros H []. destruct (slowed_rest w h) as (R1 & R2 & R3 & R4 & R5 & _). split; try congruence; [|by rewrite R5].
  unfold slowed. destruct (forallb _ _); [assumption|]. cbn. rewrite length_zip_with, ft_joints0, (wf_speeds _ H). lia.
Qed.

Lemma slowed_joints_ok (w : HoldWorld) (h : PositionHold) :
  joints_ok w -> (forall i s, owns (w_wave w) i = true -> speeds (goals h) !! i = Some s -> s = FULL) ->
  joints_ok (slowed w h).
Proof.
  intros J Hf i q jp Hq Hj. destruct (slowed_rest w h) as (R1 & _ & _ & _ & R5 & _). rewrite R1 in Hq. rewrite R5.
  destruct (slowed_lookup w h i jp Hj) as (jp0 & H0 & [-> | (s & Hs & ->)]); [by apply (J i)|].
  destruct (J i q jp0 Hq H0) as [J1 J2]. split; [by apply joint_ok_slowed|]. intros Ho.
  rewrite (Hf i s Ho Hs). by apply speeds_ok_full, J2.
Qed.

(** A tick that was carried out and tripped nothing. *)
Record ticked (w : HoldWorld) (period : Z) (h h' : PositionHold) (out : HoldTickOut) : Prop := mkTicked {
  tk_wf : hold_wf h';
  tk_n : n_joints h' = n_joints h;
  tk_setpoints : is_Some (setpoints (goals h'));
  tk_planners : is_Some (planners (plans h'));
  tk_thresholds : progress_thresholds (fuses h') = progress_thresholds (fuses h);
  tk_commanded : commanded_joints (fuses h') = commanded_joints (fuses h);
  tk_mit : length (mit out) = n_joints h;
  tk_diag : length (diag out) = n_joints h;
  tk_sent : forall i c d, mit out !! i = Some c -> diag out !! i = Some d ->
    exists (name : string) (jp : HoldJointParams), w_joint_names w !! i = Some name /\ w_joints w !! i = Some jp
      /\ sent_ok name jp (default recovery_default (recovery_at h' i)) (c, d);
  tk_travel : forall (i : nat) (c : bool) (q thr t : f64) (r : AscentRecovery),
    owns (w_wave w) i = false -> is_Some (planners (plans h)) ->
    w_q w !! i = Some q -> commanded_joints (fuses h) !! i = Some c -> progress_thresholds (fuses h) !! i = Some thr ->
    get_at (setpoints (goals h)) i = Some t -> recovery_at h i = Some r ->
    exists active : bool, recovery_at h' i = Some (recovery_update active
      (if c then travel_stall_direction t (sub64 t q) else None) q thr period r)
}.

Section TickCases.
Variables exp tanh cos sin : f64 -> f64.

Lemma advanced_leads (w : HoldWorld) (period : Z) (h h' : PositionHold) :
  fits (n_joints h) w -> joints_ok w -> advanced w period h h' -> leads_ok w h'.
Proof.
  intros F J A i q jp L Hq Hj Hl HL.
  assert (Hi : (i < n_joints h)%nat) by (rewrite <- (ft_q _ _ F); by eapply lookup_lt_Some).
  destruct (av_entries _ _ _ _ A i Hi) as (jp' & q' & c & thr & A1 & A2 & _ & _ & _ & A6).
  assert (jp' = jp) as -> by congruence. assert (q' = q) as -> by congruence.
  destruct (A6 (proj1 (J i q jp Hq Hj)) (proj2 (J i q jp Hq Hj)) Hl) as (L' & HL' & Ho). congruence.
Qed.

Lemma hold_tick_cases (w : HoldWorld) (h : PositionHold) :
  hold_wf h -> world_ok (n_joints h) w ->
  match hold_tick exp tanh cos sin w h, tick_period w h with
  | Ok (out, (h', _)), Some period => ticked w period h h' out
  | Err (e, (h', _)), Some _ => hold_wf h' /\ tripped w e
  | Err (e, (h', wave')), None => h' = h /\ wave' = w_wave w
  | _, _ => False
  end.
Proof.
  intros H WO. unfold hold_tick, tick_period.
  destruct (lens_match (n_joints h) w) eqn:El; cbn [negb andb]; [|by split].
  destruct (is_armed h) eqn:Ea; cbn [negb]; [|by split].
  destruct (Session.try_from_secs_f64 (w_dt w)) as [period|]; [|by split].
  destruct (fgt (w_dt w) fzero && (period =? 0)); [by split|].
  destruct (release_speed_ok (w_wave w) h H) as (W1 & N1 & S1 & P1 & L1 & F1 & Hfull).
  pose proof (lens_match_fits _ _ WO El) as Ft. revert W1 N1 S1 P1 L1 F1 Hfull.
  generalize (release_wave_speed (w_wave w) h). intros k W1 N1 S1 P1 L1 F1 Hfull.
  assert (Fk : fits (n_joints k) (slowed w k)) by (apply slowed_fits; [exact W1|by rewrite N1]).
  pose proof (slowed_joints_ok w k (wo_joints _ _ WO) Hfull) as Jk.
  assert (Sk : is_Some (setpoints (goals k))) by (rewrite S1; by apply bool_decide_eq_true in Ea).
  destruct (slowed_rest w k) as (R1 & _ & _ & R4 & R5 & _).
  destruct (advance_total cos sin (slowed w k) period k W1 Sk Fk Jk) as (h1 & wv & E1). rewrite E1. cbn [lift rbind].
  destruct (advance_advanced cos sin _ _ _ _ _ W1 Sk Fk E1) as [A Hown].
  pose proof (advanced_leads _ _ _ _ Fk Jk A) as HL.
  assert (Fh : fits (n_joints h1) (with_wave wv (slowed w k))).
  { rewrite (av_n _ _ _ _ A). destruct Fk. split; try assumption. cbn. intros wave ->.
    unfold advance in E1. destruct (w_wave (slowed w k)) as [wave0|] eqn:Ew.
    - bind_inv E1. pose proof (sampled_wave_index cos sin (w_tick_count (slowed w k)) (w_hz (slowed w k)) wave0) as Hj.
      destruct (target_and_velocity_at_tick _ _ _ _ wave0) as [[[t dq]|] wv']; repeat bind_inv E1.
      injection E1 as _ <-. cbn [snd] in Hj. rewrite Hj. by apply ft_wave0.
    - by bind_inv E1. }
  pose proof (compose_cases exp tanh (with_wave wv (slowed w k)) period h1 (av_wf _ _ _ _ A) (av_recovery _ _ _ _ A) Fh
    (av_planners _ _ _ _ A) HL (fun i q jp Hq Hj => proj1 (Jk i q jp Hq Hj))) as HC.
  destruct (compose exp tanh (with_wave wv (slowed w k)) period h1) as [[out h2]|[e h2]|]; cbn [map_err rbind].
  - destruct HC as (B & C1 & C2 & C3). pose proof (av_n _ _ _ _ A) as Na. split.
    + apply B.
    + by rewrite (bf_n _ _ B), Na, N1.
    + rewrite (bf_goals _ _ B). apply A.
    + rewrite (bf_planners _ _ B). apply A.
    + by rewrite (bf_thresholds _ _ B), (av_thresholds _ _ _ _ A), F1.
    + by rewrite (bf_commanded _ _ B), (av_commanded _ _ _ _ A), F1.
    + by rewrite C1, Na, N1.
    + by rewrite C2, Na, N1.
    + intros i c d Hc Hd. destruct (C3 i c d Hc Hd) as (name & jp & Hn & Hj & Hs). cbn in Hn, Hj. rewrite R4 in Hn.
      destruct (slowed_lookup w k i jp Hj) as (jp0 & H0 & Hjp). exists name, jp0. split; [exact Hn|]. split; [exact H0|].
      assert (Hr : recovery_at h2 i = recovery_at h1 i) by (unfold recovery_at; by rewrite (bf_recovery _ _ B)).
      rewrite Hr. destruct Hjp as [-> | (s & _ & ->)]; exact Hs.
    + intros i c q thr t r Ho Hp Hq Hc Hthr Ht Hr.
      assert (Hi : (i < n_joints k)%nat) by (rewrite N1, <- (ft_q _ _ Ft); by eapply lookup_lt_Some).
      destruct (av_entries _ _ _ _ A i Hi) as (jp' & q' & c' & thr' & A1 & A2 & A3 & A4 & A5 & _).
      rewrite R1 in A2. rewrite F1 in A3, A4. rewrite R5 in A5.
      assert (q' = q) as -> by congruence. assert (c' = c) as -> by congruence. assert (thr' = thr) as -> by congruence.
      unfold recovery_at in *. rewrite (bf_recovery _ _ B). apply A5; [exact Ho|by rewrite P1|by rewrite S1|by rewrite L1].
  - destruct HC as [HW (name & Hn & Hf)]. split; [exact HW|]. cbn in Hn. rewrite R4 in Hn. by exists name.
  - exact HC.
Qed.

End TickCases.

(** ** Theorems *)

Lemma ticked_names (w : HoldWorld) (period : Z) (h h' : PositionHold) (out : HoldTickOut) :
  length (w_joint_names w) = n_joints h -> ticked w period h h' out -> map mj_joint (mit out) = w_joint_names w.
Proof.
  intros Hn T. apply (list_eq_same_length _ _ (n_joints h)); [exact Hn|rewrite length_map; apply T|].
  intros i x y Hi Hx Hy. change ((mj_joint <$> mit out) !! i = Some x) in Hx. rewrite list_lookup_fmap in Hx.
  destruct (mit out !! i) as [c|] eqn:Ec; [|discriminate]. injection Hx as <-.
  destruct (lookup_lt_is_Some_2 (diag out) i) as [d Hd]; [by rewrite (tk_diag _ _ _ _ _ T)|].
  destruct (tk_sent _ _ _ _ _ T i c d Ec Hd) as (name & jp & Hname & _ & Hs & _). cbn in Hs. congruence.
Qed.

Section Contract.
Variables exp tanh cos sin : f64 -> f64.

(** C21: one tick of the position hold.  On a well-formed hold, with finite
    measurements, well-formed limits and a wave (if any) on a joint of the arm,
    a tick never panics and leaves a well-formed hold.  Mismatched lengths, an
    unarmed hold or an unusable period are refused with nothing changed; any other
    error is a tripped fuse of one of the joints; otherwise there is one command
    per joint, in order, whose position is finite and inside the joint's soft
    and hard limits, whatever the planners, targets, friction and gravity terms are. *)
Theorem hold_tick_contract (w : HoldWorld) (h : PositionHold) :
  hold_wf h -> world_ok (n_joints h) w ->
  match hold_tick exp tanh cos sin w h with
  | Ok (out, (h', _)) =>
      hold_wf h' /\ is_Some (tick_period w h)
      /\ map mj_joint (mit out) = w_joint_names w /\ length (diag out) = n_joints h
      /\ forall i c jp, mit out !! i = Some c -> w_joints w !! i = Some jp ->
           mj_kp c = p_kp jp /\ in_envelope (limit_policy jp) (mj_position_rad c)
  | Err (e, (h', wave')) =>
      hold_wf h' /\ match tick_period w h with Some _ => tripped w e | None => h' = h /\ wave' = w_wave w end
  | Panic => False
  end.
Proof.
  intros H WO. pose proof (hold_tick_cases exp tanh cos sin w h H WO) as HC.
  destruct (hold_tick exp tanh cos sin w h) as [[out [h' wv]]|[e [h' wv]]|] eqn:E; destruct (tick_period w h) as [period|] eqn:Ep;
    try contradiction HC; [|exact HC|destruct HC as [-> ->]; auto].
  split; [apply HC|]. split; [eauto|]. split.
  - apply (ticked_names w period h h'); [|exact HC]. unfold tick_period in Ep.
    destruct (lens_match (n_joints h) w) eqn:El; [|discriminate Ep]. exact (ft_names _ _ (lens_match_fits _ _ WO El)).
  - split; [apply HC|]. intros i c jp Hc Hj.
    destruct (lookup_lt_is_Some_2 (diag out) i) as [d Hd];
      [rewrite (tk_diag _ _ _ _ _ HC), <- (tk_mit _ _ _ _ _ HC); by eapply lookup_lt_Some|].
    destruct (tk_sent _ _ _ _ _ HC i c d Hc Hd) as (name & jp' & _ & Hj' & _ & Hk & He & _).
    assert (jp' = jp) as -> by congruence. auto.
Qed.

(** ** The travel stall fuse *)

(** A tick of [h] in which joint [i], at [q], is commanded to travel in direction
    [d] under the feedback grid [thr]. *)
Definition travelling (i : nat) (d q thr : f64) (w : HoldWorld) (h : PositionHold) : Prop :=
  world_ok (n_joints h) w /\ owns (w_wave w) i = false /\ w_q w !! i = Some q
  /\ commanded_joints (fuses h) !! i = Some true /\ progress_thresholds (fuses h) !! i = Some thr
  /\ exists t sd, get_at (setpoints (goals h)) i = Some t /\ travel_stall_direction t (sub64 t q) = Some (d, sd).

(** [jam i d level ns h]: the hold reached [h] with joint [i] commanded in
    direction [d] for [ns] nanoseconds of successful ticks, starting at the level
    [level] and never beyond it, through any retargets. *)
Inductive jam (i : nat) (d level : f64) : Z -> PositionHold -> Prop :=
| JamStart (w : HoldWorld) (h h' : PositionHold) (r : AscentRecovery) (q thr : f64) (ns : Z) (out : HoldTickOut)
    (wave' : option PositionWave) :
    hold_wf h -> is_Some (planners (plans h)) -> recovery_at h i = Some r ->
    fne (direction r) d = true \/ progress r = None ->
    travelling i d q thr w h -> level = mul64 d q -> tick_period w h = Some ns ->
    hold_tick exp tanh cos sin w h = Ok (out, (h', wave')) -> jam i d level ns h'
| JamTick (w : HoldWorld) (h h' : PositionHold) (q thr : f64) (t ns : Z) (out : HoldTickOut) (wave' : option PositionWave) :
    jam i d level t h -> travelling i d q thr w h -> renews (mul64 d q) level thr = false ->
    tick_period w h = Some ns -> hold_tick exp tanh cos sin w h = Ok (out, (h', wave')) -> jam i d level (t + ns) h'
| JamRetarget (cmd : HoldRetarget) (h h' : PositionHold) (b : bool) (t : Z) :
    jam i d level t h -> apply_retarget cmd h = Ok (b, h') -> jam i d level t h'.

Definition STALL_BUDGET_NS : Z := POSITION_ASCENT_STALL_FAULT_MS * 1000000.

(** The state of the fuse along a jam. *)
Record spent (i : nat) (d level : f64) (t : Z) (h : PositionHold) : Prop := mkSpent {
  sp_wf : hold_wf h;
  sp_armed : is_Some (setpoints (goals h));
  sp_planners : is_Some (planners (plans h));
  sp_time : 0 <= t < STALL_BUDGET_NS;
  sp_budget : exists r, recovery_at h i = Some r /\ fne (direction r) d = false /\ progress r = Some (mkBudget level t)
}.

Lemma travel_direction_self (t x d : f64) (sd : StallSide) : travel_stall_direction t x = Some (d, sd) -> fne d d = false.
Proof.
  assert (Hs : forall y, is_nan y = false -> fne (fsignum y) (fsignum y) = false) by (by intros [[]|[]| |[]]).
  unfold travel_stall_direction, outbound_stall_direction.
  destruct (fle (fabs t) POSITION_SETTLE_TOLERANCE_RAD) eqn:Et.
  - destruct (negb (is_finite t) || negb (is_finite x)) eqn:En; [discriminate|].
    destruct (fgt (fabs x) POSITION_RETURN_RESYNC_RAD); [|discriminate]. intros [= <- <-].
    bsimp. apply Hs. by apply finite_not_nan.
  - destruct (fgt (mul64 x (fsignum t)) (return_settle_band t)) eqn:Eg.
    + intros [= <- <-]. apply Hs. destruct t; try reflexivity. by destruct x.
    + destruct (negb (is_finite t) || negb (is_finite x)) eqn:En; [discriminate|].
    destruct (fgt (fabs x) POSITION_RETURN_RESYNC_RAD); [|discriminate]. intros [= <- <-].
      bsimp. apply Hs. by apply finite_not_nan.
Qed.

Lemma tick_period_nonneg (w : HoldWorld) (h : PositionHold) (ns : Z) : tick_period w h = Some ns -> 0 <= ns.
Proof.
  unfold tick_period. destruct (_ && _); [|discriminate].
  destruct (Session.try_from_secs_f64 (w_dt w)) as [p|] eqn:E; [|discriminate]. destruct (_ && _); [discriminate|].
  intros [= <-]. exact (Grants.try_from_secs_nonneg _ _ E).
Qed.

(** An unspent budget has not saturated. *)
Lemma unspent_exact (a b : Z) :
  0 <= a -> 0 <= b -> as_millis_u64 (duration_saturating_add a b) < POSITION_ASCENT_STALL_FAULT_MS ->
  duration_saturating_add a b = a + b /\ a + b < STALL_BUDGET_NS.
Proof.
  unfold as_millis_u64, duration_saturating_add, STALL_BUDGET_NS, POSITION_ASCENT_STALL_FAULT_MS, Session.DURATION_MAX, U64_MAX.
  intros. destruct (Z.min_spec (a + b) (18446744073709551615 * 1000000000 + 999999999)) as [[? E]|[? E]]; rewrite E in *; dlia.
Qed.

(** One tick of a travelling joint: its fuse after it, not spent. *)
Lemma travelling_tick (i : nat) (d q thr : f64) (w : HoldWorld) (h h' : PositionHold) (r : AscentRecovery) (ns : Z)
  (out : HoldTickOut) (wave' : option PositionWave) :
  hold_wf h -> is_Some (planners (plans h)) -> recovery_at h i = Some r -> travelling i d q thr w h ->
  tick_period w h = Some ns -> hold_tick exp tanh cos sin w h = Ok (out, (h', wave')) ->
  hold_wf h' /\ is_Some (setpoints (goals h')) /\ is_Some (planners (plans h'))
  /\ exists active sd, recovery_at h' i = Some (recovery_update active (Some (d, sd)) q thr ns r)
    /\ fne d d = false
    /\ recovery_stalled_ms (recovery_update active (Some (d, sd)) q thr ns r) < POSITION_ASCENT_STALL_FAULT_MS.
Proof.
  intros H Hp Hr (WO & Ho & Hq & Hc & Hthr & t & sd & Ht & Hd) Ep E.
  pose proof (hold_tick_cases exp tanh cos sin w h H WO) as HC. rewrite E, Ep in HC.
  split; [apply HC|]. split; [apply HC|]. split; [apply HC|].
  destruct (tk_travel _ _ _ _ _ HC i true q thr t r Ho Hp Hq Hc Hthr Ht Hr) as [active Ha]. rewrite Hd in Ha.
  exists active, sd. split; [exact Ha|]. split; [exact (travel_direction_self _ _ _ _ Hd)|].
  assert (Hi : (i < n_joints h)%nat) by (rewrite <- (wf_commanded _ H); by eapply lookup_lt_Some).
  destruct (lookup_lt_is_Some_2 (mit out) i) as [c Hmc]; [by rewrite (tk_mit _ _ _ _ _ HC)|].
  destruct (lookup_lt_is_Some_2 (diag out) i) as [dg Hdg]; [by rewrite (tk_diag _ _ _ _ _ HC)|].
  destruct (tk_sent _ _ _ _ _ HC i c dg Hmc Hdg) as (name & jp & _ & _ & _ & _ & _ & _ & Hms).
  by rewrite Ha in Hms.
Qed.

Lemma jam_spent (i : nat) (d level : f64) (t : Z) (h : PositionHold) : jam i d level t h -> spent i d level t h.
Proof.
  induction 1 as [w h h' r q thr ns out wv H Hp Hr Hfresh Ht -> Ep E|w h h' q thr t ns out wv HJ IH Ht Hn Ep E
                 |cmd h h' b t HJ IH E].
  - destruct (travelling_tick i d q thr w h h' r ns out wv H Hp Hr Ht Ep E) as (W & A & P & active & sd & Ha & Hdd & Hms).
    pose proof (tick_period_nonneg _ _ _ Ep) as Hns.
    assert (Hslot : (if fne (direction r) d then None else progress r) = None) by (destruct Hfresh as [-> | ->]; [reflexivity|by destruct (fne (direction r) d)]).
    unfold recovery_stalled_ms in Hms. cbn [recovery_update progress] in Hms. rewrite Hslot in Hms. cbn in Hms.
    destruct (unspent_exact 0 ns) as [_ Hb]; [lia|exact Hns| |].
    { revert Hms. unfold as_millis_u64, duration_saturating_add, POSITION_ASCENT_STALL_FAULT_MS, Session.DURATION_MAX, U64_MAX. intros. dlia. }
    split; try assumption; [lia|]. eexists. split; [exact Ha|]. cbn [recovery_update direction progress]. rewrite Hslot.
    split; [|reflexivity]. destruct (fne (direction r) d) eqn:Ed; [exact Hdd|exact Ed].
  - destruct IH as [Hwf _ Hpl Htime (r & Hr & Hdir & Hpr)].
    destruct (travelling_tick i d q thr w h h' r ns out wv Hwf Hpl Hr Ht Ep E) as (W & A & P & active & sd & Ha & Hdd & Hms).
    pose proof (tick_period_nonneg _ _ _ Ep) as Hns.
    unfold recovery_stalled_ms in Hms. cbn [recovery_update progress] in Hms. rewrite Hdir, Hpr in Hms.
    cbn [observe credited stalled budget_stalled_ms] in Hms. rewrite Hn in Hms.
    destruct (unspent_exact t ns) as [Hex Hb]; [lia|lia|exact Hms|].
    split; try assumption; [lia|]. eexists. split; [exact Ha|]. cbn [recovery_update direction progress].
    rewrite Hdir, Hpr. split; [exact Hdir|]. cbn [observe credited stalled]. by rewrite Hn, Hex.
  - destruct IH as [Hwf Har Hpl Htime (r & Hr & Hdir & Hpr)]. destruct (retarget_refused cmd h) eqn:Er.
    { unfold apply_retarget in E. rewrite Er in E. injection E as <- <-. split; try assumption. eauto. }
    destruct (apply_retarget_latches cmd h Hwf Er) as (k & Ek & W & S & _ & _ & _ & _ & B & P & _).
    rewrite E in Ek. injection Ek as _ <-.
    assert (Hk : armed_for cmd h = h) by (unfold armed_for, is_armed; by rewrite bool_decide_eq_true_2).
    rewrite Hk in B, P. split; [exact W| |by apply P|exact Htime|].
    + destruct (setpoints (goals h')); [eauto|discriminate S].
    + destruct (proj2 B i r Hr) as (r' & Hr' & He). injection He as He1 He2 He3.
      exists r'. split; [exact Hr'|]. by rewrite He1, He3.
Qed.

(** C22: the stall fuse cannot be outrun.  However the operator retargets, a joint
    commanded in one direction that measures no progress beyond where it started
    spends less than two seconds of ticks before its fuse trips: along any such
    history the accumulated time is below the budget, and the tick that would
    reach it is refused with a tripped fuse. *)
Theorem stall_fuse_trips (i : nat) (d level : f64) (t : Z) (h : PositionHold) :
  jam i d level t h ->
  t < STALL_BUDGET_NS
  /\ forall w q thr ns, travelling i d q thr w h -> renews (mul64 d q) level thr = false -> tick_period w h = Some ns ->
       STALL_BUDGET_NS <= t + ns ->
       exists e h' wave', hold_tick exp tanh cos sin w h = Err (e, (h', wave')) /\ tripped w e.
Proof.
  intros HJ. destruct (jam_spent i d level t h HJ) as [Hwf _ _ Htime _]. split; [apply Htime|].
  intros w q thr ns Ht Hn Ep Hover.
  pose proof (hold_tick_cases exp tanh cos sin w h Hwf (proj1 Ht)) as HC. rewrite Ep in HC.
  destruct (hold_tick exp tanh cos sin w h) as [[out [h' wv]]|[e [h' wv]]|] eqn:E; [|destruct HC; eauto|contradiction].
  destruct (jam_spent i d level (t + ns) h' (JamTick i d level w h h' q thr t ns out wv HJ Ht Hn Ep E)) as [_ _ _ Hb _]. lia.
Qed.

End Contract.

(** ** A jammed bench joint *)

Definition bench_params : HoldJointParams :=
  mkParams (f64_of_Z 20) fone fone (lit64 15 100) (lit64 2 100) (lit64 15 100) (lit64 2 100) (lit64 2 10) (lit64 5 10)
    (lit64 1 10) (lit64 5 10) (Some fone) None (Some pitch_policy) fzero LegacyLaw None.

(** Half a second at rest at home. *)
Definition bench_world (tick : Z) : HoldWorld :=
  mkWorld [fzero] [fzero] [fone] [bench_params] ["right_shoulder_pitch"%string] (lit64 5 10) 200 tick [] [] None.

Definition bench_arm : PositionHold := arm [fzero] [lit64 5 10] 0 (with_progress_thresholds [lit64 1 1000]).

Definition bench_tick (tick : Z) (h : PositionHold) :=
  hold_tick (fun _ => fone) (fun x => x) (fun x => x) (fun x => x) (bench_world tick) h.

Definition tick_state (tick : Z) (h : PositionHold) : PositionHold :=
  match bench_tick tick h with Ok (_, (h', _)) => h' | _ => h end.
Definition tick_out (tick : Z) (h : PositionHold) : HoldTickOut :=
  match bench_tick tick h with Ok (out, _) => out | _ => mkOut [] [] end.

(** Further out, while jammed. *)
Definition bench_retarget : HoldRetarget := mkRetarget 0 (lit64 8 10) (lit64 8 10) fzero 2 None None FULL.
Definition retargeted (h : PositionHold) : PositionHold :=
  match apply_retarget bench_retarget h with Ok (_, h') => h' | _ => h end.

Definition bench_jam : PositionHold := tick_state 3 (retargeted (tick_state 2 (tick_state 1 bench_arm))).

Lemma bench_world_ok (tick : Z) : world_ok 1 (bench_world tick).
Proof.
  split; [|discriminate]. intros [|i] q jp Hq Hj; [|discriminate]. cbn in Hq, Hj. injection Hq as <-. injection Hj as <-.
  split; [|discriminate]. split; [reflexivity| |reflexivity|reflexivity|discriminate]. intros p [= <-]. exact pitch_policy_wf.
Qed.

Lemma bench_arm_wf : hold_wf bench_arm.
Proof. apply arm_wf, with_progress_thresholds_wf. Qed.

Lemma hold_tick_contract_witness :
  hold_wf bench_arm /\ world_ok (n_joints bench_arm) (bench_world 1)
  /\ match bench_tick 1 bench_arm with
     | Ok (out, (h', _)) => hold_wf h' /\ map mj_joint (mit out) = ["right_shoulder_pitch"%string]
         /\ forall c, mit out !! 0%nat = Some c -> in_envelope (Some pitch_policy) (mj_position_rad c)
     | _ => False
     end.
Proof.
  split; [exact bench_arm_wf|]. split; [exact (bench_world_ok 1)|].
  assert (Hok : match bench_tick 1 bench_arm with Ok _ => true | _ => false end = true) by (vm_compute; reflexivity).
  pose proof (hold_tick_contract (fun _ => fone) (fun x => x) (fun x => x) (fun x => x) (bench_world 1) bench_arm
    bench_arm_wf (bench_world_ok 1)) as HC.
  unfold bench_tick in *. revert Hok HC.
  generalize (hold_tick (fun _ => fone) (fun x => x) (fun x => x) (fun x => x) (bench_world 1) bench_arm).
  intros [[out [h' wv]]|[e [h' wv]]|] Hok HC; try discriminate Hok.
  destruct HC as (W & _ & Hn & _ & He). split; [exact W|]. split; [exact Hn|]. intros c Hc.
  exact (proj2 (He 0%nat c bench_params Hc eq_refl)).
Defined.

Lemma bench_travelling (tick : Z) (h : PositionHold) (t : f64) (sd : StallSide) :
  n_joints h = 1%nat -> commanded_joints (fuses h) !! 0%nat = Some true ->
  progress_thresholds (fuses h) !! 0%nat = Some (lit64 1 1000) ->
  get_at (setpoints (goals h)) 0 = Some t -> travel_stall_direction t (sub64 t fzero) = Some (fone, sd) ->
  travelling 0 fone fzero (lit64 1 1000) (bench_world tick) h.
Proof.
  intros Hn Hc Ht Hs Hd. split; [rewrite Hn; apply bench_world_ok|]. split; [reflexivity|]. split; [reflexivity|].
  split; [exact Hc|]. split; [exact Ht|]. eauto.
Qed.

(** Three ticks and a retarget, half a second short of the budget; the fourth tick
    trips the fuse. *)
Lemma stall_fuse_trips_witness :
  jam (fun _ => fone) (fun x => x) (fun x => x) (fun x => x) 0 fone fzero 1500000000 bench_jam
  /\ exists e h' wave', bench_tick 4 bench_jam = Err (e, (h', wave')) /\ tripped (bench_world 4) e.
Proof.
  assert (HJ : jam (fun _ => fone) (fun x => x) (fun x => x) (fun x => x) 0 fone fzero 1500000000 bench_jam).
  { apply (JamTick _ _ _ _ 0 fone fzero (bench_world 3) (retargeted (tick_state 2 (tick_state 1 bench_arm))) _ fzero
             (lit64 1 1000) 1000000000 500000000 (tick_out 3 (retargeted (tick_state 2 (tick_state 1 bench_arm)))) None).
    - apply (JamRetarget _ _ _ _ 0 fone fzero bench_retarget (tick_state 2 (tick_state 1 bench_arm)) _ true);
        [|vm_compute; reflexivity].
      apply (JamTick _ _ _ _ 0 fone fzero (bench_world 2) (tick_state 1 bench_arm) _ fzero
             (lit64 1 1000) 500000000 500000000 (tick_out 2 (tick_state 1 bench_arm)) None).
      + apply (JamStart _ _ _ _ 0 fone fzero (bench_world 1) bench_arm _ recovery_default fzero (lit64 1 1000) 500000000
                 (tick_out 1 bench_arm) None).
        * exact bench_arm_wf.
        * by eexists.
        * reflexivity.
        * left. reflexivity.
        * by apply (bench_travelling 1 bench_arm (lit64 5 10) Outbound); vm_compute.
        * vm_compute. reflexivity.
        * vm_compute. reflexivity.
        * vm_compute. reflexivity.
      + by apply (bench_travelling 2 _ (lit64 5 10) Outbound); vm_compute.
      + reflexivity.
      + vm_compute. reflexivity.
      + vm_compute. reflexivity.
    - by apply (bench_travelling 3 _ (lit64 8 10) Outbound); vm_compute.
    - reflexivity.
    - vm_compute. reflexivity.
    - vm_compute. reflexivity. }
  split; [exact HJ|].
  apply (proj2 (stall_fuse_trips _ _ _ _ _ _ _ _ _ HJ) (bench_world 4) fzero (lit64 1 1000) 500000000).
  - by apply (bench_travelling 4 _ (lit64 8 10) Outbound); vm_compute.
  - reflexivity.
  - vm_compute. reflexivity.
  - discriminate.
Defined.

End HoldFuse.
