(* ===== verification/Facets.v ===== *)
(** * Facets: what the supervisor tells its owner

    The read side of [src/crates/davout/src/lib.rs] that the control loop uses
    (pose, homing state, drive activity, limits, torque telemetry, the seeding of
    the feed-forward rate limiter), the commissioning facets and Enable targets of
    [src/crates/davout/src/homing_facets.rs], and the commissioning scope of
    [src/crates/marengo-config/src/commissioning_scope.rs].

    Several of these take [&self] in the code and still read the clock or revoke
    a reference (interior mutability): they return the supervisor.  Files and
    environment variables are arguments of [resolve_enable_targets]. *)

From Stdlib Require Import ZArith Lia Bool SpecFloat Sorting.Sorted.
From stdpp Require Import base gmap strings list sorting.
From S2P Require Import Prelude Float Comm Config Validate Limits TotalTorque Params Mit Bus Reporting Faults Davout Filter Admission Authority Physical Lifecycle Session Enable.

Module Facets.
Import Mit Bus Faults Davout TotalTorque Filter Admission Lifecycle Session Enable.

(** ** [homing_facets.rs] *)

Inductive JointHomingState : Type := Unhomed | Homing | Verified | Faulted.

#[export] Instance JointHomingState_eq_dec : EqDecision JointHomingState.
Proof. solve_decision. Defined.

(** The ordinals of the protobuf enum; 0 is [Unspecified]. *)
Definition to_proto_homing_state (h : JointHomingState) : Z :=
  match h with Unhomed => 1 | Homing => 2 | Verified => 3 | Faulted => 4 end.

Record JointFacetInput : Type := mkFacet {
  f_name : string; f_homing_state : JointHomingState; online : bool; motor_mapped : bool; f_fault : bool; f_out_of_limits : bool
}.

Definition is_built (j : JointFacetInput) : bool := online j || motor_mapped j.
Definition is_ready (j : JointFacetInput) : bool := bool_decide (f_homing_state j = Verified).
Definition is_ready_healthy (j : JointFacetInput) : bool := is_ready j && negb (f_fault j) && negb (f_out_of_limits j).

Definition robot_ready (master_joints : list JointFacetInput) : bool :=
  let built := List.filter is_built master_joints in
  match built with [] => false | _ => forallb is_ready_healthy built end.

Definition is_enable_eligible (j : JointFacetInput) : bool := online j && is_ready_healthy j.

(** Byte order of [String]. *)
Definition str_le (a b : string) : Prop := String.leb a b = true.
#[export] Instance str_le_dec : RelDecision str_le.
Proof. intros a b. unfold str_le. apply _. Defined.

Definition sorted_names (l : list JointFacetInput) : list string := merge_sort str_le (f_name <$> l).

Definition homing_debug (h : JointHomingState) : string :=
  match h with Unhomed => "Unhomed" | Homing => "Homing" | Verified => "Verified" | Faulted => "Faulted" end.

Definition blocking_facets (j : JointFacetInput) : string :=
  f_name j +:+ " " +:+ String.concat "+"
    ((if is_ready j then [] else [homing_debug (f_homing_state j)])
     ++ (if f_fault j then ["fault"] else []) ++ (if f_out_of_limits j then ["out of limits"] else [])).

Definition not_ready (master_joints : list JointFacetInput) : string :=
  match List.filter (fun j => is_built j && negb (is_ready_healthy j)) master_joints with
  | [] => "no built joint"
  | blockers => String.concat ", " (blocking_facets <$> blockers)
  end.

Definition select_enable_targets (master_joints loaded_joints : list JointFacetInput)
  (effective_scope : option (list string)) : result message (list string) :=
  match effective_scope with
  | Some scope =>
      match sorted_names (List.filter (fun j => bool_decide (f_name j ∈ scope) && is_enable_eligible j) loaded_joints) with
      | [] => Err (msg "no Verified in-scope joints eligible for enable")
      | targets => Ok targets
      end
  | None =>
      if negb (robot_ready master_joints) then
        Err (Msg "Enable requires full-master Robot Ready when no commissioning scope is set (not ready: {})"
               [AStr (not_ready master_joints)])
      else
        match sorted_names (List.filter is_enable_eligible loaded_joints) with
        | [] => Err (msg "no loaded joints eligible for enable")
        | targets => Ok targets
        end
  end.

(** ** [effective_commissioning_scope] *)

(** [Vec::dedup]: consecutive repeats. *)
Fixpoint dedup (l : list string) : list string :=
  match l with
  | [] => []
  | x :: rest =>
      match dedup rest with
      | y :: tail => if bool_decide (x = y) then y :: tail else x :: y :: tail
      | [] => [x]
      end
  end.

Definition effective_commissioning_scope (persisted : list string) (ceiling : option (gset string)) : list string :=
  dedup (merge_sort str_le
    (match ceiling with Some c => List.filter (fun j => bool_decide (j ∈ c)) persisted | None => persisted end)).

(** ** Limits and the encoder grid *)

Definition F32_EPSILON : f64 := lit64 1 8388608.
Definition F32_MIN_POSITIVE : f64 := S754_finite false 4503599627370496 (-178).
Definition F32_MAX : f64 := f64_of_Z 340282346638528859811704183484516925440.

Definition joint_position_progress_threshold (stop_motors : list Config.MotorEntry) (joint : string)
  : result DavoutError f64 :=
  let! motor := ok_or (find_first (fun m => bool_decide (Config.joint m = joint)) stop_motors) (EUnknownJoint joint) in
  let! scale := motor_position_scale motor in
  let gear := fabs scale in
  let ranges := for_motor_type (Config.motor_type motor) in
  let span := div64 (f64_of_f32 (position_scale ranges)) gear in
  let step := div64 (feedback_position_step ranges) gear in
  let roundoff := mul64 (mul64 (f64_of_Z 16) F32_EPSILON) span in
  let minimum_adjacent := sub64 step (mul64 (f64_of_Z 2) roundoff) in
  let threshold := add64 (div64 step (f64_of_Z 2)) roundoff in
  if negb (is_finite span) || negb (is_finite threshold) || fle threshold fzero
     || flt minimum_adjacent F32_MIN_POSITIVE || fge threshold minimum_adjacent
     || fgt (add64 span (mul64 (f64_of_Z 2) step)) F32_MAX
  then Err (EInvalidMotorConfig joint (msg "position feedback grid is outside the qualified finite normal f32 range"))
  else Ok threshold.

Section Reads.
Context {B : Type} `{CanBus B} {R : Type} `{ReferenceWork R}.
Variable observed : Observer B R.
Variable display : DavoutError -> string.

Abbreviation S := (Sup B R).
Abbreviation M A := (A * Sup B R)%type.

Definition sup_mode (s : S) : OperationalMode := mode (adm s).
Definition sup_stop_generation (s : S) : Z := stop_generation (fault_authority (adm s)).
Definition joint_limit_policy (s : S) (joint : string) : option Limits.JointLimitPolicy := sv_limits (adm s) !! joint.
Definition joint_velocity_cap (s : S) (joint : string) : option f64 := Limits.velocity <$> sv_limits (adm s) !! joint.
Definition last_tau_ff_nm (s : S) (joint : string) : option f64 := sv_last_tau_ff (adm s) !! joint.
Definition total_torque_clamp_count (s : S) (joint : string) : Z := clamp_count (total_torque_clamps (adm s)) joint.
Definition envelope_clamp_count (s : S) (joint : string) : Z := default 0 (envelope_clamps (adm s) !! joint).
Definition joint_out_of_limits (s : S) (joint : string) : bool := bool_decide (joint ∈ out_of_limits (diag s)).
Definition check_fault_authority (s : S) : result DavoutError unit := require_fault_clear (adm s).

Definition sup_enable_writes_pending (s : S) : bool :=
  bool_decide (mode (adm s) = Active) && negb (bool_decide (enable_writes_pending (session s) = [])).

Definition begin_tick_feedback (s : S) : S :=
  set_diag (mkDiag (out_of_limits (diag s)) (last_drive_reboot (diag s)) 0) s.

(** ** Pose *)

Record JointFeedback : Type := mkFeedback {
  fb_position_rad : f64; fb_velocity_rad_s : f64; fb_torque_nm : f64; fb_temperature_c : f32; fb_fault : Z; fb_sample_age : Z
}.

Definition joint_feedback (joint : string) (s : S) : M (option JointFeedback) :=
  match motor_index (adm s) joint with
  | None => (None, s)
  | Some index =>
      let '(st, c) := published_state (adm s) index (hostclock s) in
      let s := set_clock c s in
      match st with
      | None => (None, s)
      | Some st =>
          let '(age, s) := match ms_updated st with
                           | Some t => let '(now, s) := tick s in (elapsed t now, s)
                           | None => (DURATION_MAX, s)
                           end in
          (Some (mkFeedback (f64_of_f32 (ms_position_rad st)) (f64_of_f32 (ms_velocity_rad_s st))
                   (f64_of_f32 (ms_torque_nm st)) (ms_temperature_c st)
                   (Z.lor (ms_fault st) (if joint_is_faulted (fault_authority (adm s)) joint then 1 else 0)) age), s)
      end
  end.

Definition joint_torque_rad (joint : string) (s : S) : M (option f64) :=
  let '(fb, s) := joint_feedback joint s in (fb_torque_nm <$> fb, s).

(** ** Reference state *)

Definition joint_homing_state (joint : string) (s : S) : M JointHomingState :=
  if has_latched_fault s then (Faulted, revoke_all s)
  else
    let '(valid, s) := reference_binding_valid_with observed Judge s in
    (if valid && Authority.contains joint (authority s) then Verified else Unhomed, s).

Definition joint_drive_active (joint : string) (s : S) : M bool :=
  if bool_decide (mode (adm s) = Active) && bool_decide (joint ∈ active_joints (adm s))
  then let '(h, s) := joint_homing_state joint s in (bool_decide (h = Verified), s)
  else (false, s).

Definition joint_commissioning_wire (joint : string) (s : S) : M (Z * bool * bool) :=
  let '(h, s) := joint_homing_state joint s in
  let '(active, s) := joint_drive_active joint s in
  (to_proto_homing_state h, active, joint_out_of_limits s joint, s).

Definition set_homing_complete (s : S) : M (result DavoutError unit) :=
  let '(busy, s) := reference_busy observed s in
  if busy then (Err (EReferenceBusy "set_homing_complete"), s)
  else
    match (require_fault_clear (adm s) ;!
           refuse_if (bool_decide (mode (adm s) = Active))
             (EHoming (msg "Ready transition refused while ACTIVE; disable first")) ;!
           refuse_if (hardware_estop s) EEstop) with
    | Ok _ =>
        match ensure_reference_for observed (Config.robot_joints (robot (installed s))) s with
        | (Ok _, s) =>
            let a := adm s in
            let s := set_adm (mkSupervisor Ready (sv_control_mode a) (fault_authority a) (sv_limits a) (motors a)
                       (motor_addresses a) (sv_control a) (motor_states a) (active_since a) (set_zero_on_wire a)
                       (invalid_feedback a) (sv_last_tau_ff a) (total_torque_clamps a) (envelope_clamps a)
                       (sv_wrong_sign_state a) (last_tick a) (active_joints a) (unanswered_solicits a) (shed a)) s in
            (Ok tt, sync_active_reporting observed s)
        | r => r
        end
    | e => (e, s)
    end.

(** ** Seeding the feed-forward rate limiter *)

Definition with_last_tau_ff (m : gmap string f64) (a : Admission.Supervisor) : Admission.Supervisor :=
  mkSupervisor (mode a) (sv_control_mode a) (fault_authority a) (sv_limits a) (motors a) (motor_addresses a)
    (sv_control a) (motor_states a) (active_since a) (set_zero_on_wire a) (invalid_feedback a)
    m (total_torque_clamps a) (envelope_clamps a) (sv_wrong_sign_state a)
    (last_tick a) (active_joints a) (unanswered_solicits a) (shed a).

Definition ff_cap (s : S) (motor : Config.MotorEntry) : f64 :=
  fmin (default fzero (Limits.tau_ff_max <$> sv_limits (adm s) !! Config.joint motor))
    (default fzero (Config.tau_ff_max_nm <$>
       Config.hget (Config.motor_type_defaults (sv_control (adm s))) (Config.motor_type_key (Config.motor_type motor)))).

(** [measured.clamp(-cap, cap)] panics when [cap] is negative or NaN. *)
Fixpoint seed_each (only_unsent : bool) (ms : list Config.MotorEntry) (s : S) : M (result DavoutError unit) :=
  match ms with
  | [] => (Ok tt, s)
  | motor :: rest =>
      if only_unsent && bool_decide (is_Some (sv_last_tau_ff (adm s) !! Config.joint motor))
      then seed_each only_unsent rest s
      else
        let '(measured, s) := joint_torque_rad (Config.joint motor) s in
        match fclamp (default fzero measured) (fneg (ff_cap s motor)) (ff_cap s motor) with
        | Ok seeded =>
            seed_each only_unsent rest
              (set_adm (with_last_tau_ff (<[Config.joint motor := seeded]> (sv_last_tau_ff (adm s))) (adm s)) s)
        | Err e => (Err e, s)
        | Panic => (Panic, s)
        end
  end.

Definition seed_tau_ff_from_measured (only_unsent : bool) (s : S) : M (result DavoutError unit) :=
  seed_each only_unsent (motors (adm s)) s.
Definition seed_tau_ff_rate_limiter : S -> M (result DavoutError unit) := seed_tau_ff_from_measured false.
Definition seed_unsent_tau_ff_rate_limiter : S -> M (result DavoutError unit) := seed_tau_ff_from_measured true.

(** ** Enable targets *)

Definition master_facet (name : string) (s : S) : M JointFacetInput :=
  let mapped := bool_decide (name ∈ Config.joint <$> motors (adm s)) in
  let '(feedback, s) := joint_feedback name s in
  let known := joint_is_faulted (fault_authority (adm s)) name
               || match feedback with Some f => negb (fb_fault f =? 0) | None => false end in
  let '(fault, s) := if known then (true, s)
                     else let '(h, s) := joint_homing_state name s in (bool_decide (h = Faulted), s) in
  let '(homing, s) := if mapped then joint_homing_state name s else (Unhomed, s) in
  (mkFacet name homing (bool_decide (is_Some feedback)) mapped fault (joint_out_of_limits s name), s).

Fixpoint master_facets (names : list string) (s : S) : M (list JointFacetInput) :=
  match names with
  | [] => ([], s)
  | name :: rest =>
      let '(j, s) := master_facet name s in
      let '(js, s) := master_facets rest s in (j :: js, s)
  end.

Definition commissioning_facets (names : list string) (s : S)
  : M (list JointFacetInput * list JointFacetInput) :=
  let '(master, s) := master_facets names s in (master, List.filter motor_mapped master, s).

(** The persisted scope with the environment's ceiling, and the joints of
    [robot.yaml]; loading either can fail. *)
Record EnableFiles : Type := mkFiles {
  persisted_scope : result DavoutError (option (list string));
  joint_ceiling : option (gset string);
  robot_yaml_joints : result DavoutError (list string)
}.

Definition resolve_enable_targets (files : EnableFiles) (s : S) : M (result DavoutError (list string)) :=
  match (require_fault_clear (adm s) ;!
         let! persisted := persisted_scope files in
         let effective := (fun p => effective_commissioning_scope p (joint_ceiling files)) <$> persisted in
         let! names := robot_yaml_joints files in Ok (effective, names)) with
  | Ok (effective, names) =>
      let s := sync_active_reporting observed s in
      match drain_feedback observed display s with
      | (Ok _, s) =>
          let '(master, loaded, s) := commissioning_facets names s in
          (map_err EHoming (select_enable_targets master loaded effective), s)
      | (Err e, s) => (Err e, s)
      | (Panic, s) => (Panic, s)
      end
  | Err e => (Err e, s)
  | Panic => (Panic, s)
  end.

End Reads.

End Facets.
