(* ===== verification/Dynamics.v ===== *)
(** * Dynamics: what the controllers use of a gravity model

    [src/crates/armee-dynamics/src/] [lib.rs] (the [DynamicsModel] trait, the
    sweep of one joint and its verdict) and [drive_loss.rs] (the grid that
    estimates what losing a subtree costs the joints that keep holding).

    A model is its joint names and its [gravity_torques], which may fail; every
    theorem holds for any model. *)

From Stdlib Require Import ZArith Lia Bool SpecFloat.
From stdpp Require Import base strings list sets.
From S2P Require Import Prelude Float Limits PosHold.

Module Dynamics.
Import PosHold.

Inductive DynamicsError : Type :=
| EUrdf (e : Limits.UrdfError)
| JointCount (expected got : Z)
| UnknownModelJoint (joint : string)
| UnknownLink (link : string)
| UnmodelledJoint (joint : string)
| DuplicateJoint (joint : string)
| NotActuated (joint kind : string)
| UnsupportedJoint (joint what : string)
| CyclicChain (link : string)
| InvalidModel (what : message)
| NonFiniteInput (what : string)
| NonFiniteTorque (joint : string)
| LossGridTooLarge (evaluations max : Z).

Record DynamicsModel : Type := mkModel {
  dm_joint_names : list string;
  gravity_torques : list f64 -> result DynamicsError (list f64)
}.

(** ** The sweep of one joint *)

Definition sweep_angle (q_min q_max : f64) (steps i : nat) : f64 :=
  let t := div64 (f64_of_Z (Z.of_nat i)) (f64_of_Z (Z.of_nat (steps - 1))) in
  add64 q_min (mul64 (sub64 q_max q_min) t).

(** One sample: the torque of the swept joint with the others at 0. *)
Definition sweep_sample (model : DynamicsModel) (joint_index : nat) (q : f64) : result DynamicsError f64 :=
  let n := length (dm_joint_names model) in
  let! tau := gravity_torques model (<[joint_index := q]> (replicate n fzero)) in
  let! v := ok_or (tau !! joint_index) (JointCount (Z.of_nat n) (Z.of_nat (length tau))) in
  if negb (is_finite v)
  then let! name := vec_get (dm_joint_names model) joint_index in Err (NonFiniteTorque name)
  else Ok v.

Fixpoint sweep_from (model : DynamicsModel) (joint_index : nat) (angles : list f64) (max_tau : f64)
  : result DynamicsError f64 :=
  match angles with
  | [] => Ok max_tau
  | q :: rest =>
      let! v := sweep_sample model joint_index q in
      sweep_from model joint_index rest (fmax max_tau (fabs v))
  end.

Definition max_gravity_torque_over_range (model : DynamicsModel) (joint_index : nat) (q_min q_max : f64) (steps : nat)
  : result DynamicsError f64 :=
  let n := length (dm_joint_names model) in
  refuse_if (n <=? joint_index)%nat (JointCount (Z.of_nat n) (Z.of_nat (S joint_index))) ;!
  refuse_if (negb (is_finite q_min) || negb (is_finite q_max)) (NonFiniteInput "gravity sweep range") ;!
  let steps := Nat.max steps 2 in
  sweep_from model joint_index (sweep_angle q_min q_max steps <$> seq 0 steps) fzero.

Definition GRAVITY_WARN_FRACTION : f64 := lit64 8 10.

Inductive GravityRangeVerdict : Type :=
| Within (tau_max_nm : f64) | Near (tau_max_nm : f64) | Saturated (tau_max_nm : f64) | Unevaluable (e : DynamicsError).

Definition refuses (v : GravityRangeVerdict) : bool :=
  match v with Saturated _ | Unevaluable _ => true | _ => false end.

Definition check_gravity_range (model : DynamicsModel) (joint_index : nat) (q_min q_max torque_limit_nm : f64) (steps : nat)
  : result Empty_set GravityRangeVerdict :=
  match max_gravity_torque_over_range model joint_index q_min q_max steps with
  | Ok tau =>
      Ok (if is_nan tau || is_nan torque_limit_nm || fgt tau torque_limit_nm then Saturated tau
          else if fgt tau (mul64 GRAVITY_WARN_FRACTION torque_limit_nm) then Near tau
          else Within tau)
  | Err e => Ok (Unevaluable e)
  | Panic => Panic
  end.

(** ** The drive-loss grid *)

Definition SHED_GRID_STEPS : nat := 7.
Definition HOLDING_GRID_STEPS : nat := 4.
Definition MAX_LOSS_GRID_EVALUATIONS : Z := 50000.

Record HoldingTorqueBound : Type := mkBound { tb_index : nat; tb_joint : string; max_abs_nm : f64; max_delta_nm : f64 }.

Definition grid (lower upper : f64) (steps : nat) (rest : bool) : list f64 :=
  let steps := Nat.max steps 2 in
  ((fun i => add64 lower (div64 (mul64 (sub64 upper lower) (f64_of_Z (Z.of_nat i))) (f64_of_Z (Z.of_nat (steps - 1)))))
     <$> seq 0 steps)
  ++ (if rest && flt lower fzero && fgt upper fzero then [fzero] else []).

#[global] Arguments grid : simpl never.

(** The counter wraps to zeros when it reports the end. *)
Fixpoint next_combination (counter sizes : list nat) : bool * list nat :=
  match counter, sizes with
  | d :: ds, s :: ss =>
      if (S d <? s)%nat then (true, S d :: ds)
      else let '(more, ds') := next_combination ds ss in (more, 0%nat :: ds')
  | _, _ => (false, counter)
  end.

(** [q[index] = points[slot][counter[slot]]] for every slot. *)
Fixpoint place (indices : list nat) (points : list (list f64)) (counter : list nat) (q : list f64)
  : result DynamicsError (list f64) :=
  match indices, points, counter with
  | index :: is_, ps :: pss, c :: cs =>
      let! x := vec_get ps c in
      let! q := vec_set index x q in
      place is_ pss cs q
  | [], _, _ => Ok q
  | _, _, _ => Panic
  end.

(** One evaluation folded into every bound and its spread at this holding pose. *)
Fixpoint fold_tau (tau : list f64) (bounds : list (HoldingTorqueBound * (f64 * f64)))
  : result DynamicsError (list (HoldingTorqueBound * (f64 * f64))) :=
  match bounds with
  | [] => Ok []
  | (b, (low, high)) :: rest =>
      let! value := vec_get tau (tb_index b) in
      refuse_if (negb (is_finite value)) (NonFiniteTorque (tb_joint b)) ;!
      let! rest := fold_tau tau rest in
      Ok ((mkBound (tb_index b) (tb_joint b) (fmax (max_abs_nm b) (fabs value)) (max_delta_nm b),
           (fmin low value, fmax high value)) :: rest)
  end.

Definition close_spread (e : HoldingTorqueBound * (f64 * f64)) : HoldingTorqueBound :=
  let '(b, (low, high)) := e in
  mkBound (tb_index b) (tb_joint b) (max_abs_nm b) (fmax (max_delta_nm b) (sub64 high low)).

Record LossGrid : Type := mkGrid { g_shed : list nat; g_holding : list nat; g_shed_points : list (list f64); g_holding_points : list (list f64) }.

(** The inner loop; [fuel] bounds the poses left. *)
Fixpoint shed_loop (fuel : nat) (model : DynamicsModel) (g : LossGrid) (counter : list nat) (q : list f64)
  (bounds : list (HoldingTorqueBound * (f64 * f64))) : result DynamicsError (list f64 * list (HoldingTorqueBound * (f64 * f64))) :=
  match fuel with
  | O => Panic
  | S fuel =>
      let! q := place (g_shed g) (g_shed_points g) counter q in
      let! tau := gravity_torques model q in
      let! bounds := fold_tau tau bounds in
      let '(more, counter) := next_combination counter (length <$> g_shed_points g) in
      if more then shed_loop fuel model g counter q bounds else Ok (q, bounds)
  end.

Definition sizes_product (sizes : list nat) : nat := foldr Nat.mul 1%nat sizes.

Fixpoint holding_loop (fuel : nat) (model : DynamicsModel) (g : LossGrid) (counter : list nat) (q : list f64)
  (bounds : list HoldingTorqueBound) : result DynamicsError (list HoldingTorqueBound) :=
  match fuel with
  | O => Panic
  | S fuel =>
      let! q := place (g_holding g) (g_holding_points g) counter q in
      let spread := (fun b => (b, (S754_infinity false, S754_infinity true))) <$> bounds in
      let! (q, spread) := shed_loop (sizes_product (length <$> g_shed_points g)) model g
                            (replicate (length (g_shed g)) 0%nat) q spread in
      let bounds := close_spread <$> spread in
      let '(more, counter) := next_combination counter (length <$> g_holding_points g) in
      if more then holding_loop fuel model g counter q bounds else Ok bounds
  end.

Definition loss_grid (n : nat) (shed : list nat) (ranges : list (f64 * f64)) : LossGrid :=
  let holding := List.filter (fun i => negb (bool_decide (i ∈ shed))) (seq 0 n) in
  let points steps rest i := match ranges !! i with Some r => grid r.1 r.2 steps rest | None => [] end in
  mkGrid shed holding (points SHED_GRID_STEPS false <$> shed) (points HOLDING_GRID_STEPS true <$> holding).

(** [try_fold(1, checked_mul).unwrap_or(usize::MAX)]. *)
Fixpoint evaluations_from (total : Z) (sizes : list nat) : Z :=
  match sizes with
  | [] => total
  | s :: rest => if total * Z.of_nat s <=? U64_MAX then evaluations_from (total * Z.of_nat s) rest else U64_MAX
  end.

Definition subtree_loss_torque_bounds (model : DynamicsModel) (shed : list nat) (ranges : list (f64 * f64))
  : result DynamicsError (list HoldingTorqueBound) :=
  let names := dm_joint_names model in
  let n := length names in
  refuse_if (negb (length ranges =? n)%nat) (JointCount (Z.of_nat n) (Z.of_nat (length ranges))) ;!
  match find_first (fun i => (n <=? i)%nat) shed with
  | Some i => Err (JointCount (Z.of_nat n) (Z.of_nat (S i)))
  | None =>
      refuse_if (existsb (fun r => negb (is_finite r.1) || negb (is_finite r.2) || fgt r.1 r.2) ranges)
        (NonFiniteInput "drive-loss grid range") ;!
      let g := loss_grid n shed ranges in
      let sizes := (length <$> g_shed_points g) ++ (length <$> g_holding_points g) in
      let evaluations := evaluations_from 1 sizes in
      refuse_if (MAX_LOSS_GRID_EVALUATIONS <? evaluations) (LossGridTooLarge evaluations MAX_LOSS_GRID_EVALUATIONS) ;!
      let bounds := (fun i => mkBound i (nth i names ""%string) fzero fzero) <$> g_holding g in
      holding_loop (sizes_product (length <$> g_holding_points g)) model g
        (replicate (length (g_holding g)) 0%nat) (replicate n fzero) bounds
  end.

(** ** Every combination is visited *)

Fixpoint value (counter sizes : list nat) : nat :=
  match counter, sizes with d :: ds, s :: ss => (d + s * value ds ss)%nat | _, _ => 0%nat end.

Definition valid (counter sizes : list nat) : Prop := Forall2 lt counter sizes.

Lemma value_bound (c s : list nat) : valid c s -> (value c s < sizes_product s)%nat.
Proof. induction 1; cbn; [lia|]. fold (sizes_product l'). nia. Qed.

Lemma value_inj (c c' s : list nat) : valid c s -> valid c' s -> value c s = value c' s -> c = c'.
Proof.
  intros H. revert c'. induction H as [|d n ds ss Hd H IH]; intros c' H' E; inversion H' as [|d' ? ds' ? Hd' H'']; subst; [done|].
  cbn in E.
  assert (value ds ss = value ds' ss) as Ev
    by (destruct (Nat.lt_trichotomy (value ds ss) (value ds' ss)) as [?|[?|?]]; [nia|done|nia]).
  assert (d = d') as -> by nia. f_equal. by apply IH.
Qed.

Lemma next_combination_spec (c s : list nat) :
  valid c s ->
  let '(more, c') := next_combination c s in
  valid c' s /\ if more then value c' s = S (value c s) else S (value c s) = sizes_product s.
Proof.
  induction 1 as [|d n ds ss Hd H IH]; [split; [constructor|done]|].
  cbn [next_combination sizes_product foldr]. fold (sizes_product ss).
  destruct (Nat.ltb_spec (S d) n) as [Hl|Hl].
  - split; [constructor; auto|cbn; lia].
  - destruct (next_combination ds ss) as [more ds']. destruct IH as [IHv IHm]. split; [constructor; [lia|auto]|].
    destruct more; cbn; nia.
Qed.

Lemma valid_zeros (s : list nat) : Forall (fun n => 0 < n)%nat s -> valid (replicate (length s) 0%nat) s.
Proof. induction 1; cbn; constructor; auto. Qed.

Lemma value_zeros (n : nat) (s : list nat) : value (replicate n 0%nat) s = 0%nat.
Proof. revert s. induction n as [|n IH]; intros [|x s]; cbn; auto. rewrite IH. lia. Qed.

Lemma product_pos (s : list nat) : Forall (fun n => 0 < n)%nat s -> (0 < sizes_product s)%nat.
Proof. induction 1; cbn; [lia|]. fold (sizes_product l). nia. Qed.

(** ** Placing *)

(** Equal outside [X]. *)
Definition agree (X : list nat) (q r : list f64) : Prop :=
  length q = length r /\ forall i, i ∉ X -> q !! i = r !! i.

Lemma agree_refl (X : list nat) (q : list f64) : agree X q q.
Proof. by split. Qed.

Lemma agree_sym (X : list nat) (q r : list f64) : agree X q r -> agree X r q.
Proof. intros [H1 H2]. split; [auto|]. intros i Hi. symmetry. auto. Qed.

Lemma agree_trans (X : list nat) (q r t : list f64) : agree X q r -> agree X r t -> agree X q t.
Proof. intros [H1 H2] [H3 H4]. split; [congruence|]. intros i Hi. rewrite H2 by done. auto. Qed.

Lemma agree_nil (q r : list f64) : agree [] q r -> q = r.
Proof. intros [_ H]. apply list_eq. intros i. apply H. set_solver. Qed.

Lemma vec_set_ok {A : Type} (i : nat) (x : A) (q r : list A) :
  vec_set (E := DynamicsError) i x q = Ok r -> r = <[i := x]> q /\ (i < length q)%nat.
Proof. unfold vec_set. destruct (q !! i) eqn:E; [|discriminate]. intros [= <-]. split; [done|]. by eapply lookup_lt_Some. Qed.

Lemma vec_set_in {A : Type} (i : nat) (x : A) (q : list A) :
  (i < length q)%nat -> vec_set (E := DynamicsError) i x q = Ok (<[i := x]> q).
Proof. intros H. unfold vec_set. by destruct (lookup_lt_is_Some_2 q i H) as [y ->]. Qed.

Lemma place_keeps (idx : list nat) (pts : list (list f64)) (c : list nat) (q r : list f64) :
  place idx pts c q = Ok r -> agree idx q r.
Proof.
  revert pts c q. induction idx as [|i idx IH]; intros [|p pts] [|d c] q; cbn; try discriminate;
    try (intros [= <-]; apply agree_refl).
  intros H. bind_inv H. bind_inv H. apply vec_set_ok in E0 as [-> Hl].
  destruct (IH _ _ _ H) as [Hlen Hk]. split; [by rewrite <- Hlen, length_insert|].
  intros k Hk'. rewrite <- Hk by set_solver. rewrite list_lookup_insert_ne; [done|]. set_solver.
Qed.

(** What is placed does not depend on what was there. *)
Lemma place_agree (X idx : list nat) (pts : list (list f64)) (c : list nat) (q q' r : list f64) :
  agree (idx ++ X) q q' -> place idx pts c q = Ok r -> exists r', place idx pts c q' = Ok r' /\ agree X r r'.
Proof.
  revert pts c q q'. induction idx as [|i idx IH]; intros [|p pts] [|d c] q q' Ha; cbn; try discriminate;
    try (intros [= <-]; eauto).
  intros H. bind_inv H. bind_inv H. apply vec_set_ok in E0 as [-> Hl]. destruct Ha as [Hlen Ha].
  cbn. rewrite vec_set_in by congruence. apply (IH _ _ (<[i := x]> q)); [|done].
  split; [by rewrite !length_insert|]. intros k Hk. destruct (decide (k = i)) as [->|Hne].
  - by rewrite !list_lookup_insert_eq by congruence.
  - rewrite !list_lookup_insert_ne by done. apply Ha. set_solver.
Qed.

(** A pose on the axes is what some counter places. *)
Definition on_axes (idx : list nat) (pts : list (list f64)) (q : list f64) : Prop :=
  Forall2 (fun i ps => exists x, x ∈ ps /\ q !! i = Some x) idx pts.

Lemma place_reaches (idx : list nat) (pts : list (list f64)) (q q0 : list f64) :
  NoDup idx -> on_axes idx pts q -> agree idx q0 q ->
  exists c, valid c (length <$> pts) /\ place idx pts c q0 = Ok q.
Proof.
  intros Hnd H. revert q0. induction H as [|i ps idx pts (x & Hx & Hq) H IH]; intros q0 Ha.
  - exists []. split; [constructor|]. apply agree_nil in Ha as ->. done.
  - apply NoDup_cons in Hnd as [Hni Hnd]. apply list_elem_of_lookup in Hx as [k Hk].
    destruct (IH Hnd (<[i := x]> q0)) as (c & Hv & Hp).
    + destruct Ha as [Hlen Ha]. split; [by rewrite length_insert|]. intros j Hj.
      destruct (decide (j = i)) as [->|Hne].
      * rewrite list_lookup_insert_eq; [done|]. rewrite Hlen. by eapply lookup_lt_Some.
      * rewrite list_lookup_insert_ne by done. apply Ha. set_solver.
    + exists (k :: c). split; [constructor; [by eapply lookup_lt_Some|done]|].
      cbn. unfold vec_get. rewrite Hk. cbn. rewrite vec_set_in; [done|].
      destruct Ha as [-> _]. by eapply lookup_lt_Some.
Qed.

(** ** The bounds cover what was evaluated *)

Abbreviation entry := (HoldingTorqueBound * (f64 * f64))%type.

Definition entry_ok (e : entry) : Prop :=
  is_nan (max_abs_nm e.1) = false /\ is_nan (max_delta_nm e.1) = false
  /\ (e.2.1 = S754_infinity false \/ is_finite e.2.1 = true) /\ (e.2.2 = S754_infinity true \/ is_finite e.2.2 = true).

Lemma low_not_nan (x : f64) (s : bool) : x = S754_infinity s \/ is_finite x = true -> is_nan x = false.
Proof. intros [->|H]; [done|by apply finite_not_nan]. Qed.

Definition widens (e e' : entry) : Prop :=
  tb_index e'.1 = tb_index e.1 /\ tb_joint e'.1 = tb_joint e.1 /\ max_delta_nm e'.1 = max_delta_nm e.1
  /\ fle (max_abs_nm e.1) (max_abs_nm e'.1) = true /\ fle e'.2.1 e.2.1 = true /\ fle e.2.2 e'.2.2 = true.

Definition absorbed (tau : list f64) (e : entry) : Prop :=
  exists v, tau !! tb_index e.1 = Some v /\ is_finite v = true /\ fle (fabs v) (max_abs_nm e.1) = true
            /\ fle e.2.1 v = true /\ fle v e.2.2 = true.

Lemma widens_refl (e : entry) : entry_ok e -> widens e e.
Proof. intros (H1 & _ & H2 & H3). repeat split; apply fle_refl; eauto using low_not_nan. Qed.

Lemma widens_trans (a b c : entry) : widens a b -> widens b c -> widens a c.
Proof.
  intros (H1 & H2 & H3 & H4 & H5 & H6) (K1 & K2 & K3 & K4 & K5 & K6).
  repeat split; try congruence; eauto using fle_trans.
Qed.

Lemma absorbed_widens (tau : list f64) (e e' : entry) : absorbed tau e -> widens e e' -> absorbed tau e'.
Proof.
  intros (v & Hv & Hf & H1 & H2 & H3) (K1 & K2 & K3 & K4 & K5 & K6). exists v. rewrite K1.
  repeat split; eauto using fle_trans.
Qed.

Lemma all_absorbed_widens (tau : list f64) (l l' : list entry) :
  Forall (absorbed tau) l -> Forall2 widens l l' -> Forall (absorbed tau) l'.
Proof. intros H K. induction K; inversion H; subst; constructor; eauto using absorbed_widens. Qed.

Lemma all_widens_trans (a b c : list entry) : Forall2 widens a b -> Forall2 widens b c -> Forall2 widens a c.
Proof. intros H. revert c. induction H; intros c K; inversion K; subst; constructor; eauto using widens_trans. Qed.

Lemma fabs_nan (x : f64) : is_nan (fabs x) = is_nan x.
Proof. by destruct x. Qed.

Lemma fold_tau_ok (tau : list f64) (l l' : list entry) :
  Forall entry_ok l -> fold_tau tau l = Ok l' -> Forall entry_ok l' /\ Forall2 widens l l' /\ Forall (absorbed tau) l'.
Proof.
  intros H. revert l'. induction H as [|[b [lo hi]] l (H1 & H1' & H2 & H3) H IH]; cbn; intros l' E.
  - injection E as <-. auto.
  - cbn in H1, H1', H2, H3. bind_inv E. bind_inv E. bind_inv E. injection E as <-. bsimp.
    destruct (IH _ eq_refl) as (I1 & I2 & I3). unfold vec_get in E0. destruct (tau !! tb_index b) as [v|] eqn:Ev; [|discriminate].
    injection E0 as ->. assert (Hf : is_finite x = true) by (unfold refuse_if in *; by destruct (is_finite x)).
    pose proof (finite_not_nan _ Hf) as Hn.
    pose proof (fmax_ub (max_abs_nm b) (fabs x) H1 ltac:(by rewrite fabs_nan)) as [Hm1 Hm2].
    pose proof (fmin_lb lo x (low_not_nan _ _ H2) Hn) as [Hl1 Hl2]. pose proof (fmax_ub hi x (low_not_nan _ _ H3) Hn) as [Hh1 Hh2].
    split; [|split]; constructor; auto; cbn.
    + repeat split; cbn; [by float_solve|done| |].
      * destruct (fmin_or lo x) as [-> | ->]; auto.
      * destruct (fmax_or hi x) as [-> | ->]; auto.
    + repeat split; auto.
    + exists x. repeat split; auto.
Qed.

(** The inner loop evaluates every shed pose from its counter on. *)
Lemma shed_loop_covers (model : DynamicsModel) (g : LossGrid) (q0 : list f64) (fuel : nat) (c : list nat) (q q' : list f64)
  (l l' : list entry) :
  Forall entry_ok l -> valid c (length <$> g_shed_points g) -> agree (g_shed g) q0 q ->
  shed_loop fuel model g c q l = Ok (q', l') ->
  Forall entry_ok l' /\ Forall2 widens l l' /\ agree (g_shed g) q0 q'
  /\ forall c', valid c' (length <$> g_shed_points g) ->
       (value c (length <$> g_shed_points g) <= value c' (length <$> g_shed_points g))%nat ->
       exists p tau, place (g_shed g) (g_shed_points g) c' q0 = Ok p /\ gravity_torques model p = Ok tau
                     /\ Forall (absorbed tau) l'.
Proof.
  revert c q l. induction fuel as [|fuel IH]; intros c q l Hl Hc Ha E; cbn in E; [discriminate|].
  bind_inv E. rename x into p. bind_inv E. rename x into tau. bind_inv E. rename x into l1.
  destruct (fold_tau_ok _ _ _ Hl E2) as (Hl1 & Hw1 & Hab).
  assert (Hp : agree (g_shed g) q0 p) by (eapply agree_trans; [exact Ha|by eapply place_keeps]).
  destruct (place_agree [] (g_shed g) (g_shed_points g) c q q0 p) as (p0 & Hp0 & Hpp);
    [rewrite app_nil_r; by apply agree_sym|done|]. apply agree_nil in Hpp as <-.
  pose proof (next_combination_spec c _ Hc) as Hn. destruct (next_combination c _) as [more c1]. destruct Hn as [Hv1 Hm].
  assert (Here : forall c', valid c' (length <$> g_shed_points g) ->
            value c' (length <$> g_shed_points g) = value c (length <$> g_shed_points g) -> c' = c) by (intros; by eapply value_inj).
  destruct more.
  - destruct (IH c1 p l1 Hl1 Hv1 Hp E) as (I1 & I2 & I3 & I4). split; [done|]. split; [by eapply all_widens_trans|]. split; [done|].
    intros c' Hc' Hle. destruct (decide (value c' (length <$> g_shed_points g) = value c (length <$> g_shed_points g))) as [He|He].
    + rewrite (Here c' Hc' He). exists p, tau. eauto using all_absorbed_widens.
    + apply I4; [done|]. rewrite Hm. lia.
  - injection E as <- <-. split; [done|]. split; [done|]. split; [done|]. intros c' Hc' Hle.
    pose proof (value_bound _ _ Hc'). rewrite (Here c' Hc' ltac:(lia)). eauto.
Qed.


(** ** The outer loop *)

Definition bound_ok (b : HoldingTorqueBound) : Prop := is_nan (max_abs_nm b) = false /\ is_nan (max_delta_nm b) = false.

Definition raises (b b' : HoldingTorqueBound) : Prop :=
  tb_index b' = tb_index b /\ tb_joint b' = tb_joint b
  /\ fle (max_abs_nm b) (max_abs_nm b') = true /\ fle (max_delta_nm b) (max_delta_nm b') = true.

Lemma raises_trans (a b c : HoldingTorqueBound) : raises a b -> raises b c -> raises a c.
Proof. intros (H1 & H2 & H3 & H4) (K1 & K2 & K3 & K4). repeat split; try congruence; eauto using fle_trans. Qed.

(** The torques of one pose against a bound and the spread at its holding pose. *)
Definition bounded_by (tau : list f64) (b : HoldingTorqueBound) (sp : f64 * f64) : Prop :=
  exists v, tau !! tb_index b = Some v /\ is_finite v = true /\ fle (fabs v) (max_abs_nm b) = true
            /\ fle sp.1 v = true /\ fle v sp.2 = true /\ fle (sub64 sp.2 sp.1) (max_delta_nm b) = true.

Lemma bounded_raises (tau : list f64) (b b' : HoldingTorqueBound) (sp : f64 * f64) :
  bounded_by tau b sp -> raises b b' -> bounded_by tau b' sp.
Proof.
  intros (v & Hv & Hf & H1 & H2 & H3 & H4) (K1 & K2 & K3 & K4). exists v. rewrite K1.
  repeat split; eauto using fle_trans.
Qed.

Lemma sub64_spread_not_nan (lo hi : f64) :
  lo = S754_infinity false \/ is_finite lo = true -> hi = S754_infinity true \/ is_finite hi = true ->
  is_nan (sub64 hi lo) = false.
Proof.
  intros [->|Hl] [->|Hh]; try done; unfold sub64.
  - by destruct hi as [[]|[]| |[]].
  - by destruct lo as [[]|[]| |[]].
  - destruct lo as [s|s| |s m e], hi as [s'|s'| |s' m' e']; try discriminate; try (cbn; by destruct s, s').
    cbn [SFsub]. unfold binary_normalize. destruct (_ - _) as [|p|p]; [done| |]; apply binary_round_sign.
Qed.

Lemma close_spread_raises (b : HoldingTorqueBound) (e : entry) :
  bound_ok b -> entry_ok e -> widens (b, (S754_infinity false, S754_infinity true)) e ->
  raises b (close_spread e) /\ bound_ok (close_spread e)
  /\ forall tau, absorbed tau e -> bounded_by tau (close_spread e) e.2.
Proof.
  destruct e as [b' [lo hi]]. intros [Hb1 Hb2] (Ha & Hd & Hlo & Hhi) (W1 & W2 & W3 & W4 & W5 & W6). cbn in *.
  pose proof (fmax_ub (max_delta_nm b') (sub64 hi lo) Hd (sub64_spread_not_nan lo hi Hlo Hhi)) as [M1 M2].
  split; [|split].
  - repeat split; cbn; try done. congruence.
  - split; cbn; [done|]. by float_solve.
  - intros tau (v & Hv & Hf & H1 & H2 & H3). exists v. repeat split; auto.
Qed.

(** Every shed pose of one holding pose, seen by the same spreads. *)
Definition covers (model : DynamicsModel) (g : LossGrid) (zeros : list f64) (hc : list nat) (bounds : list HoldingTorqueBound) : Prop :=
  exists qh spreads, place (g_holding g) (g_holding_points g) hc zeros = Ok qh
  /\ forall sc, valid sc (length <$> g_shed_points g) ->
       exists p tau, place (g_shed g) (g_shed_points g) sc qh = Ok p /\ gravity_torques model p = Ok tau
                     /\ Forall2 (bounded_by tau) bounds spreads.

Lemma covers_raises (model : DynamicsModel) (g : LossGrid) (zeros : list f64) (hc : list nat) (l l' : list HoldingTorqueBound) :
  covers model g zeros hc l -> Forall2 raises l l' -> covers model g zeros hc l'.
Proof.
  intros (qh & sp & Hq & H) K. exists qh, sp. split; [done|]. intros sc Hsc. destruct (H sc Hsc) as (p & tau & Hp & Ht & Hb).
  exists p, tau. split; [done|]. split; [done|]. clear - Hb K. revert sp Hb.
  induction K; intros sp Hb; inversion Hb; subst; constructor; eauto using bounded_raises.
Qed.

Lemma close_all (bounds : list HoldingTorqueBound) (l : list entry) :
  Forall bound_ok bounds -> Forall entry_ok l ->
  Forall2 widens ((fun b => (b, (S754_infinity false, S754_infinity true))) <$> bounds) l ->
  Forall2 raises bounds (close_spread <$> l) /\ Forall bound_ok (close_spread <$> l)
  /\ forall tau, Forall (absorbed tau) l -> Forall2 (bounded_by tau) (close_spread <$> l) (snd <$> l).
Proof.
  intros Hb. revert l. induction Hb as [|b bs Hb Hbs IH]; intros l He Hw; cbn in Hw; inversion Hw as [|? e ? l' We Wl]; subst.
  - cbn. repeat split; constructor.
  - inversion He as [|? ? He1 He2]; subst. destruct (IH l' He2 Wl) as (I1 & I2 & I3).
    destruct (close_spread_raises b e Hb He1 We) as (C1 & C2 & C3). cbn. split; [by constructor|]. split; [by constructor|].
    intros tau Ht. inversion Ht; subst. constructor; auto.
Qed.

Lemma holding_loop_covers (model : DynamicsModel) (g : LossGrid) (zeros : list f64) (fuel : nat) (c : list nat) (q : list f64)
  (l l' : list HoldingTorqueBound) :
  length (g_shed g) = length (g_shed_points g) -> Forall (fun n => 0 < n)%nat (length <$> g_shed_points g) ->
  Forall bound_ok l -> valid c (length <$> g_holding_points g) -> agree (g_holding g ++ g_shed g) zeros q ->
  holding_loop fuel model g c q l = Ok l' ->
  Forall2 raises l l'
  /\ forall hc, valid hc (length <$> g_holding_points g) ->
       (value c (length <$> g_holding_points g) <= value hc (length <$> g_holding_points g))%nat -> covers model g zeros hc l'.
Proof.
  intros Hlen Hpos. revert c q l. induction fuel as [|fuel IH]; intros c q l Hl Hc Ha E; cbn in E; [discriminate|].
  bind_inv E. rename x into qh. bind_inv E. destruct x as [q1 sp].
  assert (Hz : valid (replicate (length (g_shed g)) 0%nat) (length <$> g_shed_points g))
    by (rewrite Hlen, <- (length_fmap length (g_shed_points g)); by apply valid_zeros).
  destruct (place_agree (g_shed g) (g_holding g) (g_holding_points g) c q zeros qh) as (qz & Hqz & Hag);
    [by apply agree_sym|done|].
  assert (He : Forall entry_ok ((fun b => (b, (S754_infinity false, S754_infinity true))) <$> l)).
  { apply Forall_fmap, (Forall_impl _ _ _ Hl). intros b [H1 H2]. repeat split; cbn; auto. }
  destruct (shed_loop_covers model g qz _ _ _ _ _ _ He Hz (agree_sym _ _ _ Hag) E1) as (S1 & S2 & S3 & S4). clear He.
  destruct (close_all l sp Hl S1 S2) as (C1 & C2 & C3).
  assert (Hhere : covers model g zeros c (close_spread <$> sp)).
  { exists qz, (snd <$> sp). split; [done|]. intros sc Hsc.
    destruct (S4 sc Hsc) as (p & tau & Hp & Ht & Hab); [rewrite value_zeros; lia|]. exists p, tau. auto. }
  pose proof (next_combination_spec c _ Hc) as Hn. destruct (next_combination c _) as [more c1]. destruct Hn as [Hv1 Hm].
  destruct more.
  - assert (Hq1 : agree (g_holding g ++ g_shed g) zeros q1).
    { apply (agree_trans _ _ qz); [|destruct S3 as [? S3]; split; [done|]; intros i Hi; apply S3; set_solver].
      destruct (place_keeps _ _ _ _ _ Hqz) as [? Hk]. split; [done|]. intros i Hi. apply Hk. set_solver. }
    destruct (IH c1 q1 _ C2 Hv1 Hq1 E) as (I1 & I2).
    assert (Hr : Forall2 raises l l').
    { clear - C1 I1. revert l' I1. induction C1; intros l'' K; inversion K; subst; constructor; eauto using raises_trans. }
    split; [done|]. intros hc Hhc Hle.
    destruct (decide (value hc (length <$> g_holding_points g) = value c (length <$> g_holding_points g))) as [He|He].
    + rewrite (value_inj _ _ _ Hhc Hc He). by eapply covers_raises.
    + apply I2; [done|]. rewrite Hm. lia.
  - injection E as <-. split; [done|]. intros hc Hhc Hle. pose proof (value_bound _ _ Hhc).
    by rewrite (value_inj hc c _ Hhc Hc ltac:(lia)).
Qed.

(** ** What an accepted grid shows *)

Definition axis (shed : list nat) (ranges : list (f64 * f64)) (i : nat) : list f64 :=
  match ranges !! i with
  | Some r => if bool_decide (i ∈ shed) then grid r.1 r.2 SHED_GRID_STEPS false else grid r.1 r.2 HOLDING_GRID_STEPS true
  | None => []
  end.

Definition on_grid (shed : list nat) (ranges : list (f64 * f64)) (q : list f64) : Prop :=
  length q = length ranges /\ forall i x, q !! i = Some x -> x ∈ axis shed ranges i.

(** Two poses that differ only in the shed joints, against one bound. *)
Definition pair_bounded (tau tau' : list f64) (b : HoldingTorqueBound) : Prop :=
  exists v v' lo hi, tau !! tb_index b = Some v /\ tau' !! tb_index b = Some v'
  /\ is_finite v = true /\ is_finite v' = true
  /\ fle (fabs v) (max_abs_nm b) = true /\ fle (fabs v') (max_abs_nm b) = true
  /\ fle lo v = true /\ fle v hi = true /\ fle lo v' = true /\ fle v' hi = true
  /\ fle (sub64 hi lo) (max_delta_nm b) = true.

Lemma grid_points (lower upper : f64) (steps : nat) (rest : bool) : (0 < length (grid lower upper steps rest))%nat.
Proof. unfold grid. rewrite length_app, length_fmap, length_seq. lia. Qed.

Lemma loss_grid_positive (n : nat) (shed : list nat) (ranges : list (f64 * f64)) :
  Forall (fun i => i < length ranges)%nat shed -> n = length ranges ->
  Forall (fun k => 0 < k)%nat (length <$> g_shed_points (loss_grid n shed ranges))
  /\ Forall (fun k => 0 < k)%nat (length <$> g_holding_points (loss_grid n shed ranges)).
Proof.
  intros Hs ->. cbn. split; apply Forall_fmap, Forall_fmap.
  - eapply Forall_impl; [exact Hs|]. intros i Hi. cbn. destruct (lookup_lt_is_Some_2 ranges i Hi) as [r ->]. apply grid_points.
  - apply Forall_forall. intros i Hi. apply list_elem_of_In, List.filter_In in Hi as [Hi _]. apply in_seq in Hi.
    cbn. destruct (lookup_lt_is_Some_2 ranges i ltac:(lia)) as [r ->]. apply grid_points.
Qed.

(** A pose on the grid lies on the axes of both counters. *)
Lemma on_grid_axes (shed : list nat) (ranges : list (f64 * f64)) (q : list f64) :
  Forall (fun i => i < length ranges)%nat shed -> on_grid shed ranges q ->
  let g := loss_grid (length ranges) shed ranges in
  on_axes (g_shed g) (g_shed_points g) q /\ on_axes (g_holding g) (g_holding_points g) q.
Proof.
  intros Hs [Hlen Hq]. cbn. split; apply Forall2_fmap_r, Forall_Forall2_diag, Forall_forall; intros i Hi.
  - rewrite Forall_forall in Hs. destruct (lookup_lt_is_Some_2 q i) as [x Hx]; [rewrite Hlen; auto|].
    exists x. split; [|done]. specialize (Hq i x Hx). unfold axis in Hq. destruct (ranges !! i); [|set_solver].
    by rewrite bool_decide_true in Hq.
  - apply list_elem_of_In, List.filter_In in Hi as [Hi Hn]. apply in_seq in Hi. apply negb_true_iff in Hn.
    destruct (lookup_lt_is_Some_2 q i) as [x Hx]; [rewrite Hlen; lia|].
    exists x. split; [|done]. specialize (Hq i x Hx). unfold axis in Hq. destruct (ranges !! i); [|set_solver].
    by rewrite Hn in Hq.
Qed.

Lemma loss_bounds_cover (model : DynamicsModel) (shed : list nat) (ranges : list (f64 * f64)) (bounds : list HoldingTorqueBound) :
  NoDup shed -> subtree_loss_torque_bounds model shed ranges = Ok bounds ->
  tb_index <$> bounds = List.filter (fun i => negb (bool_decide (i ∈ shed))) (seq 0 (length ranges))
  /\ forall q q', on_grid shed ranges q -> on_grid shed ranges q' -> agree shed q q' ->
       exists tau tau', gravity_torques model q = Ok tau /\ gravity_torques model q' = Ok tau'
                        /\ Forall (pair_bounded tau tau') bounds.
Proof.
  intros Hnd H. unfold subtree_loss_torque_bounds in H. bind_inv H.
  assert (Hlen : length ranges = length (dm_joint_names model)) by (destruct (Nat.eqb_spec (length ranges) (length (dm_joint_names model))); [done|discriminate E]).
  destruct (find_first _ shed) as [k|] eqn:Ef; [discriminate|]. rewrite find_first_none in Ef.
  bind_inv H. bind_inv H. clear E E0 E1. rewrite <- Hlen in H. set (g := loss_grid (length ranges) shed ranges) in *.
  assert (Hs : Forall (fun i => i < length ranges)%nat shed).
  { apply Forall_forall. intros i Hi. apply list_elem_of_In, Ef, Nat.leb_gt in Hi. lia. }
  destruct (loss_grid_positive (length ranges) shed ranges Hs eq_refl) as [P1 P2].
  set (zeros := replicate (length ranges) fzero) in *.
  assert (Hl : length (g_shed g) = length (g_shed_points g)) by (cbn; by rewrite length_fmap).
  assert (Hv : valid (replicate (length (g_holding g)) 0%nat) (length <$> g_holding_points g)).
  { replace (length (g_holding g)) with (length (length <$> g_holding_points g)) by (cbn; by rewrite !length_fmap). by apply valid_zeros. }
  assert (Hb : Forall bound_ok ((fun i => mkBound i (nth i (dm_joint_names model) ""%string) fzero fzero) <$> g_holding g))
    by (apply Forall_fmap, Forall_forall; intros i _; by split).
  destruct (holding_loop_covers model g zeros _ _ _ _ _ Hl P1 Hb Hv (agree_refl _ _) H) as [Hr Hcov]. clear Hb.
  split.
  - transitivity (tb_index <$> ((fun i => mkBound i (nth i (dm_joint_names model) ""%string) fzero fzero) <$> g_holding g)).
    + clear - Hr. induction Hr as [|b b' l l' (E & _) _ IH]; [done|]. cbn. congruence.
    + rewrite <- list_fmap_compose. cbn. by rewrite list_fmap_id.
  - intros q q' Hq Hq' Hag. destruct (on_grid_axes _ _ _ Hs Hq) as [A1 A2]. destruct (on_grid_axes _ _ _ Hs Hq') as [A1' _].
    fold g in A1, A2, A1'.
    destruct (place_reaches (g_holding g) (g_holding_points g) q q) as (hc & Hhc & Hph);
      [apply NoDup_ListNoDup, List.NoDup_filter, seq_NoDup|done|apply agree_refl|].
    destruct (place_agree (g_shed g) (g_holding g) (g_holding_points g) hc q zeros q) as (r & Hr' & Har); [|done|].
    { destruct Hq as [Hlq _]. subst zeros. split; [by rewrite length_replicate|]. intros i Hi.
      rewrite !lookup_ge_None_2; [done|rewrite length_replicate|rewrite Hlq]; apply Nat.nlt_ge; intros Hlt; apply Hi, elem_of_app;
        (destruct (decide (i ∈ shed)); [by right|left]; apply list_elem_of_In, List.filter_In; split; [apply in_seq; lia|by rewrite bool_decide_false]). }
    destruct (Hcov hc Hhc) as (qh & sp & Hqh & Hsp); [rewrite value_zeros; lia|].
    assert (qh = r) as -> by congruence.
    destruct (place_reaches (g_shed g) (g_shed_points g) q r Hnd A1 (agree_sym _ _ _ Har)) as (sc & Hsc & Hp).
    destruct (place_reaches (g_shed g) (g_shed_points g) q' r Hnd A1') as (sc' & Hsc' & Hp');
      [eapply agree_trans; [apply agree_sym, Har|done]|].
    destruct (Hsp sc Hsc) as (p & tau & Hp1 & Ht & Hb). destruct (Hsp sc' Hsc') as (p' & tau' & Hp1' & Ht' & Hb').
    assert (p = q) as -> by congruence. assert (p' = q') as -> by congruence.
    exists tau, tau'. split; [done|]. split; [done|]. clear - Hb Hb'.
    induction Hb as [|b [lo hi] bs sp (v & V1 & V2 & V3 & V4 & V5 & V6) Hb IH]; inversion Hb' as [|? ? ? ? (v' & W1 & W2 & W3 & W4 & W5 & W6) Hb'']; subst; [done|].
    constructor; [|auto]. exists v, v', lo, hi. repeat split; auto.
Qed.

(** ** The loops end *)

(** A model that answers one torque per joint. *)
Definition sized (model : DynamicsModel) : Prop :=
  forall q, length q = length (dm_joint_names model) ->
    match gravity_torques model q with
    | Ok tau => length tau = length (dm_joint_names model) | Err _ => True | Panic => False
    end.

Lemma place_total (idx : list nat) (pts : list (list f64)) (c : list nat) (q : list f64) :
  length idx = length pts -> Forall (fun i => i < length q)%nat idx -> valid c (length <$> pts) ->
  exists r, place idx pts c q = Ok r /\ length r = length q.
Proof.
  revert pts c q. induction idx as [|i idx IH]; intros [|p pts] c q Hl Hi Hv; cbn in *; try discriminate; inversion Hv; subst; [eauto|].
  inversion Hi as [|? ? Hi1 Hi2]; subst. cbn. unfold vec_get. destruct (lookup_lt_is_Some_2 p x) as [v ->]; [done|]. cbn.
  rewrite vec_set_in by done. cbn. destruct (IH pts l (<[i := v]> q)) as (r & Hr & Hlr); [lia|by rewrite length_insert|done|].
  exists r. split; [done|]. by rewrite Hlr, length_insert.
Qed.

Lemma fold_tau_total (tau : list f64) (l : list entry) :
  Forall (fun e => tb_index e.1 < length tau)%nat l -> fold_tau tau l <> Panic.
Proof.
  induction 1 as [|[b [lo hi]] l Hb _ IH]; cbn; [done|]. unfold vec_get.
  destruct (lookup_lt_is_Some_2 tau (tb_index b) Hb) as [v ->]. cbn. unfold refuse_if.
  destruct (is_finite v); cbn; [|done]. by destruct (fold_tau tau l).
Qed.

Lemma widens_indices (n : nat) (l l' : list entry) :
  Forall2 widens l l' -> Forall (fun e => tb_index e.1 < n)%nat l -> Forall (fun e => tb_index e.1 < n)%nat l'.
Proof. induction 1 as [|e e' l l' (Hi & _) _ IH]; intros H; inversion H; subst; constructor; auto. by rewrite Hi. Qed.

Definition grid_ok (n : nat) (g : LossGrid) : Prop :=
  length (g_shed g) = length (g_shed_points g) /\ length (g_holding g) = length (g_holding_points g)
  /\ Forall (fun i => i < n)%nat (g_shed g) /\ Forall (fun i => i < n)%nat (g_holding g)
  /\ Forall (fun k => 0 < k)%nat (length <$> g_shed_points g).

Lemma shed_loop_total (model : DynamicsModel) (g : LossGrid) (fuel : nat) (c : list nat) (q : list f64) (l : list entry) :
  sized model -> grid_ok (length (dm_joint_names model)) g -> length q = length (dm_joint_names model) ->
  Forall entry_ok l -> Forall (fun e => tb_index e.1 < length (dm_joint_names model))%nat l ->
  valid c (length <$> g_shed_points g) ->
  (sizes_product (length <$> g_shed_points g) <= fuel + value c (length <$> g_shed_points g))%nat ->
  match shed_loop fuel model g c q l with
  | Ok (q', _) => length q' = length (dm_joint_names model) | Err _ => True | Panic => False
  end.
Proof.
  intros Hsz (G1 & G2 & G3 & G4 & G5). revert c q l.
  induction fuel as [|fuel IH]; intros c q l Hq Hl Hi Hc Hf; [pose proof (value_bound _ _ Hc); lia|]. cbn.
  destruct (place_total (g_shed g) (g_shed_points g) c q) as (r & Hr & Hlr); [done|by rewrite Hq|done|].
  rewrite Hr. cbn. specialize (Hsz r ltac:(congruence)). destruct (gravity_torques model r) as [tau| |]; cbn; [|done|done].
  pose proof (fold_tau_total tau l ltac:(by rewrite Hsz)) as Hnp. destruct (fold_tau tau l) as [l1| |] eqn:El; cbn; [|done|done].
  destruct (fold_tau_ok _ _ _ Hl El) as (O1 & O2 & _).
  pose proof (next_combination_spec c _ Hc) as Hn. destruct (next_combination c _) as [more c1]. destruct Hn as [Hv1 Hm].
  destruct more; [|congruence]. apply IH; [congruence|done|by eapply widens_indices|done|lia].
Qed.

Lemma holding_loop_total (model : DynamicsModel) (g : LossGrid) (fuel : nat) (c : list nat) (q : list f64) (l : list HoldingTorqueBound) :
  sized model -> grid_ok (length (dm_joint_names model)) g -> length q = length (dm_joint_names model) ->
  Forall bound_ok l -> Forall (fun b => tb_index b < length (dm_joint_names model))%nat l ->
  valid c (length <$> g_holding_points g) ->
  (sizes_product (length <$> g_holding_points g) <= fuel + value c (length <$> g_holding_points g))%nat ->
  holding_loop fuel model g c q l <> Panic.
Proof.
  intros Hsz Hg. pose proof Hg as (G1 & G2 & G3 & G4 & G5). revert c q l.
  induction fuel as [|fuel IH]; intros c q l Hq Hl Hi Hc Hf; [pose proof (value_bound _ _ Hc); lia|]. cbn.
  destruct (place_total (g_holding g) (g_holding_points g) c q) as (r & Hr & Hlr); [done|by rewrite Hq|done|].
  rewrite Hr. cbn.
  assert (Hz : valid (replicate (length (g_shed g)) 0%nat) (length <$> g_shed_points g))
    by (rewrite G1, <- (length_fmap length (g_shed_points g)); by apply valid_zeros).
  assert (He : Forall entry_ok ((fun b => (b, (S754_infinity false, S754_infinity true))) <$> l)).
  { apply Forall_fmap, (Forall_impl _ _ _ Hl). intros b [H1 H2]. repeat split; cbn; auto. }
  assert (Hi' : Forall (fun e : entry => tb_index e.1 < length (dm_joint_names model))%nat
                  ((fun b => (b, (S754_infinity false, S754_infinity true))) <$> l)) by (by apply Forall_fmap).
  pose proof (shed_loop_total model g (sizes_product (length <$> g_shed_points g)) _ r _ Hsz Hg ltac:(congruence) He Hi' Hz ltac:(lia)) as Ht.
  destruct (shed_loop _ _ _ _ _ _) as [[q1 sp]| |] eqn:Es; cbn; [|done|done].
  destruct (shed_loop_covers model g r _ _ _ _ _ _ He Hz (agree_refl _ _) Es) as (S1 & S2 & _ & _).
  destruct (close_all l sp Hl S1 S2) as (C1 & C2 & _).
  pose proof (next_combination_spec c _ Hc) as Hn. destruct (next_combination c _) as [more c1]. destruct Hn as [Hv1 Hm].
  destruct more; [|congruence]. apply IH; [done|done| |done|lia].
  clear - C1 Hi. induction C1 as [|b b' k k' (E & _) _ IH]; inversion Hi; subst; constructor; auto. by rewrite E.
Qed.

Lemma loss_bounds_total (model : DynamicsModel) (shed : list nat) (ranges : list (f64 * f64)) :
  sized model -> subtree_loss_torque_bounds model shed ranges <> Panic.
Proof.
  intros Hsz. unfold subtree_loss_torque_bounds. destruct (Nat.eqb_spec (length ranges) (length (dm_joint_names model))) as [Hlen|]; [|done].
  cbn. destruct (find_first _ shed) as [k|] eqn:Ef; [done|]. rewrite find_first_none in Ef.
  destruct (existsb _ ranges); [done|]. cbn. destruct (_ <? _); [done|]. cbn.
  assert (Hs : Forall (fun i => i < length (dm_joint_names model))%nat shed).
  { apply Forall_forall. intros i Hi. apply list_elem_of_In, Ef, Nat.leb_gt in Hi. lia. }
  destruct (loss_grid_positive (length (dm_joint_names model)) shed ranges ltac:(by rewrite Hlen) ltac:(done)) as [P1 P2].
  assert (Hh : Forall (fun i => i < length (dm_joint_names model))%nat (g_holding (loss_grid (length (dm_joint_names model)) shed ranges))).
  { apply Forall_forall. intros i Hi. apply list_elem_of_In, List.filter_In in Hi as [Hi _]. apply in_seq in Hi. lia. }
  apply holding_loop_total; [done| | | | | |].
  - split; [cbn; by rewrite length_fmap|]. split; [cbn; by rewrite length_fmap|]. auto.
  - apply length_replicate.
  - apply Forall_fmap, Forall_forall. intros i _. by split.
  - by apply Forall_fmap.
  - replace (length (List.filter _ _)) with (length (length <$> g_holding_points (loss_grid (length (dm_joint_names model)) shed ranges)))
      by (cbn; by rewrite !length_fmap). by apply valid_zeros.
  - cbn. lia.
Qed.

(** ** What an accepted sweep shows *)

Lemma sweep_from_max (model : DynamicsModel) (j : nat) (angles : list f64) (acc tau : f64) :
  is_nan acc = false -> sweep_from model j angles acc = Ok tau ->
  fle acc tau = true /\ forall q, q ∈ angles -> exists v, sweep_sample model j q = Ok v /\ fle (fabs v) tau = true.
Proof.
  revert acc. induction angles as [|q angles IH]; cbn; intros acc Hacc H.
  - injection H as <-. split; [by apply fle_refl|]. set_solver.
  - bind_inv H. assert (Hf : is_finite x = true).
    { unfold sweep_sample in E. bind_inv E. bind_inv E. destruct (is_finite x1) eqn:Ef; cbn in E; [by injection E as <-|].
      bind_inv E. }
    pose proof (fmax_ub acc (fabs x) Hacc ltac:(rewrite fabs_nan; by apply finite_not_nan)) as [M1 M2].
    destruct (IH (fmax acc (fabs x))) as [I1 I2]; [by float_solve|done|]. split; [by eapply fle_trans|].
    intros p Hp. apply elem_of_cons in Hp as [->|Hp]; [|by apply I2]. exists x. split; [done|]. by eapply fle_trans.
Qed.

Lemma gravity_range_admitted (model : DynamicsModel) (j : nat) (q_min q_max limit : f64) (steps : nat) (v : GravityRangeVerdict) :
  check_gravity_range model j q_min q_max limit steps = Ok v -> refuses v = false ->
  forall i, (i < Nat.max steps 2)%nat ->
    exists tau, sweep_sample model j (sweep_angle q_min q_max (Nat.max steps 2) i) = Ok tau /\ fle (fabs tau) limit = true.
Proof.
  unfold check_gravity_range. destruct (max_gravity_torque_over_range _ _ _ _ _) as [t|e|] eqn:E; [|intros [= <-]; discriminate|discriminate].
  intros Hv Hr i Hi. unfold max_gravity_torque_over_range in E. bind_inv E. bind_inv E.
  destruct (sweep_from_max _ _ _ _ _ (eq_refl : is_nan fzero = false) E) as [_ Hs].
  destruct (Hs (sweep_angle q_min q_max (Nat.max steps 2) i)) as (x1 & Hx & Hle);
    [apply list_elem_of_fmap; exists i; split; [done|]; apply elem_of_seq; lia|].
  exists x1. split; [done|]. destruct (is_nan t || is_nan limit || fgt t limit) eqn:Eb.
  { injection Hv as <-. discriminate. }
  bsimp. eapply fle_trans; [exact Hle|]. by float_solve.
Qed.

End Dynamics.
