(* ===== verification/Gravity.v ===== *)
(** * Gravity: the model built from a URDF

    [src/crates/armee-dynamics/src/urdf_gravity.rs] and the two coefficients of
    [lumped.rs].  The URDF is what [urdf_rs] parsed; the rigid-body algebra is
    nalgebra's and is the interface [Geometry].  [Iterator::sum] of [f64] starts at
    [-0.0]. *)

From Stdlib Require Import ZArith Lia Bool SpecFloat.
From stdpp Require Import base gmap strings list sets.
From S2P Require Import Prelude Float Limits PosHold Position Dynamics.

Module Gravity.
Import PosHold Position Dynamics.

(** ** The parsed URDF *)

Abbreviation Vec3 := (f64 * f64 * f64)%type.

Inductive JointType : Type := Revolute | Continuous | Prismatic | Fixed | Floating | Planar | Spherical.

Record Pose : Type := mkPose { xyz : Vec3; rpy : Vec3 }.

Record UJoint : Type := mkUJoint {
  uj_name : string; uj_type : JointType; uj_origin : Pose; uj_parent : string; uj_child : string; uj_axis : Vec3; uj_mimic : bool
}.

Record Tensor : Type := mkTensor { ixx : f64; ixy : f64; ixz : f64; iyy : f64; iyz : f64; izz : f64 }.

Record ULink : Type := mkULink { ul_name : string; ul_mass : f64; ul_origin : Pose; ul_inertia : Tensor }.

Record Robot : Type := mkRobot { links : list ULink; joints : list UJoint }.

Definition rotary (t : JointType) : bool := match t with Revolute | Continuous => true | _ => false end.

Definition joint_kind (t : JointType) : string :=
  match t with
  | Revolute => "revolute" | Continuous => "continuous" | Prismatic => "prismatic" | Fixed => "fixed"
  | Floating => "floating" | Planar => "planar" | Spherical => "spherical"
  end.

(** ** Constants *)

Definition GRAVITY : Vec3 := (fzero, fzero, lit64 (-981) 100).
Definition DQ_EPS : f64 := lit64 1 1000000.
Definition MIN_AXIS_NORM : f64 := lit64 1 1000000000.
Definition FRAC_PI_2 : f64 := lit64 15707963267948966 10000000000000000.

(** ** Validation *)

Definition vec_list (v : Vec3) : list f64 := let '(a, b, c) := v in [a; b; c].
Definition finite_all (v : Vec3) : bool := forallb is_finite (vec_list v).

(** The first name already seen. *)
Fixpoint first_repeat (seen : list string) (l : list string) : option string :=
  match l with
  | [] => None
  | x :: rest => if bool_decide (x ∈ seen) then Some x else first_repeat (x :: seen) rest
  end.

Definition invalid {A : Type} (m : message) : result DynamicsError A := Err (InvalidModel m).

Definition refuse_repeat (e : string -> DynamicsError) (l : list string) : result DynamicsError unit :=
  match first_repeat [] l with Some x => Err (e x) | None => Ok tt end.

Definition check_kind (j : UJoint) : result DynamicsError unit :=
  match uj_type j with
  | Fixed | Revolute | Continuous => Ok tt
  | Prismatic => Err (UnsupportedJoint (uj_name j) "prismatic motion")
  | Floating | Planar | Spherical => Err (UnsupportedJoint (uj_name j) "floating/planar/spherical motion")
  end ;!
  refuse_if (uj_mimic j) (UnsupportedJoint (uj_name j) "mimic coupling") ;!
  refuse_if (negb (finite_all (xyz (uj_origin j))) || negb (finite_all (rpy (uj_origin j))))
    (InvalidModel (Msg "joint {} has a non-finite origin" [AStr (uj_name j)])).

Definition find_joint (r : Robot) (name : string) : option UJoint :=
  find_first (fun j => bool_decide (uj_name j = name)) (joints r).

Definition check_listed (r : Robot) (name : string) : result DynamicsError unit :=
  let! j := ok_or (find_joint r name) (UnknownModelJoint name) in
  refuse_if (negb (rotary (uj_type j))) (NotActuated name (joint_kind (uj_type j))).

Definition axis_norm (a : Vec3) : f64 :=
  let '(x, y, z) := a in sqrt64 (add64 (add64 (mul64 x x) (mul64 y y)) (mul64 z z)).

Definition check_actuated (listed : list string) (j : UJoint) : result DynamicsError unit :=
  if negb (rotary (uj_type j)) then Ok tt
  else
    refuse_if (negb (bool_decide (uj_name j ∈ listed))) (UnmodelledJoint (uj_name j)) ;!
    let a := uj_axis j in
    refuse_if (negb (finite_all a) || negb (is_finite (axis_norm a)) || flt (axis_norm a) MIN_AXIS_NORM)
      (InvalidModel (Msg "joint {} has a zero or non-finite axis {:?}" (AStr (uj_name j) :: (AF64 <$> vec_list a)))).

Definition check_link (l : ULink) : result DynamicsError unit :=
  refuse_if (negb (is_finite (ul_mass l)) || flt (ul_mass l) fzero || negb (finite_all (xyz (ul_origin l))))
    (InvalidModel (Msg "link {} has a non-finite or negative mass ({}) or COM {:?}"
       (AStr (ul_name l) :: AF64 (ul_mass l) :: (AF64 <$> vec_list (xyz (ul_origin l)))))).

Definition validate_model (r : Robot) (joint_names : list string) (held : list (string * f64)) : result DynamicsError unit :=
  let listed := joint_names ++ held.*1 in
  refuse_repeat (fun n => InvalidModel (Msg "duplicate URDF joint {}" [AStr n])) (uj_name <$> joints r) ;!
  refuse_repeat DuplicateJoint listed ;!
  match find_first (fun e : string * f64 => negb (is_finite e.2)) held with
  | Some e => invalid (Msg "held joint {} has a non-finite angle" [AStr e.1])
  | None => Ok tt
  end ;!
  try_for_each check_kind (joints r) ;!
  try_for_each (check_listed r) listed ;!
  try_for_each (check_actuated listed) (joints r) ;!
  refuse_repeat CyclicChain (uj_child <$> joints r) ;!
  try_for_each check_link (links r).

(** ** Construction *)

Record UrdfGravityModel : Type := mkUrdf {
  joint_names : list string; held : list (string * f64); robot : Robot; link_chains : gmap string (list nat)
}.

(** [joints.iter().position(|j| p(j))] *)
Fixpoint position_where {A : Type} (p : A -> bool) (l : list A) : option nat :=
  match l with
  | [] => None
  | x :: rest => if p x then Some 0%nat else S <$> position_where p rest
  end.

Definition parent_joint (js : list UJoint) (link : string) : option nat :=
  position_where (fun j => bool_decide (uj_child j = link)) js.

(** From [current] up, [chain] being the joints met so far, root first. *)
Fixpoint walk_up (fuel : nat) (js : list UJoint) (link current : string) (chain : list nat) : result DynamicsError (list nat) :=
  match parent_joint js current with
  | None => Ok chain
  | Some idx =>
      if (length js <=? length chain)%nat then Err (CyclicChain link)
      else
        match fuel with
        | O => Panic
        | S fuel =>
            let! j := vec_get js idx in
            walk_up fuel js link (uj_parent j) (idx :: chain)
        end
  end.

Definition link_chain (js : list UJoint) (link : string) : result DynamicsError (list nat) :=
  walk_up (length js) js link link [].

Definition chain_rotary (js : list UJoint) (i : nat) : bool :=
  match js !! i with Some j => rotary (uj_type j) | None => false end.

(** A link a joint moves has mass. *)
Definition check_carried (js : list UJoint) (l : ULink) (chain : list nat) : result DynamicsError unit :=
  if feq (ul_mass l) fzero then
    match find_first (chain_rotary js) chain with
    | Some carrier =>
        let! j := vec_get js carrier in
        invalid (Msg "link {} moved by joint {} has zero mass (missing <inertial>?); give a massless frame a nominal mass"
                   [AStr (ul_name l); AStr (uj_name j)])
    | None => Ok tt
    end
  else Ok tt.

Fixpoint chains_of (js : list UJoint) (ls : list ULink) (m : gmap string (list nat)) : result DynamicsError (gmap string (list nat)) :=
  match ls with
  | [] => Ok m
  | l :: rest =>
      let! chain := link_chain js (ul_name l) in
      check_carried js l chain ;!
      chains_of js rest (<[ul_name l := chain]> m)
  end.

Definition from_robot (r : Robot) (names : list string) (held : list (string * f64)) : result DynamicsError UrdfGravityModel :=
  validate_model r names held ;!
  let! chains := chains_of (joints r) (links r) ∅ in
  Ok (mkUrdf names held r chains).

Definition from_urdf_with_held (loaded : result Limits.UrdfError Robot) (names : list string) (held : list (string * f64))
  : result DynamicsError UrdfGravityModel :=
  let! r := map_err EUrdf loaded in from_robot r names held.

Definition from_urdf (loaded : result Limits.UrdfError Robot) (names : list string) : result DynamicsError UrdfGravityModel :=
  from_urdf_with_held loaded names [].

(** ** The link tree *)

Record LinkInertial : Type := mkInertial { mass_kg : f64; com_m : Vec3 }.

Definition find_link (m : UrdfGravityModel) (link : string) : result DynamicsError ULink :=
  ok_or (find_first (fun l => bool_decide (ul_name l = link)) (links (robot m))) (UnknownLink link).

Definition link_inertial (m : UrdfGravityModel) (link : string) : result DynamicsError LinkInertial :=
  let! l := find_link m link in Ok (mkInertial (ul_mass l) (xyz (ul_origin l))).

Fixpoint replace_inertial (link : string) (v : LinkInertial) (ls : list ULink) : option (list ULink) :=
  match ls with
  | [] => None
  | l :: rest =>
      if bool_decide (ul_name l = link)
      then Some (mkULink (ul_name l) (mass_kg v) (mkPose (com_m v) (rpy (ul_origin l))) (ul_inertia l) :: rest)
      else (cons l) <$> replace_inertial link v rest
  end.

Definition with_link_inertial (m : UrdfGravityModel) (link : string) (v : LinkInertial) : result DynamicsError UrdfGravityModel :=
  let! ls := ok_or (replace_inertial link v (links (robot m))) (UnknownLink link) in
  Ok (mkUrdf (joint_names m) (held m) (mkRobot ls (joints (robot m))) (link_chains m)).

Definition joint_position_in (m : UrdfGravityModel) (joint : string) : result DynamicsError nat :=
  ok_or (position_where (fun j => bool_decide (uj_name j = joint)) (joints (robot m))) (UnknownModelJoint joint).

(** Whether the pose of [link] depends on joint [idx]. *)
Definition carries (m : UrdfGravityModel) (link : string) (idx : nat) : bool :=
  match link_chains m !! link with Some chain => bool_decide (idx ∈ chain) | None => false end.

Definition links_downstream_of (m : UrdfGravityModel) (joint : string) : result DynamicsError (list string) :=
  let! idx := joint_position_in m joint in
  Ok (ul_name <$> List.filter (fun l => carries m (ul_name l) idx) (links (robot m))).

Definition moves_with (m : UrdfGravityModel) (root : nat) (name : string) : bool :=
  match find_joint (robot m) name with Some j => carries m (uj_child j) root | None => false end.

Definition subtree_joints (m : UrdfGravityModel) (joint : string) : result DynamicsError (list nat) :=
  let! root := joint_position_in m joint in
  Ok ((List.filter (fun e : nat * string => moves_with m root e.2) (imap pair (joint_names m))).*1).

(** ** Rigid bodies *)

(** nalgebra: isometries, vectors and the products the model takes of them. *)
Class Geometry : Type := {
  Iso : Type;
  iso_identity : Iso;
  iso_mul : Iso -> Iso -> Iso;
  of_pose : Pose -> Iso;
  axis_rotation : Vec3 -> f64 -> Iso;
  transform_point : Iso -> Vec3 -> Vec3;
  rotated_axis : Iso -> Vec3 -> Vec3;
  translation : Iso -> Vec3;
  vec_sub : Vec3 -> Vec3 -> Vec3;
  cross : Vec3 -> Vec3 -> Vec3;
  dot : Vec3 -> Vec3 -> f64;
  norm_squared : Vec3 -> f64;
  world_tensor : Iso -> Tensor -> Vec3 -> Vec3
}.

Section Torques.
Context `{Geometry}.

Definition q_map (m : UrdfGravityModel) (q : list f64) : result DynamicsError (list (string * f64)) :=
  refuse_if (negb (length q =? length (joint_names m))%nat)
    (JointCount (Z.of_nat (length (joint_names m))) (Z.of_nat (length q))) ;!
  refuse_if (existsb (fun v => negb (is_finite v)) q) (NonFiniteInput "joint angles q") ;!
  Ok (zip (joint_names m) q ++ held m).

(** [map_or(f64::NAN, ..)] *)
Definition angle_in (qm : list (string * f64)) (name : string) : f64 :=
  match find_first (fun e : string * f64 => bool_decide (e.1 = name)) qm with Some e => e.2 | None => S754_nan end.

Definition joint_transform (qm : list (string * f64)) (t : Iso) (j : UJoint) : Iso :=
  let t := iso_mul t (of_pose (uj_origin j)) in
  if rotary (uj_type j) then iso_mul t (axis_rotation (uj_axis j) (angle_in qm (uj_name j))) else t.

Fixpoint chain_joints (js : list UJoint) (chain : list nat) : result DynamicsError (list UJoint) :=
  match chain with
  | [] => Ok []
  | i :: rest =>
      let! j := vec_get js i in
      let! tail := chain_joints js rest in Ok (j :: tail)
  end.

Definition link_transform (m : UrdfGravityModel) (link : string) (qm : list (string * f64)) : result DynamicsError Iso :=
  let! chain := chain_joints (joints (robot m)) (default [] (link_chains m !! link)) in
  Ok (fold_left (joint_transform qm) chain iso_identity).

Fixpoint coms_from (m : UrdfGravityModel) (qm : list (string * f64)) (ls : list ULink) : result DynamicsError (list (f64 * Vec3)) :=
  match ls with
  | [] => Ok []
  | l :: rest =>
      if fle (ul_mass l) fzero then coms_from m qm rest
      else
        let! t := link_transform m (ul_name l) qm in
        let! tail := coms_from m qm rest in
        Ok ((ul_mass l, transform_point t (xyz (ul_origin l))) :: tail)
  end.

Definition link_com_world (m : UrdfGravityModel) (qm : list (string * f64)) : result DynamicsError (list (f64 * Vec3)) :=
  coms_from m qm (links (robot m)).

Definition potential (m : UrdfGravityModel) (qm : list (string * f64)) : result DynamicsError f64 :=
  let! coms := link_com_world m qm in
  Ok (fold_left add64 ((fun e : f64 * Vec3 => mul64 (fneg e.1) (dot GRAVITY e.2)) <$> coms) (fneg fzero)).

(** The central difference of [f] at entry [i]. *)
Definition nudge (qm : list (string * f64)) (i : nat) (v : f64) : result DynamicsError (list (string * f64)) :=
  let! e := vec_get qm i in vec_set i (e.1, v) qm.

Definition difference_term (f : list (string * f64) -> result DynamicsError f64) (qm : list (string * f64)) (i : nat) (q0 sign : f64)
  : result DynamicsError f64 :=
  let! qm := nudge qm i (add64 q0 (mul64 sign DQ_EPS)) in
  let! pe := f qm in
  Ok (div64 (mul64 sign pe) (mul64 (f64_of_Z 2) DQ_EPS)).

Definition central_difference (f : list (string * f64) -> result DynamicsError f64) (qm : list (string * f64)) (i : nat) (q0 : f64)
  : result DynamicsError f64 :=
  let! a := difference_term f qm i q0 (fneg fone) in
  let! b := difference_term f qm i q0 fone in
  Ok (add64 (add64 fzero a) b).

Fixpoint torques_from (f : list (string * f64) -> result DynamicsError f64) (qm : list (string * f64)) (i : nat) (q : list f64)
  : result DynamicsError (list f64) :=
  match q with
  | [] => Ok []
  | q0 :: rest =>
      let! t := central_difference f qm i q0 in
      let! tail := torques_from f qm (S i) rest in Ok (t :: tail)
  end.

Definition refuse_non_finite (m : UrdfGravityModel) (tau : list f64) : result DynamicsError (list f64) :=
  match position_where (fun t => negb (is_finite t)) tau with
  | Some i => let! j := vec_get (joint_names m) i in Err (NonFiniteTorque j)
  | None => Ok tau
  end.

Definition urdf_gravity_torques (m : UrdfGravityModel) (q : list f64) : result DynamicsError (list f64) :=
  let! qm := q_map m q in
  let! tau := torques_from (potential m) qm 0 q in
  refuse_non_finite m tau.

Definition urdf_model (m : UrdfGravityModel) : DynamicsModel := mkModel (joint_names m) (urdf_gravity_torques m).

Definition point_mass_torques (m : UrdfGravityModel) (link : string) (point_m : Vec3) (q : list f64) : result DynamicsError (list f64) :=
  find_link m link ;!
  let! qm := q_map m q in
  let height qm := let! t := link_transform m link qm in Ok (fneg (dot GRAVITY (transform_point t point_m))) in
  let! tau := torques_from height qm 0 q in
  refuse_non_finite m tau.

Definition link_term (m : UrdfGravityModel) (idx : nat) (qm : list (string * f64)) (axis origin : Vec3) (inertia : f64) (l : ULink)
  : result DynamicsError f64 :=
  if negb (carries m (ul_name l) idx) || fle (ul_mass l) fzero then Ok inertia
  else
    let! t := link_transform m (ul_name l) qm in
    let inertial := iso_mul t (of_pose (ul_origin l)) in
    let lever := cross axis (vec_sub (translation inertial) origin) in
    Ok (add64 inertia (add64 (mul64 (ul_mass l) (norm_squared lever)) (dot axis (world_tensor inertial (ul_inertia l) axis)))).

Fixpoint inertia_from (m : UrdfGravityModel) (idx : nat) (qm : list (string * f64)) (axis origin : Vec3) (ls : list ULink) (acc : f64)
  : result DynamicsError f64 :=
  match ls with
  | [] => Ok acc
  | l :: rest => let! acc := link_term m idx qm axis origin acc l in inertia_from m idx qm axis origin rest acc
  end.

Definition joint_inertia (m : UrdfGravityModel) (joint : string) (q : list f64) : result DynamicsError f64 :=
  let! idx := joint_position_in m joint in
  let! qm := q_map m q in
  let! j := vec_get (joints (robot m)) idx in
  let! frame := link_transform m (uj_child j) qm in
  let! inertia := inertia_from m idx qm (rotated_axis frame (uj_axis j)) (translation frame) (links (robot m)) fzero in
  refuse_if (negb (is_finite inertia)) (NonFiniteInput "joint inertia") ;!
  Ok inertia.

(** ** [lumped.rs]: the two coefficients of one joint *)

Record LumpedTerms : Type := mkLumped { a_nm : f64; b_nm : f64 }.

Definition lumped_torque (sin cos : f64 -> f64) (t : LumpedTerms) (q : f64) : f64 :=
  add64 (mul64 (a_nm t) (sin q)) (mul64 (b_nm t) (cos q)).

Definition joint_index (m : UrdfGravityModel) (joint : string) : result DynamicsError nat :=
  ok_or (position_where (fun n => bool_decide (n = joint)) (joint_names m)) (UnknownModelJoint joint).

Definition lumped_terms (m : UrdfGravityModel) (joint : string) (q_fixed : list f64) : result DynamicsError LumpedTerms :=
  let! j := joint_index m joint in
  refuse_if (negb (length q_fixed =? length (joint_names m))%nat)
    (JointCount (Z.of_nat (length (joint_names m))) (Z.of_nat (length q_fixed))) ;!
  let! q := vec_set j FRAC_PI_2 q_fixed in
  let! tau := urdf_gravity_torques m q in
  let! a := vec_get tau j in
  let! q := vec_set j fzero q in
  let! tau := urdf_gravity_torques m q in
  let! b := vec_get tau j in
  Ok (mkLumped a b).

End Torques.

(** ** The link tree of an accepted model *)

Lemma position_where_spec {A : Type} (p : A -> bool) (l : list A) (i : nat) :
  position_where p l = Some i -> exists x, l !! i = Some x /\ p x = true.
Proof.
  revert i. induction l as [|x l IH]; intros i; cbn [position_where]; [done|]. destruct (p x) eqn:E; [intros [= <-]; by exists x|].
  destruct (position_where p l) as [k|]; [|done]. intros [= <-]. exact (IH k eq_refl).
Qed.

Lemma position_where_none {A : Type} (p : A -> bool) (l : list A) : position_where p l = None -> forall x, x ∈ l -> p x = false.
Proof.
  induction l as [|x l IH]; cbn [position_where]; intros E y Hy; [by apply not_elem_of_nil in Hy|].
  destruct (p x) eqn:Ex; [done|]. destruct (position_where p l); [done|]. apply elem_of_cons in Hy as [->|Hy]; auto.
Qed.

(** The joints from the root to [link]. *)
Inductive Path (js : list UJoint) : string -> list nat -> Prop :=
| path_root link : parent_joint js link = None -> Path js link []
| path_step link i j p : parent_joint js link = Some i -> js !! i = Some j -> Path js (uj_parent j) p -> Path js link (p ++ [i]).

Lemma path_unique (js : list UJoint) (link : string) (p p' : list nat) : Path js link p -> Path js link p' -> p = p'.
Proof.
  intros H. revert p'. induction H as [link E|link i j p E Ej _ IH]; intros p' H'; inversion H' as [|? i' j' p0 E' Ej' H0]; subst; try congruence.
  assert (i' = i) as -> by congruence. assert (j' = j) as -> by congruence. by rewrite (IH p0 H0).
Qed.

Lemma walk_up_path (fuel : nat) (js : list UJoint) (link : string) : forall cur chain r,
  walk_up fuel js link cur chain = Ok r -> exists p, Path js cur p /\ r = p ++ chain.
Proof.
  induction fuel as [|fuel IH]; intros cur chain r; cbn [walk_up]; destruct (parent_joint js cur) as [i|] eqn:E;
    try (intros [= <-]; exists []; split; [by constructor|done]); destruct (_ <=? _)%nat; try discriminate.
  unfold vec_get. destruct (js !! i) as [j|] eqn:Ej; [|done]. cbn [rbind]. intros Hr. destruct (IH _ _ _ Hr) as (p & Hp & ->).
  exists (p ++ [i]). split; [by econstructor|by rewrite <- app_assoc].
Qed.

(** The loop ends: every step lengthens the chain, which is never longer than the joints. *)
Lemma walk_up_total (fuel : nat) (js : list UJoint) (link : string) : forall cur chain,
  (length js <= fuel + length chain)%nat -> walk_up fuel js link cur chain <> Panic.
Proof.
  induction fuel as [|fuel IH]; intros cur chain Hf; cbn [walk_up]; destruct (parent_joint js cur) as [i|] eqn:E; try done.
  - destruct (Nat.leb_spec (length js) (length chain)); [done|lia].
  - destruct (_ <=? _)%nat; [done|]. destruct (position_where_spec _ _ _ E) as (j & Ej & _). unfold vec_get. rewrite Ej. cbn [rbind].
    apply IH. cbn [length]. lia.
Qed.

(** A path passes through the paths of its joints' children. *)
Lemma path_prefix (js : list UJoint) (link : string) (p : list nat) (k : nat) (jk : UJoint) :
  (forall j j' i i', js !! i = Some j -> js !! i' = Some j' -> uj_child j = uj_child j' -> i = i') ->
  Path js link p -> k ∈ p -> js !! k = Some jk -> exists pk, Path js (uj_child jk) pk /\ forall i, i ∈ pk -> i ∈ p.
Proof.
  intros Hu Hp. induction Hp as [link E|link i j p E Ej Hp IH]; intros Hk Hj; [by apply not_elem_of_nil in Hk|].
  apply elem_of_app in Hk as [Hk| ->%list_elem_of_singleton].
  - destruct (IH Hk Hj) as (pk & Hpk & Hs). exists pk. split; [done|]. intros x Hx. apply elem_of_app. left. auto.
  - assert (j = jk) as -> by congruence. exists (p ++ [i]). split; [|auto]. apply (path_step _ _ i jk); [|done|done].
    destruct (position_where_spec _ _ _ E) as (j' & Ej' & Hc). assert (j' = jk) as -> by congruence.
    apply bool_decide_eq_true in Hc. by rewrite Hc.
Qed.

Lemma path_bounds (js : list UJoint) (link : string) (p : list nat) : Path js link p -> Forall (fun i => i < length js)%nat p.
Proof.
  induction 1 as [|link i j p E Ej _ IH]; [constructor|]. apply Forall_app. split; [done|]. constructor; [|constructor].
  by eapply lookup_lt_Some.
Qed.

(** What an accepted model is. *)
Record well_built (m : UrdfGravityModel) : Prop := {
  wb_names : NoDup (joint_names m ++ (held m).*1);
  wb_joints : NoDup (uj_name <$> joints (robot m));
  wb_children : NoDup (uj_child <$> joints (robot m));
  wb_actuated : Forall (fun j => rotary (uj_type j) = true -> uj_name j ∈ joint_names m ++ (held m).*1) (joints (robot m));
  wb_held : Forall (fun e : string * f64 => is_finite e.2 = true) (held m);
  wb_listed : Forall (fun n => exists j, find_joint (robot m) n = Some j /\ rotary (uj_type j) = true) (joint_names m ++ (held m).*1);
  wb_chains : map_Forall (Path (joints (robot m))) (link_chains m);
  wb_links : Forall (fun l => is_Some (link_chains m !! ul_name l)) (links (robot m))
}.

Lemma first_repeat_nodup (l : list string) : forall seen, first_repeat seen l = None -> NoDup l /\ forall x, x ∈ l -> x ∉ seen.
Proof.
  induction l as [|x l IH]; intros seen; cbn [first_repeat]; [intros _; split; [apply NoDup_nil_2|set_solver]|].
  case_bool_decide as Hx; [done|]. intros E. destruct (IH _ E) as [Hn Hs]. split.
  - apply NoDup_cons. split; [|done]. intros Hin. apply (Hs x Hin). left.
  - intros y Hy. apply elem_of_cons in Hy as [->|Hy]; [done|]. specialize (Hs y Hy). set_solver.
Qed.

Lemma refuse_repeat_ok (e : string -> DynamicsError) (l : list string) : refuse_repeat e l = Ok tt -> NoDup l.
Proof. unfold refuse_repeat. destruct (first_repeat [] l) eqn:E; [done|]. intros _. exact (proj1 (first_repeat_nodup l [] E)). Qed.

Lemma chains_of_ok (js : list UJoint) (ls : list ULink) : forall m m',
  chains_of js ls m = Ok m' -> map_Forall (Path js) m ->
  map_Forall (Path js) m' /\ Forall (fun l => is_Some (m' !! ul_name l)) ls /\ (forall k, is_Some (m !! k) -> is_Some (m' !! k)).
Proof.
  induction ls as [|l ls IH]; intros m m'; cbn [chains_of]; intros E Hm; [injection E as <-; auto|].
  bind_inv E. bind_inv E. destruct (walk_up_path _ _ _ _ _ _ E0) as (p & Hp & ->). rewrite app_nil_r in E.
  destruct (IH _ _ E) as (H1 & H2 & H3); [by apply map_Forall_insert_2|]. split; [done|]. split.
  - constructor; [|done]. apply H3. rewrite lookup_insert_eq. by eexists.
  - intros k Hk. apply H3. destruct (decide (ul_name l = k)) as [->|]; [rewrite lookup_insert_eq; by eexists|by rewrite lookup_insert_ne].
Qed.

Lemma from_robot_ok (r : Robot) (names : list string) (hd : list (string * f64)) (m : UrdfGravityModel) :
  from_robot r names hd = Ok m -> well_built m /\ joint_names m = names /\ held m = hd /\ robot m = r.
Proof.
  unfold from_robot, validate_model. intros E. bind_inv E. bind_inv E. injection E as <-. cbn. split; [|done].
  destruct x. bind_inv E0. bind_inv E0. bind_inv E0. bind_inv E0. bind_inv E0. bind_inv E0. bind_inv E0.
  destruct x, x1, x2, x3, x4, x5, x6. destruct (chains_of_ok _ _ _ _ E1) as (C1 & C2 & _); [apply map_Forall_empty|].
  assert (Hh : Forall (fun e : string * f64 => is_finite e.2 = true) hd).
  { destruct (find_first _ hd) eqn:Ef in E3; [done|]. rewrite find_first_none in Ef. apply Forall_forall. intros e He.
    apply list_elem_of_In, Ef in He. by apply negb_false_iff in He. }
  split; cbn; eauto using refuse_repeat_ok.
  - rewrite try_for_each_ok in E6. apply Forall_forall. intros j Hj%list_elem_of_In Hr. specialize (E6 j Hj). unfold check_actuated in E6.
    rewrite Hr in E6. cbn [negb] in E6. bind_inv E6. unfold refuse_if in E8. case_bool_decide; [done|discriminate].
  - rewrite try_for_each_ok in E5. apply Forall_forall. intros n Hn%list_elem_of_In. specialize (E5 n Hn). unfold check_listed in E5.
    bind_inv E5. unfold ok_or in E8. destruct (find_joint r n) as [j|]; [|done]. injection E8 as <-. exists j. split; [done|].
    unfold refuse_if in E5. by destruct (rotary (uj_type j)).
Qed.

(** ** Angles and subtrees *)

Lemma find_named (qm : list (string * f64)) (n : string) : n ∈ qm.*1 ->
  exists e, find_first (fun e : string * f64 => bool_decide (e.1 = n)) qm = Some e /\ e ∈ qm.
Proof.
  intros (e & -> & He)%list_elem_of_fmap. destruct (find_first _ qm) as [e'|] eqn:E.
  - exists e'. split; [done|]. apply find_first_some in E as [Hin _]. by apply list_elem_of_In.
  - rewrite find_first_none in E. apply list_elem_of_In, E in He. by rewrite bool_decide_true in He.
Qed.

Lemma zip_names (names : list string) (q : list f64) : length q = length names -> (zip names q).*1 = names.
Proof. intros E. apply fst_zip. lia. Qed.

(** Every angle the model reads is one it was given or holds, and is finite. *)
Lemma angles_known (m : UrdfGravityModel) (q : list f64) (qm : list (string * f64)) :
  well_built m -> q_map m q = Ok qm ->
  forall j, j ∈ joints (robot m) -> rotary (uj_type j) = true -> is_finite (angle_in qm (uj_name j)) = true.
Proof.
  intros W E j Hj Hr. unfold q_map in E. bind_inv E. bind_inv E. injection E as <-.
  unfold refuse_if in E0, E1. destruct (Nat.eqb_spec (length q) (length (joint_names m))) as [Hlen|]; [|done]. destruct (existsb _ q) eqn:Ef; [done|].
  pose proof (wb_actuated _ W) as Ha. rewrite Forall_forall in Ha. specialize (Ha j Hj Hr).
  destruct (find_named (zip (joint_names m) q ++ held m) (uj_name j)) as (e & He & Hin).
  { by rewrite fmap_app, zip_names. }
  unfold angle_in. rewrite He. apply elem_of_app in Hin as [Hin|Hin].
  - destruct e as [n v]. apply elem_of_zip_r in Hin. cbn. apply list_elem_of_In in Hin.
    destruct (is_finite v) eqn:Ev; [done|]. assert (existsb (fun v => negb (is_finite v)) q = true); [|congruence].
    apply existsb_exists. exists v. by rewrite Ev.
  - pose proof (wb_held _ W) as Hh. rewrite Forall_forall in Hh. auto.
Qed.

Lemma imap_pair_fst {A : Type} (l : list A) : forall k, (imap (fun i x => (k + i, x)%nat) l).*1 = seq k (length l).
Proof.
  induction l as [|x l IH]; intros k; cbn; [done|]. f_equal; [lia|]. rewrite <- (IH (S k)). f_equal. apply imap_ext. intros i y _. cbn. f_equal. lia.
Qed.

Lemma imap_pair_in {A : Type} (l : list A) (e : nat * A) : e ∈ imap pair l <-> l !! e.1 = Some e.2.
Proof.
  destruct e as [i x]. rewrite elem_of_lookup_imap. cbn. split; [by intros (j & y & [= -> ->] & Hl)|]. intros Hl. by exists i, x.
Qed.

Lemma subtree_in (m : UrdfGravityModel) (joint : string) (l : list nat) : subtree_joints m joint = Ok l ->
  exists root, joint_position_in m joint = Ok root /\
    forall i, i ∈ l <-> exists n, joint_names m !! i = Some n /\ moves_with m root n = true.
Proof.
  unfold subtree_joints. intros E. bind_inv E. injection E as <-. exists x. split; [done|]. intros i. rewrite list_elem_of_fmap. split.
  - intros ([k n] & -> & [Hin Hm]%list_elem_of_In%List.filter_In). exists n. split; [|done]. by apply list_elem_of_In, imap_pair_in in Hin.
  - intros (n & Hn & Hm). exists (i, n). split; [done|]. apply list_elem_of_In, List.filter_In. split; [|done]. by apply list_elem_of_In, imap_pair_in.
Qed.

Lemma filter_sublist {A : Type} (f : A -> bool) (l : list A) : List.filter f l `sublist_of` l.
Proof. induction l as [|x l IH]; cbn; [constructor|]. destruct (f x); by constructor. Qed.

Lemma subtree_nodup (m : UrdfGravityModel) (joint : string) (l : list nat) : subtree_joints m joint = Ok l ->
  NoDup l /\ Forall (fun i => i < length (joint_names m))%nat l.
Proof.
  intros E. split.
  - unfold subtree_joints in E. bind_inv E. injection E as <-. eapply sublist_NoDup; [|apply fmap_sublist, filter_sublist].
    change (imap pair (joint_names m)) with (imap (fun i x => (0 + i, x)%nat) (joint_names m)). rewrite imap_pair_fst. apply NoDup_seq.
  - destruct (subtree_in m joint l E) as (root & _ & Hi). apply Forall_forall. intros i (n & Hn & _)%Hi. by eapply lookup_lt_Some.
Qed.

Lemma children_unique (m : UrdfGravityModel) : well_built m -> forall j j' i i',
  joints (robot m) !! i = Some j -> joints (robot m) !! i' = Some j' -> uj_child j = uj_child j' -> i = i'.
Proof.
  intros W j j' i i' Hi Hi' E. pose proof (wb_children _ W) as Hn. rewrite NoDup_alt in Hn. apply (Hn i i' (uj_child j)).
  - by rewrite list_lookup_fmap, Hi.
  - rewrite list_lookup_fmap, Hi'. by rewrite E.
Qed.

Lemma find_joint_position (m : UrdfGravityModel) (n : string) (j : UJoint) (root : nat) : well_built m ->
  find_joint (robot m) n = Some j -> joint_position_in m n = Ok root -> joints (robot m) !! root = Some j.
Proof.
  intros W Hf Hp. apply ok_or_ok, position_where_spec in Hp as (j' & Hj' & E'%bool_decide_eq_true).
  apply find_first_some in Hf as [Hin E%bool_decide_eq_true]. apply list_elem_of_In, list_elem_of_lookup in Hin as [i Hi].
  pose proof (wb_joints _ W) as Hn. rewrite NoDup_alt in Hn. assert (i = root) as <-; [|done].
  apply (Hn i root n); by rewrite list_lookup_fmap, ?Hi, ?Hj'; cbn; congruence.
Qed.

(** A subtree holds the subtrees of its joints. *)
Lemma subtree_closed (m : UrdfGravityModel) (joint : string) (l : list nat) (k : nat) (nk : string) (lk : list nat) :
  well_built m -> subtree_joints m joint = Ok l -> k ∈ l -> joint_names m !! k = Some nk -> subtree_joints m nk = Ok lk ->
  forall i, i ∈ lk -> i ∈ l.
Proof.
  intros W E Hk Hn Ek i Hi. destruct (subtree_in m joint l E) as (root & _ & Hl). destruct (subtree_in m nk lk Ek) as (rk & Hrk & Hlk).
  apply Hl in Hk as (n & Hn' & Hm). assert (n = nk) as -> by congruence. apply Hlk in Hi as (ni & Hni & Hmi). apply Hl. exists ni. split; [done|].
  unfold moves_with in *. destruct (find_joint (robot m) nk) as [jk|] eqn:Ej; [|done]. destruct (find_joint (robot m) ni) as [ji|]; [|done].
  pose proof (find_joint_position m nk jk rk W Ej Hrk) as Hj. unfold carries in *.
  destruct (link_chains m !! uj_child ji) as [ci|] eqn:Eci; [|done]. destruct (link_chains m !! uj_child jk) as [ck|] eqn:Eck; [|done].
  rewrite bool_decide_eq_true in *. pose proof (wb_chains _ W _ _ Eci) as Pi. pose proof (wb_chains _ W _ _ Eck) as Pk.
  destruct (path_prefix _ _ _ rk jk (children_unique m W) Pi Hmi Hj) as (pk & Hpk & Hsub). apply Hsub.
  by rewrite (path_unique _ _ _ _ Hpk Pk).
Qed.

(** ** Torques *)

Section Total.
Context `{Geometry}.

Definition no_panic {A : Type} (r : result DynamicsError A) : Prop := r <> Panic.

Lemma chain_joints_total (js : list UJoint) (chain : list nat) :
  Forall (fun i => i < length js)%nat chain -> no_panic (chain_joints js chain).
Proof.
  unfold no_panic. induction 1 as [|i chain Hi _ IH]; cbn [chain_joints]; [done|]. unfold vec_get.
  destruct (lookup_lt_is_Some_2 js i Hi) as [j ->]. cbn [rbind]. by destruct (chain_joints js chain).
Qed.

Lemma transform_total (m : UrdfGravityModel) (link : string) (qm : list (string * f64)) : well_built m -> no_panic (link_transform m link qm).
Proof.
  intros W. unfold link_transform, no_panic.
  assert (Hb : Forall (fun i => i < length (joints (robot m)))%nat (default [] (link_chains m !! link))).
  { destruct (link_chains m !! link) as [c|] eqn:E; [|constructor]. exact (path_bounds _ _ _ (wb_chains _ W _ _ E)). }
  pose proof (chain_joints_total _ _ Hb) as Ht. by destruct (chain_joints _ _).
Qed.

Lemma potential_total (m : UrdfGravityModel) (qm : list (string * f64)) : well_built m -> no_panic (potential m qm).
Proof.
  intros W. unfold potential, link_com_world, no_panic.
  assert (Hc : forall ls, coms_from m qm ls <> Panic).
  { induction ls as [|l ls IH]; cbn [coms_from]; [done|]. destruct (fle _ _); [done|].
    pose proof (transform_total m (ul_name l) qm W) as Ht. unfold no_panic in Ht. destruct (link_transform _ _ _); [cbn [rbind]|done..].
    by destruct (coms_from m qm ls). }
  specialize (Hc (links (robot m))). by destruct (coms_from _ _ _).
Qed.

Lemma torques_total (f : list (string * f64) -> result DynamicsError f64) (qm : list (string * f64)) (q : list f64) :
  (forall qm, no_panic (f qm)) -> forall i, (i + length q <= length qm)%nat ->
  match torques_from f qm i q with Ok tau => length tau = length q | Err _ => True | Panic => False end.
Proof.
  intros Hf. assert (Hd : forall i q0 sign, (i < length qm)%nat -> difference_term f qm i q0 sign <> Panic).
  { intros i q0 sign Hi. unfold difference_term, nudge, vec_get, vec_set. destruct (lookup_lt_is_Some_2 qm i Hi) as [e ->]. cbn [rbind].
    match goal with |- context [f ?x] => pose proof (Hf x) as Hx; unfold no_panic in Hx; by destruct (f x) end. }
  induction q as [|q0 q IH]; intros i Hi; cbn [torques_from]; [done|]. cbn [length] in Hi. unfold central_difference.
  pose proof (Hd i q0 (fneg fone) ltac:(lia)) as D1. pose proof (Hd i q0 fone ltac:(lia)) as D2.
  destruct (difference_term f qm i q0 (fneg fone)); [cbn [rbind]|done..]. destruct (difference_term f qm i q0 fone); [cbn [rbind]|done..].
  specialize (IH (S i) ltac:(lia)). destruct (torques_from f qm (S i) q); [|done..]. cbn. by rewrite IH.
Qed.

Lemma refuse_non_finite_spec (m : UrdfGravityModel) (tau : list f64) : length tau = length (joint_names m) ->
  match refuse_non_finite m tau with
  | Ok tau' => tau' = tau /\ Forall (fun t => is_finite t = true) tau
  | Err e => exists j, e = NonFiniteTorque j /\ j ∈ joint_names m
  | Panic => False
  end.
Proof.
  intros Hl. unfold refuse_non_finite. destruct (position_where _ tau) as [i|] eqn:E.
  - apply position_where_spec in E as (t & Ht & _). unfold vec_get. apply lookup_lt_Some in Ht. rewrite Hl in Ht.
    destruct (lookup_lt_is_Some_2 _ _ Ht) as [j Hj]. rewrite Hj. cbn. exists j. split; [done|]. by eapply list_elem_of_lookup_2.
  - split; [done|]. apply Forall_forall. intros t Hin. apply (position_where_none _ _ E) in Hin. by apply negb_false_iff.
Qed.

(** Per joint one finite torque, or a reason; never a panic. *)
Lemma torques_spec (m : UrdfGravityModel) (q : list f64) : well_built m ->
  match urdf_gravity_torques m q with
  | Ok tau => length tau = length (joint_names m) /\ Forall (fun t => is_finite t = true) tau
  | Err _ => True
  | Panic => False
  end.
Proof.
  intros W. unfold urdf_gravity_torques, q_map. destruct (Nat.eqb_spec (length q) (length (joint_names m))) as [Hlen|]; [|done]. cbn.
  destruct (existsb _ q); [done|]. cbn.
  pose proof (torques_total (potential m) (zip (joint_names m) q ++ held m) q (fun qm => potential_total m qm W) 0) as Ht.
  rewrite length_app, length_zip in Ht. specialize (Ht ltac:(lia)). destruct (torques_from _ _ _ _) as [tau| |]; [|done..]. cbn.
  pose proof (refuse_non_finite_spec m tau ltac:(lia)) as Hr. destruct (refuse_non_finite m tau); [|done..]. destruct Hr as [-> Hr]. split; [lia|done].
Qed.

Lemma urdf_sized (m : UrdfGravityModel) : well_built m -> sized (urdf_model m).
Proof. intros W q _. cbn. pose proof (torques_spec m q W) as Ht. destruct (urdf_gravity_torques m q); [|done..]. by destruct Ht. Qed.

Lemma no_panic_refuse (b : bool) (e : DynamicsError) : no_panic (refuse_if b e).
Proof. by destruct b. Qed.

Lemma no_panic_each {A : Type} (f : A -> result DynamicsError unit) (l : list A) : (forall x, no_panic (f x)) -> no_panic (try_for_each f l).
Proof.
  intros Hf. unfold no_panic. induction l as [|x l IH]; cbn [try_for_each]; [done|]. specialize (Hf x). unfold no_panic in Hf. by destruct (f x).
Qed.

Lemma no_panic_bind {A C : Type} (r : result DynamicsError A) (k : A -> result DynamicsError C) :
  no_panic r -> (forall a, no_panic (k a)) -> no_panic (rbind r k).
Proof. intros Hr Hk. destruct r; [apply Hk|done|done]. Qed.

Lemma validate_total (r : Robot) (names : list string) (hd : list (string * f64)) : no_panic (validate_model r names hd).
Proof.
  assert (Hrep : forall e l, no_panic (refuse_repeat e l)) by (intros e l; unfold refuse_repeat, no_panic; by destruct (first_repeat _ _)).
  unfold validate_model. repeat (apply no_panic_bind; [|intros _]); auto using no_panic_each.
  - unfold no_panic. by destruct (find_first _ hd).
  - apply no_panic_each. intros j. unfold check_kind. repeat (apply no_panic_bind; [|intros _]); auto using no_panic_refuse. unfold no_panic. by destruct (uj_type j).
  - apply no_panic_each. intros n. unfold check_listed, no_panic. destruct (find_joint r n) as [j|]; [|done]. cbn. by destruct (negb _).
  - apply no_panic_each. intros j. unfold check_actuated. destruct (negb _); [done|]. apply no_panic_bind; intros; apply no_panic_refuse.
  - apply no_panic_each. intros l. apply no_panic_refuse.
Qed.

Lemma chains_total (js : list UJoint) (ls : list ULink) : forall m, no_panic (chains_of js ls m).
Proof.
  induction ls as [|l ls IH]; intros m; cbn [chains_of]; [done|].
  assert (Hc : no_panic (link_chain js (ul_name l))) by (apply walk_up_total; cbn; lia).
  unfold no_panic in *. destruct (link_chain js (ul_name l)) as [c| |] eqn:E; [cbn [rbind]|done..].
  destruct (walk_up_path _ _ _ _ _ _ E) as (p & Hp & ->). rewrite app_nil_r. unfold check_carried. destruct (feq _ _); [|apply IH].
  destruct (find_first _ p) as [k|] eqn:Ef; [|apply IH]. apply find_first_some in Ef as [Hin _]. apply list_elem_of_In in Hin.
  pose proof (path_bounds _ _ _ Hp) as Hb. rewrite Forall_forall in Hb. destruct (lookup_lt_is_Some_2 js k (Hb k Hin)) as [j Hj].
  unfold vec_get. by rewrite Hj.
Qed.

(** C31: a gravity model that was accepted answers for every pose.  Building one
    from any URDF ends without a panic, cyclic link trees included; and an accepted
    model answers a pose with one finite torque per joint or with an error, never
    with a panic, every rotary joint of the URDF read at a finite angle that was
    given or is held. *)
Theorem gravity_model_total (r : Robot) (names : list string) (hd : list (string * f64)) :
  from_robot r names hd <> Panic
  /\ forall m q, from_robot r names hd = Ok m ->
       match urdf_gravity_torques m q with
       | Ok tau => length tau = length names /\ Forall (fun t => is_finite t = true) tau
       | Err _ => True
       | Panic => False
       end
       /\ forall qm j, q_map m q = Ok qm -> j ∈ joints r -> rotary (uj_type j) = true -> is_finite (angle_in qm (uj_name j)) = true.
Proof.
  split.
  - unfold from_robot. apply no_panic_bind; [apply validate_total|]. intros _. apply no_panic_bind; [apply chains_total|done].
  - intros m q Em. destruct (from_robot_ok _ _ _ _ Em) as (W & <- & _ & <-). split; [by apply torques_spec|].
    intros qm j Eq Hj Hr. by eapply angles_known.
Qed.

(** what a lost joint takes with it is a closed subtree.  In an accepted model
    the joints that move with a joint are listed once each, by valid indices, and
    with every joint of the list come all joints that move with it. *)
Theorem subtrees_closed (r : Robot) (names : list string) (hd : list (string * f64)) (m : UrdfGravityModel) (joint : string) (l : list nat) :
  from_robot r names hd = Ok m -> subtree_joints m joint = Ok l ->
  NoDup l /\ Forall (fun i => i < length names)%nat l
  /\ forall k nk lk i, k ∈ l -> names !! k = Some nk -> subtree_joints m nk = Ok lk -> i ∈ lk -> i ∈ l.
Proof.
  intros Em El. destruct (from_robot_ok _ _ _ _ Em) as (W & <- & _). destruct (subtree_nodup m joint l El) as [Hn Hb].
  split; [done|]. split; [done|]. intros k nk lk i Hk Hnk Hlk. by eapply subtree_closed.
Qed.

End Total.

(** ** Two links on one arm *)

Definition no_pose : Pose := mkPose (fzero, fzero, fzero) (fzero, fzero, fzero).
Definition up_axis : Vec3 := (fzero, fone, fzero).
Definition no_tensor : Tensor := mkTensor fzero fzero fzero fzero fzero fzero.
Definition two_links : Robot :=
  mkRobot [mkULink "base" fzero no_pose no_tensor; mkULink "upper" fone no_pose no_tensor; mkULink "lower" fone no_pose no_tensor]
    [mkUJoint "pitch" Revolute no_pose "base" "upper" up_axis false; mkUJoint "elbow" Revolute no_pose "upper" "lower" up_axis false].

Definition two_names : list string := ["pitch"; "elbow"]%string.

(** Losing the shoulder takes the elbow with it; losing the elbow does not take the shoulder. *)
Example two_subtrees :
  (let! m := from_robot two_links two_names [] in let! a := subtree_joints m "pitch" in let! b := subtree_joints m "elbow" in Ok (a, b))
  = Ok ([0; 1]%nat, [1]%nat).
Proof. vm_compute. reflexivity. Qed.

Lemma subtrees_closed_witness :
  exists m, from_robot two_links two_names [] = Ok m /\ subtree_joints m "pitch" = Ok [0; 1]%nat /\ NoDup [0; 1]%nat.
Proof.
  assert (Hm : match from_robot two_links two_names [] with
    | Ok m => match subtree_joints m "pitch" with Ok [0; 1]%nat => true | _ => false end | _ => false end = true) by (vm_compute; reflexivity).
  destruct (from_robot two_links two_names []) as [m|e|] eqn:E; [|discriminate..]. exists m. split; [done|].
  destruct (subtree_joints m "pitch") as [[|[|?] [|[|[|?]] [|? ?]]]| |] eqn:El; try discriminate Hm. split; [done|].
  exact (proj1 (subtrees_closed two_links two_names [] m "pitch" _ E El)).
Defined.

End Gravity.
