(* ===== verification/Loop.v ===== *)
(** * Loop: the control loop's state and operator commands

    [src/crates/berthier/src/] [loop.rs] (everything but the periodic cycle,
    which is [LoopTick]) and [degraded.rs], over the supervisor of [Lifecycle] to
    [Enable].

    The loop is a state with errors, [st]; a command that fails leaves the state
    it had reached.  Left out: log lines, the tick phase timings, the position
    trace and the rate limiting of diagnostic output, with the clock readings
    only they use.  The gravity model, its subtrees, [exp], [tanh], [cos] and
    [sin] are arguments; the files an implicit Enable reads are an argument of the
    commands that may enable; [fuel] bounds the identity re-read of an Enable, as
    in [Enable]. *)

From Stdlib Require Import ZArith Lia Bool SpecFloat.
From stdpp Require Import base gmap strings list.
From S2P Require Import Prelude Float Comm Config Limits TotalTorque Params Mit Bus Reporting Faults Davout Filter Admission Authority Physical Lifecycle Session Enable Position Friction Setpoint Gains PosHold HoldTick Facets Dynamics.

Module Loop.
Import Bus Faults Davout Filter Admission Lifecycle Session Enable Position Friction Setpoint Gains PosHold Facets Dynamics.

(** ** Errors *)

Inductive LoopError : Type :=
| LSafety (e : DavoutError)
| LDynamics (e : DynamicsError)
| LConfig (e : Config.ConfigError)
| LChappe (m : string)
| LMissingSetpoint (joint : string)
| LUnknownJoint (joint : string)
| LJointNameRequired
| LInvalidWaveRange
| LInvalidWaveCycles
| LInvalidWavePeriod
| LNonFiniteWave (field : string) (value : f64)
| LWaveOutsideLimits (joint : string) (min_rad max_rad lower upper : f64)
| LWaveStartTooFar (joint : string) (min_rad reference_rad tolerance_rad : f64)
| LWaveExceedsMotionLimit (joint quantity : string) (requested limit : f64)
| LWaveExceedsDangerZone (joint zones : string) (above requested limit min_half_period_s : f64)
| LNonFiniteTarget (joint : string) (value : f64)
| LInvalidSpeedFraction (e : InvalidSpeedFraction)
| LMissingFeedback (joint : string)
| LEnableIncomplete (detail : message)
| LAscentStall (joint : string) (ms : Z) (trip : HoldFuseTrip)
| LReturnStall (joint : string) (ms : Z) (trip : HoldFuseTrip)
| LHoldTracking (joint : string) (ms : Z) (trip : HoldFuseTrip)
| LWaveStall (joint : string) (ms : Z) (trip : HoldFuseTrip)
| LHoldLenMismatch
| LNonFiniteTorqueCmd (joint : string)
| LInvalidGainOverride (joint field : string)
| LExplicitEnableRequired
| LGainOverrideNotApplicable (joint : string) (mode : ControlMode)
| LInvalidLoopPeriod (seconds : f64)
| LDegradedHold (joint : string)
| LDriveLossAdmission (joint : string) (m : message)
| LNoDegradedEpisode
| LGainShape (e : GainShapeError).

(** [impl From<HoldError> for LoopError]. *)
Definition of_hold (e : HoldError) : LoopError :=
  match e with
  | AscentStall j ms t => LAscentStall j ms t
  | ReturnStall j ms t => LReturnStall j ms t
  | EHoldTracking j ms t => LHoldTracking j ms t
  | MissingSetpoint j => LMissingSetpoint j
  | WaveStall j ms t => LWaveStall j ms t
  | LenMismatch => LHoldLenMismatch
  | InvalidPeriod s => LInvalidLoopPeriod s
  end.

(** ** [degraded.rs]: the data *)

Definition DEGRADED_REST_TOLERANCE_RAD : f64 := lit64 5 100.

Inductive DegradedLowerCause : Type := Operator | Timeout.

Inductive DegradedEvent : Type :=
| DriveLost (joint : string) (shed holding : list string) (auto_lower_in : Z)
| LowerStarted (cause : DegradedLowerCause)
| LowerComplete
| Ended (lost_joint : string) (ending : DegradedEnd).

Inductive DegradedPhase : Type := HoldPhase | LowerRequested (cause : DegradedLowerCause) | Lowering.

#[export] Instance DegradedPhase_eq_dec : EqDecision DegradedPhase.
Proof. unfold EqDecision. intros [] []; try (right; congruence); try (left; congruence). destruct cause, cause0; (left; congruence) || (right; congruence). Defined.

Record DegradedControl : Type := mkControl {
  dc_lost_joint : string; dc_shed : list nat; dc_holding : list nat; dc_frozen : list (nat * f64);
  auto_lower_at : Z; dc_phase : DegradedPhase
}.

Definition dc_is_shed (c : DegradedControl) (index : nat) : bool := bool_decide (index ∈ dc_shed c).

Record DriveLossAdmission : Type := mkAdmission { da_plan : DriveLossPlan; da_bounds : list HoldingTorqueBound }.

(** ** A state with errors *)

Definition st (S E A : Type) : Type := S -> result E A * S.

Definition ret {S E A : Type} (a : A) : st S E A := fun s => (Ok a, s).
Definition throw {S E A : Type} (e : E) : st S E A := fun s => (Err e, s).
Definition sbind {S E A C : Type} (m : st S E A) (k : A -> st S E C) : st S E C :=
  fun s => match m s with
           | (Ok a, s) => k a s
           | (Err e, s) => (Err e, s)
           | (Panic, s) => (Panic, s)
           end.
Definition get {S E : Type} : st S E S := fun s => (Ok s, s).
Definition modify {S E : Type} (f : S -> S) : st S E unit := fun s => (Ok tt, f s).
Definition of_result {S E A : Type} (r : result E A) : st S E A := fun s => (r, s).

Declare Scope loop_scope.
Delimit Scope loop_scope with loop.
Notation "'let*' x ':=' m 'in' k" := (sbind m (fun x => k))
  (at level 10, x pattern, m at level 100, k at level 200) : loop_scope.
Notation "m ';*' k" := (sbind m (fun _ => k))
  (at level 100, k at level 200, right associativity) : loop_scope.
#[global] Open Scope loop_scope.

Fixpoint for_each {S E A : Type} (f : A -> st S E unit) (l : list A) : st S E unit :=
  match l with
  | [] => ret tt
  | x :: rest => f x ;* for_each f rest
  end.

Fixpoint map_each {S E A C : Type} (f : A -> st S E C) (l : list A) : st S E (list C) :=
  match l with
  | [] => ret []
  | x :: rest => let* y := f x in let* ys := map_each f rest in ret (y :: ys)
  end.

(** [Iterator::find] with a predicate that reads the state. *)
Fixpoint find_each {S E A : Type} (p : A -> st S E bool) (l : list A) : st S E (option A) :=
  match l with
  | [] => ret None
  | x :: rest => let* b := p x in if b : bool then ret (Some x) else find_each p rest
  end.

Definition when {S E : Type} (b : bool) (m : st S E unit) : st S E unit := if b then m else ret tt.

(** ** Constants and entry defaults *)

Definition WAVE_START_TOLERANCE_RAD : f64 := lit64 2 100.
Definition PI : f64 := lit64 3141592653589793 1000000000000000.
Definition micro : f64 := lit64 1 1000000.

Definition zero_gains : Config.ModeGains := Config.mkGains fzero fzero fzero.
Definition position_default_impedance : Config.ModeGains := Config.mkGains (f64_of_Z 20) (f64_of_Z 1) fzero.

Definition time_scale_e1_rad (c : Config.JointControlEntry) : f64 := Config.position_slew_max_lead_rad c.
Definition time_scale_e0_rad (c : Config.JointControlEntry) : f64 :=
  default (mul64 (Config.position_slew_max_lead_rad c) (lit64 25 100)) (Config.position_time_scale_e0_rad c).
Definition integral_band_rad (c : Config.JointControlEntry) : f64 := default (lit64 1 10) (Config.position_integral_band_rad c).
Definition integral_leak_seconds (c : Config.JointControlEntry) : f64 := default (lit64 5 10) (Config.position_integral_leak_s c).
Definition entry_integral_mode (c : Config.JointControlEntry) : Config.PositionIntegralMode :=
  default Config.TargetBand (Config.position_integral_mode c).
Definition integral_cap (c : Config.JointControlEntry) : f64 := default (lit64 5 10) (Config.position_integral_cap_nm c).
Definition host_damping_nm_s_per_rad (c : Config.JointControlEntry) : f64 := default fzero (Config.position_host_damping_nm_s_per_rad c).
Definition host_damping_filter_s (c : Config.JointControlEntry) : f64 := default (lit64 10 1000) (Config.position_host_damping_filter_s c).

(** [x.round() as u64] of a nonnegative number. *)
Definition round_as_u64 (x : f64) : Z :=
  match x with
  | S754_nan | S754_zero _ => 0
  | S754_infinity s => if s then 0 else U64_MAX
  | S754_finite true _ _ => 0
  | S754_finite false m e => Z.min (round_half_up m e) U64_MAX
  end.

(** [f64::MAX]. *)
Definition F64_MAX : f64 := S754_finite false 9007199254740991 971.

Definition mode_debug (m : OperationalMode) : string :=
  match m with Disabled => "Disabled" | Ready => "Ready" | Active => "Active" end.

(** [iter().position(|n| n == name)]. *)
Fixpoint position_from (names : list string) (name : string) (i : nat) : option nat :=
  match names with
  | [] => None
  | n :: rest => if bool_decide (n = name) then Some i else position_from rest name (S i)
  end.
Definition position_of (names : list string) (name : string) : option nat := position_from names name 0.

(** ** State *)

(** What construction fixes. *)
Record LoopSetup : Type := mkSetup {
  joint_names : list string; reference_inertia : list f64; lp_loop_period : Z; lp_loop_hz : Z; chappe_publish_period : Z
}.

(** The retained motion intent. *)
Record Motion : Type := mkMotion {
  control_mode : ControlMode; position_hold : PositionHold; hold_reshape_watch : list (Z * option f64);
  gains : GainRuntime; torque_cmds : TorqueCmdLatch; position_wave : option PositionWave; grace_ticks : Z
}.

(** Counters and the markers of what the loop has seen. *)
Record Seen : Type := mkSeen {
  tick_count : Z; last_chappe : option Z; last_enable_session : option Z; last_stop_generation : Z;
  telemetry_failures : Z; tick_overruns : Z
}.

Section Loop.
Context {B : Type} `{CanBus B} {R : Type} `{ReferenceWork R}.
Variable observed : Observer B R.
Variable display : DavoutError -> string.
Variable fuel : nat.

Record ControlLoop : Type := mkLoop {
  supervisor : Sup B R; setup : LoopSetup; motion : Motion; seen : Seen;
  implicit_enable_forbidden : bool; degraded : option DegradedControl; degraded_events : list DegradedEvent
}.

Abbreviation L A := (st ControlLoop LoopError A).

Definition set_sup (s : Sup B R) (l : ControlLoop) : ControlLoop :=
  mkLoop s (setup l) (motion l) (seen l) (implicit_enable_forbidden l) (degraded l) (degraded_events l).
Definition set_motion (m : Motion) (l : ControlLoop) : ControlLoop :=
  mkLoop (supervisor l) (setup l) m (seen l) (implicit_enable_forbidden l) (degraded l) (degraded_events l).
Definition set_seen (w : Seen) (l : ControlLoop) : ControlLoop :=
  mkLoop (supervisor l) (setup l) (motion l) w (implicit_enable_forbidden l) (degraded l) (degraded_events l).
Definition set_forbidden (b : bool) (l : ControlLoop) : ControlLoop :=
  mkLoop (supervisor l) (setup l) (motion l) (seen l) b (degraded l) (degraded_events l).
Definition set_degraded (d : option DegradedControl) (l : ControlLoop) : ControlLoop :=
  mkLoop (supervisor l) (setup l) (motion l) (seen l) (implicit_enable_forbidden l) d (degraded_events l).
Definition push_event (e : DegradedEvent) (l : ControlLoop) : ControlLoop :=
  mkLoop (supervisor l) (setup l) (motion l) (seen l) (implicit_enable_forbidden l) (degraded l) (degraded_events l ++ [e]).

Definition with_mode (c : ControlMode) (m : Motion) : Motion :=
  mkMotion c (position_hold m) (hold_reshape_watch m) (gains m) (torque_cmds m) (position_wave m) (grace_ticks m).
Definition with_hold (h : PositionHold) (m : Motion) : Motion :=
  mkMotion (control_mode m) h (hold_reshape_watch m) (gains m) (torque_cmds m) (position_wave m) (grace_ticks m).
Definition with_reshape (w : list (Z * option f64)) (m : Motion) : Motion :=
  mkMotion (control_mode m) (position_hold m) w (gains m) (torque_cmds m) (position_wave m) (grace_ticks m).
Definition with_gains (g : GainRuntime) (m : Motion) : Motion :=
  mkMotion (control_mode m) (position_hold m) (hold_reshape_watch m) g (torque_cmds m) (position_wave m) (grace_ticks m).
Definition with_torques (t : TorqueCmdLatch) (m : Motion) : Motion :=
  mkMotion (control_mode m) (position_hold m) (hold_reshape_watch m) (gains m) t (position_wave m) (grace_ticks m).
Definition with_position_wave (w : option PositionWave) (m : Motion) : Motion :=
  mkMotion (control_mode m) (position_hold m) (hold_reshape_watch m) (gains m) (torque_cmds m) w (grace_ticks m).
Definition with_grace (g : Z) (m : Motion) : Motion :=
  mkMotion (control_mode m) (position_hold m) (hold_reshape_watch m) (gains m) (torque_cmds m) (position_wave m) g.

Definition on_motion (f : Motion -> Motion) : L unit := modify (fun l => set_motion (f (motion l)) l).

Definition with_stop_generation (g : Z) (w : Seen) : Seen :=
  mkSeen (tick_count w) (last_chappe w) (last_enable_session w) g (telemetry_failures w) (tick_overruns w).
Definition with_enable_session (e : option Z) (w : Seen) : Seen :=
  mkSeen (tick_count w) (last_chappe w) e (last_stop_generation w) (telemetry_failures w) (tick_overruns w).
Definition with_tick_count (n : Z) (w : Seen) : Seen :=
  mkSeen n (last_chappe w) (last_enable_session w) (last_stop_generation w) (telemetry_failures w) (tick_overruns w).
Definition with_last_chappe (c : option Z) (w : Seen) : Seen :=
  mkSeen (tick_count w) c (last_enable_session w) (last_stop_generation w) (telemetry_failures w) (tick_overruns w).
Definition with_failures (n : Z) (w : Seen) : Seen :=
  mkSeen (tick_count w) (last_chappe w) (last_enable_session w) (last_stop_generation w) n (tick_overruns w).
Definition with_overruns (n : Z) (w : Seen) : Seen :=
  mkSeen (tick_count w) (last_chappe w) (last_enable_session w) (last_stop_generation w) (telemetry_failures w) n.

Definition on_seen (f : Seen -> Seen) : L unit := modify (fun l => set_seen (f (seen l)) l).

(** Calls of the supervisor: reads, fallible operations, and operations without a result. *)
Definition ask {A : Type} (f : Sup B R -> A * Sup B R) : L A :=
  fun l => let '(a, s) := f (supervisor l) in (Ok a, set_sup s l).
Definition drive {A : Type} (f : Sup B R -> result DavoutError A * Sup B R) : L A :=
  fun l => let '(r, s) := f (supervisor l) in (map_err LSafety r, set_sup s l).
Definition tell (f : Sup B R -> Sup B R) : L unit := modify (fun l => set_sup (f (supervisor l)) l).

(** A change of the hold that can only panic. *)
Definition on_hold (f : PositionHold -> result Empty_set PositionHold) : L unit :=
  fun l => match f (position_hold (motion l)) with
           | Ok h => (Ok tt, set_motion (with_hold h (motion l)) l)
           | Err e => match e with end
           | Panic => (Panic, l)
           end.

Definition control_of (l : ControlLoop) : Config.ControlSection := sv_control (adm (supervisor l)).
Definition joint_cfg (l : ControlLoop) (joint : string) : option Config.JointControlEntry :=
  Config.hget (Config.control_joints (control_of l)) joint.
Definition names_of (l : ControlLoop) : list string := joint_names (setup l).

(** ** Pose *)

Definition has_joint_feedback (joint : string) : L bool :=
  let* fb := ask (joint_feedback joint) in ret (bool_decide (is_Some fb)).
Definition joint_position (joint : string) : L f64 :=
  let* fb := ask (joint_feedback joint) in ret (default fzero (fb_position_rad <$> fb)).
Definition joint_velocity (joint : string) : L f64 :=
  let* fb := ask (joint_feedback joint) in ret (default fzero (fb_velocity_rad_s <$> fb)).
Definition joint_torque (joint : string) : L f64 :=
  let* fb := ask (joint_feedback joint) in ret (default fzero (fb_torque_nm <$> fb)).

(** A shed joint reads its frozen angle during an episode. *)
Definition overlay (d : option DegradedControl) (q : list f64) : list f64 :=
  match d with
  | Some c => fold_left (fun q e => <[e.1 := e.2]> q) (dc_frozen c) q
  | None => q
  end.

Definition read_positions : L (list f64) :=
  let* l := get in
  let* q := map_each joint_position (names_of l) in
  ret (overlay (degraded l) q).

(** ** Modes *)

Definition target_gains_for_mode (l : ControlLoop) (mode : ControlMode) : list (f64 * f64) :=
  (fun name =>
     let cfg := joint_cfg l name in
     target_gains_from_yaml mode (default zero_gains (Config.gravity_comp <$> cfg)) (default zero_gains (Config.impedance <$> cfg)))
  <$> names_of l.

Definition set_control_mode_inner (mode : ControlMode) : L unit :=
  let* l := get in
  let previous := control_mode (motion l) in
  let from := match wire_gains_now previous (names_of l) (target_gains_for_mode l previous) (gains (motion l)) with
              | Ok g => g | _ => [] end in
  let to := target_gains_for_mode l mode in
  when (negb (bool_decide (mode = CPosition)))
    (on_motion (fun m => with_position_wave None (with_reshape [] (with_hold (PosHold.clear (position_hold m)) m)))) ;*
  when (bool_decide (previous = TorqueOnly) && negb (bool_decide (mode = TorqueOnly)))
    (on_motion (fun m => with_torques (on_leave_torque_only (torque_cmds m)) m)) ;*
  on_motion (with_mode mode) ;*
  tell (Lifecycle.set_control_mode observed mode) ;*
  let reseed := negb (bool_decide (previous = mode)) && negb (bool_decide (mode = CDisabled))
                && negb (bool_decide (previous = CDisabled)) in
  on_motion (fun m => with_gains (on_mode_enter previous mode from to (gains m)) m) ;*
  if reseed && bool_decide (mode = CPosition) then drive seed_unsent_tau_ff_rate_limiter
  else if reseed then drive seed_tau_ff_rate_limiter
  else ret tt.

Definition discard_motion_intent : L unit :=
  set_control_mode_inner CDisabled ;*
  on_motion (fun m => with_grace 0 (with_torques ∅ m)).

Definition follow_stop_generation : L unit :=
  modify (fun l => set_seen (with_stop_generation (sup_stop_generation (supervisor l)) (seen l)) l).

Definition synchronize_stop_generation : L unit :=
  let* l := get in
  let generation := sup_stop_generation (supervisor l) in
  when (negb (generation =? last_stop_generation (seen l)))
    (discard_motion_intent ;* on_seen (with_stop_generation generation)).

Definition inhibit_motion_for_shutdown : L unit := discard_motion_intent.

(** ** Arming *)

Definition latch_position_from_q (q : list f64) : L unit :=
  modify (fun l => set_motion (with_hold (arm q q (tick_count (seen l)) (position_hold (motion l))) (motion l)) l) ;*
  let* l := get in
  for_each (fun e => let* dq := joint_velocity e.2 in on_hold (seed_dq_filter e.1 dq)) (imap pair (names_of l)).

Definition arm_from_measured (q : list f64) : L unit :=
  let* l := get in
  when (negb (bool_decide (control_mode (motion l) = CPosition)))
    (on_motion (fun m => with_hold (PosHold.clear (position_hold m)) m)) ;*
  let* l := get in
  when (negb (is_armed (position_hold (motion l)))) (latch_position_from_q q).

Definition enable_completion : L unit :=
  let* l := get in
  let mode := sup_mode (supervisor l) in
  if negb (bool_decide (mode = Active)) then throw (LEnableIncomplete (Msg "supervisor {:?}, not Active" [AStr (mode_debug mode)]))
  else if sup_enable_writes_pending (supervisor l) then throw (LEnableIncomplete (msg "staggered Enable writes pending"))
  else
    let active := active_joints (adm (supervisor l)) in
    let* missing := find_each (fun name =>
        if bool_decide (name ∈ active) then let* fb := has_joint_feedback name in ret (negb fb) else ret false) (names_of l) in
    match missing with
    | Some joint => throw (LEnableIncomplete (Msg "no session feedback from {}" [AStr joint]))
    | None => ret tt
    end.

Definition clear_position_hold : L unit :=
  on_motion (fun m => with_position_wave None (with_hold (PosHold.clear (position_hold m)) m)).

(** ** Retargeting *)

Definition degraded_lost_joint (l : ControlLoop) : option string :=
  match degraded l with
  | Some c => Some (dc_lost_joint c)
  | None => lost_joint <$> episode (loss (supervisor l))
  end.

Definition refuse_degraded : L unit :=
  let* l := get in
  match degraded_lost_joint l with Some joint => throw (LDegradedHold joint) | None => ret tt end.

Definition degraded_lower_velocity (l : ControlLoop) : option f64 :=
  match degraded l with
  | Some _ => Config.lower_velocity_rad_s <$> Config.drive_loss (control_of l)
  | None => None
  end.

Definition configured_position_law (l : ControlLoop) (joint : string) : Config.PositionLaw :=
  default Config.Legacy (Config.position_law <$> joint_cfg l joint).

Definition hold_target_trim (l : ControlLoop) (joint : string) (position_rad : f64) : f64 :=
  add64 position_rad (default fzero (Config.position_hold_trim_rad <$> joint_cfg l joint)).

Definition clamp_hold_target (l : ControlLoop) (joint : string) (q requested_rad dq_cmd : f64) : f64 :=
  match joint_limit_policy (supervisor l) joint with
  | None => requested_rad
  | Some policy => Limits.clamp_hold_target policy q dq_cmd requested_rad
  end.

Definition clamp_v_max (l : ControlLoop) (joint : string) (v_requested : f64) : f64 :=
  let v := match joint_velocity_cap (supervisor l) joint with Some cap => fmin v_requested cap | None => v_requested end in
  match degraded_lower_velocity l with Some lower => fmin v lower | None => v end.

Definition estimated_retarget_dq_cmd (l : ControlLoop) (joint : string) (q requested_rad : f64) : f64 :=
  let delta := sub64 requested_rad q in
  if fle (fabs delta) (lit64 1 1000000000) then fzero
  else
    let cfg := joint_cfg l joint in
    let v_max := position_profile_v_max (fabs delta)
                   (default (lit64 25 100) (Config.position_slew_rad_s <$> cfg))
                   (default (lit64 30 100) (Config.position_trajectory_velocity_rad_s <$> cfg))
                   (default (lit64 15 100) (Config.position_trajectory_threshold_rad <$> cfg)) in
    mul64 (fsignum delta) (clamp_v_max l joint v_max).

Definition downward_seed_rate (l : ControlLoop) (joint : string) (q target : f64) (speed : SpeedFraction)
  (cfg : Config.JointControlEntry) : f64 :=
  let v_max := clamp_v_max l joint
                 (position_profile_v_max (fabs (sub64 target q)) (Config.position_slew_rad_s cfg)
                    (Config.position_trajectory_velocity_rad_s cfg) (Config.position_trajectory_threshold_rad cfg)) in
  mul64 (speed_get speed) (downward_return_seed_velocity (Config.position_slew_rad_s cfg) v_max q target).

Definition apply_joint_retarget (i : nat) (q requested : f64) (speed : SpeedFraction) : L unit :=
  let* l := get in
  let* joint := of_result (vec_get (names_of l) i) in
  let dq_cmd := estimated_retarget_dq_cmd l joint q requested in
  let slew := default (lit64 15 100) (Config.position_slew_rad_s <$> joint_cfg l joint) in
  let dq_envelope := envelope_dq_cmd_for_hold_clamp (joint_limit_policy (supervisor l) joint) q requested dq_cmd slew in
  let target := clamp_hold_target l joint q requested dq_envelope in
  let old_target := default q (get_at (targets (position_hold (motion l))) i) in
  let seed := if fgt (fabs (sub64 old_target target)) micro
              then downward_seed_rate l joint q target speed <$> joint_cfg l joint else None in
  on_hold (set_joint_law i (configured_position_law l joint)) ;*
  let* dq := joint_velocity joint in
  let* l := get in
  match apply_retarget (mkRetarget i target requested q (tick_count (seen l)) (Some dq) seed speed) (position_hold (motion l)) with
  | Ok (target_changed, h) =>
      on_motion (with_hold h) ;*
      when (target_changed && match position_wave (motion l) with Some w => bool_decide (joint_index w = i) | None => false end)
        (on_motion (with_position_wave None))
  | Err e => match e with end
  | Panic => of_result Panic
  end.

Definition refresh_joint_positions : L (list f64) :=
  synchronize_stop_generation ;*
  fun l =>
    let '(r, s) := drain_feedback observed display (supervisor l) in
    match r ;! check_fault_authority s with
    | Ok _ => read_positions (set_sup s l)
    | Err e => (discard_motion_intent ;* follow_stop_generation ;* throw (LSafety e)) (set_sup s l)
    | Panic => (Panic, set_sup s l)
    end.

Definition set_joint_position_setpoint_at_speed (joint : string) (position_rad : f64) (speed_fraction : option f64) : L unit :=
  let* speed := of_result (map_err LInvalidSpeedFraction (from_optional speed_fraction)) in
  refuse_degraded ;*
  let* l := get in
  let* i := of_result (ok_or (position_of (names_of l) joint) (LUnknownJoint joint)) in
  let trimmed := hold_target_trim l joint position_rad in
  if negb (is_finite trimmed) then throw (LNonFiniteTarget joint position_rad)
  else
    let* q_now := refresh_joint_positions in
    enable_completion ;*
    arm_from_measured q_now ;*
    let* q := of_result (vec_get q_now i) in
    apply_joint_retarget i q trimmed speed.

Definition set_joint_position_setpoint (joint : string) (position_rad : f64) : L unit :=
  set_joint_position_setpoint_at_speed joint position_rad None.

(** ** Control modes *)

Definition set_control_mode (mode : ControlMode) : L unit :=
  let* busy := ask (reference_busy observed) in
  if busy : bool then ret tt
  else
    let* l := get in
    match degraded_lost_joint l with
    | Some _ =>
        if negb (bool_decide (mode = CDisabled)) then ret tt
        else
          when (bool_decide (is_Some (episode (loss (supervisor l))))) (tell (fun s => (disable_all observed s).2)) ;*
          synchronize_stop_generation ;* set_control_mode_inner mode
    | None => synchronize_stop_generation ;* set_control_mode_inner mode
    end.

Definition refuse_reference_intent (operation : string) : L unit :=
  let* busy := ask (reference_busy observed) in
  if busy : bool then throw (LSafety (EReferenceBusy operation)) else ret tt.

Definition try_set_control_mode (mode : ControlMode) : L unit :=
  refuse_reference_intent "control mode change" ;*
  when (negb (bool_decide (mode = CDisabled))) refuse_degraded ;*
  set_control_mode mode.

Definition enter_torque_only_zero : L unit :=
  refuse_degraded ;*
  refuse_reference_intent "torque intent" ;*
  on_motion (with_torques ∅) ;*
  set_control_mode TorqueOnly.

Definition set_torque_cmd (joint_name : string) (tau_nm : f64) : L unit :=
  refuse_degraded ;*
  refuse_reference_intent "torque intent" ;*
  synchronize_stop_generation ;*
  let* l := get in
  if negb (bool_decide (joint_name ∈ names_of l)) then throw (LUnknownJoint joint_name)
  else if negb (is_finite tau_nm) then throw (LNonFiniteTorqueCmd joint_name)
  else
    of_result (map_err LSafety (check_fault_authority (supervisor l))) ;*
    when (negb (bool_decide (control_mode (motion l) = TorqueOnly))) (set_control_mode TorqueOnly) ;*
    on_motion (fun m => with_torques (latch_set joint_name tau_nm (torque_cmds m)) m).

(** ** Enabling for motion *)

Definition forbid_implicit_enable : L unit := modify (set_forbidden true).
Definition allow_implicit_enable : L unit := modify (set_forbidden false).

Definition ensure_active_for_motion (files : EnableFiles) : L unit :=
  refuse_degraded ;*
  synchronize_stop_generation ;*
  let* l := get in
  let* targets :=
    (if bool_decide (sup_mode (supervisor l) = Active) then ret (elements (active_joints (adm (supervisor l))))
     else if implicit_enable_forbidden l then throw LExplicitEnableRequired
     else drive (resolve_enable_targets observed display files)) in
  drive (enable_targets observed display fuel targets).

Definition motion_positions (files : EnableFiles) : L (list f64) :=
  let* q := refresh_joint_positions in
  ensure_active_for_motion files ;*
  enable_completion ;*
  ret q.

Definition enter_position_hold (files : EnableFiles) : L unit :=
  refuse_degraded ;*
  let* q := motion_positions files in
  latch_position_from_q q ;*
  set_control_mode CPosition.

(** The joint of a hold-at. *)
Definition hold_at_joint (l : ControlLoop) (joint : option string) : result LoopError string :=
  match names_of l with
  | [only] => Ok only
  | names =>
      let! joint := ok_or joint LJointNameRequired in
      refuse_if (negb (bool_decide (joint ∈ names))) (LUnknownJoint joint) ;! Ok joint
  end.

Definition enter_position_hold_at_speed (files : EnableFiles) (joint : option string) (position_rad : f64)
  (speed_fraction : option f64) : L unit :=
  of_result (map_err LInvalidSpeedFraction (from_optional speed_fraction)) ;*
  refuse_degraded ;*
  let* l := get in
  if negb (is_finite position_rad) then
    throw (LNonFiniteTarget (default (default ""%string (head (names_of l))) joint) position_rad)
  else
    let* target := of_result (hold_at_joint l joint) in
    motion_positions files ;*
    set_joint_position_setpoint_at_speed target position_rad speed_fraction ;*
    set_control_mode CPosition.

Definition enter_position_hold_at (files : EnableFiles) (joint : option string) (position_rad : f64) : L unit :=
  enter_position_hold_at_speed files joint position_rad None.

(** ** Waves *)

Definition join_names (l : list string) : string := String.concat ", " l.

Definition validate_wave_motion (l : ControlLoop) (joint : string) (min_rad max_rad : f64) (half_period_ticks : Z)
  : result LoopError unit :=
  match joint_limit_policy (supervisor l) joint with
  | Some policy =>
      refuse_if (flt min_rad (Limits.soft_lower policy) || fgt max_rad (Limits.soft_upper policy))
        (LWaveOutsideLimits joint min_rad max_rad (Limits.soft_lower policy) (Limits.soft_upper policy))
  | None => Ok tt
  end ;!
  let half_period := div64 (f64_of_Z half_period_ticks) (f64_of_Z (lp_loop_hz (setup l))) in
  let amplitude := mul64 (lit64 5 10) (sub64 max_rad min_rad) in
  let omega := div64 PI half_period in
  let cfg := joint_cfg l joint in
  let caps := option_list (joint_velocity_cap (supervisor l) joint)
              ++ option_list (Config.position_trajectory_velocity_rad_s <$> cfg) in
  let speed_limit := fold_left fmin caps finfinity in
  let peak_speed := mul64 amplitude omega in
  refuse_if (fgt peak_speed speed_limit) (LWaveExceedsMotionLimit joint "speed (rad/s)" peak_speed speed_limit) ;!
  match Config.position_trajectory_accel_rad_s2 <$> cfg with
  | Some accel_limit =>
      let peak_accel := mul64 (mul64 amplitude omega) omega in
      refuse_if (fgt peak_accel accel_limit) (LWaveExceedsMotionLimit joint "acceleration (rad/s²)" peak_accel accel_limit)
  | None => Ok tt
  end ;!
  let zones := Config.danger_zones (control_of l) in
  match from_zones zones joint with
  | None => Ok tt
  | Some cap =>
      let! factor := HoldTick.lift (wave_descent_speed min_rad max_rad fone cap) in
      let descent := mul64 peak_speed factor in
      refuse_if (fgt descent (cap_velocity_rad_s cap))
        (LWaveExceedsDangerZone joint
           (join_names (Config.dz_name <$>
              base.filter (fun z => Config.dz_joint z = joint /\ Config.action z = "clamp_velocity"%string) zones))
           (above_rad cap) descent (cap_velocity_rad_s cap)
           (div64 (mul64 (mul64 PI amplitude) factor) (cap_velocity_rad_s cap)))
  end.

Definition check_wave_fields (l : list (string * f64)) : result LoopError unit :=
  try_for_each (fun e => refuse_if (negb (is_finite e.2)) (LNonFiniteWave e.1 e.2)) l.

Definition start_position_wave (files : EnableFiles) (joint : string) (min_rad max_rad : f64) (cycles : Z)
  (half_period_sec : f64) : L f64 :=
  refuse_degraded ;*
  of_result (check_wave_fields [("min_rad", min_rad); ("max_rad", max_rad); ("half_period_sec", half_period_sec)]%string ;!
             refuse_if (fge min_rad max_rad) LInvalidWaveRange ;!
             refuse_if (cycles =? 0) LInvalidWaveCycles ;!
             refuse_if (fle half_period_sec fzero) LInvalidWavePeriod) ;*
  let* l := get in
  let* i := of_result (ok_or (position_of (names_of l) joint) (LUnknownJoint joint)) in
  let half_period_ticks := Z.max (round_as_u64 (mul64 half_period_sec (f64_of_Z (lp_loop_hz (setup l))))) 1 in
  of_result (validate_wave_motion l joint min_rad max_rad half_period_ticks) ;*
  let* q := motion_positions files in
  let* qi := of_result (vec_get q i) in
  let* l := get in
  let reference_rad :=
    if bool_decide (control_mode (motion l) = CPosition)
    then default qi (get_at (q_trajs (position_hold (motion l))) i) else qi in
  if fgt (fabs (sub64 reference_rad min_rad)) WAVE_START_TOLERANCE_RAD then
    throw (LWaveStartTooFar joint min_rad reference_rad WAVE_START_TOLERANCE_RAD)
  else
    arm_from_measured q ;*
    set_control_mode CPosition ;*
    let* l := get in
    let wave := wave_new i min_rad max_rad (tick_count (seen l)) half_period_ticks cycles in
    on_motion (with_position_wave (Some wave)) ;*
    ret (duration_sec (lp_loop_hz (setup l)) wave).

Definition position_wave_active (l : ControlLoop) : bool :=
  match position_wave (motion l) with Some w => negb (is_finished w) | None => false end.

(** ** Gain overrides *)

Definition resolve_motor_type_defaults (l : ControlLoop) (joint_name : string) : option Config.MotorTypeDefaults :=
  c ← joint_cfg l joint_name;
  Config.hget (Config.motor_type_defaults (control_of l)) (Config.motor_type_key (Config.jc_motor_type c)).

Definition clamp_limits_for (l : ControlLoop) (joint_name : string) : GainClampLimits :=
  let d := resolve_motor_type_defaults l joint_name in
  mkClampLimits (default F64_MAX (Config.kp_max <$> d)) (default F64_MAX (Config.kd_max <$> d))
    (default F64_MAX (Config.tau_ff_max_nm <$> d)).

Definition validate_gain_override (l : ControlLoop) (joint : string) (g : GainOverride) : result LoopError unit :=
  refuse_if (negb (bool_decide (joint ∈ names_of l))) (LUnknownJoint joint) ;!
  try_for_each (fun e : string * f64 => refuse_if (negb (is_finite e.2) || flt e.2 fzero) (LInvalidGainOverride joint e.1))
    [("kp", ov_kp g); ("kd", ov_kd g); ("ki", ov_ki g); ("fc", ov_fc g)]%string.

Definition require_gain_mode (l : ControlLoop) (joint : string) : result LoopError unit :=
  refuse_if (negb (mode_allows_gain_override (control_mode (motion l))))
    (LGainOverrideNotApplicable joint (control_mode (motion l))).

Definition apply_gain_override (joint_name : string) (g : GainOverride) : L unit :=
  refuse_degraded ;*
  refuse_reference_intent "gain override" ;*
  let* l := get in
  of_result (validate_gain_override l joint_name g ;! require_gain_mode l joint_name) ;*
  on_motion (fun m => with_gains (Gains.apply (control_mode m) joint_name g (clamp_limits_for l joint_name) (gains m)) m).

Definition clear_gain_override (joint_name : string) : L unit :=
  on_motion (fun m => with_gains (Gains.clear joint_name (gains m)) m).

(** ** Degraded episodes *)

Definition enter_degraded_hold : L unit :=
  let* l := get in
  match episode (loss (supervisor l)) with
  | None => ret tt
  | Some ep =>
      let index := position_of (names_of l) in
      let hold_window :=
        default 0 (d ← Config.drive_loss (control_of l); try_from_secs_f64 (Config.hold_window_s d)) in
      modify (set_degraded (Some (mkControl (lost_joint ep) (omap index (shed_joints ep)) (omap index (holding_joints ep))
        (omap (fun e => (fun i => (i, e.2)) <$> index e.1) (frozen_positions ep))
        (default (ep_deadline ep) (instant_checked_add (ep_since ep) hold_window)) HoldPhase))) ;*
      on_motion (fun m => with_torques ∅ (with_position_wave None m)) ;*
      let* q := read_positions in
      set_control_mode_inner CPosition ;*
      latch_position_from_q q ;*
      modify (push_event (DriveLost (lost_joint ep) (shed_joints ep) (holding_joints ep) hold_window))
  end.

Definition observe_degraded_episode : L unit :=
  let* l := get in
  match episode (loss (supervisor l)), degraded l with
  | Some _, None => enter_degraded_hold
  | None, Some control =>
      let ending := match outcome (loss (supervisor l)) with Some o => o_end o | None => StoppedEnd end in
      modify (set_degraded None) ;*
      modify (push_event (Ended (dc_lost_joint control) ending))
  | _, _ => ret tt
  end.

Definition take_degraded_events : L (list DegradedEvent) :=
  observe_degraded_episode ;*
  let* l := get in
  modify (fun l => mkLoop (supervisor l) (setup l) (motion l) (seen l) (implicit_enable_forbidden l) (degraded l) []) ;*
  ret (degraded_events l).

Definition with_phase (p : DegradedPhase) (c : DegradedControl) : DegradedControl :=
  mkControl (dc_lost_joint c) (dc_shed c) (dc_holding c) (dc_frozen c) (auto_lower_at c) p.

Definition request_degraded_lower : L unit :=
  observe_degraded_episode ;*
  let* l := get in
  match degraded l with
  | None => throw LNoDegradedEpisode
  | Some c => when (bool_decide (dc_phase c = HoldPhase)) (modify (set_degraded (Some (with_phase (LowerRequested Operator) c))))
  end.

(** Why the lower starts now, if it does; only a hold reads the clock. *)
Definition lower_cause (c : DegradedControl) : L (option DegradedLowerCause) :=
  match dc_phase c with
  | HoldPhase => let* t := ask tick in ret (if auto_lower_at c <=? t then Some Timeout else None)
  | LowerRequested cause => ret (Some cause)
  | Lowering => ret None
  end.

Definition advance_degraded_phase (q : list f64) : L unit :=
  let* l := get in
  match degraded l with
  | None => ret tt
  | Some c =>
      let* cause := lower_cause c in
      match cause with
      | None => ret tt
      | Some cause =>
          let* l := get in
          if negb (bool_decide (control_mode (motion l) = CPosition)) then ret tt
          else
            when (negb (is_armed (position_hold (motion l)))) (latch_position_from_q q) ;*
            for_each (fun i =>
                let* l := get in
                let* name := of_result (vec_get (names_of l) i) in
                let* qi := of_result (vec_get q i) in
                apply_joint_retarget i qi (hold_target_trim l name fzero) FULL) (dc_holding c) ;*
            modify (fun l => set_degraded (with_phase Lowering <$> degraded l) l) ;*
            modify (push_event (LowerStarted cause))
      end
  end.

Definition at_rest (h : PositionHold) (q : list f64) (i : nat) : bool :=
  match get_at (targets h) i, get_at (q_trajs h) i, q !! i with
  | Some target, Some traj, Some q =>
      fle (fabs (sub64 traj target)) micro && fle (fabs (sub64 q target)) DEGRADED_REST_TOLERANCE_RAD
  | _, _, _ => false
  end.

Definition complete_degraded_lower_at_rest (q : list f64) : L unit :=
  let* l := get in
  match degraded l with
  | None => ret tt
  | Some c =>
      let h := position_hold (motion l) in
      if bool_decide (dc_phase c = Lowering) && bool_decide (is_Some (targets h)) && bool_decide (is_Some (q_trajs h))
         && forallb (at_rest h q) (dc_holding c)
      then
        modify (set_degraded None) ;*
        let* stop := ask (complete_degraded_lower observed) in
        discard_motion_intent ;*
        follow_stop_generation ;*
        modify (push_event LowerComplete) ;*
        of_result (map_err LSafety stop)
      else ret tt
  end.

(** ** Drive-loss admission *)

Variable dynamics : DynamicsModel.
Variable subtree_joints : string -> result DynamicsError (list nat).

Definition refuse_loss {A : Type} (joint : string) (m : message) : result LoopError A := Err (LDriveLossAdmission joint m).

Definition shedding_joints (control : Config.ControlSection) (names : list string) : list string :=
  base.filter (fun j => plan_configured control j = true) names.

(** Soft range and feed-forward cap of every joint; [None] when some joint has no
    limit policy in this process. *)
Fixpoint loss_limits (s : Sup B R) (names : list string) : result LoopError (option (list ((f64 * f64) * f64))) :=
  match names with
  | [] => Ok (Some [])
  | joint :: rest =>
      match joint_limit_policy s joint with
      | None => Ok None
      | Some policy =>
          let control := sv_control (adm s) in
          let! type_cap := match (entry ← Config.hget (Config.control_joints control) joint;
                                  Config.hget (Config.motor_type_defaults control) (Config.motor_type_key (Config.jc_motor_type entry))) with
                           | Some d => Ok (Config.tau_ff_max_nm d)
                           | None => refuse_loss joint (msg "no motor type torque cap")
                           end in
          let! tail := loss_limits s rest in
          Ok ((fun l => ((Limits.soft_lower policy, Limits.soft_upper policy), fmin (Limits.tau_ff_max policy) type_cap) :: l) <$> tail)
      end
  end.

(** [need <= cap], false on a NaN. *)
Definition loss_need (margin : f64) (b : HoldingTorqueBound) : f64 := add64 (add64 (max_abs_nm b) (max_delta_nm b)) margin.

Definition check_bound (joint : string) (margin : f64) (caps : list f64) (b : HoldingTorqueBound) : result LoopError unit :=
  let! cap := vec_get caps (tb_index b) in
  let need := loss_need margin b in
  if negb (flt need cap) && negb (feq need cap) then
    refuse_loss joint (Msg "holding joint {}: max |τ_g| {:.3} + max |Δτ_g| {:.3} + margin {:.3} = {:.3} Nm exceeds its {:.3} Nm feed-forward cap"
      [AStr (tb_joint b); AF64 (max_abs_nm b); AF64 (max_delta_nm b); AF64 margin; AF64 need; AF64 cap])
  else Ok tt.

Definition admit_joint (names : list string) (margin : f64) (ranges : list (f64 * f64)) (caps : list f64) (joint : string)
  : result LoopError DriveLossAdmission :=
  let! subtree := map_err LDynamics (subtree_joints joint) in
  if (length names <=? length subtree)%nat then refuse_loss joint (msg "its subtree covers every joint; nothing would hold")
  else
    let! bounds := map_err LDynamics (subtree_loss_torque_bounds dynamics subtree ranges) in
    try_for_each (check_bound joint margin caps) bounds ;!
    let! shed := fold_right (fun i acc => let! n := vec_get names i in let! l := acc in Ok (n :: l)) (Ok []) subtree in
    Ok (mkAdmission (mkPlan joint (joint :: base.filter (fun n => n <> joint) shed)) bounds).

Fixpoint admit_each (names : list string) (margin : f64) (ranges : list (f64 * f64)) (caps : list f64) (joints : list string)
  : result LoopError (list DriveLossAdmission) :=
  match joints with
  | [] => Ok []
  | joint :: rest =>
      let! a := admit_joint names margin ranges caps joint in
      let! tail := admit_each names margin ranges caps rest in
      Ok (a :: tail)
  end.

Definition admit_drive_loss_plans (names : list string) (s : Sup B R) : result LoopError (list DriveLossAdmission) :=
  let control := sv_control (adm s) in
  match shedding_joints control names with
  | [] => Ok []
  | (first :: _) as shedding =>
      match Config.drive_loss control with
      | None => refuse_loss first (msg "shed_subtree requires a control.drive_loss block")
      | Some drive_loss =>
          let! limits := loss_limits s names in
          match limits with
          | None => Ok []
          | Some limits => admit_each names (Config.tau_margin_nm drive_loss) (limits.*1) (limits.*2) shedding
          end
      end
  end.

Definition admit_drive_loss : L (list DriveLossAdmission) :=
  let* l := get in
  let* admitted := of_result (admit_drive_loss_plans (names_of l) (supervisor l)) in
  drive (install_drive_loss_plans (da_plan <$> admitted)) ;*
  ret admitted.

End Loop.
Arguments ControlLoop : clear implicits.

End Loop.
