(* ===== verification/LossAdmission.v ===== *)
(** * LossAdmission: what an admitted drive-loss plan promises

    Theorems about [Loop.admit_drive_loss_plans] over the gravity model of
    [Gravity]: the plans the loop installs in its supervisor were checked against
    the torque the remaining joints can give. *)

From Stdlib Require Import ZArith Lia Bool SpecFloat.
From stdpp Require Import base gmap strings list sets.
From S2P Require Import Prelude Float Config Limits TotalTorque Bus Reporting Faults Davout Admission Authority Lifecycle Stop Session Grants PosHold Facets Dynamics Gravity Loop.

Module LossAdmission.
Import Bus Faults Davout Admission Lifecycle Session PosHold Facets Dynamics Gravity Loop.

Section LossAdmission.
Context `{Geometry} {B : Type} `{CanBus B} {R : Type} `{ReferenceWork R}.

Abbreviation S := (Sup B R).

(** ** Limits *)

(** Soft range and feed-forward cap of [joint] as the admission reads them. *)
Definition limit_of (s : S) (joint : string) (e : (f64 * f64) * f64) : Prop :=
  exists policy entry d, joint_limit_policy s joint = Some policy
    /\ Config.hget (Config.control_joints (sv_control (adm s))) joint = Some entry
    /\ Config.hget (Config.motor_type_defaults (sv_control (adm s))) (Config.motor_type_key (Config.jc_motor_type entry)) = Some d
    /\ e = ((Limits.soft_lower policy, Limits.soft_upper policy), fmin (Limits.tau_ff_max policy) (Config.tau_ff_max_nm d)).

Lemma loss_limits_spec (s : S) (names : list string) :
  match loss_limits s names with
  | Ok (Some limits) => Forall2 (limit_of s) names limits
  | Panic => False
  | _ => True
  end.
Proof.
  induction names as [|joint names IH]; cbn [loss_limits]; [constructor|].
  destruct (joint_limit_policy s joint) as [policy|] eqn:Ep; [|done].
  destruct (_ ≫= _) as [d|] eqn:Ed; [|done]. cbn [rbind]. destruct (loss_limits s names) as [[limits|]| |]; [|done..]. cbn.
  constructor; [|done]. destruct (Config.hget _ joint) as [entry|] eqn:Ee; [|done]. cbn in Ed. by exists policy, entry, d.
Qed.

(** ** One joint *)

Definition covered (margin : f64) (caps : list f64) (b : HoldingTorqueBound) : Prop :=
  exists cap, caps !! tb_index b = Some cap /\ fle (add64 (add64 (max_abs_nm b) (max_delta_nm b)) margin) cap = true.

Lemma check_bound_ok (joint : string) (margin : f64) (caps : list f64) (b : HoldingTorqueBound) :
  check_bound joint margin caps b = Ok tt -> covered margin caps b.
Proof.
  unfold check_bound, loss_need, vec_get. destruct (caps !! tb_index b) as [cap|] eqn:E; [|done]. cbn [rbind]. intros Hc. exists cap. split; [done|].
  destruct (negb _ && negb _) eqn:En; [done|]. clear Hc. apply andb_false_iff in En. rewrite !negb_false_iff in En.
  generalize dependent (add64 (add64 (max_abs_nm b) (max_delta_nm b)) margin). intros x En. destruct En; by float_solve.
Qed.

Lemma name_list_ok (names : list string) (l : list nat) (r : list string) :
  fold_right (fun i acc => let! n := vec_get names i in let! l := acc in Ok (n :: l)) (Ok [] : result LoopError (list string)) l = Ok r ->
  Forall2 (fun i n => names !! i = Some n) l r.
Proof.
  revert r. induction l as [|i l IH]; intros r; cbn [fold_right]; [intros [= <-]; constructor|]. unfold vec_get at 1.
  destruct (names !! i) as [n|] eqn:E; [|done]. cbn [rbind]. destruct (fold_right _ _ l) as [t| |]; [|done..]. intros [= <-]. constructor; auto.
Qed.

Variable m : UrdfGravityModel.

Record admission_sound (margin : f64) (ranges : list (f64 * f64)) (caps : list f64) (a : DriveLossAdmission) : Prop := {
  as_subtree : exists subtree, subtree_joints m (plan_joint (da_plan a)) = Ok subtree
    /\ (length subtree < length (Gravity.joint_names m))%nat
    /\ head (plan_shed (da_plan a)) = Some (plan_joint (da_plan a))
    /\ (forall n, n ∈ plan_shed (da_plan a) <-> n = plan_joint (da_plan a) \/ exists i, i ∈ subtree /\ Gravity.joint_names m !! i = Some n)
    /\ tb_index <$> da_bounds a = List.filter (fun i => negb (bool_decide (i ∈ subtree))) (seq 0 (length ranges))
    /\ forall q q', on_grid subtree ranges q -> on_grid subtree ranges q' -> agree subtree q q' ->
         exists tau tau', urdf_gravity_torques m q = Ok tau /\ urdf_gravity_torques m q' = Ok tau' /\ Forall (pair_bounded tau tau') (da_bounds a);
  as_caps : Forall (covered margin caps) (da_bounds a)
}.

Lemma admit_joint_ok (margin : f64) (ranges : list (f64 * f64)) (caps : list f64) (joint : string) (a : DriveLossAdmission) :
  admit_joint (urdf_model m) (subtree_joints m) (Gravity.joint_names m) margin ranges caps joint = Ok a ->
  plan_joint (da_plan a) = joint /\ admission_sound margin ranges caps a.
Proof.
  unfold admit_joint. intros E. bind_inv E. destruct (Nat.leb_spec (length (Gravity.joint_names m)) (length x)) as [|Hlt]; [discriminate|].
  bind_inv E. bind_inv E. bind_inv E. injection E as <-. cbn [da_plan da_bounds plan_joint]. destruct x1.
  destruct (subtree_joints m joint) as [subtree| |] eqn:Es; [|discriminate..]. injection E0 as ->.
  destruct (subtree_loss_torque_bounds _ _ _) as [bounds| |] eqn:Eb; [|discriminate..]. injection E1 as ->.
  destruct (subtree_nodup m joint x Es) as [Hn _]. destruct (loss_bounds_cover _ _ _ _ Hn Eb) as [Hi Hq]. apply name_list_ok in E3.
  split; [done|]. split.
  - exists x. cbn [da_plan da_bounds plan_joint plan_shed]. split; [done|]. split; [done|]. split; [done|]. split; [|split; [done|exact Hq]].
    intros n. rewrite elem_of_cons, list_elem_of_filter. split.
    + intros [->|[Hne Hin]]; [by left|]. right. apply list_elem_of_lookup in Hin as [k Hk].
      destruct (Forall2_lookup_r _ _ _ _ _ E3 Hk) as (i & Hki & Hni). exists i. split; [by eapply list_elem_of_lookup_2|done].
    + intros [->|(i & Hin & Hni)]; [by left|]. destruct (decide (n = joint)); [by left|]. right. split; [done|].
      apply list_elem_of_lookup in Hin as [k Hk]. destruct (Forall2_lookup_l _ _ _ _ _ E3 Hk) as (n' & Hk' & Hn').
      assert (n' = n) as -> by congruence. by eapply list_elem_of_lookup_2.
  - cbn [da_bounds]. rewrite try_for_each_ok in E2. apply Forall_forall. intros b Hb. apply list_elem_of_In, E2 in Hb. by eapply check_bound_ok.
Qed.

Lemma admit_each_ok (margin : f64) (ranges : list (f64 * f64)) (caps : list f64) (joints : list string) : forall l,
  admit_each (urdf_model m) (subtree_joints m) (Gravity.joint_names m) margin ranges caps joints = Ok l ->
  plan_joint <$> (da_plan <$> l) = joints /\ Forall (admission_sound margin ranges caps) l.
Proof.
  induction joints as [|j joints IH]; intros l; cbn [admit_each]; [intros [= <-]; by split|]. intros E. bind_inv E. bind_inv E. injection E as <-.
  destruct (admit_joint_ok _ _ _ _ _ E0) as [Hj Ha]. destruct (IH _ eq_refl) as [Hl Hs]. cbn. split; [by rewrite Hj, Hl|by constructor].
Qed.

(** The promise of the plans installed together: against one soft range and one
    cap per joint, every plan sound. *)
Definition loss_covered (s : S) (l : list DriveLossAdmission) : Prop :=
  l = [] \/ exists cfg limits, Config.drive_loss (sv_control (adm s)) = Some cfg
    /\ Forall2 (limit_of s) (Gravity.joint_names m) limits
    /\ plan_joint <$> (da_plan <$> l) = shedding_joints (sv_control (adm s)) (Gravity.joint_names m)
    /\ Forall (admission_sound (Config.tau_margin_nm cfg) (limits.*1) (limits.*2)) l.

Lemma admit_plans_ok (s : S) (l : list DriveLossAdmission) :
  admit_drive_loss_plans (urdf_model m) (subtree_joints m) (Gravity.joint_names m) s = Ok l -> loss_covered s l.
Proof.
  unfold admit_drive_loss_plans, loss_covered. destruct (shedding_joints _ _) as [|first rest]; [intros [= <-]; by left|].
  destruct (Config.drive_loss _) as [cfg|]; [|done]. pose proof (loss_limits_spec s (Gravity.joint_names m)) as Hl. intros E. bind_inv E.
  destruct x as [limits|]; [|injection E as <-; by left]. right. exists cfg, limits. destruct (admit_each_ok _ _ _ _ _ E) as [Hj Hs]. split; [done|]. split; [exact Hl|]. by split.
Qed.

(** ** No panic *)

Lemma bound_indices (subtree : list nat) (ranges : list (f64 * f64)) (bounds : list HoldingTorqueBound) :
  tb_index <$> bounds = List.filter (fun i => negb (bool_decide (i ∈ subtree))) (seq 0 (length ranges)) ->
  forall b, b ∈ bounds -> (tb_index b < length ranges)%nat.
Proof.
  intros E b Hb. assert (Hi : tb_index b ∈ tb_index <$> bounds) by (apply list_elem_of_fmap; by exists b).
  rewrite E in Hi. apply list_elem_of_In, List.filter_In in Hi as [Hi _]. apply in_seq in Hi. lia.
Qed.

Lemma name_list_total (names : list string) (l : list nat) : Forall (fun i => i < length names)%nat l ->
  fold_right (fun i acc => let! n := vec_get names i in let! l := acc in Ok (n :: l)) (Ok [] : result LoopError (list string)) l <> Panic.
Proof.
  induction 1 as [|i l Hi _ IH]; cbn [fold_right]; [done|]. unfold vec_get at 1. destruct (lookup_lt_is_Some_2 names i Hi) as [n ->]. cbn [rbind].
  by destruct (fold_right _ _ l).
Qed.

Lemma check_bounds_total (joint : string) (margin : f64) (caps : list f64) (l : list HoldingTorqueBound) :
  (forall b, b ∈ l -> (tb_index b < length caps)%nat) -> try_for_each (check_bound joint margin caps) l <> Panic.
Proof.
  induction l as [|b l IH]; intros Hb; cbn [try_for_each]; [done|]. unfold check_bound at 1, vec_get.
  destruct (lookup_lt_is_Some_2 caps (tb_index b) (Hb b ltac:(left))) as [cap ->]. cbn [rbind]. destruct (_ && _); [done|]. cbn.
  apply IH. intros b' Hb'. apply Hb. by right.
Qed.

Lemma admit_joint_total (margin : f64) (ranges : list (f64 * f64)) (caps : list f64) (joint : string) :
  well_built m -> length ranges = length caps ->
  admit_joint (urdf_model m) (subtree_joints m) (Gravity.joint_names m) margin ranges caps joint <> Panic.
Proof.
  intros W Hl. unfold admit_joint. destruct (subtree_joints m joint) as [subtree|e|] eqn:Es.
  2: done. 2: { exfalso. unfold subtree_joints in Es. bind_inv Es. unfold joint_position_in, ok_or in E. by destruct (position_where _ _). }
  cbn [map_err rbind]. destruct (_ <=? _)%nat; [done|].
  pose proof (loss_bounds_total (urdf_model m) subtree ranges (urdf_sized m W)) as Ht.
  destruct (subtree_loss_torque_bounds _ _ _) as [bounds|e|] eqn:Eb; [|done|done]. cbn [map_err rbind].
  destruct (subtree_nodup m joint subtree Es) as [Hn Hr]. destruct (loss_bounds_cover _ _ _ _ Hn Eb) as [Hi _].
  pose proof (check_bounds_total joint margin caps bounds) as Hc. destruct (try_for_each _ _) as [u|e|]; [cbn [rbind]|done|].
  - pose proof (name_list_total (Gravity.joint_names m) subtree Hr) as Hf. by destruct (fold_right _ _ subtree).
  - destruct Hc; [|done]. intros b Hb. rewrite <- Hl. by eapply bound_indices.
Qed.

Lemma admit_plans_total (s : S) : well_built m ->
  admit_drive_loss_plans (urdf_model m) (subtree_joints m) (Gravity.joint_names m) s <> Panic.
Proof.
  intros W. unfold admit_drive_loss_plans. destruct (shedding_joints _ _) as [|first rest]; [done|].
  destruct (Config.drive_loss _) as [cfg|]; [|done]. pose proof (loss_limits_spec s (Gravity.joint_names m)) as Hl.
  destruct (loss_limits s _) as [[limits|]| |]; [cbn [rbind]|done..].
  assert (He : forall js, admit_each (urdf_model m) (subtree_joints m) (Gravity.joint_names m) (Config.tau_margin_nm cfg)
    (limits.*1) (limits.*2) js <> Panic); [|apply He].
  intros js; induction js as [|j js IH]; cbn [admit_each]; [done|].
  pose proof (admit_joint_total (Config.tau_margin_nm cfg) (limits.*1) (limits.*2) j W ltac:(by rewrite !length_fmap)) as Hj.
  destruct (admit_joint _ _ _ _ _ _ _); [cbn [rbind]|done..]. by destruct (admit_each _ _ _ _ _ _ js).
Qed.

End LossAdmission.

(** C11: a drive-loss plan is installed only when the remaining joints can hold.
    Over a model built from a URDF the admission ends without a panic.  The plans
    it admits are those of the joints configured to shed; each sheds the joint and
    exactly what moves with it, and leaves at least one joint; and for every joint
    that keeps holding, at every two poses of the evaluation grid that differ only
    in the shed joints, the model answers, the joint's gravity torque and its
    change stay within the recorded bounds, and their sum with the configured
    margin is within the feed-forward cap of its limit policy and motor type. *)
Theorem loss_admission_sound `{Geometry} {B : Type} `{CanBus B} {R : Type} `{ReferenceWork R}
  (r : Robot) (names : list string) (hd : list (string * f64)) (m : UrdfGravityModel) (s : Sup B R) :
  from_robot r names hd = Ok m ->
  match admit_drive_loss_plans (urdf_model m) (subtree_joints m) names s with
  | Ok l => loss_covered m s l
  | Err _ => True
  | Panic => False
  end.
Proof.
  intros Em. destruct (from_robot_ok _ _ _ _ Em) as (W & <- & _). pose proof (admit_plans_ok m s) as Hok. pose proof (admit_plans_total m s W) as Ht.
  destruct (admit_drive_loss_plans _ _ _ s) as [l|e|]; [by apply Hok|done|done].
Qed.

(** ** A weightless two-joint arm that sheds its elbow *)

#[local] Instance flat_geometry : Geometry := {
  Iso := unit; iso_identity := tt; iso_mul := fun _ _ => tt; of_pose := fun _ => tt; axis_rotation := fun _ _ => tt;
  transform_point := fun _ p => p; rotated_axis := fun _ a => a; translation := fun _ => (fzero, fzero, fzero);
  vec_sub := fun a _ => a; cross := fun a _ => a; dot := fun _ _ => fzero; norm_squared := fun _ => fzero; world_tensor := fun _ _ a => a
}.

Definition arm : Robot :=
  mkRobot [mkULink "base" fzero no_pose no_tensor; mkULink "upper" (f64_of_Z 1) no_pose no_tensor; mkULink "lower" (f64_of_Z 1) no_pose no_tensor]
    [mkUJoint Authority.pitch Revolute no_pose "base" "upper" up_axis false;
     mkUJoint Authority.elbow Revolute no_pose "upper" "lower" up_axis false].
Definition arm_names : list string := [Authority.pitch; Authority.elbow].

Definition arm_session : Admission.Supervisor :=
  mkSupervisor Disabled CDisabled authority_default {[Authority.pitch := Limits.pitch_policy; Authority.elbow := Limits.pitch_policy]}
    (motors Grants.loss_session) [] Grants.loss_control ∅ None ∅ ∅ ∅ TotalTorque.clamp_log_default ∅ ∅ None ∅ ∅ [].

Definition arm_sup : Sup (Reporting.Spy MemoryBus) unit := set_adm arm_session Grants.loss_sup.

Definition arm_admission : result LoopError (list DriveLossAdmission) :=
  let! m := map_err LDynamics (from_robot arm arm_names []) in
  admit_drive_loss_plans (urdf_model m) (subtree_joints m) arm_names arm_sup.

Lemma loss_admission_sound_witness :
  exists m a, from_robot arm arm_names [] = Ok m
  /\ admit_drive_loss_plans (urdf_model m) (subtree_joints m) arm_names arm_sup = Ok [a]
  /\ plan_shed (da_plan a) = [Authority.elbow] /\ loss_covered m arm_sup [a].
Proof.
  assert (Ha : match arm_admission with Ok [a] => bool_decide (plan_shed (da_plan a) = [Authority.elbow]) | _ => false end = true)
    by (vm_compute; reflexivity).
  unfold arm_admission in Ha. destruct (from_robot arm arm_names []) as [m|e|] eqn:Em; [|discriminate..]. cbn [map_err rbind] in Ha.
  pose proof (loss_admission_sound arm arm_names [] m arm_sup Em) as Hs.
  destruct (admit_drive_loss_plans _ _ _ _) as [[|a [|b l]]|e|] eqn:El; try discriminate Ha. apply bool_decide_eq_true in Ha.
  exists m, a. auto.
Defined.

End LossAdmission.
