(* ===== verification/LoopTick.v ===== *)
(** * LoopTick: the periodic cycle of the control loop

    [tick] and [tick_inner] of [src/crates/berthier/src/loop.rs] with what they
    compute from (feedback gaps, hold parameters, feed-forward batch, keepalive,
    telemetry) and the loop's construction.

    [advance_work] is [advance_reference_work] with its error displayed
    ([Commit] has it for the physical owner).  [chappe] is the telemetry bus when
    there is one: it says whether a publication was accepted.  The wall-clock
    stamp of a publication is left out. *)

From Stdlib Require Import ZArith Lia Bool SpecFloat.
From stdpp Require Import base gmap strings list.
From S2P Require Import Prelude Float Comm Config Limits TotalTorque Params Mit Bus Reporting Faults Davout Filter Admission Authority Physical Lifecycle Session Enable Position Friction Setpoint Gains PosHold HoldTick Facets Dynamics Loop.

Module LoopTick.
Import Bus Faults Davout TotalTorque Filter Admission Lifecycle Session Enable Position Friction Setpoint Gains PosHold Facets Dynamics Loop.

(** ** What a failed tick does *)

(** The controller fault an error latches: its message and joint. *)
Definition fault_of (e : LoopError) : option (string * option string) :=
  match e with
  | LMissingFeedback j => Some ("current-enable feedback missing after neutral bootstrap"%string, Some j)
  | LAscentStall j _ _ => Some ("position ascent stalled without measured progress"%string, Some j)
  | LReturnStall j _ _ => Some ("position return toward home stalled without measured progress"%string, Some j)
  | LHoldTracking j _ _ => Some ("position hold off target with opposing commanded torque and no progress"%string, Some j)
  | LWaveStall j _ _ => Some ("position wave stalled without measured motion"%string, Some j)
  | LMissingSetpoint _ | LHoldLenMismatch => Some ("position hold lost its setpoint latch (controller invariant)"%string, None)
  | LDynamics _ => Some ("gravity model failed on the control tick (controller invariant)"%string, None)
  | LGainShape _ => Some ("gain resolution inputs not parallel to joints (controller invariant)"%string, None)
  | _ => None
  end.

Definition drops_intent (e : LoopError) : bool :=
  match e with
  | LSafety _ | LGainShape _ | LDynamics _ | LMissingSetpoint _ | LHoldLenMismatch | LMissingFeedback _
  | LAscentStall _ _ _ | LReturnStall _ _ _ | LHoldTracking _ _ _ | LWaveStall _ _ _ => true
  | _ => false
  end.

Record FeedbackGaps : Type := mkGaps { gap_active : option string; gap_peer : option string }.

Definition fail_tick (g : FeedbackGaps) (grace : Z) : bool :=
  match gap_active g with
  | Some _ => grace =? 0
  | None => bool_decide (is_Some (gap_peer g))
  end.

Record JointState : Type := mkJointState {
  js_name : string; js_position : f64; js_velocity : f64; js_effort : f64; js_temperature_c : f32; js_fault : Z;
  js_homing_state : Z; js_drive_active : bool; js_out_of_limits : bool; js_sample_age_ms : Z
}.

Section Tick.
Context {B : Type} `{CanBus B} {R : Type} `{ReferenceWork R}.
Variable observed : Observer B R.
Variable display : DavoutError -> string.
Variables exp tanh cos sin : f64 -> f64.
Variable dynamics : DynamicsModel.
Variable advance_work : Sup B R -> result string unit * Sup B R.
Variable chappe : option (list JointState -> bool).

Abbreviation L A := (st (ControlLoop B R) LoopError A).

(** ** Feedback *)

Definition is_frozen (d : option DegradedControl) (index : nat) : bool :=
  match d with Some c => dc_is_shed c index | None => false end.

Definition feedback_gaps (peers : bool) : L FeedbackGaps :=
  let* l := get in
  let active_set := active_joints (adm (supervisor l)) in
  let* active := find_each (fun name => let* fb := has_joint_feedback name in ret (negb fb)) (elements active_set) in
  let* peer :=
    (if peers then
       let* found := find_each (fun e : nat * string =>
           if is_frozen (degraded l) e.1 || bool_decide (e.2 ∈ active_set) then ret false
           else let* fb := has_joint_feedback e.2 in ret (negb fb)) (imap pair (names_of l)) in
       ret (snd <$> found)
     else ret None) in
  ret (mkGaps active peer).

(** ** The Position batch *)

Definition joint_mode_gains_yaml (l : ControlLoop B R) (missing_impedance : Config.ModeGains) : list JointModeGains :=
  (fun name =>
     let cfg := joint_cfg l name in
     mkModeGains (default zero_gains (Config.gravity_comp <$> cfg)) (default missing_impedance (Config.impedance <$> cfg)))
  <$> names_of l.

Definition hold_law (cfg : option Config.JointControlEntry) (r : ResolvedGains) (inertia : f64) : HoldLaw :=
  match cfg with
  | Some c =>
      if bool_decide (Config.position_law c = Config.ScaledPd) then
        ScaledPdLaw (mkPdGains (r_wire_kd r) (time_scale_e0_rad c) (time_scale_e1_rad c) (integral_band_rad c)
          (integral_leak_seconds c) (entry_integral_mode c) (integral_cap c) inertia (host_damping_nm_s_per_rad c)
          (host_damping_filter_s c) (Config.position_ff_step_max_nm c) (Some (from_gains (Config.friction c) (law_fc r))))
      else LegacyLaw
  | None => LegacyLaw
  end.

Definition with_fc (fc : option f64) (f : Config.FrictionGains) : Config.FrictionGains :=
  match fc with
  | Some fc => Config.mkFriction fc (Config.fv f) (Config.fo f) (Config.fk f) (Config.fs f) (Config.v_b f)
  | None => f
  end.

Definition episode_cap (cap degraded_velocity : option f64) : option f64 :=
  match cap, degraded_velocity with
  | Some cap, Some lower => Some (fmin cap lower)
  | cap, None => cap
  | None, lower => lower
  end.

Definition hold_params (l : ControlLoop B R) (resolved : list ResolvedGains) (i : nat) (name : string) : L HoldJointParams :=
  let cfg := joint_cfg l name in
  let* r := of_result (vec_get resolved i) in
  let* law :=
    match cfg with
    | Some c =>
        if bool_decide (Config.position_law c = Config.ScaledPd)
        then let* inertia := of_result (vec_get (reference_inertia (setup l)) i) in ret (hold_law cfg r inertia)
        else ret LegacyLaw
    | None => ret LegacyLaw
    end in
  let max_lead := default (lit64 15 100) (Config.position_slew_max_lead_rad <$> cfg) in
  let vel_deadband := default (lit64 2 100) (Config.position_trajectory_velocity_deadband_rad <$> cfg) in
  let* tau_meas := joint_torque name in
  ret (mkParams (r_wire_kp r) (law_kd r) (law_ki r) max_lead vel_deadband max_lead vel_deadband
         (default (lit64 25 100) (Config.position_slew_rad_s <$> cfg))
         (default (lit64 30 100) (Config.position_trajectory_velocity_rad_s <$> cfg))
         (default (lit64 15 100) (Config.position_trajectory_threshold_rad <$> cfg))
         (default (lit64 20 100) (Config.position_trajectory_accel_rad_s2 <$> cfg))
         (episode_cap (joint_velocity_cap (supervisor l) name) (degraded_lower_velocity l))
         (with_fc (law_fc r) <$> (Config.friction <$> cfg))
         (joint_limit_policy (supervisor l) name) tau_meas law
         (from_zones (Config.danger_zones (control_of l)) name)).

(** What Davout did with the previous command of joint [i]. *)
Definition clamps_of (s : Sup B R) (joint : string) : Z :=
  sat_add_u64 (total_torque_clamp_count s joint) (envelope_clamp_count s joint).

Definition reshaped_since (l : ControlLoop B R) (i : nat) (joint : string) : bool :=
  let sent := last_tau_ff_nm (supervisor l) joint in
  let clamps := clamps_of (supervisor l) joint in
  let '(prev_clamps, prev_cmd) := default (clamps, None) (hold_reshape_watch (motion l) !! i) in
  (prev_clamps <? clamps)
  || match prev_cmd, sent with
     | Some cmd, Some sent => fgt (fabs (sub64 cmd sent)) micro
     | _, _ => false
     end.

Definition hold_world (l : ControlLoop B R) (q dq_meas tau_g : list f64) (params : list HoldJointParams) : HoldWorld :=
  mkWorld q dq_meas tau_g params (names_of l) (as_secs_f64 (lp_loop_period (setup l))) (lp_loop_hz (setup l))
    (tick_count (seen l)) (imap (reshaped_since l) (names_of l)) (last_tau_ff_nm (supervisor l) <$> names_of l)
    (position_wave (motion l)).

Definition position_batch (q tau_g : list f64) : L (list MitJointCommand) :=
  let* l := get in
  let* resolved := of_result (map_err LGainShape
      (resolve_all (control_mode (motion l)) (names_of l) (joint_mode_gains_yaml l position_default_impedance) (gains (motion l)))) in
  let* dq_meas := map_each joint_velocity (names_of l) in
  let* params := map_each (fun e => let* l := get in hold_params l resolved e.1 e.2) (imap pair (names_of l)) in
  for_each (fun e =>
      let* active := ask (joint_drive_active observed e.2) in
      on_motion (fun m => with_hold (set_commanded_joint e.1 active (position_hold m)) m)) (imap pair (names_of l)) ;*
  let* l := get in
  match HoldTick.hold_tick exp tanh cos sin (hold_world l q dq_meas tau_g params) (position_hold (motion l)) with
  | Ok (out, (h, wave)) =>
      on_motion (fun m => with_reshape
          (zip_with (fun joint d => (clamps_of (supervisor l) joint, Some (d_tau_ff_cmd d))) (names_of l) (diag out))
          (with_position_wave wave (with_hold h m))) ;*
      ret (mit out)
  | Err (e, (h, wave)) =>
      on_motion (fun m => with_position_wave wave (with_hold h m)) ;*
      throw (of_hold e)
  | Panic => of_result Panic
  end.

(** ** The other modes *)

Definition direct_joint (l : ControlLoop B R) (q tau_g : list f64) (resolved : list ResolvedGains) (i : nat) (name : string)
  : L MitFfJointIn :=
  let cfg := joint_cfg l name in
  let* r := of_result (vec_get resolved i) in
  let* qi := of_result (vec_get q i) in
  let* dq := joint_velocity name in
  let* tau := of_result (vec_get tau_g i) in
  ret (mkMitFfIn name qi dq tau (latch_get name (torque_cmds (motion l))) (Config.friction <$> cfg)
         (r_wire_kp r) (r_wire_kd r) (law_fc r)).

Definition direct_batch (q tau_g : list f64) : L (list MitJointCommand) :=
  let* l := get in
  let* resolved := of_result (map_err LGainShape
      (resolve_all (control_mode (motion l)) (names_of l) (joint_mode_gains_yaml l zero_gains) (gains (motion l)))) in
  let* joints := map_each (fun e => direct_joint l q tau_g resolved e.1 e.2) (imap pair (names_of l)) in
  ret (Friction.compose tanh (control_mode (motion l)) joints).

Definition filter_mit_to_active (l : ControlLoop B R) (batch : list MitJointCommand) : list MitJointCommand :=
  base.filter (fun c => mj_joint c ∈ active_joints (adm (supervisor l))) batch.

Definition command_cycle (q : list f64) : L unit :=
  let* tau_g := of_result (map_err LDynamics (gravity_torques dynamics q)) in
  let* l := get in
  let* batch := (if bool_decide (control_mode (motion l) = CPosition) then position_batch q tau_g else direct_batch q tau_g) in
  let* l := get in
  drive (send_mit_batch observed display (filter_mit_to_active l batch)) ;*
  drive (drain_feedback observed display) ;*
  on_motion (fun m => with_gains (advance_tick (gains m)) m) ;*
  complete_degraded_lower_at_rest observed q.

(** ** The keepalive *)

Fixpoint keepalive_batch (l : ControlLoop B R) (poses : list (string * f64)) : result LoopError (list MitJointCommand) :=
  match poses with
  | [] => Ok []
  | (name, position_rad) :: rest =>
      if negb (bool_decide (name ∈ active_joints (adm (supervisor l)))) then keepalive_batch l rest
      else
        let! policy := ok_or (joint_limit_policy (supervisor l) name) (LUnknownJoint name) in
        let! position := fclamp position_rad (Limits.hard_lower policy) (Limits.hard_upper policy) in
        let! tail := keepalive_batch l rest in
        Ok (mkMitJoint name fzero fzero position fzero fzero :: tail)
  end.

Definition keepalive_cycle (q : list f64) : L unit :=
  let* l := get in
  let* batch := of_result (keepalive_batch l (zip (names_of l) q)) in
  drive (send_mit_batch observed display batch) ;*
  drive (drain_feedback observed display) ;*
  ret tt.

(** ** Telemetry *)

Definition joint_state (name : string) (position : f64) : L (option JointState) :=
  let* fb := ask (joint_feedback name) in
  match fb with
  | None => ret None
  | Some f =>
      let* w := ask (fun s => joint_commissioning_wire observed name s) in
      let '(homing, active, out) := w in
      ret (Some (mkJointState name position (fb_velocity_rad_s f) (fb_torque_nm f) (fb_temperature_c f) (fb_fault f)
                   homing active out (Z.min (fb_sample_age f / 1000000) U64_MAX)))
  end.

Definition publish_robot_state_counted (publish : list JointState -> bool) (q : list f64) : L unit :=
  let* l := get in
  let* states := map_each (fun e => joint_state e.1 e.2) (zip (names_of l) q) in
  when (negb (publish (omap id states))) (on_seen (fun w => with_failures (sat_add_u64 (telemetry_failures w) 1) w)).

Definition telemetry (q : list f64) : L unit :=
  match chappe with
  | None => ret tt
  | Some publish =>
      let* t := ask tick in
      let* l := get in
      when (match last_chappe (seen l) with Some last => chappe_publish_period (setup l) <=? elapsed last t | None => true end)
        (publish_robot_state_counted publish q ;* on_seen (with_last_chappe (Some t)))
  end.

Definition count_tick : L unit := on_seen (fun w => with_tick_count ((tick_count w + 1) mod 2 ^ 64) w).

(** ** The cycle *)

Definition reference_cycle : L unit :=
  discard_motion_intent observed ;*
  (fun l => let '(r, s) := advance_work (supervisor l) in (map_err (fun m => LSafety (EHoming (Msg "{}" [AStr m]))) r, set_sup s l)) ;*
  follow_stop_generation ;*
  on_seen (with_enable_session None) ;*
  let* q := read_positions in
  telemetry q ;*
  count_tick.

(** The poses of a tick and what they lack: a failing look judges the grants once
    more before it decides. *)
Definition look (needs : bool) : L (list f64 * FeedbackGaps) :=
  let* q := read_positions in
  let* gaps := feedback_gaps needs in
  let* l := get in
  if needs && fail_tick gaps (grace_ticks (motion l)) then
    drive (check_active_references observed display) ;*
    observe_degraded_episode observed ;*
    let* q := read_positions in
    let* gaps := feedback_gaps needs in
    ret (q, gaps)
  else ret (q, gaps).

Definition note_enable_session : L unit :=
  modify (fun l =>
    let session := active_since (adm (supervisor l)) in
    let l := if bool_decide (is_Some session) && negb (bool_decide (session = last_enable_session (seen l)))
             then set_motion (with_grace 2 (motion l)) l else l in
    set_seen (with_enable_session session (seen l)) l).

Definition count_grace (all_have_feedback : bool) : L unit :=
  let* l := get in
  when (0 <? grace_ticks (motion l))
    (if all_have_feedback then on_motion (with_grace 0)
     else when (negb (sup_enable_writes_pending (supervisor l))) (on_motion (fun m => with_grace (grace_ticks m - 1) m))).

Definition motion_cycle : L unit :=
  tell begin_tick_feedback ;*
  drive (drain_feedback observed display) ;*
  observe_degraded_episode observed ;*
  note_enable_session ;*
  let* l := get in
  let needs := bool_decide (sup_mode (supervisor l) = Active) && negb (bool_decide (control_mode (motion l) = CDisabled)) in
  let* (q, gaps) := look needs in
  let* l := get in
  let all_have_feedback := bool_decide (gap_active gaps = None) in
  let feedback_bootstrap := needs && negb all_have_feedback && (0 <? grace_ticks (motion l)) in
  match (if needs && negb feedback_bootstrap
         then match gap_active gaps with Some j => Some j | None => gap_peer gaps end else None) with
  | Some joint => throw (LMissingFeedback joint)
  | None =>
      count_grace all_have_feedback ;*
      advance_degraded_phase q ;*
      let* l := get in
      when (bool_decide (sup_mode (supervisor l) = Active))
        (if negb (bool_decide (control_mode (motion l) = CDisabled)) && negb feedback_bootstrap
         then command_cycle q else keepalive_cycle q) ;*
      telemetry q ;*
      count_tick
  end.

Definition tick_inner : L unit :=
  let* l := get in
  if reference_work_pending (supervisor l) then reference_cycle else motion_cycle.

Definition settle_error (e : LoopError) : L unit :=
  match fault_of e with
  | Some (m, j) => tell (latch_control_fault observed m j)
  | None => ret tt
  end ;*
  when (drops_intent e) (discard_motion_intent observed ;* follow_stop_generation).

Definition count_overrun (start : Z) : L unit :=
  let* t := ask tick in
  let* l := get in
  when (lp_loop_period (setup l) <? elapsed start t)
    (on_seen (fun w => with_overruns (sat_add_u64 (tick_overruns w) 1) w)).

Definition loop_tick : L unit :=
  let* start := ask tick in
  synchronize_stop_generation observed ;*
  fun l =>
    match tick_inner l with
    | (Ok _, l) => (count_overrun start ;* observe_degraded_episode observed) l
    | (Err e, l) => (count_overrun start ;* settle_error e ;* observe_degraded_episode observed ;* throw e) l
    | (Panic, l) => (Panic, l)
    end.

(** ** Construction *)

(** What the files give: the joints of the robot configuration, the model and the
    zero-pose inertias built from its URDF, and the supervisor. *)
Record LoopSources : Type := mkSources {
  src_joint_names : result LoopError (list string);
  src_inertia : result DynamicsError (list f64);
  src_supervisor : result DavoutError (Sup B R)
}.

Fixpoint progress_thresholds_of (s : Sup B R) (names : list string) : result DavoutError (list f64) :=
  match names with
  | [] => Ok []
  | joint :: rest =>
      let! t := joint_position_progress_threshold (stop_motors s) joint in
      let! tail := progress_thresholds_of s rest in
      Ok (t :: tail)
  end.

Definition from_repo_inner (loop_hz chappe_hz : Z) (src : LoopSources) : result LoopError (ControlLoop B R) :=
  refuse_if (loop_hz =? 0) (LInvalidLoopPeriod finfinity) ;!
  let seconds := div64 fone (f64_of_Z loop_hz) in
  let! loop_period := ok_or (try_from_secs_f64 seconds) (LInvalidLoopPeriod seconds) in
  refuse_if (loop_period =? 0) (LInvalidLoopPeriod seconds) ;!
  let! names := src_joint_names src in
  let! inertia := map_err LDynamics (src_inertia src) in
  let! s := map_err LSafety (src_supervisor src) in
  let! thresholds := map_err LSafety (progress_thresholds_of s names) in
  let! chappe_period := match try_from_secs_f64 (div64 fone (f64_of_Z (Z.max chappe_hz 1))) with Some d => Ok d | None => Panic end in
  Ok (mkLoop s (mkSetup names inertia loop_period loop_hz chappe_period)
        (mkMotion CDisabled (with_progress_thresholds thresholds) [] (for_loop_hz loop_hz) ∅ None 0)
        (mkSeen 0 None None 0 0 0) true None []).

End Tick.

End LoopTick.
