(* ===== verification/Guard.v ===== *)
(** * Guard: the supervisor invariant its owner relies on

    Between calls, a supervisor has well-formed grants and drive-loss plans, a
    degraded episode runs only while it is Active, and a latched fault means it
    is not Active.  Every operation the control loop uses keeps this: drains,
    batches, reference checks, stops, latched control faults, mode changes and
    the reads of [Facets]. *)

From Stdlib Require Import ZArith Lia Bool SpecFloat.
From stdpp Require Import base gmap strings list.
From S2P Require Import Prelude Float Comm Config Validate Limits TotalTorque Params Mit Bus Receive Feedback Reporting Faults Davout Filter Admission Authority Physical Lifecycle Stop Session Grants Send Consume Hazards Enable Activation Facets.

Create HintDb guard.

Module Guard.
Import Bus Receive Feedback Faults Davout Filter Admission Lifecycle Stop Session Grants Send Consume Hazards Enable Activation Facets.

Section Guard.
Context {B : Type} `{CanBus B} {R : Type} `{ReferenceWork R}.
Variable observed : Observer B R.
Variable display : DavoutError -> string.

Abbreviation S := (Sup B R).

(** Kept by every step, also between a fault record and its stop. *)
Record steady (s : S) : Prop := {
  st_auth : Authority.authority_ok (authority s);
  st_plans : plans_ok s;
  st_episode : episode (loss s) <> None -> mode (adm s) = Active
}.

Record guarded (s : S) : Prop := {
  gd_steady : steady s;
  gd_fault : has_latched_fault s = true -> mode (adm s) <> Active
}.

Lemma steady_frame (s s' : S) :
  authority s' = authority s -> loss s' = loss s -> mode (adm s') = mode (adm s) -> steady s -> steady s'.
Proof. intros Ha Hl Hm [A P E]. split; [by rewrite Ha|unfold plans_ok; by rewrite Hl|by rewrite Hl, Hm]. Qed.

Lemma steady_kept (s s' : S) : kept s s' -> steady s -> steady s'.
Proof. intros K [A P E]. split; [by apply K|by apply K|]. by rewrite (kp_episode _ _ K), (kp_mode _ _ K). Qed.

Lemma guarded_kept (s s' : S) : kept s s' -> guarded s -> guarded s'.
Proof. intros K [G F]. split; [by eapply steady_kept|]. by rewrite (kp_latched _ _ K), (kp_mode _ _ K). Qed.

Lemma record_fault_steady c j ad m d (s : S) : steady s -> steady (record_fault c j ad m d s).2.
Proof.
  destruct (record_fault_spec c j ad m d s) as (f & k & -> & _). by apply steady_frame.
Qed.

(** ** Stops *)

Lemma plans_frame (s s' : S) : plans (loss s') = plans (loss s) -> plans_ok s -> plans_ok s'.
Proof. unfold plans_ok. by intros ->. Qed.

Lemma perform_stop_base (sync : bool) (pacer : option BurstPacer) (s : S) :
  Authority.authority_ok (authority s) -> plans_ok s ->
  let '(_, _, s') := perform_stop_paced observed sync pacer s in Authority.authority_ok (authority s') /\ plans_ok s'.
Proof.
  intros Ha Hp. destruct (stop_first_half observed pacer s) as (done & pacer' & b & c & p & f & Hf & _ & Hrun).
  destruct (Hrun sync) as (s3 & -> & Hs3). cbn zeta. set (report := mkStopReport _ done).
  set (s4 := if sync then sync_active_reporting observed s3 else s3).
  assert (H4 : loss s4 = loss s /\ Authority.authority_ok (authority s4)).
  { assert (Hs4 : loss s4 = loss s3 /\ authority s4 = authority s3)
      by (unfold s4; destruct sync; [destruct (sync_frame observed s3) as (_ & _ & _ & ? & ? & _); auto|auto]).
    destruct Hs4 as [-> ->]. rewrite Hs3. cbn. split; [done|].
    destruct (has_latched_fault s); auto using Authority.revoke_ok. }
  destruct H4 as [Hl4 Ha4].
  set (s5 := if (0 <? failed_writes report)%nat then _ else s4).
  assert (H5 : loss s5 = loss s /\ Authority.authority_ok (authority s5)).
  { unfold s5. destruct (0 <? failed_writes report)%nat; [|auto].
    match goal with |- context [record_fault ?c ?j ?a ?m ?d ?x] =>
      destruct (record_fault_spec c j a m d x) as (f5 & k5 & -> & _) end. cbn. auto using Authority.revoke_ok. }
  destruct H5 as [Hl5 Ha5]. destruct (end_episode_spec s5) as (f6 & k6 & o6 & -> & _ & _).
  split; [exact Ha5|]. apply (plans_frame s); [|exact Hp]. cbn. by rewrite Hl5.
Qed.

Lemma halted_guarded (s : S) : halted s -> Authority.authority_ok (authority s) -> plans_ok s -> guarded s.
Proof.
  intros Hh Ha Hp. split; [split; [done|done|]|].
  - intros He. by rewrite (proj1 (h_episode _ Hh)) in He.
  - intros _. by rewrite (h_mode _ Hh).
Qed.

Lemma disable_base (s : S) :
  Authority.authority_ok (authority s) -> plans_ok s ->
  Authority.authority_ok (authority (disable_all observed s).2) /\ plans_ok (disable_all observed s).2.
Proof.
  intros Ha Hp. unfold disable_all, finish_cancelled, perform_stop. set (s0 := set_rwork _ s).
  destruct (acquisition_busy (rwork s0)).
  - pose proof (perform_stop_base false None s0 Ha Hp) as Hs.
    destruct (perform_stop_paced observed false None s0) as [[report p] s1]. unfold tick. by destruct (now (hostclock s1)).
  - pose proof (perform_stop_base true None s0 Ha Hp) as Hs.
    by destruct (perform_stop_paced observed true None s0) as [[report p] s1].
Qed.

Lemma abort_base (m : string) (s : S) :
  Authority.authority_ok (authority s) -> plans_ok s ->
  Authority.authority_ok (authority (abort_reference_for_hazard observed m s)) /\ plans_ok (abort_reference_for_hazard observed m s).
Proof.
  intros Ha Hp. unfold abort_reference_for_hazard, finish_cancelled, perform_stop. set (s0 := set_rwork _ s).
  destruct (acquisition_busy (rwork s0)); pose proof (perform_stop_base false None s0 Ha Hp) as Hs;
    destruct (perform_stop_paced observed false None s0) as [[report p] s1]; [unfold tick; by destruct (now (hostclock s1))|done].
Qed.

(** A stop restores the invariant from any steady state. *)
Lemma disable_guarded (s : S) : steady s -> guarded (disable_all observed s).2.
Proof. intros [A P _]. destruct (disable_base s A P). apply halted_guarded; auto. apply disable_all_halts. Qed.

Lemma stop_if_guarded (b : bool) (s : S) : guarded s -> guarded (if b then (disable_all observed s).2 else s).
Proof. intros G. destruct b; [apply disable_guarded, G|done]. Qed.

Lemma abort_guarded (m : string) (s : S) : steady s -> guarded (abort_reference_for_hazard observed m s).
Proof. intros [A P _]. destruct (abort_base m s A P). apply halted_guarded; auto. apply abort_halts. Qed.

Lemma observe_kept (s : S) : kept s (observe observed s).
Proof. split; cbn; auto. Qed.

Lemma busy_kept (s : S) : kept s (reference_busy observed s).2.
Proof. apply observe_kept. Qed.

(** A latched control fault leaves the supervisor latched and, the invariant kept, inactive. *)
Lemma latch_control_guarded (m : string) (j : option string) (s : S) :
  guarded s -> guarded (latch_control_fault observed m j s) /\ has_latched_fault (latch_control_fault observed m j s) = true.
Proof.
  intros [G F]. unfold latch_control_fault.
  match goal with |- context [record_fault ?c ?j ?a ?m ?d ?x] =>
    pose proof (record_fault_steady c j a m d x G) as G1; destruct (record_fault_spec c j a m d x) as (f & k & E & Hl) end.
  rewrite E in G1 |- *. cbn [snd] in G1. destruct (has_latched_fault s) eqn:Hs; cbn [negb].
  - split; [|exact Hl]. split; [done|]. intros _. exact (F eq_refl).
  - set (s0 := set_adm _ _) in *. pose proof (hazard_stop_halts observed m s0) as Hh.
    pose proof (steady_kept _ _ (busy_kept s0) G1) as G2. destruct (reference_busy observed s0) as [busy s1]. cbn [snd] in G2.
    destruct Hh as (_ & Hlat & _). destruct (Hlat Hl) as [H1 _]. split; [|exact H1].
    destruct busy; [by apply abort_guarded|by apply disable_guarded].
Qed.

(** ** Runtime errors *)

Lemma record_error_frame (e : DavoutError) (s : S) :
  authority (record_runtime_error display e s).2 = authority s /\ loss (record_runtime_error display e s).2 = loss s.
Proof.
  unfold record_runtime_error.
  set (p := match e with ECommWatchdog _ j _ _ _ => in_bootstrap j s | _ => (false, s) end).
  assert (Hp : authority p.2 = authority s /\ loss p.2 = loss s).
  { unfold p. destruct e; auto. unfold in_bootstrap, tick. destruct (_ ≫= _); [|auto]. destruct (now (hostclock s)). auto. }
  destruct p as [excused s1]. cbn [snd] in Hp. destruct (if excused then _ else _) as [[c j]|]; [|exact Hp].
  match goal with |- context [record_fault ?c ?j ?a ?m ?d ?x] =>
    destruct (record_fault_spec c j a m d x) as (f & k & -> & _) end. exact Hp.
Qed.

Lemma record_error_steady (e : DavoutError) (s : S) : steady s -> steady (record_runtime_error display e s).2.
Proof. destruct (record_error_frame e s). apply steady_frame; auto. apply record_error_mode. Qed.

(** The first record of a fault says so. *)
Lemma record_error_first (e : DavoutError) (s : S) :
  (record_runtime_error display e s).1 = false -> has_latched_fault s = false ->
  has_latched_fault (record_runtime_error display e s).2 = false.
Proof.
  unfold record_runtime_error.
  set (p := match e with ECommWatchdog _ j _ _ _ => in_bootstrap j s | _ => (false, s) end).
  assert (Hp : adm p.2 = adm s) by (unfold p; destruct e; try reflexivity; apply in_bootstrap_adm).
  destruct p as [excused s1]. cbn [snd] in Hp. unfold has_latched_fault. rewrite <- Hp.
  destruct (if excused then _ else _) as [[c j]|]; [|auto].
  match goal with |- context [record_fault ?c ?j ?a ?m ?d ?x] =>
    destruct (record_fault_spec c j a m d x) as (f & k & -> & _) end. cbn. unfold has_latched_fault.
  intros Hn Hl. by rewrite Hl in Hn.
Qed.

Lemma runtime_error_guarded (e : DavoutError) (s : S) : guarded s -> guarded (stop_after_runtime_error observed display e s).
Proof.
  intros [G F]. unfold stop_after_runtime_error. pose proof (record_error_steady e s G) as G1.
  pose proof (record_error_first e s) as H1. pose proof (record_error_mode display e s) as Hm.
  destruct (record_runtime_error display e s) as [[] s1]; cbn [fst snd] in *; [by apply disable_guarded|].
  split; [done|]. rewrite Hm. intros Hl. apply F. destruct (has_latched_fault s); [done|]. by rewrite H1 in Hl.
Qed.

Lemma record_and_stop_guarded (e : DavoutError) (s : S) : guarded s -> guarded (record_and_stop observed display e s).
Proof.
  intros [G F]. unfold record_and_stop. pose proof (record_error_steady e s G) as G1.
  destruct (has_latched_fault s); [|by apply disable_guarded].
  split; [done|]. intros _. rewrite record_error_mode. auto.
Qed.

(** ** References and drive loss *)

Lemma shed_guarded (s : S) : guarded s -> guarded (shed_for_drive_loss observed display s).2.
Proof.
  intros G. pose proof G as [[A P E] F]. pose proof (shed_answers observed display s A P) as Ha.
  destruct (shed_for_drive_loss observed display s) as [r s'] eqn:Es.
  destruct Ha as [(-> & w & k & ->)|[[[e ->] Hh]|(-> & plan & _ & Hs)]]; cbn [snd].
  - apply (guarded_kept s); [by split|done].
  - apply halted_guarded; [done|..]; unfold shed_for_drive_loss in Es;
      destruct (shed_decision_spec observed s) as (w & k & E2 & _);
      destruct (shed_decision observed s) as [[d|] s1]; cbn [fst snd] in E2; subst s1; try discriminate;
      destruct (disable_each _ _) as [r b]; destruct (error_of r) as [e'|]; try discriminate; injection Es as _ <-;
      apply disable_base; first [exact A | exact P | idtac]; destruct (record_error_frame (EBus e') (set_bus b
        (set_loss (mkLoss (plans (loss s)) (episode (loss s)) (outcome (loss s)) (pending_end (loss s)) (lost_address (loss s)) (Some (d_since d)))
           (set_adm (with_shed (shed (adm s) ++ ((fun t => t.1.2) <$> d_shed d)) (adm s)) (set_clock k (set_rwork w s)))))) as [Ea El].
    + by setoid_rewrite Ea. + unfold plans_ok. by setoid_rewrite El.
    + by setoid_rewrite Ea. + unfold plans_ok. by setoid_rewrite El.
  - destruct (ss_invariants _ _ _ Hs) as [A' P']. destruct (ss_mode _ _ _ Hs) as [_ M']. destruct (ss_faults _ _ _ Hs) as [_ F'].
    split; [split; auto|]. congruence.
Qed.

Lemma valid_guarded (lv : Liveness) (s : S) : guarded s -> guarded (reference_binding_valid_with observed lv s).2.
Proof. apply guarded_kept, valid_kept. Qed.

Lemma ensure_binding_guarded (s : S) : guarded s -> guarded (ensure_reference_binding observed s).2.
Proof.
  intros G. unfold ensure_reference_binding. pose proof (guarded_kept _ _ (busy_kept s) G) as G1.
  destruct (reference_busy observed s) as [busy s1]. cbn [snd] in G1. destruct busy; [done|].
  destruct (require_fault_clear (adm s1)); [|done..]. pose proof (valid_guarded Judge s1 G1) as G2.
  destruct (reference_binding_valid_with observed Judge s1) as [valid s2]. cbn [snd] in G2.
  destruct valid; [done|]. cbn. by apply stop_if_guarded.
Qed.

Lemma ensure_for_guarded (js : list string) (s : S) : guarded s -> guarded (ensure_reference_for observed js s).2.
Proof.
  intros G. unfold ensure_reference_for. pose proof (ensure_binding_guarded s G) as G1.
  by destruct (ensure_reference_binding observed s) as [[]].
Qed.

Lemma ensure_active_guarded (s : S) : guarded s -> guarded (ensure_reference_for_active observed display s).2.
Proof.
  intros G. unfold ensure_reference_for_active. pose proof (ensure_binding_guarded s G) as G1.
  destruct (ensure_reference_binding observed s) as [[u| |] s1]; [|done..]. cbn [snd] in G1.
  assert (G2 : guarded (if bool_decide (mode (adm s1) = Active) && negb (active_references_held s1)
                        then shed_for_drive_loss observed display s1 else (Ok false, s1)).2)
    by (destruct (_ && _); [by apply shed_guarded|done]).
  destruct (if bool_decide _ && _ then shed_for_drive_loss observed display s1 else _) as [[shed| |] s2]; [|done..]. cbn [snd] in G2.
  destruct (require_reference_permission _ s2); [done| |done]. by apply stop_if_guarded.
Qed.

Lemma check_active_guarded (s : S) : guarded s -> guarded (check_active_references observed display s).2.
Proof.
  intros G. unfold check_active_references. destruct (negb _); [done|]. pose proof (ensure_active_guarded s G) as G1.
  by destruct (ensure_reference_for_active observed display s) as [[]].
Qed.

Lemma stop_ending_guarded (e : DegradedEnd) (s : S) : guarded s -> guarded (stop_ending_episode observed e s).2.
Proof.
  intros [G _]. unfold stop_ending_episode. apply disable_guarded. destruct (episode (loss s)) as [ep|] eqn:E; [|done].
  destruct G as [A P M]. split; [done|done|]. intros _. apply M. by rewrite E.
Qed.

Lemma enforce_guarded (s : S) : guarded s -> guarded (enforce_degraded_deadline observed s).2.
Proof.
  intros G. unfold enforce_degraded_deadline. destruct (episode (loss s)); [|done]. pose proof (tick_kept s) as K.
  destruct (tick s) as [t s1]. cbn [snd] in K. pose proof (guarded_kept _ _ K G) as G1. destruct (_ <=? t); [|done].
  by apply stop_ending_guarded.
Qed.

(** ** Drains *)

Lemma finish_steady (lost lapsed valid tr : bool) (err : option DavoutError) (n : nat) (s : S) :
  steady s -> (tr = false -> guarded s) -> guarded (finish_drain observed display lost lapsed valid tr err n s).2.
Proof.
  intros St G. unfold finish_drain, answer_lapse. destruct tr.
  - rewrite andb_false_r, andb_false_l. apply stop_if_guarded, disable_guarded, St.
  - specialize (G eq_refl). rewrite andb_true_r. destruct (_ && _).
    + pose proof (shed_guarded s G) as G1. destruct (shed_for_drive_loss observed display s) as [[b| |] s1]; cbn [snd] in *;
        [by apply stop_if_guarded|by apply stop_if_guarded|done].
    + by apply stop_if_guarded.
Qed.

Lemma settle_guarded (lost : bool) (report : FeedbackReport) (s : S) :
  guarded s -> guarded (settle_report observed display lost report s).2.
Proof.
  intros [G F]. unfold settle_report. set (s0 := set_diag _ s). assert (F0 : has_latched_fault s0 = has_latched_fault s) by done.
  pose proof (consume_kept display report s0) as Hc. destruct (consume_feedback_report display report s0) as [out s1].
  destruct Hc as (Hm1 & _ & Ha1 & Hl1 & _ & Ht1 & _).
  assert (G1 : steady s1) by exact (steady_frame s s1 Ha1 Hl1 Hm1 G). pose proof (valid_kept observed Judge s1) as K2.
  destruct (reference_binding_valid_with observed Judge s1) as [valid s2]. cbn [snd] in K2. pose proof (steady_kept _ _ K2 G1) as G2.
  unfold tick. destruct (now (hostclock s2)) as [t k]. pose proof (overdue_cases display t (set_clock k s2)) as Hov.
  destruct (enable_echo_overdue display t (set_clock k s2)) as [overdue s3].
  assert (H3 : steady s3 /\ mode (adm s3) = mode (adm s)
               /\ (has_latched_fault s = false ->
                   fc_transition out || match overdue with Some (_, t) => t | None => false end = has_latched_fault s3)).
  { assert (Hm : mode (adm s2) = mode (adm s)) by (rewrite (kp_mode _ _ K2); exact Hm1).
    destruct Hov as [[-> ->]|(e & -> & Hl3 & Hm3 & _ & Ha3 & Hlo3)].
    - split; [exact (steady_frame s2 (set_clock k s2) eq_refl eq_refl eq_refl G2)|]. split; [exact Hm|]. intros Hn. rewrite orb_false_r, (Ht1 Hn). symmetry. exact (kp_latched _ _ K2).
    - split; [exact (steady_frame s2 s3 Ha3 Hlo3 Hm3 G2)|]. split; [rewrite Hm3; exact Hm|]. intros Hn.
      change (has_latched_fault (set_clock k s2)) with (has_latched_fault s2).
      rewrite Hl3, (Ht1 Hn), <- (kp_latched _ _ K2). by destruct (has_latched_fault s2). }
  destruct H3 as (G3 & Hm3 & Ht3). apply finish_steady; [exact G3|]. intros Ht. split; [exact G3|]. rewrite Hm3.
  intros Hl. apply F. destruct (has_latched_fault s); [done|]. rewrite Ht3 in Ht by done. congruence.
Qed.

Lemma poll_guarded (budget : Z) (s : S) : guarded s -> guarded (poll_feedback observed display budget s).2.
Proof.
  intros G. unfold poll_feedback. pose proof (enforce_guarded s G) as G0.
  destruct (enforce_degraded_deadline observed s) as [[u| |] s0]; [|done..]. cbn [snd] in G0.
  pose proof (valid_guarded Defer s0 G0) as G1. destruct (reference_binding_valid_with observed Defer s0) as [valid s1]. cbn [snd] in G1.
  assert (G2 : guarded (if references_lost valid s1 && valid then shed_for_drive_loss observed display s1 else (Ok false, s1)).2)
    by (destruct (_ && valid); [by apply shed_guarded|done]).
  destruct (if references_lost valid s1 && valid then _ else _) as [[shed| |] s2]; [|done..]. cbn [snd] in G2.
  pose proof (issue_then_spec s2 (references_lost valid s1 && negb shed)) as K3.
  destruct (if references_lost valid s1 && negb shed then _ else _) as [[u'| |] s3]; pose proof (guarded_kept _ _ K3 G2) as G3.
  - destruct (recv_feedback_report _ _ _ _ _ _) as [[[report b] c]|]; [|done]. apply settle_guarded.
    apply (guarded_kept s3); [by split|done].
  - by apply record_and_stop_guarded.
  - done.
Qed.

Lemma drain_guarded (s : S) : guarded s -> guarded (drain_feedback observed display s).2.
Proof.
  intros G. unfold drain_feedback. pose proof (guarded_kept _ _ (busy_kept s) G) as G1.
  destruct (reference_busy observed s) as [busy s1]. destruct busy; [done|]. by apply poll_guarded.
Qed.

(** ** Batches *)

Lemma write_bootstrap_kept (t : Z) (l : list AddressedMitCommand) : forall s : S, kept s (write_bootstrap t l s).2.
Proof.
  induction l as [|c l IH]; intros s; cbn [write_bootstrap]; [reflexivity|]. destruct (bool_decide _); [apply IH|].
  set (s1 := if reporting_may_stream _ _ _ then _ else s).
  assert (K1 : kept s s1).
  { unfold s1. destruct (reporting_may_stream _ _ _); [|reflexivity]. destruct (begin_group _ _ _) as [p k]. by split. }
  destruct (mit_control_all_at (bus s1) [c]) as [[u|e|] b]; cbn [snd].
  - transitivity s1; [done|]. transitivity (set_bus b s1); [by split|apply IH].
  - transitivity s1; [done|by split].
  - transitivity s1; [done|by split].
Qed.

Lemma write_wires_kept (l : list AddressedMitCommand) (s : S) : kept s (write_mit_wires l s).2.
Proof.
  unfold write_mit_wires. destruct (_ || _).
  - destruct (mit_control_all_at _ _) as [r b]. by split.
  - pose proof (tick_kept s) as K. destruct (tick s) as [t s1]. transitivity s1; [exact K|apply write_bootstrap_kept].
Qed.

Lemma guarded_frame (s s' : S) :
  authority s' = authority s -> loss s' = loss s -> mode (adm s') = mode (adm s) -> has_latched_fault s' = has_latched_fault s ->
  guarded s -> guarded s'.
Proof. intros Ha Hl Hm Hf [G F]. split; [by eapply steady_frame|]. by rewrite Hf, Hm. Qed.

Lemma deliver_guarded (batch_tick : Z) (p : list AddressedMitCommand * list StagedMitState) (s : S) :
  guarded s -> guarded (deliver observed display batch_tick p s).2.
Proof.
  intros G. unfold deliver. pose proof (guarded_kept _ _ (tick_kept s) G) as G1. destruct (tick s) as [w s1]. cbn [snd] in G1.
  pose proof (guarded_kept _ _ (write_wires_kept p.1 s1) G1) as G2. destruct (write_mit_wires p.1 s1) as [r s2]. cbn [snd] in G2.
  destruct (error_of r) as [e|]; [by apply runtime_error_guarded|]. cbn [snd].
  destruct (commit_batch_frame (adm s2) p.2 batch_tick w) as (Hm & _ & _ & _ & _ & Hf & _).
  apply (guarded_frame s2); auto. unfold has_latched_fault. cbn [adm set_adm]. by rewrite Hf.
Qed.

Lemma stale_pose_guarded (p : list AddressedMitCommand * list StagedMitState) (s : S) :
  guarded s -> guarded (shed_after_stale_pose observed display p s).2.
Proof.
  intros G. unfold shed_after_stale_pose. destruct (negb _); [done|]. pose proof (valid_guarded Judge s G) as G1.
  destruct (reference_binding_valid_with observed Judge s) as [ok s1]. cbn [snd] in G1. destruct (active_references_held s1); [done|].
  pose proof (shed_guarded s1 G1) as G2. destruct (shed_for_drive_loss observed display s1) as [[[]| |] s2]; cbn [snd] in G2; [|done..].
  destruct (check_comm_watchdog (adm s2) false (hostclock s2)) as [[u|e|] c]; cbn [snd];
    [|apply runtime_error_guarded|]; apply (guarded_frame s2); auto.
Qed.

Lemma prepare_guarded (supplied : option Config.MotorEntry) (batch : list (MitJointCommand * nat)) (s : S) :
  guarded s -> guarded (prepare_and_deliver observed display supplied batch s).2.
Proof.
  intros G. unfold prepare_and_deliver. pose proof (guarded_kept _ _ (tick_kept s) G) as G1. destruct (tick s) as [bt s1]. cbn [snd] in G1.
  destruct (prepare_mit_batch _ _ _ _) as [prep c]. assert (G2 : guarded (set_clock c s1)) by by apply (guarded_frame s1).
  destruct prep as [p|e|]; [by apply deliver_guarded| |done]. set (scratch := staged_scratch _ _ _ _).
  assert (G3 : guarded (if is_comm_watchdog e then shed_after_stale_pose observed display scratch (set_clock c s1) else (Ok None, set_clock c s1)).2)
    by (destruct (is_comm_watchdog e); [by apply stale_pose_guarded|done]).
  destruct (if is_comm_watchdog e then _ else _) as [[[p|]| |] s3]; cbn [snd] in G3; [by apply deliver_guarded| |done..].
  cbn [snd]. destruct (stops_session e); [by apply runtime_error_guarded|done].
Qed.

Lemma send_guarded (cmds : list MitJointCommand) (s : S) : guarded s -> guarded (send_mit_batch observed display cmds s).2.
Proof.
  intros G. unfold send_mit_batch. destruct (find_first _ _); [done|]. unfold admit_and_send_mit_with.
  pose proof (enforce_guarded s G) as G0. destruct (enforce_degraded_deadline observed s) as [[u| |] s0]; cbn [snd] in G0; [|done..].
  destruct (_ ;! _) as [u1| |]; [|done..]. pose proof (ensure_active_guarded s0 G0) as G1.
  destruct (ensure_reference_for_active observed display s0) as [[shed| |] s1]; cbn [snd] in G1; [|done..].
  set (s2 := set_adm _ s1). assert (G2 : guarded s2) by by apply (guarded_frame s1). set (cmds1 := match _ with Some _ => _ | None => _ end).
  destruct (bind_batch (adm s2) None [] cmds1) as [l| |]; [by apply prepare_guarded|done..].
Qed.

(** ** Reads and the control mode *)

Lemma feedback_kept (j : string) (s : S) : kept s (joint_feedback j s).2.
Proof.
  unfold joint_feedback. destruct (motor_index _ _) as [i|]; [|reflexivity]. destruct (published_state _ _ _) as [st c].
  assert (K : kept s (set_clock c s)) by by split. destruct st as [st|]; [|exact K]. destruct (ms_updated st); [|exact K].
  pose proof (tick_kept (set_clock c s)) as K1. destruct (tick (set_clock c s)) as [t s1]. etransitivity; [exact K|exact K1].
Qed.

Lemma revoke_kept (s : S) : kept s (revoke_all s).
Proof. split; cbn; auto using Authority.revoke_ok. Qed.

Lemma homing_state_kept (j : string) (s : S) : kept s (joint_homing_state observed j s).2.
Proof.
  unfold joint_homing_state. destruct (has_latched_fault s); [apply revoke_kept|]. pose proof (valid_kept observed Judge s) as K.
  by destruct (reference_binding_valid_with observed Judge s).
Qed.

Lemma drive_active_kept (j : string) (s : S) : kept s (joint_drive_active observed j s).2.
Proof.
  unfold joint_drive_active. destruct (_ && _); [|reflexivity]. pose proof (homing_state_kept j s) as K.
  by destruct (joint_homing_state observed j s).
Qed.

Lemma wire_kept (j : string) (s : S) : kept s (joint_commissioning_wire observed j s).2.
Proof.
  unfold joint_commissioning_wire. pose proof (homing_state_kept j s) as K. destruct (joint_homing_state observed j s) as [h s1].
  pose proof (drive_active_kept j s1) as K1. destruct (joint_drive_active observed j s1) as [a s2]. cbn [snd] in *. by transitivity s1.
Qed.

Lemma seed_kept (only : bool) (ms : list Config.MotorEntry) : forall s : S, kept s (seed_each only ms s).2.
Proof.
  induction ms as [|m ms IH]; intros s; cbn [seed_each]; [reflexivity|]. destruct (_ && _); [apply IH|].
  unfold joint_torque_rad. pose proof (feedback_kept (Config.joint m) s) as K. destruct (joint_feedback (Config.joint m) s) as [fb s1]. cbn [snd] in K.
  destruct (fclamp _ _ _); [|exact K..]. etransitivity; [exact K|]. etransitivity; [|apply IH]. by split.
Qed.

Lemma control_mode_kept (m : ControlMode) (s : S) : kept s (Lifecycle.set_control_mode observed m s).
Proof.
  unfold Lifecycle.set_control_mode. pose proof (busy_kept s) as K. destruct (reference_busy observed s) as [busy s1]. cbn [snd] in K.
  destruct busy; [exact K|]. etransitivity; [exact K|]. by split.
Qed.

Lemma begin_feedback_kept (s : S) : kept s (begin_tick_feedback s).
Proof. by split. Qed.

(** ** Enabling *)

Lemma sync_kept (s : S) : kept s (sync_active_reporting observed s).
Proof.
  destruct (sync_frame observed s) as (Ha & _ & _ & Hl & Hau & _).
  assert (He : hardware_estop (sync_active_reporting observed s) = hardware_estop s).
  { unfold sync_active_reporting, reference_busy, tick. destruct (_ || exit_reporting_released _); [reflexivity|].
    destruct (now _). destruct (Reporting.sync_holding _ _ _ _ _ _ _ _) as [[df r] b]. reflexivity. }
  split; unfold has_latched_fault, plans_ok; rewrite ?Ha, ?Hl, ?Hau; auto.
Qed.

Lemma sync_guarded (s : S) : guarded s -> guarded (sync_active_reporting observed s).
Proof. apply guarded_kept, sync_kept. Qed.

Lemma revoke_joints_ok (js : list string) : forall a, Authority.authority_ok a ->
  Authority.authority_ok (fold_left (fun a j => Authority.revoke_joint j a) js a).
Proof. induction js as [|j js IH]; intros a Ha; cbn [fold_left]; [done|]. apply IH. exact (Authority.exec_ok (Authority.ORevokeJoint j) a Ha). Qed.

Lemma revoke_each_kept (js : list string) (s : S) : kept s (revoke_each js s).
Proof. split; cbn; auto. apply revoke_joints_ok. Qed.

Lemma rounds_guarded (fuel : nat) (targets : list IdentityTarget) (w deadline : Z) : forall asked next (s : S),
  guarded s -> guarded (identity_rounds observed display fuel targets w deadline asked next s).2.
Proof.
  induction fuel as [|fuel IH]; intros asked next s G; cbn [identity_rounds]; [done|].
  destruct (scan_identities _ _ _ _) as [[bad seen]|[|x missing]]; [exact (guarded_kept _ _ (revoke_each_kept _ s) G)|done|].
  pose proof (guarded_kept _ _ (tick_kept s) G) as G1. destruct (tick s) as [t s1]. cbn [snd] in G1.
  destruct (deadline <=? t); [exact (guarded_kept _ _ (revoke_each_kept _ s1) G1)|].
  destruct (least_asked _ _) as [[i target]|].
  - destruct (get_device_id_at _ _) as [[u|e|] b]; [apply IH|..]; by apply (guarded_frame s1).
  - pose proof (guarded_kept _ _ (tick_kept s1) G1) as G2. destruct (tick s1) as [t2 s2]. cbn [snd] in G2.
    pose proof (fun b => poll_guarded b _ (sync_guarded s2 G2)) as G3.
    match goal with |- context [poll_feedback _ _ ?b ?x] => specialize (G3 b); destruct (poll_feedback observed display b x) as [[n|e|] s3] end;
      [by apply IH|done..].
Qed.

Lemma verify_guarded (fuel : nat) (js : list string) (s : S) :
  guarded s -> guarded (verify_physical_identities observed display fuel js s).2.
Proof.
  intros G. unfold verify_physical_identities. destruct (identity_targets s js); [|done..].
  pose proof (guarded_kept _ _ (tick_kept s) G) as G1. destruct (tick s) as [t s1]. by apply rounds_guarded.
Qed.

Lemma poses_guarded (js : list string) : forall s : S, guarded s -> guarded (check_disabled_poses_at_enable js s).2.
Proof.
  induction js as [|j js IH]; intros s G; cbn [check_disabled_poses_at_enable]; [done|]. destruct (motor_index _ _) as [i|]; [|auto].
  destruct (published_state _ i _) as [st c]. assert (G1 : guarded (set_clock c s)) by by apply (guarded_frame s).
  destruct st as [st|]; [|auto]. pose proof (guarded_kept _ _ (tick_kept _) G1) as G2. destruct (tick (set_clock c s)) as [t s2]. cbn [snd] in G2.
  destruct (is_stale _ _ _); [auto|]. destruct (_ !! j) as [lim|]; [|auto].
  destruct (Limits.measured_position_fault _ _); [by apply (guarded_frame s2)|auto].
Qed.

Lemma start_guarded (js : list string) (s : S) :
  guarded s -> mode (adm s) <> Active -> guarded (start_session observed display js s).2.
Proof.
  intros G Hs. unfold start_session. destruct (enable_addresses s js) as [l| |]; [|done..].
  pose proof (guarded_kept _ _ (arm_kept l s) G) as G1. pose proof (kept_inactive _ _ (arm_kept l s) Hs) as H1.
  destruct (arm_targets l s) as [[u| |] s1]; cbn [snd] in G1, H1; [|done..].
  pose proof (poll_guarded 0 s1 G1) as G2. pose proof (poll_inactive observed display 0 s1 H1) as H2.
  destruct (poll_feedback observed display 0 s1) as [[n| |] s2]; cbn [snd] in G2, H2; [|done..].
  pose proof (ensure_for_guarded js s2 G2) as G3. pose proof (ensure_for_spec observed js s2) as He.
  destruct (ensure_reference_for observed js s2) as [[[]| |] s3]; cbn [snd] in G3; [|done..].
  destruct He as [_ He]. destruct (He eq_refl) as (K & Hl & Hes & Hc). cbn [snd].
  pose proof (activate_enabled observed js s3 Hl Hes Hc) as En. destruct G3 as [[A P _] _].
  assert (Hf : authority (activate observed js s3) = authority s3 /\ loss (activate observed js s3) = loss s3).
  { unfold activate, tick. destruct (now (hostclock s3)) as [t k].
    match goal with |- context [sync_active_reporting observed ?x] => destruct (sync_frame observed x) as (_ & _ & _ & -> & -> & _) end. done. }
  destruct Hf as [Hfa Hfl]. split; [split; [by rewrite Hfa|unfold plans_ok; by rewrite Hfl|intros _; exact (en_mode _ _ En)]|].
  intros Hl'. by rewrite (proj1 (en_faults _ _ En)) in Hl'.
Qed.

Lemma admit_enable_guarded (fuel : nat) (js : list string) (s : S) :
  guarded s -> guarded (admit_enable observed display fuel js s).2.
Proof.
  intros G. unfold admit_enable. destruct (require_fault_clear _); [|done..]. pose proof (ensure_for_guarded js s G) as G1.
  destruct (ensure_reference_for observed js s) as [[[]| |] s1]; cbn [snd] in G1; [|done..]. pose proof (verify_guarded fuel js s1 G1) as G2.
  destruct (verify_physical_identities _ _ fuel js s1) as [[[]| |] s2]; cbn [snd] in G2; [|by apply runtime_error_guarded|done].
  pose proof (poll_guarded 0 s2 G2) as G3. destruct (poll_feedback observed display 0 s2) as [[n| |] s3]; cbn [snd] in G3; [|done..].
  pose proof (ensure_for_guarded js s3 G3) as G4. destruct (ensure_reference_for observed js s3) as [[[]| |] s4]; cbn [snd] in G4; [|done..].
  pose proof (poses_guarded js s4 G4) as G5. destruct (check_disabled_poses_at_enable js s4) as [[[]| |] s5]; cbn [snd] in G5;
    [done|by apply runtime_error_guarded|done].
Qed.

Lemma enable_inner_guarded (fuel : nat) (js : list string) (s : S) :
  guarded s -> mode (adm s) <> Active -> guarded (enable_targets_inner observed display fuel js s).2.
Proof.
  intros G Hs. unfold enable_targets_inner. pose proof (admit_enable_guarded fuel js s G) as G1.
  pose proof (admit_enable_inactive observed display fuel js s Hs) as H1.
  destruct (admit_enable observed display fuel js s) as [[[]| |] s1]; cbn [snd] in G1, H1; [|done..].
  pose proof (start_guarded js s1 G1 H1) as G2. destruct (start_session observed display js s1) as [[[]| |] s2]; cbn [snd] in G2;
    [done|by apply record_and_stop_guarded|done].
Qed.

Lemma enable_guarded (fuel : nat) (js : list string) (s : S) : guarded s -> guarded (enable_targets observed display fuel js s).2.
Proof.
  intros G. unfold enable_targets. destruct (require_fault_clear (adm s) ;! _); [|done..].
  set (p := if bool_decide (mode (adm s) = Active) then _ else (Ok tt, s)).
  assert (Gp : guarded p.2).
  { unfold p. destruct (bool_decide _); [|done]. pose proof (ensure_active_guarded s G) as G1.
    by destruct (ensure_reference_for_active observed display s) as [[]]. }
  destruct p as [still s1]. cbn [snd] in Gp. destruct (still ;! _); [|done..]. pose proof (ensure_for_guarded js s1 Gp) as G1.
  destruct (ensure_reference_for observed js s1) as [[[]| |] s2]; cbn [snd] in G1; [|done..].
  destruct (bool_decide_reflect (mode (adm s2) = Active)); [done|by apply enable_inner_guarded].
Qed.

Lemma facet_kept (j : string) (s : S) : kept s (master_facet observed j s).2.
Proof.
  unfold master_facet. pose proof (feedback_kept j s) as K. destruct (joint_feedback j s) as [fb s1]. cbn [snd] in K.
  set (p := if _ || _ then (true, s1) else _). assert (Kp : kept s1 p.2).
  { unfold p. destruct (_ || _); [reflexivity|]. pose proof (homing_state_kept j s1) as K1. by destruct (joint_homing_state observed j s1). }
  destruct p as [fault s2]. cbn [snd] in Kp. set (q := if bool_decide _ then _ else (Unhomed, s2)).
  assert (Kq : kept s2 q.2) by (unfold q; destruct (bool_decide _); [apply homing_state_kept|reflexivity]).
  destruct q as [h s3]. cbn [snd] in *. etransitivity; [exact K|]. by etransitivity.
Qed.

Lemma facets_kept (js : list string) : forall s : S, kept s (master_facets observed js s).2.
Proof.
  induction js as [|j js IH]; intros s; cbn [master_facets]; [reflexivity|]. pose proof (facet_kept j s) as K.
  destruct (master_facet observed j s) as [x s1]. specialize (IH s1). destruct (master_facets observed js s1) as [l s2]. by etransitivity.
Qed.

Lemma resolve_guarded (files : EnableFiles) (s : S) : guarded s -> guarded (resolve_enable_targets observed display files s).2.
Proof.
  intros G. unfold resolve_enable_targets. destruct (require_fault_clear _ ;! _) as [[eff names]| |]; [|done..].
  pose proof (drain_guarded _ (sync_guarded s G)) as G1. destruct (drain_feedback observed display _) as [[n| |] s1]; cbn [snd] in G1; [|done..].
  unfold commissioning_facets. pose proof (facets_kept names s1) as K. destruct (master_facets observed names s1) as [m s2].
  exact (guarded_kept _ _ K G1).
Qed.

Lemma install_guarded (ps : list DriveLossPlan) (s : S) : guarded s -> guarded (install_drive_loss_plans ps s).2.
Proof.
  intros G. pose proof (install_plans_ok ps s) as Hp. unfold install_drive_loss_plans in *.
  destruct (try_for_each (check_plan s) ps) as [u| |]; [|done..]. destruct u. destruct G as [[A P E] F].
  split; [split; [done|by apply Hp|done]|done].
Qed.

(** ** Outside Active

    Only an Enable enters Active: every other operation of the loop keeps the
    supervisor out of it. *)

Lemma stop_if_inactive (b : bool) (s : S) : inactive s -> inactive (if b then (disable_all observed s).2 else s).
Proof. intros Hs. destruct b; [apply stopped_inactive|done]. Qed.

Lemma enforce_inactive (s : S) : inactive s -> inactive (enforce_degraded_deadline observed s).2.
Proof.
  intros Hs. pose proof (enforce_cases observed s) as He. destruct (enforce_degraded_deadline observed s) as [r s1].
  destruct He as [[_ K]|[_ Hh]]; [by eapply kept_inactive|]. unfold inactive. cbn. by rewrite (h_mode _ Hh).
Qed.

Lemma ensure_active_inactive (s : S) : inactive s -> inactive (ensure_reference_for_active observed display s).2.
Proof.
  intros Hs. unfold ensure_reference_for_active.
  assert (H1 : inactive (ensure_reference_binding observed s).2).
  { unfold ensure_reference_binding. pose proof (kept_inactive _ _ (busy_kept s) Hs) as H1.
    destruct (reference_busy observed s) as [busy s1]. cbn [snd] in H1. destruct busy; [done|].
    destruct (require_fault_clear (adm s1)); [|done..]. pose proof (kept_inactive _ _ (valid_kept observed Judge s1) H1) as H2.
    destruct (reference_binding_valid_with observed Judge s1) as [[] s2]; [done|]. by apply stop_if_inactive. }
  destruct (ensure_reference_binding observed s) as [[u| |] s1]; cbn [snd] in H1; [|done..]. rewrite bool_decide_false by done. cbn [andb].
  destruct (require_reference_permission _ s1); [done| |done]. cbn [snd]. by apply stop_if_inactive.
Qed.

Lemma check_active_inactive (s : S) : inactive s -> inactive (check_active_references observed display s).2.
Proof.
  intros Hs. unfold check_active_references. destruct (negb _); [done|]. pose proof (ensure_active_inactive s Hs) as H1.
  by destruct (ensure_reference_for_active observed display s) as [[]].
Qed.

Lemma deliver_inactive (bt : Z) (p : list AddressedMitCommand * list StagedMitState) (s : S) :
  inactive s -> inactive (deliver observed display bt p s).2.
Proof.
  intros Hs. unfold deliver. pose proof (kept_inactive _ _ (tick_kept s) Hs) as H1. destruct (tick s) as [w s1]. cbn [snd] in H1.
  pose proof (kept_inactive _ _ (write_wires_kept p.1 s1) H1) as H2. destruct (write_mit_wires p.1 s1) as [r s2]. cbn [snd] in H2.
  destruct (error_of r) as [e|]; [by apply runtime_error_inactive|]. unfold inactive. cbn [snd adm set_adm].
  by rewrite (proj1 (commit_batch_frame (adm s2) p.2 bt w)).
Qed.

Lemma send_inactive (cmds : list MitJointCommand) (s : S) : inactive s -> inactive (send_mit_batch observed display cmds s).2.
Proof.
  intros Hs. unfold send_mit_batch. destruct (find_first _ _); [done|]. unfold admit_and_send_mit_with.
  pose proof (enforce_inactive s Hs) as Hb. destruct (enforce_degraded_deadline observed s) as [[u| |] s0]; cbn [snd] in Hb; [|done..].
  destruct (_ ;! _) as [u1| |]; [|done..]. pose proof (ensure_active_inactive s0 Hb) as H1.
  destruct (ensure_reference_for_active observed display s0) as [[shed| |] s1]; cbn [snd] in H1; [|done..].
  set (s2 := set_adm _ s1). assert (H2 : inactive s2) by done. set (cmds1 := match _ with Some _ => _ | None => _ end).
  destruct (bind_batch (adm s2) None [] cmds1) as [l| |]; [|done..]. unfold prepare_and_deliver.
  pose proof (kept_inactive _ _ (tick_kept s2) H2) as H3. destruct (tick s2) as [bt s3]. cbn [snd] in H3.
  destruct (prepare_mit_batch _ _ _ _) as [[p|e|] c]; [by apply deliver_inactive| |done].
  set (scratch := staged_scratch _ _ _ _).
  assert (E : (if is_comm_watchdog e then shed_after_stale_pose observed display scratch (set_clock c s3) else (Ok None, set_clock c s3))
              = (Ok None, set_clock c s3)).
  { destruct (is_comm_watchdog e); [|done]. unfold shed_after_stale_pose. by rewrite bool_decide_false. }
  rewrite E. cbn [snd]. destruct (stops_session e); [by apply runtime_error_inactive|done].
Qed.

Lemma drain_inactive (s : S) : inactive s -> inactive (drain_feedback observed display s).2.
Proof.
  intros Hs. unfold drain_feedback. pose proof (kept_inactive _ _ (busy_kept s) Hs) as H1.
  destruct (reference_busy observed s) as [busy s1]. destruct busy; [done|]. by apply poll_inactive.
Qed.

Lemma latch_control_inactive (m : string) (j : option string) (s : S) : inactive s -> inactive (latch_control_fault observed m j s).
Proof.
  intros Hs. unfold latch_control_fault.
  match goal with |- context [record_fault ?c ?j ?a ?m ?d ?x] => destruct (record_fault_spec c j a m d x) as (f & k & E & Hl) end.
  rewrite E. destruct (negb _); [|exact Hs]. match goal with |- context [reference_busy observed ?x] => pose proof (hazard_stop_halts observed m x) as Hh end.
  destruct (reference_busy observed _) as [busy s1]. unfold inactive. by rewrite (h_mode _ (proj1 Hh)).
Qed.

End Guard.

#[export] Hint Resolve feedback_kept homing_state_kept drive_active_kept wire_kept seed_kept control_mode_kept begin_feedback_kept
  busy_kept tick_kept : guard.

End Guard.
