(* ===== verification/WorkGuard.v ===== *)
(** * WorkGuard: reference work keeps the supervisor invariant

    [advance_reference_work] of [Commit], and with it every phase of an
    acquisition and every answered commit, keeps [Guard.guarded] and keeps the
    supervisor out of Active.  The control loop runs this work instead of a motion
    cycle, so these are the two facts [LoopSafety] needs of it. *)

From Stdlib Require Import ZArith Lia Bool.
From stdpp Require Import base gmap strings list.
From S2P Require Import Prelude Float Comm Wire Config Params Bus Receive Feedback Reporting Faults Davout Filter Admission Authority Physical Lifecycle Stop Session Grants Send Consume Hazards Enable Activation Journal History Reference Acquire Commit Frames Evidence Grant Guard.

Module WorkGuard.
Import Params Bus Receive Feedback Faults Davout Filter Admission Lifecycle Stop Session Grants Consume Hazards Enable Activation Journal History Reference Acquire Commit Frames Guard.

Section WorkGuard.
Context {B : Type} `{CanBus B} {V : Type} `{EqDecision V}.
Variable display : DavoutError -> string.
Variable display_bus : BusError -> string.
Variable display_reference : ReferenceError -> string.
Variable display_commit : ReferenceCommitError -> string.
Variable display_f64 : f64 -> string.
Variable to_value : list Config.MotorEntry -> Config.ControlSection -> Config.HomingSection -> result string V.
Variable value_len : V -> result string Z.
Variable encode_policy : Authority.TypedPolicy -> result string (list Z).

Abbreviation S := (Sup B (Work V)).
Abbreviation stopped_by := (perform_stop_paced (observed to_value value_len encode_policy)).
Abbreviation observe_commits := (observe_reference_commits to_value value_len encode_policy).

(** Steady and out of Active: what a live acquisition keeps at every step. *)
Definition dormant (s : S) : Prop := steady s /\ inactive s.

Lemma dormant_guarded (s : S) : dormant s -> guarded s.
Proof. intros [G Hs]. by split. Qed.

Lemma dormant_kept (s s' : S) : kept s s' -> dormant s -> dormant s'.
Proof. intros K [G Hs]. split; [by eapply steady_kept|by eapply kept_inactive]. Qed.

Lemma drops_authority_ok (a a' : Authority.ReferenceAuthority) : drops a a' -> Authority.authority_ok a -> Authority.authority_ok a'.
Proof. intros (ops & -> & _). apply Authority.run_ok. Qed.

Lemma inspected_session (s s' : S) : inspected s s' -> kept s s'.
Proof.
  intros [(a & w & k & ->) D _]. split; cbn; auto. by apply drops_authority_ok.
Qed.

Lemma stop_dormant (sync : bool) (pacer : option BurstPacer) (s : S) :
  steady s -> let '(_, _, s') := stopped_by sync pacer s in dormant s'.
Proof.
  intros [A P _]. pose proof (perform_stop_base (observed to_value value_len encode_policy) sync pacer s A P) as Hb.
  pose proof (perform_stop_spec (observed to_value value_len encode_policy) sync pacer s) as Hs.
  destruct (stopped_by sync pacer s) as [[report p] s']. destruct Hb as [A' P'], Hs as (Hh & _).
  split; [apply (halted_guarded _ Hh A' P')|]. unfold inactive. by rewrite (h_mode _ Hh).
Qed.

Lemma fault_dormant c j a m d (s : S) : dormant s -> dormant (record_fault c j a m d s).2.
Proof.
  intros [G Hs]. split; [by apply record_fault_steady|]. destruct (record_fault_spec c j a m d s) as (f & k & -> & _). exact Hs.
Qed.

(** ** Finishing *)

Lemma finish_dormant cause existing accepted (s : S) :
  steady s -> (existing <> None \/ w_reservation (rwork s) = None -> dormant s) ->
  dormant (finish_reference to_value value_len encode_policy cause existing accepted s).2.
Proof.
  intros G Hd. unfold finish_reference. destruct (w_reservation (rwork s)) as [r|]; [|by apply Hd; right].
  set (s1 := set_rwork _ s).
  assert (H1 : dormant (finish_stop to_value value_len encode_policy existing (bool_decide (is_Some accepted)) s1).2).
  { unfold finish_stop. destruct existing as [stop|]; [apply (dormant_kept s); [by split|by apply Hd; left]|].
    match goal with |- context [perform_stop_paced _ false ?p s1] => pose proof (stop_dormant false p s1) as Hs;
      destruct (stopped_by false p s1) as [[report q] s2] end. apply Hs. by apply (steady_frame s). }
  destruct (finish_stop _ _ _ existing _ s1) as [stop s2]. cbn [snd] in H1.
  destruct (Evidence.mark_owner_work_frame s2) as (p & k & ->). destruct (retain _ _ _ _ _) as [t w].
  pose proof (staged_inspected to_value value_len encode_policy (set_rwork w (set_physical p (set_clock k s2)))) as Hi.
  destruct (observe_staged_reference _ _ _ _) as [st s4]. cbn [snd] in Hi |- *.
  eapply dormant_kept; [apply inspected_session, Hi|]. by apply (dormant_kept s2); [split|].
Qed.

Lemma finish_with_dormant cause existing accepted (s : S) :
  steady s -> (existing <> None \/ w_reservation (rwork s) = None -> dormant s) ->
  dormant (finish_with to_value value_len encode_policy cause existing accepted s).2.
Proof.
  intros G Hd. unfold finish_with. pose proof (finish_dormant cause existing accepted s G Hd) as Hf.
  destruct (finish_reference _ _ _ cause existing accepted s) as [[t|e|] s1]; cbn [snd] in Hf; [|done..].
  pose proof (terminal_snapshot_inspected to_value value_len encode_policy t s1) as Hi.
  destruct (snapshot_for_terminal _ _ _ t s1) as [n s2]. by eapply dormant_kept; [apply inspected_session, Hi|].
Qed.

Lemma fail_dormant kind m (s : S) :
  steady s -> (w_reservation (rwork s) = None -> dormant s) ->
  dormant (fail_reference to_value value_len encode_policy kind m s).2.
Proof.
  intros G Hd. unfold fail_reference. apply finish_with_dormant.
  - destruct kind; auto; by apply record_fault_steady.
  - intros [?|Hn]; [done|]. destruct kind; auto;
      apply fault_dormant, Hd; rewrite <- Hn; destruct (Evidence.record_fault_rest FTransport None None m device_default s) as (-> & _); reflexivity.
Qed.

Lemma failing_dormant kind m (s : S) : dormant s -> dormant (leave_failing to_value value_len encode_policy kind m s).2.
Proof.
  intros D. unfold leave_failing. pose proof (fail_dormant kind m s (proj1 D) (fun _ => D)) as Hf.
  by destruct (fail_reference _ _ _ kind m s).
Qed.

(** ** The phases *)

Ltac framed D := refine (dormant_kept _ _ _ D); split; cbn; auto.

Lemma written_dormant x p (s : S) : dormant s -> dormant (written_or_fail display_bus to_value value_len encode_policy x p s).2.
Proof. intros D. unfold written_or_fail. destruct (error_of x); [by apply failing_dormant|done]. Qed.

Lemma tick_dormant (s : S) : dormant s -> dormant (tick s).2.
Proof. apply dormant_kept, tick_kept. Qed.

Lemma suspend_dormant r pacer (s : S) : dormant s -> dormant (suspend_reporting display_bus r pacer s).2.
Proof.
  intros D. unfold suspend_reporting. apply tick_dormant in D. destruct (tick s) as [t s1]. cbn [snd] in D.
  set (s2 := if echoes_transmissions _ then _ else s1).
  assert (D2 : dormant s2) by (unfold s2; destruct (echoes_transmissions _); [framed D|done]).
  destruct (suspend_paced _ _ _ _ _ _ _ _) as [[[tried rp] b] c]. framed D2.
Qed.

Lemma baseline_dormant r (s : S) : dormant s -> dormant (phase_baseline_stop display_bus to_value value_len encode_policy r s).2.
Proof.
  intros D. unfold phase_baseline_stop. set (pacer := if echoes_transmissions _ then _ else None).
  pose proof (stop_dormant false pacer s (proj1 D)) as Hs. destruct (stopped_by false pacer s) as [[stop p] s1].
  destruct (0 <? failed_writes stop)%nat.
  - pose proof (finish_with_dormant (failure KDelivery "baseline stop was uncertain") (Some stop) None s1 (proj1 Hs) (fun _ => Hs)) as Hf.
    by destruct (finish_with _ _ _ _ (Some stop) None s1).
  - set (s2 := update_reservation _ s1). assert (D2 : dormant s2) by framed Hs. pose proof (suspend_dormant r p s2 D2) as D3.
    destruct (suspend_reporting _ r p s2) as [failed s3]. cbn [snd] in D3. destruct failed; [|done].
    by apply failing_dormant, fault_dormant.
Qed.

Lemma request_dormant (identity : bool) r (s : S) : dormant s -> dormant (phase_request display_bus to_value value_len encode_policy identity r s).2.
Proof.
  intros D. unfold phase_request. destruct identity.
  - apply tick_dormant in D. destruct (tick s) as [t s1]. cbn [snd] in D. destruct (get_device_id_at _ _) as [x b]. apply written_dormant. framed D.
  - destruct (read_parameter_at _ _ _) as [x b]. apply written_dormant. framed D.
Qed.

Lemma arm_dormant r (s : S) : dormant s -> dormant (phase_arm display_bus to_value value_len encode_policy r s).2.
Proof.
  intros D. unfold phase_arm. set (p := if echoes_transmissions (bus s) then _ else (None, s)).
  assert (Dp : dormant p.2).
  { unfold p. destruct (echoes_transmissions _); [|done]. apply tick_dormant in D. by destruct (tick s). }
  destruct p as [refused s1]. cbn [snd] in Dp. destruct refused as [m|]; [by apply failing_dormant|].
  destruct (enable_drive_at _ _) as [x b]. set (s2 := set_bus b _). assert (D2 : dormant s2) by framed Dp.
  destruct (error_of x); [by apply failing_dormant|]. cbn [snd]. destruct (echoes_transmissions _); [framed D2|done].
Qed.

Lemma set_zero_dormant r (s : S) : dormant s -> dormant (phase_set_zero display_bus to_value value_len encode_policy r s).2.
Proof.
  intros D. unfold phase_set_zero. destruct (target_motor _ s) as [m|]; [|done].
  set (s1 := invalidate_reference_target_pose_for_zero_attempt m s). assert (D1 : dormant s1) by framed D.
  set (s2 := if echoes_transmissions (bus s1) then _ else s1).
  assert (D2 : dormant s2).
  { unfold s2. destruct (echoes_transmissions _); [|done]. apply tick_dormant in D1. destruct (tick s1) as [t s1']. framed D1. }
  destruct (set_zero_position_at _ _) as [x b]. destruct (Physical.begin_new_coordinate _ _) as [epoch p].
  set (s3 := update_reservation _ _). assert (D3 : dormant s3) by framed D2.
  destruct (error_of x); [by apply failing_dormant|]. destruct (bool_decide _); [by apply failing_dormant|done].
Qed.

Lemma identity_dormant r (s : S) : dormant s -> dormant (await_identity display_bus to_value value_len encode_policy r s).2.
Proof.
  intros D. unfold await_identity. destruct (Physical.identity_after _ _ _) as [u|].
  - destruct (Physical.uid_claimed_elsewhere _ _ _); [by apply failing_dormant|]. set (s1 := update_reservation _ s).
    assert (D1 : dormant s1) by framed D. destruct (echoes_transmissions _); [|done]. cbn [snd].
    destruct (set_zero_quiet_until _ _); [by apply tick_dormant|done].
  - unfold retry_identity. apply tick_dormant in D. destruct (tick s) as [t s1]. cbn [snd] in D.
    destruct (r_identity_requested_at r) as [[first lst]|]; [|done]. destruct (_ && _); [|done].
    destruct (get_device_id_at _ _) as [x b]. apply written_dormant. framed D.
Qed.

Lemma readback_dormant r realm m (s : S) : dormant s ->
  dormant (accept_physical_readback display_f64 to_value value_len encode_policy r realm m s).2.
Proof.
  intros D. unfold accept_physical_readback. destruct (Physical.read_after _ _ _ _) as [read|].
  2:{ unfold leave_waiting. pose proof (snapshot_inspected to_value value_len encode_policy s) as Hi.
      destruct (reference_snapshot _ _ _ s) as [n s1]. exact (dormant_kept _ _ (inspected_session _ _ Hi) D). }
  destruct (negb _); [by apply failing_dormant|]. destruct (motor_position_scale m) as [scale|e|]; [|done..].
  destruct (_ || _); [by apply failing_dormant|].
  destruct (r_uid r) as [u|]; [|by apply failing_dormant]. destruct (r_ack r) as [k|]; [|by apply failing_dormant].
  destruct (r_device_epoch r) as [epoch|]; [|by apply failing_dormant]. destruct (Physical.observe_position _ _ _ _ _) as [c p].
  set (s1 := set_physical p s). assert (D1 : dormant s1) by framed D. destruct (_ || _); [by apply failing_dormant|].
  match goal with |- context [finish_with _ _ _ ?c ?x ?a s1] => pose proof (finish_with_dormant c x a s1 (proj1 D1) (fun _ => D1)) as Hf;
    by destruct (finish_with _ _ _ c x a s1) end.
Qed.

Lemma after_receive_dormant r realm m poses (s : S) : dormant s ->
  dormant (after_receive display_bus display_f64 to_value value_len encode_policy r realm m poses s).2.
Proof.
  intros D. unfold after_receive. destruct (r_phase r); try exact D.
  - by apply identity_dormant.
  - unfold await_reporting_off. apply tick_dormant in D. by destruct (tick s).
  - unfold await_ack. destruct (find_first _ poses); [framed D|done].
  - by apply readback_dormant.
Qed.

Lemma receive_dormant r realm (s : S) : dormant s ->
  dormant (phase_receive display display_bus display_f64 to_value value_len encode_policy r realm s).2.
Proof.
  intros D. unfold phase_receive. destruct (recv_feedback_report _ _ _ _ _ _) as [[[report b] c]|]; [|done].
  set (s1 := set_clock c (set_bus b s)). assert (D1 : dormant s1) by framed D. destruct (target_motor _ s1) as [m|]; [|done].
  match goal with |- context [consume_report_in_context display report ?x s1] => pose proof (consume_spec display report x s1) as Hc;
    destruct (consume_report_in_context display report x s1) as [out s2] end.
  destruct Hc as (_ & [_ (_ & Ha & _ & _ & _ & _ & Hl & _) _ (Hm & _) _] & _).
  set (s3 := update_reservation _ s2).
  assert (D3 : dormant s3).
  { destruct D1 as [G1 I1]. split; [exact (steady_frame s1 s3 Ha Hl Hm G1)|]. unfold inactive. cbn. by rewrite Hm. }
  destruct (fc_error out); [by apply failing_dormant|]. destruct (_ || has_latched_fault s3); [by apply failing_dormant|].
  destruct (negb _); [by apply failing_dormant|by apply after_receive_dormant].
Qed.

Lemma run_phase_dormant r realm (s : S) : dormant s ->
  dormant (run_phase display display_bus display_f64 to_value value_len encode_policy r realm s).2.
Proof.
  intros D. unfold run_phase. destruct (r_phase r); first [exact D | by apply receive_dormant | by apply baseline_dormant
    | by apply request_dormant | by apply arm_dormant | by apply set_zero_dormant].
Qed.

(** ** A live acquisition, and the work as a whole *)

Definition rests (s s' : S) : Prop := guarded s' /\ (inactive s -> inactive s').

Lemma rests_dormant (s s' : S) : dormant s' -> rests s s'.
Proof. intros D. split; [by apply dormant_guarded|intros _; apply D]. Qed.

Lemma rests_kept (s s' : S) : kept s s' -> guarded s -> rests s s'.
Proof. intros K G. split; [by eapply guarded_kept|by apply kept_inactive]. Qed.

Lemma rests_after (s s1 s' : S) : rests s s1 -> (guarded s1 -> rests s1 s') -> rests s s'.
Proof. intros [G1 I1] Hs. destruct (Hs G1) as [G I]. split; [done|auto]. Qed.

Lemma rests_refl (s : S) : guarded s -> rests s s.
Proof. intros G. by split. Qed.

Lemma snapshot_session (s : S) : kept s (reference_snapshot to_value value_len encode_policy s).2.
Proof. apply inspected_session, snapshot_inspected. Qed.

Lemma enter_dormant r t p (s : S) : dormant s -> dormant (enter_phase to_value value_len encode_policy r t p s).2.
Proof.
  intros D. unfold enter_phase. set (entered := if bool_decide _ then Ok s else _).
  assert (He : match entered with Ok s' => dormant s' | _ => True end).
  { unfold entered. destruct (bool_decide _); [done|]. destruct (phase_deadline _ _ _); [|done..]. cbn [rbind]. framed D. }
  destruct entered as [s1|e|]; [|done..]. pose proof (snapshot_session s1) as K. destruct (reference_snapshot _ _ _ s1) as [n s2].
  exact (dormant_kept _ _ K He).
Qed.

Lemma advance_live_rests r (s : S) : w_reservation (rwork s) <> None -> guarded s ->
  rests s (advance_live display display_bus display_f64 to_value value_len encode_policy r s).2.
Proof.
  intros Hr G. unfold advance_live. destruct (backend_realm _) as [realm|]; [|by apply rests_refl].
  destruct (Evidence.mark_owner_work_frame s) as (p & k & ->). set (s1 := set_physical p (set_clock k s)).
  assert (G1 : guarded s1) by by apply (guarded_frame s). unfold backend_now.
  pose proof (guarded_kept _ _ (tick_kept s1) G1) as G2. assert (Hr2 : w_reservation (rwork (tick s1).2) <> None) by (unfold tick; by destruct (now _)).
  destruct (tick s1) as [t s2]. cbn [snd] in G2, Hr2. assert (St : steady s2) by apply G2. apply rests_dormant.
  destruct (_ || _). { apply finish_with_dormant; [done|]. intros [?|?]; done. }
  destruct (has_latched_fault s2 || _). { by apply fail_dormant. }
  destruct (still_bound _ _ r s2) eqn:Eb; cbn [negb]; [|by apply fail_dormant].
  assert (D : dormant s2).
  { split; [done|]. unfold still_bound in Eb. rewrite !andb_true_iff, !bool_decide_eq_true in Eb. unfold inactive. destruct Eb as [[_ ->] _]. done. }
  pose proof (run_phase_dormant r realm s2 D) as D3. destruct (run_phase _ _ _ _ _ _ r realm s2) as [[q|x] s3]; cbn [snd] in D3;
    [by apply enter_dormant|done].
Qed.

Lemma live_reserved h (s : S) r : live_reference h s = Ok r -> w_reservation (rwork s) <> None.
Proof. unfold live_reference. by destruct (w_reservation (rwork s)). Qed.

Lemma advance_rests h (s : S) : guarded s ->
  rests s (advance_reference display display_bus display_reference display_f64 to_value value_len encode_policy h s).2.
Proof.
  intros G. unfold advance_reference.
  assert (G1 : rests s (advance_reference_phase display display_bus display_f64 to_value value_len encode_policy h s).2).
  { unfold advance_reference_phase. destruct (retained_reference h s) as [[t|]|e|]; [..|by apply rests_refl|by apply rests_refl].
    - pose proof (terminal_snapshot_inspected to_value value_len encode_policy t s) as Hi. destruct (snapshot_for_terminal _ _ _ t s) as [n s1].
      exact (rests_kept _ _ (inspected_session _ _ Hi) G).
    - destruct (live_reference h s) as [r|e|] eqn:El; [|by apply rests_refl..]. apply advance_live_rests; [by eapply live_reserved|done]. }
  destruct (advance_reference_phase _ _ _ _ _ _ h s) as [[n|e|] s1]; cbn [snd] in *; [done| |done].
  destruct (w_reservation (rwork s1)) as [r|] eqn:Er; [|done]. destruct (bool_decide _); [|done].
  apply rests_dormant, finish_dormant; [apply G1|]. rewrite Er. intros [?|?]; done.
Qed.

Lemma begin_commit_session h audit (s : S) : kept s (begin_reference_commit to_value value_len encode_policy h audit s).2.
Proof.
  unfold begin_reference_commit. destruct (c_journal _); [|reflexivity]. destruct (negb _); [reflexivity|].
  destruct (entry_for_acquisition _ _); [reflexivity|]. pose proof (inspected_session _ _ (observe_inspected to_value value_len encode_policy s)) as K1.
  set (s1 := observe_reference_commits _ _ _ s) in *. destruct (_ || _); [exact K1|]. destruct (negb _); [exact K1|].
  destruct (find_outcome h (rwork s1)) as [p|]; [|exact K1].
  pose proof (inspected_session _ _ (stage_status_inspected to_value value_len encode_policy p s1)) as K2.
  destruct (retained_stage_status _ _ _ p s1) as [status s2]. cbn [snd] in K2. assert (K : kept s s2) by by etransitivity.
  destruct (negb _); [exact K|]. destruct (c_journal _) as [jr|]; [|exact K]. destruct (w_heap (rwork s2) !! p) as [o|]; [|exact K].
  destruct (submission _ _ _ _) as [[next x]| |]; [|exact K..]. unfold submit_entry. destruct (submit _ x jr) as [[u| |] jr']; [|exact K..].
  etransitivity; [exact K|by split].
Qed.

Lemma continue_session p (s : S) : kept s (continue_pending display_commit to_value value_len encode_policy p s).
Proof.
  unfold continue_pending. set (s1 := set_rwork _ s). assert (K1 : kept s s1) by by split.
  pose proof (snapshot_session s1) as K2. destruct (reference_snapshot _ _ _ s1) as [n s2]. cbn [snd] in K2.
  assert (K : kept s s2) by by etransitivity. destruct (staged_terminal _ _); [|exact K].
  pose proof (begin_commit_session (pd_acquisition p) (pd_audit p) s2) as K3.
  destruct (begin_reference_commit _ _ _ _ _ s2) as [[h|e|] s3]; cbn [snd] in K3; (etransitivity; [exact K|]); [exact K3| |exact K3].
  etransitivity; [exact K3|by split].
Qed.

Lemma settle_entry_session h (s : S) : kept s (settle_entry to_value value_len encode_policy h s).
Proof.
  unfold settle_entry. destruct (collect h (rwork s)) as [found w]. set (s1 := set_rwork w s). assert (K1 : kept s s1) by by split.
  destruct found as [e|]; [|exact K1].
  assert (K2 : kept s1 (select_entry to_value value_len encode_policy e s1).2).
  { unfold select_entry. destruct (_ && _); [|reflexivity].
    pose proof (inspected_session _ _ (stage_status_inspected to_value value_len encode_policy (e_stage e) s1)) as K2.
    destruct (retained_stage_status _ _ _ _ s1) as [status s2]. cbn [snd] in K2.
    destruct (if bool_decide _ then _ else None) as [o|]; [|exact K2].
    assert (Hs : Authority.authority_ok (authority s2) -> Authority.authority_ok (select_current o (nonce (e_job e)) (authority s2)).2).
    { unfold select_current. destruct (o_stage o) as [g|]; [|done]. apply Authority.select_ok. }
    destruct (select_current o _ _) as [[u|] a]; cbn [snd] in *; (etransitivity; [exact K2|]); split; cbn; auto. }
  destruct (select_entry _ _ _ e s1) as [[selected e'] s2]. cbn [snd] in K2. set (s3 := set_rwork _ s2).
  assert (K3 : kept s s3) by (etransitivity; [exact K1|]; etransitivity; [exact K2|by split]).
  destruct (outcome_physical _); [|exact K3]. destruct (Evidence.mark_owner_work_frame s3) as (p & k & ->).
  set (s4 := set_physical p (set_clock k s3)). assert (K4 : kept s s4) by (etransitivity; [exact K3|by split]).
  destruct selected; [|exact K4]. etransitivity; [exact K4|]. apply sync_kept.
Qed.

Lemma commit_snapshot_session h (s : S) : kept s (reference_commit_snapshot to_value value_len encode_policy h s).2.
Proof. apply inspected_session, Grant.commit_snapshot_inspected. Qed.

Lemma waiting_rests h m (s : S) : guarded s -> rests s (advance_waiting display to_value value_len encode_policy h m s).2.
Proof.
  intros G. unfold advance_waiting, waiting_observed.
  destruct (recv_feedback_report _ _ _ _ _ _) as [[[report b] c]|]; [|by apply rests_refl]. cbn [mbind option_bind].
  set (s1 := set_clock c (set_bus b s)). assert (G1 : guarded s1) by by apply (guarded_frame s).
  match goal with |- context [consume_report_in_context display report ?x s1] => pose proof (consume_spec display report x s1) as Hc;
    destruct (consume_report_in_context display report x s1) as [out s2] end.
  destruct Hc as (_ & [_ (_ & Ha & _ & _ & _ & _ & Hl & _) _ (Hm & _) _] & Ht & _).
  set (s3 := set_rwork _ s2). assert (G3 : steady s3) by exact (steady_frame s1 s3 Ha Hl Hm (gd_steady _ G1)).
  set (s4 := if fc_transition out then _ else s3). assert (G4 : rests s s4).
  { unfold s4. rewrite Ht. destruct (negb _ && _) eqn:Et.
    - unfold perform_stop. pose proof (stop_dormant false None s3 G3) as Hs. destruct (stopped_by false None s3) as [[rep q] s']. by apply rests_dormant.
    - split; [split; [exact G3|]|unfold inactive; change (mode (adm s3)) with (mode (adm s2)); by rewrite Hm].
      intros Hl3. change (mode (adm s3)) with (mode (adm s2)). rewrite Hm. apply (gd_fault _ G1).
      destruct (has_latched_fault s1); [done|]. change (has_latched_fault s3) with (has_latched_fault s2) in Hl3. by rewrite Hl3 in Et. }
  set (s5 := if _ || _ then _ else s4). assert (K5 : kept s4 s5) by (unfold s5; destruct (_ || hardware_estop s4); [by split|reflexivity]).
  apply (rests_after s s4); [done|]. apply rests_kept. etransitivity; [exact K5|].
  etransitivity; [apply inspected_session, (observe_inspected to_value value_len encode_policy)|].
  etransitivity; [apply settle_entry_session|apply commit_snapshot_session].
Qed.

(** The loop's reference cycle keeps the invariant and does not enter Active. *)
Lemma advance_work_rests (s : S) : guarded s ->
  rests s (advance_reference_work display display_bus display_reference display_commit display_f64 to_value value_len encode_policy s).2.
Proof.
  intros G. unfold advance_reference_work. pose proof (rests_kept _ _ (snapshot_session s) G) as G1.
  destruct (reference_snapshot _ _ _ s) as [n s1]. cbn [snd] in G1. apply (rests_after s s1); [done|]. clear G G1. intros G1.
  destruct (if reserved _ then _ else None) as [h|].
  - pose proof (advance_rests h s1 G1) as G2. by destruct (advance_reference _ _ _ _ _ _ _ h s1) as [[u|e|] s2].
  - destruct (w_pending_commit _) as [p|]; [exact (rests_kept _ _ (continue_session p s1) G1)|].
    destruct (c_pending _) as [|e es]; [by apply rests_refl|].
    assert (G2 : rests s1 (advance_reference_commit display to_value value_len encode_policy (e_handle e) s1).2).
    { unfold advance_reference_commit. destruct (get _ _) as [e'|x|]; [|by apply rests_refl..]. destruct (reserved _); [by apply rests_refl|].
      destruct (negb _); [exact (rests_kept _ _ (commit_snapshot_session _ s1) G1)|]. destruct (_ ≫= _) as [m|]; [|by apply rests_refl].
      by apply waiting_rests. }
    by destruct (advance_reference_commit _ _ _ _ (e_handle e) s1) as [[u|x|] s2].
Qed.

End WorkGuard.
End WorkGuard.
