(* ===== verification/LoopSafety.v ===== *)
(** * LoopSafety: what the control loop keeps

    Theorems about [Loop] and [LoopTick].  An invariant of the supervisor that
    its own operations keep ([LoopInvariant], discharged by [Guard]) is kept by
    every operator command and every tick; from it: a failed tick fails closed, a
    tick never enters Active, an episode refuses motion, a stop seen late discards
    what was latched before it. *)

From Stdlib Require Import ZArith Lia Bool SpecFloat.
From stdpp Require Import base gmap strings list.
From S2P Require Import Prelude Float Comm Config Limits TotalTorque Params Mit Bus Reporting Faults Davout Filter Admission Authority Physical Lifecycle Stop Session Grants Enable Activation Position Friction Setpoint Gains PosHold HoldTick Facets Dynamics Loop LoopTick Guard Reference Acquire Commit WorkGuard Owner.

Module LoopSafety.
Import Bus Faults Davout Filter Admission Lifecycle Stop Session Grants Enable Activation Position Friction Setpoint Gains PosHold Facets Dynamics Loop LoopTick Guard.

(** ** Computations that keep a predicate *)

Section Rules.
Context {S E : Type} (P : S -> Prop).

Definition preserves {A : Type} (m : st S E A) : Prop := forall s, P s -> P (m s).2.

Lemma pres_ret {A} (a : A) : preserves (ret a).
Proof. intros s Hs. exact Hs. Qed.
Lemma pres_throw {A} (e : E) : preserves (throw (A := A) e).
Proof. intros s Hs. exact Hs. Qed.
Lemma pres_get : preserves get.
Proof. intros s Hs. exact Hs. Qed.
Lemma pres_result {A} (r : result E A) : preserves (of_result r).
Proof. intros s Hs. exact Hs. Qed.
Lemma pres_modify (f : S -> S) : (forall s, P s -> P (f s)) -> preserves (modify f).
Proof. intros Hf s Hs. exact (Hf s Hs). Qed.
Lemma pres_bind {A C} (m : st S E A) (k : A -> st S E C) : preserves m -> (forall a, preserves (k a)) -> preserves (sbind m k).
Proof.
  intros Hm Hk s Hs. specialize (Hm s Hs). unfold sbind. destruct (m s) as [[a|e|] s1]; [by apply Hk|done..].
Qed.
Lemma pres_when (b : bool) (m : st S E unit) : preserves m -> preserves (when b m).
Proof. intros Hm. destruct b; [done|apply pres_ret]. Qed.
Lemma pres_each {A} (f : A -> st S E unit) (l : list A) : (forall x, preserves (f x)) -> preserves (for_each f l).
Proof. intros Hf. induction l as [|x l IH]; cbn [for_each]; [apply pres_ret|by apply pres_bind]. Qed.
Lemma pres_map {A C} (f : A -> st S E C) (l : list A) : (forall x, preserves (f x)) -> preserves (map_each f l).
Proof.
  intros Hf. induction l as [|x l IH]; cbn [map_each]; [apply pres_ret|]. apply pres_bind; [done|]. intros y.
  apply pres_bind; [done|]. intros ys. apply pres_ret.
Qed.
Lemma pres_find {A} (p : A -> st S E bool) (l : list A) : (forall x, preserves (p x)) -> preserves (find_each p l).
Proof.
  intros Hp. induction l as [|x l IH]; cbn [find_each]; [apply pres_ret|]. apply pres_bind; [done|]. intros []; [apply pres_ret|done].
Qed.

End Rules.

Create HintDb loop.
#[export] Hint Resolve pres_ret pres_throw pres_get pres_result : loop.

(** Walk through a computation: split binds, loops and branches, and leave the
    calls the hints do not know. *)
Ltac walk :=
  repeat first
    [ progress intros
    | solve [auto with loop]
    | apply pres_bind
    | apply pres_when
    | apply pres_each
    | apply pres_map
    | apply pres_find
    | match goal with
      | |- preserves _ (match ?x with _ => _ end) => destruct x
      end ].

Section Loop.
Context {B : Type} `{CanBus B} {R : Type} `{ReferenceWork R}.
Variable observed : Observer B R.
Variable display : DavoutError -> string.
Variable fuel : nat.
Variables exp tanh cos sin : f64 -> f64.
Variable dynamics : DynamicsModel.
Variable subtree_joints : string -> result DynamicsError (list nat).
Variable advance_work : Sup B R -> result string unit * Sup B R.
Variable chappe : option (list JointState -> bool).

Abbreviation CL := (ControlLoop B R).
Abbreviation L A := (st (ControlLoop B R) LoopError A).
Abbreviation tick_once := (loop_tick observed display exp tanh cos sin dynamics advance_work chappe).

(** Kept by every step that keeps the session: clock readings, observations,
    revocations. *)
Class KeptInvariant (I : Sup B R -> Prop) : Prop := li_kept : forall s s', kept s s' -> I s -> I s'.

(** What the loop asks of the supervisor: [I] survives its operations.  With
    [closed], [I] excludes Active; otherwise the enable path keeps it too. *)
Class LoopInvariant (closed : bool) (I : Sup B R -> Prop) : Prop := {
  li_drain : forall s, I s -> I (drain_feedback observed display s).2;
  li_send : forall cmds s, I s -> I (send_mit_batch observed display cmds s).2;
  li_check : forall s, I s -> I (check_active_references observed display s).2;
  li_lower : forall s, I s -> I (complete_degraded_lower observed s).2;
  li_stop : forall s, I s -> I (disable_all observed s).2;
  li_latch : forall m j s, I s -> I (latch_control_fault observed m j s);
  li_install : forall ps s, I s -> I (install_drive_loss_plans ps s).2;
  li_advance : forall s, I s -> I (advance_work s).2;
  li_enable : if closed then forall s, I s -> inactive s
              else (forall files s, I s -> I (resolve_enable_targets observed display files s).2)
                   /\ (forall js s, I s -> I (enable_targets observed display fuel js s).2)
}.

Section Invariant.
Context {closed : bool} {I : Sup B R -> Prop} `{!KeptInvariant I}.

Definition held (l : CL) : Prop := I (supervisor l) /\ (closed = true -> implicit_enable_forbidden l = true).

Abbreviation keeps m := (preserves (E := LoopError) held m).

Lemma held_ask {A} (f : Sup B R -> A * Sup B R) : (forall s, I s -> I (f s).2) -> keeps (ask f).
Proof. intros Hf l [Hi Hc]. unfold ask. specialize (Hf _ Hi). destruct (f (supervisor l)). by split. Qed.
Lemma held_drive {A} (f : Sup B R -> result DavoutError A * Sup B R) : (forall s, I s -> I (f s).2) -> keeps (drive f).
Proof. intros Hf l [Hi Hc]. unfold drive. specialize (Hf _ Hi). destruct (f (supervisor l)). by split. Qed.
Lemma held_tell (f : Sup B R -> Sup B R) : (forall s, I s -> I (f s)) -> keeps (tell f).
Proof. intros Hf l [Hi Hc]. split; [exact (Hf _ Hi)|exact Hc]. Qed.
Lemma held_motion (f : Motion -> Motion) : keeps (on_motion f).
Proof. intros l Hl. exact Hl. Qed.
Lemma held_seen (f : Seen -> Seen) : keeps (on_seen f).
Proof. intros l Hl. exact Hl. Qed.
Lemma held_hold (f : PositionHold -> result Empty_set PositionHold) : keeps (on_hold f).
Proof. intros l []. unfold on_hold. destruct (f _) as [h|[]|]; by split. Qed.
Lemma held_kept {A} (f : Sup B R -> A * Sup B R) : (forall s, kept s (f s).2) -> keeps (ask f).
Proof. intros Hf. apply held_ask. intros s Hs. eapply li_kept; [apply Hf|exact Hs]. Qed.
Lemma held_frame (f : CL -> CL) :
  (forall l, supervisor (f l) = supervisor l /\ implicit_enable_forbidden (f l) = implicit_enable_forbidden l) -> keeps (modify f).
Proof. intros Hf. apply pres_modify. intros l [Hi Hc]. destruct (Hf l) as [Hs Hb]. split; by rewrite ?Hs, ?Hb. Qed.

Hint Resolve held_motion held_seen held_hold feedback_kept homing_state_kept drive_active_kept wire_kept busy_kept tick_kept : loop.
Hint Extern 2 (keeps (ask _)) => apply held_kept; auto with loop : loop.
Hint Extern 3 (keeps (drive _)) => apply held_drive; solve [auto with loop] : loop.
Hint Extern 3 (keeps (tell _)) => apply held_tell; solve [auto with loop] : loop.
Hint Extern 3 (keeps (modify _)) => apply held_frame; done : loop.

Lemma held_has_feedback (j : string) : keeps (has_joint_feedback j).
Proof. unfold has_joint_feedback. walk. Qed.
Lemma held_position (j : string) : keeps (joint_position j).
Proof. unfold joint_position. walk. Qed.
Lemma held_velocity (j : string) : keeps (joint_velocity j).
Proof. unfold joint_velocity. walk. Qed.
Lemma held_torque (j : string) : keeps (joint_torque j).
Proof. unfold joint_torque. walk. Qed.
Hint Resolve held_has_feedback held_position held_velocity held_torque : loop.

Lemma held_read : keeps read_positions.
Proof. unfold read_positions. walk. Qed.

Lemma held_seed (only : bool) : keeps (drive (seed_tau_ff_from_measured only)).
Proof. apply held_drive. intros s Hs. eapply li_kept; [apply seed_kept|done]. Qed.

Lemma held_mode_inner (m : ControlMode) : keeps (set_control_mode_inner observed m).
Proof.
  unfold set_control_mode_inner. walk; try apply held_seed. apply held_tell. intros s Hs. eapply li_kept; [apply control_mode_kept|done].
Qed.
Hint Resolve held_read held_mode_inner : loop.

Lemma held_discard : keeps (discard_motion_intent observed).
Proof. unfold discard_motion_intent. walk. Qed.
Lemma held_follow : keeps follow_stop_generation.
Proof. apply held_frame. done. Qed.
Hint Resolve held_discard held_follow : loop.

Lemma held_sync : keeps (synchronize_stop_generation observed).
Proof. unfold synchronize_stop_generation. walk. Qed.
Lemma held_latch_q (q : list f64) : keeps (latch_position_from_q q).
Proof. unfold latch_position_from_q. walk. Qed.
Hint Resolve held_sync held_latch_q : loop.

Lemma held_arm (q : list f64) : keeps (arm_from_measured q).
Proof. unfold arm_from_measured. walk. Qed.
Lemma held_completion : keeps enable_completion.
Proof. unfold enable_completion. walk. Qed.
Lemma held_refuse : keeps refuse_degraded.
Proof. unfold refuse_degraded. walk. Qed.
Lemma held_retarget (i : nat) (q r : f64) (v : SpeedFraction) : keeps (apply_joint_retarget i q r v).
Proof. unfold apply_joint_retarget. walk. Qed.
Hint Resolve held_arm held_completion held_refuse held_retarget : loop.

(** ** Episodes *)

Lemma held_enter_degraded : keeps (enter_degraded_hold observed).
Proof. unfold enter_degraded_hold. walk. Qed.
Hint Resolve held_enter_degraded : loop.
Lemma held_observe : keeps (observe_degraded_episode observed).
Proof. unfold observe_degraded_episode. walk. Qed.
Hint Resolve held_observe : loop.
(** Operations that may end the session. *)
Context `{!LoopInvariant closed I}.

Hint Extern 1 (I _) => first [apply li_drain | apply li_send | apply li_check | apply li_lower | apply li_stop | apply li_latch
  | apply li_install | apply li_advance] : loop.
Lemma held_refresh : keeps (refresh_joint_positions observed display).
Proof.
  unfold refresh_joint_positions. apply pres_bind; [auto with loop|]. intros _ l [Hi Hc].
  pose proof (li_drain (supervisor l) Hi) as Hd. destruct (drain_feedback observed display (supervisor l)) as [r s]. cbn [snd] in Hd.
  assert (Hs : held (set_sup s l)) by done. destruct (r ;! _); [by apply held_read| |done].
  revert Hs. generalize (set_sup s l). change (keeps (discard_motion_intent observed ;* follow_stop_generation ;* throw (A := list f64) (LSafety e))).
  walk.
Qed.
Hint Resolve held_refresh : loop.

Lemma held_setpoint (j : string) (x : f64) (v : option f64) : keeps (set_joint_position_setpoint_at_speed observed display j x v).
Proof. unfold set_joint_position_setpoint_at_speed. walk. Qed.
Lemma held_mode (m : ControlMode) : keeps (set_control_mode observed m).
Proof. unfold set_control_mode. walk. Qed.
Lemma held_refuse_intent (op : string) : keeps (refuse_reference_intent observed op).
Proof. unfold refuse_reference_intent. walk. Qed.
Hint Resolve held_setpoint held_mode held_refuse_intent : loop.

Lemma held_try_mode (m : ControlMode) : keeps (try_set_control_mode observed m).
Proof. unfold try_set_control_mode. walk. Qed.
Lemma held_torque_zero : keeps (enter_torque_only_zero observed).
Proof. unfold enter_torque_only_zero. walk. Qed.
Lemma held_torque_cmd (j : string) (tau : f64) : keeps (set_torque_cmd observed j tau).
Proof. unfold set_torque_cmd. walk. Qed.

Lemma held_ensure (files : EnableFiles) : keeps (ensure_active_for_motion observed display fuel files).
Proof.
  unfold ensure_active_for_motion. apply pres_bind; [auto with loop|]. intros _. apply pres_bind; [auto with loop|]. intros _.
  intros l Hl. pose proof (li_enable (closed := closed) (I := I)) as He. unfold get at 1, sbind at 1. cbn beta iota.
  destruct closed eqn:Ec.
  - destruct Hl as [Hi Hc]. rewrite bool_decide_false by exact (He _ Hi). rewrite (Hc Ec). by split.
  - destruct He as [Hr He]. revert l Hl. assert (Ht : forall l : CL, keeps (if bool_decide (sup_mode (supervisor l) = Active)
        then ret (elements (active_joints (adm (supervisor l)))) else if implicit_enable_forbidden l then throw LExplicitEnableRequired
        else drive (resolve_enable_targets observed display files))).
    { intros l. walk. }
    intros l Hl. revert Hl. refine (pres_bind _ _ _ (Ht l) _ l). intros js. apply held_drive. auto.
Qed.
Hint Resolve held_ensure : loop.

Lemma held_motion_positions (files : EnableFiles) : keeps (motion_positions observed display fuel files).
Proof. unfold motion_positions. walk. Qed.
Hint Resolve held_motion_positions : loop.

Lemma held_enter (files : EnableFiles) : keeps (enter_position_hold observed display fuel files).
Proof. unfold enter_position_hold. walk. Qed.
Lemma held_enter_at (files : EnableFiles) (j : option string) (x : f64) (v : option f64) :
  keeps (enter_position_hold_at_speed observed display fuel files j x v).
Proof. unfold enter_position_hold_at_speed. walk. Qed.
Lemma held_wave (files : EnableFiles) (j : string) (lo hi : f64) (n : Z) (t : f64) :
  keeps (start_position_wave observed display fuel files j lo hi n t).
Proof. unfold start_position_wave. walk. Qed.
Lemma held_gain (j : string) (g : GainOverride) : keeps (apply_gain_override observed j g).
Proof. unfold apply_gain_override. walk. Qed.

Lemma held_take : keeps (take_degraded_events observed).
Proof. unfold take_degraded_events. walk. Qed.
Lemma held_request : keeps (request_degraded_lower observed).
Proof. unfold request_degraded_lower. walk. Qed.
Lemma held_cause (c : DegradedControl) : keeps (lower_cause c).
Proof. unfold lower_cause. walk. Qed.
Hint Resolve held_cause : loop.
Lemma held_advance_phase (q : list f64) : keeps (advance_degraded_phase q).
Proof. unfold advance_degraded_phase. walk. Qed.
Lemma held_complete (q : list f64) : keeps (complete_degraded_lower_at_rest observed q).
Proof. unfold complete_degraded_lower_at_rest. walk. apply held_ask. auto with loop. Qed.
Lemma held_admit_loss : keeps (admit_drive_loss dynamics subtree_joints).
Proof. unfold admit_drive_loss. walk. Qed.
Hint Resolve held_advance_phase held_complete : loop.

(** ** The cycle *)

Lemma held_gaps (peers : bool) : keeps (feedback_gaps peers).
Proof. unfold feedback_gaps. walk. Qed.
Lemma held_params (l : CL) (r : list ResolvedGains) (i : nat) (j : string) : keeps (hold_params l r i j).
Proof. unfold hold_params. walk. Qed.
Hint Resolve held_gaps held_params : loop.
Lemma held_position_batch (q tau : list f64) : keeps (position_batch observed exp tanh cos sin q tau).
Proof. unfold position_batch. walk. Qed.
Lemma held_direct_joint (l : CL) (q tau : list f64) (r : list ResolvedGains) (i : nat) (j : string) : keeps (direct_joint l q tau r i j).
Proof. unfold direct_joint. walk. Qed.
Hint Resolve held_position_batch held_direct_joint : loop.
Lemma held_direct_batch (q tau : list f64) : keeps (direct_batch tanh q tau).
Proof. unfold direct_batch. walk. Qed.
Hint Resolve held_direct_batch : loop.
Lemma held_command (q : list f64) : keeps (command_cycle observed display exp tanh cos sin dynamics q).
Proof. unfold command_cycle. walk. Qed.
Lemma held_keepalive (q : list f64) : keeps (keepalive_cycle observed display q).
Proof. unfold keepalive_cycle. walk. Qed.
Lemma held_joint_state (j : string) (x : f64) : keeps (joint_state observed j x).
Proof. unfold joint_state. walk. Qed.
Hint Resolve held_command held_keepalive held_joint_state : loop.
Lemma held_publish (p : list JointState -> bool) (q : list f64) : keeps (publish_robot_state_counted observed p q).
Proof. unfold publish_robot_state_counted. walk. Qed.
Hint Resolve held_publish : loop.
Lemma held_telemetry (q : list f64) : keeps (telemetry observed chappe q).
Proof. unfold telemetry. walk. Qed.
Lemma held_count : keeps count_tick.
Proof. unfold count_tick. walk. Qed.
Hint Resolve held_telemetry held_count : loop.

Lemma held_reference : keeps (reference_cycle observed advance_work chappe).
Proof.
  unfold reference_cycle. walk. intros l [Hi Hc]. pose proof (li_advance _ Hi) as Ha. destruct (advance_work (supervisor l)) as [r s]. by split.
Qed.
Lemma held_look (needs : bool) : keeps (look observed display needs).
Proof. unfold look. walk. Qed.
Lemma held_session : keeps note_enable_session.
Proof. apply held_frame. intros l. cbv beta zeta. by destruct (_ && _). Qed.
Lemma held_grace (b : bool) : keeps (count_grace b).
Proof. unfold count_grace. walk. Qed.
Hint Resolve held_reference held_look held_session held_grace : loop.
Lemma held_begin : keeps (tell begin_tick_feedback).
Proof. apply held_tell. intros s Hs. eapply li_kept; [apply begin_feedback_kept|done]. Qed.
Hint Resolve held_begin : loop.
Lemma held_motion_cycle : keeps (motion_cycle observed display exp tanh cos sin dynamics chappe).
Proof. unfold motion_cycle. walk. Qed.
Hint Resolve held_motion_cycle : loop.
Lemma held_inner : keeps (tick_inner observed display exp tanh cos sin dynamics advance_work chappe).
Proof. unfold tick_inner. walk. Qed.
Lemma held_settle (e : LoopError) : keeps (settle_error observed e).
Proof. unfold settle_error. walk. Qed.
Lemma held_overrun (t : Z) : keeps (count_overrun t).
Proof. unfold count_overrun. walk. Qed.
Hint Resolve held_settle held_overrun : loop.

Lemma held_tick : keeps tick_once.
Proof.
  unfold loop_tick. apply pres_bind; [auto with loop|]. intros start. apply pres_bind; [auto with loop|]. intros _ l Hl.
  pose proof (held_inner l Hl) as Hi. destruct (tick_inner _ _ _ _ _ _ _ _ _ l) as [[u|e|] l1]; cbn [snd] in Hi; [..|done]; revert Hi.
  - generalize l1. change (keeps (count_overrun start ;* observe_degraded_episode observed)). walk.
  - generalize l1. change (keeps (count_overrun start ;* settle_error observed e ;* observe_degraded_episode observed ;* throw (A := unit) e)). walk.
Qed.

End Invariant.

(** ** Operator commands *)

(** The calls of the loop's owner: its own operations, and through
    [supervisor_mut] an Enable of chosen joints and the stop. *)
Inductive LoopCommand : Type :=
| Tick
| SetMode (m : ControlMode)
| TrySetMode (m : ControlMode)
| TorqueZero
| SetTorque (joint : string) (tau_nm : f64)
| SetTarget (joint : string) (position_rad : f64) (speed : option f64)
| EnterHold (files : EnableFiles)
| HoldAt (files : EnableFiles) (joint : option string) (position_rad : f64) (speed : option f64)
| StartWave (files : EnableFiles) (joint : string) (min_rad max_rad : f64) (cycles : Z) (half_period_sec : f64)
| OverrideGain (joint : string) (g : GainOverride)
| ClearGain (joint : string)
| ClearHold
| Inhibit
| AllowImplicit (allow : bool)
| RequestLower
| TakeEvents
| AdmitLoss
| Enable (joints : list string)
| DisableAll.

Definition exec_command (c : LoopCommand) : L unit :=
  match c with
  | Tick => tick_once
  | SetMode m => set_control_mode observed m
  | TrySetMode m => try_set_control_mode observed m
  | TorqueZero => enter_torque_only_zero observed
  | SetTorque j tau => set_torque_cmd observed j tau
  | SetTarget j x v => set_joint_position_setpoint_at_speed observed display j x v
  | EnterHold files => enter_position_hold observed display fuel files
  | HoldAt files j x v => enter_position_hold_at_speed observed display fuel files j x v
  | StartWave files j lo hi n t => start_position_wave observed display fuel files j lo hi n t ;* ret tt
  | OverrideGain j g => apply_gain_override observed j g
  | ClearGain j => clear_gain_override j
  | ClearHold => clear_position_hold
  | Inhibit => inhibit_motion_for_shutdown observed
  | AllowImplicit b => if b : bool then allow_implicit_enable else forbid_implicit_enable
  | RequestLower => request_degraded_lower observed
  | TakeEvents => take_degraded_events observed ;* ret tt
  | AdmitLoss => admit_drive_loss dynamics subtree_joints ;* ret tt
  | Enable js => drive (enable_targets observed display fuel js)
  | DisableAll => tell (fun s => (disable_all observed s).2)
  end.

(** The states a sequence of allowed commands, ticks among them, can lead to. *)
Inductive reachable (allowed : LoopCommand -> Prop) (l0 : CL) : CL -> Prop :=
| reach_start : reachable allowed l0 l0
| reach_step (l : CL) (c : LoopCommand) : reachable allowed l0 l -> allowed c -> reachable allowed l0 (exec_command c l).2.

(** Neither an explicit Enable nor leave to enable implicitly. *)
Definition no_enable (c : LoopCommand) : Prop :=
  match c with Enable _ | AllowImplicit true => False | _ => True end.

Lemma held_command_step {closed I} `{!KeptInvariant I, !LoopInvariant closed I} (c : LoopCommand) :
  (closed = true -> no_enable c) -> preserves (@held closed I) (exec_command c).
Proof.
  intros Hc. destruct c; cbn [exec_command].
  - apply held_tick. - apply held_mode. - apply held_try_mode. - apply held_torque_zero. - apply held_torque_cmd.
  - apply held_setpoint. - apply held_enter. - apply held_enter_at.
  - apply pres_bind; [apply held_wave|auto with loop]. - apply held_gain. - apply held_motion. - apply held_motion. - apply held_discard.
  - destruct allow; apply pres_modify; intros l [Hi Hf]; split; [exact Hi| |exact Hi|done].
    intros E. destruct (Hc E).
  - apply held_request. - apply pres_bind; [apply held_take|auto with loop]. - apply pres_bind; [apply held_admit_loss|auto with loop].
  - pose proof (li_enable (closed := closed) (I := I)) as He. destruct closed; [destruct (Hc eq_refl)|]. apply held_drive, He.
  - apply held_tell. apply li_stop.
Qed.

Lemma held_reachable {closed I} `{!KeptInvariant I, !LoopInvariant closed I} (allowed : LoopCommand -> Prop) (l0 l : CL) :
  (closed = true -> forall c, allowed c -> no_enable c) -> reachable allowed l0 l -> @held closed I l0 -> @held closed I l.
Proof. intros Ha Hr H1. induction Hr as [|l c _ IH Hc]; [done|]. apply held_command_step; auto. Qed.

(** ** Discarding intent *)

(** Nothing is commanded. *)
Definition stood_down (m : Motion) : Prop :=
  control_mode m = CDisabled /\ position_wave m = None /\ torque_cmds m = ∅ /\ grace_ticks m = 0
  /\ is_armed (position_hold m) = false /\ overrides (gains m) = ∅.

Definition idle (m : Motion) : Motion :=
  mkMotion CDisabled (PosHold.clear (position_hold m)) [] (mkRuntime ∅ None (ramp_ticks (gains m))) ∅ None 0.

Lemma idle_down (m : Motion) : stood_down (idle m).
Proof. repeat split. Qed.

Lemma discard_spec (l : CL) :
  discard_motion_intent observed l
  = (Ok tt, set_sup (Lifecycle.set_control_mode observed CDisabled (supervisor l)) (set_motion (idle (motion l)) l)).
Proof.
  unfold discard_motion_intent, set_control_mode_inner.
  unfold sbind, get, when, on_motion, modify, tell. cbn.
  destruct (control_mode (motion l)) eqn:E; cbn; rewrite ?E; reflexivity.
Qed.

Lemma sync_spec (l : CL) :
  sup_stop_generation (supervisor l) <> last_stop_generation (seen l) ->
  synchronize_stop_generation observed l
  = (Ok tt, set_seen (with_stop_generation (sup_stop_generation (supervisor l)) (seen l))
       (set_sup (Lifecycle.set_control_mode observed CDisabled (supervisor l)) (set_motion (idle (motion l)) l))).
Proof.
  intros Hg. unfold synchronize_stop_generation. unfold sbind at 1, get at 1. apply Z.eqb_neq in Hg. rewrite Hg. cbn [negb when].
  unfold sbind. by rewrite discard_spec.
Qed.

(** ** Computations that do not fail *)

Definition calm {A : Type} (m : L A) : Prop := forall l e, (m l).1 <> Err e.

Lemma calm_bind {A C} (m : L A) (k : A -> L C) : calm m -> (forall a, calm (k a)) -> calm (sbind m k).
Proof. intros Hm Hk l e. specialize (Hm l). unfold sbind. destruct (m l) as [[a|x|] l1]; [apply Hk|by destruct (Hm x)|done]. Qed.
Lemma calm_each {A} (f : A -> L unit) (xs : list A) : (forall x, calm (f x)) -> calm (for_each f xs).
Proof. intros Hf. induction xs as [|x xs IH]; cbn [for_each]; [done|by apply calm_bind]. Qed.
Lemma calm_map {A C} (f : A -> L C) (xs : list A) : (forall x, calm (f x)) -> calm (map_each f xs).
Proof. intros Hf. induction xs as [|x xs IH]; cbn [map_each]; [done|]. apply calm_bind; [done|]. intros y. by apply calm_bind. Qed.
Lemma calm_ask {A} (f : Sup B R -> A * Sup B R) : calm (ask f).
Proof. intros l e. unfold ask. by destruct (f (supervisor l)). Qed.
Lemma calm_hold (f : PositionHold -> result Empty_set PositionHold) : calm (on_hold f).
Proof. intros l e. unfold on_hold. by destruct (f _) as [h|[]|]. Qed.

Lemma seed_calm (only : bool) (ms : list Config.MotorEntry) : forall (s : Sup B R) e, (seed_each only ms s).1 <> Err e.
Proof.
  induction ms as [|m ms IH]; intros s e; cbn [seed_each]; [done|]. destruct (_ && _); [apply IH|].
  destruct (joint_torque_rad _ s) as [t s1]. unfold fclamp. destruct (fle _ _); [apply IH|done].
Qed.

Lemma calm_seed (only : bool) : calm (drive (seed_tau_ff_from_measured only)).
Proof.
  intros l e. unfold drive, seed_tau_ff_from_measured. pose proof (seed_calm only (motors (adm (supervisor l))) (supervisor l)) as Hs.
  destruct (seed_each _ _ _) as [[u|x|] s]; [done|by destruct (Hs x)|done].
Qed.

Ltac peel := repeat match goal with |- calm (sbind _ _) => apply calm_bind; [|intros ?] end.

Lemma calm_observe : calm (observe_degraded_episode observed).
Proof.
  assert (Hw : forall (b : bool) (m : L unit), calm m -> calm (when b m)) by (intros [] m Hm; [exact Hm|done]).
  assert (He : calm (enter_degraded_hold observed)).
  { unfold enter_degraded_hold. apply calm_bind; [done|]. intros l0. destruct (episode _) as [ep|]; [|done].
    peel; try done.
    - unfold read_positions. apply calm_bind; [done|]. intros l. apply calm_bind; [|done]. apply calm_map. intros j.
      unfold joint_position. apply calm_bind; [apply calm_ask|done].
    - unfold set_control_mode_inner. peel; try apply Hw; try done.
      destruct (_ && _); [apply calm_seed|]. destruct (_ && _); [apply calm_seed|done].
    - unfold latch_position_from_q. apply calm_bind; [done|]. intros _. apply calm_bind; [done|]. intros l. apply calm_each.
      intros [i j]. apply calm_bind; [|intros dq; apply calm_hold]. unfold joint_velocity. apply calm_bind; [apply calm_ask|done]. }
  unfold observe_degraded_episode. apply calm_bind; [done|]. intros l. destruct (episode _), (degraded l); try done.
Qed.

(** ** A failed tick *)

#[local] Instance kept_from (s0 : Sup B R) : KeptInvariant (kept s0).
Proof. intros s s' K K0. by etransitivity. Qed.

Lemma observe_spec (l : CL) :
  let l' := (observe_degraded_episode observed l).2 in
  kept (supervisor l) (supervisor l') /\ (episode (loss (supervisor l)) = None -> motion l' = motion l).
Proof.
  split.
  - apply (held_observe (closed := false) (I := kept (supervisor l)) l). by split.
  - intros E. unfold observe_degraded_episode, sbind, get. rewrite E. by destruct (degraded l).
Qed.

Lemma fault_drops (e : LoopError) : fault_of e <> None -> drops_intent e = true.
Proof. destruct e; cbn; auto; by intros []. Qed.

Lemma settle_error_spec (e : LoopError) (l : CL) :
  let s1 := match fault_of e with Some (m, j) => latch_control_fault observed m j (supervisor l) | None => supervisor l end in
  exists l', settle_error observed e l = (Ok tt, l') /\ kept s1 (supervisor l')
    /\ (drops_intent e = true -> motion l' = idle (motion l)).
Proof.
  intros s1. unfold settle_error.
  assert (E1 : (match fault_of e with Some (m, j) => tell (latch_control_fault observed m j) | None => ret tt end) l = (Ok tt, set_sup s1 l)).
  { unfold s1. destruct (fault_of e) as [[m j]|]; [reflexivity|]. by destruct l. }
  unfold sbind at 1. rewrite E1. destruct (drops_intent e); cbn [when].
  - unfold sbind. rewrite discard_spec. eexists. split; [reflexivity|]. split; [apply control_mode_kept|done].
  - eexists. split; [reflexivity|]. split; [reflexivity|done].
Qed.

Lemma overrun_spec (t : Z) (l : CL) : exists l', count_overrun t l = (Ok tt, l') /\ kept (supervisor l) (supervisor l') /\ motion l' = motion l.
Proof.
  unfold count_overrun, sbind, ask, get. pose proof (tick_kept (supervisor l)) as K. destruct (tick (supervisor l)) as [x s]. cbn [snd] in K.
  destruct (_ <? _); eexists; (split; [reflexivity|by split]).
Qed.

Lemma sync_ok (l : CL) : exists l', synchronize_stop_generation observed l = (Ok tt, l').
Proof.
  destruct (Z.eq_dec (sup_stop_generation (supervisor l)) (last_stop_generation (seen l))) as [E|E]; [|eexists; by apply sync_spec].
  eexists. unfold synchronize_stop_generation, sbind at 1, get at 1. apply Z.eqb_eq in E. rewrite E. reflexivity.
Qed.

(** A failing tick ran its cycle up to the error and then settled it. *)
Lemma tick_error (l l' : CL) (e : LoopError) :
  tick_once l = (Err e, l') ->
  exists l0 l1 l2 start, synchronize_stop_generation observed (set_sup (tick (supervisor l)).2 l) = (Ok tt, l0)
    /\ tick_inner observed display exp tanh cos sin dynamics advance_work chappe l0 = (Err e, l1)
    /\ (count_overrun start ;* settle_error observed e) l1 = (Ok tt, l2)
    /\ l' = (observe_degraded_episode observed l2).2.
Proof.
  unfold loop_tick. unfold sbind at 1, ask at 1. destruct (tick (supervisor l)) as [start s]. cbn [snd].
  destruct (sync_ok (set_sup s l)) as [l0 E0]. unfold sbind at 1. rewrite E0.
  destruct (tick_inner _ _ _ _ _ _ _ _ _ l0) as [[u|x|] l1] eqn:E1; [..|discriminate].
  - unfold sbind. destruct (overrun_spec start l1) as (l2 & -> & _). intros E2. pose proof (calm_observe l2 e) as Hc. by rewrite E2 in Hc.
  - unfold sbind. destruct (overrun_spec start l1) as (l2 & Eo & _). rewrite Eo. destruct (settle_error_spec x l2) as (l3 & Es & _). rewrite Es.
    pose proof (calm_observe l3) as Hc. destruct (observe_degraded_episode observed l3) as [[u|y|] l4] eqn:E4; [|by destruct (Hc y)|discriminate].
    intros [= <- <-]. exists l0, l1, l3, start. split; [done|]. split; [done|]. split; [by rewrite Eo|by rewrite E4].
Qed.

Section Results.
Hypothesis advance_rests : forall s, guarded s -> guarded (advance_work s).2 /\ (inactive s -> inactive (advance_work s).2).

#[local] Instance guarded_session : KeptInvariant (guarded (B := B) (R := R)).
Proof. intros s s'. apply guarded_kept. Qed.

#[local] Instance guarded_loop : LoopInvariant false guarded.
Proof.
  split; auto using drain_guarded, send_guarded, check_active_guarded, install_guarded, resolve_guarded, enable_guarded.
  - intros s. exact (stop_ending_guarded observed _ s).
  - intros s G. by apply disable_guarded, G.
  - intros m j s G. by apply latch_control_guarded.
  - intros s G. by apply advance_rests.
Qed.

Definition resting (s : Sup B R) : Prop := guarded s /\ inactive s.

#[local] Instance resting_session : KeptInvariant resting.
Proof. intros s s' K [G Hs]. split; [by eapply guarded_kept|by eapply kept_inactive]. Qed.

#[local] Instance resting_loop : LoopInvariant true resting.
Proof.
  split.
  - intros s [G Hs]. split; [by apply drain_guarded|by apply drain_inactive].
  - intros c s [G Hs]. split; [by apply send_guarded|by apply send_inactive].
  - intros s [G Hs]. split; [by apply check_active_guarded|by apply check_active_inactive].
  - intros s [G Hs]. split; [by apply stop_ending_guarded|apply stopped_inactive].
  - intros s [G Hs]. split; [apply disable_guarded, G|apply stopped_inactive].
  - intros m j s [G Hs]. split; [by apply latch_control_guarded|by apply latch_control_inactive].
  - intros ps s [G Hs]. split; [by apply install_guarded|]. unfold install_drive_loss_plans. by destruct (try_for_each _ _).
  - intros s [G Hs]. destruct (advance_rests s G). split; auto.
  - intros s [G Hs]. exact Hs.
Qed.

Lemma reachable_guarded (l0 l : CL) : guarded (supervisor l0) -> reachable (fun _ => True) l0 l -> guarded (supervisor l).
Proof. intros G Hr. apply (held_reachable (closed := false) (I := guarded) (fun _ => True) l0 l); [done|exact Hr|by split]. Qed.

Lemma reachable_resting (l0 l : CL) :
  resting (supervisor l0) -> implicit_enable_forbidden l0 = true -> reachable no_enable l0 l ->
  resting (supervisor l) /\ implicit_enable_forbidden l = true.
Proof.
  intros G Hf Hr. destruct (held_reachable (closed := true) (I := resting) no_enable l0 l (fun _ c Hc => Hc) Hr) as [H1 H2]; [by split|].
  split; [exact H1|exact (H2 eq_refl)].
Qed.

Lemma tick_closed (l l' : CL) (e : LoopError) :
  guarded (supervisor l) -> tick_once l = (Err e, l') ->
  guarded (supervisor l')
  /\ (fault_of e <> None ->
      has_latched_fault (supervisor l') = true /\ inactive (supervisor l') /\ episode (loss (supervisor l')) = None
      /\ stood_down (motion l'))
  /\ (drops_intent e = true -> stood_down (motion l') \/ episode (loss (supervisor l')) <> None).
Proof.
  intros G Et. assert (Gl : guarded (supervisor l')).
  { pose proof (held_tick (closed := false) (I := guarded) l) as Hk. rewrite Et in Hk. apply Hk. by split. }
  split; [exact Gl|]. destruct (tick_error l l' e Et) as (l0 & l1 & l2 & start & E0 & E1 & E2 & ->).
  assert (G0 : held (closed := false) (I := guarded) l0).
  { pose proof (held_sync (closed := false) (I := guarded) (set_sup (tick (supervisor l)).2 l)) as Hk. rewrite E0 in Hk. apply Hk.
    split; [exact (guarded_kept _ _ (tick_kept _) G)|done]. }
  pose proof (held_inner (closed := false) (I := guarded) l0 G0) as G1. rewrite E1 in G1. destruct G1 as [G1 _]. cbn [snd] in G1.
  unfold sbind in E2. destruct (overrun_spec start l1) as (l1' & Eo & K & Em). rewrite Eo in E2.
  destruct (settle_error_spec e l1') as (l2' & Es & K2 & Ei). rewrite Es in E2. injection E2 as ->.
  destruct (observe_spec l2) as [K3 Hm3]. split.
  - intros Hf. destruct (fault_of e) as [[m j]|] eqn:Ef; [|done].
    destruct (latch_control_guarded observed m j (supervisor l1') (guarded_kept _ _ K G1)) as [Gs Hs].
    assert (Hl2 : has_latched_fault (supervisor l2) = true) by (rewrite (kp_latched _ _ K2); exact Hs).
    assert (Hl3 : has_latched_fault (supervisor (observe_degraded_episode observed l2).2) = true) by (rewrite (kp_latched _ _ K3); exact Hl2).
    pose proof (gd_fault _ Gl Hl3) as Hin. assert (Hep : episode (loss (supervisor (observe_degraded_episode observed l2).2)) = None).
    { destruct (decide (episode (loss (supervisor (observe_degraded_episode observed l2).2)) = None)) as [Ep|Ep]; [exact Ep|].
      destruct Hin. exact (st_episode _ (gd_steady _ Gl) Ep). }
    split; [exact Hl3|]. split; [exact Hin|]. split; [exact Hep|]. rewrite Hm3 by (rewrite <- Hep; symmetry; apply K3).
    rewrite Ei by (apply fault_drops; by rewrite Ef). apply idle_down.
  - intros Hd. destruct (episode (loss (supervisor l2))) eqn:Ep.
    + right. rewrite (kp_episode _ _ K3), Ep. done.
    + left. rewrite Hm3 by done. rewrite Ei by done. apply idle_down.
Qed.

End Results.

(** ** Stale intent *)

Lemma tick_unfold : exists rest : Z -> L unit, forall l : CL,
  tick_once l = (synchronize_stop_generation observed ;* rest (tick (supervisor l)).1) (set_sup (tick (supervisor l)).2 l).
Proof.
  eexists. intros l. unfold loop_tick. unfold sbind at 1, ask at 1. destruct (tick (supervisor l)) as [start s]. cbn [fst snd]. reflexivity.
Qed.

Lemma tick_forgets (l : CL) (m1 m2 : Motion) :
  sup_stop_generation (supervisor l) <> last_stop_generation (seen l) -> idle m1 = idle m2 ->
  tick_once (set_motion m1 l) = tick_once (set_motion m2 l).
Proof.
  intros Hg Hm. destruct tick_unfold as [rest Hu]. rewrite !Hu. cbn [supervisor set_motion].
  assert (Ht : adm (tick (supervisor l)).2 = adm (supervisor l)) by (unfold tick; by destruct (now _)).
  destruct (tick (supervisor l)) as [start s]. cbn [fst snd] in *. unfold sbind.
  rewrite !sync_spec by (unfold sup_stop_generation; cbn; rewrite Ht; exact Hg). cbn. by rewrite Hm.
Qed.

(** ** Refusals during an episode *)

(** The commands that ask for motion. *)
Definition asks_motion (c : LoopCommand) : Prop :=
  match c with
  | SetMode m | TrySetMode m => m <> CDisabled
  | TorqueZero | SetTorque _ _ | SetTarget _ _ _ | EnterHold _ | HoldAt _ _ _ _ | StartWave _ _ _ _ _ _ | OverrideGain _ _ => True
  | _ => False
  end.

(** The loop is as it was, its supervisor at most asked whether it is busy. *)
Definition untouched (l l' : CL) : Prop := l' = l \/ l' = set_sup (reference_busy observed (supervisor l)).2 l.

Lemma refuse_spec (l : CL) (j : string) : degraded_lost_joint l = Some j -> refuse_degraded l = (Err (LDegradedHold j), l).
Proof. intros E. unfold refuse_degraded, sbind, get. by rewrite E. Qed.

Lemma busy_episode (l : CL) :
  degraded_lost_joint (set_sup (reference_busy observed (supervisor l)).2 l) = degraded_lost_joint l.
Proof. unfold degraded_lost_joint. cbn. by destruct (degraded l). Qed.

Lemma intent_spec (op : string) (l : CL) :
  refuse_reference_intent observed op l
  = (if (reference_busy observed (supervisor l)).1 then Err (LSafety (EReferenceBusy op)) else Ok tt,
     set_sup (reference_busy observed (supervisor l)).2 l).
Proof. unfold refuse_reference_intent, sbind, ask. by destruct (reference_busy observed (supervisor l)) as [[] s]. Qed.

Lemma degraded_refused (c : LoopCommand) (l : CL) (j : string) :
  asks_motion c -> degraded_lost_joint l = Some j ->
  let '(r, l') := exec_command c l in untouched l l' /\ (r = Ok tt -> exists m, c = SetMode m).
Proof.
  intros Hc Hj. pose proof (refuse_spec l j Hj) as Hr. destruct c; cbn [asks_motion] in Hc; try contradiction; cbn [exec_command].
  - (* SetMode *) unfold set_control_mode. unfold sbind at 1, ask at 1. pose proof (busy_episode l) as Hb. unfold untouched.
    destruct (reference_busy observed (supervisor l)) as [[] s]; [split; [by right|by exists m]|]. cbn [snd] in Hb |- *.
    unfold sbind at 1, get at 1. rewrite Hb, Hj. rewrite bool_decide_false by done. split; [by right|by exists m].
  - (* TrySetMode *) unfold try_set_control_mode. unfold sbind at 1. rewrite intent_spec.
    destruct (reference_busy observed (supervisor l)).1; [split; [by right|discriminate]|].
    unfold sbind at 1. rewrite bool_decide_false by done. cbn [negb when].
    rewrite (refuse_spec _ j) by (by rewrite busy_episode). split; [by right|discriminate].
  - unfold enter_torque_only_zero, sbind at 1. rewrite Hr. split; [by left|discriminate].
  - unfold set_torque_cmd, sbind at 1. rewrite Hr. split; [by left|discriminate].
  - unfold set_joint_position_setpoint_at_speed, sbind at 1, of_result at 1. destruct (map_err _ _) as [v|e|]; [|split; [by left|discriminate]..].
    unfold sbind at 1. rewrite Hr. split; [by left|discriminate].
  - unfold enter_position_hold, sbind at 1. rewrite Hr. split; [by left|discriminate].
  - unfold enter_position_hold_at_speed, sbind at 1, of_result at 1. destruct (map_err _ _) as [v|e|]; [|split; [by left|discriminate]..].
    unfold sbind at 1. rewrite Hr. split; [by left|discriminate].
  - unfold start_position_wave, sbind at 1 2. rewrite Hr. split; [by left|discriminate].
  - unfold apply_gain_override, sbind at 1. rewrite Hr. split; [by left|discriminate].
Qed.

(** C30: motion intent does not survive a stop.  When the supervisor was stopped
    since the loop last looked, a tick is the same whatever the loop had latched
    before it: control mode, targets and trajectories, wave, torque commands, gain
    overrides and ramp, enable grace.  Only the settings of the hold (per-joint law
    and progress threshold) and the configured ramp length are read. *)
Theorem stale_intent_ignored (l : CL) (m1 m2 : Motion) :
  sup_stop_generation (supervisor l) <> last_stop_generation (seen l) ->
  progress_thresholds (fuses (position_hold m1)) = progress_thresholds (fuses (position_hold m2)) ->
  laws (goals (position_hold m1)) = laws (goals (position_hold m2)) ->
  ramp_ticks (gains m1) = ramp_ticks (gains m2) ->
  exec_command Tick (set_motion m1 l) = exec_command Tick (set_motion m2 l).
Proof.
  intros Hg Hp Hl Hr. apply tick_forgets; [exact Hg|]. unfold idle, PosHold.clear. by rewrite Hp, Hl, Hr.
Qed.

(** a drive-loss episode takes no motion commands.  While the loop or its
    supervisor has an episode, every command that asks for motion leaves the loop
    as it was, the supervisor at most asked whether reference work is busy; and it
    is refused with an error, except a plain mode change, which is ignored. *)
Theorem degraded_refuses_motion (c : LoopCommand) (l : CL) (j : string) :
  asks_motion c -> degraded_lost_joint l = Some j ->
  let '(r, l') := exec_command c l in untouched l l' /\ (r = Ok tt -> exists m, c = SetMode m).
Proof. exact (degraded_refused c l j). Qed.

End Loop.

(** ** The physical owner

    The loop over a supervisor with a physical reference backend: the reference
    cycle is [Commit.advance_reference_work]. *)
Import Reference.

Section Physical.
Context {B : Type} `{CanBus B} {V : Type} `{EqDecision V}.
Variable display : DavoutError -> string.
Variable display_bus : BusError -> string.
Variable display_reference : ReferenceError -> string.
Variable display_commit : Commit.ReferenceCommitError -> string.
Variable display_f64 : f64 -> string.
Variable to_value : list Config.MotorEntry -> Config.ControlSection -> Config.HomingSection -> result string V.
Variable value_len : V -> result string Z.
Variable encode_policy : Authority.TypedPolicy -> result string (list Z).
Variable fuel : nat.
Variables exp tanh cos sin : f64 -> f64.
Variable dynamics : DynamicsModel.
Variable subtree_joints : string -> result DynamicsError (list nat).
Variable chappe : option (list JointState -> bool).

(** [advance_reference_work().map_err(|error| error.to_string())] *)
Definition physical_work (s : Sup B (Work V)) : result string unit * Sup B (Work V) :=
  let '(r, s) := Commit.advance_reference_work display display_bus display_reference display_commit display_f64 to_value value_len encode_policy s in
  (map_err display_commit r, s).

Lemma physical_rests (s : Sup B (Work V)) :
  guarded s -> guarded (physical_work s).2 /\ (inactive s -> inactive (physical_work s).2).
Proof.
  intros G. pose proof (WorkGuard.advance_work_rests display display_bus display_reference display_commit display_f64 to_value value_len encode_policy s G) as Ha.
  unfold physical_work. destruct (Commit.advance_reference_work _ _ _ _ _ _ _ _ s) as [r s']. exact Ha.
Qed.

Abbreviation PL := (ControlLoop B (Work V)).
Abbreviation seen_work := (Acquire.observed to_value value_len encode_policy).
Abbreviation run := (exec_command seen_work display fuel exp tanh cos sin dynamics subtree_joints physical_work chappe).
Abbreviation reaches := (reachable seen_work display fuel exp tanh cos sin dynamics subtree_joints physical_work chappe).

(** whatever the operator does, the loop keeps its supervisor in order.  From a
    supervisor in order, every sequence of ticks, commands, explicit Enables and
    stops, also ones that failed, leads to one in order: well-formed grants and
    drive-loss plans, an episode only while Active, and never Active with a fault
    latched. *)
Theorem loop_keeps_supervisor (l0 l : PL) :
  guarded (supervisor l0) -> reaches (fun _ => True) l0 l -> guarded (supervisor l).
Proof. apply reachable_guarded, physical_rests. Qed.

(** only an Enable activates.  A loop that may not enable implicitly, over an
    inactive supervisor, stays inactive through any sequence of ticks and commands
    without an explicit Enable: no setpoint, hold, wave, mode change, reference
    work or episode enters Active. *)
Theorem only_enable_activates (l0 l : PL) :
  resting (supervisor l0) -> implicit_enable_forbidden l0 = true -> reaches no_enable l0 l ->
  mode (adm (supervisor l)) <> Active.
Proof. intros G Hf Hr. eapply reachable_resting; eauto. apply physical_rests. Qed.

(** C5: a failed tick fails closed.  The supervisor stays in order; when the error
    latches a controller fault, the fault is latched, the supervisor is inactive
    with no episode, and nothing is commanded any more; every other error that
    drops intent leaves nothing commanded either, unless an episode holds what is
    left of the robot. *)
Theorem tick_fails_closed (l l' : PL) (e : LoopError) :
  guarded (supervisor l) -> run Tick l = (Err e, l') ->
  guarded (supervisor l')
  /\ (fault_of e <> None ->
      has_latched_fault (supervisor l') = true /\ mode (adm (supervisor l')) <> Active
      /\ episode (loss (supervisor l')) = None /\ stood_down (motion l'))
  /\ (drops_intent e = true -> stood_down (motion l') \/ episode (loss (supervisor l')) <> None).
Proof. intros G E. eapply tick_closed; eauto. apply physical_rests. Qed.

End Physical.

(** ** A bench loop of one joint *)

Definition same (x : f64) : f64 := x.
Definition bench_model : DynamicsModel := mkModel [Authority.pitch] (fun q => Ok ((fun _ => fzero) <$> q)).

(** Active and permitted, but without feedback of its joint. *)
Definition silent_session : Admission.Supervisor :=
  mkSupervisor Active Impedance authority_default (bench_limits (f64_of_Z 10)) [bench_motor] []
    bench_control ∅ (Some 1000000000) ∅ ∅ ∅ TotalTorque.clamp_log_default ∅ ∅ None
    {[Authority.pitch]} {[bench_address := solicited_default]} [].

Definition silent_sup : Owner.BenchSup :=
  mkSup silent_session bench_installed false [bench_motor] (Authority.initial_virtual 7 {[Authority.pitch]} bench_policy)
    (Physical.new_devices [(bench_address, Physical.demo_bounds)]) Owner.bench_work Reporting.reporting_default no_session ∅
    no_tracking bench_loss false no_diagnostics (Reporting.mkSpy (mkMemoryBus [] []) []) bench_clock.

Definition bench_motion (m : ControlMode) : Motion := mkMotion m (with_progress_thresholds [fone]) [] (for_loop_hz 200) ∅ None 0.

Definition bench_loop (s : Owner.BenchSup) (d : option DegradedControl) (stop : Z) : ControlLoop (Reporting.Spy MemoryBus) (Work unit) :=
  mkLoop s (mkSetup [Authority.pitch] [] 5000000 200 50000000) (bench_motion Impedance)
    (mkSeen 0 None (Some 1000000000) stop 0 0) true d [].

Abbreviation bench_seen := (Acquire.observed Owner.bench_value Owner.bench_len Owner.bench_encode).
Abbreviation bench_physical := (physical_work Owner.no_text Owner.no_text Owner.no_text Owner.no_text Owner.no_text
  Owner.bench_value Owner.bench_len Owner.bench_encode).
Abbreviation bench_run := (exec_command bench_seen Owner.no_text 3 same same same same bench_model (fun _ => Ok []) bench_physical None).

Lemma silent_guarded : guarded silent_sup.
Proof.
  split; [split; [apply Authority.initial_virtual_ok|constructor|]|]; cbn; [done|]. intros Hl. vm_compute in Hl. discriminate.
Qed.

Lemma tick_fails_closed_witness :
  let '(r, l') := bench_run Tick (bench_loop silent_sup None 0) in
  r = Err (LMissingFeedback Authority.pitch) /\ has_latched_fault (supervisor l') = true /\ stood_down (motion l').
Proof.
  assert (Hr : (bench_run Tick (bench_loop silent_sup None 0)).1 = Err (LMissingFeedback Authority.pitch)) by (vm_compute; reflexivity).
  pose proof (fun l' e => tick_fails_closed Owner.no_text Owner.no_text Owner.no_text Owner.no_text Owner.no_text
    Owner.bench_value Owner.bench_len Owner.bench_encode 3 same same same same bench_model (fun _ => Ok []) None
    (bench_loop silent_sup None 0) l' e silent_guarded) as Hf.
  revert Hr Hf. generalize (bench_run Tick (bench_loop silent_sup None 0)). intros [r l'] Hr Hf. cbn [fst] in Hr. subst r.
  destruct (Hf l' _ eq_refl) as (_ & Hfault & _). destruct Hfault as (H1 & _ & _ & H2); [done|]. auto.
Defined.

Lemma loop_keeps_supervisor_witness :
  guarded (supervisor (bench_run DisableAll (bench_run Tick (bench_loop silent_sup None 0)).2).2).
Proof.
  apply (loop_keeps_supervisor Owner.no_text Owner.no_text Owner.no_text Owner.no_text Owner.no_text
    Owner.bench_value Owner.bench_len Owner.bench_encode 3 same same same same bench_model (fun _ => Ok []) None
    (bench_loop silent_sup None 0)); [exact silent_guarded|].
  apply reach_step; [|exact I]. apply reach_step; [|exact I]. apply reach_start.
Defined.

Definition bench_files : EnableFiles := mkFiles (Ok None) None (Ok [Authority.pitch]).

Lemma only_enable_activates_witness :
  let l := (bench_run (EnterHold bench_files) (bench_run Tick (bench_loop Owner.bench_owner None 0)).2) in
  l.1 = Err LExplicitEnableRequired /\ mode (adm (supervisor l.2)) <> Active.
Proof.
  split; [vm_compute; reflexivity|].
  apply (only_enable_activates Owner.no_text Owner.no_text Owner.no_text Owner.no_text Owner.no_text
    Owner.bench_value Owner.bench_len Owner.bench_encode 3 same same same same bench_model (fun _ => Ok []) None
    (bench_loop Owner.bench_owner None 0)); [|reflexivity|].
  - split; [split; [split; [apply Authority.default_ok|constructor|done]|done]|done].
  - apply reach_step; [|exact I]. apply reach_step; [|exact I]. apply reach_start.
Defined.

Lemma stale_intent_ignored_witness :
  bench_run Tick (set_motion (bench_motion TorqueOnly) (bench_loop silent_sup None 1))
  = bench_run Tick (set_motion (bench_motion CPosition) (bench_loop silent_sup None 1)).
Proof. apply (stale_intent_ignored bench_seen); [discriminate|reflexivity..]. Defined.

Lemma degraded_refuses_motion_witness :
  let l := bench_loop silent_sup (Some (mkControl Authority.pitch [0%nat] [] [] 0 HoldPhase)) 0 in
  let '(r, l') := bench_run (SetTorque Authority.pitch fone) l in
  r = Err (LDegradedHold Authority.pitch) /\ untouched bench_seen l l'.
Proof.
  intros l. assert (Hr : (bench_run (SetTorque Authority.pitch fone) l).1 = Err (LDegradedHold Authority.pitch)) by (vm_compute; reflexivity).
  pose proof (degraded_refuses_motion bench_seen Owner.no_text 3 same same same same bench_model (fun _ => Ok []) bench_physical None
    (SetTorque Authority.pitch fone) l Authority.pitch I eq_refl) as Hd.
  revert Hr Hd. generalize (bench_run (SetTorque Authority.pitch fone) l). intros [r l'] Hr [Hu _]. auto.
Defined.

End LoopSafety.
