(* ===== verification/RefQueue.v ===== *)
(** * RefQueue: the operator's reference queue

    [src/bins/marengo-pi/src/reference_queue.rs]: joints are acquired one at a
    time through a driver, and other operator commands wait until the queue has
    drained.  The driver is the interface [ReferenceDriver], as the trait is in
    the source; [SupervisorDriver] is its instance for the supervisor.  A panic of
    the driver unwinds through [pump]. *)

From Stdlib Require Import ZArith Lia Bool.
From stdpp Require Import base gmap strings list.
From S2P Require Import Prelude Float Config Bus Davout Admission Authority Physical Lifecycle Session Enable Journal History Reference Acquire Commit.

Module RefQueue.
Import History Commit.

(** Owner operations the queue needs. *)
Class ReferenceDriver (D H : Type) : Type := {
  hardware_estop_asserted : D -> bool;
  driver_request : string -> ReferenceAudit -> D -> result string H * D;
  driver_outcome : H -> D -> result string ReferenceOutcome * D
}.

Inductive ReferenceEvent : Type :=
| EvCurrent (joint : string) (position_rad : f32)
| EvFailed (joint : string) (m : string)
| EvSkipped (joint : string)
| EvDeferredDiscarded (count : nat).

Definition MAX_DEFERRED_COMMANDS : nat := 64.
Definition CANCELLED : string := "cancelled".

Record QueuedReference : Type := mkQueued { qr_joint : string; qr_operator : string }.

Record ReferenceQueue (H C : Type) : Type := mkQueue {
  rq_session : string; pending : list QueuedReference; in_flight : option (QueuedReference * H); deferred : list C
}.
#[global] Arguments mkQueue {H C} _ _ _ _.
#[global] Arguments rq_session {H C} _.
#[global] Arguments pending {H C} _.
#[global] Arguments in_flight {H C} _.
#[global] Arguments deferred {H C} _.

Section Queue.
Context {D H C : Type} `{ReferenceDriver D H}.

Abbreviation Q := (ReferenceQueue H C).

Definition queue_new (session : string) : Q := mkQueue session [] None [].

Definition is_busy (q : Q) : bool := bool_decide (is_Some (in_flight q)) || negb (bool_decide (pending q = [])).

Definition queue_admit (joints : list string) (sign_tested : bool) (operator : string) (is_known_joint : string -> bool) (q : Q)
  : result message unit * Q :=
  match (refuse_if (negb sign_tested) (msg "sign-tested required (operator attestation)") ;!
         refuse_if (bool_decide (joints = [])) (msg "no joints given") ;!
         match find_first (fun j => negb (is_known_joint j)) joints with
         | Some j => Err (Msg "unknown joint {}" [AStr j])
         | None => Ok tt
         end ;!
         refuse_if (is_busy q) (msg "reference queue busy")) with
  | Ok _ => (Ok tt, mkQueue (rq_session q) (pending q ++ ((fun j => mkQueued j operator) <$> joints)) (in_flight q) (deferred q))
  | e => (e, q)
  end.

Definition defer (c : C) (q : Q) : bool * Q :=
  if (MAX_DEFERRED_COMMANDS <=? length (deferred q))%nat then (false, q)
  else (true, mkQueue (rq_session q) (pending q) (in_flight q) (deferred q ++ [c])).

Definition take_ready_deferred (q : Q) : option C * Q :=
  if is_busy q then (None, q)
  else match deferred q with
       | [] => (None, q)
       | c :: rest => (Some c, mkQueue (rq_session q) (pending q) (in_flight q) rest)
       end.

Definition skip_pending (q : Q) : list ReferenceEvent * Q :=
  ((fun e => EvSkipped (qr_joint e)) <$> pending q, mkQueue (rq_session q) [] (in_flight q) (deferred q)).

Definition discard_deferred (q : Q) : list ReferenceEvent * Q :=
  (if (0 <? length (deferred q))%nat then [EvDeferredDiscarded (length (deferred q))] else [],
   mkQueue (rq_session q) (pending q) (in_flight q) []).

(** [skip_pending] and then [discard_deferred_after_failure]. *)
Definition after_failure (e : QueuedReference) (m : string) (q : Q) : list ReferenceEvent * Q :=
  let '(skipped, q) := skip_pending q in
  let '(discarded, q) := discard_deferred q in
  (EvFailed (qr_joint e) m :: skipped ++ discarded, q).

Definition queue_cancel (q : Q) : list ReferenceEvent * Q :=
  let unfinished := (match in_flight q with Some (e, _) => [e] | None => [] end) ++ pending q in
  let '(discarded, q) := discard_deferred q in
  (((fun e => EvFailed (qr_joint e) CANCELLED) <$> unfinished) ++ discarded, mkQueue (rq_session q) [] None (deferred q)).

Abbreviation Pumped := (result Empty_set (list ReferenceEvent) * (Q * D))%type.

(** Start the next joint; [events] were emitted before. *)
Definition start_next (events : list ReferenceEvent) (q : Q) (d : D) : Pumped :=
  match pending q with
  | [] => (Ok events, (q, d))
  | next :: rest =>
      let q := mkQueue (rq_session q) rest (in_flight q) (deferred q) in
      match driver_request (qr_joint next) (mkAudit (qr_operator next) (rq_session q)) d with
      | (Ok h, d) => (Ok events, (mkQueue (rq_session q) (pending q) (Some (next, h)) (deferred q), d))
      | (Err m, d) => let '(failed, q) := after_failure next m q in (Ok (events ++ failed), (q, d))
      | (Panic, d) => (Panic, (q, d))
      end
  end.

Definition pump (q : Q) (d : D) : Pumped :=
  if negb (is_busy q) then (Ok [], (q, d))
  else if hardware_estop_asserted d then let '(events, q) := queue_cancel q in (Ok events, (q, d))
  else
    match in_flight q with
    | None => start_next [] q d
    | Some (entry, h) =>
        let landed := mkQueue (rq_session q) (pending q) None (deferred q) in
        match driver_outcome h d with
        | (Ok InProgress, d) => (Ok [], (q, d))
        | (Ok (Current position_rad), d) => start_next [EvCurrent (qr_joint entry) position_rad] landed d
        | (Ok (OutcomeFailed m), d) | (Err m, d) => let '(failed, q) := after_failure entry m landed in (Ok failed, (q, d))
        | (Panic, d) => (Panic, (q, d))
        end
    end.

(** ** What is owed to the operator *)

(** The joint an event closes. *)
Definition closes (e : ReferenceEvent) : list string :=
  match e with EvCurrent j _ | EvFailed j _ | EvSkipped j => [j] | EvDeferredDiscarded _ => [] end.
Definition closed (l : list ReferenceEvent) : list string := l ≫= closes.
Definition discards (e : ReferenceEvent) : nat := match e with EvDeferredDiscarded n => n | _ => 0%nat end.
Definition discarded (l : list ReferenceEvent) : nat := sum_list (discards <$> l).
Definition fails (e : ReferenceEvent) : bool := match e with EvFailed _ _ => true | _ => false end.

Definition outstanding (q : Q) : list string :=
  (match in_flight q with Some (e, _) => [qr_joint e] | None => [] end) ++ (qr_joint <$> pending q).

Lemma closed_app (a b : list ReferenceEvent) : closed (a ++ b) = closed a ++ closed b.
Proof. apply bind_app. Qed.
Lemma discarded_app (a b : list ReferenceEvent) : discarded (a ++ b) = (discarded a + discarded b)%nat.
Proof. unfold discarded. by rewrite fmap_app, sum_list_with_app. Qed.
Lemma closed_each {A} (f : A -> ReferenceEvent) (g : A -> string) (l : list A) : (forall x, closes (f x) = [g x]) -> closed (f <$> l) = g <$> l.
Proof. intros Hf. induction l as [|x l IH]; [done|]. cbn. rewrite Hf. cbn. by f_equal. Qed.
Lemma discarded_each {A} (f : A -> ReferenceEvent) (l : list A) : (forall x, discards (f x) = 0%nat) -> discarded (f <$> l) = 0%nat.
Proof. intros Hf. induction l as [|x l IH]; [done|]. unfold discarded in *. cbn. by rewrite Hf, IH. Qed.

Lemma not_busy (q : Q) : is_busy q = false -> outstanding q = [].
Proof. unfold is_busy, outstanding. destruct (in_flight q) as [[e h]|], (pending q); by rewrite ?bool_decide_true by eauto. Qed.

(** One operation's events against what it changed: joints are closed in the
    order they were queued, waiting commands are kept or all counted as discarded,
    and a failure leaves nothing behind it. *)
Record settles (events : list ReferenceEvent) (q q' : Q) : Prop := {
  se_joints : outstanding q = closed events ++ outstanding q';
  se_commands : (deferred q' = deferred q /\ discarded events = 0%nat) \/ (deferred q' = [] /\ discarded events = length (deferred q));
  se_failure : existsb fails events = true -> outstanding q' = [] /\ deferred q' = []
}.

Lemma settles_refl (q : Q) : settles [] q q.
Proof. split; [done|by left|done]. Qed.

Lemma discard_deferred_spec (q : Q) :
  let '(events, q') := discard_deferred q in
  closed events = [] /\ discarded events = length (deferred q) /\ deferred q' = [] /\ outstanding q' = outstanding q.
Proof.
  unfold discard_deferred. destruct (deferred q) as [|c l] eqn:E; [done|]. cbn. unfold discarded. cbn. auto with lia.
Qed.

Lemma after_failure_spec (e : QueuedReference) (m : string) (q : Q) :
  in_flight q = None ->
  let '(events, q') := after_failure e m q in
  closed events = qr_joint e :: outstanding q /\ discarded events = length (deferred q) /\ deferred q' = [] /\ outstanding q' = [].
Proof.
  intros Hf. unfold after_failure, skip_pending. pose proof (discard_deferred_spec (mkQueue (rq_session q) [] (in_flight q) (deferred q))) as Hd.
  destruct (discard_deferred _) as [disc q']. destruct Hd as (Hc & Hn & Hq & Ho). cbn in Hn. split; [|split; [|split]].
  - change (closed (EvFailed (qr_joint e) m :: ?l)) with (qr_joint e :: closed l). rewrite closed_app, Hc, app_nil_r. unfold outstanding.
    rewrite Hf. cbn. f_equal. by apply closed_each.
  - change (discarded (EvFailed (qr_joint e) m :: ?l)) with (discarded l). rewrite discarded_app, Hn. by rewrite discarded_each.
  - done.
  - rewrite Ho. unfold outstanding. cbn. by rewrite Hf.
Qed.

Lemma cancel_spec (q : Q) : let '(events, q') := queue_cancel q in settles events q q' /\ outstanding q' = [] /\ deferred q' = [].
Proof.
  unfold queue_cancel. pose proof (discard_deferred_spec q) as Hd. destruct (discard_deferred q) as [disc q1]. destruct Hd as (Hc & Hn & Hq & _).
  split; [split|done].
  - rewrite closed_app, Hc, (closed_each _ qr_joint), fmap_app by done. unfold outstanding. cbn. rewrite !app_nil_r. by destruct (in_flight q) as [[e h]|].
  - right. cbn. rewrite discarded_app, Hn, discarded_each; done.
  - by rewrite Hq.
Qed.

Lemma start_next_spec (events : list ReferenceEvent) (q q' : Q) (d d' : D) (out : list ReferenceEvent) :
  in_flight q = None -> existsb fails events = false -> discarded events = 0%nat ->
  start_next events q d = (Ok out, (q', d')) ->
  exists more, out = events ++ more /\ settles more q q'.
Proof.
  intros Hf He Hz. unfold start_next. destruct (pending q) as [|next rest] eqn:Ep; [intros [= <- <- <-]; exists []; rewrite app_nil_r; split; [done|apply settles_refl]|].
  destruct (driver_request _ _ d) as [[h|m|] d1]; [..|discriminate].
  - intros [= <- <- <-]. exists []. rewrite app_nil_r. split; [done|]. split; [|by left|done]. unfold outstanding. by rewrite Hf, Ep.
  - pose proof (after_failure_spec next m (mkQueue (rq_session q) rest (in_flight q) (deferred q)) Hf) as Ha. cbn [fst rq_session] in Ha |- *.
    destruct (after_failure _ _ _) as [failed q1]. destruct Ha as (Hc & Hn & Hq & Ho). intros [= <- <- <-]. exists failed. split; [done|].
    split; [|right; by rewrite Hq|by rewrite Hq].
    rewrite Hc, Ho, app_nil_r. unfold outstanding. cbn. by rewrite Hf, Ep.
Qed.

Lemma pump_spec (q q' : Q) (d d' : D) (events : list ReferenceEvent) : pump q d = (Ok events, (q', d')) -> settles events q q'.
Proof.
  unfold pump. destruct (is_busy q); cbn [negb]; [|intros [= <- <- <-]; apply settles_refl].
  destruct (hardware_estop_asserted d).
  { pose proof (cancel_spec q) as Hc. destruct (queue_cancel q) as [ev q1]. intros [= <- <- <-]. apply Hc. }
  destruct (in_flight q) as [[entry h]|] eqn:Ef.
  2: { intros E. apply start_next_spec in E as (more & -> & Hm); [exact Hm|done..]. }
  set (landed := mkQueue _ _ None _).
  assert (Hl : outstanding q = qr_joint entry :: outstanding landed) by (unfold outstanding; by rewrite Ef).
  assert (Hfail : forall m, let '(failed, q1) := after_failure entry m landed in settles failed q q1).
  { intros m. pose proof (after_failure_spec entry m landed eq_refl) as Ha. destruct (after_failure _ _ _) as [failed q1].
    destruct Ha as (Hc & Hn & Hq & Ho). split; [by rewrite Hl, Hc, Ho, app_nil_r|right; by rewrite Hq|by rewrite Hq]. }
  destruct (driver_outcome h d) as [[[|p|m]|m|] d1]; [intros [= <- <- <-]; apply settles_refl| |..|discriminate].
  - intros E. apply start_next_spec in E as (more & -> & [Hj Hc Hx]); [|done..]. split; [|exact Hc|exact Hx].
    rewrite Hl, Hj. done.
  - specialize (Hfail m). destruct (after_failure _ _ _) as [failed q1]. by intros [= <- <- <-].
  - specialize (Hfail m). destruct (after_failure _ _ _) as [failed q1]. by intros [= <- <- <-].
Qed.

(** ** Histories *)

(** What the operator saw: joints admitted, events, commands accepted for later,
    and those no longer waiting (true: handed back to run, false: discarded). *)
Record Books : Type := mkBooks {
  bk_admitted : list string; bk_events : list ReferenceEvent; bk_accepted : list C; bk_gone : list (C * bool)
}.

(** Commands a list of events discarded: all of [waiting] or none. *)
Definition dropped (events : list ReferenceEvent) (waiting : list C) : list (C * bool) :=
  if (0 <? discarded events)%nat then (fun c => (c, false)) <$> waiting else [].

(** Any sequence of the queue's operations; the driver changes in between. *)
Inductive queue_run : Q -> Books -> Prop :=
| run_new (session : string) : queue_run (queue_new session) (mkBooks [] [] [] [])
| run_admit (q q' : Q) b joints sign_tested operator known r :
    queue_run q b -> queue_admit joints sign_tested operator known q = (r, q') ->
    queue_run q' (mkBooks (bk_admitted b ++ match r with Ok _ => joints | _ => [] end) (bk_events b) (bk_accepted b) (bk_gone b))
| run_defer (q q' : Q) b c r :
    queue_run q b -> defer c q = (r, q') ->
    queue_run q' (mkBooks (bk_admitted b) (bk_events b) (bk_accepted b ++ if r : bool then [c] else []) (bk_gone b))
| run_take (q q' : Q) b o :
    queue_run q b -> take_ready_deferred q = (o, q') ->
    queue_run q' (mkBooks (bk_admitted b) (bk_events b) (bk_accepted b) (bk_gone b ++ match o with Some c => [(c, true)] | None => [] end))
| run_pump (q q' : Q) b (d d' : D) events :
    queue_run q b -> pump q d = (Ok events, (q', d')) ->
    queue_run q' (mkBooks (bk_admitted b) (bk_events b ++ events) (bk_accepted b) (bk_gone b ++ dropped events (deferred q)))
| run_cancel (q q' : Q) b events :
    queue_run q b -> queue_cancel q = (events, q') ->
    queue_run q' (mkBooks (bk_admitted b) (bk_events b ++ events) (bk_accepted b) (bk_gone b ++ dropped events (deferred q))).

Record accounted (q : Q) (b : Books) : Prop := {
  ac_joints : bk_admitted b = closed (bk_events b) ++ outstanding q;
  ac_commands : bk_accepted b = (bk_gone b).*1 ++ deferred q;
  ac_discarded : discarded (bk_events b) = length (filter (fun e => e.2 = false) (bk_gone b));
  ac_bound : (length (deferred q) <= MAX_DEFERRED_COMMANDS)%nat
}.

Lemma accounted_settles (events : list ReferenceEvent) (q q' : Q) (b : Books) :
  settles events q q' -> accounted q b ->
  accounted q' (mkBooks (bk_admitted b) (bk_events b ++ events) (bk_accepted b) (bk_gone b ++ dropped events (deferred q))).
Proof.
  intros [Hj Hc _] [Aj Ac Ad Ab]. unfold dropped. split; cbn [bk_admitted bk_events bk_accepted bk_gone].
  - by rewrite Aj, Hj, closed_app, app_assoc.
  - rewrite Ac, fmap_app, <- app_assoc. f_equal. destruct Hc as [[-> ->]|[-> ->]]; [done|].
    destruct (deferred q) as [|c l]; [done|]. cbn. by rewrite app_nil_r, <- list_fmap_compose, list_fmap_id.
  - rewrite discarded_app, filter_app, length_app, Ad. f_equal. destruct Hc as [[_ ->]|[_ ->]]; [done|].
    destruct (deferred q) as [|c l]; [done|]. change (0 <? length (c :: l))%nat with true. cbn iota. generalize (c :: l). intros k.
    induction k as [|x k IH]; [done|]. rewrite fmap_cons, filter_cons_True by done. cbn. by f_equal.
  - destruct Hc as [[-> _]|[-> _]]; [done|cbn; lia].
Qed.

Lemma run_accounted (q : Q) (b : Books) : queue_run q b -> accounted q b.
Proof.
  induction 1 as [session|q q' b joints sign op known r _ IH E|q q' b c r _ IH E|q q' b o _ IH E|q q' b d d' events _ IH E|q q' b events _ IH E].
  - split; cbn; [done..|lia].
  - unfold queue_admit in E. destruct IH as [Aj Ac Ad Ab].
    destruct (_ ;! _) as [u|m|] eqn:Er; injection E as <- <-; cbn; [|by rewrite app_nil_r..].
    assert (Hb : outstanding q = []).
    { apply not_busy. unfold refuse_if in Er. destruct (negb sign); [discriminate|]. destruct (bool_decide _); [discriminate|].
      destruct (find_first _ _); [discriminate|]. cbn in Er. by destruct (is_busy q). }
    split; cbn; [|done..]. rewrite Aj, Hb, app_nil_r. f_equal. unfold outstanding in *. cbn.
    destruct (in_flight q) as [[e h]|]; [done|]. cbn in *. rewrite fmap_app, Hb, <- list_fmap_compose. cbn. by rewrite list_fmap_id.
  - unfold defer in E. destruct IH as [Aj Ac Ad Ab]. destruct (Nat.leb_spec MAX_DEFERRED_COMMANDS (length (deferred q))); injection E as <- <-; cbn.
    + by rewrite app_nil_r.
    + split; cbn; [done| |done|rewrite length_app; cbn; lia]. by rewrite Ac, app_assoc.
  - unfold take_ready_deferred in E. destruct IH as [Aj Ac Ad Ab]. destruct (is_busy q); [injection E as <- <-; by rewrite app_nil_r|].
    destruct (deferred q) as [|c l] eqn:Ed; injection E as <- <-; [by rewrite app_nil_r; split; rewrite ?Ed|].
    split; cbn; [done| |by rewrite filter_app, app_nil_r|cbn in Ab; lia]. by rewrite Ac, fmap_app, <- app_assoc.
  - apply accounted_settles; [by eapply pump_spec|done].
  - apply accounted_settles; [|done]. pose proof (cancel_spec q) as Hc. rewrite E in Hc. apply Hc.
Qed.

(** C27: the reference queue owes nobody an answer.  Over any sequence of its
    operations, with any driver, every joint it took is reported exactly once, in
    the order taken, or is still queued; at most 64 commands wait, in order, and
    each is handed back or counted in a discard notice; nothing is handed back
    while a joint is outstanding; and a failed joint leaves neither a joint nor a
    command behind it. *)
Theorem reference_queue_accounts (q : Q) (b : Books) :
  queue_run q b ->
  accounted q b
  /\ (forall c q', take_ready_deferred q = (Some c, q') -> outstanding q = [])
  /\ (forall d events q' d', pump q d = (Ok events, (q', d')) -> existsb fails events = true -> outstanding q' = [] /\ deferred q' = []).
Proof.
  intros Hr. split; [by apply run_accounted|]. split.
  - intros c q'. unfold take_ready_deferred. destruct (is_busy q) eqn:Eb; [discriminate|]. intros _. by apply not_busy.
  - intros d events q' d' E. by apply (pump_spec q q' d d' events E).
Qed.

End Queue.

(** ** The supervisor as the driver *)

Section Supervisor.
Import Bus Lifecycle Journal Reference Acquire.
Context {B : Type} `{CanBus B} {V : Type} `{EqDecision V}.
Variable display_reference : ReferenceError -> string.
Variable display_commit : ReferenceCommitError -> string.
Variable debug_cause : ReferenceCause -> string.
Variable debug_commit : ReferenceCommitPhase -> ReferenceJournalResult -> ReferenceStageStatus -> string.
Variable to_value : list Config.MotorEntry -> Config.ControlSection -> Config.HomingSection -> result string V.
Variable value_len : V -> result string Z.
Variable encode_policy : Authority.TypedPolicy -> result string (list Z).

Definition SupervisorDriver : ReferenceDriver (Sup B (Work V)) ReferenceHandle := {|
  hardware_estop_asserted s := hardware_estop s;
  driver_request j audit s :=
    let '(r, s) := request_reference display_commit to_value value_len encode_policy j true audit s in (map_err display_reference r, s);
  driver_outcome h s :=
    let '(r, s) := reference_outcome debug_cause debug_commit to_value value_len encode_policy h s in (map_err display_reference r, s)
|}.

End Supervisor.

(** ** A bench queue *)

(** A driver whose second joint fails. *)
#[local] Instance ScriptedDriver : ReferenceDriver unit nat := {|
  hardware_estop_asserted _ := false;
  driver_request j _ d := (Ok (if bool_decide (j = "elbow"%string) then 1%nat else 0%nat), d);
  driver_outcome h d := (Ok (match h with O => Current fzero | _ => OutcomeFailed "timeout" end), d)
|}.

Definition pumped (q : ReferenceQueue nat string) : ReferenceQueue nat string := (pump q tt).2.1.
Definition three : ReferenceQueue nat string :=
  (queue_admit ["shoulder"; "elbow"; "wrist"]%string true "bench" (fun _ => true) (queue_new "s")).2.
Definition scripted : ReferenceQueue nat string := (defer "hold-on"%string three).2.

Lemma reference_queue_accounts_witness :
  exists b, bk_events b = [EvCurrent "shoulder" fzero; EvFailed "elbow" "timeout"; EvSkipped "wrist"; EvDeferredDiscarded 1]
    /\ accounted (pumped (pumped (pumped scripted))) b.
Proof.
  assert (Hr : exists b, queue_run (D := unit) (pumped (pumped (pumped scripted))) b
      /\ bk_events b = [EvCurrent "shoulder" fzero; EvFailed "elbow" "timeout"; EvSkipped "wrist"; EvDeferredDiscarded 1]).
  { eexists. split.
    - eapply (run_pump (pumped (pumped scripted)) _ _ tt); [|reflexivity]. eapply (run_pump (pumped scripted) _ _ tt); [|reflexivity].
      eapply (run_pump scripted _ _ tt); [|reflexivity].
      eapply (run_defer three _ _ "hold-on"%string); [|reflexivity].
      eapply (run_admit (queue_new "s") _ _ ["shoulder"; "elbow"; "wrist"]%string true "bench" (fun _ => true)); [|reflexivity]. apply run_new.
    - reflexivity. }
  destruct Hr as (b & Hr & He). exists b. split; [exact He|]. by apply (reference_queue_accounts (D := unit)).
Defined.

End RefQueue.
