(* ===== verification/Preflight.v ===== *)
(** * Preflight: the gravity sweep before an Enable

    [src/bins/marengo-pi/src/gravity_preflight.rs]: a grid of five points per
    joint over the live command envelope, evaluated one bounded slice per control
    tick.  The scratch pose [q] of the source is rewritten in full by every
    evaluation and is computed here instead; log lines are left out. *)

From Stdlib Require Import ZArith Lia Bool SpecFloat.
From stdpp Require Import base gmap strings list.
From S2P Require Import Prelude Float Config Limits Bus Reporting Davout Filter Admission Authority Lifecycle Stop Position PosHold Gains Facets Dynamics Loop.

Module Preflight.
Import Bus Davout Admission Lifecycle Position Facets Dynamics Loop.

Definition GRID_POINTS : Z := 5.
Definition MAX_GRID_SAMPLES : Z := 1000000.

Record SliceBudget : Type := mkBudget { max_samples : Z; max_time : Z }.
Definition PER_TICK : SliceBudget := mkBudget 128 2000000.

Inductive SweepAbort : Type :=
| AbortDisabled | AbortShutdown | AbortStopped | AbortFaultLatched | AbortReferenceWork | AbortLimitsChanged (joint : string).

Definition abort_text (a : SweepAbort) : message :=
  match a with
  | AbortDisabled => msg "disabled"
  | AbortShutdown => msg "shutting down"
  | AbortStopped => msg "drives were stopped"
  | AbortFaultLatched => msg "a fault latched"
  | AbortReferenceWork => msg "reference work started"
  | AbortLimitsChanged joint => Msg "limits of {} changed" [AStr joint]
  end.

Record SweepStats : Type := mkStats { st_samples : Z; st_slices : Z; st_max_slice : Z; st_elapsed : Z }.

Inductive SweepStep : Type := SweepPending | SweepDone (passed : bool) (stats : SweepStats).

Record JointSweep : Type := mkSweepJoint { sj_joint : string; sj_lower : f64; sj_upper : f64; sj_policy : Limits.JointLimitPolicy; sj_max_tau_nm : f64 }.

Record GravitySweep : Type := mkSweep {
  sw_joints : list JointSweep; sample_count : Z; next_sample : Z; sw_started : Z; sw_slices : Z; sw_max_slice : Z;
  sw_stop_generation : Z; sw_fault_latched : bool; sw_reference_pending : bool
}.

Section Sweep.
Context {B : Type} `{CanBus B} {R : Type} `{ReferenceWork R}.
Variable dynamics : DynamicsModel.

Abbreviation CL := (ControlLoop B R).
Abbreviation L A := (st (ControlLoop B R) LoopError A).

(** ** Start *)

Definition capture_joint (joint : string) : L (option JointSweep) :=
  let* l := get in
  if negb (existsb (fun m => bool_decide (Config.joint m = joint)) (motors (adm (supervisor l)))) then ret None
  else
    match joint_limit_policy (supervisor l) joint with
    | None => ret None
    | Some policy =>
        let* feedback := ask (joint_feedback joint) in
        match feedback with
        | None => ret None
        | Some fb =>
            let '(q_min, q_max) := Limits.effective_command_bounds policy (fb_position_rad fb) fzero in
            if negb (is_finite q_min) || negb (is_finite q_max) || fgt q_min q_max then ret None
            else ret (Some (mkSweepJoint joint q_min q_max policy fzero))
        end
    end.

Fixpoint capture_joints (names : list string) : L (option (list JointSweep)) :=
  match names with
  | [] => ret (Some [])
  | joint :: rest =>
      let* j := capture_joint joint in
      match j with
      | None => ret None
      | Some j => let* js := capture_joints rest in ret (cons j <$> js)
      end
  end.

(** [Err(())] is [None]. *)
Definition start : L (option GravitySweep) :=
  let* started := ask tick in
  let* l := get in
  let* captured := capture_joints (names_of l) in
  match captured with
  | None => ret None
  | Some js =>
      let* l := get in
      let n := Z.of_nat (length js) in
      let count := GRID_POINTS ^ n in
      if (U32_MAX <? n) || (U64_MAX <? count) || (MAX_GRID_SAMPLES <? count) then ret None
      else ret (Some (mkSweep js count 0 started 0 0 (sup_stop_generation (supervisor l)) (has_latched_fault (supervisor l))
                        (reference_work_pending (supervisor l))))
  end.

(** ** Voiding *)

(** The derived [PartialEq] of the policy. *)
Definition bounds_eqb (a b : Limits.JointLimitBounds) : bool :=
  feq (Limits.b_hard_lower a) (Limits.b_hard_lower b) && feq (Limits.b_hard_upper a) (Limits.b_hard_upper b)
  && feq (Limits.b_soft_lower a) (Limits.b_soft_lower b) && feq (Limits.b_soft_upper a) (Limits.b_soft_upper b).
Definition margin_eqb (a b : Limits.LimitMarginConfig) : bool :=
  feq (Limits.min_rad a) (Limits.min_rad b) && feq (Limits.k_v_s a) (Limits.k_v_s b) && feq (Limits.k_stop a) (Limits.k_stop b)
  && feq (Limits.decel_rad_s2 a) (Limits.decel_rad_s2 b) && feq (Limits.measured_fault_slack_rad a) (Limits.measured_fault_slack_rad b)
  && feq (Limits.velocity_deadband_rad_s a) (Limits.velocity_deadband_rad_s b).
Definition policy_eqb (a b : Limits.JointLimitPolicy) : bool :=
  bounds_eqb (Limits.bounds a) (Limits.bounds b) && margin_eqb (Limits.margin a) (Limits.margin b)
  && feq (Limits.velocity a) (Limits.velocity b) && feq (Limits.effort a) (Limits.effort b)
  && feq (Limits.tau_ff_max a) (Limits.tau_ff_max b).

Definition policy_current (s : Sup B R) (j : JointSweep) : bool :=
  match joint_limit_policy s (sj_joint j) with Some p => policy_eqb p (sj_policy j) | None => false end.

Definition invalidated (sw : GravitySweep) (l : CL) (reference_queued : bool) : option SweepAbort :=
  let s := supervisor l in
  if negb (sup_stop_generation s =? sw_stop_generation sw) then Some AbortStopped
  else if has_latched_fault s && negb (sw_fault_latched sw) then Some AbortFaultLatched
  else if reference_queued || (reference_work_pending s && negb (sw_reference_pending sw)) then Some AbortReferenceWork
  else (fun j => AbortLimitsChanged (sj_joint j)) <$> find_first (fun j => negb (policy_current s j)) (sw_joints sw).

(** ** Evaluation *)

Definition grid_angle (j : JointSweep) (point : Z) : f64 :=
  add64 (sj_lower j) (div64 (mul64 (sub64 (sj_upper j) (sj_lower j)) (f64_of_Z point)) (f64_of_Z (GRID_POINTS - 1))).

(** The pose of a sample: its digits in base 5, first joint first. *)
Fixpoint sample_pose (sample : Z) (js : list JointSweep) : list f64 :=
  match js with
  | [] => []
  | j :: rest => grid_angle j (sample mod GRID_POINTS) :: sample_pose (sample / GRID_POINTS) rest
  end.

(** False at the first non-finite torque; the joints before it are updated. *)
Fixpoint absorb (js : list JointSweep) (tau : list f64) : bool * list JointSweep :=
  match js, tau with
  | j :: js', v :: tau' =>
      if negb (is_finite v) then (false, js)
      else
        let '(ok, rest) := absorb js' tau' in
        (ok, mkSweepJoint (sj_joint j) (sj_lower j) (sj_upper j) (sj_policy j) (fmax (sj_max_tau_nm j) (fabs v)) :: rest)
  | _, _ => (true, js)
  end.

Definition with_joints (js : list JointSweep) (sw : GravitySweep) : GravitySweep :=
  mkSweep js (sample_count sw) (next_sample sw) (sw_started sw) (sw_slices sw) (sw_max_slice sw) (sw_stop_generation sw)
    (sw_fault_latched sw) (sw_reference_pending sw).

Definition evaluate (sample : Z) (sw : GravitySweep) : result LoopError (bool * GravitySweep) :=
  match gravity_torques dynamics (sample_pose sample (sw_joints sw)) with
  | Ok tau =>
      if negb (length tau =? length (sw_joints sw))%nat then Ok (false, sw)
      else let '(ok, js) := absorb (sw_joints sw) tau in Ok (ok, with_joints js sw)
  | Err _ => Ok (false, sw)
  | Panic => Panic
  end.

Definition next (sw : GravitySweep) : GravitySweep :=
  mkSweep (sw_joints sw) (sample_count sw) (next_sample sw + 1) (sw_started sw) (sw_slices sw) (sw_max_slice sw) (sw_stop_generation sw)
    (sw_fault_latched sw) (sw_reference_pending sw).

(** [while next_sample < slice_end], [n] samples from its end. *)
Fixpoint slice (n : nat) (slice_start : Z) (budget : SliceBudget) (sw : GravitySweep) : L (bool * GravitySweep) :=
  match n with
  | O => ret (true, sw)
  | S n =>
      let* (ok, sw) := of_result (evaluate (next_sample sw) sw) in
      if negb ok then ret (false, sw)
      else
        let sw := next sw in
        let* t := ask tick in
        if max_time budget <=? elapsed slice_start t then ret (true, sw) else slice n slice_start budget sw
  end.

Definition joint_within (j : JointSweep) : bool :=
  negb (negb (is_finite (Limits.tau_ff_max (sj_policy j))) || fle (Limits.tau_ff_max (sj_policy j)) fzero
        || fgt (sj_max_tau_nm j) (Limits.tau_ff_max (sj_policy j))).

Definition within_limits (sw : GravitySweep) : bool := forallb joint_within (sw_joints sw).

Definition record_slice (took : Z) (sw : GravitySweep) : GravitySweep :=
  mkSweep (sw_joints sw) (sample_count sw) (next_sample sw) (sw_started sw) (sat_add_u32 (sw_slices sw) 1) (Z.max (sw_max_slice sw) took)
    (sw_stop_generation sw) (sw_fault_latched sw) (sw_reference_pending sw).

Definition advance (budget : SliceBudget) (sw : GravitySweep) : L (SweepStep * GravitySweep) :=
  let* slice_start := ask tick in
  let slice_end := Z.min (sat_add_u64 (next_sample sw) (Z.max (max_samples budget) 1)) (sample_count sw) in
  let* (evaluable, sw) := slice (Z.to_nat (slice_end - next_sample sw)) slice_start budget sw in
  let* t := ask tick in
  let sw := record_slice (elapsed slice_start t) sw in
  if evaluable && (next_sample sw <? sample_count sw) then ret (SweepPending, sw)
  else
    let* t := ask tick in
    ret (SweepDone (evaluable && within_limits sw)
           (mkStats (next_sample sw) (sw_slices sw) (sw_max_slice sw) (elapsed (sw_started sw) t)), sw).

(** ** What a sweep has vouched for *)

Definition grows (j j' : JointSweep) : Prop :=
  sj_joint j' = sj_joint j /\ sj_lower j' = sj_lower j /\ sj_upper j' = sj_upper j /\ sj_policy j' = sj_policy j
  /\ fle (sj_max_tau_nm j) (sj_max_tau_nm j') = true.

Definition usable (j : JointSweep) : Prop := is_nan (sj_max_tau_nm j) = false.
Definition bounded (j : JointSweep) (v : f64) : Prop := is_finite v = true /\ fle (fabs v) (sj_max_tau_nm j) = true.

Lemma fle_self (x : f64) : is_nan x = false -> fle x x = true.
Proof. intros Hx. float_solve. Qed.

Lemma grows_refl (js : list JointSweep) : Forall usable js -> Forall2 grows js js.
Proof. induction 1 as [|j js Hj _ IH]; constructor; [|done]. repeat split. by apply fle_self. Qed.

Lemma grows_trans (a b c : list JointSweep) : Forall2 grows a b -> Forall2 grows b c -> Forall2 grows a c.
Proof.
  intros H1. revert c. induction H1 as [|x y a b Hx _ IH]; intros c H2; inversion H2 as [|? z ? c' Hy]; subst; [constructor|].
  constructor; [|by apply IH]. destruct Hx as (? & ? & ? & ? & Hx), Hy as (? & ? & ? & ? & Hy). repeat split; [congruence..|].
  by eapply fle_trans.
Qed.

Lemma pose_grows (js js' : list JointSweep) : Forall2 grows js js' -> forall k, sample_pose k js' = sample_pose k js.
Proof.
  induction 1 as [|j j' js js' (_ & Hl & Hu & _) _ IH]; intros k; [done|]. cbn [sample_pose]. unfold grid_angle. by rewrite Hl, Hu, IH.
Qed.

Lemma bounded_grows (js js' : list JointSweep) (tau : list f64) : Forall2 grows js js' -> Forall2 bounded js tau -> Forall2 bounded js' tau.
Proof.
  intros Hg. revert tau. induction Hg as [|j j' js js' (_ & _ & _ & _ & Hm) _ IH]; intros tau Hb; inversion Hb as [|? v ? tau' [Hf Hv]]; subst; constructor.
  - split; [done|]. by eapply fle_trans.
  - by apply IH.
Qed.

Lemma absorb_spec (js : list JointSweep) : forall tau js',
  Forall usable js -> length tau = length js -> absorb js tau = (true, js') ->
  Forall2 grows js js' /\ Forall usable js' /\ Forall2 bounded js' tau.
Proof.
  induction js as [|j js IH]; intros [|v tau] js' Hu Hl; try discriminate; cbn [absorb].
  { intros [= <-]. repeat constructor. }
  destruct (is_finite v) eqn:Ef; cbn [negb]; [|discriminate]. destruct (absorb js tau) as [ok rest] eqn:Ea. intros [= -> <-].
  inversion Hu as [|? ? Hj Hu']; subst. cbn in Hl. destruct (IH tau rest Hu' ltac:(lia) Ea) as (Hg & Hr & Hb).
  assert (Hv : is_nan (fabs v) = false) by (by rewrite fabs_nan, finite_not_nan).
  destruct (fmax_ub (sj_max_tau_nm j) (fabs v) Hj Hv) as [H1 H2].
  split; [|split]; constructor; cbn; [|done| |done| |done].
  - repeat split. exact H1.
  - unfold usable. cbn. by destruct (fmax_or (sj_max_tau_nm j) (fabs v)) as [-> | ->].
  - split; [done|exact H2].
Qed.

Definition vouched (js : list JointSweep) (k : Z) : Prop :=
  exists tau, gravity_torques dynamics (sample_pose k js) = Ok tau /\ Forall2 bounded js tau.

Lemma vouched_grows (js js' : list JointSweep) (k : Z) : Forall2 grows js js' -> vouched js k -> vouched js' k.
Proof. intros Hg (tau & Et & Hb). exists tau. rewrite (pose_grows _ _ Hg). split; [done|]. by eapply bounded_grows. Qed.

(** A sweep in progress: every sample before the next one is vouched for. *)
Record sweep_ok (sw : GravitySweep) : Prop := {
  so_usable : Forall usable (sw_joints sw);
  so_count : sample_count sw = GRID_POINTS ^ Z.of_nat (length (sw_joints sw));
  so_bound : sample_count sw <= MAX_GRID_SAMPLES;
  so_next : 0 <= next_sample sw <= sample_count sw;
  so_done : forall k, 0 <= k < next_sample sw -> vouched (sw_joints sw) k
}.

(** What stays of a sweep while it is advanced. *)
Record continues (sw sw' : GravitySweep) : Prop := {
  ct_joints : Forall2 grows (sw_joints sw) (sw_joints sw');
  ct_count : sample_count sw' = sample_count sw
}.

Lemma continues_refl (sw : GravitySweep) : sweep_ok sw -> continues sw sw.
Proof. intros Hs. split; [apply grows_refl, Hs|done]. Qed.

Lemma continues_trans (a b c : GravitySweep) : continues a b -> continues b c -> continues a c.
Proof. intros [H1 H2] [H3 H4]. split; [by eapply grows_trans|congruence]. Qed.

Lemma evaluate_spec (sw sw' : GravitySweep) :
  sweep_ok sw -> next_sample sw < sample_count sw -> evaluate (next_sample sw) sw = Ok (true, sw') ->
  sweep_ok (next sw') /\ continues sw (next sw') /\ next_sample (next sw') = next_sample sw + 1.
Proof.
  intros [Hu Hc Hb Hn Hd] Hlt. unfold evaluate. destruct (gravity_torques _ _) as [tau|e|] eqn:Et; [|discriminate..].
  destruct (Nat.eqb_spec (length tau) (length (sw_joints sw))) as [Hl|Hl]; [|discriminate]. cbn [negb].
  destruct (absorb _ _) as [ok js] eqn:Ea. intros [= -> <-]. destruct (absorb_spec _ _ _ Hu Hl Ea) as (Hg & Hu' & Hb').
  split; [|split; [by split|done]]. split; cbn; [done| |done|lia|].
  - rewrite Hc. by rewrite (Forall2_length _ _ _ Hg).
  - intros k Hk. destruct (Z.eq_dec k (next_sample sw)) as [->|Hne].
    + exists tau. by rewrite (pose_grows _ _ Hg).
    + eapply vouched_grows; [exact Hg|]. apply Hd. lia.
Qed.

Lemma slice_spec (n : nat) : forall t0 budget sw (l l' : CL) sw',
  sweep_ok sw -> Z.of_nat n <= sample_count sw - next_sample sw -> slice n t0 budget sw l = (Ok (true, sw'), l') ->
  sweep_ok sw' /\ continues sw sw' /\ next_sample sw + Z.of_nat (Nat.min n 1) <= next_sample sw'.
Proof.
  induction n as [|n IH]; intros t0 budget sw l l' sw' Hs Hn; cbn [slice].
  { intros [= <- <-]. split; [done|]. split; [by apply continues_refl|cbn; lia]. }
  unfold sbind at 1, of_result. destruct (evaluate _ sw) as [[[] sw1]|e|] eqn:Ee; [|discriminate..]; cbn [negb].
  destruct (evaluate_spec sw sw1 Hs ltac:(lia) Ee) as (Hs1 & Hc & Hx). unfold sbind, ask. destruct (tick (supervisor l)) as [t s].
  destruct (_ <=? _).
  - intros [= <- <-]. split; [done|]. split; [done|lia].
  - intros E. pose proof (ct_count _ _ Hc) as Hcount. apply IH in E as (Ho & Hc2 & Hx2); [|done|lia].
    split; [done|]. split; [by eapply continues_trans|lia].
Qed.

Lemma advance_spec (budget : SliceBudget) (sw sw' : GravitySweep) (l l' : CL) (step : SweepStep) :
  sweep_ok sw -> advance budget sw l = (Ok (step, sw'), l') ->
  match step with
  | SweepPending => sweep_ok sw' /\ continues sw sw' /\ next_sample sw < next_sample sw' < sample_count sw'
  | SweepDone true _ => sweep_ok sw' /\ continues sw sw' /\ next_sample sw' = sample_count sw' /\ within_limits sw' = true
  | SweepDone false _ => True
  end.
Proof.
  intros Hs. unfold advance. unfold sbind at 1, ask at 1. destruct (tick (supervisor l)) as [t0 s0].
  set (last := Z.min _ _). assert (Hlast : last <= sample_count sw) by lia.
  assert (Hstep : next_sample sw < sample_count sw -> next_sample sw < last).
  { pose proof (so_next _ Hs). pose proof (so_bound _ Hs). unfold last, sat_add_u64, MAX_GRID_SAMPLES, U64_MAX in *. lia. }
  unfold sbind at 1. destruct (slice _ _ _ sw _) as [[[ok sw1]|e|] l1] eqn:El; [|discriminate..].
  unfold sbind at 1, ask at 1. destruct (tick (supervisor l1)) as [t1 s1]. destruct ok.
  2: { cbn [andb]. unfold sbind, ask. destruct (tick _) as [t2 s2]. by intros [= <- <- <-]. }
  assert (Hn : Z.of_nat (Z.to_nat (last - next_sample sw)) <= sample_count sw - next_sample sw) by (pose proof (so_next _ Hs); lia).
  apply slice_spec in El as ([Hu Hcn Hb Hnx Hd] & [Hg Hc] & Hx); [|done|exact Hn]. cbn [andb]. cbn [next_sample sample_count record_slice].
  assert (Hs1 : sweep_ok (record_slice (elapsed t0 t1) sw1)) by (by split).
  destruct (Z.ltb_spec (next_sample sw1) (sample_count sw1)).
  - intros [= <- <- <-]. split; [done|]. split; [by split|]. cbn. specialize (Hstep ltac:(lia)). lia.
  - unfold sbind, ask. destruct (tick _) as [t2 s2]. intros [= <- <- <-]. destruct (within_limits _) eqn:Ew; [|done].
    split; [done|]. split; [by split|]. cbn in *. split; [lia|done].
Qed.

(** ** Start *)

Lemma capture_joint_spec (j : string) (l l' : CL) (o : option JointSweep) :
  capture_joint j l = (Ok o, l') -> match o with Some sj => sj_joint sj = j /\ usable sj | None => True end.
Proof.
  unfold capture_joint. unfold sbind at 1, get at 1. destruct (negb _); [by intros [= <- <-]|].
  destruct (joint_limit_policy _ _) as [p|]; [|by intros [= <- <-]]. unfold sbind, ask. destruct (joint_feedback j (supervisor l)) as [[fb|] s]; [|by intros [= <- <-]].
  destruct (Limits.effective_command_bounds _ _ _) as [lo hi]. by destruct (_ || _); intros [= <- <-].
Qed.

Lemma capture_joints_spec (names : list string) : forall (l l' : CL) js,
  capture_joints names l = (Ok (Some js), l') -> sj_joint <$> js = names /\ Forall usable js.
Proof.
  induction names as [|j names IH]; intros l l' js; cbn [capture_joints]; [by intros [= <- <-]|].
  unfold sbind at 1. destruct (capture_joint j l) as [[[sj|]|e|] l1] eqn:Ej; [|discriminate..].
  apply capture_joint_spec in Ej as [<- Hu]. unfold sbind. destruct (capture_joints names l1) as [[[js'|]|e|] l2] eqn:En; [|discriminate..].
  intros [= <- <-]. destruct (IH _ _ _ En) as [<- Hus]. by repeat constructor.
Qed.

Lemma sweep_start_spec (l l' : CL) (sw : GravitySweep) :
  start l = (Ok (Some sw), l') -> sweep_ok sw /\ sj_joint <$> sw_joints sw = names_of l /\ next_sample sw = 0.
Proof.
  unfold start. unfold sbind at 1, ask at 1. destruct (tick (supervisor l)) as [t s]. unfold sbind at 1, get at 1.
  unfold sbind at 1. destruct (capture_joints _ _) as [[[js|]|e|] l1] eqn:Ec; [|discriminate..].
  apply capture_joints_spec in Ec as [Hn Hu]. unfold sbind, get.
  destruct (_ || _) eqn:Eb; [discriminate|]. intros [= <- <-]. apply orb_false_iff in Eb as [Eb E3]. apply Z.ltb_ge in E3.
  split; [|done]. split; cbn; [done|done|done| |lia]. split; [lia|]. apply Z.pow_nonneg. done.
Qed.

(** ** Every grid point is a sample *)

Definition grid_pose (js : list JointSweep) (points : list Z) : list f64 := zip_with grid_angle js points.

Lemma sample_of_points (js : list JointSweep) : forall points,
  length points = length js -> Forall (fun p => 0 <= p < GRID_POINTS) points ->
  exists k, 0 <= k < GRID_POINTS ^ Z.of_nat (length js) /\ sample_pose k js = grid_pose js points.
Proof.
  induction js as [|j js IH]; intros [|p points] Hl Hp; try discriminate; [by exists 0|].
  inversion Hp as [|? ? Hp1 Hp2]; subst. destruct (IH points ltac:(cbn in Hl; lia) Hp2) as (k & Hk & Ek).
  exists (p + GRID_POINTS * k). cbn [length]. rewrite Nat2Z.inj_succ, Z.pow_succ_r by lia. unfold GRID_POINTS in *. split; [nia|].
  cbn [sample_pose grid_pose zip_with]. f_equal.
  - f_equal. unfold GRID_POINTS. rewrite Z.mul_comm, Z.mod_add by lia. by apply Z.mod_small.
  - etransitivity; [|exact Ek]. f_equal. unfold GRID_POINTS. rewrite Z.mul_comm, Z.div_add by lia. rewrite Z.div_small; lia.
Qed.

(** The torques the model gives at [points] are within the captured limits. *)
Definition vouches (js : list JointSweep) : Prop :=
  forall points, length points = length js -> Forall (fun p => 0 <= p < GRID_POINTS) points ->
  exists tau, gravity_torques dynamics (grid_pose js points) = Ok tau
    /\ Forall2 (fun j v => is_finite v = true /\ fle (fabs v) (Limits.tau_ff_max (sj_policy j)) = true) js tau.

Lemma pass_vouches (sw sw' : GravitySweep) :
  sweep_ok sw' -> continues sw sw' -> next_sample sw' = sample_count sw' -> within_limits sw' = true -> vouches (sw_joints sw).
Proof.
  intros [Hu Hcn Hb Hn Hd] [Hg Hc] He Hw points Hl Hp. pose proof (Forall2_length _ _ _ Hg) as Hlen.
  destruct (sample_of_points (sw_joints sw) points Hl Hp) as (k & Hk & Ek).
  destruct (Hd k) as (tau & Et & Hb'); [rewrite He, Hcn, <- Hlen; exact Hk|].
  exists tau. rewrite (pose_grows _ _ Hg), Ek in Et. split; [exact Et|].
  unfold within_limits in Hw. rewrite forallb_forall in Hw. clear - Hg Hb' Hw Hu. revert tau Hb' Hw.
  induction Hg as [|j j' js js' (_ & _ & _ & Hp & _) Hg IH]; intros tau Hb Hw; inversion Hb as [|? v ? tau' [Hf Hv]]; subst; constructor.
  - split; [done|]. specialize (Hw j' (or_introl eq_refl)). inversion Hu as [|? ? Hj _]; subst. unfold usable in Hj. unfold joint_within in Hw. rewrite Hp in Hw.
    eapply fle_trans; [exact Hv|]. revert Hw. generalize (Limits.tau_ff_max (sj_policy j)), (sj_max_tau_nm j') , Hj. intros c m Hm Hw.
    rewrite negb_true_iff, !orb_false_iff in Hw. destruct Hw as [[H1 H2] H3]. rewrite negb_false_iff in H1. float_solve.
  - inversion Hu; subst. apply IH; [done|done|]. intros x Hx. apply Hw. by right.
Qed.

(** Slices of a sweep still without a verdict. *)
Inductive sweeping (sw0 : GravitySweep) : nat -> GravitySweep -> Prop :=
| sweep_begun : sweeping sw0 0 sw0
| sweep_sliced (n : nat) (sw sw' : GravitySweep) (budget : SliceBudget) (l l' : CL) :
    sweeping sw0 n sw -> advance budget sw l = (Ok (SweepPending, sw'), l') -> sweeping sw0 (S n) sw'.

Lemma sweeping_ok (sw0 sw : GravitySweep) (n : nat) :
  sweep_ok sw0 -> sweeping sw0 n sw -> sweep_ok sw /\ continues sw0 sw /\ Z.of_nat n <= next_sample sw /\ (n <> O -> next_sample sw < sample_count sw).
Proof.
  intros Hs0. induction 1 as [|n sw sw' budget l l' _ (Hs & Hc & Hn & _) E].
  - split; [done|]. split; [by apply continues_refl|]. split; [apply Hs0|done].
  - apply advance_spec in E as (Hs' & Hc' & Hx); [|done]. split; [done|]. split; [by eapply continues_trans|]. split; [lia|]. intros _. lia.
Qed.

(** C26: a gravity preflight that passes vouches for the whole grid.  Whatever
    slices it was cut into and whatever happened in between, a sweep covers every
    joint of the loop, reaches its verdict before its number of samples (at most a
    million) is exceeded, and when it passes the model answered every point of the
    grid over the captured envelope with finite torques within the captured
    feed-forward limits. *)
Theorem preflight_vouches (l l0 : CL) (sw0 sw : GravitySweep) (n : nat) :
  start l = (Ok (Some sw0), l0) -> sweeping sw0 n sw ->
  sj_joint <$> sw_joints sw0 = names_of l
  /\ Z.of_nat n < sample_count sw0 <= MAX_GRID_SAMPLES
  /\ forall budget l1 stats sw1 l2, advance budget sw l1 = (Ok (SweepDone true stats, sw1), l2) -> vouches (sw_joints sw0).
Proof.
  intros E0 Hr. destruct (sweep_start_spec _ _ _ E0) as (Hs0 & Hn & _). destruct (sweeping_ok _ _ _ Hs0 Hr) as (Hs & Hc & Hx & Hlt).
  split; [done|]. split.
  - pose proof (so_bound _ Hs0). rewrite <- (ct_count _ _ Hc) in *. destruct n; [|specialize (Hlt ltac:(lia)); lia].
    pose proof (so_count _ Hs) as ->. split; [|by rewrite <- (so_count _ Hs)]. apply Z.pow_pos_nonneg; [done|lia].
  - intros budget l1 stats sw1 l2 E1. apply advance_spec in E1 as (Hs1 & Hc1 & He & Hw); [|done].
    eapply pass_vouches; [exact Hs1|by eapply continues_trans|exact He|exact Hw].
Qed.

End Sweep.

(** ** A bench sweep of one joint *)

Definition flat_model : DynamicsModel := mkModel [Authority.pitch] (fun q => Ok ((fun _ => fone) <$> q)).

Definition sweep_loop : ControlLoop (Reporting.Spy MemoryBus) unit :=
  mkLoop Stop.bench_sup (mkSetup [Authority.pitch] [] 5000000 200 50000000)
    (mkMotion CDisabled (PosHold.with_progress_thresholds [fone]) [] (Gains.for_loop_hz 200) ∅ None 0) (mkSeen 0 None None 0 0 0) true None [].

Definition captured : GravitySweep :=
  match (start sweep_loop).1 with Ok (Some sw) => sw | _ => mkSweep [] 0 0 0 0 0 0 false false end.
Definition two_samples : SliceBudget := mkBudget 2 1000000000.
Abbreviation sliced sw := (advance flat_model two_samples sw sweep_loop).
Definition once : GravitySweep := match (sliced captured).1 with Ok (_, sw) => sw | _ => captured end.
Definition twice : GravitySweep := match (sliced once).1 with Ok (_, sw) => sw | _ => captured end.
Definition passes (o : result LoopError (SweepStep * GravitySweep)) : bool :=
  match o with Ok (SweepDone b _, _) => b | _ => false end.

Lemma first_of {A C : Type} (x : A * C) (a : A) : x.1 = a -> exists c, x = (a, c).
Proof. destruct x as [y c]. cbn. intros ->. by exists c. Qed.

Lemma captured_start : exists l, start sweep_loop = (Ok (Some captured), l).
Proof. apply first_of. vm_compute. reflexivity. Qed.
Lemma first_slice : exists l, sliced captured = (Ok (SweepPending, once), l).
Proof. apply first_of. vm_compute. reflexivity. Qed.
Lemma second_slice : exists l, sliced once = (Ok (SweepPending, twice), l).
Proof. apply first_of. vm_compute. reflexivity. Qed.
Lemma last_slice : passes (sliced twice).1 = true.
Proof. vm_compute. reflexivity. Qed.

Lemma preflight_vouches_witness : passes (sliced twice).1 = true /\ vouches flat_model (sw_joints captured).
Proof.
  pose proof last_slice as E3. split; [exact E3|].
  destruct captured_start as [l0 E0], first_slice as [l1 E1], second_slice as [l2 E2]. revert E0 E1 E2 E3.
  generalize captured, once, twice. intros sw0 sw1 sw2 E0 E1 E2 E3.
  destruct (sliced sw2) as [[[[|[] stats] sw3]|e|] l3] eqn:E4; try discriminate E3.
  refine (proj2 (proj2 (preflight_vouches flat_model sweep_loop _ sw0 sw2 2 E0 _)) _ _ _ _ _ E4).
  refine (sweep_sliced _ _ _ _ _ _ _ _ _ E2). exact (sweep_sliced _ _ _ _ _ _ _ _ (sweep_begun _ _) E1).
Defined.

End Preflight.
