(* ===== verification/Exit.v ===== *)
(** * Exit: reporting leases, status solicits and the Off at process exit

    From [src/crates/davout/src/lib.rs] the operations on type-24 reporting the
    owner calls directly: leases, [solicit_status_feedback] and
    [release_reporting_for_exit], with the report of [active_reporting.rs].
    [display_bus] and [debug_lease] render errors. *)

From Stdlib Require Import ZArith Lia Bool.
From stdpp Require Import base gmap strings list.
From S2P Require Import Prelude Float Config Bus Reporting Faults Davout Admission Lifecycle Stop.

Module Exit.
Import Bus Faults Davout Admission Lifecycle.

Inductive ExitReportingOff : Type := OffSent | OffFailed (m : string) | OffShed | OffBlackout.

#[export] Instance ExitReportingOff_eq_dec : EqDecision ExitReportingOff.
Proof. solve_decision. Defined.

Record ExitReportingReport : Type := mkExitReport { drives : list (MotorAddress * ExitReportingOff) }.

Definition all_sent (r : ExitReportingReport) : bool :=
  negb (bool_decide (drives r = [])) && forallb (fun d => bool_decide (d.2 = OffSent)) (drives r).

Section Exit.
Context {B : Type} `{CanBus B} {R : Type} `{ReferenceWork R}.
Variable observed : Observer B R.
Variable display_bus : BusError -> string.
Variable debug_lease : Reporting.ActiveReportingLeaseError -> string.

Abbreviation S := (Sup B R).
Abbreviation M A := (A * Sup B R)%type.

(** ** Leases *)

Definition map_lease_error (e : Reporting.ActiveReportingLeaseError) : DavoutError :=
  match e with
  | Reporting.LUnknownJoint joint => EUnknownJoint joint
  | e => EHoming (Msg "active reporting lease: {:?}" [AStr (debug_lease e)])
  end.

Definition change_lease (f : Reporting.ActiveReportingState -> list Config.MotorEntry -> result Reporting.ActiveReportingLeaseError Reporting.ActiveReportingState)
  (s : S) : M (result DavoutError unit) :=
  match f (reporting s) (motors (adm s)) with
  | Ok r => (Ok tt, sync_active_reporting observed (set_reporting r s))
  | Err e => (Err (map_lease_error e), s)
  | Panic => (Panic, s)
  end.

Definition acquire_active_reporting_lease (joint client_id lease_id : string) (ttl : Z) (s : S) : M (result DavoutError unit) :=
  let '(t, s) := tick s in change_lease (fun r known => Reporting.acquire r joint client_id lease_id ttl t known) s.

Definition renew_active_reporting_lease (joint client_id lease_id : string) (ttl : Z) (s : S) : M (result DavoutError unit) :=
  let '(t, s) := tick s in change_lease (fun r known => Reporting.renew r joint client_id lease_id ttl t known) s.

Definition release_active_reporting_lease (joint lease_id : string) (s : S) : M (result DavoutError unit) :=
  change_lease (fun r known => Reporting.release r joint lease_id known) s.

(** ** Status solicit *)

Fixpoint solicit_each (targets : list MotorAddress) (pacer : option BurstPacer) (s : S) : S :=
  match targets with
  | [] => s
  | a :: rest =>
      let '(pacer, s) :=
        match pacer with
        | Some p => let '(p, c) := begin_group (interface a) p (hostclock s) in (Some p, set_clock c s)
        | None => (None, s)
        end in
      let '(_, b) := disable_drive_at (bus s) a in
      solicit_each rest pacer (set_bus b s)
  end.

Definition solicit_status_feedback (s : S) : S :=
  let '(busy, s) := reference_busy observed s in
  if busy || bool_decide (mode (adm s) = Active) then s
  else
    let global := Config.active_reporting_diagnostics (sv_control (adm s)) in
    let '(t, s) := tick s in
    let targets := address_of_motor <$> List.filter (fun m => negb (Reporting.desired (reporting s) (Config.joint m) false global t)) (motors (adm s)) in
    solicit_each targets (if echoes_transmissions (bus s) then Some ∅ else None) s.

(** ** Off at exit *)

Definition set_released (s : S) : S :=
  mkSup (adm s) (installed s) (hardware_estop s) (stop_motors s) (authority s) (physical s) (rwork s) (reporting s)
    (session s) (session_pacer s) (tracking s) (loss s) true (diag s) (bus s) (hostclock s).

Definition off_outcome (r : result BusError unit) : ExitReportingOff :=
  match error_of r with None => OffSent | Some e => OffFailed (bounded_message (display_bus e)) end.

(** One drive at [t]: its outcome, or the end of the quiet it waits for. *)
Definition exit_drive (t : Z) (m : Config.MotorEntry) (s : S) : (ExitReportingOff + Z) * S :=
  let a := address_of_motor m in
  if is_shed (adm s) a then (inl OffShed, s)
  else if set_zero_blackout_possible (adm s) a t then (inr (default t (set_zero_quiet_until (adm s) a)), s)
  else
    let '(r, b) := disable_active_reporting_at (bus s) a in
    let s := set_bus b s in
    (inl (off_outcome r),
     match error_of r with None => set_reporting (Reporting.record_off (reporting s) (Config.joint m) t) s | Some _ => s end).

Definition sooner (next : option Z) (quiet_end : Z) : option Z :=
  Some (match next with Some n => Z.min n quiet_end | None => quiet_end end).

(** One pass over the drives without an outcome. *)
Fixpoint exit_pass (t : Z) (ms : list Config.MotorEntry) (outs : list (option ExitReportingOff)) (next : option Z) (s : S)
  : list (option ExitReportingOff) * option Z * S :=
  match ms, outs with
  | m :: ms, Some o :: outs => let '(rest, next, s) := exit_pass t ms outs next s in (Some o :: rest, next, s)
  | m :: ms, None :: outs =>
      let '(r, s) := exit_drive t m s in
      match r with
      | inl o => let '(rest, next, s) := exit_pass t ms outs next s in (Some o :: rest, next, s)
      | inr quiet_end => let '(rest, next, s) := exit_pass t ms outs (sooner next quiet_end) s in (None :: rest, next, s)
      end
  | _, _ => (outs, next, s)
  end.

(** [loop]; [Panic] is fuel that ran out. *)
Fixpoint exit_rounds (fuel : nat) (deadline : Z) (outs : list (option ExitReportingOff)) (s : S)
  : result Empty_set (list (option ExitReportingOff)) * S :=
  match fuel with
  | O => (Panic, s)
  | Datatypes.S fuel =>
      let '(t, s) := tick s in
      let '(outs, next, s) := exit_pass t (stop_motors s) outs None s in
      match next with
      | Some quiet_end =>
          if quiet_end <=? deadline then
            let '(t, s) := tick s in
            exit_rounds fuel deadline outs (set_clock (sleep (Z.max 0 (quiet_end - t)) (hostclock s)) s)
          else (Ok outs, s)
      | None => (Ok outs, s)
      end
  end.

(** A round resolves at least one drive, so one more than there are drives is enough. *)
Definition release_reporting_for_exit (deadline : Z) (s : S) : result Empty_set ExitReportingReport * S :=
  let s := set_released s in
  let ms := stop_motors s in
  match exit_rounds (Datatypes.S (length ms)) deadline (replicate (length ms) None) s with
  | (Ok outs, s) => (Ok (mkExitReport (zip (address_of_motor <$> ms) (default OffBlackout <$> outs))), s)
  | (Err e, s) => (Err e, s)
  | (Panic, s) => (Panic, s)
  end.

End Exit.

(** ** What the exit writes *)

(** Instants do not run backwards. *)
Definition monotone (c : clock) : Prop := forall n, ticks c n <= ticks c (S n).

(** Unchanged while the Offs go out. *)
Definition exiting {B R : Type} `{CanBus B} (s s' : Sup B R) : Prop :=
  adm s' = adm s /\ stop_motors s' = stop_motors s /\ exit_reporting_released s' = exit_reporting_released s
  /\ ticks (hostclock s') = ticks (hostclock s).

Section Wire.
Context {B0 : Type} `{CanBus B0} {R : Type} `{ReferenceWork R}.
Abbreviation B := (Reporting.Spy B0).
Abbreviation S := (Sup (Reporting.Spy B0) R).
Variable display_bus : BusError -> string.

(** The writes an outcome stands for. *)
Definition off_writes (m : Config.MotorEntry) (o : ExitReportingOff) : list Reporting.attempt :=
  match o with
  | OffSent => [(address_of_motor m, Reporting.reporting_frame m false, true)]
  | OffFailed _ => [(address_of_motor m, Reporting.reporting_frame m false, false)]
  | OffShed | OffBlackout => []
  end.

Definition pending_writes (m : Config.MotorEntry) (o : option ExitReportingOff) : list Reporting.attempt :=
  match o with Some o => off_writes m o | None => [] end.

Definition all_writes (ms : list Config.MotorEntry) (outs : list (option ExitReportingOff)) : list Reporting.attempt :=
  concat (zip_with pending_writes ms outs).

Definition outcome_right (sv : Admission.Supervisor) (m : Config.MotorEntry) (o : option ExitReportingOff) : Prop :=
  match o with
  | Some OffShed => is_shed sv (address_of_motor m) = true
  | Some OffBlackout => False
  | Some _ => is_shed sv (address_of_motor m) = false
  | None => True
  end.

Lemma exiting_refl (s : S) : exiting s s.
Proof. by repeat split. Qed.
Lemma exiting_trans (a b c : S) : exiting a b -> exiting b c -> exiting a c.
Proof. intros (?&?&?&?) (?&?&?&?). repeat split; congruence. Qed.

Lemma exit_drive_spec (t : Z) (m : Config.MotorEntry) (s : S) :
  let '(r, s') := exit_drive display_bus t m s in
  exiting s s'
  /\ match r with
     | inl o => Reporting.attempts (bus s') = Reporting.attempts (bus s) ++ off_writes m o /\ outcome_right (adm s) m (Some o)
     | inr e => Reporting.attempts (bus s') = Reporting.attempts (bus s)
                /\ set_zero_blackout_possible (adm s) (address_of_motor m) t = true /\ set_zero_quiet_until (adm s) (address_of_motor m) = Some e
                /\ is_shed (adm s) (address_of_motor m) = false
     end.
Proof.
  unfold exit_drive. destruct (is_shed _ _) eqn:Es; [split; [apply exiting_refl|by rewrite app_nil_r]|].
  destruct (set_zero_blackout_possible _ _ _) eqn:Eb.
  { split; [apply exiting_refl|]. split; [done|]. split; [done|]. split; [|done]. unfold set_zero_blackout_possible in Eb. unfold set_zero_quiet_until.
    by destruct (set_zero_on_wire _ !! _). }
  destruct (Reporting.spy_write (Reporting.spied (bus s)) (Reporting.attempts (bus s)) m false) as (r & b' & Ew).
  assert (Hb : Reporting.mkSpy (Reporting.spied (bus s)) (Reporting.attempts (bus s)) = bus s) by (by destruct (bus s)). rewrite Hb in Ew. cbn iota in Ew. rewrite Ew.
  unfold off_outcome. destruct r as [u|e|]; cbn; (split; [by repeat split|]); by rewrite Es.
Qed.

Definition unresolved (outs : list (option ExitReportingOff)) : nat := length (filter (fun o => o = None) outs).

(** A drive still waiting at [t], with the end of its quiet. *)
Definition waits (sv : Admission.Supervisor) (t : Z) (m : Config.MotorEntry) (o o' : option ExitReportingOff) : Prop :=
  match o with
  | Some _ => o' = o
  | None => o' = None -> set_zero_blackout_possible sv (address_of_motor m) t = true
  end.

Lemma exit_pass_spec (t : Z) (ms : list Config.MotorEntry) : forall outs next (s : S),
  length outs = length ms -> Forall2 (outcome_right (adm s)) ms outs ->
  let '(outs', next', s') := exit_pass display_bus t ms outs next s in
  exiting s s' /\ length outs' = length ms /\ Forall2 (outcome_right (adm s)) ms outs'
  /\ (exists w, Reporting.attempts (bus s') = Reporting.attempts (bus s) ++ w /\ all_writes ms outs' ≡ₚ all_writes ms outs ++ w)
  /\ Forall2 (fun m p => waits (adm s) t m p.1 p.2) ms (zip outs outs')
  /\ match next' with
     | None => next = None /\ Forall (fun o => o <> None) outs'
     | Some e => next = Some e \/ exists i m, ms !! i = Some m /\ outs' !! i = Some None /\ outs !! i = Some None
                                             /\ set_zero_quiet_until (adm s) (address_of_motor m) = Some e
     end.
Proof.
  induction ms as [|m ms IH]; intros [|o outs] next s Hl Hr; try discriminate; cbn [exit_pass].
  { split; [apply exiting_refl|]. split; [done|]. split; [done|]. split; [exists []; by rewrite app_nil_r|]. split; [constructor|].
    destruct next; [by left|by split]. }
  inversion Hr as [|? ? ? ? Ho Hr']; subst. cbn in Hl. destruct o as [o|].
  - specialize (IH outs next s ltac:(lia) Hr'). destruct (exit_pass _ t ms outs next s) as [[outs' next'] s'].
    destruct IH as (Hx & Hl' & Hr2 & (w & Hw & Hp) & Hf & Hn). split; [done|]. split; [cbn; lia|]. split; [by constructor|].
    split; [exists w; split; [done|]; cbn; by rewrite Hp, app_assoc|]. split; [by constructor|].
    destruct next' as [e|]; [|destruct Hn; split; [done|by constructor]].
    destruct Hn as [->|(i & m0 & ? & ? & ? & ?)]; [by left|]. right. by exists (Datatypes.S i), m0.
  - pose proof (exit_drive_spec t m s) as Hd. destruct (exit_drive _ t m s) as [r s1]. destruct Hd as [Hx1 Hd].
    pose proof Hx1 as (Ea & _). destruct r as [o|e].
    + destruct Hd as [Hw1 Ho1]. specialize (IH outs next s1 ltac:(lia)). rewrite Ea in IH. specialize (IH Hr').
      destruct (exit_pass _ t ms outs next s1) as [[outs' next'] s'].
      destruct IH as (Hx & Hl' & Hr2 & (w & Hw & Hp) & Hf & Hn). split; [by eapply exiting_trans|]. split; [cbn; lia|]. split; [by constructor|].
      split; [exists (off_writes m o ++ w); split; [by rewrite Hw, Hw1, app_assoc|]|].
      { cbn. rewrite Hp, app_assoc. by rewrite (Permutation_app_comm (off_writes m o)), <- app_assoc. }
      split; [constructor; [done|done]|].
      destruct next' as [e|]; [|destruct Hn; split; [done|by constructor]].
      destruct Hn as [->|(i & m0 & ? & ? & ? & ?)]; [by left|]. right. by exists (Datatypes.S i), m0.
    + destruct Hd as (Hw1 & Hb1 & Hq1 & _). specialize (IH outs (sooner next e) s1 ltac:(lia)). rewrite Ea in IH. specialize (IH Hr').
      destruct (exit_pass _ t ms outs (sooner next e) s1) as [[outs' next'] s'].
      destruct IH as (Hx & Hl' & Hr2 & (w & Hw & Hp) & Hf & Hn). split; [by eapply exiting_trans|]. split; [cbn; lia|]. split; [by constructor|].
      split; [exists w; split; [by rewrite Hw, Hw1|cbn; exact Hp]|]. split; [constructor; [intros _; exact Hb1|done]|].
      destruct next' as [e'|]; [|destruct Hn; discriminate].
      destruct Hn as [Hn|(i & m0 & ? & ? & ? & ?)]; [|right; by exists (Datatypes.S i), m0].
      unfold sooner in Hn. injection Hn as <-. destruct next as [n|]; [|right; by exists 0%nat, m].
      destruct (Z.min_spec n e) as [[_ ->]|[_ ->]]; [by left|]. right. by exists 0%nat, m.
Qed.

(** A drive left waiting is driving, and its quiet ends no sooner than [next]. *)
Definition held_back (sv : Admission.Supervisor) (next : option Z) (m : Config.MotorEntry) (o : option ExitReportingOff) : Prop :=
  o = None -> is_shed sv (address_of_motor m) = false
    /\ exists n e, next = Some n /\ set_zero_quiet_until sv (address_of_motor m) = Some e /\ n <= e.

Lemma exit_pass_soonest (t : Z) (ms : list Config.MotorEntry) : forall outs next (s : S),
  length outs = length ms ->
  let '(outs', next', s') := exit_pass display_bus t ms outs next s in
  (forall n0, next = Some n0 -> exists n, next' = Some n /\ n <= n0) /\ Forall2 (held_back (adm s) next') ms outs'.
Proof.
  induction ms as [|m ms IH]; intros [|o outs] next s Hl; try discriminate; cbn [exit_pass].
  { split; [|constructor]. intros n0 ->. exists n0. split; [done|lia]. }
  cbn in Hl. destruct o as [o|].
  - specialize (IH outs next s ltac:(lia)). destruct (exit_pass _ t ms outs next s) as [[outs' next'] s'].
    destruct IH as [IH1 IH2]. split; [done|]. by constructor.
  - pose proof (exit_drive_spec t m s) as Hd. destruct (exit_drive _ t m s) as [r s1]. destruct Hd as [(Ea & _) Hd].
    destruct r as [o|e].
    + specialize (IH outs next s1 ltac:(lia)). rewrite Ea in IH. destruct (exit_pass _ t ms outs next s1) as [[outs' next'] s'].
      destruct IH as [IH1 IH2]. split; [done|]. by constructor.
    + destruct Hd as (_ & _ & Hq & Hs). specialize (IH outs (sooner next e) s1 ltac:(lia)). rewrite Ea in IH.
      destruct (exit_pass _ t ms outs (sooner next e) s1) as [[outs' next'] s']. destruct IH as [IH1 IH2].
      destruct (IH1 _ eq_refl) as (n & -> & Hn). split.
      * intros n0 ->. exists n. split; [done|lia].
      * constructor; [|done]. intros _. split; [done|]. exists n, e. split; [done|]. split; [done|]. destruct next; lia.
Qed.

Lemma unresolved_le (outs outs' : list (option ExitReportingOff)) :
  Forall2 (fun o o' => o' = None -> o = None) outs outs' ->
  (unresolved outs' <= unresolved outs)%nat
  /\ forall i, outs !! i = Some None -> outs' !! i <> Some None -> (unresolved outs' < unresolved outs)%nat.
Proof.
  unfold unresolved. induction 1 as [|o o' outs outs' Ho _ [IH1 IH2]]; [split; [done|]; intros i Hi; by rewrite lookup_nil in Hi|].
  destruct o' as [o'|], o as [o|]; rewrite !filter_cons; repeat case_decide; try (specialize (Ho eq_refl)); try congruence; cbn [length].
  - split; [done|]. intros [|i] H1' H2'; [done|]. by apply (IH2 i).
  - split; [lia|]. intros i _ _. lia.
  - split; [lia|]. intros [|i] H1' H2'; [done|]. specialize (IH2 i H1' H2'). lia.
Qed.

Lemma waits_back (sv : Admission.Supervisor) (t : Z) (ms : list Config.MotorEntry) : forall outs outs',
  length outs = length ms -> length outs' = length ms ->
  Forall2 (fun m p => waits sv t m p.1 p.2) ms (zip outs outs') -> Forall2 (fun o o' => o' = None -> o = None) outs outs'.
Proof.
  induction ms as [|m ms IH]; intros [|o outs] [|o' outs'] H1 H2 Hf; try discriminate; [constructor|].
  inversion Hf as [|? ? ? ? Hw Hf']; subst. constructor; [|apply IH; auto; cbn in *; lia]. intros ->. destruct o; [discriminate Hw|done].
Qed.

(** A drive without an outcome whose quiet is over at the next reading. *)
Definition ready (outs : list (option ExitReportingOff)) (s : S) : Prop :=
  exists i m e, stop_motors s !! i = Some m /\ outs !! i = Some None
    /\ set_zero_quiet_until (adm s) (address_of_motor m) = Some e /\ e <= (now (hostclock s)).1.

Lemma ready_resolves (outs outs' : list (option ExitReportingOff)) (s : S) :
  length outs = length (stop_motors s) -> length outs' = length (stop_motors s) ->
  Forall2 (fun m p => waits (adm s) (now (hostclock s)).1 m p.1 p.2) (stop_motors s) (zip outs outs') -> ready outs s ->
  (unresolved outs' < unresolved outs)%nat.
Proof.
  intros H1 H2 Hf (i & m & e & Hm & Ho & Hq & He). destruct (unresolved_le _ _ (waits_back _ _ _ _ _ H1 H2 Hf)) as [_ Hlt].
  apply (Hlt i Ho). intros Ho'. assert (Hz : zip outs outs' !! i = Some (None, None)) by (apply lookup_zip_with_Some; eauto).
  pose proof (Forall2_lookup_lr _ _ _ _ _ _ Hf Hm Hz) as Hb. specialize (Hb eq_refl). unfold set_zero_blackout_possible in Hb.
  unfold set_zero_quiet_until in Hq. destruct (set_zero_on_wire _ !! _) as [at_|]; [|done]. injection Hq as <-.
  apply andb_true_iff in Hb as [_ Hb]. apply Z.ltb_lt in Hb. unfold elapsed in Hb. lia.
Qed.

(** [adm] and the drives stay: what [exit_rounds] ends with. *)
Record exited (s : S) (outs : list (option ExitReportingOff)) (s' : S) (outs' : list (option ExitReportingOff)) : Prop := {
  ex_state : exiting s s';
  ex_length : length outs' = length (stop_motors s);
  ex_right : Forall2 (outcome_right (adm s)) (stop_motors s) outs';
  ex_writes : exists w, Reporting.attempts (bus s') = Reporting.attempts (bus s) ++ w
                /\ all_writes (stop_motors s) outs' ≡ₚ all_writes (stop_motors s) outs ++ w
}.

Lemma exited_trans (s s1 s' : S) outs outs1 outs' : exited s outs s1 outs1 -> exited s1 outs1 s' outs' -> exited s outs s' outs'.
Proof.
  intros [X1 L1 R1 (w1 & A1 & P1)] [X2 L2 R2 (w2 & A2 & P2)]. pose proof X1 as (Ea & Em & _). rewrite Em in *. rewrite Ea in *.
  split; [by eapply exiting_trans|done|done|]. exists (w1 ++ w2). split; [by rewrite A2, A1, app_assoc|]. by rewrite P2, P1, app_assoc.
Qed.

(** A drive without an outcome: its quiet outlasts the deadline. *)
Definition too_late (deadline : Z) (sv : Admission.Supervisor) (m : Config.MotorEntry) (o : option ExitReportingOff) : Prop :=
  o = None -> is_shed sv (address_of_motor m) = false
    /\ exists e, set_zero_quiet_until sv (address_of_motor m) = Some e /\ deadline < e.

Lemma exit_rounds_spec (deadline : Z) (fuel : nat) : forall outs (s : S),
  monotone (hostclock s) -> length outs = length (stop_motors s) -> Forall2 (outcome_right (adm s)) (stop_motors s) outs ->
  (unresolved outs < fuel)%nat \/ ((unresolved outs <= fuel)%nat /\ ready outs s) ->
  exists outs' s', exit_rounds display_bus fuel deadline outs s = (Ok outs', s') /\ exited s outs s' outs'
    /\ Forall2 (too_late deadline (adm s)) (stop_motors s) outs'.
Proof.
  induction fuel as [|fuel IH]; intros outs s Hm Hl Hr Hu; cbn [exit_rounds].
  { destruct Hu as [?|[Hu (i & m & e & _ & Ho & _)]]; [lia|]. exfalso. unfold unresolved in Hu.
    assert (In None (filter (fun o => o = None) outs)) as Hin by (apply list_elem_of_In, list_elem_of_filter; split; [done|by eapply list_elem_of_lookup_2]).
    destruct (filter _ outs); [done|cbn in Hu; lia]. }
  unfold tick at 1. destruct (now (hostclock s)) as [t c] eqn:En. pose proof (exit_pass_spec t (stop_motors s) outs None (set_clock c s) Hl Hr) as Hp.
  pose proof (exit_pass_soonest t (stop_motors s) outs None (set_clock c s) Hl) as Hs.
  cbn [stop_motors set_clock]. destruct (exit_pass _ t _ outs None _) as [[outs1 next] s1]. destruct Hs as [_ Hs].
  destruct Hp as (Hx & Hl1 & Hr1 & Hw1 & Hf & Hn). cbn [adm set_clock bus] in *.
  assert (Ht : t = (now (hostclock s)).1) by (by rewrite En).
  assert (Hx1 : exited s outs s1 outs1).
  { split; [|done|done|exact Hw1]. unfold now in En. injection En as _ <-. exact Hx. }
  destruct next as [e|]; [|exists outs1, s1; split; [done|]; split; [done|]; eapply Forall2_impl; [exact Hs|]; intros m o Hh Ho; by destruct (Hh Ho) as (_ & ? & ? & ? & _)].
  destruct (e <=? deadline) eqn:Ed.
  2:{ exists outs1, s1. split; [done|]. split; [done|]. eapply Forall2_impl; [exact Hs|]. intros m o Hh Ho.
      destruct (Hh Ho) as (? & n & q & [= <-] & ? & ?). split; [done|]. exists q. split; [done|]. apply Z.leb_gt in Ed. lia. }
  destruct Hn as [?|(i & m & Hmi & Ho1 & Ho & Hq)]; [discriminate|]. unfold tick. destruct (now (hostclock s1)) as [t1 c1] eqn:En1.
  set (s2 := set_clock _ _). destruct Hx as (Ea & Em & Er & Ek). cbn in Ea, Em, Er, Ek.
  assert (Hx2 : exited s1 outs1 s2 outs1).
  { unfold now in En1. injection En1 as _ <-. split; [by repeat split|by rewrite Em|by rewrite Ea, Em|]. exists []. by rewrite !app_nil_r. }
  assert (Hk : ticks (hostclock s1) = ticks (hostclock s)) by (rewrite Ek; unfold now in En; by injection En as _ <-).
  destruct (IH outs1 s2) as (outs' & s' & E' & Hx' & Hl').
  - unfold now in En1. injection En1 as _ <-. cbn. by rewrite Hk.
  - cbn. by rewrite Em.
  - cbn. by rewrite Em, Ea.
  - assert (Hle : (unresolved outs1 < unresolved outs)%nat \/ (unresolved outs1 <= unresolved outs)%nat /\ (unresolved outs <= fuel)%nat).
    { destruct Hu as [Hu|[Hu Hready]]; [right|left].
      - split; [|lia]. apply unresolved_le. by eapply waits_back.
      - eapply ready_resolves; [exact Hl|exact Hl1| |done]. rewrite <- Ht. exact Hf. }
    right. split; [destruct Hu as [|[]]; destruct Hle as [|[]]; lia|].
    exists i, m, e. cbn. rewrite Em, Ea. split; [done|]. split; [done|]. split; [done|].
    unfold now in En1. injection En1 as <- <-. cbn. rewrite Hk. specialize (Hm (cursor (hostclock s1))). lia.
  - exists outs', s'. split; [exact E'|]. split; [by eapply exited_trans; [|eapply exited_trans]|].
    revert Hl'. cbn. by rewrite Ea, Em.
Qed.

(** An outcome of the report against the drive it stands for. *)
Definition reported_right (deadline : Z) (sv : Admission.Supervisor) (m : Config.MotorEntry) (o : ExitReportingOff) : Prop :=
  match o with
  | OffShed => is_shed sv (address_of_motor m) = true
  | OffBlackout => is_shed sv (address_of_motor m) = false
                   /\ exists e, set_zero_quiet_until sv (address_of_motor m) = Some e /\ deadline < e
  | _ => is_shed sv (address_of_motor m) = false
  end.

Lemma all_writes_none (ms : list Config.MotorEntry) : all_writes ms (replicate (length ms) None) = [].
Proof. induction ms as [|m ms IH]; [done|exact IH]. Qed.

Lemma all_writes_report (ms : list Config.MotorEntry) : forall outs,
  all_writes ms outs = concat (zip_with off_writes ms (default OffBlackout <$> outs)).
Proof. unfold all_writes. induction ms as [|m ms IH]; intros [|o outs]; cbn; [done..|]. rewrite IH. by destruct o. Qed.

Lemma unresolved_none (n : nat) : unresolved (replicate n None) = n.
Proof. unfold unresolved. induction n as [|n IH]; [done|]. cbn [replicate]. rewrite filter_cons. case_decide; [|done]. cbn. by rewrite IH. Qed.

(** C29: [release_reporting_for_exit] returns, whatever the quiet windows, when
    the host clock does not run backwards. The report has one outcome per drive of
    the stop set, in order; a shed drive gets nothing; a driving one gets exactly
    one Off on the wire, counted as sent or failed, or is given up only when its
    quiet outlasts the deadline. Reporting stays released. *)
Theorem exit_reporting_complete (deadline : Z) (s : S) (Hclock : monotone (hostclock s)) :
  exists outs s' w,
    release_reporting_for_exit display_bus deadline s = (Ok (mkExitReport (zip (address_of_motor <$> stop_motors s) outs)), s')
    /\ Forall2 (reported_right deadline (adm s)) (stop_motors s) outs
    /\ Reporting.attempts (bus s') = Reporting.attempts (bus s) ++ w
    /\ w ≡ₚ concat (zip_with off_writes (stop_motors s) outs)
    /\ adm s' = adm s /\ stop_motors s' = stop_motors s /\ exit_reporting_released s' = true.
Proof.
  unfold release_reporting_for_exit. destruct (exit_rounds_spec deadline (Datatypes.S (length (stop_motors s)))
    (replicate (length (stop_motors s)) None) (set_released s)) as (outs & s' & E & [(Ea & Em & Er & _) Hl Hr (w & Hw & Hp)] & Hd).
  - exact Hclock.
  - by rewrite length_replicate.
  - cbn. induction (stop_motors s); by constructor.
  - left. rewrite unresolved_none. lia.
  - cbn [stop_motors set_released] in *. rewrite E. exists (default OffBlackout <$> outs), s', w. split; [done|].
    cbn in *. split.
    { apply Forall2_fmap_r. apply Forall2_same_length_lookup. split; [done|]. intros i m o Hm Ho.
      pose proof (Forall2_lookup_lr _ _ _ _ _ _ Hr Hm Ho) as Hrm. pose proof (Forall2_lookup_lr _ _ _ _ _ _ Hd Hm Ho) as Hdm.
      destruct o as [[]|]; cbn in *; try done. by apply Hdm. }
    split; [done|]. split; [|done]. rewrite all_writes_none in Hp. by rewrite <- all_writes_report, Hp.
Qed.

End Wire.

Example exit_bench_report : (release_reporting_for_exit (fun _ => ""%string) 0 Stop.bench_sup).1 = Ok (mkExitReport [(Admission.bench_address, OffSent)]).
Proof. vm_compute. reflexivity. Qed.

Lemma exit_reporting_complete_witness :
  monotone (hostclock Stop.bench_sup)
  /\ exists outs s' w,
    release_reporting_for_exit (fun _ => ""%string) 0 Stop.bench_sup
      = (Ok (mkExitReport (zip (address_of_motor <$> stop_motors Stop.bench_sup) outs)), s')
    /\ Forall2 (reported_right 0 (adm Stop.bench_sup)) (stop_motors Stop.bench_sup) outs
    /\ Reporting.attempts (bus s') = Reporting.attempts (bus Stop.bench_sup) ++ w
    /\ w ≡ₚ concat (zip_with off_writes (stop_motors Stop.bench_sup) outs)
    /\ adm s' = adm Stop.bench_sup /\ stop_motors s' = stop_motors Stop.bench_sup /\ exit_reporting_released s' = true.
Proof.
  assert (Hm : monotone (hostclock Stop.bench_sup)) by (intros n; cbn; lia).
  split; [exact Hm|]. exact (exit_reporting_complete (fun _ => ""%string) 0 Stop.bench_sup Hm).
Defined.

End Exit.
