(* ===== verification/Gate.v ===== *)
(** * Gate: motion ownership and the enable gate

    From [src/bins/marengo-pi/src/]: [motion_owner.rs] (who may command motion),
    [PiCommand] of [main.rs], and [enable_gate.rs] (the requests that wait for a
    gravity sweep or for an Enable to complete).

    The gate is a record of its own; [submit] and [poll] also run loop commands
    and live in [st] over the loop.  [say!] and [say_err!] lines are the values
    [GateLine]; [display_loop] and [display] render errors in them. *)

From Stdlib Require Import ZArith Lia Bool SpecFloat.
From stdpp Require Import base gmap strings list.
From S2P Require Import Prelude Float Config Bus Davout Admission Lifecycle Stop Enable Position Setpoint PosHold Facets Dynamics Loop RefQueue Preflight.

Module Gate.
Import Bus Davout Admission Lifecycle Enable Position Facets Loop.
Import RefQueue(MAX_DEFERRED_COMMANDS).
Import Preflight(GravitySweep, SweepAbort, AbortDisabled, abort_text).

(** ** Motion ownership *)

Inductive CommandSource : Type := Stdin | Chappe.

#[export] Instance CommandSource_eq_dec : EqDecision CommandSource.
Proof. solve_decision. Defined.

Definition source_of (value : string) : result message CommandSource :=
  if String.eqb value "stdin" then Ok Stdin
  else if String.eqb value "chappe" then Ok Chappe
  else Err (Msg "unknown motion owner {:?} (expected stdin or chappe)" [AStr value]).

Inductive CommandClass : Type := StopClass | ObserveClass | MotionClass.

#[export] Instance CommandClass_eq_dec : EqDecision CommandClass.
Proof. solve_decision. Defined.

Record MotionRefusal : Type := mkRefusal { mr_command : string; mr_from : CommandSource; mr_owner : CommandSource }.

Record MotionLease : Type := mkLease { owner : CommandSource }.

Definition lease_admits (l : MotionLease) (from : CommandSource) (class : CommandClass) (command : string) : result MotionRefusal unit :=
  match class with
  | StopClass | ObserveClass => Ok tt
  | MotionClass => if bool_decide (from = owner l) then Ok tt else Err (mkRefusal command from (owner l))
  end.

Definition resolve_owner (flag env_value : option string) : result message CommandSource :=
  match (match flag with Some v => Some v | None => env_value end) with
  | Some value => source_of value
  | None => Ok Chappe
  end.

(** ** Commands *)

Inductive PiCommand : Type :=
| Home
| HomeJoints (joints : list string) (sign_tested : bool)
| EnableCmd (operator_id : string)
| DisableCmd
| GravityOn
| GravityOff
| TorqueCmd (joint : string) (tau_nm : f64)
| ImpedanceOn
| ImpedanceOff
| HoldOn
| HoldAtCmd (joint : option string) (position_rad : f64) (speed_fraction : option f64)
| WaveCmd (joint : string) (min_rad max_rad : f64) (cycles : Z) (half_period_sec : f64)
| HoldOff
| Lower
| Status
| Quit.

Definition classify_stdin (c : PiCommand) : CommandClass * string :=
  match c with
  | DisableCmd => (StopClass, "disable")
  | Quit => (StopClass, "quit")
  | HoldOff => (StopClass, "hold-off")
  | ImpedanceOff => (StopClass, "impedance-off")
  | Lower => (StopClass, "lower")
  | Status => (ObserveClass, "status")
  | Home => (MotionClass, "home")
  | HomeJoints _ _ => (MotionClass, "home <joints>")
  | EnableCmd _ => (MotionClass, "enable")
  | GravityOn => (MotionClass, "gravity-on")
  | GravityOff => (MotionClass, "gravity-off")
  | TorqueCmd _ _ => (MotionClass, "torque-cmd")
  | ImpedanceOn => (MotionClass, "impedance-on")
  | HoldOn => (MotionClass, "hold-on")
  | HoldAtCmd _ _ _ => (MotionClass, "hold-at")
  | WaveCmd _ _ _ _ _ => (MotionClass, "wave")
  end%string.

(** The fields the runtime reads of its Chappe messages. *)
Record EnableRequest : Type := mkEnableRequest { er_operator_id : string; er_enable : bool }.
Record TestJoint : Type := mkTestJoint {
  tj_name : string; tj_kp : f64; tj_kd : f64; tj_position : f64; tj_ki : f64; tj_fc : f64; tj_speed_fraction : option f64
}.
Record MitCommandBatch : Type := mkTestBatch { tb_mode : Z; tb_joints : list TestJoint }.

(** ** The gate *)

Inductive PreflightFor : Type :=
| StdinEnable (operator_id : string)
| ChappeEnable (request : EnableRequest)
| TestingBatch (batch : MitCommandBatch).

Record PendingPreflight : Type := mkPreflight { pp_sweep : GravitySweep; pp_then : PreflightFor }.
Record PreflightRefusal : Type := mkPreflightRefusal { pr_then : PreflightFor; pr_abort : option SweepAbort }.
Inductive GateLine : Type := LineOut (m : message) | LineErr (m : message).
Record PendingEnable : Type := mkPendingEnable { pe_operator_id : string; pe_targets : list string; pe_deadline : Z }.
Record DeferredArm : Type := mkArm { arm_cmd : PiCommand; arm_deadline : Z }.

Record EnableGate : Type := mkGate {
  g_enable : option PendingEnable;
  g_deferred : list DeferredArm;
  g_preflight : option PendingPreflight;
  g_deferred_stdin : list PiCommand;
  g_deferred_chappe : list EnableRequest;
  g_unreported : list PreflightRefusal
}.

Definition gate_default : EnableGate := mkGate None [] None [] [] [].

Definition set_enable (e : option PendingEnable) (g : EnableGate) : EnableGate :=
  mkGate e (g_deferred g) (g_preflight g) (g_deferred_stdin g) (g_deferred_chappe g) (g_unreported g).
Definition set_deferred (d : list DeferredArm) (g : EnableGate) : EnableGate :=
  mkGate (g_enable g) d (g_preflight g) (g_deferred_stdin g) (g_deferred_chappe g) (g_unreported g).
Definition set_preflight (p : option PendingPreflight) (g : EnableGate) : EnableGate :=
  mkGate (g_enable g) (g_deferred g) p (g_deferred_stdin g) (g_deferred_chappe g) (g_unreported g).
Definition set_deferred_stdin (d : list PiCommand) (g : EnableGate) : EnableGate :=
  mkGate (g_enable g) (g_deferred g) (g_preflight g) d (g_deferred_chappe g) (g_unreported g).
Definition set_deferred_chappe (d : list EnableRequest) (g : EnableGate) : EnableGate :=
  mkGate (g_enable g) (g_deferred g) (g_preflight g) (g_deferred_stdin g) d (g_unreported g).
Definition set_unreported (u : list PreflightRefusal) (g : EnableGate) : EnableGate :=
  mkGate (g_enable g) (g_deferred g) (g_preflight g) (g_deferred_stdin g) (g_deferred_chappe g) u.

Definition preflight_pending (g : EnableGate) : bool := bool_decide (is_Some (g_preflight g)).

(** [Err(then)] hands the request back. *)
Definition begin_preflight (sweep : GravitySweep) (then_ : PreflightFor) (g : EnableGate) : result PreflightFor unit * EnableGate :=
  if preflight_pending g then (Err then_, g) else (Ok tt, set_preflight (Some (mkPreflight sweep then_)) g).

Definition defer_stdin (c : PiCommand) (g : EnableGate) : bool * EnableGate :=
  if (MAX_DEFERRED_COMMANDS <=? length (g_deferred_stdin g))%nat then (false, g)
  else (true, set_deferred_stdin (g_deferred_stdin g ++ [c]) g).

Definition take_ready_stdin (g : EnableGate) : option PiCommand * EnableGate :=
  if preflight_pending g then (None, g)
  else match g_deferred_stdin g with [] => (None, g) | c :: rest => (Some c, set_deferred_stdin rest g) end.

Definition defer_chappe_enable (r : EnableRequest) (g : EnableGate) : bool * EnableGate :=
  if (MAX_DEFERRED_COMMANDS <=? length (g_deferred_chappe g))%nat then (false, g)
  else (true, set_deferred_chappe (g_deferred_chappe g ++ [r]) g).

Definition take_ready_chappe_enable (g : EnableGate) : option EnableRequest * EnableGate :=
  if preflight_pending g then (None, g)
  else match g_deferred_chappe g with [] => (None, g) | r :: rest => (Some r, set_deferred_chappe rest g) end.

Definition pass_preflight (g : EnableGate) : option PreflightFor * EnableGate :=
  (pp_then <$> g_preflight g, set_preflight None g).

Definition refused_line (abort : option SweepAbort) : GateLine :=
  LineErr (match abort with
           | None => msg "enable refused: gravity saturation preflight failed closed"
           | Some a =>
               let m := abort_text a in
               Msg ("enable refused: gravity saturation preflight aborted: " ++ msg_template m) (msg_args m)
           end).

Definition end_preflight (abort : option SweepAbort) (g : EnableGate) : list GateLine * EnableGate :=
  match g_preflight g with
  | None => ([], g)
  | Some p =>
      let g := set_preflight None g in
      let '(lines, g) :=
        match pp_then p with
        | StdinEnable _ => ([refused_line abort], g)
        | t => ([], set_unreported (g_unreported g ++ [mkPreflightRefusal t abort]) g)
        end in
      let count := length (g_deferred_stdin g) in
      let lines := lines ++ (if (0 <? count)%nat then [LineOut (Msg "discarded {} deferred command(s)" [AInt (Z.of_nat count)])] else []) in
      (lines, set_deferred_chappe [] (set_deferred_stdin [] g))
  end.

Definition take_unreported (g : EnableGate) : list PreflightRefusal * EnableGate := (g_unreported g, set_unreported [] g).

Definition ENABLE_COMPLETION_TIMEOUT : Z := 2000000000.

Definition begin_enable (operator_id : string) (targets : list string) (now : Z) (g : EnableGate) : list GateLine * EnableGate :=
  ([LineOut (Msg "waiting for enable to complete (operator={}) targets={}" [AStr operator_id; AStr (String.concat "," targets)])],
   set_enable (Some (mkPendingEnable operator_id targets (now + ENABLE_COMPLETION_TIMEOUT))) g).

Definition arm_name (c : PiCommand) : string :=
  match c with HoldOn => "hold-on" | HoldAtCmd _ _ _ => "hold-at" | WaveCmd _ _ _ _ _ => "wave" | _ => "command" end%string.

Definition refuse_deferred (reason : string) (g : EnableGate) : list GateLine * EnableGate :=
  ((fun a => LineErr (Msg "{} failed: {}" [AStr (arm_name (arm_cmd a)); AStr reason])) <$> g_deferred g, set_deferred [] g).

Definition gate_cancel (g : EnableGate) : list GateLine * EnableGate :=
  let '(lines, g) := end_preflight (Some AbortDisabled) g in
  let lines := lines ++ (if bool_decide (is_Some (g_enable g)) then [LineErr (msg "enable failed: disabled before enable completed")] else []) in
  let '(more, g) := refuse_deferred "disabled before enable completed" (set_enable None g) in
  (lines ++ more, g).

Definition cancel_arms (reason : string) (g : EnableGate) : list GateLine * EnableGate := refuse_deferred reason g.

Section Gate.
Context {B : Type} `{CanBus B} {R : Type} `{ReferenceWork R}.
Variable observed : Observer B R.
Variable display : DavoutError -> string.
Variable display_loop : LoopError -> string.
Variable fuel : nat.

Abbreviation CL := (ControlLoop B R).
Abbreviation L A := (st (ControlLoop B R) LoopError A).

(** A command's error as a value; a panic unwinds. *)
Definition try_loop {A : Type} (m : L A) : st CL Empty_set (LoopError + A) :=
  fun l => match m l with
           | (Ok a, l) => (Ok (inr a), l)
           | (Err e, l) => (Ok (inl e), l)
           | (Panic, l) => (Panic, l)
           end.

Definition try_drive {A : Type} (f : Sup B R -> result DavoutError A * Sup B R) : st CL Empty_set (DavoutError + A) :=
  fun l => match f (supervisor l) with
           | (Ok a, s) => (Ok (inr a), set_sup s l)
           | (Err e, s) => (Ok (inl e), set_sup s l)
           | (Panic, s) => (Panic, set_sup s l)
           end.

Definition operational (l : CL) : fmt_arg := AStr (mode_debug (sup_mode (supervisor l))).

Definition run_arm (files : EnableFiles) (c : PiCommand) : L (list GateLine) :=
  match c with
  | HoldOn =>
      enter_position_hold observed display fuel files ;*
      let* l := get in
      let setpoints := PosHold.targets (position_hold (motion l)) in
      ret (LineOut (Msg "control mode → Position hold (operational={:?})" [operational l]) ::
           match setpoints with
           | Some qs => zip_with (fun name q => LineOut (Msg "  hold {} = {:.4} rad" [AStr name; AF64 q])) (names_of l) qs
           | None => []
           end)
  | HoldAtCmd joint position_rad speed_fraction =>
      enter_position_hold_at_speed observed display fuel files joint position_rad speed_fraction ;*
      let* l := get in
      ret (LineOut (match speed_fraction with
                    | Some f => Msg "control mode → Position hold → target {:.4} rad (ramping, speed ×{}, operational={:?})" [AF64 position_rad; AF64 f; operational l]
                    | None => Msg "control mode → Position hold → target {:.4} rad (ramping, operational={:?})" [AF64 position_rad; operational l]
                    end) ::
           match joint with Some j => [LineOut (Msg "  joint {}" [AStr j])] | None => [] end)
  | WaveCmd joint min_rad max_rad cycles half_period_sec =>
      let* duration_sec := start_position_wave observed display fuel files joint min_rad max_rad cycles half_period_sec in
      let* l := get in
      ret [LineOut (Msg "position wave → {} {:.4}↔{:.4} rad ×{} (~{:.2}s, operational={:?})"
                      [AStr joint; AF64 min_rad; AF64 max_rad; AInt cycles; AF64 duration_sec; operational l])]
  | _ => ret []
  end.

Definition defer_arm (c : PiCommand) (now : Z) (g : EnableGate) : EnableGate :=
  set_deferred (g_deferred g ++ [mkArm c (now + ENABLE_COMPLETION_TIMEOUT)]) g.

Definition failed_line (name : string) (e : LoopError) : GateLine := LineErr (Msg "{} failed: {}" [AStr name; AStr (display_loop e)]).

Definition submit (files : EnableFiles) (c : PiCommand) (now : Z) (g : EnableGate) : st CL Empty_set (list GateLine * EnableGate) :=
  if bool_decide (is_Some (g_enable g)) || negb (bool_decide (length (g_deferred g) = 0%nat))
  then ret ([LineOut (Msg "{} waiting for enable to complete" [AStr (arm_name c)])], defer_arm c now g)
  else
    let* r := try_loop (run_arm files c) in
    ret match r with
        | inr lines => (lines, g)
        | inl (LEnableIncomplete detail) =>
            ([LineOut (Msg ("{} waiting for enable to complete: " ++ msg_template detail) (AStr (arm_name c) :: msg_args detail))], defer_arm c now g)
        | inl e => ([failed_line (arm_name c) e], g)
        end.

(** [while let Some(front)]: the retries and what is still deferred. *)
Fixpoint retry_arms (files : EnableFiles) (now : Z) (arms : list DeferredArm) : st CL Empty_set (list GateLine * list DeferredArm) :=
  match arms with
  | [] => ret ([], [])
  | a :: rest =>
      let name := arm_name (arm_cmd a) in
      let* r := try_loop (run_arm files (arm_cmd a)) in
      match r with
      | inr done => let* (lines, kept_arms) := retry_arms files now rest in ret (done ++ lines, kept_arms)
      | inl e =>
          let incomplete := match e with LEnableIncomplete _ => true | _ => false end in
          if incomplete && (now <? arm_deadline a) then ret ([], arms)
          else
            let line :=
              if incomplete
              then LineErr (Msg "{} failed: {} (no completion within {} ms)" [AStr name; AStr (display_loop e); AInt (ENABLE_COMPLETION_TIMEOUT / 1000000)])
              else failed_line name e in
            let* (lines, kept_arms) := retry_arms files now rest in ret (line :: lines, kept_arms)
      end
  end.

(** The stop of an Enable that did not complete. *)
Definition stop_incomplete : st CL Empty_set (DavoutError + unit) :=
  let* _ := try_loop forbid_implicit_enable in
  let* stop := try_drive (disable_all observed) in
  let* _ := try_loop (set_control_mode observed CDisabled) in
  ret stop.

Definition poll (files : EnableFiles) (now : Z) (g : EnableGate) : st CL Empty_set (list GateLine * EnableGate) :=
  let retry lines g :=
    let* (more, kept_arms) := retry_arms files now (g_deferred g) in ret (lines ++ more, set_deferred kept_arms g) in
  match g_enable g with
  | None => retry [] g
  | Some p =>
      let* r := try_loop enable_completion in
      match r with
      | inr _ =>
          retry [LineOut (Msg "enabled (operator={}) targets={}" [AStr (pe_operator_id p); AStr (String.concat "," (pe_targets p))])]
            (set_enable None g)
      | inl e =>
          let* l := get in
          let lost := negb (bool_decide (sup_mode (supervisor l) = Active)) in
          if negb lost && (now <? pe_deadline p) then ret ([], g)
          else
            let m := if lost then Msg "enable failed: {}" [AStr (display_loop e)]
                     else Msg "enable failed: not complete within {} ms: {}" [AInt (ENABLE_COMPLETION_TIMEOUT / 1000000); AStr (display_loop e)] in
            let* stop := stop_incomplete in
            let m := match stop with
                     | inr _ => m
                     | inl s => Msg (msg_template m ++ "; stop NOT delivered to every drive: {}") (msg_args m ++ [AStr (display s)])
                     end in
            let '(more, g) := refuse_deferred "enable did not complete" (set_enable None g) in
            ret (LineErr m :: more, g)
      end
  end.

End Gate.
End Gate.
