(* ===== verification/Persist.v ===== *)
(** * Persist: the write-behind queue of configuration changes

    [src/bins/marengo-pi/src/limit_persist.rs]: a slot shared by the control
    thread, which enqueues, and a worker, which writes.  A request that is not yet
    being written is replaced by the next one; a limit patch it replaces keeps a
    completion of its own.

    The steps of both threads are those they take under the slot's lock; the
    worker's write between two of them, its error text and the revision read after
    it are arguments.  The lock is never poisoned, for no step panics under it.
    Waiting, waking and joining the thread are not modelled; [display_config]
    renders errors. *)

From Stdlib Require Import ZArith Lia Bool SpecFloat.
From stdpp Require Import base gmap strings list.
From S2P Require Import Prelude Float Config Filter LimitPatch.

Module Persist.
Import Config Patch.

Record PersistRequest : Type := mkRequest {
  pq_config_dir : string;
  pq_motors : option (list MotorEntry);
  pq_control : ControlSection;
  pq_timestamp_ms : Z;
  pq_session_id : string;
  pq_operator_id : string;
  pq_joint : string;
  pq_param : string
}.

Record CarriedBounds : Type := mkBounds {
  cb_lower : f64; cb_upper : f64; cb_torque : f64; cb_soft_lower : option f64; cb_soft_upper : option f64; cb_velocity : option f64
}.

Record CarriedCompletion : Type := mkCarried {
  cc_timestamp_ms : Z; cc_session_id : string; cc_operator_id : string; cc_joint : string; cc_bounds : CarriedBounds
}.

Record PersistSlot : Type := mkSlot {
  sl_request : option PersistRequest;
  sl_carried : list CarriedCompletion;
  sl_writing : bool;
  sl_accepting : bool;
  sl_worker_done : bool;
  sl_worker_error : option string;
  sl_successful_writes : Z;
  sl_failed_writes : Z;
  sl_publication_failures : Z;
  sl_coalesced_requests : Z
}.

Definition slot_new : PersistSlot := mkSlot None [] false true false None 0 0 0 0.

(** [PersistError::Queue]. *)
Record PersistError : Type := mkPersistError { queue_error : message }.

Inductive PersistStatus : Type := PsUnspecified | PsPending | PsDurable | PsFailed | PsNotApplicable.

#[export] Instance PersistStatus_eq_dec : EqDecision PersistStatus.
Proof. solve_decision. Defined.

(** [ActionEvent], without its audit revision. *)
Record ActionEvent : Type := mkAction {
  ae_timestamp_ms : Z; ae_session_id : string; ae_operator_id : string; ae_joint : string; ae_action : string;
  ae_accepted : bool; ae_reject_reason : message; ae_persist_status : PersistStatus; ae_config_revision : string
}.

Definition LIMIT_PATCH : string := "limit_patch".

(** ** Coalescing *)

Definition find_motor (ms : list MotorEntry) (j : string) : option MotorEntry := find_first (fun m => bool_decide (joint m = j)) ms.

Definition opt_feq (a b : option f64) : bool :=
  match a, b with Some x, Some y => feq x y | None, None => true | _, _ => false end.

Definition held (patch written : option f64) : bool := bool_decide (patch = None) || opt_feq patch written.

Definition written_by (b : CarriedBounds) (r : PersistRequest) (j : string) : bool :=
  match pq_motors r ≫= fun ms => find_motor ms j with
  | None => false
  | Some m =>
      match hget (control_joints (pq_control r)) j with
      | None => false
      | Some c =>
          feq (position_lower_rad (bench m)) (cb_lower b) && feq (position_upper_rad (bench m)) (cb_upper b)
          && feq (torque_limit_nm (bench m)) (cb_torque b)
          && held (cb_soft_lower b) (position_soft_lower_rad c) && held (cb_soft_upper b) (position_soft_upper_rad c)
          && held (cb_velocity b) (velocity_max_rad_s c)
      end
  end.

Section Queue.
Variable display_config : ConfigError -> string.

Definition queue_err {A : Type} (m : message) : result PersistError A := Err (mkPersistError m).

Definition bounds_of (m : MotorEntry) (c : JointControlEntry) : CarriedBounds :=
  mkBounds (position_lower_rad (bench m)) (position_upper_rad (bench m)) (torque_limit_nm (bench m))
    (position_soft_lower_rad c) (position_soft_upper_rad c) (velocity_max_rad_s c).

Definition carried_patch (j : string) (b : CarriedBounds) : LimitPatch :=
  mkPatch j (cb_lower b) (cb_upper b) None (cb_soft_lower b) (cb_soft_upper b) (cb_velocity b).

Definition with_snapshot (ms : option (list MotorEntry)) (c : ControlSection) (r : PersistRequest) : PersistRequest :=
  mkRequest (pq_config_dir r) ms c (pq_timestamp_ms r) (pq_session_id r) (pq_operator_id r) (pq_joint r) (pq_param r).

Definition carry_pending_limit_patch (pending latest : PersistRequest) : result PersistError (CarriedCompletion * PersistRequest) :=
  refuse_if (negb (String.eqb (pq_config_dir pending) (pq_config_dir latest)))
    (mkPersistError (msg "cannot coalesce limit patches across config directories")) ;!
  let! previous_motors := ok_or (pq_motors pending) (mkPersistError (msg "pending limit patch has no motors snapshot")) in
  let j := pq_joint pending in
  let! motor := ok_or (find_motor previous_motors j) (mkPersistError (msg "pending limit patch motor is missing")) in
  let! control := ok_or (hget (control_joints (pq_control pending)) j) (mkPersistError (msg "pending limit patch control is missing")) in
  let bounds := bounds_of motor control in
  let carried := mkCarried (pq_timestamp_ms pending) (pq_session_id pending) (pq_operator_id pending) j bounds in
  match pq_motors latest with
  | Some _ => Ok (carried, latest)
  | None =>
      let! entry := ok_or (hget (control_joints (pq_control latest)) j) (mkPersistError (msg "latest control snapshot lacks patched joint")) in
      let! entry := map_err (fun e => mkPersistError (msg (display_config e))) (apply_limit_patch_to_control entry (carried_patch j bounds)) in
      let c := Envelope.with_joints (hset (control_joints (pq_control latest)) j entry) (pq_control latest) in
      Ok (carried, with_snapshot (Some previous_motors) c latest)
  end.

Definition set_request (r : option PersistRequest) (carried : list CarriedCompletion) (coalesced : Z) (s : PersistSlot) : PersistSlot :=
  mkSlot r carried (sl_writing s) (sl_accepting s) (sl_worker_done s) (sl_worker_error s) (sl_successful_writes s) (sl_failed_writes s)
    (sl_publication_failures s) coalesced.

(** [slot.accepting = false], noting the first error. *)
Definition close_slot (error : option string) (s : PersistSlot) : PersistSlot :=
  mkSlot (sl_request s) (sl_carried s) (sl_writing s) false (sl_worker_done s)
    (match sl_worker_error s with Some e => Some e | None => error end) (sl_successful_writes s) (sl_failed_writes s)
    (sl_publication_failures s) (sl_coalesced_requests s).

(** [connected]: the worker still holds the receiving end of the wake channel. *)
Definition enqueue (connected : bool) (request : PersistRequest) (s : PersistSlot) : result PersistError unit * PersistSlot :=
  if negb (sl_accepting s) || sl_worker_done s || bool_decide (is_Some (sl_worker_error s))
  then (queue_err (msg "queue admission closed"), s)
  else if negb connected then (queue_err (msg "worker disconnected"), close_slot (Some "persist worker disconnected"%string) s)
  else
    match sl_request s with
    | None => (Ok tt, set_request (Some request) (sl_carried s) (sl_coalesced_requests s) s)
    | Some pending =>
        let coalesced := sat_add_u64 (sl_coalesced_requests s) 1 in
        if String.eqb (pq_param pending) LIMIT_PATCH then
          match carry_pending_limit_patch pending request with
          | Ok (carried, latest) => (Ok tt, set_request (Some latest) (sl_carried s ++ [carried]) coalesced s)
          | Err e => (Err e, s)
          | Panic => (Panic, s)
          end
        else
          let latest := match pq_motors request with
                        | Some _ => request
                        | None => with_snapshot (pq_motors pending) (pq_control request) request
                        end in
          (Ok tt, set_request (Some latest) (sl_carried s) coalesced s)
    end.

Definition close_admission (s : PersistSlot) : PersistSlot := close_slot None s.

(** ** The worker *)

(** [slot.request.take()]: what it is about to write. *)
Definition worker_take (s : PersistSlot) : option (PersistRequest * list CarriedCompletion) * PersistSlot :=
  match sl_request s with
  | None => (None, s)
  | Some r =>
      (Some (r, sl_carried s),
       mkSlot None [] true (sl_accepting s) (sl_worker_done s) (sl_worker_error s) (sl_successful_writes s) (sl_failed_writes s)
         (sl_publication_failures s) (sl_coalesced_requests s))
  end.

Definition persist_audit_action (param : string) : string :=
  if String.eqb param LIMIT_PATCH then "limit_patch_persist" else "config_persist".

(** [write_error]: how the write failed, if it did. *)
Definition completion (r : PersistRequest) (write_error : option string) (revision : option string) : ActionEvent :=
  let event accepted reason status revision :=
    mkAction (pq_timestamp_ms r) (pq_session_id r) (pq_operator_id r) (pq_joint r) (persist_audit_action (pq_param r)) accepted reason status revision in
  match write_error with
  | None => event true (msg "disk write completed") PsDurable (default EmptyString revision)
  | Some e => event false (Msg "async config write failed after live apply: {}" [AStr e]) PsFailed EmptyString
  end.

Definition carried_event (template : ActionEvent) (c : CarriedCompletion) (written : bool) : ActionEvent :=
  let event accepted reason status revision :=
    mkAction (cc_timestamp_ms c) (cc_session_id c) (cc_operator_id c) (cc_joint c) (persist_audit_action LIMIT_PATCH) accepted reason status revision in
  if negb written && ae_accepted template
  then event false (Msg "superseded: a later limit patch for {} was written instead of these bounds" [AStr (cc_joint c)]) PsFailed EmptyString
  else event (ae_accepted template) (ae_reject_reason template) (ae_persist_status template) (ae_config_revision template).

(** The events of a write, in publication order. *)
Definition completions (r : PersistRequest) (carried : list CarriedCompletion) (write_error : option string) (revision : option string)
  : list ActionEvent :=
  let event := completion r write_error revision in
  ((fun c => carried_event event c (written_by (cc_bounds c) r (cc_joint c))) <$> carried) ++ [event].

Definition worker_finish (written published : bool) (s : PersistSlot) : PersistSlot :=
  mkSlot (sl_request s) (sl_carried s) false (sl_accepting s) (sl_worker_done s) (sl_worker_error s)
    (if written then sat_add_u64 (sl_successful_writes s) 1 else sl_successful_writes s)
    (if written then sl_failed_writes s else sat_add_u64 (sl_failed_writes s) 1)
    (if published then sl_publication_failures s else sat_add_u64 (sl_publication_failures s) 1) (sl_coalesced_requests s).

(** [WorkerCompletion::drop]. *)
Definition worker_exit (completed_normally : bool) (s : PersistSlot) : PersistSlot :=
  let s := close_slot (if completed_normally then None else Some "persist worker exited unexpectedly"%string) s in
  mkSlot (sl_request s) (sl_carried s) (sl_writing s) (sl_accepting s) true (sl_worker_error s) (sl_successful_writes s) (sl_failed_writes s)
    (sl_publication_failures s) (sl_coalesced_requests s).

(** ** The drain report *)

Inductive PersistDrainStatus : Type := DrainComplete | CompletedWithFailures | DrainTimedOut | WorkerFailed.

#[export] Instance PersistDrainStatus_eq_dec : EqDecision PersistDrainStatus.
Proof. solve_decision. Defined.

Record PersistDrainReport : Type := mkDrain {
  dr_status : PersistDrainStatus; dr_successful_writes : Z; dr_failed_writes : Z; dr_publication_failures : Z;
  dr_pending_requests : Z; dr_in_flight : bool; dr_worker_terminated : bool; dr_worker_error : option string; dr_coalesced_requests : Z
}.

Definition from_slot (s : PersistSlot) (worker_terminated : bool) : PersistDrainReport :=
  let pending := if bool_decide (is_Some (sl_request s)) then 1 else 0 in
  let status :=
    if bool_decide (is_Some (sl_worker_error s)) then WorkerFailed
    else if negb worker_terminated || negb (pending =? 0) || sl_writing s then DrainTimedOut
    else if negb (sl_failed_writes s =? 0) || negb (sl_publication_failures s =? 0) then CompletedWithFailures
    else DrainComplete in
  mkDrain status (sl_successful_writes s) (sl_failed_writes s) (sl_publication_failures s) pending (sl_writing s) worker_terminated
    (sl_worker_error s) (sl_coalesced_requests s).

Definition is_idle (r : PersistDrainReport) : bool := (dr_pending_requests r =? 0) && negb (dr_in_flight r).

(** ** Both threads *)

(** A limit patch: who asked for it, and the bounds its own snapshot held. *)
Record PatchTicket : Type := mkTicket { tk_timestamp : Z; tk_session : string; tk_operator : string; tk_joint : string; tk_bounds : option CarriedBounds }.

Definition snapshot_bounds (r : PersistRequest) : option CarriedBounds :=
  m ← (pq_motors r ≫= fun ms => find_motor ms (pq_joint r));
  c ← hget (control_joints (pq_control r)) (pq_joint r);
  Some (bounds_of m c).
Definition ticket_of (r : PersistRequest) : PatchTicket :=
  mkTicket (pq_timestamp_ms r) (pq_session_id r) (pq_operator_id r) (pq_joint r) (snapshot_bounds r).
Definition carried_ticket (c : CarriedCompletion) : PatchTicket :=
  mkTicket (cc_timestamp_ms c) (cc_session_id c) (cc_operator_id c) (cc_joint c) (Some (cc_bounds c)).
Definition patch_tickets (r : PersistRequest) : list PatchTicket := if String.eqb (pq_param r) LIMIT_PATCH then [ticket_of r] else [].

(** A completion: the patch it answers, the request, how its write failed if it
    did, and the event. *)
Record Report : Type := mkReport { rp_patch : PatchTicket; rp_request : PersistRequest; rp_error : option string; rp_event : ActionEvent }.

Definition reports_of (r : PersistRequest) (carried : list CarriedCompletion) (write_error revision : option string) : list Report :=
  zip_with (fun t e => mkReport t r write_error e) ((carried_ticket <$> carried) ++ patch_tickets r) (completions r carried write_error revision).

(** The slot, what the worker is writing, the limit patches accepted, the
    completions of limit patches so far and the requests whose write succeeded. *)
Record Shared : Type := mkShared {
  sh_slot : PersistSlot; sh_current : option (PersistRequest * list CarriedCompletion);
  sh_accepted : list PatchTicket; sh_reports : list Report; sh_written : list PersistRequest
}.

(** Every limit patch is enqueued with the motors it changed. *)
Definition carries_motors (r : PersistRequest) : Prop := pq_param r = LIMIT_PATCH -> pq_motors r <> None.

(** Steps of the control thread and of the worker, in any order. *)
Inductive persist_step : Shared -> Shared -> Prop :=
| step_enqueue (connected : bool) (r : PersistRequest) (q : Shared) (s' : PersistSlot) :
    carries_motors r -> enqueue connected r (sh_slot q) = (Ok tt, s') ->
    persist_step q (mkShared s' (sh_current q) (sh_accepted q ++ patch_tickets r) (sh_reports q) (sh_written q))
| step_refused (connected : bool) (r : PersistRequest) (q : Shared) (e : PersistError) (s' : PersistSlot) :
    enqueue connected r (sh_slot q) = (Err e, s') -> persist_step q (mkShared s' (sh_current q) (sh_accepted q) (sh_reports q) (sh_written q))
| step_close (q : Shared) : persist_step q (mkShared (close_admission (sh_slot q)) (sh_current q) (sh_accepted q) (sh_reports q) (sh_written q))
| step_take (q : Shared) (w : PersistRequest * list CarriedCompletion) (s' : PersistSlot) :
    sh_current q = None -> worker_take (sh_slot q) = (Some w, s') ->
    persist_step q (mkShared s' (Some w) (sh_accepted q) (sh_reports q) (sh_written q))
| step_finish (q : Shared) (r : PersistRequest) (carried : list CarriedCompletion) (write_error revision : option string) (published : bool) :
    sh_current q = Some (r, carried) ->
    persist_step q (mkShared (worker_finish (bool_decide (write_error = None)) published (sh_slot q)) None (sh_accepted q)
                      (sh_reports q ++ reports_of r carried write_error revision)
                      (sh_written q ++ match write_error with None => [r] | Some _ => [] end))
| step_exit (q : Shared) (normally : bool) :
    (normally = true -> sl_accepting (sh_slot q) = false /\ sl_request (sh_slot q) = None) ->
    persist_step q (mkShared (worker_exit normally (sh_slot q)) (sh_current q) (sh_accepted q) (sh_reports q) (sh_written q)).

Definition shared_new : Shared := mkShared slot_new None [] [] [].

Definition outstanding (q : Shared) : list PatchTicket :=
  match sh_current q with Some (r, carried) => (carried_ticket <$> carried) ++ patch_tickets r | None => [] end
  ++ (carried_ticket <$> sl_carried (sh_slot q)) ++ match sl_request (sh_slot q) with Some r => patch_tickets r | None => [] end.

(** The completion of a patch: it names the patch, and says Durable exactly when
    it accepts, which it does only for a write that succeeded with the patch's own
    snapshot or with its bounds, and always for one with its bounds. *)
Definition honest (p : Report) : Prop :=
  let t := rp_patch p in let e := rp_event p in
  (ae_timestamp_ms e, ae_session_id e, ae_operator_id e, ae_joint e) = (tk_timestamp t, tk_session t, tk_operator t, tk_joint t)
  /\ ae_action e = "limit_patch_persist"%string
  /\ (ae_persist_status e = PsDurable <-> ae_accepted e = true)
  /\ (ae_accepted e = true ->
      rp_error p = None
      /\ (t = ticket_of (rp_request p) \/ exists b, tk_bounds t = Some b /\ written_by b (rp_request p) (tk_joint t) = true))
  /\ (rp_error p = None -> forall b, tk_bounds t = Some b -> written_by b (rp_request p) (tk_joint t) = true -> ae_accepted e = true).

Record accounted (q : Shared) : Prop := {
  ac_tickets : sh_accepted q ≡ₚ (rp_patch <$> sh_reports q) ++ outstanding q;
  ac_honest : Forall honest (sh_reports q);
  ac_written : Forall (fun p => rp_error p = None -> rp_request p ∈ sh_written q) (sh_reports q);
  ac_carried : sl_request (sh_slot q) = None -> sl_carried (sh_slot q) = []
}.

Lemma carry_spec (pending latest : PersistRequest) c latest' :
  carries_motors latest -> carry_pending_limit_patch pending latest = Ok (c, latest') ->
  carried_ticket c = ticket_of pending /\ patch_tickets latest' = patch_tickets latest.
Proof.
  intros Hm E. unfold carry_pending_limit_patch in E. do 4 bind_inv E. bsimp.
  assert (Ht : forall c', carried_ticket (mkCarried (pq_timestamp_ms pending) (pq_session_id pending) (pq_operator_id pending) (pq_joint pending) c')
                 = mkTicket (pq_timestamp_ms pending) (pq_session_id pending) (pq_operator_id pending) (pq_joint pending) (Some c')) by done.
  assert (Hp : ticket_of pending = mkTicket (pq_timestamp_ms pending) (pq_session_id pending) (pq_operator_id pending) (pq_joint pending) (Some (bounds_of x1 x2))).
  { unfold ticket_of, snapshot_bounds. destruct (pq_motors pending) as [ms|]; [|discriminate]. injection E1 as ->. cbn.
    destruct (find_motor x0 _) as [m|]; [|discriminate]. injection E2 as ->. cbn.
    destruct (hget _ _) as [e|]; [|discriminate]. by injection E3 as ->. }
  destruct (pq_motors latest) as [ms|] eqn:El.
  - injection E as <- <-. by rewrite Hp.
  - do 2 bind_inv E. injection E as <- <-. rewrite Hp. split; [done|]. unfold patch_tickets. cbn.
    destruct (String.eqb_spec (pq_param latest) LIMIT_PATCH) as [Eq|]; [|done]. by destruct (Hm Eq).
Qed.

Lemma enqueue_tickets (connected : bool) (r : PersistRequest) (s s' : PersistSlot) :
  carries_motors r -> enqueue connected r s = (Ok tt, s') -> (sl_request s = None -> sl_carried s = []) ->
  sl_request s' <> None
  /\ (carried_ticket <$> sl_carried s') ++ match sl_request s' with Some r => patch_tickets r | None => [] end
     ≡ₚ ((carried_ticket <$> sl_carried s) ++ match sl_request s with Some r => patch_tickets r | None => [] end) ++ patch_tickets r.
Proof.
  intros Hm E Hc. unfold enqueue in E. destruct (_ || _ || _); [discriminate|]. destruct (negb connected); [discriminate|].
  destruct (sl_request s) as [pending|] eqn:Ep.
  - destruct (String.eqb_spec (pq_param pending) LIMIT_PATCH) as [Hp|Hp].
    + destruct (carry_pending_limit_patch pending r) as [[c latest]| |] eqn:Ec; [|discriminate..]. injection E as <-.
      destruct (carry_spec _ _ _ _ Hm Ec) as [Ht Hl]. split; [done|]. cbn. rewrite fmap_app, Hl. cbn. rewrite Ht.
      unfold patch_tickets at 2. rewrite (proj2 (String.eqb_eq _ _) Hp). done.
    + injection E as <-. split; [done|]. cbn. unfold patch_tickets at 2. rewrite (proj2 (String.eqb_neq _ _) Hp), app_nil_r.
      destruct (pq_motors r) eqn:Er; [done|]. unfold patch_tickets. cbn.
      destruct (String.eqb_spec (pq_param r) LIMIT_PATCH) as [Eq|]; [|done]. by destruct (Hm Eq).
  - injection E as <-. split; [done|]. cbn. by rewrite app_nil_r.
Qed.

Lemma refused_slot (connected : bool) (r : PersistRequest) (s s' : PersistSlot) (e : PersistError) :
  enqueue connected r s = (Err e, s') -> sl_request s' = sl_request s /\ sl_carried s' = sl_carried s.
Proof.
  unfold enqueue. destruct (_ || _ || _); [intros Hx; by inversion Hx|]. destruct (negb connected); [intros Hx; by inversion Hx|].
  destruct (sl_request s) as [pending|] eqn:Er; [|discriminate]. destruct (String.eqb _ _); [|discriminate].
  destruct (carry_pending_limit_patch _ _) as [[]| |]; [discriminate| |discriminate]. by intros [= _ <-].
Qed.

Lemma honest_carried (r : PersistRequest) (c : CarriedCompletion) (write_error revision : option string) :
  honest (mkReport (carried_ticket c) r write_error (carried_event (completion r write_error revision) c (written_by (cc_bounds c) r (cc_joint c)))).
Proof.
  unfold honest, carried_event. cbn. destruct (written_by _ r _) eqn:Ew, write_error as [e|]; cbn;
    (split; [done|]); (split; [done|]); (split; [done|]); (split; [|naive_solver]); try discriminate. intros _. split; [done|]. right. eauto.
Qed.

Lemma reports_spec (r : PersistRequest) (carried : list CarriedCompletion) (write_error revision : option string) :
  rp_patch <$> reports_of r carried write_error revision = (carried_ticket <$> carried) ++ patch_tickets r
  /\ Forall honest (reports_of r carried write_error revision)
  /\ Forall (fun p => rp_request p = r /\ rp_error p = write_error) (reports_of r carried write_error revision).
Proof.
  unfold reports_of, completions. induction carried as [|c carried (IH1 & IH2 & IH3)]; cbn.
  - unfold patch_tickets. destruct (String.eqb_spec (pq_param r) LIMIT_PATCH) as [Hp|]; [|done]. split; [done|].
    split; (constructor; [|done]); [|done].
    unfold honest, completion, persist_audit_action. cbn. rewrite Hp. destruct write_error; cbn; (split; [done|]); (split; [done|]); (split; [done|]); naive_solver.
  - split; [by f_equal|]. split; (constructor; [|done]); [apply honest_carried|done].
Qed.

Lemma accounted_step (q q' : Shared) : persist_step q q' -> accounted q -> accounted q'.
Proof.
  intros Hs [Ht Hh Hw Hc]. unfold outstanding in Ht. destruct Hs as [connected r q s' Hm E|connected r q e s' E|q|q [r carried] s' En E|q r carried we rev pb Ec|q normally _].
  - destruct (enqueue_tickets _ _ _ _ Hm E Hc) as [Hn Hp]. split; [|done..]. unfold outstanding. cbn. rewrite Hp, Ht. by rewrite !app_assoc.
  - destruct (refused_slot _ _ _ _ _ E) as [E1 E2]. split; [|done..|]; unfold outstanding; cbn; by rewrite E1, E2.
  - by split.
  - unfold worker_take in E. destruct (sl_request (sh_slot q)) as [r0|] eqn:Er; [|discriminate]. injection E as <- <- <-.
    split; [|done..]. unfold outstanding. cbn. rewrite En in Ht. cbn in Ht. by rewrite Ht, app_nil_r.
  - destruct (reports_spec r carried we rev) as (H1 & H2 & H3). split; [|by apply Forall_app| |done].
    + unfold outstanding. cbn. rewrite fmap_app, H1. rewrite Ec in Ht. by rewrite Ht, !app_assoc.
    + cbn. apply Forall_app. split; [eapply Forall_impl; [exact Hw|]|eapply Forall_impl; [exact H3|]]; cbn.
      * intros p Hp He. set_solver.
      * intros p [-> ->] ->. set_solver.
  - by split.
Qed.

(** C28: no limit patch is lost in the write-behind queue, and none is reported
    durable that is not.  However the control thread and the worker interleave, the
    patches accepted are exactly those answered, once each, and those still queued,
    carried or being written; an answer names its patch, and says Durable only when
    the request it belongs to was written without an error and is the patch's own
    snapshot or holds its bounds, and always when it was written and holds them. *)
Theorem persist_accounts (q : Shared) : rtc persist_step shared_new q -> accounted q.
Proof.
  intros Hr. assert (Ha : accounted shared_new) by (by split). revert Ha.
  induction Hr as [|q0 q1 q Hs _ IH]; [done|]. intros Ha. by apply IH, (accounted_step q0).
Qed.

End Queue.

(** ** A bench queue *)

Definition patch_request (session : string) (upper : f64) (param : string) (motors : bool) : PersistRequest :=
  mkRequest "config"
    (if motors then Some [mkMotor (joint Filter.bench_motor) "" (motor_type Filter.bench_motor) "can0" 1 1 (f64_of_Z 1) 0 ""
                            (mkBench fzero upper (f64_of_Z 1) (f64_of_Z 1))] else None)
    Filter.bench_control 0 session "op" (joint Filter.bench_motor) param.

Abbreviation no_display := (fun _ : ConfigError => ""%string).

Definition first_patch : PersistRequest := patch_request "one" (f64_of_Z 1) LIMIT_PATCH true.
Definition second_patch : PersistRequest := patch_request "two" (f64_of_Z 2) LIMIT_PATCH true.

Definition queued : PersistSlot := (enqueue no_display true second_patch (enqueue no_display true first_patch slot_new).2).2.

(** The second patch is durable; the first, on the same joint, is superseded. *)
Example persist_superseded :
  match (worker_take queued).1 with
  | Some (r, carried) => (fun e => (ae_session_id e, ae_persist_status e)) <$> completions r carried None None
  | None => []
  end = [("one", PsFailed); ("two", PsDurable)]%string.
Proof. vm_compute. reflexivity. Qed.

Lemma persist_accounts_witness :
  exists q, rtc (persist_step no_display) shared_new q /\ sh_current q <> None /\ accounted q.
Proof.
  set (s1 := (enqueue no_display true first_patch slot_new).2).
  set (q1 := mkShared s1 None (patch_tickets first_patch) [] []).
  set (q2 := mkShared (worker_take s1).2 (Some (first_patch, [])) (patch_tickets first_patch) [] []).
  assert (Hr : rtc (persist_step no_display) shared_new q2).
  { apply (rtc_l _ _ q1); [apply (step_enqueue no_display true first_patch shared_new); [intros _; discriminate|reflexivity]|].
    apply (rtc_l _ _ q2); [apply (step_take no_display q1); reflexivity|apply rtc_refl]. }
  exists q2. split; [exact Hr|]. split; [discriminate|]. exact (persist_accounts no_display q2 Hr).
Defined.

End Persist.
