(* ===== verification/Overlay.v ===== *)
(** * Overlay: live tuning and limit patches from the operator interface

    [src/bins/marengo-pi/src/overlay.rs] with the joint names of
    [marengo-config/src/bench_joints.rs]: a runtime gain, a configuration value or
    a limit patch changes the live loop and, when asked, is queued for writing
    ([Persist]).

    Events are values; publishing them and the snapshot of limits is not
    modelled.  The revision of the configuration files on disk, whether the
    persist worker still listens and the identity of a new model descriptor are
    arguments. *)

From Stdlib Require Import ZArith Lia Bool SpecFloat.
From stdpp Require Import base gmap strings list.
From S2P Require Import Prelude Float Config Validate Limits Bus Faults Davout Filter Admission Authority Lifecycle Stop Session Grants Position Gains Facets Dynamics Loop LimitPatch Persist RefQueue Preflight Gate.

Module Overlay.
Import Limits Bus Davout Admission Lifecycle Position Gains Facets Loop Persist Gate.

(** ** Joint names *)

(** [CommandJointAllowlist] *)
Record CommandJointAllowlist : Type := mkAllowlist { al_joints : gset string }.

Definition joint_lookup_candidates (input : string) : list string :=
  input ::
  (if String.eqb input "left_shoulder_roll" then ["shoulder_roll"]
   else if String.eqb input "left_shoulder_pitch" then ["shoulder_pitch"]
   else if String.eqb input "left_upper_arm_yaw" then ["upper_arm_yaw"]
   else if String.eqb input "left_elbow" then ["elbow"]
   else if String.eqb input "shoulder_roll" then ["left_shoulder_roll"]
   else if String.eqb input "shoulder_pitch" then ["left_shoulder_pitch"]
   else if String.eqb input "upper_arm_yaw" then ["left_upper_arm_yaw"]
   else if String.eqb input "elbow" then ["right_elbow_pitch"; "left_elbow"]
   else if String.eqb input "right_elbow_pitch" then ["elbow"]
   else [])%string.

(** The loop over the aliases: [None] when they name two joints. *)
Fixpoint resolve_alias (candidates : list string) (allowlist : CommandJointAllowlist) (resolved : option string) : option string :=
  match candidates with
  | [] => resolved
  | c :: rest =>
      if negb (bool_decide (c ∈ al_joints allowlist)) then resolve_alias rest allowlist resolved
      else
        match resolved with
        | Some previous => if String.eqb previous c then resolve_alias rest allowlist (Some c) else None
        | None => resolve_alias rest allowlist (Some c)
        end
  end.

Definition resolve_command_joint (input : string) (allowlist : CommandJointAllowlist) : option string :=
  match joint_lookup_candidates input with
  | [] => None
  | exact :: candidates =>
      if bool_decide (exact ∈ al_joints allowlist) then Some exact else resolve_alias candidates allowlist None
  end.

(** ** Commands *)

Inductive OverlayError : Type :=
| NotWired (joint : string)
| MissingCommand
| UnsupportedTier
| UnsupportedParam (m : message)
| NonFinite (param : string)
| PersistQueue (e : PersistError)
| OvConfig (e : Config.ConfigError)
| OvDavout (e : DavoutError)
| Motion (e : MotionRefusal)
| Controller (e : LoopError).

Inductive TuningTier : Type := TierUnspecified | RuntimeMit | ConfigOverlay | Firmware.

Record TuningChange : Type := mkTuning { tn_tier : option TuningTier; tn_param : string; tn_value : f64; tn_persist : bool }.

Record LimitPatchCommand : Type := mkLimitPatchCommand {
  lp_lower : f64; lp_upper : f64; lp_torque : option f64; lp_soft_lower : option f64; lp_soft_upper : option f64;
  lp_velocity : option f64; lp_expected_revision : string
}.

(** [actuator_command::Payload]; the motion payloads carry nothing that is read. *)
Inductive Payload : Type := PTuning (t : TuningChange) | PLimitPatch (p : LimitPatchCommand) | PEnable | PMode | PJog | PHold | PPreset.

Record ActuatorCommand : Type := mkActuator { ac_joint : string; ac_payload : option Payload }.

Record OperatorCommand : Type := mkOperator {
  oc_timestamp_ms : Z; oc_session_id : string; oc_operator_id : string; oc_command : option ActuatorCommand
}.

Record TuningChangeEvent : Type := mkTuningEvent {
  te_timestamp_ms : Z; te_session_id : string; te_operator_id : string; te_joint : string; te_tier : option TuningTier; te_param : string;
  te_before : f64; te_after : f64; te_persist : bool
}.

Inductive OverlayOutcome : Type := OutTuning (e : TuningChangeEvent) | OutAction (e : ActionEvent).

Record ActuatorOverlay : Type := mkOverlay {
  ov_limits_dirty : bool; ov_allowlist : CommandJointAllowlist; ov_slot : PersistSlot; ov_motion : MotionLease
}.

(** [ActuatorOverlay::new]: Chappe owns motion until the runtime installs its lease. *)
Definition overlay_new (allowlist : CommandJointAllowlist) : ActuatorOverlay := mkOverlay true allowlist slot_new (mkLease Chappe).

Definition set_motion_lease (l : MotionLease) (o : ActuatorOverlay) : ActuatorOverlay :=
  mkOverlay (ov_limits_dirty o) (ov_allowlist o) (ov_slot o) l.
Definition mark_limits_dirty (o : ActuatorOverlay) : ActuatorOverlay := mkOverlay true (ov_allowlist o) (ov_slot o) (ov_motion o).
Definition set_slot (s : PersistSlot) (o : ActuatorOverlay) : ActuatorOverlay :=
  mkOverlay (ov_limits_dirty o) (ov_allowlist o) s (ov_motion o).

Definition tuning_event (op : OperatorCommand) (joint : string) (t : TuningChange) (before after : f64) : TuningChangeEvent :=
  mkTuningEvent (oc_timestamp_ms op) (oc_session_id op) (oc_operator_id op) joint (tn_tier t) (tn_param t) before after (tn_persist t).

Definition action_event (op : OperatorCommand) (joint action : string) (accepted : bool) (reason : option message) (status : PersistStatus)
  (revision : string) : ActionEvent :=
  mkAction (oc_timestamp_ms op) (oc_session_id op) (oc_operator_id op) joint action accepted (default (msg "") reason) status revision.

Definition action_label (c : ActuatorCommand) : string :=
  match ac_payload c with
  | Some PEnable => "enable"
  | Some PMode => "mode_change"
  | Some PJog => "jog"
  | Some PHold => "hold"
  | Some PPreset => "preset"
  | Some (PTuning _) => "tuning"
  | Some (PLimitPatch _) => "limit_patch"
  | None => "unknown"
  end%string.

Section Overlay.
Context {B : Type} `{CanBus B} {R : Type} `{ReferenceWork R}.
Variable observed : Observer B R.
Variable fits : Config.RobotSection -> list UrdfJoint -> result message unit.
Variable display_config : Config.ConfigError -> string.
Variable display_davout : DavoutError -> string.

Abbreviation CL := (ControlLoop B R).

(** The loop, its in-memory URDF model and the overlay. *)
Record OverlayWorld : Type := mkWorld { ow_loop : CL; ow_urdf : list UrdfJoint; ow_overlay : ActuatorOverlay }.

Abbreviation O A := (st OverlayWorld OverlayError A).

Definition set_loop (l : CL) (w : OverlayWorld) : OverlayWorld := mkWorld l (ow_urdf w) (ow_overlay w).

(** A call of the loop. *)
Definition with_loop {A : Type} (m : st CL LoopError A) : O A :=
  fun w => let '(r, l) := m (ow_loop w) in (map_err Controller r, set_loop l w).

(** A call of the supervisor and its URDF model. *)
Definition with_envelope {A : Type} (f : Sup B R * list UrdfJoint -> result DavoutError A * (Sup B R * list UrdfJoint))
  (wrap : DavoutError -> OverlayError) : O A :=
  fun w => let '(r, (s, u)) := f (supervisor (ow_loop w), ow_urdf w) in
           (map_err wrap r, mkWorld (set_sup s (ow_loop w)) u (ow_overlay w)).

Definition enqueue_persist (connected : bool) (r : PersistRequest) : st OverlayWorld Empty_set (result PersistError unit) :=
  fun w => let '(e, s) := enqueue display_config connected r (ov_slot (ow_overlay w)) in
           (Ok e, mkWorld (ow_loop w) (ow_urdf w) (set_slot s (ow_overlay w))).

(** A step whose failures are values. *)
Definition calmly {A : Type} (m : st OverlayWorld Empty_set A) : O A :=
  fun w => match m w with (Ok a, w) => (Ok a, w) | (Err e, w) => match e with end | (Panic, w) => (Panic, w) end.

(** ** Runtime gains *)

Definition baseline_gain_override (l : CL) (joint : string) : GainOverride :=
  match override_get joint (gains (motion l)) with
  | Some ov => ov
  | None =>
      match Config.hget (Config.control_joints (control_of l)) joint with
      | Some c => mkOverride (Config.kp (Config.impedance c)) (Config.kd (Config.impedance c)) (Config.ki (Config.impedance c)) (Config.fc (Config.friction c))
      | None => mkOverride fzero fzero fzero fzero
      end
  end.

Definition unsupported {A : Type} (param : string) : result OverlayError A :=
  Err (UnsupportedParam
         (if String.eqb param "pos" || String.eqb param "vel" || String.eqb param "torque_ff"
          then Msg "{} (runtime MIT is gains-only; use Hold/Jog for motion)" [AStr param]
          else msg param)).

Definition runtime_param_before (l : CL) (joint param : string) : result OverlayError f64 :=
  let ov := baseline_gain_override l joint in
  if String.eqb param "kp" then Ok (ov_kp ov)
  else if String.eqb param "kd" then Ok (ov_kd ov)
  else if String.eqb param "ki" then Ok (ov_ki ov)
  else if String.eqb param "fc" then Ok (ov_fc ov)
  else unsupported param.

Definition set_param (ov : GainOverride) (param : string) (value : f64) : result OverlayError GainOverride :=
  if String.eqb param "kp" then Ok (mkOverride value (ov_kd ov) (ov_ki ov) (ov_fc ov))
  else if String.eqb param "kd" then Ok (mkOverride (ov_kp ov) value (ov_ki ov) (ov_fc ov))
  else if String.eqb param "ki" then Ok (mkOverride (ov_kp ov) (ov_kd ov) value (ov_fc ov))
  else if String.eqb param "fc" then Ok (mkOverride (ov_kp ov) (ov_kd ov) (ov_ki ov) value)
  else unsupported param.

Definition apply_runtime_param (joint param : string) (value : f64) : O unit :=
  let* w := get in
  let l := ow_loop w in
  of_result (refuse_if (negb (is_finite value)) (NonFinite param)) ;*
  of_result (refuse_if (flt value fzero) (UnsupportedParam (Msg "{} must be >= 0" [AStr param]))) ;*
  of_result (refuse_if (negb (mode_allows_gain_override (control_mode (motion l))))
    (UnsupportedParam (Msg "{} (RuntimeMit blocked in {:?})" [AStr param]))) ;*
  let* ov := of_result (set_param (baseline_gain_override l joint) param value) in
  with_loop (apply_gain_override observed joint ov).

(** ** Tuning *)

Definition set_control (c : Config.ControlSection) (s : Sup B R) : Sup B R :=
  set_adm (Envelope.with_profile (motors (adm s)) c (sv_limits (adm s)) (adm s)) s.

Definition validate_control_candidate (s : Sup B R) (c : Config.ControlSection) : result Config.ConfigError unit :=
  Validate.validate_safety_config (robot (installed s)) (motors (adm s)) c (homing_config (installed s)).

Definition draft_control (joint : string) (t : TuningChange) (s : Sup B R) : result OverlayError (f64 * Config.ControlSection) :=
  let c := sv_control (adm s) in
  let! entry := ok_or (Config.hget (Config.control_joints c) joint) (NotWired joint) in
  let! (before, entry) := map_err OvConfig (Config.apply_joint_config_param entry (tn_param t) (tn_value t)) in
  let draft := Envelope.with_joints (Config.hset (Config.control_joints c) joint entry) c in
  map_err OvConfig (validate_control_candidate s draft) ;!
  Ok (before, draft).

Definition apply_tuning_change (connected : bool) (config_dir : string) (op : OperatorCommand) (joint : string) (t : TuningChange)
  : O (list OverlayOutcome) :=
  let* w := get in
  match tn_tier t with
  | Some RuntimeMit =>
      of_result (map_err Motion (lease_admits (ov_motion (ow_overlay w)) Chappe MotionClass "runtime tuning")) ;*
      let* before := of_result (runtime_param_before (ow_loop w) joint (tn_param t)) in
      apply_runtime_param joint (tn_param t) (tn_value t) ;*
      let* w := get in
      let* after := of_result (runtime_param_before (ow_loop w) joint (tn_param t)) in
      ret [OutTuning (tuning_event op joint t before after)]
  | Some ConfigOverlay =>
      of_result (map_err Motion (lease_admits (ov_motion (ow_overlay w)) Chappe MotionClass "config tuning")) ;*
      let* (before, draft) := of_result (draft_control joint t (supervisor (ow_loop w))) in
      (if tn_persist t then
         let* r := calmly (enqueue_persist connected
           (mkRequest config_dir None draft (oc_timestamp_ms op) (oc_session_id op) (oc_operator_id op) joint (tn_param t))) in
         of_result (map_err PersistQueue r)
       else ret tt) ;*
      modify (fun w => set_loop (set_sup (set_control draft (supervisor (ow_loop w))) (ow_loop w)) w) ;*
      ret (OutTuning (tuning_event op joint t before (tn_value t)) ::
           (if tn_persist t
            then [OutAction (action_event op joint "config_persist" true
                    (Some (msg "queued async control.yaml write; live config already applied")) PsPending "")]
            else []))
  | _ => throw UnsupportedTier
  end.

(** ** Limit patches *)

Definition patch_error (config_dir : string) (m : message) : OverlayError := OvConfig (Config.Parse config_dir m).

Definition apply_limit_patch_command (revision : result Config.ConfigError string) (connected : bool) (fresh fresh_back : Z) (config_dir : string)
  (op : OperatorCommand) (joint : string) (p : LimitPatchCommand) : O (list OverlayOutcome) :=
  of_result (refuse_if (String.eqb (lp_expected_revision p) "")
    (patch_error config_dir (msg "expected_revision is required for limit patches"))) ;*
  let* w := get in
  of_result (refuse_if (bool_decide (sup_mode (supervisor (ow_loop w)) = Active)) (OvDavout ELimitPatchActive)) ;*
  let* current := of_result (map_err OvConfig revision) in
  of_result (refuse_if (negb (String.eqb (lp_expected_revision p) current))
    (patch_error config_dir (Msg "profile revision mismatch: expected {}, found {}" [AStr (lp_expected_revision p); AStr current]))) ;*
  let* patch := of_result (Patch.ensure_soft_inset
    (Patch.mkPatch joint (lp_lower p) (lp_upper p) (lp_torque p) (lp_soft_lower p) (lp_soft_upper p) (lp_velocity p))) in
  let s := supervisor (ow_loop w) in
  let motors_before := motors (adm s) in
  let control_before := sv_control (adm s) in
  let urdf_before := ow_urdf w in
  with_envelope (Envelope.apply_limit_patch observed fits fresh patch) OvDavout ;*
  let* w := get in
  let s := supervisor (ow_loop w) in
  let* r := calmly (enqueue_persist connected
    (mkRequest config_dir (Some (motors (adm s))) (sv_control (adm s)) (oc_timestamp_ms op) (oc_session_id op) (oc_operator_id op) joint LIMIT_PATCH)) in
  match r with
  | Err e =>
      with_envelope (Envelope.restore_limit_snapshot observed fits fresh_back motors_before control_before urdf_before)
        (fun back => patch_error config_dir (Msg ("limit_patch rollback failed after enqueue error (" ++ msg_template (queue_error e) ++ "): {}")
                       (msg_args (queue_error e) ++ [AStr (display_davout back)]))) ;*
      throw (PersistQueue e)
  | Panic => of_result Panic
  | Ok _ =>
      ret [OutAction (action_event op joint "limit_patch" true (Some (msg "applied in memory; persist pending")) PsPending current)]
  end.

(** ** Dispatch *)

Definition apply_operator_command (revision : result Config.ConfigError string) (connected : bool) (fresh fresh_back : Z) (config_dir : string)
  (op : OperatorCommand) : O (list OverlayOutcome) :=
  let* busy := with_loop (ask (reference_busy observed)) in
  of_result (refuse_if busy (Controller (LSafety (EReferenceBusy "actuator overlay")))) ;*
  let* w := get in
  let* cmd := of_result (ok_or (oc_command op) MissingCommand) in
  let* joint := of_result (ok_or (resolve_command_joint (ac_joint cmd) (ov_allowlist (ow_overlay w))) (NotWired (ac_joint cmd))) in
  match ac_payload cmd with
  | Some (PTuning t) => apply_tuning_change connected config_dir op joint t
  | Some (PLimitPatch p) => apply_limit_patch_command revision connected fresh fresh_back config_dir op joint p
  | Some _ =>
      ret [OutAction (action_event op joint (action_label cmd) false (Some (msg "motion commands gated until motion unlock")) PsNotApplicable "")]
  | None => throw MissingCommand
  end.

(** An applied change leaves the published limits out of date. *)
Definition dirties (o : OverlayOutcome) : bool :=
  match o with
  | OutTuning _ => true
  | OutAction e => String.eqb (ae_action e) "limit_patch" && ae_accepted e
  end.

(** An accepted limit patch is published at once. *)
Definition publishes (o : OverlayOutcome) : bool :=
  match o with OutTuning _ => false | OutAction e => String.eqb (ae_action e) "limit_patch" && ae_accepted e end.

(** [published]: the snapshot went out. *)
Definition maybe_publish_limits (published : bool) (o : ActuatorOverlay) : ActuatorOverlay :=
  if ov_limits_dirty o && published then mkOverlay false (ov_allowlist o) (ov_slot o) (ov_motion o) else o.

End Overlay.
End Overlay.
