(* ===== verification/Parse.v ===== *)
(** * Parse: the stdin grammar

    [src/bins/marengo-pi/src/main.rs]: [parse_command] and its number parsers, the
    reader thread's [read_stdin_commands], and the [wave:] names of Testing
    batches.  The standard library's [split_whitespace], [u32::from_str] and
    [f64::from_str] are modelled on ASCII text; a decimal number is its exact
    value rounded once to the nearest double.  Usage and error lines are not
    modelled: a refused line is [None]. *)

From Stdlib Require Import ZArith Lia Bool SpecFloat Ascii String.
From stdpp Require Import base strings list.
From S2P Require Import Prelude Float Config Validate Reporting Setpoint Gate.

Module Parse.
Import Setpoint Gate.

(** ** Text *)

(** Pieces of [s] between characters of [sep], also the empty ones. *)
Fixpoint pieces (sep : ascii -> bool) (s : string) : list string :=
  match s with
  | EmptyString => [EmptyString]
  | String c rest =>
      match pieces sep rest with
      | [] => []
      | p :: ps => if sep c then EmptyString :: p :: ps else String c p :: ps
      end
  end.

Definition split_whitespace (s : string) : list string :=
  List.filter (fun p => negb (String.eqb p "")) (pieces Validate.is_ascii_whitespace s).

Definition split_colon (s : string) : list string := pieces (Ascii.eqb ":") s.

Definition strip_prefix (pre s : string) : option string :=
  if String.prefix pre s then Some (substring (String.length pre) (String.length s - String.length pre) s) else None.

(** ** Numbers *)

Definition digit (c : ascii) : option Z :=
  let n := Z.of_nat (nat_of_ascii c) - 48 in if (0 <=? n) && (n <=? 9) then Some n else None.

(** The digits at the front: their value, their count and the rest. *)
Fixpoint digits (s : string) (acc count : Z) : Z * Z * string :=
  match s with
  | EmptyString => (acc, count, s)
  | String c rest => match digit c with Some d => digits rest (10 * acc + d) (count + 1) | None => (acc, count, s) end
  end.

Definition parse_u32 (s : string) : option Z :=
  let s := match s with String "+" rest => rest | _ => s end in
  match digits s 0 0 with
  | (v, n, EmptyString) => if (0 <? n) && (v <=? U32_MAX) then Some v else None
  | _ => None
  end.

Definition sign_of (s : string) : bool * string :=
  match s with String "-" rest => (true, rest) | String "+" rest => (false, rest) | _ => (false, s) end.

Definition lower (c : ascii) : ascii :=
  let n := nat_of_ascii c in if (65 <=? n)%nat && (n <=? 90)%nat then ascii_of_nat (n + 32) else c.
Fixpoint lowercase (s : string) : string := match s with EmptyString => EmptyString | String c r => String (lower c) (lowercase r) end.

(** [(-1)^s * n / d] rounded to nearest: the quotient to more than 64 bits, and whether anything is left. *)
Definition ratio64 (s : bool) (n d : positive) : f64 :=
  let shift := Z.max 0 (66 + Z.log2 (Zpos d) - Z.log2 (Zpos n)) in
  let num := Zpos n * 2 ^ shift in
  match 2 * (num / Zpos d) + (if num mod Zpos d =? 0 then 0 else 1) with
  | Zpos m => binary_round prec64 emax64 s m (- (shift + 1))
  | _ => S754_zero s
  end.

Definition decimal (s : bool) (mantissa exponent : Z) : f64 :=
  match mantissa with
  | Zpos n => if 0 <=? exponent then ratio64 s (n * Z.to_pos (10 ^ exponent)) 1 else ratio64 s n (Z.to_pos (10 ^ (- exponent)))
  | _ => S754_zero s
  end.

(** [e] or [E], a sign and digits, and nothing else; no exponent is zero. *)
Definition exponent (s : string) : option Z :=
  match s with
  | EmptyString => Some 0
  | String c rest =>
      if Ascii.eqb (lower c) "e" then
        let '(neg, rest) := sign_of rest in
        match digits rest 0 0 with
        | (v, n, EmptyString) => if 0 <? n then Some (if neg then - v else v) else None
        | _ => None
        end
      else None
  end.

Definition parse_f64 (s : string) : option f64 :=
  let '(neg, body) := sign_of s in
  let word := lowercase body in
  if String.eqb word "inf" || String.eqb word "infinity" then Some (S754_infinity neg)
  else if String.eqb word "nan" then Some S754_nan
  else
    let '(int, n, rest) := digits body 0 0 in
    let '(mantissa, n, places, rest) :=
      match rest with
      | String "." rest => let '(v, k, rest) := digits rest int 0 in (v, n + k, k, rest)
      | _ => (int, n, 0, rest)
      end in
    if 0 <? n then (fun e => decimal neg mantissa (e - places)) <$> exponent rest else None.

(** ** Commands *)

Definition home_flag (t : string) : bool := String.eqb t "sign-tested" || String.eqb t "--sign-tested".

Definition parse_home (tokens : list string) : PiCommand :=
  let joints := List.filter (fun t => negb (home_flag t)) tokens in
  let sign_tested := existsb home_flag tokens in
  if bool_decide (joints = []) && negb sign_tested then Home else HomeJoints joints sign_tested.

(** The first token that is not [force], while the name is still the default. *)
Definition parse_operator (tokens : list string) : string :=
  fold_left (fun operator_id t =>
    if String.eqb t "force" || String.eqb t "--force" then operator_id
    else if String.eqb operator_id "bench" then t else operator_id) tokens "bench"%string.

Definition parse_speed_fraction (token : string) : option f64 :=
  v ← parse_f64 token; match speed_new v with Ok speed => Some (speed_get speed) | _ => None end.

(** A trailing [speed=<f>]: the tokens before it and its value. *)
Definition take_speed (tokens : list string) : option (list string * option f64) :=
  match last tokens ≫= strip_prefix "speed=" with
  | Some value => f ← parse_speed_fraction value; Some (removelast tokens, Some f)
  | None => Some (tokens, None)
  end.

Definition parse_hold_at (tokens : list string) : option PiCommand :=
  '(tokens, speed_fraction) ← take_speed tokens;
  if existsb (String.prefix "speed=") tokens then None
  else
    match tokens with
    | [rad] => q ← parse_f64 rad; Some (HoldAtCmd None q speed_fraction)
    | [joint; rad] => q ← parse_f64 rad; Some (HoldAtCmd (Some joint) q speed_fraction)
    | _ => None
    end.

Definition parse_wave (tokens : list string) : option PiCommand :=
  match tokens with
  | [joint; lo; hi; cycles] =>
      lo ← parse_f64 lo; hi ← parse_f64 hi; cycles ← parse_u32 cycles; Some (WaveCmd joint lo hi cycles (lit64 4 10))
  | [joint; lo; hi; cycles; half_period] =>
      lo ← parse_f64 lo; hi ← parse_f64 hi; cycles ← parse_u32 cycles; half ← parse_f64 half_period; Some (WaveCmd joint lo hi cycles half)
  | _ => None
  end.

Definition parse_torque (tokens : list string) : option PiCommand :=
  match tokens with
  | joint :: tau :: _ => tau ← parse_f64 tau; Some (TorqueCmd joint tau)
  | _ => None
  end.

Definition parse_command (line : string) : option PiCommand :=
  match split_whitespace line with
  | [] => None
  | word :: parts =>
      if String.eqb word "home" then Some (parse_home parts)
      else if String.eqb word "enable" then Some (EnableCmd (parse_operator parts))
      else if String.eqb word "disable" then Some DisableCmd
      else if String.eqb word "gravity-on" || String.eqb word "gravity_on" then Some GravityOn
      else if String.eqb word "gravity-off" || String.eqb word "gravity_off" then Some GravityOff
      else if String.eqb word "torque-cmd" || String.eqb word "torque_cmd" then parse_torque parts
      else if String.eqb word "impedance-on" || String.eqb word "impedance_on" then Some ImpedanceOn
      else if String.eqb word "impedance-off" || String.eqb word "impedance_off" then Some ImpedanceOff
      else if String.eqb word "hold-on" || String.eqb word "hold_on" then Some HoldOn
      else if String.eqb word "hold-off" || String.eqb word "hold_off" then Some HoldOff
      else if String.eqb word "hold-at" || String.eqb word "hold_at" then parse_hold_at parts
      else if String.eqb word "wave" then parse_wave parts
      else if String.eqb word "lower" then Some Lower
      else if String.eqb word "status" then Some Status
      else if String.eqb word "quit" || String.eqb word "exit" then Some Quit
      else None
  end.

(** The commands the reader thread sends: lines as read, [None] a read error. *)
Fixpoint read_stdin_commands (lines : list (option string)) : list PiCommand :=
  match lines with
  | [] => [Quit]
  | None :: _ => [Quit]
  | Some line :: rest =>
      match parse_command (Reporting.trim line) with
      | None => read_stdin_commands rest
      | Some Quit => [Quit]
      | Some c => c :: read_stdin_commands rest
      end
  end.

(** ** Testing waves *)

Record TestingWaveCommand : Type := mkTestingWave {
  tw_joint : string; tw_min_rad : f64; tw_max_rad : f64; tw_cycles : Z; tw_half_period_sec : f64
}.

Definition parse_testing_wave_command (name : string) : option TestingWaveCommand :=
  rest ← strip_prefix "wave:" name;
  match split_colon rest with
  | [joint; lo; hi; cycles; half] =>
      lo ← parse_f64 lo; hi ← parse_f64 hi; cycles ← parse_u32 cycles; half ← parse_f64 half;
      if String.eqb joint "" || (cycles =? 0) || fle half fzero then None else Some (mkTestingWave joint lo hi cycles half)
  | _ => None
  end.

(** ** What a line can ask for *)

Example parse_numbers :
  parse_f64 "0.1" = Some (lit64 1 10) /\ parse_f64 "-2.5e-1" = Some (lit64 (-1) 4) /\ parse_f64 ".5" = Some (lit64 1 2)
  /\ parse_f64 "1e400" = Some (S754_infinity false) /\ parse_f64 "-Infinity" = Some (S754_infinity true)
  /\ parse_f64 "." = None /\ parse_f64 "1e" = None /\ parse_f64 "" = None
  /\ parse_u32 "+12" = Some 12 /\ parse_u32 "4294967296" = None /\ parse_u32 "-1" = None.
Proof. vm_compute. repeat split. Qed.

(** Where a speed fraction may come from. *)
Definition valid_speed (c : PiCommand) : Prop :=
  match c with
  | HoldAtCmd _ _ (Some f) => is_finite f = true /\ fgt f fzero = true /\ fle f (f64_of_Z 1) = true
  | _ => True
  end.

Lemma speed_valid (token : string) (f : f64) :
  parse_speed_fraction token = Some f -> is_finite f = true /\ fgt f fzero = true /\ fle f (f64_of_Z 1) = true.
Proof.
  unfold parse_speed_fraction. destruct (parse_f64 token) as [v|]; [|discriminate]. cbn. unfold speed_new.
  destruct (_ && _) eqn:E; [|discriminate]. intros [= <-]. by bsimp.
Qed.

Lemma hold_at_valid (tokens : list string) (c : PiCommand) : parse_hold_at tokens = Some c -> valid_speed c.
Proof.
  unfold parse_hold_at, take_speed. intros E. destruct (last tokens ≫= strip_prefix "speed=") as [v|].
  - destruct (parse_speed_fraction v) as [f|] eqn:Ef; [|discriminate]. cbn in E. pose proof (speed_valid _ _ Ef).
    destruct (existsb _ _); [discriminate|]. destruct (removelast tokens) as [|a [|b [|]]]; try discriminate;
      [destruct (parse_f64 a)|destruct (parse_f64 b)]; try discriminate; by injection E as <-.
  - cbn in E. destruct (existsb _ _); [discriminate|]. destruct tokens as [|a [|b [|]]]; try discriminate;
      [destruct (parse_f64 a)|destruct (parse_f64 b)]; try discriminate; by injection E as <-.
Qed.

Lemma command_valid (line : string) (c : PiCommand) : parse_command line = Some c -> valid_speed c.
Proof.
  unfold parse_command. destruct (split_whitespace line) as [|w parts]; [discriminate|]. intros E.
  repeat match type of E with
  | (if ?b then _ else _) = Some _ => destruct b; [try by injection E as <-|]
  end; try discriminate; eauto using hold_at_valid.
  - injection E as <-. unfold parse_home. by destruct (_ && _).
  - unfold parse_torque in E. destruct parts as [|a [|b ?]]; try discriminate. destruct (parse_f64 b); [|discriminate]. by injection E as <-.
  - unfold parse_wave in E. destruct parts as [|a [|b [|d [|e [|f [|]]]]]]; try discriminate;
      repeat match type of E with (?o ≫= _) = _ => destruct o; [cbn in E|discriminate] end; by injection E as <-.
Qed.

(** reading stdin always ends in one shutdown.  Whatever lines arrive, a read
    error and end of file included, the reader sends exactly one [Quit], last; and
    no command asks for a speed fraction outside (0, 1]. *)
Theorem stdin_ends_in_quit (lines : list (option string)) :
  exists cs, read_stdin_commands lines = cs ++ [Quit] /\ ~ In Quit cs /\ Forall valid_speed cs.
Proof.
  assert (Hend : exists cs, [Quit] = cs ++ [Quit] /\ ~ In Quit cs /\ Forall valid_speed cs)
    by (exists []; split; [done|]; split; [intros []|constructor]).
  induction lines as [|[line|] rest (cs & IH1 & IH2 & IH3)]; cbn [read_stdin_commands]; [done| |done].
  destruct (parse_command _) as [c|] eqn:Ec; [|eauto]. pose proof (command_valid _ _ Ec) as Hv.
  assert (Hq : c = Quit \/ c <> Quit) by (destruct c; auto; right; discriminate). destruct Hq as [->|Hq]; [done|]. exists (c :: cs). rewrite IH1.
  split; [by destruct c|]. split; [|by constructor]. intros [->|Hi]; auto.
Qed.

End Parse.
