(* ===== verification/Pi.v ===== *)
(** * Pi: the robot process

    [src/bins/marengo-pi/src/main.rs] with [degraded.rs]: one state of the control
    thread, the handlers of both command sources, and [control_pass], one turn of
    [run_control_loop].

    [Pi] holds the loop, its model and overlay ([Overlay.OverlayWorld]), the
    reference queue, the enable gate, the stop pacer, the unpublished fault and the
    stop signal.  A handler is in [st] without errors: what the code reports it
    appends to [pi_output], and a panic unwinds out of it ([run_with_panic_stop]).
    [requested] reads the flags signal handlers and the output writer set at any
    time: [signals] says what each reading finds.  A channel is the messages a pass
    takes from it before it finds it empty, with [None] for one that does not
    decode.

    Left out: log lines, the loop timing window, the heartbeat, the timestamps of
    messages, process start (files, sockets, threads) and the position trace.
    Arguments are as in [LoopTick], [Overlay] and [Exit]; [files] is what the
    files an Enable reads hold during the pass. *)

From Stdlib Require Import ZArith Lia Bool SpecFloat.
From stdpp Require Import base gmap strings list.
From S2P Require Import Prelude Float Config Limits Bus Receive Reporting Faults Davout Filter Admission Authority Lifecycle Stop Session Enable Position Setpoint Gains PosHold Facets Dynamics Loop LoopTick LimitPatch Journal History Reference Acquire Commit Persist RefQueue Preflight Exit Gate Overlay Parse.

Module Pi.
Import Bus Faults Davout Admission Lifecycle Session Enable Position Gains Facets Dynamics Loop LoopTick History Gate.
Import RefQueue(ReferenceQueue, ReferenceDriver, ReferenceEvent, queue_new, is_busy, queue_admit, defer, take_ready_deferred, queue_cancel, pump).
Import Preflight(SliceBudget, PER_TICK, SweepAbort, SweepDone, SweepPending, AbortDisabled, AbortStopped, AbortShutdown, abort_text).

Definition STDIN_REFERENCE_OPERATOR : string := "bench".
Definition LAGGED_ENABLE_DISCARD_BOUND : nat := 4096.
Definition RESTOP_INTERVAL : Z := 1000000000.

(** ** Messages and output *)

(** One read of a channel that was not empty. *)
Inductive Polled (M : Type) : Type := Message (m : option M) | Lagged (skipped : Z).
#[global] Arguments Message {M} _.
#[global] Arguments Lagged {M} _.

Record SetZeroRequest : Type := mkSetZero { sz_operator_id : string; sz_joint : string; sz_confirm : bool; sz_sign_test_passed : bool }.

Inductive LeaseAction : Type := LeaseUnspecified | LeaseAcquire | LeaseRenew | LeaseRelease.
Record LeaseRequest : Type := mkLeaseRequest { lr_joint : string; lr_client_id : string; lr_lease_id : string; lr_action : LeaseAction }.

Inductive FaultSeverity : Type := SevWarning | SevFault | SevEstop.
Record PublishedFault : Type := mkPublished { pf_code : string; pf_message : message; pf_severity : FaultSeverity; pf_joint : string }.
Record SafetyState : Type := mkSafety {
  ss_mode : OperationalMode; ss_hardware_estop_asserted : bool; ss_software_estop_latched : bool; ss_active_faults : list PublishedFault
}.

(** What the process says, in order. *)
Inductive Output : Type :=
| OLine (l : GateLine)
| OReference (e : ReferenceEvent)
| OAudit (action : string) (accepted : bool) (operator joint : string) (reason : message)
| OOutcome (o : Overlay.OverlayOutcome)
| OSafety (s : SafetyState).

Record TickStopPacer : Type := mkPacer { last_delivered_stop : option Z; suppressed : Z }.
Record UnpublishedTickFault : Type := mkUnpublished { uf_first : option string; uf_more : Z }.

Definition pacer_default : TickStopPacer := mkPacer None 0.
Definition unpublished_default : UnpublishedTickFault := mkUnpublished None 0.

Definition record_fault_text (m : string) (u : UnpublishedTickFault) : UnpublishedTickFault :=
  match uf_first u with
  | None => mkUnpublished (Some m) (uf_more u)
  | Some f => mkUnpublished (Some f) (sat_add_u32 (uf_more u) 1)
  end.

Definition fault_text (u : UnpublishedTickFault) : option message :=
  (fun first => if uf_more u =? 0 then msg first else Msg (first ++ " (+{} more tick errors)") [AInt (uf_more u)]) <$> uf_first u.

(** The motion refusal's [Display]. *)
Definition source_text (s : CommandSource) : fmt_arg := AStr (match s with Stdin => "stdin" | Chappe => "chappe" end).
Definition refusal_text (r : MotionRefusal) : message :=
  Msg "{} refused: motion is owned by {}, not {}; only disable/stop is accepted from {} (start marengo-pi with --motion-owner {} to own motion)"
    [AStr (mr_command r); source_text (mr_owner r); source_text (mr_from r); source_text (mr_from r); source_text (mr_from r)].

Definition defers_while_referencing (c : PiCommand) : bool :=
  match c with HomeJoints _ _ | DisableCmd | Quit => false | _ => true end.

Definition is_stop (c : PiCommand) : bool := match c with DisableCmd | Quit => true | _ => false end.

Definition joined (joints : list string) : fmt_arg := AStr (String.concat "," joints).

Definition cause_text (c : DegradedLowerCause) : fmt_arg := AStr (match c with Operator => "operator" | Timeout => "timeout" end).

Definition degraded_event_line (e : DegradedEvent) : message :=
  match e with
  | DriveLost joint shed holding auto_lower_in =>
      Msg "drive lost {}: shed {}; holding {}; auto-lower in {} s" [AStr joint; joined shed; joined holding; AF64 (as_secs_f64 auto_lower_in)]
  | LowerStarted cause => Msg "degraded lower started ({})" [cause_text cause]
  | Loop.LowerComplete => msg "degraded lower complete; disabled"
  | Ended _ ending => Msg "degraded episode ended ({}); disabled" [AStr (end_as_str ending)]
  end.

Definition degraded_action (e : DegradedEvent) : string * string :=
  match e with
  | DriveLost joint _ _ _ => ("drive_loss_shed", joint)
  | LowerStarted _ => ("degraded_lower", "")
  | Loop.LowerComplete => ("degraded_lower_complete", "")
  | Ended lost _ => ("degraded_episode_ended", lost)
  end%string.

Definition starts_episode (e : DegradedEvent) : bool := match e with DriveLost _ _ _ _ => true | _ => false end.

(** A Testing batch in POSITION mode ([CONTROL_MODE_POSITION]). *)
Definition wants_position (b : MitCommandBatch) : bool := tb_mode b =? 4.

Definition testing_batch_speed_refusal (b : MitCommandBatch) (want_position : bool) : option message :=
  let refusal j :=
    v ← tj_speed_fraction j;
    (fun m => Msg ("testing batch refused: {}: " ++ msg_template m) (AStr (tj_name j) :: msg_args m)) <$>
      (match Setpoint.speed_new v with
       | Ok _ =>
           if negb want_position then Some (msg "speed_fraction applies only to a POSITION batch")
           else if String.prefix "wave:" (tj_name j) then Some (msg "speed_fraction does not apply to a wave entry")
           else None
       | _ => Some (Msg "speed fraction {} refused: it must be a number in (0, 1] (it can only slow a move)" [AF64 v])
       end) in
  head (omap refusal (tb_joints b)).

Definition is_configured_joint {B R : Type} (s : Sup B R) (j : string) : bool :=
  existsb (fun m => bool_decide (Config.joint m = j)) (motors (adm s)).

(** A command of the overlay with what it finds: the revision on disk, whether
    the persist worker listens, the identities of new model descriptors and
    whether a snapshot of limits is published. *)
Record OverlayMessage : Type := mkOverlayMessage {
  om_command : Overlay.OperatorCommand; om_revision : result Config.ConfigError string; om_connected : bool;
  om_fresh : Z; om_fresh_back : Z; om_published : bool
}.

(** What a pass finds in its channels, and whether its publications succeed. *)
Record Inputs : Type := mkInputs {
  in_stdin : list PiCommand;
  in_set_zero : list (Polled SetZeroRequest);
  in_leases : list (Polled LeaseRequest);
  in_polls : list (Polled unit);
  in_enables : list (Polled EnableRequest);
  in_testing : list (Polled MitCommandBatch);
  in_actuator : list (Polled OverlayMessage);
  in_limits_published : bool
}.

Definition control_debug (m : ControlMode) : string :=
  match m with CDisabled => "Disabled" | GravityComp => "GravityComp" | Impedance => "Impedance" | CPosition => "Position" | TorqueOnly => "TorqueOnly" end.

(** ** The process *)

Section Pi.
Context {B : Type} `{CanBus B} {R : Type} `{ReferenceWork R} {Hd : Type} `{!ReferenceDriver (Sup B R) Hd}.
Variable observed : Observer B R.
Variable display : DavoutError -> string.
Variable display_loop : LoopError -> string.
Variable display_overlay : Overlay.OverlayError -> string.
Variable display_config : Config.ConfigError -> string.
Variable debug_lease : Reporting.ActiveReportingLeaseError -> string.
Variable display_frame : ReceiveFrameEvidence -> string.
Variable fuel : nat.
Variables exp tanh cos sin : f64 -> f64.
Variable dynamics : DynamicsModel.
Variable advance_work : Sup B R -> result string unit * Sup B R.
Variable chappe : option (list JointState -> bool).
Variable fits : Config.RobotSection -> list Limits.UrdfJoint -> result message unit.
Variable publish : SafetyState -> bool.
Variable files : EnableFiles.
Variable lease : MotionLease.
Variable config_dir : string.

Abbreviation CL := (ControlLoop B R).
Abbreviation L A := (st (ControlLoop B R) LoopError A).
Abbreviation World := (Overlay.OverlayWorld (B := B) (R := R)).

Record Pi : Type := mkPi {
  pi_world : World;
  pi_queue : ReferenceQueue Hd PiCommand;
  pi_gate : EnableGate;
  pi_pacer : TickStopPacer;
  pi_unpublished : UnpublishedTickFault;
  pi_last_chappe : Z;
  pi_shutdown : bool;
  pi_signals : nat -> bool;
  pi_polls : nat;
  pi_output : list Output
}.

Abbreviation P A := (st Pi Empty_set A).

Definition pi_loop (p : Pi) : CL := Overlay.ow_loop (pi_world p).

Definition set_world (w : World) (p : Pi) : Pi :=
  mkPi w (pi_queue p) (pi_gate p) (pi_pacer p) (pi_unpublished p) (pi_last_chappe p) (pi_shutdown p) (pi_signals p) (pi_polls p) (pi_output p).
Definition set_queue (q : ReferenceQueue Hd PiCommand) (p : Pi) : Pi :=
  mkPi (pi_world p) q (pi_gate p) (pi_pacer p) (pi_unpublished p) (pi_last_chappe p) (pi_shutdown p) (pi_signals p) (pi_polls p) (pi_output p).
Definition set_gate (g : EnableGate) (p : Pi) : Pi :=
  mkPi (pi_world p) (pi_queue p) g (pi_pacer p) (pi_unpublished p) (pi_last_chappe p) (pi_shutdown p) (pi_signals p) (pi_polls p) (pi_output p).
Definition set_stop_pacer (x : TickStopPacer) (p : Pi) : Pi :=
  mkPi (pi_world p) (pi_queue p) (pi_gate p) x (pi_unpublished p) (pi_last_chappe p) (pi_shutdown p) (pi_signals p) (pi_polls p) (pi_output p).
Definition set_unpublished (u : UnpublishedTickFault) (p : Pi) : Pi :=
  mkPi (pi_world p) (pi_queue p) (pi_gate p) (pi_pacer p) u (pi_last_chappe p) (pi_shutdown p) (pi_signals p) (pi_polls p) (pi_output p).
Definition set_last_chappe (t : Z) (p : Pi) : Pi :=
  mkPi (pi_world p) (pi_queue p) (pi_gate p) (pi_pacer p) (pi_unpublished p) t (pi_shutdown p) (pi_signals p) (pi_polls p) (pi_output p).
Definition set_shutdown (b : bool) (p : Pi) : Pi :=
  mkPi (pi_world p) (pi_queue p) (pi_gate p) (pi_pacer p) (pi_unpublished p) (pi_last_chappe p) b (pi_signals p) (pi_polls p) (pi_output p).
Definition put (o : list Output) (p : Pi) : Pi :=
  mkPi (pi_world p) (pi_queue p) (pi_gate p) (pi_pacer p) (pi_unpublished p) (pi_last_chappe p) (pi_shutdown p) (pi_signals p) (pi_polls p) (pi_output p ++ o).

(** [StopSignal::requested]: once found, it stays. *)
Definition requested : P bool :=
  fun p =>
    let b := pi_shutdown p || pi_signals p (pi_polls p) in
    (Ok b, mkPi (pi_world p) (pi_queue p) (pi_gate p) (pi_pacer p) (pi_unpublished p) (pi_last_chappe p) b (pi_signals p) (S (pi_polls p)) (pi_output p)).

(** Steps of one part of the state. *)
Definition on_world {A : Type} (m : st World Empty_set A) : P A :=
  fun p => let '(r, w) := m (pi_world p) in (r, set_world w p).
Definition on_loop {A : Type} (m : st CL Empty_set A) : P A :=
  on_world (fun w => let '(r, l) := m (Overlay.ow_loop w) in (r, Overlay.set_loop l w)).
Definition attempt {A : Type} (m : L A) : P (LoopError + A) := on_loop (try_loop m).
Definition attempt_drive {A : Type} (f : Sup B R -> result DavoutError A * Sup B R) : P (DavoutError + A) := on_loop (try_drive f).
Definition consult {A : Type} (f : Sup B R -> A * Sup B R) : P A :=
  on_loop (fun l => let '(a, s) := f (supervisor l) in (Ok a, set_sup s l)).
Definition current : P Z := consult tick.

Definition emit (lines : list GateLine) : P unit := modify (put (OLine <$> lines)).
Definition say (m : message) : P unit := emit [LineOut m].
Definition say_err (m : message) : P unit := emit [LineErr m].
Definition emit_reference_events (events : list ReferenceEvent) : P unit := modify (put (OReference <$> events)).
Definition publish_audit (action : string) (accepted : bool) (operator joint : string) (reason : message) : P unit :=
  modify (put [OAudit action accepted operator joint reason]).
Definition report_refusal (operator joint : string) (reason : message) : P unit := publish_audit "motion_refused" false operator joint reason.

(** A step of the gate that prints. *)
Definition with_gate (f : EnableGate -> list GateLine * EnableGate) : P unit :=
  let* p := get in let '(lines, g) := f (pi_gate p) in modify (set_gate g) ;* emit lines.
(** A step of the gate that also runs loop commands. *)
Definition with_gate_loop (f : EnableGate -> st CL Empty_set (list GateLine * EnableGate)) : P unit :=
  let* p := get in let* (lines, g) := on_loop (f (pi_gate p)) in modify (set_gate g) ;* emit lines.
(** [queue.cancel()]. *)
Definition cancel_queue : P unit :=
  let* p := get in let '(events, q) := queue_cancel (pi_queue p) in modify (set_queue q) ;* emit_reference_events events.

(** ** Refusals *)

Definition degraded_refusal (l : CL) (command : string) : option (string * message) :=
  (fun joint => (joint, Msg "{} refused: degraded hold after losing {}; only disable or lower is accepted" [AStr command; AStr joint]))
    <$> degraded_lost_joint l.

Definition refuse_during_episode (operator command : string) (print : bool) : P bool :=
  let* p := get in
  match degraded_refusal (pi_loop p) command with
  | None => ret false
  | Some (joint, reason) =>
      (if print then say_err reason else ret tt) ;*
      report_refusal operator joint reason ;*
      ret true
  end.

Definition admit_stdin_command (c : PiCommand) : P bool :=
  let '(class, name) := classify_stdin c in
  match lease_admits lease Stdin class name with
  | Err refusal =>
      let reason := refusal_text refusal in
      (if String.prefix "home" name then say (Msg ("home failed: " ++ msg_template reason) (msg_args reason)) else say_err reason) ;*
      report_refusal STDIN_REFERENCE_OPERATOR "" reason ;*
      ret false
  | _ => ret true
  end.

(** ** Stopping *)

(** [disable_all] and the control mode, implicit Enable forbidden first. *)
Definition forbid_and_stop : P (DavoutError + unit) :=
  let* _ := attempt forbid_implicit_enable in
  let* result := attempt_drive (disable_all observed) in
  let* _ := attempt (set_control_mode observed CDisabled) in
  ret result.

(** The answer is the fault's text. *)
Definition stop_after_tick_error (error : LoopError) (now : Z) : P string :=
  let* p := get in
  let s := supervisor (pi_loop p) in
  let pacer := pi_pacer p in
  let stopped_and_latched :=
    has_latched_fault s && negb (bool_decide (sup_mode s = Active)) && bool_decide (control_mode (motion (pi_loop p)) = CDisabled) in
  let recent := match last_delivered_stop pacer with Some at_ => elapsed at_ now <? RESTOP_INTERVAL | None => false end in
  if stopped_and_latched && recent then
    modify (set_stop_pacer (mkPacer (last_delivered_stop pacer) (sat_add_u32 (suppressed pacer) 1))) ;*
    ret (display_loop error)
  else
    let* stop := attempt_drive (disable_all observed) in
    let* _ := attempt (set_control_mode observed CDisabled) in
    match stop with
    | inr _ => modify (set_stop_pacer (mkPacer (Some now) 0)) ;* ret (display_loop error)
    | inl e =>
        modify (set_stop_pacer (mkPacer None 0)) ;*
        ret (display_loop error ++ "; stop after tick failure not delivered: " ++ display e)%string
    end.

(** ** Enable *)

Definition start_sweep : P (option Preflight.GravitySweep) :=
  let* r := attempt Preflight.start in
  ret match r with inr o => o | inl _ => None end.

(** Whether the gate took the request. *)
Definition begin_sweep (sweep : Preflight.GravitySweep) (t : PreflightFor) : P bool :=
  let* p := get in
  match begin_preflight sweep t (pi_gate p) with
  | (Ok _, g) => modify (set_gate g) ;* ret true
  | _ => ret false
  end.

(** [Some] is the error logged. *)
Definition handle_chappe_enable (request : EnableRequest) : P (option message) :=
  let* p := get in
  if er_enable request then
    if is_busy (pi_queue p) then ret (Some (msg "reference queue busy; enable refused"))
    else if preflight_pending (pi_gate p) then
      let '(ok, g) := defer_chappe_enable request (pi_gate p) in
      if ok then modify (set_gate g) ;* ret None
      else ret (Some (msg "gravity preflight in progress: deferred enable limit reached; enable refused"))
    else
      let* sweep := start_sweep in
      match sweep with
      | None => ret (Some (msg "gravity saturation preflight refused enable"))
      | Some sweep =>
          let* ok := begin_sweep sweep (ChappeEnable request) in
          ret (if ok then None else Some (msg "gravity preflight already in progress; enable refused"))
      end
  else
    let* result := forbid_and_stop in
    cancel_queue ;*
    with_gate (end_preflight (Some AbortDisabled)) ;*
    ret match result with inl e => Some (msg (display e)) | inr _ => None end.

(** [resolve_enable_targets], [enable_targets] and the leave to enable
    implicitly; [inl (e, true)] is a refusal before any target was chosen. *)
Definition enable_resolved : P ((DavoutError * bool) + list string) :=
  let* targets := attempt_drive (resolve_enable_targets observed display files) in
  match targets with
  | inl e => ret (inl (e, true))
  | inr targets =>
      let* enabled := attempt_drive (enable_targets observed display fuel targets) in
      match enabled with
      | inl e => ret (inl (e, false))
      | inr _ => let* _ := attempt allow_implicit_enable in ret (inr targets)
      end
  end.

Definition enable_after_chappe_preflight : P unit := enable_resolved ;* ret tt.

Definition enable_after_stdin_preflight (operator_id : string) : P unit :=
  let* r := enable_resolved in
  match r with
  | inr targets => let* t := current in with_gate (begin_enable operator_id targets t)
  | inl (e, blocked) => say_err (Msg (if blocked : bool then "enable blocked: {}" else "enable failed: {}") [AStr (display e)])
  end.

(** ** Testing *)

Definition apply_testing_gains (j : TestJoint) : P unit :=
  let has_gain := negb (feq (tj_kp j) fzero) || negb (feq (tj_kd j) fzero) || negb (feq (tj_ki j) fzero) || negb (feq (tj_fc j) fzero) in
  (if has_gain then attempt (apply_gain_override observed (tj_name j) (mkOverride (tj_kp j) (tj_kd j) (tj_ki j) (tj_fc j)))
   else attempt (clear_gain_override (tj_name j))) ;*
  ret tt.

Definition testing_setpoint (j : TestJoint) : P (LoopError + unit) :=
  let* p := get in
  if bool_decide (control_mode (motion (pi_loop p)) = CPosition) then
    attempt (ensure_active_for_motion observed display fuel files ;*
             set_joint_position_setpoint_at_speed observed display (tj_name j) (tj_position j) (tj_speed_fraction j))
  else attempt (enter_position_hold_at_speed observed display fuel files (Some (tj_name j)) (tj_position j) (tj_speed_fraction j)).

Fixpoint apply_testing_joints (want_position : bool) (joints : list TestJoint) : P unit :=
  match joints with
  | [] => ret tt
  | j :: rest =>
      let* stop := requested in
      if stop then ret tt
      else
        match Parse.parse_testing_wave_command (tj_name j) with
        | Some w =>
            attempt (start_position_wave observed display fuel files (Parse.tw_joint w) (Parse.tw_min_rad w) (Parse.tw_max_rad w)
                       (Parse.tw_cycles w) (Parse.tw_half_period_sec w)) ;*
            apply_testing_joints want_position rest
        | None =>
            let* r := (if want_position then testing_setpoint j else ret (inr tt)) in
            match r with
            | inl _ => apply_testing_joints want_position rest
            | inr _ => apply_testing_gains j ;* apply_testing_joints want_position rest
            end
        end
  end.

Definition apply_testing_batch (b : MitCommandBatch) (want_position : bool) : P unit := apply_testing_joints want_position (tb_joints b).

Definition refuse_testing (reason : message) : P unit := report_refusal "consul" "" reason.

Definition handle_testing_batch (b : MitCommandBatch) : P unit :=
  match lease_admits lease Chappe MotionClass "testing batch" with
  | Err refusal => refuse_testing (refusal_text refusal)
  | _ =>
      let* refused := refuse_during_episode "consul" "testing batch" false in
      if refused then ret tt
      else
        let* p := get in
        let* busy := (if is_busy (pi_queue p) then ret true else consult (reference_busy observed)) in
        if busy then refuse_testing (msg "testing batch refused: reference acquisition in progress")
        else
          let want_position := wants_position b in
          match testing_batch_speed_refusal b want_position with
          | Some reason => refuse_testing reason
          | None =>
              let* p := get in
              if want_position && negb (bool_decide (sup_mode (supervisor (pi_loop p)) = Active)) then
                if implicit_enable_forbidden (pi_loop p) then refuse_testing (msg "testing batch refused: enable the drives explicitly first")
                else
                  let* sweep := start_sweep in
                  match sweep with
                  | None => refuse_testing (msg "gravity saturation preflight refused motion")
                  | Some sweep =>
                      let* ok := begin_sweep sweep (TestingBatch b) in
                      if ok then ret tt else refuse_testing (msg "gravity preflight already in progress; testing batch refused")
                  end
              else apply_testing_batch b want_position
          end
  end.

(** The messages not taken stay in the channel. *)
Fixpoint drain_testing_commands (messages : list (Polled MitCommandBatch)) : P unit :=
  let* stop := requested in
  let* p := get in
  if stop || preflight_pending (pi_gate p) then ret tt
  else
    match messages with
    | [] => ret tt
    | Lagged n :: rest =>
        publish_audit "chappe_lagged" false "marengo-pi" "" (Msg "robot/testing/mit_command_batch lagged; {} testing batches dropped; resend" [AInt n]) ;*
        drain_testing_commands rest
    | Message None :: rest => drain_testing_commands rest
    | Message (Some b) :: rest => handle_testing_batch b ;* drain_testing_commands rest
    end.

(** ** Stdin *)

Definition mode_line (template : string) : P unit := let* p := get in say (Msg template [operational (pi_loop p)]).

Definition status_line (m : Config.MotorEntry) : P unit :=
  let* (homing_state, drive_active, out_of_limits) := consult (joint_commissioning_wire observed (Config.joint m)) in
  let* feedback := consult (joint_feedback (Config.joint m)) in
  let flag b := AStr (if b : bool then "true" else "false") in
  say match feedback with
      | Some f =>
          Msg "{} ({}/id{}): pos={:.4} rad vel={:.4} rad/s torque={:.4} Nm fault={:#06x} homing={} drive_active={} out_of_limits={}"
            [AStr (Config.joint m); AStr (Config.can_interface m); AInt (Config.device_id m); AF64 (fb_position_rad f); AF64 (fb_velocity_rad_s f);
             AF64 (fb_torque_nm f); AInt (fb_fault f); AInt homing_state; flag drive_active; flag out_of_limits]
      | None =>
          Msg "{} ({}/id{}): no feedback yet homing={} drive_active={} out_of_limits={}"
            [AStr (Config.joint m); AStr (Config.can_interface m); AInt (Config.device_id m); AInt homing_state; flag drive_active; flag out_of_limits]
      end.

Definition print_status : P unit :=
  let* p := get in
  say (Msg "config: {}\noperational: {:?}\ncontrol: {:?}" [AStr config_dir; operational (pi_loop p); AStr (control_debug (control_mode (motion (pi_loop p))))]) ;*
  for_each status_line (motors (adm (supervisor (pi_loop p)))).

(** Whether the process goes on. *)
Definition handle_command (c : PiCommand) : P bool :=
  match c with
  | Home =>
      let* r := attempt_drive (set_homing_complete observed) in
      match r with inr _ => say (msg "homing verified → Ready") | inl e => say_err (Msg "home failed: {}" [AStr (display e)]) end ;* ret true
  | HomeJoints joints sign_tested =>
      let* p := get in
      match queue_admit joints sign_tested STDIN_REFERENCE_OPERATOR (is_configured_joint (supervisor (pi_loop p))) (pi_queue p) with
      | (Err m, _) => say (Msg ("home failed: " ++ msg_template m) (msg_args m))
      | (_, q) => modify (set_queue q)
      end ;* ret true
  | EnableCmd operator_id =>
      let* sweep := start_sweep in
      match sweep with
      | None => say_err (msg "enable refused: gravity saturation preflight failed closed")
      | Some sweep =>
          let* ok := begin_sweep sweep (StdinEnable operator_id) in
          if ok then ret tt else say_err (msg "enable refused: gravity preflight already in progress")
      end ;* ret true
  | DisableCmd =>
      let* result := forbid_and_stop in
      match result with inl e => say_err (Msg "disable failed: {}" [AStr (display e)]) | inr _ => ret tt end ;*
      cancel_queue ;*
      with_gate gate_cancel ;*
      say (msg "disabled") ;* ret true
  | GravityOn =>
      let* r := attempt (try_set_control_mode observed GravityComp) in
      match r with inr _ => mode_line "control mode → GravityComp (operational={:?})" | inl e => say_err (Msg "gravity-on refused: {}" [AStr (display_loop e)]) end ;* ret true
  | GravityOff =>
      let* r := attempt (enter_torque_only_zero observed) in
      match r with inr _ => mode_line "control mode → TorqueOnly (τ_cmd≡0; operational={:?})" | inl e => say_err (Msg "gravity-off refused: {}" [AStr (display_loop e)]) end ;* ret true
  | TorqueCmd joint tau_nm =>
      let* r := attempt (set_torque_cmd observed joint tau_nm) in
      match r with
      | inr _ => let* p := get in say (Msg "τ_cmd {} = {:.4} Nm (mode=TorqueOnly, operational={:?})" [AStr joint; AF64 tau_nm; operational (pi_loop p)])
      | inl e => say_err (Msg "torque-cmd failed: {}" [AStr (display_loop e)])
      end ;* ret true
  | ImpedanceOn =>
      let* r := attempt (try_set_control_mode observed Impedance) in
      match r with inr _ => mode_line "control mode → Impedance (operational={:?})" | inl e => say_err (Msg "impedance-on refused: {}" [AStr (display_loop e)]) end ;* ret true
  | ImpedanceOff =>
      let* r := attempt (try_set_control_mode observed CDisabled) in
      match r with inr _ => say (msg "control mode → Disabled") | inl e => say_err (Msg "impedance-off refused: {}" [AStr (display_loop e)]) end ;* ret true
  | HoldOn | HoldAtCmd _ _ _ | WaveCmd _ _ _ _ _ =>
      let* t := current in
      with_gate_loop (submit observed display display_loop fuel files c t) ;* ret true
  | HoldOff =>
      let* _ := attempt clear_position_hold in
      let* _ := attempt (set_control_mode observed CDisabled) in
      with_gate (cancel_arms "cancelled by hold-off") ;*
      say (msg "hold-off → Disabled") ;* ret true
  | Lower =>
      let* r := attempt (request_degraded_lower observed) in
      match r with inl e => say_err (msg (display_loop e)) | inr _ => ret tt end ;* ret true
  | Status => print_status ;* ret true
  | Quit => cancel_queue ;* ret false
  end.

Definition dispatch_stdin_command (c : PiCommand) : P bool :=
  let* p := get in
  if is_busy (pi_queue p) && defers_while_referencing c then
    let '(ok, q) := defer c (pi_queue p) in
    (if ok then modify (set_queue q)
     else say_err (msg "reference in progress: deferred command limit reached; command refused")) ;* ret true
  else if preflight_pending (pi_gate p) && negb (is_stop c) then
    let '(ok, g) := defer_stdin c (pi_gate p) in
    (if ok then modify (set_gate g)
     else say_err (msg "gravity preflight in progress: deferred command limit reached; command refused")) ;* ret true
  else handle_command c.

(** A command that waited: the reference queue's first. *)
Definition take_ready : P (option PiCommand) :=
  let* p := get in
  match take_ready_deferred (pi_queue p) with
  | (Some c, q) => modify (set_queue q) ;* ret (Some c)
  | (None, _) => let '(c, g) := take_ready_stdin (pi_gate p) in modify (set_gate g) ;* ret c
  end.

(** How the stdin phase ended; [StdinFuel] is never reached ([PiStdin]). *)
Inductive StdinEnd : Type := StdinEmpty | StdinStop | StdinFuel.

Fixpoint stdin_loop (n : nat) (commands : list PiCommand) : P StdinEnd :=
  match n with
  | O => ret StdinFuel
  | S n =>
      let run c rest :=
        let* stop := requested in
        if stop then ret StdinStop
        else
          let* go := dispatch_stdin_command c in
          if go : bool then stdin_loop n rest else modify (set_shutdown true) ;* ret StdinStop in
      let* stop := requested in
      if stop then ret StdinStop
      else
        let* waiting := take_ready in
        match waiting with
        | Some c => run c commands
        | None =>
            match commands with
            | [] => ret StdinEmpty
            | c :: rest =>
                let* admitted := admit_stdin_command c in
                if negb admitted then stdin_loop n rest
                else
                  let '(class, name) := classify_stdin c in
                  let* refused := (if bool_decide (class = MotionClass) then refuse_during_episode STDIN_REFERENCE_OPERATOR name true else ret false) in
                  if refused then stdin_loop n rest else run c rest
            end
        end
  end.

(** Commands waiting anywhere. *)
Definition waiting_commands (p : Pi) : nat := (length (RefQueue.deferred (pi_queue p)) + length (g_deferred_stdin (pi_gate p)))%nat.
Definition stdin_work (commands : list PiCommand) (p : Pi) : nat := (waiting_commands p + 2 * length commands)%nat.
Definition stdin_fuel (commands : list PiCommand) (p : Pi) : nat := ((stdin_work commands p + 1) * (stdin_work commands p + 1))%nat.
Definition stdin_phase (commands : list PiCommand) : P StdinEnd := let* p := get in stdin_loop (stdin_fuel commands p) commands.

(** ** Chappe *)

(** Messages in order until the channel is empty or the process stops; true: stop. *)
Fixpoint drain {M : Type} (handle : Polled M -> P bool) (messages : list (Polled M)) : P bool :=
  let* stop := requested in
  if stop then ret true
  else match messages with [] => ret false | m :: rest => let* stop := handle m in if stop : bool then ret true else drain handle rest end.

Definition handle_chappe_set_zero (r : SetZeroRequest) : P unit :=
  if negb (sz_confirm r) then ret tt
  else
    let operator := if String.eqb (sz_operator_id r) "" then "consul"%string else sz_operator_id r in
    let* p := get in
    match queue_admit [Reporting.trim (sz_joint r)] (sz_sign_test_passed r) operator (is_configured_joint (supervisor (pi_loop p))) (pi_queue p) with
    | (Ok _, q) => modify (set_queue q)
    | _ => ret tt
    end.

Definition take_set_zero (m : Polled SetZeroRequest) : P bool :=
  match m with
  | Message None => ret false
  | Lagged n =>
      publish_audit "chappe_lagged" false "marengo-pi" "" (Msg "robot/set_zero lagged; {} set-zero commands dropped; resend" [AInt n]) ;* ret false
  | Message (Some r) =>
      let* stop := requested in
      if stop then ret true
      else
        match lease_admits lease Chappe MotionClass "set-zero" with
        | Err refusal => report_refusal (sz_operator_id r) (sz_joint r) (refusal_text refusal) ;* ret false
        | _ =>
            let* refused := refuse_during_episode (sz_operator_id r) "set-zero" false in
            (if refused then ret tt else handle_chappe_set_zero r) ;* ret false
        end
  end.

Definition handle_chappe_active_reporting_lease (r : LeaseRequest) : P unit :=
  match lr_action r with
  | LeaseAcquire => attempt_drive (Exit.acquire_active_reporting_lease observed debug_lease (lr_joint r) (lr_client_id r) (lr_lease_id r) Reporting.DEFAULT_LEASE_TTL) ;* ret tt
  | LeaseRenew => attempt_drive (Exit.renew_active_reporting_lease observed debug_lease (lr_joint r) (lr_client_id r) (lr_lease_id r) Reporting.DEFAULT_LEASE_TTL) ;* ret tt
  | LeaseRelease => attempt_drive (Exit.release_active_reporting_lease observed debug_lease (lr_joint r) (lr_lease_id r)) ;* ret tt
  | LeaseUnspecified => ret tt
  end.

Definition take_lease (m : Polled LeaseRequest) : P bool :=
  match m with
  | Message None => ret false
  | Lagged n =>
      publish_audit "chappe_lagged" false "marengo-pi" ""
        (Msg "robot/active_reporting_lease lagged; {} lease commands dropped; a dropped release expires with its TTL; resend" [AInt n]) ;* ret false
  | Message (Some r) => let* stop := requested in if stop then ret true else handle_chappe_active_reporting_lease r ;* ret false
  end.

(** The status polls only count: one valid request is enough. *)
Definition any_poll (messages : list (Polled unit)) : bool :=
  existsb (fun m => match m with Message (Some _) => true | _ => false end) messages.

Definition take_status_polls (messages : list (Polled unit)) : P bool :=
  let* stop := drain (fun _ => ret false) messages in
  if stop : bool then ret true
  else if any_poll messages then
    let* stop := requested in
    if stop then ret true else consult (fun s => (tt, Exit.solicit_status_feedback observed s)) ;* ret false
  else ret false.

(** Enables held behind a sweep that passed; at most as many as are held. *)
Fixpoint held_enables (n : nat) : P unit :=
  let* stop := requested in
  if stop then ret tt
  else
    let* p := get in
    match take_ready_chappe_enable (pi_gate p) with
    | (None, _) => ret tt
    | (Some r, g) =>
        modify (set_gate g) ;*
        handle_chappe_enable r ;*
        match n with O => ret tt | S n => held_enables n end
    end.

Definition stop_after_lagged_enable (skipped : Z) (queued : nat) : P unit :=
  let* _ := attempt forbid_implicit_enable in
  let* result := attempt_drive (disable_all observed) in
  cancel_queue ;*
  let* _ := attempt (set_control_mode observed CDisabled) in
  publish_audit "stop_on_lag" (match result with inr _ => true | inl _ => false end) "marengo-pi" ""
    (Msg "robot/enable lagged ({} dropped, {} queued discarded); drives stopped fail-closed; enable explicitly to resume"
       [AInt skipped; AInt (Z.of_nat (Nat.min queued LAGGED_ENABLE_DISCARD_BOUND))]).

Fixpoint drain_enables (messages : list (Polled EnableRequest)) : P unit :=
  let* stop := requested in
  if stop then ret tt
  else
    match messages with
    | [] => ret tt
    | Lagged skipped :: rest => stop_after_lagged_enable skipped (length rest) ;* with_gate (end_preflight (Some AbortStopped))
    | Message None :: rest => drain_enables rest
    | Message (Some r) :: rest =>
        let* stop := requested in
        if stop then ret tt
        else
          let '(class, name) := if er_enable r then (MotionClass, "enable"%string) else (StopClass, "disable"%string) in
          match lease_admits lease Chappe class name with
          | Err refusal => report_refusal (er_operator_id r) "" (refusal_text refusal) ;* drain_enables rest
          | _ =>
              let* refused := (if er_enable r then refuse_during_episode (er_operator_id r) name false else ret false) in
              (if refused then ret tt else handle_chappe_enable r ;* ret tt) ;*
              drain_enables rest
          end
    end.

Definition drain_chappe_commands (i : Inputs) : P unit :=
  let* stop := drain take_set_zero (in_set_zero i) in
  if stop : bool then ret tt
  else
    let* stop := drain take_lease (in_leases i) in
    if stop : bool then ret tt
    else
      let* stop := take_status_polls (in_polls i) in
      if stop : bool then ret tt
      else
        let* p := get in
        held_enables (length (g_deferred_chappe (pi_gate p))) ;*
        drain_enables (in_enables i).

(** ** The overlay *)

Definition on_overlay (f : Overlay.ActuatorOverlay -> Overlay.ActuatorOverlay) : P unit :=
  on_world (fun w => (Ok tt, Overlay.mkWorld (Overlay.ow_loop w) (Overlay.ow_urdf w) (f (Overlay.ow_overlay w)))).

Definition take_actuator (m : Polled OverlayMessage) : P bool :=
  match m with
  | Message None => ret false
  | Lagged n => publish_audit "tuning" false "" "" (Msg "broadcast lagged; skipped {} actuator commands" [AInt n]) ;* ret false
  | Message (Some o) =>
      let* stop := requested in
      if stop then ret true
      else
        let* r := on_world (fun w =>
          match Overlay.apply_operator_command observed fits display_config display (om_revision o) (om_connected o) (om_fresh o) (om_fresh_back o)
                  config_dir (om_command o) w with
          | (Ok outcomes, w) => (Ok (inr outcomes), w)
          | (Err e, w) => (Ok (inl e), w)
          | (Panic, w) => (Panic, w)
          end) in
        match r with
        | inr outcomes =>
            modify (put (OOutcome <$> outcomes)) ;*
            (if existsb Overlay.dirties outcomes then on_overlay Overlay.mark_limits_dirty else ret tt) ;*
            (if existsb Overlay.publishes outcomes then on_overlay (Overlay.maybe_publish_limits (om_published o)) else ret tt) ;*
            ret false
        | inl e =>
            let op := om_command o in
            match Overlay.oc_command op with
            | Some c => modify (put [OOutcome (Overlay.OutAction (Overlay.action_event op (Overlay.ac_joint c) (Overlay.action_label c) false
                          (Some (msg (display_overlay e))) Persist.PsNotApplicable ""))])
            | None => ret tt
            end ;* ret false
        end
  end.

Definition drain_actuator_commands (messages : list (Polled OverlayMessage)) : P unit := drain take_actuator messages ;* ret tt.

(** ** The gravity sweep *)

Definition refusal_reason (r : PreflightRefusal) : message :=
  match pr_abort r with
  | Some a => let m := abort_text a in Msg ("gravity saturation preflight aborted: " ++ msg_template m) (msg_args m)
  | None => msg (match pr_then r with
                 | TestingBatch _ => "gravity saturation preflight refused motion"
                 | _ => "gravity saturation preflight refused enable"
                 end)
  end.

Definition report_preflight_refusals : P unit :=
  let* p := get in
  let '(refusals, g) := take_unreported (pi_gate p) in
  modify (set_gate g) ;*
  for_each (fun r => match pr_then r with TestingBatch _ => refuse_testing (refusal_reason r) | _ => ret tt end) refusals.

Definition keep_sweep (sw : Preflight.GravitySweep) : P unit :=
  modify (fun p => set_gate (set_preflight ((fun pend => mkPreflight sw (pp_then pend)) <$> g_preflight (pi_gate p)) (pi_gate p)) p).

Definition continue_request : P unit :=
  let* p := get in
  let '(t, g) := pass_preflight (pi_gate p) in
  modify (set_gate g) ;*
  match t with
  | Some (StdinEnable operator_id) => enable_after_stdin_preflight operator_id
  | Some (ChappeEnable _) => enable_after_chappe_preflight
  | Some (TestingBatch b) => apply_testing_batch b true
  | None => ret tt
  end.

Definition advance_gravity_preflight (budget : SliceBudget) : P unit :=
  report_preflight_refusals ;*
  let* p := get in
  match g_preflight (pi_gate p) with
  | None => ret tt
  | Some pending =>
      match Preflight.invalidated (pp_sweep pending) (pi_loop p) (is_busy (pi_queue p)) with
      | Some a => with_gate (end_preflight (Some a)) ;* report_preflight_refusals
      | None =>
          let* r := attempt (Preflight.advance dynamics budget (pp_sweep pending)) in
          match r with
          | inl _ => ret tt
          | inr (SweepPending, sw) => keep_sweep sw
          | inr (SweepDone passed _, sw) =>
              keep_sweep sw ;*
              (if passed then continue_request else with_gate (end_preflight None)) ;*
              report_preflight_refusals
          end
      end
  end.

(** ** Publication *)

Definition published_fault (f : FaultRecord) : PublishedFault :=
  let m := msg (display (EFaultLatched (fault_id f) (fault_class f) (fault_joint f) (fault_message f))) in
  mkPublished "runtime"
    (match first_frame (fault_receive f) with
     | Some e => Msg (msg_template m ++ "; first receive: {}") (msg_args m ++ [AStr (display_frame e)])
     | None => m
     end)
    (if bool_decide (fault_class f = FHardwareEstop) then SevEstop else SevFault) (default EmptyString (fault_joint f)).

Definition episode_fault (ep : DegradedEpisode) (now : Z) : PublishedFault :=
  mkPublished "drive_loss_degraded_hold"
    (Msg "drive lost: shed {}; holding {}; every drive stops within {:.1} s"
       [joined (shed_joints ep); joined (holding_joints ep); AF64 (as_secs_f64 (Z.max 0 (ep_deadline ep - now)))])
    SevWarning (lost_joint ep).

Definition safety_state (s : Sup B R) (active_fault : option message) (now : Z) : SafetyState :=
  let a := fault_authority (adm s) in
  let faults := published_fault <$> Faults.faults a in
  let faults := match faults, active_fault with
                | [], Some m => [mkPublished "runtime" m SevFault ""]
                | fs, _ => fs
                end in
  mkSafety (sup_mode s) (hardware_estop s) (is_latched a)
    (faults ++ match episode (loss s) with Some ep => [episode_fault ep now] | None => [] end).

Definition publish_safety : P bool :=
  let* p := get in
  let s := supervisor (pi_loop p) in
  let* t := (match episode (loss s) with Some _ => current | None => ret 0 end) in
  let state := safety_state s (fault_text (pi_unpublished p)) t in
  if publish state then modify (put [OSafety state]) ;* ret true else ret false.

Definition publish_state (chappe_period : Z) (limits_published : bool) : P unit :=
  let* t := current in
  let* p := get in
  if chappe_period <=? elapsed (pi_last_chappe p) t then
    let* ok := publish_safety in
    (if ok then modify (set_unpublished unpublished_default) else ret tt) ;*
    on_overlay (Overlay.maybe_publish_limits limits_published) ;*
    modify (set_last_chappe t)
  else ret tt.

(** ** One pass *)

Definition report_degraded_events (events : list DegradedEvent) : P bool :=
  for_each (fun e =>
    say (degraded_event_line e) ;*
    publish_audit (degraded_action e).1 true "marengo-pi" (degraded_action e).2 (degraded_event_line e)) events ;*
  ret (existsb starts_episode events).

(** The supervisor's deadline, the tick, and what a failure of either leaves. *)
Definition tick_phase : P unit :=
  let* r := attempt_drive (enforce_degraded_deadline observed) in
  match r with
  | inl e => modify (fun p => set_unpublished (record_fault_text (display e) (pi_unpublished p)) p)
  | inr _ => ret tt
  end ;*
  let* r := attempt (loop_tick observed display exp tanh cos sin dynamics advance_work chappe) in
  match r with
  | inl e =>
      let* t := current in
      let* m := stop_after_tick_error e t in
      modify (fun p => set_unpublished (record_fault_text m (pi_unpublished p)) p)
  | inr _ => ret tt
  end.

Definition pump_queue : P unit :=
  fun p =>
    let '(r, (q, s)) := pump (pi_queue p) (supervisor (pi_loop p)) in
    let p := set_queue q (set_world (Overlay.set_loop (set_sup s (pi_loop p)) (pi_world p)) p) in
    match r with Ok events => (Ok tt, put (OReference <$> events) p) | Err e => match e with end | Panic => (Panic, p) end.

(** Episode events, the reference queue and the gate, after the tick. *)
Definition after_tick : P unit :=
  let* events := attempt (take_degraded_events observed) in
  let* started := report_degraded_events (match events with inr es => es | inl _ => [] end) in
  (if started : bool then with_gate (cancel_arms "cancelled: degraded hold after drive loss") else ret tt) ;*
  pump_queue ;*
  let* t := current in
  with_gate_loop (poll observed display display_loop fuel files t).

(** [go m k]: [m], then [k] unless the process is to stop. *)
Definition go (m : P unit) (k : P bool) : P bool := m ;* let* stop := requested in if stop then ret false else k.

Definition finish_pass (tick_start period chappe_period : Z) (limits_published : bool) : P unit :=
  let* t := current in
  publish_state chappe_period limits_published ;*
  (if elapsed tick_start t <? period
   then consult (fun s => (tt, set_clock (sleep (period - elapsed tick_start t) (hostclock s)) s)) else ret tt).

(** The pass up to the sweep: both command sources and the overlay, then [k].
    [Panic] stands for fuel that ran out, which it never does, as for a panic. *)
Definition commands_phase (i : Inputs) (k : Z -> P bool) : P bool :=
  let* stop := requested in
  if stop then ret false
  else
    let* tick_start := current in
    let* ending := stdin_phase (in_stdin i) in
    match ending with
    | StdinFuel => of_result Panic
    | StdinStop => ret false
    | StdinEmpty =>
        go (ret tt)
        (go (drain_chappe_commands i)
        (go (drain_testing_commands (in_testing i))
        (go (drain_actuator_commands (in_actuator i))
        (k tick_start))))
    end.

(** One turn of [while !stop.requested()]; true: the next one follows. *)
Definition control_pass (chappe_period : Z) (i : Inputs) : P bool :=
  commands_phase i (fun tick_start =>
    go (advance_gravity_preflight PER_TICK)
    (go (consult (fun s => (tt, sync_active_reporting observed s)))
    (go (tick_phase ;* after_tick)
        (let* p := get in
         finish_pass tick_start (lp_loop_period (setup (pi_loop p))) chappe_period (in_limits_published i) ;* ret true)))).

(** After the loop. *)
Definition leave_loop : P unit :=
  cancel_queue ;*
  with_gate (end_preflight (Some AbortShutdown)) ;*
  report_preflight_refusals.

(** Passes until one ends the loop; the inputs of a run that is never stopped run out. *)
Fixpoint run_passes (chappe_period : Z) (inputs : list Inputs) : P unit :=
  match inputs with
  | [] => ret tt
  | i :: rest => let* more := control_pass chappe_period i in if more : bool then run_passes chappe_period rest else leave_loop
  end.

(** [run_with_panic_stop]: whether [body] panicked. *)
Definition run_with_panic_stop (body : P unit) : P bool :=
  fun p => match body p with
           | (Ok _, p) => (Ok false, p)
           | (Err e, _) => match e with end
           | (Panic, p) => (Ok true, (forbid_and_stop p).2)
           end.

End Pi.

(** ** Shutdown of the owner *)

Inductive ExitStopOutcome : Type := ExitSkipped | ExitAttempted (result : option DavoutError) (report : option StopReport).

Record ShutdownOutcome : Type := mkOutcome {
  so_stop : ExitStopOutcome; so_reporting : Exit.ExitReportingReport; so_mandatory_reference : option Reference.ReferenceTerminal;
  so_persist : Persist.PersistDrainReport; so_reference_journal : Journal.ReferenceJournalDrain
}.

(** [persist.is_idle()]. *)
Definition so_persist_idle (o : ShutdownOutcome) : bool := Persist.is_idle (so_persist o).

Section Shutdown.
Import Reference.
Context {B : Type} `{CanBus B} {V : Type} `{EqDecision V}.
Variable display_bus : BusError -> string.
Variable to_value : list Config.MotorEntry -> Config.ControlSection -> Config.HomingSection -> result string V.
Variable value_len : V -> result string Z.
Variable encode_policy : Authority.TypedPolicy -> result string (list Z).
(** What the two writers leave when they were waited for. *)
Variable persist_done : Persist.PersistSlot -> Persist.PersistSlot * bool.
Variable journal_done : Journal.State Input -> Journal.State Input * bool.

Abbreviation seen_work := (Acquire.observed to_value value_len encode_policy).
Abbreviation CL := (ControlLoop B (Work V)).
Abbreviation World := (Overlay.OverlayWorld (B := B) (R := Work V)).

Definition call {A : Type} (f : Sup B (Work V) -> A * Sup B (Work V)) : st World Empty_set A :=
  fun w => let '(a, s) := f (supervisor (Overlay.ow_loop w)) in (Ok a, Overlay.set_loop (set_sup s (Overlay.ow_loop w)) w).

Definition exit_stop (mandatory : option ReferenceTerminal) : st World Empty_set ExitStopOutcome :=
  match mandatory with
  | Some terminal =>
      let failed := failed_writes (t_stop terminal) in
      ret (ExitAttempted (if (0 <? failed)%nat then Some (EStopDelivery failed) else None) (Some (t_stop terminal)))
  | None =>
      let* r := call (disable_all seen_work) in
      match r with
      | Panic => of_result Panic
      | r => let* w := get in ret (ExitAttempted (match r with Err e => Some e | _ => None end) (last_stop (fault_authority (adm (supervisor (Overlay.ow_loop w))))))
      end
  end.

(** After the stop: reporting off, and both writers drained within the timeout. *)
Definition drain_owner (stop : ExitStopOutcome) (mandatory : option ReferenceTerminal) (persist_timeout : Z) : st World Empty_set ShutdownOutcome :=
  let* t := call tick in
  let deadline := t + persist_timeout in
  let* reporting := (fun w => let '(r, s) := Exit.release_reporting_for_exit display_bus deadline (supervisor (Overlay.ow_loop w)) in
                              (r, Overlay.set_loop (set_sup s (Overlay.ow_loop w)) w)) in
  modify (fun w => Overlay.mkWorld (Overlay.ow_loop w) (Overlay.ow_urdf w)
                     (Overlay.set_slot (Persist.close_admission (Overlay.ov_slot (Overlay.ow_overlay w))) (Overlay.ow_overlay w))) ;*
  let* _ := call (fun s => (tt, set_rwork (Commit.close_reference_journal_admission (rwork s)) s)) in
  let* t := call tick in
  let* persist := (fun w => let '(slot, terminated) := persist_done (Overlay.ov_slot (Overlay.ow_overlay w)) in
                            (Ok (Persist.from_slot slot terminated),
                             Overlay.mkWorld (Overlay.ow_loop w) (Overlay.ow_urdf w) (Overlay.set_slot slot (Overlay.ow_overlay w)))) in
  let* journal := call (Commit.drain_reference_journal_until journal_done) in
  ret (mkOutcome stop reporting mandatory persist journal).

Definition finish_owner_shutdown (disable_on_exit : bool) (persist_timeout : Z) : st World Empty_set ShutdownOutcome :=
  let* _ := (fun w => let '(r, l) := inhibit_motion_for_shutdown seen_work (Overlay.ow_loop w) in
                      (match r with Panic => Panic | _ => Ok tt end, Overlay.set_loop l w)) in
  let* mandatory := call (Acquire.cancel_reference_for_shutdown to_value value_len encode_policy) in
  let* stop := (if disable_on_exit then exit_stop mandatory else ret ExitSkipped) in
  drain_owner stop mandatory persist_timeout.

End Shutdown.

End Pi.
