(* ===== verification/PiStdin.v ===== *)
(** * PiStdin: the stdin phase ends

    A turn of the stdin loop of [Pi] runs a command, refuses one, or moves one that
    waited from the reference queue to the gate or back.  Only a command that runs
    changes which of the two is blocked, so moves cannot go on: [stdin_phase] takes
    everything it was given without running out of its fuel. *)

From Stdlib Require Import ZArith Lia Bool.
From stdpp Require Import base gmap strings list.
From S2P Require Import Prelude Float Config Bus Davout Admission Lifecycle Stop Session Enable Facets Dynamics Loop LoopTick Guard LoopSafety RefQueue Preflight Gate Overlay Parse Pi.

Module PiStdin.
Import Bus Davout Admission Lifecycle Enable Facets Loop LoopSafety Gate Pi.
Import RefQueue(ReferenceQueue, ReferenceDriver).

Section Stdin.
Context {B : Type} `{CanBus B} {R : Type} `{ReferenceWork R} {Hd : Type}.
Variable observed : Observer B R.
Variable display : DavoutError -> string.
Variable display_loop : LoopError -> string.
Variable fuel : nat.
Variable files : EnableFiles.
Variable lease : MotionLease.
Variable config_dir : string.

Abbreviation PS := (Pi (B := B) (R := R) (Hd := Hd)).
Abbreviation P A := (st (Pi (B := B) (R := R) (Hd := Hd)) Empty_set A).

(** ** Commands add nothing that waits *)

Section Light.
Variable n : nat.

Definition light (p : PS) : Prop := (waiting_commands p <= n)%nat.
Abbreviation keeps m := (preserves light m).

Lemma light_world {A} (m : st (Overlay.OverlayWorld (B := B) (R := R)) Empty_set A) : keeps (on_world m).
Proof. intros p Hp. unfold on_world. by destruct (m (pi_world p)). Qed.
Lemma light_loop {A} (m : st (ControlLoop B R) Empty_set A) : keeps (on_loop m).
Proof. apply light_world. Qed.
Lemma light_attempt {A} (m : st (ControlLoop B R) LoopError A) : keeps (attempt m).
Proof. apply light_world. Qed.
Lemma light_drive {A} (f : Sup B R -> result DavoutError A * Sup B R) : keeps (attempt_drive f).
Proof. apply light_world. Qed.
Lemma light_consult {A} (f : Sup B R -> A * Sup B R) : keeps (consult f).
Proof. apply light_world. Qed.
Lemma light_requested : keeps requested.
Proof. by intros p Hp. Qed.
Lemma light_emit ls : keeps (emit ls).
Proof. by intros p Hp. Qed.
Lemma light_refusal op j m : keeps (report_refusal op j m).
Proof. by intros p Hp. Qed.

Lemma light_gate (p : PS) g : (length (g_deferred_stdin g) <= length (g_deferred_stdin (pi_gate p)))%nat -> light p -> light (set_gate g p).
Proof. unfold light, waiting_commands. cbn. lia. Qed.
Lemma light_queue (p : PS) q : (length (RefQueue.deferred q) <= length (RefQueue.deferred (pi_queue p)))%nat -> light p -> light (set_queue q p).
Proof. unfold light, waiting_commands. cbn. lia. Qed.

Lemma light_with_gate f : (forall g, (length (g_deferred_stdin (f g).2) <= length (g_deferred_stdin g))%nat) -> keeps (with_gate f).
Proof.
  intros Hf p Hp. unfold with_gate, sbind, get. specialize (Hf (pi_gate p)). destruct (f (pi_gate p)) as [ls g].
  exact (light_gate p g Hf Hp).
Qed.

Lemma light_with_gate_loop f :
  (forall g l ls g' l', f g l = (Ok (ls, g'), l') -> (length (g_deferred_stdin g') <= length (g_deferred_stdin g))%nat) -> keeps (with_gate_loop f).
Proof.
  intros Hf p Hp. unfold with_gate_loop, sbind, get. pose proof (light_loop (f (pi_gate p)) p Hp) as Ho. unfold on_loop, on_world in *.
  destruct (f (pi_gate p) (Overlay.ow_loop (pi_world p))) as [[[ls g]|e|] l] eqn:E; [|destruct e|exact Ho].
  exact (light_gate _ g (Hf _ _ _ _ _ E) Ho).
Qed.

Lemma light_cancel_queue : keeps cancel_queue.
Proof. intros p Hp. unfold cancel_queue, sbind, get. cbn. unfold light, waiting_commands in *. cbn. lia. Qed.

Lemma light_begin sw t : keeps (begin_sweep sw t).
Proof. intros p Hp. unfold begin_sweep, sbind, get, begin_preflight. by destruct (preflight_pending _). Qed.

Lemma light_start : keeps start_sweep.
Proof. unfold start_sweep. apply pres_bind; [apply light_attempt|]. intros r. apply pres_ret. Qed.

Hint Resolve light_attempt light_drive light_consult light_requested light_emit light_refusal light_cancel_queue light_begin light_start : loop.
Hint Extern 2 (keeps (say _)) => apply light_emit : loop.
Hint Extern 2 (keeps (say_err _)) => apply light_emit : loop.
Hint Extern 2 (keeps current) => apply light_consult : loop.

Lemma ended_light a g : (length (g_deferred_stdin (end_preflight a g).2) <= length (g_deferred_stdin g))%nat.
Proof. unfold end_preflight. destruct (g_preflight g) as [p|]; [|done]. destruct (pp_then p); cbn; lia. Qed.

Lemma gate_cancel_light : keeps (with_gate gate_cancel).
Proof.
  apply light_with_gate. intros g. unfold gate_cancel. pose proof (ended_light (Some Preflight.AbortDisabled) g) as He.
  by destruct (end_preflight _ g) as [ls g1].
Qed.
Lemma cancel_arms_light r : keeps (with_gate (cancel_arms r)).
Proof. by apply light_with_gate. Qed.

Lemma submit_light c t : keeps (with_gate_loop (submit observed display display_loop fuel files c t)).
Proof.
  apply light_with_gate_loop. intros g l ls g' l'. unfold submit. destruct (_ || _); [by intros [= <- <- <-]|].
  unfold sbind, try_loop, ret. destruct (run_arm _ _ _ _ _ l) as [[x|e|] l1]; [by intros [= <- <- <-]| |discriminate].
  destruct e; by intros [= <- <- <-].
Qed.
Hint Resolve gate_cancel_light cancel_arms_light submit_light : loop.

Lemma forbid_and_stop_light : keeps (forbid_and_stop observed).
Proof. unfold forbid_and_stop. walk. Qed.
Lemma status_light m : keeps (status_line observed m).
Proof. unfold status_line. walk. Qed.
Lemma mode_line_light t : keeps (mode_line t).
Proof. unfold mode_line. walk. Qed.
Hint Resolve forbid_and_stop_light status_light mode_line_light : loop.
Lemma print_light : keeps (print_status observed config_dir).
Proof. unfold print_status. walk. Qed.
Hint Resolve print_light : loop.

Lemma home_light joints sign : keeps (
  let* p := get in
  match RefQueue.queue_admit joints sign STDIN_REFERENCE_OPERATOR (is_configured_joint (supervisor (pi_loop p))) (pi_queue p) with
  | (Err m, _) => say (Msg ("home failed: " ++ msg_template m) (msg_args m))
  | (_, q) => modify (set_queue q)
  end).
Proof.
  intros p Hp. unfold sbind, get, RefQueue.queue_admit. destruct (rbind _ _); by apply light_queue.
Qed.

Lemma command_light c : keeps (handle_command observed display display_loop fuel files config_dir c).
Proof.
  destruct c; cbn [handle_command]; try (solve [walk]).
  intros p Hp. pose proof (home_light joints sign_tested p Hp) as Hh. unfold sbind, get in Hh |- *.
  destruct (RefQueue.queue_admit _ _ _ _ _) as [[u|m|] q]; exact Hh.
Qed.

Lemma episode_light op c pr : keeps (refuse_during_episode op c pr).
Proof. unfold refuse_during_episode. walk. Qed.
Lemma admit_light c : keeps (admit_stdin_command lease c).
Proof. unfold admit_stdin_command. walk. Qed.

End Light.

(** ** What can still be moved *)

Abbreviation busy p := (RefQueue.is_busy (pi_queue p)).
Abbreviation pending p := (preflight_pending (pi_gate p)).

(** The commands of the side that is open while the other is blocked. *)
Definition movable (p : PS) : nat :=
  match pending p, busy p with
  | true, false => length (RefQueue.deferred (pi_queue p))
  | false, true => length (g_deferred_stdin (pi_gate p))
  | _, _ => 0%nat
  end.

(** A turn spends: a command, or at least a move.  [k] bounds what there is. *)
Definition cost (k : nat) (cs : list PiCommand) (p : PS) : nat := (stdin_work cs p * (k + 1) + movable p)%nat.

Definition alike (p q : PS) : Prop := pi_queue q = pi_queue p /\ pi_gate q = pi_gate p.

Lemma movable_waiting (p : PS) : (movable p <= waiting_commands p)%nat.
Proof. unfold movable, waiting_commands. destruct (pending p), (busy p); lia. Qed.

Lemma cost_less k cs cs' (p p' : PS) : (stdin_work cs p <= k)%nat -> (stdin_work cs' p' < stdin_work cs p)%nat -> (cost k cs' p' < cost k cs p)%nat.
Proof. intros Hk Hl. unfold cost. pose proof (movable_waiting p'). unfold stdin_work in *. nia. Qed.

Lemma alike_work cs (p q : PS) : alike p q -> stdin_work cs q = stdin_work cs p.
Proof. intros [E1 E2]. unfold stdin_work, waiting_commands. by rewrite E1, E2. Qed.
Lemma alike_cost k cs (p q : PS) : alike p q -> cost k cs q = cost k cs p.
Proof. intros Ha. unfold cost, movable. rewrite (alike_work _ _ _ Ha). destruct Ha as [-> ->]. done. Qed.

(** What a command that waited or arrived does when it is dispatched. *)
Lemma dispatch_cases c (p p' : PS) b : dispatch_stdin_command observed display display_loop fuel files config_dir c p = (Ok b, p') ->
  (waiting_commands p' <= waiting_commands p)%nat
  \/ (busy p = true /\ busy p' = true /\ pi_gate p' = pi_gate p /\ length (RefQueue.deferred (pi_queue p')) = S (length (RefQueue.deferred (pi_queue p))))
  \/ (pending p = true /\ pending p' = true /\ pi_queue p' = pi_queue p /\ length (g_deferred_stdin (pi_gate p')) = S (length (g_deferred_stdin (pi_gate p)))).
Proof.
  unfold dispatch_stdin_command. unfold sbind at 1, get at 1. destruct (busy p && _) eqn:Eb.
  - apply andb_true_iff in Eb as [Eb _]. unfold RefQueue.defer. destruct (_ <=? _)%nat; unfold sbind; cbn; intros [= <- <-].
    + left. done.
    + right. left. split; [exact Eb|]. split; [exact Eb|]. split; [done|]. cbn. rewrite length_app. cbn. lia.
  - destruct (pending p && _) eqn:Ep.
    + apply andb_true_iff in Ep as [Ep _]. unfold defer_stdin. destruct (_ <=? _)%nat; unfold sbind; cbn; intros [= <- <-].
      * left. done.
      * right. right. split; [exact Ep|]. split; [exact Ep|]. split; [done|]. cbn. rewrite length_app. cbn. lia.
    + intros E. left. pose proof (command_light (waiting_commands p) c p ltac:(unfold light; lia)) as Hl. by rewrite E in Hl.
Qed.

Lemma ready_cases (p : PS) : exists o p', take_ready p = (Ok o, p') /\
  match o with
  | None => alike p p'
  | Some c =>
      (busy p = false /\ busy p' = false /\ pi_gate p' = pi_gate p /\ length (RefQueue.deferred (pi_queue p)) = S (length (RefQueue.deferred (pi_queue p'))))
      \/ (pending p = false /\ pending p' = false /\ pi_queue p' = pi_queue p /\ length (g_deferred_stdin (pi_gate p)) = S (length (g_deferred_stdin (pi_gate p'))))
  end.
Proof.
  unfold take_ready. unfold sbind at 1, get at 1. unfold RefQueue.take_ready_deferred.
  assert (Hgate : exists o p', (let '(c, g) := take_ready_stdin (pi_gate p) in modify (set_gate g) ;* ret c : P (option PiCommand)) p = (Ok o, p')
    /\ match o with None => alike p p' | Some c => pending p = false /\ pending p' = false /\ pi_queue p' = pi_queue p
       /\ length (g_deferred_stdin (pi_gate p)) = S (length (g_deferred_stdin (pi_gate p'))) end).
  { unfold take_ready_stdin. destruct (pending p) eqn:Ep; [by eexists _, _|]. destruct (g_deferred_stdin (pi_gate p)) as [|c rest] eqn:Ed; [by eexists _, _|].
    eexists _, _. split; [reflexivity|]. done. }
  destruct (busy p) eqn:Eb.
  { destruct Hgate as ([c|] & p' & E & Hc); eexists _, p'; (split; [exact E|]); [by right|done]. }
  destruct (RefQueue.deferred (pi_queue p)) as [|c rest] eqn:Ed.
  { destruct Hgate as ([c|] & p' & E & Hc); eexists _, p'; (split; [exact E|]); [by right|done]. }
  eexists _, _. split; [reflexivity|]. left. split; [done|]. split; [exact Eb|done].
Qed.

(** A waiting command taken and dispatched: work is spent, or a move. *)
Lemma taken_spends k cs (p p1 p2 : PS) c b : (stdin_work cs p <= k)%nat ->
  ((busy p = false /\ busy p1 = false /\ pi_gate p1 = pi_gate p /\ length (RefQueue.deferred (pi_queue p)) = S (length (RefQueue.deferred (pi_queue p1))))
   \/ (pending p = false /\ pending p1 = false /\ pi_queue p1 = pi_queue p /\ length (g_deferred_stdin (pi_gate p)) = S (length (g_deferred_stdin (pi_gate p1))))) ->
  dispatch_stdin_command observed display display_loop fuel files config_dir c p1 = (Ok b, p2) ->
  (stdin_work cs p2 <= k)%nat /\ (cost k cs p2 < cost k cs p)%nat.
Proof.
  intros Hk Ht E. apply dispatch_cases in E.
  assert (Hw : waiting_commands p = S (waiting_commands p1)).
  { unfold waiting_commands. destruct Ht as [(_ & _ & -> & ->)|(_ & _ & -> & ->)]; lia. }
  destruct E as [Hl|[(B1 & B2 & Eg & Eq)|(P1 & P2 & Eq & Eg)]].
  - assert (Hs : (stdin_work cs p2 < stdin_work cs p)%nat) by (unfold stdin_work; lia). split; [lia|by apply cost_less].
  - destruct Ht as [(_ & B3 & _)|(P0 & P1 & E1 & E2)]; [congruence|].
    assert (Hs : stdin_work cs p2 = stdin_work cs p) by (unfold stdin_work, waiting_commands in *; rewrite Eg, Eq; lia).
    split; [lia|]. unfold cost, movable. rewrite Hs, Eg, P1, B2, P0, <- E1, B1. lia.
  - destruct Ht as [(B0 & B1 & E1 & E2)|(_ & P3 & _)]; [|congruence].
    assert (Hs : stdin_work cs p2 = stdin_work cs p) by (unfold stdin_work, waiting_commands in *; rewrite Eg, Eq; lia).
    split; [lia|]. unfold cost, movable. rewrite Hs, Eq, B1, P2, B0, <- E1, P1. lia.
Qed.

Abbreviation loop := (stdin_loop observed display display_loop fuel files lease config_dir).
Abbreviation dispatch := (dispatch_stdin_command observed display display_loop fuel files config_dir).

Lemma requested_alike (p : PS) : exists b p', requested p = (Ok b, p') /\ alike p p'.
Proof. eexists _, _. split; [reflexivity|done]. Qed.

(** Run a command in a state like [p] and go on. *)
Lemma run_ends n c rest (p : PS) :
  (forall q b q', alike p q -> dispatch c q = (Ok b, q') -> (loop n rest q').1 <> Ok StdinFuel) ->
  ((let* stop := requested in
    if stop then ret StdinStop
    else let* go := dispatch c in if go : bool then loop n rest else modify (set_shutdown true) ;* ret StdinStop) p).1 <> Ok StdinFuel.
Proof.
  intros Hn. unfold sbind at 1. destruct (requested_alike p) as ([] & q & -> & Ha); [done|]. unfold sbind at 1.
  destruct (dispatch c q) as [[[]|e|] q'] eqn:E; [by eapply Hn|done|destruct e|done].
Qed.

(** A refusal changes neither side. *)
Lemma admit_alike c (p : PS) : exists b p', admit_stdin_command lease c p = (Ok b, p') /\ alike p p'.
Proof.
  unfold admit_stdin_command. destruct (classify_stdin c) as [class name]. destruct (lease_admits _ _ _ _); [by eexists _, _| |by eexists _, _].
  destruct (String.prefix _ _); eexists _, _; (split; [reflexivity|done]).
Qed.
Lemma episode_alike (m : bool) op name (p : PS) : exists b p',
  (if m then refuse_during_episode op name true else ret false) p = (Ok b, p') /\ alike p p'.
Proof.
  destruct m; [|by eexists _, _]. unfold refuse_during_episode, sbind, get. destruct (degraded_refusal _ _) as [[j r]|]; eexists _, _; (split; [reflexivity|done]).
Qed.

Lemma loop_ends k n : forall cs (p : PS), (stdin_work cs p <= k)%nat -> (cost k cs p < n)%nat -> (loop n cs p).1 <> Ok StdinFuel.
Proof.
  induction n as [|n IH]; intros cs p Hk Hc; [lia|]. cbn [stdin_loop]. unfold sbind at 1.
  destruct (requested_alike p) as ([] & p1 & -> & Ha); [done|]. rewrite <- (alike_work cs _ _ Ha) in Hk. rewrite <- (alike_cost k cs _ _ Ha) in Hc.
  clear Ha p. unfold sbind at 1. destruct (ready_cases p1) as ([c|] & p2 & -> & Hr).
  - apply run_ends. intros q b q' Hq E.
    assert (Ht : (stdin_work cs q' <= k)%nat /\ (cost k cs q' < cost k cs p1)%nat).
    { eapply (taken_spends k cs p1 q q' c b Hk); [|exact E]. destruct Hq as [-> ->]. exact Hr. }
    apply IH; lia.
  - rewrite <- (alike_work cs _ _ Hr) in Hk. rewrite <- (alike_cost k cs _ _ Hr) in Hc. clear Hr p1. destruct cs as [|c rest]; [done|].
    assert (Hnext : forall q : PS, (waiting_commands q <= S (waiting_commands p2))%nat -> (loop n rest q).1 <> Ok StdinFuel).
    { intros q Hq. assert (Hs : (stdin_work rest q < stdin_work (c :: rest) p2)%nat) by (unfold stdin_work; cbn; lia).
      pose proof (cost_less k _ _ _ _ Hk Hs). apply IH; lia. }
    assert (Hsame : forall q : PS, alike p2 q -> waiting_commands q = waiting_commands p2) by (intros q [E1 E2]; unfold waiting_commands; by rewrite E1, E2).
    unfold sbind at 1. destruct (admit_alike c p2) as ([] & p3 & -> & Ha); cbn [negb]; [|apply Hnext; rewrite (Hsame _ Ha); lia].
    destruct (classify_stdin c) as [class name]. unfold sbind at 1. destruct (episode_alike (bool_decide (class = MotionClass)) STDIN_REFERENCE_OPERATOR name p3) as ([] & p4 & -> & Ha').
    + apply Hnext. rewrite (Hsame p4) by (destruct Ha, Ha'; split; congruence). lia.
    + apply run_ends. intros q b q' Hq E. apply Hnext. assert (Hw : waiting_commands q = waiting_commands p2) by (apply Hsame; destruct Ha, Ha', Hq; split; congruence).
      apply dispatch_cases in E as [Hl|[(_ & _ & Eg & Eq)|(_ & _ & Eq & Eg)]]; [lia|unfold waiting_commands in *; rewrite Eg, Eq; lia..].
Qed.

(** C25: the stdin phase ends.  Whatever the commands, however many wait in the
    reference queue and behind a sweep, and whatever they do when they run, the
    stdin loop of a pass reads them all or stops: its fuel, quadratic in the number
    of commands, does not run out. *)
Theorem stdin_phase_ends (cs : list PiCommand) (p : PS) :
  (stdin_phase observed display display_loop fuel files lease config_dir cs p).1 <> Ok StdinFuel.
Proof.
  unfold stdin_phase, sbind, get. apply (loop_ends (stdin_work cs p)); [lia|]. unfold cost, stdin_fuel.
  pose proof (movable_waiting p). assert (waiting_commands p <= stdin_work cs p)%nat by (unfold stdin_work; lia). nia.
Qed.

End Stdin.
End PiStdin.
