(* ===== verification/PiSafety.v ===== *)
(** * PiSafety: invariants of the process

    Every step of [Pi] keeps three things: an invariant of the supervisor, given as
    an instance of [LoopInvariant] and [ProcessInvariant]; that a sweep in the gate
    is one in progress; and, while the owner sends no Enable, that nothing in the
    gate or in the reference queue would enable.  [ordered] is their conjunction,
    with [closed] for a loop that may not enable implicitly and [quiet] for an
    owner that sends no Enable.  [PiResults] instantiates it. *)

From Stdlib Require Import ZArith Lia Bool SpecFloat.
From stdpp Require Import base gmap strings list.
From S2P Require Import Prelude Float Config Limits Bus Receive Reporting Faults Davout Filter Admission Authority Physical Lifecycle Stop Session Grants Enable Activation Position Setpoint Gains PosHold Facets Dynamics Loop LoopTick Guard LimitPatch Journal History Reference Acquire Commit WorkGuard LoopSafety Persist RefQueue Preflight Exit Gate Overlay Parse Pi.

Module PiSafety.
Import Bus Faults Davout Admission Lifecycle Stop Session Grants Enable Activation Position Gains Facets Dynamics Loop LoopTick Guard LoopSafety History Gate Pi.
Import RefQueue(ReferenceQueue, ReferenceDriver, driver_request, driver_outcome).
Import Preflight(GravitySweep, SweepStep, SweepPending, SweepDone, SliceBudget).

(** ** Calls of the supervisor that keep the session *)

Section Kept.
Context {B : Type} `{CanBus B} {R : Type} `{ReferenceWork R}.
Variable observed : Observer B R.
Variable fits : Config.RobotSection -> list Limits.UrdfJoint -> result message unit.
Variable debug_lease : Reporting.ActiveReportingLeaseError -> string.

#[local] Instance session_preorder : PreOrder (kept (B := B) (R := R)) := kept_preorder.

Lemma kept_reporting r (s : Sup B R) : kept s (set_reporting r s).
Proof. by split. Qed.

Lemma lease_kept f (s : Sup B R) : kept s (Exit.change_lease observed debug_lease f s).2.
Proof.
  unfold Exit.change_lease. destruct (f _ _) as [r|e|]; cbn [snd]; [|reflexivity..]. etrans; [apply (kept_reporting r)|apply sync_kept].
Qed.

Lemma timed_lease_kept f (s : Sup B R) : kept s (let '(t, s') := tick s in Exit.change_lease observed debug_lease (f t) s').2.
Proof. pose proof (tick_kept s) as Ht. destruct (tick s) as [t s1]. etrans; [exact Ht|]. apply lease_kept. Qed.

Lemma solicit_each_kept targets : forall pacer (s : Sup B R), kept s (Exit.solicit_each targets pacer s).
Proof.
  induction targets as [|a rest IH]; intros pacer s; cbn [Exit.solicit_each]; [reflexivity|].
  destruct pacer as [p|]; [destruct (begin_group _ _ _)|]; destruct (disable_drive_at _ _); (etrans; [|apply IH]); by split.
Qed.

Lemma solicit_kept (s : Sup B R) : kept s (Exit.solicit_status_feedback observed s).
Proof.
  unfold Exit.solicit_status_feedback. pose proof (busy_kept observed s) as Hb. destruct (reference_busy observed s) as [busy s0].
  destruct (_ || _); [exact Hb|]. etrans; [exact Hb|]. pose proof (tick_kept s0) as Ht. destruct (tick s0) as [t s1].
  etrans; [exact Ht|]. apply solicit_each_kept.
Qed.

Lemma install_kept m ms c l (s : Sup B R) : kept s (Envelope.install m ms c l s).
Proof. split; cbn; auto. apply Authority.revoke_ok. Qed.

Lemma measured_kept j (s : Sup B R) : kept s (Envelope.measured_position j s).2.
Proof. unfold Envelope.measured_position. destruct (motor_index _ _); [|reflexivity]. destruct (published_state _ _ _). by split. Qed.

Lemma patch_kept fresh p (s : Sup B R) u : kept s (Envelope.apply_limit_patch observed fits fresh p (s, u)).2.1.
Proof.
  unfold Envelope.apply_limit_patch. pose proof (busy_kept observed s) as Hb. destruct (reference_busy observed s) as [busy s0]. cbn [snd] in Hb.
  destruct busy; [exact Hb|]. destruct (bool_decide _); [exact Hb|]. pose proof (valid_kept observed Judge s0) as Hv.
  destruct (reference_binding_valid_with observed Judge s0) as [ok s1]. cbn [snd] in Hv.
  destruct (Envelope.patch_candidate p s1 u) as [[[[[[p' u'] ms] c] l] policy]| |]; cbn [fst snd]; [|by etrans..].
  pose proof (measured_kept (Patch.pt_joint p') s1) as Hm. destruct (Envelope.measured_position _ s1) as [q s2]. cbn [snd] in Hm.
  destruct (rbind _ _); cbn [fst snd]; (etrans; [exact Hb|]); (etrans; [exact Hv|]); [|exact Hm..]. etrans; [exact Hm|]. apply install_kept.
Qed.

Lemma restore_kept fresh ms c u' (s : Sup B R) u : kept s (Envelope.restore_limit_snapshot observed fits fresh ms c u' (s, u)).2.1.
Proof.
  unfold Envelope.restore_limit_snapshot. pose proof (busy_kept observed s) as Hb. destruct (reference_busy observed s) as [busy s0]. cbn [snd] in Hb.
  destruct busy; [exact Hb|]. destruct (bool_decide _); [exact Hb|]. pose proof (valid_kept observed Judge s0) as Hv.
  destruct (reference_binding_valid_with observed Judge s0) as [ok s1]. cbn [snd] in Hv.
  destruct (rbind _ _) as [[l m]| |]; cbn [fst snd]; (etrans; [exact Hb|]); (etrans; [exact Hv|]); [apply install_kept|reflexivity..].
Qed.

Lemma control_kept c (s : Sup B R) : kept s (Overlay.set_control c s).
Proof. by split. Qed.

End Kept.

(** ** The gate and the queue *)

(** Not a request to enable. *)
Definition harmless (c : PiCommand) : Prop := match c with EnableCmd _ => False | _ => True end.

Definition sweep_fine (dynamics : DynamicsModel) (g : EnableGate) : Prop :=
  match g_preflight g with Some p => Preflight.sweep_ok dynamics (pp_sweep p) | None => True end.

(** Nothing waits that would enable. *)
Record gate_shut (g : EnableGate) : Prop := {
  gs_preflight : g_preflight g = None;
  gs_chappe : g_deferred_chappe g = [];
  gs_stdin : Forall harmless (g_deferred_stdin g)
}.
Definition queue_shut {H : Type} (q : ReferenceQueue H PiCommand) : Prop := Forall harmless (RefQueue.deferred q).

(** A change of the gate that starts nothing. *)
Record calms (dynamics : DynamicsModel) (g g' : EnableGate) : Prop := {
  cm_sweep : sweep_fine dynamics g -> sweep_fine dynamics g';
  cm_shut : gate_shut g -> gate_shut g'
}.

Lemma calms_refl d g : calms d g g.
Proof. by split. Qed.
Lemma calms_trans d g1 g2 g3 : calms d g1 g2 -> calms d g2 g3 -> calms d g1 g3.
Proof. intros [] []. split; auto. Qed.
Lemma calms_same d g g' :
  g_preflight g' = g_preflight g -> g_deferred_chappe g' = g_deferred_chappe g -> g_deferred_stdin g' = g_deferred_stdin g -> calms d g g'.
Proof. intros E1 E2 E3. split; [unfold sweep_fine; by rewrite E1|]. intros []. split; by rewrite ?E1, ?E2, ?E3. Qed.

Lemma end_preflight_spec (a : option Preflight.SweepAbort) (g : EnableGate) : g_preflight (end_preflight a g).2 = None.
Proof. unfold end_preflight. destruct (g_preflight g) as [p|] eqn:E; [by destruct (pp_then p)|exact E]. Qed.
Lemma end_preflight_calms d (a : option Preflight.SweepAbort) (g : EnableGate) : calms d g (end_preflight a g).2.
Proof.
  split; [by unfold sweep_fine; rewrite end_preflight_spec|]. intros G. unfold end_preflight. by rewrite (gs_preflight _ G).
Qed.
Lemma refuse_deferred_calms d (r : string) (g : EnableGate) : calms d g (refuse_deferred r g).2.
Proof. by apply calms_same. Qed.
Lemma gate_cancel_calms d (g : EnableGate) : calms d g (gate_cancel g).2.
Proof.
  unfold gate_cancel. pose proof (end_preflight_calms d (Some Preflight.AbortDisabled) g) as Hc. destruct (end_preflight _ g) as [ls g1].
  eapply calms_trans; [exact Hc|]. by apply calms_same.
Qed.
Lemma begin_enable_calms d (op : string) (targets : list string) (t : Z) (g : EnableGate) : calms d g (begin_enable op targets t g).2.
Proof. by apply calms_same. Qed.

Lemma queue_cancel_shut {H : Type} (q : ReferenceQueue H PiCommand) : queue_shut (RefQueue.queue_cancel q).2.
Proof. by constructor. Qed.

Lemma shut_sublist {A : Type} (P : A -> Prop) (x : A) (l : list A) : Forall P (x :: l) -> P x /\ Forall P l.
Proof. intros Hf. by inversion Hf. Qed.

Section Gate.
Context {B : Type} `{CanBus B} {R : Type} `{ReferenceWork R}.
Variable observed : Observer B R.
Variable display : DavoutError -> string.
Variable display_loop : LoopError -> string.
Variable fuel : nat.
Variable advance_work : Sup B R -> result string unit * Sup B R.
Context {closed : bool} {I : Sup B R -> Prop} `{!KeptInvariant I} `{!LoopInvariant observed display fuel advance_work closed I}.

Abbreviation keeps m := (preserves (held (closed := closed) (I := I)) m).

Lemma held_try {A : Type} (m : st (ControlLoop B R) LoopError A) : keeps m -> keeps (try_loop m).
Proof. intros Hm l Hl. specialize (Hm l Hl). unfold try_loop. by destruct (m l) as [[]]. Qed.

Lemma held_try_drive {A : Type} (f : Sup B R -> result DavoutError A * Sup B R) :
  (forall s, I s -> I (f s).2) -> keeps (try_drive f).
Proof. intros Hf l [Hi Hc]. specialize (Hf _ Hi). unfold try_drive. destruct (f (supervisor l)) as [[]]; by split. Qed.

Lemma held_forbid : keeps (forbid_implicit_enable : st (ControlLoop B R) LoopError unit).
Proof. apply pres_modify. intros l [Hi Hc]. by split. Qed.

Lemma held_stop : keeps (try_drive (disable_all observed)).
Proof. apply held_try_drive. intros s Hs. by eapply li_stop. Qed.

Lemma held_run_arm (files : EnableFiles) (c : PiCommand) : keeps (run_arm observed display fuel files c).
Proof.
  destruct c; cbn [run_arm]; try apply pres_ret.
  - apply pres_bind; [eapply held_enter; eauto|]. walk.
  - apply pres_bind; [eapply held_enter_at; eauto|]. walk.
  - apply pres_bind; [eapply held_wave; eauto|]. walk.
Qed.

(** A step of the gate over the loop: the loop keeps its invariant, the gate is calmed. *)
Definition calming d (f : EnableGate -> st (ControlLoop B R) Empty_set (list GateLine * EnableGate)) : Prop :=
  forall g, keeps (f g) /\ forall l lines g' l', f g l = (Ok (lines, g'), l') -> calms d g g'.

Lemma submit_calming d (files : EnableFiles) (c : PiCommand) (t : Z) : calming d (submit observed display display_loop fuel files c t).
Proof.
  intros g. unfold submit. destruct (_ || _).
  - split; [apply pres_ret|]. intros l lines g' l' [= <- <- <-]. by apply calms_same.
  - split.
    + apply pres_bind; [apply held_try, held_run_arm|]. intros r. apply pres_ret.
    + intros l lines g' l'. unfold sbind, try_loop, ret. destruct (run_arm _ _ _ _ _ l) as [[ls|e|] l1]; [| |discriminate].
      * intros [= <- <- <-]. apply calms_refl.
      * destruct e; intros [= <- <- <-]; first [apply calms_refl|by apply calms_same].
Qed.

Lemma held_retry (files : EnableFiles) (t : Z) (arms : list DeferredArm) : keeps (retry_arms observed display display_loop fuel files t arms).
Proof.
  induction arms as [|a rest IH]; cbn [retry_arms]; [apply pres_ret|]. apply pres_bind; [apply held_try, held_run_arm|].
  intros [e|done]; [destruct (_ && _); [apply pres_ret|]|]; (apply pres_bind; [exact IH|]; intros []; apply pres_ret).
Qed.

Lemma held_stop_incomplete : keeps (stop_incomplete observed).
Proof.
  unfold stop_incomplete. apply pres_bind; [apply held_try, held_forbid|]. intros _. apply pres_bind; [apply held_stop|]. intros r.
  apply pres_bind; [apply held_try; eapply held_mode; eauto|]. intros _. apply pres_ret.
Qed.

Lemma poll_calming d (files : EnableFiles) (t : Z) : calming d (poll observed display display_loop fuel files t).
Proof.
  intros g. unfold poll.
  assert (Hretry : forall lines g0, keeps (let* (more, kept_arms) := retry_arms observed display display_loop fuel files t (g_deferred g0) in
            ret (lines ++ more, set_deferred kept_arms g0))).
  { intros ls g0. apply pres_bind; [apply held_retry|]. intros []. apply pres_ret. }
  assert (Hdone : forall lines g0 l ls g' l', (let* (more, kept_arms) := retry_arms observed display display_loop fuel files t (g_deferred g0) in
            ret (lines ++ more, set_deferred kept_arms g0)) l = (Ok (ls, g'), l') -> calms d g0 g').
  { intros ls0 g0 l ls g' l'. unfold sbind, ret. destruct (retry_arms _ _ _ _ _ _ _ l) as [[[more ka]|e|] l1]; [|discriminate..].
    intros [= <- <- <-]. by apply calms_same. }
  destruct (g_enable g) as [p|]; [|split; [apply Hretry|apply Hdone]]. split.
  - apply pres_bind; [apply held_try; eapply held_completion; eauto|]. intros [e|u]; [|apply Hretry].
    apply pres_bind; [apply pres_get|]. intros l. destruct (_ && _); [apply pres_ret|].
    apply pres_bind; [apply held_stop_incomplete|]. intros r. apply pres_ret.
  - intros l lines g' l'. unfold sbind at 1. unfold try_loop at 1. destruct (enable_completion l) as [[u|e|] l1]; [| |discriminate].
    + intros E. eapply calms_trans; [|exact (Hdone _ _ _ _ _ _ E)]. by apply calms_same.
    + unfold sbind at 1, get. destruct (_ && _); [intros [= <- <- <-]; apply calms_refl|]. unfold sbind.
      destruct (stop_incomplete observed l1) as [[r|e'|] l2]; [|discriminate..]. intros [= <- <- <-]. by apply calms_same.
Qed.

End Gate.


(** ** Every step of the process *)

Section Process.
Context {B : Type} `{CanBus B} {R : Type} `{ReferenceWork R} {Hd : Type} `{!ReferenceDriver (Sup B R) Hd}.
Variable observed : Observer B R.
Variable display : DavoutError -> string.
Variable display_loop : LoopError -> string.
Variable display_overlay : Overlay.OverlayError -> string.
Variable display_config : Config.ConfigError -> string.
Variable debug_lease : Reporting.ActiveReportingLeaseError -> string.
Variable display_frame : ReceiveFrameEvidence -> string.
Variable fuel : nat.
Variables exp tanh cos sin : f64 -> f64.
Variable dynamics : DynamicsModel.
Variable advance_work : Sup B R -> result string unit * Sup B R.
Variable chappe : option (list JointState -> bool).
Variable fits : Config.RobotSection -> list Limits.UrdfJoint -> result message unit.
Variable publish : SafetyState -> bool.
Variable files : EnableFiles.
Variable lease : MotionLease.
Variable config_dir : string.

(** What the process asks of the supervisor beside the loop. *)
Class ProcessInvariant (I : Sup B R -> Prop) : Prop := {
  pv_home : forall s, I s -> I (set_homing_complete observed s).2;
  pv_deadline : forall s, I s -> I (enforce_degraded_deadline observed s).2;
  pv_request : forall j a s, I s -> I (driver_request (H := Hd) j a s).2;
  pv_outcome : forall (h : Hd) s, I s -> I (driver_outcome h s).2
}.

Context {closed quiet : bool} {I : Sup B R -> Prop} `{!KeptInvariant I}
  `{!LoopInvariant observed display fuel advance_work closed I} `{!ProcessInvariant I}.
Hypothesis quiet_closed : quiet = true -> closed = true.

Abbreviation PS := (Pi (B := B) (R := R) (Hd := Hd)).
Abbreviation P A := (st (Pi (B := B) (R := R) (Hd := Hd)) Empty_set A).
Abbreviation loop_keeps m := (preserves (held (closed := closed) (I := I)) m).

Record ordered (p : PS) : Prop := {
  od_loop : held (closed := closed) (I := I) (pi_loop p);
  od_sweep : sweep_fine dynamics (pi_gate p);
  od_gate : quiet = true -> gate_shut (pi_gate p);
  od_queue : quiet = true -> queue_shut (pi_queue p)
}.

Abbreviation keeps m := (preserves ordered m).

(** ** Rules *)

Lemma ord_look {A} (k : PS -> P A) : (forall p, ordered p -> ordered (k p p).2) -> keeps (let* p := get in k p).
Proof. intros Hk p Hp. exact (Hk p Hp). Qed.

Lemma ord_requested : keeps requested.
Proof. intros p [a b c d]. by split. Qed.

Lemma ord_world {A} (m : st (Overlay.OverlayWorld (B := B) (R := R)) Empty_set A) :
  (forall w, held (closed := closed) (I := I) (Overlay.ow_loop w) -> held (closed := closed) (I := I) (Overlay.ow_loop (m w).2)) -> keeps (on_world m).
Proof. intros Hm p [a b c d]. unfold on_world. specialize (Hm (pi_world p) a). destruct (m (pi_world p)). by split. Qed.

Lemma ord_loop {A} (m : st (ControlLoop B R) Empty_set A) : loop_keeps m -> keeps (on_loop m).
Proof. intros Hm. apply ord_world. intros w Hw. specialize (Hm _ Hw). by destruct (m (Overlay.ow_loop w)). Qed.

Lemma ord_attempt {A} (m : st (ControlLoop B R) LoopError A) : loop_keeps m -> keeps (attempt m).
Proof. intros Hm. apply ord_loop. exact (held_try m Hm). Qed.

Lemma ord_drive {A} (f : Sup B R -> result DavoutError A * Sup B R) : (forall s, I s -> I (f s).2) -> keeps (attempt_drive f).
Proof. intros Hf. apply ord_loop. by apply held_try_drive. Qed.

Lemma ord_consult {A} (f : Sup B R -> A * Sup B R) : (forall s, I s -> I (f s).2) -> keeps (consult f).
Proof. intros Hf. apply ord_loop. intros l [Hi Hc]. specialize (Hf _ Hi). destruct (f (supervisor l)). by split. Qed.

Lemma ord_kept {A} (f : Sup B R -> A * Sup B R) : (forall s, kept s (f s).2) -> keeps (consult f).
Proof. intros Hf. apply ord_consult. intros s Hs. eapply li_kept; [apply Hf|exact Hs]. Qed.

Lemma ord_kept_drive {A} (f : Sup B R -> result DavoutError A * Sup B R) : (forall s, kept s (f s).2) -> keeps (attempt_drive f).
Proof. intros Hf. apply ord_drive. intros s Hs. eapply li_kept; [apply Hf|exact Hs]. Qed.

Lemma ord_current : keeps current.
Proof. apply ord_kept. apply tick_kept. Qed.

(** A change of the rest of the process. *)
Lemma ord_frame (f : PS -> PS) :
  (forall p, pi_world (f p) = pi_world p /\ pi_gate (f p) = pi_gate p /\ pi_queue (f p) = pi_queue p) -> keeps (modify f : P unit).
Proof.
  intros Hf. apply pres_modify. intros p [a b c d]. destruct (Hf p) as (E1 & E2 & E3).
  split; unfold pi_loop; by rewrite ?E1, ?E2, ?E3.
Qed.

Lemma ord_emit lines : keeps (emit lines).
Proof. by apply ord_frame. Qed.
Lemma ord_events events : keeps (emit_reference_events events).
Proof. by apply ord_frame. Qed.
Lemma ord_audit action ok op j m : keeps (publish_audit action ok op j m).
Proof. by apply ord_frame. Qed.
Lemma ord_refusal op j m : keeps (report_refusal op j m).
Proof. by apply ord_frame. Qed.

Lemma ordered_gate (p : PS) (g : EnableGate) : calms dynamics (pi_gate p) g -> ordered p -> ordered (set_gate g p).
Proof. intros [Hs Hg] [a b c d]. split; auto. Qed.

Lemma ordered_queue (p : PS) q : (queue_shut (pi_queue p) -> queue_shut q) -> ordered p -> ordered (set_queue q p).
Proof. intros Hs [a b c d]. split; auto. Qed.

Lemma ord_with_gate f : (forall g, calms dynamics g (f g).2) -> keeps (with_gate f).
Proof.
  intros Hf. apply ord_look. intros p Hp. specialize (Hf (pi_gate p)). destruct (f (pi_gate p)) as [ls g].
  change (ordered (emit ls (set_gate g p)).2). by apply ord_emit, ordered_gate.
Qed.

Lemma ord_with_gate_loop f : calming (closed := closed) (I := I) dynamics f -> keeps (with_gate_loop f).
Proof.
  intros Hf. apply ord_look. intros p Hp. destruct (Hf (pi_gate p)) as [Hk Hc].
  pose proof (ord_loop _ Hk p Hp) as Ho. unfold sbind at 1. unfold on_loop, on_world in Ho |- *. unfold pi_loop in *.
  destruct (f (pi_gate p) (Overlay.ow_loop (pi_world p))) as [r l] eqn:Ef. destruct r as [[ls g]|e|]; [|destruct e|exact Ho].
  specialize (Hc _ _ _ _ Ef). cbn [snd] in Ho. change (ordered (emit ls (set_gate g (set_world (Overlay.set_loop l (pi_world p)) p))).2).
  by apply ord_emit, ordered_gate.
Qed.

Lemma ord_cancel_queue : keeps cancel_queue.
Proof.
  apply ord_look. intros p Hp. destruct (RefQueue.queue_cancel (pi_queue p)) as [es q] eqn:E.
  change (ordered (emit_reference_events es (set_queue q p)).2). apply ord_events, ordered_queue; [|done]. intros _.
  pose proof (queue_cancel_shut (pi_queue p)) as Hq. by rewrite E in Hq.
Qed.

Hint Resolve ord_requested ord_emit ord_events ord_audit ord_refusal ord_current ord_cancel_queue : loop.
Hint Extern 2 (keeps (attempt _)) => apply ord_attempt; solve [auto with loop] : loop.
Hint Extern 2 (keeps (with_gate _)) => apply ord_with_gate; intros; solve [auto using end_preflight_calms, gate_cancel_calms, refuse_deferred_calms, begin_enable_calms] : loop.
Hint Extern 4 (keeps (modify _)) => apply ord_frame; done : loop.
Hint Extern 2 (keeps (say _)) => apply ord_emit : loop.
Hint Extern 2 (keeps (say_err _)) => apply ord_emit : loop.

(** Loop commands, for [ord_attempt]. *)
Lemma loop_forbid : loop_keeps (forbid_implicit_enable : st (ControlLoop B R) LoopError unit).
Proof. apply held_forbid. Qed.
Lemma loop_mode m : loop_keeps (set_control_mode observed m).
Proof. eapply held_mode; eauto. Qed.
Lemma loop_try_mode m : loop_keeps (try_set_control_mode observed m).
Proof. eapply held_try_mode; eauto. Qed.
Lemma loop_torque_zero : loop_keeps (enter_torque_only_zero observed).
Proof. eapply held_torque_zero; eauto. Qed.
Lemma loop_torque j tau : loop_keeps (set_torque_cmd observed j tau).
Proof. eapply held_torque_cmd; eauto. Qed.
Lemma loop_setpoint j x v : loop_keeps (set_joint_position_setpoint_at_speed observed display j x v).
Proof. eapply held_setpoint; eauto. Qed.
Lemma loop_ensure : loop_keeps (ensure_active_for_motion observed display fuel files).
Proof. eapply held_ensure; eauto. Qed.
Lemma loop_hold_at j x v : loop_keeps (enter_position_hold_at_speed observed display fuel files j x v).
Proof. eapply held_enter_at; eauto. Qed.
Lemma loop_wave j lo hi n t : loop_keeps (start_position_wave observed display fuel files j lo hi n t).
Proof. eapply held_wave; eauto. Qed.
Lemma loop_gain j g : loop_keeps (apply_gain_override observed j g).
Proof. eapply held_gain; eauto. Qed.
Lemma loop_clear_gain j : loop_keeps (clear_gain_override j : st (ControlLoop B R) LoopError unit).
Proof. intros l Hl. exact Hl. Qed.
Lemma loop_clear_hold : loop_keeps (clear_position_hold : st (ControlLoop B R) LoopError unit).
Proof. intros l Hl. exact Hl. Qed.
Lemma loop_lower : loop_keeps (request_degraded_lower observed).
Proof. eapply held_request; eauto. Qed.
Lemma loop_events : loop_keeps (take_degraded_events observed).
Proof. eapply held_take; eauto. Qed.
Lemma loop_ticks : loop_keeps (loop_tick observed display exp tanh cos sin dynamics advance_work chappe).
Proof. eapply held_tick; eauto. Qed.
Lemma loop_setpoint_active j x v :
  loop_keeps (ensure_active_for_motion observed display fuel files ;* set_joint_position_setpoint_at_speed observed display j x v).
Proof. apply pres_bind; [apply loop_ensure|]. intros _. apply loop_setpoint. Qed.
Hint Resolve loop_forbid loop_mode loop_try_mode loop_torque_zero loop_torque loop_setpoint loop_ensure loop_hold_at loop_wave loop_gain
  loop_clear_gain loop_clear_hold loop_lower loop_events loop_ticks loop_setpoint_active : loop.

Lemma ord_stop : keeps (attempt_drive (disable_all observed)).
Proof. apply ord_drive. intros s Hs. by eapply li_stop. Qed.
Hint Resolve ord_stop : loop.

Lemma ord_forbid_and_stop : keeps (forbid_and_stop observed).
Proof. unfold forbid_and_stop. walk. Qed.
Hint Resolve ord_forbid_and_stop : loop.

Lemma ord_episode op c pr : keeps (refuse_during_episode op c pr).
Proof. unfold refuse_during_episode. walk. Qed.
Hint Resolve ord_episode : loop.

Lemma ord_admit c : keeps (admit_stdin_command lease c).
Proof. unfold admit_stdin_command. walk. Qed.
Hint Resolve ord_admit : loop.

Lemma ord_tick_error e t : keeps (stop_after_tick_error observed display display_loop e t).
Proof. unfold stop_after_tick_error. walk. Qed.
Hint Resolve ord_tick_error : loop.

(** ** Starting a sweep *)

Lemma capture_keeps j : loop_keeps (Preflight.capture_joint j).
Proof.
  unfold Preflight.capture_joint. walk. apply held_kept. apply feedback_kept.
Qed.
Hint Resolve capture_keeps : loop.
Lemma captures_keep names : loop_keeps (Preflight.capture_joints names).
Proof. induction names as [|j rest IH]; cbn [Preflight.capture_joints]; walk. Qed.
Hint Resolve captures_keep : loop.
Lemma start_keeps : loop_keeps Preflight.start.
Proof. unfold Preflight.start. walk. apply held_kept, tick_kept. Qed.

Lemma ord_start_sweep : keeps start_sweep.
Proof. unfold start_sweep. apply pres_bind; [apply ord_attempt, start_keeps|]. walk. Qed.

(** A sweep just started is one in progress, and may be begun. *)
Lemma ord_start {A} (k : option GravitySweep -> P A) :
  (forall o, (forall sw, o = Some sw -> Preflight.sweep_ok dynamics sw) -> keeps (k o)) -> keeps (let* sweep := start_sweep in k sweep).
Proof.
  intros Hk p Hp. pose proof (ord_start_sweep p Hp) as Ho. unfold sbind at 1. destruct (start_sweep p) as [[o|e|] p1] eqn:Es;
    [|destruct e|exact Ho]. apply Hk; [|exact Ho]. intros sw ->.
  unfold start_sweep, sbind, attempt, on_loop, on_world, try_loop, ret in Es.
  destruct (Preflight.start (Overlay.ow_loop (pi_world p))) as [[o|e|] l1] eqn:E1; [|discriminate..]. injection Es as -> <-.
  by destruct (Preflight.sweep_start_spec dynamics _ _ _ E1).
Qed.

Lemma ord_begin sw t : quiet = false -> Preflight.sweep_ok dynamics sw -> keeps (begin_sweep sw t).
Proof.
  intros Hq Hs. apply ord_look. intros p [a b c d]. unfold begin_preflight. destruct (preflight_pending (pi_gate p)); [by split|].
  split; [exact a|exact Hs| |exact d]. intros E. congruence.
Qed.

Lemma ord_chappe_enable r : (quiet = true -> er_enable r = false) -> keeps (handle_chappe_enable observed display r).
Proof.
  intros Hr. apply ord_look. intros p Hp. destruct (er_enable r) eqn:Ee.
  - assert (Hq : quiet = false) by (destruct quiet; [by specialize (Hr eq_refl)|done]).
    destruct (RefQueue.is_busy _); [exact Hp|]. destruct (preflight_pending (pi_gate p)).
    + unfold defer_chappe_enable. destruct (_ <=? _)%nat; [exact Hp|]. destruct Hp as [a b c d]. split; [exact a|exact b| |exact d]. intros E. congruence.
    + revert p Hp. apply ord_start. intros [sw|] Hs; [|apply pres_ret]. apply pres_bind; [apply ord_begin; auto|]. walk.
  - revert p Hp. apply pres_bind; [auto with loop|]. intros r'. walk.
Qed.

(** ** Testing *)

Lemma ord_gains j : keeps (apply_testing_gains observed j).
Proof. unfold apply_testing_gains. walk. Qed.
Lemma ord_setpoint j : keeps (testing_setpoint observed display fuel files j).
Proof. unfold testing_setpoint. walk. Qed.
Hint Resolve ord_gains ord_setpoint : loop.
Lemma ord_joints want js : keeps (apply_testing_joints observed display fuel files want js).
Proof. induction js as [|j rest IH]; cbn [apply_testing_joints]; walk. Qed.
Lemma ord_batch b want : keeps (apply_testing_batch observed display fuel files b want).
Proof. apply ord_joints. Qed.
Lemma ord_refuse_testing m : keeps (refuse_testing m).
Proof. apply ord_refusal. Qed.
Hint Resolve ord_batch ord_refuse_testing : loop.

Lemma ord_busy : keeps (consult (reference_busy observed)).
Proof. apply ord_kept. apply busy_kept. Qed.
Hint Resolve ord_busy : loop.

Lemma not_quiet (p : PS) : ordered p -> implicit_enable_forbidden (pi_loop p) = false -> quiet = false.
Proof. intros [[_ Hf] _ _ _] E. destruct quiet; [|done]. rewrite Hf in E by auto. discriminate. Qed.

Lemma ord_testing b : keeps (handle_testing_batch observed display fuel files lease b).
Proof.
  unfold handle_testing_batch. destruct (lease_admits _ _ _ _); [|auto with loop|]; (apply pres_bind; [auto with loop|]; intros [];
    [apply pres_ret|]; apply pres_bind; [apply pres_get|]; intros p0; apply pres_bind; [walk|]; intros [];
    [auto with loop|]; destruct (testing_batch_speed_refusal _ _); [auto with loop|]; apply ord_look; intros p Hp;
    destruct (_ && _); [|revert p Hp; apply ord_batch]; destruct (implicit_enable_forbidden (pi_loop p)) eqn:Ef;
    [exact (ord_refuse_testing _ p Hp)|]; pose proof (not_quiet p Hp Ef); clear Ef; revert p Hp;
    apply ord_start; intros [sw|] Hs; [|auto with loop]; apply pres_bind; [apply ord_begin; auto|]; walk).
Qed.
Hint Resolve ord_testing : loop.

Lemma ord_drain_testing ms : keeps (drain_testing_commands observed display fuel files lease ms).
Proof. induction ms as [|m rest IH]; cbn [drain_testing_commands]; walk. Qed.

(** ** Stdin *)

Lemma ord_status m : keeps (status_line observed m).
Proof.
  unfold status_line. apply pres_bind; [apply ord_kept, wire_kept|]. intros [[h da] o]. apply pres_bind; [apply ord_kept, feedback_kept|]. walk.
Qed.
Lemma ord_mode_line t : keeps (mode_line t).
Proof. unfold mode_line. walk. Qed.
Hint Resolve ord_status ord_mode_line : loop.

Lemma ord_print : keeps (print_status observed config_dir).
Proof. unfold print_status. walk. Qed.
Hint Resolve ord_print : loop.

Lemma ord_home : keeps (attempt_drive (set_homing_complete observed)).
Proof. apply ord_drive. apply pv_home. Qed.
Hint Resolve ord_home : loop.

Lemma admit_deferred {K : Type} joints st op known (q : ReferenceQueue K PiCommand) :
  RefQueue.deferred (RefQueue.queue_admit joints st op known q).2 = RefQueue.deferred q.
Proof. unfold RefQueue.queue_admit. by destruct (rbind _ _). Qed.

Lemma ordered_queued (p : PS) q : RefQueue.deferred q = RefQueue.deferred (pi_queue p) -> ordered p -> ordered (set_queue q p).
Proof. intros E. apply ordered_queue. unfold queue_shut. by rewrite E. Qed.

Lemma ord_command c : (quiet = true -> harmless c) -> keeps (handle_command observed display display_loop fuel files config_dir c).
Proof.
  intros Hc. destruct c; cbn [handle_command]; try (solve [walk]).
  - apply ord_look. intros p Hp. unfold sbind.
    pose proof (admit_deferred joints sign_tested STDIN_REFERENCE_OPERATOR (is_configured_joint (supervisor (pi_loop p))) (pi_queue p)) as Hq.
    destruct (RefQueue.queue_admit _ _ _ _ _) as [[u|m|] q]; cbn [snd] in Hq.
    + cbn. by apply ordered_queued.
    + exact (ord_emit _ p Hp).
    + cbn. by apply ordered_queued.
  - assert (Hq : quiet = false) by (destruct quiet; [by specialize (Hc eq_refl)|done]).
    apply ord_start. intros [sw|] Hs; [|walk]. apply pres_bind; [|walk]. apply pres_bind; [apply ord_begin; auto|]. walk.
  - apply pres_bind; [auto with loop|]. intros t. apply pres_bind; [apply ord_with_gate_loop; by eapply submit_calming|]. walk.
  - apply pres_bind; [auto with loop|]. intros t. apply pres_bind; [apply ord_with_gate_loop; by eapply submit_calming|]. walk.
  - apply pres_bind; [auto with loop|]. intros t. apply pres_bind; [apply ord_with_gate_loop; by eapply submit_calming|]. walk.
Qed.

Lemma ord_dispatch c : (quiet = true -> harmless c) -> keeps (dispatch_stdin_command observed display display_loop fuel files config_dir c).
Proof.
  intros Hc. apply ord_look. intros p Hp. destruct (_ && defers_while_referencing c).
  - unfold RefQueue.defer. destruct (_ <=? _)%nat; [exact (ord_emit _ p Hp)|]. destruct Hp as [a b g d]. split; [exact a|exact b|exact g|].
    intros E. unfold queue_shut. cbn. apply Forall_app. split; [by apply d|]. constructor; [by apply Hc|constructor].
  - destruct (_ && negb (is_stop c)) eqn:Es.
    + unfold defer_stdin. destruct (_ <=? _)%nat; [exact (ord_emit _ p Hp)|]. destruct Hp as [a b g d]. split; [exact a|exact b| |exact d].
      intros E. destruct (g E) as [G1 G2 G3]. split; [exact G1|exact G2|]. cbn. apply Forall_app. split; [done|]. constructor; [by apply Hc|constructor].
    + revert p Hp Es. intros p Hp _. revert p Hp. by apply ord_command.
Qed.

(** What waited was let in before. *)
Lemma ord_ready {A} (k : option PiCommand -> P A) :
  (forall o, (forall c, o = Some c -> quiet = true -> harmless c) -> keeps (k o)) -> keeps (let* c := take_ready in k c).
Proof.
  intros Hk p Hp. unfold sbind at 1, take_ready, sbind at 1, get at 1. unfold RefQueue.take_ready_deferred, take_ready_stdin.
  assert (Hgate : forall o g, (if preflight_pending (pi_gate p) then (None, pi_gate p)
      else match g_deferred_stdin (pi_gate p) with [] => (None, pi_gate p) | c :: rest => (Some c, set_deferred_stdin rest (pi_gate p)) end) = (o, g) ->
      ordered (set_gate g p) /\ forall c, o = Some c -> quiet = true -> harmless c).
  { intros o g. destruct (preflight_pending _); [intros [= <- <-]; split; [by destruct p|done]|].
    destruct (g_deferred_stdin (pi_gate p)) as [|c rest] eqn:Ed; [intros [= <- <-]; split; [by destruct p|done]|].
    intros [= <- <-]. destruct Hp as [a b g d]. split.
    - split; [exact a|exact b| |exact d]. intros E. destruct (g E) as [G1 G2 G3]. rewrite Ed in G3. split; [exact G1|exact G2|]. by inversion G3.
    - intros c' [= <-] E. destruct (g E) as [_ _ G3]. rewrite Ed in G3. by inversion G3. }
  assert (Hrest : ordered ((let '(c, g) := (if preflight_pending (pi_gate p) then (None, pi_gate p)
      else match g_deferred_stdin (pi_gate p) with [] => (None, pi_gate p) | c :: rest => (Some c, set_deferred_stdin rest (pi_gate p)) end) in
      k c (set_gate g p))).2).
  { destruct (if preflight_pending _ then _ else _) as [o g] eqn:E. destruct (Hgate o g eq_refl) as [H1 H2]. by apply Hk. }
  destruct (RefQueue.is_busy (pi_queue p)).
  { destruct (if preflight_pending _ then _ else _) as [o g] eqn:E. exact Hrest. }
  destruct (RefQueue.deferred (pi_queue p)) as [|c rest] eqn:Ed.
  { destruct (if preflight_pending _ then _ else _) as [o g] eqn:E. exact Hrest. }
  cbn. apply Hk.
  - intros c' [= <-] E. pose proof (od_queue _ Hp E) as Hq. unfold queue_shut in Hq. rewrite Ed in Hq. by inversion Hq.
  - apply ordered_queue; [|exact Hp]. unfold queue_shut. rewrite Ed. intros Hq. by inversion Hq.
Qed.

(** The owner asks for no Enable. *)
Definition stdin_quiet (cs : list PiCommand) : Prop := owner lease = Stdin -> Forall harmless cs.

(** An Enable of stdin passes only for the owner. *)
Lemma ord_admitted {A} c (k : bool -> P A) : (quiet = true -> owner lease = Stdin -> harmless c) ->
  keeps (k false) -> ((quiet = true -> harmless c) -> keeps (k true)) -> keeps (let* admitted := admit_stdin_command lease c in k admitted).
Proof.
  intros Hc Hno Hyes. destruct (bool_decide (owner lease = Stdin)) eqn:Eo.
  - apply bool_decide_eq_true in Eo. apply pres_bind; [auto with loop|]. intros []; auto.
  - destruct c; try (apply pres_bind; [auto with loop|]; intros []; [apply Hyes; done|exact Hno]).
    unfold admit_stdin_command. cbn [classify_stdin lease_admits]. rewrite bool_decide_eq_false_2
      by (apply bool_decide_eq_false in Eo; congruence).
    cbn [refusal_text mr_command String.prefix]. intros p Hp. unfold sbind. cbn. apply Hno.
    by destruct Hp.
Qed.

Lemma ord_stdin n : forall cs, (quiet = true -> stdin_quiet cs) ->
  keeps (stdin_loop observed display display_loop fuel files lease config_dir n cs).
Proof.
  induction n as [|n IH]; intros cs Hcs; cbn [stdin_loop]; [apply pres_ret|].
  assert (Hrun : forall c rest, (quiet = true -> harmless c) -> (quiet = true -> stdin_quiet rest) ->
    keeps (let* stop := requested in if stop then ret StdinStop
      else let* go := dispatch_stdin_command observed display display_loop fuel files config_dir c in
        if go : bool then stdin_loop observed display display_loop fuel files lease config_dir n rest
        else modify (set_shutdown true) ;* ret StdinStop)).
  { intros c rest Hc Hrest. apply pres_bind; [auto with loop|]. intros []; [apply pres_ret|].
    apply pres_bind; [by apply ord_dispatch|]. intros []; [by apply IH|]. walk. }
  apply pres_bind; [auto with loop|]. intros []; [apply pres_ret|]. apply ord_ready. intros [c|] Ho; [by apply Hrun; eauto|].
  destruct cs as [|c rest]; [apply pres_ret|].
  assert (Hrest : quiet = true -> stdin_quiet rest) by (intros E Eo; specialize (Hcs E Eo); by inversion Hcs).
  apply ord_admitted; [intros E Eo; specialize (Hcs E Eo); by inversion Hcs|by apply IH|]. intros Hc. cbn [negb].
  destruct (classify_stdin c) as [class name]. apply pres_bind; [walk|]. intros []; [by apply IH|by apply Hrun].
Qed.

Lemma ord_stdin_phase cs : (quiet = true -> stdin_quiet cs) ->
  keeps (stdin_phase observed display display_loop fuel files lease config_dir cs).
Proof. intros Hcs. apply ord_look. intros p Hp. by apply ord_stdin. Qed.

(** ** Chappe *)

Lemma ord_drain_all {M : Type} (handle : Polled M -> P bool) ms : (forall m, keeps (handle m)) -> keeps (drain handle ms).
Proof. intros Hm. induction ms as [|m rest IH]; cbn [drain]; walk. Qed.

Lemma ord_set_zero r : keeps (handle_chappe_set_zero r).
Proof.
  unfold handle_chappe_set_zero. destruct (negb _); [apply pres_ret|]. cbn zeta. apply ord_look. intros p Hp.
  match goal with |- context[RefQueue.queue_admit ?js ?st ?op ?kn ?q] => pose proof (admit_deferred js st op kn q) as Hq;
    destruct (RefQueue.queue_admit js st op kn q) as [[u|m|] q'] end; cbn [snd] in Hq; [|exact Hp..].
  by apply ordered_queued.
Qed.
Hint Resolve ord_set_zero : loop.

Lemma ord_take_set_zero m : keeps (take_set_zero lease m).
Proof. unfold take_set_zero. walk. Qed.

Lemma ord_lease r : keeps (handle_chappe_active_reporting_lease observed debug_lease r).
Proof.
  unfold handle_chappe_active_reporting_lease, Exit.acquire_active_reporting_lease, Exit.renew_active_reporting_lease, Exit.release_active_reporting_lease.
  destruct (lr_action r); [apply pres_ret|..]; (apply pres_bind; [|intros _; apply pres_ret]); apply ord_kept_drive; intros s; first [apply timed_lease_kept|apply lease_kept].
Qed.
Hint Resolve ord_lease : loop.

Lemma ord_take_lease m : keeps (take_lease observed debug_lease m).
Proof. unfold take_lease. walk. Qed.

Lemma ord_polls ms : keeps (take_status_polls observed ms).
Proof.
  unfold take_status_polls. apply pres_bind; [apply ord_drain_all; intros; apply pres_ret|]. intros []; [apply pres_ret|].
  destruct (any_poll ms); [|apply pres_ret]. apply pres_bind; [auto with loop|]. intros []; [apply pres_ret|].
  apply pres_bind; [apply ord_kept, solicit_kept|]. walk.
Qed.

(** One held Enable; none is held when nothing waits that would enable. *)
Lemma ord_held_one (k : P unit) : keeps k -> keeps (
  let* stop := requested in
  if stop : bool then ret tt
  else let* p := get in
    match take_ready_chappe_enable (pi_gate p) with
    | (None, _) => ret tt
    | (Some r, g) => modify (set_gate g) ;* handle_chappe_enable observed display r ;* k
    end).
Proof.
  intros Hk. apply pres_bind; [auto with loop|]. intros []; [apply pres_ret|]. apply ord_look. intros p Hp.
  unfold take_ready_chappe_enable. destruct (preflight_pending _); [exact Hp|].
  destruct (g_deferred_chappe (pi_gate p)) as [|r rest] eqn:Ed; [exact Hp|].
  assert (Hq : quiet = false) by (destruct quiet eqn:Eq; [|done]; destruct (od_gate _ Hp Eq) as [_ G _]; congruence).
  change (ordered ((handle_chappe_enable observed display r ;* k) (set_gate (set_deferred_chappe rest (pi_gate p)) p)).2).
  apply pres_bind; [apply ord_chappe_enable; congruence|by intros _|]. destruct Hp as [x y z w]. split; auto. congruence.
Qed.

Lemma ord_held n : keeps (held_enables observed display n).
Proof. induction n as [|n IH]; cbn [held_enables]; apply ord_held_one; [apply pres_ret|exact IH]. Qed.

Lemma ord_lagged n k : keeps (stop_after_lagged_enable observed n k).
Proof. unfold stop_after_lagged_enable. walk. Qed.
Hint Resolve ord_lagged : loop.

(** Chappe, as the owner, asks for no Enable. *)
Definition chappe_quiet (ms : list (Polled EnableRequest)) : Prop :=
  owner lease = Chappe -> Forall (fun m => match m with Message (Some r) => er_enable r = false | _ => True end) ms.

Lemma ord_drain_enables ms : (quiet = true -> chappe_quiet ms) -> keeps (drain_enables observed display lease ms).
Proof.
  induction ms as [|m rest IH]; intros Hms; cbn [drain_enables]; [walk|].
  assert (Hrest : keeps (drain_enables observed display lease rest))
    by (apply IH; intros E Eo; specialize (Hms E Eo); by inversion Hms).
  destruct m as [[r|]|n]; [|walk..]. apply pres_bind; [auto with loop|]. intros []; [apply pres_ret|].
  apply pres_bind; [auto with loop|]. intros []; [apply pres_ret|].
  assert (Hr : lease_admits lease Chappe MotionClass "enable" = Ok tt -> quiet = true -> er_enable r = false).
  { cbn. destruct (bool_decide _) eqn:Eo; [|discriminate]. apply bool_decide_eq_true in Eo. intros _ E. specialize (Hms E (eq_sym Eo)).
    by inversion Hms. }
  destruct (er_enable r) eqn:Ee.
  - destruct (lease_admits _ _ _ _) as [[]|e|] eqn:El; [|walk|]; [|by cbn in El; destruct (bool_decide _)].
    apply pres_bind; [auto with loop|]. intros []; [walk|]. apply pres_bind; [|intros _; exact Hrest].
    apply pres_bind; [|walk]. apply ord_chappe_enable. intros E. rewrite Ee. by apply Hr.
  - cbn [lease_admits]. apply pres_bind; [apply pres_ret|]. intros []; [walk|]. apply pres_bind; [|intros _; exact Hrest].
    apply pres_bind; [|walk]. by apply ord_chappe_enable.
Qed.

Lemma ord_drain_chappe i : (quiet = true -> chappe_quiet (in_enables i)) -> keeps (drain_chappe_commands observed display debug_lease lease i).
Proof.
  intros Hi. unfold drain_chappe_commands. apply pres_bind; [apply ord_drain_all, ord_take_set_zero|]. intros []; [apply pres_ret|].
  apply pres_bind; [apply ord_drain_all, ord_take_lease|]. intros []; [apply pres_ret|].
  apply pres_bind; [apply ord_polls|]. intros []; [apply pres_ret|]. apply pres_bind; [apply pres_get|]. intros p.
  apply pres_bind; [apply ord_held|]. intros _. by apply ord_drain_enables.
Qed.

(** ** The overlay *)

Abbreviation world_held := (fun w : Overlay.OverlayWorld (B := B) (R := R) => held (closed := closed) (I := I) (Overlay.ow_loop w)).
Abbreviation world_keeps m := (preserves world_held m).

Lemma world_loop {A} (m : st (ControlLoop B R) LoopError A) : loop_keeps m -> world_keeps (Overlay.with_loop m).
Proof. intros Hm w Hw. specialize (Hm _ Hw). unfold Overlay.with_loop. by destruct (m (Overlay.ow_loop w)). Qed.

Lemma world_envelope {A} (f : Sup B R * list Limits.UrdfJoint -> result DavoutError A * (Sup B R * list Limits.UrdfJoint)) wrap :
  (forall s u, kept s (f (s, u)).2.1) -> world_keeps (Overlay.with_envelope f wrap).
Proof.
  intros Hf w [Hi Hc]. unfold Overlay.with_envelope. specialize (Hf (supervisor (Overlay.ow_loop w)) (Overlay.ow_urdf w)).
  destruct (f _) as [r [s u]]. split; [exact (li_kept _ _ Hf Hi)|exact Hc].
Qed.

Lemma world_persist connected r : world_keeps (Overlay.calmly (Overlay.enqueue_persist display_config connected r)).
Proof.
  intros w Hw. unfold Overlay.calmly, Overlay.enqueue_persist. by destruct (Persist.enqueue _ _ _ _) as [e s].
Qed.

Lemma world_control c : world_keeps
  (modify (fun w => Overlay.set_loop (set_sup (Overlay.set_control c (supervisor (Overlay.ow_loop w))) (Overlay.ow_loop w)) w)
   : st (Overlay.OverlayWorld (B := B) (R := R)) Overlay.OverlayError unit).
Proof. apply pres_modify. intros w [Hi Hc]. split; [exact (li_kept _ _ (control_kept _ _) Hi)|exact Hc]. Qed.
Hint Resolve world_persist world_control : loop.

Lemma world_param j x v : world_keeps (Overlay.apply_runtime_param observed j x v).
Proof. unfold Overlay.apply_runtime_param. walk. apply world_loop. auto with loop. Qed.
Hint Resolve world_param : loop.

Lemma world_tuning connected dir op j t : world_keeps (Overlay.apply_tuning_change observed display_config connected dir op j t).
Proof. unfold Overlay.apply_tuning_change. walk. Qed.

Lemma world_patch revision connected fresh back dir op j x :
  world_keeps (Overlay.apply_limit_patch_command observed fits display_config display revision connected fresh back dir op j x).
Proof.
  unfold Overlay.apply_limit_patch_command. repeat (apply pres_bind; [auto with loop; apply world_envelope; intros; apply patch_kept|intros ?]).
  walk. apply world_envelope. intros. apply restore_kept.
Qed.

Hint Resolve world_tuning world_patch : loop.

Lemma world_command revision connected fresh back dir op :
  world_keeps (Overlay.apply_operator_command observed fits display_config display revision connected fresh back dir op).
Proof.
  unfold Overlay.apply_operator_command. apply pres_bind.
  { apply world_loop, held_kept. apply busy_kept. }
  intros busy. walk.
Qed.

Lemma ord_overlay f : keeps (on_overlay f).
Proof. by apply ord_world. Qed.
Hint Resolve ord_overlay : loop.

Lemma ord_actuator m : keeps (take_actuator observed display display_overlay display_config fits config_dir m).
Proof.
  unfold take_actuator. destruct m as [[o|]|n]; [|apply pres_ret|walk]. apply pres_bind; [auto with loop|]. intros []; [apply pres_ret|].
  apply pres_bind; [|walk]. apply ord_world. intros w Hw.
  pose proof (world_command (om_revision o) (om_connected o) (om_fresh o) (om_fresh_back o) config_dir (om_command o) w Hw) as Hk.
  by destruct (Overlay.apply_operator_command _ _ _ _ _ _ _ _ _ _ w) as [[] w'].
Qed.

Lemma ord_drain_actuator ms : keeps (drain_actuator_commands observed display display_overlay display_config fits config_dir ms).
Proof. unfold drain_actuator_commands. apply pres_bind; [apply ord_drain_all, ord_actuator|walk]. Qed.

(** ** The tick *)

Lemma ord_deadline : keeps (attempt_drive (enforce_degraded_deadline observed)).
Proof. apply ord_drive. apply pv_deadline. Qed.
Hint Resolve ord_deadline : loop.

Lemma ord_tick : keeps (tick_phase observed display display_loop exp tanh cos sin dynamics advance_work chappe).
Proof. unfold tick_phase. walk. Qed.

(** The queue asks the supervisor for references; it only sheds what waits. *)
Lemma start_next_rule events (q : ReferenceQueue Hd PiCommand) (s : Sup B R) : I s ->
  I (RefQueue.start_next events q s).2.2 /\ (queue_shut q -> queue_shut (RefQueue.start_next events q s).2.1).
Proof.
  intros Hs. unfold RefQueue.start_next. destruct (RefQueue.pending q) as [|e rest]; [done|].
  match goal with |- context[driver_request ?j ?a s] => pose proof (pv_request j a s Hs) as Hr; destruct (driver_request (H := Hd) j a s) as [[h|m|] s'] end;
    (split; [exact Hr|first [exact (fun x => x)|intros _; constructor]]).
Qed.

Lemma pump_rule (q : ReferenceQueue Hd PiCommand) (s : Sup B R) : I s ->
  I (RefQueue.pump q s).2.2 /\ (queue_shut q -> queue_shut (RefQueue.pump q s).2.1).
Proof.
  intros Hs. unfold RefQueue.pump. destruct (negb _); [done|]. destruct (RefQueue.hardware_estop_asserted s).
  { pose proof (queue_cancel_shut q) as Hq. by destruct (RefQueue.queue_cancel q). }
  destruct (RefQueue.in_flight q) as [[e h]|]; [|by apply start_next_rule].
  pose proof (pv_outcome h s Hs) as Ho. destruct (driver_outcome h s) as [[[|x|m]|m|] s'];
    first [by apply (start_next_rule _ (RefQueue.mkQueue _ _ _ _))|split; [exact Ho|first [exact (fun x => x)|intros _; constructor]]].
Qed.

Lemma ord_pump : keeps pump_queue.
Proof.
  intros p Hp. unfold pump_queue. pose proof (pump_rule (pi_queue p) _ (proj1 (od_loop _ Hp))) as [Hi Hq].
  destruct (RefQueue.pump _ _) as [r [q s]]. cbn in Hi, Hq. destruct Hp as [[a a'] b c d].
  destruct r as [events|e|]; [|destruct e|]; split; cbn; auto; by split.
Qed.
Hint Resolve ord_pump : loop.

Lemma ord_report events : keeps (report_degraded_events events).
Proof. unfold report_degraded_events. walk. Qed.
Hint Resolve ord_report : loop.

Lemma ord_poll t : keeps (with_gate_loop (poll observed display display_loop fuel files t)).
Proof. apply ord_with_gate_loop. by eapply poll_calming. Qed.
Hint Resolve ord_poll : loop.

Lemma ord_after : keeps (after_tick observed display display_loop fuel files).
Proof.
  unfold after_tick. walk.
Qed.

Lemma ord_safety : keeps (publish_safety display display_frame publish).
Proof. unfold publish_safety. walk. Qed.
Hint Resolve ord_safety : loop.

Lemma ord_publish period ok : keeps (publish_state display display_frame publish period ok).
Proof. unfold publish_state. walk. Qed.
Hint Resolve ord_publish : loop.

Lemma ord_finish t0 period chappe_period ok : keeps (finish_pass display display_frame publish t0 period chappe_period ok).
Proof. unfold finish_pass. walk. apply ord_kept. by split. Qed.

(** ** The sweep *)

Lemma ord_reported : keeps report_preflight_refusals.
Proof.
  apply ord_look. intros p Hp.
  assert (Hp1 : ordered (set_gate (take_unreported (pi_gate p)).2 p)) by (apply ordered_gate; [by apply calms_same|exact Hp]).
  destruct (take_unreported (pi_gate p)) as [rs g]. cbn [snd] in Hp1. unfold sbind, modify. revert Hp1. generalize (set_gate g p).
  apply pres_each. intros r. walk.
Qed.
Hint Resolve ord_reported : loop.

(** The enable path of a passed sweep, where enabling is open. *)
Lemma ord_enable_resolved : closed = false -> keeps (enable_resolved observed display fuel files).
Proof.
  intros Ec. unfold enable_resolved. pose proof (li_enable observed display fuel advance_work (closed := closed) (I := I)) as He. rewrite Ec in He. destruct He as [Hr Ht].
  apply pres_bind; [apply ord_drive; eauto|]. intros [e|js]; [apply pres_ret|].
  apply pres_bind; [apply ord_drive; eauto|]. intros [e|u]; [apply pres_ret|].
  apply pres_bind; [|walk]. apply ord_attempt, pres_modify. intros l [Hi _]. split; [exact Hi|congruence].
Qed.

Lemma ord_continue : (closed = true -> quiet = true) -> keeps (continue_request observed display fuel files).
Proof.
  intros Hcq. apply ord_look. intros p Hp. cbn [pass_preflight].
  assert (Hp1 : ordered (set_gate (set_preflight None (pi_gate p)) p)).
  { apply ordered_gate; [|exact Hp]. split; [done|]. intros []. by split. }
  destruct (bool_dec closed true) as [Ec|Ec%not_true_is_false].
  - rewrite (gs_preflight _ (od_gate _ Hp (Hcq Ec))). exact Hp1.
  - match goal with |- context[modify (set_gate ?g) ;* ?k] => change (ordered (k (set_gate g p)).2) end.
    revert Hp1. generalize (set_gate (set_preflight None (pi_gate p)) p). clear Hp.
    pose proof (ord_enable_resolved Ec) as He. destruct (pp_then <$> _) as [[op|r|b]|]; [..|intros p1 Hp1; exact Hp1].
    + unfold enable_after_stdin_preflight. apply pres_bind; [exact He|]. walk.
    + unfold enable_after_chappe_preflight. apply pres_bind; [exact He|]. walk.
    + apply ord_batch.
Qed.

Lemma ord_advance_sweep budget (sw : GravitySweep) : keeps (attempt (Preflight.advance dynamics budget sw)).
Proof.
  apply ord_attempt. unfold Preflight.advance. apply pres_bind; [apply held_kept, tick_kept|]. intros t0. apply pres_bind.
  - generalize (Z.to_nat (Z.min (sat_add_u64 (Preflight.next_sample sw) (Z.max (Preflight.max_samples budget) 1)) (Preflight.sample_count sw) - Preflight.next_sample sw)).
    intros n. revert sw. induction n as [|n IH]; intros sw; cbn [Preflight.slice]; [apply pres_ret|]. apply pres_bind; [apply pres_result|].
    intros [ok sw']. destruct (negb ok); [apply pres_ret|]. apply pres_bind; [apply held_kept, tick_kept|]. intros t. destruct (_ <=? _); [apply pres_ret|apply IH].
  - intros [ok sw']. apply pres_bind; [apply held_kept, tick_kept|]. intros t. destruct (_ && _); [apply pres_ret|].
    apply pres_bind; [apply held_kept, tick_kept|]. intros t'. apply pres_ret.
Qed.

Lemma ordered_sweep (p : PS) sw : (g_preflight (pi_gate p) <> None -> Preflight.sweep_ok dynamics sw) -> ordered p -> ordered (keep_sweep sw p).2.
Proof.
  intros Hs [a b c d]. split; [exact a| | |exact d].
  - unfold sweep_fine. cbn. destruct (g_preflight (pi_gate p)); [by apply Hs|done].
  - intros E. destruct (c E) as [G1 G2 G3]. split; cbn; [by rewrite G1|exact G2|exact G3].
Qed.

Lemma attempt_ok {A} (m : st (ControlLoop B R) LoopError A) (p p' : PS) a :
  attempt m p = (Ok (inr a), p') -> exists l, m (pi_loop p) = (Ok a, l) /\ p' = set_world (Overlay.set_loop l (pi_world p)) p.
Proof.
  unfold attempt, on_loop, on_world, try_loop, pi_loop. destruct (m (Overlay.ow_loop (pi_world p))) as [[x|e|] l]; [|discriminate..].
  intros [= -> <-]. by exists l.
Qed.

(** A sweep that failed leaves the gate. *)
Lemma ord_failed sw (p : PS) : ordered p -> ordered ((keep_sweep sw ;* with_gate (end_preflight None)) p).2.
Proof.
  intros Hp. unfold sbind at 1, keep_sweep, modify at 1. unfold with_gate, sbind at 1, get at 1. cbn beta iota.
  cbn [pi_gate set_gate].
  match goal with |- context[end_preflight None ?g0] => assert (Hc : calms dynamics (pi_gate p) (end_preflight None g0).2) end.
  { split; [by unfold sweep_fine; rewrite end_preflight_spec|]. intros [G1 G2 G3]. rewrite G1. cbn. by split. }
  destruct (end_preflight None _) as [ls g]. by destruct (ordered_gate p g Hc Hp).
Qed.

(** Publishing refusals leaves the sweep, the loop and the queue as they are. *)
Lemma reported_frame (p : PS) : exists q, report_preflight_refusals p = (Ok tt, q)
  /\ pi_world q = pi_world p /\ pi_queue q = pi_queue p /\ g_preflight (pi_gate q) = g_preflight (pi_gate p).
Proof.
  unfold report_preflight_refusals, sbind at 1, get at 1. cbn beta iota. destruct (take_unreported (pi_gate p)) as [rs g] eqn:E.
  assert (Eg : g_preflight g = g_preflight (pi_gate p)) by (by injection E as _ <-). clear E. unfold sbind, modify.
  assert (Hw : pi_world (set_gate g p) = pi_world p /\ pi_queue (set_gate g p) = pi_queue p /\ pi_gate (set_gate g p) = g) by done.
  revert Hw. generalize (set_gate g p). induction rs as [|r rs IH]; intros p1 (E1 & E2 & E3); cbn [for_each].
  - exists p1. by rewrite E3.
  - destruct (pr_then r); apply IH; by rewrite ?E1, ?E2, ?E3.
Qed.

(** A sweep of the gate that passes now. *)
Definition passing (budget : SliceBudget) (p : PS) (pend : PendingPreflight) : Prop :=
  g_preflight (pi_gate p) = Some pend
  /\ Preflight.invalidated (pp_sweep pend) (pi_loop p) (RefQueue.is_busy (pi_queue p)) = None
  /\ exists stats sw l, Preflight.advance dynamics budget (pp_sweep pend) (pi_loop p) = (Ok (SweepDone true stats, sw), l).

Lemma gravity_rule budget (p : PS) : ordered p ->
  (forall pend q, passing budget p pend -> ordered q -> pp_then <$> g_preflight (pi_gate q) = Some (pp_then pend) ->
    ordered (continue_request observed display fuel files q).2) ->
  ordered (advance_gravity_preflight observed display fuel dynamics files budget p).2.
Proof.
  intros Hp0 Hcont. unfold advance_gravity_preflight. unfold sbind at 1. pose proof (ord_reported p Hp0) as Hp.
  destruct (reported_frame p) as (p1 & Er & Ew & Eq & Ep). rewrite Er in Hp |- *. cbn [snd] in Hp. unfold sbind at 1, get at 1.
  cbn beta iota. destruct (g_preflight (pi_gate p1)) as [pend|] eqn:Eg; [|exact Hp].
  destruct (Preflight.invalidated _ _ _) as [x|] eqn:Ei.
  { clear - Hp KeptInvariant0. revert p1 Hp. apply pres_bind; [auto with loop|]. walk. }
  unfold sbind at 1. pose proof (ord_advance_sweep budget (pp_sweep pend) p1 Hp) as Ho.
  destruct (attempt _ p1) as [[r|e|] p2] eqn:Ea; [|destruct e|exact Ho]. destruct r as [e|[step sw]]; [exact Ho|]. cbn [snd] in Ho.
  apply attempt_ok in Ea as (l & Ea & ->).
  assert (Hs : Preflight.sweep_ok dynamics (pp_sweep pend)) by (pose proof (od_sweep _ Hp) as Hs; unfold sweep_fine in Hs; by rewrite Eg in Hs).
  pose proof (Preflight.advance_spec dynamics _ _ _ _ _ _ Hs Ea) as Hadv. destruct step as [|[] stats].
  - apply ordered_sweep; [|exact Ho]. by destruct Hadv.
  - assert (Hpass : passing budget p pend).
    { unfold passing, pi_loop. rewrite <- Ew, <- Eq, <- Ep. split; [done|]. split; [exact Ei|]. by exists stats, sw, l. }
    pose proof (ordered_sweep _ sw (fun _ => proj1 Hadv) Ho) as Hk. specialize (Hcont pend _ Hpass Hk). cbn [keep_sweep modify snd] in Hcont.
    unfold sbind. cbn [keep_sweep modify]. cbn [pi_gate set_gate g_preflight set_preflight set_world] in Hcont. rewrite Eg in Hcont.
    specialize (Hcont eq_refl). cbn [pi_gate set_world]. rewrite Eg.
    destruct (continue_request _ _ _ _ _) as [[u|e|] p2]; [exact (ord_reported p2 Hcont)|destruct e|exact Hcont].
  - pose proof (ord_failed sw _ Ho) as Hk. revert Hk. unfold sbind. cbn [keep_sweep modify].
    destruct (with_gate _ _) as [[u|e|] p2]; [|destruct e|by intros]. apply ord_reported.
Qed.

Lemma ord_gravity budget : (closed = true -> quiet = true) -> keeps (advance_gravity_preflight observed display fuel dynamics files budget).
Proof. intros Hcq p Hp. apply gravity_rule; [exact Hp|]. intros pend q _ Hq _. by apply ord_continue. Qed.

(** Where enabling is closed, only an Enable's passing sweep opens it. *)
Lemma gravity_cases budget (p : PS) : ordered p ->
  ordered (advance_gravity_preflight observed display fuel dynamics files budget p).2
  \/ exists pend, passing budget p pend /\ forall b, pp_then pend <> TestingBatch b.
Proof.
  intros Hp. destruct (g_preflight (pi_gate p)) as [pend|] eqn:Eg.
  2:{ left. apply gravity_rule; [exact Hp|]. intros pend q (E & _). congruence. }
  destruct (Preflight.invalidated (pp_sweep pend) (pi_loop p) (RefQueue.is_busy (pi_queue p))) eqn:Ei.
  { left. apply gravity_rule; [exact Hp|]. intros pend' q (E & E' & _). congruence. }
  destruct (Preflight.advance dynamics budget (pp_sweep pend) (pi_loop p)) as [[[[|[] stats] sw]|e|] l] eqn:Ea;
    try (left; apply gravity_rule; [exact Hp|]; intros pend' q (E & _ & ? & ? & ? & E'); congruence).
  destruct (pp_then pend) as [op|r|b] eqn:Et.
  3:{ left. apply gravity_rule; [exact Hp|]. intros pend' q (E & _) Hq Eq. assert (pend' = pend) as -> by congruence. rewrite Et in Eq.
      unfold continue_request, sbind, get. cbn [pass_preflight]. rewrite Eq. unfold modify. apply ord_batch.
      apply ordered_gate; [|exact Hq]. split; [done|]. intros []. by split. }
  all: right; exists pend; (split; [|by rewrite Et]); (split; [exact Eg|]); (split; [exact Ei|]); by exists stats, sw, l.
Qed.

(** ** A pass *)

Lemma ord_go m k : keeps m -> keeps k -> keeps (go m k).
Proof. intros Hm Hk. unfold go. walk. Qed.

Lemma go_from m k (p : PS) : ordered (m p).2 -> keeps k -> ordered (go m k p).2.
Proof.
  intros Hm Hk. unfold go. unfold sbind at 1. destruct (m p) as [[u|e|] p1]; [|destruct e|exact Hm]. revert p1 Hm. cbn [snd]. walk.
Qed.

(** The owner sends no Enable during the pass. *)
Definition pass_quiet (i : Inputs) : Prop := stdin_quiet (in_stdin i) /\ chappe_quiet (in_enables i).

Abbreviation commands i k := (commands_phase observed display display_loop display_overlay display_config debug_lease fuel fits files lease config_dir i k).
Abbreviation pass period i := (control_pass observed display display_loop display_overlay display_config debug_lease display_frame fuel exp tanh cos sin
  dynamics advance_work chappe fits publish files lease config_dir period i).

Lemma ord_commands i k : (quiet = true -> pass_quiet i) -> (forall t, keeps (k t)) -> keeps (commands i k).
Proof.
  intros Hi Hk. unfold commands_phase. apply pres_bind; [auto with loop|]. intros []; [apply pres_ret|].
  apply pres_bind; [auto with loop|]. intros t. apply pres_bind; [apply ord_stdin_phase; by intros E; destruct (Hi E)|].
  intros []; [|apply pres_ret|apply pres_result]. apply ord_go; [apply pres_ret|].
  apply ord_go; [apply ord_drain_chappe; by intros E; destruct (Hi E)|]. apply ord_go; [apply ord_drain_testing|].
  apply ord_go; [apply ord_drain_actuator|]. apply Hk.
Qed.

(** What follows the sweep. *)
Lemma ord_rest t0 period ok : keeps (
  go (consult (fun s => (tt, sync_active_reporting observed s)))
  (go (tick_phase observed display display_loop exp tanh cos sin dynamics advance_work chappe ;* after_tick observed display display_loop fuel files)
    (let* p := get in finish_pass display display_frame publish t0 (lp_loop_period (setup (pi_loop p))) period ok ;* ret true))).
Proof.
  apply ord_go; [apply ord_kept; intros s; apply sync_kept|]. apply ord_go.
  - apply pres_bind; [apply ord_tick|]. intros _. apply ord_after.
  - apply pres_bind; [apply pres_get|]. intros p. apply pres_bind; [apply ord_finish|]. walk.
Qed.

Lemma ord_pass period i : (closed = true -> quiet = true) -> (quiet = true -> pass_quiet i) -> keeps (pass period i).
Proof.
  intros Hcq Hi. unfold control_pass. apply ord_commands; [exact Hi|]. intros t. apply ord_go; [by apply ord_gravity|]. apply ord_rest.
Qed.

Lemma ord_leave : keeps leave_loop.
Proof. unfold leave_loop. walk. Qed.

Lemma ord_passes period inputs : (closed = true -> quiet = true) -> (quiet = true -> Forall pass_quiet inputs) ->
  keeps (run_passes observed display display_loop display_overlay display_config debug_lease display_frame fuel exp tanh cos sin
    dynamics advance_work chappe fits publish files lease config_dir period inputs).
Proof.
  intros Hcq. induction inputs as [|i rest IH]; intros Hi; cbn [run_passes]; [apply pres_ret|].
  apply pres_bind; [apply ord_pass; [exact Hcq|]; intros E; specialize (Hi E); by inversion Hi|].
  intros []; [apply IH; intros E; specialize (Hi E); by inversion Hi|apply ord_leave].
Qed.

Lemma ord_guarded_run m : keeps m -> keeps (run_with_panic_stop observed m).
Proof.
  intros Hm p Hp. specialize (Hm p Hp). unfold run_with_panic_stop. destruct (m p) as [[u|e|] p1]; [exact Hm|destruct e|].
  exact (ord_forbid_and_stop p1 Hm).
Qed.

End Process.

End PiSafety.
