(* ===== verification/PiResults.v ===== *)
(** * PiResults: the process over the physical supervisor

    The reference driver, homing and shutdown of the supervisor keep the two
    invariants [PiSafety] needs, [guarded] and [resting]; with them, what the
    process guarantees of every run: the supervisor stays in order, only the motion
    owner's Enable activates and a gravity sweep vouches for it, and the process
    ends stopped. *)

From Stdlib Require Import ZArith Lia Bool SpecFloat.
From stdpp Require Import base gmap strings list.
From S2P Require Import Prelude Float Config Limits Bus Receive Reporting Faults Davout Filter Admission Authority Physical Lifecycle Stop Session Grants Enable Activation Position Setpoint Gains PosHold Facets Dynamics Loop LoopTick Guard LimitPatch Journal History Reference Acquire Commit Frames Evidence Grant Owner WorkGuard LoopSafety Persist RefQueue Preflight Exit Gate Overlay Parse Pi PiSafety.

Module PiResults.
Import Bus Faults Davout Admission Lifecycle Stop Session Grants Enable Activation Facets Dynamics Loop LoopTick Guard LoopSafety Journal History Reference Acquire Commit Frames WorkGuard Gate Pi PiSafety.

Section Owner.
Context {B : Type} `{CanBus B} {V : Type} `{EqDecision V}.
Variable display_bus : BusError -> string.
Variable display_reference : ReferenceError -> string.
Variable display_commit : ReferenceCommitError -> string.
Variable debug_cause : ReferenceCause -> string.
Variable debug_commit : ReferenceCommitPhase -> ReferenceJournalResult -> ReferenceStageStatus -> string.
Variable to_value : list Config.MotorEntry -> Config.ControlSection -> Config.HomingSection -> result string V.
Variable value_len : V -> result string Z.
Variable encode_policy : Authority.TypedPolicy -> result string (list Z).

Abbreviation S := (Sup B (Work V)).
Abbreviation seen_work := (Acquire.observed to_value value_len encode_policy).
Abbreviation rests := (WorkGuard.rests (B := B) (V := V)).

(** ** Homing *)

Lemma binding_inactive (s : S) : inactive s -> inactive (ensure_reference_binding seen_work s).2.
Proof.
  intros Hs. unfold ensure_reference_binding. pose proof (kept_inactive _ _ (busy_kept seen_work s) Hs) as H1.
  destruct (reference_busy seen_work s) as [busy s1]. cbn [snd] in H1. destruct busy; [done|].
  destruct (require_fault_clear (adm s1)); [|done..]. pose proof (kept_inactive _ _ (valid_kept seen_work Judge s1) H1) as H2.
  destruct (reference_binding_valid_with seen_work Judge s1) as [[] s2]; [done|]. by apply stop_if_inactive.
Qed.

Lemma ready_dormant (s : S) m : m <> Active -> dormant s -> dormant (set_adm (with_modes m (sv_control_mode (adm s)) (adm s)) s).
Proof.
  intros Hm [[A P E] Hs]. split; [split; [exact A|exact P|]|exact Hm]. cbn. intros He. by destruct (Hs (E He)).
Qed.

Lemma home_rests (s : S) : guarded s -> rests s (set_homing_complete seen_work s).2.
Proof.
  intros G. unfold set_homing_complete. pose proof (rests_kept _ _ (busy_kept seen_work s) G) as R1.
  destruct (reference_busy seen_work s) as [busy s1]. cbn [snd] in R1. destruct busy; [exact R1|].
  destruct (rbind _ _) as [u| |] eqn:Er; [|exact R1..]. bind_inv Er. bind_inv Er. bsimp.
  assert (Hi : inactive s1) by (by eapply bool_decide_eq_false). pose proof (ensure_for_guarded seen_work (Config.robot_joints (robot (installed s1))) s1 (proj1 R1)) as G2.
  unfold ensure_reference_for in *. pose proof (binding_inactive s1 Hi) as Hi2.
  destruct (ensure_reference_binding seen_work s1) as [[v|e|] s2]; cbn [snd] in *; [|by apply rests_dormant; split; [apply G2|]..].
  apply rests_dormant. destruct (require_reference_permission _ s2); [|split; [apply G2|done]..].
  eapply dormant_kept; [apply sync_kept|]. apply (ready_dormant s2 Ready); [done|]. split; [apply G2|done].
Qed.

(** ** Acquisition *)

Lemma reserve_dormant q policy next address overall first (s : S) : dormant s -> dormant (reserve q policy next address overall first s).2.
Proof.
  intros D. unfold reserve. destruct (Authority.invalidate_joint_for_acquisition _ _) as [[gen|] a] eqn:Ea; [|exact D].
  pose proof (drops_one (Authority.OInvalidateJoint (rq_joint q)) (authority s)) as Ho. cbn in Ho. rewrite Ea in Ho. specialize (Ho ltac:(by intros j [])). cbn in Ho.
  destruct (Evidence.mark_owner_work_frame (set_authority a s)) as (p & k & ->). destruct D as [[A P E] Hs].
  split; [split|]; cbn; [by eapply drops_authority_ok|exact P| |done]. intros He. by destruct (Hs (E He)).
Qed.

Lemma request_preflight_session j sign (s : S) : kept s (reference_request_preflight to_value value_len encode_policy j sign s).2.
Proof.
  unfold reference_request_preflight. pose proof (inspected_session _ _ (valid_inspected to_value value_len encode_policy s)) as K.
  by destruct (reference_binding_valid _ _ _ s) as [v s1].
Qed.

Lemma begin_fresh_rests q (s : S) : guarded s -> rests s (begin_fresh to_value value_len encode_policy q s).2.
Proof.
  intros G. unfold begin_fresh. pose proof (inspected_session _ _ (observe_inspected to_value value_len encode_policy s)) as K1.
  set (s1 := observe_reference_commits _ _ _ s) in *. destruct (_ || _); [by apply rests_kept|]. destruct (_ <? _); [by apply rests_kept|].
  pose proof (inspected_session _ _ (valid_inspected to_value value_len encode_policy s1)) as K2.
  destruct (reference_binding_valid _ _ _ s1) as [v s2]. cbn [snd] in K2. assert (K : kept s s2) by by etransitivity.
  destruct (rbind _ _) as [[next policy]| |]; [|by apply rests_kept..].
  pose proof (request_preflight_session (rq_joint q) (Some (rq_sign_verified q)) s2) as K3.
  destruct (reference_request_preflight _ _ _ _ _ s2) as [x s3]. cbn [snd] in K3. assert (K' : kept s s3) by by etransitivity.
  destruct x as [u| |]; [|by apply rests_kept..]. case_bool_decide as Hm; [by apply rests_kept|].
  destruct (homing_timeout _ s3) as [timeout| |]; [|by apply rests_kept..].
  unfold backend_now. pose proof (tick_kept s3) as K4. destruct (tick s3) as [t s4]. cbn [snd] in K4. assert (K5 : kept s s4) by by etransitivity.
  destruct (rbind _ _) as [[[overall first] address]| |]; [|by apply rests_kept..].
  apply rests_dormant, reserve_dormant. split; [eapply steady_kept; [exact K5|apply G]|eapply kept_inactive; [exact K4|exact Hm]].
Qed.

Lemma request_rests j sign audit (s : S) : guarded s -> rests s (request_reference display_commit to_value value_len encode_policy j sign audit s).2.
Proof.
  intros G. unfold request_reference. destruct (_ || _); [by apply rests_refl|]. destruct (negb _); [by apply rests_refl|].
  destruct (bool_decide _); [by apply rests_refl|]. pose proof (rests_kept _ _ (snapshot_session to_value value_len encode_policy s) G) as R1.
  destruct (reference_snapshot _ _ _ s) as [n s1]. cbn [snd] in R1. destruct (sn_next_stamp n) as [stamp|]; [|exact R1].
  apply (rests_after s s1); [exact R1|]. intros G1. set (q := mkRequest stamp _ _ _).
  assert (R2 : rests s1 (begin_reference to_value value_len encode_policy q s1).2).
  { unfold begin_reference. destruct (negb _); [by apply rests_refl|]. destruct (negb _); [by apply rests_refl|].
    destruct (find_first _ _); [by apply rests_refl|]. destruct (w_reservation _); [by apply rests_refl|by apply begin_fresh_rests]. }
  destruct (begin_reference _ _ _ q s1) as [[h|e|] s2]; cbn [snd] in R2; [|exact R2..].
  apply (rests_after s1 s2); [exact R2|]. intros G2. apply rests_kept; [by split|done].
Qed.

Lemma outcome_session h (s : S) : kept s (reference_outcome debug_cause debug_commit to_value value_len encode_policy h s).2.
Proof.
  unfold reference_outcome. pose proof (snapshot_session to_value value_len encode_policy s) as K. destruct (reference_snapshot _ _ _ s) as [n s1].
  cbn [snd] in K. destruct (_ || _); [exact K|]. destruct (request_failure _ _); [exact K|]. destruct (negb _); [exact K|].
  match goal with |- context[match ?x with Some _ => _ | None => (Err ROutcomeExpired, s1) end] => destruct x as [o|] end; [|exact K]. destruct (negb _); [exact K|]. destruct (entry_for_acquisition _ _) as [e|]; [|exact K].
  pose proof (commit_snapshot_session to_value value_len encode_policy (e_handle e) s1) as K2.
  destruct (reference_commit_snapshot _ _ _ _ s1) as [[m|x|] s2]; by etransitivity.
Qed.

(** ** Shutdown *)

Lemma cancelled_rests (s : S) : guarded s ->
  let '(t, s') := cancel_reference_for_shutdown to_value value_len encode_policy s in rests s s' /\ (t <> None -> inactive s').
Proof.
  intros G. unfold cancel_reference_for_shutdown. set (s1 := if is_empty _ then s else revoke_all s).
  assert (K1 : kept s s1) by (unfold s1; destruct (is_empty _); [reflexivity|apply revoke_kept]).
  set (w := invalidate_retained_stages _ _). set (s2 := set_rwork w s1). assert (K2 : kept s s2) by (etransitivity; [exact K1|by split]).
  set (s3 := if bool_decide _ then revoke_all s2 else s2).
  assert (K3 : kept s s3) by (unfold s3; destruct (bool_decide _); [etransitivity; [exact K2|apply revoke_kept]|exact K2]).
  set (s4 := set_rwork _ s3). assert (K4 : kept s s4) by (etransitivity; [exact K3|by split]).
  destruct (reserved (rwork s4)) eqn:Er; cbn [negb]; [|split; [by apply rests_kept|done]].
  pose proof (finish_dormant to_value value_len encode_policy (CCancelled CancelShutdown) None None s4) as D.
  destruct (finish_reference _ _ _ _ _ _ s4) as [r s5]. assert (D5 : dormant s5).
  { apply D; [eapply steady_kept; [exact K4|apply G]|]. intros [?|E]; [done|]. unfold reserved in Er. by rewrite E, bool_decide_false in Er by (by intros []). }
  split; [by apply rests_dormant|by intros _; apply D5].
Qed.

End Owner.

(** ** The two invariants *)

Section Instances.
Context {B : Type} `{CanBus B} {V : Type} `{EqDecision V}.
Variable display_reference : ReferenceError -> string.
Variable display_commit : ReferenceCommitError -> string.
Variable debug_cause : ReferenceCause -> string.
Variable debug_commit : ReferenceCommitPhase -> ReferenceJournalResult -> ReferenceStageStatus -> string.
Variable to_value : list Config.MotorEntry -> Config.ControlSection -> Config.HomingSection -> result string V.
Variable value_len : V -> result string Z.
Variable encode_policy : Authority.TypedPolicy -> result string (list Z).

Abbreviation seen_work := (Acquire.observed (B := B) to_value value_len encode_policy).

Definition Driver : RefQueue.ReferenceDriver (Sup B (Work V)) ReferenceHandle :=
  RefQueue.SupervisorDriver display_reference display_commit debug_cause debug_commit to_value value_len encode_policy.

Lemma driver_request_rests j a (s : Sup B (Work V)) : guarded s -> WorkGuard.rests s (RefQueue.driver_request (ReferenceDriver := Driver) j a s).2.
Proof.
  intros G. pose proof (request_rests display_commit to_value value_len encode_policy j true a s G) as R. unfold Driver. cbn.
  by destruct (request_reference _ _ _ _ _ _ _ s).
Qed.

Lemma driver_outcome_rests h (s : Sup B (Work V)) : guarded s -> WorkGuard.rests s (RefQueue.driver_outcome (ReferenceDriver := Driver) h s).2.
Proof.
  intros G. pose proof (outcome_session debug_cause debug_commit to_value value_len encode_policy h s) as K. unfold Driver. cbn.
  destruct (reference_outcome _ _ _ _ _ _ s) as [r s']. by apply rests_kept.
Qed.

Lemma guarded_process : ProcessInvariant (ReferenceDriver0 := Driver) seen_work guarded.
Proof.
  split.
  - intros s G. by apply home_rests.
  - intros s G. by apply enforce_guarded.
  - intros j a s G. by apply driver_request_rests.
  - intros h s G. by apply driver_outcome_rests.
Qed.

Lemma resting_process : ProcessInvariant (ReferenceDriver0 := Driver) seen_work resting.
Proof.
  split.
  - intros s [G Hs]. destruct (home_rests to_value value_len encode_policy s G). split; auto.
  - intros s [G Hs]. split; [by apply enforce_guarded|by apply enforce_inactive].
  - intros j a s [G Hs]. destruct (driver_request_rests j a s G). split; auto.
  - intros h s [G Hs]. destruct (driver_outcome_rests h s G). split; auto.
Qed.

End Instances.

(** ** The process *)

Section Process.
Context {B : Type} `{CanBus B} {V : Type} `{EqDecision V}.
Variable display : DavoutError -> string.
Variable display_loop : LoopError -> string.
Variable display_overlay : Overlay.OverlayError -> string.
Variable display_config : Config.ConfigError -> string.
Variable display_bus : BusError -> string.
Variable display_reference : ReferenceError -> string.
Variable display_commit : ReferenceCommitError -> string.
Variable display_f64 : f64 -> string.
Variable debug_cause : ReferenceCause -> string.
Variable debug_commit : ReferenceCommitPhase -> ReferenceJournalResult -> ReferenceStageStatus -> string.
Variable debug_lease : Reporting.ActiveReportingLeaseError -> string.
Variable display_frame : ReceiveFrameEvidence -> string.
Variable to_value : list Config.MotorEntry -> Config.ControlSection -> Config.HomingSection -> result string V.
Variable value_len : V -> result string Z.
Variable encode_policy : Authority.TypedPolicy -> result string (list Z).
Variable fuel : nat.
Variables exp tanh cos sin : f64 -> f64.
Variable dynamics : DynamicsModel.
Variable chappe : option (list JointState -> bool).
Variable fits : Config.RobotSection -> list Limits.UrdfJoint -> result message unit.
Variable publish : SafetyState -> bool.
Variable files : EnableFiles.
Variable lease : MotionLease.
Variable config_dir : string.

Abbreviation seen_work := (Acquire.observed (B := B) to_value value_len encode_policy).
Abbreviation work := (physical_work display display_bus display_reference display_commit display_f64 to_value value_len encode_policy).
#[local] Instance driver : RefQueue.ReferenceDriver (Sup B (Work V)) ReferenceHandle :=
  Driver display_reference display_commit debug_cause debug_commit to_value value_len encode_policy.
Abbreviation PS := (Pi (B := B) (R := Work V) (Hd := ReferenceHandle)).

Abbreviation commands i k := (commands_phase seen_work display display_loop display_overlay display_config debug_lease fuel fits files lease config_dir i k).
Abbreviation pass period i := (control_pass seen_work display display_loop display_overlay display_config debug_lease display_frame fuel exp tanh cos sin
  dynamics work chappe fits publish files lease config_dir period i).
Abbreviation passes period inputs := (run_passes seen_work display display_loop display_overlay display_config debug_lease display_frame fuel exp tanh cos sin
  dynamics work chappe fits publish files lease config_dir period inputs).

#[local] Existing Instance guarded_session.
#[local] Existing Instance resting_session.
#[local] Instance loop_guarded : LoopInvariant seen_work display fuel work false guarded := guarded_loop seen_work display fuel work (physical_rests _ _ _ _ _ _ _ _).
#[local] Instance loop_resting : LoopInvariant seen_work display fuel work true resting := resting_loop seen_work display fuel work (physical_rests _ _ _ _ _ _ _ _).
#[local] Instance process_guarded : ProcessInvariant seen_work guarded := guarded_process _ _ _ _ _ _ _.
#[local] Instance process_resting : ProcessInvariant seen_work resting := resting_process _ _ _ _ _ _ _.

(** The process with its supervisor in order. *)
Abbreviation sound := (ordered dynamics (closed := false) (quiet := false) (I := guarded (B := B) (R := Work V)) (Hd := ReferenceHandle)).
(** Inactive, and it takes an explicit Enable to change that. *)
Abbreviation waiting := (ordered dynamics (closed := true) (quiet := false) (I := resting (B := B) (R := Work V)) (Hd := ReferenceHandle)).
(** The same, and no Enable waits. *)
Abbreviation still := (ordered dynamics (closed := true) (quiet := true) (I := resting (B := B) (R := Work V)) (Hd := ReferenceHandle)).

Lemma sound_run period inputs (p : PS) : sound p -> sound (run_with_panic_stop seen_work (passes period inputs) p).2.
Proof.
  intros Hp. apply (ord_guarded_run seen_work display fuel dynamics work); [|exact Hp]. eapply ord_passes; first [apply _|done].
Qed.

Lemma still_run period inputs (p : PS) : Forall (pass_quiet lease) inputs -> still p -> still (run_with_panic_stop seen_work (passes period inputs) p).2.
Proof.
  intros Hi Hp. apply (ord_guarded_run seen_work display fuel dynamics work); [|exact Hp]. eapply ord_passes; first [apply _|done].
Qed.

(** The order of every stop: forbid, stop, leave the control mode. *)
Lemma stop_waits (p : PS) : sound p -> waiting (forbid_and_stop seen_work p).2.
Proof.
  intros [[G _] Hs _ _]. unfold forbid_and_stop. unfold sbind at 1. cbn [attempt on_loop on_world try_loop forbid_implicit_enable modify].
  match goal with |- context[sbind _ _ ?q] => set (p1 := q) end.
  assert (Hsup : supervisor (pi_loop p1) = supervisor (pi_loop p)) by done. assert (Hg : pi_gate p1 = pi_gate p) by done.
  assert (Hf : implicit_enable_forbidden (pi_loop p1) = true) by done. clearbody p1.
  assert (Hp2 : waiting (attempt_drive (disable_all seen_work) p1).2).
  { unfold attempt_drive, on_loop, on_world, try_drive. unfold pi_loop in Hsup. rewrite Hsup.
    pose proof (disable_guarded seen_work _ (gd_steady _ G)) as G2. pose proof (stopped_inactive seen_work (supervisor (Overlay.ow_loop (pi_world p)))) as I2.
    unfold pi_loop in *. destruct (disable_all seen_work _) as [[u|e|] s']; (split; [split; [by split|by intros _]|by rewrite <- Hg in Hs|done..]). }
  unfold sbind at 1. destruct (attempt_drive _ p1) as [[r|e|] p2]; [|destruct e|exact Hp2]. revert Hp2. cbn [snd]. generalize p2.
  apply pres_bind; [|intros _; apply pres_ret]. apply (ord_attempt dynamics). eapply loop_mode; apply _.
Qed.

Lemma sound_waits (p : PS) : sound p -> resting (supervisor (pi_loop p)) -> implicit_enable_forbidden (pi_loop p) = true -> waiting p.
Proof. intros [_ Hs _ _] Hr Hf. by split; [split|..]. Qed.

(** ** A pass in two parts *)

Definition front : Z -> Loop.st PS Empty_set bool := fun _ => ret true.

(** [y] goes on with [k] where [x] ends in true. *)
Definition follows (k : Loop.st PS Empty_set bool) (x y : result Empty_set bool * PS) : Prop :=
  match x with (Ok true, p) => y = k p | r => y = r end.

Lemma go_follows k m k1 k2 : (forall p : PS, follows k (k1 p) (k2 p)) -> forall p : PS, follows k (go m k1 p) (go m k2 p).
Proof.
  intros Hk p. unfold go, sbind. destruct (m p) as [[u|e|] p1]; [|destruct e|done]. destruct (requested p1) as [[[]|e|] p2]; [done|apply Hk|destruct e|done].
Qed.

Lemma commands_then i k (p : PS) : exists t, follows (k t) (commands i front p) (commands i k p).
Proof.
  unfold commands_phase, sbind. destruct (requested p) as [[[]|e|] p1]; [by exists 0| |destruct e|by exists 0].
  destruct (current p1) as [[t|e|] p2]; [|destruct e|by exists 0]. exists t.
  destruct (stdin_phase _ _ _ _ _ _ _ _ p2) as [[ending|e|] p3]; [|destruct e|done]. destruct ending; [|done..].
  do 4 (apply go_follows; intros ?). done.
Qed.

Lemma uninvalidated (sw : Preflight.GravitySweep) (l : ControlLoop B (Work V)) queued : Preflight.invalidated sw l queued = None ->
  Forall (fun j => Preflight.policy_current (supervisor l) j = true) (Preflight.sw_joints sw).
Proof.
  unfold Preflight.invalidated. destruct (negb _); [done|]. destruct (_ && _); [done|]. destruct (_ || _); [done|].
  destruct (find_first _ _) as [j|] eqn:E; [done|]. intros _. apply Forall_forall. intros j Hj.
  apply negb_false_iff. by apply (proj1 (find_first_none _ _) E), list_elem_of_In.
Qed.

(** ** Disable *)

Lemma world_frame {A} (m : Loop.st (Overlay.OverlayWorld (B := B) (R := Work V)) Empty_set A) (p : PS) :
  pi_gate (on_world m p).2 = pi_gate p /\ pi_queue (on_world m p).2 = pi_queue p.
Proof. unfold on_world. by destruct (m (pi_world p)). Qed.

Lemma forbid_frame (p : PS) : pi_gate (forbid_and_stop seen_work p).2 = pi_gate p /\ pi_queue (forbid_and_stop seen_work p).2 = pi_queue p.
Proof.
  assert (Hk : preserves (fun q : PS => pi_gate q = pi_gate p /\ pi_queue q = pi_queue p) (forbid_and_stop seen_work)); [|by apply Hk].
  unfold forbid_and_stop. repeat (apply pres_bind; [intros q [E1 E2]; unfold attempt, attempt_drive, on_loop;
    match goal with |- context[on_world ?m q] => destruct (world_frame m q) as [-> ->] end; by split|intros ?]). apply pres_ret.
Qed.

(** Nothing is held that a stop does not discard: the gate discards what waits
    for a sweep with the sweep. *)
Definition discards_held (g : EnableGate) : Prop :=
  preflight_pending g = true \/ (g_deferred_chappe g = [] /\ Forall harmless (g_deferred_stdin g)).

Lemma ended_shut a (g : EnableGate) : discards_held g -> gate_shut (end_preflight a g).2.
Proof.
  intros Hd. pose proof (end_preflight_spec a g) as Hn. unfold end_preflight, discards_held, preflight_pending in *.
  destruct (g_preflight g) as [pend|] eqn:E.
  - split; [exact Hn|by destruct (pp_then pend)..].
  - destruct Hd as [?|[H1 H2]]; [done|]. by split.
Qed.

Lemma cancelled_shut (g : EnableGate) : discards_held g -> gate_shut (gate_cancel g).2.
Proof.
  intros Hd. pose proof (ended_shut (Some Preflight.AbortDisabled) g Hd) as Hs. unfold gate_cancel. destruct (end_preflight _ g) as [ls g1]. cbn in Hs |- *.
  destruct Hs. by split.
Qed.

Lemma stopped_still (p q : PS) g : waiting p -> gate_shut g -> pi_world q = pi_world p -> pi_gate q = g ->
  pi_queue q = (RefQueue.queue_cancel (pi_queue p)).2 -> still q.
Proof.
  intros [Hl _ _ _] Hg Ew Eg Eq. split; [unfold pi_loop in *; by rewrite Ew| |intros _; by rewrite Eg|].
  - unfold sweep_fine. by rewrite Eg, (gs_preflight _ Hg).
  - intros _. rewrite Eq. apply queue_cancel_shut.
Qed.

Abbreviation stdin_disable := (handle_command seen_work display display_loop fuel files config_dir DisableCmd).
Abbreviation chappe_enable r := (handle_chappe_enable seen_work display r).

Lemma stdin_disabled (p p' : PS) b : sound p -> discards_held (pi_gate p) -> stdin_disable p = (Ok b, p') -> still p'.
Proof.
  intros Hp Hd. cbn [handle_command]. unfold sbind at 1. pose proof (stop_waits p Hp) as Hw. destruct (forbid_frame p) as [Eg Eq].
  destruct (forbid_and_stop seen_work p) as [[r|e|] p1]; [|destruct e|discriminate]. cbn [snd] in *. rewrite <- Eg in Hd.
  destruct r as [e|u]; unfold sbind, say, say_err, emit, modify, cancel_queue, with_gate, Loop.ret, Loop.get; cbn;
    destruct (RefQueue.queue_cancel (pi_queue p1)) as [es q] eqn:Eqc; cbn; pose proof (cancelled_shut _ Hd) as Hs;
    destruct (gate_cancel (pi_gate p1)) as [ls g]; cbn; intros [= <- <-]; apply (stopped_still p1 _ g Hw Hs); first [done|by rewrite Eqc].
Qed.

Lemma chappe_disabled (p p' : PS) r x : sound p -> discards_held (pi_gate p) -> er_enable r = false -> chappe_enable r p = (Ok x, p') -> still p'.
Proof.
  intros Hp Hd Er. unfold handle_chappe_enable. unfold sbind at 1, Loop.get at 1. rewrite Er. unfold sbind at 1. pose proof (stop_waits p Hp) as Hw.
  destruct (forbid_frame p) as [Eg Eq]. destruct (forbid_and_stop seen_work p) as [[s|e|] p1]; [|destruct e|discriminate]. cbn [snd] in *.
  rewrite <- Eg in Hd. unfold sbind, emit, modify, cancel_queue, with_gate, Loop.ret, Loop.get; cbn.
  destruct (RefQueue.queue_cancel (pi_queue p1)) as [es q] eqn:Eqc. cbn. pose proof (ended_shut (Some Preflight.AbortDisabled) _ Hd) as Hs.
  destruct (end_preflight _ (pi_gate p1)) as [ls g]. cbn. intros [= <- <-]. apply (stopped_still p1 _ g Hw Hs); first [done|by rewrite Eqc].
Qed.

Lemma stdin_disable_gate (p p' : PS) b : stdin_disable p = (Ok b, p') ->
  pi_gate p' = (gate_cancel (pi_gate p)).2 /\ RefQueue.is_busy (pi_queue p') = false.
Proof.
  cbn [handle_command]. unfold sbind at 1. destruct (forbid_frame p) as [Eg Eq].
  destruct (forbid_and_stop seen_work p) as [[r|e|] p1]; [|destruct e|discriminate]. cbn [snd] in *. rewrite <- Eg.
  destruct r as [e|u]; unfold sbind, say, say_err, emit, modify, cancel_queue, with_gate, Loop.ret, Loop.get; cbn;
    destruct (RefQueue.queue_cancel (pi_queue p1)) as [es q] eqn:Eqc; cbn;
    destruct (gate_cancel (pi_gate p1)) as [ls g]; cbn; intros [= <- <-]; (split; [done|]); by injection Eqc as _ <-.
Qed.

(** ** Theorems *)

(** C6: the whole process keeps its supervisor in order.  Whatever commands of
    either source arrive in whatever passes, and also when a pass panics, the
    supervisor stays in order (well-formed grants and plans, an episode only while
    Active, never Active with a fault latched) and the sweep in the gate is one in
    progress; a run that panicked ends inactive, with implicit Enable forbidden. *)
Theorem process_keeps_supervisor (period : Z) (inputs : list Inputs) (p : PS) :
  guarded (supervisor (pi_loop p)) -> sweep_fine dynamics (pi_gate p) ->
  let '(r, p') := run_with_panic_stop seen_work (passes period inputs) p in
  guarded (supervisor (pi_loop p')) /\ sweep_fine dynamics (pi_gate p')
  /\ exists panicked, r = Ok panicked
     /\ (panicked = true -> mode (adm (supervisor (pi_loop p'))) <> Active /\ implicit_enable_forbidden (pi_loop p') = true).
Proof.
  intros G Hs. assert (Hp : sound p) by (by split; [split|..]).
  pose proof (sound_run period inputs p Hp) as Hr. unfold run_with_panic_stop in *.
  assert (Hb : sound (passes period inputs p).2) by (eapply ord_passes; first [apply _|done]).
  destruct (passes period inputs p) as [[u|e|] p1]; [|destruct e|]; cbn [snd] in *; destruct Hr as [[G1 _] S1 _ _].
  - split; [exact G1|]. split; [exact S1|]. by exists false.
  - split; [exact G1|]. split; [exact S1|]. exists true. split; [done|]. intros _.
    destruct (stop_waits p1 Hb) as [[[_ Hi] Hf] _ _ _]. split; [exact Hi|by apply Hf].
Qed.

(** C7: only the motion owner's Enable activates.  A process at rest (inactive, no
    implicit Enable, no Enable waiting anywhere) stays inactive through any passes
    in which the owner sends no Enable, whatever else either source sends: motion
    commands of the owner, Enables of the other source, references, Testing
    batches, tuning. *)
Theorem owner_enables (period : Z) (inputs : list Inputs) (p : PS) :
  resting (supervisor (pi_loop p)) -> implicit_enable_forbidden (pi_loop p) = true ->
  gate_shut (pi_gate p) -> queue_shut (pi_queue p) -> Forall (pass_quiet lease) inputs ->
  mode (adm (supervisor (pi_loop (passes period inputs p).2))) <> Active.
Proof.
  intros Hr Hf Hg Hq Hi. assert (Hp : still p).
  { split; [by split| |by intros _|by intros _]. unfold sweep_fine. by rewrite (gs_preflight _ Hg). }
  assert (Hs : still (passes period inputs p).2) by (eapply ord_passes; first [apply _|done]). apply Hs.
Qed.

(** C8: an activation has been vouched for.  When a pass begins at rest and with
    implicit Enable forbidden but ends Active, then, after it had taken its commands, the gate held the sweep of an Enable that no stop, fault, reference
    or limit change had voided, and that finished in this pass: at every point of
    its grid the model gave finite torques within the feed-forward limits, which
    are the limits in force. *)
Theorem activation_vouched (period : Z) (i : Inputs) (p : PS) :
  resting (supervisor (pi_loop p)) -> implicit_enable_forbidden (pi_loop p) = true -> sweep_fine dynamics (pi_gate p) ->
  mode (adm (supervisor (pi_loop (pass period i p).2))) = Active ->
  exists p1 pend, commands i front p = (Ok true, p1) /\ passing dynamics Preflight.PER_TICK p1 pend
    /\ (forall b, pp_then pend <> TestingBatch b)
    /\ Forall (fun j => Preflight.policy_current (supervisor (pi_loop p1)) j = true) (Preflight.sw_joints (pp_sweep pend))
    /\ Preflight.vouches dynamics (Preflight.sw_joints (pp_sweep pend)).
Proof.
  intros Hr Hf Hs Ha. assert (Hp : waiting p) by (by split; [split|..]).
  assert (Hc : waiting (commands i front p).2) by (eapply ord_commands; first [apply _|done|intros; apply pres_ret]).
  unfold control_pass in Ha. match type of Ha with context[commands i ?K p] => destruct (commands_then i K p) as [t Ht] end.
  unfold follows in Ht. destruct (commands i front p) as [[[]|e|] p1]; [|rewrite Ht in Ha; destruct (proj2 (proj1 (od_loop _ _ Hc)) Ha)|destruct e|
    rewrite Ht in Ha; destruct (proj2 (proj1 (od_loop _ _ Hc)) Ha)].
  rewrite Ht in Ha. cbn [snd] in Hc. exists p1.
  destruct (gravity_cases seen_work display fuel dynamics work files Preflight.PER_TICK p1 Hc) as [Ho|(pend & Hpass & Hthen)].
  - exfalso. match type of Ha with mode (adm (supervisor (pi_loop (go ?m ?k p1).2))) = _ => assert (Hw : waiting (go m k p1).2) end.
    { eapply go_from; [exact Ho|]. eapply ord_rest; apply _. }
    destruct (proj2 (proj1 (od_loop _ _ Hw)) Ha).
  - exists pend. split; [done|]. split; [exact Hpass|]. split; [exact Hthen|]. destruct Hpass as (Eg & Ei & stats & sw & l & Ea).
    pose proof (od_sweep _ _ Hc) as Hsw. unfold sweep_fine in Hsw. rewrite Eg in Hsw. split; [by eapply uninvalidated|].
    apply Preflight.advance_spec in Ea as (Hs1 & Hc1 & He & Hw); [|exact Hsw]. exact (Preflight.pass_vouches dynamics _ _ Hs1 Hc1 He Hw).
Qed.

(** C9: Disable prevails, from either source and whoever owns motion.  Once a
    Disable was carried out, the process is inactive and stays so through any
    passes in which the owner sends no Enable: the sweep in progress, what waited
    behind it and the reference queue are dropped, and no motion command, Testing
    batch or reference enables again.  (What the gate holds without a sweep, see
    [held_enable_outlives_disable].) *)
Theorem disable_prevails (period : Z) (inputs : list Inputs) (p p' : PS) :
  guarded (supervisor (pi_loop p)) -> sweep_fine dynamics (pi_gate p) -> discards_held (pi_gate p) ->
  (exists b, stdin_disable p = (Ok b, p')) \/ (exists r x, er_enable r = false /\ chappe_enable r p = (Ok x, p')) ->
  Forall (pass_quiet lease) inputs ->
  mode (adm (supervisor (pi_loop (passes period inputs p').2))) <> Active.
Proof.
  intros G Hs Hd Hdis Hi. assert (Hp : sound p) by (by split; [split|..]).
  assert (Hp' : still p') by (destruct Hdis as [[b E]|(r & x & Er & E)]; [by eapply stdin_disabled|by eapply chappe_disabled]).
  assert (Hr : still (passes period inputs p').2) by (eapply ord_passes; first [apply _|done]). apply Hr.
Qed.

(** C39: a Chappe Enable that was held behind a sweep which then passed outlives a
    Disable typed before the held requests are taken up: it is the first thing the
    same pass takes from the gate, and it starts a new sweep. *)
Theorem held_enable_outlives_disable (p p' : PS) (r : EnableRequest) (rest : list EnableRequest) (b : bool) :
  preflight_pending (pi_gate p) = false -> g_deferred_chappe (pi_gate p) = r :: rest -> er_enable r = true ->
  stdin_disable p = (Ok b, p') ->
  exists g, take_ready_chappe_enable (pi_gate p') = (Some r, g)
    /\ forall sw l, Preflight.start (pi_loop p') = (Ok (Some sw), l) ->
       exists p2, chappe_enable r (set_gate g p') = (Ok None, p2) /\ g_preflight (pi_gate p2) = Some (mkPreflight sw (ChappeEnable r)).
Proof.
  intros Hn Hh Er Hd. destruct (stdin_disable_gate p p' b Hd) as [Eg Eb]. exists (set_deferred_chappe rest (pi_gate p')).
  assert (Hn' : g_preflight (pi_gate p) = None) by (unfold preflight_pending in Hn; destruct (g_preflight (pi_gate p)); [|done]; by rewrite bool_decide_true in Hn by eauto).
  unfold gate_cancel, end_preflight in Eg. rewrite Hn' in Eg. cbn in Eg.
  assert (Hp' : g_preflight (pi_gate p') = None) by (by rewrite Eg). assert (Hc' : g_deferred_chappe (pi_gate p') = r :: rest) by (by rewrite Eg).
  split. { unfold take_ready_chappe_enable, preflight_pending. by rewrite Hp', bool_decide_false, Hc' by (by intros []). }
  intros sw l Hl. unfold handle_chappe_enable, sbind, Loop.get. rewrite Er. cbn [pi_queue pi_gate set_gate]. rewrite Eb.
  unfold preflight_pending. cbn [g_preflight set_deferred_chappe]. rewrite Hp', bool_decide_false by (by intros []).
  unfold start_sweep, sbind, attempt, on_loop, on_world, try_loop. unfold pi_loop in Hl. cbn [pi_world set_gate]. rewrite Hl.
  unfold begin_sweep, sbind, Loop.get, begin_preflight, preflight_pending. cbn. rewrite Hp'. cbn. eexists. split; reflexivity.
Qed.

End Process.

(** ** Leaving the process *)

Section Leaving.
Context {B : Type} `{CanBus B} {V : Type} `{EqDecision V}.
Variable display_bus : BusError -> string.
Variable to_value : list Config.MotorEntry -> Config.ControlSection -> Config.HomingSection -> result string V.
Variable value_len : V -> result string Z.
Variable encode_policy : Authority.TypedPolicy -> result string (list Z).
Variable persist_done : Persist.PersistSlot -> Persist.PersistSlot * bool.
Variable journal_done : Journal.State Input -> Journal.State Input * bool.

Abbreviation S := (Sup B (Work V)).
Abbreviation World := (Overlay.OverlayWorld (B := B) (R := Work V)).
Abbreviation seen_work := (Acquire.observed (B := B) to_value value_len encode_policy).
Abbreviation shutdown := (finish_owner_shutdown display_bus to_value value_len encode_policy persist_done journal_done).

#[local] Instance leaving_preorder : PreOrder (kept (B := B) (R := Work V)) := kept_preorder.

Lemma exit_drive_kept t m (s : S) : kept s (Exit.exit_drive display_bus t m s).2.
Proof.
  unfold Exit.exit_drive. destruct (is_shed _ _); [reflexivity|]. destruct (set_zero_blackout_possible _ _ _); [reflexivity|].
  destruct (disable_active_reporting_at _ _) as [r b]. destruct (error_of r); by split.
Qed.

Lemma exit_pass_kept t ms : forall outs next (s : S), kept s (Exit.exit_pass display_bus t ms outs next s).2.
Proof.
  induction ms as [|m ms IH]; intros [|[o|] outs] next s; cbn [Exit.exit_pass]; try reflexivity.
  - specialize (IH outs next s). by destruct (Exit.exit_pass _ _ _ _ _ s) as [[rest nx] s1].
  - pose proof (exit_drive_kept t m s) as K. destruct (Exit.exit_drive _ t m s) as [[o|q] s1]; cbn [snd] in K.
    + specialize (IH outs next s1). destruct (Exit.exit_pass _ _ _ _ _ s1) as [[rest nx] s2]. by etransitivity.
    + specialize (IH outs (Exit.sooner next q) s1). destruct (Exit.exit_pass _ _ _ _ _ s1) as [[rest nx] s2]. by etransitivity.
Qed.

Lemma exit_rounds_kept deadline n : forall outs (s : S), kept s (Exit.exit_rounds display_bus n deadline outs s).2.
Proof.
  induction n as [|n IH]; intros outs s; cbn [Exit.exit_rounds]; [reflexivity|]. pose proof (tick_kept s) as K. destruct (tick s) as [t s1]. cbn [snd] in K.
  pose proof (exit_pass_kept t (stop_motors s1) outs None s1) as K2. destruct (Exit.exit_pass _ _ _ _ _ s1) as [[outs1 next] s2]. cbn [snd] in K2.
  assert (K3 : kept s s2) by by etransitivity. destruct next as [q|]; [|exact K3]. destruct (q <=? deadline); [|exact K3].
  pose proof (tick_kept s2) as K4. destruct (tick s2) as [t2 s3]. cbn [snd] in K4. etransitivity; [exact K3|]. etransitivity; [exact K4|].
  etransitivity; [|apply IH]. by split.
Qed.

Lemma release_kept deadline (s : S) : kept s (Exit.release_reporting_for_exit display_bus deadline s).2.
Proof.
  unfold Exit.release_reporting_for_exit. set (s1 := Exit.set_released s). assert (K : kept s s1) by by split.
  match goal with |- context[Exit.exit_rounds _ ?n ?d ?o s1] => pose proof (exit_rounds_kept d n o s1) as K2; destruct (Exit.exit_rounds _ n d o s1) as [[x|e|] s2] end;
    by etransitivity.
Qed.

Lemma drained_kept (s : S) : kept s (drain_reference_journal_until journal_done s).2.
Proof.
  unfold drain_reference_journal_until. set (s1 := if bool_decide _ then revoke_all s else s).
  assert (K : kept s s1) by (unfold s1; destruct (bool_decide _); [apply revoke_kept|reflexivity]). clearbody s1.
  destruct (c_journal _) as [j|]; [destruct (journal_done _)|]; (etransitivity; [exact K|]); by split.
Qed.

(** Stopped, and the loop commands nothing. *)
Definition left_behind (w : World) : Prop :=
  resting (supervisor (Overlay.ow_loop w)) /\ stood_down (motion (Overlay.ow_loop w)).

Lemma left_call {A} (f : S -> A * S) : (forall s, kept s (f s).2) -> preserves left_behind (call f).
Proof.
  intros Hf w [[G Hi] Hd]. unfold call. specialize (Hf (supervisor (Overlay.ow_loop w))). destruct (f _) as [a s].
  split; [|exact Hd]. split; [by eapply guarded_kept|by eapply kept_inactive].
Qed.

(** The stop of the exit, after the reference work was cancelled. *)
Lemma exit_stop_leaves m (w : World) : guarded (supervisor (Overlay.ow_loop w)) -> stood_down (motion (Overlay.ow_loop w)) ->
  (m <> None -> inactive (supervisor (Overlay.ow_loop w))) ->
  left_behind (exit_stop to_value value_len encode_policy m w).2
  /\ forall o, (exit_stop to_value value_len encode_policy m w).1 = Ok o -> o <> ExitSkipped.
Proof.
  intros G Hd Hm. unfold exit_stop. destruct m as [t|].
  { split; [split; [split; [exact G|by apply Hm]|exact Hd]|]. by intros o [= <-]. }
  unfold sbind, call. pose proof (disable_guarded seen_work _ (gd_steady _ G)) as G2. pose proof (stopped_inactive seen_work (supervisor (Overlay.ow_loop w))) as I2.
  destruct (disable_all seen_work _) as [[u|e|] s']; (split; [by split; [split|]|]); by intros o [= <-].
Qed.

(** What follows the stop keeps it, and reports it. *)
Lemma after_stop_leaves stop mandatory timeout (w : World) : left_behind w ->
  let '(r, w') := drain_owner display_bus persist_done journal_done stop mandatory timeout w in
  left_behind w' /\ forall o, r = Ok o -> so_stop o = stop.
Proof.
  intros Hw. set (m := drain_owner _ _ _ _ _ _). cut (left_behind (m w).2 /\ forall o, (m w).1 = Ok o -> so_stop o = stop); [by destruct (m w)|].
  unfold m, drain_owner. clear m. split.
  - revert w Hw. apply pres_bind; [apply left_call, tick_kept|]. intros t. apply pres_bind.
    { intros w [[G Hi] Hd]. pose proof (release_kept (t + timeout) (supervisor (Overlay.ow_loop w))) as K.
      destruct (Exit.release_reporting_for_exit _ _ _) as [r s]. split; [|exact Hd]. split; [by eapply guarded_kept|by eapply kept_inactive]. }
    intros reporting. apply pres_bind; [by apply pres_modify|]. intros _. apply pres_bind; [apply left_call; by split|]. intros _.
    apply pres_bind; [apply left_call, tick_kept|]. intros t'. apply pres_bind.
    { intros w Hw. by destruct (persist_done _). }
    intros persist. apply pres_bind; [apply left_call, drained_kept|]. intros j. apply pres_ret.
  - intros o. unfold sbind, call, modify, Loop.ret. destruct (tick _) as [t s1]. destruct (Exit.release_reporting_for_exit _ _ _) as [[r|e|] s2]; [|destruct e|discriminate].
    destruct (tick _) as [t' s3]. destruct (persist_done _) as [slot done]. destruct (drain_reference_journal_until _ _) as [j s4].
    by intros [= <-].
Qed.

(** C10: the process ends stopped.  Whatever state its owner is in, a shutdown that
    disables on exit leaves the supervisor in order and inactive and the loop
    commanding nothing, whether or not the writes reach the drives, a reference
    transaction was in progress or the writers answer in time; and the outcome
    reports a stop that was attempted. *)
Theorem shutdown_stops (timeout : Z) (w : World) :
  guarded (supervisor (Overlay.ow_loop w)) ->
  let '(r, w') := shutdown true timeout w in
  guarded (supervisor (Overlay.ow_loop w')) /\ mode (adm (supervisor (Overlay.ow_loop w'))) <> Active
  /\ stood_down (motion (Overlay.ow_loop w'))
  /\ forall o, r = Ok o -> so_stop o <> ExitSkipped.
Proof.
  intros G. unfold finish_owner_shutdown. unfold sbind at 1. unfold inhibit_motion_for_shutdown. rewrite discard_spec.
  set (l1 := set_sup _ _). assert (G1 : guarded (supervisor l1)) by exact (guarded_kept _ _ (control_mode_kept seen_work CDisabled _) G).
  assert (D1 : stood_down (motion l1)) by apply idle_down. clearbody l1. cbn beta iota.
  unfold sbind at 1, call at 1. cbn [Overlay.ow_loop Overlay.set_loop].
  pose proof (cancelled_rests to_value value_len encode_policy (supervisor l1) G1) as Hc.
  destruct (cancel_reference_for_shutdown _ _ _ (supervisor l1)) as [mandatory s2]. destruct Hc as [[G2 _] Hm].
  match goal with |- context[sbind (exit_stop _ _ _ mandatory) _ ?w2] => set (w1 := w2) end.
  destruct (exit_stop_leaves mandatory w1 G2 D1 Hm) as [Hl Ho]. unfold sbind at 1.
  destruct (exit_stop _ _ _ mandatory w1) as [[stop|e|] w2]; [|destruct e|]; cbn [fst snd] in *.
  - pose proof (after_stop_leaves stop mandatory timeout w2 Hl) as Ha. destruct (drain_owner _ _ _ _ _ _ w2) as [r w3].
    destruct Ha as [[[Ga Ia] Da] Hs]. split; [exact Ga|]. split; [exact Ia|]. split; [exact Da|]. intros o Eo. rewrite (Hs o Eo). by apply Ho.
  - destruct Hl as [[Ga Ia] Da]. split; [exact Ga|]. split; [exact Ia|]. split; [exact Da|done].
Qed.

End Leaving.

(** ** A bench process of one joint *)

Abbreviation BenchPi := (Pi (B := Reporting.Spy MemoryBus) (R := Work unit) (Hd := ReferenceHandle)).

Definition bench_overlay : Overlay.ActuatorOverlay := Overlay.overlay_new (Overlay.mkAllowlist {[Authority.pitch]}).
Definition bench_world (s : Owner.BenchSup) : Overlay.OverlayWorld := Overlay.mkWorld (bench_loop s None 0) [] bench_overlay.
Definition bench_pi (s : Owner.BenchSup) (g : EnableGate) : BenchPi :=
  mkPi (bench_world s) (RefQueue.queue_new "s") g pacer_default unpublished_default 0 false (fun _ => false) 0 [].

Definition no_debug (_ : ReferenceCommitPhase) (_ : ReferenceJournalResult) (_ : ReferenceStageStatus) : string := "".
Definition fits_all (_ : Config.RobotSection) (_ : list Limits.UrdfJoint) : result message unit := Ok tt.
Definition published (_ : SafetyState) : bool := true.

Abbreviation bench_driver := (driver Owner.no_text Owner.no_text Owner.no_text no_debug Owner.bench_value Owner.bench_len Owner.bench_encode).

Abbreviation bench_passes o inputs := (run_passes (ReferenceDriver0 := bench_driver) bench_seen Owner.no_text Owner.no_text Owner.no_text Owner.no_text Owner.no_text Owner.no_text 3 same same same same
  bench_model bench_physical None fits_all published bench_files (mkLease o) "" 0 inputs).
Abbreviation bench_disable := (handle_command bench_seen Owner.no_text Owner.no_text 3 bench_files "" DisableCmd).
Abbreviation at_bench thm := (thm Owner.no_text Owner.no_text Owner.no_text Owner.no_text Owner.no_text Owner.no_text Owner.no_text Owner.no_text
  Owner.no_text no_debug Owner.no_text Owner.no_text Owner.bench_value Owner.bench_len Owner.bench_encode 3%nat same same same same bench_model None fits_all published
  bench_files).

Lemma rest_resting : resting Owner.bench_owner.
Proof. split; [split; [split; [apply Authority.default_ok|constructor|done]|done]|done]. Qed.

(** Stdin owns motion: it asks for a hold, and Chappe for an Enable. *)
Definition foreign_enable : Inputs :=
  mkInputs [HoldOn; Status] [] [] [] [Message (Some (mkEnableRequest "consul" true))] [] [] false.

Lemma owner_enables_witness :
  mode (adm (supervisor (pi_loop (bench_passes Stdin [foreign_enable; foreign_enable] (bench_pi Owner.bench_owner gate_default)).2))) <> Active.
Proof.
  apply (at_bench owner_enables); [exact rest_resting|reflexivity|by split|by constructor|].
  repeat constructor; discriminate.
Defined.

Lemma process_keeps_supervisor_witness :
  guarded (supervisor (pi_loop (run_with_panic_stop bench_seen (bench_passes Chappe [foreign_enable]) (bench_pi silent_sup gate_default)).2)).
Proof.
  pose proof (at_bench process_keeps_supervisor (mkLease Chappe) "" 0 [foreign_enable] (bench_pi silent_sup gate_default) silent_guarded I) as Hk.
  revert Hk. match goal with |- context[run_with_panic_stop ?o ?m ?p] => generalize (run_with_panic_stop o m p) end. intros [r p'] (G & _). exact G.
Defined.

(** A bus with the one drive of the bench, which answers identity requests. *)
Record DriveBus : Type := mkDriveBus { db_memory : MemoryBus }.

#[local] Instance DriveBus_CanBus : CanBus DriveBus := {
  send_frame_to b a f :=
    let '(r, m) := send_frame_to (db_memory b) a f in
    (r, mkDriveBus (if Z.shiftr (cf_id f) 24 =? 0 then mkMemoryBus (tx m) (rx_queue m ++ [mkCanFrame (11 * 256 + 254) rest_uid true]) else m));
  recv_one_nonblocking b c := let '(r, m, c) := recv_one_nonblocking (db_memory b) c in (r, mkDriveBus m, c);
  receive_source_count _ := 1%nat;
  begin_receive b := b;
  echoes_transmissions _ := false;
  validate_address _ _ := Ok tt
}.

Abbreviation DrivePi := (Pi (B := DriveBus) (R := Work unit) (Hd := ReferenceHandle)).
Abbreviation drive_seen := (Acquire.observed (B := DriveBus) Owner.bench_value Owner.bench_len Owner.bench_encode).
Abbreviation drive_physical := (physical_work (B := DriveBus) Owner.no_text Owner.no_text Owner.no_text Owner.no_text Owner.no_text
  Owner.bench_value Owner.bench_len Owner.bench_encode).

(** Disabled, its joint permitted, its drive at rest. *)
Definition drive_sup : Sup DriveBus (Work unit) :=
  mkSup rest_session bench_installed false [Filter.bench_motor] rest_authority rest_devices Owner.bench_work Reporting.reporting_default no_session ∅
    no_tracking bench_loss false no_diagnostics (mkDriveBus (mkMemoryBus [] [])) bench_clock.
Definition drive_pi : DrivePi :=
  mkPi (Overlay.mkWorld (mkLoop drive_sup (mkSetup [Authority.pitch] [] 5000000 200 50000000) (bench_motion CDisabled)
          (mkSeen 0 None (Some 1000000000) 0 0 0) true None []) [] bench_overlay)
    (RefQueue.queue_new "s") gate_default pacer_default unpublished_default 0 false (fun _ => false) 0 [].

Abbreviation drive_pass o i := (control_pass (ReferenceDriver0 := bench_driver) drive_seen Owner.no_text Owner.no_text Owner.no_text Owner.no_text Owner.no_text
  Owner.no_text 6 same same same same bench_model drive_physical None fits_all published bench_files (mkLease o) "" 0 i).
Abbreviation at_drive thm := (thm Owner.no_text Owner.no_text Owner.no_text Owner.no_text Owner.no_text Owner.no_text Owner.no_text Owner.no_text
  Owner.no_text no_debug Owner.no_text Owner.no_text Owner.bench_value Owner.bench_len Owner.bench_encode 6%nat same same same same bench_model None fits_all published
  bench_files).
Abbreviation pi_mode p := (mode (adm (supervisor (pi_loop p)))).

(** An Enable typed by the owner: its sweep and the Enable fit in one pass. *)
Definition typed_enable : Inputs := mkInputs [EnableCmd "bench"] [] [] [] [] [] [] false.

Lemma drive_activates : pi_mode (drive_pass Stdin typed_enable drive_pi).2 = Active.
Proof. vm_compute. reflexivity. Qed.

Lemma drive_resting : resting (supervisor (pi_loop drive_pi)).
Proof.
  split; [split; [split|]|done]; [|constructor|done|by vm_compute].
  exact (Authority.run_ok [Authority.OSelect 7 100 (Authority.mkStamp 1 3) Authority.pitch Admission.bench_address 1 (Some rest_uid) Stop.bench_policy Authority.Accumulate]
    Authority.default_authority Authority.default_ok).
Qed.

Lemma activation_vouched_witness : exists p1 pend,
  passing bench_model Preflight.PER_TICK (p1 : DrivePi) pend /\ Preflight.vouches bench_model (Preflight.sw_joints (pp_sweep pend)).
Proof.
  destruct (at_drive activation_vouched (mkLease Stdin) "" 0 typed_enable drive_pi drive_resting eq_refl I drive_activates)
    as (p1 & pend & _ & Hp & _ & _ & Hv). by exists p1, pend.
Defined.

Definition held_request : EnableRequest := mkEnableRequest "consul" true.
(** The gate after the sweep of an earlier Enable has passed. *)
Definition held_gate : EnableGate := set_deferred_chappe [held_request] gate_default.

Lemma bench_disabled g : g = gate_default \/ g = held_gate -> exists p', bench_disable (bench_pi silent_sup g) = (Ok true, p').
Proof. intros [-> | ->]; apply Preflight.first_of; vm_compute; reflexivity. Qed.

Lemma disable_prevails_witness : exists p', bench_disable (bench_pi silent_sup gate_default) = (Ok true, p')
  /\ mode (adm (supervisor (pi_loop (bench_passes Stdin [foreign_enable; foreign_enable] p').2))) <> Active.
Proof.
  destruct (bench_disabled gate_default (or_introl eq_refl)) as [p' E]. exists p'. split; [exact E|].
  apply (at_bench disable_prevails (mkLease Stdin) "" 0 [foreign_enable; foreign_enable] (bench_pi silent_sup gate_default) p' silent_guarded I).
  - right. by split.
  - left. exists true. exact E.
  - repeat constructor; discriminate.
Defined.

Lemma held_enable_outlives_disable_witness : exists p' g, bench_disable (bench_pi silent_sup held_gate) = (Ok true, p')
  /\ take_ready_chappe_enable (pi_gate p') = (Some held_request, g).
Proof.
  destruct (bench_disabled held_gate (or_intror eq_refl)) as [p' E]. exists p'.
  destruct (held_enable_outlives_disable Owner.no_text Owner.no_text Owner.bench_value Owner.bench_len Owner.bench_encode 3 bench_files ""
    (bench_pi silent_sup held_gate) p' held_request [] true eq_refl eq_refl eq_refl E) as (g & Ht & _). exists g. auto.
Defined.

(** Two Enables of the owner in one pass, then a Disable typed at the console:
    the second Enable was held while the first one's sweep ran, the Disable does
    not drop it, and the pass that carried the Disable out ends Active. *)
Definition two_enables : Inputs := mkInputs [] [] [] [] [Message (Some held_request); Message (Some held_request)] [] [] false.
Definition typed_disable : Inputs := mkInputs [DisableCmd] [] [] [] [] [] [] false.

Example disable_undone :
  let p := (drive_pass Chappe two_enables drive_pi).2 in
  let p' := (drive_pass Chappe typed_disable p).2 in
  pi_mode p = Active /\ pi_mode p' = Active
  /\ In (OLine (LineOut (msg "disabled"))) (pi_output p').
Proof. vm_compute. auto. Qed.

Lemma shutdown_stops_witness :
  mode (adm (supervisor (Overlay.ow_loop (finish_owner_shutdown Owner.no_text Owner.bench_value Owner.bench_len Owner.bench_encode
    (fun s => (s, true)) (fun j => (j, true)) true 1000000000 (bench_world silent_sup)).2))) <> Active.
Proof.
  pose proof (shutdown_stops Owner.no_text Owner.bench_value Owner.bench_len Owner.bench_encode (fun s => (s, true)) (fun j => (j, true)) 1000000000
    (bench_world silent_sup) silent_guarded) as Hs.
  revert Hs. match goal with |- context[finish_owner_shutdown ?a ?b ?c ?d ?e ?f ?x ?y ?w] => generalize (finish_owner_shutdown a b c d e f x y w) end.
  intros [r w'] (_ & Hi & _). exact Hi.
Defined.

End PiResults.
